(* ===== verification/_CoqProject ===== *)
-Q . S2P
Prelude.v
Keeps.v
Bits.v
Types.v
Decode.v
Encode.v
Compressed.v
State.v
Cpu.v
Float.v
Fpu.v
Execute.v
Isa.v
SupTypes.v
Mmu.v
MmuSpec.v
Sbi.v
MmuSafe.v
SupState.v
SupTrap.v
Traps.v
SupCsr.v
Supervisor.v
SupSafe.v
SupPark.v
CsrProps.v
Plic.v
Stream.v
Virtio.v
VirtioSg.v
VirtioQueue.v
VirtioBlk.v
VirtioNet.v
VirtioSafe.v
P9Fs.v
Virtio9p.v
P9Safe.v
P9Props.v
DeviceBus.v
BusProps.v
BusWords.v
BusSafe.v
Fdt.v
Machine.v
BootTree.v
MachineProps.v
Snapshot.v
SnapshotProps.v
Wasm.v
Jit.v
JitPlan.v
WasmTyping.v
JitHost.v
JitAccess.v
JitAlu.v
JitStep.v
JitJump.v
JitSim.v
JitProps.v
BlockCache.v
BlockProps.v
BlockTrace.v
BlockInv.v
BlockLife.v
BusGeometry.v
WasmMachine.v
WasmGuard.v
WasmInv.v
WasmRun.v
WasmProps.v
