(* ===== verification/Prelude.v ===== *)
(** TabLinux: a RISC-V (RV64GC, Sv39) machine that boots Linux, verified.

    The program is a Rust workspace.  A hart ([crates/riscv-core]) executes
    instructions over a [Bus]; a supervisor layer ([crates/riscv-supervisor])
    adds privilege levels, CSRs, traps, the MMU and the SBI firmware around it;
    a device bus ([crates/riscv-devices]) puts DRAM, CLINT, UART, PLIC and
    virtio devices behind physical addresses; the machine
    ([crates/riscv-machine]) boots images into it and runs it.  The development
    follows that layering, one file or group of files for each part.

    * Conventions

    Integers are [Z] with the width written out: [as_u64], [as_i32] are the
    casts, [add_u], [sub_u], [mul_u] the checked operators, whose behaviour on
    overflow depends on [Profile] (the dev build panics, the release build
    wraps).  [usize] has the width of [Target] (64 bits natively, 32 on wasm32).
    A stateful function is a computation [M S A := S → option (A * S)]; [None]
    is a panic of the program.  A Rust [Option] or [Result] that the program
    returns is a value inside.  A trait is a class ([Bus], [VirtioDevice],
    [BlockBackend], [NetBackend], [HostConsole]), and what its clients rely on
    is a second class of laws ([BusOk], [DeviceOk], [DevicesOk], [WordMem]),
    which implementations discharge as instances: the devices those of [DeviceOk]
    and [DevicesOk]; the reference memory [Ram] those of [BusOk], which the device
    bus does not meet, as it panics on an access past its DRAM
    ([BusProps.dram_straddle_panics]); the reference memory and the device bus
    those of [WordMem], the latter for the words of its DRAM ([BusWords]).  The [libm] crate is the
    one third-party parameter ([Libm], with [LibmOk] for the range of results).
    Diagnostic output and environment variables are dropped.

    * Files

    - Prelude, Keeps, Bits: integers, the panic monad and its weakest
      precondition [wp], preservation of invariants [keeps], and a reflective
      procedure for bit fields.
    - Types, Decode, Encode, Compressed ([riscv-core/src/types.rs, decode.rs,
      encode.rs, compressed.rs]): the instruction enum, both decoders and the
      assembler.
    - State, Stream ([riscv-core/src/state.rs]): the snapshot reader and writer,
      and the rules that compose round trips.
    - Cpu, Execute, Float, Fpu, Isa ([riscv-core/src/execute.rs, fpu.rs]): the
      hart, every instruction, and the ISA specification they implement.
    - SupTypes, Mmu, MmuSpec, MmuSafe, Sbi ([riscv-supervisor/src/types.rs,
      mmu.rs, sbi.rs]): control-register layouts, the MMU with its TLB and the
      Sv39 specification, the firmware calls.
    - SupState, SupTrap, Traps, SupCsr, CsrProps, Supervisor, SupSafe, SupPark
      ([riscv-supervisor/src/supervisor.rs]): the supervisor's state, interrupts
      and traps, CSRs, [step], and their properties; [SupPark] is what a step that
      parks the hart leaves alone.
    - Plic, Virtio, VirtioSg, VirtioQueue, VirtioBlk, VirtioNet, VirtioSafe
      ([riscv-devices/src/device_bus.rs, virtio.rs, virtio_blk.rs,
      virtio_net.rs]): the interrupt controller, the virtio transport and the
      device models.
    - P9Fs, Virtio9p, P9Safe, P9Props ([riscv-devices/src/virtio_9p.rs]): the
      shared folder: its tree of inodes, the 9P2000.L server over it, the
      well-formed tree and the guarantees of the server.
    - DeviceBus, BusProps, BusWords, BusSafe ([riscv-devices/src/device_bus.rs]):
      the bus, its DRAM as a memory, and as the words the MMU reads.
    - Fdt, Machine, BootTree, MachineProps ([riscv-machine/src/fdt.rs, lib.rs]):
      the devicetree patcher, boot and the run loop; [BootTree] is what a boot
      makes of the devicetree.
    - Snapshot, SnapshotProps: [save_state] and [load_state] of the supervisor
      and the bus, [save] and [restore] of the machine, and their round trip.

    - Wasm ([wasm_encoder]'s instructions as the WebAssembly specification runs
      them), Jit, JitPlan, WasmTyping ([riscv-jit/src/lib.rs]): the block
      compiler, its grouping pass, and the validation of its modules.
    - JitHost, JitAccess, JitAlu, JitStep, JitJump, JitSim, JitProps: compiled
      code against the interpreter.  [JitHost] is the contract of the functions
      that compiled code imports and of the tables it reads; then the emitters
      one group at a time (accesses through the inline TLB, arithmetic, single
      instructions, jumps), the loop of [emit_body], and the theorem with a host
      that meets the contract.
    - BlockCache, BlockProps, BlockTrace, BlockInv, BlockLife
      ([riscv-machine/src/jit.rs]): the cache that decides what is compiled, its
      filter of pages, the runs it decodes, its invariant, and the life of a
      block from the first visit to the discard.
    - BusGeometry, WasmMachine, WasmGuard, WasmInv, WasmRun, WasmProps
      ([riscv-machine/src/lib.rs] under [target_arch = "wasm32"],
      [riscv-wasm/src/lib.rs]): [Machine::run] around compiled blocks and the
      functions that blocks import.  [WasmMachine] holds the operations; calling
      a block is the parameter [call_block], and [WasmRun.generated] is what a
      block may be made of.  [BusGeometry] shows that nothing moves DRAM,
      [WasmGuard] and [WasmInv] that each operation keeps the write TLB to DRAM
      pages without code, [WasmRun] follows a turn, [WasmProps] states the result.

    * What the theorems show

    - Safety: no sequence of steps panics over a bus that does not
      ([SupSafe.step_never_panics]); every reachable state of the whole machine
      meets the invariants of all components ([MachineProps.machine_invariant]);
      lower privilege levels are confined to their CSRs; traps are precise;
      the stores that compiled code does itself never land on a page of compiled
      code ([WasmProps.code_pages_guarded]), and a store through the imported
      function that begins on one discards the blocks at the next [fence.i]
      ([WasmProps.code_store_discards]); one that only reaches into such a page
      does not ([WasmProps.straddling_store_unmarked]).
    - Refinement: address translation is the Sv39 walk over memory with the TLB
      invisible, except where [MmuSpec.deviation] says otherwise (the identity
      window, reserved bits, and the U bit in user mode); execution is the ISA's arithmetic, branches and atomics; the
      bitmap scan of the PLIC is the claim of the highest priority; the used
      ring and DRAM behave as their abstract counterparts.
    - Round trips: encode and decode, compressed expansion, trap entry and
      return, scatter and gather, disk writes and reads, frames through the
      loopback network, files of the share, and the snapshot of
      the whole machine ([SnapshotProps.snapshot_roundtrip]).
    - Liveness and termination: a kick consumes what the driver made available
      and queues a completion for every chain served, these are delivered, the file server answers every
      sequence of messages, the devicetree scan ends on a 64-bit host, a run
      with compiled blocks ends within its budget and one block
      ([WasmProps.wasm_run_ends]), a visited entry gets compiled and entered.
    - Exact effects: trap entry (the architecture's, with the emulator's additions
      spelled out), interrupt selection, boot layout with the patched devicetree,
      why the run loop returns and when the guest is to be woken, write-back of changed files, lazy
      loading and listing of a folder.
    - Errors: the panics and the endless scan that the code does have are stated
      as theorems too; the manifest lists them as findings.

    * Fuel and bounds

    Loops that the code bounds carry that bound (virtqueue budgets, 32 receive
    buffers per poll, the three levels of a walk, the instruction budget of
    [run]).  The devicetree scanner takes fuel and distinguishes exhaustion from
    every result; [fdt_scan_terminates] shows that one turn more than the blob
    has bytes is enough on a 64-bit host.  Snapshot readers take as fuel one
    more than the stream's length, which is enough because each turn consumes
    bytes.  The run loop of the browser takes fuel for its turns and the blocks of
    a chain; one more than the budget is enough, as every turn counts at least
    one instruction.

    * Not modelled

    - The call through the host's function table, which is the parameter
      [call_block]: [JitProps.block_simulates] is about the code behind it.
    - In the simulation theorem: floating point and CSR instructions of a trace
      (calls into the host) and the reservation of [lr] and [sc], which compiled
      code does not have; the steps are those of [execute_width].  The register
      caches of the compiler, which are switched off, are left out.
    - Host I/O and the other bindings ([riscv-hostnet], [riscv-wasm], [riscv-vm],
      the boot tools): sockets, files, the terminal and the browser. *)

From stdpp Require Export base tactics option list list_numbers numbers gmap.
From Stdlib Require Export ZArith Lia Btauto.

#[global] Open Scope Z_scope.
#[global] Set Default Goal Selector "!".

(** * Machine integers

    A [w]-bit unsigned Rust integer is a [Z] in [0, 2^w); a signed one is a [Z]
    in [-2^(w-1), 2^(w-1)).  [wrap w] is the cast to the unsigned type and
    [sext w] the cast to the signed one: Rust's [as] between integer types is
    one of the two, whatever the width and signedness of its operand. *)

Definition wrap (w x : Z) : Z := x mod 2 ^ w.

Definition sext (w x : Z) : Z :=
  let y := x mod 2 ^ w in if y <? 2 ^ (w - 1) then y else y - 2 ^ w.

Abbreviation as_u8 := (wrap 8).
Abbreviation as_u16 := (wrap 16).
Abbreviation as_u32 := (wrap 32).
Abbreviation as_u64 := (wrap 64).
Abbreviation as_u128 := (wrap 128).
Abbreviation as_i8 := (sext 8).
Abbreviation as_i16 := (sext 16).
Abbreviation as_i32 := (sext 32).
Abbreviation as_i64 := (sext 64).

Definition U64_MAX : Z := 2 ^ 64 - 1.
Definition U32_MAX : Z := 2 ^ 32 - 1.
Definition I64_MIN : Z := - 2 ^ 63.
Definition I64_MAX : Z := 2 ^ 63 - 1.
Definition I32_MIN : Z := - 2 ^ 31.
Definition I32_MAX : Z := 2 ^ 31 - 1.

(** [!x] on a [w]-bit unsigned integer. *)
Definition unot (w x : Z) : Z := wrap w (Z.lnot x).

(** [(x >> i) & 1 != 0] *)
Definition bit (x i : Z) : bool := negb (Z.land (Z.shiftr x i) 1 =? 0).

Definition b2z (b : bool) : Z := if b then 1 else 0.

(** Range predicates. *)
Definition urange (w x : Z) : Prop := 0 <= x < 2 ^ w.
Definition srange (w x : Z) : Prop := - 2 ^ (w - 1) <= x < 2 ^ (w - 1).

#[global] Instance urange_dec w x : Decision (urange w x).
Proof. unfold urange. apply _. Defined.
#[global] Instance srange_dec w x : Decision (srange w x).
Proof. unfold srange. apply _. Defined.

(** * The panic and state monad

    A Rust function over a mutable state [S] is an [M S A]: [None] is a panic
    (an out-of-range index, an [unwrap] of [None], an arithmetic overflow in a
    build with overflow checks), [Some (a, s')] a normal return.  A [&self]
    method through which the source can mutate (a [Cell] or [RefCell]) is an
    [M S A] too. *)

Definition M (S A : Type) : Type := S → option (A * S).

#[global] Instance M_ret {S} : MRet (M S) := λ A a s, Some (a, s).
#[global] Instance M_bind {S} : MBind (M S) := λ A B f m s,
  match m s with Some (a, s') => f a s' | None => None end.
#[global] Instance M_fmap {S} : FMap (M S) := λ A B f m s,
  match m s with Some (a, s') => Some (f a, s') | None => None end.

Definition panic {S A} : M S A := λ _, None.
Definition get {S A} (f : S → A) : M S A := λ s, Some (f s, s).
Definition modify {S} (f : S → S) : M S unit := λ s, Some (tt, f s).
Definition lift {S A} (o : option A) : M S A :=
  λ s, match o with Some a => Some (a, s) | None => None end.

(** Run a computation on the first (second) component of a pair state. *)
Definition on_fst {S T A} (m : M S A) : M (S * T) A := λ '(s, t),
  match m s with Some (a, s') => Some (a, (s', t)) | None => None end.
Definition on_snd {S T A} (m : M T A) : M (S * T) A := λ '(s, t),
  match m t with Some (a, t') => Some (a, (s, t')) | None => None end.

(** [core::result::Result] *)
Inductive Result (A E : Type) := Ok (a : A) | Err (e : E).
Arguments Ok {A E} a.
Arguments Err {A E} e.

(** [x?] in a function that returns a [Result] *)
Definition try_ {S A B E} (m : M S (Result A E)) (k : A → M S (Result B E))
  : M S (Result B E) :=
  r ← m; match r with Ok a => k a | Err e => mret (Err e) end.

(** [wp P m Q s]: run from [s], [m] either returns with [Q], or panics and [P]
    holds.  With [P := False] this is total correctness, panic freedom
    included; with [P := True] it is partial correctness. *)
Definition wp (P : Prop) {S A} (m : M S A) (Q : A → S → Prop) (s : S) : Prop :=
  match m s with Some (a, s') => Q a s' | None => P end.

(** * Arithmetic that can overflow

    Rust's plain [+], [-], [*], [<<] and [>>] panic on overflow in a build with
    overflow checks (the dev and test profiles) and wrap (mask the shift
    amount) in the release profile.  The profile is a parameter of the
    development, so that one definition covers both builds. *)

Class Profile := overflow_checks : bool.
Definition Dev : Profile := true.
Definition Release : Profile := false.

Section Checked.
Context `{Profile}.

Definition checked_u (w r : Z) : option Z :=
  if (0 <=? r) && (r <? 2 ^ w) then Some r
  else if overflow_checks then None else Some (wrap w r).

Definition add_u (w a b : Z) : option Z := checked_u w (a + b).
Definition sub_u (w a b : Z) : option Z := checked_u w (a - b).
Definition mul_u (w a b : Z) : option Z := checked_u w (a * b).

(** The effective shift amount of a shift of a [w]-bit value by [s]. *)
Definition shamt_of (w s : Z) : option Z :=
  if (0 <=? s) && (s <? w) then Some s
  else if overflow_checks then None else Some (s mod w).

Definition shl_u (w a s : Z) : option Z :=
  s' ← shamt_of w s; Some (wrap w (Z.shiftl a s')).
Definition shl_i (w a s : Z) : option Z :=
  s' ← shamt_of w s; Some (sext w (Z.shiftl a s')).
(** [>>] on either signedness: the operand carries its own sign. *)
Definition shr (w a s : Z) : option Z :=
  s' ← shamt_of w s; Some (Z.shiftr a s').
End Checked.

(** Only a build with overflow checks stops at an addition. *)
Lemma add_u_none `{PR : Profile} w a b : add_u w a b = None → overflow_checks = true.
Proof. unfold add_u, checked_u. by destruct (_ && _), overflow_checks. Qed.

(** * Field update of records

    [r <| f := v |>] replaces field [f] of [r].  A record opts in with an
    instance of [Eta], its own eta expansion; the setter of a field is read off
    that expansion. *)

Class Eta (R : Type) := eta : R → R.
Class Setter {R T : Type} (f : R → T) := set_field : (T → T) → R → R.
Arguments set_field {R T} f {_} _ _.

Ltac derive_setter f :=
  lazymatch type of f with
  | ?R → _ =>
      let g := fresh "g" in
      let r := fresh "r" in
      intros g r;
      let i := constr:(ltac:(typeclasses eauto) : Eta R) in
      let e := eval hnf in (i r) in
      lazymatch e with
      | context C [f r] => let e' := context C [g (f r)] in exact e'
      end
  end.

#[global] Hint Extern 1 (Setter ?f) => derive_setter f : typeclass_instances.

Notation "r <| f := v |>" := (set_field f (λ _, v) r)
  (at level 1, f at next level, v at level 200, left associativity).

(** * Facts about machine integers *)

Create HintDb ints.

Lemma pow2_pos w : 0 <= w → 0 < 2 ^ w.
Proof. intros. apply Z.pow_pos_nonneg; lia. Qed.

Lemma wrap_range w x : 0 <= w → urange w (wrap w x).
Proof. intros. apply Z.mod_pos_bound, pow2_pos. lia. Qed.

Lemma wrap_small w x : urange w x → wrap w x = x.
Proof. intros. by apply Z.mod_small. Qed.

Lemma wrap_wrap w x : 0 <= w → wrap w (wrap w x) = wrap w x.
Proof. intros. by apply wrap_small, wrap_range. Qed.

Lemma wrap_wrap_le v w x : 0 <= v <= w → wrap v (wrap w x) = wrap v x.
Proof.
  intros. unfold wrap. apply Z.mod_mod_divide.
  replace w with (v + (w - v)) by lia. rewrite Z.pow_add_r by lia.
  apply Z.divide_factor_l.
Qed.

Lemma pow2_half w : 0 < w → 2 ^ w = 2 * 2 ^ (w - 1).
Proof. intros. rewrite <- Z.pow_succ_r by lia. f_equal. lia. Qed.

Lemma sext_range w x : 0 < w → srange w (sext w x).
Proof.
  intros Hw. unfold sext, srange. pose proof (pow2_half w Hw) as Hh.
  pose proof (Z.mod_pos_bound x (2 ^ w) ltac:(apply pow2_pos; lia)).
  destruct (Z.ltb_spec (x mod 2 ^ w) (2 ^ (w - 1))); lia.
Qed.

Lemma sext_small w x : 0 < w → srange w x → sext w x = x.
Proof.
  intros Hw. unfold srange, sext. pose proof (pow2_half w Hw) as Hh. intros Hx.
  destruct (Z.ltb_spec x 0).
  - replace (x mod 2 ^ w) with (x + 2 ^ w).
    + destruct (Z.ltb_spec (x + 2 ^ w) (2 ^ (w - 1))); lia.
    + rewrite <- (Z.mod_small (x + 2 ^ w) (2 ^ w)) by lia.
      rewrite <- (Z_mod_plus_full x 1). f_equal. lia.
  - rewrite Z.mod_small by lia. destruct (Z.ltb_spec x (2 ^ (w - 1))); lia.
Qed.

Lemma wrap_sext w x : 0 < w → wrap w (sext w x) = wrap w x.
Proof.
  intros Hw. unfold wrap, sext. destruct (_ <? _).
  - rewrite Z.mod_mod; [done|]. pose proof (pow2_pos w). lia.
  - replace (x mod 2 ^ w - 2 ^ w) with (x mod 2 ^ w + (-1) * 2 ^ w) by lia.
    rewrite Z_mod_plus_full. apply Z.mod_mod. pose proof (pow2_pos w). lia.
Qed.

Lemma sext_wrap w x : 0 <= w → sext w (wrap w x) = sext w x.
Proof.
  intros Hw. unfold wrap, sext. rewrite Z.mod_mod; [done|].
  pose proof (pow2_pos w). lia.
Qed.

(** [sext] at the top bit: the two's complement reading of a residue. *)
Lemma sext_unsigned w x :
  0 < w → urange w x → sext w x = if x <? 2 ^ (w - 1) then x else x - 2 ^ w.
Proof. intros Hw Hx. unfold sext. by rewrite Z.mod_small. Qed.

Lemma wrap_eq_sext_eq w x y : 0 < w → wrap w x = wrap w y ↔ sext w x = sext w y.
Proof.
  intros Hw. split; intros H.
  - unfold sext. unfold wrap in H. by rewrite H.
  - rewrite <- (wrap_sext w x), <- (wrap_sext w y) by done. by rewrite H.
Qed.

Lemma wrap_add_l w x y : 0 <= w → wrap w (wrap w x + y) = wrap w (x + y).
Proof. intros. unfold wrap. apply Zplus_mod_idemp_l. Qed.
Lemma wrap_add_r w x y : 0 <= w → wrap w (x + wrap w y) = wrap w (x + y).
Proof. intros. unfold wrap. apply Zplus_mod_idemp_r. Qed.
Lemma wrap_mul_l w x y : 0 <= w → wrap w (wrap w x * y) = wrap w (x * y).
Proof. intros. unfold wrap. apply Zmult_mod_idemp_l. Qed.
Lemma wrap_mul_r w x y : 0 <= w → wrap w (x * wrap w y) = wrap w (x * y).
Proof. intros. unfold wrap. apply Zmult_mod_idemp_r. Qed.
Lemma wrap_sub w x y : 0 <= w → wrap w (wrap w x - wrap w y) = wrap w (x - y).
Proof. intros. unfold wrap. symmetry. apply Zminus_mod. Qed.

(** The congruence behind [wrapping_*]: computing on the signed reading and
    casting back is computing modulo [2^w]. *)
Lemma wrap_add_sext w x y :
  0 < w → wrap w (sext w (sext w x + sext w y)) = wrap w (x + y).
Proof.
  intros. rewrite wrap_sext by lia. rewrite <- wrap_add_l, <- wrap_add_r by lia.
  rewrite !wrap_sext by lia. by rewrite wrap_add_l, wrap_add_r by lia.
Qed.

#[global] Hint Resolve wrap_range sext_range : ints.
#[global] Hint Extern 2 (_ <= _) => lia : ints.
#[global] Hint Extern 2 (_ < _) => lia : ints.
#[global] Hint Extern 3 (urange _ _) => solve [unfold urange; cbn; lia] : ints.

Lemma urange_weaken v w x : 0 <= v <= w → urange v x → urange w x.
Proof. unfold urange. intros. pose proof (Z.pow_le_mono_r 2 v w). lia. Qed.

Lemma urange_b2z w b : 0 < w → urange w (b2z b).
Proof.
  intros. unfold urange, b2z. pose proof (Z.pow_le_mono_r 2 1 w).
  destruct b; lia.
Qed.

(** ** Bits *)

Lemma bit_testbit x i : 0 <= i → bit x i = Z.testbit x i.
Proof.
  intros. unfold bit. change 1 with (Z.ones 1). rewrite Z.land_ones by lia.
  rewrite Z.shiftr_div_pow2 by lia. change (2 ^ 1) with 2.
  rewrite <- Z.testbit_spec' by lia. by destruct (Z.testbit x i).
Qed.

Lemma testbit_wrap w x i :
  0 <= w → 0 <= i → Z.testbit (wrap w x) i = (i <? w) && Z.testbit x i.
Proof.
  intros. unfold wrap. destruct (Z.ltb_spec i w).
  - by rewrite Z.mod_pow2_bits_low.
  - by rewrite Z.mod_pow2_bits_high by lia.
Qed.

Lemma urange_testbit w x i : urange w x → 0 <= w <= i → Z.testbit x i = false.
Proof.
  intros Hx Hi. rewrite <- (wrap_small w x) by done.
  rewrite testbit_wrap by lia. by destruct (Z.ltb_spec i w); [lia|].
Qed.

Lemma testbit_sext w x i :
  0 < w → 0 <= i →
  Z.testbit (sext w x) i = if i <? w then Z.testbit x i else Z.testbit x (w - 1).
Proof.
  intros Hw Hi. destruct (Z.ltb_spec i w) as [Hlt|Hge].
  - rewrite <- (Z.mod_pow2_bits_low (sext w x) w i) by lia.
    change (sext w x mod 2 ^ w) with (wrap w (sext w x)).
    rewrite wrap_sext, testbit_wrap by lia. by destruct (Z.ltb_spec i w); [|lia].
  - assert (Hsgn : Z.testbit x (w - 1) = negb (x mod 2 ^ w <? 2 ^ (w - 1))).
    { rewrite <- (Z.mod_pow2_bits_low x w) by lia.
      pose proof (pow2_half w Hw). pose proof (pow2_pos (w - 1)).
      pose proof (Z.mod_pos_bound x (2 ^ w)).
      apply Bool.eq_true_iff_eq. rewrite Z.testbit_true by lia.
      destruct (Z.ltb_spec (x mod 2 ^ w) (2 ^ (w - 1))) as [Hs|Hs].
      - rewrite Z.div_small by lia. done.
      - rewrite <- (Z.div_unique_pos _ (2 ^ (w - 1)) 1 (x mod 2 ^ w - 2 ^ (w - 1))) by lia.
        done. }
    rewrite Hsgn. unfold sext. pose proof (Z.mod_pos_bound x (2 ^ w)).
    pose proof (pow2_pos w). pose proof (pow2_half w Hw).
    destruct (Z.ltb_spec (x mod 2 ^ w) (2 ^ (w - 1))); cbn.
    + apply (urange_testbit w); [unfold urange; lia|lia].
    + replace (x mod 2 ^ w - 2 ^ w) with (Z.lnot (2 ^ w - 1 - x mod 2 ^ w))
        by (unfold Z.lnot; lia).
      rewrite Z.lnot_spec by lia.
      rewrite (urange_testbit w); [done|unfold urange; lia|lia].
Qed.

Lemma testbit_b2z b i : 0 <= i → Z.testbit (b2z b) i = b && (i =? 0).
Proof.
  intros. destruct b; cbn [b2z andb]; [|apply Z.testbit_0_l].
  destruct (Z.eqb_spec i 0) as [->|]; [done|].
  change 1 with (2 ^ 0). rewrite Z.pow2_bits_false; [done|lia].
Qed.

Lemma urange_bits w x :
  0 <= w → 0 <= x → (∀ i, w <= i → Z.testbit x i = false) → urange w x.
Proof.
  intros Hw Hx Hb. rewrite <- (wrap_small (Z.log2 x + 1 + w) x) at 1.
  - replace (wrap (Z.log2 x + 1 + w) x) with (wrap w x); [by apply wrap_range|].
    apply Z.bits_inj'. intros i Hi. pose proof (Z.log2_nonneg x).
    rewrite !testbit_wrap by lia.
    destruct (Z.ltb_spec i w), (Z.ltb_spec i (Z.log2 x + 1 + w)); try lia; try done.
    cbn. symmetry. apply Hb. lia.
  - unfold urange. pose proof (Z.log2_nonneg x). split; [lia|].
    destruct (Z.eq_dec x 0) as [->|]; [apply pow2_pos; lia|].
    apply Z.log2_lt_pow2; lia.
Qed.

(** A masked field, and a masked single bit. *)
Lemma mask_field b k n :
  0 <= k → 0 <= n →
  Z.land b (Z.shiftl (Z.ones n) k) = Z.shiftl (Z.land (Z.shiftr b k) (Z.ones n)) k.
Proof.
  intros. apply Z.bits_inj'. intros i Hi. rewrite Z.land_spec, !Z.shiftl_spec by lia.
  destruct (Z.leb_spec k i).
  - rewrite Z.land_spec, Z.shiftr_spec by lia. by replace (i - k + k) with i by lia.
  - rewrite !(Z.testbit_neg_r _ (i - k)) by lia. by rewrite andb_false_r.
Qed.

Lemma shiftl_eqb a b k : 0 <= k → (Z.shiftl a k =? Z.shiftl b k) = (a =? b).
Proof.
  intros. rewrite !Z.shiftl_mul_pow2 by lia. pose proof (pow2_pos k).
  apply Bool.eq_true_iff_eq. rewrite !Z.eqb_eq. nia.
Qed.

Lemma land_pow2_eqb b k : 0 <= k → negb (Z.land b (Z.shiftl 1 k) =? 0) = Z.testbit b k.
Proof.
  intros. change 1 with (Z.ones 1). rewrite mask_field by lia.
  replace 0 with (Z.shiftl 0 k) at 1 by apply Z.shiftl_0_l. rewrite shiftl_eqb by lia.
  rewrite <- bit_testbit by lia. done.
Qed.

(** ** Bit blasting

    [bitblast n] proves an equation between integers built from bitwise
    operations by comparing bits: the indices below [n] one by one, and those
    from [n] on all together, where operands with a [urange] hypothesis and
    literals have no bits left. *)

Lemma testbit_literal_high w c i :
  0 <= c → c < 2 ^ w → 0 <= w <= i → Z.testbit c i = false.
Proof. intros. by apply (urange_testbit w). Qed.

Ltac is_ground_pos p :=
  lazymatch p with xH => idtac | xO ?q => is_ground_pos q | xI ?q => is_ground_pos q end.
Ltac is_ground t :=
  lazymatch t with
  | Z0 => idtac | Zpos ?p => is_ground_pos p | Zneg ?p => is_ground_pos p
  | Z.add ?a ?b => is_ground a; is_ground b
  | Z.sub ?a ?b => is_ground a; is_ground b
  | Z.mul ?a ?b => is_ground a; is_ground b
  | Z.pow ?a ?b => is_ground a; is_ground b
  | Z.shiftl ?a ?b => is_ground a; is_ground b
  | Z.lor ?a ?b => is_ground a; is_ground b
  | Z.land ?a ?b => is_ground a; is_ground b
  | Z.lnot ?a => is_ground a
  | Z.ones ?a => is_ground a
  | unot ?a ?b => is_ground a; is_ground b
  | Z.opp ?a => is_ground a
  | U64_MAX => idtac
  end.
Ltac is_literal t :=
  lazymatch t with Z0 => idtac | Zpos ?p => is_ground_pos p | Zneg ?p => is_ground_pos p end.
Ltac fold_ground t := let v := eval vm_compute in t in progress change t with v.

Ltac bb_step :=
  match goal with
  | |- context [Z.testbit ?c ?i] =>
      is_ground c; is_ground i; fold_ground (Z.testbit c i)
  | |- context [Z.testbit ?c _] =>
      is_ground c; tryif is_literal c then fail else fold_ground c
  | |- context [Z.testbit _ ?i] =>
      is_ground i; tryif is_literal i then fail else fold_ground i
  | |- context [Z.testbit ?x (Zneg ?p)] => rewrite (Z.testbit_neg_r x (Zneg p)) by lia
  | |- context [Z.testbit (Z.land _ _) _] => rewrite Z.land_spec
  | |- context [Z.testbit (Z.lor _ _) _] => rewrite Z.lor_spec
  | |- context [Z.testbit (Z.lxor _ _) _] => rewrite Z.lxor_spec
  | |- context [Z.testbit (Z.lnot _) _] => rewrite Z.lnot_spec by lia
  | |- context [Z.testbit (Z.shiftr _ _) _] => rewrite Z.shiftr_spec by lia
  | |- context [Z.testbit (Z.shiftl _ _) _] => rewrite Z.shiftl_spec by lia
  | |- context [Z.testbit (wrap _ _) _] => rewrite testbit_wrap by lia
  | |- context [Z.testbit (sext _ _) _] => rewrite testbit_sext by lia
  | |- context [Z.testbit (unot ?w ?x) ?i] => change (unot w x) with (wrap w (Z.lnot x))
  | |- context [Z.testbit (b2z _) _] => rewrite testbit_b2z by lia
  | |- context [Z.testbit (if ?b then _ else _) _] => destruct b
  | |- context [?a <? ?b] =>
      first [ is_ground a; is_ground b; fold_ground (a <? b)
            | rewrite (proj2 (Z.ltb_ge a b)) by lia
            | rewrite (proj2 (Z.ltb_lt a b)) by lia
            | destruct (Z.ltb_spec a b) ]
  | |- context [?a =? ?b] =>
      first [ is_ground a; is_ground b; fold_ground (a =? b)
            | rewrite (proj2 (Z.eqb_neq a b)) by lia ]
  | H : urange ?w ?x |- context [Z.testbit ?x ?i] =>
      rewrite (urange_testbit w x i H) by lia
  | |- context [Z.testbit ?c ?i] =>
      is_literal c;
      let w := eval vm_compute in (Z.log2 c + 1) in
      rewrite (testbit_literal_high w c i) by lia
  | |- context [Z.testbit 0 _] => rewrite Z.testbit_0_l
  end.

Ltac bb_bool :=
  cbn [andb orb negb xorb];
  rewrite ?andb_true_r, ?andb_false_r, ?orb_false_r, ?orb_true_r, ?xorb_false_r,
          ?xorb_true_r.

Ltac bb_norm := repeat (bb_step; bb_bool); bb_bool.

Ltac split_index i k n :=
  first
    [ constr_eq k n
    | let H := fresh "Hi" in
      destruct (Z.eq_dec i k) as [->|H];
      [| let k' := eval vm_compute in (k + 1) in
         assert (k' <= i) by lia; split_index i k' n] ].

Ltac bitblast n :=
  apply Z.bits_inj';
  let i := fresh "i" in
  let Hi := fresh "Hi" in
  intros i Hi; split_index i 0 n;
  bb_norm; try solve [reflexivity | assumption | btauto].

(** * Rules of [wp] *)

Section Wp.
Context {S : Type} (P : Prop).
Implicit Types s : S.

Lemma wp_ret {A} (a : A) (Q : A → S → Prop) s : Q a s → wp P (mret a) Q s.
Proof. done. Qed.

Lemma wp_bind {A B} (m : M S A) (f : A → M S B) (Q : B → S → Prop) s :
  wp P m (λ a s', wp P (f a) Q s') s → wp P (m ≫= f) Q s.
Proof. unfold wp, mbind, M_bind. by destruct (m s) as [[??]|]. Qed.

Lemma wp_mono {A} (m : M S A) (Q Q' : A → S → Prop) s :
  wp P m Q s → (∀ a s', Q a s' → Q' a s') → wp P m Q' s.
Proof. unfold wp. destruct (m s) as [[??]|]; auto. Qed.

Lemma wp_get {A} (f : S → A) (Q : A → S → Prop) s : Q (f s) s → wp P (get f) Q s.
Proof. done. Qed.

Lemma wp_modify (f : S → S) (Q : unit → S → Prop) s : Q tt (f s) → wp P (modify f) Q s.
Proof. done. Qed.

Lemma wp_lift {A} (o : option A) (Q : A → S → Prop) s :
  match o with Some a => Q a s | None => P end → wp P (lift o) Q s.
Proof. unfold wp, lift. by destruct o. Qed.

Lemma wp_panic {A} (Q : A → S → Prop) s : P → wp P panic Q s.
Proof. done. Qed.

Lemma wp_if {A} (b : bool) (m1 m2 : M S A) Q s :
  (b = true → wp P m1 Q s) → (b = false → wp P m2 Q s) →
  wp P (if b then m1 else m2) Q s.
Proof. destruct b; auto. Qed.
End Wp.

Lemma wp_on_fst {S T A} P (m : M S A) (Q : A → S * T → Prop) s t :
  wp P m (λ a s', Q a (s', t)) s → wp P (on_fst m) Q (s, t).
Proof. unfold wp, on_fst. by destruct (m s) as [[??]|]. Qed.

Lemma wp_on_snd {S T A} P (m : M T A) (Q : A → S * T → Prop) s t :
  wp P m (λ a t', Q a (s, t')) t → wp P (on_snd m) Q (s, t).
Proof. unfold wp, on_snd. by destruct (m t) as [[??]|]. Qed.

(** Total correctness gives a returning run. *)
Lemma wp_total {S A} (m : M S A) Q s :
  wp False m Q s → ∃ a s', m s = Some (a, s') ∧ Q a s'.
Proof. unfold wp. destruct (m s) as [[a s']|]; [eauto|done]. Qed.

Lemma wp_run {S A} P (m : M S A) Q s a s' :
  wp P m Q s → m s = Some (a, s') → Q a s'.
Proof. unfold wp. intros H E. by rewrite E in H. Qed.

Lemma wp_weaken {S A} (P P' : Prop) (m : M S A) Q s :
  (P → P') → wp P m Q s → wp P' m Q s.
Proof. unfold wp. destruct (m s) as [[??]|]; auto. Qed.

Arguments wp : simpl never.

(** * Ranges of fields

    [field_range] closes [urange w (x & mask)] when the mask is [2^w - 1]. *)

Lemma land_ones_range w x m : 0 <= w → m = Z.ones w → urange w (Z.land x m).
Proof. intros ? ->. rewrite Z.land_ones by done. by apply wrap_range. Qed.

Lemma shiftr_sext_range w k x : 0 <= k < w → srange (w - k) (Z.shiftr (sext w x) k).
Proof.
  intros Hk. pose proof (sext_range w x ltac:(lia)) as Hr. unfold srange in *.
  rewrite Z.shiftr_div_pow2 by lia.
  assert (H2 : 2 ^ (w - 1) = 2 ^ (w - k - 1) * 2 ^ k).
  { rewrite <- Z.pow_add_r by lia. f_equal. lia. }
  pose proof (pow2_pos k). pose proof (pow2_pos (w - k - 1)).
  rewrite H2 in Hr. split.
  - apply Z.div_le_lower_bound; lia.
  - apply Z.div_lt_upper_bound; lia.
Qed.

Lemma srange_weaken v w x : 0 < v <= w → srange v x → srange w x.
Proof.
  unfold srange. intros. pose proof (Z.pow_le_mono_r 2 (v - 1) (w - 1)). lia.
Qed.

Lemma shiftr_sext_srange v w k x :
  0 <= k < w → w - k <= v → srange v (Z.shiftr (sext w x) k).
Proof.
  intros. apply (srange_weaken (w - k)); [lia|]. by apply shiftr_sext_range.
Qed.

Ltac field_range :=
  lazymatch goal with
  | |- urange ?w (Z.land ?x ?m) =>
      first [ apply land_ones_range; [lia|reflexivity]
            | apply (urange_weaken (Z.log2_up (m + 1)) w);
              [lia|apply land_ones_range; [lia|reflexivity]] ]
  end.

#[global] Hint Extern 1 (urange _ (Z.land _ _)) => field_range : ints.
#[global] Hint Extern 1 (srange _ (Z.shiftr (sext _ _) _)) =>
  (apply shiftr_sext_srange; lia) : ints.

(** Case on every [if] of the goal, without keeping the conditions. *)
Ltac split_ifs :=
  repeat match goal with
  | |- context [if ?b then _ else _] => destruct b
  end.

(** Split the conjunctions that are visible in the goal, and only those. *)
Ltac conj_split := repeat match goal with |- _ ∧ _ => split end.

(** * Little-endian bytes: [to_le_bytes] and [from_le_bytes] *)

Fixpoint to_le_bytes (n : nat) (x : Z) : list Z :=
  match n with
  | O => []
  | S n' => Z.land x 0xFF :: to_le_bytes n' (Z.shiftr x 8)
  end.

Fixpoint from_le_bytes (l : list Z) : Z :=
  match l with
  | [] => 0
  | b :: l' => b + 256 * from_le_bytes l'
  end.

Definition is_byte (b : Z) : Prop := urange 8 b.

Lemma length_to_le_bytes n x : length (to_le_bytes n x) = n.
Proof. revert x. induction n as [|n IH]; intros x; cbn; [done|]. by rewrite IH. Qed.

Lemma to_le_bytes_bytes n x : Forall is_byte (to_le_bytes n x).
Proof.
  revert x. induction n as [|n IH]; intros x; cbn; constructor; [|done].
  unfold is_byte. field_range.
Qed.

Lemma from_to_le_bytes n x : from_le_bytes (to_le_bytes n x) = wrap (8 * Z.of_nat n) x.
Proof.
  revert x. induction n as [|n IH]; intros x; cbn [to_le_bytes from_le_bytes].
  - unfold wrap. by rewrite Z.mod_1_r.
  - rewrite IH. unfold wrap. replace (8 * Z.of_nat (S n)) with (8 + 8 * Z.of_nat n) by lia.
    rewrite Z.pow_add_r by lia. change 0xFF with (Z.ones 8).
    rewrite Z.land_ones, Z.shiftr_div_pow2 by lia. change 256 with (2 ^ 8).
    symmetry. apply Z.rem_mul_r; [done|]. apply pow2_pos. lia.
Qed.

Lemma from_le_bytes_range l :
  Forall is_byte l → urange (8 * Z.of_nat (length l)) (from_le_bytes l).
Proof.
  unfold urange. induction 1 as [|b l Hb Hl IH]; cbn [from_le_bytes length]; [done|].
  replace (8 * Z.of_nat (S (length l))) with (8 + 8 * Z.of_nat (length l)) by lia.
  rewrite Z.pow_add_r by lia. unfold is_byte, urange in Hb. lia.
Qed.

Lemma to_from_le_bytes l :
  Forall is_byte l → to_le_bytes (length l) (from_le_bytes l) = l.
Proof.
  induction 1 as [|b l Hb Hl IH]; cbn [from_le_bytes length to_le_bytes]; [done|].
  unfold is_byte, urange in Hb. change 0xFF with (Z.ones 8).
  rewrite Z.land_ones, Z.shiftr_div_pow2 by lia. change 256 with (2 ^ 8).
  f_equal.
  - rewrite Z.mul_comm, Z_mod_plus_full. by apply Z.mod_small.
  - rewrite Z.mul_comm, Z.div_add by done.
    rewrite Z.div_small by exact Hb. by rewrite Z.add_0_l.
Qed.

Lemma urange_lor w a b : 0 <= w → urange w a → urange w b → urange w (Z.lor a b).
Proof.
  intros Hw Ha Hb. apply urange_bits; [done| |].
  - apply Z.lor_nonneg. unfold urange in *. lia.
  - intros i Hi. rewrite Z.lor_spec, (urange_testbit w a i), (urange_testbit w b i) by done.
    done.
Qed.

Lemma urange_land_l w a b : 0 <= w → urange w a → urange w (Z.land a b).
Proof.
  intros Hw Ha. apply urange_bits; [done| |].
  - apply Z.land_nonneg. unfold urange in *. lia.
  - intros i Hi. by rewrite Z.land_spec, (urange_testbit w a i).
Qed.

Lemma urange_shiftr v w a k :
  0 <= k → 0 <= v → w <= v + k → urange w a → urange v (Z.shiftr a k).
Proof.
  intros Hk Hv Hw Ha. apply urange_bits; [done| |].
  - apply Z.shiftr_nonneg. unfold urange in *. lia.
  - intros i Hi. rewrite Z.shiftr_spec by lia.
    destruct (Z.leb_spec 0 w); [apply (urange_testbit w); [done|lia]|].
    unfold urange in Ha. rewrite Z.pow_neg_r in Ha by lia. lia.
Qed.

#[global] Hint Resolve urange_lor : ints.
#[global] Hint Extern 4 (urange ?w ?x) =>
  match goal with
  | H : urange ?v x |- _ => apply (urange_weaken v w); [lia|exact H]
  end : ints.

(** * Exhaustive checks over a range of integers *)

Fixpoint all_from (n : nat) (z : Z) (f : Z → bool) : bool :=
  match n with
  | O => true
  | S n' => f z && all_from n' (z + 1) f
  end.

Lemma all_from_sound n z f :
  all_from n z f = true → ∀ x, z <= x < z + Z.of_nat n → f x = true.
Proof.
  revert z. induction n as [|n IH]; intros z H x Hx; [lia|].
  cbn in H. apply andb_prop in H as [H1 H2].
  destruct (Z.eq_dec x z) as [->|]; [done|]. apply (IH (z + 1)); [done|lia].
Qed.

(** Clearing the low bits rounds down. *)
Lemma land_unot_ones w k x : 0 <= k <= w → urange w x → Z.land x (unot w (Z.ones k)) = x - x mod 2 ^ k.
Proof.
  intros Hk Hx.
  assert (E : Z.land x (unot w (Z.ones k)) = Z.ldiff x (Z.ones k)).
  { apply Z.bits_inj'. intros i Hi. unfold unot.
    rewrite Z.land_spec, Z.ldiff_spec, testbit_wrap, Z.lnot_spec by lia.
    destruct (Z.ltb_spec i w); [done|]. by rewrite (urange_testbit w x) by (done || lia). }
  rewrite E, Z.ldiff_ones_r, Z.shiftl_mul_pow2, Z.shiftr_div_pow2 by lia.
  pose proof (Z.div_mod x (2 ^ k)). pose proof (pow2_pos k). lia.
Qed.
