(* ===== verification/Keeps.v ===== *)
(** Computations that keep an invariant.

    [keeps P I m R]: from every state with [I], [m] returns a value with [R] in
    a state with [I] again, or panics and [P] holds.  The rules follow the
    syntax of a computation, so that preservation of an invariant by a long
    body of code is the preservation by each of its primitive updates.  [zoom]
    runs a computation on a part of the state. *)

From S2P Require Import Prelude.

(** A run of a sequence is a run of its first part followed by one of the rest. *)
Lemma M_bind_run {S A B} (m : M S A) (k : A → M S B) s :
  (m ≫= k) s = match m s with Some (a, s') => k a s' | None => None end.
Proof. done. Qed.

Lemma M_bind_some {S A B} (m : M S A) (k : A → M S B) s a s' :
  m s = Some (a, s') → (m ≫= k) s = k a s'.
Proof. intros E. by rewrite M_bind_run, E. Qed.

Lemma lift_bind {S A B} (o : option A) (k : A → M S B) s a :
  o = Some a → (lift o ≫= k) s = k a s.
Proof. intros ->. done. Qed.

Lemma get_fst_bind {S T A B} (f : S → A) (k : A → M (S * T) B) s t :
  (on_fst (get f) ≫= k) (s, t) = k (f s) (s, t).
Proof. done. Qed.

Lemma modify_fst_bind {S T B} (f : S → S) (k : unit → M (S * T) B) s t :
  (on_fst (modify f) ≫= k) (s, t) = k tt (f s, t).
Proof. done. Qed.

Lemma get_snd_bind {S T A B} (f : T → A) (k : A → M (S * T) B) s t :
  (on_snd (get f) ≫= k) (s, t) = k (f t) (s, t).
Proof. done. Qed.

Lemma snd_bind {S T A B} (m : M T A) (k : A → M (S * T) B) s t a t' :
  m t = Some (a, t') → (on_snd m ≫= k) (s, t) = k a (s, t').
Proof. intros E. rewrite M_bind_run. unfold on_snd. by rewrite E. Qed.

Lemma fst_bind {S T A B} (m : M S A) (k : A → M (S * T) B) s t a s' :
  m s = Some (a, s') → (on_fst m ≫= k) (s, t) = k a (s', t).
Proof. intros E. rewrite M_bind_run. unfold on_fst. by rewrite E. Qed.

Lemma wp_some {S A} P (m : M S A) (Q : A → S → Prop) s a s' :
  m s = Some (a, s') → Q a s' → wp P m Q s.
Proof. intros E HQ. unfold wp. by rewrite E. Qed.

Definition zoom {S T A} (g : S → T) (p : T → S → S) (m : M T A) : M S A := λ s,
  match m (g s) with Some (a, t) => Some (a, p t s) | None => None end.

Lemma wp_zoom {S T A} P (g : S → T) (p : T → S → S) (m : M T A) Q s :
  wp P m (λ a t, Q a (p t s)) (g s) → wp P (zoom g p m) Q s.
Proof. unfold wp, zoom. by destruct (m (g s)) as [[??]|]. Qed.

Definition keeps (P : Prop) {S A} (I : S → Prop) (m : M S A) (R : A → Prop) : Prop :=
  ∀ s, I s → wp P m (λ a s', R a ∧ I s') s.

Section Rules.
Context (P : Prop) {S : Type} (I : S → Prop).

Lemma keeps_ret {A} (a : A) (R : A → Prop) : R a → keeps P I (mret a) R.
Proof. intros Ha s Hs. by apply wp_ret. Qed.

Lemma keeps_bind {A B} (m : M S A) (k : A → M S B) R R' :
  keeps P I m R → (∀ a, R a → keeps P I (k a) R') → keeps P I (m ≫= k) R'.
Proof.
  intros Hm Hk s Hs. apply wp_bind. eapply wp_mono; [by apply Hm|].
  intros a s' [Ha Hs']. by apply Hk.
Qed.

Lemma keeps_seq {A B} (m : M S A) (k : M S B) R :
  keeps P I m (λ _, True) → keeps P I k R → keeps P I (m;; k) R.
Proof. intros Hm Hk. eapply keeps_bind; [exact Hm|]. by intros. Qed.

Lemma keeps_get {A} (f : S → A) (R : A → Prop) :
  (∀ s, I s → R (f s)) → keeps P I (get f) R.
Proof. intros Hf s Hs. apply wp_get. auto. Qed.

Lemma keeps_modify (f : S → S) : (∀ s, I s → I (f s)) → keeps P I (modify f) (λ _, True).
Proof. intros Hf s Hs. apply wp_modify. auto. Qed.

Lemma keeps_lift {A} (o : option A) (R : A → Prop) :
  match o with Some a => R a | None => P end → keeps P I (lift o) R.
Proof. intros Ho s Hs. apply wp_lift. by destruct o. Qed.

Lemma keeps_mono {A} (m : M S A) (R R' : A → Prop) :
  keeps P I m R → (∀ a, R a → R' a) → keeps P I m R'.
Proof.
  intros Hm HR s Hs. eapply wp_mono; [by apply Hm|]. intros a s' [Ha Hs']. auto.
Qed.

Lemma keeps_try {A B E} (m : M S (Result A E)) (k : A → M S (Result B E)) R R' :
  keeps P I m R → (∀ a, R (Ok a) → keeps P I (k a) R') → (∀ e, R (Err e) → R' (Err e)) →
  keeps P I (try_ m k) R'.
Proof.
  intros Hm Hk He. eapply keeps_bind; [exact Hm|]. intros [a|e] Hr; [by apply Hk|].
  apply keeps_ret. auto.
Qed.

(** What [keeps] says of a run. *)
Lemma keeps_total {A} (m : M S A) R s :
  keeps False I m R → I s → ∃ a s', m s = Some (a, s') ∧ R a ∧ I s'.
Proof. intros Hm Hs. apply wp_total. by apply Hm. Qed.
End Rules.

Lemma keeps_on_fst P {S T A} (I : S → Prop) (J : T → Prop) (m : M S A) R :
  keeps P I m R → keeps P (λ s, I s.1 ∧ J s.2) (on_fst m) R.
Proof.
  intros Hm [s t] [Hs Ht]. apply wp_on_fst. eapply wp_mono; [by apply Hm|].
  intros a s' [Ha Hs']. by split_and!.
Qed.

Lemma keeps_on_snd P {S T A} (I : S → Prop) (J : T → Prop) (m : M T A) R :
  keeps P J m R → keeps P (λ s, I s.1 ∧ J s.2) (on_snd m) R.
Proof.
  intros Hm [s t] [Hs Ht]. apply wp_on_snd. eapply wp_mono; [by apply Hm|].
  intros a s' [Ha Hs']. by split_and!.
Qed.

Lemma keeps_zoom P {S T A} (I : S → Prop) (J : T → Prop) (g : S → T) p (m : M T A) R :
  keeps P J m R → (∀ s, I s → J (g s)) → (∀ s t, I s → J t → I (p t s)) →
  keeps P I (zoom g p m) R.
Proof.
  intros Hm Hg Hp s Hs. apply wp_zoom. eapply wp_mono; [by apply Hm, Hg|].
  intros a t [Ha Ht]. auto.
Qed.

(** [checked_u] never fails in the release profile, and stays in range. *)
Lemma keeps_checked (P : Prop) {PR : Profile} {S} (I : S → Prop) w r :
  0 <= w → (overflow_checks = true → P) → keeps P I (lift (checked_u w r)) (urange w).
Proof.
  intros Hw HP. apply keeps_lift. unfold checked_u. destruct (_ && _) eqn:E.
  - apply andb_prop in E as [E1 E2]. unfold urange. lia.
  - destruct overflow_checks eqn:Ho; [auto|]. by apply wrap_range.
Qed.
