(* ===== verification/Bits.v ===== *)
(** A reflective decision procedure for bit-field equations.

    Instruction formats, control registers and page-table entries are words
    assembled from fields with shifts, masks and casts.  [bit_fields] proves an
    equation between two such words: it reifies both sides over the fields that
    have a [urange] or [srange] hypothesis, computes every bit of both as a
    disjunction of field bits, and compares. *)

From S2P Require Import Prelude.

Inductive bexp : Type :=
  | BVar (n : nat)
  | BLit (c : Z)
  | BOr (a b : bexp)
  | BAnd (a : bexp) (m : Z)
  | BShl (a : bexp) (k : Z)
  | BShr (a : bexp) (k : Z)
  | BWrap (w : Z) (a : bexp)
  | BSext (w : Z) (a : bexp).

(** The kind of a field: signed or not, and its width. *)
Definition kind : Type := bool * Z.

Fixpoint denote (ρ : list Z) (e : bexp) : Z :=
  match e with
  | BVar n => nth n ρ 0
  | BLit c => c
  | BOr a b => Z.lor (denote ρ a) (denote ρ b)
  | BAnd a m => Z.land (denote ρ a) m
  | BShl a k => Z.shiftl (denote ρ a) k
  | BShr a k => Z.shiftr (denote ρ a) k
  | BWrap w a => wrap w (denote ρ a)
  | BSext w a => sext w (denote ρ a)
  end.

(** The shift amounts and widths are literals; they have to be non-negative. *)
Fixpoint well_shaped (e : bexp) : bool :=
  match e with
  | BVar _ => true
  | BLit c => 0 <=? c
  | BOr a b => well_shaped a && well_shaped b
  | BAnd a m => well_shaped a && (0 <=? m)
  | BShl a k | BShr a k => well_shaped a && (0 <=? k)
  | BWrap w a => well_shaped a && (0 <=? w)
  | BSext w a => well_shaped a && (0 <? w)
  end.

(** A symbolic bit: true, or the disjunction of some field bits. *)
Inductive sym : Type :=
  | STrue
  | SAny (l : list (nat * Z)).

Definition sym_or (a b : sym) : sym :=
  match a, b with
  | SAny l, SAny l' => SAny (l ++ l')
  | _, _ => STrue
  end.

Fixpoint sbit (ω : list kind) (e : bexp) (i : Z) : sym :=
  match e with
  | BVar n =>
      let '(sgn, w) := nth n ω (false, 0) in
      if i <? w then SAny [(n, i)] else if sgn then SAny [(n, w - 1)] else SAny []
  | BLit c => if Z.testbit c i then STrue else SAny []
  | BOr a b => sym_or (sbit ω a i) (sbit ω b i)
  | BAnd a m => if Z.testbit m i then sbit ω a i else SAny []
  | BShl a k => if i <? k then SAny [] else sbit ω a (i - k)
  | BShr a k => sbit ω a (i + k)
  | BWrap w a => if i <? w then sbit ω a i else SAny []
  | BSext w a => if i <? w then sbit ω a i else sbit ω a (w - 1)
  end.

(** From [top ω e] on, all bits of [e] agree. *)
Fixpoint top (ω : list kind) (e : bexp) : Z :=
  match e with
  | BVar n => Z.max 0 (snd (nth n ω (false, 0)))
  | BLit c => Z.log2 c + 1
  | BOr a b => Z.max (top ω a) (top ω b)
  | BAnd a m => Z.max (top ω a) (Z.log2 m + 1)
  | BShl a k => top ω a + k
  | BShr a k => Z.max 0 (top ω a - k)
  | BWrap w _ => w
  | BSext w _ => w
  end.

Definition sub_atoms (l l' : list (nat * Z)) : bool :=
  forallb (λ '(n, i), existsb (λ '(m, j), (n =? m)%nat && (i =? j)) l') l.

Definition sym_eqb (a b : sym) : bool :=
  match a, b with
  | STrue, STrue => true
  | SAny l, SAny l' => sub_atoms l l' && sub_atoms l' l
  | _, _ => false
  end.

Definition check_eq (ω : list kind) (a b : bexp) : bool :=
  well_shaped a && well_shaped b &&
  forallb (λ i, sym_eqb (sbit ω a i) (sbit ω b i))
          (seqZ 0 (Z.max (top ω a) (top ω b) + 1)).

(** * Soundness *)

Definition in_kind (k : kind) (x : Z) : Prop :=
  let '(sgn, w) := k in 0 < w ∧ if sgn then srange w x else urange w x.

Definition sym_den (ρ : list Z) (s : sym) : bool :=
  match s with
  | STrue => true
  | SAny l => existsb (λ '(n, i), Z.testbit (nth n ρ 0) i) l
  end.

Lemma sym_or_den ρ a b : sym_den ρ (sym_or a b) = sym_den ρ a || sym_den ρ b.
Proof.
  destruct a as [|l], b as [|l']; cbn; try done.
  - by rewrite orb_true_r.
  - apply existsb_app.
Qed.

Lemma sub_atoms_den ρ l l' :
  sub_atoms l l' = true → sym_den ρ (SAny l) = true → sym_den ρ (SAny l') = true.
Proof.
  unfold sub_atoms. cbn. rewrite forallb_forall, !existsb_exists.
  intros Hsub ([n i] & Hin & Hb). specialize (Hsub _ Hin). cbn in Hsub.
  apply existsb_exists in Hsub as ([m j] & Hin' & He).
  apply andb_prop in He as [Hn Hi]. apply Nat.eqb_eq in Hn as ->.
  apply Z.eqb_eq in Hi as ->. by exists (m, j).
Qed.

Lemma sym_eqb_den ρ a b : sym_eqb a b = true → sym_den ρ a = sym_den ρ b.
Proof.
  destruct a as [|l], b as [|l']; cbn [sym_eqb]; try done.
  intros [H1 H2]%andb_prop. apply Bool.eq_true_iff_eq.
  split; by apply sub_atoms_den.
Qed.

Section Sound.
Context (ω : list kind) (ρ : list Z).
Context (Hρ : ∀ n, (n < length ω)%nat → in_kind (nth n ω (false, 0)) (nth n ρ 0)).
Context (Hlen : length ρ = length ω).

Lemma srange_testbit w x i :
  0 < w → srange w x → w <= i → Z.testbit x i = Z.testbit x (w - 1).
Proof.
  intros Hw Hx Hi. rewrite <- (sext_small w x) by done.
  rewrite !testbit_sext by lia.
  destruct (Z.ltb_spec i w), (Z.ltb_spec (w - 1) w); try lia; done.
Qed.

Lemma var_sound n i :
  0 <= i → sym_den ρ (sbit ω (BVar n) i) = Z.testbit (nth n ρ 0) i.
Proof.
  intros Hi. cbn. destruct (decide (n < length ω)%nat) as [Hn|Hn].
  - specialize (Hρ n Hn). destruct (nth n ω (false, 0)) as [sgn w]. cbn in *.
    destruct (Z.ltb_spec i w); cbn; [by rewrite orb_false_r|].
    destruct sgn, Hρ as [Hw Hx]; cbn.
    + rewrite orb_false_r. symmetry. by apply srange_testbit.
    + symmetry. by apply (urange_testbit w); [|lia].
  - rewrite !nth_overflow by lia. cbn. rewrite Z.testbit_0_l.
    by destruct (Z.ltb_spec i 0); [lia|].
Qed.

Lemma sbit_sound e i :
  well_shaped e = true → 0 <= i → sym_den ρ (sbit ω e i) = Z.testbit (denote ρ e) i.
Proof.
  revert i. induction e as [n|c|a IHa b IHb|a IH m|a IH k|a IH k|w a IH|w a IH];
    intros i Hs Hi; cbn [well_shaped] in Hs;
    repeat match goal with H : _ && _ = true |- _ => apply andb_prop in H as [??] end;
    [by apply var_sound|..]; cbn [sbit denote].
  - by destruct (Z.testbit c i).
  - by rewrite sym_or_den, IHa, IHb, Z.lor_spec.
  - rewrite Z.land_spec. destruct (Z.testbit m i); [|by rewrite andb_false_r].
    by rewrite andb_true_r, IH.
  - rewrite Z.shiftl_spec by done. destruct (Z.ltb_spec i k).
    + by rewrite Z.testbit_neg_r by lia.
    + apply IH; [done|lia].
  - rewrite Z.shiftr_spec by done. apply IH; [done|lia].
  - rewrite testbit_wrap by lia. destruct (Z.ltb_spec i w); [by apply IH|done].
  - rewrite testbit_sext by lia. destruct (Z.ltb_spec i w); apply IH; (done || lia).
Qed.

Lemma top_nonneg e : well_shaped e = true → 0 <= top ω e.
Proof.
  induction e as [n|c|a IHa b IHb|a IH m|a IH k|a IH k|w a IH|w a IH];
    cbn [well_shaped top]; intros Hs;
    repeat match goal with H : _ && _ = true |- _ => apply andb_prop in H as [??] end;
    try specialize (IH ltac:(done)); try lia.
  - pose proof (Z.log2_nonneg c). lia.
  - specialize (IHa ltac:(done)). lia.
Qed.

Lemma lit_top c i : 0 <= c → Z.log2 c + 1 <= i → Z.testbit c i = false.
Proof. intros. apply Z.bits_above_log2; lia. Qed.

Lemma top_sound e i :
  well_shaped e = true → top ω e <= i →
  Z.testbit (denote ρ e) i = Z.testbit (denote ρ e) (top ω e).
Proof.
  revert i. induction e as [n|c|a IHa b IHb|a IH m|a IH k|a IH k|w a IH|w a IH];
    intros i Hs Hi; cbn [well_shaped top denote] in *;
    repeat match goal with H : _ && _ = true |- _ => apply andb_prop in H as [??] end.
  - rewrite <- !var_sound by lia. cbn.
    destruct (nth n ω (false, 0)) as [sgn w]. cbn in *.
    destruct (Z.ltb_spec i w), (Z.ltb_spec (Z.max 0 w) w); lia || done.
  - rewrite !lit_top by lia. done.
  - pose proof (top_nonneg a ltac:(done)). pose proof (top_nonneg b ltac:(done)). rewrite !Z.lor_spec.
    rewrite (IHa i), (IHb i) by (done || lia).
    rewrite (IHa (Z.max _ _)), (IHb (Z.max _ _)) by (done || lia). done.
  - rewrite !Z.land_spec, !(lit_top m) by lia. by rewrite !andb_false_r.
  - pose proof (top_nonneg a ltac:(done)). rewrite !Z.shiftl_spec by lia.
    rewrite (IH (i - k)) by (done || lia). f_equal. lia.
  - pose proof (top_nonneg a ltac:(done)). rewrite !Z.shiftr_spec by lia.
    rewrite (IH (i + k)), (IH (Z.max _ _ + k)) by (done || lia). done.
  - rewrite !testbit_wrap by lia.
    destruct (Z.ltb_spec i w), (Z.ltb_spec w w); lia || done.
  - rewrite !testbit_sext by lia.
    destruct (Z.ltb_spec i w), (Z.ltb_spec w w); lia || done.
Qed.

Lemma check_eq_sound a b : check_eq ω a b = true → denote ρ a = denote ρ b.
Proof.
  unfold check_eq. intros [[Ha Hb]%andb_prop Hc]%andb_prop.
  pose proof (top_nonneg a Ha). pose proof (top_nonneg b Hb).
  rewrite forallb_forall in Hc.
  assert (Heq : ∀ i, 0 <= i <= Z.max (top ω a) (top ω b) →
    Z.testbit (denote ρ a) i = Z.testbit (denote ρ b) i).
  { intros i Hi. rewrite <- !sbit_sound by (done || lia). apply sym_eqb_den, Hc.
    apply list_elem_of_In, elem_of_seqZ. lia. }
  apply Z.bits_inj'. intros i Hi. set (t := Z.max _ _) in *.
  destruct (Z.leb_spec i t); [by apply Heq|].
  rewrite (top_sound a i), (top_sound b i) by (done || lia).
  rewrite <- (top_sound a t), <- (top_sound b t) by (done || lia).
  apply Heq. lia.
Qed.
End Sound.

(** Conversion unfolds the reflected syntax before the integer operations. *)
#[global] Strategy expand [denote nth].

(** * Reification *)

Ltac bx_mem x l :=
  lazymatch l with
  | [] => constr:(false)
  | x :: _ => constr:(true)
  | _ :: ?l' => bx_mem x l'
  end.

Ltac bx_add x l :=
  lazymatch bx_mem x l with true => l | false => constr:(x :: l) end.

Ltac bx_vars e l :=
  lazymatch e with
  | Z0 => l
  | Zpos _ => l
  | Zneg _ => l
  | Z.lor ?a ?b => let l' := bx_vars a l in bx_vars b l'
  | Z.land ?a _ => bx_vars a l
  | Z.shiftl ?a _ => bx_vars a l
  | Z.shiftr ?a _ => bx_vars a l
  | wrap _ ?a => bx_vars a l
  | sext _ ?a => bx_vars a l
  | ?x => bx_add x l
  end.

Ltac bx_index x l :=
  lazymatch l with
  | x :: _ => constr:(O)
  | _ :: ?l' => let n := bx_index x l' in constr:(S n)
  end.

Ltac bx_reify e l :=
  lazymatch e with
  | Z0 => constr:(BLit e)
  | Zpos _ => constr:(BLit e)
  | Zneg _ => constr:(BLit e)
  | Z.lor ?a ?b =>
      let a' := bx_reify a l in let b' := bx_reify b l in constr:(BOr a' b')
  | Z.land ?a ?m => let a' := bx_reify a l in constr:(BAnd a' m)
  | Z.shiftl ?a ?k => let a' := bx_reify a l in constr:(BShl a' k)
  | Z.shiftr ?a ?k => let a' := bx_reify a l in constr:(BShr a' k)
  | wrap ?w ?a => let a' := bx_reify a l in constr:(BWrap w a')
  | sext ?w ?a => let a' := bx_reify a l in constr:(BSext w a')
  | ?x => let n := bx_index x l in constr:(BVar n)
  end.

Ltac bx_kinds l :=
  lazymatch l with
  | [] => constr:(@nil kind)
  | ?x :: ?l' =>
      let ks := bx_kinds l' in
      lazymatch goal with
      | H : urange ?w x |- _ => constr:(((false, w) : kind) :: ks)
      | H : srange ?w x |- _ => constr:(((true, w) : kind) :: ks)
      end
  end.

Lemma in_kinds_nil : ∀ n, (n < length (@nil kind))%nat →
  in_kind (nth n [] (false, 0)) (nth n [] 0).
Proof. cbn. lia. Qed.

Lemma in_kinds_cons k ω x ρ :
  in_kind k x →
  (∀ n, (n < length ω)%nat → in_kind (nth n ω (false, 0)) (nth n ρ 0)) →
  ∀ n, (n < length (k :: ω))%nat → in_kind (nth n (k :: ω) (false, 0)) (nth n (x :: ρ) 0).
Proof. intros Hk Hr [|n] Hn; cbn; [done|]. apply Hr. by apply Nat.succ_lt_mono in Hn. Qed.

(** Prove [a = b] for two words over fields with known ranges. *)
Ltac bit_fields :=
  lazymatch goal with
  | |- ?a = ?b =>
      let l := bx_vars a (@nil Z) in
      let l := bx_vars b l in
      let ω := bx_kinds l in
      let ea := bx_reify a l in
      let eb := bx_reify b l in
      change (denote l ea = denote l eb);
      apply (check_eq_sound ω l);
      [ repeat (apply in_kinds_cons; [split; [lia|assumption]|]); apply in_kinds_nil
      | reflexivity
      | vm_compute; reflexivity ]
  end.

(** Ranges and parity of assembled words. *)
Lemma srange_of_sext w x : 0 < w → sext w x = x → srange w x.
Proof. intros Hw <-. by apply sext_range. Qed.

Lemma urange_of_wrap w x : 0 <= w → wrap w x = x → urange w x.
Proof. intros Hw <-. by apply wrap_range. Qed.

Lemma testbit_of_land x i m :
  0 <= i → m = 2 ^ i → Z.land x m = 0 → Z.testbit x i = false.
Proof.
  intros Hi -> H. apply (f_equal (λ y, Z.testbit y i)) in H.
  rewrite Z.land_spec, Z.pow2_bits_true, andb_true_r, Z.testbit_0_l in H by done. done.
Qed.

(** Pin a bit of a word that a branch condition decided. *)
Lemma land_bit_pin x i m :
  0 <= i → m = 2 ^ i → Z.testbit x i = true → x = Z.lor x m.
Proof.
  intros Hi -> H. apply Z.bits_inj'. intros k Hk. rewrite Z.lor_spec.
  rewrite Z.pow2_bits_eqb by done. destruct (Z.eqb_spec i k) as [->|];
    [by rewrite H|by rewrite orb_false_r].
Qed.

Lemma land_bit_clear w x i m :
  0 <= i → m = Z.ldiff (Z.ones w) (2 ^ i) → 0 <= w → urange w x →
  Z.testbit x i = false → x = Z.land x m.
Proof.
  intros Hi -> Hw Hx H. apply Z.bits_inj'. intros k Hk.
  rewrite Z.land_spec, Z.ldiff_spec, Z.pow2_bits_eqb, Z.testbit_ones_nonneg by done.
  destruct (Z.eqb_spec i k) as [->|]; [by rewrite H|].
  destruct (Z.ltb_spec k w); [by rewrite andb_true_r|].
  by rewrite (urange_testbit w x k) by (done || lia).
Qed.
