(* ===== verification/Types.v ===== *)
(** Core types of the emulator: the instruction enum, traps and the result of
    one step ([crates/riscv-core/src/types.rs]).

    Register numbers, shift amounts and immediates are [Z]; [instr_wf] states
    the ranges the Rust field types and the encodings give them.  The enums
    [Trap] and [Status] reuse names of [Instr] or of their own payload types, so
    their constructors are prefixed here ([TException], [StTrap], ...). *)

From S2P Require Import Prelude.

(** [enum Instr]: [imm] is an [i64] (a [u64] for [Lui] and [Auipc]), registers
    and shift amounts are [u8], [csr] is a [u16], [raw] a [u32]. *)
Inductive Instr : Type :=
  | Lui (rd imm : Z)
  | Auipc (rd imm : Z)
  | Jal (rd imm : Z)
  | Jalr (rd rs1 imm : Z)
  | Beq (rs1 rs2 imm : Z)
  | Bne (rs1 rs2 imm : Z)
  | Blt (rs1 rs2 imm : Z)
  | Bge (rs1 rs2 imm : Z)
  | Bltu (rs1 rs2 imm : Z)
  | Bgeu (rs1 rs2 imm : Z)
  | Lb (rd rs1 imm : Z)
  | Lh (rd rs1 imm : Z)
  | Lw (rd rs1 imm : Z)
  | Ld (rd rs1 imm : Z)
  | Lbu (rd rs1 imm : Z)
  | Lhu (rd rs1 imm : Z)
  | Lwu (rd rs1 imm : Z)
  | Sb (rs1 rs2 imm : Z)
  | Sh (rs1 rs2 imm : Z)
  | Sw (rs1 rs2 imm : Z)
  | Sd (rs1 rs2 imm : Z)
  | Flw (rd rs1 imm : Z)
  | Fld (rd rs1 imm : Z)
  | Fsw (rs1 rs2 imm : Z)
  | Fsd (rs1 rs2 imm : Z)
  | Addi (rd rs1 imm : Z)
  | Slti (rd rs1 imm : Z)
  | Sltiu (rd rs1 imm : Z)
  | Xori (rd rs1 imm : Z)
  | Ori (rd rs1 imm : Z)
  | Andi (rd rs1 imm : Z)
  | Slli (rd rs1 shamt : Z)
  | Srli (rd rs1 shamt : Z)
  | Srai (rd rs1 shamt : Z)
  | Add (rd rs1 rs2 : Z)
  | Sub (rd rs1 rs2 : Z)
  | Sll (rd rs1 rs2 : Z)
  | Slt (rd rs1 rs2 : Z)
  | Sltu (rd rs1 rs2 : Z)
  | Xor (rd rs1 rs2 : Z)
  | Srl (rd rs1 rs2 : Z)
  | Sra (rd rs1 rs2 : Z)
  | Or (rd rs1 rs2 : Z)
  | And (rd rs1 rs2 : Z)
  | Addiw (rd rs1 imm : Z)
  | Slliw (rd rs1 shamt : Z)
  | Srliw (rd rs1 shamt : Z)
  | Sraiw (rd rs1 shamt : Z)
  | Addw (rd rs1 rs2 : Z)
  | Subw (rd rs1 rs2 : Z)
  | Sllw (rd rs1 rs2 : Z)
  | Srlw (rd rs1 rs2 : Z)
  | Sraw (rd rs1 rs2 : Z)
  | Mul (rd rs1 rs2 : Z)
  | Mulh (rd rs1 rs2 : Z)
  | Mulhsu (rd rs1 rs2 : Z)
  | Mulhu (rd rs1 rs2 : Z)
  | Div (rd rs1 rs2 : Z)
  | Divu (rd rs1 rs2 : Z)
  | Rem (rd rs1 rs2 : Z)
  | Remu (rd rs1 rs2 : Z)
  | Mulw (rd rs1 rs2 : Z)
  | Divw (rd rs1 rs2 : Z)
  | Divuw (rd rs1 rs2 : Z)
  | Remw (rd rs1 rs2 : Z)
  | Remuw (rd rs1 rs2 : Z)
  | Lrw (rd rs1 : Z) (aq rl : bool)
  | Scw (rd rs1 rs2 : Z) (aq rl : bool)
  | Amoswapw (rd rs1 rs2 : Z) (aq rl : bool)
  | Amoaddw (rd rs1 rs2 : Z) (aq rl : bool)
  | Amoxorw (rd rs1 rs2 : Z) (aq rl : bool)
  | Amoandw (rd rs1 rs2 : Z) (aq rl : bool)
  | Amoorw (rd rs1 rs2 : Z) (aq rl : bool)
  | Amominw (rd rs1 rs2 : Z) (aq rl : bool)
  | Amomaxw (rd rs1 rs2 : Z) (aq rl : bool)
  | Amominuw (rd rs1 rs2 : Z) (aq rl : bool)
  | Amomaxuw (rd rs1 rs2 : Z) (aq rl : bool)
  | Lrd (rd rs1 : Z) (aq rl : bool)
  | Scd (rd rs1 rs2 : Z) (aq rl : bool)
  | Amoswapd (rd rs1 rs2 : Z) (aq rl : bool)
  | Amoaddd (rd rs1 rs2 : Z) (aq rl : bool)
  | Amoxord (rd rs1 rs2 : Z) (aq rl : bool)
  | Amoandd (rd rs1 rs2 : Z) (aq rl : bool)
  | Amoord (rd rs1 rs2 : Z) (aq rl : bool)
  | Amomind (rd rs1 rs2 : Z) (aq rl : bool)
  | Amomaxd (rd rs1 rs2 : Z) (aq rl : bool)
  | Amominud (rd rs1 rs2 : Z) (aq rl : bool)
  | Amomaxud (rd rs1 rs2 : Z) (aq rl : bool)
  | Fp (raw : Z)
  | Ecall
  | Ebreak
  | Fence (pred succ : Z)
  | FenceI
  | Csrrw (rd rs1 csr : Z)
  | Csrrs (rd rs1 csr : Z)
  | Csrrc (rd rs1 csr : Z)
  | Csrrwi (rd zimm csr : Z)
  | Csrrsi (rd zimm csr : Z)
  | Csrrci (rd zimm csr : Z)
  | Mret
  | Sret
  | Uret
  | Wfi
  | SfenceVma (rs1 rs2 : Z)
  | Unimp.

Inductive Exception : Type :=
  | InstructionAddressMisaligned
  | InstructionAccessFault
  | IllegalInstruction
  | Breakpoint
  | LoadAddressMisaligned
  | LoadAccessFault
  | StoreAddressMisaligned
  | StoreAccessFault
  | EnvironmentCallFromU
  | EnvironmentCallFromS
  | EnvironmentCallFromM
  | InstructionPageFault
  | LoadPageFault
  | StorePageFault.

Inductive Interrupt : Type :=
  | SupervisorSoftware
  | MachineSoftware
  | SupervisorTimer
  | MachineTimer
  | SupervisorExternal
  | MachineExternal.

Inductive Trap : Type :=
  | TException (e : Exception)
  | TInterrupt (i : Interrupt).

Inductive Status : Type :=
  | Running
  | StTrap (t : Trap)
  | StWfi.

#[global] Instance Exception_eq_dec : EqDecision Exception.
Proof. solve_decision. Defined.
#[global] Instance Interrupt_eq_dec : EqDecision Interrupt.
Proof. solve_decision. Defined.
#[global] Instance Trap_eq_dec : EqDecision Trap.
Proof. solve_decision. Defined.
#[global] Instance Status_eq_dec : EqDecision Status.
Proof. solve_decision. Defined.

(** [e as u64]: the discriminants. *)
Definition exception_code (e : Exception) : Z :=
  match e with
  | InstructionAddressMisaligned => 0
  | InstructionAccessFault => 1
  | IllegalInstruction => 2
  | Breakpoint => 3
  | LoadAddressMisaligned => 4
  | LoadAccessFault => 5
  | StoreAddressMisaligned => 6
  | StoreAccessFault => 7
  | EnvironmentCallFromU => 8
  | EnvironmentCallFromS => 9
  | EnvironmentCallFromM => 11
  | InstructionPageFault => 12
  | LoadPageFault => 13
  | StorePageFault => 15
  end.

Definition interrupt_code (i : Interrupt) : Z :=
  match i with
  | SupervisorSoftware => 1
  | MachineSoftware => 3
  | SupervisorTimer => 5
  | MachineTimer => 7
  | SupervisorExternal => 9
  | MachineExternal => 11
  end.

(** * Well-formed instructions

    The ranges the decoders guarantee: register numbers below 32, shift amounts
    below the operand width, immediates inside their Rust type. *)

Definition reg (r : Z) : Prop := urange 5 r.

Definition instr_wf (i : Instr) : Prop :=
  match i with
  | Lui rd imm | Auipc rd imm => reg rd ∧ urange 64 imm
  | Jal rd imm => reg rd ∧ srange 64 imm
  | Jalr rd rs1 imm
  | Lb rd rs1 imm | Lh rd rs1 imm | Lw rd rs1 imm | Ld rd rs1 imm
  | Lbu rd rs1 imm | Lhu rd rs1 imm | Lwu rd rs1 imm
  | Flw rd rs1 imm | Fld rd rs1 imm
  | Addi rd rs1 imm | Slti rd rs1 imm | Sltiu rd rs1 imm
  | Xori rd rs1 imm | Ori rd rs1 imm | Andi rd rs1 imm
  | Addiw rd rs1 imm => reg rd ∧ reg rs1 ∧ srange 64 imm
  | Beq rs1 rs2 imm | Bne rs1 rs2 imm | Blt rs1 rs2 imm
  | Bge rs1 rs2 imm | Bltu rs1 rs2 imm | Bgeu rs1 rs2 imm
  | Sb rs1 rs2 imm | Sh rs1 rs2 imm | Sw rs1 rs2 imm | Sd rs1 rs2 imm
  | Fsw rs1 rs2 imm | Fsd rs1 rs2 imm => reg rs1 ∧ reg rs2 ∧ srange 64 imm
  | Slli rd rs1 shamt | Srli rd rs1 shamt | Srai rd rs1 shamt =>
      reg rd ∧ reg rs1 ∧ urange 6 shamt
  | Slliw rd rs1 shamt | Srliw rd rs1 shamt | Sraiw rd rs1 shamt =>
      reg rd ∧ reg rs1 ∧ urange 5 shamt
  | Add rd rs1 rs2 | Sub rd rs1 rs2 | Sll rd rs1 rs2 | Slt rd rs1 rs2
  | Sltu rd rs1 rs2 | Xor rd rs1 rs2 | Srl rd rs1 rs2 | Sra rd rs1 rs2
  | Or rd rs1 rs2 | And rd rs1 rs2
  | Addw rd rs1 rs2 | Subw rd rs1 rs2 | Sllw rd rs1 rs2 | Srlw rd rs1 rs2
  | Sraw rd rs1 rs2
  | Mul rd rs1 rs2 | Mulh rd rs1 rs2 | Mulhsu rd rs1 rs2 | Mulhu rd rs1 rs2
  | Div rd rs1 rs2 | Divu rd rs1 rs2 | Rem rd rs1 rs2 | Remu rd rs1 rs2
  | Mulw rd rs1 rs2 | Divw rd rs1 rs2 | Divuw rd rs1 rs2 | Remw rd rs1 rs2
  | Remuw rd rs1 rs2 => reg rd ∧ reg rs1 ∧ reg rs2
  | Lrw rd rs1 _ _ | Lrd rd rs1 _ _ => reg rd ∧ reg rs1
  | Scw rd rs1 rs2 _ _ | Amoswapw rd rs1 rs2 _ _ | Amoaddw rd rs1 rs2 _ _
  | Amoxorw rd rs1 rs2 _ _ | Amoandw rd rs1 rs2 _ _ | Amoorw rd rs1 rs2 _ _
  | Amominw rd rs1 rs2 _ _ | Amomaxw rd rs1 rs2 _ _ | Amominuw rd rs1 rs2 _ _
  | Amomaxuw rd rs1 rs2 _ _
  | Scd rd rs1 rs2 _ _ | Amoswapd rd rs1 rs2 _ _ | Amoaddd rd rs1 rs2 _ _
  | Amoxord rd rs1 rs2 _ _ | Amoandd rd rs1 rs2 _ _ | Amoord rd rs1 rs2 _ _
  | Amomind rd rs1 rs2 _ _ | Amomaxd rd rs1 rs2 _ _ | Amominud rd rs1 rs2 _ _
  | Amomaxud rd rs1 rs2 _ _ => reg rd ∧ reg rs1 ∧ reg rs2
  | Fp raw => urange 32 raw
  | Fence pred succ => urange 4 pred ∧ urange 4 succ
  | Csrrw rd r csr | Csrrs rd r csr | Csrrc rd r csr
  | Csrrwi rd r csr | Csrrsi rd r csr | Csrrci rd r csr =>
      reg rd ∧ reg r ∧ urange 12 csr
  | SfenceVma rs1 rs2 => reg rs1 ∧ reg rs2
  | Ecall | Ebreak | FenceI | Mret | Sret | Uret | Wfi | Unimp => True
  end.
