(* ===== verification/Decode.v ===== *)
(** The 32-bit instruction decoder ([crates/riscv-core/src/decode.rs]).

    [decode] is cut at the arms of the source's outer [match opcode]; each
    [decode_*] is one of them, on the fields [decode] extracted.  A Rust
    [match] on integer literals is a chain of comparisons in the same order. *)

From S2P Require Import Prelude Types.

(** * Immediates *)

Definition i_imm (raw : Z) : Z := Z.shiftr (as_i32 raw) 20.

Definition i_imm_sext5 (raw : Z) : Z := Z.shiftr (as_i32 raw) 20.

Definition s_imm (raw : Z) : Z :=
  let hi := Z.land (Z.shiftr raw 25) 0x7F in
  let lo := Z.land (Z.shiftr raw 7) 0x1F in
  let val := Z.lor (Z.shiftl hi 5) lo in
  Z.shiftr (as_i64 (Z.shiftl val 52)) 52.

Definition b_imm (raw : Z) : Z :=
  let bit12 := Z.land (Z.shiftr raw 31) 1 in
  let bits10_5 := Z.land (Z.shiftr raw 25) 0x3F in
  let bits4_1 := Z.land (Z.shiftr raw 8) 0x0F in
  let bit11 := Z.land (Z.shiftr raw 7) 1 in
  let val := Z.lor (Z.lor (Z.lor (Z.shiftl bit12 12) (Z.shiftl bit11 11))
                          (Z.shiftl bits10_5 5)) (Z.shiftl bits4_1 1) in
  Z.shiftr (as_i64 (Z.shiftl val 51)) 51.

Definition j_imm (raw : Z) : Z :=
  let bit20 := Z.land (Z.shiftr raw 31) 1 in
  let bits10_1 := Z.land (Z.shiftr raw 21) 0x3FF in
  let bit11 := Z.land (Z.shiftr raw 20) 1 in
  let bits19_12 := Z.land (Z.shiftr raw 12) 0xFF in
  let val := Z.lor (Z.lor (Z.lor (Z.shiftl bit20 20) (Z.shiftl bits19_12 12))
                          (Z.shiftl bit11 11)) (Z.shiftl bits10_1 1) in
  Z.shiftr (as_i64 (Z.shiftl val 43)) 43.

(** [(((raw & 0xFFFFF000) as i32) as i64) as u64] *)
Definition u_imm (raw : Z) : Z := as_u64 (as_i32 (Z.land raw 0xFFFFF000)).

(** * The arms of [decode] *)

Definition decode_branch (rs1 rs2 funct3 imm : Z) : Instr :=
  if funct3 =? 0 then Beq rs1 rs2 imm
  else if funct3 =? 1 then Bne rs1 rs2 imm
  else if funct3 =? 4 then Blt rs1 rs2 imm
  else if funct3 =? 5 then Bge rs1 rs2 imm
  else if funct3 =? 6 then Bltu rs1 rs2 imm
  else if funct3 =? 7 then Bgeu rs1 rs2 imm
  else Unimp.

Definition decode_load (rd rs1 funct3 imm : Z) : Instr :=
  if funct3 =? 0 then Lb rd rs1 imm
  else if funct3 =? 1 then Lh rd rs1 imm
  else if funct3 =? 2 then Lw rd rs1 imm
  else if funct3 =? 3 then Ld rd rs1 imm
  else if funct3 =? 4 then Lbu rd rs1 imm
  else if funct3 =? 5 then Lhu rd rs1 imm
  else if funct3 =? 6 then Lwu rd rs1 imm
  else Unimp.

Definition decode_load_fp (rd rs1 funct3 imm : Z) : Instr :=
  if funct3 =? 2 then Flw rd rs1 imm
  else if funct3 =? 3 then Fld rd rs1 imm
  else Unimp.

Definition decode_store (rs1 rs2 funct3 imm : Z) : Instr :=
  if funct3 =? 0 then Sb rs1 rs2 imm
  else if funct3 =? 1 then Sh rs1 rs2 imm
  else if funct3 =? 2 then Sw rs1 rs2 imm
  else if funct3 =? 3 then Sd rs1 rs2 imm
  else Unimp.

Definition decode_store_fp (rs1 rs2 funct3 imm : Z) : Instr :=
  if funct3 =? 2 then Fsw rs1 rs2 imm
  else if funct3 =? 3 then Fsd rs1 rs2 imm
  else Unimp.

Definition decode_op_imm (raw rd rs1 funct3 funct7 imm : Z) : Instr :=
  if funct3 =? 0 then Addi rd rs1 imm
  else if funct3 =? 2 then Slti rd rs1 imm
  else if funct3 =? 3 then Sltiu rd rs1 imm
  else if funct3 =? 4 then Xori rd rs1 imm
  else if funct3 =? 6 then Ori rd rs1 imm
  else if funct3 =? 7 then Andi rd rs1 imm
  else if funct3 =? 1 then
    let shamt := Z.land (Z.shiftr raw 20) 0x3F in Slli rd rs1 shamt
  else if funct3 =? 5 then
    let shamt := Z.land (Z.shiftr raw 20) 0x3F in
    if Z.shiftr funct7 1 =? 0 then Srli rd rs1 shamt
    else if Z.shiftr funct7 1 =? 16 then Srai rd rs1 shamt
    else Unimp
  else Unimp.

Definition decode_op (rd rs1 rs2 funct3 funct7 : Z) : Instr :=
  if funct7 =? 1 then
    if funct3 =? 0 then Mul rd rs1 rs2
    else if funct3 =? 1 then Mulh rd rs1 rs2
    else if funct3 =? 2 then Mulhsu rd rs1 rs2
    else if funct3 =? 3 then Mulhu rd rs1 rs2
    else if funct3 =? 4 then Div rd rs1 rs2
    else if funct3 =? 5 then Divu rd rs1 rs2
    else if funct3 =? 6 then Rem rd rs1 rs2
    else if funct3 =? 7 then Remu rd rs1 rs2
    else Unimp
  else if funct7 =? 0 then
    if funct3 =? 0 then Add rd rs1 rs2
    else if funct3 =? 1 then Sll rd rs1 rs2
    else if funct3 =? 2 then Slt rd rs1 rs2
    else if funct3 =? 3 then Sltu rd rs1 rs2
    else if funct3 =? 4 then Xor rd rs1 rs2
    else if funct3 =? 5 then Srl rd rs1 rs2
    else if funct3 =? 6 then Or rd rs1 rs2
    else if funct3 =? 7 then And rd rs1 rs2
    else Unimp
  else if funct7 =? 32 then
    if funct3 =? 0 then Sub rd rs1 rs2
    else if funct3 =? 5 then Sra rd rs1 rs2
    else Unimp
  else Unimp.

Definition decode_amo (raw rd rs1 rs2 funct3 : Z) : Instr :=
  let funct5 := Z.land (Z.shiftr raw 27) 0x1F in
  let aq := bit raw 26 in
  let rl := bit raw 25 in
  if funct3 =? 2 then
    if funct5 =? 2 then Lrw rd rs1 aq rl
    else if funct5 =? 3 then Scw rd rs1 rs2 aq rl
    else if funct5 =? 1 then Amoswapw rd rs1 rs2 aq rl
    else if funct5 =? 0 then Amoaddw rd rs1 rs2 aq rl
    else if funct5 =? 4 then Amoxorw rd rs1 rs2 aq rl
    else if funct5 =? 12 then Amoandw rd rs1 rs2 aq rl
    else if funct5 =? 8 then Amoorw rd rs1 rs2 aq rl
    else if funct5 =? 16 then Amominw rd rs1 rs2 aq rl
    else if funct5 =? 20 then Amomaxw rd rs1 rs2 aq rl
    else if funct5 =? 24 then Amominuw rd rs1 rs2 aq rl
    else if funct5 =? 28 then Amomaxuw rd rs1 rs2 aq rl
    else Unimp
  else if funct3 =? 3 then
    if funct5 =? 2 then Lrd rd rs1 aq rl
    else if funct5 =? 3 then Scd rd rs1 rs2 aq rl
    else if funct5 =? 1 then Amoswapd rd rs1 rs2 aq rl
    else if funct5 =? 0 then Amoaddd rd rs1 rs2 aq rl
    else if funct5 =? 4 then Amoxord rd rs1 rs2 aq rl
    else if funct5 =? 12 then Amoandd rd rs1 rs2 aq rl
    else if funct5 =? 8 then Amoord rd rs1 rs2 aq rl
    else if funct5 =? 16 then Amomind rd rs1 rs2 aq rl
    else if funct5 =? 20 then Amomaxd rd rs1 rs2 aq rl
    else if funct5 =? 24 then Amominud rd rs1 rs2 aq rl
    else if funct5 =? 28 then Amomaxud rd rs1 rs2 aq rl
    else Unimp
  else Unimp.

Definition decode_op_imm_32 (raw rd rs1 funct3 funct7 imm : Z) : Instr :=
  if funct3 =? 0 then Addiw rd rs1 imm
  else if funct3 =? 1 then
    let shamt := Z.land (Z.shiftr raw 20) 0x1F in Slliw rd rs1 shamt
  else if funct3 =? 5 then
    let shamt := Z.land (Z.shiftr raw 20) 0x1F in
    if funct7 =? 0 then Srliw rd rs1 shamt
    else if funct7 =? 32 then Sraiw rd rs1 shamt
    else Unimp
  else Unimp.

Definition decode_op_32 (rd rs1 rs2 funct3 funct7 : Z) : Instr :=
  if funct7 =? 1 then
    if funct3 =? 0 then Mulw rd rs1 rs2
    else if funct3 =? 4 then Divw rd rs1 rs2
    else if funct3 =? 5 then Divuw rd rs1 rs2
    else if funct3 =? 6 then Remw rd rs1 rs2
    else if funct3 =? 7 then Remuw rd rs1 rs2
    else Unimp
  else if funct7 =? 0 then
    if funct3 =? 0 then Addw rd rs1 rs2
    else if funct3 =? 1 then Sllw rd rs1 rs2
    else if funct3 =? 5 then Srlw rd rs1 rs2
    else Unimp
  else if funct7 =? 32 then
    if funct3 =? 0 then Subw rd rs1 rs2
    else if funct3 =? 5 then Sraw rd rs1 rs2
    else Unimp
  else Unimp.

Definition decode_misc_mem (raw funct3 : Z) : Instr :=
  if funct3 =? 0 then
    Fence (Z.land (Z.shiftr raw 20) 0x0F) (Z.land (Z.shiftr raw 24) 0x0F)
  else if funct3 =? 1 then FenceI
  else Unimp.

Definition decode_system (raw rd rs1 rs2 funct3 funct7 : Z) : Instr :=
  let csr := Z.land (Z.shiftr raw 20) 0xFFF in
  if funct3 =? 0 then
    if funct7 =? 9 then SfenceVma rs1 rs2
    else if csr =? 0x000 then Ecall
    else if csr =? 0x001 then Ebreak
    else if csr =? 0x002 then Uret
    else if csr =? 0x102 then Sret
    else if csr =? 0x105 then Wfi
    else if csr =? 0x302 then Mret
    else Unimp
  else if funct3 =? 1 then Csrrw rd rs1 csr
  else if funct3 =? 2 then Csrrs rd rs1 csr
  else if funct3 =? 3 then Csrrc rd rs1 csr
  else if funct3 =? 5 then Csrrwi rd rs1 csr
  else if funct3 =? 6 then Csrrsi rd rs1 csr
  else if funct3 =? 7 then Csrrci rd rs1 csr
  else Unimp.

(** [decode]: [raw] is a [u32], so the [as u8] of each field is the field. *)
Definition decode (raw : Z) : Instr :=
  let opcode := Z.land raw 0x7F in
  let rd := Z.land (Z.shiftr raw 7) 0x1F in
  let funct3 := Z.land (Z.shiftr raw 12) 0x07 in
  let rs1 := Z.land (Z.shiftr raw 15) 0x1F in
  let rs2 := Z.land (Z.shiftr raw 20) 0x1F in
  let funct7 := Z.land (Z.shiftr raw 25) 0x7F in
  if opcode =? 0x37 then Lui rd (u_imm raw)
  else if opcode =? 0x17 then Auipc rd (u_imm raw)
  else if opcode =? 0x6F then Jal rd (j_imm raw)
  else if opcode =? 0x67 then Jalr rd rs1 (i_imm raw)
  else if opcode =? 0x63 then decode_branch rs1 rs2 funct3 (b_imm raw)
  else if opcode =? 0x03 then decode_load rd rs1 funct3 (i_imm raw)
  else if opcode =? 0x07 then decode_load_fp rd rs1 funct3 (i_imm raw)
  else if opcode =? 0x23 then decode_store rs1 rs2 funct3 (s_imm raw)
  else if opcode =? 0x27 then decode_store_fp rs1 rs2 funct3 (s_imm raw)
  else if opcode =? 0x13 then decode_op_imm raw rd rs1 funct3 funct7 (i_imm raw)
  else if opcode =? 0x33 then decode_op rd rs1 rs2 funct3 funct7
  else if opcode =? 0x2F then decode_amo raw rd rs1 rs2 funct3
  else if opcode =? 0x1B then
    decode_op_imm_32 raw rd rs1 funct3 funct7 (i_imm_sext5 raw)
  else if opcode =? 0x3B then decode_op_32 rd rs1 rs2 funct3 funct7
  else if opcode =? 0x0F then decode_misc_mem raw funct3
  else if opcode =? 0x73 then decode_system raw rd rs1 rs2 funct3 funct7
  else if (opcode =? 0x53) || (opcode =? 0x43) || (opcode =? 0x47)
          || (opcode =? 0x4B) || (opcode =? 0x4F) then Fp raw
  else Unimp.

(** * Every decoded instruction is well formed *)

Lemma i_imm_range raw : srange 12 (i_imm raw).
Proof. apply (shiftr_sext_range 32 20). lia. Qed.

Lemma s_imm_range raw : srange 12 (s_imm raw).
Proof. apply (shiftr_sext_range 64 52). lia. Qed.

Lemma b_imm_range raw : srange 13 (b_imm raw).
Proof. apply (shiftr_sext_range 64 51). lia. Qed.

Lemma j_imm_range raw : srange 21 (j_imm raw).
Proof. apply (shiftr_sext_range 64 43). lia. Qed.

Lemma u_imm_range raw : urange 64 (u_imm raw).
Proof. apply wrap_range. lia. Qed.

Lemma imm_srange64 w x : 0 < w <= 64 → srange w x → srange 64 x.
Proof. apply srange_weaken. Qed.

Create HintDb decode.
#[export] Hint Resolve u_imm_range : decode.
#[export] Hint Extern 1 (srange 64 (i_imm _)) =>
  (apply (imm_srange64 12); [lia|apply i_imm_range]) : decode.
#[export] Hint Extern 1 (srange 64 (i_imm_sext5 _)) =>
  (apply (imm_srange64 12); [lia|apply i_imm_range]) : decode.
#[export] Hint Extern 1 (srange 64 (s_imm _)) =>
  (apply (imm_srange64 12); [lia|apply s_imm_range]) : decode.
#[export] Hint Extern 1 (srange 64 (b_imm _)) =>
  (apply (imm_srange64 13); [lia|apply b_imm_range]) : decode.
#[export] Hint Extern 1 (srange 64 (j_imm _)) =>
  (apply (imm_srange64 21); [lia|apply j_imm_range]) : decode.
#[export] Hint Extern 1 (reg (Z.land _ _)) => (unfold reg; field_range) : decode.

Lemma decode_wf raw : urange 32 raw → instr_wf (decode raw).
Proof.
  intros Hraw. unfold decode, decode_branch, decode_load, decode_load_fp,
    decode_store, decode_store_fp, decode_op_imm, decode_op, decode_amo,
    decode_op_imm_32, decode_op_32, decode_misc_mem, decode_system.
  split_ifs; cbn [instr_wf]; conj_split; auto with decode ints.
Qed.
