(* ===== verification/Encode.v ===== *)
(** The instruction encoder and small assembler
    ([crates/riscv-core/src/encode.rs]), and its round trip with [decode].

    [<<] on a [u32] is [shl32]: the bits that leave the word are dropped. *)

From S2P Require Import Prelude Bits Types Decode.

Definition shl32 (x k : Z) : Z := wrap 32 (Z.shiftl x k).

(** * The format helpers *)

Definition i_type (imm rs1 funct3 rd opcode : Z) : Z :=
  let imm_11_0 := Z.land (as_u32 imm) 0xFFF in
  Z.lor (Z.lor (Z.lor (Z.lor (shl32 imm_11_0 20) (shl32 rs1 15))
                      (shl32 funct3 12)) (shl32 rd 7)) opcode.

Definition s_type (imm rs2 rs1 funct3 : Z) : Z :=
  let imm_11_0 := Z.land (as_u32 imm) 0xFFF in
  let imm_hi := Z.land (Z.shiftr imm_11_0 5) 0x7F in
  let imm_lo := Z.land imm_11_0 0x1F in
  Z.lor (Z.lor (Z.lor (Z.lor (Z.lor (shl32 imm_hi 25) (shl32 rs2 20)) (shl32 rs1 15))
                      (shl32 funct3 12)) (shl32 imm_lo 7)) 0x23.

Definition b_type (imm rs2 rs1 funct3 : Z) : Z :=
  let bit12 := as_u32 (Z.land (Z.shiftr imm 12) 1) in
  let bits10_5 := as_u32 (Z.land (Z.shiftr imm 5) 0x3F) in
  let bits4_1 := as_u32 (Z.land (Z.shiftr imm 1) 0xF) in
  let bit11 := as_u32 (Z.land (Z.shiftr imm 11) 1) in
  Z.lor (Z.lor (Z.lor (Z.lor (Z.lor (Z.lor (Z.lor (shl32 bit12 31) (shl32 bits10_5 25))
      (shl32 bit11 7)) (shl32 bits4_1 8)) (shl32 rs2 20)) (shl32 rs1 15))
      (shl32 funct3 12)) 0x63.

Definition r_type (funct7 rs2 rs1 funct3 rd opcode : Z) : Z :=
  Z.lor (Z.lor (Z.lor (Z.lor (Z.lor (shl32 funct7 25) (shl32 rs2 20)) (shl32 rs1 15))
                      (shl32 funct3 12)) (shl32 rd 7)) opcode.

Definition csr_type (csr rs1 funct3 rd : Z) : Z :=
  Z.lor (Z.lor (Z.lor (Z.lor (shl32 csr 20) (shl32 rs1 15)) (shl32 funct3 12))
               (shl32 rd 7)) 0x73.

(** The arms of [encode] that are written out in place. *)
Definition u_type (imm rd opcode : Z) : Z :=
  let imm_31_12 := Z.land (as_u32 (Z.shiftr (as_i64 imm) 12)) 0xFFFFF in
  Z.lor (Z.lor (shl32 imm_31_12 12) (shl32 rd 7)) opcode.

Definition jal_type (imm rd : Z) : Z :=
  let bit20 := as_u32 (Z.land (Z.shiftr imm 20) 1) in
  let bits10_1 := as_u32 (Z.land (Z.shiftr imm 1) 0x3FF) in
  let bit11 := as_u32 (Z.land (Z.shiftr imm 11) 1) in
  let bits19_12 := as_u32 (Z.land (Z.shiftr imm 12) 0xFF) in
  let j_imm := Z.lor (Z.lor (Z.lor (shl32 bit20 31) (shl32 bits19_12 12))
                            (shl32 bit11 20)) (shl32 bits10_1 21) in
  Z.lor (Z.lor j_imm (shl32 rd 7)) 0x6F.

Definition jalr_type (imm rs1 rd : Z) : Z :=
  let imm_11_0 := Z.land (as_u32 imm) 0xFFF in
  Z.lor (Z.lor (Z.lor (shl32 imm_11_0 20) (shl32 rs1 15)) (shl32 rd 7)) 0x67.

(** [(funct << at) | (shamt << 20) | (rs1 << 15) | (f3 << 12) | (rd << 7) | op] *)
Definition shift_type (funct at_ shamt rs1 funct3 rd opcode : Z) : Z :=
  Z.lor (Z.lor (Z.lor (Z.lor (Z.lor (shl32 funct at_) (shl32 shamt 20)) (shl32 rs1 15))
                      (shl32 funct3 12)) (shl32 rd 7)) opcode.

Definition fence_type (pred succ : Z) : Z :=
  Z.lor (Z.lor (shl32 pred 20) (shl32 succ 24)) 0x0F.

Definition sfence_type (rs1 rs2 : Z) : Z :=
  Z.lor (Z.lor (Z.lor (Z.lor (shl32 rs2 20) (shl32 rs1 15)) (shl32 0 12))
               (shl32 9 25)) 0x73.

(** * [encode]: the raw word and its width in bytes *)

Definition encode (instr : Instr) : option (Z * Z) :=
  let ok raw := Some (raw, 4) in
  match instr with
  | Lui rd imm => ok (u_type imm rd 0x37)
  | Auipc rd imm => ok (u_type imm rd 0x17)
  | Jal rd imm => ok (jal_type imm rd)
  | Jalr rd rs1 imm => ok (jalr_type imm rs1 rd)
| Lb rd rs1 imm => ok (i_type imm rs1 0 rd 0x03)
  | Lh rd rs1 imm => ok (i_type imm rs1 1 rd 0x03)
  | Lw rd rs1 imm => ok (i_type imm rs1 2 rd 0x03)
  | Ld rd rs1 imm => ok (i_type imm rs1 3 rd 0x03)
  | Lbu rd rs1 imm => ok (i_type imm rs1 4 rd 0x03)
  | Lhu rd rs1 imm => ok (i_type imm rs1 5 rd 0x03)
  | Lwu rd rs1 imm => ok (i_type imm rs1 6 rd 0x03)
  | Fld rd rs1 imm => ok (i_type imm rs1 3 rd 0x07)
  | Addi rd rs1 imm => ok (i_type imm rs1 0 rd 0x13)
  | Slti rd rs1 imm => ok (i_type imm rs1 2 rd 0x13)
  | Sltiu rd rs1 imm => ok (i_type imm rs1 3 rd 0x13)
  | Xori rd rs1 imm => ok (i_type imm rs1 4 rd 0x13)
  | Ori rd rs1 imm => ok (i_type imm rs1 6 rd 0x13)
  | Andi rd rs1 imm => ok (i_type imm rs1 7 rd 0x13)
  | Slli rd rs1 shamt => ok (shift_type 0 26 shamt rs1 1 rd 0x13)
  | Srli rd rs1 shamt => ok (shift_type 0 26 shamt rs1 5 rd 0x13)
  | Srai rd rs1 shamt => ok (shift_type 16 26 shamt rs1 5 rd 0x13)
  | Addiw rd rs1 imm => ok (i_type imm rs1 0 rd 0x1B)
  | Slliw rd rs1 shamt => ok (shift_type 0 25 shamt rs1 1 rd 0x1B)
  | Srliw rd rs1 shamt => ok (shift_type 0 25 shamt rs1 5 rd 0x1B)
  | Sraiw rd rs1 shamt => ok (shift_type 32 25 shamt rs1 5 rd 0x1B)
  | Beq rs1 rs2 imm => ok (b_type imm rs2 rs1 0)
  | Bne rs1 rs2 imm => ok (b_type imm rs2 rs1 1)
  | Blt rs1 rs2 imm => ok (b_type imm rs2 rs1 4)
  | Bge rs1 rs2 imm => ok (b_type imm rs2 rs1 5)
  | Bltu rs1 rs2 imm => ok (b_type imm rs2 rs1 6)
  | Bgeu rs1 rs2 imm => ok (b_type imm rs2 rs1 7)
  | Sb rs1 rs2 imm => ok (s_type imm rs2 rs1 0)
  | Sh rs1 rs2 imm => ok (s_type imm rs2 rs1 1)
  | Sw rs1 rs2 imm => ok (s_type imm rs2 rs1 2)
  | Sd rs1 rs2 imm => ok (s_type imm rs2 rs1 3)
  | Fsd rs1 rs2 imm => ok (s_type imm rs2 rs1 3)
  | Add rd rs1 rs2 => ok (r_type 0 rs2 rs1 0 rd 0x33)
  | Sub rd rs1 rs2 => ok (r_type 32 rs2 rs1 0 rd 0x33)
  | Sll rd rs1 rs2 => ok (r_type 0 rs2 rs1 1 rd 0x33)
  | Slt rd rs1 rs2 => ok (r_type 0 rs2 rs1 2 rd 0x33)
  | Sltu rd rs1 rs2 => ok (r_type 0 rs2 rs1 3 rd 0x33)
  | Xor rd rs1 rs2 => ok (r_type 0 rs2 rs1 4 rd 0x33)
  | Srl rd rs1 rs2 => ok (r_type 0 rs2 rs1 5 rd 0x33)
  | Sra rd rs1 rs2 => ok (r_type 32 rs2 rs1 5 rd 0x33)
  | Or rd rs1 rs2 => ok (r_type 0 rs2 rs1 6 rd 0x33)
  | And rd rs1 rs2 => ok (r_type 0 rs2 rs1 7 rd 0x33)
  | Mul rd rs1 rs2 => ok (r_type 1 rs2 rs1 0 rd 0x33)
  | Mulh rd rs1 rs2 => ok (r_type 1 rs2 rs1 1 rd 0x33)
  | Mulhsu rd rs1 rs2 => ok (r_type 1 rs2 rs1 2 rd 0x33)
  | Mulhu rd rs1 rs2 => ok (r_type 1 rs2 rs1 3 rd 0x33)
  | Div rd rs1 rs2 => ok (r_type 1 rs2 rs1 4 rd 0x33)
  | Divu rd rs1 rs2 => ok (r_type 1 rs2 rs1 5 rd 0x33)
  | Rem rd rs1 rs2 => ok (r_type 1 rs2 rs1 6 rd 0x33)
  | Remu rd rs1 rs2 => ok (r_type 1 rs2 rs1 7 rd 0x33)
  | Addw rd rs1 rs2 => ok (r_type 0 rs2 rs1 0 rd 0x3B)
  | Subw rd rs1 rs2 => ok (r_type 32 rs2 rs1 0 rd 0x3B)
  | Sllw rd rs1 rs2 => ok (r_type 0 rs2 rs1 1 rd 0x3B)
  | Srlw rd rs1 rs2 => ok (r_type 0 rs2 rs1 5 rd 0x3B)
  | Sraw rd rs1 rs2 => ok (r_type 32 rs2 rs1 5 rd 0x3B)
  | Mulw rd rs1 rs2 => ok (r_type 1 rs2 rs1 0 rd 0x3B)
  | Divw rd rs1 rs2 => ok (r_type 1 rs2 rs1 4 rd 0x3B)
  | Divuw rd rs1 rs2 => ok (r_type 1 rs2 rs1 5 rd 0x3B)
  | Remw rd rs1 rs2 => ok (r_type 1 rs2 rs1 6 rd 0x3B)
  | Remuw rd rs1 rs2 => ok (r_type 1 rs2 rs1 7 rd 0x3B)
  | Ecall => ok 0x00000073
  | Ebreak => ok 0x00100073
  | Mret => ok 0x30200073
  | Sret => ok 0x10200073
  | Uret => ok 0x00200073
  | Wfi => ok 0x10500073
  | Fence pred succ => ok (fence_type pred succ)
  | FenceI => ok 0x0000100F
  | Csrrw rd rs1 csr => ok (csr_type csr rs1 1 rd)
  | Csrrs rd rs1 csr => ok (csr_type csr rs1 2 rd)
  | Csrrc rd rs1 csr => ok (csr_type csr rs1 3 rd)
  | Csrrwi rd zimm csr => ok (csr_type csr zimm 5 rd)
  | Csrrsi rd zimm csr => ok (csr_type csr zimm 6 rd)
  | Csrrci rd zimm csr => ok (csr_type csr zimm 7 rd)
  | SfenceVma rs1 rs2 => ok (sfence_type rs1 rs2)
  | _ => None
  end.

Definition encode_bytes (instr : Instr) : option (list Z * Z) :=
  match encode instr with
  | Some (raw, width) => Some (to_le_bytes 4 raw, width)
  | None => None
  end.

(** [assemble]: an instruction [encode] refuses is skipped. *)
Fixpoint assemble (instrs : list Instr) : list Z :=
  match instrs with
  | [] => []
  | instr :: rest =>
      (match encode instr with
       | Some (raw, width) =>
           if width =? 2 then to_le_bytes 2 (as_u16 raw) else to_le_bytes 4 raw
       | None => []
       end) ++ assemble rest
  end.

(** * Helper constructors *)

Module Asm.
Definition addi (rd rs1 imm : Z) : Instr := Addi rd rs1 imm.

Definition li (rd imm : Z) : list Instr :=
  if (-2048 <=? imm) && (imm <? 2048) then [Addi rd 0 imm]
  else
    let hi := Z.shiftr (as_i32 imm) 12 in
    let lo := Z.shiftr (as_i32 (Z.shiftl (as_i32 imm) 20)) 20 in
    Lui rd (as_u64 (Z.shiftl (as_u64 hi) 12))
    :: (if negb (lo =? 0) then [Addi rd rd lo] else []).

Definition mv (rd rs : Z) : Instr := Addi rd rs 0.
Definition nop : Instr := Addi 0 0 0.
Definition j (imm : Z) : Instr := Jal 0 imm.
Definition jr (rs1 : Z) : Instr := Jalr 0 rs1 0.
Definition ret : Instr := Jalr 0 1 0.
Definition ecall : Instr := Ecall.
Definition ebreak : Instr := Ebreak.
Definition mret : Instr := Mret.
Definition sret : Instr := Sret.
Definition wfi : Instr := Wfi.
Definition csrr (rd csr : Z) : Instr := Csrrs rd 0 csr.
Definition csrw (csr rs1 : Z) : Instr := Csrrw 0 rs1 csr.
End Asm.

(** * What [encode] can represent

    The operands whose every bit has a place in the encoding. *)

Definition encodable (i : Instr) : Prop :=
  instr_wf i ∧
  match i with
  | Lui _ imm | Auipc _ imm =>
      as_u64 (as_i32 imm) = imm ∧ Z.land imm 0xFFF = 0
  | Jal _ imm => srange 21 imm ∧ Z.testbit imm 0 = false
  | Jalr _ _ imm | Lb _ _ imm | Lh _ _ imm | Lw _ _ imm | Ld _ _ imm
  | Lbu _ _ imm | Lhu _ _ imm | Lwu _ _ imm | Fld _ _ imm
  | Addi _ _ imm | Slti _ _ imm | Sltiu _ _ imm | Xori _ _ imm | Ori _ _ imm
  | Andi _ _ imm | Addiw _ _ imm
  | Sb _ _ imm | Sh _ _ imm | Sw _ _ imm | Sd _ _ imm => srange 12 imm
  | Beq _ _ imm | Bne _ _ imm | Blt _ _ imm | Bge _ _ imm | Bltu _ _ imm
  | Bgeu _ _ imm => srange 13 imm ∧ Z.testbit imm 0 = false
  | Fsd _ _ _ => False
  | _ => is_Some (encode i)
  end.

(** * The fields of each format *)

Lemma shl32_range x k : urange 32 (shl32 x k).
Proof. apply wrap_range. lia. Qed.
#[local] Hint Resolve shl32_range : ints.

(** The fields [decode] reads, and that the word is a [u32]. *)
Definition fields (raw opcode rd funct3 rs1 : Z) : Prop :=
  urange 32 raw ∧ Z.land raw 0x7F = opcode ∧ Z.land (Z.shiftr raw 7) 0x1F = rd ∧
  Z.land (Z.shiftr raw 12) 0x07 = funct3 ∧ Z.land (Z.shiftr raw 15) 0x1F = rs1.

Ltac solve_fields :=
  unfold fields, shl32; conj_split;
  lazymatch goal with
  | |- urange _ _ => solve [auto 12 with ints]
  | |- _ => bit_fields
  end.

Section Formats.
Context (rd rs1 rs2 funct3 funct7 opcode : Z).
Context (Hrd : urange 5 rd) (Hrs1 : urange 5 rs1) (Hrs2 : urange 5 rs2).
Context (Hf3 : urange 3 funct3) (Hf7 : urange 7 funct7) (Hop : urange 7 opcode).

Lemma i_type_fields imm (Himm : srange 12 imm) :
  fields (i_type imm rs1 funct3 rd opcode) opcode rd funct3 rs1 ∧
  i_imm (i_type imm rs1 funct3 rd opcode) = imm.
Proof. unfold i_type, i_imm. solve_fields. Qed.

Lemma jalr_type_fields imm (Himm : srange 12 imm) :
  fields (jalr_type imm rs1 rd) 0x67 rd 0 rs1 ∧ i_imm (jalr_type imm rs1 rd) = imm.
Proof. unfold jalr_type, i_imm. solve_fields. Qed.

Lemma s_type_fields imm (Himm : srange 12 imm) :
  let raw := s_type imm rs2 rs1 funct3 in
  fields raw 0x23 (Z.land imm 0x1F) funct3 rs1 ∧
  Z.land (Z.shiftr raw 20) 0x1F = rs2 ∧ s_imm raw = imm.
Proof. cbv zeta. unfold s_type, s_imm. solve_fields. Qed.

Lemma b_type_fields k (Hk : srange 12 k) :
  let raw := b_type (Z.shiftl k 1) rs2 rs1 funct3 in
  fields raw 0x63 (Z.lor (Z.land (Z.shiftr (Z.shiftl k 1) 11) 1)
                         (Z.shiftl (Z.land k 0xF) 1)) funct3 rs1 ∧
  Z.land (Z.shiftr raw 20) 0x1F = rs2 ∧ b_imm raw = Z.shiftl k 1.
Proof. cbv zeta. unfold b_type, b_imm. solve_fields. Qed.

Lemma jal_type_fields k (Hk : srange 20 k) :
  let raw := jal_type (Z.shiftl k 1) rd in
  urange 32 raw ∧ Z.land raw 0x7F = 0x6F ∧ Z.land (Z.shiftr raw 7) 0x1F = rd ∧
  j_imm raw = Z.shiftl k 1.
Proof. cbv zeta. unfold jal_type, j_imm. solve_fields. Qed.

Lemma u_type_fields k (Hk : srange 20 k) :
  let imm := as_u64 (Z.shiftl k 12) in
  let raw := u_type imm rd opcode in
  urange 32 raw ∧ Z.land raw 0x7F = opcode ∧ Z.land (Z.shiftr raw 7) 0x1F = rd ∧
  u_imm raw = imm.
Proof. cbv zeta. unfold u_type, u_imm. solve_fields. Qed.

Lemma r_type_fields :
  let raw := r_type funct7 rs2 rs1 funct3 rd opcode in
  fields raw opcode rd funct3 rs1 ∧ Z.land (Z.shiftr raw 20) 0x1F = rs2 ∧
  Z.land (Z.shiftr raw 25) 0x7F = funct7.
Proof. cbv zeta. unfold r_type. solve_fields. Qed.

Lemma shift6_type_fields shamt funct6 (Hs : urange 6 shamt) (Hf6 : urange 6 funct6) :
  let raw := shift_type funct6 26 shamt rs1 funct3 rd opcode in
  fields raw opcode rd funct3 rs1 ∧ Z.land (Z.shiftr raw 20) 0x3F = shamt ∧
  Z.shiftr (Z.land (Z.shiftr raw 25) 0x7F) 1 = funct6.
Proof. cbv zeta. unfold shift_type. solve_fields. Qed.

Lemma shift5_type_fields shamt (Hs : urange 5 shamt) :
  let raw := shift_type funct7 25 shamt rs1 funct3 rd opcode in
  fields raw opcode rd funct3 rs1 ∧ Z.land (Z.shiftr raw 20) 0x1F = shamt ∧
  Z.land (Z.shiftr raw 25) 0x7F = funct7.
Proof. cbv zeta. unfold shift_type. solve_fields. Qed.

Lemma fence_type_fields pred succ (Hp : urange 4 pred) (Hs : urange 4 succ) :
  let raw := fence_type pred succ in
  fields raw 0x0F 0 0 0 ∧ Z.land (Z.shiftr raw 20) 0x0F = pred ∧
  Z.land (Z.shiftr raw 24) 0x0F = succ.
Proof. cbv zeta. unfold fence_type. solve_fields. Qed.

Lemma sfence_type_fields :
  let raw := sfence_type rs1 rs2 in
  fields raw 0x73 0 0 rs1 ∧ Z.land (Z.shiftr raw 20) 0x1F = rs2 ∧
  Z.land (Z.shiftr raw 25) 0x7F = 9.
Proof. cbv zeta. unfold sfence_type. solve_fields. Qed.

Lemma csr_type_fields csr (Hc : urange 12 csr) :
  let raw := csr_type csr rs1 funct3 rd in
  fields raw 0x73 rd funct3 rs1 ∧ Z.land (Z.shiftr raw 20) 0xFFF = csr.
Proof. cbv zeta. unfold csr_type. solve_fields. Qed.
End Formats.

(** * Shapes of the scattered immediates *)

Lemma even_shift w imm :
  1 < w → srange w imm → Z.testbit imm 0 = false →
  ∃ k, srange (w - 1) k ∧ imm = Z.shiftl k 1.
Proof.
  intros Hw Hr Hb. exists (Z.shiftr imm 1). split.
  - rewrite <- (sext_small w imm) by (done || lia). apply shiftr_sext_range. lia.
  - apply Z.bits_inj'. intros i Hi. rewrite Z.shiftl_spec by done.
    destruct (Z.eq_dec i 0) as [->|]; [by rewrite Hb|].
    rewrite Z.shiftr_spec by lia. f_equal. lia.
Qed.

Lemma upper_shift imm :
  as_u64 (as_i32 imm) = imm → Z.land imm 0xFFF = 0 →
  ∃ k, srange 20 k ∧ imm = as_u64 (Z.shiftl k 12).
Proof.
  intros Hi Hl. exists (Z.shiftr (as_i32 imm) 12).
  split; [by apply (shiftr_sext_range 32 12)|].
  rewrite <- Hi at 1. f_equal. apply Z.bits_inj'. intros i Hi0.
  rewrite Z.shiftl_spec by done. destruct (Z.ltb_spec i 12) as [Hlt|Hge].
  - rewrite (Z.testbit_neg_r _ (i - 12)), testbit_sext by lia.
    destruct (Z.ltb_spec i 32); [|lia].
    apply (f_equal (λ x, Z.testbit x i)) in Hl. revert Hl.
    rewrite Z.land_spec, Z.testbit_0_l. change 0xFFF with (Z.ones 12).
    rewrite Z.ones_spec_low by lia. by rewrite andb_true_r.
  - rewrite Z.shiftr_spec by lia. f_equal. lia.
Qed.

(** * The round trip *)

Ltac decode_fields :=
  lazymatch goal with
  | |- ∃ r, Some (?w, _) = _ ∧ _ =>
      exists w; split; [reflexivity|]; generalize dependent w; intros raw
  end;
  unfold fields; intros; destruct_and?; split; [assumption|];
  unfold decode; cbv zeta; change i_imm_sext5 with i_imm;
  repeat match goal with
  | H : Z.land ?a ?b = ?c |- context [Z.land ?a ?b] => rewrite H
  | H : i_imm _ = _ |- _ => rewrite ?H; clear H
  | H : s_imm _ = _ |- _ => rewrite ?H; clear H
  | H : b_imm _ = _ |- _ => rewrite ?H; clear H
  | H : u_imm _ = _ |- _ => rewrite ?H; clear H
  | H : j_imm _ = _ |- _ => rewrite ?H; clear H
  end;
  cbn [Z.eqb Pos.eqb orb];
  unfold decode_branch, decode_load, decode_load_fp, decode_store, decode_op_imm,
    decode_op, decode_op_imm_32, decode_op_32, decode_misc_mem, decode_system;
  cbv zeta;
  repeat match goal with
  | H : Z.shiftr ?a ?b = ?c |- context [Z.shiftr ?a ?b] => rewrite H
  | H : Z.land ?a ?b = ?c |- context [Z.land ?a ?b] => rewrite H
  end;
  cbn [Z.eqb Pos.eqb orb]; reflexivity.

Ltac range_args := first [assumption | lia | (unfold urange; lia)].

(** The field facts of the format the goal encodes with. *)
Ltac apply_format :=
  let t := range_args in
  lazymatch goal with
  | |- ∃ r, Some (i_type ?imm ?rs1 ?f3 ?rd ?op, _) = _ ∧ _ =>
      destruct (i_type_fields rd rs1 f3 op ltac:(t) ltac:(t) ltac:(t) ltac:(t) imm
        ltac:(t)) as [??]
  | |- ∃ r, Some (jalr_type ?imm ?rs1 ?rd, _) = _ ∧ _ =>
      destruct (jalr_type_fields rd rs1 ltac:(t) ltac:(t) imm ltac:(t)) as [??]
  | |- ∃ r, Some (s_type ?imm ?rs2 ?rs1 ?f3, _) = _ ∧ _ =>
      destruct (s_type_fields rs1 rs2 f3 ltac:(t) ltac:(t) ltac:(t) imm ltac:(t)) as [??]
  | |- ∃ r, Some (b_type (Z.shiftl ?k 1) ?rs2 ?rs1 ?f3, _) = _ ∧ _ =>
      destruct (b_type_fields rs1 rs2 f3 ltac:(t) ltac:(t) ltac:(t) k ltac:(t)) as [??]
  | |- ∃ r, Some (jal_type (Z.shiftl ?k 1) ?rd, _) = _ ∧ _ =>
      pose proof (jal_type_fields rd ltac:(t) k ltac:(t))
  | |- ∃ r, Some (u_type (wrap 64 (Z.shiftl ?k 12)) ?rd ?op, _) = _ ∧ _ =>
      pose proof (u_type_fields rd op ltac:(t) ltac:(t) k ltac:(t))
  | |- ∃ r, Some (r_type ?f7 ?rs2 ?rs1 ?f3 ?rd ?op, _) = _ ∧ _ =>
      pose proof (r_type_fields rd rs1 rs2 f3 f7 op ltac:(t) ltac:(t) ltac:(t) ltac:(t)
        ltac:(t) ltac:(t))
  | |- ∃ r, Some (shift_type ?f6 26 ?sh ?rs1 ?f3 ?rd ?op, _) = _ ∧ _ =>
      pose proof (shift6_type_fields rd rs1 f3 op ltac:(t) ltac:(t) ltac:(t) ltac:(t)
        sh f6 ltac:(t) ltac:(t))
  | |- ∃ r, Some (shift_type ?f7 25 ?sh ?rs1 ?f3 ?rd ?op, _) = _ ∧ _ =>
      pose proof (shift5_type_fields rd rs1 f3 f7 op ltac:(t) ltac:(t) ltac:(t) ltac:(t)
        ltac:(t) sh ltac:(t))
  | |- ∃ r, Some (fence_type ?p ?s, _) = _ ∧ _ =>
      pose proof (fence_type_fields p s ltac:(t) ltac:(t))
  | |- ∃ r, Some (sfence_type ?rs1 ?rs2, _) = _ ∧ _ =>
      pose proof (sfence_type_fields rs1 rs2 ltac:(t) ltac:(t))
  | |- ∃ r, Some (csr_type ?csr ?rs1 ?f3 ?rd, _) = _ ∧ _ =>
      pose proof (csr_type_fields rd rs1 f3 ltac:(t) ltac:(t) ltac:(t) csr ltac:(t))
  end.

(** Bring a scattered immediate into the shape its format lemma expects. *)
Ltac shape_imm :=
  repeat match goal with
  | H : srange ?w ?imm, Hb : Z.testbit ?imm 0 = false |- _ =>
      lazymatch w with 64 => fail | _ => idtac end;
      destruct (even_shift w imm ltac:(lia) H Hb) as (? & ? & ->); clear H Hb
  | H : as_u64 (as_i32 ?imm) = ?imm, Hl : Z.land ?imm 0xFFF = 0 |- _ =>
      destruct (upper_shift imm H Hl) as (? & ? & ->); clear H Hl
  end.

Lemma encode_sound i :
  encodable i → ∃ raw, encode i = Some (raw, 4) ∧ urange 32 raw ∧ decode raw = i.
Proof.
  intros [Hwf He]. unfold reg in *.
  destruct i; cbn [instr_wf encode] in Hwf, He; unfold reg in *;
    try (exfalso; exact He); try (exfalso; destruct He as [? He]; discriminate He);
    destruct_and?; repeat match goal with H : srange 64 _ |- _ => clear H end;
    shape_imm; cbn [encode];
    lazymatch goal with
    | |- ∃ r, Some (Zpos _, _) = _ ∧ _ => eexists; split; [reflexivity|by vm_compute]
    | |- _ => apply_format; cbv zeta in *; decode_fields
    end.
Qed.

(** * The image of [decode] *)

Lemma b_imm_even raw : urange 32 raw → Z.testbit (b_imm raw) 0 = false.
Proof.
  intros H. rewrite <- bit_testbit by done. unfold bit.
  replace (Z.land (Z.shiftr (b_imm raw) 0) 1) with 0; [done|].
  unfold b_imm. bit_fields.
Qed.

Lemma j_imm_even raw : urange 32 raw → Z.testbit (j_imm raw) 0 = false.
Proof.
  intros H. rewrite <- bit_testbit by done. unfold bit.
  replace (Z.land (Z.shiftr (j_imm raw) 0) 1) with 0; [done|].
  unfold j_imm. bit_fields.
Qed.

Lemma u_imm_sext raw : urange 32 raw → as_u64 (as_i32 (u_imm raw)) = u_imm raw.
Proof. intros H. unfold u_imm. bit_fields. Qed.

Lemma u_imm_low raw : urange 32 raw → Z.land (u_imm raw) 0xFFF = 0.
Proof. intros H. unfold u_imm. bit_fields. Qed.

Lemma i_imm_sext5_range raw : srange 12 (i_imm_sext5 raw).
Proof. apply i_imm_range. Qed.

#[local] Hint Resolve b_imm_even j_imm_even i_imm_range s_imm_range b_imm_range
  j_imm_range i_imm_sext5_range u_imm_sext u_imm_low : decode.

(** The words [encode] cannot produce. *)
Definition unencoded (i : Instr) : Prop :=
  encode i = None ∨ ∃ rs1 rs2 imm, i = Fsd rs1 rs2 imm.

Lemma decode_image raw :
  urange 32 raw → encodable (decode raw) ∨ unencoded (decode raw).
Proof.
  intros Hraw. pose proof (decode_wf raw Hraw) as Hwf. revert Hwf.
  unfold unencoded, decode, decode_branch, decode_load, decode_load_fp,
    decode_store, decode_store_fp, decode_op_imm, decode_op, decode_amo,
    decode_op_imm_32, decode_op_32, decode_misc_mem, decode_system; cbv zeta.
  split_ifs; intros Hwf;
    first [ by right; left | by right; right; eauto
          | left; split; [done|]; conj_split; first [by eexists|by auto with decode] ].
Qed.

(** * Assembling and reading back *)

(** Decode a byte string as consecutive little-endian words. *)
Fixpoint decode_words (n : nat) (bytes : list Z) : list Instr :=
  match n with
  | O => []
  | S n' => decode (from_le_bytes (take 4 bytes)) :: decode_words n' (drop 4 bytes)
  end.

Lemma assemble_sound is_ :
  Forall encodable is_ →
  length (assemble is_) = (4 * length is_)%nat ∧
  decode_words (length is_) (assemble is_) = is_.
Proof.
  induction 1 as [|i is_ Hi _ [IHl IHd]]; [done|].
  destruct (encode_sound i Hi) as (raw & He & Hr & Hd).
  assert (Ha : assemble (i :: is_) = to_le_bytes 4 raw ++ assemble is_)
    by (cbn [assemble]; by rewrite He).
  rewrite Ha. split.
  - rewrite length_app, length_to_le_bytes, IHl. cbn [length]. lia.
  - cbn [length decode_words]. rewrite take_app_length', drop_app_length'
      by (by rewrite length_to_le_bytes).
    rewrite from_to_le_bytes, IHd. change (8 * Z.of_nat 4) with 32.
    by rewrite wrap_small, Hd.
Qed.

(** [encode] gives [Fsd] the opcode of the integer stores. *)
Lemma encode_fsd_opcode rs1 rs2 imm :
  urange 5 rs1 → urange 5 rs2 → srange 64 imm →
  ∃ raw, encode (Fsd rs1 rs2 imm) = Some (raw, 4) ∧ Z.land raw 0x7F = 0x23.
Proof.
  intros H1 H2 H3. eexists. split; [reflexivity|]. unfold s_type, shl32. bit_fields.
Qed.

Lemma decode_store_not_fsd raw rs1 rs2 imm :
  Z.land raw 0x7F = 0x23 → decode raw ≠ Fsd rs1 rs2 imm.
Proof.
  intros H. unfold decode. cbv zeta. rewrite H. cbn [Z.eqb Pos.eqb].
  unfold decode_store. by split_ifs.
Qed.

(** * Properties *)

(** C25: on well-formed instructions, [encode] followed by [decode] gives the
    instruction back exactly when every operand bit has a place in the format
    (12-bit immediates, even branch offsets, sign-extended upper immediates,
    not [Fsd]); the encoding is then a 32-bit word of width 4. *)
Theorem decode_encode_iff i :
  instr_wf i →
  encodable i ↔ ∃ raw, encode i = Some (raw, 4) ∧ urange 32 raw ∧ decode raw = i.
Proof.
  intros Hwf. split; [apply encode_sound|]. intros (raw & He & Hr & Hd).
  destruct (decode_image raw Hr) as [H|[H|(rs1 & rs2 & imm & H)]].
  - by rewrite Hd in H.
  - rewrite Hd in H. congruence.
  - exfalso. rewrite Hd in H. rewrite H in *. destruct Hwf as (?&?&?).
    destruct (encode_fsd_opcode rs1 rs2 imm) as (raw' & He' & Hop); try done.
    rewrite He' in He. injection He as ->.
    by apply (decode_store_not_fsd raw rs1 rs2 imm).
Qed.

Lemma decode_encode_iff_witness :
  encode (Addi 1 2 (-7)) = Some (0xFF910093, 4) ∧ encodable (Addi 1 2 (-7)).
Proof.
  split; [reflexivity|]. apply decode_encode_iff.
  - cbn. unfold reg, urange, srange. lia.
  - exists 0xFF910093. unfold urange. split; [reflexivity|]. split; [lia|reflexivity].
Defined.

(** A program assembled from encodable instructions is four bytes per
    instruction, and decoding the bytes word by word gives the program back. *)
Theorem assemble_roundtrip is_ :
  Forall encodable is_ →
  length (assemble is_) = (4 * length is_)%nat ∧
  Forall is_byte (assemble is_) ∧
  decode_words (length is_) (assemble is_) = is_.
Proof.
  intros H. destruct (assemble_sound is_ H) as [Hl Hd]. split; [done|]. split; [|done].
  clear. induction is_ as [|i is_ IH]; cbn [assemble]; [done|].
  apply Forall_app. split; [|done].
  destruct (encode i) as [[raw w]|]; [|done]. case_match; apply to_le_bytes_bytes.
Qed.

Lemma assemble_roundtrip_witness :
  decode_words 2 (assemble [Addi 1 0 42; Ecall]) = [Addi 1 0 42; Ecall].
Proof.
  apply (assemble_roundtrip [Addi 1 0 42; Ecall]).
  constructor; [|constructor; [|constructor]]; split; [|idtac|done|by eexists];
    unfold instr_wf, reg, urange, srange; lia.
Defined.

(** The encoder has no encoding for [fsd]: [encode] gives it the word of
    [sd], so an assembled [fsd f2, imm(x1)] executes as an integer store. *)
Theorem encode_fsd_is_sd rs1 rs2 imm :
  reg rs1 → reg rs2 → srange 12 imm →
  encode (Fsd rs1 rs2 imm) = encode (Sd rs1 rs2 imm) ∧
  ∃ raw, encode (Fsd rs1 rs2 imm) = Some (raw, 4) ∧ decode raw = Sd rs1 rs2 imm.
Proof.
  intros H1 H2 H3. split; [done|].
  destruct (encode_sound (Sd rs1 rs2 imm)) as (raw & He & _ & Hd).
  - split; [|done]. split; [done|]. split; [done|]. apply (srange_weaken 12); [lia|done].
  - by exists raw.
Qed.

Lemma encode_fsd_is_sd_witness :
  encode (Fsd 1 2 8) = Some (0x0020B423, 4) ∧ encode (Fsd 1 2 8) = encode (Sd 1 2 8).
Proof.
  split; [reflexivity|]. apply (encode_fsd_is_sd 1 2 8); unfold reg, urange, srange; lia.
Defined.
