(* ===== verification/Compressed.v ===== *)
(** Decompression of the 16-bit (RVC) instructions
    ([crates/riscv-core/src/compressed.rs]).

    [decompress] is cut at the quadrants of the source's outer [match q]. *)

From S2P Require Import Prelude Bits Types Decode Encode.

(** * Definitions *)

(** [sext(v, n)]: sign-extend the low [n] bits of a [u32]. *)
Definition csext (v n : Z) : Z :=
  let shift := 32 - n in Z.shiftr (as_i32 (as_u32 (Z.shiftl v shift))) shift.

(** Field [(r >> lo) & mask]. *)
Definition fld (r lo mask : Z) : Z := Z.land (Z.shiftr r lo) mask.

(** A three-bit register field: [((r >> lo) & 0b111) as u8 + 8]. *)
Definition creg (r lo : Z) : Z := fld r lo 7 + 8.

Definition cj_imm (raw : Z) : Z :=
  let imm11 := fld raw 12 1 in
  let v := Z.lor (Z.lor (Z.lor (Z.lor (Z.lor (Z.lor (Z.lor (Z.shiftl imm11 10)
             (Z.shiftl (fld raw 8 1) 9)) (Z.shiftl (fld raw 9 3) 7))
             (Z.shiftl (fld raw 6 1) 6)) (Z.shiftl (fld raw 7 1) 5))
             (Z.shiftl (fld raw 2 1) 4)) (Z.shiftl (fld raw 11 1) 3)) (fld raw 3 7) in
  if negb (imm11 =? 0) then as_i64 (Z.shiftl (as_i32 (Z.lor v 0xFFFFF800)) 1)
  else as_i64 (Z.shiftl v 1).

Definition cb_imm (raw : Z) : Z :=
  let imm8 := fld raw 12 1 in
  let v := Z.lor (Z.lor (Z.lor (Z.lor (Z.shiftl imm8 7) (Z.shiftl (fld raw 5 3) 5))
             (Z.shiftl (fld raw 2 1) 4)) (Z.shiftl (fld raw 10 3) 2)) (fld raw 3 3) in
  if negb (imm8 =? 0) then as_i64 (Z.shiftl (as_i32 (Z.lor v 0xFFFFFF00)) 1)
  else as_i64 (Z.shiftl v 1).

Definition decompress_q0 (r f3 : Z) : option Instr :=
  if f3 =? 0 then
    let rd := creg r 2 in
    let imm := Z.lor (Z.lor (Z.lor (Z.shiftl (fld r 6 1) 2) (Z.shiftl (fld r 5 1) 3))
                            (Z.shiftl (fld r 11 3) 4)) (Z.shiftl (fld r 7 15) 6) in
    if imm =? 0 then None else Some (Addi rd 2 imm)
  else if f3 =? 1 then
    let imm := Z.lor (Z.shiftl (fld r 10 7) 3) (Z.shiftl (fld r 5 3) 6) in
    Some (Fld (creg r 2) (creg r 7) imm)
  else if f3 =? 2 then
    let imm := Z.lor (Z.lor (Z.shiftl (fld r 6 1) 2) (Z.shiftl (fld r 10 7) 3))
                     (Z.shiftl (fld r 5 1) 6) in
    Some (Lw (creg r 2) (creg r 7) imm)
  else if f3 =? 3 then
    let imm := Z.lor (Z.shiftl (fld r 10 7) 3) (Z.shiftl (fld r 5 3) 6) in
    Some (Ld (creg r 2) (creg r 7) imm)
  else if f3 =? 4 then
    let funct2 := fld r 10 3 in
    let rs1p := creg r 7 in
    if funct2 =? 0 then
      let imm := Z.lor (Z.lor (Z.shiftl (fld r 12 1) 2) (Z.shiftl (fld r 6 1) 1))
                       (fld r 5 1) in
      Some (Lbu (creg r 2) rs1p imm)
    else if funct2 =? 1 then
      let imm := Z.lor (Z.lor (Z.shiftl (fld r 12 1) 2) (Z.shiftl (fld r 6 1) 1))
                       (fld r 5 1) in
      Some (Sb rs1p (creg r 2) imm)
    else if funct2 =? 2 then
      let imm := Z.lor (Z.shiftl (fld r 12 1) 1) (fld r 6 1) in
      Some (Lhu (creg r 2) rs1p (imm * 2))
    else if funct2 =? 3 then
      let imm := Z.lor (Z.shiftl (fld r 12 1) 1) (fld r 6 1) in
      Some (Sh rs1p (creg r 2) (imm * 2))
    else None
  else if f3 =? 5 then
    let imm := Z.lor (Z.shiftl (fld r 10 7) 3) (Z.shiftl (fld r 5 3) 6) in
    Some (Fsd (creg r 7) (creg r 2) imm)
  else if f3 =? 6 then
    let imm := Z.lor (Z.lor (Z.shiftl (fld r 6 1) 2) (Z.shiftl (fld r 10 7) 3))
                     (Z.shiftl (fld r 5 1) 6) in
    Some (Sw (creg r 7) (creg r 2) imm)
  else if f3 =? 7 then
    let imm := Z.lor (Z.shiftl (fld r 10 7) 3) (Z.shiftl (fld r 5 3) 6) in
    Some (Sd (creg r 7) (creg r 2) imm)
  else None.

(** [((r >> 12) & 1) << 5 | ((r >> 2) & 0b11111)] *)
Definition imm6 (r : Z) : Z := Z.lor (Z.shiftl (fld r 12 1) 5) (fld r 2 31).

Definition decompress_q1 (r f3 : Z) : option Instr :=
  if f3 =? 0 then
    let rd := fld r 7 31 in Some (Addi rd rd (csext (imm6 r) 6))
  else if f3 =? 1 then
    let rd := fld r 7 31 in Some (Addiw rd rd (csext (imm6 r) 6))
  else if f3 =? 2 then
    let rd := fld r 7 31 in Some (Addi rd 0 (csext (imm6 r) 6))
  else if f3 =? 3 then
    let rd := fld r 7 31 in
    if rd =? 2 then
      let imm := csext (Z.lor (Z.lor (Z.lor (Z.lor (Z.shiftl (fld r 12 1) 9)
                   (Z.shiftl (fld r 3 3) 7)) (Z.shiftl (fld r 5 1) 6))
                   (Z.shiftl (fld r 2 1) 5)) (Z.shiftl (fld r 6 1) 4)) 10 in
      Some (Addi 2 2 imm)
    else
      let imm := csext (Z.lor (Z.shiftl (fld r 12 1) 17) (Z.shiftl (fld r 2 31) 12)) 18 in
      Some (Lui rd (as_u64 imm))
  else if f3 =? 4 then
    let rd := creg r 7 in
    let funct2 := fld r 10 3 in
    if funct2 =? 0 then Some (Srli rd rd (imm6 r))
    else if funct2 =? 1 then Some (Srai rd rd (imm6 r))
    else if funct2 =? 2 then Some (Andi rd rd (csext (imm6 r) 6))
    else
      let rs2 := creg r 2 in
      let funct6 := fld r 5 3 in
      if fld r 12 1 =? 0 then
        if funct6 =? 0 then Some (Sub rd rd rs2)
        else if funct6 =? 1 then Some (Xor rd rd rs2)
        else if funct6 =? 2 then Some (Or rd rd rs2)
        else if funct6 =? 3 then Some (And rd rd rs2)
        else None
      else
        if funct6 =? 0 then Some (Subw rd rd rs2)
        else if funct6 =? 1 then Some (Addw rd rd rs2)
        else None
  else if f3 =? 5 then Some (Jal 0 (cj_imm r))
  else if f3 =? 6 then Some (Beq (creg r 7) 0 (cb_imm r))
  else if f3 =? 7 then Some (Bne (creg r 7) 0 (cb_imm r))
  else None.

Definition decompress_q2 (r f3 : Z) : option Instr :=
  if f3 =? 0 then
    let rd := fld r 7 31 in Some (Slli rd rd (imm6 r))
  else if f3 =? 1 then
    let rd := fld r 7 31 in
    let imm := Z.lor (Z.lor (Z.shiftl (fld r 12 1) 5) (Z.shiftl (fld r 5 3) 3))
                     (Z.shiftl (fld r 2 7) 6) in
    Some (Fld rd 2 imm)
  else if f3 =? 2 then
    let rd := fld r 7 31 in
    if rd =? 0 then None else
    let imm := Z.lor (Z.lor (Z.shiftl (fld r 12 1) 5) (Z.shiftl (fld r 4 7) 2))
                     (Z.shiftl (fld r 2 3) 6) in
    Some (Lw rd 2 imm)
  else if f3 =? 3 then
    let rd := fld r 7 31 in
    if rd =? 0 then None else
    let imm := Z.lor (Z.lor (Z.shiftl (fld r 12 1) 5) (Z.shiftl (fld r 5 3) 3))
                     (Z.shiftl (fld r 2 7) 6) in
    Some (Ld rd 2 imm)
  else if f3 =? 4 then
    let rd := fld r 7 31 in
    let rs2 := fld r 2 31 in
    if fld r 12 1 =? 0 then
      if rs2 =? 0 then
        if rd =? 0 then None else Some (Jalr 0 rd 0)
      else Some (Add rd 0 rs2)
    else
      if rs2 =? 0 then
        if rd =? 0 then Some Ebreak else Some (Jalr 1 rd 0)
      else Some (Add rd rd rs2)
  else if f3 =? 5 then
    let imm := Z.lor (Z.shiftl (fld r 10 7) 3) (Z.shiftl (fld r 7 7) 6) in
    Some (Fsd 2 (fld r 2 31) imm)
  else if f3 =? 6 then
    let imm := Z.lor (Z.shiftl (fld r 9 15) 2) (Z.shiftl (fld r 7 3) 6) in
    Some (Sw 2 (fld r 2 31) imm)
  else if f3 =? 7 then
    let imm := Z.lor (Z.shiftl (fld r 10 7) 3) (Z.shiftl (fld r 7 7) 6) in
    Some (Sd 2 (fld r 2 31) imm)
  else None.

Definition decompress (raw : Z) : option Instr :=
  let r := raw in
  let q := Z.land raw 3 in
  let f3 := fld raw 13 7 in
  if q =? 0 then decompress_q0 r f3
  else if q =? 1 then decompress_q1 r f3
  else if q =? 2 then decompress_q2 r f3
  else None.

(** * Immediates

    The reference layout of a scattered immediate: the list of pairs
    (instruction bit, immediate bit) of the encoding table. *)

Definition scatter (raw : Z) (l : list (Z * Z)) : Z :=
  foldr (λ '(from, to) acc, Z.lor (Z.shiftl (fld raw from 1) to) acc) 0 l.

(** CJ format: [offset[11|4|9:8|10|6|7|3:1|5]] in bits 12 to 2. *)
Definition cj_layout : list (Z * Z) :=
  [(12, 11); (11, 4); (10, 9); (9, 8); (8, 10); (7, 6); (6, 7); (5, 3); (4, 2);
   (3, 1); (2, 5)].

(** CB format: [offset[8|4:3]] in bits 12 to 10, [offset[7:6|2:1|5]] in 6 to 2. *)
Definition cb_layout : list (Z * Z) :=
  [(12, 8); (11, 4); (10, 3); (6, 7); (5, 6); (4, 2); (3, 1); (2, 5)].

(** Split on a one-bit field and record the decision in the word. *)
Lemma fld_bit_cases w raw i mask0 mask1 :
  0 <= i → 0 <= w → urange w raw →
  mask1 = 2 ^ i → mask0 = Z.ldiff (Z.ones w) (2 ^ i) →
  (fld raw i 1 = 0 ∧ raw = Z.land raw mask0) ∨
  (fld raw i 1 = 1 ∧ raw = Z.lor raw mask1).
Proof.
  intros Hi Hw Hr H1 H0. unfold fld.
  replace (Z.land (Z.shiftr raw i) 1) with (b2z (Z.testbit raw i)).
  - destruct (Z.testbit raw i) eqn:E; [right|left]; (split; [done|]).
    + by apply (land_bit_pin raw i).
    + by apply (land_bit_clear w raw i).
  - change 1 with (Z.ones 1). rewrite Z.land_ones, Z.shiftr_div_pow2 by lia.
    change (2 ^ 1) with 2. rewrite <- Z.testbit_spec' by lia.
    by destruct (Z.testbit raw i).
Qed.

Lemma cj_imm_layout raw : urange 16 raw → cj_imm raw = sext 12 (scatter raw cj_layout).
Proof.
  intros Hr. unfold cj_imm, scatter, cj_layout. cbn [foldr].
  destruct (fld_bit_cases 16 raw 12 0xEFFF 0x1000) as [[-> Heq]|[-> Heq]]; try done;
    cbn [Z.eqb negb]; rewrite Heq; unfold fld; bit_fields.
Qed.

Lemma cb_imm_layout raw : urange 16 raw → cb_imm raw = sext 9 (scatter raw cb_layout).
Proof.
  intros Hr. unfold cb_imm, scatter, cb_layout. cbn [foldr].
  destruct (fld_bit_cases 16 raw 12 0xEFFF 0x1000) as [[-> Heq]|[-> Heq]]; try done;
    cbn [Z.eqb negb]; rewrite Heq; unfold fld; bit_fields.
Qed.

(** * Every expansion has a 32-bit encoding *)

Lemma creg_reg r lo : reg (creg r lo).
Proof.
  unfold reg, creg, fld. pose proof (land_ones_range 3 (Z.shiftr r lo) 7) as H.
  unfold urange in *. specialize (H ltac:(lia) eq_refl). lia.
Qed.

Lemma fld31_reg r lo : reg (fld r lo 31).
Proof. unfold reg, fld. field_range. Qed.

Lemma cj_imm_ok raw :
  urange 16 raw → srange 21 (cj_imm raw) ∧ Z.testbit (cj_imm raw) 0 = false.
Proof.
  intros Hr. rewrite cj_imm_layout by done. split.
  - apply (srange_weaken 12); [lia|]. apply sext_range. lia.
  - apply (testbit_of_land _ 0 1); [done..|].
    unfold scatter, cj_layout, fld. cbn [foldr]. bit_fields.
Qed.

Lemma cb_imm_ok raw :
  urange 16 raw → srange 13 (cb_imm raw) ∧ Z.testbit (cb_imm raw) 0 = false.
Proof.
  intros Hr. rewrite cb_imm_layout by done. split.
  - apply (srange_weaken 9); [lia|]. apply sext_range. lia.
  - apply (testbit_of_land _ 0 1); [done..|].
    unfold scatter, cb_layout, fld. cbn [foldr]. bit_fields.
Qed.

Lemma double_shift x : x * 2 = Z.shiftl x 1.
Proof. by rewrite Z.shiftl_mul_pow2. Qed.

(** The side conditions of [encodable] on a concrete layout. *)
Ltac expand_side :=
  first
    [ apply creg_reg | apply fld31_reg | solve [unfold reg, urange; lia]
    | solve [unfold srange; lia]
    | eapply srange_weaken; [|by apply cj_imm_ok]; lia
    | eapply srange_weaken; [|by apply cb_imm_ok]; lia
    | by apply cj_imm_ok | by apply cb_imm_ok
    | by eexists
    | apply srange_of_sext; [lia|]; rewrite ?double_shift; unfold csext, imm6, fld; bit_fields
    | apply urange_of_wrap; [lia|]; unfold csext, imm6, fld; bit_fields
    | unfold csext, imm6, fld; cbv zeta; bit_fields ].

Lemma and_from {P Q : Prop} : P → (P → Q) → P ∧ Q.
Proof. tauto. Qed.

Lemma decompress_encodable raw i :
  urange 16 raw → decompress raw = Some i →
  instr_wf i ∧ (encodable i ∨ ∃ rs1 rs2 imm, i = Fsd rs1 rs2 imm).
Proof.
  intros Hr. unfold decompress, decompress_q0, decompress_q1, decompress_q2; cbv zeta.
  split_ifs; intros Hi; try discriminate Hi; injection Hi as <-;
    (apply and_from; [cbn [instr_wf]; conj_split; expand_side|intros Hwf]);
    first [ by right; eauto | left; split; [exact Hwf|]; conj_split; expand_side ].
Qed.

(** * Rejected halfwords *)

(** The encodings [decompress] refuses: 32-bit prefixes, [c.addi4spn] with a
    zero immediate (the all-zero halfword among them), the reserved arithmetic
    slots, [c.lwsp] and [c.ldsp] to x0, and [c.jr x0]. *)
Definition rejected (raw : Z) : bool :=
  (Z.land raw 0x0003 =? 0x0003) || (Z.land raw 0xFFE3 =? 0x0000)
  || (Z.land raw 0xFC43 =? 0x9C41) || (Z.land raw 0xEF83 =? 0x4002)
  || (Z.land raw 0xEF83 =? 0x6002) || (raw =? 0x8002).

Definition is_none {A} (o : option A) : bool := match o with None => true | _ => false end.

Lemma rejected_all :
  all_from (Z.to_nat 65536) 0
    (λ raw, Bool.eqb (is_none (decompress raw)) (rejected raw)) = true.
Proof. vm_compute. reflexivity. Qed.

(** * Properties *)

(** Every compressed instruction expands to a well-formed instruction whose
    32-bit encoding decodes to that same instruction; the one exception is
    [c.fsd], whose expansion the encoder cannot represent. *)
Theorem decompress_expands raw i :
  urange 16 raw → decompress raw = Some i →
  instr_wf i ∧
  ((∃ raw32, encode i = Some (raw32, 4) ∧ decode raw32 = i) ∨
   ∃ rs1 rs2 imm, i = Fsd rs1 rs2 imm).
Proof.
  intros Hr Hd. destruct (decompress_encodable raw i Hr Hd) as [Hwf [He|He]];
    (split; [done|]); [left|by right].
  destruct (encode_sound i He) as (raw32 & ? & _ & ?). by exists raw32.
Qed.

Lemma decompress_expands_witness :
  decompress 0x1141 = Some (Addi 2 2 (-16)) ∧ instr_wf (Addi 2 2 (-16)).
Proof.
  split; [reflexivity|]. apply (decompress_expands 0x1141); [unfold urange; lia|reflexivity].
Defined.

(** [decompress] traps on exactly the reserved halfwords, the all-zero one
    included, and on nothing else. *)
Theorem decompress_none_iff raw :
  urange 16 raw → decompress raw = None ↔ rejected raw = true.
Proof.
  intros Hr. pose proof (all_from_sound _ _ _ rejected_all raw) as H.
  specialize (H ltac:(unfold urange in Hr; lia)). apply Bool.eqb_prop in H.
  rewrite <- H. by destruct (decompress raw).
Qed.

Lemma decompress_none_iff_witness : decompress 0 = None.
Proof. apply decompress_none_iff; [unfold urange; lia|reflexivity]. Defined.

(** The jump and branch offsets of compressed instructions follow the bit
    tables of the CJ and CB formats: the scattered bits, sign-extended from 12
    and from 9 bits. *)
Theorem rvc_offsets_layout raw :
  urange 16 raw →
  cj_imm raw = sext 12 (scatter raw cj_layout) ∧
  cb_imm raw = sext 9 (scatter raw cb_layout).
Proof. intros H. split; [by apply cj_imm_layout|by apply cb_imm_layout]. Qed.

Lemma rvc_offsets_layout_witness : cj_imm 0xBFFD = sext 12 (scatter 0xBFFD cj_layout).
Proof. apply rvc_offsets_layout. unfold urange. lia. Defined.
