(* ===== verification/State.v ===== *)
(** Byte-stream helpers of machine snapshots ([riscv-core/src/state.rs]).

    [Writer] appends little-endian integers and length-prefixed blobs to a
    buffer; [Reader] consumes a slice from a cursor.  A reader method returns
    [None] at the end of the stream, and the cursor arithmetic is a plain [+]
    on [usize], so the methods are computations of the panic monad that return
    an option. *)

From S2P Require Import Prelude.

(** The width of [usize]: 64 on the native hosts, 32 on wasm32. *)
Class Target := usize_bits : Z.
Definition Native64 : Target := 64.
Definition Wasm32 : Target := 32.
Abbreviation as_usize := (wrap usize_bits).

(** [slice.get(a..b)]: [None] unless [a <= b <= len]. *)
Definition slice_get {A} (l : list A) (a b : Z) : option (list A) :=
  if (a <=? b) && (b <=? Z.of_nat (length l))
  then Some (take (Z.to_nat (b - a)) (drop (Z.to_nat a) l))
  else None.

Module Writer.
Record t := mk { buf : list Z }.
Definition default : t := mk [].
Definition push (w : t) (l : list Z) : t := mk (buf w ++ l).
Definition u8 (w : t) (v : Z) : t := push w [v].
Definition u16 (w : t) (v : Z) : t := push w (to_le_bytes 2 v).
Definition u32 (w : t) (v : Z) : t := push w (to_le_bytes 4 v).
Definition u64 (w : t) (v : Z) : t := push w (to_le_bytes 8 v).
Definition bool (w : t) (v : bool) : t := push w [b2z v].
Definition bytes (w : t) (v : list Z) : t :=
  push (u64 w (Z.of_nat (length v))) v.
End Writer.

Module Reader.
Record t := mk { buf : list Z; pos : Z }.
#[global] Instance eta_reader : Eta t := λ r, mk (buf r) (pos r).

Section Ops.
Context `{Profile} `{Target}.

Definition new (b : list Z) : t := mk b 0.

Definition take (n : Z) : M t (option (list Z)) :=
  p ← get pos; b ← get buf;
  e ← lift (add_u usize_bits p n);
  match slice_get b p e with
  | None => mret None
  | Some s => modify (λ r, r <| pos := e |>);; mret (Some s)
  end.

Definition fixed (n : Z) : M t (option Z) :=
  s ← take n; mret (from_le_bytes <$> s).

Definition u8 : M t (option Z) := s ← take 1; mret (s ≫= head).
Definition u16 : M t (option Z) := fixed 2.
Definition u32 : M t (option Z) := fixed 4.
Definition u64 : M t (option Z) := fixed 8.
Definition bool : M t (option bool) :=
  s ← take 1; mret ((λ b, negb (b =? 0)) <$> (s ≫= head)).
Definition bytes : M t (option (list Z)) :=
  n ← u64;
  match n with
  | None => mret None
  | Some n => take (as_usize n)
  end.
End Ops.
End Reader.

(** * Streams of fields

    A snapshot is a fixed sequence of [Writer] calls; its reader is the same
    sequence of [Reader] calls.  [shape] is the schema both sides agree on. *)

Inductive shape := SU8 | SU16 | SU32 | SU64 | SBool | SBytes.
Inductive field :=
  | FU8 (v : Z) | FU16 (v : Z) | FU32 (v : Z) | FU64 (v : Z)
  | FBool (v : bool) | FBytes (v : list Z).

Definition shape_of (f : field) : shape :=
  match f with
  | FU8 _ => SU8 | FU16 _ => SU16 | FU32 _ => SU32 | FU64 _ => SU64
  | FBool _ => SBool | FBytes _ => SBytes
  end.

Definition field_ok (f : field) : Prop :=
  match f with
  | FU8 v => urange 8 v | FU16 v => urange 16 v | FU32 v => urange 32 v
  | FU64 v => urange 64 v | FBool _ => True | FBytes v => Forall is_byte v
  end.

Definition write_field (w : Writer.t) (f : field) : Writer.t :=
  match f with
  | FU8 v => Writer.u8 w v | FU16 v => Writer.u16 w v | FU32 v => Writer.u32 w v
  | FU64 v => Writer.u64 w v | FBool v => Writer.bool w v | FBytes v => Writer.bytes w v
  end.
Definition write_fields (w : Writer.t) (fs : list field) : Writer.t :=
  foldl write_field w fs.

Section Streams.
Context `{Profile} `{Target}.

Definition as_field {A} (c : A → field) (m : M Reader.t (option A))
  : M Reader.t (option field) := o ← m; mret (c <$> o).

Definition read_field (s : shape) : M Reader.t (option field) :=
  match s with
  | SU8 => as_field FU8 Reader.u8 | SU16 => as_field FU16 Reader.u16
  | SU32 => as_field FU32 Reader.u32 | SU64 => as_field FU64 Reader.u64
  | SBool => as_field FBool Reader.bool | SBytes => as_field FBytes Reader.bytes
  end.

(** The [?] chain of a [load_state] body. *)
Fixpoint read_fields (ss : list shape) : M Reader.t (option (list field)) :=
  match ss with
  | [] => mret (Some [])
  | s :: ss =>
      f ← read_field s;
      match f with
      | None => mret None
      | Some f => fs ← read_fields ss; mret (cons f <$> fs)
      end
  end.
End Streams.

(** The bytes a field contributes to the stream. *)
Definition field_bytes (f : field) : list Z :=
  match f with
  | FU8 v => [v] | FU16 v => to_le_bytes 2 v | FU32 v => to_le_bytes 4 v
  | FU64 v => to_le_bytes 8 v | FBool v => [b2z v]
  | FBytes v => to_le_bytes 8 (Z.of_nat (length v)) ++ v
  end.

Lemma write_field_bytes w f :
  Writer.buf (write_field w f) = Writer.buf w ++ field_bytes f.
Proof. destruct f; cbn; try done. by rewrite <- app_assoc. Qed.

Lemma write_fields_bytes w fs :
  Writer.buf (write_fields w fs) = Writer.buf w ++ concat (field_bytes <$> fs).
Proof.
  revert w. induction fs as [|f fs IH]; intros w; cbn; [by rewrite app_nil_r|].
  unfold write_fields in *. cbn. rewrite IH, write_field_bytes.
  by rewrite <- app_assoc.
Qed.

Lemma slice_get_app {A} (pre l post : list A) (e : Z) :
  e = Z.of_nat (length pre) + Z.of_nat (length l) →
  slice_get (pre ++ l ++ post) (Z.of_nat (length pre)) e = Some l.
Proof.
  intros ->. unfold slice_get. rewrite !length_app.
  destruct (Z.leb_spec (Z.of_nat (length pre)) (Z.of_nat (length pre) + Z.of_nat (length l))); [|lia].
  destruct (Z.leb_spec (Z.of_nat (length pre) + Z.of_nat (length l))
              (Z.of_nat (length pre + (length l + length post)))); [|lia]. cbn [andb].
  replace (Z.to_nat (Z.of_nat (length pre) + Z.of_nat (length l) - Z.of_nat (length pre)))
    with (length l) by lia.
  rewrite Nat2Z.id, drop_app_length, take_app_length. done.
Qed.

Lemma slice_get_short {A} (l : list A) a e :
  Z.of_nat (length l) < e → slice_get l a e = None.
Proof.
  intros. unfold slice_get.
  destruct (Z.leb_spec e (Z.of_nat (length l))); [lia|]. by rewrite andb_false_r.
Qed.

Section Facts.
Context {PR : Profile} {T : Target} (Ht : 8 <= usize_bits <= 64).

Lemma add_u_small w a b :
  urange w (a + b) → add_u w a b = Some (a + b).
Proof.
  unfold urange, add_u, checked_u. intros Hr.
  destruct (Z.leb_spec 0 (a + b)); [|lia].
  destruct (Z.ltb_spec (a + b) (2 ^ w)); [done|lia].
Qed.

(** The cursor sits after [pre]; the next [length l] bytes are [l]. *)
Lemma take_exact pre l post n :
  n = Z.of_nat (length l) →
  urange usize_bits (Z.of_nat (length (pre ++ l))) →
  Reader.take n (Reader.mk (pre ++ l ++ post) (Z.of_nat (length pre)))
  = Some (Some l, Reader.mk (pre ++ l ++ post) (Z.of_nat (length (pre ++ l)))).
Proof.
  intros -> Hr. rewrite length_app, Nat2Z.inj_add in *.
  unfold Reader.take, mbind, M_bind, get, lift. cbn [Reader.pos Reader.buf].
  rewrite add_u_small by done. by rewrite slice_get_app.
Qed.

(** Fewer bytes than asked for are left. *)
Lemma take_short pre l n :
  Z.of_nat (length l) < n →
  urange usize_bits (Z.of_nat (length pre) + n) →
  Reader.take n (Reader.mk (pre ++ l) (Z.of_nat (length pre)))
  = Some (None, Reader.mk (pre ++ l) (Z.of_nat (length pre))).
Proof.
  intros Hn Hr. unfold Reader.take, mbind, M_bind, get, lift. cbn [Reader.pos Reader.buf].
  rewrite add_u_small by done. rewrite slice_get_short; [done|].
  rewrite length_app. lia.
Qed.

Lemma M_bind_eq {S A B} (m : M S A) (f : A → M S B) s a s' :
  m s = Some (a, s') → (m ≫= f) s = f a s'.
Proof. intros E. unfold mbind, M_bind. by rewrite E. Qed.

Lemma fixed_exact pre v n post :
  urange (8 * Z.of_nat n) v →
  urange usize_bits (Z.of_nat (length (pre ++ to_le_bytes n v))) →
  Reader.fixed (Z.of_nat n) (Reader.mk (pre ++ to_le_bytes n v ++ post) (Z.of_nat (length pre)))
  = Some (Some v, Reader.mk (pre ++ to_le_bytes n v ++ post)
                            (Z.of_nat (length (pre ++ to_le_bytes n v)))).
Proof.
  intros Hv Hr. unfold Reader.fixed. erewrite M_bind_eq.
  2:{ apply take_exact; [by rewrite length_to_le_bytes|done]. }
  unfold mret, M_ret. cbn. by rewrite from_to_le_bytes, wrap_small.
Qed.

Lemma bytes_exact pre v post :
  let b := field_bytes (FBytes v) in
  urange usize_bits (Z.of_nat (length (pre ++ b))) →
  Reader.bytes (Reader.mk (pre ++ b ++ post) (Z.of_nat (length pre)))
  = Some (Some v, Reader.mk (pre ++ b ++ post) (Z.of_nat (length (pre ++ b)))).
Proof.
  cbn [field_bytes]. set (h := to_le_bytes 8 (Z.of_nat (length v))). intros Hr.
  assert (Hh : length h = 8%nat) by apply length_to_le_bytes.
  assert (Hlen : Z.of_nat (length v) < 2 ^ usize_bits).
  { unfold urange in Hr. rewrite !length_app in Hr. lia. }
  unfold Reader.bytes. erewrite M_bind_eq.
  2:{ rewrite <- !app_assoc. apply (fixed_exact pre _ 8 (v ++ post)).
      - unfold urange. cbn [Z.of_nat]. pose proof (Z.pow_le_mono_r 2 usize_bits 64). lia.
      - unfold urange in *. rewrite !length_app in *. fold h. lia. }
  cbn beta iota. fold h. rewrite wrap_small by (unfold urange; lia).
  replace (pre ++ h ++ v ++ post) with ((pre ++ h) ++ v ++ post) by (by rewrite <- app_assoc).
  rewrite take_exact; [|done|by rewrite <- app_assoc].
  by rewrite <- !app_assoc.
Qed.

Lemma read_field_exact pre f post :
  field_ok f →
  urange usize_bits (Z.of_nat (length (pre ++ field_bytes f))) →
  read_field (shape_of f) (Reader.mk (pre ++ field_bytes f ++ post) (Z.of_nat (length pre)))
  = Some (Some f, Reader.mk (pre ++ field_bytes f ++ post)
                            (Z.of_nat (length (pre ++ field_bytes f)))).
Proof.
  intros Hf Hr.
  destruct f as [v|v|v|v|v|v]; cbn [read_field shape_of field_bytes] in *; unfold as_field.
  - unfold Reader.u8, mbind at 1, M_bind, mbind at 1.
    by rewrite (take_exact pre [v]).
  - erewrite M_bind_eq; [|exact (fixed_exact pre v 2 post Hf Hr)]. done.
  - erewrite M_bind_eq; [|exact (fixed_exact pre v 4 post Hf Hr)]. done.
  - erewrite M_bind_eq; [|exact (fixed_exact pre v 8 post Hf Hr)]. done.
  - unfold Reader.bool, mbind at 1, M_bind, mbind at 1. rewrite (take_exact pre [b2z v]) by done.
    by destruct v.
  - erewrite M_bind_eq; [|exact (bytes_exact pre v post Hr)]. done.
Qed.

Lemma urange_prefix (a b : list Z) :
  urange usize_bits (Z.of_nat (length (a ++ b))) → urange usize_bits (Z.of_nat (length a)).
Proof. unfold urange. rewrite length_app. lia. Qed.

Lemma read_fields_exact pre fs post :
  Forall field_ok fs →
  urange usize_bits (Z.of_nat (length (pre ++ concat (field_bytes <$> fs)))) →
  read_fields (shape_of <$> fs)
    (Reader.mk (pre ++ concat (field_bytes <$> fs) ++ post) (Z.of_nat (length pre)))
  = Some (Some fs, Reader.mk (pre ++ concat (field_bytes <$> fs) ++ post)
                             (Z.of_nat (length (pre ++ concat (field_bytes <$> fs))))).
Proof.
  revert pre. induction fs as [|f fs IH]; intros pre Hok Hr.
  { cbn. by rewrite app_nil_r. }
  apply Forall_cons in Hok as [Hf Hfs]. cbn [fmap list_fmap concat read_fields] in *.
  rewrite <- !app_assoc in *. rewrite app_assoc in Hr.
  erewrite M_bind_eq; [|apply read_field_exact; [done|by eapply urange_prefix]].
  cbn beta iota. rewrite (app_assoc pre). erewrite M_bind_eq; [|by apply IH].
  unfold mret, M_ret. cbn. by rewrite <- !app_assoc.
Qed.

Lemma prefix_app_cases {A} (l a b : list A) :
  l `prefix_of` a ++ b → l `prefix_of` a ∧ l ≠ a ∨ ∃ k, l = a ++ k ∧ k `prefix_of` b.
Proof.
  intros Hp.
  destruct (prefix_weak_total l a (a ++ b)) as [Hc|Hc]; [done|by apply prefix_app_r| |].
  - destruct (decide (length l = length a)) as [E|E].
    + right. exists []. rewrite app_nil_r. split; [|apply prefix_nil].
      destruct Hc as [k ->]. rewrite length_app in E.
      destruct k; [by rewrite app_nil_r|cbn in E; lia].
    + left. split; [done|]. intros ->. done.
  - right. destruct Hc as [k ->]. exists k. split; [done|]. by eapply prefix_app_inv.
Qed.

Lemma prefix_length_lt {A} (l a : list A) : l `prefix_of` a → l ≠ a → (length l < length a)%nat.
Proof.
  intros [k ->] Hne. rewrite length_app. destruct k; [by rewrite app_nil_r in Hne|cbn; lia].
Qed.

Lemma read_field_short pre f l :
  field_ok f → l `prefix_of` field_bytes f → l ≠ field_bytes f →
  urange usize_bits (Z.of_nat (length (pre ++ field_bytes f))) →
  ∃ r, read_field (shape_of f) (Reader.mk (pre ++ l) (Z.of_nat (length pre))) = Some (None, r).
Proof.
  intros Hf Hp Hne Hr. pose proof (prefix_length_lt _ _ Hp Hne) as Hl.
  rewrite length_app, Nat2Z.inj_add in Hr.
  assert (Hfix : ∀ n, n = Z.of_nat (length (field_bytes f)) →
    Reader.take n (Reader.mk (pre ++ l) (Z.of_nat (length pre)))
    = Some (None, Reader.mk (pre ++ l) (Z.of_nat (length pre)))).
  { intros n ->. apply take_short; [lia|done]. }
  destruct f as [v|v|v|v|v|v]; cbn [read_field shape_of] in *; unfold as_field, Reader.u8,
    Reader.u16, Reader.u32, Reader.u64, Reader.bool, Reader.fixed, Reader.bytes;
    unfold mbind at 1, M_bind, mbind at 1;
    try (rewrite Hfix by (cbn [field_bytes]; rewrite ?length_to_le_bytes; done); by eexists).
  clear Hfix. cbn [field_bytes field_ok] in *.
  set (h := to_le_bytes 8 (Z.of_nat (length v))) in *.
  assert (Hh : length h = 8%nat) by apply length_to_le_bytes.
  unfold urange in Hr. rewrite !length_app in *.
  apply prefix_app_cases in Hp as [[Hp Hn]|[k [-> Hk]]].
  - apply prefix_length_lt in Hp; [|done]. unfold Reader.u64, Reader.fixed, mbind, M_bind.
    rewrite take_short; [by eexists|lia|unfold urange; lia].
  - assert (Hlv : Z.of_nat (length v) < 2 ^ usize_bits) by lia.
    assert (E : Reader.u64 (Reader.mk (pre ++ h ++ k) (Z.of_nat (length pre)))
                = Some (Some (Z.of_nat (length v)),
                        Reader.mk (pre ++ h ++ k) (Z.of_nat (length (pre ++ h))))).
    { apply (fixed_exact pre _ 8); unfold urange.
      - cbn [Z.of_nat]. pose proof (Z.pow_le_mono_r 2 usize_bits 64). lia.
      - rewrite length_app. fold h. lia. }
    rewrite E. rewrite wrap_small by (unfold urange; lia). rewrite app_assoc.
    rewrite take_short; [by eexists| |].
    + rewrite length_app in Hl. lia.
    + unfold urange. rewrite length_app. lia.
Qed.

Lemma read_fields_short pre fs l :
  Forall field_ok fs → l `prefix_of` concat (field_bytes <$> fs) →
  l ≠ concat (field_bytes <$> fs) →
  urange usize_bits (Z.of_nat (length (pre ++ concat (field_bytes <$> fs)))) →
  ∃ r, read_fields (shape_of <$> fs) (Reader.mk (pre ++ l) (Z.of_nat (length pre)))
       = Some (None, r).
Proof.
  revert pre l. induction fs as [|f fs IH]; intros pre l Hok Hp Hne Hr.
  { by apply prefix_nil_inv in Hp. }
  apply Forall_cons in Hok as [Hf Hfs]. cbn [fmap list_fmap concat read_fields] in *.
  rewrite app_assoc in Hr. apply prefix_app_cases in Hp as [[Hp Hn]|[k [-> Hk]]].
  - destruct (read_field_short pre f l) as [r E]; [done..|by eapply urange_prefix|].
    erewrite M_bind_eq by done. by eexists.
  - erewrite M_bind_eq; [|apply read_field_exact; [done|by eapply urange_prefix]].
    cbn beta iota. destruct (IH (pre ++ field_bytes f) k) as [r E]; [done..| |done|].
    { intros ->. done. }
    rewrite app_assoc. erewrite M_bind_eq by done. by eexists.
Qed.
End Facts.

(** * Properties *)

(** A snapshot stream is read back exactly.  For every sequence of fields
    written by [Writer] (each value within its type), the reader that makes
    the corresponding calls, started at the beginning of the buffer and with
    any bytes following it, returns the same values, leaves the cursor at the
    end of the written part and does not panic, on 64-bit hosts and on wasm32
    as long as the buffer itself is addressable. *)
Theorem stream_roundtrip (PR : Profile) (T : Target) fs rest :
  8 <= usize_bits <= 64 →
  Forall field_ok fs →
  urange usize_bits (Z.of_nat (length (Writer.buf (write_fields Writer.default fs)))) →
  let b := Writer.buf (write_fields Writer.default fs) in
  read_fields (shape_of <$> fs) (Reader.new (b ++ rest))
  = Some (Some fs, Reader.mk (b ++ rest) (Z.of_nat (length b))).
Proof.
  intros Ht Hok Hr. cbv zeta. rewrite write_fields_bytes in *. cbn [Writer.buf app] in *.
  by apply (read_fields_exact Ht []).
Qed.

Lemma stream_roundtrip_witness :
  @read_fields Dev Wasm32 [SU64; SBool; SBytes; SU8]
    (Reader.new (Writer.buf (write_fields Writer.default
       [FU64 0x80000000; FBool true; FBytes [1; 2; 3]; FU8 7]) ++ [9]))
  = Some (Some [FU64 0x80000000; FBool true; FBytes [1; 2; 3]; FU8 7],
          Reader.mk [0; 0; 0; 0x80; 0; 0; 0; 0; 1; 3; 0; 0; 0; 0; 0; 0; 0; 1; 2; 3; 7; 9] 21).
Proof.
  apply (stream_roundtrip Dev Wasm32
           [FU64 0x80000000; FBool true; FBytes [1; 2; 3]; FU8 7] [9]).
  - vm_compute. split; intros ?; discriminate.
  - repeat (constructor; [cbn; try (by unfold urange)|]); [|constructor].
    repeat (constructor; [by unfold is_byte, urange|]). constructor.
  - vm_compute. split; [intros ?; discriminate|done].
Defined.

(** A truncated snapshot stream is refused.  On every strict prefix of what
    was written, the same sequence of reader calls returns [None] (the error
    the callers propagate with [?]), and does not panic. *)
Theorem stream_truncated_rejected (PR : Profile) (T : Target) fs l :
  8 <= usize_bits <= 64 →
  Forall field_ok fs →
  urange usize_bits (Z.of_nat (length (Writer.buf (write_fields Writer.default fs)))) →
  l `prefix_of` Writer.buf (write_fields Writer.default fs) →
  l ≠ Writer.buf (write_fields Writer.default fs) →
  ∃ r, read_fields (shape_of <$> fs) (Reader.new l) = Some (None, r).
Proof.
  intros Ht Hok Hr Hp Hne. rewrite write_fields_bytes in *. cbn [Writer.buf app] in *.
  by apply (read_fields_short Ht [] fs l).
Qed.

Lemma stream_truncated_rejected_witness :
  ∃ r, @read_fields Dev Native64 [SU16; SBytes]
         (Reader.new [5; 0; 2; 0; 0; 0; 0; 0; 0; 0; 1]) = Some (None, r).
Proof.
  apply (stream_truncated_rejected Dev Native64 [FU16 5; FBytes [1; 2]]).
  - vm_compute. split; intros ?; discriminate.
  - repeat (constructor; [cbn; try (by unfold urange)|]); [|constructor].
    repeat (constructor; [by unfold is_byte, urange|]). constructor.
  - vm_compute. split; [intros ?; discriminate|done].
  - by exists [2].
  - vm_compute. intros ?; discriminate.
Defined.
