(* ===== verification/Cpu.v ===== *)
(** The hart's register state and the bus interface
    ([riscv-core/src/execute.rs]: [Cpu] and the [Bus] trait).

    [Bus] is the trait as a class of operations; [BusOk] is what the execution
    engine relies on, so that theorems about execution are proved once against
    the interface and hold for every bus that discharges it. *)

From S2P Require Import Prelude.

(** * The register file *)

Module Cpu.
Record t := mk {
  x : list Z;
  jit_fault : Z;
  jit_next_pc : Z;
  jit_insns : Z;
  jit_budget : Z;
  f : list Z;
  pc : Z;
  fcsr : Z;
  fs_dirty : bool;
}.

#[global] Instance eta_cpu : Eta t := λ c,
  mk (x c) (jit_fault c) (jit_next_pc c) (jit_insns c) (jit_budget c) (f c) (pc c)
     (fcsr c) (fs_dirty c).

Definition new (pc0 : Z) : t :=
  mk (replicate 32 0) 0 0 0 0 (replicate 32 0) pc0 0 false.

Definition read_reg (c : t) (i : Z) : Z := x c !!! Z.to_nat (Z.land i 31).

(** [if i != 0 { self.x[i as usize] = val }]: the index is not masked. *)
Definition write_reg (i v : Z) : M t unit :=
  if i =? 0 then mret tt
  else if i <? 32 then modify (λ c, c <| x := <[Z.to_nat i := v]> (x c) |>)
  else panic.

Definition read_freg (c : t) (i : Z) : Z := f c !!! Z.to_nat (Z.land i 31).
Definition write_freg (i v : Z) : M t unit :=
  modify (λ c, c <| f := <[Z.to_nat (Z.land i 31) := v]> (f c) |>).

(** [self.f[i as usize]], read and written without a mask. *)
Definition index_f (i : Z) : M t Z :=
  if i <? 32 then get (λ c, f c !!! Z.to_nat i) else panic.
Definition set_f (i v : Z) : M t unit :=
  if i <? 32 then modify (λ c, c <| f := <[Z.to_nat i := v]> (f c) |>) else panic.

Definition reg_read (i : Z) : M t Z := get (λ c, read_reg c i).

(** [self.pc = self.pc.wrapping_add(width as u64)] *)
Definition advance (width : Z) : M t unit :=
  modify (λ c, c <| pc := as_u64 (pc c + as_u64 width) |>).
Definition set_pc (v : Z) : M t unit := modify (λ c, c <| pc := v |>).

(** ** Well-formed register state

    The lengths and widths are the Rust types'; [x[0] = 0] is the invariant the
    type's documentation states. *)
Record wf (c : t) : Prop := mk_wf {
  wf_x_len : length (x c) = 32%nat;
  wf_x : Forall (urange 64) (x c);
  wf_x0 : x c !! 0%nat = Some 0;
  wf_f_len : length (f c) = 32%nat;
  wf_f : Forall (urange 64) (f c);
  wf_pc : urange 64 (pc c);
  wf_fcsr : urange 64 (fcsr c);
}.

Lemma new_wf pc0 : urange 64 pc0 → wf (new pc0).
Proof.
  intros. constructor; cbn; try done.
  all: repeat constructor; by unfold urange.
Qed.

Lemma land31_range i : 0 <= Z.land i 31 < 32.
Proof. change 31 with (Z.ones 5). rewrite Z.land_ones by lia. apply Z.mod_pos_bound. lia. Qed.

Lemma land31_small i : 0 <= i < 32 → Z.land i 31 = i.
Proof. intros. change 31 with (Z.ones 5). rewrite Z.land_ones by lia. by apply Z.mod_small. Qed.

Lemma lookup_total_range w (l : list Z) n :
  Forall (urange w) l → (n < length l)%nat → urange w (l !!! n).
Proof.
  intros Hl Hn. destruct (lookup_lt_is_Some_2 l n Hn) as [v Hv].
  rewrite (list_lookup_total_correct _ _ _ Hv). by eapply Forall_lookup_1.
Qed.

Lemma read_reg_range c i : wf c → urange 64 (read_reg c i).
Proof.
  intros [Hl Hx _ _ _ _ _]. apply lookup_total_range; [done|].
  pose proof (land31_range i). lia.
Qed.

Lemma read_reg_0 c : wf c → read_reg c 0 = 0.
Proof. intros [_ _ H0 _ _ _ _]. by apply list_lookup_total_correct. Qed.

Lemma read_freg_range c i : wf c → urange 64 (read_freg c i).
Proof.
  intros [_ _ _ Hl Hx _ _]. apply lookup_total_range; [done|].
  pose proof (land31_range i). lia.
Qed.

(** The register file as the ISA sees it: writing register [i] changes what is
    read from [i] and nothing else, and [x0] stays zero. *)
Definition set_reg (c : t) (i v : Z) : t :=
  if i =? 0 then c else c <| x := <[Z.to_nat i := v]> (x c) |>.

Lemma write_reg_eq c i v : 0 <= i < 32 → write_reg i v c = Some (tt, set_reg c i v).
Proof.
  intros Hi. unfold write_reg, set_reg. destruct (Z.eqb_spec i 0); [done|].
  by destruct (Z.ltb_spec i 32); [|lia].
Qed.

Lemma read_set_reg c i j v :
  wf c → 0 <= i < 32 → 0 <= j < 32 →
  read_reg (set_reg c i v) j = if (j =? i) && negb (i =? 0) then v else read_reg c j.
Proof.
  intros Hc Hi Hj. unfold set_reg, read_reg. rewrite land31_small by done.
  destruct (Z.eqb_spec i 0) as [->|Hi0]; [by rewrite andb_false_r|]. cbn [negb].
  rewrite andb_true_r. cbn. destruct (Z.eqb_spec j i) as [->|Hne].
  - apply list_lookup_total_insert_eq. rewrite (wf_x_len _ Hc). lia.
  - apply list_lookup_total_insert_ne. lia.
Qed.

Lemma set_reg_wf c i v : wf c → 0 <= i < 32 → urange 64 v → wf (set_reg c i v).
Proof.
  intros Hw Hi Hv. unfold set_reg. destruct (Z.eqb_spec i 0); [done|].
  destruct Hw. constructor; cbn; try done.
  - by rewrite length_insert.
  - by apply Forall_insert.
  - rewrite list_lookup_insert_ne by lia. done.
Qed.

Lemma set_f_wf c i v :
  wf c → urange 64 v → wf (c <| f := <[i := v]> (f c) |>).
Proof.
  intros [] Hv. constructor; cbn; try done.
  - by rewrite length_insert.
  - by apply Forall_insert.
Qed.

Lemma set_pc_wf c v : wf c → urange 64 v → wf (c <| pc := v |>).
Proof. intros [] Hv. by constructor. Qed.

Lemma set_fs_dirty_wf c b : wf c → wf (c <| fs_dirty := b |>).
Proof. intros []. by constructor. Qed.

Lemma set_fcsr_wf c v : wf c → urange 64 v → wf (c <| fcsr := v |>).
Proof. intros [] ?. by constructor. Qed.
End Cpu.

(** * The bus interface *)

Class Bus (B : Type) := {
  read_u8 : Z → M B Z;
  read_u16 : Z → M B Z;
  read_u32 : Z → M B Z;
  read_u64 : Z → M B Z;
  write_u8 : Z → Z → M B unit;
  write_u16 : Z → Z → M B unit;
  write_u32 : Z → Z → M B unit;
  write_u64 : Z → Z → M B unit;
  check_timer_interrupt : M B bool;
  read_mtime : M B Z;
  check_external_interrupt : M B bool;
}.

(** What execution relies on: reads return a value of their width, every
    operation keeps the bus' own invariant, and an operation panics only if [P]
    allows it ([P := False] for a bus that never panics). *)
Class BusOk (P : Prop) (B : Type) `{Bus B} := {
  bus_inv : B → Prop;
  read_u8_ok a b : urange 64 a → bus_inv b → wp P (read_u8 a) (λ v b', urange 8 v ∧ bus_inv b') b;
  read_u16_ok a b : urange 64 a → bus_inv b → wp P (read_u16 a) (λ v b', urange 16 v ∧ bus_inv b') b;
  read_u32_ok a b : urange 64 a → bus_inv b → wp P (read_u32 a) (λ v b', urange 32 v ∧ bus_inv b') b;
  read_u64_ok a b : urange 64 a → bus_inv b → wp P (read_u64 a) (λ v b', urange 64 v ∧ bus_inv b') b;
  write_u8_ok a v b : urange 64 a → urange 8 v → bus_inv b → wp P (write_u8 a v) (λ _ b', bus_inv b') b;
  write_u16_ok a v b : urange 64 a → urange 16 v → bus_inv b → wp P (write_u16 a v) (λ _ b', bus_inv b') b;
  write_u32_ok a v b : urange 64 a → urange 32 v → bus_inv b → wp P (write_u32 a v) (λ _ b', bus_inv b') b;
  write_u64_ok a v b : urange 64 a → urange 64 v → bus_inv b → wp P (write_u64 a v) (λ _ b', bus_inv b') b;
  timer_ok b : bus_inv b → wp P check_timer_interrupt (λ _ b', bus_inv b') b;
  mtime_ok b : bus_inv b → wp P read_mtime (λ v b', urange 64 v ∧ bus_inv b') b;
  external_ok b : bus_inv b → wp P check_external_interrupt (λ _ b', bus_inv b') b;
}.

(** * A reference memory

    Byte-addressed RAM over the whole 64-bit physical space, absent bytes
    reading as zero, with the trait's default interrupt methods.  It is the
    bus the concrete examples run on and the smallest one that shows [BusOk]
    can be met without panics. *)

Module Ram.
Definition t := gmap Z Z.

Definition get_byte (m : t) (a : Z) : Z := default 0 (m !! as_u64 a).
Definition set_byte (m : t) (a v : Z) : t := <[as_u64 a := as_u8 v]> m.

Fixpoint load (n : nat) (m : t) (a : Z) : list Z :=
  match n with O => [] | S n => get_byte m a :: load n m (a + 1) end.
Fixpoint store (m : t) (a : Z) (bs : list Z) : t :=
  match bs with [] => m | b :: bs => store (set_byte m a b) (a + 1) bs end.

Definition read (n : nat) (a : Z) : M t Z := get (λ m, from_le_bytes (load n m a)).
Definition write (n : nat) (a v : Z) : M t unit :=
  modify (λ m, store m a (to_le_bytes n v)).

#[global] Instance bus : Bus t := {
  read_u8 := read 1; read_u16 := read 2; read_u32 := read 4; read_u64 := read 8;
  write_u8 := write 1; write_u16 := write 2; write_u32 := write 4; write_u64 := write 8;
  check_timer_interrupt := mret false;
  read_mtime := mret 0;
  check_external_interrupt := mret false;
}.

Definition inv (m : t) : Prop := map_Forall (λ _ v, urange 8 v) m.

Lemma get_byte_range m a : inv m → urange 8 (get_byte m a).
Proof.
  intros Hm. unfold get_byte. destruct (m !! as_u64 a) as [v|] eqn:E; cbn; [|by unfold urange].
  exact (Hm _ _ E).
Qed.

Lemma load_bytes n m a : inv m → Forall is_byte (load n m a).
Proof.
  intros Hm. revert a. induction n as [|n IH]; intros a; cbn; constructor; [|done].
  by apply get_byte_range.
Qed.

Lemma length_load n m a : length (load n m a) = n.
Proof. revert a. induction n as [|n IH]; intros a; cbn; [done|]. by rewrite IH. Qed.

Lemma read_range n m a : inv m → urange (8 * Z.of_nat n) (from_le_bytes (load n m a)).
Proof.
  intros Hm. pose proof (from_le_bytes_range _ (load_bytes n m a Hm)) as Hr.
  by rewrite length_load in Hr.
Qed.

Lemma store_inv bs m a : inv m → inv (store m a bs).
Proof.
  revert m a. induction bs as [|b bs IH]; intros m a Hm; cbn; [done|].
  apply IH. apply map_Forall_insert_2; [|done]. apply wrap_range. lia.
Qed.

#[global] Instance bus_ok : BusOk False t.
Proof.
  refine {| bus_inv := inv |}; intros.
  - split; [by apply (read_range 1)|done].
  - split; [by apply (read_range 2)|done].
  - split; [by apply (read_range 4)|done].
  - split; [by apply (read_range 8)|done].
  - by apply (store_inv (to_le_bytes 1 v)).
  - by apply (store_inv (to_le_bytes 2 v)).
  - by apply (store_inv (to_le_bytes 4 v)).
  - by apply (store_inv (to_le_bytes 8 v)).
  - done.
  - split; [by unfold urange|done].
  - done.
Defined.
End Ram.

(** ** Memory laws of the reference RAM *)

Lemma store_other bs m a k :
  (∀ j, 0 <= j < Z.of_nat (length bs) → as_u64 (a + j) ≠ as_u64 k) →
  Ram.get_byte (Ram.store m a bs) k = Ram.get_byte m k.
Proof.
  revert m a. induction bs as [|x bs IH]; intros m a Hne; cbn [Ram.store]; [done|].
  rewrite IH.
  - unfold Ram.get_byte, Ram.set_byte, Ram.t in *. rewrite lookup_insert_ne; [done|].
    specialize (Hne 0). rewrite Z.add_0_r in Hne. apply Hne. cbn [length]. lia.
  - intros j Hj. replace (a + 1 + j) with (a + (1 + j)) by lia. apply Hne. cbn [length]. lia.
Qed.

Lemma load_store bs m a :
  Forall is_byte bs → Z.of_nat (length bs) < 2 ^ 64 →
  Ram.load (length bs) (Ram.store m a bs) a = bs.
Proof.
  revert m a. induction bs as [|x bs IH]; intros m a Hb Hl; [done|].
  apply Forall_cons in Hb as [Hx Hb]. cbn [length Ram.store Ram.load] in *. f_equal.
  - rewrite store_other.
    + unfold Ram.get_byte, Ram.set_byte, Ram.t in *. rewrite lookup_insert_eq. cbn. by apply wrap_small.
    + intros j Hj E. unfold wrap in E.
      assert (Ha : (a + 1 + j - a) mod 2 ^ 64 = 0) by (rewrite Zminus_mod, E, Z.sub_diag; done).
      replace (a + 1 + j - a) with (1 + j) in Ha by lia. rewrite Z.mod_small in Ha; lia.
  - apply IH; [done|lia].
Qed.

Lemma ram_read_write n m a v :
  (n <= 8)%nat → urange (8 * Z.of_nat n) v →
  Ram.read n a (Ram.store m a (to_le_bytes n v)) = Some (v, Ram.store m a (to_le_bytes n v)).
Proof.
  intros Hn Hv. unfold Ram.read, get. do 2 f_equal.
  rewrite <- (length_to_le_bytes n v) at 1. rewrite load_store.
  - by rewrite from_to_le_bytes, wrap_small.
  - apply to_le_bytes_bytes.
  - rewrite length_to_le_bytes. lia.
Qed.

(** Disjoint aligned doublewords do not interfere. *)
Lemma load_store_other n bs m a k :
  (∀ i j, 0 <= i < Z.of_nat (length bs) → 0 <= j < Z.of_nat n →
          as_u64 (a + i) ≠ as_u64 (k + j)) →
  Ram.load n (Ram.store m a bs) k = Ram.load n m k.
Proof.
  revert k. induction n as [|n IH]; intros k Hne; cbn [Ram.load]; [done|]. f_equal.
  - apply store_other. intros j Hj. specialize (Hne j 0 Hj ltac:(lia)).
    by rewrite Z.add_0_r in Hne.
  - apply IH. intros i j Hi Hj. replace (k + 1 + j) with (k + (1 + j)) by lia.
    apply Hne; [done|lia].
Qed.
