(* ===== verification/Float.v ===== *)
(** Rust's [f32] and [f64] as the FPU uses them.

    A float is its bit pattern, as [from_bits]/[to_bits] have it; arithmetic
    decodes the pattern, uses the Standard Library's executable IEEE 754
    specification (round to nearest even, Rust's only rounding mode) and
    encodes the result.  Comparisons and conversions to integers are defined on
    the exact value, an integer multiple of the format's least subnormal.  The
    payload of a NaN produced by arithmetic is not specified by Rust; every use
    in the source replaces such a NaN by a canonical one before it is stored,
    and [fencode] picks the canonical pattern. *)

From S2P Require Import Prelude.
From Stdlib Require Import Floats.SpecFloat.

Record fmt := mk_fmt { prec : Z; emax : Z }.
Definition f32 : fmt := mk_fmt 24 128.
Definition f64 : fmt := mk_fmt 53 1024.

(** Stored mantissa bits, exponent bits and the least exponent. *)
Definition mant_bits (F : fmt) : Z := prec F - 1.
Definition exp_bits (F : fmt) : Z := Z.log2 (emax F) + 1.
Definition least_exp (F : fmt) : Z := 3 - emax F - prec F.
Definition fwidth (F : fmt) : Z := 1 + exp_bits F + mant_bits F.

Definition sign_bit (F : fmt) (b : Z) : bool := Z.testbit b (fwidth F - 1).

Definition fdecode (F : fmt) (b : Z) : spec_float :=
  let s := sign_bit F b in
  let e := Z.land (Z.shiftr b (mant_bits F)) (Z.ones (exp_bits F)) in
  let m := Z.land b (Z.ones (mant_bits F)) in
  if e =? Z.ones (exp_bits F) then
    (if m =? 0 then S754_infinity s else S754_nan)
  else if e =? 0 then
    (if m =? 0 then S754_zero s else S754_finite s (Z.to_pos m) (least_exp F))
  else S754_finite s (Z.to_pos (m + 2 ^ mant_bits F)) (e - 1 + least_exp F).

(** Assemble sign, biased exponent and mantissa fields. *)
Definition pack (F : fmt) (s : bool) (e m : Z) : Z :=
  Z.lor (Z.shiftl (b2z s) (fwidth F - 1))
    (Z.lor (Z.shiftl (Z.land e (Z.ones (exp_bits F))) (mant_bits F))
           (Z.land m (Z.ones (mant_bits F)))).

Definition fencode (F : fmt) (v : spec_float) : Z :=
  match v with
  | S754_zero s => pack F s 0 0
  | S754_infinity s => pack F s (Z.ones (exp_bits F)) 0
  | S754_nan => pack F false (Z.ones (exp_bits F)) (2 ^ (mant_bits F - 1))
  | S754_finite s m e =>
      if Zpos m <? 2 ^ mant_bits F then pack F s 0 (Zpos m)
      else pack F s (e - least_exp F + 1) (Zpos m)
  end.

(** ** Arithmetic *)

Definition fop2 (op : Z → Z → spec_float → spec_float → spec_float) (F : fmt) (a b : Z) : Z :=
  fencode F (op (prec F) (emax F) (fdecode F a) (fdecode F b)).
Definition fadd : fmt → Z → Z → Z := fop2 SFadd.
Definition fsub : fmt → Z → Z → Z := fop2 SFsub.
Definition fmul : fmt → Z → Z → Z := fop2 SFmul.
Definition fdiv : fmt → Z → Z → Z := fop2 SFdiv.

(** Unary minus flips the sign bit, of a NaN too. *)
Definition fneg (F : fmt) (a : Z) : Z := Z.lxor a (Z.shiftl 1 (fwidth F - 1)).

(** ** Classification *)

Definition is_nan (F : fmt) (a : Z) : bool :=
  match fdecode F a with S754_nan => true | _ => false end.
Definition is_infinite (F : fmt) (a : Z) : bool :=
  match fdecode F a with S754_infinity _ => true | _ => false end.
Definition is_finite (F : fmt) (a : Z) : bool := negb (is_nan F a) && negb (is_infinite F a).

(** ** Exact values and comparison *)

(** The value of a finite float in units of [2^least_exp]. *)
Definition scaled (F : fmt) (v : spec_float) : Z :=
  match v with
  | S754_finite s m e => cond_Zopp s (Zpos m * 2 ^ (e - least_exp F))
  | _ => 0
  end.

Definition fcompare (F : fmt) (a b : Z) : option comparison :=
  match fdecode F a, fdecode F b with
  | S754_nan, _ | _, S754_nan => None
  | S754_infinity s, S754_infinity s' =>
      Some (match s, s' with
            | true, false => Lt | false, true => Gt | _, _ => Eq end)
  | S754_infinity s, _ => Some (if s then Lt else Gt)
  | _, S754_infinity s => Some (if s then Gt else Lt)
  | u, v => Some (scaled F u ?= scaled F v)
  end.

Definition feq F a b : bool := match fcompare F a b with Some Eq => true | _ => false end.
Definition flt F a b : bool := match fcompare F a b with Some Lt => true | _ => false end.
Definition fle F a b : bool := match fcompare F a b with Some (Lt | Eq) => true | _ => false end.
Definition fge F a b : bool := fle F b a.
Definition fgt F a b : bool := flt F b a.

(** ** Conversions *)

(** [a as f64], [a as f32] *)
Definition fcast (F G : fmt) (a : Z) : Z :=
  fencode G match fdecode F a with
    | S754_finite s m e =>
        binary_normalize (prec G) (emax G) (cond_Zopp s (Zpos m)) e s
    | v => v
    end.

(** [n as f64] for an integer [n]. *)
Definition of_int (F : fmt) (n : Z) : Z :=
  fencode F (binary_normalize (prec F) (emax F) n 0 false).

(** The integer part, towards zero. *)
Definition int_part (F : fmt) (v : spec_float) : Z :=
  Z.quot (scaled F v) (2 ^ (- least_exp F)).

(** [a as iN] / [a as uN]: saturating, zero for a NaN. *)
Definition to_int (F : fmt) (lo hi : Z) (a : Z) : Z :=
  match fdecode F a with
  | S754_nan => 0
  | S754_infinity s => if s then lo else hi
  | v => Z.max lo (Z.min hi (int_part F v))
  end.

(** * Facts *)

Lemma pack_range F s e m :
  0 < mant_bits F → 0 < exp_bits F → urange (fwidth F) (pack F s e m).
Proof.
  intros Hm He. unfold pack, fwidth.
  assert (∀ n x, 0 <= n → 0 <= Z.land x (Z.ones n)) as Hnn.
  { intros n x Hn. rewrite Z.land_ones by lia. apply Z.mod_pos_bound, pow2_pos. lia. }
  assert (∀ n x i, 0 <= n <= i → Z.testbit (Z.land x (Z.ones n)) i = false) as Hb.
  { intros n x i Hi. apply (urange_testbit n); [|lia]. apply land_ones_range; [lia|done]. }
  apply urange_bits; [lia| |].
  - rewrite !Z.lor_nonneg, !Z.shiftl_nonneg. conj_split; try (apply Hnn; lia).
    destruct s; cbn; lia.
  - intros i Hi. rewrite !Z.lor_spec, !Z.shiftl_spec by lia. rewrite testbit_b2z by lia.
    rewrite !Hb by lia. destruct (Z.eqb_spec (i - (1 + exp_bits F + mant_bits F - 1)) 0); [lia|].
    by rewrite andb_false_r.
Qed.

Lemma fencode_range F v :
  0 < mant_bits F → 0 < exp_bits F → urange (fwidth F) (fencode F v).
Proof. intros. destruct v; cbn; split_ifs; by apply pack_range. Qed.

Lemma fencode32_range v : urange 32 (fencode f32 v).
Proof. by apply (fencode_range f32). Qed.
Lemma fencode64_range v : urange 64 (fencode f64 v).
Proof. by apply (fencode_range f64). Qed.

#[global] Hint Resolve fencode32_range fencode64_range : ints.

Definition finite_float (v : spec_float) : Prop :=
  match v with S754_zero _ | S754_finite _ _ _ => True | _ => False end.

Lemma is_finite_spec F a : is_finite F a = true ↔ finite_float (fdecode F a).
Proof. unfold is_finite, is_nan, is_infinite. by destruct (fdecode F a). Qed.

Lemma compare_finite F a b :
  finite_float (fdecode F a) → finite_float (fdecode F b) →
  fcompare F a b = Some (scaled F (fdecode F a) ?= scaled F (fdecode F b)).
Proof. unfold fcompare. by destruct (fdecode F a), (fdecode F b). Qed.

Lemma compare_case F a b :
  finite_float (fdecode F a) → finite_float (fdecode F b) →
  feq F a b = (scaled F (fdecode F a) =? scaled F (fdecode F b)) ∧
  flt F a b = (scaled F (fdecode F a) <? scaled F (fdecode F b)) ∧
  fle F a b = (scaled F (fdecode F a) <=? scaled F (fdecode F b)).
Proof.
  intros Ha Hb. unfold feq, flt, fle. rewrite compare_finite by done.
  rewrite Z.eqb_compare. unfold Z.ltb, Z.leb. by destruct (_ ?= _).
Qed.
