(* ===== verification/Fpu.v ===== *)
(** RV64F / RV64D ([riscv-core/src/fpu.rs]): the OP-FP and fused multiply-add
    opcodes.  One definition per helper and one per arm of [execute]'s match;
    [libm] is a third-party crate and a parameter. *)

From S2P Require Import Prelude Bits Float Cpu.
From Stdlib Require Import Floats.SpecFloat.

(** The functions of the [libm] crate the FPU calls, on bit patterns. *)
Class Libm := {
  libm_fma : Z → Z → Z → Z;
  libm_fmaf : Z → Z → Z → Z;
  libm_sqrt : Z → Z;
  libm_sqrtf : Z → Z;
  libm_trunc : Z → Z;
}.

(** Results are values of the floating-point types. *)
Class LibmOk `{Libm} : Prop := {
  libm_fma_range a b c : urange 64 (libm_fma a b c);
  libm_fmaf_range a b c : urange 32 (libm_fmaf a b c);
  libm_sqrt_range a : urange 64 (libm_sqrt a);
  libm_sqrtf_range a : urange 32 (libm_sqrtf a);
}.

Definition FFLAG_NX : Z := 1.
Definition FFLAG_UF : Z := 2.
Definition FFLAG_OF : Z := 4.
Definition FFLAG_DZ : Z := 8.
Definition FFLAG_NV : Z := 16.

Definition CANON_NAN_S : Z := 0x7fc00000.
Definition CANON_NAN_D : Z := 0x7ff8000000000000.

Definition unbox_s (bits : Z) : Z :=
  if Z.shiftr bits 32 =? 0xFFFFFFFF then as_u32 bits else CANON_NAN_S.
Definition box_s (v : Z) : Z := Z.lor 0xFFFFFFFF00000000 v.
Definition as_d (bits : Z) : Z := bits.

Definition is_snan_s (b : Z) : bool :=
  (Z.land b 0x7f800000 =? 0x7f800000) && negb (Z.land b 0x007fffff =? 0)
  && (Z.land b 0x00400000 =? 0).
Definition is_snan_d (b : Z) : bool :=
  (Z.land b 0x7ff0000000000000 =? 0x7ff0000000000000)
  && negb (Z.land b 0x000fffffffffffff =? 0)
  && (Z.land b 0x0008000000000000 =? 0).

Record FpResult := mkFpResult { flags : Z; dirty : bool; ok : bool }.
#[global] Instance eta_fpresult : Eta FpResult := λ r, mkFpResult (flags r) (dirty r) (ok r).
Definition FpResult_new : FpResult := mkFpResult 0 false true.
Definition FpResult_bad : FpResult := mkFpResult 0 false false.

Definition fclass_bits (sign exp_max exp_zero mant_zero quiet : bool) : Z :=
  if exp_max && mant_zero then (if sign then Z.shiftl 1 0 else Z.shiftl 1 7)
  else if exp_max then (if quiet then Z.shiftl 1 9 else Z.shiftl 1 8)
  else if exp_zero && mant_zero then (if sign then Z.shiftl 1 3 else Z.shiftl 1 4)
  else if exp_zero then (if sign then Z.shiftl 1 2 else Z.shiftl 1 5)
  else if sign then Z.shiftl 1 1
  else Z.shiftl 1 6.

Definition fclass_s (b : Z) : Z :=
  fclass_bits (Z.shiftr b 31 =? 1) (Z.land b 0x7f800000 =? 0x7f800000)
    (Z.land b 0x7f800000 =? 0) (Z.land b 0x007fffff =? 0)
    (negb (Z.land b 0x00400000 =? 0)).
Definition fclass_d (b : Z) : Z :=
  fclass_bits (Z.shiftr b 63 =? 1) (Z.land b 0x7ff0000000000000 =? 0x7ff0000000000000)
    (Z.land b 0x7ff0000000000000 =? 0) (Z.land b 0x000fffffffffffff =? 0)
    (negb (Z.land b 0x0008000000000000 =? 0)).

Definition inexact_s (exact v : Z) : bool :=
  is_finite f32 v && negb (feq f64 (fcast f32 f64 v) exact).

(** [if c { r.flags |= fl }] *)
Definition flag_if (c : bool) (fl : Z) : Z := if c then fl else 0.

(** [fN::from_bits(0.0)] and the powers of two the conversions compare with. *)
Definition zero_s : Z := of_int f32 0.
Definition zero_d : Z := of_int f64 0.

Definition canon_s (v : Z) : Z :=
  if is_nan f32 v then box_s CANON_NAN_S else box_s v.
Definition canon_d (v : Z) : Z := if is_nan f64 v then CANON_NAN_D else v.

(** [min_max] at either format. *)
Definition min_max (F : fmt) (a b : Z) (a_nan b_nan is_max neg_a : bool)
  : option Z * bool :=
  match a_nan, b_nan with
  | true, true => (None, true)
  | true, false => (Some b, false)
  | false, true => (Some a, false)
  | false, false =>
      if feq F a b then
        (let pick_a := if is_max then negb neg_a else neg_a in
         (Some (if pick_a then a else b), false))
      else if negb (Bool.eqb (flt F a b) is_max) then (Some a, false)
      else (Some b, false)
  end.

Section Fpu.
Context `{Libm}.

Definition residual_d (op a b v : Z) : Z :=
  if op =? 0 then
    let bb := fsub f64 v a in
    fadd f64 (fsub f64 a (fsub f64 v bb)) (fsub f64 b bb)
  else if op =? 1 then
    let nb := fneg f64 b in
    let bb := fsub f64 v a in
    fadd f64 (fsub f64 a (fsub f64 v bb)) (fsub f64 nb bb)
  else if op =? 2 then libm_fma a b (fneg f64 v)
  else libm_fma (fneg f64 v) b a.

Definition f64_to_i64 (v : Z) : Z * Z :=
  if is_nan f64 v then (as_u64 I64_MAX, FFLAG_NV) else
  let r := libm_trunc v in
  if fge f64 r (of_int f64 9223372036854775808) then (as_u64 I64_MAX, FFLAG_NV)
  else if flt f64 r (of_int f64 (-9223372036854775808)) then (as_u64 I64_MIN, FFLAG_NV)
  else (as_u64 (to_int f64 I64_MIN I64_MAX r), flag_if (negb (feq f64 r v)) FFLAG_NX).

Definition f64_to_u64 (v : Z) : Z * Z :=
  if is_nan f64 v then (U64_MAX, FFLAG_NV) else
  let r := libm_trunc v in
  if fge f64 r (of_int f64 18446744073709551616) then (U64_MAX, FFLAG_NV)
  else if fle f64 r (of_int f64 (-1)) then (0, FFLAG_NV)
  else (to_int f64 0 U64_MAX r, flag_if (negb (feq f64 r v)) FFLAG_NX).

Definition f64_to_i32 (v : Z) : Z * Z :=
  if is_nan f64 v then (as_u64 I32_MAX, FFLAG_NV) else
  let r := libm_trunc v in
  if fge f64 r (of_int f64 2147483648) then (as_u64 I32_MAX, FFLAG_NV)
  else if flt f64 r (of_int f64 (-2147483648)) then (as_u64 I32_MIN, FFLAG_NV)
  else (as_u64 (to_int f64 I32_MIN I32_MAX r), flag_if (negb (feq f64 r v)) FFLAG_NX).

Definition f64_to_u32 (v : Z) : Z * Z :=
  if is_nan f64 v then (as_u64 (as_i32 U32_MAX), FFLAG_NV) else
  let r := libm_trunc v in
  if fge f64 r (of_int f64 4294967296) then (as_u64 (as_i32 U32_MAX), FFLAG_NV)
  else if fle f64 r (of_int f64 (-1)) then (0, FFLAG_NV)
  else (as_u64 (as_i32 (to_int f64 0 U32_MAX r)), flag_if (negb (feq f64 r v)) FFLAG_NX).

(** ** The arms of [execute] *)

Abbreviation fret fl d := (mret (mkFpResult fl d true) : M Cpu.t FpResult).

(** Fused multiply-add family, opcodes 0x43, 0x47, 0x4b, 0x4f. *)
Definition exec_fma (opcode rd rs1 rs2 rs3 fmt : Z) : M Cpu.t FpResult :=
  let '(neg_prod, neg_add) :=
    if opcode =? 0x43 then (false, false)
    else if opcode =? 0x47 then (false, true)
    else if opcode =? 0x4b then (true, false)
    else (true, true) in
  if fmt =? 0 then
    r1 ← Cpu.index_f rs1; r2 ← Cpu.index_f rs2; r3 ← Cpu.index_f rs3;
    let a := unbox_s r1 in let b := unbox_s r2 in let c := unbox_s r3 in
    let a := if neg_prod then fneg f32 a else a in
    let c := if neg_add then fneg f32 c else c in
    let v := libm_fmaf a b c in
    let fl := flag_if (is_finite f32 a && is_finite f32 b && is_finite f32 c
                && inexact_s (fadd f64 (fmul f64 (fcast f32 f64 a) (fcast f32 f64 b))
                                       (fcast f32 f64 c)) v) FFLAG_NX in
    let fl := Z.lor fl (if is_nan f32 a || is_nan f32 b || is_nan f32 c then
                FFLAG_NV * b2z (is_snan_s (as_u32 r1) || is_snan_s (as_u32 r2)
                                || is_snan_s (as_u32 r3)) else 0) in
    Cpu.set_f rd (canon_s v);; fret fl true
  else if fmt =? 1 then
    r1 ← Cpu.index_f rs1; r2 ← Cpu.index_f rs2; r3 ← Cpu.index_f rs3;
    let a := as_d r1 in let b := as_d r2 in let c := as_d r3 in
    let a := if neg_prod then fneg f64 a else a in
    let c := if neg_add then fneg f64 c else c in
    let v := libm_fma a b c in
    let fl :=
      if is_finite f64 a && is_finite f64 b && is_finite f64 c && is_finite f64 v then
        let p := fmul f64 a b in
        let pe := libm_fma a b (fneg f64 p) in
        let s := fadd f64 p c in
        let bb := fsub f64 s p in
        let se := fadd f64 (fsub f64 p (fsub f64 s bb)) (fsub f64 c bb) in
        flag_if (negb (feq f64 (fadd f64 pe se) zero_d)) FFLAG_NX
      else 0 in
    let fl := Z.lor fl (flag_if (is_snan_d r1 || is_snan_d r2 || is_snan_d r3) FFLAG_NV) in
    Cpu.set_f rd (canon_d v);; fret fl true
  else mret FpResult_bad.

(** The value and the division flags of FADD / FSUB / FMUL / FDIV. *)
Definition arith_val (F : fmt) (op a b : Z) : Z * Z :=
  if op =? 0 then (fadd F a b, 0)
  else if op =? 1 then (fsub F a b, 0)
  else if op =? 2 then (fmul F a b, 0)
  else
    (fdiv F a b,
     if feq F b (of_int F 0) && negb (is_nan F a) && negb (feq F a (of_int F 0)) then FFLAG_DZ
     else if feq F a (of_int F 0) && feq F b (of_int F 0) then FFLAG_NV else 0).

Definition exec_arith (op rd rs1 rs2 fmt : Z) : M Cpu.t FpResult :=
  if fmt =? 0 then
    r1 ← Cpu.index_f rs1; r2 ← Cpu.index_f rs2;
    let a := unbox_s r1 in let b := unbox_s r2 in
    let fl := flag_if (is_snan_s (as_u32 r1) || is_snan_s (as_u32 r2)) FFLAG_NV in
    let '(v, dfl) := arith_val f32 op a b in
    let fl := Z.lor fl dfl in
    let fl := Z.lor fl (flag_if (is_nan f32 v && negb (is_nan f32 a) && negb (is_nan f32 b)) FFLAG_NV) in
    let fl := Z.lor fl
      (if is_infinite f32 v && is_finite f32 a && is_finite f32 b && negb (op =? 3)
       then Z.lor FFLAG_OF FFLAG_NX
       else if is_finite f32 a && is_finite f32 b then
         let x := fcast f32 f64 a in
         let y := fcast f32 f64 b in
         let exact := if op =? 0 then fadd f64 x y else if op =? 1 then fsub f64 x y
                      else if op =? 2 then fmul f64 x y else fdiv f64 x y in
         flag_if (inexact_s exact v) FFLAG_NX
       else 0) in
    Cpu.set_f rd (canon_s v);; fret fl true
  else if fmt =? 1 then
    r1 ← Cpu.index_f rs1; r2 ← Cpu.index_f rs2;
    let a := as_d r1 in let b := as_d r2 in
    let fl := flag_if (is_snan_d r1 || is_snan_d r2) FFLAG_NV in
    let '(v, dfl) := arith_val f64 op a b in
    let fl := Z.lor fl dfl in
    let fl := Z.lor fl (flag_if (is_nan f64 v && negb (is_nan f64 a) && negb (is_nan f64 b)) FFLAG_NV) in
    let fl := Z.lor fl
      (if is_infinite f64 v && is_finite f64 a && is_finite f64 b && negb (op =? 3)
       then Z.lor FFLAG_OF FFLAG_NX
       else flag_if (is_finite f64 a && is_finite f64 b && is_finite f64 v
                     && negb (feq f64 (residual_d op a b v) zero_d)) FFLAG_NX) in
    Cpu.set_f rd (canon_d v);; fret fl true
  else mret FpResult_bad.

Definition exec_sqrt (rd rs1 fmt : Z) : M Cpu.t FpResult :=
  if fmt =? 0 then
    r1 ← Cpu.index_f rs1;
    let a := unbox_s r1 in
    let fl := flag_if (flt f32 a zero_s) FFLAG_NV in
    let v := libm_sqrtf a in
    let fl := Z.lor fl (flag_if (is_finite f32 a && fgt f32 a zero_s
                && inexact_s (libm_sqrt (fcast f32 f64 a)) v) FFLAG_NX) in
    Cpu.set_f rd (canon_s v);; fret fl true
  else
    r1 ← Cpu.index_f rs1;
    let a := as_d r1 in
    let fl := flag_if (flt f64 a zero_d) FFLAG_NV in
    let v := libm_sqrt a in
    let fl := Z.lor fl (flag_if (is_finite f64 a && fgt f64 a zero_d
                && negb (feq f64 (libm_fma (fneg f64 v) v a) zero_d)) FFLAG_NX) in
    Cpu.set_f rd (canon_d v);; fret fl true.

(** The sign of FSGNJ / FSGNJN / FSGNJX, [None] for the other [funct3]. *)
Definition sgnj_sign (w funct3 a b m : Z) : option Z :=
  if funct3 =? 0 then Some (Z.land b m)
  else if funct3 =? 1 then Some (Z.land (unot w b) m)
  else if funct3 =? 2 then Some (Z.land (Z.lxor a b) m)
  else None.

Definition exec_sgnj (raw rd rs1 rs2 fmt : Z) : M Cpu.t FpResult :=
  let funct3 := Z.land (Z.shiftr raw 12) 7 in
  if fmt =? 0 then
    r1 ← Cpu.index_f rs1; r2 ← Cpu.index_f rs2;
    let a := unbox_s r1 in let b := unbox_s r2 in
    match sgnj_sign 32 funct3 a b 0x80000000 with
    | Some sign => Cpu.set_f rd (box_s (Z.lor (Z.land a 0x7fffffff) sign));; fret 0 true
    | None => mret FpResult_bad
    end
  else if fmt =? 1 then
    a ← Cpu.index_f rs1; b ← Cpu.index_f rs2;
    match sgnj_sign 64 funct3 a b 0x8000000000000000 with
    | Some sign => Cpu.set_f rd (Z.lor (Z.land a 0x7fffffffffffffff) sign);; fret 0 true
    | None => mret FpResult_bad
    end
  else mret FpResult_bad.

Definition exec_minmax (raw rd rs1 rs2 fmt : Z) : M Cpu.t FpResult :=
  let is_max := Z.land (Z.shiftr raw 12) 7 =? 1 in
  if fmt =? 0 then
    r1 ← Cpu.index_f rs1; r2 ← Cpu.index_f rs2;
    let a := unbox_s r1 in let b := unbox_s r2 in
    let fl := flag_if (is_snan_s (as_u32 r1) || is_snan_s (as_u32 r2)) FFLAG_NV in
    let '(v, both_nan) :=
      min_max f32 a b (is_nan f32 a) (is_nan f32 b) is_max (sign_bit f32 a) in
    (if both_nan : bool then Cpu.set_f rd (box_s CANON_NAN_S)
     else v ← lift v; Cpu.set_f rd (box_s v));;
    fret fl true
  else if fmt =? 1 then
    r1 ← Cpu.index_f rs1; r2 ← Cpu.index_f rs2;
    let a := as_d r1 in let b := as_d r2 in
    let fl := flag_if (is_snan_d r1 || is_snan_d r2) FFLAG_NV in
    let '(v, both_nan) :=
      min_max f64 a b (is_nan f64 a) (is_nan f64 b) is_max (sign_bit f64 a) in
    (if both_nan : bool then Cpu.set_f rd CANON_NAN_D
     else v ← lift v; Cpu.set_f rd v);;
    fret fl true
  else mret FpResult_bad.

(** FCVT.S.D and FCVT.D.S *)
Definition exec_cvt_ff (rd rs1 rs2 fmt : Z) : M Cpu.t FpResult :=
  if (fmt =? 0) && (rs2 =? 1) then
    r1 ← Cpu.index_f rs1;
    let a := as_d r1 in
    let fl := flag_if (is_snan_d r1) FFLAG_NV in
    let v := fcast f64 f32 a in
    if is_nan f32 v then Cpu.set_f rd (box_s CANON_NAN_S);; fret fl true
    else
      let fl := Z.lor fl
        (if is_infinite f32 v && is_finite f64 a then Z.lor FFLAG_OF FFLAG_NX
         else flag_if (negb (feq f64 (fcast f32 f64 v) a)) FFLAG_NX) in
      Cpu.set_f rd (box_s v);; fret fl true
  else if (fmt =? 1) && (rs2 =? 0) then
    r1 ← Cpu.index_f rs1;
    let a := unbox_s r1 in
    let fl := flag_if (is_snan_s (as_u32 r1)) FFLAG_NV in
    Cpu.set_f rd (canon_d (fcast f32 f64 a));; fret fl true
  else mret FpResult_bad.

(** The comparison of FEQ / FLT / FLE. *)
Definition cmp_val (F : fmt) (funct3 a b : Z) : option bool :=
  if funct3 =? 2 then Some (feq F a b)
  else if funct3 =? 1 then Some (flt F a b)
  else if funct3 =? 0 then Some (fle F a b)
  else None.

Definition exec_cmp (raw rd rs1 rs2 fmt : Z) : M Cpu.t FpResult :=
  let funct3 := Z.land (Z.shiftr raw 12) 7 in
  let finish (a_nan b_nan res sig : bool) : M Cpu.t FpResult :=
    let fl := flag_if ((funct3 =? 2) && sig || negb (funct3 =? 2) && (a_nan || b_nan))
                FFLAG_NV in
    Cpu.write_reg rd (b2z res);; fret fl false in
  if fmt =? 0 then
    r1 ← Cpu.index_f rs1; r2 ← Cpu.index_f rs2;
    let a := unbox_s r1 in let b := unbox_s r2 in
    match cmp_val f32 funct3 a b with
    | Some res => finish (is_nan f32 a) (is_nan f32 b) res
                    (is_snan_s (as_u32 r1) || is_snan_s (as_u32 r2))
    | None => mret FpResult_bad
    end
  else if fmt =? 1 then
    r1 ← Cpu.index_f rs1; r2 ← Cpu.index_f rs2;
    let a := as_d r1 in let b := as_d r2 in
    match cmp_val f64 funct3 a b with
    | Some res => finish (is_nan f64 a) (is_nan f64 b) res (is_snan_d r1 || is_snan_d r2)
    | None => mret FpResult_bad
    end
  else mret FpResult_bad.

(** FCLASS, FMV.X.W and FMV.X.D *)
Definition exec_class_mvx (raw rd rs1 fmt : Z) : M Cpu.t FpResult :=
  let funct3 := Z.land (Z.shiftr raw 12) 7 in
  r1 ← Cpu.index_f rs1;
  let v :=
    if (funct3 =? 1) && (fmt =? 0) then Some (fclass_s (as_u32 r1))
    else if (funct3 =? 1) && (fmt =? 1) then Some (fclass_d r1)
    else if (funct3 =? 0) && (fmt =? 0) then Some (as_u64 (as_i32 (as_u32 r1)))
    else if (funct3 =? 0) && (fmt =? 1) then Some r1
    else None in
  match v with
  | Some v => Cpu.write_reg rd v;; fret 0 false
  | None => mret FpResult_bad
  end.

(** FMV.W.X and FMV.D.X *)
Definition exec_mvf (rd rs1 fmt : Z) : M Cpu.t FpResult :=
  x ← Cpu.reg_read rs1;
  if fmt =? 0 then Cpu.set_f rd (box_s (as_u32 x));; fret 0 true
  else if fmt =? 1 then Cpu.set_f rd x;; fret 0 true
  else mret FpResult_bad.

(** FCVT.{W,WU,L,LU}.{S,D} *)
Definition exec_cvt_fi (rd rs1 rs2 fmt : Z) : M Cpu.t FpResult :=
  r1 ← Cpu.index_f rs1;
  let v := if fmt =? 0 then Some (fcast f32 f64 (unbox_s r1))
           else if fmt =? 1 then Some (as_d r1) else None in
  match v with
  | None => mret FpResult_bad
  | Some v =>
      let out := if rs2 =? 0 then Some (f64_to_i32 v) else if rs2 =? 1 then Some (f64_to_u32 v)
                 else if rs2 =? 2 then Some (f64_to_i64 v)
                 else if rs2 =? 3 then Some (f64_to_u64 v) else None in
      match out with
      | Some (res, fl) => Cpu.write_reg rd res;; fret fl false
      | None => mret FpResult_bad
      end
  end.

(** FCVT.{S,D}.{W,WU,L,LU} *)
Definition exec_cvt_if (rd rs1 rs2 fmt : Z) : M Cpu.t FpResult :=
  x ← Cpu.reg_read rs1;
  let v := if rs2 =? 0 then Some (of_int f64 (as_i32 x))
           else if rs2 =? 1 then Some (of_int f64 (as_u32 x))
           else if rs2 =? 2 then Some (of_int f64 (as_i64 x))
           else if rs2 =? 3 then Some (of_int f64 x) else None in
  match v with
  | None => mret FpResult_bad
  | Some v =>
      if fmt =? 0 then
        let f := fcast f64 f32 v in
        let fl := flag_if (negb (feq f64 (fcast f32 f64 f) v)) FFLAG_NX in
        Cpu.set_f rd (box_s f);; fret fl true
      else if fmt =? 1 then
        let fl :=
          if (rs2 =? 2) || (rs2 =? 3) then
            let back := if rs2 =? 2 then as_u64 (to_int f64 I64_MIN I64_MAX v)
                        else to_int f64 0 U64_MAX v in
            flag_if (negb (back =? x)) FFLAG_NX
          else 0 in
        Cpu.set_f rd v;; fret fl true
      else mret FpResult_bad
  end.

Definition fpu_execute (raw : Z) : M Cpu.t FpResult :=
  let opcode := Z.land raw 0x7f in
  let rd := Z.land (Z.shiftr raw 7) 0x1f in
  let rs1 := Z.land (Z.shiftr raw 15) 0x1f in
  let rs2 := Z.land (Z.shiftr raw 20) 0x1f in
  let rs3 := Z.land (Z.shiftr raw 27) 0x1f in
  let funct7 := Z.land (Z.shiftr raw 25) 0x7f in
  let fmt := Z.land (Z.shiftr raw 25) 3 in
  if (opcode =? 0x43) || (opcode =? 0x47) || (opcode =? 0x4b) || (opcode =? 0x4f) then
    exec_fma opcode rd rs1 rs2 rs3 fmt
  else if negb (opcode =? 0x53) then mret FpResult_bad
  else
    let op := Z.shiftr funct7 2 in
    if (op =? 0) || (op =? 1) || (op =? 2) || (op =? 3) then exec_arith op rd rs1 rs2 fmt
    else if op =? 0xB then exec_sqrt rd rs1 fmt
    else if op =? 4 then exec_sgnj raw rd rs1 rs2 fmt
    else if op =? 5 then exec_minmax raw rd rs1 rs2 fmt
    else if op =? 8 then exec_cvt_ff rd rs1 rs2 fmt
    else if op =? 0x14 then exec_cmp raw rd rs1 rs2 fmt
    else if op =? 0x1C then exec_class_mvx raw rd rs1 fmt
    else if op =? 0x1E then exec_mvf rd rs1 fmt
    else if op =? 0x18 then exec_cvt_fi rd rs1 rs2 fmt
    else if op =? 0x1A then exec_cvt_if rd rs1 rs2 fmt
    else mret FpResult_bad.
End Fpu.

Definition is_fp_opcode (raw : Z) : bool :=
  let o := Z.land raw 0x7f in
  (o =? 0x53) || (o =? 0x43) || (o =? 0x47) || (o =? 0x4b) || (o =? 0x4f).

(** * Facts *)

(** A set of exception flags without the underflow bit. *)
Definition flags_ok (fl : Z) : Prop := Z.lor fl 0x1D = 0x1D.

Lemma flags_ok_lor a b : flags_ok a → flags_ok b → flags_ok (Z.lor a b).
Proof. unfold flags_ok. intros Ha Hb. by rewrite <- Z.lor_assoc, Hb. Qed.

Lemma flags_ok_if c fl : flags_ok fl → flags_ok (flag_if c fl).
Proof. by destruct c. Qed.

Lemma flags_ok_ite (c : bool) a b : flags_ok a → flags_ok b → flags_ok (if c then a else b).
Proof. by destruct c. Qed.

Lemma flags_ok_nv c : flags_ok (FFLAG_NV * b2z c).
Proof. by destruct c. Qed.

Lemma flags_ok_range fl : flags_ok fl → urange 64 fl.
Proof.
  unfold flags_ok. intros E.
  assert (0 <= fl) by (apply (Z.lor_nonneg fl 0x1D); by rewrite E).
  apply (urange_weaken 5); [lia|]. apply urange_bits; [lia..|]. intros i Hi.
  assert (Z.testbit (Z.lor fl 0x1D) i = false) as Hb.
  { rewrite E. by apply (urange_testbit 5); [|lia]. }
  rewrite Z.lor_spec in Hb. by apply orb_false_iff in Hb as [-> _].
Qed.

Create HintDb fpu.
#[global] Hint Resolve flags_ok_lor flags_ok_if flags_ok_ite flags_ok_nv : fpu.
#[global] Hint Extern 1 (flags_ok _) => reflexivity : fpu.

Definition boxed (v : Z) : Prop := Z.shiftr v 32 = 0xFFFFFFFF.

Lemma box_s_range v : urange 32 v → urange 64 (box_s v).
Proof.
  intros Hv. apply urange_lor; [lia|by unfold urange|]. by apply (urange_weaken 32); [lia|].
Qed.

Lemma box_s_boxed v : urange 32 v → boxed (box_s v).
Proof. intros Hv. unfold boxed, box_s. bit_fields. Qed.

Lemma unbox_s_range b : urange 32 (unbox_s b).
Proof. unfold unbox_s. split_ifs; [apply wrap_range; lia|by unfold urange, CANON_NAN_S]. Qed.

Lemma fcast32_range F a : urange 32 (fcast F f32 a).
Proof. apply fencode32_range. Qed.
Lemma fcast64_range F a : urange 64 (fcast F f64 a).
Proof. apply fencode64_range. Qed.
Lemma arith32_range op a b : urange 32 (arith_val f32 op a b).1.
Proof. unfold arith_val. split_ifs; apply fencode32_range. Qed.
Lemma arith64_range op a b : urange 64 (arith_val f64 op a b).1.
Proof. unfold arith_val. split_ifs; apply fencode64_range. Qed.
Lemma of_int64_range n : urange 64 (of_int f64 n).
Proof. apply fencode64_range. Qed.

Lemma canon_s_boxed v : urange 32 v → boxed (canon_s v).
Proof. intros. unfold canon_s. split_ifs; [done|by apply box_s_boxed]. Qed.
Lemma canon_s_range v : urange 32 v → urange 64 (canon_s v).
Proof. intros. unfold canon_s. split_ifs; by apply box_s_range. Qed.
Lemma canon_d_range v : urange 64 v → urange 64 (canon_d v).
Proof. intros. unfold canon_d. split_ifs; by unfold urange, CANON_NAN_D. Qed.

Lemma arith_flags F op a b : flags_ok (arith_val F op a b).2.
Proof. unfold arith_val. by split_ifs. Qed.

Lemma min_max_cases F a b an bn mx na :
  match min_max F a b an bn mx na with
  | (None, both) => both = true
  | (Some v, both) => both = false ∧ (v = a ∨ v = b)
  end.
Proof. unfold min_max. destruct an, bn; split_ifs; auto. Qed.

Lemma sgnj_sign_range w f3 a b m s :
  0 <= w → urange w a → urange w b → sgnj_sign w f3 a b m = Some s → urange w s.
Proof.
  unfold sgnj_sign. intros Hw Ha Hb. split_ifs; intros [= <-].
  - by apply urange_land_l.
  - apply urange_land_l; [done|]. by apply wrap_range.
  - apply urange_land_l; [done|]. apply urange_bits; [done| |].
    + apply Z.lxor_nonneg. unfold urange in *. lia.
    + intros i Hi. by rewrite Z.lxor_spec, (urange_testbit w a i), (urange_testbit w b i).
Qed.

Lemma fclass_range s em ez mz q : urange 10 (fclass_bits s em ez mz q).
Proof. destruct s, em, ez, mz, q; by unfold urange. Qed.

#[global] Hint Resolve box_s_range box_s_boxed unbox_s_range fcast32_range fcast64_range
  canon_s_boxed canon_s_range canon_d_range of_int64_range arith_flags
  libm_fma_range libm_fmaf_range libm_sqrt_range libm_sqrtf_range : fpu.
Lemma canon_nan_s_range : urange 64 (box_s CANON_NAN_S).
Proof. done. Qed.
Lemma canon_nan_d_range : urange 64 CANON_NAN_D.
Proof. done. Qed.

#[global] Hint Resolve wrap_range canon_nan_s_range canon_nan_d_range : fpu.
#[global] Hint Extern 2 (_ <= _) => lia : fpu.
#[global] Hint Extern 1 (boxed _) => reflexivity : fpu.

Lemma to_int_range F lo hi a : lo <= 0 <= hi → lo <= to_int F lo hi a <= hi.
Proof. intros. unfold to_int. case_match; try lia. case_match; lia. Qed.

(** A conversion to an integer register returns a register value and flags. *)
Definition cvt_out (p : Z * Z) : Prop := urange 64 p.1 ∧ flags_ok p.2.

Section Conversions.
Context `{Libm}.

Lemma f64_to_i64_out v : cvt_out (f64_to_i64 v).
Proof. unfold f64_to_i64. cbv zeta. split_ifs; split; cbn [fst snd]; eauto with fpu. Qed.
Lemma f64_to_i32_out v : cvt_out (f64_to_i32 v).
Proof. unfold f64_to_i32. cbv zeta. split_ifs; split; cbn [fst snd]; eauto with fpu. Qed.
Lemma f64_to_u32_out v : cvt_out (f64_to_u32 v).
Proof.
  unfold f64_to_u32. cbv zeta. split_ifs; split; cbn [fst snd]; eauto with fpu. done.
Qed.
Lemma f64_to_u64_out v : cvt_out (f64_to_u64 v).
Proof.
  unfold f64_to_u64. cbv zeta. split_ifs; split; cbn [fst snd]; eauto with fpu; try done.
  pose proof (to_int_range f64 0 U64_MAX (libm_trunc v)). unfold urange, U64_MAX in *. lia.
Qed.
End Conversions.

(** ** The effect of an FP instruction

    An FP instruction either is refused and changes nothing, or writes one [f]
    register (NaN-boxed when the destination is single precision), or writes
    one integer register. *)
Inductive fp_effect (fmt rd : Z) (c : Cpu.t) : FpResult → Cpu.t → Prop :=
  | fp_refused : fp_effect fmt rd c FpResult_bad c
  | fp_wrote_f fl v :
      flags_ok fl → urange 64 v → (fmt = 0 → boxed v) →
      fp_effect fmt rd c (mkFpResult fl true true)
        (c <| Cpu.f := <[Z.to_nat rd := v]> (Cpu.f c) |>)
  | fp_wrote_x fl v :
      flags_ok fl → urange 64 v →
      fp_effect fmt rd c (mkFpResult fl false true) (Cpu.set_reg c rd v).

Section Effects.
Context `{LibmOk} (c : Cpu.t) (Hc : Cpu.wf c).
Implicit Types rd fmt : Z.

Lemma wp_index_f {A} i (k : Z → M Cpu.t A) Q :
  0 <= i < 32 → (∀ v, urange 64 v → wp False (k v) Q c) →
  wp False (Cpu.index_f i ≫= k) Q c.
Proof.
  intros Hi Hk. unfold Cpu.index_f. destruct (Z.ltb_spec i 32); [|lia].
  apply wp_bind, wp_get, Hk. apply Cpu.lookup_total_range; [by apply Cpu.wf_f|].
  rewrite Cpu.wf_f_len by done. lia.
Qed.

Lemma wp_set_f fmt rd v fl :
  0 <= rd < 32 → flags_ok fl → urange 64 v → (fmt = 0 → boxed v) →
  wp False (Cpu.set_f rd v;; mret (mkFpResult fl true true)) (fp_effect fmt rd c) c.
Proof.
  intros Hr Hf Hv Hb. unfold Cpu.set_f. destruct (Z.ltb_spec rd 32); [|lia].
  by apply wp_bind, wp_modify, wp_ret, fp_wrote_f.
Qed.

Lemma wp_fpu_write_x fmt rd v fl :
  0 <= rd < 32 → flags_ok fl → urange 64 v →
  wp False (Cpu.write_reg rd v;; mret (mkFpResult fl false true)) (fp_effect fmt rd c) c.
Proof.
  intros Hr Hf Hv. apply wp_bind. unfold wp. rewrite Cpu.write_reg_eq by done.
  by apply fp_wrote_x.
Qed.

Lemma wp_reg_read {A} i (k : Z → M Cpu.t A) Q :
  (∀ v, urange 64 v → wp False (k v) Q c) → wp False (Cpu.reg_read i ≫= k) Q c.
Proof. intros Hk. apply wp_bind, wp_get, Hk. by apply Cpu.read_reg_range. Qed.

Lemma wp_refused fmt rd : wp False (mret FpResult_bad) (fp_effect fmt rd c) c.
Proof. apply wp_ret, fp_refused. Qed.

(** Run an arm: bind the register reads, split the conditions, close the
    final write with the range and flag lemmas. *)
Ltac fp_step :=
  lazymatch goal with
  | |- wp _ (mret FpResult_bad) _ _ => apply wp_refused
  | |- wp _ (Cpu.index_f _ ≫= _) _ _ => apply wp_index_f; [lia|intros ? ?]
  | |- wp _ (Cpu.reg_read _ ≫= _) _ _ => apply wp_reg_read; intros ? ?
  | |- wp _ (Cpu.set_f _ _ ≫= _) _ _ => apply wp_set_f; [lia| | |intros ?]
  | |- wp _ (Cpu.write_reg _ _ ≫= _) _ _ => apply wp_fpu_write_x; [lia| |]
  | |- wp _ (if ?b then _ else _) _ _ => destruct b eqn:?
  | |- wp _ (let '(_, _) := ?p in _) _ _ => destruct p eqn:?
  | |- wp _ (match ?o with _ => _ end) _ _ => destruct o eqn:?
  | |- wp _ (let x := _ in _) _ _ => cbv zeta
  end.
Ltac fp_run := cbv zeta; repeat fp_step; try (exfalso; lia);
  try solve [eauto 10 with fpu | split_ifs; eauto 10 with fpu].

Lemma exec_fma_effect opcode rd rs1 rs2 rs3 fmt :
  0 <= rd < 32 → 0 <= rs1 < 32 → 0 <= rs2 < 32 → 0 <= rs3 < 32 →
  wp False (exec_fma opcode rd rs1 rs2 rs3 fmt) (fp_effect fmt rd c) c.
Proof.
  intros. unfold exec_fma. destruct (if opcode =? 0x43 then _ else _) as [np na].
  fp_run.
Qed.

Lemma exec_arith_effect op rd rs1 rs2 fmt :
  0 <= rd < 32 → 0 <= rs1 < 32 → 0 <= rs2 < 32 →
  wp False (exec_arith op rd rs1 rs2 fmt) (fp_effect fmt rd c) c.
Proof.
  intros. unfold exec_arith. cbv zeta. fp_step.
  - do 2 fp_step. pose proof (arith32_range op (unbox_s v) (unbox_s v0)) as Hr.
    pose proof (arith_flags f32 op (unbox_s v) (unbox_s v0)) as Hf.
    destruct (arith_val f32 op _ _) as [u fl]. fp_run.
  - fp_step; [|fp_run]. do 2 fp_step. pose proof (arith64_range op (as_d v) (as_d v0)) as Hr.
    pose proof (arith_flags f64 op (as_d v) (as_d v0)) as Hf.
    destruct (arith_val f64 op _ _) as [u fl]. fp_run.
Qed.

Lemma exec_sqrt_effect rd rs1 fmt :
  0 <= rd < 32 → 0 <= rs1 < 32 → wp False (exec_sqrt rd rs1 fmt) (fp_effect fmt rd c) c.
Proof. intros. unfold exec_sqrt. fp_run. Qed.

Lemma exec_sgnj_effect raw rd rs1 rs2 fmt :
  0 <= rd < 32 → 0 <= rs1 < 32 → 0 <= rs2 < 32 →
  wp False (exec_sgnj raw rd rs1 rs2 fmt) (fp_effect fmt rd c) c.
Proof.
  intros. unfold exec_sgnj. fp_run.
  - apply box_s_range, urange_lor; [lia|apply urange_land_l; eauto with fpu|].
    by eapply sgnj_sign_range; [..|done]; eauto with fpu.
  - apply box_s_boxed, urange_lor; [lia|apply urange_land_l; eauto with fpu|].
    by eapply sgnj_sign_range; [..|done]; eauto with fpu.
  - apply urange_lor; [lia|by apply urange_land_l|].
    by eapply sgnj_sign_range; [..|done].
Qed.

Lemma exec_minmax_effect raw rd rs1 rs2 fmt :
  0 <= rd < 32 → 0 <= rs1 < 32 → 0 <= rs2 < 32 →
  wp False (exec_minmax raw rd rs1 rs2 fmt) (fp_effect fmt rd c) c.
Proof.
  intros. unfold exec_minmax. cbv zeta. fp_step; [|fp_step; [|fp_run]].
  - do 2 fp_step. match goal with |- context [min_max f32 ?a ?b ?an ?bn ?m ?n] =>
      pose proof (min_max_cases f32 a b an bn m n) as Hm;
      destruct (min_max f32 a b an bn m n) as [[u|] both] end.
    + destruct Hm as [-> Hu].
      assert (urange 32 u) by (destruct Hu as [->| ->]; eauto with fpu).
      apply (wp_set_f fmt rd (box_s u)); eauto with fpu.
    + subst both. fp_run.
  - do 2 fp_step. match goal with |- context [min_max f64 ?a ?b ?an ?bn ?m ?n] =>
      pose proof (min_max_cases f64 a b an bn m n) as Hm;
      destruct (min_max f64 a b an bn m n) as [[u|] both] end.
    + destruct Hm as [-> Hu].
      assert (urange 64 u) by (destruct Hu as [->| ->]; eauto with fpu).
      apply (wp_set_f fmt rd u); eauto with fpu. lia.
    + subst both. fp_run.
Qed.

Lemma exec_cvt_ff_effect rd rs1 rs2 fmt :
  0 <= rd < 32 → 0 <= rs1 < 32 → wp False (exec_cvt_ff rd rs1 rs2 fmt) (fp_effect fmt rd c) c.
Proof. intros. unfold exec_cvt_ff. fp_run. Qed.

Lemma exec_cmp_effect raw rd rs1 rs2 fmt :
  0 <= rd < 32 → 0 <= rs1 < 32 → 0 <= rs2 < 32 →
  wp False (exec_cmp raw rd rs1 rs2 fmt) (fp_effect fmt rd c) c.
Proof.
  intros. unfold exec_cmp. fp_run; by apply urange_b2z.
Qed.

Lemma exec_class_mvx_effect raw rd rs1 fmt :
  0 <= rd < 32 → 0 <= rs1 < 32 →
  wp False (exec_class_mvx raw rd rs1 fmt) (fp_effect fmt rd c) c.
Proof.
  intros. unfold exec_class_mvx. fp_run.
  match goal with E : _ = Some _ |- _ => revert E end.
  split_ifs; intros [= <-]; eauto with fpu.
  - apply (urange_weaken 10); [lia|apply fclass_range].
  - apply (urange_weaken 10); [lia|apply fclass_range].
Qed.

Lemma exec_mvf_effect rd rs1 fmt :
  0 <= rd < 32 → wp False (exec_mvf rd rs1 fmt) (fp_effect fmt rd c) c.
Proof. intros. unfold exec_mvf. fp_run. Qed.

Lemma exec_cvt_fi_effect rd rs1 rs2 fmt :
  0 <= rd < 32 → 0 <= rs1 < 32 →
  wp False (exec_cvt_fi rd rs1 rs2 fmt) (fp_effect fmt rd c) c.
Proof.
  intros. unfold exec_cvt_fi. cbv zeta. fp_step.
  destruct (if fmt =? 0 then _ else _) as [u|]; [|fp_run].
  destruct (f64_to_i32_out u), (f64_to_u32_out u), (f64_to_i64_out u), (f64_to_u64_out u).
  destruct (f64_to_i32 u), (f64_to_u32 u), (f64_to_i64 u), (f64_to_u64 u).
  destruct (rs2 =? 0); [fp_run|]. destruct (rs2 =? 1); [fp_run|].
  destruct (rs2 =? 2); [fp_run|]. destruct (rs2 =? 3); fp_run.
Qed.

Lemma exec_cvt_if_effect rd rs1 rs2 fmt :
  0 <= rd < 32 → wp False (exec_cvt_if rd rs1 rs2 fmt) (fp_effect fmt rd c) c.
Proof.
  intros. unfold exec_cvt_if. cbv zeta. fp_step.
  destruct (if rs2 =? 0 then _ else _) as [u|] eqn:E; [|fp_run].
  assert (urange 64 u) by (revert E; split_ifs; intros [= <-]; eauto with fpu).
  fp_run.
Qed.

Lemma fpu_execute_effect raw :
  wp False (fpu_execute raw)
    (fp_effect (Z.land (Z.shiftr raw 25) 3) (Z.land (Z.shiftr raw 7) 0x1f) c) c.
Proof.
  unfold fpu_execute. cbv zeta.
  pose proof (Cpu.land31_range (Z.shiftr raw 7)). pose proof (Cpu.land31_range (Z.shiftr raw 15)).
  pose proof (Cpu.land31_range (Z.shiftr raw 20)). pose proof (Cpu.land31_range (Z.shiftr raw 27)).
  repeat case_match;
  first [ by apply exec_fma_effect | by apply exec_arith_effect | by apply exec_sqrt_effect
        | by apply exec_sgnj_effect | by apply exec_minmax_effect | by apply exec_cvt_ff_effect
        | by apply exec_cmp_effect | by apply exec_class_mvx_effect | by apply exec_mvf_effect
        | by apply exec_cvt_fi_effect | by apply exec_cvt_if_effect | apply wp_refused ].
Qed.
End Effects.

(** ** Float to integer *)

(** One, in units of the least subnormal double. *)
Definition d_unit : Z := 2 ^ (- least_exp f64).

Lemma d_unit_pos : 0 < d_unit.
Proof. done. Qed.

(** The ISA's rule for FCVT.int.float: round towards zero, saturate to
    [[lo, hi]] raising only NV, a NaN gives [hi], and NX reports a discarded
    fraction. *)
Definition fcvt_spec (lo hi v : Z) : Z * Z :=
  match fdecode f64 v with
  | S754_nan => (hi, FFLAG_NV)
  | S754_infinity s => (if s then lo else hi, FFLAG_NV)
  | u => let t := int_part f64 u in
         if hi <? t then (hi, FFLAG_NV)
         else if t <? lo then (lo, FFLAG_NV)
         else (t, flag_if (negb (t * d_unit =? scaled f64 u)) FFLAG_NX)
  end.

(** [libm::trunc] at one argument: the integer part, as documented. *)
Definition trunc_spec `{Libm} (v : Z) : Prop :=
  match fdecode f64 v with
  | S754_nan => True
  | S754_infinity s => fdecode f64 (libm_trunc v) = S754_infinity s
  | u => finite_float (fdecode f64 (libm_trunc v)) ∧
         scaled f64 (fdecode f64 (libm_trunc v)) = int_part f64 u * d_unit
  end.

(** The doubles the conversions compare against are the exact powers of two. *)
Definition exact_int (k : Z) : Prop :=
  finite_float (fdecode f64 (of_int f64 k)) ∧ scaled f64 (fdecode f64 (of_int f64 k)) = k * d_unit.

Lemma scaled_lt a b : (a * d_unit <? b * d_unit) = (a <? b).
Proof.
  apply Bool.eq_true_iff_eq. rewrite !Z.ltb_lt. symmetry. apply Z.mul_lt_mono_pos_r.
  apply d_unit_pos.
Qed.
Lemma scaled_le a b : (a * d_unit <=? b * d_unit) = (a <=? b).
Proof.
  apply Bool.eq_true_iff_eq. rewrite !Z.leb_le. symmetry. apply Z.mul_le_mono_pos_r.
  apply d_unit_pos.
Qed.

Lemma int_part_eq u : int_part f64 u = Z.quot (scaled f64 u) d_unit.
Proof. done. Qed.

Opaque of_int fdecode d_unit.

Section TruncFacts.
Context `{Libm} (v : Z).
Let r := libm_trunc v.
Let t := int_part f64 (fdecode f64 v).
Hypothesis Hv : finite_float (fdecode f64 v).
Hypothesis Ht : trunc_spec v.

Lemma trunc_finite : finite_float (fdecode f64 r) ∧ scaled f64 (fdecode f64 r) = t * d_unit.
Proof. unfold trunc_spec in Ht. unfold r, t. by destruct (fdecode f64 v). Qed.

Lemma trunc_fge k : exact_int k → fge f64 r (of_int f64 k) = (k <=? t).
Proof.
  intros [Hk Ek]. destruct trunc_finite as [Hr Er].
  unfold fge. destruct (compare_case f64 (of_int f64 k) r) as (_ & _ & ->); [assumption..|].
  rewrite Er, Ek. apply scaled_le.
Qed.

Lemma trunc_flt k : exact_int k → flt f64 r (of_int f64 k) = (t <? k).
Proof.
  intros [Hk Ek]. destruct trunc_finite as [Hr Er].
  destruct (compare_case f64 r (of_int f64 k)) as (_ & -> & _); [assumption..|].
  rewrite Er, Ek. apply scaled_lt.
Qed.

Lemma trunc_fle k : exact_int k → fle f64 r (of_int f64 k) = (t <=? k).
Proof.
  intros [Hk Ek]. destruct trunc_finite as [Hr Er].
  destruct (compare_case f64 r (of_int f64 k)) as (_ & _ & ->); [assumption..|].
  rewrite Er, Ek. apply scaled_le.
Qed.

Lemma trunc_feq : feq f64 r v = (t * d_unit =? scaled f64 (fdecode f64 v)).
Proof.
  destruct trunc_finite as [Hr Er].
  destruct (compare_case f64 r v) as (-> & _ & _); [assumption..|]. by rewrite Er.
Qed.

Lemma trunc_to_int lo hi : lo <= t <= hi → to_int f64 lo hi r = t.
Proof.
  intros Hb. destruct trunc_finite as [Hr Er]. unfold to_int.
  assert (E : int_part f64 (fdecode f64 r) = t).
  { rewrite int_part_eq, Er. apply Z.quot_mul. pose proof d_unit_pos. lia. }
  destruct (fdecode f64 r); try done; rewrite E; lia.
Qed.

Lemma fcvt_spec_finite lo hi :
  fcvt_spec lo hi v =
    if hi <? t then (hi, FFLAG_NV) else if t <? lo then (lo, FFLAG_NV)
    else (t, flag_if (negb (t * d_unit =? scaled f64 (fdecode f64 v))) FFLAG_NX).
Proof. unfold fcvt_spec, t. by destruct (fdecode f64 v). Qed.
End TruncFacts.

(** Infinities and NaNs do not reach the comparison of finite values. *)
Lemma float_cases v :
  is_nan f64 v = true ∧ fdecode f64 v = S754_nan
  ∨ is_nan f64 v = false ∧ (∃ s, fdecode f64 v = S754_infinity s)
  ∨ is_nan f64 v = false ∧ finite_float (fdecode f64 v).
Proof. unfold is_nan. destruct (fdecode f64 v); cbn; eauto. Qed.

Lemma infinity_compare r s k :
  fdecode f64 r = S754_infinity s → finite_float (fdecode f64 (of_int f64 k)) →
  fge f64 r (of_int f64 k) = negb s ∧ flt f64 r (of_int f64 k) = s
  ∧ fle f64 r (of_int f64 k) = s.
Proof.
  intros E Hk. unfold fge, fle, flt, fcompare. rewrite E.
  destruct (fdecode f64 (of_int f64 k)); try done; by destruct s.
Qed.

Ltac close_ifs :=
  repeat match goal with
  | |- context [if ?a <=? ?b then _ else _] => destruct (Z.leb_spec a b)
  | |- context [if ?a <? ?b then _ else _] => destruct (Z.ltb_spec a b)
  end; try lia; try done.

(** The four conversions differ in their bounds, in how they test the lower one
    and in the cast of the result. *)
Lemma fcvt_generic `{Libm} lo hi (cast : Z → Z) (low : bool) v :
  exact_int (hi + 1) →
  low = flt f64 (libm_trunc v) (of_int f64 lo) ∧ exact_int lo
  ∨ low = fle f64 (libm_trunc v) (of_int f64 (lo - 1)) ∧ exact_int (lo - 1) →
  trunc_spec v →
  let r := libm_trunc v in
  (if is_nan f64 v then (cast hi, FFLAG_NV)
   else if fge f64 r (of_int f64 (hi + 1)) then (cast hi, FFLAG_NV)
   else if low then (cast lo, FFLAG_NV)
   else (cast (to_int f64 lo hi r), flag_if (negb (feq f64 r v)) FFLAG_NX))
  = (cast (fcvt_spec lo hi v).1, (fcvt_spec lo hi v).2).
Proof.
  intros Hhi Hlow Ht. cbv zeta.
  destruct (float_cases v) as [[-> E]|[[-> [s E]]|[-> Hv]]].
  - unfold fcvt_spec. by rewrite E.
  - unfold fcvt_spec, trunc_spec in *. rewrite E in *.
    destruct (infinity_compare _ _ (hi + 1) Ht (proj1 Hhi)) as (-> & _).
    assert (low = s) as ->.
    { destruct Hlow as [[-> [Hl _]]|[-> [Hl _]]]; by apply (infinity_compare _ _ _ Ht Hl). }
    by destruct s.
  - assert (low = (int_part f64 (fdecode f64 v) <? lo)) as ->.
    { destruct Hlow as [[-> Hl]|[-> Hl]]; [by apply trunc_flt|].
      rewrite trunc_fle by done. apply Bool.eq_true_iff_eq. rewrite Z.leb_le, Z.ltb_lt. lia. }
    rewrite fcvt_spec_finite, trunc_fge, trunc_feq by done.
    destruct (Z.ltb_spec hi (int_part f64 (fdecode f64 v))); [close_ifs|].
    destruct (Z.ltb_spec (int_part f64 (fdecode f64 v)) lo); [close_ifs|].
    rewrite trunc_to_int by (try done; lia). close_ifs.
Qed.

(** ** Minimum and maximum *)

Lemma compare_sym F a b : fcompare F b a = CompOpp <$> fcompare F a b.
Proof.
  unfold fcompare. destruct (fdecode F a) as [sa|sa| |sa ma ea], (fdecode F b) as [sb|sb| |sb mb eb];
    cbn [fmap option_fmap option_map]; try done; try (by destruct sa, sb);
    try (by destruct sa); try (by destruct sb).
  all: f_equal; apply Z.compare_antisym.
Qed.

Lemma compare_refl F a : is_nan F a = false → fcompare F a a = Some Eq.
Proof.
  unfold is_nan, fcompare. destruct (fdecode F a) as [[]|[]| |]; try done.
  intros _. by rewrite Z.compare_refl.
Qed.

Lemma compare_some F a b :
  is_nan F a = false → is_nan F b = false → ∃ o, fcompare F a b = Some o.
Proof. unfold is_nan, fcompare. destruct (fdecode F a), (fdecode F b); try done; eauto. Qed.

(** ** Classification by bit masks *)

Lemma sign_test w b : 0 < w → urange w b → (Z.shiftr b (w - 1) =? 1) = Z.testbit b (w - 1).
Proof.
  intros Hw Hb. rewrite <- (bit_testbit b) by lia. unfold bit.
  assert (Hr : urange 1 (Z.shiftr b (w - 1))) by (apply (urange_shiftr 1 w); [lia..|done]).
  assert (Z.shiftr b (w - 1) = 0 ∨ Z.shiftr b (w - 1) = 1) as [-> | ->] by (unfold urange in Hr; lia).
  all: done.
Qed.

(** The class of a float, from its decoded value and the quiet bit. *)
Definition class_spec (F : fmt) (b : Z) : Z :=
  match fdecode F b with
  | S754_infinity s => if s then 2 ^ 0 else 2 ^ 7
  | S754_nan => if Z.testbit b (mant_bits F - 1) then 2 ^ 9 else 2 ^ 8
  | S754_zero s => if s then 2 ^ 3 else 2 ^ 4
  | S754_finite s m _ =>
      if Zpos m <? 2 ^ mant_bits F then (if s then 2 ^ 2 else 2 ^ 5)
      else (if s then 2 ^ 1 else 2 ^ 6)
  end.

Transparent fdecode of_int d_unit.

Section Class.
Context (F : fmt) (b : Z).
Hypothesis (HF : F = f32 ∨ F = f64).
Let e := Z.land (Z.shiftr b (mant_bits F)) (Z.ones (exp_bits F)).
Let m := Z.land b (Z.ones (mant_bits F)).

Lemma class_generic :
  fclass_bits (sign_bit F b) (e =? Z.ones (exp_bits F)) (e =? 0) (m =? 0)
    (Z.testbit b (mant_bits F - 1)) = class_spec F b.
Proof.
  assert (Hm : 0 <= m < 2 ^ mant_bits F).
  { unfold m. rewrite Z.land_ones by (destruct HF; subst F; done).
    apply Z.mod_pos_bound. by destruct HF; subst F. }
  unfold fclass_bits, class_spec, fdecode. fold e m.
  destruct (Z.eqb_spec e (Z.ones (exp_bits F))) as [He|He], (Z.eqb_spec m 0) as [Hm0|Hm0]; cbn [andb].
  1-2: by split_ifs.
  all: destruct (Z.eqb_spec e 0) as [He0|He0]; cbn [andb].
  - by split_ifs.
  - destruct (Z.ltb_spec (Zpos (Z.to_pos (m + 2 ^ mant_bits F))) (2 ^ mant_bits F)).
    { rewrite Z2Pos.id in * by lia. lia. }
    by split_ifs.
  - destruct (Z.ltb_spec (Zpos (Z.to_pos m)) (2 ^ mant_bits F)).
    2:{ rewrite Z2Pos.id in * by lia. lia. }
    by split_ifs.
  - destruct (Z.ltb_spec (Zpos (Z.to_pos (m + 2 ^ mant_bits F))) (2 ^ mant_bits F)).
    { rewrite Z2Pos.id in * by lia. lia. }
    by split_ifs.
Qed.
End Class.

(** The bounds the conversions use are exact doubles. *)
Lemma exact_bounds :
  exact_int (I64_MAX + 1) ∧ exact_int I64_MIN ∧ exact_int (U64_MAX + 1) ∧ exact_int (0 - 1)
  ∧ exact_int (I32_MAX + 1) ∧ exact_int I32_MIN ∧ exact_int (U32_MAX + 1).
Proof. by vm_compute. Qed.

(** The masks of [fclass_s], [fclass_d] and [is_snan_*] are the fields. *)
Lemma mask_exp_d b :
  Z.land b 0x7ff0000000000000 = Z.shiftl (Z.land (Z.shiftr b 52) (Z.ones 11)) 52.
Proof. rewrite <- mask_field by lia. done. Qed.
Lemma mask_exp_s b :
  Z.land b 0x7f800000 = Z.shiftl (Z.land (Z.shiftr b 23) (Z.ones 8)) 23.
Proof. rewrite <- mask_field by lia. done. Qed.

Lemma fclass_d_spec b : urange 64 b → fclass_d b = class_spec f64 b.
Proof.
  intros Hb. rewrite <- class_generic by auto. unfold fclass_d. rewrite mask_exp_d.
  change 0x7ff0000000000000 with (Z.shiftl (Z.ones 11) 52).
  replace 0 with (Z.shiftl 0 52) at 1 by done. rewrite !shiftl_eqb by lia.
  f_equal; [by apply (sign_test 64)|by apply (land_pow2_eqb b 51)].
Qed.

Lemma fclass_s_spec b : urange 32 b → fclass_s b = class_spec f32 b.
Proof.
  intros Hb. rewrite <- class_generic by auto. unfold fclass_s. rewrite mask_exp_s.
  change 0x7f800000 with (Z.shiftl (Z.ones 8) 23).
  replace 0 with (Z.shiftl 0 23) at 1 by done. rewrite !shiftl_eqb by lia.
  f_equal; [by apply (sign_test 32)|by apply (land_pow2_eqb b 22)].
Qed.

Lemma fp_effect_wf fmt rd c r c' :
  Cpu.wf c → 0 <= rd < 32 → fp_effect fmt rd c r c' → Cpu.wf c'.
Proof.
  intros Hc Hrd [|fl v|fl v]; [done|by apply Cpu.set_f_wf|by apply Cpu.set_reg_wf].
Qed.

(** * Properties *)

(** A [libm] for concrete runs: square roots and fused multiply-add through the
    Standard Library's specification, truncation through the integer part. *)
Definition ref_libm : Libm := {|
  libm_fma a b c := fadd f64 (fmul f64 a b) c;
  libm_fmaf a b c := fadd f32 (fmul f32 a b) c;
  libm_sqrt a := fencode f64 (SFsqrt 53 1024 (fdecode f64 a));
  libm_sqrtf a := fencode f32 (SFsqrt 24 128 (fdecode f32 a));
  libm_trunc a :=
    match fdecode f64 a with
    | S754_finite _ _ _ => of_int f64 (int_part f64 (fdecode f64 a))
    | _ => a
    end;
|}.

Lemma ref_libm_ok : @LibmOk ref_libm.
Proof.
  constructor; intros;
    [apply fencode64_range|apply fencode32_range|apply fencode64_range|apply fencode32_range].
Qed.

(** The FPU is total and its effect is confined.  From a well-formed hart
    and for every 32-bit word, [fpu::execute] returns without panicking and
    either refuses the encoding ([ok = false]) leaving the hart exactly as it
    was, or writes exactly one [f] register, flagged dirty and NaN-boxed when
    the destination format is single precision, or writes exactly one integer
    register, not flagged dirty.  The raised flags lie within NV, DZ, OF and NX,
    and the hart stays well-formed. *)
Theorem fpu_execute_frame (L : Libm) (LO : LibmOk) c raw :
  Cpu.wf c →
  ∃ r c', fpu_execute raw c = Some (r, c')
    ∧ fp_effect (Z.land (Z.shiftr raw 25) 3) (Z.land (Z.shiftr raw 7) 0x1f) c r c'
    ∧ Cpu.wf c'.
Proof.
  intros Hc. destruct (wp_total _ _ _ (fpu_execute_effect c Hc raw)) as (r & c' & E & He).
  exists r, c'. split; [done|]. split; [done|]. eapply fp_effect_wf; [done| |done].
  apply Cpu.land31_range.
Qed.

Lemma fpu_execute_frame_witness :
  ∃ r c', @fpu_execute ref_libm 0x00208153 (Cpu.new 0) = Some (r, c')
    ∧ fp_effect 0 2 (Cpu.new 0) r c' ∧ Cpu.wf c'.
Proof.
  apply (fpu_execute_frame ref_libm ref_libm_ok (Cpu.new 0) 0x00208153).
  apply Cpu.new_wf. vm_compute. split; [intros ?; discriminate|done].
Defined.

Opaque of_int fdecode.

(** Float-to-integer conversion saturates as the ISA prescribes.  Where
    [libm::trunc] returns the integer part of its argument, each of the four
    conversions returns the integer part of the double when it is in the
    destination's range (with NX exactly when a fraction was discarded), the
    nearest bound with NV when it is not, and the upper bound with NV for a
    NaN; 32-bit results are sign-extended into the register. *)
Theorem fcvt_saturates (L : Libm) v :
  trunc_spec v →
  let res lo hi := fcvt_spec lo hi v in
  f64_to_i64 v = (as_u64 (res I64_MIN I64_MAX).1, (res I64_MIN I64_MAX).2)
  ∧ f64_to_u64 v = ((res 0 U64_MAX).1, (res 0 U64_MAX).2)
  ∧ f64_to_i32 v = (as_u64 (res I32_MIN I32_MAX).1, (res I32_MIN I32_MAX).2)
  ∧ f64_to_u32 v = (as_u64 (as_i32 (res 0 U32_MAX).1), (res 0 U32_MAX).2).
Proof.
  intros Ht. cbv zeta. destruct exact_bounds as (H1 & H2 & H3 & H4 & H5 & H6 & H7).
  pose proof (fcvt_generic I64_MIN I64_MAX as_u64 _ v H1 (or_introl (conj eq_refl H2)) Ht) as E1.
  pose proof (fcvt_generic 0 U64_MAX (λ x, x) _ v H3 (or_intror (conj eq_refl H4)) Ht) as E2.
  pose proof (fcvt_generic I32_MIN I32_MAX as_u64 _ v H5 (or_introl (conj eq_refl H6)) Ht) as E3.
  pose proof (fcvt_generic 0 U32_MAX (λ x, as_u64 (as_i32 x)) _ v H7
                (or_intror (conj eq_refl H4)) Ht) as E4.
  split_and!; [exact E1|exact E2|exact E3|exact E4].
Qed.

Transparent of_int fdecode.

(** At -2.5: [-2] with NX to the signed types, [0] with NV to the unsigned. *)
Lemma fcvt_saturates_witness :
  @f64_to_i64 ref_libm 0xC004000000000000 = (0xFFFFFFFFFFFFFFFE, FFLAG_NX)
  ∧ @f64_to_u64 ref_libm 0xC004000000000000 = (0, FFLAG_NV)
  ∧ @f64_to_i32 ref_libm 0xC004000000000000 = (0xFFFFFFFFFFFFFFFE, FFLAG_NX)
  ∧ @f64_to_u32 ref_libm 0xC004000000000000 = (0, FFLAG_NV).
Proof.
  apply (fcvt_saturates ref_libm 0xC004000000000000).
  vm_compute. split; done.
Defined.

(** FCLASS classifies.  The mask tests of [fclass_s] and [fclass_d] compute
    the class of the value the bit pattern denotes: infinity, normal,
    subnormal or zero with its sign, or signalling and quiet NaN, one bit of
    the ten. *)
Theorem fclass_correct b :
  (urange 32 b → fclass_s b = class_spec f32 b) ∧ (urange 64 b → fclass_d b = class_spec f64 b).
Proof. split; [apply fclass_s_spec|apply fclass_d_spec]. Qed.

Lemma fclass_correct_witness :
  fclass_s 0x80000001 = 2 ^ 2 ∧ fclass_d 0x7ff0000000000001 = 2 ^ 8.
Proof.
  destruct (fclass_correct 0x80000001) as [Hs _].
  destruct (fclass_correct 0x7ff0000000000001) as [_ Hd].
  rewrite Hs by (by unfold urange). rewrite Hd by (by unfold urange). done.
Defined.

(** FMIN and FMAX.  With two numbers the result is one of the operands, not
    above (for max, not below) either, and among equal operands of different
    sign the minimum is the negative zero and the maximum the positive one;
    with exactly one NaN the result is the other operand, with two there is no
    numeric result. *)
Theorem min_max_correct F a b is_max :
  let '(v, both) := min_max F a b (is_nan F a) (is_nan F b) is_max (sign_bit F a) in
  match is_nan F a, is_nan F b with
  | true, true => v = None ∧ both = true
  | true, false => v = Some b ∧ both = false
  | false, true => v = Some a ∧ both = false
  | false, false => both = false ∧ ∃ w, v = Some w ∧ (w = a ∨ w = b)
      ∧ (if is_max : bool then fge F w a && fge F w b else fle F w a && fle F w b) = true
      ∧ (feq F a b = true →
         sign_bit F w = if is_max then sign_bit F a && sign_bit F b
                        else sign_bit F a || sign_bit F b)
  end.
Proof.
  unfold min_max. destruct (is_nan F a) eqn:Ha, (is_nan F b) eqn:Hb; try done.
  destruct (compare_some F a b Ha Hb) as [o E].
  pose proof (compare_sym F a b) as E'. rewrite E in E'. cbn in E'.
  pose proof (compare_refl F a Ha) as Ea. pose proof (compare_refl F b Hb) as Eb.
  unfold feq, flt, fge, fle. rewrite E.
  destruct o, is_max; cbn [negb Bool.eqb]; try (destruct (sign_bit F a) eqn:?); cbn [negb].
  all: split; [done|]; eexists; split; [done|]; rewrite ?E, ?E', ?Ea, ?Eb; cbn; auto.
  all: try (split; [auto|split; [done|intros ?; congruence]]).
Qed.
