(* ===== verification/Execute.v ===== *)
(** The execution engine ([riscv-core/src/execute.rs], [Cpu::execute_width]).

    [execute_width] is one match over the instruction enum; its arms are grouped
    here as the source's own comments group them, each group a function that
    answers [None] for an instruction of another group.  The state is the hart
    and the bus. *)

From S2P Require Import Prelude Bits Types Decode Encode Float Cpu Fpu.

Section Execute.
Context {B : Type} `{Bus B} `{Profile} `{Libm}.

Abbreviation E := (M (Cpu.t * B)).

Definition on_cpu {A} (m : M Cpu.t A) : E A := on_fst m.
Definition on_bus {A} (m : M B A) : E A := on_snd m.
Definition rr (i : Z) : E Z := on_cpu (Cpu.reg_read i).
Definition get_pc : E Z := on_cpu (get Cpu.pc).
Definition next (width : Z) : E Status := on_cpu (Cpu.advance width);; mret Running.
(** [self.write_reg(rd, v); self.pc = self.pc.wrapping_add(width as u64);] *)
Definition wb (rd v width : Z) : E Status := on_cpu (Cpu.write_reg rd v);; next width.
(** [self.pc = (self.pc as i64).wrapping_add(imm) as u64] *)
Definition jump_rel (imm : Z) : E Status :=
  p ← get_pc; on_cpu (Cpu.set_pc (as_u64 (as_i64 (as_i64 p + imm))));; mret Running.
(** [(self.read_reg(rs1) as i64).wrapping_add(imm) as u64] *)
Definition ea (rs1 imm : Z) : E Z :=
  a ← rr rs1; mret (as_u64 (as_i64 (as_i64 a + imm))).
Definition illegal : E Status := mret (StTrap (TException IllegalInstruction)).

Definition exec_upper (i : Instr) (width : Z) : option (E Status) :=
  match i with
  | Lui rd imm => Some (wb rd imm width)
  | Auipc rd imm => Some (p ← get_pc; wb rd (as_u64 (p + imm)) width)
  | Jal rd imm => Some (
      p ← get_pc; on_cpu (Cpu.write_reg rd (as_u64 (p + as_u64 width)));; jump_rel imm)
  | Jalr rd rs1 imm => Some (
      t ← ea rs1 imm;
      let target := Z.land t (unot 64 1) in
      p ← get_pc; on_cpu (Cpu.write_reg rd (as_u64 (p + as_u64 width)));;
      on_cpu (Cpu.set_pc target);; mret Running)
  | _ => None
  end.

Definition branch_if (c : Z → Z → bool) (rs1 rs2 imm width : Z) : E Status :=
  a ← rr rs1; b ← rr rs2; if c a b then jump_rel imm else next width.

Definition exec_branch (i : Instr) (width : Z) : option (E Status) :=
  match i with
  | Beq rs1 rs2 imm => Some (branch_if Z.eqb rs1 rs2 imm width)
  | Bne rs1 rs2 imm => Some (branch_if (λ a b, negb (a =? b)) rs1 rs2 imm width)
  | Blt rs1 rs2 imm => Some (branch_if (λ a b, as_i64 a <? as_i64 b) rs1 rs2 imm width)
  | Bge rs1 rs2 imm => Some (branch_if (λ a b, as_i64 a >=? as_i64 b) rs1 rs2 imm width)
  | Bltu rs1 rs2 imm => Some (branch_if (λ a b, a <? b) rs1 rs2 imm width)
  | Bgeu rs1 rs2 imm => Some (branch_if (λ a b, a >=? b) rs1 rs2 imm width)
  | _ => None
  end.

Definition exec_load (i : Instr) (width : Z) : option (E Status) :=
  match i with
  | Lb rd rs1 imm => Some (
      addr ← ea rs1 imm; v ← on_bus (read_u8 addr); wb rd (as_u64 (as_i8 v)) width)
  | Lh rd rs1 imm => Some (
      addr ← ea rs1 imm; v ← on_bus (read_u16 addr); wb rd (as_u64 (as_i16 v)) width)
  | Lw rd rs1 imm => Some (
      addr ← ea rs1 imm; v ← on_bus (read_u32 addr); wb rd (as_u64 (as_i32 v)) width)
  | Ld rd rs1 imm => Some (addr ← ea rs1 imm; v ← on_bus (read_u64 addr); wb rd v width)
  | Lbu rd rs1 imm => Some (addr ← ea rs1 imm; v ← on_bus (read_u8 addr); wb rd v width)
  | Lhu rd rs1 imm => Some (addr ← ea rs1 imm; v ← on_bus (read_u16 addr); wb rd v width)
  | Lwu rd rs1 imm => Some (addr ← ea rs1 imm; v ← on_bus (read_u32 addr); wb rd v width)
  | Flw rd rs1 imm => Some (
      addr ← ea rs1 imm; v ← on_bus (read_u32 addr);
      on_cpu (Cpu.set_f rd (Z.lor 0xFFFFFFFF00000000 v));;
      on_cpu (modify (λ c, c <| Cpu.fs_dirty := true |>));; next width)
  | Fld rd rs1 imm => Some (
      addr ← ea rs1 imm; v ← on_bus (read_u64 addr); on_cpu (Cpu.set_f rd v);;
      on_cpu (modify (λ c, c <| Cpu.fs_dirty := true |>));; next width)
  | _ => None
  end.

Definition exec_store (i : Instr) (width : Z) : option (E Status) :=
  match i with
  | Sb rs1 rs2 imm => Some (
      addr ← ea rs1 imm; v ← rr rs2; on_bus (write_u8 addr (as_u8 v));; next width)
  | Sh rs1 rs2 imm => Some (
      addr ← ea rs1 imm; v ← rr rs2; on_bus (write_u16 addr (as_u16 v));; next width)
  | Sw rs1 rs2 imm => Some (
      addr ← ea rs1 imm; v ← rr rs2; on_bus (write_u32 addr (as_u32 v));; next width)
  | Sd rs1 rs2 imm => Some (
      addr ← ea rs1 imm; v ← rr rs2; on_bus (write_u64 addr v);; next width)
  | Fsw rs1 rs2 imm => Some (
      addr ← ea rs1 imm; v ← on_cpu (Cpu.index_f rs2);
      on_bus (write_u32 addr (as_u32 v));; next width)
  | Fsd rs1 rs2 imm => Some (
      addr ← ea rs1 imm; v ← on_cpu (Cpu.index_f rs2);
      on_bus (write_u64 addr v);; next width)
  | _ => None
  end.

Definition exec_alu_imm (i : Instr) (width : Z) : option (E Status) :=
  match i with
  | Addi rd rs1 imm => Some (a ← rr rs1; wb rd (as_u64 (as_i64 (as_i64 a + imm))) width)
  | Slti rd rs1 imm => Some (a ← rr rs1; wb rd (if as_i64 a <? imm then 1 else 0) width)
  | Sltiu rd rs1 imm => Some (a ← rr rs1; wb rd (if a <? as_u64 imm then 1 else 0) width)
  | Xori rd rs1 imm => Some (a ← rr rs1; wb rd (Z.lxor a (as_u64 imm)) width)
  | Ori rd rs1 imm => Some (a ← rr rs1; wb rd (Z.lor a (as_u64 imm)) width)
  | Andi rd rs1 imm => Some (a ← rr rs1; wb rd (Z.land a (as_u64 imm)) width)
  | Slli rd rs1 shamt => Some (a ← rr rs1; v ← lift (shl_u 64 a shamt); wb rd v width)
  | Srli rd rs1 shamt => Some (a ← rr rs1; v ← lift (shr 64 a shamt); wb rd v width)
  | Srai rd rs1 shamt => Some (
      a ← rr rs1; v ← lift (shr 64 (as_i64 a) shamt); wb rd (as_u64 v) width)
  | _ => None
  end.

Definition exec_alu (i : Instr) (width : Z) : option (E Status) :=
  match i with
  | Add rd rs1 rs2 => Some (
      a ← rr rs1; b ← rr rs2; wb rd (as_u64 (as_i64 (as_i64 a + as_i64 b))) width)
  | Sub rd rs1 rs2 => Some (
      a ← rr rs1; b ← rr rs2; wb rd (as_u64 (as_i64 (as_i64 a - as_i64 b))) width)
  | Sll rd rs1 rs2 => Some (
      b ← rr rs2; let sh := Z.land b 0x3F in
      a ← rr rs1; v ← lift (shl_u 64 a sh); wb rd v width)
  | Slt rd rs1 rs2 => Some (
      a ← rr rs1; b ← rr rs2; wb rd (if as_i64 a <? as_i64 b then 1 else 0) width)
  | Sltu rd rs1 rs2 => Some (
      a ← rr rs1; b ← rr rs2; wb rd (if a <? b then 1 else 0) width)
  | Xor rd rs1 rs2 => Some (a ← rr rs1; b ← rr rs2; wb rd (Z.lxor a b) width)
  | Srl rd rs1 rs2 => Some (
      b ← rr rs2; let sh := Z.land b 0x3F in
      a ← rr rs1; v ← lift (shr 64 a sh); wb rd v width)
  | Sra rd rs1 rs2 => Some (
      b ← rr rs2; let sh := Z.land b 0x3F in
      a ← rr rs1; v ← lift (shr 64 (as_i64 a) sh); wb rd (as_u64 v) width)
  | Or rd rs1 rs2 => Some (a ← rr rs1; b ← rr rs2; wb rd (Z.lor a b) width)
  | And rd rs1 rs2 => Some (a ← rr rs1; b ← rr rs2; wb rd (Z.land a b) width)
  | _ => None
  end.

Definition exec_alu_w (i : Instr) (width : Z) : option (E Status) :=
  match i with
  | Addiw rd rs1 imm => Some (
      a ← rr rs1; wb rd (as_u64 (as_i32 (as_i32 a + as_i32 imm))) width)
  | Slliw rd rs1 shamt => Some (
      a ← rr rs1; v ← lift (shl_i 32 (as_i32 a) shamt); wb rd (as_u64 v) width)
  | Srliw rd rs1 shamt => Some (
      a ← rr rs1; v ← lift (shr 32 (as_u32 a) shamt); wb rd (as_u64 (as_i32 v)) width)
  | Sraiw rd rs1 shamt => Some (
      a ← rr rs1; v ← lift (shr 32 (as_i32 a) shamt); wb rd (as_u64 v) width)
  | Addw rd rs1 rs2 => Some (
      a ← rr rs1; b ← rr rs2; wb rd (as_u64 (as_i32 (as_i32 a + as_i32 b))) width)
  | Subw rd rs1 rs2 => Some (
      a ← rr rs1; b ← rr rs2; wb rd (as_u64 (as_i32 (as_i32 a - as_i32 b))) width)
  | Sllw rd rs1 rs2 => Some (
      b ← rr rs2; let sh := Z.land b 0x1F in
      a ← rr rs1; v ← lift (shl_u 32 (as_u32 a) sh); wb rd (as_u64 (as_i32 v)) width)
  | Srlw rd rs1 rs2 => Some (
      b ← rr rs2; let sh := Z.land b 0x1F in
      a ← rr rs1; v ← lift (shr 32 (as_u32 a) sh); wb rd (as_u64 (as_i32 v)) width)
  | Sraw rd rs1 rs2 => Some (
      b ← rr rs2; let sh := Z.land b 0x1F in
      a ← rr rs1; v ← lift (shr 32 (as_i32 a) sh); wb rd (as_u64 v) width)
  | _ => None
  end.

Definition exec_muldiv (i : Instr) (width : Z) : option (E Status) :=
  match i with
  | Mul rd rs1 rs2 => Some (a ← rr rs1; b ← rr rs2; wb rd (as_u64 (a * b)) width)
  | Mulh rd rs1 rs2 => Some (
      a ← rr rs1; b ← rr rs2;
      wb rd (as_u64 (Z.shiftr (as_i64 a * as_i64 b) 64)) width)
  | Mulhsu rd rs1 rs2 => Some (
      a ← rr rs1; b ← rr rs2;
      p ← lift (mul_u 128 (as_u128 (as_i64 a)) b);
      wb rd (as_u64 (Z.shiftr p 64)) width)
  | Mulhu rd rs1 rs2 => Some (
      a ← rr rs1; b ← rr rs2;
      p ← lift (mul_u 128 a b);
      wb rd (as_u64 (Z.shiftr p 64)) width)
  | Div rd rs1 rs2 => Some (
      a ← rr rs1; b ← rr rs2;
      let a := as_i64 a in let b := as_i64 b in
      wb rd (if b =? 0 then U64_MAX
             else if (a =? I64_MIN) && (b =? -1) then as_u64 a
             else as_u64 (Z.quot a b)) width)
  | Divu rd rs1 rs2 => Some (
      a ← rr rs1; b ← rr rs2; wb rd (if b =? 0 then U64_MAX else a / b) width)
  | Rem rd rs1 rs2 => Some (
      a ← rr rs1; b ← rr rs2;
      let a := as_i64 a in let b := as_i64 b in
      wb rd (if b =? 0 then as_u64 a
             else if (a =? I64_MIN) && (b =? -1) then 0
             else as_u64 (Z.rem a b)) width)
  | Remu rd rs1 rs2 => Some (
      a ← rr rs1; b ← rr rs2; wb rd (if b =? 0 then a else a mod b) width)
  | _ => None
  end.

Definition exec_muldiv_w (i : Instr) (width : Z) : option (E Status) :=
  match i with
  | Mulw rd rs1 rs2 => Some (
      a ← rr rs1; b ← rr rs2; wb rd (as_u64 (as_i32 (as_i32 a * as_i32 b))) width)
  | Divw rd rs1 rs2 => Some (
      a ← rr rs1; b ← rr rs2;
      let a := as_i32 a in let b := as_i32 b in
      wb rd (if b =? 0 then U64_MAX
             else if (a =? I32_MIN) && (b =? -1) then as_u64 a
             else as_u64 (Z.quot a b)) width)
  | Divuw rd rs1 rs2 => Some (
      a ← rr rs1; b ← rr rs2;
      let a := as_u32 a in let b := as_u32 b in
      wb rd (if b =? 0 then U64_MAX else as_u64 (as_i32 (a / b))) width)
  | Remw rd rs1 rs2 => Some (
      a ← rr rs1; b ← rr rs2;
      let a := as_i32 a in let b := as_i32 b in
      wb rd (if b =? 0 then as_u64 a
             else if (a =? I32_MIN) && (b =? -1) then 0
             else as_u64 (Z.rem a b)) width)
  | Remuw rd rs1 rs2 => Some (
      a ← rr rs1; b ← rr rs2;
      let a := as_u32 a in let b := as_u32 b in
      wb rd (if b =? 0 then as_u64 (as_i32 a) else as_u64 (as_i32 (a mod b))) width)
  | _ => None
  end.

(** A 32-bit read-modify-write: [new] maps the old memory word and [rs2] to the
    word written; [rd] receives the sign-extended old word. *)
Definition amo_w (new : Z → Z → Z) (rd rs1 rs2 width : Z) : E Status :=
  addr ← rr rs1; old ← on_bus (read_u32 addr);
  b ← rr rs2; on_bus (write_u32 addr (new old b));;
  wb rd (as_u64 (as_i32 old)) width.

Definition exec_amo_w (i : Instr) (width : Z) : option (E Status) :=
  match i with
  | Lrw rd rs1 _ _ => Some (
      addr ← rr rs1; v ← on_bus (read_u32 addr); wb rd (as_u64 (as_i32 v)) width)
  | Scw rd rs1 rs2 _ _ => Some (
      addr ← rr rs1; v ← rr rs2; on_bus (write_u32 addr (as_u32 v));; wb rd 0 width)
  | Amoswapw rd rs1 rs2 _ _ => Some (amo_w (λ _ b, as_u32 b) rd rs1 rs2 width)
  | Amoaddw rd rs1 rs2 _ _ => Some (
      amo_w (λ old b, as_u32 (as_i32 (as_i32 old + as_i32 b))) rd rs1 rs2 width)
  | Amoxorw rd rs1 rs2 _ _ => Some (amo_w (λ old b, Z.lxor old (as_u32 b)) rd rs1 rs2 width)
  | Amoandw rd rs1 rs2 _ _ => Some (amo_w (λ old b, Z.land old (as_u32 b)) rd rs1 rs2 width)
  | Amoorw rd rs1 rs2 _ _ => Some (amo_w (λ old b, Z.lor old (as_u32 b)) rd rs1 rs2 width)
  | Amominw rd rs1 rs2 _ _ => Some (
      amo_w (λ old b, as_u32 (if as_i32 old <? as_i32 b then as_i32 old else as_i32 b))
        rd rs1 rs2 width)
  | Amomaxw rd rs1 rs2 _ _ => Some (
      amo_w (λ old b, as_u32 (if as_i32 old >? as_i32 b then as_i32 old else as_i32 b))
        rd rs1 rs2 width)
  | Amominuw rd rs1 rs2 _ _ => Some (
      amo_w (λ old b, if old <? as_u32 b then old else as_u32 b) rd rs1 rs2 width)
  | Amomaxuw rd rs1 rs2 _ _ => Some (
      amo_w (λ old b, if old >? as_u32 b then old else as_u32 b) rd rs1 rs2 width)
  | _ => None
  end.

(** The 64-bit form: [rd] receives the old word, through a signed reading in the
    arms that compute on [i64]. *)
Definition amo_d (new : Z → Z → Z) (ret : Z → Z) (rd rs1 rs2 width : Z) : E Status :=
  addr ← rr rs1; old ← on_bus (read_u64 addr);
  b ← rr rs2; on_bus (write_u64 addr (new old b));;
  wb rd (ret old) width.

Definition exec_amo_d (i : Instr) (width : Z) : option (E Status) :=
  let via_i64 old := as_u64 (as_i64 old) in
  match i with
  | Lrd rd rs1 _ _ => Some (addr ← rr rs1; v ← on_bus (read_u64 addr); wb rd v width)
  | Scd rd rs1 rs2 _ _ => Some (
      addr ← rr rs1; v ← rr rs2; on_bus (write_u64 addr v);; wb rd 0 width)
  | Amoswapd rd rs1 rs2 _ _ => Some (amo_d (λ _ b, b) id rd rs1 rs2 width)
  | Amoaddd rd rs1 rs2 _ _ => Some (
      amo_d (λ old b, as_u64 (as_i64 (as_i64 old + as_i64 b))) via_i64 rd rs1 rs2 width)
  | Amoxord rd rs1 rs2 _ _ => Some (amo_d Z.lxor id rd rs1 rs2 width)
  | Amoandd rd rs1 rs2 _ _ => Some (amo_d Z.land id rd rs1 rs2 width)
  | Amoord rd rs1 rs2 _ _ => Some (amo_d Z.lor id rd rs1 rs2 width)
  | Amomind rd rs1 rs2 _ _ => Some (
      amo_d (λ old b, as_u64 (if as_i64 old <? as_i64 b then as_i64 old else as_i64 b))
        via_i64 rd rs1 rs2 width)
  | Amomaxd rd rs1 rs2 _ _ => Some (
      amo_d (λ old b, as_u64 (if as_i64 old >? as_i64 b then as_i64 old else as_i64 b))
        via_i64 rd rs1 rs2 width)
  | Amominud rd rs1 rs2 _ _ => Some (
      amo_d (λ old b, if old <? b then old else b) id rd rs1 rs2 width)
  | Amomaxud rd rs1 rs2 _ _ => Some (
      amo_d (λ old b, if old >? b then old else b) id rd rs1 rs2 width)
  | _ => None
  end.

Definition exec_system (i : Instr) (width : Z) : option (E Status) :=
  match i with
  | Ecall => Some (mret (StTrap (TException EnvironmentCallFromM)))
  | Ebreak => Some (mret (StTrap (TException Breakpoint)))
  | Fp raw => Some (
      r ← on_cpu (fpu_execute raw);
      if negb (ok r) then illegal
      else
        on_cpu (modify (λ c, c <| Cpu.fcsr := Z.lor (Cpu.fcsr c) (flags r) |>));;
        on_cpu (modify (λ c, c <| Cpu.fs_dirty := Cpu.fs_dirty c || dirty r |>));;
        next width)
  | Unimp => Some illegal
  | Fence _ _ | FenceI => Some (next width)
  | Mret | Sret | Uret => Some illegal
  | Wfi => Some (mret StWfi)
  | SfenceVma _ _ => Some (next width)
  | Csrrw _ _ _ | Csrrs _ _ _ | Csrrc _ _ _ | Csrrwi _ _ _ | Csrrsi _ _ _ | Csrrci _ _ _ =>
      Some illegal
  | _ => None
  end.

Definition exec_groups : list (Instr → Z → option (E Status)) :=
  [exec_upper; exec_branch; exec_load; exec_store; exec_alu_imm; exec_alu; exec_alu_w;
   exec_muldiv; exec_muldiv_w; exec_amo_w; exec_amo_d; exec_system].

Fixpoint dispatch (gs : list (Instr → Z → option (E Status))) (i : Instr) (width : Z)
  : E Status :=
  match gs with
  | [] => panic
  | g :: gs => match g i width with Some m => m | None => dispatch gs i width end
  end.

Definition execute_width (i : Instr) (width : Z) : E Status := dispatch exec_groups i width.
Definition execute (i : Instr) : E Status := execute_width i 4.
End Execute.

(** * Running the combinators *)

(** The hart after [wb rd v width]. *)
Definition retire (c : Cpu.t) (width : Z) : Cpu.t := c <| Cpu.pc := as_u64 (Cpu.pc c + as_u64 width) |>.
Definition write_back (c : Cpu.t) (rd v width : Z) : Cpu.t := retire (Cpu.set_reg c rd v) width.

Section Rules.
Context {B : Type} `{Bus B} `{Profile} `{Libm}.
Implicit Types (c : Cpu.t) (b : B).

Lemma rr_run {A} r (k : Z → M (Cpu.t * B) A) c b :
  (rr r ≫= k) (c, b) = k (Cpu.read_reg c r) (c, b).
Proof. done. Qed.

Lemma get_pc_run {A} (k : Z → M (Cpu.t * B) A) c b :
  (get_pc ≫= k) (c, b) = k (Cpu.pc c) (c, b).
Proof. done. Qed.

Lemma ea_run {A} r imm (k : Z → M (Cpu.t * B) A) c b :
  (ea r imm ≫= k) (c, b) = k (as_u64 (as_i64 (as_i64 (Cpu.read_reg c r) + imm))) (c, b).
Proof. done. Qed.

Lemma lift_run {A X} (o : option X) x (k : X → M (Cpu.t * B) A) c b :
  o = Some x → (lift o ≫= k) (c, b) = k x (c, b).
Proof. by intros ->. Qed.

Lemma wb_run rd v width c b :
  reg rd → wb rd v width (c, b) = Some (Running, (write_back c rd v width, b)).
Proof.
  intros Hr. unfold wb, on_cpu, on_fst, mbind, M_bind.
  rewrite Cpu.write_reg_eq; [done|]. unfold reg, urange in Hr. lia.
Qed.

Lemma write_x_run {A} rd v (k : M (Cpu.t * B) A) c b :
  reg rd → (on_cpu (Cpu.write_reg rd v);; k) (c, b) = k (Cpu.set_reg c rd v, b).
Proof.
  intros Hr. unfold on_cpu, on_fst, mbind at 1, M_bind.
  rewrite Cpu.write_reg_eq; [done|]. unfold reg, urange in Hr. lia.
Qed.

Lemma retire_wf c width : Cpu.wf c → Cpu.wf (retire c width).
Proof. intros. apply Cpu.set_pc_wf; [done|]. apply wrap_range. lia. Qed.

Lemma write_back_wf c rd v width :
  Cpu.wf c → reg rd → urange 64 v → Cpu.wf (write_back c rd v width).
Proof. intros. apply retire_wf, Cpu.set_reg_wf; [done|by unfold reg, urange in *; lia|done]. Qed.
End Rules.

(** * The invariant *)

Section Invariant.
Context {B : Type} {BU : Bus B} {PR : Profile} {L : Libm} (P : Prop).
Context {BO : BusOk P B} {LO : LibmOk}.
Implicit Types (c : Cpu.t) (b : B).

Definition good : Status → Cpu.t * B → Prop := λ _ s, Cpu.wf s.1 ∧ bus_inv s.2.

Section State.
Context (c : Cpu.t) (b : B) (Hc : Cpu.wf c) (Hb : bus_inv b).

Lemma wp_rr {A} r (k : Z → M (Cpu.t * B) A) Q :
  (∀ v, v = Cpu.read_reg c r → urange 64 v → wp P (k v) Q (c, b)) → wp P (rr r ≫= k) Q (c, b).
Proof. intros Hk. unfold wp. rewrite rr_run. apply Hk; [done|by apply Cpu.read_reg_range]. Qed.

Lemma wp_pc {A} (k : Z → M (Cpu.t * B) A) Q :
  (∀ v, urange 64 v → wp P (k v) Q (c, b)) → wp P (get_pc ≫= k) Q (c, b).
Proof. intros Hk. unfold wp. rewrite get_pc_run. by apply Hk, Cpu.wf_pc. Qed.

Lemma wp_ea {A} r imm (k : Z → M (Cpu.t * B) A) Q :
  (∀ v, urange 64 v → wp P (k v) Q (c, b)) → wp P (ea r imm ≫= k) Q (c, b).
Proof. intros Hk. unfold wp. rewrite ea_run. apply Hk, wrap_range. lia. Qed.

Lemma wp_lift_in {A X} (o : option X) (k : X → M (Cpu.t * B) A) Q :
  match o with Some v => wp P (k v) Q (c, b) | None => P end →
  wp P (lift o ≫= k) Q (c, b).
Proof. intros Hk. apply wp_bind, wp_lift. done. Qed.

Lemma wp_wb rd v width : reg rd → urange 64 v → wp P (wb rd v width) good (c, b).
Proof.
  intros Hr Hv. unfold wp. rewrite wb_run by done. split; [by apply write_back_wf|done].
Qed.

Lemma wp_next width : wp P (next width) good (c, b).
Proof. split; [by apply retire_wf|done]. Qed.

Lemma wp_jump imm : wp P (jump_rel imm) good (c, b).
Proof. split; [|done]. apply Cpu.set_pc_wf; [done|]. apply wrap_range. lia. Qed.

Lemma wp_status st : wp P (mret st) good (c, b).
Proof. by split. Qed.
End State.

Lemma wp_write_x {A} rd v (k : M (Cpu.t * B) A) Q c b :
  Cpu.wf c → reg rd → urange 64 v →
  (∀ c', Cpu.wf c' → wp P k Q (c', b)) →
  wp P (on_cpu (Cpu.write_reg rd v);; k) Q (c, b).
Proof.
  intros Hc Hr Hv Hk. unfold wp. rewrite write_x_run by done. apply Hk.
  apply Cpu.set_reg_wf; [done|by unfold reg, urange in *; lia|done].
Qed.

Lemma wp_set_f_in {A} i v (k : M (Cpu.t * B) A) Q c b :
  Cpu.wf c → reg i → urange 64 v →
  (∀ c', Cpu.wf c' → wp P k Q (c', b)) →
  wp P (on_cpu (Cpu.set_f i v);; k) Q (c, b).
Proof.
  intros Hc Hr Hv Hk. apply wp_bind, wp_on_fst. unfold Cpu.set_f.
  destruct (Z.ltb_spec i 32); [|unfold reg, urange in Hr; lia].
  apply wp_modify, Hk. by apply Cpu.set_f_wf.
Qed.

Lemma wp_set_pc_in {A} v (k : M (Cpu.t * B) A) Q c b :
  Cpu.wf c → urange 64 v → (∀ c', Cpu.wf c' → wp P k Q (c', b)) →
  wp P (on_cpu (Cpu.set_pc v);; k) Q (c, b).
Proof. intros Hc Hv Hk. apply wp_bind, wp_on_fst, wp_modify, Hk. by apply Cpu.set_pc_wf. Qed.

Lemma wp_set_dirty {A} (k : M (Cpu.t * B) A) Q c b :
  Cpu.wf c → (∀ c', Cpu.wf c' → wp P k Q (c', b)) →
  wp P (on_cpu (modify (λ c, c <| Cpu.fs_dirty := true |>));; k) Q (c, b).
Proof. intros Hc Hk. apply wp_bind, wp_on_fst, wp_modify, Hk. by apply Cpu.set_fs_dirty_wf. Qed.

Lemma wp_read_f {A} i (k : Z → M (Cpu.t * B) A) Q c b :
  Cpu.wf c → reg i → (∀ v, urange 64 v → wp P (k v) Q (c, b)) →
  wp P (on_cpu (Cpu.index_f i) ≫= k) Q (c, b).
Proof.
  intros Hc Hr Hk. apply wp_bind, wp_on_fst. unfold Cpu.index_f.
  unfold reg, urange in Hr. destruct (Z.ltb_spec i 32); [|lia].
  apply wp_get, Hk. apply Cpu.lookup_total_range; [by apply Cpu.wf_f|].
  rewrite Cpu.wf_f_len by done. lia.
Qed.

Lemma wp_bus_read {A} (m : M B Z) w (k : Z → M (Cpu.t * B) A) Q c b :
  wp P m (λ v b', urange w v ∧ bus_inv b') b →
  (∀ v b', urange w v → bus_inv b' → wp P (k v) Q (c, b')) →
  wp P (on_bus m ≫= k) Q (c, b).
Proof.
  intros Hm Hk. apply wp_bind, wp_on_snd. eapply wp_mono; [exact Hm|].
  intros v b' [Hv Hb']. by apply Hk.
Qed.

Lemma wp_bus_write {A} (m : M B unit) (k : M (Cpu.t * B) A) Q c b :
  wp P m (λ _ b', bus_inv b') b →
  (∀ b', bus_inv b' → wp P k Q (c, b')) →
  wp P (on_bus m;; k) Q (c, b).
Proof.
  intros Hm Hk. apply wp_bind, wp_on_snd. eapply wp_mono; [exact Hm|]. intros [] b' Hb. by apply Hk.
Qed.
End Invariant.

(** One step of a run against the interface: bind a register, a memory word or
    an address, or finish. *)
Ltac run_step :=
  lazymatch goal with
  | |- wp _ (rr _ ≫= _) _ _ => apply wp_rr; [assumption|intros ? ? ?]
  | |- wp _ (get_pc ≫= _) _ _ => apply wp_pc; [assumption|intros ? ?]
  | |- wp _ (ea _ _ ≫= _) _ _ => apply wp_ea; intros ? ?
  | |- wp _ (wb _ _ _) _ _ => apply wp_wb; [assumption..| |]
  | |- wp _ (next _) _ _ => apply wp_next; assumption
  | |- wp _ (jump_rel _) _ _ => apply wp_jump; assumption
  | |- wp _ (mret _) _ _ => apply wp_status; assumption
  | |- wp _ illegal _ _ => apply wp_status; assumption
  | |- wp _ (on_bus (read_u8 _) ≫= _) _ _ =>
      eapply wp_bus_read; [apply read_u8_ok; assumption|intros ? ? ? ?]
  | |- wp _ (on_bus (read_u16 _) ≫= _) _ _ =>
      eapply wp_bus_read; [apply read_u16_ok; assumption|intros ? ? ? ?]
  | |- wp _ (on_bus (read_u32 _) ≫= _) _ _ =>
      eapply wp_bus_read; [apply read_u32_ok; assumption|intros ? ? ? ?]
  | |- wp _ (on_bus (read_u64 _) ≫= _) _ _ =>
      eapply wp_bus_read; [apply read_u64_ok; assumption|intros ? ? ? ?]
  | |- wp _ (on_bus (write_u8 _ _) ≫= _) _ _ =>
      eapply wp_bus_write; [apply write_u8_ok; [assumption| |assumption]|intros ? ?]
  | |- wp _ (on_bus (write_u16 _ _) ≫= _) _ _ =>
      eapply wp_bus_write; [apply write_u16_ok; [assumption| |assumption]|intros ? ?]
  | |- wp _ (on_bus (write_u32 _ _) ≫= _) _ _ =>
      eapply wp_bus_write; [apply write_u32_ok; [assumption| |assumption]|intros ? ?]
  | |- wp _ (on_bus (write_u64 _ _) ≫= _) _ _ =>
      eapply wp_bus_write; [apply write_u64_ok; [assumption| |assumption]|intros ? ?]
  | |- wp _ (on_cpu (Cpu.write_reg _ _) ≫= _) _ _ =>
      apply wp_write_x; [assumption..| |intros ? ?]
  | |- wp _ (on_cpu (Cpu.set_pc _) ≫= _) _ _ =>
      apply wp_set_pc_in; [assumption| |intros ? ?]
  | |- wp _ (on_cpu (Cpu.set_f _ _) ≫= _) _ _ =>
      apply wp_set_f_in; [assumption..| |intros ? ?]
  | |- wp _ (on_cpu (Cpu.index_f _) ≫= _) _ _ =>
      apply wp_read_f; [assumption..|intros ? ?]
  | |- wp _ (on_cpu (modify _) ≫= _) _ _ =>
      apply wp_set_dirty; [assumption|intros ? ?]
  | |- wp _ (let x := _ in _) _ _ => cbv zeta
  | |- wp _ (if ?x then _ else _) _ _ => destruct x
  end.

(** Ranges of the values written back. *)
Lemma urange_lxor w a b : 0 <= w → urange w a → urange w b → urange w (Z.lxor a b).
Proof.
  intros Hw Ha Hb. apply urange_bits; [done| |].
  - apply Z.lxor_nonneg. unfold urange in *. lia.
  - intros i Hi. by rewrite Z.lxor_spec, (urange_testbit w a i), (urange_testbit w b i).
Qed.

Lemma urange_small w n : 0 < w → n = 0 ∨ n = 1 → urange w n.
Proof. intros Hw Hn. unfold urange. pose proof (Z.pow_le_mono_r 2 1 w). lia. Qed.

Lemma urange_div w a b : urange w a → urange w b → urange w (a / b).
Proof.
  unfold urange. intros Ha Hb. destruct (Z.eq_dec b 0) as [->|].
  { rewrite Z.div_0_r. lia. }
  split; [apply Z.div_pos; lia|]. apply Z.div_lt_upper_bound; nia.
Qed.

Lemma urange_mod w a b : urange w a → urange w b → urange w (a mod b).
Proof.
  unfold urange. intros Ha Hb. destruct (Z.eq_dec b 0) as [->|].
  { rewrite Z.mod_0_r. lia. }
  pose proof (Z.mod_pos_bound a b). lia.
Qed.

Lemma urange_U64_MAX : urange 64 U64_MAX.
Proof. done. Qed.

#[global] Hint Resolve urange_lxor urange_land_l urange_div urange_mod urange_U64_MAX : ints.

Ltac value_range :=
  first
    [ assumption
    | solve [eauto 6 with ints]
    | solve [apply urange_small; [lia|]; split_ifs; auto]
    | solve [split_ifs; eauto 6 with ints] ].

Section Groups.
Context {B : Type} {BU : Bus B} {PR : Profile} {L : Libm} (P : Prop).
Context {BO : BusOk P B} {LO : LibmOk}.
Context (c : Cpu.t) (b : B) (Hc : Cpu.wf c) (Hb : bus_inv b) (width : Z).

Ltac solve_group :=
  intros i m Hwf Hg; destruct i; try discriminate; injection Hg as <-;
  cbn [instr_wf] in Hwf; destruct_and?; unfold branch_if, amo_w, amo_d;
  repeat run_step; value_range.

Lemma exec_upper_good i m : instr_wf i → exec_upper i width = Some m → wp P m (good P) (c, b).
Proof. revert i m. solve_group. Qed.

Lemma exec_branch_good i m : instr_wf i → exec_branch i width = Some m → wp P m (good P) (c, b).
Proof. revert i m. solve_group. Qed.

Lemma exec_load_good i m : instr_wf i → exec_load i width = Some m → wp P m (good P) (c, b).
Proof. revert i m. solve_group. Qed.

Lemma exec_store_good i m : instr_wf i → exec_store i width = Some m → wp P m (good P) (c, b).
Proof. revert i m. solve_group. Qed.

Lemma exec_amo_w_good i m : instr_wf i → exec_amo_w i width = Some m → wp P m (good P) (c, b).
Proof. revert i m. solve_group. Qed.

Lemma exec_amo_d_good i m : instr_wf i → exec_amo_d i width = Some m → wp P m (good P) (c, b).
Proof. revert i m. solve_group. Qed.

Lemma exec_muldiv_w_good i m : instr_wf i → exec_muldiv_w i width = Some m → wp P m (good P) (c, b).
Proof. revert i m. solve_group. Qed.

(** A shift by an amount below the width does not panic. *)
Lemma shl_u_small w a s : 0 <= s < w → shl_u w a s = Some (wrap w (Z.shiftl a s)).
Proof.
  intros. unfold shl_u, shamt_of. destruct (Z.leb_spec 0 s); [|lia].
  by destruct (Z.ltb_spec s w); [|lia].
Qed.
Lemma shl_i_small w a s : 0 <= s < w → shl_i w a s = Some (sext w (Z.shiftl a s)).
Proof.
  intros. unfold shl_i, shamt_of. destruct (Z.leb_spec 0 s); [|lia].
  by destruct (Z.ltb_spec s w); [|lia].
Qed.
Lemma shr_small w a s : 0 <= s < w → shr w a s = Some (Z.shiftr a s).
Proof.
  intros. unfold shr, shamt_of. destruct (Z.leb_spec 0 s); [|lia].
  by destruct (Z.ltb_spec s w); [|lia].
Qed.

Lemma land_3F_range x : 0 <= Z.land x 0x3F < 64.
Proof. change 0x3F with (Z.ones 6). rewrite Z.land_ones by lia. by apply Z.mod_pos_bound. Qed.
Lemma land_1F_range x : 0 <= Z.land x 0x1F < 32.
Proof. change 0x1F with (Z.ones 5). rewrite Z.land_ones by lia. by apply Z.mod_pos_bound. Qed.

Ltac shift_amount :=
  first [ apply land_3F_range | apply land_1F_range
        | solve [unfold urange in *; lia] ].

Ltac lift_step :=
  lazymatch goal with
  | |- wp _ (lift (shl_u _ _ _) ≫= _) _ _ =>
      rewrite shl_u_small by shift_amount; apply wp_lift_in
  | |- wp _ (lift (shl_i _ _ _) ≫= _) _ _ =>
      rewrite shl_i_small by shift_amount; apply wp_lift_in
  | |- wp _ (lift (shr _ _ _) ≫= _) _ _ =>
      rewrite shr_small by shift_amount; apply wp_lift_in
  end.

Lemma urange_shiftr_small a s : urange 64 a → 0 <= s → urange 64 (Z.shiftr a s).
Proof. intros. apply (urange_shiftr 64 64); [lia..|done]. Qed.

Ltac solve_shifts :=
  intros i m Hwf Hg; destruct i; try discriminate; injection Hg as <-;
  cbn [instr_wf] in Hwf; destruct_and?;
  repeat first [run_step|lift_step];
  first [value_range
        |apply urange_shiftr_small; [assumption|];
         first [apply land_3F_range|unfold urange in *; lia]].

Lemma exec_alu_imm_good i m : instr_wf i → exec_alu_imm i width = Some m → wp P m (good P) (c, b).
Proof. revert i m. solve_shifts. Qed.

Lemma exec_alu_good i m : instr_wf i → exec_alu i width = Some m → wp P m (good P) (c, b).
Proof. revert i m. solve_shifts. Qed.

Lemma exec_alu_w_good i m : instr_wf i → exec_alu_w i width = Some m → wp P m (good P) (c, b).
Proof. revert i m. solve_shifts. Qed.

(** The one arithmetic overflow of the engine: [a as u128 * b] of MULHSU. *)
Definition mulhsu_overflows (i : Instr) : Prop :=
  match i with
  | Mulhsu _ rs1 rs2 =>
      overflow_checks = true ∧
      2 ^ 128 <= as_u128 (as_i64 (Cpu.read_reg c rs1)) * Cpu.read_reg c rs2
  | _ => False
  end.

Lemma checked_u_some w r : 0 <= r → (r < 2 ^ w ∨ overflow_checks = false) →
  checked_u w r = Some (wrap w r).
Proof.
  intros Hr Hw. unfold checked_u. destruct (Z.leb_spec 0 r); [|lia].
  destruct (Z.ltb_spec r (2 ^ w)); cbn [andb].
  - by rewrite wrap_small.
  - destruct Hw as [Hw|Hw]; [lia|by rewrite Hw].
Qed.

Lemma exec_muldiv_good i m :
  instr_wf i → (mulhsu_overflows i → P) → exec_muldiv i width = Some m →
  wp P m (good P) (c, b).
Proof.
  intros Hwf Hov Hg; destruct i; try discriminate; injection Hg as <-;
    cbn [instr_wf] in Hwf; destruct_and?; cbn [mulhsu_overflows] in Hov;
    repeat run_step; try value_range.
  - apply wp_lift_in. unfold mul_u, checked_u. subst.
    pose proof (wrap_range 128 (as_i64 (Cpu.read_reg c rs1)) ltac:(lia)) as Ha.
    destruct (_ && _) eqn:Hr; [apply wp_wb; [done..|value_range]|].
    destruct overflow_checks eqn:Ho; [|apply wp_wb; [done..|value_range]].
    apply Hov. split; [done|].
    apply andb_false_iff in Hr. rewrite Z.leb_gt, Z.ltb_ge in Hr. unfold urange in *. nia.
  - apply wp_lift_in. unfold mul_u. rewrite checked_u_some; unfold urange in *; [|nia..].
    apply wp_wb; [done..|]. value_range.
Qed.

Lemma exec_fp_good raw m : exec_system (Fp raw) width = Some m → wp P m (good P) (c, b).
Proof.
  intros [= <-]. apply wp_bind, wp_on_fst. eapply wp_mono.
  { eapply wp_weaken; [|by apply fpu_execute_effect]. done. }
  intros r c' He. pose proof (fp_effect_wf _ _ _ _ _ Hc (Cpu.land31_range _) He) as Hc'.
  assert (Hf : urange 64 (flags r)).
  { destruct He as [|fl v Hfl|fl v Hfl]; [done|by apply flags_ok_range..]. }
  case_match; [by apply wp_status|]. apply wp_bind, wp_on_fst, wp_modify.
  apply wp_bind, wp_on_fst, wp_modify. apply wp_next; [|done].
  apply Cpu.set_fs_dirty_wf, Cpu.set_fcsr_wf; [done|].
  apply urange_lor; [lia|by apply Cpu.wf_fcsr|done].
Qed.

Lemma exec_system_good i m : instr_wf i → exec_system i width = Some m → wp P m (good P) (c, b).
Proof.
  intros Hwf Hg. destruct i; try discriminate; try (by eapply exec_fp_good);
    injection Hg as <-; repeat run_step.
Qed.

Lemma execute_good i :
  instr_wf i → (mulhsu_overflows i → P) → wp P (execute_width i width) (good P) (c, b).
Proof.
  intros Hwf Hov. unfold execute_width, exec_groups, dispatch.
  repeat match goal with |- context [match ?g with Some _ => _ | None => _ end] =>
    lazymatch g with _ i width => destruct g eqn:? end;
    [first [ by eapply exec_upper_good | by eapply exec_branch_good | by eapply exec_load_good
           | by eapply exec_store_good | by eapply exec_alu_imm_good | by eapply exec_alu_good
           | by eapply exec_alu_w_good | by eapply exec_muldiv_good
           | by eapply exec_muldiv_w_good | by eapply exec_amo_w_good
           | by eapply exec_amo_d_good | by eapply exec_system_good ]|] end.
  by destruct i.
Qed.
End Groups.
