(* ===== verification/Isa.v ===== *)
(** What the unprivileged ISA prescribes, and that the execution engine
    implements it.

    [alu_spec] and [branch_spec] give, in mathematical integer arithmetic, the
    value the ISA manual defines for each register-register, register-immediate
    and W-form instruction, M extension included, and each branch condition;
    [amo_spec] gives the read-modify-write of each atomic.  The theorems say
    that [execute_width] computes exactly these. *)

From S2P Require Import Prelude Bits Types Decode Encode Compressed Float Cpu Fpu Execute.

(** * The reference semantics *)

(** Destination and sources of an instruction with a register result. *)
Definition alu_operands (i : Instr) : Z * Z * Z :=
  match i with
  | Lui rd _ | Auipc rd _ => (rd, 0, 0)
  | Addi rd r _ | Slti rd r _ | Sltiu rd r _ | Xori rd r _ | Ori rd r _ | Andi rd r _
  | Slli rd r _ | Srli rd r _ | Srai rd r _ | Addiw rd r _ | Slliw rd r _ | Srliw rd r _
  | Sraiw rd r _ => (rd, r, 0)
  | Add rd r s | Sub rd r s | Sll rd r s | Slt rd r s | Sltu rd r s | Xor rd r s
  | Srl rd r s | Sra rd r s | Or rd r s | And rd r s
  | Addw rd r s | Subw rd r s | Sllw rd r s | Srlw rd r s | Sraw rd r s
  | Mul rd r s | Mulh rd r s | Mulhsu rd r s | Mulhu rd r s
  | Div rd r s | Divu rd r s | Rem rd r s | Remu rd r s
  | Mulw rd r s | Divw rd r s | Divuw rd r s | Remw rd r s | Remuw rd r s => (rd, r, s)
  | _ => (0, 0, 0)
  end.

(** The result, to be reduced modulo [2^64]: [a] and [b] are the unsigned
    contents of the sources; [s x] and [s32 x], [u32 x] are the signed reading
    of a register and the readings of its low word. *)
Definition alu_spec (i : Instr) (pc a b : Z) : option Z :=
  let s := as_i64 in let s32 := as_i32 in let u32 := as_u32 in
  match i with
  | Lui _ imm => Some imm
  | Auipc _ imm => Some (pc + imm)
  | Addi _ _ imm => Some (a + imm)
  | Slti _ _ imm => Some (b2z (s a <? imm))
  | Sltiu _ _ imm => Some (b2z (a <? imm mod 2 ^ 64))
  | Xori _ _ imm => Some (Z.lxor a imm)
  | Ori _ _ imm => Some (Z.lor a imm)
  | Andi _ _ imm => Some (Z.land a imm)
  | Slli _ _ n => Some (a * 2 ^ n)
  | Srli _ _ n => Some (a / 2 ^ n)
  | Srai _ _ n => Some (s a / 2 ^ n)
  | Add _ _ _ => Some (a + b)
  | Sub _ _ _ => Some (a - b)
  | Sll _ _ _ => Some (a * 2 ^ (b mod 64))
  | Slt _ _ _ => Some (b2z (s a <? s b))
  | Sltu _ _ _ => Some (b2z (a <? b))
  | Xor _ _ _ => Some (Z.lxor a b)
  | Srl _ _ _ => Some (a / 2 ^ (b mod 64))
  | Sra _ _ _ => Some (s a / 2 ^ (b mod 64))
  | Or _ _ _ => Some (Z.lor a b)
  | And _ _ _ => Some (Z.land a b)
  | Addiw _ _ imm => Some (s32 (a + imm))
  | Slliw _ _ n => Some (s32 (a * 2 ^ n))
  | Srliw _ _ n => Some (s32 (u32 a / 2 ^ n))
  | Sraiw _ _ n => Some (s32 a / 2 ^ n)
  | Addw _ _ _ => Some (s32 (a + b))
  | Subw _ _ _ => Some (s32 (a - b))
  | Sllw _ _ _ => Some (s32 (a * 2 ^ (b mod 32)))
  | Srlw _ _ _ => Some (s32 (u32 a / 2 ^ (b mod 32)))
  | Sraw _ _ _ => Some (s32 a / 2 ^ (b mod 32))
  | Mul _ _ _ => Some (a * b)
  | Mulh _ _ _ => Some (s a * s b / 2 ^ 64)
  | Mulhsu _ _ _ => Some (s a * b / 2 ^ 64)
  | Mulhu _ _ _ => Some (a * b / 2 ^ 64)
  | Div _ _ _ => Some (if b =? 0 then -1 else Z.quot (s a) (s b))
  | Divu _ _ _ => Some (if b =? 0 then -1 else a / b)
  | Rem _ _ _ => Some (if b =? 0 then a else Z.rem (s a) (s b))
  | Remu _ _ _ => Some (if b =? 0 then a else a mod b)
  | Mulw _ _ _ => Some (s32 (a * b))
  | Divw _ _ _ => Some (if u32 b =? 0 then -1 else s32 (Z.quot (s32 a) (s32 b)))
  | Divuw _ _ _ => Some (if u32 b =? 0 then -1 else s32 (u32 a / u32 b))
  | Remw _ _ _ => Some (if u32 b =? 0 then s32 a else s32 (Z.rem (s32 a) (s32 b)))
  | Remuw _ _ _ => Some (if u32 b =? 0 then s32 a else s32 (u32 a mod u32 b))
  | _ => None
  end.

(** Source registers, offset and condition of a branch. *)
Definition branch_spec (i : Instr) : option (Z * Z * Z * (Z → Z → Prop)) :=
  match i with
  | Beq r s imm => Some (r, s, imm, λ a b, a = b)
  | Bne r s imm => Some (r, s, imm, λ a b, a ≠ b)
  | Blt r s imm => Some (r, s, imm, λ a b, as_i64 a < as_i64 b)
  | Bge r s imm => Some (r, s, imm, λ a b, as_i64 a >= as_i64 b)
  | Bltu r s imm => Some (r, s, imm, λ a b, a < b)
  | Bgeu r s imm => Some (r, s, imm, λ a b, a >= b)
  | _ => None
  end.

(** Width in bits, registers and combining function of an atomic
    read-modify-write; both operands are unsigned words of that width. *)
Definition amo_spec (i : Instr) : option (Z * Z * Z * Z * (Z → Z → Z)) :=
  let smin w x y := if sext w x <=? sext w y then x else y in
  let smax w x y := if sext w x <=? sext w y then y else x in
  match i with
  | Amoswapw rd r s _ _ => Some (32, rd, r, s, λ _ y, y)
  | Amoaddw rd r s _ _ => Some (32, rd, r, s, λ x y, (x + y) mod 2 ^ 32)
  | Amoxorw rd r s _ _ => Some (32, rd, r, s, Z.lxor)
  | Amoandw rd r s _ _ => Some (32, rd, r, s, Z.land)
  | Amoorw rd r s _ _ => Some (32, rd, r, s, Z.lor)
  | Amominw rd r s _ _ => Some (32, rd, r, s, smin 32)
  | Amomaxw rd r s _ _ => Some (32, rd, r, s, smax 32)
  | Amominuw rd r s _ _ => Some (32, rd, r, s, Z.min)
  | Amomaxuw rd r s _ _ => Some (32, rd, r, s, Z.max)
  | Amoswapd rd r s _ _ => Some (64, rd, r, s, λ _ y, y)
  | Amoaddd rd r s _ _ => Some (64, rd, r, s, λ x y, (x + y) mod 2 ^ 64)
  | Amoxord rd r s _ _ => Some (64, rd, r, s, Z.lxor)
  | Amoandd rd r s _ _ => Some (64, rd, r, s, Z.land)
  | Amoord rd r s _ _ => Some (64, rd, r, s, Z.lor)
  | Amomind rd r s _ _ => Some (64, rd, r, s, smin 64)
  | Amomaxd rd r s _ _ => Some (64, rd, r, s, smax 64)
  | Amominud rd r s _ _ => Some (64, rd, r, s, Z.min)
  | Amomaxud rd r s _ _ => Some (64, rd, r, s, Z.max)
  | _ => None
  end.

(** * Arithmetic behind the refinement *)

Lemma wrap_sext_add w x y : 0 < w → wrap w (sext w x + y) = wrap w (x + y).
Proof. intros. rewrite <- wrap_add_l, wrap_sext, wrap_add_l by lia. done. Qed.

Lemma wrap_sext_sub w x y : 0 < w → wrap w (sext w x - sext w y) = wrap w (x - y).
Proof. intros. rewrite <- wrap_sub by lia. rewrite !wrap_sext by lia. by apply wrap_sub; lia. Qed.

Lemma sext_cong w x y : 0 < w → wrap w x = wrap w y → sext w x = sext w y.
Proof. intros Hw. by apply wrap_eq_sext_eq. Qed.

Lemma sext_add w x y : 0 < w → sext w (sext w x + sext w y) = sext w (x + y).
Proof.
  intros. apply sext_cong; [done|]. rewrite wrap_sext_add, Z.add_comm, wrap_sext_add by done.
  by rewrite Z.add_comm.
Qed.

Lemma sext_sub w x y : 0 < w → sext w (sext w x - sext w y) = sext w (x - y).
Proof. intros. apply sext_cong; [done|]. by apply wrap_sext_sub. Qed.

Lemma sext_mul w x y : 0 < w → sext w (sext w x * sext w y) = sext w (x * y).
Proof.
  intros. apply sext_cong; [done|].
  rewrite <- wrap_mul_l, <- wrap_mul_r, !wrap_sext by lia. by rewrite wrap_mul_l, wrap_mul_r by lia.
Qed.

Lemma sext_shiftl w x n : 0 < w → 0 <= n → sext w (Z.shiftl (sext w x) n) = sext w (x * 2 ^ n).
Proof.
  intros. apply sext_cong; [done|]. rewrite Z.shiftl_mul_pow2 by done.
  rewrite <- wrap_mul_l, wrap_sext, wrap_mul_l by lia. done.
Qed.

Lemma sext_shiftl_u w x n :
  0 < w → 0 <= n → sext w (wrap w (Z.shiftl (wrap w x) n)) = sext w (x * 2 ^ n).
Proof.
  intros. rewrite sext_wrap by lia. apply sext_cong; [done|].
  rewrite Z.shiftl_mul_pow2 by done. by apply wrap_mul_l; lia.
Qed.

Lemma wrap_lxor w a b : 0 <= w → wrap w (Z.lxor a b) = Z.lxor (wrap w a) (wrap w b).
Proof.
  intros. apply Z.bits_inj'. intros i Hi. rewrite Z.lxor_spec, !testbit_wrap, Z.lxor_spec by lia.
  by destruct (i <? w).
Qed.
Lemma wrap_lor w a b : 0 <= w → wrap w (Z.lor a b) = Z.lor (wrap w a) (wrap w b).
Proof.
  intros. apply Z.bits_inj'. intros i Hi. rewrite Z.lor_spec, !testbit_wrap, Z.lor_spec by lia.
  by destruct (i <? w).
Qed.
Lemma wrap_land w a b : 0 <= w → wrap w (Z.land a b) = Z.land (wrap w a) (wrap w b).
Proof.
  intros. apply Z.bits_inj'. intros i Hi. rewrite Z.land_spec, !testbit_wrap, Z.land_spec by lia.
  by destruct (i <? w).
Qed.

Lemma land_3F_mod x : Z.land x 0x3F = x mod 64.
Proof. change 0x3F with (Z.ones 6). by rewrite Z.land_ones. Qed.
Lemma land_1F_mod x : Z.land x 0x1F = x mod 32.
Proof. change 0x1F with (Z.ones 5). by rewrite Z.land_ones. Qed.

Lemma sext_zero w x : 0 < w → (sext w x =? 0) = (wrap w x =? 0).
Proof.
  intros Hw. apply Bool.eq_true_iff_eq. rewrite !Z.eqb_eq. split; intros E.
  - by rewrite <- (wrap_sext w x), E by lia.
  - rewrite <- (sext_wrap w x), E by lia. apply sext_small; [done|].
    unfold srange. pose proof (pow2_pos (w - 1)). lia.
Qed.

Lemma wrap_b2z b : wrap 64 (b2z b) = if b then 1 else 0.
Proof. by destruct b. Qed.

(** A quotient of signed words fits the signed type unless it is [min / -1]. *)
Lemma quot_range w a b :
  0 < w → srange w a → srange w b → b ≠ 0 → ¬ (a = - 2 ^ (w - 1) ∧ b = -1) →
  srange w (Z.quot a b).
Proof.
  intros Hw Ha Hb Hb0 Hov. unfold srange in *.
  pose proof (pow2_pos (w - 1)). pose proof (Z.quot_rem' a b).
  pose proof (Z.quot_abs a b Hb0) as Habs.
  assert (Z.abs a ÷ Z.abs b <= Z.abs a) by (apply Z.quot_le_upper_bound; nia).
  destruct (Z.eq_dec a (- 2 ^ (w - 1))) as [->|].
  - assert (b = 1 ∨ 2 <= Z.abs b) as [-> | Hb2] by lia; [rewrite Z.quot_1_r; lia|].
    assert (Z.abs (- 2 ^ (w - 1)) ÷ Z.abs b < 2 ^ (w - 1)); [|lia].
    rewrite Z.abs_opp, (Z.abs_eq (2 ^ (w - 1))) by lia. apply Z.quot_lt; lia.
  - lia.
Qed.

Lemma rem_range w a b : srange w a → b ≠ 0 → srange w (Z.rem a b).
Proof.
  intros Ha Hb. unfold srange in *.
  destruct (Z.leb_spec 0 a).
  - pose proof (Z.rem_nonneg a b Hb ltac:(lia)). 
    assert (Z.rem a b <= a); [|lia]. rewrite <- (Z.rem_abs_r a b) by done. apply Z.rem_le; lia.
  - pose proof (Z.rem_nonpos a b Hb ltac:(lia)).
    assert (a <= Z.rem a b); [|lia].
    assert (Z.rem (- a) (Z.abs b) <= - a) by (apply Z.rem_le; lia).
    rewrite Z.rem_opp_l, Z.rem_abs_r in H1 by lia. lia.
Qed.

(** * Refinement *)

(** Select the arm of the instruction and read its registers. *)
Ltac runs :=
  unfold execute_width, exec_groups;
  cbn [dispatch exec_upper exec_branch exec_load exec_store exec_alu_imm exec_alu
       exec_alu_w exec_muldiv exec_muldiv_w exec_amo_w exec_amo_d exec_system];
  cbv zeta;
  rewrite ?rr_run, ?get_pc_run.

Section Refines.
Context {B : Type} `{Bus B} `{Profile} `{Libm}.
Implicit Types (c : Cpu.t) (b : B).

Definition refines (i : Instr) : Prop :=
  ∀ c b width v, Cpu.wf c → instr_wf i → (mulhsu_overflows c i → False) →
  let '(rd, r, s) := alu_operands i in
  alu_spec i (Cpu.pc c) (Cpu.read_reg c r) (Cpu.read_reg c s) = Some v →
  execute_width i width (c, b) = Some (Running, (write_back c rd (as_u64 v) width, b)).

Ltac start :=
  intros c b width v Hc Hwf Hov; cbn [alu_operands alu_spec instr_wf] in *;
  intros [= <-]; destruct_and?; runs.

Lemma refines_upper rd imm : refines (Lui rd imm) ∧ refines (Auipc rd imm).
Proof.
  split; start.
  - rewrite wb_run by done. by rewrite wrap_small.
  - by rewrite wb_run.
Qed.

Lemma refines_imm_arith rd rs1 imm :
  refines (Addi rd rs1 imm) ∧ refines (Slti rd rs1 imm) ∧ refines (Sltiu rd rs1 imm)
  ∧ refines (Xori rd rs1 imm) ∧ refines (Ori rd rs1 imm) ∧ refines (Andi rd rs1 imm)
  ∧ refines (Addiw rd rs1 imm).
Proof.
  split_and!; start; rewrite wb_run by done;
    pose proof (Cpu.read_reg_range c rs1 Hc); do 4 f_equal.
  - rewrite wrap_sext by lia. by apply wrap_sext_add.
  - by rewrite wrap_b2z.
  - by rewrite wrap_b2z.
  - by rewrite wrap_lxor, (wrap_small 64 (Cpu.read_reg c rs1)).
  - by rewrite wrap_lor, (wrap_small 64 (Cpu.read_reg c rs1)).
  - by rewrite wrap_land, (wrap_small 64 (Cpu.read_reg c rs1)).
  - by rewrite sext_add.
Qed.

Lemma refines_imm_shift rd rs1 n :
  refines (Slli rd rs1 n) ∧ refines (Srli rd rs1 n) ∧ refines (Srai rd rs1 n)
  ∧ refines (Slliw rd rs1 n) ∧ refines (Srliw rd rs1 n) ∧ refines (Sraiw rd rs1 n).
Proof.
  split_and!; start; pose proof (Cpu.read_reg_range c rs1 Hc);
    (erewrite lift_run;
      [|first [apply shl_u_small|apply shl_i_small|apply shr_small]; unfold urange in *; lia]);
    rewrite wb_run by done; do 4 f_equal.
  - rewrite Z.shiftl_mul_pow2 by (unfold urange in *; lia). done.
  - rewrite Z.shiftr_div_pow2 by (unfold urange in *; lia). rewrite wrap_small; [done|].
    apply urange_div; [done|]. apply (urange_weaken 64); [lia|].
    unfold urange in *. pose proof (Z.pow_lt_mono_r 2 n 64). pose proof (pow2_pos n). lia.
  - by rewrite Z.shiftr_div_pow2 by (unfold urange in *; lia).
  - rewrite sext_shiftl; unfold urange in *; [done|lia..].
  - by rewrite Z.shiftr_div_pow2 by (unfold urange in *; lia).
  - by rewrite Z.shiftr_div_pow2 by (unfold urange in *; lia).
Qed.

Lemma refines_arith rd rs1 rs2 :
  refines (Add rd rs1 rs2) ∧ refines (Sub rd rs1 rs2) ∧ refines (Slt rd rs1 rs2)
  ∧ refines (Sltu rd rs1 rs2) ∧ refines (Xor rd rs1 rs2) ∧ refines (Or rd rs1 rs2)
  ∧ refines (And rd rs1 rs2) ∧ refines (Addw rd rs1 rs2) ∧ refines (Subw rd rs1 rs2)
  ∧ refines (Mul rd rs1 rs2) ∧ refines (Mulw rd rs1 rs2).
Proof.
  split_and!; start; rewrite wb_run by done;
    pose proof (Cpu.read_reg_range c rs1 Hc); pose proof (Cpu.read_reg_range c rs2 Hc);
    do 4 f_equal.
  - by apply wrap_add_sext.
  - rewrite wrap_sext by lia. by apply wrap_sext_sub.
  - by rewrite wrap_b2z.
  - by rewrite wrap_b2z.
  - by rewrite wrap_lxor, !wrap_small.
  - by rewrite wrap_lor, !wrap_small.
  - by rewrite wrap_land, !wrap_small.
  - by rewrite sext_add.
  - by rewrite sext_sub.
  - by rewrite sext_mul.
Qed.

Lemma refines_shift rd rs1 rs2 :
  refines (Sll rd rs1 rs2) ∧ refines (Srl rd rs1 rs2) ∧ refines (Sra rd rs1 rs2)
  ∧ refines (Sllw rd rs1 rs2) ∧ refines (Srlw rd rs1 rs2) ∧ refines (Sraw rd rs1 rs2).
Proof.
  split_and!; start; pose proof (Cpu.read_reg_range c rs1 Hc);
    pose proof (land_3F_range (Cpu.read_reg c rs2)); pose proof (land_1F_range (Cpu.read_reg c rs2));
    (erewrite lift_run;
      [|first [apply shl_u_small|apply shl_i_small|apply shr_small]; lia]);
    rewrite wb_run by done; do 4 f_equal;
    rewrite <- ?land_3F_mod, <- ?land_1F_mod.
  - by rewrite Z.shiftl_mul_pow2 by lia.
  - rewrite Z.shiftr_div_pow2 by lia. rewrite wrap_small; [done|].
    rewrite <- Z.shiftr_div_pow2 by lia. by apply urange_shiftr_small; [|lia].
  - by rewrite Z.shiftr_div_pow2 by lia.
  - by rewrite sext_shiftl_u by lia.
  - by rewrite Z.shiftr_div_pow2 by lia.
  - by rewrite Z.shiftr_div_pow2 by lia.
Qed.

Lemma high_half x : wrap 64 (Z.shiftr (wrap 128 x) 64) = wrap 64 (x / 2 ^ 64).
Proof.
  rewrite <- Z.shiftr_div_pow2 by lia. apply Z.bits_inj'. intros i Hi.
  rewrite !testbit_wrap, !Z.shiftr_spec, testbit_wrap by lia.
  destruct (Z.ltb_spec i 64); [|done]. by destruct (Z.ltb_spec (i + 64) 128); [|lia].
Qed.

Lemma refines_mul_high rd rs1 rs2 :
  refines (Mulh rd rs1 rs2) ∧ refines (Mulhsu rd rs1 rs2) ∧ refines (Mulhu rd rs1 rs2).
Proof.
  split_and!; start;
    pose proof (Cpu.read_reg_range c rs1 Hc); pose proof (Cpu.read_reg_range c rs2 Hc).
  - rewrite wb_run by done. by rewrite Z.shiftr_div_pow2.
  - pose proof (wrap_range 128 (as_i64 (Cpu.read_reg c rs1)) ltac:(lia)).
    cbn [mulhsu_overflows] in Hov.
    erewrite lift_run; [|apply checked_u_some].
    + rewrite wb_run by done. rewrite wrap_mul_l by lia. by rewrite high_half.
    + unfold urange in *. nia.
    + destruct overflow_checks; [left|by right].
      apply Znot_ge_lt. intros Hge. apply Hov. split; [done|lia].
  - erewrite lift_run; [|apply checked_u_some; unfold urange in *; [nia|left; nia]].
    rewrite wb_run by done. by rewrite high_half.
Qed.

Lemma refines_div rd rs1 rs2 :
  refines (Div rd rs1 rs2) ∧ refines (Divu rd rs1 rs2) ∧ refines (Rem rd rs1 rs2)
  ∧ refines (Remu rd rs1 rs2).
Proof.
  split_and!; start; rewrite wb_run by done;
    pose proof (Cpu.read_reg_range c rs1 Hc) as Ha; pose proof (Cpu.read_reg_range c rs2 Hc) as Hb;
    do 4 f_equal.
  - rewrite sext_zero, wrap_small by done. case_match; [done|]. case_match eqn:Ho; [|done].
    apply andb_true_iff in Ho as [->%Z.eqb_eq ->%Z.eqb_eq]. done.
  - case_match; [done|]. rewrite wrap_small; [done|]. by apply urange_div.
  - rewrite sext_zero, wrap_small by done. case_match; [by rewrite wrap_sext|].
    case_match eqn:Ho; [|done].
    apply andb_true_iff in Ho as [->%Z.eqb_eq ->%Z.eqb_eq]. done.
  - case_match; rewrite wrap_small; try done. by apply urange_mod.
Qed.

Lemma refines_div_w rd rs1 rs2 :
  refines (Divw rd rs1 rs2) ∧ refines (Divuw rd rs1 rs2) ∧ refines (Remw rd rs1 rs2)
  ∧ refines (Remuw rd rs1 rs2).
Proof.
  split_and!; start; rewrite wb_run by done; do 4 f_equal;
    pose proof (sext_range 32 (Cpu.read_reg c rs1) ltac:(lia)) as Ha;
    pose proof (sext_range 32 (Cpu.read_reg c rs2) ltac:(lia)) as Hb.
  - rewrite <- sext_zero by done. destruct (Z.eqb_spec (as_i32 (Cpu.read_reg c rs2)) 0); [done|].
    case_match eqn:Ho.
    + apply andb_true_iff in Ho as [->%Z.eqb_eq ->%Z.eqb_eq]. done.
    + rewrite (sext_small 32 (Z.quot _ _)); [done..|]. apply quot_range; try done.
      intros [E1 E2]. rewrite E1, E2 in Ho. done.
  - by case_match.
  - rewrite <- sext_zero by done. destruct (Z.eqb_spec (as_i32 (Cpu.read_reg c rs2)) 0); [done|].
    case_match eqn:Ho.
    + apply andb_true_iff in Ho as [->%Z.eqb_eq ->%Z.eqb_eq]. done.
    + rewrite (sext_small 32 (Z.rem _ _)); [done..|]. by apply rem_range.
  - case_match; [|done]. by rewrite sext_wrap.
Qed.

Lemma alu_refines i : refines i.
Proof.
  destruct i; try (intros ????; cbn; discriminate);
    first [ apply refines_upper | apply refines_imm_arith | apply refines_imm_shift
          | apply refines_arith | apply refines_shift | apply refines_mul_high
          | apply refines_div | apply refines_div_w | idtac ].
  all: intros c b width v Hc Hwf Hov; cbn; discriminate.
Qed.
End Refines.

(** ** Branches *)

Section Control.
Context {B : Type} `{Bus B} `{Profile} `{Libm}.
Implicit Types (c : Cpu.t) (b : B).

(** The hart after a taken branch: only the program counter moves. *)
Definition goto (c : Cpu.t) (imm : Z) : Cpu.t := c <| Cpu.pc := (Cpu.pc c + imm) mod 2 ^ 64 |>.

Lemma jump_rel_run imm c b : jump_rel imm (c, b) = Some (Running, (goto c imm, b)).
Proof.
  unfold goto. change ((Cpu.pc c + imm) mod 2 ^ 64) with (as_u64 (Cpu.pc c + imm)).
  rewrite <- (wrap_sext_add 64 (Cpu.pc c)), <- (wrap_sext 64 (_ + imm)) by lia. done.
Qed.

Lemma branch_if_run cond (C : Z → Z → Prop) rs1 rs2 imm width c b :
  (∀ x y, cond x y = true ↔ C x y) →
  let taken := C (Cpu.read_reg c rs1) (Cpu.read_reg c rs2) in
  (taken → branch_if cond rs1 rs2 imm width (c, b) = Some (Running, (goto c imm, b)))
  ∧ (¬ taken → branch_if cond rs1 rs2 imm width (c, b) = Some (Running, (retire c width, b))).
Proof.
  intros HC. cbv zeta. rewrite <- HC. unfold branch_if. rewrite !rr_run.
  destruct (cond _ _); split; intros Ht; try done. apply jump_rel_run.
Qed.

Lemma branch_run i r s imm (C : Z → Z → Prop) c b width :
  branch_spec i = Some (r, s, imm, C) →
  let taken := C (Cpu.read_reg c r) (Cpu.read_reg c s) in
  (taken → execute_width i width (c, b) = Some (Running, (goto c imm, b)))
  ∧ (¬ taken → execute_width i width (c, b) = Some (Running, (retire c width, b))).
Proof.
  destruct i; try discriminate; intros [= <- <- <- <-]; cbv zeta;
    [apply (branch_if_run Z.eqb (λ x y, x = y))
    |apply (branch_if_run (λ x y, negb (x =? y)) (λ x y, x ≠ y))
    |apply (branch_if_run (λ x y, as_i64 x <? as_i64 y) (λ x y, as_i64 x < as_i64 y))
    |apply (branch_if_run (λ x y, as_i64 x >=? as_i64 y) (λ x y, as_i64 x >= as_i64 y))
    |apply (branch_if_run Z.ltb Z.lt)
    |apply (branch_if_run Z.geb Z.ge)]; intros x y.
  - apply Z.eqb_eq.
  - rewrite negb_true_iff. apply Z.eqb_neq.
  - apply Z.ltb_lt.
  - rewrite Z.geb_le. lia.
  - apply Z.ltb_lt.
  - rewrite Z.geb_le. lia.
Qed.

(** ** Atomics *)

Definition read_w (w : Z) : Z → M B Z := if w =? 32 then read_u32 else read_u64.
Definition write_w (w : Z) : Z → Z → M B unit := if w =? 32 then write_u32 else write_u64.

Lemma on_bus_run {A X} (m : M B X) x b' (k : X → M (Cpu.t * B) A) c b :
  m b = Some (x, b') → (on_bus m ≫= k) (c, b) = k x (c, b').
Proof. intros E. unfold on_bus, on_snd, mbind, M_bind. by rewrite E. Qed.

Lemma smin_value w old y :
  0 < w → urange w old →
  wrap w (if sext w old <? sext w y then sext w old else sext w y)
  = if sext w old <=? sext w (wrap w y) then old else wrap w y.
Proof.
  intros Hw Ho. rewrite sext_wrap by lia.
  destruct (Z.ltb_spec (sext w old) (sext w y)), (Z.leb_spec (sext w old) (sext w y)); try lia.
  - by rewrite wrap_sext, wrap_small.
  - assert (E : sext w y = sext w old) by lia. rewrite E. by rewrite wrap_sext, wrap_small.
  - by rewrite wrap_sext.
Qed.

Lemma smax_value w old y :
  0 < w → urange w old →
  wrap w (if sext w old >? sext w y then sext w old else sext w y)
  = if sext w old <=? sext w (wrap w y) then wrap w y else old.
Proof.
  intros Hw Ho. rewrite sext_wrap by lia. rewrite Z.gtb_ltb.
  destruct (Z.ltb_spec (sext w y) (sext w old)), (Z.leb_spec (sext w old) (sext w y)); try lia.
  - by rewrite wrap_sext, wrap_small.
  - by rewrite wrap_sext.
Qed.

Lemma umin_value x y : (if x <? y then x else y) = Z.min x y.
Proof. destruct (Z.ltb_spec x y); lia. Qed.
Lemma umax_value x y : (if x >? y then x else y) = Z.max x y.
Proof. rewrite Z.gtb_ltb. destruct (Z.ltb_spec y x); lia. Qed.

Lemma on_bus_bind {A X} (m : M B X) (k : X → M (Cpu.t * B) A) c b :
  (on_bus m ≫= k) (c, b) = match m b with Some (x, b') => k x (c, b') | None => None end.
Proof. unfold on_bus, on_snd, mbind, M_bind. by destruct (m b) as [[??]|]. Qed.

(** The read-modify-write of [op], where the access may fail. *)
Definition amo_effect (w : Z) (op : Z → Z → Z) (rd r s width : Z) c b : option (Status * (Cpu.t * B)) :=
  let a := Cpu.read_reg c r in
  '(old, b1) ← read_w w a b;
  '(_, b2) ← write_w w a (op old (wrap w (Cpu.read_reg c s))) b1;
  Some (Running, (write_back c rd (as_u64 (sext w old)) width, b2)).

(** A read answers a value of its width. *)
Definition reads_in_range (w a : Z) b : Prop := ∀ old b1, read_w w a b = Some (old, b1) → urange w old.

Lemma amo_w_effect new op rd r s width c b :
  reg rd → reads_in_range 32 (Cpu.read_reg c r) b →
  (∀ old, urange 32 old → new old (Cpu.read_reg c s) = op old (as_u32 (Cpu.read_reg c s))) →
  amo_w new rd r s width (c, b) = amo_effect 32 op rd r s width c b.
Proof.
  intros Hr Ho En. unfold amo_w, amo_effect. rewrite rr_run, on_bus_bind.
  change (read_w 32) with (read_u32 (B := B)) in *. change (write_w 32) with (write_u32 (B := B)).
  destruct (read_u32 _ b) as [[old b1]|] eqn:E1; [|done].
  rewrite rr_run, En by by eapply Ho. rewrite on_bus_bind. cbn [mbind option_bind].
  destruct (write_u32 _ _ b1) as [[[] b2]|]; [|done]. by apply wb_run.
Qed.

Lemma amo_d_effect new ret op rd r s width c b :
  reg rd → reads_in_range 64 (Cpu.read_reg c r) b →
  (∀ old, urange 64 old → new old (Cpu.read_reg c s) = op old (as_u64 (Cpu.read_reg c s)) ∧ ret old = old) →
  amo_d new ret rd r s width (c, b) = amo_effect 64 op rd r s width c b.
Proof.
  intros Hr Ho En. unfold amo_d, amo_effect. rewrite rr_run, on_bus_bind.
  change (read_w 64) with (read_u64 (B := B)) in *. change (write_w 64) with (write_u64 (B := B)).
  destruct (read_u64 _ b) as [[old b1]|] eqn:E1; [|done].
  destruct (En old) as [En1 En2]; [by eapply Ho|]. rewrite rr_run, En1, on_bus_bind. cbn [mbind option_bind].
  destruct (write_u64 _ _ b1) as [[[] b2]|]; [|done]. rewrite wb_run, En2 by done.
  rewrite wrap_sext, wrap_small by (done || by eapply Ho). done.
Qed.

Lemma via_i64 x : urange 64 x → as_u64 (as_i64 x) = x.
Proof. intros. by rewrite wrap_sext, wrap_small. Qed.

Lemma amo_shape i w rd r s op c b width :
  Cpu.wf c → instr_wf i → amo_spec i = Some (w, rd, r, s, op) → reads_in_range w (Cpu.read_reg c r) b →
  execute_width i width (c, b) = amo_effect w op rd r s width c b.
Proof.
  intros Hc Hwf Hs Ho. pose proof (Cpu.read_reg_range c s Hc) as Hy.
  destruct i; try discriminate; injection Hs as <- <- <- <- Hop; cbn [instr_wf] in Hwf;
    destruct_and?; runs.
  all: lazymatch goal with
       | |- amo_w _ _ _ _ _ _ = _ => eapply amo_w_effect; [eassumption|exact Ho|]; intros old Hold
       | |- amo_d _ _ _ _ _ _ _ = _ =>
           eapply amo_d_effect; [eassumption|exact Ho|]; intros old Hold;
           split; [|reflexivity || by apply via_i64]
       end;
       rewrite <- Hop; cbv beta;
       lazymatch goal with
       | |- wrap _ (if _ <? _ then _ else _) = _ => rewrite smin_value by (assumption || lia)
       | |- wrap _ (if _ >? _ then _ else _) = _ => rewrite smax_value by (assumption || lia)
       | |- wrap _ (sext _ (_ + _)) = _ => rewrite wrap_add_sext by lia
       | |- _ => idtac
       end;
       rewrite ?umin_value, ?umax_value, ?(wrap_small 64 (Cpu.read_reg c rs2)) by assumption;
       try reflexivity.
  symmetry. by apply wrap_add_r.
Qed.

Lemma amo_run i w rd r s op c b b1 b2 old width :
  Cpu.wf c → instr_wf i → amo_spec i = Some (w, rd, r, s, op) → urange w old →
  read_w w (Cpu.read_reg c r) b = Some (old, b1) →
  write_w w (Cpu.read_reg c r) (op old (wrap w (Cpu.read_reg c s))) b1 = Some (tt, b2) →
  execute_width i width (c, b)
  = Some (Running, (write_back c rd (as_u64 (sext w old)) width, b2)).
Proof.
  intros Hc Hwf Hs Ho E1 E2. rewrite (amo_shape _ _ _ _ _ _ _ _ _ Hc Hwf Hs).
  - unfold amo_effect. rewrite E1. cbn. by rewrite E2.
  - intros old' b' E. by simplify_eq.
Qed.
End Control.

(** ** Precise traps *)

Section Precise.
Context {B : Type} {BU : Bus B} {PR : Profile} {L : Libm} {LO : LibmOk}.

Definition running {S} : Status → S → Prop := λ st _, st = Running.

Lemma wp_bind_any {S A X} (m : M S X) (k : X → M S A) Q s :
  (∀ x s', wp True (k x) Q s') → wp True (m ≫= k) Q s.
Proof. intros Hk. apply wp_bind. unfold wp at 1. destruct (m s) as [[??]|]; [apply Hk|done]. Qed.

Lemma next_running width (s : Cpu.t * B) : wp True (next width) running s.
Proof. unfold next. by apply wp_bind_any. Qed.
Lemma wb_running rd v width (s : Cpu.t * B) : wp True (wb rd v width) running s.
Proof. unfold wb. apply wp_bind_any. intros. apply next_running. Qed.
Lemma jump_running imm (s : Cpu.t * B) : wp True (jump_rel imm) running s.
Proof. unfold jump_rel. do 2 (apply wp_bind_any; intros). done. Qed.

Ltac all_running :=
  intros i width m s Hg; destruct i; try discriminate; injection Hg as <-;
  unfold branch_if, amo_w, amo_d; cbv zeta;
  repeat match goal with
  | |- wp _ (wb _ _ _) _ _ => apply wb_running
  | |- wp _ (next _) _ _ => apply next_running
  | |- wp _ (jump_rel _) _ _ => apply jump_running
  | |- wp _ (_ ≫= _) _ _ => apply wp_bind_any; intros
  | |- wp _ (if ?x then _ else _) _ _ => destruct x
  | |- wp _ (mret _) _ _ => reflexivity
  end.

(** Only the system group returns anything but [Running]. *)
Lemma group_running g :
  g ∈ [exec_upper; exec_branch; exec_load; exec_store; exec_alu_imm; exec_alu; exec_alu_w;
       exec_muldiv; exec_muldiv_w; exec_amo_w; exec_amo_d] →
  ∀ i width m (s : Cpu.t * B), g i width = Some m → wp True m running s.
Proof.
  intros Hg. repeat (apply elem_of_cons in Hg as [->|Hg]; [all_running|]).
  by apply not_elem_of_nil in Hg.
Qed.

Definition precise (c : Cpu.t) (b : B) : Status → Cpu.t * B → Prop :=
  λ st s, st ≠ Running → s = (c, b).

Lemma running_precise m c b : wp True m running (c, b) → wp True m (precise c b) (c, b).
Proof. intros Hm. eapply wp_mono; [exact Hm|]. intros st s -> ?. done. Qed.

Lemma exec_system_precise i width m c b :
  Cpu.wf c → exec_system i width = Some m → wp True m (precise c b) (c, b).
Proof.
  intros Hc Hg. destruct i; try discriminate; injection Hg as <-;
    try (apply running_precise, next_running); try done.
  apply wp_bind, wp_on_fst. eapply wp_mono.
  { eapply (wp_weaken False True); [done|by apply fpu_execute_effect]. }
  intros r c' He. destruct (ok r) eqn:Hok; cbn [negb].
  - eapply wp_mono; [|intros st s Hst; exact (λ Hn, False_ind _ (Hn Hst))].
    do 2 (apply wp_bind_any; intros). apply next_running.
  - apply wp_ret. intros _. by inversion He; subst.
Qed.

Lemma execute_precise i width c b :
  Cpu.wf c → wp True (execute_width i width) (precise c b) (c, b).
Proof.
  intros Hc. unfold execute_width, exec_groups, dispatch.
  repeat match goal with |- context [match ?g with Some _ => _ | None => _ end] =>
    lazymatch g with
    | exec_system _ _ => destruct g eqn:?; [by eapply exec_system_precise|]
    | ?f i width => destruct g eqn:?; [apply running_precise; eapply (group_running f);
        [set_solver|eassumption]|]
    end end.
  done.
Qed.
End Precise.

(** ** The [li] pseudo-instruction *)

(** Execute a list of instructions, stopping at the first that does not
    continue. *)
Fixpoint run_all {B} `{Bus B} `{Profile} `{Libm} (l : list Instr) : M (Cpu.t * B) Status :=
  match l with
  | [] => mret Running
  | i :: l => st ← execute i; match st with Running => run_all l | _ => mret st end
  end.

(** The value [li rd imm] leaves in [rd]: 4096 too small whenever bit 11 is set
    and the two-instruction form is used. *)
Definition li_value (imm : Z) : Z :=
  if ((imm <? -2048) || (2048 <=? imm)) && Z.testbit imm 11 then imm - 4096 else imm.

Lemma li_parts imm :
  srange 32 imm →
  Z.shiftl (Z.shiftr imm 12) 12 + Z.shiftr (as_i32 (Z.shiftl imm 20)) 20
  = if Z.testbit imm 11 then imm - 4096 else imm.
Proof.
  intros Hi.
  assert (E : Z.shiftr (as_i32 (Z.shiftl imm 20)) 20 = sext 12 imm).
  { apply Z.bits_inj'. intros i Hi0. rewrite Z.shiftr_spec, !testbit_sext by lia.
    destruct (Z.ltb_spec (i + 20) 32), (Z.ltb_spec i 12); try lia;
      rewrite Z.shiftl_spec by lia; f_equal; lia. }
  rewrite E. rewrite Z.shiftl_mul_pow2, Z.shiftr_div_pow2 by lia.
  assert (Hs : Z.testbit imm 11 = negb (imm mod 2 ^ 12 <? 2 ^ 11)).
  { rewrite <- (Z.mod_pow2_bits_low imm 12) by lia.
    pose proof (Z.mod_pos_bound imm (2 ^ 12)). set (r := imm mod 2 ^ 12) in *.
    apply Bool.eq_true_iff_eq. rewrite Z.testbit_true by lia.
    destruct (Z.ltb_spec r (2 ^ 11)).
    - by rewrite Z.div_small by lia.
    - rewrite <- (Z.div_unique_pos r (2 ^ 11) 1 (r - 2 ^ 11)) by lia. done. }
  rewrite Hs. unfold sext. change (12 - 1) with 11.
  pose proof (Z.div_mod imm (2 ^ 12)). destruct (_ <? _); cbn [negb]; lia.
Qed.

Section Li.
Context {B : Type} {BU : Bus B} {PR : Profile} {L : Libm}.

Lemma read_write_back c rd v width :
  Cpu.wf c → reg rd → rd ≠ 0 → Cpu.read_reg (write_back c rd v width) rd = v.
Proof.
  intros Hc Hr Hne. change (Cpu.read_reg (Cpu.set_reg c rd v) rd = v).
  unfold reg, urange in Hr. rewrite Cpu.read_set_reg by (done || lia).
  rewrite Z.eqb_refl. by destruct (Z.eqb_spec rd 0).
Qed.

Lemma addi_step rd rs1 imm l c (b : B) :
  Cpu.wf c → reg rd → reg rs1 → srange 64 imm →
  run_all (Addi rd rs1 imm :: l) (c, b)
  = run_all l (write_back c rd (as_u64 (Cpu.read_reg c rs1 + imm)) 4, b).
Proof.
  intros Hc Hr Hs Hi. cbn [run_all]. unfold execute, mbind, M_bind.
  rewrite (alu_refines (Addi rd rs1 imm) c b 4 (Cpu.read_reg c rs1 + imm)); done.
Qed.

Lemma lui_step rd imm l c (b : B) :
  Cpu.wf c → reg rd → urange 64 imm →
  run_all (Lui rd imm :: l) (c, b) = run_all l (write_back c rd imm 4, b).
Proof.
  intros Hc Hr Hi. cbn [run_all]. unfold execute, mbind, M_bind.
  rewrite (alu_refines (Lui rd imm) c b 4 imm); try done. by rewrite wrap_small.
Qed.

Lemma li_run rd imm c (b : B) :
  Cpu.wf c → reg rd → rd ≠ 0 → srange 32 imm →
  ∃ c', run_all (Asm.li rd imm) (c, b) = Some (Running, (c', b))
        ∧ Cpu.read_reg c' rd = as_u64 (li_value imm).
Proof.
  intros Hc Hr Hne Hi. unfold Asm.li, li_value.
  assert (Hw : ∀ v, urange 64 v → Cpu.wf (write_back c rd v 4)) by (intros; by apply write_back_wf).
  destruct ((-2048 <=? imm) && (imm <? 2048)) eqn:Hsmall.
  - apply andb_true_iff in Hsmall as [H1%Z.leb_le H2%Z.ltb_lt].
    destruct (Z.ltb_spec imm (-2048)), (Z.leb_spec 2048 imm); try lia. cbn [orb andb].
    eexists. rewrite addi_step by (done || by apply (srange_weaken 32)). split; [done|].
    rewrite read_write_back by done. by rewrite Cpu.read_reg_0.
  - replace ((imm <? -2048) || (2048 <=? imm)) with true by lia. cbn [andb].
    rewrite sext_small by done. rewrite <- li_parts by done.
    set (lo := Z.shiftr (as_i32 (Z.shiftl imm 20)) 20).
    assert (Hlo : srange 64 lo) by (apply shiftr_sext_srange; lia).
    assert (Hhi : as_u64 (Z.shiftl (as_u64 (Z.shiftr imm 12)) 12)
                  = as_u64 (Z.shiftl (Z.shiftr imm 12) 12)).
    { rewrite !Z.shiftl_mul_pow2 by lia. apply wrap_mul_l. lia. }
    rewrite Hhi. rewrite lui_step by (done || by apply wrap_range). set (hi := as_u64 _).
    assert (Hh : urange 64 hi) by by apply wrap_range.
    destruct (Z.eqb_spec lo 0) as [->|]; cbn [negb].
    + eexists. split; [done|]. rewrite read_write_back by done. by rewrite Z.add_0_r.
    + eexists. rewrite addi_step by (done || by apply Hw). split; [done|].
      rewrite !read_write_back by (done || by apply Hw). by apply wrap_add_l.
Qed.
End Li.

(** * Properties *)

(** C22: no instruction the hart can fetch makes the release build of the engine
    panic.  For every 32-bit word and every 16-bit compressed parcel that
    expands, executing the decoded instruction from a well-formed hart over a
    bus that does not panic returns, keeps the hart well-formed ([x0] zero and
    32 registers of 64 bits) and keeps the bus invariant. *)
Theorem execute_decoded_safe (B : Type) (BU : Bus B) (BO : BusOk False B) (L : Libm)
    (LO : LibmOk) c b raw i width :
  (urange 32 raw ∧ i = decode raw) ∨ (urange 16 raw ∧ decompress raw = Some i) →
  Cpu.wf c → bus_inv b →
  ∃ st c' b', @execute_width B BU Release L i width (c, b) = Some (st, (c', b'))
              ∧ Cpu.wf c' ∧ bus_inv b'.
Proof.
  intros Hi Hc Hb.
  assert (Hwf : instr_wf i).
  { destruct Hi as [[Hr ->]|[Hr Hd]]; [by apply decode_wf|].
    by apply (decompress_encodable raw i). }
  destruct (wp_total _ _ _ (@execute_good B BU Release L False BO LO c b Hc Hb width i Hwf
    ltac:(by destruct i; intros []))) as (st & [c' b'] & E & Hc' & Hb').
  by exists st, c', b'.
Qed.

Lemma execute_decoded_safe_witness :
  ∃ st c' b', @execute_width Ram.t Ram.bus Release ref_libm (decode 0x0020B423) 4
                (Cpu.new 0x1000, ∅) = Some (st, (c', b'))
              ∧ Cpu.wf c' ∧ bus_inv b'.
Proof.
  apply (execute_decoded_safe Ram.t Ram.bus Ram.bus_ok ref_libm ref_libm_ok
           (Cpu.new 0x1000) (∅ : Ram.t) 0x0020B423).
  - left. split; [vm_compute; split; [intros ?; discriminate|done]|reflexivity].
  - apply Cpu.new_wf. vm_compute. split; [intros ?; discriminate|done].
  - apply map_Forall_empty.
Defined.

(** Every ALU instruction computes what the ISA defines.  For each
    register-register, register-immediate, upper-immediate and W-form
    instruction and the whole M extension (signed and unsigned high products,
    division by zero and signed overflow included), the engine writes the value
    [alu_spec] gives, reduced modulo 2^64, to the destination, advances the
    program counter by the instruction width and touches nothing else; the only
    exception is the overflow check of MULHSU in a build with overflow checks. *)
Theorem alu_refines_isa (B : Type) (BU : Bus B) (PR : Profile) (L : Libm) i c (b : B) width v :
  Cpu.wf c → instr_wf i → (mulhsu_overflows c i → False) →
  let '(rd, r, s) := alu_operands i in
  alu_spec i (Cpu.pc c) (Cpu.read_reg c r) (Cpu.read_reg c s) = Some v →
  execute_width i width (c, b) = Some (Running, (write_back c rd (as_u64 v) width, b)).
Proof. apply alu_refines. Qed.

(** [div x3, x1, x2] with -7 and 2 gives -3. *)
Lemma alu_refines_isa_witness :
  let c := Cpu.set_reg (Cpu.set_reg (Cpu.new 0) 1 (2 ^ 64 - 7)) 2 2 in
  @execute_width Ram.t Ram.bus Dev ref_libm (Div 3 1 2) 4 (c, ∅)
  = Some (Running, (write_back c 3 (2 ^ 64 - 3) 4, ∅)).
Proof.
  apply (alu_refines_isa Ram.t Ram.bus Dev ref_libm (Div 3 1 2)
           (Cpu.set_reg (Cpu.set_reg (Cpu.new 0) 1 (2 ^ 64 - 7)) 2 2) ∅ 4 (-3)).
  - repeat apply Cpu.set_reg_wf; try lia; [apply Cpu.new_wf|..]; unfold urange; lia.
  - cbn. unfold reg, urange. lia.
  - intros [].
  - reflexivity.
Defined.

(** Branches.  A conditional branch compares the two source registers as
    its mnemonic says (equality, signed or unsigned order); when the condition
    holds only the program counter changes, by the sign-extended offset modulo
    2^64, and when it does not the hart just moves past the instruction. *)
Theorem branch_refines_isa (B : Type) (BU : Bus B) (PR : Profile) (L : Libm)
    i r s imm (C : Z → Z → Prop) c (b : B) width :
  branch_spec i = Some (r, s, imm, C) →
  let taken := C (Cpu.read_reg c r) (Cpu.read_reg c s) in
  (taken → execute_width i width (c, b) = Some (Running, (goto c imm, b)))
  ∧ (¬ taken → execute_width i width (c, b) = Some (Running, (retire c width, b))).
Proof. apply branch_run. Qed.

Lemma branch_refines_isa_witness :
  @execute_width Ram.t Ram.bus Dev ref_libm (Bge 0 0 (-8)) 4 (Cpu.new 4, ∅)
  = Some (Running, (Cpu.new (2 ^ 64 - 4), ∅)).
Proof.
  apply (branch_refines_isa Ram.t Ram.bus Dev ref_libm (Bge 0 0 (-8)) 0 0 (-8)
           (λ a b, as_i64 a >= as_i64 b) (Cpu.new 4) ∅ 4).
  - reflexivity.
  - vm_compute. discriminate.
Defined.

(** Atomics.  Every AMO reads the word at [rs1], writes back the
    combination [amo_spec] names of the old word and the low word of [rs2], and
    puts the old word, sign-extended whatever the signedness of the comparison,
    into [rd]. *)
Theorem amo_refines_isa (B : Type) (BU : Bus B) (PR : Profile) (L : Libm)
    i w rd r s op c b b1 b2 old width :
  Cpu.wf c → instr_wf i → amo_spec i = Some (w, rd, r, s, op) → urange w old →
  read_w w (Cpu.read_reg c r) b = Some (old, b1) →
  write_w w (Cpu.read_reg c r) (op old (wrap w (Cpu.read_reg c s))) b1 = Some (tt, b2) →
  execute_width i width (c, b)
  = Some (Running, (write_back c rd (as_u64 (sext w old)) width, b2)).
Proof. apply amo_run. Qed.

(** [amomaxu.w] with memory 0x80000000 and register 5 keeps the memory word and
    returns it sign-extended. *)
Lemma amo_refines_isa_witness :
  let c := Cpu.set_reg (Cpu.new 0) 2 5 in
  let m : Ram.t := Ram.store ∅ 0 (to_le_bytes 4 0x80000000) in
  @execute_width Ram.t Ram.bus Dev ref_libm (Amomaxuw 3 1 2 false false) 4 (c, m)
  = Some (Running, (write_back c 3 0xFFFFFFFF80000000 4,
                    Ram.store m 0 (to_le_bytes 4 0x80000000))).
Proof.
  apply (amo_refines_isa Ram.t Ram.bus Dev ref_libm (Amomaxuw 3 1 2 false false) 32 3 1 2 Z.max
           (Cpu.set_reg (Cpu.new 0) 2 5) (Ram.store ∅ 0 (to_le_bytes 4 0x80000000))
           (Ram.store ∅ 0 (to_le_bytes 4 0x80000000)) _ 0x80000000 4).
  - apply Cpu.set_reg_wf; [apply Cpu.new_wf|..]; unfold urange; lia.
  - cbn. unfold reg, urange. lia.
  - reflexivity.
  - unfold urange. lia.
  - vm_compute. reflexivity.
  - reflexivity.
Defined.

(** Traps are precise.  When an instruction does not complete (environment
    call, breakpoint, illegal instruction, an FP encoding the FPU refuses, a
    CSR access, return-from-trap or wait left to the supervisor layer), neither
    the hart nor the bus has changed. *)
Theorem execute_trap_precise (B : Type) (BU : Bus B) (PR : Profile) (L : Libm) (LO : LibmOk)
    i width c (b : B) st s' :
  Cpu.wf c → execute_width i width (c, b) = Some (st, s') → st ≠ Running → s' = (c, b).
Proof.
  intros Hc E. exact (wp_run _ _ _ _ _ _ (execute_precise i width c b Hc) E).
Qed.

Lemma execute_trap_precise_witness :
  @execute_width Ram.t Ram.bus Dev ref_libm (Fp 0x06000053) 4 (Cpu.new 0, ∅)
  = Some (StTrap (TException IllegalInstruction), (Cpu.new 0, ∅))
  ∧ (Cpu.new 0, ∅ : Ram.t) = (Cpu.new 0, ∅).
Proof.
  split; [vm_compute; reflexivity|].
  apply (execute_trap_precise Ram.t Ram.bus Dev ref_libm ref_libm_ok (Fp 0x06000053) 4
           (Cpu.new 0) ∅ (StTrap (TException IllegalInstruction))).
  - apply Cpu.new_wf. unfold urange. lia.
  - vm_compute. reflexivity.
  - discriminate.
Defined.

(** MULHSU in a build with overflow checks.  The product is formed with a
    plain [*] on [u128] after a sign-extending cast of [rs1], so such a build
    panics exactly when that product does not fit, which happens for every
    negative [rs1] and every [rs2] of at least two. *)
Theorem mulhsu_dev_panics (B : Type) (BU : Bus B) (L : Libm) c (b : B) rd rs1 rs2 width :
  Cpu.wf c → reg rd → as_i64 (Cpu.read_reg c rs1) < 0 → 2 <= Cpu.read_reg c rs2 →
  @execute_width B BU Dev L (Mulhsu rd rs1 rs2) width (c, b) = None.
Proof.
  intros Hc Hr Ha Hb. runs. unfold mul_u, checked_u, mbind at 1, M_bind, lift.
  pose proof (Cpu.read_reg_range c rs1 Hc) as Hx.
  pose proof (sext_range 64 (Cpu.read_reg c rs1) ltac:(lia)) as Hs. unfold srange in Hs.
  assert (E : as_u128 (as_i64 (Cpu.read_reg c rs1)) = as_i64 (Cpu.read_reg c rs1) + 2 ^ 128).
  { unfold wrap. rewrite <- (Z_mod_plus_full _ 1). apply Z.mod_small. lia. }
  rewrite E. destruct (Z.ltb_spec ((as_i64 (Cpu.read_reg c rs1) + 2 ^ 128) * Cpu.read_reg c rs2) (2 ^ 128)).
  { exfalso. nia. }
  by rewrite andb_false_r.
Qed.

Lemma mulhsu_dev_panics_witness :
  let c := Cpu.set_reg (Cpu.set_reg (Cpu.new 0) 1 (2 ^ 64 - 1)) 2 2 in
  @execute_width Ram.t Ram.bus Dev ref_libm (Mulhsu 3 1 2) 4 (c, ∅) = None.
Proof.
  apply (mulhsu_dev_panics Ram.t Ram.bus ref_libm).
  - repeat apply Cpu.set_reg_wf; try lia; [apply Cpu.new_wf|..]; unfold urange; lia.
  - unfold reg, urange. lia.
  - vm_compute. reflexivity.
  - vm_compute. discriminate.
Defined.

(** A store followed by the load of the same width at the same address
    returns the stored register, truncated and sign-extended as the load
    prescribes, at every address including those that wrap around. *)
Theorem store_load_roundtrip (PR : Profile) (L : Libm) c (m : Ram.t) rd rs1 rs2 imm width :
  Cpu.wf c → reg rd →
  let v := Cpu.read_reg c rs2 in
  let rt st ld u := ∃ m', execute_width st width (c, m) = Some (Running, (retire c width, m'))
    ∧ execute_width ld width (retire c width, m')
      = Some (Running, (write_back (retire c width) rd u width, m')) in
  rt (Sb rs1 rs2 imm) (Lb rd rs1 imm) (as_u64 (as_i8 v))
  ∧ rt (Sh rs1 rs2 imm) (Lh rd rs1 imm) (as_u64 (as_i16 v))
  ∧ rt (Sw rs1 rs2 imm) (Lw rd rs1 imm) (as_u64 (as_i32 v))
  ∧ rt (Sd rs1 rs2 imm) (Ld rd rs1 imm) v
  ∧ rt (Sb rs1 rs2 imm) (Lbu rd rs1 imm) (as_u8 v)
  ∧ rt (Sh rs1 rs2 imm) (Lhu rd rs1 imm) (as_u16 v)
  ∧ rt (Sw rs1 rs2 imm) (Lwu rd rs1 imm) (as_u32 v).
Proof.
  intros Hc Hr. cbv zeta. pose proof (Cpu.read_reg_range c rs2 Hc) as Hv.
  set (a := as_u64 (as_i64 (as_i64 (Cpu.read_reg c rs1) + imm))).
  assert (Hw : ∀ w, 0 <= w → urange w (wrap w (Cpu.read_reg c rs2))) by (intros; by apply wrap_range).
  split_and!; eexists; (split; [reflexivity|]); runs; rewrite ea_run;
    change (Cpu.read_reg (retire c width) rs1) with (Cpu.read_reg c rs1); fold a;
    (erewrite on_bus_run;
      [|first [apply (ram_read_write 1)|apply (ram_read_write 2)|apply (ram_read_write 4)
              |apply (ram_read_write 8)]; [lia|first [exact Hv|by apply Hw]]]);
    rewrite wb_run by done; rewrite ?sext_wrap by lia; reflexivity.
Qed.

Lemma store_load_roundtrip_witness :
  let c := Cpu.set_reg (Cpu.new 0) 2 0x1FF in
  ∃ m', @execute_width Ram.t Ram.bus Dev ref_libm (Sb 1 2 (-1)) 4 (c, ∅)
        = Some (Running, (retire c 4, m'))
    ∧ @execute_width Ram.t Ram.bus Dev ref_libm (Lb 3 1 (-1)) 4 (retire c 4, m')
      = Some (Running, (write_back (retire c 4) 3 (2 ^ 64 - 1) 4, m')).
Proof.
  intros c.
  destruct (store_load_roundtrip Dev ref_libm c ∅ 3 1 2 (-1) 4) as [(m' & Hs & Hl) _].
  - apply Cpu.set_reg_wf; [apply Cpu.new_wf|..]; unfold urange; lia.
  - unfold reg, urange. lia.
  - exists m'. split; [exact Hs|].
    replace (2 ^ 64 - 1) with (as_u64 (as_i8 (Cpu.read_reg c 2))) by reflexivity. exact Hl.
Defined.

(** The [li] pseudo-instruction.  For every 32-bit immediate the expansion
    runs to completion and leaves [li_value imm] in the destination, which is
    [imm] for immediates of at most 12 bits and whenever bit 11 is clear, and
    [imm - 4096] otherwise: the upper part is not rounded to compensate for the
    sign extension of the lower one. *)
Theorem li_loads (B : Type) (BU : Bus B) (PR : Profile) (L : Libm) rd imm c (b : B) :
  Cpu.wf c → reg rd → rd ≠ 0 → srange 32 imm →
  ∃ c', run_all (Asm.li rd imm) (c, b) = Some (Running, (c', b))
        ∧ Cpu.read_reg c' rd = as_u64 (li_value imm).
Proof. apply li_run. Qed.

(** [li x1, 0x1800] loads 0x800. *)
Lemma li_loads_witness :
  ∃ c', @run_all Ram.t Ram.bus Dev ref_libm (Asm.li 1 0x1800) (Cpu.new 0, ∅)
        = Some (Running, (c', ∅)) ∧ Cpu.read_reg c' 1 = 0x800.
Proof.
  apply (li_loads Ram.t Ram.bus Dev ref_libm 1 0x1800 (Cpu.new 0) ∅).
  - apply Cpu.new_wf. unfold urange. lia.
  - unfold reg, urange. lia.
  - lia.
  - unfold srange. lia.
Defined.
