(* ===== verification/SupTypes.v ===== *)
(** Supervisor-layer types ([riscv-supervisor/src/types.rs]): privilege modes,
    [mstatus], [satp] and the kinds of access, with their register layouts. *)

From S2P Require Import Prelude Bits.

(** [enum Privilege]; the constructors carry a prefix because the interrupt
    enum also speaks of supervisor and machine. *)
Inductive Privilege := PUser | PSupervisor | PMachine.

#[global] Instance Privilege_eq_dec : EqDecision Privilege.
Proof. solve_decision. Defined.

Definition priv_code (p : Privilege) : Z :=
  match p with PUser => 0 | PSupervisor => 1 | PMachine => 3 end.

Inductive AccessType := Instruction | Load | Store.

#[global] Instance AccessType_eq_dec : EqDecision AccessType.
Proof. solve_decision. Defined.

Module MStatus.
Record t := mk {
  sd : bool; mbe : bool; sbe : bool; sxl : Z; uxl : Z;
  tsr : bool; tw : bool; tvm : bool; mxr : bool; sum : bool; mprv : bool;
  xs : Z; fs : Z; mpp : Z; vs : Z;
  spp : bool; mpie : bool; spie : bool; mie : bool; sie : bool;
}.

#[global] Instance eta_mstatus : Eta t := λ s,
  mk (sd s) (mbe s) (sbe s) (sxl s) (uxl s) (tsr s) (tw s) (tvm s) (mxr s) (sum s) (mprv s)
     (xs s) (fs s) (mpp s) (vs s) (spp s) (mpie s) (spie s) (mie s) (sie s).

Definition default : t :=
  mk false false false 2 2 false false false false false false 0 0 0 0
     false false false false false.

(** [if b { val |= 1 << k }] *)
Definition or_bit (b : bool) (k val : Z) : Z := if b then Z.lor val (Z.shiftl 1 k) else val.
(** [val |= (f as u64 & 0x3) << k] *)
Definition or_field (f k val : Z) : Z := Z.lor val (as_u64 (Z.shiftl (Z.land f 0x3) k)).

Definition to_bits (s : t) : Z :=
  let val := 0 in
  let val := or_bit (sd s) 63 val in
  let val := or_bit (mbe s) 37 val in
  let val := or_bit (sbe s) 36 val in
  let val := or_field (sxl s) 34 val in
  let val := or_field (uxl s) 32 val in
  let val := or_bit (tsr s) 22 val in
  let val := or_bit (tw s) 21 val in
  let val := or_bit (tvm s) 20 val in
  let val := or_bit (mxr s) 19 val in
  let val := or_bit (sum s) 18 val in
  let val := or_bit (mprv s) 17 val in
  let val := or_field (xs s) 15 val in
  let val := or_field (fs s) 13 val in
  let val := or_field (mpp s) 11 val in
  let val := or_field (vs s) 9 val in
  let val := or_bit (spp s) 8 val in
  let val := or_bit (mpie s) 7 val in
  let val := or_bit (spie s) 5 val in
  let val := or_bit (mie s) 3 val in
  let val := or_bit (sie s) 1 val in
  val.

(** Every field is overwritten, so the old value does not matter. *)
Definition from_bits (val : Z) : t :=
  let fld k := as_u8 (Z.land (Z.shiftr val k) 0x3) in
  mk (bit val 63) (bit val 37) (bit val 36) (fld 34) (fld 32)
     (bit val 22) (bit val 21) (bit val 20) (bit val 19) (bit val 18) (bit val 17)
     (fld 15) (fld 13) (fld 11) (fld 9)
     (bit val 8) (bit val 7) (bit val 5) (bit val 3) (bit val 1).

(** The two-bit fields hold two bits. *)
Definition wf (s : t) : Prop :=
  urange 2 (sxl s) ∧ urange 2 (uxl s) ∧ urange 2 (xs s) ∧ urange 2 (fs s)
  ∧ urange 2 (mpp s) ∧ urange 2 (vs s).

(** The bits [mstatus] implements; the others read as zero. *)
Definition MASK : Z := 0x8000003F007FFFAA.
End MStatus.

Module Satp.
Record t := mk { mode : Z; asid : Z; ppn : Z }.
#[global] Instance eta_satp : Eta t := λ s, mk (mode s) (asid s) (ppn s).
Definition default : t := mk 0 0 0.

Definition to_bits (s : t) : Z :=
  Z.lor (Z.lor (as_u64 (Z.shiftl (Z.land (mode s) 0xF) 60))
               (as_u64 (Z.shiftl (Z.land (asid s) 0xFFFF) 44)))
        (Z.land (ppn s) 0xFFFFFFFFFFF).

Definition from_bits (val : Z) : t :=
  let mode := as_u8 (Z.land (Z.shiftr val 60) 0xF) in
  mk (if (mode =? 0) || (mode =? 8) then mode else 0)
     (as_u16 (Z.land (Z.shiftr val 44) 0xFFFF))
     (Z.land val 0xFFFFFFFFFFF).

Definition wf (s : t) : Prop :=
  (mode s = 0 ∨ mode s = 8) ∧ urange 16 (asid s) ∧ urange 44 (ppn s).
End Satp.

(** * Layout facts *)

Lemma or_bit_eq b k val : 0 <= k → MStatus.or_bit b k val = Z.lor val (Z.shiftl (b2z b) k).
Proof.
  intros. unfold MStatus.or_bit. destruct b; [done|]. cbn [b2z].
  by rewrite Z.shiftl_0_l, Z.lor_0_r.
Qed.

Lemma b2z_bit x k : 0 <= k → b2z (bit x k) = Z.land (Z.shiftr x k) 1.
Proof.
  intros. rewrite bit_testbit by done. change 1 with (Z.ones 1). rewrite Z.land_ones by lia.
  rewrite Z.shiftr_div_pow2 by done. change (2 ^ 1) with 2. rewrite <- Z.testbit_spec' by done.
  by destruct (Z.testbit x k).
Qed.

Lemma b2z_inj a b : b2z a = b2z b → a = b.
Proof. by destruct a, b. Qed.

Lemma b2z_urange b : urange 1 (b2z b).
Proof. by destruct b. Qed.

Lemma mstatus_to_bits_eq s :
  MStatus.wf s →
  MStatus.to_bits s =
  Z.lor (Z.shiftl (b2z (MStatus.sd s)) 63) (Z.lor (Z.shiftl (b2z (MStatus.mbe s)) 37)
  (Z.lor (Z.shiftl (b2z (MStatus.sbe s)) 36) (Z.lor (Z.shiftl (MStatus.sxl s) 34)
  (Z.lor (Z.shiftl (MStatus.uxl s) 32) (Z.lor (Z.shiftl (b2z (MStatus.tsr s)) 22)
  (Z.lor (Z.shiftl (b2z (MStatus.tw s)) 21) (Z.lor (Z.shiftl (b2z (MStatus.tvm s)) 20)
  (Z.lor (Z.shiftl (b2z (MStatus.mxr s)) 19) (Z.lor (Z.shiftl (b2z (MStatus.sum s)) 18)
  (Z.lor (Z.shiftl (b2z (MStatus.mprv s)) 17) (Z.lor (Z.shiftl (MStatus.xs s) 15)
  (Z.lor (Z.shiftl (MStatus.fs s) 13) (Z.lor (Z.shiftl (MStatus.mpp s) 11)
  (Z.lor (Z.shiftl (MStatus.vs s) 9) (Z.lor (Z.shiftl (b2z (MStatus.spp s)) 8)
  (Z.lor (Z.shiftl (b2z (MStatus.mpie s)) 7) (Z.lor (Z.shiftl (b2z (MStatus.spie s)) 5)
  (Z.lor (Z.shiftl (b2z (MStatus.mie s)) 3) (Z.shiftl (b2z (MStatus.sie s)) 1))))))))))))))))))).
Proof.
  intros (H1 & H2 & H3 & H4 & H5 & H6). unfold MStatus.to_bits, MStatus.or_field; cbv zeta.
  rewrite !or_bit_eq by lia.
  repeat match goal with |- context [b2z ?b] =>
    pose proof (b2z_urange b); generalize dependent (b2z b); intros end.
  bit_fields.
Qed.

(** Abstract every flag of the goal as a one-bit integer. *)
Ltac bools_as_bits :=
  repeat match goal with |- context [b2z ?b] =>
    pose proof (b2z_urange b); generalize dependent (b2z b); intros end.

Lemma mstatus_from_to s : MStatus.wf s → MStatus.from_bits (MStatus.to_bits s) = s.
Proof.
  intros Hwf. rewrite mstatus_to_bits_eq by done.
  destruct s as [sd mbe sbe sxl uxl tsr tw tvm mxr sum mprv xs fs mpp vs spp mpie spie mie sie].
  destruct Hwf as (H1 & H2 & H3 & H4 & H5 & H6).
  cbn [MStatus.sd MStatus.mbe MStatus.sbe MStatus.sxl MStatus.uxl MStatus.tsr MStatus.tw
       MStatus.tvm MStatus.mxr MStatus.sum MStatus.mprv MStatus.xs MStatus.fs MStatus.mpp
       MStatus.vs MStatus.spp MStatus.mpie MStatus.spie MStatus.mie MStatus.sie] in *.
  unfold MStatus.from_bits; cbv zeta.
  f_equal; try (apply b2z_inj; rewrite b2z_bit by lia); bools_as_bits; bit_fields.
Qed.

Lemma mstatus_from_wf v : MStatus.wf (MStatus.from_bits v).
Proof.
  unfold MStatus.wf, MStatus.from_bits; cbn -[wrap].
  conj_split; (rewrite wrap_small; [|apply (urange_weaken 2); [lia|]]); field_range.
Qed.

Lemma mstatus_to_from v :
  urange 64 v → MStatus.to_bits (MStatus.from_bits v) = Z.land v MStatus.MASK.
Proof.
  intros Hv. rewrite mstatus_to_bits_eq by apply mstatus_from_wf.
  unfold MStatus.from_bits, MStatus.MASK; cbn [MStatus.sd MStatus.mbe MStatus.sbe MStatus.sxl
    MStatus.uxl MStatus.tsr MStatus.tw MStatus.tvm MStatus.mxr MStatus.sum MStatus.mprv MStatus.xs
    MStatus.fs MStatus.mpp MStatus.vs MStatus.spp MStatus.mpie MStatus.spie MStatus.mie
    MStatus.sie].
  rewrite !b2z_bit by lia. bit_fields.
Qed.

Lemma mstatus_to_range s : urange 64 (MStatus.to_bits s).
Proof.
  unfold MStatus.to_bits, MStatus.or_field; cbv zeta. rewrite !or_bit_eq by lia.
  repeat apply urange_lor; try lia; try (apply wrap_range; lia); try done;
    lazymatch goal with |- urange _ (Z.shiftl (b2z ?b) _) => by destruct b end.
Qed.

Lemma satp_from_wf v : urange 64 v → Satp.wf (Satp.from_bits v).
Proof.
  intros Hv. unfold Satp.wf, Satp.from_bits; cbn -[wrap]. conj_split.
  - destruct ((_ =? 0) || (_ =? 8)) eqn:E; [|auto].
    apply orb_true_iff in E as [E%Z.eqb_eq|E%Z.eqb_eq]; auto.
  - apply wrap_range. lia.
  - field_range.
Qed.

Lemma satp_from_to s : Satp.wf s → Satp.from_bits (Satp.to_bits s) = s.
Proof.
  destruct s as [m a p]. intros (Hm & Ha & Hp). unfold Satp.from_bits, Satp.to_bits.
  cbn [Satp.mode Satp.asid Satp.ppn] in *.
  assert (Hr : urange 4 m) by (unfold urange; lia).
  assert (E : as_u8 (Z.land (Z.shiftr
     (Z.lor (Z.lor (as_u64 (Z.shiftl (Z.land m 15) 60)) (as_u64 (Z.shiftl (Z.land a 0xFFFF) 44)))
       (Z.land p 0xFFFFFFFFFFF)) 60) 15) = m) by bit_fields.
  rewrite E. f_equal; [by destruct Hm as [-> | ->]|bit_fields..].
Qed.

Lemma satp_to_range s : urange 64 (Satp.to_bits s).
Proof.
  unfold Satp.to_bits. repeat apply urange_lor; try lia; try (apply wrap_range; lia).
  apply (urange_weaken 44); [lia|field_range].
Qed.

(** * Properties *)

(** The [mstatus] layout round-trips.  Decoding the encoding of any
    [MStatus] whose two-bit fields hold two bits gives it back, and encoding the
    decoding of a 64-bit value keeps exactly the implemented bits, so a CSR
    write followed by a read returns the written value masked. *)
Theorem mstatus_roundtrip s v :
  MStatus.wf s → urange 64 v →
  MStatus.from_bits (MStatus.to_bits s) = s
  ∧ MStatus.to_bits (MStatus.from_bits v) = Z.land v MStatus.MASK.
Proof. intros. split; [by apply mstatus_from_to|by apply mstatus_to_from]. Qed.

Lemma mstatus_roundtrip_witness :
  MStatus.from_bits (MStatus.to_bits MStatus.default) = MStatus.default
  ∧ MStatus.to_bits (MStatus.from_bits 0xFFFF) = 0x7FAA + 0x8000.
Proof.
  apply (mstatus_roundtrip MStatus.default 0xFFFF).
  - unfold MStatus.wf, urange. cbn. lia.
  - unfold urange. lia.
Defined.

(** [satp] is WARL.  Whatever is written, the mode read back is Bare or Sv39
    (any other mode becomes Bare), the ASID and PPN fields are kept, and writing
    back the value read changes nothing. *)
Theorem satp_warl v :
  urange 64 v →
  let s := Satp.from_bits v in
  (Satp.mode s = 0 ∨ Satp.mode s = 8)
  ∧ (Satp.mode s = 8 ↔ Z.land (Z.shiftr v 60) 0xF = 8)
  ∧ Satp.asid s = Z.land (Z.shiftr v 44) 0xFFFF
  ∧ Satp.ppn s = Z.land v 0xFFFFFFFFFFF
  ∧ Satp.from_bits (Satp.to_bits s) = s.
Proof.
  intros Hv s. pose proof (satp_from_wf v Hv) as Hwf. pose proof Hwf as (Hm & Ha & Hp).
  split_and!; [done| | |done|by apply satp_from_to].
  - unfold s, Satp.from_bits; cbn [Satp.mode].
    rewrite wrap_small by (apply (urange_weaken 4); [lia|field_range]).
    generalize (Z.land (Z.shiftr v 60) 0xF). intros z.
    destruct (Z.eqb_spec z 0), (Z.eqb_spec z 8); cbn [orb]; lia.
  - unfold s, Satp.from_bits; cbn [Satp.asid].
    apply wrap_small. field_range.
Qed.

Lemma satp_warl_witness :
  Satp.mode (Satp.from_bits 0x9000000000080000) = 0
  ∨ Satp.mode (Satp.from_bits 0x9000000000080000) = 8.
Proof. apply satp_warl. unfold urange. lia. Defined.
