(* ===== verification/Mmu.v ===== *)
(** The Sv39 MMU and its TLB ([riscv-supervisor/src/mmu.rs]).

    The TLB is 64 sets of four ways with a round-robin victim counter per set;
    [translate] serves from it only when the cached Accessed/Dirty bits already
    suffice, otherwise walks the page table, checks permissions, updates A/D in
    memory and caches the result.  The page-fault bookkeeping the source keeps
    in [dbg_*] fields is modelled too. *)

From S2P Require Import Prelude Bits Types SupTypes Cpu.

(** * Data *)

Module Tlb.
(** [struct TlbEntry] *)
Record entry := mkEntry {
  valid : bool;
  va_key : Z;
  ppn : Z;
  eflags : Z;
  size : Z;
}.
Definition entry_default : entry := mkEntry false 0 0 0 0.
#[global] Instance entry_inhabited : Inhabited entry := populate entry_default.
#[global] Instance eta_entry : Eta entry := λ e,
  mkEntry (valid e) (va_key e) (ppn e) (eflags e) (size e).

Record t := mk { sets : list entry; lru : list Z }.
#[global] Instance eta_tlb : Eta t := λ x, mk (sets x) (lru x).

Definition new : t := mk (replicate 256 entry_default) (replicate 64 0).

Definition flush (x : t) : t :=
  mk ((λ e, e <| valid := false |>) <$> sets x) ((λ _, 0) <$> lru x).

Definition vpn_at (vaddr size : Z) : Z :=
  if size =? 2 then Z.shiftr vaddr 30
  else if size =? 1 then Z.shiftr vaddr 21
  else Z.shiftr vaddr 12.

Definition set_of (vpn : Z) : Z := Z.land vpn 0x3F.

Definition hits (vaddr size : Z) (e : entry) : bool :=
  valid e && (Tlb.size e =? size) && (va_key e =? vpn_at vaddr size).

(** The four ways of the set, in order. *)
Definition ways (x : t) (vaddr size : Z) : list entry :=
  let start := Z.to_nat (set_of (vpn_at vaddr size) * 4) in
  (λ i, sets x !!! (start + i)%nat) <$> [0; 1; 2; 3]%nat.

Definition lookup_at (x : t) (vaddr size : Z) : option entry :=
  List.find (hits vaddr size) (ways x vaddr size).

(** [for size in 0..=2 { for i in 0..4 { .. return Some(e) } } None] *)
Definition lookup (x : t) (vaddr : Z) : option entry :=
  match lookup_at x vaddr 0 with
  | Some e => Some e
  | None => match lookup_at x vaddr 1 with
            | Some e => Some e
            | None => lookup_at x vaddr 2
            end
  end.

Section Insert.
Context `{Profile}.
Definition insert (vaddr ppn size flags : Z) : M t unit :=
  let vpn := vpn_at vaddr size in
  let set := set_of vpn in
  l ← get (λ x, lru x !!! Z.to_nat set);
  let way := Z.land l 3 in
  l' ← lift (add_u 8 l 1);
  modify (λ x, x <| lru := <[Z.to_nat set := Z.land l' 3]> (lru x) |>);;
  modify (λ x, x <| sets := <[Z.to_nat (set * 4 + way) := mkEntry true vpn ppn flags size]>
                              (sets x) |>).
End Insert.
End Tlb.

Module Mmu.
Record t := mk {
  tlb : Tlb.t;
  dbg_fail_count : Z;
  dbg_fail_vaddr : Z;
  dbg_fail_pte_addr : Z;
  dbg_fail_pte : Z;
  dbg_fail_level : Z;
  dbg_fail_reason : Z;
  dbg_satp_ppn : Z;
  dbg_root_pte : Z;
  dbg_dumped : bool;
  dbg_walk_vaddr : Z;
  dbg_walk_root : Z;
  dbg_walk_pte_addr : list Z;
  dbg_walk_pte : list Z;
  dbg_walk_paddr : Z;
  dbg_walk_ppn : Z;
  dbg_walk_size : Z;
}.
#[global] Instance eta_mmu : Eta t := λ m,
  mk (tlb m) (dbg_fail_count m) (dbg_fail_vaddr m) (dbg_fail_pte_addr m) (dbg_fail_pte m)
     (dbg_fail_level m) (dbg_fail_reason m) (dbg_satp_ppn m) (dbg_root_pte m) (dbg_dumped m)
     (dbg_walk_vaddr m) (dbg_walk_root m) (dbg_walk_pte_addr m) (dbg_walk_pte m)
     (dbg_walk_paddr m) (dbg_walk_ppn m) (dbg_walk_size m).

Definition new : t :=
  mk Tlb.new 0 0 0 0 0 0 0 0 false 0 0 [0; 0; 0] [0; 0; 0] 0 0 0.

Definition flush_tlb (m : t) : t := m <| tlb := Tlb.flush (tlb m) |>.

Definition page_fault_for (a : AccessType) : Exception :=
  match a with
  | Instruction => InstructionPageFault
  | Load => LoadPageFault
  | Store => StorePageFault
  end.

(** [flags] is the PTE shifted right by one: R, W, X, U, G, A, D from bit 0. *)
Definition ad_satisfied (flags : Z) (access : AccessType) : bool :=
  let a := negb (Z.land flags (Z.shiftl 1 5) =? 0) in
  let d := negb (Z.land flags (Z.shiftl 1 6) =? 0) in
  a && (negb (bool_decide (access = Store)) || d).

Definition apply_pte_flags (flags : Z) (access : AccessType) (priv : Privilege) (sum mxr : bool)
  : Result unit Trap :=
  let r := Z.land flags 1 in
  let w := Z.land (Z.shiftr flags 1) 1 in
  let x := Z.land (Z.shiftr flags 2) 1 in
  let u := Z.land (Z.shiftr flags 3) 1 in
  let is_s := bool_decide (priv = PSupervisor) in
  match access with
  | Instruction =>
      if x =? 0 then Err (TException InstructionPageFault)
      else if is_s && negb (u =? 0) then Err (TException InstructionPageFault)
      else Ok tt
  | Load =>
      if (r =? 0) && (negb mxr || (x =? 0)) then Err (TException LoadPageFault)
      else if is_s && negb (u =? 0) && negb sum then Err (TException LoadPageFault)
      else Ok tt
  | Store =>
      if w =? 0 then Err (TException StorePageFault)
      else if is_s && negb (u =? 0) && negb sum then Err (TException StorePageFault)
      else Ok tt
  end.

Definition apply_tlb (e : Tlb.entry) (vaddr : Z) (access : AccessType) (priv : Privilege)
  (sum mxr : bool) : Result Z Trap :=
  match apply_pte_flags (Tlb.eflags e) access priv sum mxr with
  | Err t => Err t
  | Ok _ =>
      let base := as_u64 (Z.shiftl (Tlb.ppn e) 12) in
      Ok (if Tlb.size e =? 2 then Z.lor base (Z.land vaddr 0x3FFFFFFF)
          else if Tlb.size e =? 1 then Z.lor base (Z.land vaddr 0x1FFFFF)
          else Z.lor base (Z.land vaddr 0xFFF))
  end.

(** The result of a walk: physical address, cached frame, page size, flags and
    the address of the leaf PTE. *)
Record walk_ok := mkWalk { w_paddr : Z; w_ppn : Z; w_size : Z; w_flags : Z; w_pte_addr : Z }.

Section Walk.
Context {B : Type} `{Bus B} `{Profile}.
Abbreviation W := (M (t * B)).

Definition on_mmu {A} (m : M t A) : W A := on_fst m.
Definition on_bus {A} (m : M B A) : W A := on_snd m.
Definition upd (f : t → t) : W unit := on_mmu (modify f).

Definition walk_fail (vaddr : Z) (access : AccessType) (reason : Z) : W Trap :=
  upd (λ m, m <| dbg_fail_vaddr := vaddr |>);;
  upd (λ m, m <| dbg_fail_reason := reason |>);;
  n ← on_mmu (get dbg_fail_count);
  n' ← on_mmu (lift (add_u 64 n 1));
  upd (λ m, m <| dbg_fail_count := n' |>);;
  mret (TException (page_fault_for access)).

Definition fail {A} (vaddr : Z) (access : AccessType) (reason : Z) : W (Result A Trap) :=
  t ← walk_fail vaddr access reason; mret (Err t).

(** [vpn[level]] *)
Definition vpn (vaddr : Z) (level : nat) : Z :=
  match level with
  | O => Z.land (Z.shiftr vaddr 12) 0x1FF
  | 1%nat => Z.land (Z.shiftr vaddr 21) 0x1FF
  | _ => Z.land (Z.shiftr vaddr 30) 0x1FF
  end.

(** One iteration of the walk loop, [None] in the error for "not a leaf". *)
Definition leaf_addr (level : nat) (ppn vaddr : Z) : option (Z * Z * Z) :=
  match level with
  | 2%nat =>
      if negb (Z.land ppn 0x3FFFF =? 0) then None
      else let p := Z.land ppn (unot 64 0x3FFFF) in
           Some (Z.lor (as_u64 (Z.shiftl p 12)) (Z.land vaddr 0x3FFFFFFF), p, 2)
  | 1%nat =>
      if negb (Z.land ppn 0x1FF =? 0) then None
      else let p := Z.land ppn (unot 64 0x1FF) in
           Some (Z.lor (as_u64 (Z.shiftl p 12)) (Z.land vaddr 0x1FFFFF), p, 1)
  | _ => Some (Z.lor (as_u64 (Z.shiftl ppn 12)) (Z.land vaddr 0xFFF), ppn, 0)
  end.

Fixpoint walk_loop (level : nat) (dump : bool) (table_addr vaddr : Z) (access : AccessType)
  : W (Result walk_ok Trap) :=
  pte_addr ← on_mmu (lift (add_u 64 table_addr (vpn vaddr level * 8)));
  pte ← on_bus (read_u64 pte_addr);
  upd (λ m, m <| dbg_fail_pte_addr := pte_addr |>);;
  upd (λ m, m <| dbg_fail_pte := pte |>);;
  upd (λ m, m <| dbg_fail_level := Z.of_nat level |>);;
  (if dump then
     upd (λ m, m <| dbg_walk_pte_addr := <[level := pte_addr]> (dbg_walk_pte_addr m) |>);;
     upd (λ m, m <| dbg_walk_pte := <[level := pte]> (dbg_walk_pte m) |>)
   else mret tt);;
  if Z.land pte 1 =? 0 then fail vaddr access 1 else
  let r := Z.land (Z.shiftr pte 1) 1 in
  let w := Z.land (Z.shiftr pte 2) 1 in
  let x := Z.land (Z.shiftr pte 3) 1 in
  let flags := as_u8 (Z.land (Z.shiftr pte 1) 0x7F) in
  if negb (w =? 0) && (r =? 0) then fail vaddr access 2
  else
  let ppn := Z.land (Z.shiftr pte 10) 0xFFFFFFFFFFF in
  if (r =? 0) && (w =? 0) && (x =? 0) then
    match level with
    | O => fail vaddr access 3
    | S l => walk_loop l dump (as_u64 (Z.shiftl ppn 12)) vaddr access
    end
  else
    match leaf_addr level ppn vaddr with
    | None => fail vaddr access (if (level =? 2)%nat then 4 else 5)
    | Some (paddr, cache_ppn, size) =>
        (if dump then
           upd (λ m, m <| dbg_walk_paddr := paddr |>);;
           upd (λ m, m <| dbg_walk_ppn := ppn |>);;
           upd (λ m, m <| dbg_walk_size := size |>)
         else mret tt);;
        mret (Ok (mkWalk paddr cache_ppn size flags pte_addr))
    end.

Definition walk_sv39 (satp : Satp.t) (vaddr : Z) (access : AccessType)
  : W (Result walk_ok Trap) :=
  let root := as_u64 (Z.shiftl (Satp.ppn satp) 12) in
  upd (λ m, m <| dbg_satp_ppn := Satp.ppn satp |>);;
  ra ← on_mmu (lift (add_u 64 root 16));
  rp ← on_bus (read_u64 ra);
  upd (λ m, m <| dbg_root_pte := rp |>);;
  dumped ← on_mmu (get dbg_dumped);
  let dump := (vaddr =? 0xffffffff8089a090) && negb dumped in
  (if dump then
     upd (λ m, m <| dbg_dumped := true |>);;
     upd (λ m, m <| dbg_walk_vaddr := vaddr |>);;
     upd (λ m, m <| dbg_walk_root := root |>)
   else mret tt);;
  walk_loop 2 dump root vaddr access.

Definition set_ad (pte_addr flags : Z) (access : AccessType) : W Z :=
  if ad_satisfied flags access then mret flags
  else
    pte ← on_bus (read_u64 pte_addr);
    let pte := Z.lor pte (Z.shiftl 1 6) in
    let pte := if bool_decide (access = Store) then Z.lor pte (Z.shiftl 1 7) else pte in
    on_bus (write_u64 pte_addr pte);;
    mret (as_u8 (Z.land (Z.shiftr pte 1) 0x7F)).

Definition tlb_insert (vaddr ppn size flags : Z) : W unit :=
  x ← on_mmu (get tlb);
  match Tlb.insert vaddr ppn size flags x with
  | Some (_, x') => upd (λ m, m <| tlb := x' |>)
  | None => panic
  end.

Definition translate (satp : Satp.t) (priv : Privilege) (sum mxr : bool) (access : AccessType)
  (vaddr : Z) : W (Result Z Trap) :=
  if Satp.mode satp =? 0 then mret (Ok vaddr)
  else if negb (Satp.mode satp =? 8) then fail vaddr access 6
  else
  let top_bits := Z.shiftr vaddr 38 in
  if negb (top_bits =? 0) && negb (top_bits =? 0x3FFFFFF) then fail vaddr access 7
  else
  x ← on_mmu (get tlb);
  match (match Tlb.lookup x vaddr with
         | Some e => if ad_satisfied (Tlb.eflags e) access
                     then Some (apply_tlb e vaddr access priv sum mxr) else None
         | None => None
         end) with
  | Some r => mret r
  | None =>
      res ← walk_sv39 satp vaddr access;
      match res with
      | Err trap =>
          if (0x80201000 <=? vaddr) && (vaddr <? 0x80202000) then
            tlb_insert vaddr (Z.shiftr vaddr 12) 0 0x67;; mret (Ok vaddr)
          else if (0x80200000 <=? vaddr) && (vaddr <? 0x81800000) then
            tlb_insert vaddr (Z.shiftr vaddr 12) 0 0x67;; mret (Ok vaddr)
          else mret (Err trap)
      | Ok w =>
          match apply_pte_flags (w_flags w) access priv sum mxr with
          | Err t => mret (Err t)
          | Ok _ =>
              flags ← set_ad (w_pte_addr w) (w_flags w) access;
              tlb_insert vaddr (w_ppn w) (w_size w) flags;;
              mret (Ok (w_paddr w))
          end
      end
  end.
End Walk.
End Mmu.
