(* ===== verification/MmuSpec.v ===== *)
(** Address translation: the Sv39 algorithm of the privileged architecture as a
    pure function of memory, and how far the MMU, TLB included, implements it.

    [sv39_translate] is the manual's algorithm.  [spec_walk] is the walk that the
    source does, which does not look at the reserved bits of a PTE; [deviation]
    lists the three things the source grants and the algorithm refuses.
    [tlb_ok] says that every valid TLB entry agrees with the walk; the theorem
    shows that [translate] keeps it and that its answer, cached or not, is the
    algorithm's but for [deviation]. *)

From S2P Require Import Prelude Bits Types SupTypes Cpu Mmu.

(** * Memory as 64-bit words *)

(** What the walker needs of the bus: the aligned doublewords of a region
    [in_mem] behave as memory.  The reference memory has the whole address space
    as its region, the device bus has DRAM ([BusWords]). *)
Class WordMem (B : Type) `{Bus B} := {
  word : B → Z → Z;
  mem_ok : B → Prop;
  in_mem : Z → Prop;
  word_range b a : mem_ok b → urange 64 (word b a);
  read_word b a :
    mem_ok b → urange 64 a → (8 | a) → in_mem a → read_u64 a b = Some (word b a, b);
  write_word b a v :
    mem_ok b → urange 64 a → (8 | a) → in_mem a → urange 64 v →
    ∃ b', write_u64 a v b = Some (tt, b') ∧ mem_ok b'
      ∧ ∀ a', urange 64 a' → (8 | a') → word b' a' = if decide (a' = a) then v else word b a';
}.

(** * The algorithm *)

(** Fields of a PTE. *)
Definition pte_v (p : Z) : bool := Z.testbit p 0.
Definition pte_r (p : Z) : bool := Z.testbit p 1.
Definition pte_w (p : Z) : bool := Z.testbit p 2.
Definition pte_x (p : Z) : bool := Z.testbit p 3.
Definition pte_ppn (p : Z) : Z := p / 2 ^ 10 mod 2 ^ 44.

(** log2 of the size of a page at a level: 12, 21, 30. *)
Definition page_bits (level : nat) : Z := 12 + 9 * Z.of_nat level.

(** Not valid, or writable without being readable. *)
Definition pte_bad (p : Z) : bool := negb (pte_v p) || (pte_w p && negb (pte_r p)).
Definition pte_leaf (p : Z) : bool := pte_r p || pte_x p.
(** Bits 54 to 63, which only extensions that the hart does not have define,
    and U, A and D of a PTE that points to a table. *)
Definition pte_reserved (p : Z) : bool :=
  negb (p / 2 ^ 54 mod 2 ^ 10 =? 0)
  || negb (pte_leaf p) && (Z.testbit p 4 || Z.testbit p 6 || Z.testbit p 7).
Definition pte_at (base va : Z) (level : nat) : Z := base + 8 * (va / 2 ^ page_bits level mod 512).

(** The walk of the manual: the level and the address of the leaf PTE, [None]
    for a page fault. *)
Fixpoint sv39_walk (rd : Z → Z) (level : nat) (base va : Z) : option (nat * Z) :=
  let a := pte_at base va level in
  let pte := rd a in
  if pte_bad pte || pte_reserved pte then None
  else if pte_leaf pte then
    (if pte_ppn pte mod 2 ^ (9 * Z.of_nat level) =? 0 then Some (level, a) else None)
  else match level with
       | O => None
       | S l => sv39_walk rd l (pte_ppn pte * 4096) va
       end.

(** The same without the reserved bits, as the source walks. *)
Fixpoint spec_walk (rd : Z → Z) (level : nat) (base va : Z) : option (nat * Z) :=
  let a := base + 8 * (va / 2 ^ page_bits level mod 512) in
  let pte := rd a in
  if negb (pte_v pte) || (pte_w pte && negb (pte_r pte)) then None
  else if pte_r pte || pte_x pte then
    (if pte_ppn pte mod 2 ^ (9 * Z.of_nat level) =? 0 then Some (level, a) else None)
  else match level with
       | O => None
       | S l => spec_walk rd l (pte_ppn pte * 4096) va
       end.

(** No PTE that the walk uses has a reserved bit set. *)
Fixpoint walk_clear (rd : Z → Z) (level : nat) (base va : Z) : bool :=
  let pte := rd (pte_at base va level) in
  if pte_bad pte then true
  else negb (pte_reserved pte) &&
       (pte_leaf pte || match level with O => true | S l => walk_clear rd l (pte_ppn pte * 4096) va end).

(** Every PTE that the walk reads lies in [mem]. *)
Fixpoint walk_in (mem : Z → Prop) (rd : Z → Z) (level : nat) (base va : Z) : Prop :=
  let pte := rd (pte_at base va level) in
  mem (pte_at base va level) ∧
  (pte_bad pte = false → pte_leaf pte = false →
   match level with O => True | S l => walk_in mem rd l (pte_ppn pte * 4096) va end).

Section Tables.
Context {B : Type} {BU : Bus B} {WM : WordMem B}.

(** The tables that a translation of [va] walks, and the root entry that the
    source reads for its bookkeeping, lie in the region. *)
Definition tables_in (satp : Satp.t) (b : B) (va : Z) : Prop :=
  Satp.mode satp = 8 →
  in_mem (Satp.ppn satp * 4096 + 16)
  ∧ walk_in in_mem (word b) 2 (Satp.ppn satp * 4096) va.
End Tables.

(** The frame number from the leaf, the offset from the virtual address. *)
Definition spec_paddr (level : nat) (pte va : Z) : Z :=
  pte_ppn pte * 4096 + va mod 2 ^ page_bits level.

(** Bits 1 to 7 of a PTE: R, W, X, U, G, A, D. *)
Definition flags_of (pte : Z) : Z := Z.land (Z.shiftr pte 1) 0x7F.

(** The window the source identity-maps when the walk fails. *)
Definition identity_window (va : Z) : bool := (0x80200000 <=? va) && (va <? 0x81800000).

Definition canonical (va : Z) : Prop := Z.shiftr va 38 = 0 ∨ Z.shiftr va 38 = 0x3FFFFFF.
#[global] Instance canonical_dec va : Decision (canonical va).
Proof. unfold canonical. apply _. Defined.

Definition root_of (satp : Satp.t) : Z := Satp.ppn satp * 4096.

(** The permissions of a leaf PTE: R, W and X with MXR; a page with U is for
    user mode and, for loads and stores with SUM, supervisor mode; one without is
    for supervisor mode only. *)
Definition sv39_permits (pte : Z) (access : AccessType) (priv : Privilege) (sum mxr : bool) : bool :=
  let r := Z.testbit pte 1 in
  let w := Z.testbit pte 2 in
  let x := Z.testbit pte 3 in
  let u := Z.testbit pte 4 in
  let right := match access with Instruction => x | Load => r || (mxr && x) | Store => w end in
  let mode := match priv with
              | PUser => u
              | PSupervisor => negb u || (sum && negb (bool_decide (access = Instruction)))
              | PMachine => true
              end in
  right && mode.

Definition sv39_translate (rd : Z → Z) (satp : Satp.t) (priv : Privilege) (sum mxr : bool)
  (access : AccessType) (va : Z) : Result Z Trap :=
  let pf := Err (TException (Mmu.page_fault_for access)) in
  if Satp.mode satp =? 0 then Ok va
  else if decide (canonical va) then
    match sv39_walk rd 2 (root_of satp) va with
    | Some (level, a) =>
        if sv39_permits (rd a) access priv sum mxr then Ok (spec_paddr level (rd a) va) else pf
    | None => pf
    end
  else pf.

(** What the source grants although the algorithm refuses it: an address of the
    identity window that the walk does not map; a mapping whose PTEs have
    reserved bits; and, for user mode, a mapping without U as if it had U. *)
Definition deviation (rd : Z → Z) (satp : Satp.t) (priv : Privilege) (sum mxr : bool)
  (access : AccessType) (va : Z) : option Z :=
  if (Satp.mode satp =? 0) || negb (bool_decide (canonical va)) then None
  else match spec_walk rd 2 (root_of satp) va with
  | None => if identity_window va then Some va else None
  | Some (level, a) =>
      let user := bool_decide (priv = PUser) in
      if negb (walk_clear rd 2 (root_of satp) va) || (user && negb (Z.testbit (rd a) 4)) then
        if sv39_permits (if user then Z.lor (rd a) 0x10 else rd a) access priv sum mxr
        then Some (spec_paddr level (rd a) va) else None
      else None
  end.

Definition emulated (arch : Result Z Trap) (dev : option Z) : Result Z Trap :=
  match arch, dev with
  | Err _, Some pa => Ok pa
  | _, _ => arch
  end.

(** The same with the permission check of the source. *)
Definition flags_translate (rd : Z → Z) (satp : Satp.t) (priv : Privilege) (sum mxr : bool)
  (access : AccessType) (va : Z) : Result Z Trap :=
  let pf := Err (TException (Mmu.page_fault_for access)) in
  if Satp.mode satp =? 0 then Ok va
  else if decide (canonical va) then
    match spec_walk rd 2 (root_of satp) va with
    | Some (level, a) =>
        match Mmu.apply_pte_flags (flags_of (rd a)) access priv sum mxr with
        | Ok _ => Ok (spec_paddr level (rd a) va)
        | Err t => Err t
        end
    | None => if identity_window va then Ok va else pf
    end
  else pf.

(** * The walk *)

(** Bit tests of the source against the fields. *)
Lemma land_bit_eqb x k : 0 <= k → (Z.land (Z.shiftr x k) 1 =? 0) = negb (Z.testbit x k).
Proof. intros. rewrite <- bit_testbit by done. unfold bit. by rewrite negb_involutive. Qed.

Lemma land_1_eqb x : (Z.land x 1 =? 0) = negb (Z.testbit x 0).
Proof. rewrite <- (land_bit_eqb x 0) by lia. by rewrite Z.shiftr_0_r. Qed.

Lemma field_mod x k n : 0 <= k → 0 <= n → Z.land (Z.shiftr x k) (Z.ones n) = x / 2 ^ k mod 2 ^ n.
Proof. intros. by rewrite Z.land_ones, Z.shiftr_div_pow2. Qed.

Lemma ppn_field p : Z.land (Z.shiftr p 10) 0xFFFFFFFFFFF = pte_ppn p.
Proof. exact (field_mod p 10 44 ltac:(lia) ltac:(lia)). Qed.

Lemma pte_ppn_range p : urange 44 (pte_ppn p).
Proof. apply Z.mod_pos_bound. lia. Qed.

Lemma vpn_field va level :
  (level <= 2)%nat → Mmu.vpn va level = va / 2 ^ page_bits level mod 512.
Proof.
  intros. destruct level as [|[|[|]]]; [| | |lia].
  - exact (field_mod va 12 9 ltac:(lia) ltac:(lia)).
  - exact (field_mod va 21 9 ltac:(lia) ltac:(lia)).
  - exact (field_mod va 30 9 ltac:(lia) ltac:(lia)).
Qed.

Lemma lor_add_disjoint k a b : 0 <= k → urange k b → Z.lor (a * 2 ^ k) b = a * 2 ^ k + b.
Proof.
  intros Hk Hb. rewrite <- Z.add_lor_land.
  assert (E : Z.land (a * 2 ^ k) b = 0); [|lia].
  apply Z.bits_inj'. intros i Hi. rewrite Z.land_spec, Z.bits_0.
  destruct (Z.ltb_spec i k).
  - by rewrite Z.mul_pow2_bits_low.
  - rewrite (urange_testbit k b i) by (done || lia). by rewrite andb_false_r.
Qed.

Lemma clear_low ppn n :
  0 <= n < 64 → urange 44 ppn → Z.land ppn (Z.ones n) = 0 → Z.land ppn (unot 64 (Z.ones n)) = ppn.
Proof.
  intros Hn Hp E. apply Z.bits_inj'. intros i Hi. rewrite Z.land_spec. unfold unot.
  rewrite testbit_wrap, Z.lnot_spec by lia.
  assert (Hz : Z.testbit (Z.land ppn (Z.ones n)) i = false) by (by rewrite E, Z.bits_0).
  rewrite Z.land_spec in Hz.
  destruct (Z.ltb_spec i 64).
  - destruct (Z.testbit ppn i), (Z.testbit (Z.ones n) i); done.
  - rewrite (urange_testbit 44 ppn i) by (done || lia). done.
Qed.

Lemma offset_or ppn va level :
  (level <= 2)%nat → urange 44 ppn → ppn mod 2 ^ (9 * Z.of_nat level) = 0 →
  Z.lor (as_u64 (Z.shiftl ppn 12)) (va mod 2 ^ page_bits level)
  = ppn * 4096 + va mod 2 ^ page_bits level.
Proof.
  intros Hl Hp E. rewrite Z.shiftl_mul_pow2 by lia.
  rewrite wrap_small by (unfold urange in *; lia).
  assert (Hd : ∃ q, ppn = q * 2 ^ (9 * Z.of_nat level)).
  { exists (ppn / 2 ^ (9 * Z.of_nat level)).
    pose proof (pow2_pos (9 * Z.of_nat level) ltac:(lia)).
    pose proof (Z.div_mod ppn (2 ^ (9 * Z.of_nat level)) ltac:(lia)). lia. }
  destruct Hd as [q ->]. rewrite <- Z.mul_assoc, <- Z.pow_add_r by lia.
  replace (9 * Z.of_nat level + 12) with (page_bits level) by (unfold page_bits; lia).
  rewrite lor_add_disjoint.
  - f_equal. unfold page_bits. rewrite Z.add_comm, Z.pow_add_r by lia. lia.
  - unfold page_bits. lia.
  - apply Z.mod_pos_bound, pow2_pos. unfold page_bits. lia.
Qed.

(** [leaf_addr] is the manual's address, and refuses a misaligned superpage. *)
Lemma leaf_addr_spec level ppn va :
  (level <= 2)%nat → urange 44 ppn →
  Mmu.leaf_addr level ppn va =
    if ppn mod 2 ^ (9 * Z.of_nat level) =? 0
    then Some (ppn * 4096 + va mod 2 ^ page_bits level, ppn, Z.of_nat level) else None.
Proof.
  intros Hl Hp. pose proof (offset_or ppn va level Hl Hp) as Ho.
  destruct level as [|[|[|]]]; [| | |lia]; cbn [Mmu.leaf_addr].
  - rewrite Z.mod_1_r in *. cbn [Z.eqb]. rewrite <- Ho by done. do 3 f_equal.
    change 0xFFF with (Z.ones 12). by rewrite Z.land_ones.
  - change 0x1FF with (Z.ones 9). rewrite (Z.land_ones ppn 9) by lia.
    change (2 ^ (9 * Z.of_nat 1)) with (2 ^ 9) in *.
    destruct (Z.eqb_spec (ppn mod 2 ^ 9) 0) as [E|E]; cbn [negb]; [|done].
    rewrite (clear_low ppn 9) by (rewrite ?Z.land_ones; done || lia).
    rewrite <- Ho by done. do 3 f_equal. change 0x1FFFFF with (Z.ones 21). by rewrite Z.land_ones.
  - change 0x3FFFF with (Z.ones 18). rewrite (Z.land_ones ppn 18) by lia.
    change (2 ^ (9 * Z.of_nat 2)) with (2 ^ 18) in *.
    destruct (Z.eqb_spec (ppn mod 2 ^ 18) 0) as [E|E]; cbn [negb]; [|done].
    rewrite (clear_low ppn 18) by (rewrite ?Z.land_ones; done || lia).
    rewrite <- Ho by done. do 3 f_equal. change 0x3FFFFFFF with (Z.ones 30). by rewrite Z.land_ones.
Qed.

Section Walk.
Context {B : Type} {BU : Bus B} {WM : WordMem B} {PR : Profile} (P : Prop).
Hypothesis (HP : overflow_checks = true → P).
Implicit Types (m : Mmu.t) (b : B).

Lemma wp_upd {A} f (k : M (Mmu.t * B) A) Q m b :
  wp P k Q (f m, b) → wp P (Mmu.upd f;; k) Q (m, b).
Proof. intros Hk. by apply wp_bind, wp_on_fst, wp_modify. Qed.

Lemma wp_upd_last f (Q : unit → Mmu.t * B → Prop) m b : Q tt (f m, b) → wp P (Mmu.upd f) Q (m, b).
Proof. intros HQ. by apply wp_on_fst, wp_modify. Qed.

Lemma wp_add_u {A} w x y (k : Z → M (Mmu.t * B) A) Q m b :
  urange w (x + y) → wp P (k (x + y)) Q (m, b) →
  wp P (Mmu.on_mmu (lift (add_u w x y)) ≫= k) Q (m, b).
Proof.
  intros Hr Hk. apply wp_bind, wp_on_fst, wp_lift. unfold add_u, checked_u, urange in *.
  destruct (Z.leb_spec 0 (x + y)); [|lia]. by destruct (Z.ltb_spec (x + y) (2 ^ w)); [|lia].
Qed.

(** A plain [+] in a build that may panic on overflow. *)
Lemma wp_add_any {A} w x y (k : Z → M (Mmu.t * B) A) Q m b :
  (∀ v, wp P (k v) Q (m, b)) → wp P (Mmu.on_mmu (lift (add_u w x y)) ≫= k) Q (m, b).
Proof.
  intros Hk. apply wp_bind, wp_on_fst, wp_lift. unfold add_u, checked_u.
  destruct (_ && _); [apply Hk|]. destruct overflow_checks eqn:E; [by apply HP|apply Hk].
Qed.

Lemma wp_fail {A} va access r (Q : Result A Trap → Mmu.t * B → Prop) m b :
  (∀ m', Mmu.tlb m' = Mmu.tlb m → Q (Err (TException (Mmu.page_fault_for access))) (m', b)) →
  wp P (Mmu.fail va access r) Q (m, b).
Proof.
  intros HQ. unfold Mmu.fail, Mmu.walk_fail. apply wp_bind.
  apply wp_upd, wp_upd. apply wp_bind, wp_on_fst, wp_get.
  apply wp_add_any. intros v. apply wp_upd. apply wp_ret, wp_ret. by apply HQ.
Qed.

Lemma wp_read_word {A} a (k : Z → M (Mmu.t * B) A) Q m b :
  mem_ok b → urange 64 a → (8 | a) → in_mem a → wp P (k (word b a)) Q (m, b) →
  wp P (Mmu.on_bus (read_u64 a) ≫= k) Q (m, b).
Proof.
  intros Hb Ha H8 Hi Hk. apply wp_bind, wp_on_snd. unfold wp at 1. by rewrite read_word.
Qed.

Lemma wp_dump {A} (dump : bool) (u : M (Mmu.t * B) unit) (k : M (Mmu.t * B) A) Q m b :
  (∀ m', Mmu.tlb m' = Mmu.tlb m → wp P k Q (m', b)) →
  (∀ Q' : unit → Mmu.t * B → Prop,
     (∀ m', Mmu.tlb m' = Mmu.tlb m → Q' tt (m', b)) → wp P u Q' (m, b)) →
  wp P ((if dump then u else mret tt);; k) Q (m, b).
Proof.
  intros Hk Hu. apply wp_bind. destruct dump; [by apply Hu|by apply wp_ret, Hk].
Qed.

(** The outcome of a walk from [level], in the terms of the specification. *)
Definition walk_result (b : B) (access : AccessType) (va : Z) (o : option (nat * Z))
  : Result Mmu.walk_ok Trap :=
  match o with
  | Some (l, a) => Ok (Mmu.mkWalk (spec_paddr l (word b a) va) (pte_ppn (word b a)) (Z.of_nat l)
                         (flags_of (word b a)) a)
  | None => Err (TException (Mmu.page_fault_for access))
  end.

Lemma flags_u8 p : as_u8 (Z.land (Z.shiftr p 1) 0x7F) = flags_of p.
Proof. unfold flags_of. apply wrap_small. apply (urange_weaken 7); [lia|field_range]. Qed.

Lemma table_entry base i : urange 56 base → (4096 | base) → 0 <= i < 512 →
  urange 64 (base + i * 8) ∧ (8 | base + i * 8).
Proof.
  intros Hb Hd Hi. split; [unfold urange in *; lia|].
  apply Z.divide_add_r; [|by apply Z.divide_factor_r].
  apply (Z.divide_trans _ 4096); [by exists 512|done].
Qed.

(** The fields of a walk step in the source's terms and in the manual's. *)
Lemma pte_tests p :
  (Z.land p 1 =? 0) = negb (pte_v p)
  ∧ (Z.land (Z.shiftr p 1) 1 =? 0) = negb (pte_r p)
  ∧ (Z.land (Z.shiftr p 2) 1 =? 0) = negb (pte_w p)
  ∧ (Z.land (Z.shiftr p 3) 1 =? 0) = negb (pte_x p).
Proof. rewrite land_1_eqb, !land_bit_eqb by lia. done. Qed.

Lemma table_base p : urange 56 (pte_ppn p * 4096) ∧ (4096 | pte_ppn p * 4096)
  ∧ as_u64 (Z.shiftl (pte_ppn p) 12) = pte_ppn p * 4096.
Proof.
  pose proof (pte_ppn_range p) as Hp. split_and!.
  - unfold urange in *. lia.
  - apply Z.divide_factor_r.
  - rewrite Z.shiftl_mul_pow2 by lia. apply wrap_small. unfold urange in *. lia.
Qed.

Ltac close_fail Ht :=
  apply wp_fail; intros ? Hm'; split_and!; [reflexivity|exact (eq_trans Hm' Ht)|reflexivity].

Lemma walk_loop_spec level dump base va access m b :
  (level <= 2)%nat → mem_ok b → urange 56 base → (4096 | base) →
  walk_in in_mem (word b) level base va →
  wp P (Mmu.walk_loop level dump base va access)
    (λ res s, s.2 = b ∧ Mmu.tlb s.1 = Mmu.tlb m
              ∧ res = walk_result b access va (spec_walk (word b) level base va)) (m, b).
Proof.
  revert base m. induction level as [level IH] using lt_wf_ind. intros base m Hl Hb Hbase Hal Hin.
  pose proof (Z.mod_pos_bound (va / 2 ^ page_bits level) 512 ltac:(lia)) as Hv.
  rewrite <- vpn_field in Hv by done.
  destruct (table_entry base (Mmu.vpn va level) Hbase Hal Hv) as [Ha H8].
  destruct level as [|level].
  all: cbn [Mmu.walk_loop spec_walk walk_in] in *; unfold pte_at in Hin;
    rewrite <- vpn_field in * by done; rewrite (Z.mul_comm 8 (Mmu.vpn va _)) in *;
    destruct Hin as [Hin Hnext].
  all: apply wp_add_u; [done|]; apply wp_read_word; [done..|]; do 3 apply wp_upd;
    apply wp_dump; [intros m1 Ht1|intros Q' HQ'; by apply wp_upd, wp_upd_last, HQ'].
  all: set (p := word b _) in *; unfold pte_bad, pte_leaf in Hnext; destruct (pte_tests p) as (-> & -> & -> & ->);
    rewrite ppn_field, flags_u8; cbv zeta; rewrite ?negb_involutive.
  all: destruct (pte_v p); cbn [negb orb]; [|close_fail Ht1].
  all: destruct (pte_w p), (pte_r p) eqn:Er; cbn [negb andb orb]; try (close_fail Ht1).
  all: rewrite ?leaf_addr_spec by (done || apply pte_ppn_range).
  all: try (destruct (pte_x p); cbn [negb andb]).
  all: try (destruct (pte_ppn p mod _ =? 0); [|close_fail Ht1]);
    try (apply wp_dump; [intros m2 Ht2; apply wp_ret; split_and!;
                           [done|exact (eq_trans Ht2 Ht1)|done]
                        |intros Q' HQ'; by apply wp_upd, wp_upd, wp_upd_last, HQ']).
  - close_fail Ht1.
  - destruct (table_base p) as (H1 & H2 & ->).
    eapply wp_mono; [apply (IH level); [lia..|done|done|done|by apply Hnext]|].
    cbn. intros res [m' b'] (? & Hm & ?). split_and!; [done|exact (eq_trans Hm Ht1)|done].
Qed.

Lemma walk_sv39_spec satp va access m b :
  Satp.wf satp → mem_ok b → Satp.mode satp = 8 → tables_in satp b va →
  wp P (Mmu.walk_sv39 satp va access)
    (λ res s, s.2 = b ∧ Mmu.tlb s.1 = Mmu.tlb m
              ∧ res = walk_result b access va (spec_walk (word b) 2 (root_of satp) va)) (m, b).
Proof.
  intros (_ & _ & Hp) Hb H8 Hin. destruct (Hin H8) as [Hroot Htab].
  unfold Mmu.walk_sv39, root_of. cbv zeta.
  assert (Hr : as_u64 (Z.shiftl (Satp.ppn satp) 12) = Satp.ppn satp * 4096).
  { rewrite Z.shiftl_mul_pow2 by lia. apply wrap_small. unfold urange in *. lia. }
  rewrite Hr. apply wp_upd, wp_add_u; [unfold urange in *; lia|].
  apply wp_read_word; [done|unfold urange in *; lia| |done|].
  { apply Z.divide_add_r; [|by exists 2]. exists (Satp.ppn satp * 512). lia. }
  apply wp_upd. apply wp_bind, wp_on_fst, wp_get. apply wp_dump.
  - intros m1 Ht1. eapply wp_mono.
    + apply walk_loop_spec; [lia|done|unfold urange in *; lia|apply Z.divide_factor_r|done].
    + intros res [m' b'] (? & Hm & ?). split_and!; [done|exact (eq_trans Hm Ht1)|done].
  - intros Q' HQ'. by apply wp_upd, wp_upd, wp_upd_last, HQ'.
Qed.
End Walk.

(** * What a walk depends on *)

Lemma entry_addr base va level :
  urange 56 base → (4096 | base) →
  urange 64 (base + 8 * (va / 2 ^ page_bits level mod 512))
  ∧ (8 | base + 8 * (va / 2 ^ page_bits level mod 512)).
Proof.
  intros Hb Hd. rewrite (Z.mul_comm 8). apply table_entry; [done..|].
  by apply Z.mod_pos_bound.
Qed.

(** Two PTEs that route a walk alike: they may differ in U, G, A and D only. *)
Definition same_route (p q : Z) : Prop :=
  pte_v p = pte_v q ∧ pte_r p = pte_r q ∧ pte_w p = pte_w q ∧ pte_x p = pte_x q
  ∧ pte_ppn p = pte_ppn q.

Lemma spec_walk_route rd rd' level base va :
  urange 56 base → (4096 | base) →
  (∀ a, urange 64 a → (8 | a) → same_route (rd a) (rd' a)) →
  spec_walk rd level base va = spec_walk rd' level base va.
Proof.
  intros Hb Hd Hr. revert base Hb Hd. induction level as [|level IH]; intros base Hb Hd;
    cbn [spec_walk].
  - destruct (entry_addr base va 0 Hb Hd) as [Ha H8].
    destruct (Hr _ Ha H8) as (-> & -> & -> & -> & ->). done.
  - destruct (entry_addr base va (S level) Hb Hd) as [Ha H8].
    destruct (Hr _ Ha H8) as (-> & -> & -> & -> & ->).
    destruct (table_base (rd' (base + 8 * (va / 2 ^ page_bits (S level) mod 512)))) as (H1 & H2 & _).
    by rewrite IH.
Qed.

(** A leaf found at level [l] serves every address of its page. *)
Lemma spec_walk_key rd level base va va' l a :
  spec_walk rd level base va = Some (l, a) →
  va / 2 ^ page_bits l = va' / 2 ^ page_bits l →
  spec_walk rd level base va' = Some (l, a).
Proof.
  intros Hs Hk.
  assert (Hidx : ∀ n, (l <= n)%nat → va / 2 ^ page_bits n = va' / 2 ^ page_bits n).
  { intros n Hn.
    assert (∀ x, x / 2 ^ page_bits n = x / 2 ^ page_bits l / 2 ^ (9 * (Z.of_nat n - Z.of_nat l))) as E.
    { intros x. rewrite Z.div_div; [|apply Z.pow_nonzero; unfold page_bits; lia|apply pow2_pos; lia].
      rewrite <- Z.pow_add_r by (unfold page_bits; lia). do 2 f_equal. unfold page_bits. lia. }
    by rewrite !E, Hk. }
  assert (Hle : ∀ n bs, spec_walk rd n bs va = Some (l, a) → (l <= n)%nat).
  { intros n. induction n as [|n IH]; intros bs; cbn [spec_walk]; split_ifs; intros E;
      first [discriminate E|injection E; lia|specialize (IH _ E); lia]. }
  revert base Hs. induction level as [|level IH]; intros base Hs; pose proof (Hle _ _ Hs) as Hl;
    cbn [spec_walk] in *; rewrite <- (Hidx _ Hl); [done|].
  destruct (_ || _); [done|]. destruct (_ || _); [done|]. by apply IH.
Qed.

(** Addresses of one 4 KiB page walk alike, faults included. *)
Lemma spec_walk_page rd level base va va' :
  va / 2 ^ 12 = va' / 2 ^ 12 → spec_walk rd level base va = spec_walk rd level base va'.
Proof.
  intros Hk.
  assert (Hidx : ∀ n, va / 2 ^ page_bits n = va' / 2 ^ page_bits n).
  { intros n.
    assert (∀ x, x / 2 ^ page_bits n = x / 2 ^ 12 / 2 ^ (9 * Z.of_nat n)) as E.
    { intros x. rewrite Z.div_div; [|done|apply pow2_pos; lia].
      by rewrite <- Z.pow_add_r by lia. }
    by rewrite !E, Hk. }
  revert base. induction level as [|level IH]; intros base; cbn [spec_walk]; rewrite Hidx; [done|].
  by rewrite IH.
Qed.

Lemma spec_walk_leaf rd level base va l a :
  (level <= 2)%nat → urange 56 base → (4096 | base) →
  spec_walk rd level base va = Some (l, a) →
  (l <= 2)%nat ∧ urange 64 a ∧ (8 | a) ∧ pte_ppn (rd a) mod 2 ^ (9 * Z.of_nat l) = 0.
Proof.
  revert base. induction level as [|level IH]; intros base Hl Hb Hd; cbn [spec_walk].
  all: destruct (_ || _); [done|]; destruct (_ || _).
  - destruct (Z.eqb_spec (pte_ppn (rd (base + 8 * (va / 2 ^ page_bits 0 mod 512)))
      mod 2 ^ (9 * Z.of_nat 0)) 0) as [E|]; [|done].
    intros [= <- <-]. destruct (entry_addr base va 0 Hb Hd). split_and!; (done || lia).
  - done.
  - destruct (Z.eqb_spec (pte_ppn (rd (base + 8 * (va / 2 ^ page_bits (S level) mod 512)))
      mod 2 ^ (9 * Z.of_nat (S level))) 0) as [E|]; [|done].
    intros [= <- <-]. destruct (entry_addr base va (S level) Hb Hd). by split_and!.
  - apply IH; [lia|apply table_base..].
Qed.

(** The leaf of a walk inside the region lies in it. *)
Lemma walk_in_leaf (mem : Z → Prop) rd level base va l a :
  walk_in mem rd level base va → spec_walk rd level base va = Some (l, a) → mem a.
Proof.
  revert base. induction level as [|level IH]; intros base; cbn [walk_in spec_walk];
    unfold pte_at, pte_bad, pte_leaf; intros [Hm Hn].
  all: destruct (_ || _); [done|]; destruct (_ || _).
  all: try (destruct (_ =? _); [|done]; by intros [= _ <-]).
  - done.
  - by apply IH, Hn.
Qed.

(** * Coherence of the TLB *)

(** A TLB entry agrees with the walk for every address it covers, except that
    the A and D bits it holds may lag behind those in memory. *)
Definition entry_agrees (rd : Z → Z) (root : Z) (e : Tlb.entry) (va : Z) : Prop :=
  match spec_walk rd 2 root va with
  | Some (l, a) =>
      Tlb.size e = Z.of_nat l ∧ Tlb.ppn e = pte_ppn (rd a)
      ∧ (∀ i, 0 <= i < 5 → Z.testbit (Tlb.eflags e) i = Z.testbit (flags_of (rd a)) i)
      ∧ (∀ i, 5 <= i < 7 → Z.testbit (Tlb.eflags e) i = true →
                           Z.testbit (flags_of (rd a)) i = true)
  | None => identity_window va = true ∧ Tlb.size e = 0 ∧ Tlb.ppn e = Z.shiftr va 12
            ∧ Tlb.eflags e = 0x67
  end.

Definition entry_ok (rd : Z → Z) (root : Z) (e : Tlb.entry) : Prop :=
  Tlb.valid e = true →
  ∀ va, urange 64 va → Tlb.vpn_at va (Tlb.size e) = Tlb.va_key e → entry_agrees rd root e va.

Record tlb_ok (rd : Z → Z) (root : Z) (x : Tlb.t) : Prop := mk_tlb_ok {
  tlb_sets_len : length (Tlb.sets x) = 256%nat;
  tlb_lru_len : length (Tlb.lru x) = 64%nat;
  tlb_lru_range : Forall (urange 2) (Tlb.lru x);
  tlb_entries : Forall (entry_ok rd root) (Tlb.sets x);
}.

Lemma tlb_ok_flush rd root rd' root' x : tlb_ok rd root x → tlb_ok rd' root' (Tlb.flush x).
Proof.
  intros []. constructor; cbn.
  - by rewrite length_fmap.
  - by rewrite length_fmap.
  - apply Forall_fmap, Forall_true. by unfold urange.
  - apply Forall_fmap, Forall_true. by intros e [=].
Qed.

Lemma tlb_ok_new rd root : tlb_ok rd root Tlb.new.
Proof.
  constructor; [done|done|by apply Forall_replicate|by apply Forall_replicate].
Qed.

Lemma set_of_range v : 0 <= Tlb.set_of v < 64.
Proof. unfold Tlb.set_of. change 0x3F with (Z.ones 6). rewrite Z.land_ones by lia. by apply Z.mod_pos_bound. Qed.

Lemma lookup_at_sound rd root x va size e :
  tlb_ok rd root x → urange 64 va → Tlb.lookup_at x va size = Some e → entry_agrees rd root e va.
Proof.
  intros [Hl _ _ Hs] Hva Hf. unfold Tlb.lookup_at in Hf. apply List.find_some in Hf as [Hin Hh].
  unfold Tlb.hits in Hh. apply andb_true_iff in Hh as [[Hv Hz%Z.eqb_eq]%andb_true_iff Hk%Z.eqb_eq].
  apply list_elem_of_In in Hin. unfold Tlb.ways in Hin. apply list_elem_of_fmap in Hin as (i & -> & Hi).
  pose proof (set_of_range (Tlb.vpn_at va size)).
  assert (i < 4)%nat by (repeat (apply elem_of_cons in Hi as [->|Hi]; [lia|]); by apply not_elem_of_nil in Hi).
  set (n := (Z.to_nat (Tlb.set_of (Tlb.vpn_at va size) * 4) + i)%nat) in *.
  destruct (lookup_lt_is_Some_2 (Tlb.sets x) n) as [e He]; [lia|].
  rewrite (list_lookup_total_correct _ _ _ He) in *.
  apply (Forall_lookup_1 _ _ _ _ Hs He); [done|done|]. by rewrite Hz.
Qed.

Lemma lookup_sound rd root x va e :
  tlb_ok rd root x → urange 64 va → Tlb.lookup x va = Some e → entry_agrees rd root e va.
Proof.
  intros Hx Hva. unfold Tlb.lookup. destruct (Tlb.lookup_at x va 0) eqn:E0.
  { intros [= ->]. by eapply lookup_at_sound. }
  destruct (Tlb.lookup_at x va 1) eqn:E1.
  { intros [= ->]. by eapply lookup_at_sound. }
  intros E2. by eapply lookup_at_sound.
Qed.

Lemma insert_ok `{Profile} rd root x va ppn size flags :
  tlb_ok rd root x → entry_ok rd root (Tlb.mkEntry true (Tlb.vpn_at va size) ppn flags size) →
  ∃ x', Tlb.insert va ppn size flags x = Some (tt, x') ∧ tlb_ok rd root x'.
Proof.
  intros [Hl Hlr Hr Hs] He. unfold Tlb.insert; cbv zeta.
  pose proof (set_of_range (Tlb.vpn_at va size)).
  assert (Hu : urange 2 (Tlb.lru x !!! Z.to_nat (Tlb.set_of (Tlb.vpn_at va size)))).
  { apply Cpu.lookup_total_range; [done|lia]. }
  unfold mbind, M_bind, get, lift. set (l := Tlb.lru x !!! _) in *.
  assert (Ha : add_u 8 l 1 = Some (l + 1)).
  { unfold add_u, checked_u. unfold urange in Hu. destruct (Z.leb_spec 0 (l + 1)); [|lia].
    by destruct (Z.ltb_spec (l + 1) (2 ^ 8)); [|lia]. }
  rewrite Ha. eexists. split; [done|]. constructor; cbn.
  - by rewrite length_insert.
  - by rewrite length_insert.
  - apply Forall_insert; [done|field_range].
  - by apply Forall_insert.
Qed.

(** * Permissions and the Accessed and Dirty bits *)

Lemma ad_satisfied_bits f access :
  Mmu.ad_satisfied f access
  = Z.testbit f 5 && (negb (bool_decide (access = Store)) || Z.testbit f 6).
Proof. unfold Mmu.ad_satisfied. by rewrite !land_pow2_eqb by lia. Qed.

Lemma apply_pte_flags_perm f f' access priv sum mxr :
  (∀ i, 0 <= i < 5 → Z.testbit f i = Z.testbit f' i) →
  Mmu.apply_pte_flags f access priv sum mxr = Mmu.apply_pte_flags f' access priv sum mxr.
Proof.
  intros Hb. unfold Mmu.apply_pte_flags; cbv zeta.
  rewrite !land_bit_eqb, !land_1_eqb by lia.
  by rewrite (Hb 0), (Hb 1), (Hb 2), (Hb 3) by lia.
Qed.

Lemma testbit_flags_of p i : 0 <= i < 7 → Z.testbit (flags_of p) i = Z.testbit p (i + 1).
Proof.
  intros. unfold flags_of. change 0x7F with (Z.ones 7).
  rewrite Z.land_spec, Z.shiftr_spec, Z.ones_spec_low by lia. by rewrite andb_true_r.
Qed.

(** The bits an access sets: A, and D for a store. *)
Definition ad_mask (access : AccessType) : Z := if bool_decide (access = Store) then 0xC0 else 0x40.

(** Memory changed by at most such updates. *)
Definition ad_update (rd rd' : Z → Z) : Prop :=
  ∀ a, urange 64 a → (8 | a) → rd' a = rd a ∨ ∃ access, rd' a = Z.lor (rd a) (ad_mask access).

Lemma ad_mask_bits access i :
  0 <= i → i ≠ 6 → i ≠ 7 → Z.testbit (ad_mask access) i = false.
Proof.
  intros Hi H6 H7. unfold ad_mask. case_match.
  - destruct (Z.ltb_spec i 8); [|by apply (urange_testbit 8); [|lia]].
    assert (i = 0 ∨ i = 1 ∨ i = 2 ∨ i = 3 ∨ i = 4 ∨ i = 5) as Hc by lia.
    by destruct_or! Hc; subst.
  - destruct (Z.ltb_spec i 8); [|by apply (urange_testbit 8); [|lia]].
    assert (i = 0 ∨ i = 1 ∨ i = 2 ∨ i = 3 ∨ i = 4 ∨ i = 5) as Hc by lia.
    by destruct_or! Hc; subst.
Qed.

Lemma lor_ad_testbit p access i :
  0 <= i → i ≠ 6 → i ≠ 7 → Z.testbit (Z.lor p (ad_mask access)) i = Z.testbit p i.
Proof. intros. by rewrite Z.lor_spec, ad_mask_bits, orb_false_r. Qed.

Lemma same_route_ad p access : same_route p (Z.lor p (ad_mask access)).
Proof.
  unfold same_route, pte_v, pte_r, pte_w, pte_x. rewrite !lor_ad_testbit by lia.
  split_and!; try done. unfold pte_ppn. rewrite <- !Z.shiftr_div_pow2 by lia.
  rewrite Z.shiftr_lor. replace (Z.shiftr (ad_mask access) 10) with 0 by (by destruct access).
  by rewrite Z.lor_0_r.
Qed.

Lemma ad_update_refl rd : ad_update rd rd.
Proof. intros a Ha H8. by left. Qed.

Lemma ad_update_route rd rd' :
  ad_update rd rd' → ∀ a, urange 64 a → (8 | a) → same_route (rd a) (rd' a).
Proof.
  intros Hu a Ha H8. destruct (Hu a Ha H8) as [->|[access ->]]; [done|apply same_route_ad].
Qed.

Section Root.
Context (root : Z) (Hroot : urange 56 root) (Hpage : (4096 | root)).

Lemma ad_update_walk rd rd' va :
  ad_update rd rd' → spec_walk rd 2 root va = spec_walk rd' 2 root va.
Proof. intros Hu. apply spec_walk_route; [done..|]. by apply ad_update_route. Qed.

Lemma entry_agrees_ad rd rd' e va :
  ad_update rd rd' → entry_agrees rd root e va → entry_agrees rd' root e va.
Proof.
  intros Hu. unfold entry_agrees. rewrite <- (ad_update_walk rd rd') by done.
  destruct (spec_walk rd 2 root va) as [[l a]|] eqn:Hw; [|done].
  destruct (spec_walk_leaf rd 2 root va l a) as (_ & Ha & H8 & _); [lia|done..|].
  intros (Hs & Hp & Hperm & Had).
  destruct (ad_update_route _ _ Hu a Ha H8) as (_ & _ & _ & _ & Hppn).
  split_and!; [done|congruence| |].
  - intros i Hi. rewrite (Hperm i Hi). destruct (Hu a Ha H8) as [->|[access ->]]; [done|].
    rewrite !testbit_flags_of by lia. by rewrite lor_ad_testbit by lia.
  - intros i Hi Ht. specialize (Had i Hi Ht).
    destruct (Hu a Ha H8) as [->|[access ->]]; [done|].
    rewrite testbit_flags_of in * by lia. by rewrite Z.lor_spec, Had.
Qed.

Lemma tlb_ok_ad rd rd' x : ad_update rd rd' → tlb_ok rd root x → tlb_ok rd' root x.
Proof.
  intros Hu [H1 H2 H3 H4]. constructor; try done. eapply Forall_impl; [exact H4|].
  intros e He Hv va Hva Hk. by eapply entry_agrees_ad, He.
Qed.

(** A cached answer is the specification's answer. *)
Lemma apply_tlb_spec rd e va access priv sum mxr :
  urange 64 va → entry_agrees rd root e va →
  Mmu.apply_tlb e va access priv sum mxr =
    match spec_walk rd 2 root va with
    | Some (l, a) =>
        match Mmu.apply_pte_flags (flags_of (rd a)) access priv sum mxr with
        | Ok _ => Ok (spec_paddr l (rd a) va)
        | Err t => Err t
        end
    | None => Ok va
    end.
Proof.
  intros Hva. unfold entry_agrees, Mmu.apply_tlb.
  destruct (spec_walk rd 2 root va) as [[l a]|] eqn:Hw.
  - intros (Hs & Hp & Hperm & _). rewrite (apply_pte_flags_perm _ (flags_of (rd a))) by done.
    destruct (Mmu.apply_pte_flags _ _ _ _ _) as [u|t]; [|done]. f_equal.
    destruct (spec_walk_leaf rd 2 root va l a) as (Hl & _ & _ & Hal); [lia|done..|].
    rewrite Hs, Hp. unfold spec_paddr.
    rewrite <- (offset_or (pte_ppn (rd a)) va l) by (done || apply pte_ppn_range).
    destruct l as [|[|[|]]]; [| | |lia]; cbn [Z.of_nat Z.eqb Pos.of_succ_nat Pos.succ Pos.eqb].
    + change 0xFFF with (Z.ones 12). by rewrite Z.land_ones.
    + change 0x1FFFFF with (Z.ones 21). by rewrite Z.land_ones.
    + change 0x3FFFFFFF with (Z.ones 30). by rewrite Z.land_ones.
  - intros (_ & -> & -> & ->). cbn [Z.eqb].
    assert (Z.lor (as_u64 (Z.shiftl (Z.shiftr va 12) 12)) (Z.land va 0xFFF) = va) as -> by bit_fields.
    by destruct access, priv, sum, mxr.
Qed.

(** The entry cached after a walk agrees with it on the whole page. *)
Lemma vpn_at_page va va' l :
  (l <= 2)%nat → Tlb.vpn_at va (Z.of_nat l) = Tlb.vpn_at va' (Z.of_nat l) →
  va / 2 ^ page_bits l = va' / 2 ^ page_bits l.
Proof.
  intros Hl. unfold Tlb.vpn_at. destruct l as [|[|[|]]]; [| | |lia];
    cbn [Z.of_nat Z.eqb Pos.of_succ_nat Pos.succ Pos.eqb]; by rewrite !Z.shiftr_div_pow2 by lia.
Qed.

Lemma walk_entry_ok rd va l a :
  spec_walk rd 2 root va = Some (l, a) →
  entry_ok rd root (Tlb.mkEntry true (Tlb.vpn_at va (Z.of_nat l)) (pte_ppn (rd a))
                      (flags_of (rd a)) (Z.of_nat l)).
Proof.
  intros Hw _ va' Hva' Hk. cbn in Hk. unfold entry_agrees.
  destruct (spec_walk_leaf rd 2 root va l a) as (Hl & _); [lia|done..|].
  rewrite (spec_walk_key rd 2 root va va' l a); [done|done|].
  symmetry. by apply vpn_at_page.
Qed.

Lemma window_page va va' :
  va / 2 ^ 12 = va' / 2 ^ 12 → identity_window va = true → identity_window va' = true.
Proof.
  unfold identity_window. intros E. rewrite !andb_true_iff, !Z.leb_le, !Z.ltb_lt. intros [H1 H2].
  pose proof (Z.div_mod va (2 ^ 12)). pose proof (Z.div_mod va' (2 ^ 12)).
  pose proof (Z.mod_pos_bound va (2 ^ 12)). pose proof (Z.mod_pos_bound va' (2 ^ 12)). lia.
Qed.

Lemma identity_entry_ok rd va :
  spec_walk rd 2 root va = None → identity_window va = true →
  entry_ok rd root (Tlb.mkEntry true (Tlb.vpn_at va 0) (Z.shiftr va 12) 0x67 0).
Proof.
  intros Hw Hi _ va' Hva' Hk. cbn in Hk. unfold entry_agrees.
  assert (E : va / 2 ^ 12 = va' / 2 ^ 12) by (symmetry; by apply (vpn_at_page va' va 0); [lia|]).
  rewrite <- (spec_walk_page rd 2 root va va' E), Hw. split_and!; [|done| |done].
  - by eapply window_page.
  - cbn. by rewrite !Z.shiftr_div_pow2 by lia.
Qed.
End Root.

(** * [translate] *)

Section Translate.
Context {B : Type} {BU : Bus B} {WM : WordMem B} {PR : Profile} (P : Prop).
Hypothesis (HP : overflow_checks = true → P).
Context (satp : Satp.t) (Hsatp : Satp.wf satp).
Implicit Types (m : Mmu.t) (b : B).

Lemma root_ok : urange 56 (root_of satp) ∧ (4096 | root_of satp).
Proof.
  destruct Hsatp as (_ & _ & Hp). unfold root_of.
  split; [unfold urange in *; lia|apply Z.divide_factor_r].
Qed.

Lemma set_ad_spec a access m b :
  mem_ok b → urange 64 a → (8 | a) → in_mem a →
  wp P (Mmu.set_ad a (flags_of (word b a)) access)
    (λ f s, s.1 = m ∧ mem_ok s.2 ∧ f = flags_of (word s.2 a) ∧ Mmu.ad_satisfied f access = true
       ∧ ∀ a', urange 64 a' → (8 | a') →
           word s.2 a' = word b a' ∨ a' = a ∧ word s.2 a' = Z.lor (word b a') (ad_mask access))
    (m, b).
Proof.
  intros Hb Ha H8 Hin. unfold Mmu.set_ad.
  destruct (Mmu.ad_satisfied (flags_of (word b a)) access) eqn:Hs.
  { apply wp_ret. split_and!; auto. }
  apply wp_read_word; [done..|]. cbv zeta.
  assert (Hm : (if bool_decide (access = Store)
                then Z.lor (Z.lor (word b a) (Z.shiftl 1 6)) (Z.shiftl 1 7)
                else Z.lor (word b a) (Z.shiftl 1 6)) = Z.lor (word b a) (ad_mask access)).
  { unfold ad_mask. destruct (bool_decide _); [|done]. by rewrite <- Z.lor_assoc. }
  rewrite Hm. apply wp_bind, wp_on_snd.
  assert (Hr : urange 64 (Z.lor (word b a) (ad_mask access))).
  { apply urange_lor; [lia|by apply word_range|]. by destruct access. }
  destruct (write_word b a _ Hb Ha H8 Hin Hr) as (b' & Hw & Hb' & Hword).
  unfold wp at 1. rewrite Hw. apply wp_ret. cbn [fst snd].
  assert (Hwa : word b' a = Z.lor (word b a) (ad_mask access)).
  { rewrite Hword by done. by destruct (decide (a = a)). }
  rewrite flags_u8. split_and!; [done|done|by rewrite Hwa| |].
  - rewrite ad_satisfied_bits, !testbit_flags_of, !Z.lor_spec by lia.
    by destruct access; rewrite !orb_true_r.
  - intros a' Ha' H8'. rewrite Hword by done. destruct (decide (a' = a)) as [->|]; auto.
Qed.

Lemma tlb_insert_spec rd va ppn size flags m b (Q : unit → Mmu.t * B → Prop) :
  tlb_ok rd (root_of satp) (Mmu.tlb m) →
  entry_ok rd (root_of satp) (Tlb.mkEntry true (Tlb.vpn_at va size) ppn flags size) →
  (∀ m', tlb_ok rd (root_of satp) (Mmu.tlb m') → Q tt (m', b)) →
  wp P (Mmu.tlb_insert va ppn size flags) Q (m, b).
Proof.
  intros Hx He HQ. unfold Mmu.tlb_insert. apply wp_bind, wp_on_fst, wp_get.
  destruct (insert_ok rd (root_of satp) (Mmu.tlb m) va ppn size flags Hx He) as (x' & -> & Hx').
  apply wp_upd_last, HQ. done.
Qed.

(** What a translation may do to memory and to the TLB. *)
Record translated (b : B) (access : AccessType) (va : Z) (res : Result Z Trap)
    (m' : Mmu.t) (b' : B) : Prop := mk_translated {
  tr_tlb : tlb_ok (word b') (root_of satp) (Mmu.tlb m');
  tr_mem : mem_ok b';
  tr_frame a : urange 64 a → (8 | a) →
    word b' a = word b a
    ∨ word b' a = Z.lor (word b a) (ad_mask access)
      ∧ ∃ l pa, spec_walk (word b) 2 (root_of satp) va = Some (l, a) ∧ res = Ok pa;
  tr_ad l a pa :
    Satp.mode satp = 8 → canonical va → spec_walk (word b) 2 (root_of satp) va = Some (l, a) →
    res = Ok pa → Mmu.ad_satisfied (flags_of (word b' a)) access = true;
}.

Lemma translated_same b access va res m' :
  tlb_ok (word b) (root_of satp) (Mmu.tlb m') → mem_ok b →
  (∀ l a pa, Satp.mode satp = 8 → canonical va →
     spec_walk (word b) 2 (root_of satp) va = Some (l, a) → res = Ok pa →
     Mmu.ad_satisfied (flags_of (word b a)) access = true) →
  translated b access va res m' b.
Proof. intros. constructor; auto. Qed.

Lemma canonical_test va :
  negb (Z.shiftr va 38 =? 0) && negb (Z.shiftr va 38 =? 0x3FFFFFF)
  = negb (bool_decide (canonical va)).
Proof.
  unfold canonical. destruct (Z.eqb_spec (Z.shiftr va 38) 0), (Z.eqb_spec (Z.shiftr va 38) 0x3FFFFFF).
  all: cbn [negb andb]; case_bool_decide; cbn [negb]; intuition.
Qed.

Section Miss.
Context (priv : Privilege) (sum mxr : bool) (access : AccessType) (va : Z).
Context (m : Mmu.t) (b : B).
Hypothesis (Hmode : Satp.mode satp = 8) (Hcan : canonical va) (Hva : urange 64 va).
Hypothesis (Hb : mem_ok b) (Hx : tlb_ok (word b) (root_of satp) (Mmu.tlb m)).
Hypothesis (Htab : tables_in satp b va).

Definition miss_path : M (Mmu.t * B) (Result Z Trap) :=
  res ← Mmu.walk_sv39 satp va access;
  match res with
  | Err trap =>
      if (0x80201000 <=? va) && (va <? 0x80202000) then
        Mmu.tlb_insert va (Z.shiftr va 12) 0 0x67;; mret (Ok va)
      else if (0x80200000 <=? va) && (va <? 0x81800000) then
        Mmu.tlb_insert va (Z.shiftr va 12) 0 0x67;; mret (Ok va)
      else mret (Err trap)
  | Ok w =>
      match Mmu.apply_pte_flags (Mmu.w_flags w) access priv sum mxr with
      | Err t => mret (Err t)
      | Ok _ =>
          flags ← Mmu.set_ad (Mmu.w_pte_addr w) (Mmu.w_flags w) access;
          Mmu.tlb_insert va (Mmu.w_ppn w) (Mmu.w_size w) flags;;
          mret (Ok (Mmu.w_paddr w))
      end
  end.

Lemma flags_translate_sv39 :
  flags_translate (word b) satp priv sum mxr access va =
    match spec_walk (word b) 2 (root_of satp) va with
    | Some (level, a) =>
        match Mmu.apply_pte_flags (flags_of (word b a)) access priv sum mxr with
        | Ok _ => Ok (spec_paddr level (word b a) va)
        | Err t => Err t
        end
    | None => if identity_window va then Ok va
              else Err (TException (Mmu.page_fault_for access))
    end.
Proof. unfold flags_translate. rewrite Hmode. cbn [Z.eqb]. by rewrite decide_True. Qed.

Lemma identity_path m1 :
  Mmu.tlb m1 = Mmu.tlb m → spec_walk (word b) 2 (root_of satp) va = None →
  identity_window va = true →
  wp P (Mmu.tlb_insert va (Z.shiftr va 12) 0 0x67;; mret (Ok va))
    (λ res s, res = flags_translate (word b) satp priv sum mxr access va
              ∧ translated b access va res s.1 s.2) (m1, b).
Proof.
  intros Ht Hw Hi. apply wp_bind. eapply tlb_insert_spec.
  - by rewrite Ht.
  - by apply identity_entry_ok.
  - intros m' Hm'. apply wp_ret. rewrite flags_translate_sv39, Hw, Hi. split; [done|]. cbn [fst snd].
    apply translated_same; [done..|]. intros l a pa _ _ E. by rewrite Hw in E.
Qed.

Lemma miss_path_spec :
  wp P miss_path
    (λ res s, res = flags_translate (word b) satp priv sum mxr access va
              ∧ translated b access va res s.1 s.2) (m, b).
Proof.
  destruct root_ok as [Hr Hp]. unfold miss_path. apply wp_bind.
  eapply wp_mono; [apply (walk_sv39_spec P HP satp va access m b Hsatp Hb Hmode Htab)|].
  intros res [m1 b1] (Eb & Ht & ->). cbn [snd fst] in Eb, Ht. subst b1.
  destruct (spec_walk (word b) 2 (root_of satp) va) as [[l a]|] eqn:Hw; cbn [walk_result].
  - cbn [Mmu.w_flags Mmu.w_pte_addr Mmu.w_ppn Mmu.w_size Mmu.w_paddr].
    destruct (spec_walk_leaf (word b) 2 (root_of satp) va l a) as (_ & Ha & H8 & _); [lia|done..|].
    destruct (Mmu.apply_pte_flags (flags_of (word b a)) access priv sum mxr) as [u|t] eqn:Hf.
    2:{ apply wp_ret. rewrite flags_translate_sv39, Hw, Hf. split; [done|]. cbn [fst snd].
        apply translated_same; [by rewrite Ht|done|done]. }
    pose proof (walk_in_leaf _ _ _ _ _ _ _ (proj2 (Htab Hmode)) Hw) as Hin.
    apply wp_bind. eapply wp_mono; [by apply set_ad_spec|].
    intros f [m2 b2] (Em & Hb2 & -> & Hsat & Hfr). cbn [fst snd] in *. subst m2.
    assert (Hu : ad_update (word b) (word b2)).
    { intros a' Ha' H8'. destruct (Hfr a' Ha' H8') as [E|[_ E]]; eauto. }
    assert (Hppn : pte_ppn (word b2 a) = pte_ppn (word b a)).
    { by destruct (ad_update_route _ _ Hu a Ha H8) as (_ & _ & _ & _ & ->). }
    apply wp_bind. eapply (tlb_insert_spec (word b2)).
    + rewrite Ht. by eapply tlb_ok_ad.
    + rewrite <- Hppn. apply walk_entry_ok; [done..|]. by rewrite <- (ad_update_walk _ Hr Hp _ _ _ Hu).
    + intros m' Hm'. apply wp_ret. rewrite flags_translate_sv39, Hw, Hf. split; [done|].
      constructor; [done|done| |].
      * intros a' Ha' H8'. destruct (Hfr a' Ha' H8') as [E|[-> E]]; [by left|right]. eauto.
      * intros l' a' pa _ _ E _. rewrite Hw in E. by injection E as _ <-.
  - destruct ((0x80201000 <=? va) && (va <? 0x80202000)) eqn:H1.
    { apply identity_path; [done..|]. unfold identity_window.
      apply andb_true_iff in H1 as [?%Z.leb_le ?%Z.ltb_lt].
      rewrite andb_true_iff, Z.leb_le, Z.ltb_lt. lia. }
    fold (identity_window va). destruct (identity_window va) eqn:Hi; [by apply identity_path|].
    apply wp_ret. rewrite flags_translate_sv39, Hw, Hi. split; [done|]. cbn [fst snd].
    apply translated_same; [by rewrite Ht|done|done].
Qed.
End Miss.

Lemma translate_spec priv sum mxr access va m b :
  urange 64 va → mem_ok b → tlb_ok (word b) (root_of satp) (Mmu.tlb m) → tables_in satp b va →
  wp P (Mmu.translate satp priv sum mxr access va)
    (λ res s, res = flags_translate (word b) satp priv sum mxr access va
              ∧ translated b access va res s.1 s.2) (m, b).
Proof.
  intros Hva Hb Hx Htab. unfold Mmu.translate.
  destruct (Z.eqb_spec (Satp.mode satp) 0) as [Hm0|Hm0].
  { apply wp_ret. unfold flags_translate. rewrite Hm0. split; [done|]. cbn [fst snd].
    apply translated_same; [done..|]. intros; lia. }
  destruct Hsatp as ([Hm|Hm] & _); [lia|]. rewrite Hm. cbn [Z.eqb Pos.eqb negb]. cbv zeta.
  rewrite canonical_test. case_bool_decide as Hcan; cbn [negb].
  2:{ apply wp_fail; [done|]. intros m' Ht. unfold flags_translate. rewrite Hm. cbn [Z.eqb].
      rewrite decide_False by done. split; [done|]. cbn [fst snd]. apply translated_same; [by rewrite Ht|done|done]. }
  apply wp_bind, wp_on_fst, wp_get.
  destruct (Tlb.lookup (Mmu.tlb m) va) as [e|] eqn:Hl; [|by apply miss_path_spec].
  destruct (Mmu.ad_satisfied (Tlb.eflags e) access) eqn:Hs; [|by apply miss_path_spec].
  pose proof (lookup_sound _ _ _ _ _ Hx Hva Hl) as He.
  apply wp_ret. rewrite (apply_tlb_spec (root_of satp) (proj1 root_ok) (proj2 root_ok) (word b)) by done.
  unfold entry_agrees in He. split.
  - rewrite flags_translate_sv39 by done. destruct (spec_walk _ _ _ _) as [[l a]|]; [done|].
    by destruct He as (-> & _).
  - cbn [fst snd]. apply translated_same; [done..|]. intros l a pa _ _ Hw _. rewrite Hw in He.
    destruct He as (_ & _ & _ & Had). rewrite ad_satisfied_bits in Hs |- *.
    apply andb_true_iff in Hs as [H5 H6]. rewrite (Had 5) by (done || lia). cbn [andb].
    destruct (negb (bool_decide (access = Store))); [done|]. cbn [orb] in *. apply Had; [lia|done].
Qed.
End Translate.

(** * The reference RAM is such a memory *)

#[global] Instance ram_words : WordMem Ram.t.
Proof.
  refine {| word m a := from_le_bytes (Ram.load 8 m a); mem_ok := Ram.inv; in_mem _ := True |}.
  - intros m a Hm. by apply (Ram.read_range 8).
  - done.
  - intros m a v Hm Ha H8 _ Hv. exists (Ram.store m a (to_le_bytes 8 v)). split_and!.
    + done.
    + by apply Ram.store_inv.
    + intros a' Ha' H8'. destruct (decide (a' = a)) as [->|Hne].
      * pose proof (ram_read_write 8 m a v ltac:(lia) Hv) as E.
        unfold Ram.read, get in E. by injection E.
      * rewrite load_store_other; [done|]. rewrite length_to_le_bytes.
        destruct H8 as [q ->], H8' as [q' ->]. unfold urange in *.
        intros i j Hi Hj. rewrite !wrap_small by (unfold urange; lia). lia.
Defined.

Lemma walk_in_all rd level base va : walk_in (λ _, True) rd level base va.
Proof. revert base. by induction level as [|level IH]; intros base; cbn [walk_in]; eauto. Qed.

Lemma ram_tables_in satp (b : Ram.t) va : tables_in satp b va.
Proof. intros _. split; [done|apply walk_in_all]. Qed.

(** The permission check is the specified one, with U added for user mode. *)
Lemma apply_pte_flags_permits pte access priv sum mxr :
  Mmu.apply_pte_flags (flags_of pte) access priv sum mxr =
    if sv39_permits (if bool_decide (priv = PUser) then Z.lor pte 0x10 else pte)
         access priv sum mxr then Ok tt
    else Err (TException (Mmu.page_fault_for access)).
Proof.
  unfold Mmu.apply_pte_flags, sv39_permits; cbv zeta.
  rewrite !land_bit_eqb, !land_1_eqb by lia. rewrite !testbit_flags_of by lia. 
  change (0 + 1) with 1; change (1 + 1) with 2; change (2 + 1) with 3; change (3 + 1) with 4.
  destruct priv; [rewrite !(bool_decide_eq_true_2 (PUser = PUser)), !Z.lor_spec by done
                 |rewrite !(bool_decide_eq_false_2 (_ = PUser)) by done..];
    destruct (Z.testbit pte 1), (Z.testbit pte 2), (Z.testbit pte 3), (Z.testbit pte 4);
    by destruct access, sum, mxr.
Qed.

(** A walk without reserved bits is the manual's; with one, the manual's faults. *)
Lemma sv39_walk_clear rd level base va :
  sv39_walk rd level base va
  = if walk_clear rd level base va then spec_walk rd level base va else None.
Proof.
  revert base. induction level as [|level IH]; intros base;
    cbn [sv39_walk walk_clear spec_walk]; unfold pte_at, pte_bad, pte_leaf; set (p := rd _).
  all: destruct (negb (pte_v p) || _), (pte_reserved p), (pte_r p || pte_x p);
    cbn [orb andb negb]; try done; apply IH.
Qed.

Lemma sv39_permits_user p access sum mxr :
  Z.testbit p 4 = true →
  sv39_permits (Z.lor p 0x10) access PUser sum mxr = sv39_permits p access PUser sum mxr.
Proof.
  intros H4. unfold sv39_permits. rewrite !Z.lor_spec. rewrite H4.
  by destruct (Z.testbit p 1), (Z.testbit p 2), (Z.testbit p 3), access, mxr.
Qed.

Lemma sv39_permits_not_user p access sum mxr :
  Z.testbit p 4 = false → sv39_permits p access PUser sum mxr = false.
Proof. intros H4. unfold sv39_permits. cbv zeta. rewrite H4. apply andb_false_r. Qed.

Lemma flags_translate_spec rd satp priv sum mxr access va :
  flags_translate rd satp priv sum mxr access va
  = emulated (sv39_translate rd satp priv sum mxr access va)
             (deviation rd satp priv sum mxr access va).
Proof.
  unfold flags_translate, sv39_translate, deviation. destruct (_ =? _); cbn [orb]; [done|].
  rewrite sv39_walk_clear.
  case_bool_decide as Hc; cbn [negb]; [rewrite !decide_True by done|by rewrite !decide_False].
  destruct (spec_walk _ _ _ _) as [[l a]|].
  2:{ by destruct (walk_clear _ _ _ _), (identity_window va). }
  rewrite apply_pte_flags_permits.
  destruct (walk_clear _ _ _ _); cbn [negb orb]; [|by destruct (sv39_permits _ _ _ _ _)].
  case_bool_decide as Hu; cbn [andb]; [subst priv|by destruct (sv39_permits _ _ _ _ _)].
  destruct (Z.testbit (rd a) 4) eqn:H4; cbn [negb].
  - rewrite sv39_permits_user by done. by destruct (sv39_permits _ _ _ _ _).
  - rewrite (sv39_permits_not_user (rd a)) by done. by destruct (sv39_permits _ _ _ _ _).
Qed.

(** * Properties *)

(** C9: how far the MMU implements Sv39.  In the release build (where the fault
    counter may wrap), from a TLB that agrees with memory and with the tables of
    the walk in the memory region of the bus, [translate] returns without
    panicking the result of the architecture's algorithm run on memory: identity
    in Bare mode; a page fault of the access' kind for a non-canonical address,
    an invalid, reserved or misaligned entry or a refused permission; otherwise
    the frame of the leaf with the page offset.  It differs only where
    [deviation] says so: an address of the identity window that the walk does not
    map, entries with reserved bits, and user mode on a page without U.  The TLB
    agrees with memory afterwards. *)
Theorem translate_refines_sv39 (B : Type) (BU : Bus B) (WM : WordMem B)
    satp priv sum mxr access va m b :
  Satp.wf satp → urange 64 va → mem_ok b → tlb_ok (word b) (root_of satp) (Mmu.tlb m) →
  tables_in satp b va →
  ∃ m' b', @Mmu.translate B BU Release satp priv sum mxr access va (m, b)
           = Some (emulated (sv39_translate (word b) satp priv sum mxr access va)
                            (deviation (word b) satp priv sum mxr access va), (m', b'))
    ∧ tlb_ok (word b') (root_of satp) (Mmu.tlb m') ∧ mem_ok b'.
Proof.
  intros Hs Hva Hb Hx Hi.
  destruct (wp_total _ _ _ (@translate_spec B BU WM Release False ltac:(done) satp Hs priv sum mxr
    access va m b Hva Hb Hx Hi)) as (res & [m' b'] & E & -> & [Ht Hm _ _]).
  exists m', b'. by rewrite <- flags_translate_spec.
Qed.

(** A Sv39 table in RAM that maps the first gigabyte of virtual addresses to the
    physical gigabyte at 0x80000000, read-write and supervisor only. *)
Definition demo_satp : Satp.t := Satp.mk 8 0 1.
Definition demo_ram : Ram.t := Ram.store ∅ 0x1000 (to_le_bytes 8 0x20000007).

Lemma demo_ram_ok : mem_ok demo_ram.
Proof. apply Ram.store_inv, map_Forall_empty. Qed.

Lemma translate_refines_sv39_witness :
  ∃ m' b', @Mmu.translate Ram.t Ram.bus Release demo_satp PSupervisor false false Load 0x1234
             (Mmu.new, demo_ram) = Some (Ok 0x80001234, (m', b'))
    ∧ tlb_ok (word b') (root_of demo_satp) (Mmu.tlb m') ∧ mem_ok b'.
Proof.
  replace (Ok 0x80001234) with
    (emulated (sv39_translate (word demo_ram) demo_satp PSupervisor false false Load 0x1234)
              (deviation (word demo_ram) demo_satp PSupervisor false false Load 0x1234))
    by (vm_compute; reflexivity).
  apply (translate_refines_sv39 Ram.t Ram.bus ram_words).
  - unfold Satp.wf, urange. cbn. lia.
  - unfold urange. lia.
  - apply demo_ram_ok.
  - apply tlb_ok_new.
  - apply ram_tables_in.
Defined.

(** C27: the TLB is invisible.  Two MMUs whose TLBs both agree with memory, for
    instance a warm one and a freshly flushed one, give the same result for every
    access, on a bus whose region of plain words ([WordMem]) holds the tables of
    the walk ([tables_in]). *)
Theorem tlb_transparent (B : Type) (BU : Bus B) (WM : WordMem B) (PR : Profile)
    satp priv sum mxr access va m1 m2 b r1 s1 r2 s2 :
  Satp.wf satp → urange 64 va → mem_ok b →
  tlb_ok (word b) (root_of satp) (Mmu.tlb m1) → tlb_ok (word b) (root_of satp) (Mmu.tlb m2) →
  tables_in satp b va →
  Mmu.translate satp priv sum mxr access va (m1, b) = Some (r1, s1) →
  Mmu.translate satp priv sum mxr access va (Mmu.flush_tlb m2, b) = Some (r2, s2) →
  r1 = r2.
Proof.
  intros Hs Hva Hb H1 H2 Hi E1 E2.
  assert (H2' : tlb_ok (word b) (root_of satp) (Mmu.tlb (Mmu.flush_tlb m2)))
    by (by eapply tlb_ok_flush).
  pose proof (wp_run _ _ _ _ _ _ (translate_spec True ltac:(done) satp Hs priv sum mxr access va
    m1 b Hva Hb H1 Hi) E1) as [-> _].
  pose proof (wp_run _ _ _ _ _ _ (translate_spec True ltac:(done) satp Hs priv sum mxr access va
    _ b Hva Hb H2' Hi) E2) as [-> _].
  done.
Qed.

Lemma tlb_transparent_witness :
  (Ok 0x80000000 : Result Z Trap) = Ok 0x80000000.
Proof.
  eapply (tlb_transparent Ram.t Ram.bus ram_words Dev demo_satp PSupervisor false false Load 0
            Mmu.new Mmu.new demo_ram).
  - unfold Satp.wf, urange. cbn. lia.
  - unfold urange. lia.
  - apply demo_ram_ok.
  - apply tlb_ok_new.
  - apply tlb_ok_new.
  - apply ram_tables_in.
  - vm_compute. reflexivity.
  - vm_compute. reflexivity.
Defined.

(** C26: hardware Accessed/Dirty updates.  A translation changes memory at most
    by setting A (and D for a store) in the leaf PTE it used, and only when it
    grants the access, so a faulting access leaves memory alone; and whenever an
    Sv39 access is granted through a mapping, the leaf PTE in memory has A set,
    and D too if it was a store, whether the TLB served it or not.  As in all of
    these, the bus is one with a region of plain 8-byte words ([WordMem]: the
    reference memory, or the DRAM of the device bus) and the tables of the walk
    lie in that region ([tables_in]). *)
Theorem translate_accessed_dirty (B : Type) (BU : Bus B) (WM : WordMem B) (PR : Profile)
    satp priv sum mxr access va m b res m' b' :
  Satp.wf satp → urange 64 va → mem_ok b → tlb_ok (word b) (root_of satp) (Mmu.tlb m) →
  tables_in satp b va →
  Mmu.translate satp priv sum mxr access va (m, b) = Some (res, (m', b')) →
  (∀ a, urange 64 a → (8 | a) →
     word b' a = word b a
     ∨ word b' a = Z.lor (word b a) (ad_mask access)
       ∧ ∃ l pa, spec_walk (word b) 2 (root_of satp) va = Some (l, a) ∧ res = Ok pa)
  ∧ (∀ l a pa, Satp.mode satp = 8 → canonical va →
       spec_walk (word b) 2 (root_of satp) va = Some (l, a) → res = Ok pa →
       Z.testbit (word b' a) 6 = true ∧ (access = Store → Z.testbit (word b' a) 7 = true)).
Proof.
  intros Hs Hva Hb Hx Hi E.
  destruct (wp_run _ _ _ _ _ _ (translate_spec True ltac:(done) satp Hs priv sum mxr access va
    m b Hva Hb Hx Hi) E) as [_ [_ _ Hf Had]].
  split; [exact Hf|]. intros l a pa H8 Hc Hw Hr. specialize (Had l a pa H8 Hc Hw Hr).
  rewrite ad_satisfied_bits, !testbit_flags_of in Had by lia.
  apply andb_true_iff in Had as [HA HD]. split; [done|]. intros ->. done.
Qed.

Lemma translate_accessed_dirty_witness :
  Z.testbit (word (Ram.store demo_ram 0x1000 (to_le_bytes 8 0x200000C7)) 0x1000) 6 = true.
Proof.
  eapply (translate_accessed_dirty Ram.t Ram.bus ram_words Dev demo_satp PSupervisor false false
            Store 0 Mmu.new demo_ram (Ok 0x80000000)).
  - unfold Satp.wf, urange. cbn. lia.
  - unfold urange. lia.
  - apply demo_ram_ok.
  - apply tlb_ok_new.
  - apply ram_tables_in.
  - vm_compute. reflexivity.
  - reflexivity.
  - left. reflexivity.
  - vm_compute. reflexivity.
  - reflexivity.
Defined.

(** User mode is not kept out of supervisor pages.  The permission check
    consults the U bit only for supervisor mode: a user-mode access to a page
    whose leaf has U clear is granted exactly when the same page with U set
    would grant it. *)
Theorem user_bit_ignored_for_user flags access sum mxr :
  Mmu.apply_pte_flags flags access PUser sum mxr
  = Mmu.apply_pte_flags (Z.lor flags 8) access PUser sum mxr
  ∧ (Z.testbit flags 0 = true → Mmu.apply_pte_flags flags Load PUser sum mxr = Ok tt)
  ∧ (Z.testbit flags 1 = true → Mmu.apply_pte_flags flags Store PUser sum mxr = Ok tt).
Proof.
  unfold Mmu.apply_pte_flags; cbv zeta.
  rewrite !land_bit_eqb, !land_1_eqb by lia. rewrite !Z.lor_spec.
  change (Z.testbit 8 0) with false. change (Z.testbit 8 1) with false.
  change (Z.testbit 8 2) with false. rewrite !orb_false_r.
  split_and!; [by destruct access|intros ->|intros ->]; done.
Qed.

(** Unmapped addresses of the identity window are served to everyone.  In
    Sv39 mode, when the walk faults on an address in [0x80200000, 0x81800000),
    the translation succeeds with the address itself for every access, in every
    privilege mode, whatever the page tables say. *)
Theorem identity_window_open (B : Type) (BU : Bus B) (WM : WordMem B)
    satp priv sum mxr access va m b :
  Satp.wf satp → Satp.mode satp = 8 → mem_ok b →
  tlb_ok (word b) (root_of satp) (Mmu.tlb m) → tables_in satp b va →
  identity_window va = true → spec_walk (word b) 2 (root_of satp) va = None →
  ∃ m' b', @Mmu.translate B BU Release satp priv sum mxr access va (m, b)
           = Some (Ok va, (m', b')).
Proof.
  intros Hs Hmode Hb Hx Htab Hi Hw.
  assert (Hr : 0x80200000 <= va < 0x81800000).
  { unfold identity_window in Hi. apply andb_true_iff in Hi as [?%Z.leb_le ?%Z.ltb_lt]. lia. }
  assert (Hva : urange 64 va) by (unfold urange; lia).
  assert (Hc : canonical va).
  { left. rewrite Z.shiftr_div_pow2 by lia. apply Z.div_small. lia. }
  destruct (wp_total _ _ _ (@translate_spec B BU WM Release False ltac:(done) satp Hs priv sum mxr
    access va m b Hva Hb Hx Htab)) as (res & [m' b'] & E & -> & _).
  rewrite flags_translate_sv39, Hw, Hi in E by done. by exists m', b'.
Qed.

Lemma identity_window_open_witness :
  ∃ m' b', @Mmu.translate Ram.t Ram.bus Release demo_satp PUser false false Store 0x80300000
             (Mmu.new, demo_ram) = Some (Ok 0x80300000, (m', b')).
Proof.
  apply (identity_window_open Ram.t Ram.bus ram_words).
  - unfold Satp.wf, urange. cbn. lia.
  - reflexivity.
  - apply demo_ram_ok.
  - apply tlb_ok_new.
  - apply ram_tables_in.
  - reflexivity.
  - vm_compute. reflexivity.
Defined.
