(* ===== verification/Sbi.v ===== *)
(** The built-in SBI implementation ([riscv-supervisor/src/sbi.rs]).

    An S-mode environment call is answered in place.  [HostConsole] is the trait
    the debug console writes to; the handlers run over a console and a bus. *)

From S2P Require Import Prelude Types State Cpu.

Definition SBI_EXT_BASE : Z := 0x10.
Definition SBI_EXT_TIME : Z := 0x54494D45.
Definition SBI_EXT_IPI : Z := 0x735049.
Definition SBI_EXT_HSM : Z := 0x48534D.
Definition SBI_EXT_SRST : Z := 0x53525354.
Definition SBI_EXT_DBCN : Z := 0x4442434E.
Definition SBI_EXT_RFENCE : Z := 0x52464E43.
Definition SBI_SUCCESS : Z := 0.
Definition SBI_ERR_NOT_SUPPORTED : Z := -2.
Definition SBI_ERR_INVALID_PARAM : Z := -3.

Definition SBI_LEGACY_SET_TIMER : Z := 0.
Definition SBI_LEGACY_CONSOLE_PUTCHAR : Z := 1.
Definition SBI_LEGACY_CONSOLE_GETCHAR : Z := 2.
Definition SBI_LEGACY_CLEAR_IPI : Z := 3.
Definition SBI_LEGACY_SEND_IPI : Z := 4.
Definition SBI_LEGACY_REMOTE_FENCE_I : Z := 5.
Definition SBI_LEGACY_REMOTE_SFENCE_VMA : Z := 6.
Definition SBI_LEGACY_REMOTE_SFENCE_VMA_ASID : Z := 7.
Definition SBI_LEGACY_SHUTDOWN : Z := 8.

(** [trait HostConsole] *)
Class HostConsole (C : Type) := console_write : list Z → M C unit.

Record SbiRet := mkSbiRet { error : Z; value : Z }.
Record SbiRetExt := mkSbiRetExt { ext : Z; ret_error : Z; ret_value : Z }.

Definition handle_base (a0 function : Z) : SbiRet :=
  if function =? 0 then mkSbiRet SBI_SUCCESS 0x02000000
  else if function =? 1 then mkSbiRet SBI_SUCCESS 1
  else if function =? 2 then mkSbiRet SBI_SUCCESS 0x02000000
  else if function =? 3 then
    let available :=
      existsb (Z.eqb a0)
        [SBI_EXT_BASE; SBI_EXT_TIME; SBI_EXT_DBCN; SBI_EXT_IPI; SBI_EXT_HSM; SBI_EXT_SRST;
         SBI_EXT_RFENCE; SBI_LEGACY_SET_TIMER; SBI_LEGACY_CONSOLE_PUTCHAR;
         SBI_LEGACY_CONSOLE_GETCHAR; SBI_LEGACY_CLEAR_IPI; SBI_LEGACY_SEND_IPI;
         SBI_LEGACY_REMOTE_FENCE_I; SBI_LEGACY_REMOTE_SFENCE_VMA;
         SBI_LEGACY_REMOTE_SFENCE_VMA_ASID; SBI_LEGACY_SHUTDOWN] in
    mkSbiRet SBI_SUCCESS (if available then 1 else 0)
  else if (function =? 4) || (function =? 5) || (function =? 6) then mkSbiRet SBI_SUCCESS 0
  else mkSbiRet SBI_ERR_NOT_SUPPORTED 0.

Definition handle_hsm (function : Z) : SbiRet :=
  if function =? 0 then mkSbiRet SBI_ERR_INVALID_PARAM 0 else mkSbiRet SBI_ERR_NOT_SUPPORTED 0.
Definition handle_srst (function : Z) : SbiRet :=
  if function =? 0 then mkSbiRet SBI_SUCCESS 0 else mkSbiRet SBI_ERR_NOT_SUPPORTED 0.
Definition handle_ipi (function : Z) : SbiRet :=
  if function =? 0 then mkSbiRet SBI_SUCCESS 0 else mkSbiRet SBI_ERR_NOT_SUPPORTED 0.
Definition handle_rfence (function : Z) : SbiRet :=
  if function =? 0 then mkSbiRet SBI_SUCCESS 0 else mkSbiRet SBI_ERR_NOT_SUPPORTED 0.

Definition PAGE_OFFSET : Z := 0xffffffff80000000.
Definition PHYS_OFFSET : Z := 0x80000000.

Definition va_to_pa (va : Z) : Z :=
  if PAGE_OFFSET <=? va then as_u64 (as_u64 (va - PAGE_OFFSET) + PHYS_OFFSET) else va.

Section Handlers.
Context {C B : Type} `{HostConsole C} `{Bus B} `{Target}.
Abbreviation HM := (M (C * B)).

(** [for i in 0..to_read { chunk[i] = bus.read_u8(base_pa.wrapping_add(written + i)) }] *)
Fixpoint read_chunk (n : nat) (addr : Z) : M B (list Z) :=
  match n with
  | O => mret []
  | S n => x ← read_u8 (as_u64 addr); xs ← read_chunk n (addr + 1); mret (x :: xs)
  end.

(** The [while written < len] loop; [fuel] bounds the number of chunks. *)
Fixpoint dbcn_loop (fuel : nat) (base_pa written len : Z) : HM unit :=
  match fuel with
  | O => mret tt
  | S fuel =>
      if written <? len then
        let to_read := Z.min (len - written) 256 in
        chunk ← on_snd (read_chunk (Z.to_nat to_read) (base_pa + written));
        on_fst (console_write chunk);;
        dbcn_loop fuel base_pa (written + to_read) len
      else mret tt
  end.

Definition handle_dbcn (byte_len base_addr_in : Z) : HM SbiRet :=
  if byte_len =? 0 then mret (mkSbiRet SBI_SUCCESS 0)
  else
    let len := as_usize byte_len in
    let base_pa := va_to_pa base_addr_in in
    dbcn_loop (Z.to_nat (len / 256 + 1)) base_pa 0 len;;
    mret (mkSbiRet SBI_SUCCESS (as_i64 byte_len)).

Definition handle_time (a0 a1 : Z) : HM SbiRet :=
  let stime := Z.lor (as_u64 (Z.shiftl a1 32)) a0 in
  on_snd (write_u64 0x02004000 stime);;
  mret (mkSbiRet SBI_SUCCESS 0).

Definition handle_ecall (a0 a1 a6 a7 : Z) : HM SbiRetExt :=
  ret ←
    (if a7 =? SBI_EXT_DBCN then handle_dbcn a0 a1
     else if a7 =? SBI_EXT_BASE then mret (handle_base a0 a6)
     else if a7 =? SBI_EXT_TIME then handle_time a0 a1
     else if a7 =? SBI_EXT_HSM then mret (handle_hsm a6)
     else if a7 =? SBI_EXT_SRST then mret (handle_srst a6)
     else if a7 =? SBI_EXT_IPI then mret (handle_ipi a6)
     else if a7 =? SBI_EXT_RFENCE then mret (handle_rfence a6)
     else if a7 =? SBI_LEGACY_SET_TIMER then
       on_snd (write_u64 0x02004000 a0);; mret (mkSbiRet 0 0)
     else if a7 =? SBI_LEGACY_CONSOLE_PUTCHAR then
       on_fst (console_write [Z.land a0 0xFF]);; mret (mkSbiRet 0 0)
     else if a7 =? SBI_LEGACY_CONSOLE_GETCHAR then mret (mkSbiRet 0 (-1))
     else if a7 =? SBI_LEGACY_CLEAR_IPI then mret (mkSbiRet 0 0)
     else if a7 =? SBI_LEGACY_SEND_IPI then mret (mkSbiRet 0 0)
     else if a7 =? SBI_LEGACY_REMOTE_FENCE_I then mret (mkSbiRet 0 0)
     else if a7 =? SBI_LEGACY_REMOTE_SFENCE_VMA then mret (mkSbiRet 0 0)
     else if a7 =? SBI_LEGACY_REMOTE_SFENCE_VMA_ASID then mret (mkSbiRet 0 0)
     else if a7 =? SBI_LEGACY_SHUTDOWN then mret (mkSbiRet 0 (-1))
     else mret (mkSbiRet SBI_ERR_NOT_SUPPORTED 0));
  mret (mkSbiRetExt a7 (error ret) (value ret)).
End Handlers.

(** * Facts *)

(** A console that collects what it is given. *)
#[global] Instance list_console : HostConsole (list Z) := λ l, modify (λ c, c ++ l).

Section Safety.
Context {C B : Type} {HC : HostConsole C} {BU : Bus B} {TG : Target} (P : Prop) {BO : BusOk P B}.
Context (Cinv : C → Prop).
Hypothesis (Hwrite : ∀ l c, Forall is_byte l → Cinv c → wp P (console_write l) (λ _ c', Cinv c') c).

Lemma read_chunk_ok n addr b :
  bus_inv b →
  wp P (read_chunk n addr) (λ l b', Forall is_byte l ∧ length l = n ∧ bus_inv b') b.
Proof.
  revert addr b. induction n as [|n IH]; intros addr b Hb; cbn [read_chunk]; [done|].
  apply wp_bind. eapply wp_mono; [apply read_u8_ok; [apply wrap_range; lia|done]|].
  intros x b1 [Hx Hb1]. apply wp_bind. eapply wp_mono; [by apply IH|].
  intros xs b2 (Hxs & Hl & Hb2). apply wp_ret. cbn. split_and!; [by constructor|congruence|done].
Qed.

Lemma dbcn_loop_ok fuel base w len c b :
  Cinv c → bus_inv b →
  wp P (dbcn_loop fuel base w len) (λ _ s, Cinv s.1 ∧ bus_inv s.2) (c, b).
Proof.
  revert w c b. induction fuel as [|fuel IH]; intros w c b Hc Hb; cbn [dbcn_loop]; [done|].
  destruct (w <? len); [|done]. cbv zeta. apply wp_bind, wp_on_snd.
  eapply wp_mono; [by apply read_chunk_ok|]. intros l b1 (Hl & _ & Hb1).
  apply wp_bind, wp_on_fst. eapply wp_mono; [by apply Hwrite|]. intros [] c1 Hc1. by apply IH.
Qed.

Definition sbi_codes (r : SbiRetExt) : Prop :=
  (ret_error r = SBI_SUCCESS ∨ ret_error r = SBI_ERR_NOT_SUPPORTED
   ∨ ret_error r = SBI_ERR_INVALID_PARAM) ∧ srange 64 (ret_value r).

Lemma handle_ecall_ok a0 a1 a6 a7 c b :
  urange 64 a0 → Cinv c → bus_inv b →
  wp P (handle_ecall a0 a1 a6 a7)
    (λ r s, ext r = a7 ∧ sbi_codes r ∧ Cinv s.1 ∧ bus_inv s.2) (c, b).
Proof.
  intros Ha0 Hc Hb. unfold handle_ecall. apply wp_bind.
  assert (Hpure : ∀ r, (error r = SBI_SUCCESS ∨ error r = SBI_ERR_NOT_SUPPORTED
                        ∨ error r = SBI_ERR_INVALID_PARAM) → srange 64 (value r) →
    wp P (mret r) (λ ret s, wp P (mret (mkSbiRetExt a7 (error ret) (value ret)))
      (λ r s, ext r = a7 ∧ sbi_codes r ∧ Cinv s.1 ∧ bus_inv s.2) s) (c, b)).
  { intros r He Hv. by apply wp_ret, wp_ret. }
  assert (Htime : ∀ t, urange 64 t → wp P (on_snd (write_u64 0x02004000 t);; mret (mkSbiRet 0 0))
    (λ ret s, wp P (mret (mkSbiRetExt a7 (error ret) (value ret)))
      (λ r s, ext r = a7 ∧ sbi_codes r ∧ Cinv s.1 ∧ bus_inv s.2) s) (c, b)).
  { intros t Ht. apply wp_bind, wp_on_snd.
    eapply wp_mono; [apply write_u64_ok; [by unfold urange|done..]|].
    intros [] b1 Hb1. apply wp_ret, wp_ret. split_and!; try done. split; [by left|done]. }
  assert (Hs : ∀ n, -1 <= n <= 0x02000000 → srange 64 n) by (unfold srange; lia).
  repeat case_match;
    first [ apply Hpure; unfold handle_base, handle_hsm, handle_srst, handle_ipi, handle_rfence;
            cbv zeta; split_ifs; cbn [error value]; solve [auto | by apply Hs]
          | idtac ].
  - unfold handle_dbcn. case_match; [by apply Hpure; [left|apply Hs]|]. apply wp_bind.
    eapply wp_mono; [by apply dbcn_loop_ok|]. intros [] [c1 b1] [Hc1 Hb1].
    apply wp_ret, wp_ret. split_and!; try done. split; [by left|]. apply sext_range. lia.
  - apply Htime. apply urange_lor; [lia|apply wrap_range; lia|done].
  - by apply Htime.
  - apply wp_bind, wp_on_fst. eapply wp_mono; [apply Hwrite; [|done]|].
    { constructor; [|done]. unfold is_byte. field_range. }
    intros [] c1 Hc1. apply wp_ret, wp_ret. split_and!; try done. split; [by left|done].
Qed.
End Safety.

(** ** What the debug console prints *)

Section Dbcn.
Context {B : Type} {BU : Bus B} {TG : Target} (b : B) (byte : Z → Z).
Hypothesis (Hread : ∀ a, urange 64 a → read_u8 a b = Some (byte a, b)).

Definition bytes_from (addr n : Z) : list Z := (λ a, byte (as_u64 a)) <$> seqZ addr n.

Lemma read_chunk_run n addr :
  read_chunk n addr b = Some (bytes_from addr (Z.of_nat n), b).
Proof.
  revert addr. induction n as [|n IH]; intros addr; [done|].
  cbn [read_chunk]. unfold mbind, M_bind. rewrite Hread by (apply wrap_range; lia).
  rewrite IH. unfold bytes_from. rewrite (seqZ_cons addr (Z.of_nat (S n))) by lia.
  replace (Z.succ addr) with (addr + 1) by lia.
  by replace (Z.pred (Z.of_nat (S n))) with (Z.of_nat n) by lia.
Qed.

Lemma dbcn_loop_run fuel base w len (c : list Z) :
  0 <= w <= len → len - w <= 256 * Z.of_nat fuel →
  dbcn_loop fuel base w len (c, b) = Some (tt, (c ++ bytes_from (base + w) (len - w), b)).
Proof.
  assert (Hdone : ∀ w c, Some (tt, (c, b)) = Some (tt, (c ++ bytes_from (base + w) (w - w), b))).
  { intros w' c'. rewrite Z.sub_diag. unfold bytes_from. cbn. by rewrite app_nil_r. }
  revert w c. induction fuel as [|fuel IH]; intros w c Hw Hf.
  { assert (len = w) as -> by lia. apply Hdone. }
  cbn [dbcn_loop]. destruct (Z.ltb_spec w len) as [Hlt|Hge].
  2:{ assert (len = w) as -> by lia. apply Hdone. }
  cbv zeta. set (k := Z.min (len - w) 256).
  unfold mbind at 1, M_bind, on_snd. rewrite read_chunk_run, Z2Nat.id by lia.
  unfold mbind at 1, on_fst, console_write, list_console, modify.
  rewrite IH by lia. do 3 f_equal. rewrite <- app_assoc. f_equal. unfold bytes_from.
  rewrite <- fmap_app. f_equal.
  replace (len - w) with (k + (len - (w + k))) by lia. rewrite seqZ_app by lia.
  by rewrite Z.add_assoc.
Qed.
End Dbcn.

(** * Properties *)

(** SBI calls cannot take the host down.  Over a bus and a console that do
    not panic, every environment call, known extension or not, returns an error
    code among SUCCESS, NOT_SUPPORTED and INVALID_PARAM and a 64-bit value,
    echoes the extension and keeps the invariants of console and bus; the debug
    console loop terminates for every length. *)
Theorem sbi_ecall_safe (C B : Type) (HC : HostConsole C) (BU : Bus B) (BO : BusOk False B)
    (TG : Target) (Cinv : C → Prop) a0 a1 a6 a7 c b :
  (∀ l c, Forall is_byte l → Cinv c →
     ∃ c', console_write l c = Some (tt, c') ∧ Cinv c') →
  urange 64 a0 → Cinv c → bus_inv b →
  ∃ r c' b', handle_ecall a0 a1 a6 a7 (c, b) = Some (r, (c', b'))
    ∧ ext r = a7 ∧ sbi_codes r ∧ Cinv c' ∧ bus_inv b'.
Proof.
  intros Hw Ha Hc Hb.
  assert (Hw' : ∀ l c, Forall is_byte l → Cinv c →
            wp False (console_write l) (λ _ c', Cinv c') c).
  { intros l c0 Hl Hc0. destruct (Hw l c0 Hl Hc0) as (c' & E & Hc'). unfold wp. by rewrite E. }
  destruct (wp_total _ _ _ (handle_ecall_ok False Cinv Hw' a0 a1 a6 a7 c b Ha Hc Hb))
    as (r & [c' b'] & E & H1 & H2 & H3 & H4).
  by exists r, c', b'.
Qed.

Lemma sbi_ecall_safe_witness :
  ∃ r c' b', @handle_ecall (list Z) Ram.t list_console Ram.bus Native64 5 0x80000000 0
               SBI_EXT_DBCN ([], ∅) = Some (r, (c', b'))
    ∧ ext r = SBI_EXT_DBCN ∧ sbi_codes r ∧ True ∧ bus_inv b'.
Proof.
  apply (sbi_ecall_safe (list Z) Ram.t list_console Ram.bus Ram.bus_ok Native64 (λ _, True)).
  - intros l c _ _. exists (c ++ l). split; [reflexivity|exact I].
  - unfold urange. lia.
  - exact I.
  - apply map_Forall_empty.
Defined.

(** The debug console prints memory.  A console-write call of [len] bytes
    appends exactly the bytes of physical memory from the translated base
    address on, in order, through 256-byte chunks, and reports success with the
    length; an address in the kernel's direct map is first moved to its physical
    address. *)
Theorem dbcn_prints (B : Type) (BU : Bus B) (TG : Target) (b : B) (byte : Z → Z) len base c :
  (∀ a, urange 64 a → read_u8 a b = Some (byte a, b)) →
  0 < len → urange usize_bits len →
  handle_dbcn len base (c, b)
  = Some (mkSbiRet SBI_SUCCESS (as_i64 len),
          (c ++ bytes_from byte (va_to_pa base) len, b)).
Proof.
  intros Hread Hlen Hu. unfold handle_dbcn. destruct (Z.eqb_spec len 0); [lia|].
  rewrite wrap_small by done. cbv zeta. unfold mbind, M_bind.
  pose proof (Z.div_mod len 256 ltac:(lia)). pose proof (Z.mod_pos_bound len 256 ltac:(lia)).
  rewrite (dbcn_loop_run b byte Hread) by lia. by rewrite Z.add_0_r, Z.sub_0_r.
Qed.

Lemma dbcn_prints_witness :
  let m : Ram.t := Ram.store ∅ 0x80000100 [104; 105] in
  @handle_dbcn (list Z) Ram.t list_console Ram.bus Native64 2 0xffffffff80000100 ([33], m)
  = Some (mkSbiRet 0 2, ([33; 104; 105], m)).
Proof.
  intros m.
  apply (dbcn_prints Ram.t Ram.bus Native64 m (λ a, Ram.get_byte m a + 256 * 0) 2
           0xffffffff80000100 [33]).
  - reflexivity.
  - lia.
  - unfold urange. vm_compute. split; [discriminate|reflexivity].
Defined.
