(* ===== verification/MmuSafe.v ===== *)
(** The MMU against the bus interface: over any bus that meets [BusOk],
    translation returns, yields a 64-bit physical address or a page fault, and
    keeps the TLB's shape and the bus invariant. *)

From S2P Require Import Prelude Keeps Types SupTypes Cpu Mmu.

(** The two arrays of the TLB keep their lengths. *)
Definition tlb_shape (m : Mmu.t) : Prop :=
  length (Tlb.sets (Mmu.tlb m)) = 256%nat ∧ length (Tlb.lru (Mmu.tlb m)) = 64%nat.

Lemma tlb_shape_new : tlb_shape Mmu.new.
Proof. by split. Qed.

Lemma tlb_shape_flush m : tlb_shape m → tlb_shape (Mmu.flush_tlb m).
Proof. intros [H1 H2]. split; cbn; by rewrite length_fmap. Qed.

(** What a translation returns. *)
Definition translated_to (r : Result Z Trap) : Prop :=
  match r with
  | Ok paddr => urange 64 paddr
  | Err t => ∃ e, t = TException e ∧ urange 64 (exception_code e)
  end.

Definition walk_range (r : Result Mmu.walk_ok Trap) : Prop :=
  match r with
  | Ok w => urange 64 (Mmu.w_paddr w) ∧ urange 64 (Mmu.w_pte_addr w)
  | Err t => translated_to (Err t)
  end.

Lemma page_fault_ok a : translated_to (Err (TException (Mmu.page_fault_for a))).
Proof. exists (Mmu.page_fault_for a). split; [done|]. destruct a; by unfold urange. Qed.

Lemma offset_range base vaddr m : urange 64 vaddr → urange 64 (Z.lor (as_u64 base) (Z.land vaddr m)).
Proof.
  intros Hv. apply urange_lor; [lia|apply wrap_range; lia|by apply urange_land_l].
Qed.

Section Safe.
Context {B : Type} {BU : Bus B} {PR : Profile} (P : Prop) {BO : BusOk P B}.
Context (HP : overflow_checks = true → P).

Definition mmu_inv (s : Mmu.t * B) : Prop := tlb_shape s.1 ∧ bus_inv s.2.
Abbreviation mkeeps := (keeps P mmu_inv).

Lemma mkeeps_upd f : (∀ m, Mmu.tlb (f m) = Mmu.tlb m) → mkeeps (Mmu.upd f) (λ _, True).
Proof.
  intros Hf. unfold mmu_inv. apply keeps_on_fst, keeps_modify. intros m Hm.
  unfold tlb_shape in *. by rewrite Hf.
Qed.

Lemma mkeeps_read a : urange 64 a → mkeeps (Mmu.on_bus (read_u64 a)) (urange 64).
Proof. intros Ha. apply keeps_on_snd. intros b Hb. by apply read_u64_ok. Qed.

Lemma mkeeps_write a v :
  urange 64 a → urange 64 v → mkeeps (Mmu.on_bus (write_u64 a v)) (λ _, True).
Proof.
  intros Ha Hv. apply keeps_on_snd. intros b Hb.
  eapply wp_mono; [by apply write_u64_ok|]. by intros [] b' Hb'.
Qed.

Lemma mkeeps_add x y : mkeeps (Mmu.on_mmu (lift (add_u 64 x y))) (urange 64).
Proof. apply keeps_on_fst, keeps_checked; [lia|done]. Qed.

Lemma mkeeps_skip : mkeeps (mret tt) (λ _, True).
Proof. by apply keeps_ret. Qed.

Lemma mkeeps_fail {A} va access r (R : Result A Trap → Prop) :
  (∀ t, translated_to (Err t) → R (Err t)) → mkeeps (Mmu.fail va access r) R.
Proof.
  intros HR. unfold Mmu.fail, Mmu.walk_fail.
  eapply (keeps_bind _ _ _ _ (λ t, translated_to (Err t)));
    [|intros t Ht; apply keeps_ret; auto].
  do 2 (apply keeps_seq; [by apply mkeeps_upd|]).
  eapply (keeps_bind _ _ _ _ (λ _, True)); [by apply keeps_on_fst, keeps_get|]. intros n _.
  eapply keeps_bind; [apply mkeeps_add|]. intros n' _.
  apply keeps_seq; [by apply mkeeps_upd|]. apply keeps_ret, page_fault_ok.
Qed.

Lemma leaf_addr_range level ppn va paddr cppn size :
  urange 64 va → Mmu.leaf_addr level ppn va = Some (paddr, cppn, size) → urange 64 paddr.
Proof.
  intros Hv. destruct level as [|[|[|level]]]; cbn [Mmu.leaf_addr]; try case_match;
    intros; simplify_eq; by apply offset_range.
Qed.

Lemma walk_loop_safe level dump table va access :
  urange 64 va → mkeeps (Mmu.walk_loop level dump table va access) walk_range.
Proof.
  intros Hv. revert table. induction level as [|level IH]; intros table; cbn [Mmu.walk_loop].
  all: eapply keeps_bind; [apply mkeeps_add|]; intros pte_addr Ha.
  all: eapply keeps_bind; [by apply mkeeps_read|]; intros pte Hpte.
  all: do 3 (apply keeps_seq; [by apply mkeeps_upd|]).
  all: apply keeps_seq; [destruct dump; [|apply mkeeps_skip]; apply keeps_seq; by apply mkeeps_upd|].
  all: cbv zeta; destruct (_ =? 0); [by apply mkeeps_fail|].
  all: destruct (_ && _); [by apply mkeeps_fail|].
  all: destruct (_ && _); [try (by apply mkeeps_fail); apply IH|].
  all: destruct (Mmu.leaf_addr _ _ _) as [[[paddr cppn] size]|] eqn:Hl; [|by apply mkeeps_fail].
  all: apply keeps_seq;
    [destruct dump; [|apply mkeeps_skip]; repeat apply keeps_seq; by apply mkeeps_upd|].
  all: apply keeps_ret; split; [exact (leaf_addr_range _ _ _ _ _ _ Hv Hl)|done].
Qed.

Lemma walk_sv39_safe satp va access :
  urange 64 va → mkeeps (Mmu.walk_sv39 satp va access) walk_range.
Proof.
  intros Hv. unfold Mmu.walk_sv39. cbv zeta. apply keeps_seq; [by apply mkeeps_upd|].
  eapply keeps_bind; [apply mkeeps_add|]. intros ra Hra.
  eapply keeps_bind; [by apply mkeeps_read|]. intros rp Hrp.
  apply keeps_seq; [by apply mkeeps_upd|].
  eapply (keeps_bind _ _ _ _ (λ _, True)); [by apply keeps_on_fst, keeps_get|]. intros d _.
  apply keeps_seq; [|by apply walk_loop_safe].
  destruct (_ && _); [|apply mkeeps_skip]. repeat apply keeps_seq; by apply mkeeps_upd.
Qed.

Lemma set_ad_safe pte_addr flags access :
  urange 64 pte_addr → mkeeps (Mmu.set_ad pte_addr flags access) (λ _, True).
Proof.
  intros Ha. unfold Mmu.set_ad. destruct (Mmu.ad_satisfied _ _); [by apply keeps_ret|].
  eapply keeps_bind; [by apply mkeeps_read|]. intros pte Hpte. cbv zeta.
  apply keeps_seq; [|by apply keeps_ret]. apply mkeeps_write; [done|].
  assert (urange 64 (Z.lor pte (Z.shiftl 1 6))) by (apply urange_lor; [lia|done|by unfold urange]).
  destruct (bool_decide _); [|done]. apply urange_lor; [lia|done|by unfold urange].
Qed.

Lemma tlb_insert_safe va ppn size flags : mkeeps (Mmu.tlb_insert va ppn size flags) (λ _, True).
Proof.
  intros [m b] [[H1 H2] Hb]. unfold Mmu.tlb_insert, Mmu.on_mmu. apply wp_bind, wp_on_fst, wp_get.
  unfold Tlb.insert, mbind, M_bind, get, modify, lift. cbn [Tlb.lru].
  pose proof (keeps_checked P (λ _ : unit, True) 8
                ((Tlb.lru (Mmu.tlb m) !!! Z.to_nat (Tlb.set_of (Tlb.vpn_at va size))) + 1)
                ltac:(lia) HP tt I) as Hadd.
  unfold wp, lift in Hadd. unfold add_u.
  destruct (checked_u 8 _) as [l'|]; cbn; [|done].
  apply wp_on_fst, wp_modify. unfold mmu_inv, tlb_shape. cbn. by rewrite !length_insert.
Qed.

Lemma apply_tlb_range e va access priv sum mxr :
  urange 64 va → translated_to (Mmu.apply_tlb e va access priv sum mxr).
Proof.
  intros Hv. unfold Mmu.apply_tlb. destruct (Mmu.apply_pte_flags _ _ _ _ _) eqn:E.
  - split_ifs; by apply offset_range.
  - unfold Mmu.apply_pte_flags in E. destruct access; revert E; split_ifs; intros; simplify_eq;
      eexists; (split; [done|]); by unfold urange.
Qed.

Lemma apply_pte_flags_err flags access priv sum mxr t :
  Mmu.apply_pte_flags flags access priv sum mxr = Err t → translated_to (Err t).
Proof.
  unfold Mmu.apply_pte_flags. destruct access; split_ifs; intros; simplify_eq;
    eexists; (split; [done|]); by unfold urange.
Qed.

Lemma mmu_translate_safe satp priv sum mxr access va :
  urange 64 va → mkeeps (Mmu.translate satp priv sum mxr access va) translated_to.
Proof.
  intros Hv. unfold Mmu.translate. destruct (_ =? 0); [by apply keeps_ret|].
  destruct (negb _); [by apply mkeeps_fail|]. cbv zeta.
  destruct (_ && _); [by apply mkeeps_fail|].
  eapply (keeps_bind _ _ _ _ (λ _, True)); [by apply keeps_on_fst, keeps_get|]. intros x _.
  assert (Hmiss : mkeeps
    (res ← Mmu.walk_sv39 satp va access;
     match res with
     | Ok w => match Mmu.apply_pte_flags (Mmu.w_flags w) access priv sum mxr with
               | Ok _ => flags ← Mmu.set_ad (Mmu.w_pte_addr w) (Mmu.w_flags w) access;
                         Mmu.tlb_insert va (Mmu.w_ppn w) (Mmu.w_size w) flags;;
                         mret (Ok (Mmu.w_paddr w))
               | Err t => mret (Err t)
               end
     | Err trap =>
         if (0x80201000 <=? va) && (va <? 0x80202000) then
           Mmu.tlb_insert va (Z.shiftr va 12) 0 0x67;; mret (Ok va)
         else if (0x80200000 <=? va) && (va <? 0x81800000) then
           Mmu.tlb_insert va (Z.shiftr va 12) 0 0x67;; mret (Ok va)
         else mret (Err trap)
     end) translated_to).
  { eapply keeps_bind; [by apply walk_sv39_safe|]. intros [w|t] Hw.
    - destruct Hw as [Hp Ha]. destruct (Mmu.apply_pte_flags _ _ _ _ _) eqn:E.
      + eapply keeps_bind; [by apply set_ad_safe|]. intros fl _.
        apply keeps_seq; [apply tlb_insert_safe|]. by apply keeps_ret.
      + apply keeps_ret. by eapply apply_pte_flags_err.
    - split_ifs; [apply keeps_seq; [apply tlb_insert_safe|by apply keeps_ret]..|].
      by apply keeps_ret. }
  destruct (Tlb.lookup x va) as [e|]; [|exact Hmiss].
  destruct (Mmu.ad_satisfied _ _); [|exact Hmiss].
  apply keeps_ret. by apply apply_tlb_range.
Qed.
End Safe.
