(* ===== verification/SupState.v ===== *)
(** The supervisor layer's state ([riscv-supervisor/src/supervisor.rs]: [Supervisor],
    its constructor, the address-space generations, the diagnostic recorders and
    the debug-console sink).

    [Sup] is the struct; the fields the source calls diagnostics (rings, watches,
    one-shot captures and their counters, and the two [static mut] words of the
    pc-set recorder) are grouped in [Diag], whose contents no other part of the
    model reads. *)

From S2P Require Import Prelude Keeps Types SupTypes State Cpu Mmu Sbi.

Definition DCACHE_LEN : Z := 32768.
Definition INT_SYNC_INTERVAL : Z := 64.
Definition ASID_SLOTS : Z := 128.
Definition ASID_KEYED : bool := true.

(** [struct AsidSlot] *)
Module AsidSlot.
Record t := mk { satp : Z; trans_gen : Z; data_trans_gen : Z }.
Definition EMPTY : t := mk U64_MAX 0 0.
#[global] Instance asid_slot_inhabited : Inhabited t := populate EMPTY.
End AsidSlot.

(** An entry of the decoded-instruction cache: physical address, instruction,
    width and raw encoding. *)
Module Decoded.
Record t := mk { tag : Z; instr : Instr; width : Z; raw : Z }.
End Decoded.

Module Diag.
Record t := mk {
  last_trap_cause : Z;
  last_trap_epc : Z;
  last_ecall_a7 : Z;
  last_ecall_a6 : Z;
  last_ecall_a0 : Z;
  ecall_count : Z;
  last_decode_fail_raw : Z;
  last_decode_fail_pc : Z;
  last_fetch_paddr : Z;
  last_fetch_half : Z;
  dbg_last_time : Z;
  dbg_time_reads : Z;
  trace_enabled : bool;
  pc_trace : list (Z * Z);
  pc_trace_idx : Z;
  phys_transitions : list (Z * Z * Z);
  phys_trans_idx : Z;
  phys_fault_pc : Z;
  phys_fault_ring : list (Z * Z);
  phys_fault_captured : bool;
  tramp_entry_captured : bool;
  tramp_entry_ring : list (Z * Z);
  low_trans_ring : list (Z * Z);
  store_ring : list (Z * Z * Z);
  store_head : Z;
  watch_mask : Z;
  watch_expect : Z;
  watch_outside_nonzero : bool;
  watch_pcoff : list Z;
  watch_page : Z;
  watch_pc_lo : Z;
  watch_pc_hi : Z;
  watch_hits : list (Z * Z * Z);
  watch_loads : list (Z * Z * Z);
  check_irq_regs : bool;
  irq_snapshot : option (Z * Z * Z * list Z);
  irq_mismatch : option (Z * Z * Z * Z);
  irq_snaps : Z;
  irq_compares : Z;
  dbg_pc_set : list Z;
  dbg_pc_set_n : Z;
}.
#[global] Instance eta_diag : Eta t := λ d,
  mk (last_trap_cause d) (last_trap_epc d) (last_ecall_a7 d) (last_ecall_a6 d)
     (last_ecall_a0 d) (ecall_count d) (last_decode_fail_raw d) (last_decode_fail_pc d)
     (last_fetch_paddr d) (last_fetch_half d) (dbg_last_time d) (dbg_time_reads d)
     (trace_enabled d) (pc_trace d) (pc_trace_idx d) (phys_transitions d)
     (phys_trans_idx d) (phys_fault_pc d) (phys_fault_ring d) (phys_fault_captured d)
     (tramp_entry_captured d) (tramp_entry_ring d) (low_trans_ring d) (store_ring d)
     (store_head d) (watch_mask d) (watch_expect d) (watch_outside_nonzero d)
     (watch_pcoff d) (watch_page d) (watch_pc_lo d) (watch_pc_hi d) (watch_hits d)
     (watch_loads d) (check_irq_regs d) (irq_snapshot d) (irq_mismatch d) (irq_snaps d)
     (irq_compares d) (dbg_pc_set d) (dbg_pc_set_n d).

Definition new : t := mk
  0 0 0 0 0 0 0 0 0 0 0 0
  false (replicate 1024 (0, 0)) 0 (replicate 64 (0, 0, 0))
  0 0 (replicate 1024 (0, 0)) false
  false (replicate 1024 (0, 0)) (replicate 64 (0, 0)) []
  0 0 0 false
  (replicate 8 U64_MAX) 0 0 U64_MAX []
  [] false None None 0
  0 (replicate 64 0) 0.
End Diag.

Module Sup.
Record t := mk {
  cpu : Cpu.t;
  mmu : Mmu.t;
  priv_level : Privilege;
  mstatus : MStatus.t;
  mie : Z;
  mip : Z;
  mtvec : Z;
  mepc : Z;
  mcause : Z;
  mtval : Z;
  mscratch : Z;
  medeleg : Z;
  mideleg : Z;
  stvec : Z;
  sepc : Z;
  scause : Z;
  stval : Z;
  sscratch : Z;
  satp : Satp.t;
  stimecmp : Z;
  mcycle : Z;
  minstret : Z;
  pmpcfg : list Z;
  pmpaddr : list Z;
  wrote_mcycle : bool;
  wrote_minstret : bool;
  mhartid : Z;
  wfi : bool;
  int_sync_countdown : Z;
  fetch_vpn : Z;
  fetch_priv : Privilege;
  fetch_ppn : Z;
  trap_delivered : bool;
  reservation_addr : option Z;
  console_buf : list Z;
  console_len : Z;
  last_fetched_raw : Z;
  trans_gen : Z;
  gen_bump : list Z;
  data_trans_gen : Z;
  asid_tbl : list AsidSlot.t;
  asid_gen_next : Z;
  pending_flush : list Z;
  pending_flush_n : Z;
  icache_gen : Z;
  block_start : bool;
  (** the [Some] entries of the 32768-entry vector, by index *)
  dcache : gmap Z Decoded.t;
  sbi_enabled : bool;
  diag : Diag.t;
}.
#[global] Instance eta_sup : Eta t := λ s,
  mk (cpu s) (mmu s) (priv_level s) (mstatus s) (mie s) (mip s) (mtvec s) (mepc s)
     (mcause s) (mtval s) (mscratch s) (medeleg s) (mideleg s) (stvec s) (sepc s)
     (scause s) (stval s) (sscratch s) (satp s) (stimecmp s) (mcycle s) (minstret s)
     (pmpcfg s) (pmpaddr s) (wrote_mcycle s) (wrote_minstret s) (mhartid s) (wfi s)
     (int_sync_countdown s) (fetch_vpn s) (fetch_priv s) (fetch_ppn s)
     (trap_delivered s) (reservation_addr s) (console_buf s) (console_len s)
     (last_fetched_raw s) (trans_gen s) (gen_bump s) (data_trans_gen s) (asid_tbl s)
     (asid_gen_next s) (pending_flush s) (pending_flush_n s) (icache_gen s)
     (block_start s) (dcache s) (sbi_enabled s) (diag s).

Definition new (pc hartid : Z) : t := mk
  (Cpu.new pc) Mmu.new PMachine MStatus.default (Z.shiftl 1 7) 0 0 0
  0 0 0 0xFFFF 0x2A2 0 0
  0 0 0 (Satp.mk 0 0 0) U64_MAX 0 0
  (replicate 16 0) (replicate 64 0) false false hartid false
  0 U64_MAX PMachine 0
  false None (replicate (Z.to_nat 1048576) 0) 0
  0 0 [0; 0; 0; 0] 0 (replicate 128 AsidSlot.EMPTY)
  0 (replicate 8 0) 0 0
  true ∅ true Diag.new.

(** Two states with equal fields are equal. *)
Lemma sup_ext s s' :
  cpu s = cpu s' → mmu s = mmu s' → priv_level s = priv_level s' →
  mstatus s = mstatus s' → mie s = mie s' → mip s = mip s' →
  mtvec s = mtvec s' → mepc s = mepc s' → mcause s = mcause s' →
  mtval s = mtval s' → mscratch s = mscratch s' → medeleg s = medeleg s' →
  mideleg s = mideleg s' → stvec s = stvec s' → sepc s = sepc s' →
  scause s = scause s' → stval s = stval s' → sscratch s = sscratch s' →
  satp s = satp s' → stimecmp s = stimecmp s' → mcycle s = mcycle s' →
  minstret s = minstret s' → pmpcfg s = pmpcfg s' → pmpaddr s = pmpaddr s' →
  wrote_mcycle s = wrote_mcycle s' → wrote_minstret s = wrote_minstret s' → mhartid s = mhartid s' →
  wfi s = wfi s' → int_sync_countdown s = int_sync_countdown s' → fetch_vpn s = fetch_vpn s' →
  fetch_priv s = fetch_priv s' → fetch_ppn s = fetch_ppn s' → trap_delivered s = trap_delivered s' →
  reservation_addr s = reservation_addr s' → console_buf s = console_buf s' → console_len s = console_len s' →
  last_fetched_raw s = last_fetched_raw s' → trans_gen s = trans_gen s' → gen_bump s = gen_bump s' →
  data_trans_gen s = data_trans_gen s' → asid_tbl s = asid_tbl s' → asid_gen_next s = asid_gen_next s' →
  pending_flush s = pending_flush s' → pending_flush_n s = pending_flush_n s' → icache_gen s = icache_gen s' →
  block_start s = block_start s' → dcache s = dcache s' → sbi_enabled s = sbi_enabled s' →
  diag s = diag s' →
  s = s'.
Proof. destruct s, s'; cbn; intros; by subst. Qed.

(** ** Parts of the state *)

Definition set_cpu (c : Cpu.t) (s : t) : t := s <| cpu := c |>.
Definition on_cpu {A} (m : M Cpu.t A) : M t A := zoom cpu set_cpu m.
Definition upd_diag (f : Diag.t → Diag.t) (s : t) : t := s <| diag := f (diag s) |>.
Definition read_reg (s : t) (i : Z) : Z := Cpu.read_reg (cpu s) i.

(** ** Instruction classes *)

Definition is_simple_load_store (i : Instr) : bool :=
  match i with
  | Lb _ _ _ | Lh _ _ _ | Lw _ _ _ | Ld _ _ _ | Lbu _ _ _ | Lhu _ _ _ | Lwu _ _ _
  | Fld _ _ _ | Flw _ _ _ | Sb _ _ _ | Sh _ _ _ | Sw _ _ _ | Sd _ _ _ | Fsd _ _ _
  | Fsw _ _ _ => true
  | _ => false
  end.

Definition is_fp (i : Instr) : bool :=
  match i with
  | Fp _ | Flw _ _ _ | Fsw _ _ _ | Fld _ _ _ | Fsd _ _ _ => true
  | _ => false
  end.

Definition is_atomic (i : Instr) : bool :=
  match i with
  | Amoswapw _ _ _ _ _ | Amoaddw _ _ _ _ _ | Amoxorw _ _ _ _ _ | Amoandw _ _ _ _ _
  | Amoorw _ _ _ _ _ | Amominw _ _ _ _ _ | Amomaxw _ _ _ _ _ | Amominuw _ _ _ _ _
  | Amomaxuw _ _ _ _ _ | Amoswapd _ _ _ _ _ | Amoaddd _ _ _ _ _ | Amoxord _ _ _ _ _
  | Amoandd _ _ _ _ _ | Amoord _ _ _ _ _ | Amomind _ _ _ _ _ | Amomaxd _ _ _ _ _
  | Amominud _ _ _ _ _ | Amomaxud _ _ _ _ _ => true
  | _ => false
  end.

(** ** Address-space generations *)

Definition asid_index (satp : Z) : Z :=
  let ppn := Z.land satp 0xFFFFFFFFFFF in
  Z.land (Z.lxor (Z.lxor ppn (Z.shiftr ppn 10)) (Z.shiftr ppn 21)) (ASID_SLOTS - 1).

(** [self.asid_gen_next = self.asid_gen_next.wrapping_add(1)] *)
Definition bump_gen (s : t) : t := s <| asid_gen_next := as_u32 (asid_gen_next s + 1) |>.

Definition invalidate_all_spaces (s : t) : t :=
  let s := s <| asid_tbl := (λ _, AsidSlot.EMPTY) <$> asid_tbl s |> in
  let s := bump_gen s in
  let s := s <| trans_gen := asid_gen_next s |> in
  s <| data_trans_gen := asid_gen_next s |>.

Definition switch_address_space (old new : Z) (s : t) : t :=
  if negb ASID_KEYED then invalidate_all_spaces s
  else
    let oi := Z.to_nat (asid_index old) in
    let s := s <| asid_tbl := <[oi := AsidSlot.mk old (trans_gen s) (data_trans_gen s)]>
                                (asid_tbl s) |> in
    let ni := Z.to_nat (asid_index new) in
    let slot := asid_tbl s !!! ni in
    if AsidSlot.satp slot =? new then
      let s := s <| trans_gen := AsidSlot.trans_gen slot |> in
      s <| data_trans_gen := AsidSlot.data_trans_gen slot |>
    else
      let s := bump_gen s in
      let s := s <| trans_gen := asid_gen_next s |> in
      s <| data_trans_gen := asid_gen_next s |>.

Definition advance_chain_gen (s : t) : t :=
  let s := bump_gen s in s <| trans_gen := asid_gen_next s |>.

Definition dcache_flush (s : t) : t :=
  let s := invalidate_all_spaces s in
  let s := s <| icache_gen := as_u32 (icache_gen s + 1) |> in
  let s := s <| dcache := ∅ |> in
  s <| fetch_vpn := U64_MAX |>.

(** ** Diagnostics *)

Definition is_phys_kernel (pc : Z) : bool := (0x80000000 <=? pc) && (pc <? 0x82000000).

Section Recorders.
Context `{Target} `{Profile}.

Definition record_trace (pc raw : Z) (s : t) : t :=
  upd_diag (λ d,
    let i := Diag.pc_trace_idx d mod 1024 in
    let d := d <| Diag.pc_trace := <[Z.to_nat i := (pc, raw)]> (Diag.pc_trace d) |> in
    d <| Diag.pc_trace_idx := as_usize (Diag.pc_trace_idx d + 1) |>) s.

Definition push_phys_transition (e : Z * Z * Z) (d : Diag.t) : Diag.t :=
  let i := Diag.phys_trans_idx d mod 64 in
  let d := d <| Diag.phys_transitions := <[Z.to_nat i := e]> (Diag.phys_transitions d) |> in
  d <| Diag.phys_trans_idx := as_usize (Diag.phys_trans_idx d + 1) |>.

Definition record_phys_transition (src_pc phys_pc : Z) (s : t) : t :=
  upd_diag (push_phys_transition (src_pc, 0, phys_pc)) s.

(** [n] consecutive entries of the pc ring from [base], wrapping at 1024. *)
Definition ring_slice (d : Diag.t) (base : Z) (n : nat) : list (Z * Z) :=
  (λ k, Diag.pc_trace d !!! Z.to_nat ((base + Z.of_nat k) mod 1024)) <$> seq 0 n.

Definition pcoff_admits (pc : Z) (d : Diag.t) : bool * Diag.t :=
  if (pc <? Diag.watch_pc_lo d) || (pc >? Diag.watch_pc_hi d) then (false, d)
  else
    let off := Z.land pc 0xFFF in
    if negb (existsb (Z.eqb off) (Diag.watch_pcoff d)) then (false, d)
    else if Diag.watch_page d =? 0 then
      if negb (off =? Diag.watch_pcoff d !!! 0%nat) then (false, d)
      else (true, d <| Diag.watch_page := Z.land pc (unot 64 0xFFF) |>)
    else (Z.land pc (unot 64 0xFFF) =? Diag.watch_page d, d).

Definition record_load (vaddr val : Z) (s : t) : t :=
  upd_diag (λ d,
    let pc := Cpu.pc (cpu s) in
    if Diag.watch_pcoff d !!! 0%nat =? U64_MAX then d
    else
      let '(admitted, d) := pcoff_admits pc d in
      if negb admitted then d
      else if Z.of_nat (length (Diag.watch_loads d)) <? 65536 then
        d <| Diag.watch_loads := Diag.watch_loads d ++ [(pc, vaddr, val)] |>
      else d) s.

(** The value and pc filter of [record_store]. *)
Definition watch_matches (pc val : Z) (pcoff_on : bool) (d : Diag.t) : bool :=
  (negb (Diag.watch_mask d =? 0) || pcoff_on)
  && ((Diag.watch_mask d =? 0) || (Z.land val (Diag.watch_mask d) =? Diag.watch_expect d))
  && (negb (Diag.watch_outside_nonzero d)
      || negb (Z.land val (unot 64 (Diag.watch_mask d)) =? 0))
  && (pc >=? Diag.watch_pc_lo d) && (pc <=? Diag.watch_pc_hi d)
  && (Z.of_nat (length (Diag.watch_hits d)) <? 65536).

Definition record_store (vaddr val : Z) (s : t) : t :=
  upd_diag (λ d,
    let pc := Cpu.pc (cpu s) in
    let pcoff_on := negb (Diag.watch_pcoff d !!! 0%nat =? U64_MAX) in
    let '(admitted, d) := if pcoff_on then pcoff_admits pc d else (true, d) in
    if negb admitted then d
    else
      let d := if watch_matches pc val pcoff_on d
               then d <| Diag.watch_hits := Diag.watch_hits d ++ [(pc, vaddr, val)] |>
               else d in
      let n := Z.of_nat (length (Diag.store_ring d)) in
      if n =? 0 then d
      else
        let i := Diag.store_head d mod n in
        let d := d <| Diag.store_ring := <[Z.to_nat i := (pc, vaddr, val)]>
                                           (Diag.store_ring d) |> in
        d <| Diag.store_head := as_usize (Diag.store_head d + 1) |>) s.

Definition enable_store_trace (capacity : nat) (s : t) : t :=
  upd_diag (λ d,
    let d := d <| Diag.store_ring := replicate capacity (0, 0, 0) |> in
    d <| Diag.store_head := 0 |>) s.

(** [(self.store_head + k) % n] is a plain [+] on [usize]. *)
Fixpoint stores_from (vaddr : Z) (d : Diag.t) (ks : list nat) : option (list (Z * Z)) :=
  match ks with
  | [] => Some []
  | k :: ks =>
      i ← add_u usize_bits (Diag.store_head d) (Z.of_nat k);
      let '(pc, a, v) :=
        Diag.store_ring d !!! Z.to_nat (i mod Z.of_nat (length (Diag.store_ring d))) in
      rest ← stores_from vaddr d ks;
      Some (if (a =? vaddr) && negb (pc =? 0) then (pc, v) :: rest else rest)
  end.

Definition stores_to (s : t) (vaddr : Z) : option (list (Z * Z)) :=
  let n := length (Diag.store_ring (diag s)) in
  if (n =? 0)%nat then Some [] else stores_from vaddr (diag s) (seq 0 n).
End Recorders.

(** [ConsoleToBuf]: the debug console writes into the supervisor's own buffer. *)
#[global] Instance ConsoleToBuf : HostConsole t := λ buf,
  modify (λ s,
    let s := s <| console_buf := console_buf s ++ buf |> in
    s <| console_len := Z.of_nat (length (console_buf s)) |>).
End Sup.
