(* ===== verification/SupTrap.v ===== *)
(** Interrupts, traps and trap returns of the supervisor layer
    ([riscv-supervisor/src/supervisor.rs]: [sync_device_interrupts],
    [check_interrupts], [take_trap_with_vaddr], [do_mret], [do_sret]). *)

From S2P Require Import Prelude Types SupTypes State Cpu Mmu Sbi SupState.

(** [x &= !(1 << k)] and [x |= 1 << k] on [u64]. *)
Definition clear_bit (x k : Z) : Z := Z.land x (unot 64 (Z.shiftl 1 k)).
Definition or_bit (x k : Z) : Z := Z.lor x (Z.shiftl 1 k).
(** [x & (1 << k) != 0] *)
Definition has (x k : Z) : bool := negb (Z.land x (Z.shiftl 1 k) =? 0).
(** [x & !1] *)
Definition even (x : Z) : Z := Z.land x (unot 64 1).

(** * Interrupts *)

Definition m_enabled (s : Sup.t) : bool :=
  negb (bool_decide (Sup.priv_level s = PMachine)) || MStatus.mie (Sup.mstatus s).
Definition s_enabled (s : Sup.t) : bool :=
  bool_decide (Sup.priv_level s = PUser)
  || (bool_decide (Sup.priv_level s = PSupervisor) && MStatus.sie (Sup.mstatus s)).

Definition check_interrupts (s : Sup.t) : option Trap :=
  let pending := Z.land (Sup.mip s) (Sup.mie s) in
  if pending =? 0 then None
  else
    let delegated := Z.land pending (Sup.mideleg s) in
    let m_pending := Z.land pending (unot 64 (Sup.mideleg s)) in
    let to_s :=
      if s_enabled s && negb (delegated =? 0)
         && negb (bool_decide (Sup.priv_level s = PMachine)) then
        if has delegated 7 then Some (TInterrupt SupervisorTimer)
        else if has delegated 5 then Some (TInterrupt SupervisorTimer)
        else if has delegated 1 then Some (TInterrupt SupervisorSoftware)
        else if has delegated 9 then Some (TInterrupt SupervisorExternal)
        else None
      else None in
    match to_s with
    | Some t => Some t
    | None =>
        if m_enabled s then
          if has m_pending 11 then Some (TInterrupt MachineExternal)
          else if has m_pending 3 then Some (TInterrupt MachineSoftware)
          else if has m_pending 7 then Some (TInterrupt MachineTimer)
          else if has m_pending 9 then Some (TInterrupt SupervisorExternal)
          else if has m_pending 1 then Some (TInterrupt SupervisorSoftware)
          else if has m_pending 5 then Some (TInterrupt SupervisorTimer)
          else None
        else None
    end.

Section Interrupts.
Context {B : Type} `{Bus B}.
Abbreviation SM := (M (Sup.t * B)).

Definition on_self {A} (m : M Sup.t A) : SM A := on_fst m.
Definition on_dev {A} (m : M B A) : SM A := on_snd m.
Definition self_upd (f : Sup.t → Sup.t) : SM unit := on_self (modify f).

Definition set_mip_bit (k : Z) (on : bool) (s : Sup.t) : Sup.t :=
  s <| Sup.mip := if on then or_bit (Sup.mip s) k else clear_bit (Sup.mip s) k |>.

Definition sync_device_interrupts : SM unit :=
  clint ← on_dev check_timer_interrupt;
  timer_fired ←
    (if (clint : bool) then mret true
     else
       now ← on_dev read_mtime;
       stimecmp ← on_self (get Sup.stimecmp);
       mret (now >=? stimecmp));
  self_upd (set_mip_bit 5 timer_fired);;
  ext ← on_dev check_external_interrupt;
  self_upd (set_mip_bit 9 ext).

Definition interrupt_pending : SM bool :=
  sync_device_interrupts;;
  on_self (get (λ s, match check_interrupts s with Some _ => true | None => false end)).
End Interrupts.

(** * Trap entry *)

Definition trap_cause (t : Trap) : Z :=
  match t with
  | TException e => exception_code e
  | TInterrupt i => Z.lor 0x8000000000000000 (interrupt_code i)
  end.

Definition trap_delegated (s : Sup.t) (t : Trap) : bool :=
  match t with
  | TException e =>
      let d := Sup.medeleg s in
      match e with
      | InstructionAddressMisaligned => bit d 0
      | InstructionAccessFault => bit d 1
      | IllegalInstruction => bit d 2
      | Breakpoint => bit d 3
      | LoadAddressMisaligned => bit d 4
      | LoadAccessFault => bit d 5
      | StoreAddressMisaligned => bit d 6
      | StoreAccessFault => bit d 7
      | EnvironmentCallFromU => bit d 8
      | EnvironmentCallFromS => bit d 9
      | InstructionPageFault => bit d 12
      | LoadPageFault => bit d 13
      | StorePageFault => bit d 15
      | _ => false
      end
  | TInterrupt i =>
      let b := match i with
               | SupervisorSoftware => 1
               | SupervisorTimer => 5
               | SupervisorExternal => 9
               | _ => 64
               end in
      if b <? 64 then
        let base_deleg := bit (Sup.mideleg s) b in
        let timer_deleg := bool_decide (i = SupervisorTimer) && bit (Sup.mideleg s) 7 in
        base_deleg || timer_deleg
      else false
  end.

Definition is_page_fault (t : Trap) : bool :=
  match t with
  | TException (InstructionPageFault | LoadPageFault | StorePageFault) => true
  | _ => false
  end.

Definition is_interrupt (t : Trap) : bool :=
  match t with TInterrupt _ => true | _ => false end.

(** [if is_page_fault { fault_vaddr.unwrap_or(0) } else { 0 }] *)
Definition trap_tval (t : Trap) (fault_vaddr : option Z) : Z :=
  if is_page_fault t then default 0 fault_vaddr else 0.

Definition clear_pending (t : Trap) (s : Sup.t) : Sup.t :=
  match t with
  | TInterrupt SupervisorSoftware => s <| Sup.mip := clear_bit (Sup.mip s) 1 |>
  | TInterrupt SupervisorTimer =>
      let s := s <| Sup.mip := clear_bit (Sup.mip s) 5 |> in
      s <| Sup.mip := clear_bit (Sup.mip s) 7 |>
  | TInterrupt SupervisorExternal => s <| Sup.mip := clear_bit (Sup.mip s) 9 |>
  | _ => s
  end.

Definition set_pc (v : Z) (s : Sup.t) : Sup.t :=
  s <| Sup.cpu := (Sup.cpu s) <| Cpu.pc := v |> |>.

Definition record_last_trap (cause : Z) (s : Sup.t) : Sup.t :=
  Sup.upd_diag (λ d,
    let d := d <| Diag.last_trap_cause := cause |> in
    d <| Diag.last_trap_epc := Cpu.pc (Sup.cpu s) |>) s.

(** The [Trap to S-mode] branch. *)
Definition trap_to_s (t : Trap) (fault_vaddr : option Z) (s : Sup.t) : Sup.t :=
  let cause := trap_cause t in
  let pc := Cpu.pc (Sup.cpu s) in
  let ms := Sup.mstatus s in
  let s := s <| Sup.sepc := pc |> in
  let s := s <| Sup.scause := cause |> in
  let s := s <| Sup.stval := trap_tval t fault_vaddr |> in
  let ms := ms <| MStatus.spp := bool_decide (Sup.priv_level s = PSupervisor) |> in
  let ms := ms <| MStatus.spie := MStatus.sie ms |> in
  let ms := ms <| MStatus.sie := false |> in
  let s := s <| Sup.mstatus := ms |> in
  let s := s <| Sup.priv_level := PSupervisor |> in
  let s := record_last_trap cause s in
  let s := set_pc (even (Sup.stvec s)) s in
  clear_pending t s.

(** The [Trap to M-mode] branch, which mirrors the cause into the S-mode CSRs. *)
Definition trap_to_m (t : Trap) (fault_vaddr : option Z) (s : Sup.t) : Sup.t :=
  let cause := trap_cause t in
  let pc := Cpu.pc (Sup.cpu s) in
  let ms := Sup.mstatus s in
  let s := s <| Sup.mepc := pc |> in
  let s := s <| Sup.mcause := cause |> in
  let s := s <| Sup.sepc := pc |> in
  let s := s <| Sup.scause := cause |> in
  let s := s <| Sup.mtval := trap_tval t fault_vaddr |> in
  let ms := ms <| MStatus.mpp := priv_code (Sup.priv_level s) |> in
  let ms := ms <| MStatus.mpie := MStatus.mie ms |> in
  let ms := ms <| MStatus.mie := false |> in
  let s := s <| Sup.mstatus := ms |> in
  let s := s <| Sup.priv_level := PMachine |> in
  let s := record_last_trap cause s in
  set_pc (even (Sup.mtvec s)) s.

(** Vectored mode applies to interrupts only; [4 * code] cannot overflow. *)
Definition vector_pc (cause : Z) (s : Sup.t) : Sup.t :=
  if negb (Z.shiftr cause 63 =? 0) then
    let vec := if bool_decide (Sup.priv_level s = PMachine) then Sup.mtvec s else Sup.stvec s in
    if negb (Z.land vec 1 =? 0) then
      let code := Z.land cause 0x7FFFFFFFFFFFFFFF in
      set_pc (as_u64 (even vec + 4 * code)) s
    else s
  else s.

Definition to_s_mode (s : Sup.t) (t : Trap) : bool :=
  trap_delegated s t
  && (bool_decide (Sup.priv_level s = PSupervisor) || bool_decide (Sup.priv_level s = PUser)).

Section TakeTrap.
Context `{Profile} `{Target}.

(** The register snapshot of the interrupt-return check. *)
Definition snapshot_irq_regs (t : Trap) : M Sup.t unit :=
  d ← get Sup.diag;
  if Diag.check_irq_regs d && is_interrupt t then
    n ← lift (add_u 64 (Diag.irq_snaps d) 1);
    modify (λ s, Sup.upd_diag (λ d, d <| Diag.irq_snaps := n |>) s);;
    modify (λ s, Sup.upd_diag (λ d, d <| Diag.irq_snapshot :=
      Some (Cpu.pc (Sup.cpu s), Satp.ppn (Sup.satp s), Cpu.x (Sup.cpu s) !!! 2%nat,
            Cpu.x (Sup.cpu s)) |>) s)
  else mret tt.

Definition take_trap_with_vaddr (t : Trap) (fault_vaddr : option Z) : M Sup.t Status :=
  modify (λ s, s <| Sup.trap_delivered := true |>);;
  to_s ← get (λ s, to_s_mode s t);
  (if (to_s : bool) then
     snapshot_irq_regs t;;
     modify (trap_to_s t fault_vaddr)
   else modify (trap_to_m t fault_vaddr));;
  modify (vector_pc (trap_cause t));;
  modify (λ s, s <| Sup.wfi := false |>);;
  mret (StTrap t).

Definition take_trap (t : Trap) : M Sup.t Status := take_trap_with_vaddr t None.

(** * Trap returns *)

(** [if is_phys_kernel(target) && satp.mode == 8 { record } ; pc = target] *)
Definition return_to (target : Z) (s : Sup.t) : Sup.t :=
  let s := if Sup.is_phys_kernel target && (Satp.mode (Sup.satp s) =? 8)
           then Sup.record_phys_transition (Cpu.pc (Sup.cpu s)) target s else s in
  set_pc target s.

Definition priv_of_mpp (mpp : Z) : Privilege :=
  if mpp =? 0 then PUser
  else if mpp =? 1 then PSupervisor
  else if mpp =? 3 then PMachine
  else PUser.

Definition do_mret : M Sup.t Status :=
  modify (λ s,
    let mpie := MStatus.mpie (Sup.mstatus s) in
    let mpp := MStatus.mpp (Sup.mstatus s) in
    let ms := (Sup.mstatus s) <| MStatus.mie := mpie |> in
    let ms := ms <| MStatus.mpie := true |> in
    let ms := ms <| MStatus.mpp := 0 |> in
    let s := s <| Sup.mstatus := ms |> in
    let s := s <| Sup.priv_level := priv_of_mpp mpp |> in
    return_to (even (Sup.mepc s)) s);;
  mret Running.

(** The first register of [1..32] that differs from the snapshot. *)
Definition first_mismatch (x regs : list Z) : option nat :=
  List.find (λ i, negb (x !!! i =? regs !!! i)) (seq 1 31).

Definition check_irq_return : M Sup.t unit :=
  s ← get id;
  let d := Sup.diag s in
  match Diag.check_irq_regs d, Diag.irq_mismatch d, Diag.irq_snapshot d with
  | true, None, Some (sepc, satp_ppn, sp, regs) =>
      (if (even (Sup.sepc s) =? sepc) && (Satp.ppn (Sup.satp s) =? satp_ppn)
          && (Cpu.x (Sup.cpu s) !!! 2%nat =? sp) then
         n ← lift (add_u 64 (Diag.irq_compares d) 1);
         modify (Sup.upd_diag (λ d, d <| Diag.irq_compares := n |>));;
         match first_mismatch (Cpu.x (Sup.cpu s)) regs with
         | Some i =>
             modify (Sup.upd_diag (λ d, d <| Diag.irq_mismatch :=
               Some (sepc, Z.of_nat i, regs !!! i, Cpu.x (Sup.cpu s) !!! i) |>))
         | None => mret tt
         end
       else mret tt);;
      modify (Sup.upd_diag (λ d, d <| Diag.irq_snapshot := None |>))
  | _, _, _ => mret tt
  end.

Definition do_sret : M Sup.t Status :=
  check_irq_return;;
  modify (λ s,
    let spie := MStatus.spie (Sup.mstatus s) in
    let spp := MStatus.spp (Sup.mstatus s) in
    let ms := (Sup.mstatus s) <| MStatus.sie := spie |> in
    let ms := ms <| MStatus.spie := true |> in
    let ms := ms <| MStatus.spp := false |> in
    let s := s <| Sup.mstatus := ms |> in
    let s := s <| Sup.priv_level := if spp then PSupervisor else PUser |> in
    return_to (even (Sup.sepc s)) s);;
  mret Running.
End TakeTrap.
