(* ===== verification/Traps.v ===== *)
(** Trap entry, trap return and interrupt selection: what [take_trap_with_vaddr],
    [do_mret], [do_sret] and [check_interrupts] guarantee, against the rules of
    the privileged architecture. *)

From S2P Require Import Prelude Keeps Types SupTypes State Cpu Mmu Sbi SupState SupTrap.

(** * Trap entry as a state transformer *)

(** What only the diagnostics see. *)
Definition same_but_diag (s s' : Sup.t) : Prop := s' = s <| Sup.diag := Sup.diag s' |>.

(** The pc a trap to a vector [tvec] starts at.  Bit 1 of [tvec], which only the
    reserved modes set, stays in the base. *)
Definition trap_target (t : Trap) (tvec : Z) : Z :=
  match t with
  | TInterrupt i => if Z.testbit tvec 0 then as_u64 (even tvec + 4 * interrupt_code i) else even tvec
  | TException _ => even tvec
  end.

Definition jump_to (v : Z) (c : Cpu.t) : Cpu.t := c <| Cpu.pc := v |>.

(** Trap entry as the architecture has it: context saved, interrupt-enable stack
    pushed, mode changed, pc at the vector.  [tval] is written for page faults
    and zero otherwise. *)
Definition arch_s_entry (t : Trap) (fv : option Z) (s : Sup.t) : Sup.t :=
  let ms := Sup.mstatus s in
  s <| Sup.sepc := Cpu.pc (Sup.cpu s) |>
    <| Sup.scause := trap_cause t |>
    <| Sup.stval := trap_tval t fv |>
    <| Sup.mstatus := ms <| MStatus.spp := bool_decide (Sup.priv_level s = PSupervisor) |>
                         <| MStatus.spie := MStatus.sie ms |> <| MStatus.sie := false |> |>
    <| Sup.priv_level := PSupervisor |>
    <| Sup.cpu := jump_to (trap_target t (Sup.stvec s)) (Sup.cpu s) |>.

Definition arch_m_entry (t : Trap) (fv : option Z) (s : Sup.t) : Sup.t :=
  let ms := Sup.mstatus s in
  s <| Sup.mepc := Cpu.pc (Sup.cpu s) |>
    <| Sup.mcause := trap_cause t |>
    <| Sup.mtval := trap_tval t fv |>
    <| Sup.mstatus := ms <| MStatus.mpp := priv_code (Sup.priv_level s) |>
                         <| MStatus.mpie := MStatus.mie ms |> <| MStatus.mie := false |> |>
    <| Sup.priv_level := PMachine |>
    <| Sup.cpu := jump_to (trap_target t (Sup.mtvec s)) (Sup.cpu s) |>.

(** What the emulator changes besides.  Its own flags: the trap is delivered and
    the hart is not parked.  On entry to S-mode: the pending bit of a supervisor
    interrupt is cleared, and MTIP with STIP.  On entry to M-mode: sepc and
    scause are overwritten with mepc and mcause. *)
Definition woken (s : Sup.t) : Sup.t := s <| Sup.trap_delivered := true |> <| Sup.wfi := false |>.
Definition s_entry (t : Trap) (fv : option Z) (s : Sup.t) : Sup.t :=
  clear_pending t (woken (arch_s_entry t fv s)).
Definition m_entry (t : Trap) (fv : option Z) (s : Sup.t) : Sup.t :=
  woken (arch_m_entry t fv s)
    <| Sup.sepc := Cpu.pc (Sup.cpu s) |> <| Sup.scause := trap_cause t |>.

Lemma cause_top t : negb (Z.shiftr (trap_cause t) 63 =? 0) = is_interrupt t.
Proof. by destruct t as [[]|[]]. Qed.

Lemma vec_mode v : negb (Z.land v 1 =? 0) = Z.testbit v 0.
Proof. rewrite <- (land_pow2_eqb v 0) by lia. done. Qed.

Lemma cause_code i : Z.land (trap_cause (TInterrupt i)) 0x7FFFFFFFFFFFFFFF = interrupt_code i.
Proof. by destruct i. Qed.

(** The vectoring step, given a pc already at the base. *)
Lemma vector_pc_eq t s :
  let tvec := if bool_decide (Sup.priv_level s = PMachine) then Sup.mtvec s else Sup.stvec s in
  Cpu.pc (Sup.cpu s) = even tvec →
  vector_pc (trap_cause t) s = s <| Sup.cpu := jump_to (trap_target t tvec) (Sup.cpu s) |>.
Proof.
  cbv zeta. intros Hpc. unfold vector_pc. rewrite cause_top. unfold trap_target.
  assert (Hsame : s = s <| Sup.cpu := jump_to (Cpu.pc (Sup.cpu s)) (Sup.cpu s) |>).
  { destruct s as [[]]. done. }
  destruct t as [e|i]; cbn [is_interrupt]; [by rewrite <- Hpc|].
  cbv zeta. rewrite vec_mode, cause_code. destruct (Z.testbit _ 0); [done|by rewrite <- Hpc].
Qed.

(** Compare two chains of updates field by field. *)
Ltac by_fields := apply Sup.sup_ext; cbn; reflexivity.

Lemma s_entry_eq t fv d s :
  let s1 := trap_to_s t fv (s <| Sup.trap_delivered := true |> <| Sup.diag := d |>) in
  same_but_diag (s_entry t fv s)
    (s1 <| Sup.cpu := jump_to (trap_target t (Sup.stvec s)) (Sup.cpu s1) |> <| Sup.wfi := false |>).
Proof. destruct t as [|[]]; by_fields. Qed.

(** [s_entry] but for [mip]. *)
Lemma s_entry_shape t fv s :
  ∃ m, s_entry t fv s = woken (arch_s_entry t fv s) <| Sup.mip := m |>.
Proof.
  exists (Sup.mip (s_entry t fv s)). destruct t as [|[]]; apply Sup.sup_ext; cbn; reflexivity.
Qed.

Lemma m_entry_eq t fv s :
  let s1 := trap_to_m t fv (s <| Sup.trap_delivered := true |>) in
  same_but_diag (m_entry t fv s)
    (s1 <| Sup.cpu := jump_to (trap_target t (Sup.mtvec s)) (Sup.cpu s1) |> <| Sup.wfi := false |>).
Proof. by_fields. Qed.

Lemma trap_to_s_mode t fv s :
  let s1 := trap_to_s t fv s in
  Sup.priv_level s1 = PSupervisor ∧ Sup.stvec s1 = Sup.stvec s
  ∧ Cpu.pc (Sup.cpu s1) = even (Sup.stvec s).
Proof. by destruct t as [|[]]. Qed.

Lemma trap_to_m_mode t fv s :
  let s1 := trap_to_m t fv s in
  Sup.priv_level s1 = PMachine ∧ Sup.mtvec s1 = Sup.mtvec s
  ∧ Cpu.pc (Sup.cpu s1) = even (Sup.mtvec s).
Proof. done. Qed.

Section Entry.
Context {PR : Profile} {TG : Target} (P : Prop) (HP : overflow_checks = true → P).

Lemma snapshot_diag t s :
  wp P (snapshot_irq_regs t) (λ _ s', ∃ d, s' = s <| Sup.diag := d |>) s.
Proof.
  unfold snapshot_irq_regs. apply wp_bind, wp_get. destruct (_ && _).
  - apply wp_bind, wp_lift. unfold add_u, checked_u.
    destruct (_ && _); [|destruct overflow_checks eqn:Ho; [by apply HP|]];
      apply wp_bind, wp_modify, wp_modify; eexists; reflexivity.
  - apply wp_ret. exists (Sup.diag s). by destruct s.
Qed.

Lemma trap_entry_run t fv s :
  wp P (take_trap_with_vaddr t fv)
    (λ st s', st = StTrap t ∧
      same_but_diag (if to_s_mode s t then s_entry t fv s else m_entry t fv s) s') s.
Proof.
  unfold take_trap_with_vaddr. apply wp_bind, wp_modify, wp_bind, wp_get.
  change (to_s_mode (s <| Sup.trap_delivered := true |>) t) with (to_s_mode s t).
  destruct (to_s_mode s t).
  - apply wp_bind, wp_bind. eapply wp_mono; [apply snapshot_diag|]. intros [] s1 [d ->].
    apply wp_modify, wp_bind, wp_modify, wp_bind, wp_modify, wp_ret. split; [done|].
    pose proof (s_entry_eq t fv d s) as He. cbv zeta in He.
    set (s1 := trap_to_s t fv _) in *.
    destruct (trap_to_s_mode t fv (s <| Sup.trap_delivered := true |> <| Sup.diag := d |>))
      as (Hp & Hv & Hpc). fold s1 in Hp, Hv, Hpc.
    rewrite vector_pc_eq; rewrite Hp; cbn [bool_decide decide_rel]; [|by rewrite Hv, Hpc].
    by rewrite Hv.
  - apply wp_bind, wp_modify, wp_bind, wp_modify, wp_bind, wp_modify, wp_ret. split; [done|].
    pose proof (m_entry_eq t fv s) as He. cbv zeta in He. set (s1 := trap_to_m t fv _) in *.
    destruct (trap_to_m_mode t fv (s <| Sup.trap_delivered := true |>)) as (Hp & Hv & Hpc).
    fold s1 in Hp, Hv, Hpc.
    rewrite vector_pc_eq; rewrite Hp; cbn [bool_decide decide_rel]; [|by rewrite Hv, Hpc].
    by rewrite Hv.
Qed.
End Entry.

(** * Delegation *)

(** The architecture's rule: a trap is delegated when the bit of its cause is set
    in [medeleg] or [mideleg].  Environment calls from M-mode and the machine
    interrupts are not delegable. *)
Definition delegation_rule (s : Sup.t) (t : Trap) : bool :=
  match t with
  | TException EnvironmentCallFromM => false
  | TException e => Z.testbit (Sup.medeleg s) (exception_code e)
  | TInterrupt (MachineSoftware | MachineTimer | MachineExternal) => false
  | TInterrupt i => Z.testbit (Sup.mideleg s) (interrupt_code i)
  end.

(** What the emulator adds to the rule: a supervisor timer interrupt also counts
    as delegated when the machine timer bit is set. *)
Definition timer_exception (s : Sup.t) (t : Trap) : bool :=
  match t with
  | TInterrupt SupervisorTimer => Z.testbit (Sup.mideleg s) 7
  | _ => false
  end.

Lemma trap_delegated_rule s t :
  trap_delegated s t = delegation_rule s t || timer_exception s t.
Proof.
  destruct t as [[]|[]]; cbn; rewrite ?bit_testbit by lia; by rewrite ?orb_false_r.
Qed.

Lemma to_s_mode_rule s t :
  to_s_mode s t = (delegation_rule s t || timer_exception s t)
                  && negb (bool_decide (Sup.priv_level s = PMachine)).
Proof.
  unfold to_s_mode. rewrite trap_delegated_rule. f_equal. by destruct (Sup.priv_level s).
Qed.

(** * Returning *)

Lemma even_id v : urange 64 v → Z.testbit v 0 = false → even v = v.
Proof.
  intros Hv H0. unfold even, unot. apply Z.bits_inj'. intros i Hi.
  rewrite Z.land_spec, testbit_wrap, Z.lnot_spec by lia.
  destruct (Z.eq_dec i 0) as [->|Hne]; [by rewrite H0|].
  destruct (Z.ltb_spec i 64).
  - change 1 with (2 ^ 0). rewrite Z.pow2_bits_false by lia. cbn. by rewrite andb_true_r.
  - by rewrite (urange_testbit 64 v i Hv) by lia.
Qed.

Lemma priv_of_mpp_code p : priv_of_mpp (priv_code p) = p.
Proof. by destruct p. Qed.

(** The interrupted context is back: registers, pc, privilege, address space
    and translations, timer compare and counters. *)
Definition resumed (s s' : Sup.t) : Prop :=
  Sup.cpu s' = Sup.cpu s ∧ Sup.priv_level s' = Sup.priv_level s
  ∧ Sup.satp s' = Sup.satp s ∧ Sup.mmu s' = Sup.mmu s ∧ Sup.mie s' = Sup.mie s
  ∧ Sup.reservation_addr s' = Sup.reservation_addr s
  ∧ MStatus.mie (Sup.mstatus s') = MStatus.mie (Sup.mstatus s)
  ∧ MStatus.sie (Sup.mstatus s') = MStatus.sie (Sup.mstatus s)
  ∧ MStatus.fs (Sup.mstatus s') = MStatus.fs (Sup.mstatus s)
  ∧ MStatus.mprv (Sup.mstatus s') = MStatus.mprv (Sup.mstatus s).

Lemma jump_to_id c v w : v = Cpu.pc c → jump_to v (jump_to w c) = c.
Proof. intros ->. by destruct c. Qed.

Section Return.
Context {PR : Profile} {TG : Target} (P : Prop) (HP : overflow_checks = true → P).

Lemma check_irq_return_diag s :
  wp P check_irq_return (λ _ s', ∃ d, s' = s <| Sup.diag := d |>) s.
Proof.
  unfold check_irq_return. apply wp_bind, wp_get. cbv zeta.
  assert (Hsame : ∃ d, s = s <| Sup.diag := d |>) by (exists (Sup.diag s); by destruct s).
  destruct (Diag.check_irq_regs _); [|by apply wp_ret].
  destruct (Diag.irq_mismatch _); [by apply wp_ret|].
  destruct (Diag.irq_snapshot _) as [[[[sepc ppn] sp] regs]|]; [|by apply wp_ret].
  apply wp_bind. eapply (wp_mono _ _ (λ _ s', ∃ d, s' = s <| Sup.diag := d |>)).
  - destruct (_ && _); [|by apply wp_ret]. apply wp_bind, wp_lift. unfold add_u, checked_u.
    destruct (_ && _); [|destruct overflow_checks eqn:Ho; [by apply HP|]];
      apply wp_bind, wp_modify; destruct (first_mismatch _ _);
      first [apply wp_modify | apply wp_ret]; eexists; reflexivity.
  - intros [] s' [d ->]. apply wp_modify. by eexists.
Qed.

(** [return_to] moves the pc and touches nothing but diagnostics besides. *)
Lemma return_to_eq v s :
  same_but_diag (s <| Sup.cpu := jump_to v (Sup.cpu s) |>) (return_to v s).
Proof. unfold return_to. destruct (_ && _); by_fields. Qed.

Lemma same_but_diag_fields (s s' : Sup.t) :
  same_but_diag s s' →
  Sup.cpu s' = Sup.cpu s ∧ Sup.priv_level s' = Sup.priv_level s ∧ Sup.mstatus s' = Sup.mstatus s
  ∧ Sup.satp s' = Sup.satp s ∧ Sup.mmu s' = Sup.mmu s ∧ Sup.mie s' = Sup.mie s
  ∧ Sup.reservation_addr s' = Sup.reservation_addr s ∧ Sup.sepc s' = Sup.sepc s
  ∧ Sup.mepc s' = Sup.mepc s ∧ Sup.diag s' = Sup.diag s'.
Proof. intros ->. cbn. split_and!; reflexivity. Qed.

Lemma sret_run s :
  wp P do_sret (λ st s', st = Running ∧ Sup.cpu s' = jump_to (even (Sup.sepc s)) (Sup.cpu s)
    ∧ Sup.priv_level s' = (if MStatus.spp (Sup.mstatus s) then PSupervisor else PUser)
    ∧ Sup.mstatus s' = (Sup.mstatus s) <| MStatus.sie := MStatus.spie (Sup.mstatus s) |>
                         <| MStatus.spie := true |> <| MStatus.spp := false |>
    ∧ Sup.satp s' = Sup.satp s ∧ Sup.mmu s' = Sup.mmu s ∧ Sup.mie s' = Sup.mie s
    ∧ Sup.reservation_addr s' = Sup.reservation_addr s) s.
Proof.
  unfold do_sret. apply wp_bind. eapply wp_mono; [apply check_irq_return_diag|].
  intros [] s1 [d ->]. apply wp_bind, wp_modify, wp_ret. cbv zeta. split; [done|].
  match goal with |- context [return_to ?v ?x] =>
    destruct (same_but_diag_fields _ _ (return_to_eq v x)) as (E1 & E2 & E3 & E4 & E5 & E6 & E7 & _)
  end.
  rewrite E1, E2, E3, E4, E5, E6, E7. cbn. split_and!; reflexivity.
Qed.

Lemma mret_run s :
  wp P do_mret (λ st s', st = Running ∧ Sup.cpu s' = jump_to (even (Sup.mepc s)) (Sup.cpu s)
    ∧ Sup.priv_level s' = priv_of_mpp (MStatus.mpp (Sup.mstatus s))
    ∧ Sup.mstatus s' = (Sup.mstatus s) <| MStatus.mie := MStatus.mpie (Sup.mstatus s) |>
                         <| MStatus.mpie := true |> <| MStatus.mpp := 0 |>
    ∧ Sup.satp s' = Sup.satp s ∧ Sup.mmu s' = Sup.mmu s ∧ Sup.mie s' = Sup.mie s
    ∧ Sup.reservation_addr s' = Sup.reservation_addr s) s.
Proof.
  unfold do_mret. apply wp_bind, wp_modify, wp_ret. cbv zeta. split; [done|].
  match goal with |- context [return_to ?v ?x] =>
    destruct (same_but_diag_fields _ _ (return_to_eq v x)) as (E1 & E2 & E3 & E4 & E5 & E6 & E7 & _)
  end.
  rewrite E1, E2, E3, E4, E5, E6, E7. cbn. split_and!; reflexivity.
Qed.

(** A trap and the return of its mode. *)
Lemma trap_then_return t fv s :
  urange 64 (Cpu.pc (Sup.cpu s)) → Z.testbit (Cpu.pc (Sup.cpu s)) 0 = false →
  wp P (take_trap_with_vaddr t fv;; (if to_s_mode s t then do_sret else do_mret))
    (λ st s', st = Running ∧ resumed s s') s.
Proof.
  intros Hpc H0. pose proof (even_id _ Hpc H0) as He. apply wp_bind.
  eapply wp_mono; [by apply trap_entry_run|]. intros st s1 [_ Hs].
  destruct (same_but_diag_fields _ _ Hs) as (E1 & E2 & E3 & E4 & E5 & E6 & E7 & E8 & E9 & _).
  clear Hs. destruct (to_s_mode s t) eqn:Ht.
  - destruct (s_entry_shape t fv s) as [m Hm]. rewrite Hm in E1, E2, E3, E4, E5, E6, E7, E8, E9.
    eapply wp_mono; [apply sret_run|].
    intros st' s' (-> & C1 & C2 & C3 & C4 & C5 & C6 & C7). split; [done|]. unfold resumed.
    rewrite C1, C2, C3, C4, C5, C6, C7, E1, E3, E4, E5, E6, E7, E8. cbn. rewrite He.
    split_and!; try reflexivity; [by apply jump_to_id|].
    unfold to_s_mode in Ht. apply andb_prop in Ht as [_ Ht]. by destruct (Sup.priv_level s).
  - eapply wp_mono; [apply mret_run|].
    intros st' s' (-> & C1 & C2 & C3 & C4 & C5 & C6 & C7). split; [done|]. unfold resumed.
    rewrite C1, C2, C3, C4, C5, C6, C7, E1, E3, E4, E5, E6, E7, E9. cbn. rewrite He.
    split_and!; try reflexivity; [by apply jump_to_id|apply priv_of_mpp_code].
Qed.
End Return.

(** * Interrupt selection *)

(** Bit [k] is pending and locally enabled. *)
Definition raised (s : Sup.t) (k : Z) : bool :=
  Z.testbit (Sup.mip s) k && Z.testbit (Sup.mie s) k.

(** The architecture's condition for an interrupt to be taken in S-mode (M-mode). *)
Definition s_takes (s : Sup.t) (k : Z) : bool :=
  raised s k && Z.testbit (Sup.mideleg s) k
  && match Sup.priv_level s with
     | PUser => true
     | PSupervisor => MStatus.sie (Sup.mstatus s)
     | PMachine => false
     end.
Definition m_takes (s : Sup.t) (k : Z) : bool :=
  raised s k && negb (Z.testbit (Sup.mideleg s) k)
  && match Sup.priv_level s with PMachine => MStatus.mie (Sup.mstatus s) | _ => true end.

(** The order in which the emulator looks at the bits of each mode. *)
Definition s_order : list (Z * Interrupt) :=
  [(7, SupervisorTimer); (5, SupervisorTimer); (1, SupervisorSoftware); (9, SupervisorExternal)].
Definition m_order : list (Z * Interrupt) :=
  [(11, MachineExternal); (3, MachineSoftware); (7, MachineTimer); (9, SupervisorExternal);
   (1, SupervisorSoftware); (5, SupervisorTimer)].

Definition chosen (takes : Z → bool) (order : list (Z * Interrupt)) : option Interrupt :=
  snd <$> List.find (λ p, takes p.1) order.

Lemma has_testbit x k : 0 <= k → has x k = Z.testbit x k.
Proof. intros. by apply land_pow2_eqb. Qed.

Lemma testbit_delegated s k :
  Z.testbit (Z.land (Z.land (Sup.mip s) (Sup.mie s)) (Sup.mideleg s)) k
  = raised s k && Z.testbit (Sup.mideleg s) k.
Proof. by rewrite !Z.land_spec. Qed.

Lemma testbit_undelegated s k :
  0 <= k < 64 →
  Z.testbit (Z.land (Z.land (Sup.mip s) (Sup.mie s)) (unot 64 (Sup.mideleg s))) k
  = raised s k && negb (Z.testbit (Sup.mideleg s) k).
Proof.
  intros Hk. unfold unot. rewrite !Z.land_spec, testbit_wrap, Z.lnot_spec by lia.
  by destruct (Z.ltb_spec k 64); [|lia].
Qed.

(** The S-mode and M-mode halves of [check_interrupts]. *)
Lemma s_half s :
  (if s_enabled s && negb (Z.land (Z.land (Sup.mip s) (Sup.mie s)) (Sup.mideleg s) =? 0)
      && negb (bool_decide (Sup.priv_level s = PMachine)) then
     if has (Z.land (Z.land (Sup.mip s) (Sup.mie s)) (Sup.mideleg s)) 7
     then Some (TInterrupt SupervisorTimer)
     else if has (Z.land (Z.land (Sup.mip s) (Sup.mie s)) (Sup.mideleg s)) 5
     then Some (TInterrupt SupervisorTimer)
     else if has (Z.land (Z.land (Sup.mip s) (Sup.mie s)) (Sup.mideleg s)) 1
     then Some (TInterrupt SupervisorSoftware)
     else if has (Z.land (Z.land (Sup.mip s) (Sup.mie s)) (Sup.mideleg s)) 9
     then Some (TInterrupt SupervisorExternal) else None
   else None) = TInterrupt <$> chosen (s_takes s) s_order.
Proof.
  rewrite !has_testbit, !testbit_delegated by lia. unfold chosen, s_order. cbn [List.find fst].
  unfold s_takes. set (d := λ k, raised s k && Z.testbit (Sup.mideleg s) k).
  change (raised s 7 && Z.testbit (Sup.mideleg s) 7) with (d 7).
  change (raised s 5 && Z.testbit (Sup.mideleg s) 5) with (d 5).
  change (raised s 1 && Z.testbit (Sup.mideleg s) 1) with (d 1).
  change (raised s 9 && Z.testbit (Sup.mideleg s) 9) with (d 9).
  assert (Hz : Z.land (Z.land (Sup.mip s) (Sup.mie s)) (Sup.mideleg s) = 0 →
               ∀ k, d k = false).
  { intros E k. unfold d. rewrite <- testbit_delegated, E. apply Z.testbit_0_l. }
  destruct (Z.eqb_spec (Z.land (Z.land (Sup.mip s) (Sup.mie s)) (Sup.mideleg s)) 0) as [E|E].
  - rewrite !(Hz E). by rewrite andb_false_r.
  - clear Hz E. unfold s_enabled. destruct (Sup.priv_level s); cbn [negb andb orb bool_decide];
      repeat (rewrite ?andb_true_r, ?andb_false_r; cbn);
      try destruct (MStatus.sie _); repeat (rewrite ?andb_true_r, ?andb_false_r; cbn);
      try done; by destruct (d 7), (d 5), (d 1), (d 9).
Qed.

Lemma m_half s :
  let m := Z.land (Z.land (Sup.mip s) (Sup.mie s)) (unot 64 (Sup.mideleg s)) in
  (if m_enabled s then
     if has m 11 then Some (TInterrupt MachineExternal)
     else if has m 3 then Some (TInterrupt MachineSoftware)
     else if has m 7 then Some (TInterrupt MachineTimer)
     else if has m 9 then Some (TInterrupt SupervisorExternal)
     else if has m 1 then Some (TInterrupt SupervisorSoftware)
     else if has m 5 then Some (TInterrupt SupervisorTimer) else None
   else None) = TInterrupt <$> chosen (m_takes s) m_order.
Proof.
  cbv zeta. rewrite !has_testbit, !testbit_undelegated by lia.
  unfold chosen, m_order, m_takes, m_enabled. cbn [List.find fst].
  set (d := λ k, raised s k && negb (Z.testbit (Sup.mideleg s) k)).
  repeat match goal with |- context [raised s ?k && negb (Z.testbit (Sup.mideleg s) ?k)] =>
    change (raised s k && negb (Z.testbit (Sup.mideleg s) k)) with (d k) end.
  destruct (Sup.priv_level s); cbn [negb andb orb bool_decide];
    try destruct (MStatus.mie _); repeat (rewrite ?andb_true_r, ?andb_false_r; cbn); try done;
    by destruct (d 11), (d 3), (d 7), (d 9), (d 1), (d 5).
Qed.

Lemma chosen_none takes order :
  chosen takes order = None ↔ Forall (λ p, takes p.1 = false) order.
Proof.
  unfold chosen. rewrite fmap_None. induction order as [|p l IH]; cbn; [done|].
  destruct (takes p.1) eqn:E; rewrite Forall_cons, E; [by split; [|intros [??]]|].
  rewrite IH. naive_solver.
Qed.

Lemma nothing_raised s :
  Z.land (Sup.mip s) (Sup.mie s) = 0 → ∀ k, raised s k = false.
Proof. intros E k. unfold raised. rewrite <- Z.land_spec, E. apply Z.testbit_0_l. Qed.

Lemma check_interrupts_eq s :
  check_interrupts s =
    match chosen (s_takes s) s_order with
    | Some i => Some (TInterrupt i)
    | None => TInterrupt <$> chosen (m_takes s) m_order
    end.
Proof.
  unfold check_interrupts. cbv zeta.
  destruct (Z.eqb_spec (Z.land (Sup.mip s) (Sup.mie s)) 0) as [E|E].
  - pose proof (nothing_raised s E) as Hn.
    rewrite (proj2 (chosen_none (s_takes s) s_order)).
    + by rewrite (proj2 (chosen_none (m_takes s) m_order))
        by (repeat constructor; unfold m_takes; by rewrite Hn).
    + repeat constructor; unfold s_takes; by rewrite Hn.
  - rewrite s_half. pose proof (m_half s) as Hm. cbv zeta in Hm. rewrite Hm.
    by destruct (chosen (s_takes s) s_order).
Qed.

Lemma chosen_some takes order i :
  chosen takes order = Some i → ∃ k, (k, i) ∈ order ∧ takes k = true.
Proof.
  unfold chosen. destruct (List.find _ order) as [[k j]|] eqn:E; [|done].
  intros [= ->]. apply List.find_some in E as [Hin Ht]. exists k. split; [|done].
  by apply list_elem_of_In.
Qed.

(** An interrupt chosen for S-mode is delivered there; one chosen for M-mode is
    delivered in M-mode except for the undelegated supervisor timer. *)
Lemma s_choice_delivered s i :
  chosen (s_takes s) s_order = Some i → to_s_mode s (TInterrupt i) = true.
Proof.
  intros (k & Hin & Ht)%chosen_some. rewrite to_s_mode_rule. unfold s_takes in Ht.
  apply andb_prop in Ht as [Ht Hp]. apply andb_prop in Ht as [_ Hd].
  assert (negb (bool_decide (Sup.priv_level s = PMachine)) = true) as ->
    by (by destruct (Sup.priv_level s)).
  rewrite andb_true_r. unfold s_order in Hin. rewrite !elem_of_cons in Hin.
  destruct Hin as [[= -> ->]|[[= -> ->]|[[= -> ->]|[[= -> ->]|Hin]]]]; cbn -[Z.testbit];
    [by rewrite Hd, orb_true_r|by rewrite Hd..|by apply elem_of_nil in Hin].
Qed.

Lemma m_choice_delivered s i :
  chosen (m_takes s) m_order = Some i →
  to_s_mode s (TInterrupt i)
  = bool_decide (i = SupervisorTimer) && Z.testbit (Sup.mideleg s) 7
    && negb (bool_decide (Sup.priv_level s = PMachine)).
Proof.
  intros (k & Hin & Ht)%chosen_some. rewrite to_s_mode_rule. f_equal. unfold m_takes in Ht.
  apply andb_prop in Ht as [Ht _]. apply andb_prop in Ht as [_ Hd%negb_true_iff].
  unfold m_order in Hin. rewrite !elem_of_cons in Hin.
  destruct Hin as [[= -> ->]|[[= -> ->]|[[= -> ->]|[[= -> ->]|[[= -> ->]|[[= -> ->]|Hin]]]]]];
    cbn -[Z.testbit]; [done..|by rewrite Hd|by rewrite Hd|by rewrite Hd|by apply elem_of_nil in Hin].
Qed.

(** * Properties *)

(** C10: trap entry.  In the release build every trap is delivered (the call
    returns), in S-mode when the hart is below M-mode and the trap is delegated,
    in M-mode otherwise; delegated means by the architecture's rule, or, for a
    supervisor timer interrupt, by the machine timer's bit of mideleg.  The state
    afterwards is the architecture's trap entry, which saves the pc, the cause
    and, for page faults, the faulting address, pushes the interrupt-enable bit
    and the previous mode, disables interrupts of the target mode and jumps to the
    vector (the base for exceptions, base plus four times the cause for interrupts
    in vectored mode), with exactly these additions: an entry to S-mode clears the
    pending bit of a supervisor interrupt (and MTIP with STIP), an entry to M-mode
    overwrites sepc and scause too, and the emulator's own flags say that a trap
    was delivered and that the hart is awake.  Diagnostics aside, no other field
    changes. *)
Theorem trap_entry_exact t fv s :
  let to_s := (delegation_rule s t || timer_exception s t)
              && negb (bool_decide (Sup.priv_level s = PMachine)) in
  ∃ s', @take_trap_with_vaddr Release t fv s = Some (StTrap t, s')
        ∧ same_but_diag
            (if to_s then clear_pending t (woken (arch_s_entry t fv s))
             else woken (arch_m_entry t fv s)
                    <| Sup.sepc := Cpu.pc (Sup.cpu s) |> <| Sup.scause := trap_cause t |>) s'
        ∧ priv_code (Sup.priv_level s) <= priv_code (Sup.priv_level s')
        ∧ Cpu.x (Sup.cpu s') = Cpu.x (Sup.cpu s).
Proof.
  destruct (wp_total _ _ _ (@trap_entry_run Release False ltac:(done) t fv s))
    as (st & s' & E & -> & Hs).
  cbv zeta. exists s'. rewrite <- to_s_mode_rule. split; [done|]. split; [done|].
  destruct (same_but_diag_fields _ _ Hs) as (E1 & E2 & _). rewrite E1, E2.
  destruct (to_s_mode s t) eqn:Ht; [|split; [by destruct (Sup.priv_level s)|reflexivity]].
  assert (Hc : Sup.priv_level (s_entry t fv s) = PSupervisor ∧ Cpu.x (Sup.cpu (s_entry t fv s)) = Cpu.x (Sup.cpu s))
    by (by destruct t as [|[]]).
  destruct Hc as [-> ->]. split; [|done].
  unfold to_s_mode in Ht. apply andb_prop in Ht as [_ Ht]. by destruct (Sup.priv_level s).
Qed.

(** C23: a trap handler that returns at once resumes the interrupted program.
    Taking any trap at an instruction boundary and executing the return of the
    mode it was delivered in gives back all registers and the pc, the privilege
    mode, the interrupt-enable bits of both modes, the address space and its
    translations, and the LR/SC reservation. *)
Theorem trap_return_roundtrip (TG : Target) t fv s :
  urange 64 (Cpu.pc (Sup.cpu s)) → Z.testbit (Cpu.pc (Sup.cpu s)) 0 = false →
  ∃ s', (@take_trap_with_vaddr Release t fv;;
         (if to_s_mode s t then @do_sret Release TG else @do_mret TG)) s = Some (Running, s')
        ∧ resumed s s'.
Proof.
  intros Hpc H0.
  destruct (wp_total _ _ _ (@trap_then_return Release TG False ltac:(done) t fv s Hpc H0))
    as (st & s' & E & -> & Hs). by exists s'.
Qed.

Lemma trap_return_roundtrip_witness :
  ∃ s', (@take_trap_with_vaddr Release (TException LoadPageFault) (Some 0x40);;
         (if to_s_mode (Sup.new 0x80000000 0) (TException LoadPageFault)
          then @do_sret Release Native64 else @do_mret Native64)) (Sup.new 0x80000000 0)
        = Some (Running, s') ∧ resumed (Sup.new 0x80000000 0) s'.
Proof.
  apply (trap_return_roundtrip Native64 (TException LoadPageFault) (Some 0x40)
           (Sup.new 0x80000000 0)); [by unfold urange|reflexivity].
Defined.

(** C19: interrupt selection.  The interrupt taken is the first in the emulator's
    order among those the architecture lets S-mode take, and failing that among
    those M-mode takes; nothing is taken exactly when no bit the emulator looks
    at qualifies.  One chosen for S-mode is delivered there, so user and
    supervisor code with interrupts masked is not interrupted into S-mode, and one
    chosen for M-mode is delivered in M-mode, with a single exception: a supervisor
    timer interrupt that is not delegated still goes to S-mode when the machine
    timer is delegated. *)
Theorem interrupt_selection s :
  check_interrupts s =
    match chosen (s_takes s) s_order with
    | Some i => Some (TInterrupt i)
    | None => TInterrupt <$> chosen (m_takes s) m_order
    end
  ∧ (check_interrupts s = None
     ↔ Forall (λ p, s_takes s p.1 = false) s_order ∧ Forall (λ p, m_takes s p.1 = false) m_order)
  ∧ (∀ i, chosen (s_takes s) s_order = Some i → to_s_mode s (TInterrupt i) = true)
  ∧ (∀ i, chosen (m_takes s) m_order = Some i →
       to_s_mode s (TInterrupt i)
       = bool_decide (i = SupervisorTimer) && Z.testbit (Sup.mideleg s) 7
         && negb (bool_decide (Sup.priv_level s = PMachine))).
Proof.
  pose proof (check_interrupts_eq s) as E. split_and!; [done| | |].
  - rewrite E, <- !chosen_none. destruct (chosen (s_takes s) s_order); [naive_solver|].
    rewrite fmap_None. naive_solver.
  - apply s_choice_delivered.
  - apply m_choice_delivered.
Qed.
