(* ===== verification/SupCsr.v ===== *)
(** Control and status registers ([riscv-supervisor/src/supervisor.rs]:
    [csr_read], [csr_write], [csr_op] and its compiled-code twin [csr_jit]). *)

From S2P Require Import Prelude Types SupTypes State Cpu Mmu Sbi SupState SupTrap.

Definition SSTATUS_MASK : Z :=
  Z.lor (Z.shiftl 1 63) (Z.lor (Z.shiftl 3 32) (Z.lor (Z.shiftl 1 19) (Z.lor (Z.shiftl 1 18)
  (Z.lor (Z.shiftl 3 15) (Z.lor (Z.shiftl 3 13) (Z.lor (Z.shiftl 3 9) (Z.lor (Z.shiftl 1 8)
  (Z.lor (Z.shiftl 1 5) (Z.shiftl 1 1))))))))).

Definition between (lo hi csr : Z) : bool := (lo <=? csr) && (csr <=? hi).

(** Every arm of [csr_read] but [time], which reads the bus. *)
Definition csr_get (s : Sup.t) (csr : Z) : Z :=
  if csr =? 0x001 then Z.land (Cpu.fcsr (Sup.cpu s)) 0x1f
  else if csr =? 0x002 then Z.land (Z.shiftr (Cpu.fcsr (Sup.cpu s)) 5) 0x7
  else if csr =? 0x003 then Z.land (Cpu.fcsr (Sup.cpu s)) 0xff
  else if csr =? 0x300 then MStatus.to_bits (Sup.mstatus s)
  else if csr =? 0x301 then 0x800000000094112D
  else if csr =? 0x302 then Sup.medeleg s
  else if csr =? 0x303 then Sup.mideleg s
  else if csr =? 0x304 then Sup.mie s
  else if csr =? 0x305 then Sup.mtvec s
  else if csr =? 0x306 then 0
  else if csr =? 0x340 then Sup.mscratch s
  else if csr =? 0x341 then Sup.mepc s
  else if csr =? 0x342 then Sup.mcause s
  else if csr =? 0x343 then Sup.mtval s
  else if csr =? 0x344 then Sup.mip s
  else if between 0x3A0 0x3AF csr then Sup.pmpcfg s !!! Z.to_nat (csr - 0x3A0)
  else if between 0x3B0 0x3EF csr then Sup.pmpaddr s !!! Z.to_nat (csr - 0x3B0)
  else if csr =? 0xB00 then Sup.mcycle s
  else if csr =? 0xB02 then Sup.minstret s
  else if csr =? 0xF11 then 0
  else if csr =? 0xF12 then 0
  else if csr =? 0xF13 then 0
  else if csr =? 0xF14 then Sup.mhartid s
  else if csr =? 0x100 then MStatus.to_bits (Sup.mstatus s)
  else if csr =? 0x104 then Z.land (Sup.mie s) 0x222
  else if csr =? 0x105 then Sup.stvec s
  else if csr =? 0x106 then 0
  else if csr =? 0x140 then Sup.sscratch s
  else if csr =? 0x141 then Sup.sepc s
  else if csr =? 0x142 then Sup.scause s
  else if csr =? 0x143 then Sup.stval s
  else if csr =? 0x144 then Z.land (Sup.mip s) 0x222
  else if csr =? 0x14D then Sup.stimecmp s
  else if csr =? 0x180 then Satp.to_bits (Sup.satp s)
  else if csr =? 0xC00 then Sup.mcycle s
  else if csr =? 0xC02 then Sup.minstret s
  else if csr =? 0xC80 then 0
  else if csr =? 0xC81 then 0
  else if csr =? 0xC82 then 0
  else 0.

Definition set_fcsr (v : Z) (s : Sup.t) : Sup.t :=
  let s := s <| Sup.cpu := (Sup.cpu s) <| Cpu.fcsr := v |> |> in
  s <| Sup.mstatus := (Sup.mstatus s) <| MStatus.fs := 3 |> |>.

Section Csr.
Context `{Profile} `{Target}.

(** The diagnostic of an [epc] write that names a physical kernel address. *)
Definition note_epc (val : Z) (s : Sup.t) : Sup.t :=
  if (Satp.mode (Sup.satp s) =? 8) && Sup.is_phys_kernel val
  then Sup.record_phys_transition (Cpu.pc (Sup.cpu s)) val s else s.

Definition write_satp (val : Z) : M Sup.t unit :=
  old ← get (λ s, Satp.to_bits (Sup.satp s));
  modify (λ s, s <| Sup.satp := Satp.from_bits val |>);;
  if negb (old =? val) then
    g ← get Sup.gen_bump;
    n ← lift (add_u 64 (g !!! 0%nat) 1);
    modify (λ s, s <| Sup.gen_bump := <[0%nat := n]> (Sup.gen_bump s) |>);;
    modify (λ s, s <| Sup.mmu := Mmu.flush_tlb (Sup.mmu s) |>);;
    modify (λ s, s <| Sup.fetch_vpn := U64_MAX |>);;
    modify (Sup.switch_address_space old val)
  else mret tt.

Definition csr_write (csr val : Z) : M Sup.t unit :=
  if csr =? 0x001 then modify (λ s,
    set_fcsr (Z.lor (Z.land (Cpu.fcsr (Sup.cpu s)) (unot 64 0x1f)) (Z.land val 0x1f)) s)
  else if csr =? 0x002 then modify (λ s,
    set_fcsr (Z.lor (Z.land (Cpu.fcsr (Sup.cpu s)) (unot 64 0xe0))
                    (Z.shiftl (Z.land val 0x7) 5)) s)
  else if csr =? 0x003 then modify (set_fcsr (Z.land val 0xff))
  else if csr =? 0x300 then modify (λ s,
    let ms := MStatus.from_bits val in
    let ms := ms <| MStatus.uxl := 2 |> in
    let ms := ms <| MStatus.sxl := 2 |> in
    s <| Sup.mstatus := ms |>)
  else if csr =? 0x302 then modify (λ s, s <| Sup.medeleg := val |>)
  else if csr =? 0x303 then modify (λ s, s <| Sup.mideleg := val |>)
  else if csr =? 0x304 then modify (λ s, s <| Sup.mie := val |>)
  else if csr =? 0x305 then modify (λ s, s <| Sup.mtvec := val |>)
  else if csr =? 0x340 then modify (λ s, s <| Sup.mscratch := val |>)
  else if csr =? 0x341 then modify (λ s, note_epc val (s <| Sup.mepc := val |>))
  else if csr =? 0x342 then modify (λ s, s <| Sup.mcause := val |>)
  else if csr =? 0x343 then modify (λ s, s <| Sup.mtval := val |>)
  else if csr =? 0x344 then modify (λ s, s <| Sup.mip := val |>)
  else if between 0x3A0 0x3AF csr then modify (λ s,
    s <| Sup.pmpcfg := <[Z.to_nat (csr - 0x3A0) := val]> (Sup.pmpcfg s) |>)
  else if between 0x3B0 0x3EF csr then modify (λ s,
    s <| Sup.pmpaddr := <[Z.to_nat (csr - 0x3B0) := Z.land val 0x003FFFFFFFFFFFFF]>
                          (Sup.pmpaddr s) |>)
  else if csr =? 0xB00 then modify (λ s,
    s <| Sup.mcycle := val |> <| Sup.wrote_mcycle := true |>)
  else if csr =? 0xB02 then modify (λ s,
    s <| Sup.minstret := val |> <| Sup.wrote_minstret := true |>)
  else if csr =? 0x100 then modify (λ s,
    let merged := Z.lor (Z.land (MStatus.to_bits (Sup.mstatus s)) (unot 64 SSTATUS_MASK))
                        (Z.land val SSTATUS_MASK) in
    s <| Sup.mstatus := MStatus.from_bits merged |>)
  else if csr =? 0x104 then modify (λ s,
    s <| Sup.mie := Z.lor (Z.land (Sup.mie s) (unot 64 0x222)) (Z.land val 0x222) |>)
  else if csr =? 0x105 then modify (λ s, s <| Sup.stvec := val |>)
  else if csr =? 0x140 then modify (λ s, s <| Sup.sscratch := val |>)
  else if csr =? 0x141 then modify (λ s, note_epc val (s <| Sup.sepc := val |>))
  else if csr =? 0x142 then modify (λ s, s <| Sup.scause := val |>)
  else if csr =? 0x143 then modify (λ s, s <| Sup.stval := val |>)
  else if csr =? 0x144 then modify (λ s,
    s <| Sup.mip := Z.lor (Z.land (Sup.mip s) (unot 64 0x222)) (Z.land val 0x222) |>)
  else if csr =? 0x14D then modify (λ s, s <| Sup.stimecmp := val |>)
  else if csr =? 0x180 then write_satp val
  else mret tt.

Context {B : Type} `{Bus B}.
Abbreviation SM := (M (Sup.t * B)).

Definition csr_read (csr : Z) : SM Z :=
  if csr =? 0xC01 then
    v ← on_dev read_mtime;
    self_upd (Sup.upd_diag (λ d, d <| Diag.dbg_last_time := v |>));;
    n ← on_self (get (λ s, Diag.dbg_time_reads (Sup.diag s)));
    n' ← on_self (lift (add_u 64 n 1));
    self_upd (Sup.upd_diag (λ d, d <| Diag.dbg_time_reads := n' |>));;
    mret v
  else on_self (get (λ s, csr_get s csr)).

(** [((csr >> 8) & 0x3) as u8] and [(csr >> 10) & 0x3 == 0b11] *)
Definition csr_priv (csr : Z) : Z := Z.land (Z.shiftr csr 8) 0x3.
Definition read_only (csr : Z) : bool := Z.land (Z.shiftr csr 10) 0x3 =? 3.

(** [TVM] traps [satp] accesses made from S-mode. *)
Definition tvm_traps (s : Sup.t) (csr : Z) : bool :=
  (csr =? 0x180) && bool_decide (Sup.priv_level s = PSupervisor)
  && MStatus.tvm (Sup.mstatus s).

Definition csr_op (csr rd rs1 val : Z) (read clear : bool) (width : Z) : SM Status :=
  s ← on_self (get id);
  if priv_code (Sup.priv_level s) <? csr_priv csr then
    on_self (take_trap (TException IllegalInstruction))
  else if tvm_traps s csr then on_self (take_trap (TException IllegalInstruction))
  else
    let will_write := negb read || negb (rs1 =? 0) in
    if will_write && read_only csr then on_self (take_trap (TException IllegalInstruction))
    else
      old ← csr_read csr;
      let new := if clear then Z.land old (unot 64 val)
                 else if read then Z.lor old val
                 else val in
      (if will_write then on_self (csr_write csr new) else mret tt);;
      on_self (Sup.on_cpu (Cpu.write_reg rd old));;
      on_self (Sup.on_cpu (Cpu.advance width));;
      mret Running.

(** [kind]: 0 write, 1 set, 2 clear; [true] asks the interpreter to re-run. *)
Definition csr_jit (csr rd src val kind : Z) : SM bool :=
  let read := negb (kind =? 0) in
  let clear := kind =? 2 in
  s ← on_self (get id);
  if priv_code (Sup.priv_level s) <? csr_priv csr then mret true
  else if tvm_traps s csr then mret true
  else
    let will_write := negb read || negb (src =? 0) in
    if will_write && read_only csr then mret true
    else
      old ← csr_read csr;
      let new := if clear then Z.land old (unot 64 val)
                 else if read then Z.lor old val
                 else val in
      (if will_write then on_self (csr_write csr new) else mret tt);;
      on_self (Sup.on_cpu (Cpu.write_reg rd old));;
      mret false.
End Csr.
