(* ===== verification/Supervisor.v ===== *)
(** The supervisor's step function ([riscv-supervisor/src/supervisor.rs]:
    translation, translated memory instructions, privileged instructions,
    [step], and the entry points compiled code calls).

    State is the supervisor and the bus.  A [self.translate(..)] that fails is
    turned into a trap by [translated], the common shape of the memory arms. *)

From S2P Require Import Prelude Keeps Types Decode Compressed SupTypes State Cpu Fpu Execute.
From S2P Require Import Mmu Sbi SupState SupTrap SupCsr.

Module Supervisor.
Section Ops.
Context {B : Type} `{Bus B} `{Profile} `{Target} `{Libm}.
Abbreviation SM := (M (Sup.t * B)).

Definition cpu_op {A} (m : M Cpu.t A) : SM A := on_self (Sup.on_cpu m).
Definition rd_reg (i : Z) : SM Z := on_self (get (λ s, Sup.read_reg s i)).
(** [self.cpu.pc = self.cpu.pc.wrapping_add(width as u64); return Status::Running] *)
Definition retired (width : Z) : SM Status := cpu_op (Cpu.advance width);; mret Running.
(** [self.mmu.translate(bus, &self.satp, ..)] and [self.cpu.execute_width(.., bus)] *)
Definition on_mmu {A} (m : M (Mmu.t * B) A) : SM A :=
  zoom (λ p, (Sup.mmu p.1, p.2)) (λ q p, (p.1 <| Sup.mmu := q.1 |>, q.2)) m.
Definition on_hart {A} (m : M (Cpu.t * B) A) : SM A :=
  zoom (λ p, (Sup.cpu p.1, p.2)) (λ q p, (p.1 <| Sup.cpu := q.1 |>, q.2)) m.

(** * Translation *)

Definition priv_level_from_mpp (s : Sup.t) : Privilege :=
  let mpp := MStatus.mpp (Sup.mstatus s) in
  if mpp =? 0 then PUser
  else if mpp =? 1 then PSupervisor
  else if mpp =? 3 then PMachine
  else PUser.

Definition translate (access : AccessType) (vaddr : Z) : SM (Result Z Trap) :=
  s ← on_self (get id);
  let ms := Sup.mstatus s in
  let via priv :=
    on_mmu (Mmu.translate (Sup.satp s) priv (MStatus.sum ms) (MStatus.mxr ms) access vaddr) in
  if bool_decide (Sup.priv_level s = PMachine) then
    if bool_decide (access = Instruction) then mret (Ok vaddr)
    else if negb (MStatus.mprv ms) then mret (Ok vaddr)
    else
      let eff_priv := priv_level_from_mpp s in
      if bool_decide (eff_priv = PMachine) then mret (Ok vaddr)
      else via eff_priv
  else via (Sup.priv_level s).

Definition debug_translate (access : AccessType) (vaddr : Z) : SM (Result Z Z) :=
  r ← translate access vaddr;
  mret (match r with Ok paddr => Ok paddr | Err _ => Err 0xDEAD end).

Definition fetch_translate (vaddr : Z) : SM (Result Z Trap) :=
  let vpn := Z.shiftr vaddr 12 in
  s ← on_self (get id);
  if (vpn =? Sup.fetch_vpn s) && bool_decide (Sup.priv_level s = Sup.fetch_priv s) then
    mret (Ok (Z.lor (as_u64 (Z.shiftl (Sup.fetch_ppn s) 12)) (Z.land vaddr 0xFFF)))
  else
    try_ (translate Instruction vaddr) (λ paddr,
      self_upd (λ s, s <| Sup.fetch_vpn := vpn |>);;
      self_upd (λ s, s <| Sup.fetch_priv := Sup.priv_level s |>);;
      self_upd (λ s, s <| Sup.fetch_ppn := Z.shiftr paddr 12 |>);;
      mret (Ok paddr)).

Definition fetch_upper_half (lo_paddr : Z) : SM (Result Z Trap) :=
  pc ← on_self (get (λ s, Cpu.pc (Sup.cpu s)));
  if negb (Z.land pc 0xFFF =? 0xFFE) then
    a ← on_self (lift (add_u 64 lo_paddr 2));
    h ← on_dev (read_u16 a);
    mret (Ok h)
  else
    let hi_vaddr := as_u64 (pc + 2) in
    try_ (translate Instruction hi_vaddr) (λ hi_paddr,
      h ← on_dev (read_u16 hi_paddr); mret (Ok h)).

(** [((hi as u32) << 16) | (half as u32)] *)
Definition join_halves (hi half : Z) : Z := Z.lor (as_u32 (Z.shiftl hi 16)) half.

Definition debug_fetch (vaddr : Z) : SM (Result (Z * Z * Z * Z) Z) :=
  r ← translate Instruction vaddr;
  match r with
  | Err _ => mret (Err 0xDEAD)
  | Ok paddr =>
      half ← on_dev (read_u16 paddr);
      if negb (Z.land half 3 =? 3) then
        match decompress half with
        | Some _ => mret (Ok (paddr, half, 2, 0))
        | None =>
            a ← on_self (lift (add_u 64 paddr 2));
            hi ← on_dev (read_u16 a);
            mret (Ok (paddr, half, 0, join_halves hi half))
        end
      else
        a ← on_self (lift (add_u 64 paddr 2));
        hi ← on_dev (read_u16 a);
        mret (Ok (paddr, half, 4, join_halves hi half))
  end.

(** [match self.translate(bus, access, vaddr) { Ok(paddr) => .., Err(t) => return
    self.take_trap_with_vaddr(t, Some(vaddr)) }] *)
Definition translated (access : AccessType) (vaddr : Z) (k : Z → SM Status) : SM Status :=
  r ← translate access vaddr;
  match r with
  | Ok paddr => k paddr
  | Err t => on_self (take_trap_with_vaddr t (Some vaddr))
  end.

(** * Translated memory instructions *)

(** [(self.read_reg(rs1) as i64).wrapping_add(imm) as u64] *)
Definition vaddr_of (rs1 imm : Z) : SM Z :=
  a ← rd_reg rs1; mret (as_u64 (as_i64 (as_i64 a + imm))).
(** [(self.read_reg(rs1) as i64) as u64] *)
Definition base_of (rs1 : Z) : SM Z := a ← rd_reg rs1; mret (as_u64 (as_i64 a)).

Definition load_int (rd rs1 imm : Z) (read : Z → M B Z) (ext : Z → Z) (watched : bool)
  (width : Z) : SM Status :=
  vaddr ← vaddr_of rs1 imm;
  translated Load vaddr (λ paddr,
    v ← on_dev (read paddr);
    (if watched then self_upd (Sup.record_load vaddr v) else mret tt);;
    cpu_op (Cpu.write_reg rd (ext v));;
    retired width).

Definition load_fp (rd rs1 imm : Z) (read : Z → M B Z) (box : Z → Z) (width : Z) : SM Status :=
  vaddr ← vaddr_of rs1 imm;
  translated Load vaddr (λ paddr,
    v ← on_dev (read paddr);
    cpu_op (Cpu.write_freg rd (box v));;
    cpu_op (modify (λ c, c <| Cpu.fs_dirty := true |>));;
    retired width).

Definition exec_translated_load (i : Instr) (width : Z) : option (SM Status) :=
  match i with
  | Lb rd rs1 imm => Some (load_int rd rs1 imm read_u8 (λ v, as_u64 (as_i64 (as_i8 v))) false width)
  | Lh rd rs1 imm => Some (load_int rd rs1 imm read_u16 (λ v, as_u64 (as_i64 (as_i16 v))) false width)
  | Lw rd rs1 imm => Some (load_int rd rs1 imm read_u32 (λ v, as_u64 (as_i64 (as_i32 v))) false width)
  | Ld rd rs1 imm => Some (load_int rd rs1 imm read_u64 id true width)
  | Lbu rd rs1 imm => Some (load_int rd rs1 imm read_u8 id false width)
  | Lhu rd rs1 imm => Some (load_int rd rs1 imm read_u16 id false width)
  | Lwu rd rs1 imm => Some (load_int rd rs1 imm read_u32 id true width)
  | Fld rd rs1 imm => Some (load_fp rd rs1 imm read_u64 id width)
  | Flw rd rs1 imm => Some (load_fp rd rs1 imm read_u32 (Z.lor 0xFFFFFFFF00000000) width)
  | _ => None
  end.

Definition store_val (rs1 imm : Z) (value : Sup.t → Z) (write : Z → Z → M B unit)
  (watched : bool) (width : Z) : SM Status :=
  vaddr ← vaddr_of rs1 imm;
  translated Store vaddr (λ paddr,
    v ← on_self (get value);
    (if watched then self_upd (Sup.record_store vaddr v) else mret tt);;
    on_dev (write paddr v);;
    retired width).

Definition exec_translated_store (i : Instr) (width : Z) : option (SM Status) :=
  match i with
  | Sb rs1 rs2 imm => Some (
      store_val rs1 imm (λ s, as_u8 (Sup.read_reg s rs2)) write_u8 false width)
  | Sh rs1 rs2 imm => Some (
      store_val rs1 imm (λ s, as_u16 (Sup.read_reg s rs2)) write_u16 false width)
  | Sw rs1 rs2 imm => Some (
      store_val rs1 imm (λ s, as_u32 (Sup.read_reg s rs2)) write_u32 true width)
  | Sd rs1 rs2 imm => Some (
      store_val rs1 imm (λ s, Sup.read_reg s rs2) write_u64 true width)
  | Fsw rs1 rs2 imm => Some (
      store_val rs1 imm (λ s, as_u32 (Cpu.read_freg (Sup.cpu s) rs2)) write_u32 false width)
  | Fsd rs1 rs2 imm => Some (
      store_val rs1 imm (λ s, Cpu.read_freg (Sup.cpu s) rs2) write_u64 false width)
  | _ => None
  end.

(** Read-modify-write through the translation: [new] maps the old word and the
    value of [rs2] to the word written, [ret] the old word to [rd]. *)
Definition amo (rd rs1 rs2 : Z) (read : Z → M B Z) (write : Z → Z → M B unit)
  (new : Z → Z → Z) (ret : Z → Z) (width : Z) : SM Status :=
  vaddr ← base_of rs1;
  translated Store vaddr (λ paddr,
    old ← on_dev (read paddr);
    b ← rd_reg rs2;
    on_dev (write paddr (new old b));;
    cpu_op (Cpu.write_reg rd (ret old));;
    retired width).

Definition tamo_w (rd rs1 rs2 : Z) (new : Z → Z → Z) (width : Z) : SM Status :=
  amo rd rs1 rs2 read_u32 write_u32 new (λ old, as_u64 (as_i32 old)) width.

Definition exec_translated_amo_w (i : Instr) (width : Z) : option (SM Status) :=
  match i with
  | Amoswapw rd rs1 rs2 _ _ => Some (tamo_w rd rs1 rs2 (λ _ b, as_u32 b) width)
  | Amoaddw rd rs1 rs2 _ _ => Some (
      tamo_w rd rs1 rs2 (λ old b, as_u32 (as_i32 (as_i32 old + as_i32 b))) width)
  | Amoxorw rd rs1 rs2 _ _ => Some (tamo_w rd rs1 rs2 (λ old b, Z.lxor old (as_u32 b)) width)
  | Amoandw rd rs1 rs2 _ _ => Some (tamo_w rd rs1 rs2 (λ old b, Z.land old (as_u32 b)) width)
  | Amoorw rd rs1 rs2 _ _ => Some (tamo_w rd rs1 rs2 (λ old b, Z.lor old (as_u32 b)) width)
  | Amominw rd rs1 rs2 _ _ => Some (tamo_w rd rs1 rs2
      (λ old b, as_u32 (if as_i32 old <? as_i32 b then as_i32 old else as_i32 b)) width)
  | Amomaxw rd rs1 rs2 _ _ => Some (tamo_w rd rs1 rs2
      (λ old b, as_u32 (if as_i32 old >? as_i32 b then as_i32 old else as_i32 b)) width)
  | Amominuw rd rs1 rs2 _ _ => Some (
      tamo_w rd rs1 rs2 (λ old b, if old <? as_u32 b then old else as_u32 b) width)
  | Amomaxuw rd rs1 rs2 _ _ => Some (
      tamo_w rd rs1 rs2 (λ old b, if old >? as_u32 b then old else as_u32 b) width)
  | _ => None
  end.

Definition exec_translated_amo_d (i : Instr) (width : Z) : option (SM Status) :=
  let tamo_d rd rs1 rs2 new ret := amo rd rs1 rs2 read_u64 write_u64 new ret width in
  let via_i64 old := as_u64 (as_i64 old) in
  match i with
  | Amoswapd rd rs1 rs2 _ _ => Some (tamo_d rd rs1 rs2 (λ _ b, b) id)
  | Amoaddd rd rs1 rs2 _ _ => Some (
      tamo_d rd rs1 rs2 (λ old b, as_u64 (as_i64 (as_i64 old + as_i64 b))) via_i64)
  | Amoxord rd rs1 rs2 _ _ => Some (tamo_d rd rs1 rs2 Z.lxor id)
  | Amoandd rd rs1 rs2 _ _ => Some (tamo_d rd rs1 rs2 Z.land id)
  | Amoord rd rs1 rs2 _ _ => Some (tamo_d rd rs1 rs2 Z.lor id)
  | Amomind rd rs1 rs2 _ _ => Some (tamo_d rd rs1 rs2
      (λ old b, as_u64 (if as_i64 old <? as_i64 b then as_i64 old else as_i64 b)) via_i64)
  | Amomaxd rd rs1 rs2 _ _ => Some (tamo_d rd rs1 rs2
      (λ old b, as_u64 (if as_i64 old >? as_i64 b then as_i64 old else as_i64 b)) via_i64)
  | Amominud rd rs1 rs2 _ _ => Some (
      tamo_d rd rs1 rs2 (λ old b, if old <? b then old else b) id)
  | Amomaxud rd rs1 rs2 _ _ => Some (
      tamo_d rd rs1 rs2 (λ old b, if old >? b then old else b) id)
  | _ => None
  end.

Definition execute_translated (i : Instr) (width : Z) : SM Status :=
  match exec_translated_load i width with
  | Some m => m
  | None =>
  match exec_translated_store i width with
  | Some m => m
  | None =>
  match exec_translated_amo_w i width with
  | Some m => m
  | None =>
  match exec_translated_amo_d i width with
  | Some m => m
  | None => on_self (take_trap (TException IllegalInstruction))
  end end end end.

(** * Privileged instructions *)

Definition illegal_trap : SM Status := on_self (take_trap (TException IllegalInstruction)).
Definition in_s_mode (s : Sup.t) : bool := bool_decide (Sup.priv_level s = PSupervisor).

(** The [sbi_enabled] branch of [Ecall]. *)
Definition exec_sbi (width : Z) : SM Status :=
  n ← on_self (get (λ s, Diag.ecall_count (Sup.diag s)));
  n' ← on_self (lift (add_u 64 n 1));
  self_upd (Sup.upd_diag (λ d, d <| Diag.ecall_count := n' |>));;
  self_upd (λ s, Sup.upd_diag (λ d, d <| Diag.last_ecall_a7 := Sup.read_reg s 17 |>) s);;
  self_upd (λ s, Sup.upd_diag (λ d, d <| Diag.last_ecall_a6 := Sup.read_reg s 16 |>) s);;
  self_upd (λ s, Sup.upd_diag (λ d, d <| Diag.last_ecall_a0 := Sup.read_reg s 10 |>) s);;
  a0 ← rd_reg 10;
  a1 ← rd_reg 11;
  a6 ← rd_reg 16;
  a7 ← rd_reg 17;
  ret ← handle_ecall a0 a1 a6 a7;
  (if ext ret =? 0x54494D45
   then self_upd (λ s, s <| Sup.mie := or_bit (Sup.mie s) 5 |>) else mret tt);;
  cpu_op (Cpu.write_reg 10 (as_u64 (ret_error ret)));;
  cpu_op (Cpu.write_reg 11 (as_u64 (ret_value ret)));;
  retired width.

Definition exec_ecall (width : Z) : SM Status :=
  s ← on_self (get id);
  if Sup.sbi_enabled s && in_s_mode s then exec_sbi width
  else
    let cause := match Sup.priv_level s with
                 | PUser => EnvironmentCallFromU
                 | PSupervisor => EnvironmentCallFromS
                 | PMachine => EnvironmentCallFromM
                 end in
    on_self (take_trap (TException cause)).

Definition exec_sret : SM Status :=
  s ← on_self (get id);
  if in_s_mode s && MStatus.tsr (Sup.mstatus s) then illegal_trap else on_self do_sret.

Definition exec_wfi (width : Z) : SM Status :=
  s ← on_self (get id);
  if in_s_mode s && MStatus.tw (Sup.mstatus s) then illegal_trap
  else
    sync_device_interrupts;;
    self_upd (λ s, s <| Sup.int_sync_countdown := INT_SYNC_INTERVAL |>);;
    irq ← on_self (get check_interrupts);
    match irq with
    | Some trap => on_self (take_trap trap)
    | None =>
        self_upd (λ s, s <| Sup.wfi := true |>);;
        cpu_op (Cpu.advance width);;
        mret StWfi
    end.

Definition count_gen_bump (k : nat) : SM unit :=
  g ← on_self (get Sup.gen_bump);
  n ← on_self (lift (add_u 64 (g !!! k) 1));
  self_upd (λ s, s <| Sup.gen_bump := <[k := n]> (Sup.gen_bump s) |>).

(** Queue one page for the host, or drop everything when the queue is full. *)
Definition queue_flush (va : Z) : SM unit :=
  n ← on_self (get Sup.pending_flush_n);
  len ← on_self (get (λ s, Z.of_nat (length (Sup.pending_flush s))));
  if n <? len then
    self_upd (λ s, s <| Sup.pending_flush := <[Z.to_nat n := va]> (Sup.pending_flush s) |>);;
    n' ← on_self (lift (add_u 8 n 1));
    self_upd (λ s, s <| Sup.pending_flush_n := n' |>)
  else
    self_upd (λ s, s <| Sup.pending_flush_n := 0 |>);;
    self_upd Sup.invalidate_all_spaces.

Definition exec_sfence (rs1 rs2 width : Z) : SM Status :=
  s ← on_self (get id);
  if in_s_mode s && MStatus.tvm (Sup.mstatus s) then illegal_trap
  else
    count_gen_bump (if negb (rs1 =? 0) then 2%nat else 1%nat);;
    self_upd (λ s, s <| Sup.fetch_vpn := U64_MAX |>);;
    self_upd (λ s, s <| Sup.mmu := Mmu.flush_tlb (Sup.mmu s) |>);;
    (if negb (rs1 =? 0) then va ← rd_reg rs1; queue_flush va
     else self_upd Sup.invalidate_all_spaces);;
    retired width.

(** [lr]: [mask] aligns the reservation. *)
Definition exec_lr (rd : Z) (vaddr : Z) (read : Z → M B Z) (ext : Z → Z) (mask width : Z)
  : SM Status :=
  translated Load vaddr (λ paddr,
    v ← on_dev (read paddr);
    cpu_op (Cpu.write_reg rd (ext v));;
    self_upd (λ s, s <| Sup.reservation_addr := Some (Z.land vaddr (unot 64 mask)) |>);;
    retired width).

Definition exec_sc (rd rs2 : Z) (vaddr : Z) (write : Z → Z → M B unit) (trunc : Z → Z)
  (mask width : Z) : SM Status :=
  translated Store vaddr (λ paddr,
    r ← on_self (get Sup.reservation_addr);
    (if bool_decide (r = Some (Z.land vaddr (unot 64 mask))) then
       v ← rd_reg rs2;
       on_dev (write paddr (trunc v));;
       cpu_op (Cpu.write_reg rd 0)
     else cpu_op (Cpu.write_reg rd 1));;
    self_upd (λ s, s <| Sup.reservation_addr := None |>);;
    retired width).

Definition exec_lr_sc (i : Instr) (width : Z) : option (SM Status) :=
  match i with
  | Lrw rd rs1 _ _ => Some (
      vaddr ← base_of rs1;
      exec_lr rd vaddr read_u32 (λ v, as_u64 (as_i32 v)) 3 width)
  | Scw rd rs1 rs2 _ _ => Some (
      vaddr ← base_of rs1; exec_sc rd rs2 vaddr write_u32 as_u32 3 width)
  | Lrd rd rs1 _ _ => Some (vaddr ← rd_reg rs1; exec_lr rd vaddr read_u64 id 7 width)
  | Scd rd rs1 rs2 _ _ => Some (
      vaddr ← rd_reg rs1; exec_sc rd rs2 vaddr write_u64 id 7 width)
  | _ => None
  end.

(** The arms of the first [match] of [execute_supervisor]. *)
Definition exec_privileged (i : Instr) (width : Z) : option (SM Status) :=
  match i with
  | Csrrw rd rs1 csr => Some (v ← rd_reg rs1; csr_op csr rd rs1 v false false width)
  | Csrrs rd rs1 csr => Some (v ← rd_reg rs1; csr_op csr rd rs1 v true false width)
  | Csrrc rd rs1 csr => Some (v ← rd_reg rs1; csr_op csr rd rs1 v true true width)
  | Csrrwi rd zimm csr => Some (csr_op csr rd zimm zimm false false width)
  | Csrrsi rd zimm csr => Some (csr_op csr rd zimm zimm true false width)
  | Csrrci rd zimm csr => Some (csr_op csr rd zimm zimm true true width)
  | Ecall => Some (exec_ecall width)
  | Ebreak => Some (on_self (take_trap_with_vaddr (TException Breakpoint) None))
  | Mret => Some (on_self do_mret)
  | Sret => Some exec_sret
  | Wfi => Some (exec_wfi width)
  | SfenceVma rs1 rs2 => Some (exec_sfence rs1 rs2 width)
  | _ => exec_lr_sc i width
  end.

(** [if self.cpu.fs_dirty { self.cpu.fs_dirty = false; self.mstatus.fs = 3 }] *)
Definition settle_fs (s : Sup.t) : Sup.t :=
  if Cpu.fs_dirty (Sup.cpu s) then
    let s := s <| Sup.cpu := (Sup.cpu s) <| Cpu.fs_dirty := false |> |> in
    s <| Sup.mstatus := (Sup.mstatus s) <| MStatus.fs := 3 |> |>
  else s.

Definition trace (s : Sup.t) : bool := Diag.trace_enabled (Sup.diag s).

Definition execute_supervisor (i : Instr) (width : Z) : SM Status :=
  match exec_privileged i width with
  | Some m => m
  | None =>
      s ← on_self (get id);
      if (MStatus.fs (Sup.mstatus s) =? 0) && Sup.is_fp i then illegal_trap
      else
        (if trace s
         then self_upd (λ s, Sup.record_trace (Cpu.pc (Sup.cpu s)) (Sup.last_fetched_raw s) s)
         else mret tt);;
        status ← (if Sup.is_simple_load_store i || Sup.is_atomic i
                  then execute_translated i width
                  else on_hart (execute_width i width));
        self_upd settle_fs;;
        mret status
  end.

(** * Step *)

Definition count_cycle (s : Sup.t) : Sup.t :=
  let s := if negb (Sup.wrote_mcycle s)
           then s <| Sup.mcycle := as_u64 (Sup.mcycle s + 1) |> else s in
  let s := if negb (Sup.wrote_minstret s)
           then s <| Sup.minstret := as_u64 (Sup.minstret s + 1) |> else s in
  let s := s <| Sup.wrote_mcycle := false |> in
  s <| Sup.wrote_minstret := false |>.

(** The one-shot capture of the trampoline entry. *)
Definition capture_tramp (prev_pc : Z) (s : Sup.t) : Sup.t :=
  Sup.upd_diag (λ d,
    if Diag.trace_enabled d && negb (Diag.tramp_entry_captured d)
       && (0x80201000 <=? prev_pc) && (prev_pc <? 0x80201200) then
      let base := as_usize (Diag.pc_trace_idx d - 1024) mod 1024 in
      let d := d <| Diag.tramp_entry_ring := Sup.ring_slice d base 1024 |> in
      d <| Diag.tramp_entry_captured := true |>
    else d) s.

(** The two recorders of a jump from virtual to physical addresses. *)
Definition capture_transitions (prev_pc prev_raw : Z) (s : Sup.t) : Sup.t :=
  let pc := Cpu.pc (Sup.cpu s) in
  Sup.upd_diag (λ d,
    let d := if Diag.trace_enabled d && (0xffffffff80000000 <=? prev_pc)
                && (0x80000000 <=? pc) && (pc <? 0x82000000)
             then Sup.push_phys_transition (prev_pc, prev_raw, pc) d else d in
    if Diag.trace_enabled d && (0xffffffff80000000 <=? prev_pc) && (pc <? 0xc0000000) then
      let base := as_usize (Diag.pc_trace_idx d - 64) mod 1024 in
      d <| Diag.low_trans_ring := Sup.ring_slice d base 64 |>
    else d) s.

Definition is_fence_i (i : Instr) : bool := match i with FenceI => true | _ => false end.

Definition finish_step (i : Instr) (width : Z) : SM Status :=
  prev_pc ← on_self (get (λ s, Cpu.pc (Sup.cpu s)));
  prev_raw ← on_self (get Sup.last_fetched_raw);
  self_upd (capture_tramp prev_pc);;
  (if is_fence_i i then self_upd Sup.dcache_flush else mret tt);;
  status ← execute_supervisor i width;
  self_upd (λ s, s <| Sup.block_start :=
    Sup.trap_delivered s || negb (Cpu.pc (Sup.cpu s) =? as_u64 (prev_pc + width)) |>);;
  self_upd (capture_transitions prev_pc prev_raw);;
  self_upd count_cycle;;
  delivered ← on_self (get Sup.trap_delivered);
  match status with
  | StTrap trap => if (delivered : bool) then mret status else on_self (take_trap trap)
  | _ => mret status
  end.

(** Debug recorder of the pcs in three kernel windows. *)
Definition in_window (pc : Z) : bool :=
  ((0xFFFFFFFF80200000 <=? pc) && (pc <? 0xFFFFFFFF80240000))
  || ((0xFFFFFFFF80A00000 <=? pc) && (pc <? 0xFFFFFFFF80B00000))
  || ((0xFFFFFFFF80F00000 <=? pc) && (pc <? 0xFFFFFFFF81200000)).

Definition record_pc_set (s : Sup.t) : Sup.t :=
  let pc := Cpu.pc (Sup.cpu s) in
  Sup.upd_diag (λ d,
    if Diag.trace_enabled d && in_window pc then
      let n := Diag.dbg_pc_set_n d in
      let found := existsb (Z.eqb pc) (take (Z.to_nat n) (Diag.dbg_pc_set d)) in
      if negb found && (n <? 64) then
        let d := d <| Diag.dbg_pc_set := <[Z.to_nat n := pc]> (Diag.dbg_pc_set d) |> in
        d <| Diag.dbg_pc_set_n := n + 1 |>
      else d
    else d) s.

(** The ring snapshot of a fetch fault on a physical kernel address. *)
Definition capture_phys_fault (s : Sup.t) : Sup.t :=
  let pc := Cpu.pc (Sup.cpu s) in
  if (Satp.mode (Sup.satp s) =? 8) && (0x80000000 <=? pc) && (pc <? 0x82000000) then
    Sup.upd_diag (λ d,
      let d := d <| Diag.phys_fault_pc := pc |> in
      let d := d <| Diag.phys_fault_ring :=
        (λ k, Diag.pc_trace d !!!
                Z.to_nat (as_usize (Diag.pc_trace_idx d + Z.of_nat k) mod 1024)) <$> seq 0 1024 |> in
      d <| Diag.phys_fault_captured := true |>) s
  else s.

Definition poll_devices : SM unit :=
  n ← on_self (get Sup.int_sync_countdown);
  if n =? 0 then
    self_upd (λ s, s <| Sup.int_sync_countdown := INT_SYNC_INTERVAL |>);;
    sync_device_interrupts
  else self_upd (λ s, s <| Sup.int_sync_countdown := n - 1 |>).

Definition set_last_raw (raw : Z) (s : Sup.t) : Sup.t := s <| Sup.last_fetched_raw := raw |>.
Definition set_last_half (half : Z) (s : Sup.t) : Sup.t :=
  Sup.upd_diag (λ d, d <| Diag.last_fetch_half := half |>) s.

(** [self.dcache[dc_idx] = Some((paddr, instr, width, self.last_fetched_raw));
    self.finish_step(instr, width, bus)] *)
Definition cache_and_finish (idx paddr : Z) (i : Instr) (width : Z) : SM Status :=
  self_upd (λ s, s <| Sup.dcache :=
    <[idx := Decoded.mk paddr i width (Sup.last_fetched_raw s)]> (Sup.dcache s) |>);;
  finish_step i width.

(** The decode-cache miss path. *)
Definition decode_miss (idx paddr : Z) : SM Status :=
  half ← on_dev (read_u16 paddr);
  self_upd (set_last_half half);;
  if negb (Z.land half 3 =? 3) then
    match decompress half with
    | Some ins => self_upd (set_last_raw half);; cache_and_finish idx paddr ins 2
    | None =>
        r ← fetch_upper_half paddr;
        let hi := match r with Ok h => h | Err _ => 0 end in
        let raw := join_halves hi half in
        self_upd (Sup.upd_diag (λ d, d <| Diag.last_decode_fail_raw := raw |>));;
        self_upd (set_last_raw raw);;
        self_upd (λ s, Sup.upd_diag (λ d,
          d <| Diag.last_decode_fail_pc := Cpu.pc (Sup.cpu s) |>) s);;
        illegal_trap
    end
  else
    r ← fetch_upper_half paddr;
    match r with
    | Err trap =>
        pc ← on_self (get (λ s, Cpu.pc (Sup.cpu s)));
        on_self (take_trap_with_vaddr trap (Some (as_u64 (pc + 2))))
    | Ok hi =>
        let raw := join_halves hi half in
        self_upd (set_last_raw raw);;
        cache_and_finish idx paddr (decode raw) 4
    end.

Definition step : SM Status :=
  self_upd (λ s, s <| Sup.trap_delivered := false |>);;
  poll_devices;;
  irq ← on_self (get check_interrupts);
  match irq with
  | Some trap => on_self (take_trap trap)
  | None =>
      self_upd record_pc_set;;
      pc ← on_self (get (λ s, Cpu.pc (Sup.cpu s)));
      r ← fetch_translate pc;
      match r with
      | Err trap =>
          self_upd capture_phys_fault;;
          pc ← on_self (get (λ s, Cpu.pc (Sup.cpu s)));
          on_self (take_trap_with_vaddr trap (Some pc))
      | Ok paddr =>
          self_upd (Sup.upd_diag (λ d, d <| Diag.last_fetch_paddr := paddr |>));;
          let idx := Z.land (as_usize (Z.shiftr paddr 1)) (DCACHE_LEN - 1) in
          cached ← on_self (get (λ s, Sup.dcache s !! idx));
          match cached with
          | Some e =>
              if Decoded.tag e =? paddr then
                self_upd (set_last_raw (Decoded.raw e));;
                self_upd (set_last_half (as_u16 (Decoded.raw e)));;
                finish_step (Decoded.instr e) (Decoded.width e)
              else decode_miss idx paddr
          | None => decode_miss idx paddr
          end
      end
  end.

(** * Floating point for compiled code *)

(** [kind]: 0 fld, 1 flw, 2 fsd, 3 fsw, otherwise arithmetic with [arg] the raw
    encoding; [true] asks the interpreter to re-run the instruction. *)
Definition fp_jit_addr (r2 arg : Z) : SM Z :=
  a ← rd_reg r2; mret (as_u64 (as_i64 (as_i64 a + as_i64 arg))).

Definition fp_jit_load (r1 r2 arg : Z) (read : Z → M B Z) (box : Z → Z) : SM bool :=
  vaddr ← fp_jit_addr r2 arg;
  r ← translate Load vaddr;
  match r with
  | Ok paddr =>
      v ← on_dev (read paddr);
      cpu_op (Cpu.write_freg r1 (box v));;
      cpu_op (modify (λ c, c <| Cpu.fs_dirty := true |>));;
      mret false
  | Err _ => mret true
  end.

Definition fp_jit_store (r1 r2 arg : Z) (write : Z → Z → M B unit) (trunc : Z → Z) : SM bool :=
  vaddr ← fp_jit_addr r2 arg;
  r ← translate Store vaddr;
  match r with
  | Ok paddr =>
      v ← on_self (get (λ s, Cpu.read_freg (Sup.cpu s) r1));
      on_dev (write paddr (trunc v));;
      mret false
  | Err _ => mret true
  end.

Definition fp_jit (kind r1 r2 arg : Z) : SM bool :=
  s ← on_self (get id);
  if MStatus.fs (Sup.mstatus s) =? 0 then mret true
  else
    bail ←
      (if kind =? 0 then fp_jit_load r1 r2 arg read_u64 id
       else if kind =? 1 then fp_jit_load r1 r2 arg read_u32 (Z.lor 0xFFFFFFFF00000000)
       else if kind =? 2 then fp_jit_store r1 r2 arg write_u64 id
       else if kind =? 3 then fp_jit_store r1 r2 arg write_u32 as_u32
       else
         r ← cpu_op (fpu_execute (as_u32 arg));
         if negb (ok r) then mret true
         else
           cpu_op (modify (λ c, c <| Cpu.fcsr := Z.lor (Cpu.fcsr c) (flags r) |>));;
           cpu_op (modify (λ c, c <| Cpu.fs_dirty := Cpu.fs_dirty c || dirty r |>));;
           mret false);
    if (bail : bool) then mret true
    else self_upd settle_fs;; mret false.

Definition fs_is_dirty (s : Sup.t) : bool := MStatus.fs (Sup.mstatus s) =? 3.
End Ops.
End Supervisor.
