(* ===== verification/SupSafe.v ===== *)
(** Safety of the supervisor layer: the invariant of [Sup.t], that every
    operation of [step] keeps it, and that [step] returns, over any bus that
    meets [BusOk]. *)

From S2P Require Import Prelude Keeps Bits Types Decode Compressed SupTypes State Cpu Fpu.
From S2P Require Import Execute Mmu MmuSafe Sbi SupState SupTrap SupCsr Supervisor.

(** * The invariant *)

(** A cached decode is of a well-formed instruction, at its own index. *)
Definition decoded_ok (i : Z) (e : Decoded.t) : Prop :=
  instr_wf (Decoded.instr e) ∧ (Decoded.width e = 2 ∨ Decoded.width e = 4).

Record sup_wf (s : Sup.t) : Prop := {
  wf_cpu : Cpu.wf (Sup.cpu s);
  wf_mmu : tlb_shape (Sup.mmu s);
  wf_mstatus : MStatus.wf (Sup.mstatus s);
  wf_satp : Satp.wf (Sup.satp s);
  wf_mie : urange 64 (Sup.mie s);
  wf_mip : urange 64 (Sup.mip s);
  wf_mtvec : urange 64 (Sup.mtvec s);
  wf_mepc : urange 64 (Sup.mepc s);
  wf_mcause : urange 64 (Sup.mcause s);
  wf_mtval : urange 64 (Sup.mtval s);
  wf_mscratch : urange 64 (Sup.mscratch s);
  wf_medeleg : urange 64 (Sup.medeleg s);
  wf_mideleg : urange 64 (Sup.mideleg s);
  wf_stvec : urange 64 (Sup.stvec s);
  wf_sepc : urange 64 (Sup.sepc s);
  wf_scause : urange 64 (Sup.scause s);
  wf_stval : urange 64 (Sup.stval s);
  wf_sscratch : urange 64 (Sup.sscratch s);
  wf_stimecmp : urange 64 (Sup.stimecmp s);
  wf_mcycle : urange 64 (Sup.mcycle s);
  wf_minstret : urange 64 (Sup.minstret s);
  wf_mhartid : urange 64 (Sup.mhartid s);
  wf_pmpcfg : length (Sup.pmpcfg s) = 16%nat ∧ Forall (urange 64) (Sup.pmpcfg s);
  wf_pmpaddr : length (Sup.pmpaddr s) = 64%nat ∧ Forall (urange 54) (Sup.pmpaddr s);
  wf_countdown : 0 <= Sup.int_sync_countdown s <= INT_SYNC_INTERVAL;
  wf_gens : urange 32 (Sup.trans_gen s) ∧ urange 32 (Sup.data_trans_gen s)
            ∧ urange 32 (Sup.asid_gen_next s) ∧ urange 32 (Sup.icache_gen s);
  wf_asid_tbl : length (Sup.asid_tbl s) = 128%nat
                ∧ Forall (λ e, urange 32 (AsidSlot.trans_gen e)
                               ∧ urange 32 (AsidSlot.data_trans_gen e)) (Sup.asid_tbl s);
  wf_gen_bump : length (Sup.gen_bump s) = 4%nat;
  wf_pending : length (Sup.pending_flush s) = 8%nat;
  wf_pending_n : 0 <= Sup.pending_flush_n s <= 8;
  wf_dcache : map_Forall decoded_ok (Sup.dcache s);
}.

(** Rebuild the invariant after a field update; the changed fields remain. *)
Ltac wf_upd :=
  intros; match goal with H : sup_wf _ |- _ => destruct H end; constructor; cbn; try assumption.

Lemma sup_new_wf pc hartid : urange 64 pc → urange 64 hartid → sup_wf (Sup.new pc hartid).
Proof.
  intros Hpc Hh. constructor; try done.
  - by apply Cpu.new_wf.
  - split; [by left|]. by unfold urange.
  - split; [done|]. apply Forall_replicate. by unfold urange.
  - split; [done|]. apply Forall_replicate. by unfold urange.
  - split; [done|]. apply Forall_replicate. by unfold urange.
Qed.

(** * Pure updates *)

Create HintDb sup.
#[local] Hint Resolve wf_cpu wf_mmu wf_mstatus wf_satp wf_mie wf_mip wf_mtvec wf_mepc wf_mcause
  wf_mtval wf_mscratch wf_medeleg wf_mideleg wf_stvec wf_sepc wf_scause wf_stval wf_sscratch
  wf_stimecmp wf_mcycle wf_minstret wf_mhartid : sup.

Lemma even_range v : urange 64 v → urange 64 (even v).
Proof. intros. by apply urange_land_l. Qed.
Lemma clear_bit_range v k : urange 64 v → urange 64 (clear_bit v k).
Proof. intros. by apply urange_land_l. Qed.
Lemma or_bit_range v k : urange 64 v → 0 <= k < 64 → urange 64 (or_bit v k).
Proof.
  intros Hv Hk. apply urange_lor; [lia|done|]. unfold urange. rewrite Z.shiftl_1_l.
  pose proof (Z.pow_pos_nonneg 2 k). pose proof (Z.pow_lt_mono_r 2 k 64). lia.
Qed.
#[local] Hint Resolve even_range clear_bit_range or_bit_range : sup.

Lemma diag_wf f s : sup_wf s → sup_wf (Sup.upd_diag f s).
Proof. wf_upd. Qed.
Lemma set_cpu_wf c s : Cpu.wf c → sup_wf s → sup_wf (s <| Sup.cpu := c |>).
Proof. intros Hc. wf_upd. Qed.
Lemma set_mmu_wf m s : tlb_shape m → sup_wf s → sup_wf (s <| Sup.mmu := m |>).
Proof. intros Hm. wf_upd. Qed.
Lemma set_mstatus_wf m s : MStatus.wf m → sup_wf s → sup_wf (s <| Sup.mstatus := m |>).
Proof. intros Hm. wf_upd. Qed.
Lemma set_mip_wf v s : urange 64 v → sup_wf s → sup_wf (s <| Sup.mip := v |>).
Proof. intros Hv. wf_upd. Qed.
Lemma set_mie_wf v s : urange 64 v → sup_wf s → sup_wf (s <| Sup.mie := v |>).
Proof. intros Hv. wf_upd. Qed.
#[local] Hint Resolve diag_wf set_cpu_wf set_mmu_wf set_mstatus_wf set_mip_wf set_mie_wf : sup.

Lemma sup_pc_wf v s : urange 64 v → sup_wf s → sup_wf (set_pc v s).
Proof. intros Hv Hs. apply set_cpu_wf; [|done]. apply Cpu.set_pc_wf; auto with sup. Qed.
#[local] Hint Resolve sup_pc_wf : sup.

Lemma set_mip_bit_wf k on s : 0 <= k < 64 → sup_wf s → sup_wf (set_mip_bit k on s).
Proof. intros Hk Hs. apply set_mip_wf; [|done]. destruct on; auto with sup. Qed.

Lemma clear_pending_wf t s : sup_wf s → sup_wf (clear_pending t s).
Proof. intros Hs. destruct t as [|[]]; cbn [clear_pending]; auto 10 with sup. Qed.
#[local] Hint Resolve clear_pending_wf : sup.

Lemma trap_cause_range t : urange 64 (trap_cause t).
Proof. destruct t as [[]|[]]; by unfold urange. Qed.

Lemma trap_tval_range t fv :
  match fv with Some v => urange 64 v | None => True end → urange 64 (trap_tval t fv).
Proof. intros Hv. unfold trap_tval. destruct (is_page_fault t), fv; try done; by unfold urange. Qed.

Definition fault_ok (fv : option Z) : Prop :=
  match fv with Some v => urange 64 v | None => True end.

Lemma priv_code_range p : urange 2 (priv_code p).
Proof. destruct p; by unfold urange. Qed.

Lemma trap_to_s_wf t fv s : fault_ok fv → sup_wf s → sup_wf (trap_to_s t fv s).
Proof.
  intros Hv Hs. pose proof (trap_cause_range t). pose proof (trap_tval_range t fv Hv).
  pose proof (Cpu.wf_pc _ (wf_cpu _ Hs)). unfold trap_to_s. cbv zeta.
  apply clear_pending_wf, sup_pc_wf; [apply even_range; exact (wf_stvec _ Hs)|].
  apply diag_wf. revert Hs. wf_upd.
Qed.

Lemma trap_to_m_wf t fv s : fault_ok fv → sup_wf s → sup_wf (trap_to_m t fv s).
Proof.
  intros Hv Hs. pose proof (trap_cause_range t). pose proof (trap_tval_range t fv Hv).
  pose proof (Cpu.wf_pc _ (wf_cpu _ Hs)). unfold trap_to_m. cbv zeta.
  apply sup_pc_wf; [apply even_range; exact (wf_mtvec _ Hs)|].
  apply diag_wf. revert Hs. wf_upd. unfold MStatus.wf in *. cbn. destruct_and!.
  split_and!; try done. apply priv_code_range.
Qed.

Lemma vector_pc_wf c s : sup_wf s → sup_wf (vector_pc c s).
Proof.
  intros Hs. unfold vector_pc. cbv zeta. split_ifs; try done; apply sup_pc_wf; try done;
    apply wrap_range; lia.
Qed.

Lemma return_to_wf `{Target} v s : urange 64 v → sup_wf s → sup_wf (return_to v s).
Proof.
  intros Hv Hs. unfold return_to. cbv zeta. apply sup_pc_wf; [done|].
  destruct (_ && _); [by apply diag_wf|done].
Qed.

Lemma sup_fcsr_wf v s : urange 64 v → sup_wf s → sup_wf (set_fcsr v s).
Proof.
  intros Hv Hs. unfold set_fcsr. cbv zeta. apply set_mstatus_wf.
  - cbn. pose proof (wf_mstatus _ Hs) as Hm. unfold MStatus.wf in *. cbn. destruct_and!.
    by split_and!.
  - apply set_cpu_wf; [|done]. apply Cpu.set_fcsr_wf; auto with sup.
Qed.

Lemma invalidate_wf s : sup_wf s → sup_wf (Sup.invalidate_all_spaces s).
Proof.
  wf_upd.
  - split_and!; try (apply wrap_range; lia). by destruct_and!.
  - destruct_and!. rewrite length_fmap. split; [done|]. apply Forall_fmap, Forall_true.
    intros ?. by unfold urange.
Qed.

Lemma dcache_flush_wf s : sup_wf s → sup_wf (Sup.dcache_flush s).
Proof.
  intros Hs. apply invalidate_wf in Hs. unfold Sup.dcache_flush. cbv zeta. revert Hs.
  generalize (Sup.invalidate_all_spaces s). intros s'. wf_upd.
  - destruct_and!. split_and!; try done. apply wrap_range. lia.
  - apply map_Forall_empty.
Qed.

Lemma asid_index_range v : (Z.to_nat (Sup.asid_index v) < 128)%nat.
Proof.
  unfold Sup.asid_index, ASID_SLOTS. cbv zeta. change (128 - 1) with (Z.ones 7).
  rewrite Z.land_ones by lia.
  match goal with |- context [?a mod _] => pose proof (Z.mod_pos_bound a (2 ^ 7)) end. lia.
Qed.

Lemma set_gens_wf g d s :
  urange 32 g → urange 32 d → sup_wf s →
  sup_wf (s <| Sup.trans_gen := g |> <| Sup.data_trans_gen := d |>).
Proof. intros Hg Hd. wf_upd. destruct_and!. by split_and!. Qed.

Lemma switch_wf old new s : sup_wf s → sup_wf (Sup.switch_address_space old new s).
Proof.
  intros Hs. unfold Sup.switch_address_space. cbn [negb ASID_KEYED]. cbv zeta.
  set (s1 := s <| Sup.asid_tbl := _ |>).
  assert (H1 : sup_wf s1).
  { unfold s1. revert Hs. wf_upd. destruct_and!. rewrite length_insert. split; [done|].
    by apply Forall_insert. }
  clearbody s1. destruct (_ =? _).
  - destruct (wf_asid_tbl _ H1) as [Hl Hf].
    destruct (lookup_lt_is_Some_2 (Sup.asid_tbl s1) (Z.to_nat (Sup.asid_index new))) as [e E].
    { rewrite Hl. apply asid_index_range. }
    rewrite (list_lookup_total_correct _ _ _ E).
    destruct (Forall_lookup_1 _ _ _ _ Hf E). by apply set_gens_wf.
  - revert H1. wf_upd. destruct_and!. split_and!; try (apply wrap_range; lia). done.
Qed.

(** * Operations on the supervisor alone *)

Section Self.
Context {PR : Profile} {TG : Target} (P : Prop) (HP : overflow_checks = true → P).
Abbreviation skeeps := (keeps P sup_wf).

Lemma skeeps_upd f : (∀ s, sup_wf s → sup_wf (f s)) → skeeps (modify f) (λ _, True).
Proof. apply keeps_modify. Qed.

Lemma skeeps_any {A} (f : Sup.t → A) : skeeps (get f) (λ _, True).
Proof. by apply keeps_get. Qed.

Lemma skeeps_add w x y : 0 <= w → skeeps (lift (add_u w x y)) (urange w).
Proof. intros Hw. by apply keeps_checked. Qed.

Lemma snapshot_safe t : skeeps (snapshot_irq_regs t) (λ _, True).
Proof.
  unfold snapshot_irq_regs. eapply keeps_bind; [apply skeeps_any|]. intros d _.
  destruct (_ && _); [|by apply keeps_ret]. eapply keeps_bind; [by apply skeeps_add|]. intros n _.
  apply keeps_seq; apply keeps_modify; intros; by apply diag_wf.
Qed.

Lemma take_trap_with_vaddr_safe t fv :
  fault_ok fv → skeeps (take_trap_with_vaddr t fv) (λ st, st = StTrap t).
Proof.
  intros Hv. unfold take_trap_with_vaddr. apply keeps_seq; [apply keeps_modify; wf_upd|].
  eapply keeps_bind; [apply skeeps_any|]. intros to_s _.
  apply keeps_seq; [destruct to_s|].
  - apply keeps_seq; [apply snapshot_safe|]. apply keeps_modify. intros. by apply trap_to_s_wf.
  - apply keeps_modify. intros. by apply trap_to_m_wf.
  - apply keeps_seq; [apply keeps_modify; apply vector_pc_wf|].
    apply keeps_seq; [apply keeps_modify; wf_upd|]. by apply keeps_ret.
Qed.

Lemma take_trap_safe t : skeeps (take_trap t) (λ st, st = StTrap t).
Proof. by apply take_trap_with_vaddr_safe. Qed.

Lemma mstatus_flags_wf m s :
  sup_wf s → MStatus.sxl m = MStatus.sxl (Sup.mstatus s) → MStatus.uxl m = MStatus.uxl (Sup.mstatus s) →
  MStatus.xs m = MStatus.xs (Sup.mstatus s) → MStatus.fs m = MStatus.fs (Sup.mstatus s) →
  urange 2 (MStatus.mpp m) → MStatus.vs m = MStatus.vs (Sup.mstatus s) → MStatus.wf m.
Proof.
  intros Hs. pose proof (wf_mstatus _ Hs) as Hm. unfold MStatus.wf in *. intros -> -> -> -> ? ->.
  destruct_and!. by split_and!.
Qed.

Lemma set_priv_wf p s : sup_wf s → sup_wf (s <| Sup.priv_level := p |>).
Proof. wf_upd. Qed.

Lemma do_mret_safe : skeeps do_mret (λ st, st = Running).
Proof.
  unfold do_mret. apply keeps_seq; [|by apply keeps_ret]. apply keeps_modify. intros s Hs. cbv zeta.
  apply return_to_wf; [apply even_range; exact (wf_mepc _ Hs)|]. apply set_priv_wf.
  apply set_mstatus_wf; [|done]. by apply (mstatus_flags_wf _ s).
Qed.

Lemma check_irq_return_safe : skeeps check_irq_return (λ _, True).
Proof.
  unfold check_irq_return. eapply keeps_bind; [apply skeeps_any|]. intros s _. cbv zeta.
  assert (Hd : ∀ f, skeeps (modify (Sup.upd_diag f)) (λ _, True)).
  { intros f. apply keeps_modify. intros. by apply diag_wf. }
  destruct (Diag.check_irq_regs _); [|by apply keeps_ret].
  destruct (Diag.irq_mismatch _); [by apply keeps_ret|].
  destruct (Diag.irq_snapshot _) as [[[[sepc ppn] sp] regs]|]; [|by apply keeps_ret].
  apply keeps_seq; [|apply Hd]. destruct (_ && _); [|by apply keeps_ret].
  eapply keeps_bind; [by apply skeeps_add|]. intros n _.
  apply keeps_seq; [apply Hd|]. destruct (first_mismatch _ _); [apply Hd|by apply keeps_ret].
Qed.

Lemma do_sret_safe : skeeps do_sret (λ st, st = Running).
Proof.
  unfold do_sret. apply keeps_seq; [apply check_irq_return_safe|].
  apply keeps_seq; [|by apply keeps_ret]. apply keeps_modify. intros s Hs. cbv zeta.
  apply return_to_wf; [apply even_range; exact (wf_sepc _ Hs)|]. apply set_priv_wf.
  apply set_mstatus_wf; [|done]. apply (mstatus_flags_wf _ s); try done.
  pose proof (wf_mstatus _ Hs) as Hm. unfold MStatus.wf in Hm. by destruct_and!.
Qed.

Lemma csr_get_range s csr : sup_wf s → urange 64 (csr_get s csr).
Proof.
  intros Hs. pose proof (Cpu.wf_fcsr _ (wf_cpu _ Hs)) as Hf. unfold csr_get.
  assert (Hp : ∀ l w n, w <= 64 → 0 <= w → Forall (urange w) l → urange 64 (l !!! n)).
  { intros l w n Hw Hw0 Hl. destruct (decide (n < length l)%nat).
    - apply (urange_weaken w); [lia|]. by apply Cpu.lookup_total_range.
    - rewrite list_lookup_total_alt, lookup_ge_None_2 by lia. by unfold urange. }
  repeat (case_match; [first
    [ by eauto with sup
    | by unfold urange
    | apply mstatus_to_range
    | apply satp_to_range
    | apply (Hp _ 64); [lia|lia|apply (wf_pmpcfg _ Hs)]
    | apply (Hp _ 54); [lia|lia|apply (wf_pmpaddr _ Hs)]
    | (apply urange_land_l; [lia|]); auto with sup;
      apply (urange_shiftr 64 64); auto with ints; lia ]|]).
  by unfold urange.
Qed.

Lemma note_epc_wf v s : sup_wf s → sup_wf (note_epc v s).
Proof. intros Hs. unfold note_epc. destruct (_ && _); [by apply diag_wf|done]. Qed.

Lemma write_satp_safe v : urange 64 v → skeeps (write_satp v) (λ _, True).
Proof.
  intros Hv. unfold write_satp. eapply keeps_bind; [apply skeeps_any|]. intros old _.
  apply keeps_seq; [apply keeps_modify; wf_upd; by apply satp_from_wf|].
  destruct (negb _); [|by apply keeps_ret].
  eapply keeps_bind; [apply skeeps_any|]. intros g _.
  eapply keeps_bind; [by apply skeeps_add|]. intros n _.
  apply keeps_seq; [apply keeps_modify; wf_upd; by rewrite length_insert|].
  apply keeps_seq; [apply keeps_modify|].
  { intros s Hs. apply set_mmu_wf; [|done]. apply tlb_shape_flush, Hs. }
  apply keeps_seq; [apply keeps_modify; wf_upd|]. apply keeps_modify. intros. by apply switch_wf.
Qed.

Lemma merge_range a b m n :
  urange 64 a → urange 64 b → urange 64 (Z.lor (Z.land a m) (Z.land b n)).
Proof. intros. apply urange_lor; [lia|by apply urange_land_l..]. Qed.

Lemma csr_write_safe csr v : urange 64 v → skeeps (csr_write csr v) (λ _, True).
Proof.
  intros Hv. unfold csr_write.
  repeat match goal with |- keeps _ _ (if ?c then _ else _) _ => destruct c end;
    try (by apply keeps_ret);
    try (by apply write_satp_safe); apply keeps_modify; intros s Hs;
    try (revert Hs; wf_upd; fail).
  - apply sup_fcsr_wf; [|done]. apply merge_range; [apply (wf_cpu _ Hs)|done].
  - apply sup_fcsr_wf; [|done]. apply urange_lor; [lia|apply urange_land_l; [lia|apply (wf_cpu _ Hs)]|].
    apply (urange_weaken 8); [lia|]. pose proof (land_ones_range 3 v 0x7 ltac:(lia) eq_refl) as H.
    unfold urange in *. rewrite Z.shiftl_mul_pow2 by lia. lia.
  - apply sup_fcsr_wf; [|done]. by apply urange_land_l.
  - apply set_mstatus_wf; [|done]. pose proof (mstatus_from_wf v) as H.
    unfold MStatus.wf in *. cbn -[MStatus.from_bits]. destruct_and!. by split_and!.
  - apply note_epc_wf. revert Hs. wf_upd.
  - revert Hs. wf_upd. destruct_and!. rewrite length_insert. split; [done|]. by apply Forall_insert.
  - revert Hs. wf_upd. destruct_and!. rewrite length_insert. split; [done|].
    apply Forall_insert; [done|]. field_range.
  - apply set_mstatus_wf; [|done]. apply mstatus_from_wf.
  - apply set_mie_wf; [|done]. apply merge_range; [apply Hs|done].
  - apply note_epc_wf. revert Hs. wf_upd.
  - apply set_mip_wf; [|done]. apply merge_range; [apply Hs|done].
Qed.
End Self.

(** * Operations on the supervisor and the bus *)

(** An update of diagnostics only. *)
Ltac diag_only := intros; by apply diag_wf.

Section Machine.
Context {B : Type} {BU : Bus B} {PR : Profile} {TG : Target} {L : Libm} (P : Prop).
Context {BO : BusOk P B} {LO : LibmOk} (HP : overflow_checks = true → P).

Definition machine_inv (s : Sup.t * B) : Prop := sup_wf s.1 ∧ bus_inv s.2.
Abbreviation bkeeps := (keeps P machine_inv).

Lemma bkeeps_self {A} (m : M Sup.t A) R : keeps P sup_wf m R → bkeeps (on_self m) R.
Proof. apply keeps_on_fst. Qed.

Lemma bkeeps_upd f : (∀ s, sup_wf s → sup_wf (f s)) → bkeeps (self_upd f) (λ _, True).
Proof. intros Hf. by apply bkeeps_self, keeps_modify. Qed.

Lemma bkeeps_diag f : bkeeps (self_upd (Sup.upd_diag f)) (λ _, True).
Proof. apply bkeeps_upd. intros. by apply diag_wf. Qed.

Lemma bkeeps_get {A} (f : Sup.t → A) R : (∀ s, sup_wf s → R (f s)) → bkeeps (on_self (get f)) R.
Proof. intros. by apply bkeeps_self, keeps_get. Qed.

Lemma bkeeps_any {A} (f : Sup.t → A) : bkeeps (on_self (get f)) (λ _, True).
Proof. by apply bkeeps_get. Qed.

Lemma bkeeps_add w x y : 0 <= w → bkeeps (on_self (lift (add_u w x y))) (urange w).
Proof. intros. by apply bkeeps_self, keeps_checked. Qed.

Lemma bkeeps_dev {A} (m : M B A) R : (∀ b, bus_inv b → wp P m (λ a b', R a ∧ bus_inv b') b) →
  bkeeps (on_dev m) R.
Proof. intros Hm. by apply keeps_on_snd. Qed.

Lemma bkeeps_write (m : M B unit) : (∀ b, bus_inv b → wp P m (λ _ b', bus_inv b') b) →
  bkeeps (on_dev m) (λ _, True).
Proof. intros Hm. apply bkeeps_dev. intros b Hb. eapply wp_mono; [by apply Hm|]. done. Qed.

Lemma bkeeps_skip : bkeeps (mret tt) (λ _, True).
Proof. by apply keeps_ret. Qed.

Lemma rd_reg_safe i : bkeeps (Supervisor.rd_reg i) (urange 64).
Proof. apply bkeeps_get. intros s Hs. apply Cpu.read_reg_range, Hs. Qed.

Lemma cpu_op_safe {A} (m : M Cpu.t A) R :
  keeps P Cpu.wf m R → bkeeps (Supervisor.cpu_op m) R.
Proof.
  intros Hm. apply bkeeps_self. apply (keeps_zoom _ _ Cpu.wf); [done|apply wf_cpu|].
  intros s c Hs Hc. by apply set_cpu_wf.
Qed.

Lemma write_reg_safe i v : reg i → urange 64 v → bkeeps (Supervisor.cpu_op (Cpu.write_reg i v)) (λ _, True).
Proof.
  intros Hi Hv. apply cpu_op_safe. intros c Hc. unfold reg, urange in Hi. unfold wp.
  rewrite Cpu.write_reg_eq by lia. split; [done|]. apply Cpu.set_reg_wf; [done|lia|done].
Qed.

Lemma advance_safe w : bkeeps (Supervisor.cpu_op (Cpu.advance w)) (λ _, True).
Proof.
  apply cpu_op_safe, keeps_modify. intros c Hc. apply Cpu.set_pc_wf; [done|]. apply wrap_range. lia.
Qed.

Lemma retired_safe w : bkeeps (Supervisor.retired w) (λ _, True).
Proof. apply keeps_seq; [apply advance_safe|]. by apply keeps_ret. Qed.

Lemma trap_safe t fv : fault_ok fv → bkeeps (on_self (take_trap_with_vaddr t fv)) (λ _, True).
Proof.
  intros. apply bkeeps_self. eapply keeps_mono; [by apply take_trap_with_vaddr_safe|]. done.
Qed.

Lemma sync_safe : bkeeps sync_device_interrupts (λ _, True).
Proof.
  unfold sync_device_interrupts. eapply (keeps_bind _ _ _ _ (λ _, True)).
  { apply bkeeps_dev. intros b Hb. eapply wp_mono; [by apply timer_ok|]. done. }
  intros t _. eapply (keeps_bind _ _ _ _ (λ _, True)).
  { destruct t; [by apply keeps_ret|]. eapply (keeps_bind _ _ _ _ (λ _, True)).
    { apply bkeeps_dev. intros b Hb. eapply wp_mono; [by apply mtime_ok|]. by intros ?? [??]. }
    intros now _. eapply keeps_bind; [apply bkeeps_any|]. intros c _. by apply keeps_ret. }
  intros fired _. apply keeps_seq; [apply bkeeps_upd; intros; by apply set_mip_bit_wf|].
  eapply (keeps_bind _ _ _ _ (λ _, True)).
  { apply bkeeps_dev. intros b Hb. eapply wp_mono; [by apply external_ok|]. done. }
  intros e _. apply bkeeps_upd. intros. by apply set_mip_bit_wf.
Qed.

(** ** CSRs *)

Lemma csr_read_safe csr : bkeeps (csr_read csr) (urange 64).
Proof.
  unfold csr_read. destruct (_ =? _).
  - eapply (keeps_bind _ _ _ _ (urange 64)).
    { apply bkeeps_dev. intros b Hb. by apply mtime_ok. }
    intros v Hv. apply keeps_seq; [apply bkeeps_diag|].
    eapply keeps_bind; [apply bkeeps_any|]. intros n _.
    eapply keeps_bind; [by apply bkeeps_add|]. intros n' _.
    apply keeps_seq; [apply bkeeps_diag|]. by apply keeps_ret.
  - apply bkeeps_get. intros s Hs. by apply csr_get_range.
Qed.

Lemma csr_op_safe csr rd rs1 v read clear w :
  reg rd → urange 64 v → bkeeps (csr_op csr rd rs1 v read clear w) (λ _, True).
Proof.
  intros Hr Hv. unfold csr_op. eapply keeps_bind; [apply bkeeps_any|]. intros s _.
  destruct (_ <? _); [by apply trap_safe|]. destruct (tvm_traps _ _); [by apply trap_safe|].
  cbv zeta. destruct (_ && _); [by apply trap_safe|].
  eapply keeps_bind; [apply csr_read_safe|]. intros old Ho.
  apply keeps_seq.
  - destruct (_ || _); [|by apply keeps_ret]. apply bkeeps_self, csr_write_safe; [done|].
    destruct clear; [by apply urange_land_l|]. destruct read; [by apply urange_lor|done].
  - apply keeps_seq; [by apply write_reg_safe|]. apply retired_safe.
Qed.

(** ** Translation *)

Lemma on_mmu_safe {A} (m : M (Mmu.t * B) A) R :
  keeps P (mmu_inv P) m R → bkeeps (Supervisor.on_mmu m) R.
Proof.
  intros Hm. apply (keeps_zoom _ _ (mmu_inv P)); [done| |].
  - intros s [Hs Hb]. split; [apply Hs|done].
  - intros s t [Hs _] [Ht Hb]. split; [by apply set_mmu_wf|done].
Qed.

Lemma on_hart_safe {A} (m : M (Cpu.t * B) A) R :
  keeps P (λ s, Cpu.wf s.1 ∧ bus_inv s.2) m R → bkeeps (Supervisor.on_hart m) R.
Proof.
  intros Hm. apply (keeps_zoom _ _ (λ s, Cpu.wf s.1 ∧ bus_inv s.2)); [done| |].
  - intros s [Hs Hb]. split; [apply Hs|done].
  - intros s t [Hs _] [Ht Hb]. split; [by apply set_cpu_wf|done].
Qed.

Lemma translate_safe access va :
  urange 64 va → bkeeps (Supervisor.translate access va) translated_to.
Proof.
  intros Hv. unfold Supervisor.translate. eapply keeps_bind; [apply bkeeps_any|]. intros s _.
  cbv zeta. split_ifs; try (by apply keeps_ret); by apply on_mmu_safe, mmu_translate_safe.
Qed.

Lemma fetch_cache_wf vpn p s :
  sup_wf s →
  sup_wf (s <| Sup.fetch_vpn := vpn |>) ∧ sup_wf (s <| Sup.fetch_priv := Sup.priv_level s |>)
  ∧ sup_wf (s <| Sup.fetch_ppn := p |>).
Proof. intros Hs. split_and!; revert Hs; wf_upd. Qed.

Lemma fetch_translate_safe va :
  urange 64 va → bkeeps (Supervisor.fetch_translate va) translated_to.
Proof.
  intros Hv. unfold Supervisor.fetch_translate. cbv zeta.
  eapply keeps_bind; [apply bkeeps_any|]. intros s _.
  destruct (_ && _); [apply keeps_ret; by apply offset_range|].
  eapply keeps_try; [by apply translate_safe| |done]. intros p Hp.
  do 3 (apply keeps_seq; [apply bkeeps_upd; intros; by apply fetch_cache_wf|]).
  by apply keeps_ret.
Qed.

Definition half_ok (r : Result Z Trap) : Prop :=
  match r with Ok h => urange 16 h | Err t => True end.

Lemma read_half_safe a : urange 64 a → bkeeps (on_dev (read_u16 a)) (urange 16).
Proof. intros Ha. apply bkeeps_dev. intros b Hb. by apply read_u16_ok. Qed.

Lemma fetch_upper_half_safe p : urange 64 p → bkeeps (Supervisor.fetch_upper_half p) half_ok.
Proof.
  intros Hp. unfold Supervisor.fetch_upper_half. eapply keeps_bind; [apply bkeeps_any|].
  intros pc _. destruct (negb _).
  - eapply keeps_bind; [by apply bkeeps_add|]. intros a Ha.
    eapply keeps_bind; [by apply read_half_safe|]. intros h Hh. by apply keeps_ret.
  - cbv zeta. eapply keeps_try; [apply translate_safe, wrap_range; lia| |done].
    intros q Hq. eapply keeps_bind; [by apply read_half_safe|]. intros h Hh. by apply keeps_ret.
Qed.

Lemma translated_safe access va k :
  urange 64 va → (∀ p, urange 64 p → bkeeps (k p) (λ _, True)) →
  bkeeps (Supervisor.translated access va k) (λ _, True).
Proof.
  intros Hv Hk. eapply keeps_bind; [by apply translate_safe|]. intros [p|t] Hr; [by apply Hk|].
  by apply trap_safe.
Qed.

Lemma vaddr_of_safe rs1 imm : bkeeps (Supervisor.vaddr_of rs1 imm) (urange 64).
Proof.
  eapply keeps_bind; [apply rd_reg_safe|]. intros a _. apply keeps_ret, wrap_range. lia.
Qed.
Lemma base_of_safe rs1 : bkeeps (Supervisor.base_of rs1) (urange 64).
Proof.
  eapply keeps_bind; [apply rd_reg_safe|]. intros a _. apply keeps_ret, wrap_range. lia.
Qed.

(** ** Memory instructions *)

(** A read of the bus that returns [w] bits. *)
Definition reads (w : Z) (read : Z → M B Z) : Prop :=
  ∀ a, urange 64 a → bkeeps (on_dev (read a)) (urange w).
Definition writes (w : Z) (write : Z → Z → M B unit) : Prop :=
  ∀ a v, urange 64 a → urange w v → bkeeps (on_dev (write a v)) (λ _, True).

Lemma reads_bus : reads 8 read_u8 ∧ reads 16 read_u16 ∧ reads 32 read_u32 ∧ reads 64 read_u64.
Proof.
  split_and!; intros a Ha; apply bkeeps_dev; intros b Hb;
    [by apply read_u8_ok|by apply read_u16_ok|by apply read_u32_ok|by apply read_u64_ok].
Qed.
Lemma writes_bus :
  writes 8 write_u8 ∧ writes 16 write_u16 ∧ writes 32 write_u32 ∧ writes 64 write_u64.
Proof.
  split_and!; intros a v Ha Hv; apply bkeeps_write; intros b Hb;
    [by apply write_u8_ok|by apply write_u16_ok|by apply write_u32_ok|by apply write_u64_ok].
Qed.

Lemma load_int_safe rd rs1 imm w read ext watched width :
  reg rd → reads w read → (∀ v, urange w v → urange 64 (ext v)) →
  bkeeps (Supervisor.load_int rd rs1 imm read ext watched width) (λ _, True).
Proof.
  intros Hr Hrd He. eapply keeps_bind; [apply vaddr_of_safe|]. intros va Hv.
  apply translated_safe; [done|]. intros p Hp.
  eapply keeps_bind; [by apply Hrd|]. intros v Hw.
  apply keeps_seq; [destruct watched; [apply bkeeps_upd; diag_only|apply bkeeps_skip]|].
  apply keeps_seq; [apply write_reg_safe; auto|]. apply retired_safe.
Qed.

Lemma write_freg_safe i v :
  urange 64 v → bkeeps (Supervisor.cpu_op (Cpu.write_freg i v)) (λ _, True).
Proof. intros Hv. apply cpu_op_safe, keeps_modify. intros. by apply Cpu.set_f_wf. Qed.

Lemma set_dirty_safe f :
  bkeeps (Supervisor.cpu_op (modify (λ c, c <| Cpu.fs_dirty := f c |>))) (λ _, True).
Proof. apply cpu_op_safe, keeps_modify. intros. by apply Cpu.set_fs_dirty_wf. Qed.

Lemma load_fp_safe rd rs1 imm w read box width :
  reads w read → (∀ v, urange w v → urange 64 (box v)) →
  bkeeps (Supervisor.load_fp rd rs1 imm read box width) (λ _, True).
Proof.
  intros Hrd He. eapply keeps_bind; [apply vaddr_of_safe|]. intros va Hv.
  apply translated_safe; [done|]. intros p Hp.
  eapply keeps_bind; [by apply Hrd|]. intros v Hw.
  apply keeps_seq; [apply write_freg_safe; auto|].
  apply keeps_seq; [apply set_dirty_safe|]. apply retired_safe.
Qed.

Lemma store_val_safe rs1 imm value w write watched width :
  writes w write → (∀ s, sup_wf s → urange w (value s)) →
  bkeeps (Supervisor.store_val rs1 imm value write watched width) (λ _, True).
Proof.
  intros Hw Hval. eapply keeps_bind; [apply vaddr_of_safe|]. intros va Hv.
  apply translated_safe; [done|]. intros p Hp.
  eapply keeps_bind; [by apply bkeeps_get, Hval|]. intros v Hvw.
  apply keeps_seq; [destruct watched; [apply bkeeps_upd; diag_only|apply bkeeps_skip]|].
  apply keeps_seq; [by apply Hw|]. apply retired_safe.
Qed.

Lemma amo_safe rd rs1 rs2 w read write new ret width :
  reg rd → reads w read → writes w write →
  (∀ old b, urange w old → urange 64 b → urange w (new old b)) →
  (∀ old, urange w old → urange 64 (ret old)) →
  bkeeps (Supervisor.amo rd rs1 rs2 read write new ret width) (λ _, True).
Proof.
  intros Hr Hrd Hwr Hn Hret. eapply keeps_bind; [apply base_of_safe|]. intros va Hv.
  apply translated_safe; [done|]. intros p Hp.
  eapply keeps_bind; [by apply Hrd|]. intros old Ho.
  eapply keeps_bind; [apply rd_reg_safe|]. intros b Hb.
  apply keeps_seq; [apply Hwr; auto|].
  apply keeps_seq; [apply write_reg_safe; auto|]. apply retired_safe.
Qed.

Ltac value := repeat first
  [ done | assumption | apply wrap_range; lia | apply urange_lor; [lia|..]
  | apply urange_lxor; [lia|..]
  | apply urange_land_l; [lia|] | progress split_ifs
  | lazymatch goal with H : urange ?w ?x |- urange 64 ?x => apply (urange_weaken w); [lia|exact H] end
  | by unfold urange ].

Lemma translated_load_safe i width m :
  instr_wf i → Supervisor.exec_translated_load i width = Some m → bkeeps m (λ _, True).
Proof.
  destruct reads_bus as (R8 & R16 & R32 & R64).
  intros Hi Hm; destruct i; try discriminate Hm; injection Hm as <-; destruct Hi as [Hr _].
  all: first [ eapply load_int_safe; [exact Hr| |] | eapply load_fp_safe ];
    [first [exact R8 | exact R16 | exact R32 | exact R64]|]; intros v Hv; cbn; value.
Qed.

Lemma translated_store_safe i width m :
  Supervisor.exec_translated_store i width = Some m → bkeeps m (λ _, True).
Proof.
  destruct writes_bus as (W8 & W16 & W32 & W64).
  intros Hm; destruct i; try discriminate Hm; injection Hm as <-.
  all: eapply store_val_safe; [first [exact W8 | exact W16 | exact W32 | exact W64]|];
    intros s Hs; cbn; first
      [ apply wrap_range; lia | apply Cpu.read_reg_range, Hs | apply Cpu.read_freg_range, Hs ].
Qed.

Lemma translated_amo_w_safe i width m :
  instr_wf i → Supervisor.exec_translated_amo_w i width = Some m → bkeeps m (λ _, True).
Proof.
  destruct reads_bus as (_ & _ & R32 & _). destruct writes_bus as (_ & _ & W32 & _).
  intros Hi Hm; destruct i; try discriminate Hm; injection Hm as <-; destruct Hi as [Hr _].
  all: eapply amo_safe; [exact Hr|exact R32|exact W32| |]; intros; cbn; value.
Qed.

Lemma translated_amo_d_safe i width m :
  instr_wf i → Supervisor.exec_translated_amo_d i width = Some m → bkeeps m (λ _, True).
Proof.
  destruct reads_bus as (_ & _ & _ & R64). destruct writes_bus as (_ & _ & _ & W64).
  intros Hi Hm; destruct i; try discriminate Hm; injection Hm as <-; destruct Hi as [Hr _].
  all: eapply amo_safe; [exact Hr|exact R64|exact W64| |]; intros; cbn; value.
Qed.

Lemma execute_translated_safe i width :
  instr_wf i → bkeeps (Supervisor.execute_translated i width) (λ _, True).
Proof.
  intros Hi. unfold Supervisor.execute_translated.
  destruct (Supervisor.exec_translated_load i width) eqn:E1; [by eapply translated_load_safe|].
  destruct (Supervisor.exec_translated_store i width) eqn:E2; [by eapply translated_store_safe|].
  destruct (Supervisor.exec_translated_amo_w i width) eqn:E3; [by eapply translated_amo_w_safe|].
  destruct (Supervisor.exec_translated_amo_d i width) eqn:E4; [by eapply translated_amo_d_safe|].
  by apply trap_safe.
Qed.

(** ** Privileged instructions *)

Lemma console_write_safe l s : sup_wf s → wp P (console_write l) (λ _ s', sup_wf s') s.
Proof. intros Hs. apply wp_modify. cbv zeta. revert Hs. wf_upd. Qed.

Lemma handle_ecall_safe a0 a1 a6 a7 :
  urange 64 a0 → bkeeps (handle_ecall a0 a1 a6 a7) (λ _, True).
Proof.
  intros Ha [s b] [Hs Hb]. eapply wp_mono.
  - apply (handle_ecall_ok P sup_wf); [|done..]. intros. by apply console_write_safe.
  - intros r [s' b'] (_ & _ & Hs' & Hb'). done.
Qed.

Lemma exec_sbi_safe width : bkeeps (Supervisor.exec_sbi width) (λ _, True).
Proof.
  unfold Supervisor.exec_sbi. eapply keeps_bind; [apply bkeeps_any|]. intros n _.
  eapply keeps_bind; [by apply bkeeps_add|]. intros n' _.
  do 4 (apply keeps_seq; [apply bkeeps_upd; diag_only|]).
  do 4 (eapply keeps_bind; [apply rd_reg_safe|]; intros ? ?).
  eapply keeps_bind; [by apply handle_ecall_safe|]. intros ret _.
  apply keeps_seq.
  { destruct (_ =? _); [|apply bkeeps_skip]. apply bkeeps_upd. intros s Hs.
    apply set_mie_wf; [|done]. apply or_bit_range; [apply Hs|lia]. }
  do 2 (apply keeps_seq; [apply write_reg_safe; [by unfold reg, urange|apply wrap_range; lia]|]).
  apply retired_safe.
Qed.

Lemma illegal_safe : bkeeps Supervisor.illegal_trap (λ _, True).
Proof. by apply trap_safe. Qed.

Lemma exec_ecall_safe width : bkeeps (Supervisor.exec_ecall width) (λ _, True).
Proof.
  eapply keeps_bind; [apply bkeeps_any|]. intros s _. destruct (_ && _); [apply exec_sbi_safe|].
  by apply trap_safe.
Qed.

Lemma exec_sret_safe : bkeeps Supervisor.exec_sret (λ _, True).
Proof.
  eapply keeps_bind; [apply bkeeps_any|]. intros s _. destruct (_ && _); [apply illegal_safe|].
  apply bkeeps_self. eapply keeps_mono; [by apply do_sret_safe|]. done.
Qed.

Lemma exec_wfi_safe width : bkeeps (Supervisor.exec_wfi width) (λ _, True).
Proof.
  eapply keeps_bind; [apply bkeeps_any|]. intros s _. destruct (_ && _); [apply illegal_safe|].
  apply keeps_seq; [apply sync_safe|]. apply keeps_seq; [apply bkeeps_upd; by wf_upd|].
  eapply keeps_bind; [apply bkeeps_any|]. intros [t|] _; [by apply trap_safe|].
  apply keeps_seq; [apply bkeeps_upd; wf_upd|]. apply keeps_seq; [apply advance_safe|].
  by apply keeps_ret.
Qed.

Lemma queue_flush_safe va : bkeeps (Supervisor.queue_flush va) (λ _, True).
Proof.
  unfold Supervisor.queue_flush.
  eapply (keeps_bind _ _ _ _ (λ n, 0 <= n <= 8)); [apply bkeeps_get; intros s Hs; apply Hs|].
  intros n Hn. eapply (keeps_bind _ _ _ _ (λ len, len = 8)).
  { apply bkeeps_get. intros s Hs. by rewrite (wf_pending _ Hs). }
  intros len ->. destruct (Z.ltb_spec n 8).
  - apply keeps_seq; [apply bkeeps_upd; wf_upd; by rewrite length_insert|].
    eapply (keeps_bind _ _ _ _ (λ v, v = n + 1)).
    { apply bkeeps_self, keeps_lift. unfold add_u, checked_u.
      destruct (Z.leb_spec 0 (n + 1)), (Z.ltb_spec (n + 1) (2 ^ 8)); try lia. done. }
    intros v ->. apply bkeeps_upd. wf_upd. lia.
  - apply keeps_seq; [apply bkeeps_upd; wf_upd; lia|]. apply bkeeps_upd, invalidate_wf.
Qed.

Lemma exec_sfence_safe rs1 rs2 width : bkeeps (Supervisor.exec_sfence rs1 rs2 width) (λ _, True).
Proof.
  eapply keeps_bind; [apply bkeeps_any|]. intros s _. destruct (_ && _); [apply illegal_safe|].
  apply keeps_seq.
  { unfold Supervisor.count_gen_bump. eapply keeps_bind; [apply bkeeps_any|]. intros g _.
    eapply keeps_bind; [by apply bkeeps_add|]. intros n _. apply bkeeps_upd. wf_upd.
    by rewrite length_insert. }
  apply keeps_seq; [apply bkeeps_upd; wf_upd|].
  apply keeps_seq; [apply bkeeps_upd; wf_upd; by apply tlb_shape_flush|].
  apply keeps_seq; [|apply retired_safe]. destruct (negb _).
  - eapply keeps_bind; [apply rd_reg_safe|]. intros va _. apply queue_flush_safe.
  - apply bkeeps_upd, invalidate_wf.
Qed.

Lemma exec_lr_safe rd va w read ext mask width :
  reg rd → urange 64 va → reads w read → (∀ v, urange w v → urange 64 (ext v)) →
  bkeeps (Supervisor.exec_lr rd va read ext mask width) (λ _, True).
Proof.
  intros Hr Hv Hrd He. apply translated_safe; [done|]. intros p Hp.
  eapply keeps_bind; [by apply Hrd|]. intros v Hw.
  apply keeps_seq; [apply write_reg_safe; auto|].
  apply keeps_seq; [apply bkeeps_upd; wf_upd|]. apply retired_safe.
Qed.

Lemma exec_sc_safe rd rs2 va w write trunc mask width :
  reg rd → urange 64 va → writes w write → (∀ v, urange 64 v → urange w (trunc v)) →
  bkeeps (Supervisor.exec_sc rd rs2 va write trunc mask width) (λ _, True).
Proof.
  intros Hr Hv Hwr Ht. apply translated_safe; [done|]. intros p Hp.
  eapply keeps_bind; [apply bkeeps_any|]. intros r _. apply keeps_seq.
  - destruct (bool_decide _); [|apply write_reg_safe; [done|by unfold urange]].
    eapply keeps_bind; [apply rd_reg_safe|]. intros v Hv2.
    apply keeps_seq; [apply Hwr; auto|]. apply write_reg_safe; [done|by unfold urange].
  - apply keeps_seq; [apply bkeeps_upd; wf_upd|]. apply retired_safe.
Qed.

Lemma exec_privileged_safe i width m :
  instr_wf i → Supervisor.exec_privileged i width = Some m → bkeeps m (λ _, True).
Proof.
  destruct reads_bus as (_ & _ & R32 & R64). destruct writes_bus as (_ & _ & W32 & W64).
  intros Hi Hm; destruct i; try discriminate Hm; injection Hm as <-; cbn [instr_wf] in Hi;
    destruct_and?.
  all: first
    [ apply exec_ecall_safe | apply exec_sret_safe | apply exec_wfi_safe | apply exec_sfence_safe
    | by apply trap_safe
    | by (eapply keeps_bind; [apply rd_reg_safe|]; intros v Hv; by apply csr_op_safe)
    | by (apply csr_op_safe; [done|]; apply (urange_weaken 5); [lia|done])
    | idtac ].
  - eapply keeps_bind; [apply base_of_safe|]. intros va Hv. eapply exec_lr_safe; try done.
    intros v Hw. apply wrap_range. lia.
  - eapply keeps_bind; [apply base_of_safe|]. intros va Hv. eapply exec_sc_safe; try done.
    intros v Hw. apply wrap_range. lia.
  - eapply keeps_bind; [apply rd_reg_safe|]. intros va Hv. by eapply exec_lr_safe.
  - eapply keeps_bind; [apply rd_reg_safe|]. intros va Hv. by eapply exec_sc_safe.
  - apply bkeeps_self. eapply keeps_mono; [by apply do_mret_safe|]. done.
Qed.

(** ** Step *)

Lemma settle_fs_wf s : sup_wf s → sup_wf (Supervisor.settle_fs s).
Proof.
  intros Hs. unfold Supervisor.settle_fs. destruct (Cpu.fs_dirty _); [|done]. cbv zeta.
  apply set_mstatus_wf; [|apply set_cpu_wf; [|done]; apply Cpu.set_fs_dirty_wf, Hs].
  pose proof (wf_mstatus _ Hs) as Hm. unfold MStatus.wf in *. cbn. destruct_and!. by split_and!.
Qed.

Lemma execute_supervisor_safe i width :
  instr_wf i → bkeeps (Supervisor.execute_supervisor i width) (λ _, True).
Proof.
  intros Hi. unfold Supervisor.execute_supervisor.
  destruct (Supervisor.exec_privileged i width) eqn:E; [by eapply exec_privileged_safe|].
  eapply keeps_bind; [apply bkeeps_any|]. intros s _. destruct (_ && _); [apply illegal_safe|].
  apply keeps_seq; [destruct (Supervisor.trace _); [apply bkeeps_upd; diag_only|apply bkeeps_skip]|].
  eapply (keeps_bind _ _ _ _ (λ _, True)).
  - destruct (_ || _); [by apply execute_translated_safe|]. apply on_hart_safe.
    intros [c b] [Hc Hb]. eapply wp_mono; [apply (execute_good P); try done|done].
    intros Hov. apply HP. destruct i; try done. apply Hov.
  - intros st _. apply keeps_seq; [apply bkeeps_upd, settle_fs_wf|]. by apply keeps_ret.
Qed.

Lemma count_cycle_wf s : sup_wf s → sup_wf (Supervisor.count_cycle s).
Proof.
  intros Hs. unfold Supervisor.count_cycle. cbv zeta. split_ifs; revert Hs; wf_upd;
    apply wrap_range; lia.
Qed.

Lemma finish_step_safe i width :
  instr_wf i → bkeeps (Supervisor.finish_step i width) (λ _, True).
Proof.
  intros Hi. unfold Supervisor.finish_step. do 2 (eapply keeps_bind; [apply bkeeps_any|]; intros ? _).
  apply keeps_seq; [apply bkeeps_upd; diag_only|].
  apply keeps_seq; [destruct (Supervisor.is_fence_i i); [apply bkeeps_upd, dcache_flush_wf|apply bkeeps_skip]|].
  eapply keeps_bind; [by apply execute_supervisor_safe|]. intros st _.
  apply keeps_seq; [apply bkeeps_upd; wf_upd|].
  apply keeps_seq; [apply bkeeps_upd; diag_only|].
  apply keeps_seq; [apply bkeeps_upd, count_cycle_wf|].
  eapply keeps_bind; [apply bkeeps_any|]. intros d _.
  destruct st; try (by apply keeps_ret). destruct d; [by apply keeps_ret|by apply trap_safe].
Qed.

Lemma poll_devices_safe : bkeeps Supervisor.poll_devices (λ _, True).
Proof.
  eapply (keeps_bind _ _ _ _ (λ n, 0 <= n <= INT_SYNC_INTERVAL));
    [apply bkeeps_get; intros s Hs; apply Hs|].
  intros n Hn. destruct (Z.eqb_spec n 0).
  - apply keeps_seq; [apply bkeeps_upd; by wf_upd|apply sync_safe].
  - apply bkeeps_upd. wf_upd. lia.
Qed.

Lemma cache_and_finish_safe idx paddr i width :
  instr_wf i → width = 2 ∨ width = 4 →
  bkeeps (Supervisor.cache_and_finish idx paddr i width) (λ _, True).
Proof.
  intros Hi Hw. apply keeps_seq; [|by apply finish_step_safe]. apply bkeeps_upd. wf_upd.
  by apply map_Forall_insert_2.
Qed.

Lemma set_last_raw_safe raw : bkeeps (self_upd (Supervisor.set_last_raw raw)) (λ _, True).
Proof. apply bkeeps_upd. wf_upd. Qed.

Lemma decode_miss_safe idx paddr :
  urange 64 paddr → bkeeps (Supervisor.decode_miss idx paddr) (λ _, True).
Proof.
  intros Hp. unfold Supervisor.decode_miss.
  eapply keeps_bind; [by apply read_half_safe|]. intros half Hh.
  apply keeps_seq; [apply bkeeps_upd; diag_only|]. destruct (negb _).
  - destruct (decompress half) as [ins|] eqn:E.
    + apply keeps_seq; [apply set_last_raw_safe|]. apply cache_and_finish_safe; [|by left].
      by apply (decompress_encodable half).
    + eapply keeps_bind; [by apply fetch_upper_half_safe|]. intros r _. cbv zeta.
      apply keeps_seq; [apply bkeeps_diag|]. apply keeps_seq; [apply set_last_raw_safe|].
      apply keeps_seq; [apply bkeeps_upd; diag_only|]. apply illegal_safe.
  - eapply keeps_bind; [by apply fetch_upper_half_safe|]. intros [hi|t] Hr.
    + cbv zeta. apply keeps_seq; [apply set_last_raw_safe|]. apply cache_and_finish_safe; [|by right].
      apply decode_wf. apply urange_lor; [lia|apply wrap_range; lia|]. by apply (urange_weaken 16).
    + eapply keeps_bind; [apply bkeeps_any|]. intros pc _. apply trap_safe. apply wrap_range. lia.
Qed.

Lemma step_keeps : bkeeps Supervisor.step (λ _, True).
Proof.
  unfold Supervisor.step. apply keeps_seq; [apply bkeeps_upd; wf_upd|].
  apply keeps_seq; [apply poll_devices_safe|].
  eapply keeps_bind; [apply bkeeps_any|]. intros [t|] _; [by apply trap_safe|].
  apply keeps_seq; [apply bkeeps_upd; diag_only|].
  assert (Hpc : bkeeps (on_self (get (λ s, Cpu.pc (Sup.cpu s)))) (urange 64)).
  { apply bkeeps_get. intros s Hs. apply Cpu.wf_pc, Hs. }
  eapply keeps_bind; [exact Hpc|]. intros pc Hpc0.
  eapply keeps_bind; [by apply fetch_translate_safe|]. intros [paddr|t] Hr.
  - apply keeps_seq; [apply bkeeps_diag|]. cbv zeta.
    eapply (keeps_bind _ _ _ _ (λ o, match o with Some e => ∃ i, decoded_ok i e | None => True end)).
    { apply bkeeps_get. intros s Hs. destruct (Sup.dcache s !! _) eqn:E; [|done].
      eexists. exact (wf_dcache _ Hs _ _ E). }
    intros [e|] He; [|by apply decode_miss_safe].
    destruct (_ =? _); [|by apply decode_miss_safe]. destruct He as (i & Hi & _).
    apply keeps_seq; [apply set_last_raw_safe|].
    apply keeps_seq; [apply bkeeps_upd; diag_only|]. by apply finish_step_safe.
  - apply keeps_seq.
    { apply bkeeps_upd. intros s Hs. unfold Supervisor.capture_phys_fault. cbv zeta.
      destruct (_ && _); [by apply diag_wf|done]. }
    eapply keeps_bind; [exact Hpc|]. intros pc' Hpc'. by apply trap_safe.
Qed.
End Machine.

(** [n] calls of [step], with the statuses they returned. *)
Fixpoint run `{Bus B} `{Profile} `{Target} `{Libm} (n : nat) : M (Sup.t * B) (list Status) :=
  match n with
  | O => mret []
  | S n => st ← Supervisor.step; rest ← run n; mret (st :: rest)
  end.

(** * Property *)

(** C1: no guest can make the interpreter panic.  From a well-formed supervisor
    (the state [Supervisor::new] builds is one), over a bus that does not panic
    and whatever its memory holds, any number of calls of [step] returns in the
    release build, on 64-bit and on 32-bit hosts.  Every state passed is
    well-formed again: [x0] is zero and all registers and CSRs fit their types,
    the WARL fields of [mstatus] and [satp] hold legal values, [pmpaddr] is a
    54-bit field, the flush queue and the poll countdown stay within bounds, and
    every cached decode is of a well-formed instruction. *)
Theorem step_never_panics (B : Type) (BU : Bus B) (BO : BusOk False B) (TG : Target) (L : Libm)
    (LO : LibmOk) n s b :
  sup_wf s → bus_inv b →
  ∃ sts s' b', @run B BU Release TG L n (s, b) = Some (sts, (s', b'))
               ∧ length sts = n ∧ sup_wf s' ∧ bus_inv b'.
Proof.
  intros Hs Hb.
  assert (Hrun : keeps False (machine_inv False) (@run B BU Release TG L n) (λ l, length l = n)).
  { clear Hs Hb. induction n as [|n IH]; cbn [run]; [by apply keeps_ret|].
    eapply keeps_bind; [by apply step_keeps|]. intros st _.
    eapply keeps_bind; [exact IH|]. intros rest Hl. apply keeps_ret. cbn. by rewrite Hl. }
  destruct (keeps_total _ _ _ (s, b) Hrun (conj Hs Hb)) as (sts & [s' b'] & E & Hl & Hs' & Hb').
  by exists sts, s', b'.
Qed.

Lemma step_never_panics_witness :
  ∃ sts s' b', @run Ram.t Ram.bus Release Wasm32 ref_libm 1000 (Sup.new 0x80000000 0, ∅)
               = Some (sts, (s', b'))
               ∧ length sts = 1000%nat ∧ sup_wf s' ∧ bus_inv b'.
Proof.
  apply (step_never_panics Ram.t Ram.bus Ram.bus_ok Wasm32 ref_libm ref_libm_ok).
  - apply sup_new_wf; by unfold urange.
  - apply map_Forall_empty.
Defined.
