(* ===== verification/SupPark.v ===== *)
(** When the hart sleeps: [step] reports [Wfi] only from the WFI instruction, and
    then the hart is marked as parked. *)

From S2P Require Import Prelude Keeps Types Decode Compressed SupTypes State Cpu Fpu Execute.
From S2P Require Import Mmu Sbi SupState SupTrap SupCsr Supervisor.
Import Supervisor.

(** The results of a computation. *)
Definition gives {S A} (R : A → S → Prop) (m : M S A) : Prop := ∀ s, wp True m R s.

Definition awake {S} : Status → S → Prop := λ st _, st ≠ StWfi.

Lemma gives_bind {S A C} (m : M S C) (k : C → M S A) R : (∀ c, gives R (k c)) → gives R (m ≫= k).
Proof. intros Hk s. apply wp_bind. unfold wp. destruct (m s) as [[c s']|]; [apply Hk|done]. Qed.

Lemma awake_ret {S} st : st ≠ StWfi → gives (S := S) awake (mret st).
Proof. intros Hs s. by apply wp_ret. Qed.

Lemma awake_panic {S} : gives (S := S) awake panic.
Proof. by intros s. Qed.

Lemma awake_zoom {S T} (g : S → T) p (m : M T Status) : gives awake m → gives awake (zoom g p m).
Proof. intros Hm s. apply wp_zoom. eapply wp_mono; [apply Hm|]. done. Qed.

Lemma awake_fst {S T} (m : M S Status) : gives awake m → gives (S := S * T) awake (on_fst m).
Proof. intros Hm [s t]. apply wp_on_fst. eapply wp_mono; [apply Hm|]. done. Qed.

Create HintDb awake.
#[export] Hint Resolve awake_ret awake_panic awake_zoom awake_fst : awake.
#[export] Hint Extern 1 (_ ≠ StWfi) => discriminate : awake.

(** Walk down a body to its last operations. *)
Ltac awake_step :=
  lazymatch goal with
  | |- gives _ (mbind _ _) => apply gives_bind; intros ?
  | |- gives _ (if ?c then _ else _) => destruct c
  | |- gives _ (match ?x with _ => _ end) => destruct x
  | |- _ => solve [eauto with awake]
  end.

Section Traps.
Context {PR : Profile} {TG : Target}.

Lemma awake_trap t fv : gives awake (take_trap_with_vaddr t fv).
Proof. unfold take_trap_with_vaddr. repeat awake_step. Qed.

Lemma awake_mret : gives awake do_mret.
Proof. unfold do_mret. repeat awake_step. Qed.

Lemma awake_sret : gives awake do_sret.
Proof. unfold do_sret. repeat awake_step. Qed.
End Traps.

#[export] Hint Resolve awake_trap awake_mret awake_sret : awake.
#[export] Hint Unfold take_trap : awake.

Section Hart.
Context {B : Type} `{Bus B} {PR : Profile} {L : Libm}.

Lemma awake_wb rd v width : gives awake (wb (B := B) rd v width).
Proof. unfold wb, next. repeat awake_step. Qed.
#[local] Hint Resolve awake_wb : awake.

(** The interpreter's own instructions but WFI, which the supervisor executes. *)
Lemma awake_dispatch i width : i ≠ Wfi → gives awake (execute_width (B := B) i width).
Proof.
  intros Hi. unfold execute_width.
  assert (Hg : Forall (λ g : Instr → Z → option (M (Cpu.t * B) Status),
                       ∀ m, g i width = Some m → gives awake m) exec_groups).
  { unfold exec_groups. repeat (apply Forall_cons; split; [|]); [..|by apply Forall_nil].
    all: intros m Hm; destruct i; cbv beta iota zeta delta [exec_upper exec_branch exec_load exec_store exec_alu_imm
      exec_alu exec_alu_w exec_muldiv exec_muldiv_w exec_amo_w exec_amo_d exec_system] in Hm; try discriminate Hm; injection Hm as <-; try done.
    all: unfold amo_w, amo_d, branch_if, jump_rel, next, illegal; repeat awake_step. }
  revert Hg. generalize exec_groups. intros gs. induction 1 as [|g gs Hg _ IH]; cbn [dispatch].
  - by apply awake_panic.
  - destruct (g i width) as [m|] eqn:E; [by apply Hg|exact IH].
Qed.
End Hart.

Section Step.
Context {B : Type} `{Bus B} {PR : Profile} {TG : Target} {L : Libm}.
Abbreviation SM := (M (Sup.t * B)).

Lemma awake_taken t fv : gives (S := Sup.t * B) awake (on_self (take_trap_with_vaddr t fv)).
Proof. apply awake_fst, awake_trap. Qed.

Lemma awake_took t : gives (S := Sup.t * B) awake (on_self (take_trap t)).
Proof. apply awake_taken. Qed.
#[local] Hint Resolve awake_taken awake_took : awake.

Lemma awake_retired width : gives (S := Sup.t * B) awake (retired width).
Proof. unfold retired. repeat awake_step. Qed.
#[local] Hint Resolve awake_retired : awake.

Lemma awake_translated access va (k : Z → SM Status) :
  (∀ pa, gives awake (k pa)) → gives awake (translated access va k).
Proof. intros Hk. unfold translated. apply gives_bind. intros [pa|t]; [apply Hk|apply awake_taken]. Qed.

(** The memory instructions through the translation. *)
Lemma awake_access i width : gives (S := Sup.t * B) awake (execute_translated i width).
Proof.
  unfold execute_translated.
  destruct i; cbv beta iota zeta delta [exec_translated_load exec_translated_store exec_translated_amo_w
    exec_translated_amo_d]; unfold load_int, load_fp, store_val, tamo_w, amo;
    try (apply awake_took); apply gives_bind; intros ?; apply awake_translated; intros ?; repeat awake_step.
Qed.

Lemma awake_csr csr rd rs1 val read clear width :
  gives (S := Sup.t * B) awake (csr_op csr rd rs1 val read clear width).
Proof. unfold csr_op. cbv zeta. repeat awake_step. Qed.
#[local] Hint Resolve awake_csr : awake.

(** WFI parks the hart, or takes a trap. *)
Definition parked : Status → Sup.t * B → Prop := λ st s, st = StWfi → Sup.wfi s.1 = true.

Lemma awake_parked (m : SM Status) : gives awake m → gives parked m.
Proof. intros Hm s. eapply wp_mono; [apply Hm|]. by intros st s' Hs ->. Qed.

Lemma wfi_parks width : gives (S := Sup.t * B) parked (exec_wfi width).
Proof.
  unfold exec_wfi. apply gives_bind. intros s. destruct (_ && _); [apply awake_parked, awake_took|].
  do 3 (apply gives_bind; intros ?). destruct c1 as [trap|]; [apply awake_parked, awake_took|].
  intros [u b]. apply wp_bind, wp_on_fst, wp_modify. apply wp_bind, wp_on_fst, wp_zoom, wp_modify.
  by apply wp_ret.
Qed.

Lemma privileged_parks i width (m : SM Status) : exec_privileged i width = Some m → gives parked m.
Proof.
  destruct i; cbv beta iota zeta delta [exec_privileged exec_lr_sc]; intros Hm; try discriminate Hm;
    injection Hm as <-; try (apply wfi_parks); apply awake_parked;
    unfold exec_ecall, exec_sbi, exec_sret, exec_sfence, exec_lr, exec_sc, illegal_trap;
    repeat first [awake_step|apply awake_translated; intros ?].
Qed.

Lemma execute_parks i width : gives (S := Sup.t * B) parked (execute_supervisor i width).
Proof.
  unfold execute_supervisor. destruct (exec_privileged i width) as [m|] eqn:E; [by eapply privileged_parks|].
  assert (Hi : i ≠ Wfi) by (by intros ->). apply awake_parked.
  apply gives_bind. intros s. destruct (_ && _); [apply awake_took|]. apply gives_bind. intros [].
  intros s0. apply wp_bind. eapply (wp_mono _ _ awake).
  - destruct (_ || _); [apply awake_access|]. apply awake_zoom. by apply awake_dispatch.
  - intros st [u b] Hs. apply wp_bind, wp_on_fst, wp_modify. by apply wp_ret.
Qed.

Lemma finish_parks i width : gives (S := Sup.t * B) parked (finish_step i width).
Proof.
  unfold finish_step. do 4 (apply gives_bind; intros ?). intros s. apply wp_bind.
  eapply wp_mono; [apply execute_parks|]. intros st [u b] Hs.
  do 3 apply wp_bind, wp_on_fst, wp_modify. apply wp_bind, wp_on_fst, wp_get.
  destruct st as [|trap|]; [by apply wp_ret| |].
  - destruct (Sup.trap_delivered _); [by apply wp_ret|]. apply awake_parked, awake_took.
  - apply wp_ret. intros _. specialize (Hs eq_refl). cbn [fst] in *. unfold count_cycle. cbv zeta.
    by destruct (negb (Sup.wrote_mcycle _)), (negb (Sup.wrote_minstret _)).
Qed.

Lemma decode_miss_parks idx pa : gives (S := Sup.t * B) parked (decode_miss idx pa).
Proof.
  unfold decode_miss, cache_and_finish, illegal_trap. apply gives_bind. intros half. apply gives_bind. intros _.
  destruct (negb _).
  - destruct (decompress half); [do 2 (apply gives_bind; intros _); apply finish_parks|].
    apply awake_parked. repeat awake_step.
  - apply gives_bind. intros [hi|t]; [do 2 (apply gives_bind; intros _); apply finish_parks|].
    apply awake_parked. repeat awake_step.
Qed.

(** A step that reports [Wfi] leaves the hart parked. *)
Lemma step_parks : gives (S := Sup.t * B) parked step.
Proof.
  unfold step. do 2 (apply gives_bind; intros _). apply gives_bind. intros [trap|].
  { apply awake_parked, awake_took. }
  do 2 (apply gives_bind; intros ?). apply gives_bind. intros [pa|t]; [|apply awake_parked; repeat awake_step].
  apply gives_bind. intros _. cbv zeta. apply gives_bind. intros [e|]; [|apply decode_miss_parks].
  destruct (_ =? _); [|apply decode_miss_parks]. do 2 (apply gives_bind; intros _). apply finish_parks.
Qed.
End Step.
