(* ===== verification/CsrProps.v ===== *)
(** What the CSR operations guarantee: the effect of a write on every register,
    confinement of supervisor-level writes, and agreement of the compiled-code
    twin with the interpreter. *)

From S2P Require Import Prelude Keeps Types SupTypes State Cpu Mmu Sbi SupState SupTrap SupCsr.
From S2P Require Import MmuSafe Supervisor SupSafe.

(** * The interpreter and compiled code *)

Lemma self_get_run {B A} (f : Sup.t → A) (s : Sup.t) (b : B) :
  on_self (get f) (s, b) = Some (f s, (s, b)).
Proof. done. Qed.

(** The hart has moved past the instruction. *)
Definition advanced (width : Z) (s : Sup.t) : Sup.t :=
  s <| Sup.cpu := (Sup.cpu s) <| Cpu.pc := as_u64 (Cpu.pc (Sup.cpu s) + as_u64 width) |> |>.

(** * Reading back *)

(** The value a register holds after [v] was written to it. *)
Definition legal (s : Sup.t) (csr v : Z) : Z :=
  if csr =? 0x001 then Z.land v 0x1f
  else if csr =? 0x002 then Z.land v 0x7
  else if csr =? 0x003 then Z.land v 0xff
  else if csr =? 0x300 then
    Z.lor (Z.land v (Z.ldiff MStatus.MASK (Z.shiftl 0xF 32))) (Z.shiftl 0xA 32)
  else if csr =? 0x100 then
    Z.lor (Z.ldiff (MStatus.to_bits (Sup.mstatus s)) SSTATUS_MASK) (Z.land v SSTATUS_MASK)
  else if (csr =? 0x104) || (csr =? 0x144) then Z.land v 0x222
  else if csr =? 0x180 then Satp.to_bits (Satp.from_bits v)
  else if between 0x3B0 0x3EF csr then Z.land v (Z.ones 54)
  else if existsb (Z.eqb csr) [0x302; 0x303; 0x304; 0x305; 0x340; 0x341; 0x342; 0x343; 0x344;
                               0xB00; 0xB02; 0x105; 0x140; 0x141; 0x142; 0x143; 0x14D]
          || between 0x3A0 0x3AF csr then v
  else csr_get s csr.

(** Registers that are views of the same state. *)
Definition csr_class (csr : Z) : Z :=
  if (csr =? 1) || (csr =? 2) then 3
  else if csr =? 0x100 then 0x300
  else if csr =? 0x104 then 0x304
  else if csr =? 0x144 then 0x344
  else if csr =? 0xC00 then 0xB00
  else if csr =? 0xC02 then 0xB02
  else csr.

(** Writing [csr] may show in [csr']: the same state, or the FS field that every
    floating-point CSR write dirties. *)
Definition csr_touches (csr csr' : Z) : bool :=
  (csr_class csr =? csr_class csr') || ((csr_class csr =? 3) && (csr_class csr' =? 0x300)).

(** ** Writes leave other registers alone *)

Lemma csr_get_diag f s csr : csr_get (Sup.upd_diag f s) csr = csr_get s csr.
Proof. reflexivity. Qed.

Lemma csr_get_note_epc `{Target} v s csr : csr_get (note_epc v s) csr = csr_get s csr.
Proof. unfold note_epc. by destruct (_ && _). Qed.

Lemma csr_get_switch old new s csr :
  csr_get (Sup.switch_address_space old new s) csr = csr_get s csr.
Proof. unfold Sup.switch_address_space. cbn [negb ASID_KEYED]. cbv zeta. by destruct (_ =? _). Qed.

(** A field update shows only in the registers that view the field: every other
    arm of [csr_get] reads the same value, the rest contradict [csr_touches]. *)
Ltac csr_frame :=
  let c := fresh "csr'" in let Ht := fresh "Ht" in
  intros c Ht; unfold csr_get;
  cbn -[Z.land Z.lor Z.shiftr Z.shiftl MStatus.to_bits Satp.to_bits between lookup_total insert];
  repeat (case_match; [first [reflexivity | exfalso; rewrite ?Z.eqb_eq in *; subst; discriminate Ht]|]);
  reflexivity.

(** ** Masks *)

Lemma view_merge x v m :
  urange 64 x → urange 64 m →
  Z.lor (Z.land x (unot 64 m)) (Z.land v m) = Z.lor (Z.ldiff x m) (Z.land v m).
Proof.
  intros Hx Hm. f_equal. apply Z.bits_inj'. intros i Hi. unfold unot.
  rewrite Z.land_spec, Z.ldiff_spec, testbit_wrap, Z.lnot_spec by lia.
  destruct (Z.ltb_spec i 64); [done|]. by rewrite (urange_testbit 64 x i Hx) by lia.
Qed.

Lemma view_read x v m : Z.land (Z.lor (Z.ldiff x m) (Z.land v m)) m = Z.land v m.
Proof.
  apply Z.bits_inj'. intros i Hi. rewrite !Z.land_spec, Z.lor_spec, Z.ldiff_spec, Z.land_spec.
  by destruct (Z.testbit x i), (Z.testbit v i), (Z.testbit m i).
Qed.

Lemma mstatus_range_mask ms : MStatus.wf ms → Z.land (MStatus.to_bits ms) MStatus.MASK = MStatus.to_bits ms.
Proof.
  intros Hw. rewrite <- (mstatus_to_from (MStatus.to_bits ms) (mstatus_to_range ms)).
  by rewrite mstatus_from_to.
Qed.

Lemma sstatus_read ms v :
  MStatus.wf ms →
  MStatus.to_bits (MStatus.from_bits
    (Z.lor (Z.land (MStatus.to_bits ms) (unot 64 SSTATUS_MASK)) (Z.land v SSTATUS_MASK)))
  = Z.lor (Z.ldiff (MStatus.to_bits ms) SSTATUS_MASK) (Z.land v SSTATUS_MASK).
Proof.
  intros Hw. pose proof (mstatus_to_range ms) as Hr.
  assert (Hm : urange 64 SSTATUS_MASK) by (by unfold urange).
  assert (Hv : urange 64 (Z.land v SSTATUS_MASK)).
  { rewrite Z.land_comm. by apply urange_land_l. }
  rewrite view_merge by done. rewrite mstatus_to_from.
  - rewrite Z.land_lor_distr_l. f_equal.
    + rewrite <- (mstatus_range_mask ms Hw) at 2. apply Z.bits_inj'. intros i Hi.
      rewrite Z.land_spec, !Z.ldiff_spec, Z.land_spec.
      by destruct (Z.testbit (MStatus.to_bits ms) i), (Z.testbit SSTATUS_MASK i),
        (Z.testbit MStatus.MASK i).
    + rewrite <- Z.land_assoc. f_equal.
  - apply urange_lor; [lia| |done]. apply urange_bits; [lia| |].
    + apply Z.ldiff_nonneg. left. unfold urange in Hr. lia.
    + intros i Hi. by rewrite Z.ldiff_spec, (urange_testbit 64 _ i Hr).
Qed.

Lemma frm_read f v :
  urange 64 f →
  Z.land (Z.shiftr (Z.lor (Z.land f (unot 64 0xe0)) (Z.shiftl (Z.land v 0x7) 5)) 5) 0x7 = Z.land v 0x7.
Proof. intros Hf. bitblast 3. Qed.

(** [mstatus] written and read back: the implemented bits, with both XLEN fields
    fixed to 64-bit. *)
Lemma mstatus_read v :
  urange 64 v →
  MStatus.to_bits ((MStatus.from_bits v) <| MStatus.uxl := 2 |> <| MStatus.sxl := 2 |>)
  = Z.lor (Z.land v (Z.ldiff MStatus.MASK (Z.shiftl 0xF 32))) (Z.shiftl 0xA 32).
Proof.
  intros Hv. set (w := Z.lor (Z.ldiff v (Z.shiftl 0xF 32)) (Z.shiftl 0xA 32)).
  assert (Hw : urange 64 w).
  { apply urange_lor; [lia| |by unfold urange]. apply urange_bits; [lia| |].
    - apply Z.ldiff_nonneg. left. unfold urange in Hv. lia.
    - intros i Hi. by rewrite Z.ldiff_spec, (urange_testbit 64 v i Hv). }
  assert (Hb : ∀ k, 0 <= k → ¬ (32 <= k < 36) → Z.testbit w k = Z.testbit v k).
  { intros k Hk Hn. unfold w. rewrite Z.lor_spec, Z.ldiff_spec, !Z.shiftl_spec by lia.
    assert (Z.testbit 0xF (k - 32) = false ∧ Z.testbit 0xA (k - 32) = false) as [-> ->].
    { destruct (Z.ltb_spec k 32); [by rewrite !Z.testbit_neg_r by lia|].
      split; (apply (testbit_literal_high 4); lia). }
    by rewrite andb_true_r, orb_false_r. }
  replace ((MStatus.from_bits v) <| MStatus.uxl := 2 |> <| MStatus.sxl := 2 |>)
    with (MStatus.from_bits w).
  - rewrite mstatus_to_from by done. unfold w. rewrite Z.land_lor_distr_l. f_equal.
    apply Z.bits_inj'. intros i Hi. rewrite !Z.land_spec, !Z.ldiff_spec.
    by destruct (Z.testbit v i), (Z.testbit MStatus.MASK i), (Z.testbit (Z.shiftl 0xF 32) i).
  - assert (Hbit : ∀ k, 0 <= k → ¬ (32 <= k < 36) → bit w k = bit v k).
    { intros k Hk Hn. rewrite !bit_testbit by done. by apply Hb. }
    assert (Hfld : ∀ k, 0 <= k → (k + 1 < 32 ∨ 36 <= k) →
                   Z.land (Z.shiftr w k) 3 = Z.land (Z.shiftr v k) 3).
    { intros k Hk Hn. change 3 with (Z.ones 2). apply Z.bits_inj'. intros i Hi.
      rewrite !Z.land_spec, !Z.shiftr_spec by lia. destruct (Z.ltb_spec i 2).
      - by rewrite Hb by lia.
      - by rewrite Z.ones_spec_high, !andb_false_r by lia. }
    assert (Hx : ∀ i, 0 <= i < 4 → Z.testbit w (i + 32) = Z.testbit 0xA i).
    { intros i Hi. unfold w. rewrite Z.lor_spec, Z.ldiff_spec, !Z.shiftl_spec by lia.
      replace (i + 32 - 32) with i by lia. replace (Z.testbit 0xF i) with true.
      - by rewrite andb_false_r.
      - symmetry. apply (Z.ones_spec_low 4). lia. }
    assert (H32 : Z.land (Z.shiftr w 32) 3 = 2 ∧ Z.land (Z.shiftr w 34) 3 = 2).
    { split; apply Z.bits_inj'; intros i Hi; rewrite Z.land_spec, Z.shiftr_spec by lia;
        (destruct (Z.ltb_spec i 2);
         [|change 3 with (Z.ones 2); rewrite Z.ones_spec_high, andb_false_r by lia;
           symmetry; apply (testbit_literal_high 2); lia]).
      - rewrite Hx by lia. assert (i = 0 ∨ i = 1) as [-> | ->] by lia; reflexivity.
      - replace (i + 34) with ((i + 2) + 32) by lia. rewrite Hx by lia.
        assert (i = 0 ∨ i = 1) as [-> | ->] by lia; reflexivity. }
    destruct H32 as [H32 H34]. unfold MStatus.from_bits. cbv zeta.
    rewrite H32, H34, !Hbit, !Hfld by lia. reflexivity.
Qed.

(** ** The effect of a write *)

(** After [csr] was written: it reads back as [legal], and registers it does not
    share state with read as before. *)
Definition written (s : Sup.t) (csr v : Z) (s' : Sup.t) : Prop :=
  csr_get s' csr = legal s csr v
  ∧ ∀ csr', csr_touches csr csr' = false → csr_get s' csr' = csr_get s csr'.

Lemma view_back x v m :
  urange 64 x → urange 64 m →
  Z.land (Z.lor (Z.land x (unot 64 m)) (Z.land v m)) m = Z.land v m.
Proof. intros. rewrite view_merge by done. apply view_read. Qed.

Lemma pmp_written (l : list Z) n csr base v :
  length l = n → between base (base + Z.of_nat n - 1) csr = true →
  <[Z.to_nat (csr - base) := v]> l !!! Z.to_nat (csr - base) = v.
Proof.
  unfold between. intros Hl [??]%andb_true_iff. apply list_lookup_total_insert_eq. lia.
Qed.

(** The registers after [pmpcfg]/[pmpaddr] index [i] changed. *)
Lemma pmp_other (l : list Z) csr csr' base hi v :
  between base hi csr' = true → between base hi csr = true → (csr =? csr') = false →
  <[Z.to_nat (csr - base) := v]> l !!! Z.to_nat (csr' - base) = l !!! Z.to_nat (csr' - base).
Proof.
  unfold between. intros [??]%andb_true_iff [??]%andb_true_iff Hne%Z.eqb_neq.
  apply list_lookup_total_insert_ne. lia.
Qed.

(** Settle the tests on a CSR number that the context decides. *)
Ltac csr_tests :=
  unfold between in *; cbn [existsb] in *;
  repeat match goal with
  | |- context [if ?b then _ else _] =>
      first [ replace b with true by (symmetry; lia) | replace b with false by (symmetry; lia) ];
      cbv iota
  end.

Section Written.
Context `{Profile} `{Target}.

Lemma written_pmpcfg csr v s :
  length (Sup.pmpcfg s) = 16%nat → between 0x3A0 0x3AF csr = true →
  written s csr v (s <| Sup.pmpcfg := <[Z.to_nat (csr - 0x3A0) := v]> (Sup.pmpcfg s) |>).
Proof.
  intros Hl Hb. split.
  - unfold csr_get, legal. pose proof Hb. csr_tests. cbn -[insert lookup_total].
    by apply (pmp_written _ 16).
  - intros c Ht. unfold csr_get. cbn -[Z.land Z.lor between lookup_total insert].
    repeat (case_match; [try reflexivity|]); try reflexivity.
    apply (pmp_other _ _ _ 0x3A0 0x3AF); [done..|].
    unfold csr_touches, csr_class in Ht. apply Z.eqb_neq. intros ->.
    revert Ht. csr_tests. by rewrite Z.eqb_refl.
Qed.

Lemma written_pmpaddr csr v s :
  length (Sup.pmpaddr s) = 64%nat → between 0x3B0 0x3EF csr = true →
  written s csr v (s <| Sup.pmpaddr := <[Z.to_nat (csr - 0x3B0) := Z.land v 0x003FFFFFFFFFFFFF]>
                                         (Sup.pmpaddr s) |>).
Proof.
  intros Hl Hb. split.
  - unfold csr_get, legal. pose proof Hb. csr_tests. cbn -[insert lookup_total].
    by apply (pmp_written _ 64).
  - intros c Ht. unfold csr_get. cbn -[Z.land Z.lor between lookup_total insert].
    repeat (case_match; [try reflexivity|]); try reflexivity.
    apply (pmp_other _ _ _ 0x3B0 0x3EF); [done..|].
    unfold csr_touches, csr_class in Ht. apply Z.eqb_neq. intros ->.
    revert Ht. csr_tests. by rewrite Z.eqb_refl.
Qed.

Lemma written_none csr v s :
  legal s csr v = csr_get s csr → written s csr v s.
Proof. intros Hl. by split. Qed.

Lemma written_note csr v w s s' : written s csr v s' → written s csr v (note_epc w s').
Proof.
  intros [Hr Hf]. split; [by rewrite csr_get_note_epc|].
  intros c Ht. rewrite csr_get_note_epc. by apply Hf.
Qed.

Lemma write_satp_written v s :
  urange 64 v →
  wp (overflow_checks = true ∧ 0x180 = 0x180) (write_satp v) (λ _, written s 0x180 v) s.
Proof.
  intros Hv. unfold write_satp. apply wp_bind, wp_get, wp_bind, wp_modify, wp_if; intros _.
  - apply wp_bind, wp_get, wp_bind, wp_lift. unfold add_u, checked_u.
    assert (Hfin : ∀ n, wp (overflow_checks = true ∧ 0x180 = 0x180) (
      modify (λ s, s <| Sup.gen_bump := <[0%nat := n]> (Sup.gen_bump s) |>);;
      modify (λ s, s <| Sup.mmu := Mmu.flush_tlb (Sup.mmu s) |>);;
      modify (λ s, s <| Sup.fetch_vpn := U64_MAX |>);;
      modify (Sup.switch_address_space (Satp.to_bits (Sup.satp s)) v))
      (λ _, written s 0x180 v) (s <| Sup.satp := Satp.from_bits v |>)).
    { intros n. do 3 (apply wp_bind, wp_modify). apply wp_modify. split.
      - by rewrite csr_get_switch.
      - intros c Ht. rewrite csr_get_switch. revert c Ht. csr_frame. }
    destruct (_ && _); [apply Hfin|]. destruct overflow_checks; [done|apply Hfin].
  - split; [done|csr_frame].
Qed.

Lemma csr_write_written csr v s :
  sup_wf s → urange 64 v →
  wp (overflow_checks = true ∧ csr = 0x180) (csr_write csr v) (λ _, written s csr v) s.
Proof.
  intros Hs Hv. unfold csr_write.
  repeat match goal with
  | |- wp _ (if csr =? _ then _ else _) _ _ => apply wp_if; [intros ->%Z.eqb_eq|intros ?]
  | |- wp _ (if _ then _ else _) _ _ => apply wp_if; intros ?
  end; try apply wp_modify.
  all: try (split; [reflexivity | csr_frame]; fail).
  - split; [|csr_frame]. apply view_back; [apply Hs|done].
  - split; [|csr_frame]. apply frm_read, Hs.
  - split; [|csr_frame]. change (Z.land (Z.land v 0xff) 0xff = Z.land v 0xff).
    by rewrite <- Z.land_assoc.
  - split; [|csr_frame]. by apply mstatus_read.
  - apply written_note. split; [reflexivity|csr_frame].
  - apply written_pmpcfg; [apply Hs|done].
  - apply written_pmpaddr; [apply Hs|done].
  - split; [|csr_frame]. apply sstatus_read, Hs.
  - split; [|csr_frame]. apply view_back; [apply Hs|done].
  - apply written_note. split; [reflexivity|csr_frame].
  - split; [|csr_frame]. apply view_back; [apply Hs|done].
  - by apply write_satp_written.
  - apply written_none. unfold legal. csr_tests. reflexivity.
Qed.
End Written.

(** * Confinement of the lower privilege levels *)

(** What belongs to machine mode is as in [s]: its own registers, the interrupt
    bits and the [mstatus] fields that no supervisor register shows. *)
Definition m_kept (s s' : Sup.t) : Prop :=
  (Sup.medeleg s' = Sup.medeleg s ∧ Sup.mideleg s' = Sup.mideleg s ∧ Sup.mtvec s' = Sup.mtvec s
   ∧ Sup.mscratch s' = Sup.mscratch s ∧ Sup.mepc s' = Sup.mepc s ∧ Sup.mcause s' = Sup.mcause s
   ∧ Sup.mtval s' = Sup.mtval s ∧ Sup.pmpcfg s' = Sup.pmpcfg s ∧ Sup.pmpaddr s' = Sup.pmpaddr s
   ∧ Sup.mcycle s' = Sup.mcycle s ∧ Sup.minstret s' = Sup.minstret s
   ∧ Sup.mhartid s' = Sup.mhartid s ∧ Sup.priv_level s' = Sup.priv_level s)
  ∧ Z.ldiff (Sup.mie s') 0x222 = Z.ldiff (Sup.mie s) 0x222
  ∧ Z.ldiff (Sup.mip s') 0x222 = Z.ldiff (Sup.mip s) 0x222
  ∧ Z.ldiff (MStatus.to_bits (Sup.mstatus s')) SSTATUS_MASK
    = Z.ldiff (MStatus.to_bits (Sup.mstatus s)) SSTATUS_MASK.

Lemma m_kept_refl s : m_kept s s.
Proof. repeat split. Qed.

Lemma m_kept_trans s s1 s2 : m_kept s s1 → m_kept s1 s2 → m_kept s s2.
Proof. unfold m_kept. intros. destruct_and!. split_and!; congruence. Qed.

Lemma ldiff_merge x v m :
  urange 64 x → urange 64 m →
  Z.ldiff (Z.lor (Z.land x (unot 64 m)) (Z.land v m)) m = Z.ldiff x m.
Proof.
  intros. rewrite view_merge by done. apply Z.bits_inj'. intros i Hi.
  rewrite !Z.ldiff_spec, Z.lor_spec, Z.ldiff_spec, Z.land_spec.
  by destruct (Z.testbit x i), (Z.testbit v i), (Z.testbit m i).
Qed.

Lemma ldiff_view x v m : Z.ldiff (Z.lor (Z.ldiff x m) (Z.land v m)) m = Z.ldiff x m.
Proof.
  apply Z.bits_inj'. intros i Hi. rewrite !Z.ldiff_spec, Z.lor_spec, Z.ldiff_spec, Z.land_spec.
  by destruct (Z.testbit x i), (Z.testbit v i), (Z.testbit m i).
Qed.

(** [FS] lies within the supervisor's view of [mstatus]. *)
Lemma ldiff_fs ms fs :
  Z.ldiff (MStatus.to_bits (ms <| MStatus.fs := fs |>)) SSTATUS_MASK
  = Z.ldiff (MStatus.to_bits ms) SSTATUS_MASK.
Proof.
  assert (Hd : ∀ a b m, Z.ldiff (Z.lor a b) m = Z.lor (Z.ldiff a m) (Z.ldiff b m)).
  { intros. apply Z.bits_inj'. intros i Hi. rewrite Z.lor_spec, !Z.ldiff_spec, Z.lor_spec.
    apply andb_orb_distrib_l. }
  assert (Hz : ∀ f, Z.ldiff (as_u64 (Z.shiftl (Z.land f 3) 13)) SSTATUS_MASK = 0).
  { intros f. apply Z.bits_inj'. intros i Hi.
    rewrite Z.ldiff_spec, Z.bits_0. apply andb_false_iff.
    destruct (decide (i = 13 ∨ i = 14)) as [[-> | ->]|Hn]; [by right..|left].
    rewrite testbit_wrap, Z.shiftl_spec, Z.land_spec by lia. apply andb_false_iff. right.
    apply andb_false_iff. right. destruct (Z.ltb_spec i 13); [by rewrite Z.testbit_neg_r by lia|].
    apply (testbit_literal_high 2); lia. }
  assert (Hb : ∀ b k v m, Z.ldiff (MStatus.or_bit b k v) m
                          = Z.lor (Z.ldiff v m) (if b then Z.ldiff (Z.shiftl 1 k) m else 0)).
  { intros [] k v m; unfold MStatus.or_bit; [apply Hd|by rewrite Z.lor_0_r]. }
  assert (Hf : ∀ f k v m, Z.ldiff (MStatus.or_field f k v) m
                          = Z.lor (Z.ldiff v m) (Z.ldiff (as_u64 (Z.shiftl (Z.land f 3) k)) m))
    by (intros; apply Hd).
  unfold MStatus.to_bits. cbv zeta.
  repeat first [rewrite Hb | rewrite Hf]. by rewrite !Hz.
Qed.

Section Confined.
Context `{Profile} `{Target}.

Lemma m_kept_note v s s' : m_kept s s' → m_kept s (note_epc v s').
Proof. intros Hk. unfold note_epc. case_match; exact Hk. Qed.

Lemma m_kept_switch old new s s' : m_kept s s' → m_kept s (Sup.switch_address_space old new s').
Proof.
  intros Hk. unfold Sup.switch_address_space. cbn [negb ASID_KEYED]. cbv zeta.
  case_match; exact Hk.
Qed.

Lemma m_kept_fcsr v s s' : m_kept s s' → m_kept s (set_fcsr v s').
Proof.
  intros (Hm & Hie & Hip & Hst). split_and!; try apply Hm; try done.
  cbn -[Z.ldiff MStatus.to_bits SSTATUS_MASK]. by rewrite ldiff_fs.
Qed.

Lemma csr_priv_pmp csr :
  between 0x3A0 0x3AF csr = true ∨ between 0x3B0 0x3EF csr = true → csr_priv csr = 3.
Proof.
  unfold between, csr_priv. change 0x3 with (Z.ones 2). rewrite Z.land_ones, Z.shiftr_div_pow2 by lia.
  change (2 ^ 8) with 256. change (2 ^ 2) with 4. intros Hc.
  by rewrite <- (Z.div_unique csr 256 3 (csr - 768)) by lia.
Qed.

Lemma csr_write_confined csr v s :
  sup_wf s → csr_priv csr <> 3 → wp True (csr_write csr v) (λ _, m_kept s) s.
Proof.
  intros Hs Hp. pose proof (m_kept_refl s) as Hk. unfold csr_write.
  repeat match goal with
  | |- wp _ (if csr =? _ then _ else _) _ _ => apply wp_if; [intros ->%Z.eqb_eq|intros ?]
  | |- wp _ (if _ then _ else _) _ _ => apply wp_if; intros ?
  end; try (exfalso; by apply Hp); try apply wp_modify; try exact Hk.
  - by apply m_kept_fcsr.
  - by apply m_kept_fcsr.
  - by apply m_kept_fcsr.
  - exfalso. by apply Hp, csr_priv_pmp; left.
  - exfalso. by apply Hp, csr_priv_pmp; right.
  - split_and!; try done. cbn -[Z.ldiff MStatus.to_bits MStatus.from_bits SSTATUS_MASK].
    rewrite sstatus_read by apply Hs. apply ldiff_view.
  - split_and!; try done. apply ldiff_merge; [apply Hs|done].
  - apply m_kept_note. exact Hk.
  - split_and!; try done. apply ldiff_merge; [apply Hs|done].
  - unfold write_satp. apply wp_bind, wp_get, wp_bind, wp_modify, wp_if; intros _; [|exact Hk].
    apply wp_bind, wp_get, wp_bind, wp_lift. case_match; [|done].
    do 3 (apply wp_bind, wp_modify). apply wp_modify, m_kept_switch. exact Hk.
Qed.
End Confined.

(** * The interpreter and compiled code, and confinement *)

Section Ops.
Context {B : Type} `{Bus B} `{Profile} `{Target}.

Lemma csr_read_keeps csr s b :
  wp True (csr_read csr) (λ _ sb, m_kept s sb.1 ∧ (sup_wf s → sup_wf sb.1)) (s, b).
Proof.
  unfold csr_read. apply wp_if; intros _.
  - apply wp_bind, wp_on_snd. unfold wp at 1. destruct (read_mtime b) as [[v b']|]; [|done].
    apply wp_bind, wp_on_fst, wp_modify, wp_bind, wp_on_fst, wp_get, wp_bind, wp_on_fst, wp_lift.
    destruct (add_u _ _ _); [|done]. apply wp_bind, wp_on_fst, wp_modify, wp_ret.
    split; [exact (m_kept_refl s)|]. intros Hs. by do 2 apply diag_wf.
  - apply wp_on_fst, wp_get. split; [apply m_kept_refl|done].
Qed.

Lemma hart_confined {A} (m : M Cpu.t A) s s1 (b : B) (Q : A → Sup.t * B → Prop) :
  (∀ a s2, m_kept s s2 → Q a (s2, b)) → m_kept s s1 →
  wp True (on_self (Sup.on_cpu m)) Q (s1, b).
Proof.
  intros HQ Hk. apply wp_on_fst, wp_zoom. unfold wp.
  destruct (m (Sup.cpu s1)) as [[a c]|]; [|exact I]. apply HQ. exact Hk.
Qed.

Lemma csr_op_confined csr rd rs1 v read clear width s b :
  sup_wf s → csr_priv csr <> 3 →
  (priv_code (Sup.priv_level s) <? csr_priv csr) = false → tvm_traps s csr = false →
  (negb read || negb (rs1 =? 0)) && read_only csr = false →
  wp True (csr_op csr rd rs1 v read clear width) (λ st sb, st = Running ∧ m_kept s sb.1) (s, b).
Proof.
  intros Hs Hp Hl Ht Hr. unfold csr_op. apply wp_bind, wp_on_fst, wp_get. cbn [id].
  rewrite Hl, Ht. cbv zeta. rewrite Hr. apply wp_bind.
  eapply wp_mono; [apply csr_read_keeps|]. intros old [s1 b1] [Hk Hw]. cbn [fst] in *.
  apply wp_bind, (wp_mono _ _ (λ _ sb, m_kept s sb.1)).
  - apply wp_if; intros _; [|done]. apply wp_on_fst. eapply wp_mono; [apply csr_write_confined; auto|].
    intros [] s2 Hk2. cbn. by eapply m_kept_trans.
  - intros [] [s2 b2] Hk2. cbn [fst] in *. apply wp_bind, (hart_confined _ s); [|done]. intros [] s3 Hk3.
    apply wp_bind, (hart_confined _ s); [|done]. intros [] s4 Hk4. by apply wp_ret.
Qed.

(** C18: code below machine mode cannot reach machine state through a CSR
    instruction.  It either traps as an illegal instruction or retires, and
    when it retires every machine-level register, the interrupt bits outside
    the supervisor's three, the [mstatus] fields outside [sstatus] and the
    privilege level are what they were. *)
Theorem lower_levels_confined csr rd rs1 v read clear width s b :
  sup_wf s → Sup.priv_level s ≠ PMachine →
  csr_op csr rd rs1 v read clear width (s, b)
    = on_self (take_trap (TException IllegalInstruction)) (s, b)
  ∨ wp True (csr_op csr rd rs1 v read clear width)
       (λ st sb, st = Running ∧ m_kept s sb.1) (s, b).
Proof.
  intros Hs Hp. destruct (priv_code (Sup.priv_level s) <? csr_priv csr) eqn:Hl;
    [left; unfold csr_op; rewrite M_bind_run, self_get_run; cbn [id]; by rewrite Hl|].
  destruct (tvm_traps s csr) eqn:Ht;
    [left; unfold csr_op; rewrite M_bind_run, self_get_run; cbn [id]; by rewrite Hl, Ht|].
  destruct ((negb read || negb (rs1 =? 0)) && read_only csr) eqn:Hr;
    [left; unfold csr_op; rewrite M_bind_run, self_get_run; cbn [id]; cbv zeta; by rewrite Hl, Ht, Hr|].
  right. apply csr_op_confined; try done. intros E. rewrite E in Hl. by destruct (Sup.priv_level s).
Qed.

(** C24: compiled code runs the CSR instructions as the interpreter does.  When
    [csr_jit] asks for a re-run it has changed nothing and the interpreter
    raises an illegal-instruction trap; otherwise the interpreter ends in the
    state [csr_jit] left with the program counter moved past the instruction,
    and panics exactly when [csr_jit] does. *)
Theorem csr_jit_matches_interpreter csr rd src val kind width s b :
  csr_op csr rd src val (negb (kind =? 0)) (kind =? 2) width (s, b)
  = match csr_jit csr rd src val kind (s, b) with
    | Some (true, sb) => on_self (take_trap (TException IllegalInstruction)) (s, b)
    | Some (false, (s', b')) => Some (Running, (advanced width s', b'))
    | None => None
    end
  ∧ (∀ sb, csr_jit csr rd src val kind (s, b) = Some (true, sb) → sb = (s, b)).
Proof.
  unfold csr_op, csr_jit. rewrite !M_bind_run, !self_get_run. cbn [id].
  destruct (_ <? _); [by split; [|intros ? [= <-]]|].
  destruct (tvm_traps _ _); [by split; [|intros ? [= <-]]|]. cbv zeta.
  destruct (_ && read_only _); [by split; [|intros ? [= <-]]|].
  rewrite !M_bind_run. destruct (csr_read csr (s, b)) as [[old [s1 b1]]|]; [|done].
  rewrite !M_bind_run.
  match goal with |- context [match ?m (s1, b1) with _ => _ end] =>
    destruct (m (s1, b1)) as [[[] [s2 b2]]|]; [|done] end.
  rewrite !M_bind_run.
  destruct (on_self _ _) as [[[] [s3 b3]]|]; [|done]. by split.
Qed.

(** What a CSR write does to every register of the hart.  The register reads
    back with its legal value ([legal]: the implemented bits of [mstatus] with
    XLEN fixed, the supervisor's view of [mstatus], [mie] and [mip] merged,
    54-bit PMP addresses, a supported [satp] mode, the three views of [fcsr]);
    every register that does not share state with it reads as before.  The only
    panic is that of the generation statistics on a [satp] write in a build with
    overflow checks. *)
Theorem csr_write_effect csr v s :
  sup_wf s → urange 64 v →
  wp (overflow_checks = true ∧ csr = 0x180) (csr_write csr v)
    (λ _ s', csr_get s' csr = legal s csr v
             ∧ ∀ csr', csr_touches csr csr' = false → csr_get s' csr' = csr_get s csr') s.
Proof. apply csr_write_written. Qed.
End Ops.

Definition in_s_mode (s : Sup.t) : Sup.t := s <| Sup.priv_level := PSupervisor |>.

Lemma csr_write_effect_witness :
  wp False (@csr_write Release Wasm32 0x100 0xFFFFFFFFFFFFFFFF)
    (λ _ s', csr_get s' 0x100 = 0x8000000B000DE722
             ∧ csr_get s' 0x305 = 0) (Sup.new 0x80000000 0).
Proof.
  apply (wp_weaken (@overflow_checks Release = true ∧ 0x100 = 0x180)); [by intros []|].
  eapply wp_mono.
  - apply (@csr_write_effect Release Wasm32).
    + apply sup_new_wf; by unfold urange.
    + by unfold urange.
  - intros [] s' [Hr Hf]. split; [rewrite Hr; vm_compute; reflexivity|].
    by rewrite (Hf 0x305).
Defined.

Lemma lower_levels_confined_witness :
  let s := in_s_mode (Sup.new 0x80000000 0) in
  let op := @csr_op Release Wasm32 Ram.t Ram.bus 0x100 5 6 0xFFFFFFFFFFFFFFFF false false 4 in
  op (s, ∅) = on_self (@take_trap Release (TException IllegalInstruction)) (s, ∅)
  ∨ wp True op (λ st sb, st = Running ∧ m_kept s sb.1) (s, ∅).
Proof.
  apply lower_levels_confined; [|done].
  assert (Hs : sup_wf (Sup.new 0x80000000 0)) by (apply sup_new_wf; by unfold urange).
  unfold in_s_mode. revert Hs. wf_upd.
Defined.
