(* ===== verification/Plic.v ===== *)
(** The platform-level interrupt controller ([riscv-devices/src/device_bus.rs]:
    [struct Plic], [DeviceBus::plic_read] and [plic_write]).

    The controller keeps a bitmap of the claimable sources beside the raw lines
    and the in-service flags, so that the per-instruction poll walks only set
    bits.  The file relates the bitmap and the bit-twiddling scan to the
    specification of a claim: the source of highest priority above the
    threshold, the lowest number among equals. *)

From S2P Require Import Prelude Keeps.

Definition PLIC_BASE : Z := 0x0C000000.
Definition PLIC_SIZE : Z := 0x00600000.
Definition PLIC_NSRC : nat := 96.
Definition PLIC_NCTX : nat := 8.
(** [PLIC_NSRC.div_ceil(32)] *)
Definition PLIC_WORDS : nat := 3.
Definition UART_IRQ : nat := 10.

(** [u32::trailing_zeros] *)
Fixpoint tz_from (n : nat) (k : Z) (x : Z) : Z :=
  match n with
  | O => k
  | S n => if Z.testbit x k then k else tz_from n (k + 1) x
  end.
Definition trailing_zeros (x : Z) : Z := tz_from 32 0 x.

Module Plic.
Record t := mk {
  priority : list Z;
  level : list bool;
  claimed : list bool;
  enable : list (list Z);
  threshold : list Z;
  claimable : list Z;
}.
#[global] Instance eta_plic : Eta t :=
  λ p, mk (priority p) (level p) (claimed p) (enable p) (threshold p) (claimable p).

Definition new : t :=
  mk (replicate PLIC_NSRC 0) (replicate PLIC_NSRC false) (replicate PLIC_NSRC false)
     (replicate PLIC_NCTX (replicate PLIC_WORDS 0)) (replicate PLIC_NCTX 0)
     (replicate PLIC_WORDS 0).

(** [v[i]] and [v[i] = x] on an array: out of range is a panic. *)
Definition at_ {A} (f : t → list A) (i : nat) : M t A := l ← get f; lift (l !! i).
Definition set_at {A} (l : list A) (i : nat) (x : A) : option (list A) :=
  if decide (i < length l)%nat then Some (<[i := x]> l) else None.

Definition recalc_claimable (irq : nat) : M t unit :=
  let b := Z.shiftl 1 (Z.of_nat (irq mod 32)) in
  lv ← at_ level irq;
  cl ← (if lv : bool then at_ claimed irq else mret false);
  w ← at_ claimable (irq / 32)%nat;
  let w' := if lv && negb cl then Z.lor w b else Z.land w (unot 32 b) in
  modify (λ p, p <| claimable := <[(irq / 32)%nat := w']> (claimable p) |>).

Definition set_level (irq : nat) (lv : bool) : M t unit :=
  old ← at_ level irq;
  if negb (Bool.eqb old lv) then
    modify (λ p, p <| level := <[irq := lv]> (level p) |>);;
    recalc_claimable irq
  else mret tt.

(** The array accesses of the scan are in range: a word index is below 3 and a
    bit index below 32, and [threshold] is read only after the test on [ctx]. *)
Definition enabled (p : t) (ctx irq : nat) : bool :=
  (ctx <? PLIC_NCTX)%nat
  && negb (Z.land (Z.shiftr ((enable p !!! ctx) !!! (irq / 32)%nat) (Z.of_nat (irq mod 32))) 1 =? 0).

(** One source of the scan: [best] and [best_prio] after it. *)
Definition consider (p : t) (ctx : nat) (acc : nat * Z) (irq : nat) : nat * Z :=
  if (irq =? 0)%nat || negb (enabled p ctx irq) then acc
  else
    let pr := priority p !!! irq in
    if (threshold p !!! ctx <? pr) && (acc.2 <? pr) then (irq, pr) else acc.

(** [while bits != 0]: every pass clears the lowest set bit, so 32 passes empty
    a [u32]. *)
Fixpoint scan_word (fuel : nat) (p : t) (ctx w : nat) (bits : Z) (acc : nat * Z) : nat * Z :=
  match fuel with
  | O => acc
  | S fuel =>
      if bits =? 0 then acc
      else
        let b := Z.to_nat (trailing_zeros bits) in
        let bits := Z.land bits (bits - 1) in
        scan_word fuel p ctx w bits (consider p ctx acc (w * 32 + b))
  end.

Definition scan (p : t) (ctx : nat) : nat * Z :=
  foldl (λ acc w, scan_word 32 p ctx w (claimable p !!! w) acc) (0%nat, 0)
        (seq 0 PLIC_WORDS).
Definition best (p : t) (ctx : nat) : nat := (scan p ctx).1.

Definition any_pending (p : t) : bool :=
  if forallb (λ w, w =? 0) (claimable p) then false
  else existsb (λ ctx, negb (best p ctx =? 0)%nat) (seq 0 PLIC_NCTX).

Definition claim (ctx : nat) : M t Z :=
  irq ← get (λ p, best p ctx);
  (if negb (irq =? 0)%nat then
     cl ← get claimed; cl' ← lift (set_at cl irq true);
     modify (λ p, p <| claimed := cl' |>);;
     recalc_claimable irq
   else mret tt);;
  mret (as_u32 (Z.of_nat irq)).

Definition complete (irq : Z) : M t unit :=
  if irq <? Z.of_nat PLIC_NSRC then
    cl ← get claimed; cl' ← lift (set_at cl (Z.to_nat irq) false);
    modify (λ p, p <| claimed := cl' |>);;
    recalc_claimable (Z.to_nat irq)
  else mret tt.

(** ** The register file *)

(** [lo..=hi] of an integer [match] *)
Definition within (lo hi x : Z) : bool := (lo <=? x) && (x <=? hi).

(** The pending word is computed from the lines, not from the bitmap. *)
Definition pending_word (p : t) (word : nat) : Z :=
  foldl (λ bits b,
      let irq := (word * 32 + b)%nat in
      if (irq <? PLIC_NSRC)%nat && (level p !!! irq) && negb (claimed p !!! irq)
      then Z.lor bits (Z.shiftl 1 (Z.of_nat b)) else bits)
    0 (seq 0 32).

Definition plic_read (addr : Z) : M t Z :=
  let off := addr - PLIC_BASE in
  if within 0x0000 0x0FFF off then
    let irq := Z.to_nat (off / 4) in
    if (irq <? PLIC_NSRC)%nat then at_ priority irq else mret 0
  else if within 0x1000 0x1FFF off then
    let word := Z.to_nat ((off - 0x1000) / 4) in
    if (PLIC_WORDS <=? word)%nat then mret 0 else get (λ p, pending_word p word)
  else if within 0x2000 0x1FFFFF off then
    let ctx := Z.to_nat ((off - 0x2000) / 0x80) in
    let word := Z.to_nat ((off - 0x2000) mod 0x80 / 4) in
    if (ctx <? PLIC_NCTX)%nat && (word <? PLIC_WORDS)%nat
    then row ← at_ enable ctx; lift (row !! word) else mret 0
  else if within 0x200000 0x3FFFFFF off then
    let ctx := Z.to_nat ((off - 0x200000) / 0x1000) in
    let reg := (off - 0x200000) mod 0x1000 in
    if reg =? 0x0 then if (ctx <? PLIC_NCTX)%nat then at_ threshold ctx else mret 0
    else if reg =? 0x4 then if (ctx <? PLIC_NCTX)%nat then claim ctx else mret 0
    else mret 0
  else mret 0.

Definition plic_write (addr val : Z) : M t unit :=
  let off := addr - PLIC_BASE in
  if within 0x0000 0x0FFF off then
    let irq := Z.to_nat (off / 4) in
    if (irq <? PLIC_NSRC)%nat then
      l ← get priority; l' ← lift (set_at l irq val);
      modify (λ p, p <| priority := l' |>)
    else mret tt
  else if within 0x1000 0x1FFF off then mret tt
  else if within 0x2000 0x1FFFFF off then
    let ctx := Z.to_nat ((off - 0x2000) / 0x80) in
    let word := Z.to_nat ((off - 0x2000) mod 0x80 / 4) in
    if (ctx <? PLIC_NCTX)%nat && (word <? PLIC_WORDS)%nat then
      row ← at_ enable ctx; row' ← lift (set_at row word val);
      modify (λ p, p <| enable := <[ctx := row']> (enable p) |>)
    else mret tt
  else if within 0x200000 0x3FFFFFF off then
    let ctx := Z.to_nat ((off - 0x200000) / 0x1000) in
    let reg := (off - 0x200000) mod 0x1000 in
    if reg =? 0x0 then
      if (ctx <? PLIC_NCTX)%nat then
        l ← get threshold; l' ← lift (set_at l ctx val);
        modify (λ p, p <| threshold := l' |>)
      else mret tt
    else if reg =? 0x4 then complete val
    else mret tt
  else mret tt.
End Plic.

(** * The specification *)

(** A source is pending while its line is up and it is not in service. *)
Definition pending (p : Plic.t) (i : nat) : bool :=
  (Plic.level p !!! i) && negb (Plic.claimed p !!! i).

Definition eligible (p : Plic.t) (ctx i : nat) : bool :=
  (1 <=? i)%nat && (i <? PLIC_NSRC)%nat && pending p i && Plic.enabled p ctx i
  && (Plic.threshold p !!! ctx <? Plic.priority p !!! i).

(** [r] is what a claim by [ctx] has to return: 0 when nothing is eligible,
    otherwise the eligible source of highest priority, the lowest numbered one
    among equals. *)
Definition is_best (p : Plic.t) (ctx r : nat) : Prop :=
  if (r =? 0)%nat then ∀ i, eligible p ctx i = false
  else eligible p ctx r = true
       ∧ ∀ i, eligible p ctx i = true →
              Plic.priority p !!! i < Plic.priority p !!! r
              ∨ (Plic.priority p !!! i = Plic.priority p !!! r ∧ (r <= i)%nat).

(** The array lengths and element widths of the Rust types, and the bitmap that
    summarises the lines. *)
Record plic_wf (p : Plic.t) : Prop := {
  pw_priority : length (Plic.priority p) = PLIC_NSRC ∧ Forall (urange 32) (Plic.priority p);
  pw_level : length (Plic.level p) = PLIC_NSRC;
  pw_claimed : length (Plic.claimed p) = PLIC_NSRC;
  pw_enable : length (Plic.enable p) = PLIC_NCTX
              ∧ Forall (λ row, length row = PLIC_WORDS ∧ Forall (urange 32) row) (Plic.enable p);
  pw_threshold : length (Plic.threshold p) = PLIC_NCTX ∧ Forall (urange 32) (Plic.threshold p);
  pw_claimable : length (Plic.claimable p) = PLIC_WORDS ∧ Forall (urange 32) (Plic.claimable p);
  pw_bitmap i : (i < PLIC_NSRC)%nat →
    Z.testbit (Plic.claimable p !!! (i / 32)%nat) (Z.of_nat (i mod 32)) = pending p i;
}.

(** * Scanning a word *)

Lemma tz_from_lowest n k x :
  (∃ j, k <= j < k + Z.of_nat n ∧ Z.testbit x j = true) →
  k <= tz_from n k x < k + Z.of_nat n ∧ Z.testbit x (tz_from n k x) = true
  ∧ ∀ i, k <= i < tz_from n k x → Z.testbit x i = false.
Proof.
  revert k. induction n as [|n IH]; intros k (j & Hj & Ht); [lia|]. cbn [tz_from].
  destruct (Z.testbit x k) eqn:E; [split_and!; [lia..|done|]; lia|].
  assert (j ≠ k) by congruence.
  destruct (IH (k + 1)) as (Hr & Hb & Hl); [exists j; split; [lia|done]|].
  split_and!; [lia..|done|]. intros i Hi. destruct (decide (i = k)); [by subst|]. apply Hl. lia.
Qed.

(** Clearing the lowest set bit. *)
Lemma clear_lowest x k :
  0 <= k → Z.testbit x k = true → (∀ i, 0 <= i < k → Z.testbit x i = false) →
  ∀ i, 0 <= i → Z.testbit (Z.land x (x - 1)) i = Z.testbit x i && negb (i =? k).
Proof.
  intros Hk Ht Hl.
  assert (Hm : x mod 2 ^ k = 0).
  { apply Z.bits_inj'. intros i Hi. rewrite Z.bits_0. destruct (Z.ltb_spec i k).
    - rewrite Z.mod_pow2_bits_low by lia. apply Hl. lia.
    - apply Z.mod_pow2_bits_high. lia. }
  assert (Hp : 0 < 2 ^ k) by (by apply pow2_pos).
  set (q := x / 2 ^ k). assert (Hx : x = q * 2 ^ k) by (unfold q; rewrite Z.mul_comm; apply Z.div_exact; lia).
  assert (Hodd : Z.odd q = true).
  { rewrite <- Z.bit0_odd. unfold q. rewrite Z.div_pow2_bits by lia. by rewrite Z.add_0_l. }
  assert (Hx1 : x - 1 = (q - 1) * 2 ^ k + (2 ^ k - 1)) by lia.
  intros i Hi. rewrite Z.land_spec. destruct (Z.ltb_spec i k).
  - rewrite Hl by lia. done.
  - assert (Hb : Z.testbit (x - 1) i = Z.testbit (q - 1) (i - k)).
    { replace i with (i - k + k) at 1 by lia. rewrite <- Z.div_pow2_bits by lia. rewrite Hx1, Z.div_add_l, (Z.div_small (2 ^ k - 1)) by lia.
      by rewrite Z.add_0_r. }
    assert (Hb' : Z.testbit x i = Z.testbit q (i - k)).
    { unfold q. rewrite Z.div_pow2_bits by lia. f_equal. lia. }
    rewrite Hb, Hb'. destruct (Z.eqb_spec i k) as [->|Hn].
    + rewrite Z.sub_diag, !Z.bit0_odd, Z.odd_sub, Hodd. done.
    + assert (Hh : (q - 1) / 2 = q / 2).
      { rewrite (Z.div_mod q 2) at 1 by lia. rewrite Zmod_odd, Hodd.
        replace (2 * (q / 2) + 1 - 1) with (q / 2 * 2) by lia. by rewrite Z.div_mul. }
      replace (i - k) with (Z.succ (i - k - 1)) by lia.
      rewrite <- !Z.div2_bits by lia. rewrite Hh. by rewrite andb_diag, andb_true_r.
Qed.

Lemma testbit_any x n : urange (Z.of_nat n) x → x ≠ 0 → ∃ j, 0 <= j < 0 + Z.of_nat n ∧ Z.testbit x j = true.
Proof.
  intros [Hx Hn] Hz. exists (Z.log2 x). split; [|by apply Z.bit_log2; lia].
  pose proof (Z.log2_nonneg x). assert (Z.log2 x < Z.of_nat n) by (apply Z.log2_lt_pow2; lia). lia.
Qed.

Lemma foldl_ext_in {A B} (f g : A → B → A) l a :
  (∀ a x, x ∈ l → f a x = g a x) → foldl f a l = foldl g a l.
Proof.
  revert a. induction l as [|x l IH]; intros a He; cbn; [done|].
  rewrite He by set_solver. apply IH. intros. apply He. set_solver.
Qed.

(** The scan of a word visits its set bits in increasing order. *)
Lemma scan_word_visits p ctx w n : ∀ k bits acc fuel,
  (n <= fuel)%nat → (k + n <= 32)%nat → urange (Z.of_nat (k + n)) bits →
  (∀ i, 0 <= i < Z.of_nat k → Z.testbit bits i = false) →
  Plic.scan_word fuel p ctx w bits acc
  = foldl (λ acc b, if Z.testbit bits (Z.of_nat b)
                    then Plic.consider p ctx acc (w * 32 + b) else acc) acc (seq k n).
Proof.
  induction n as [|n IH]; intros k bits acc fuel Hf Hk Hr Hl.
  - replace (k + 0)%nat with k in Hr by lia. assert (bits = 0) as ->.
    { apply Z.bits_inj'. intros i Hi. rewrite Z.bits_0.
      destruct (Z.ltb_spec i (Z.of_nat k)); [apply Hl; lia|apply (urange_testbit (Z.of_nat k)); [done|lia]]. }
    by destruct fuel.
  - cbn [seq foldl]. destruct (Z.testbit bits (Z.of_nat k)) eqn:E.
    + destruct fuel as [|fuel]; [lia|]. cbn [Plic.scan_word].
      assert (bits ≠ 0) by (intros ->; by rewrite Z.bits_0 in E).
      destruct (Z.eqb_spec bits 0); [done|].
      destruct (tz_from_lowest 32 0 bits) as (Hb & Ht & Hn); [exists (Z.of_nat k); split; [lia|done]|].
      assert (Htz : trailing_zeros bits = Z.of_nat k).
      { unfold trailing_zeros in *. destruct (Z.lt_trichotomy (tz_from 32 0 bits) (Z.of_nat k)) as [Hc|[Hc|Hc]]; [|done|].
        - rewrite Hl in Ht by lia. done.
        - rewrite Hn in E by lia. done. }
      rewrite Htz, Nat2Z.id.
      assert (Hc : ∀ i, 0 <= i → Z.testbit (Z.land bits (bits - 1)) i
                                 = Z.testbit bits i && negb (i =? Z.of_nat k)).
      { apply clear_lowest; [lia|done|done]. }
      rewrite (IH (S k)); [|lia|lia| |].
      * apply foldl_ext_in. intros a b Hb'%elem_of_seq. rewrite Hc by lia.
        destruct (Z.eqb_spec (Z.of_nat b) (Z.of_nat k)); [lia|]. by rewrite andb_true_r.
      * replace (S k + n)%nat with (k + S n)%nat by lia. apply urange_land_l; [lia|done].
      * intros i Hi. rewrite Hc by lia. destruct (Z.eqb_spec i (Z.of_nat k)); [apply andb_false_r|].
        rewrite Hl by lia. done.
    + apply IH; [lia|lia| |].
      * by replace (S k + n)%nat with (k + S n)%nat by lia.
      * intros i Hi. destruct (decide (i = Z.of_nat k)); [by subst|]. apply Hl. lia.
Qed.

(** * The scan finds the best source *)

Section Best.
Context (p : Plic.t) (Hp : plic_wf p) (ctx : nat).

Lemma claimable_word w : (w < PLIC_WORDS)%nat → urange 32 (Plic.claimable p !!! w).
Proof.
  intros Hw. destruct (pw_claimable _ Hp) as [Hl Hf].
  rewrite Forall_lookup in Hf. apply (Hf w), list_lookup_lookup_total_lt. lia.
Qed.

(** The three words together visit the pending sources in increasing order. *)
Lemma scan_visits :
  Plic.scan p ctx
  = foldl (λ acc i, if pending p i then Plic.consider p ctx acc i else acc) (0%nat, 0)
      (seq 0 PLIC_NSRC).
Proof.
  assert (Hw : ∀ w acc, (w < PLIC_WORDS)%nat →
    Plic.scan_word 32 p ctx w (Plic.claimable p !!! w) acc
    = foldl (λ acc i, if pending p i then Plic.consider p ctx acc i else acc) acc (seq (w * 32) 32)).
  { intros w acc Hw. rewrite (scan_word_visits p ctx w 32 0); [|lia|lia|by apply claimable_word|lia].
    replace (seq (w * 32) 32) with ((λ b, w * 32 + b)%nat <$> seq 0 32)
      by (by rewrite fmap_add_seq, Nat.add_0_r).
    rewrite foldl_fmap. apply foldl_ext_in. intros a b Hb%elem_of_seq.
    rewrite <- (pw_bitmap _ Hp) by (unfold PLIC_NSRC, PLIC_WORDS in *; lia).
    replace ((w * 32 + b) / 32)%nat with w by (rewrite Nat.div_add_l, Nat.div_small; lia).
    replace ((w * 32 + b) mod 32)%nat with b; [done|].
    rewrite Nat.add_comm, Nat.Div0.mod_add, Nat.mod_small; lia. }
  assert (seq 0 PLIC_NSRC = seq (0 * 32) 32 ++ seq (1 * 32) 32 ++ seq (2 * 32) 32) as -> by reflexivity.
  unfold Plic.scan. change (seq 0 PLIC_WORDS) with [0%nat; 1%nat; 2%nat].
  rewrite !foldl_app, <- !Hw by (unfold PLIC_WORDS; lia). reflexivity.
Qed.

(** After the sources below [n]: the best of them so far. *)
Definition best_below (n : nat) (acc : nat * Z) : Prop :=
  (acc = (0%nat, 0) ∧ ∀ i, (i < n)%nat → eligible p ctx i = false)
  ∨ (eligible p ctx acc.1 = true ∧ (acc.1 < n)%nat ∧ acc.2 = Plic.priority p !!! acc.1
     ∧ ∀ i, (i < n)%nat → eligible p ctx i = true →
         Plic.priority p !!! i < acc.2 ∨ (Plic.priority p !!! i = acc.2 ∧ (acc.1 <= i)%nat)).

Lemma threshold_nonneg : 0 <= Plic.threshold p !!! ctx.
Proof.
  destruct (pw_threshold _ Hp) as [_ Hf]. rewrite Forall_lookup in Hf.
  rewrite list_lookup_total_alt. destruct (Plic.threshold p !! ctx) eqn:E; [|done].
  apply Hf in E. unfold urange in E. cbn. lia.
Qed.

Lemma consider_eligible acc i :
  (i < PLIC_NSRC)%nat →
  (if pending p i then Plic.consider p ctx acc i else acc)
  = if eligible p ctx i && (acc.2 <? Plic.priority p !!! i)
    then (i, Plic.priority p !!! i) else acc.
Proof.
  intros Hi. unfold eligible, Plic.consider.
  destruct (Nat.ltb_spec i PLIC_NSRC); [|lia].
  destruct (Nat.eqb_spec i 0) as [->|]; [by destruct (pending p 0)|].
  destruct (Nat.leb_spec 1 i); [|lia].
  destruct (pending p i), (Plic.enabled p ctx i); done.
Qed.

Lemma best_below_step n acc :
  (n < PLIC_NSRC)%nat → best_below n acc →
  best_below (S n) (if pending p n then Plic.consider p ctx acc n else acc).
Proof.
  intros Hn Hb. rewrite consider_eligible by done. pose proof threshold_nonneg as Ht.
  destruct (eligible p ctx n) eqn:En; cbn [andb].
  - assert (Hpos : Plic.threshold p !!! ctx < Plic.priority p !!! n).
    { unfold eligible in En. rewrite !andb_true_iff in En. lia. }
    destruct (Z.ltb_spec acc.2 (Plic.priority p !!! n)).
    + right. cbn. split_and!; [done|lia|done|]. intros i Hi Hei.
      destruct (decide (i = n)) as [->|]; [by right|left].
      destruct Hb as [[-> Hb]|(_ & _ & _ & Hb)]; [rewrite Hb in Hei by lia; done|].
      destruct (Hb i ltac:(lia) Hei); lia.
    + destruct Hb as [[-> Hb]|(He & Hl & Hpr & Hb)]; [cbn in *; lia|].
      right. split_and!; [done|lia|done|]. intros i Hi Hei.
      destruct (decide (i = n)) as [->|]; [|apply Hb; [lia|done]].
      destruct (Z.eqb_spec (Plic.priority p !!! n) acc.2); [right; lia|left; lia].
  - destruct Hb as [[-> Hb]|(He & Hl & Hpr & Hb)].
    + left. split; [done|]. intros i Hi. destruct (decide (i = n)) as [->|]; [done|apply Hb; lia].
    + right. split_and!; [done|lia|done|]. intros i Hi Hei.
      destruct (decide (i = n)) as [->|]; [congruence|apply Hb; [lia|done]].
Qed.

Lemma best_below_scan : best_below PLIC_NSRC (Plic.scan p ctx).
Proof.
  rewrite scan_visits.
  assert (H : ∀ n, (n <= PLIC_NSRC)%nat →
    best_below n (foldl (λ acc i, if pending p i then Plic.consider p ctx acc i else acc)
                        (0%nat, 0) (seq 0 n))).
  { induction n as [|n IH]; intros Hn; [left; split; [done|lia]|].
    rewrite seq_S, foldl_app. cbn [foldl]. apply best_below_step; [lia|]. apply IH. lia. }
  by apply H.
Qed.

Lemma eligible_range i : eligible p ctx i = true → (0 < i < PLIC_NSRC)%nat.
Proof. unfold eligible. rewrite !andb_true_iff, Nat.leb_le, Nat.ltb_lt. intuition lia. Qed.

Lemma best_is_best : is_best p ctx (Plic.best p ctx).
Proof.
  pose proof best_below_scan as Hs. unfold is_best, Plic.best.
  generalize dependent (Plic.scan p ctx). intros [r pr] [[[= -> ->] Hb]|(He & Hl & Hpr & Hb)];
    cbn [fst snd] in *.
  - cbn. intros i. destruct (eligible p ctx i) eqn:E; [|done].
    pose proof (eligible_range i E). rewrite Hb in E by lia. done.
  - pose proof (eligible_range _ He). destruct (Nat.eqb_spec r 0); [lia|].
    split; [done|]. intros i Hi. rewrite <- Hpr. apply Hb; [|done]. by apply eligible_range.
Qed.
End Best.

#[local] Opaque Plic.scan Plic.best.

Lemma best_nonzero p ctx :
  plic_wf p → Plic.best p ctx ≠ 0%nat ↔ ∃ i, eligible p ctx i = true.
Proof.
  intros Hp. pose proof (best_is_best p Hp ctx) as Hb. unfold is_best in Hb.
  destruct (Nat.eqb_spec (Plic.best p ctx) 0) as [E|Hn].
  - split; [by intros []|]. intros [i Hi]. by rewrite Hb in Hi.
  - split; [|done]. intros _. exists (Plic.best p ctx). apply Hb.
Qed.

(** The shortcut of [any_pending]: an empty bitmap has no eligible source. *)
Lemma bitmap_empty p ctx i :
  plic_wf p → forallb (λ w, w =? 0) (Plic.claimable p) = true → eligible p ctx i = false.
Proof.
  intros Hp Hz. destruct (eligible p ctx i) eqn:He; [|done].
  pose proof (eligible_range p ctx i He) as Hi. unfold eligible in He. rewrite !andb_true_iff in He.
  destruct He as [[[_ Hpe] _] _]. rewrite <- (pw_bitmap _ Hp) in Hpe by lia.
  rewrite forallb_forall in Hz. destruct (pw_claimable _ Hp) as [Hl _].
  assert (Hw : Plic.claimable p !! (i / 32)%nat = Some (Plic.claimable p !!! (i / 32)%nat)).
  { apply list_lookup_lookup_total_lt. rewrite Hl. apply Nat.Div0.div_lt_upper_bound.
    unfold PLIC_NSRC, PLIC_WORDS in *. lia. }
  apply list_elem_of_lookup_2, list_elem_of_In, Hz, Z.eqb_eq in Hw.
  rewrite Hw, Z.bits_0 in Hpe. done.
Qed.

Lemma any_pending_iff p :
  plic_wf p →
  Plic.any_pending p = true ↔ ∃ ctx i, (ctx < PLIC_NCTX)%nat ∧ eligible p ctx i = true.
Proof.
  intros Hp. unfold Plic.any_pending. destruct (forallb _ _) eqn:Hz.
  - split; [done|]. intros (ctx & i & _ & He). by rewrite bitmap_empty in He.
  - rewrite existsb_exists. split.
    + intros (ctx & Hc%in_seq & Hb%negb_true_iff%Nat.eqb_neq). apply best_nonzero in Hb as [i Hi]; [|done].
      exists ctx, i. split; [lia|done].
    + intros (ctx & i & Hc & He). exists ctx. split; [apply in_seq; lia|].
      apply negb_true_iff, Nat.eqb_neq, best_nonzero; [done|by exists i].
Qed.

(** * Every operation keeps the bitmap in step with the lines *)

(** Everything but the bitmap. *)
Definition plic_shape (p : Plic.t) : Prop :=
  (length (Plic.priority p) = PLIC_NSRC ∧ Forall (urange 32) (Plic.priority p))
  ∧ length (Plic.level p) = PLIC_NSRC ∧ length (Plic.claimed p) = PLIC_NSRC
  ∧ (length (Plic.enable p) = PLIC_NCTX
     ∧ Forall (λ row, length row = PLIC_WORDS ∧ Forall (urange 32) row) (Plic.enable p))
  ∧ (length (Plic.threshold p) = PLIC_NCTX ∧ Forall (urange 32) (Plic.threshold p))
  ∧ length (Plic.claimable p) = PLIC_WORDS ∧ Forall (urange 32) (Plic.claimable p).

Lemma wf_shape p : plic_wf p → plic_shape p.
Proof. intros []. unfold plic_shape. tauto. Qed.

Definition bit_ok (p : Plic.t) (i : nat) : Prop :=
  Z.testbit (Plic.claimable p !!! (i / 32)%nat) (Z.of_nat (i mod 32)) = pending p i.

Lemma shape_wf p : plic_shape p → (∀ i, (i < PLIC_NSRC)%nat → bit_ok p i) → plic_wf p.
Proof. intros Hs Hb. unfold plic_shape in Hs. destruct_and!. by constructor. Qed.

Lemma testbit_pow2 b i : 0 <= b → Z.testbit (Z.shiftl 1 b) i = (i =? b).
Proof. intros. rewrite Z.shiftl_1_l, Z.pow2_bits_eqb by done. apply Z.eqb_sym. Qed.

Lemma set_bit_word w b (c : bool) i :
  urange 32 w → 0 <= b < 32 → 0 <= i →
  Z.testbit (if c then Z.lor w (Z.shiftl 1 b) else Z.land w (unot 32 (Z.shiftl 1 b))) i
  = if i =? b then c else Z.testbit w i.
Proof.
  intros Hw Hb Hi. destruct c.
  - rewrite Z.lor_spec, testbit_pow2 by lia. by destruct (i =? b); rewrite ?orb_true_r, ?orb_false_r.
  - unfold unot. rewrite Z.land_spec, testbit_wrap, Z.lnot_spec, testbit_pow2 by lia.
    destruct (Z.eqb_spec i b) as [->|]; [by rewrite !andb_false_r|].
    destruct (Z.ltb_spec i 32); [by rewrite !andb_true_r|].
    by rewrite (urange_testbit 32 w) by (done || lia).
Qed.

Lemma set_bit_range w b (c : bool) :
  urange 32 w → 0 <= b < 32 →
  urange 32 (if c then Z.lor w (Z.shiftl 1 b) else Z.land w (unot 32 (Z.shiftl 1 b))).
Proof.
  intros Hw Hb. destruct c; [|by apply urange_land_l].
  apply urange_lor; [lia|done|]. unfold urange. rewrite Z.shiftl_1_l.
  pose proof (Z.pow_pos_nonneg 2 b). pose proof (Z.pow_lt_mono_r 2 b 32). lia.
Qed.

Lemma get_at {A} (f : Plic.t → list A) i p x :
  f p !! i = Some x → Plic.at_ f i p = Some (x, p).
Proof. intros E. unfold Plic.at_, mbind, M_bind, get, lift. by rewrite E. Qed.

(** A lookup within an array of known length. *)
Lemma lookup_in {A} `{Inhabited A} (l : list A) n i :
  length l = n → (i < n)%nat → l !! i = Some (l !!! i).
Proof. intros <- ?. by apply list_lookup_lookup_total_lt. Qed.

(** [recalc_claimable] makes the bitmap right at [irq] and leaves the other bits. *)
Lemma recalc_step p irq :
  plic_shape p → (irq < PLIC_NSRC)%nat →
  ∃ l, let p' := p <| Plic.claimable := l |> in
    Plic.recalc_claimable irq p = Some (tt, p') ∧ plic_shape p'
    ∧ ∀ i, (i < PLIC_NSRC)%nat → i = irq ∨ bit_ok p i → bit_ok p' i.
Proof.
  intros Hs Hi. pose proof Hs as (_ & Hlv & Hcl & _ & _ & Hcb & Hcr).
  assert (Hw : (irq / 32 < PLIC_WORDS)%nat).
  { apply Nat.Div0.div_lt_upper_bound. unfold PLIC_NSRC, PLIC_WORDS in *. lia. }
  assert (Hm : (irq mod 32 < 32)%nat) by (apply Nat.mod_upper_bound; lia).
  set (w := Plic.claimable p !!! (irq / 32)%nat).
  set (b := Z.of_nat (irq mod 32)).
  set (w' := if pending p irq then Z.lor w (Z.shiftl 1 b) else Z.land w (unot 32 (Z.shiftl 1 b))).
  assert (Hwr : urange 32 w).
  { rewrite Forall_lookup in Hcr. apply (Hcr (irq / 32)%nat). by apply (lookup_in _ PLIC_WORDS). }
  exists (<[(irq / 32)%nat := w']> (Plic.claimable p)). cbv zeta. split_and!.
  - unfold Plic.recalc_claimable. cbv zeta.
    rewrite (M_bind_some _ _ _ (Plic.level p !!! irq) p); [|by apply get_at, (lookup_in _ PLIC_NSRC)].
    set (lv := Plic.level p !!! irq : bool).
    assert (Hc : (if lv then Plic.at_ Plic.claimed irq else mret false) p
                 = Some (lv && (Plic.claimed p !!! irq), p)).
    { destruct lv; [by apply get_at, (lookup_in _ PLIC_NSRC)|done]. }
    rewrite (M_bind_some _ _ _ _ _ Hc).
    rewrite (M_bind_some _ _ _ w p); [|by apply get_at, (lookup_in _ PLIC_WORDS)].
    replace (lv && negb (lv && (Plic.claimed p !!! irq)))
      with (pending p irq) by (unfold pending; fold lv; by destruct lv).
    done.
  - unfold plic_shape in *. destruct_and!. cbn. rewrite length_insert. split_and!; try done.
    apply Forall_insert; [done|]. apply set_bit_range; [done|lia].
  - intros i Hin Hb. change (Z.testbit (<[(irq / 32)%nat := w']> (Plic.claimable p) !!! (i / 32)%nat)
              (Z.of_nat (i mod 32)) = pending p i).
    destruct (decide (i / 32 = irq / 32)%nat) as [E|E].
    + rewrite E, list_lookup_total_insert_eq by lia. unfold w'. rewrite set_bit_word by (done || (subst b; lia)).
      destruct (Z.eqb_spec (Z.of_nat (i mod 32)) b) as [Eb|Eb].
      * assert (i = irq) as ->; [|done].
        rewrite (Nat.div_mod_eq i 32), (Nat.div_mod_eq irq 32). lia.
      * unfold w. rewrite <- E. destruct Hb as [->|Hb]; [done|exact Hb].
    + rewrite list_lookup_total_insert_ne by done. destruct Hb as [->|Hb]; [done|exact Hb].
Qed.

Lemma recalc_run p irq :
  plic_shape p → (irq < PLIC_NSRC)%nat →
  (∀ i, (i < PLIC_NSRC)%nat → i ≠ irq → bit_ok p i) →
  ∃ l, Plic.recalc_claimable irq p = Some (tt, p <| Plic.claimable := l |>)
       ∧ plic_wf (p <| Plic.claimable := l |>).
Proof.
  intros Hs Hi Hb. destruct (recalc_step p irq Hs Hi) as (l & E & Hs' & Hb'). exists l. split; [done|].
  apply shape_wf; [done|]. intros i Hin. apply Hb'; [done|]. destruct (decide (i = irq)); [by left|right; by apply Hb].
Qed.

(** Changing the flags of one source leaves the bitmap right elsewhere. *)
Lemma flags_shape p lv cl :
  plic_wf p → length lv = PLIC_NSRC → length cl = PLIC_NSRC →
  plic_shape (p <| Plic.level := lv |> <| Plic.claimed := cl |>).
Proof. intros Hp ? ?. pose proof (wf_shape p Hp) as Hs. unfold plic_shape in *. destruct_and!. by split_and!. Qed.

Lemma insert_other {A} `{Inhabited A} (l : list A) i j x : j ≠ i → <[i := x]> l !!! j = l !!! j.
Proof. intros. by apply list_lookup_total_insert_ne. Qed.

Lemma set_level_run p irq lv :
  plic_wf p → (irq < PLIC_NSRC)%nat →
  ∃ l, Plic.set_level irq lv p
       = Some (tt, p <| Plic.level := <[irq := lv]> (Plic.level p) |> <| Plic.claimable := l |>)
       ∧ plic_wf (p <| Plic.level := <[irq := lv]> (Plic.level p) |> <| Plic.claimable := l |>).
Proof.
  intros Hp Hi. pose proof (pw_level _ Hp) as Hl. unfold Plic.set_level.
  assert (Hlk : Plic.level p !! irq = Some (Plic.level p !!! irq)) by (by apply (lookup_in _ PLIC_NSRC)).
  rewrite (M_bind_some _ _ _ (Plic.level p !!! irq) p) by (by apply get_at).
  destruct (Bool.eqb_spec (Plic.level p !!! irq) lv) as [E|E]; cbn [negb].
  - exists (Plic.claimable p). rewrite list_insert_id by congruence. by destruct p.
  - apply (recalc_run (p <| Plic.level := <[irq := lv]> (Plic.level p) |>)); [|done|].
    + refine (flags_shape p (<[irq := lv]> (Plic.level p)) (Plic.claimed p) Hp _ _);
        [by rewrite length_insert|apply Hp].
    + intros i Hin Hne. pose proof (pw_bitmap _ Hp i Hin) as Hb. unfold bit_ok, pending in *.
      cbn [Plic.level Plic.claimed Plic.claimable set_field]. by rewrite insert_other.
Qed.

(** Putting a source in service or taking it out. *)
Lemma set_claimed_run p irq c :
  plic_wf p → (irq < PLIC_NSRC)%nat →
  ∃ l, (cl ← get Plic.claimed; cl' ← lift (Plic.set_at cl irq c);
        modify (λ p, p <| Plic.claimed := cl' |>);; Plic.recalc_claimable irq) p
       = Some (tt, p <| Plic.claimed := <[irq := c]> (Plic.claimed p) |> <| Plic.claimable := l |>)
       ∧ plic_wf (p <| Plic.claimed := <[irq := c]> (Plic.claimed p) |> <| Plic.claimable := l |>).
Proof.
  intros Hp Hi. pose proof (pw_claimed _ Hp) as Hl.
  unfold mbind at 1, M_bind at 1, get. unfold Plic.set_at. rewrite decide_True by lia.
  apply (recalc_run (p <| Plic.claimed := <[irq := c]> (Plic.claimed p) |>)); [|done|].
  - refine (flags_shape p (Plic.level p) (<[irq := c]> (Plic.claimed p)) Hp _ _);
      [apply Hp|by rewrite length_insert].
  - intros i Hin Hne. pose proof (pw_bitmap _ Hp i Hin) as Hb. unfold bit_ok, pending in *.
    cbn [Plic.level Plic.claimed Plic.claimable set_field]. by rewrite insert_other.
Qed.

Lemma best_range p ctx : plic_wf p → (Plic.best p ctx < PLIC_NSRC)%nat.
Proof.
  intros Hp. pose proof (best_is_best p Hp ctx) as Hb. unfold is_best in Hb.
  destruct (Nat.eqb_spec (Plic.best p ctx) 0) as [->|]; [unfold PLIC_NSRC; lia|].
  destruct Hb as [He _]. apply eligible_range in He. lia.
Qed.

(** The state a claim or a completion leaves. *)
Definition in_service (p : Plic.t) (irq : nat) (c : bool) (p' : Plic.t) : Prop :=
  ∃ l, p' = p <| Plic.claimed := <[irq := c]> (Plic.claimed p) |> <| Plic.claimable := l |>.

Lemma claim_run p ctx :
  plic_wf p →
  ∃ p', Plic.claim ctx p = Some (Z.of_nat (Plic.best p ctx), p') ∧ plic_wf p'
        ∧ (if (Plic.best p ctx =? 0)%nat then p' = p else in_service p (Plic.best p ctx) true p').
Proof.
  intros Hp. pose proof (best_range p ctx Hp) as Hr. unfold Plic.claim.
  rewrite (M_bind_some _ _ _ (Plic.best p ctx) p) by done.
  assert (Hw : as_u32 (Z.of_nat (Plic.best p ctx)) = Z.of_nat (Plic.best p ctx)).
  { apply wrap_small. unfold urange, PLIC_NSRC in *. lia. }
  destruct (Nat.eqb_spec (Plic.best p ctx) 0) as [E|E]; cbn [negb].
  - exists p. rewrite (M_bind_some _ _ _ tt p) by done. by rewrite Hw.
  - destruct (set_claimed_run p (Plic.best p ctx) true Hp Hr) as (l & Hrun & Hwf).
    eexists. rewrite (M_bind_some _ _ _ _ _ Hrun), Hw. split_and!; [done|done|by exists l].
Qed.

Lemma complete_run p irq :
  plic_wf p → 0 <= irq →
  ∃ p', Plic.complete irq p = Some (tt, p') ∧ plic_wf p'
        ∧ (if irq <? Z.of_nat PLIC_NSRC then in_service p (Z.to_nat irq) false p' else p' = p).
Proof.
  intros Hp Hi. unfold Plic.complete. destruct (Z.ltb_spec irq (Z.of_nat PLIC_NSRC)).
  - destruct (set_claimed_run p (Z.to_nat irq) false Hp) as (l & Hrun & Hwf); [lia|].
    eexists. split_and!; [exact Hrun|done|by exists l].
  - by exists p.
Qed.

(** * The register file keeps the invariant *)

Lemma foldl_inv {A B} (P : A → Prop) (f : A → B → A) l a :
  P a → (∀ a x, x ∈ l → P a → P (f a x)) → P (foldl f a l).
Proof.
  revert a. induction l as [|x l IH]; intros a Ha Hf; cbn; [done|].
  apply IH; [apply Hf; set_solver|]. intros. apply Hf; set_solver.
Qed.

Lemma pending_word_range p w : urange 32 (Plic.pending_word p w).
Proof.
  unfold Plic.pending_word. apply (foldl_inv (urange 32)); [by unfold urange|]. intros bits b Hb%elem_of_seq Hr. case_match; [|done].
  apply (set_bit_range bits (Z.of_nat b) true); [done|lia].
Qed.

Lemma set_at_some {A} (l : list A) n i x :
  length l = n → (i < n)%nat → Plic.set_at l i x = Some (<[i := x]> l).
Proof. intros <- ?. unfold Plic.set_at. by rewrite decide_True. Qed.

Lemma wp_at {A} `{Inhabited A} P (f : Plic.t → list A) n i (Q : A → Plic.t → Prop) p :
  length (f p) = n → (i < n)%nat → Q (f p !!! i) p → wp P (Plic.at_ f i) Q p.
Proof. intros Hl Hi HQ. eapply wp_some; [by apply get_at, (lookup_in _ n)|done]. Qed.

Lemma Forall_at {A} `{Inhabited A} (P : A → Prop) l n i :
  Forall P l → length l = n → (i < n)%nat → P (l !!! i).
Proof. rewrite Forall_lookup. intros Hf ? ?. by apply (Hf i), (lookup_in _ n). Qed.

(** Split the address decoding of a register access. *)
Ltac plic_arms :=
  repeat match goal with
  | |- wp _ (if _ then _ else _) _ _ => apply wp_if; intros ?
  | H : (_ && _) = true |- _ => apply andb_true_iff in H as [??]
  | H : (_ <? _)%nat = true |- _ => apply Nat.ltb_lt in H
  end.

(** A read changes the state only by claiming. *)
Lemma plic_read_run p addr :
  plic_wf p →
  wp False (Plic.plic_read addr)
    (λ v p', urange 32 v ∧ plic_wf p' ∧ (p' = p ∨ ∃ ctx, Plic.claim ctx p = Some (v, p'))) p.
Proof.
  intros Hp. unfold Plic.plic_read. cbv zeta. plic_arms; try (apply wp_ret; split_and!; [done|done|by left]).
  - destruct (pw_priority _ Hp). eapply wp_at; [done..|]. split_and!; [by eapply Forall_at|done|by left].
  - apply wp_get. split_and!; [apply pending_word_range|done|by left].
  - destruct (pw_enable _ Hp) as [Hl Hf]. apply wp_bind. eapply wp_at; [done..|].
    match goal with H : (_ < PLIC_NCTX)%nat |- _ => destruct (Forall_at _ _ _ _ Hf Hl H) as [Hlr Hr] end.
    apply wp_lift. rewrite (lookup_in _ PLIC_WORDS) by done.
    split_and!; [by eapply Forall_at|done|by left].
  - destruct (pw_threshold _ Hp). eapply wp_at; [done..|]. split_and!; [by eapply Forall_at|done|by left].
  - set (ctx := Z.to_nat ((addr - PLIC_BASE - 0x200000) / 0x1000)).
    destruct (claim_run p ctx Hp) as (p' & Hr & Hw & _). eapply wp_some; [exact Hr|].
    split_and!; [|done|right; by exists ctx].
    pose proof (best_range p ctx Hp). unfold urange, PLIC_NSRC in *. lia.
Qed.

(** A write leaves the lines alone, and takes a source out of service only
    through the claim/complete register. *)
Lemma plic_write_run p addr val :
  plic_wf p → urange 32 val →
  wp False (Plic.plic_write addr val)
    (λ _ p', plic_wf p' ∧ Plic.level p' = Plic.level p
             ∧ (Plic.claimed p' = Plic.claimed p
                ∨ (0x200000 <= addr - PLIC_BASE ∧ (addr - PLIC_BASE - 0x200000) mod 0x1000 = 4
                   ∧ Plic.complete val p = Some (tt, p')))) p.
Proof.
  intros Hp Hv. unfold Plic.plic_write. cbv zeta.
  plic_arms; try (apply wp_ret; split_and!; [done|done|by left]).
  - destruct (pw_priority _ Hp). apply wp_bind, wp_get, wp_bind, wp_lift.
    rewrite (set_at_some _ PLIC_NSRC) by done. apply wp_modify. split_and!; [|done|by left].
    destruct Hp. constructor; try assumption. cbn. split; [by rewrite length_insert|by apply Forall_insert].
  - destruct (pw_enable _ Hp) as [Hl Hf]. apply wp_bind. eapply wp_at; [done..|].
    match goal with H : (_ < PLIC_NCTX)%nat |- _ => destruct (Forall_at _ _ _ _ Hf Hl H) as [Hlr Hr] end.
    apply wp_bind, wp_lift. rewrite (set_at_some _ PLIC_WORDS) by done. apply wp_modify.
    split_and!; [|done|by left].
    destruct Hp. constructor; try assumption. cbn. split; [by rewrite length_insert|].
    apply Forall_insert; [done|]. split; [by rewrite length_insert|by apply Forall_insert].
  - destruct (pw_threshold _ Hp). apply wp_bind, wp_get, wp_bind, wp_lift.
    rewrite (set_at_some _ PLIC_NCTX) by done. apply wp_modify. split_and!; [|done|by left].
    destruct Hp. constructor; try assumption. cbn. split; [by rewrite length_insert|by apply Forall_insert].
  - destruct (complete_run p val Hp) as (p' & Hr & Hw & Hs); [unfold urange in Hv; lia|].
    eapply wp_some; [exact Hr|]. split_and!; [done| |right; unfold Plic.within in *; split_and!; [lia|lia|done]].
    destruct (val <? _); [|by subst]. by destruct Hs as [l ->].
Qed.

Lemma plic_new_wf : plic_wf Plic.new.
Proof.
  constructor; try done.
  - split; [done|]. apply Forall_replicate. by unfold urange.
  - split; [done|]. apply Forall_replicate. split; [done|]. apply Forall_replicate. by unfold urange.
  - split; [done|]. apply Forall_replicate. by unfold urange.
  - split; [done|]. apply Forall_replicate. by unfold urange.
  - intros i Hi. unfold Plic.new, pending. cbn -[replicate Nat.div Nat.modulo].
    rewrite (lookup_total_replicate_2 PLIC_NSRC false) by done.
    rewrite (lookup_total_replicate_2 PLIC_WORDS 0); [apply Z.bits_0|].
    apply Nat.Div0.div_lt_upper_bound. unfold PLIC_NSRC, PLIC_WORDS in *. lia.
Qed.

(** * Traffic on the controller *)

(** A line changing, or the guest touching a register. *)
Inductive plic_op :=
  | PLine (irq : nat) (lv : bool)
  | PRead (addr : Z)
  | PWrite (addr val : Z).

Definition plic_op_ok (o : plic_op) : Prop :=
  match o with
  | PLine irq _ => (irq < PLIC_NSRC)%nat
  | PRead _ => True
  | PWrite _ val => urange 32 val
  end.

Definition plic_exec (o : plic_op) : M Plic.t Z :=
  match o with
  | PLine irq lv => Plic.set_level irq lv;; mret 0
  | PRead addr => Plic.plic_read addr
  | PWrite addr val => Plic.plic_write addr val;; mret 0
  end.

Fixpoint plic_run (ops : list plic_op) : M Plic.t (list Z) :=
  match ops with
  | [] => mret []
  | o :: ops => v ← plic_exec o; vs ← plic_run ops; mret (v :: vs)
  end.

(** A store of [r] to the claim/complete register of some context. *)
Definition completes (r : nat) (o : plic_op) : bool :=
  match o with
  | PWrite addr val =>
      (0x200000 <=? addr - PLIC_BASE) && ((addr - PLIC_BASE - 0x200000) mod 0x1000 =? 4)
      && (val =? Z.of_nat r)
  | _ => false
  end.

(** The source stays in service through every operation but its completion. *)
Definition serving (r : nat) (p : Plic.t) : Prop :=
  plic_wf p ∧ (r < PLIC_NSRC)%nat ∧ Plic.claimed p !!! r = true.

Lemma claimed_insert p irq (c : bool) r :
  plic_wf p → Plic.claimed p !!! r = true → (c = true ∨ irq ≠ r) →
  <[irq := c]> (Plic.claimed p) !!! r = true.
Proof.
  intros Hp Hr Hc. destruct (decide (irq = r)) as [->|].
  - destruct Hc as [->|]; [|done]. destruct (decide (r < length (Plic.claimed p))%nat).
    + by apply list_lookup_total_insert_eq.
    + by rewrite list_insert_ge by lia.
  - by rewrite list_lookup_total_insert_ne.
Qed.

Lemma best_not_claimed p ctx r :
  plic_wf p → Plic.claimed p !!! r = true → r ≠ 0%nat → Plic.best p ctx ≠ r.
Proof.
  intros Hp Hc Hr E. pose proof (best_is_best p Hp ctx) as Hb. rewrite E in Hb. unfold is_best in Hb.
  destruct (Nat.eqb_spec r 0); [done|]. destruct Hb as [He _].
  unfold eligible, pending in He. rewrite Hc in He. rewrite !andb_false_r in He. done.
Qed.

Lemma claim_serving r p ctx v p' : serving r p → Plic.claim ctx p = Some (v, p') → serving r p'.
Proof.
  intros (Hp & Hr & Hs) E. destruct (claim_run p ctx Hp) as (p1 & E1 & Hw & Hc).
  rewrite E1 in E. injection E as _ <-. split_and!; [done..|].
  destruct (_ =? _)%nat; [by subst|]. destruct Hc as [l ->]. apply claimed_insert; auto.
Qed.

Lemma complete_serving r p val p' :
  serving r p → urange 32 val → val ≠ Z.of_nat r → Plic.complete val p = Some (tt, p') → serving r p'.
Proof.
  intros (Hp & Hr & Hs) Hv Hn E. destruct (complete_run p val Hp) as (p1 & E1 & Hw & Hc);
    [unfold urange in Hv; lia|].
  rewrite E1 in E. injection E as <-. split_and!; [done..|].
  destruct (val <? _); [|by subst]. destruct Hc as [l ->]. apply claimed_insert; [done..|].
  right. unfold urange in Hv. lia.
Qed.

Lemma plic_exec_serving r o p :
  serving r p → plic_op_ok o → completes r o = false →
  wp False (plic_exec o) (λ _ p', serving r p') p.
Proof.
  intros Hs Ho Hn. pose proof Hs as (Hp & Hr & Hc). destruct o as [irq lv|addr|addr val]; cbn [plic_exec].
  - destruct (set_level_run p irq lv Hp Ho) as (l & E & Hw). apply wp_bind. eapply wp_some; [exact E|].
    by apply wp_ret.
  - eapply wp_mono; [by apply plic_read_run|]. intros v p' (_ & Hw & [->|[ctx E]]); [done|].
    by eapply claim_serving.
  - apply wp_bind. eapply wp_mono; [by apply plic_write_run|]. intros [] p' (Hw & _ & Hcl). apply wp_ret.
    destruct Hcl as [E|(Ha & Hm & E)]; [split_and!; [done..|]; by rewrite E|].
    eapply complete_serving; [done..| |exact E]. intros ->. unfold completes in Hn.
    rewrite !andb_false_iff in Hn. cbn in Ho. lia.
Qed.

Lemma plic_run_serving r ops p :
  serving r p → Forall plic_op_ok ops → Forall (λ o, completes r o = false) ops →
  wp False (plic_run ops) (λ _ p', serving r p') p.
Proof.
  revert p. induction ops as [|o ops IH]; intros p Hs Ho Hn; cbn [plic_run]; [done|].
  apply Forall_cons in Ho as [Ho1 Ho2]. apply Forall_cons in Hn as [Hn1 Hn2].
  apply wp_bind. eapply wp_mono; [by apply (plic_exec_serving r)|]. intros v p' Hs'.
  apply wp_bind. eapply wp_mono; [by apply IH|]. intros vs p'' Hs''. by apply wp_ret.
Qed.

Lemma plic_exec_wf o p :
  plic_wf p → plic_op_ok o → wp False (plic_exec o) (λ _ p', plic_wf p') p.
Proof.
  intros Hp Ho. destruct o as [irq lv|addr|addr val]; cbn [plic_exec].
  - destruct (set_level_run p irq lv Hp Ho) as (l & E & Hw). apply wp_bind. by eapply wp_some.
  - eapply wp_mono; [by apply plic_read_run|]. by intros v p' (_ & Hw & _).
  - apply wp_bind. eapply wp_mono; [by apply plic_write_run|]. by intros [] p' (Hw & _).
Qed.

Lemma plic_run_wf ops p :
  plic_wf p → Forall plic_op_ok ops → wp False (plic_run ops) (λ _ p', plic_wf p') p.
Proof.
  intros Hp Ho. revert p Hp. induction Ho as [|o ops Ho _ IH]; intros p Hp; cbn [plic_run]; [done|].
  apply wp_bind. eapply wp_mono; [by apply plic_exec_wf|]. intros v p' Hw.
  apply wp_bind. eapply wp_mono; [by apply IH|]. intros vs p'' Hw'. by apply wp_ret.
Qed.

(** The guest programs two sources for context 1 and both lines go up. *)
Definition demo_ops : list plic_op :=
  [PWrite (PLIC_BASE + 4 * 10) 3; PWrite (PLIC_BASE + 4 * 2) 5;
   PWrite (PLIC_BASE + 0x2080) 0x404; PWrite (PLIC_BASE + 0x201000) 1;
   PLine 10 true; PLine 2 true].
Definition demo_plic : Plic.t :=
  match plic_run demo_ops Plic.new with Some (_, p) => p | None => Plic.new end.

Lemma demo_plic_wf : plic_wf demo_plic.
Proof.
  assert (Ho : Forall plic_op_ok demo_ops).
  { repeat constructor; cbn; unfold urange; try lia. }
  destruct (wp_total _ _ _ (plic_run_wf demo_ops Plic.new plic_new_wf Ho)) as (vs & p & E & Hw).
  unfold demo_plic. by rewrite E.
Qed.

(** * Properties *)

(** C11: a read of the claim register implements the PLIC specification.  It
    returns the eligible source (line up, not in service, enabled for the
    context, priority above the threshold) of highest priority, the lowest
    numbered one among equals, and 0 when there is none; it puts exactly that
    source in service and leaves priorities, lines, enables and thresholds
    alone; and the external-interrupt line the hart polls is up exactly when
    some context has something to claim. *)
Theorem plic_claim_refines p ctx :
  plic_wf p →
  (∃ r p', Plic.claim ctx p = Some (Z.of_nat r, p') ∧ is_best p ctx r ∧ plic_wf p'
     ∧ Plic.priority p' = Plic.priority p ∧ Plic.level p' = Plic.level p
     ∧ Plic.enable p' = Plic.enable p ∧ Plic.threshold p' = Plic.threshold p
     ∧ ∀ i, (i < PLIC_NSRC)%nat →
         Plic.claimed p' !!! i = (negb (r =? 0) && (i =? r))%nat || Plic.claimed p !!! i)
  ∧ (Plic.any_pending p = true
     ↔ ∃ c i, (c < PLIC_NCTX)%nat ∧ eligible p c i = true).
Proof.
  intros Hp. split; [|by apply any_pending_iff].
  destruct (claim_run p ctx Hp) as (p' & E & Hw & Hc). exists (Plic.best p ctx), p'.
  split; [done|]. split; [by apply best_is_best|]. split; [done|].
  destruct (Nat.eqb_spec (Plic.best p ctx) 0) as [E0|E0]; [by subst|].
  destruct Hc as [l ->]. split_and!; [done..|]. intros i Hi.
  cbn [Plic.claimed set_field negb andb].
  destruct (Nat.eqb_spec i (Plic.best p ctx)) as [->|Hne].
  - apply list_lookup_total_insert_eq. by rewrite (pw_claimed _ Hp).
  - by apply list_lookup_total_insert_ne.
Qed.

Lemma plic_claim_refines_witness :
  (∃ r p', Plic.claim 1 demo_plic = Some (Z.of_nat r, p') ∧ is_best demo_plic 1 r ∧ plic_wf p')
  ∧ Plic.best demo_plic 1 = 2%nat.
Proof.
  split; [|reflexivity].
  destruct (plic_claim_refines demo_plic 1 demo_plic_wf) as [(r & p' & H1 & H2 & H3 & _) _].
  exists r, p'. exact (conj H1 (conj H2 H3)).
Defined.

(** C34: a source in service is not handed out again.  After a claim returned
    [r], whatever happens on the controller (lines going up and down, registers
    read and written, claims by any context), no claim returns [r] until [r] is
    written to a claim/complete register; none of this traffic can panic. *)
Theorem plic_exclusive_service p ctx r p1 ops ctx' :
  plic_wf p → Plic.claim ctx p = Some (Z.of_nat r, p1) → r ≠ 0%nat →
  Forall plic_op_ok ops → Forall (λ o, completes r o = false) ops →
  ∃ vs p2 r' p3, plic_run ops p1 = Some (vs, p2)
                 ∧ Plic.claim ctx' p2 = Some (Z.of_nat r', p3) ∧ r' ≠ r.
Proof.
  intros Hp E Hr Ho Hn. destruct (claim_run p ctx Hp) as (p' & E' & Hw & Hc).
  pose proof (best_range p ctx Hp) as Hbr.
  rewrite E' in E. injection E as Hb%Nat2Z.inj <-. rewrite Hb in Hc, Hbr.
  destruct (Nat.eqb_spec r 0); [done|]. destruct Hc as [l Hc].
  assert (Hs : serving r p').
  { split_and!; [done..|]. rewrite Hc. apply list_lookup_total_insert_eq. by rewrite (pw_claimed _ Hp). }
  destruct (wp_total _ _ _ (plic_run_serving r ops p' Hs Ho Hn)) as (vs & p2 & E2 & Hs2 & _ & Hc2).
  destruct (claim_run p2 ctx' Hs2) as (p3 & E3 & _). exists vs, p2, (Plic.best p2 ctx'), p3.
  split_and!; [done..|]. by apply best_not_claimed.
Qed.

Lemma plic_exclusive_service_witness :
  ∃ vs p2 r' p3,
    plic_run [PLine 2 false; PLine 2 true; PRead (PLIC_BASE + 0x1000)]
      (match Plic.claim 1 demo_plic with Some (_, p) => p | None => demo_plic end) = Some (vs, p2)
    ∧ Plic.claim 1 p2 = Some (Z.of_nat r', p3) ∧ r' ≠ 2%nat.
Proof.
  apply (plic_exclusive_service demo_plic 1 2).
  - exact demo_plic_wf.
  - vm_compute. reflexivity.
  - discriminate.
  - repeat constructor; cbn; unfold PLIC_NSRC; lia.
  - repeat constructor.
Defined.
