(* ===== verification/Stream.v ===== *)
(** Composing snapshot readers.

    A [load_state] body is a chain of [self.field = r.u32()?]: [bind_some] is
    the [?] of a function that returns an option, [load_into] the assignment.
    [reads] and [loads] say that a reader consumes exactly the bytes a writer
    produced; they compose along the chain, so that the round trip of a long
    body is the round trip of its fields.  [wrote] is the same for writers. *)

From S2P Require Import Prelude Keeps State.

Definition bind_some {S A B} (m : M S (option A)) (k : A → M S (option B)) : M S (option B) :=
  o ← m; match o with None => mret None | Some a => k a end.
Notation "'let?' x := m 'in' k" := (bind_some m (λ x, k))
  (at level 10, x pattern, k at level 200).

Definition load_into {S A B} (m : M Reader.t (option A)) (f : A → S → S)
    (k : M (S * Reader.t) (option B)) : M (S * Reader.t) (option B) :=
  let? x := on_snd m in (on_fst (modify (f x));; k).

(** [for i in 0..n { .. ? }] *)
Fixpoint for_some {St} (n : nat) (i : nat) (body : nat → M St (option unit)) : M St (option unit) :=
  match n with
  | O => mret (Some tt)
  | S n => let? _ := body i in for_some n (S i) body
  end.

(** A host whose [usize] is no wider than the [u64] counts of a stream. *)
Class TargetOk (T : Target) : Prop := usize_ok : 32 <= usize_bits <= 64.
#[global] Instance native_ok : TargetOk Native64.
Proof. done. Qed.
#[global] Instance wasm_ok : TargetOk Wasm32.
Proof. done. Qed.

Lemma usize_wide `{TargetOk} : 32 <= usize_bits.
Proof. pose proof usize_ok. lia. Qed.

(** [isize::MAX] and [usize::MAX] *)
Lemma usize_half `{TargetOk} :
  2 ^ usize_bits = 2 * 2 ^ (usize_bits - 1) ∧ 2 ^ 31 <= 2 ^ (usize_bits - 1) <= 2 ^ 63.
Proof.
  assert (32 <= usize_bits <= 64) by (pose proof usize_ok; lia). split.
  - rewrite <- Z.pow_succ_r by lia. f_equal. lia.
  - split; apply Z.pow_le_mono_r; lia.
Qed.

Section Reads.
Context {PR : Profile} {T : Target} {Ht : TargetOk T}.

(** The stream fits the host's address space. *)
Definition fits (l : list Z) : Prop := urange usize_bits (Z.of_nat (length l)).

Definition reads {A} (m : M Reader.t (option A)) (l : list Z) (a : A) : Prop :=
  ∀ pre post, fits (pre ++ l) →
  m (Reader.mk (pre ++ l ++ post) (Z.of_nat (length pre)))
  = Some (Some a, Reader.mk (pre ++ l ++ post) (Z.of_nat (length (pre ++ l)))).

Definition loads {S B} (m : M (S * Reader.t) (option B)) (l : list Z) (f : S → S) (b : B) : Prop :=
  ∀ s pre post, fits (pre ++ l) →
  m (s, Reader.mk (pre ++ l ++ post) (Z.of_nat (length pre)))
  = Some (Some b, (f s, Reader.mk (pre ++ l ++ post) (Z.of_nat (length (pre ++ l))))).

Lemma fits_prefix a b : fits (a ++ b) → fits a.
Proof. unfold fits, urange. rewrite length_app. lia. Qed.

Lemma reads_ret {A} (a : A) : reads (mret (Some a)) [] a.
Proof. intros pre post _. by rewrite app_nil_r. Qed.

Lemma reads_bind {A B} (m : M Reader.t (option A)) (k : A → M Reader.t (option B)) l l' a b :
  reads m l a → reads (k a) l' b → reads (bind_some m k) (l ++ l') b.
Proof.
  intros Hm Hk pre post Hf. unfold bind_some. rewrite <- app_assoc.
  erewrite M_bind_eq; [|apply Hm; rewrite app_assoc in Hf; by apply fits_prefix in Hf].
  cbn beta iota. rewrite (app_assoc pre l). rewrite Hk by (by rewrite <- app_assoc).
  by rewrite <- !app_assoc.
Qed.

Lemma reads_u8 v : urange 8 v → reads Reader.u8 [v] v.
Proof. intros Hv pre post Hf. unfold Reader.u8, mbind, M_bind. by rewrite (take_exact pre [v]). Qed.
Lemma reads_u16 v : urange 16 v → reads Reader.u16 (to_le_bytes 2 v) v.
Proof. intros Hv pre post Hf. by apply (fixed_exact pre v 2). Qed.
Lemma reads_u32 v : urange 32 v → reads Reader.u32 (to_le_bytes 4 v) v.
Proof. intros Hv pre post Hf. by apply (fixed_exact pre v 4). Qed.
Lemma reads_u64 v : urange 64 v → reads Reader.u64 (to_le_bytes 8 v) v.
Proof. intros Hv pre post Hf. by apply (fixed_exact pre v 8). Qed.
Lemma reads_bool v : reads Reader.bool [b2z v] v.
Proof.
  intros pre post Hf. unfold Reader.bool, mbind, M_bind. rewrite (take_exact pre [b2z v]) by done.
  by destruct v.
Qed.
Lemma reads_bytes v :
  reads Reader.bytes (to_le_bytes 8 (Z.of_nat (length v)) ++ v) v.
Proof. intros pre post Hf. pose proof usize_ok. by apply bytes_exact; [lia|]. Qed.

Lemma loads_ext {S B} (m : M (S * Reader.t) (option B)) l f g (b : B) :
  loads m l f b → (∀ s, f s = g s) → loads m l g b.
Proof. intros Hm He s pre post Hf. rewrite Hm by done. by rewrite He. Qed.

Lemma loads_ret {S} : loads (S := S) (mret (Some tt)) [] id tt.
Proof. intros s pre post _. by rewrite app_nil_r. Qed.

Lemma loads_bind {S A B} (m : M (S * Reader.t) (option A)) k l l' f g (a : A) (b : B) :
  loads m l f a → loads (k a) l' g b → loads (bind_some m k) (l ++ l') (g ∘ f) b.
Proof.
  intros Hm Hk s pre post Hf. unfold bind_some. rewrite <- app_assoc.
  erewrite M_bind_eq; [|apply Hm; rewrite app_assoc in Hf; by apply fits_prefix in Hf].
  cbn beta iota. rewrite (app_assoc pre l). rewrite Hk by (by rewrite <- app_assoc).
  by rewrite <- !app_assoc.
Qed.

Lemma loads_reads {S A} (m : M Reader.t (option A)) l a :
  reads m l a → loads (S := S) (on_snd m) l id a.
Proof. intros Hm s pre post Hf. unfold on_snd. by rewrite Hm. Qed.

Lemma loads_into {S A B} (m : M Reader.t (option A)) (f : A → S → S) k l l' a g (b : B) :
  reads m l a → loads k l' g b → loads (load_into m f k) (l ++ l') (g ∘ f a) b.
Proof.
  intros Hm Hk. unfold load_into. change (g ∘ f a) with ((g ∘ f a) ∘ (@id S)).
  eapply loads_bind; [by apply loads_reads|]. intros s pre post Hf.
  unfold mbind, M_bind, on_fst, modify. by rewrite Hk.
Qed.

(** The last field of a chain: nothing follows. *)
Lemma loads_into_last {S A} (m : M Reader.t (option A)) (f : A → S → S) l a :
  reads m l a → loads (load_into m f (mret (Some tt))) l (f a) tt.
Proof.
  intros Hm. rewrite <- (app_nil_r l). exact (loads_into m f _ l [] a id tt Hm loads_ret).
Qed.

Lemma loads_for {St X} (xs : list X) (body : nat → M (St * Reader.t) (option unit))
    (bytes : X → list Z) (step : nat → X → St → St) : ∀ i,
  (∀ k x, xs !! k = Some x → loads (body (i + k)%nat) (bytes x) (step (i + k)%nat x) tt) →
  loads (for_some (length xs) i body) (concat (bytes <$> xs))
    (λ s, (foldl (λ '(j, s) x, (j + 1, step j x s))%nat (i, s) xs).2) tt.
Proof.
  induction xs as [|x xs IH]; intros i Hb; cbn [for_some length fmap list_fmap concat foldl].
  - apply loads_ret.
  - intros s. eapply (loads_bind _ _ _ _ (step i x)
      (λ s, (foldl (λ '(j, s) x, (j + 1, step j x s))%nat ((i + 1)%nat, s) xs).2)).
    + specialize (Hb 0%nat x eq_refl). by rewrite Nat.add_0_r in Hb.
    + replace (S i) with (i + 1)%nat by lia. apply IH. intros k y Hy.
      specialize (Hb (S k) y Hy). by replace (i + 1 + k)%nat with (i + S k)%nat by lia.
Qed.
End Reads.

(** * Writers *)

(** [f] appends [l]. *)
Definition wrote (f : Writer.t → Writer.t) (l : list Z) : Prop :=
  ∀ w, Writer.buf (f w) = Writer.buf w ++ l.

Lemma wrote_u8 v : wrote (λ w, Writer.u8 w v) [v].
Proof. done. Qed.
Lemma wrote_u16 v : wrote (λ w, Writer.u16 w v) (to_le_bytes 2 v).
Proof. done. Qed.
Lemma wrote_u32 v : wrote (λ w, Writer.u32 w v) (to_le_bytes 4 v).
Proof. done. Qed.
Lemma wrote_u64 v : wrote (λ w, Writer.u64 w v) (to_le_bytes 8 v).
Proof. done. Qed.
Lemma wrote_bool v : wrote (λ w, Writer.bool w v) [b2z v].
Proof. done. Qed.
Lemma wrote_bytes v : wrote (λ w, Writer.bytes w v) (to_le_bytes 8 (Z.of_nat (length v)) ++ v).
Proof. intros w. unfold Writer.bytes, Writer.push, Writer.u64. cbn. by rewrite <- app_assoc. Qed.

Lemma wrote_comp f g l l' : wrote f l → wrote g l' → wrote (λ w, g (f w)) (l ++ l').
Proof. intros Hf Hg w. by rewrite Hg, Hf, <- app_assoc. Qed.

Lemma wrote_foldl {X} (f : Writer.t → X → Writer.t) (bytes : X → list Z) xs :
  (∀ x, x ∈ xs → wrote (λ w, f w x) (bytes x)) →
  wrote (λ w, foldl f w xs) (concat (bytes <$> xs)).
Proof.
  induction xs as [|x xs IH]; intros Hf w; cbn; [by rewrite app_nil_r|].
  rewrite IH; [|intros y Hy; apply Hf; set_solver]. rewrite (Hf x) by set_solver. by rewrite <- app_assoc.
Qed.
