(* ===== verification/Virtio.v ===== *)
(** The virtio-mmio transport ([riscv-devices/src/virtio.rs]).

    [GuestMem] is the window onto guest DRAM through which devices DMA;
    [VirtioDevice] is the trait a device model implements; [VirtioMmio] is the
    register file of one slot with its split virtqueues.  A device method that
    takes [&mut GuestMem] is a computation on the pair of the device and the
    memory, an operation of the transport one on the pair of the transport and
    the memory. *)

From S2P Require Import Prelude Keeps State Stream.

Definition VIRTIO_MMIO_BASE : Z := 0x10001000.
Definition VIRTIO_MMIO_STRIDE : Z := 0x1000.
Definition VIRTIO_MMIO_SLOTS : nat := 8.
Definition MAGIC : Z := 0x74726976.
Definition VERSION : Z := 2.
Definition VENDOR : Z := 0x554d4551.
Definition QUEUE_NUM_MAX : Z := 256.
Definition VIRTIO_F_VERSION_1 : Z := Z.shiftl 1 32.
Definition DESC_F_NEXT : Z := 1.
Definition DESC_F_WRITE : Z := 2.
Definition DESC_F_INDIRECT : Z := 4.
Definition COMPLETION_LATENCY : Z := 2000.
Definition MAX_QUEUES : nat := 4.

(** [dst[off..off + src.len()].copy_from_slice(src)] within [dst] *)
Definition splice (dst : list Z) (off : Z) (src : list Z) : list Z :=
  take (Z.to_nat off) dst ++ src ++ drop (Z.to_nat off + length src) dst.

Module GuestMem.
Record t := mk { dram : list Z; base : Z }.
#[global] Instance eta_mem : Eta t := λ m, mk (dram m) (base m).

Section Ops.
Context `{Target}.

(** [None] when the range leaves DRAM; the conversion of the offset to [usize]
    drops its high half on a 32-bit host. *)
Definition window (m : t) (gpa len : Z) : option Z :=
  if gpa <? base m then None
  else
    let off := as_usize (gpa - base m) in
    let e := off + len in
    if (e <? 2 ^ usize_bits) && (e <=? Z.of_nat (length (dram m))) then Some off else None.

Definition read (m : t) (gpa len : Z) : list Z :=
  match window m gpa len with
  | Some off => take (Z.to_nat len) (drop (Z.to_nat off) (dram m))
  | None => replicate (Z.to_nat len) 0
  end.

Definition write (gpa : Z) (src : list Z) : M t unit := modify (λ m,
  match window m gpa (Z.of_nat (length src)) with
  | Some off => m <| dram := splice (dram m) off src |>
  | None => m
  end).

Definition read_u16 (m : t) (gpa : Z) : Z := from_le_bytes (read m gpa 2).
Definition read_u32 (m : t) (gpa : Z) : Z := from_le_bytes (read m gpa 4).
Definition read_u64 (m : t) (gpa : Z) : Z := from_le_bytes (read m gpa 8).
Definition write_u16 (gpa v : Z) : M t unit := write gpa (to_le_bytes 2 v).
Definition write_u32 (gpa v : Z) : M t unit := write gpa (to_le_bytes 4 v).
End Ops.
End GuestMem.

Module Buf.
Record t := mk { addr : Z; len : Z }.
End Buf.

Module Chain.
Record t := mk { head : Z; readable : list Buf.t; writable : list Buf.t }.
#[global] Instance eta_chain : Eta t := λ c, mk (head c) (readable c) (writable c).
(** [if write { writable.push(buf) } else { readable.push(buf) }] *)
Definition push (write : bool) (b : Buf.t) (c : t) : t :=
  if write then c <| writable := writable c ++ [b] |> else c <| readable := readable c ++ [b] |>.
End Chain.

Section Sg.
Context `{Profile} `{Target}.

(** [sg_read]: the buffer [out] comes in with its old contents, and the bytes
    that the scatter list does not reach keep them. *)
Fixpoint sg_read (m : GuestMem.t) (bufs : list Buf.t) (skip : Z) (out : list Z) (done_ : Z)
  : option (list Z * Z) :=
  match bufs with
  | [] => Some (out, done_)
  | b :: bufs =>
      let blen := Buf.len b in
      if blen <=? skip then sg_read m bufs (skip - blen) out done_
      else
        let avail := blen - skip in
        let n := Z.min avail (Z.of_nat (length out) - done_) in
        a ← add_u 64 (Buf.addr b) skip;
        let out := splice out done_ (GuestMem.read m a n) in
        let done_ := done_ + n in
        if done_ =? Z.of_nat (length out) then Some (out, done_)
        else sg_read m bufs 0 out done_
  end.

Fixpoint sg_write (bufs : list Buf.t) (skip : Z) (src : list Z) (done_ : Z) : M GuestMem.t Z :=
  match bufs with
  | [] => mret done_
  | b :: bufs =>
      let blen := Buf.len b in
      if blen <=? skip then sg_write bufs (skip - blen) src done_
      else
        let avail := blen - skip in
        let n := Z.min avail (Z.of_nat (length src) - done_) in
        a ← lift (add_u 64 (Buf.addr b) skip);
        GuestMem.write a (take (Z.to_nat n) (drop (Z.to_nat done_) src));;
        let done_ := done_ + n in
        if done_ =? Z.of_nat (length src) then mret done_
        else sg_write bufs 0 src done_
  end.

(** [iter().map(|b| b.len as usize).sum()] *)
Definition sg_len (bufs : list Buf.t) : option Z :=
  foldl (λ acc b, a ← acc; add_u usize_bits a (Buf.len b)) (Some 0) bufs.
End Sg.

Module HostReq.
Record t := mk { id : Z; kind : Z; path : list Z; off : Z; len : Z }.
End HostReq.

(** The trait, as far as the transport uses it. *)
Class VirtioDevice (D : Type) := {
  device_id : D → Z;
  features : D → Z;
  num_queues : D → Z;
  config_read : D → Z → Z;
  config_write : Z → Z → M D unit;
  handle : Z → Chain.t → M (D * GuestMem.t) Z;
  deferred_this : M D bool;
  take_host_reqs : M D (list HostReq.t);
  supply : Z → list Z → M (D * GuestMem.t) (option (Z * Z * Z));
  dev_poll : M (D * GuestMem.t) bool;
  dev_state : D → option (list Z);
  load_dev_state : list Z → M D (option unit);
  rx_queue : D → option Z;
  has_rx : M D bool;
  fill_rx : Chain.t → M (D * GuestMem.t) Z;
}.

Module Completion.
Record t := mk { queue : Z; head : Z; len : Z; due : Z }.
End Completion.

Module QueueState.
Record t := mk { num : Z; ready : bool; desc : Z; avail : Z; used : Z; last_avail : Z }.
#[global] Instance eta_queue : Eta t :=
  λ q, mk (num q) (ready q) (desc q) (avail q) (used q) (last_avail q).
Definition default : t := mk 0 false 0 0 0 0.
End QueueState.

(** [v.get(i)] with a [usize] index *)
Definition vec_get {A} (l : list A) (i : Z) : option A :=
  if (0 <=? i) && (i <? Z.of_nat (length l)) then l !! Z.to_nat i else None.

Module VirtioMmio.
Record t (D : Type) := mk {
  dev : D;
  irq : nat;
  device_features_sel : Z;
  driver_features : Z;
  driver_features_sel : Z;
  status : Z;
  queue_sel : Z;
  queues : list QueueState.t;
  interrupt_status : Z;
  config_generation : Z;
  pending : list Completion.t;
  now : Z;
}.
Arguments mk {D}.
Arguments dev {D}.
Arguments irq {D}.
Arguments device_features_sel {D}.
Arguments driver_features {D}.
Arguments driver_features_sel {D}.
Arguments status {D}.
Arguments queue_sel {D}.
Arguments queues {D}.
Arguments interrupt_status {D}.
Arguments config_generation {D}.
Arguments pending {D}.
Arguments now {D}.
#[global] Instance eta_mmio {D} : Eta (t D) := λ v,
  mk (dev v) (irq v) (device_features_sel v) (driver_features v) (driver_features_sel v)
     (status v) (queue_sel v) (queues v) (interrupt_status v) (config_generation v)
     (pending v) (now v).

Definition new {D} (d : D) (irq : nat) : t D :=
  mk d irq 0 0 0 0 0 (replicate MAX_QUEUES QueueState.default) 0 0 [] 0.

Definition irq_level {D} (v : t D) : bool := negb (interrupt_status v =? 0).
Definition has_pending {D} (v : t D) : bool := negb (bool_decide (pending v = [])).

Section Rings.
Context `{Profile} `{Target}.

(** [debug_assert!] fires in a build with debug assertions, which the profiles
    of the project switch on and off together with overflow checks; the
    remainder by a zero [num] panics in every build. *)
Definition push_used (q : QueueState.t) (head len : Z) : M GuestMem.t unit :=
  (if overflow_checks && ((QueueState.used q =? 0) || (QueueState.num q =? 0))
   then panic else mret tt);;
  i ← lift (add_u 64 (QueueState.used q) 2);
  used_idx ← get (λ m, GuestMem.read_u16 m i);
  (if QueueState.num q =? 0 then panic else mret tt);;
  let slot := used_idx mod QueueState.num q in
  a ← lift (add_u 64 (QueueState.used q) 4);
  a ← lift (add_u 64 a (slot * 8));
  GuestMem.write_u32 a head;;
  b ← lift (add_u 64 a 4);
  GuestMem.write_u32 b len;;
  GuestMem.write_u16 i (as_u16 (used_idx + 1)).

(** The fields of the descriptor at [d]. *)
Definition read_desc (m : GuestMem.t) (d : Z) : option (Z * Z * Z * Z) :=
  let addr := GuestMem.read_u64 m d in
  d8 ← add_u 64 d 8;
  let len := GuestMem.read_u32 m d8 in
  d12 ← add_u 64 d 12;
  let flags := GuestMem.read_u16 m d12 in
  d14 ← add_u 64 d 14;
  let next := GuestMem.read_u16 m d14 in
  Some (addr, len, flags, next).

(** The table of an indirect descriptor: at most [n = count - i] more entries. *)
Fixpoint walk_indirect (m : GuestMem.t) (addr : Z) (n : nat) (inner : Z) (c : Chain.t)
  : option Chain.t :=
  match n with
  | O => Some c
  | S n =>
      id ← add_u 64 addr (inner * 16);
      '(iaddr, ilen, iflags, inext) ← read_desc m id;
      let c := Chain.push (negb (Z.land iflags DESC_F_WRITE =? 0)) (Buf.mk iaddr ilen) c in
      if Z.land iflags DESC_F_NEXT =? 0 then Some c
      else walk_indirect m addr n inext c
  end.

Fixpoint walk_from (m : GuestMem.t) (q : QueueState.t) (budget : nat) (idx : Z) (c : Chain.t)
  : option (option Chain.t) :=
  match budget with
  | O => Some (Some c)
  | S budget =>
      if QueueState.num q <=? idx then Some None
      else
        d ← add_u 64 (QueueState.desc q) (idx * 16);
        '(addr, len, flags, next) ← read_desc m d;
        c ← (if negb (Z.land flags DESC_F_INDIRECT =? 0) then
               walk_indirect m addr (Z.to_nat (Z.min (len / 16) QUEUE_NUM_MAX)) 0 c
             else Some (Chain.push (negb (Z.land flags DESC_F_WRITE =? 0)) (Buf.mk addr len) c));
        if Z.land flags DESC_F_NEXT =? 0 then Some (Some c)
        else walk_from m q budget next c
  end.

(** The outer option is a panic, the inner one the result. *)
Definition walk (m : GuestMem.t) (q : QueueState.t) (head : Z) : option (option Chain.t) :=
  walk_from m q (Z.to_nat (QueueState.num q + 1)) head (Chain.mk head [] []).

(** [avail.ring[last % num]] *)
Definition avail_head (m : GuestMem.t) (q : QueueState.t) (last : Z) : option Z :=
  let ring_slot := last mod QueueState.num q in
  a ← add_u 64 (QueueState.avail q) 4;
  a ← add_u 64 a (ring_slot * 2);
  Some (GuestMem.read_u16 m a).

Definition avail_idx (m : GuestMem.t) (q : QueueState.t) : option Z :=
  a ← add_u 64 (QueueState.avail q) 2; Some (GuestMem.read_u16 m a).
End Rings.

Section Ops.
Context {D : Type} `{VirtioDevice D} `{Profile} `{Target}.
Abbreviation VM := (M (t D * GuestMem.t)).

Definition self_get {A} (f : t D → A) : VM A := on_fst (get f).
Definition self_upd (f : t D → t D) : VM unit := on_fst (modify f).
Definition on_mem {A} (m : M GuestMem.t A) : VM A := on_snd m.
(** A call of a device method with the memory, and of one without. *)
Definition set_dev (d : D) (v : t D) : t D := v <| dev := d |>.
Definition on_dev {A} (m : M (D * GuestMem.t) A) : VM A :=
  zoom (λ s, (dev s.1, s.2)) (λ d s, (set_dev d.1 s.1, d.2)) m.
Definition on_dev1 {A} (m : M D A) : VM A := on_dev (on_fst m).

Definition raise (v : t D) : t D := v <| interrupt_status := Z.lor (interrupt_status v) 1 |>.

(** [if let Some(q) = self.queues.get(c.queue).copied() { push_used(..) }] *)
Definition retire (c : Completion.t) : VM unit :=
  qs ← self_get queues;
  match vec_get qs (Completion.queue c) with
  | Some q => on_mem (push_used q (Completion.head c) (Completion.len c))
  | None => mret tt
  end.

Fixpoint retire_all (cs : list Completion.t) : VM unit :=
  match cs with
  | [] => mret tt
  | c :: cs => retire c;; retire_all cs
  end.

Definition flush_pending : VM bool :=
  p ← self_get pending;
  if bool_decide (p = []) then mret false
  else
    self_upd (λ v, v <| pending := [] |>);;
    retire_all p;;
    self_upd raise;;
    mret true.

(** [while let Some(c) = self.pending.first()]: every pass removes one. *)
Fixpoint retire_due (cs : list Completion.t) (now : Z) (fired : bool) : VM bool :=
  match cs with
  | [] => mret fired
  | c :: cs =>
      if now <? Completion.due c then mret fired
      else
        self_upd (λ v, v <| pending := cs |>);;
        retire c;;
        retire_due cs now true
  end.

Definition tick (amount : Z) : VM bool :=
  self_upd (λ v, v <| now := as_u64 (now v + amount) |>);;
  p ← self_get pending;
  if bool_decide (p = []) then mret false
  else
    nw ← self_get now;
    fired ← retire_due p nw false;
    (if fired : bool then self_upd raise else mret tt);;
    mret fired.

Definition push_completion (c : Completion.t) (v : t D) : t D := v <| pending := pending v ++ [c] |>.

Definition mmio_supply (id : Z) (payload : list Z) : VM bool :=
  r ← on_dev (supply id payload);
  match r with
  | Some (queue, head, len) =>
      nw ← self_get now;
      self_upd (push_completion (Completion.mk queue head len nw));;
      mret true
  | None => mret false
  end.

Definition read (v : t D) (off : Z) : Z :=
  if 0x100 <=? off then
    let b := off - 0x100 in
    from_le_bytes [config_read (dev v) b; config_read (dev v) (b + 1);
                   config_read (dev v) (b + 2); config_read (dev v) (b + 3)]
  else
    let q := from_option id QueueState.default (vec_get (queues v) (queue_sel v)) in
    if off =? 0x000 then MAGIC
    else if off =? 0x004 then VERSION
    else if off =? 0x008 then device_id (dev v)
    else if off =? 0x00c then VENDOR
    else if off =? 0x010 then
      let f := features (dev v) in
      if device_features_sel v =? 0 then as_u32 f else as_u32 (Z.shiftr f 32)
    else if off =? 0x034 then QUEUE_NUM_MAX
    else if off =? 0x044 then b2z (QueueState.ready q)
    else if off =? 0x060 then interrupt_status v
    else if off =? 0x070 then status v
    else if off =? 0x0fc then config_generation v
    else 0.

Definition upd_queue (i : Z) (f : QueueState.t → QueueState.t) (v : t D) : t D :=
  match vec_get (queues v) i with
  | Some q => v <| queues := <[Z.to_nat i := f q]> (queues v) |>
  | None => v
  end.
Definition with_queue (f : QueueState.t → QueueState.t) (v : t D) : t D :=
  upd_queue (queue_sel v) f v.

(** [(x & !0xFFFF_FFFF) | val] and [(x & 0xFFFF_FFFF) | (val << 32)] *)
Definition low_half (x val : Z) : Z := Z.lor (Z.land x (unot 64 0xFFFFFFFF)) val.
Definition high_half (x val : Z) : Z := Z.lor (Z.land x 0xFFFFFFFF) (as_u64 (Z.shiftl val 32)).

Definition take_avail (queue : Z) : VM (option Chain.t) :=
  qs ← self_get queues;
  match vec_get qs queue with
  | None => mret None
  | Some q =>
      if negb (QueueState.ready q) || (QueueState.num q =? 0) then mret None
      else
        m ← on_mem (get id);
        idx ← lift (avail_idx m q);
        if QueueState.last_avail q =? idx then mret None
        else
          head ← lift (avail_head m q (QueueState.last_avail q));
          r ← lift (walk m q head);
          match r with
          | None => mret None
          | Some chain =>
              self_upd (upd_queue queue (λ q', q' <| QueueState.last_avail :=
                                               as_u16 (QueueState.last_avail q + 1) |>));;
              mret (Some chain)
          end
  end.

Definition complete (queue head len : Z) : VM unit :=
  qs ← self_get queues;
  match vec_get qs queue with
  | Some q => on_mem (push_used q head len);; self_upd raise
  | None => mret tt
  end.

(** [for _ in 0..32] of the receive path *)
Fixpoint rx_loop (n : nat) (q : Z) (delivered : bool) : VM bool :=
  match n with
  | O => mret delivered
  | S n =>
      more ← on_dev1 has_rx;
      if negb more then mret delivered
      else
        r ← take_avail q;
        match r with
        | None => mret delivered
        | Some chain =>
            written ← on_dev (fill_rx chain);
            complete q (Chain.head chain) written;;
            rx_loop n q true
        end
  end.

Definition poll : VM bool :=
  st ← self_get status;
  if st =? 0 then mret false
  else
    made ← on_dev dev_poll;
    if made : bool then self_upd raise;; mret true
    else
      d ← self_get dev;
      match rx_queue d with
      | None => mret false
      | Some q => rx_loop 32 q false
      end.

(** [while last != avail_idx && budget > 0] *)
Fixpoint notify_loop (budget : nat) (queue : Z) (q : QueueState.t) (avail_idx last : Z)
    (serviced : bool) : VM (Z * bool) :=
  match budget with
  | O => mret (last, serviced)
  | S budget =>
      if last =? avail_idx then mret (last, serviced)
      else
        m ← on_mem (get id);
        head ← lift (avail_head m q last);
        r ← lift (walk m q head);
        s' ← match r with
             | None => mret serviced
             | Some chain =>
                 written ← on_dev (handle queue chain);
                 deferred ← on_dev1 deferred_this;
                 (if negb deferred then
                    nw ← self_get now;
                    let due := as_u64 (nw + COMPLETION_LATENCY) in
                    self_upd (push_completion
                                (Completion.mk queue (Chain.head chain) written due))
                  else mret tt);;
                 mret true
             end;
        notify_loop budget queue q avail_idx (as_u16 (last + 1)) s'
  end.

Definition notify (queue : Z) : VM bool :=
  d ← self_get dev;
  if (Z.of_nat MAX_QUEUES <=? queue) || (num_queues d <=? queue) then mret false
  else if bool_decide (rx_queue d = Some queue) then poll
  else
    qs ← self_get queues;
    q ← lift (vec_get qs queue);
    if negb (QueueState.ready q) || (QueueState.num q =? 0) then mret false
    else
      m ← on_mem (get id);
      idx ← lift (avail_idx m q);
      '(last, serviced) ← notify_loop (Z.to_nat (QueueState.num q * 2 + 1)) queue q idx
                            (QueueState.last_avail q) false;
      self_upd (upd_queue queue (λ q', q' <| QueueState.last_avail := last |>));;
      mret serviced.

Definition write (off val : Z) : VM bool :=
  if 0x100 <=? off then on_dev1 (config_write (off - 0x100) (as_u8 val));; mret false
  else if off =? 0x014 then self_upd (λ v, v <| device_features_sel := val |>);; mret false
  else if off =? 0x020 then
    self_upd (λ v, v <| driver_features :=
                if driver_features_sel v =? 0 then low_half (driver_features v) val
                else high_half (driver_features v) val |>);;
    mret false
  else if off =? 0x024 then self_upd (λ v, v <| driver_features_sel := val |>);; mret false
  else if off =? 0x030 then self_upd (λ v, v <| queue_sel := val |>);; mret false
  else if off =? 0x038 then
    self_upd (with_queue (λ q, q <| QueueState.num := as_u16 val |>));; mret false
  else if off =? 0x044 then
    let rdy := negb (Z.land val 1 =? 0) in
    self_upd (with_queue (λ q,
      let q := q <| QueueState.ready := rdy |> in
      if negb rdy then q <| QueueState.last_avail := 0 |> else q));;
    mret false
  else if off =? 0x050 then notify val
  else if off =? 0x064 then
    self_upd (λ v, v <| interrupt_status := Z.land (interrupt_status v) (unot 32 val) |>);; mret true
  else if off =? 0x070 then
    self_upd (λ v, v <| status := val |>);;
    if val =? 0 then
      self_upd (λ v, v <| queues := replicate MAX_QUEUES QueueState.default |>
                       <| interrupt_status := 0 |> <| driver_features := 0 |>);;
      mret true
    else mret false
  else if off =? 0x080 then
    self_upd (with_queue (λ q, q <| QueueState.desc := low_half (QueueState.desc q) val |>));; mret false
  else if off =? 0x084 then
    self_upd (with_queue (λ q, q <| QueueState.desc := high_half (QueueState.desc q) val |>));; mret false
  else if off =? 0x090 then
    self_upd (with_queue (λ q, q <| QueueState.avail := low_half (QueueState.avail q) val |>));; mret false
  else if off =? 0x094 then
    self_upd (with_queue (λ q, q <| QueueState.avail := high_half (QueueState.avail q) val |>));; mret false
  else if off =? 0x0a0 then
    self_upd (with_queue (λ q, q <| QueueState.used := low_half (QueueState.used q) val |>));; mret false
  else if off =? 0x0a4 then
    self_upd (with_queue (λ q, q <| QueueState.used := high_half (QueueState.used q) val |>));; mret false
  else mret false.
End Ops.

(** ** Snapshots *)

Definition save_queue (w : Writer.t) (q : QueueState.t) : Writer.t :=
  let w := Writer.u16 w (QueueState.num q) in
  let w := Writer.bool w (QueueState.ready q) in
  let w := Writer.u64 w (QueueState.desc q) in
  let w := Writer.u64 w (QueueState.avail q) in
  let w := Writer.u64 w (QueueState.used q) in
  Writer.u16 w (QueueState.last_avail q).

Definition save_completion (w : Writer.t) (c : Completion.t) : Writer.t :=
  let w := Writer.u64 w (Completion.queue c) in
  let w := Writer.u16 w (Completion.head c) in
  let w := Writer.u32 w (Completion.len c) in
  Writer.u64 w (Completion.due c).

Definition save_state {D} (v : t D) (w : Writer.t) : Writer.t :=
  let w := Writer.u32 w (device_features_sel v) in
  let w := Writer.u64 w (driver_features v) in
  let w := Writer.u32 w (driver_features_sel v) in
  let w := Writer.u32 w (status v) in
  let w := Writer.u64 w (queue_sel v) in
  let w := foldl save_queue w (queues v) in
  let w := Writer.u32 w (interrupt_status v) in
  let w := Writer.u32 w (config_generation v) in
  let w := Writer.u64 w (now v) in
  let w := Writer.u64 w (Z.of_nat (length (pending v))) in
  foldl save_completion w (pending v).

Section Load.
Context {D : Type} `{Profile} `{Target}.

(** [for q in &mut self.queues { q.num = r.u16()?; .. }] *)
Definition load_queue (i : nat) : M (t D * Reader.t) (option unit) :=
  let at_q {A} (f : A → QueueState.t → QueueState.t) (x : A) := upd_queue (Z.of_nat i) (f x) in
  load_into Reader.u16 (at_q (λ x q, q <| QueueState.num := x |>)) (
  load_into Reader.bool (at_q (λ x q, q <| QueueState.ready := x |>)) (
  load_into Reader.u64 (at_q (λ x q, q <| QueueState.desc := x |>)) (
  load_into Reader.u64 (at_q (λ x q, q <| QueueState.avail := x |>)) (
  load_into Reader.u64 (at_q (λ x q, q <| QueueState.used := x |>)) (
  load_into Reader.u16 (at_q (λ x q, q <| QueueState.last_avail := x |>)) (
  mret (Some tt))))))).

Definition load_completion : M Reader.t (option Completion.t) :=
  let? queue := Reader.u64 in
  let? head := Reader.u16 in
  let? len := Reader.u32 in
  let? due := Reader.u64 in
  mret (Some (Completion.mk (as_usize queue) head len due)).

(** [for _ in 0..n { self.pending.push(..) }]: every pass consumes bytes of the
    stream, so more passes than the stream has bytes cannot succeed, and [fuel]
    is one more than its length. *)
Fixpoint load_pending (fuel : nat) (n : Z) : M (t D * Reader.t) (option unit) :=
  if n <=? 0 then mret (Some tt)
  else match fuel with
  | O => mret None
  | S fuel => load_into load_completion push_completion (load_pending fuel (n - 1))
  end.

Definition load_state : M (t D * Reader.t) (option unit) :=
  load_into Reader.u32 (λ x v, v <| device_features_sel := x |>) (
  load_into Reader.u64 (λ x v, v <| driver_features := x |>) (
  load_into Reader.u32 (λ x v, v <| driver_features_sel := x |>) (
  load_into Reader.u32 (λ x v, v <| status := x |>) (
  load_into Reader.u64 (λ x v, v <| queue_sel := as_usize x |>) (
  let? _ := for_some MAX_QUEUES 0 load_queue in
  load_into Reader.u32 (λ x v, v <| interrupt_status := x |>) (
  load_into Reader.u32 (λ x v, v <| config_generation := x |>) (
  load_into Reader.u64 (λ x v, v <| now := x |>) (
  let? n := on_snd Reader.u64 in
  on_fst (modify (λ v, v <| pending := [] |>));;
  fuel ← on_snd (get (λ r, S (length (Reader.buf r))));
  load_pending fuel (as_usize n))))))))).
End Load.
End VirtioMmio.
