(* ===== verification/VirtioSg.v ===== *)
(** Scatter-gather transfers and guest memory.

    A scatter list denotes the sequence of DRAM offsets its buffers cover, one
    after the other.  [sg_read] copies from that sequence and [sg_write] to it;
    a write followed by a read of the same list gives the bytes back when the
    buffers do not overlap. *)

From S2P Require Import Prelude Keeps State Virtio.

(** * Splicing *)

Lemma length_splice d o s :
  (Z.to_nat o + length s <= length d)%nat → length (splice d o s) = length d.
Proof. intros. unfold splice. rewrite !length_app, length_take, length_drop. lia. Qed.

Lemma lookup_splice d o s i :
  (Z.to_nat o + length s <= length d)%nat →
  splice d o s !! i = if decide (Z.to_nat o <= i < Z.to_nat o + length s)%nat
                      then s !! (i - Z.to_nat o)%nat else d !! i.
Proof.
  intros Hl. unfold splice. assert (Ht : length (take (Z.to_nat o) d) = Z.to_nat o) by (rewrite length_take; lia).
  destruct (decide (i < Z.to_nat o)%nat) as [Hi|Hi].
  - rewrite decide_False by lia. rewrite lookup_app_l by lia. by apply lookup_take_lt.
  - rewrite lookup_app_r by lia. rewrite Ht. destruct (decide (i < Z.to_nat o + length s)%nat) as [Hj|Hj].
    + rewrite decide_True by lia. by apply lookup_app_l; lia.
    + rewrite decide_False by lia. rewrite lookup_app_r by lia. rewrite lookup_drop. f_equal. lia.
Qed.

Lemma splice_nil d o : splice d o [] = d.
Proof. unfold splice. cbn. by rewrite Nat.add_0_r, take_drop. Qed.

Lemma splice_app d o s s' :
  0 <= o → (Z.to_nat o + length (s ++ s') <= length d)%nat →
  splice (splice d o s) (o + Z.of_nat (length s)) s' = splice d o (s ++ s').
Proof.
  intros Ho Hl. rewrite length_app in Hl.
  assert (Hd : length (splice d o s) = length d) by (apply length_splice; lia).
  apply list_eq. intros i. rewrite !lookup_splice by (rewrite ?Hd, ?length_app; lia). rewrite length_app.
  replace (Z.to_nat (o + Z.of_nat (length s))) with (Z.to_nat o + length s)%nat by lia.
  repeat case_decide; try lia; try done.
  - rewrite lookup_app_r by lia. f_equal. lia.
  - by rewrite lookup_app_l by lia.
Qed.

(** Reading back what was spliced in. *)
Lemma splice_slice d o s :
  (Z.to_nat o + length s <= length d)%nat →
  take (length s) (drop (Z.to_nat o) (splice d o s)) = s.
Proof.
  intros Hl. unfold splice. rewrite drop_app_ge by (rewrite length_take; lia).
  rewrite length_take. replace (Z.to_nat o - _)%nat with 0%nat by lia. rewrite drop_0.
  by rewrite take_app_length.
Qed.

(** * Writing at a sequence of offsets *)

Fixpoint write_at (d : list Z) (ps : list nat) (vs : list Z) : list Z :=
  match ps, vs with
  | p :: ps, v :: vs => write_at (<[p := v]> d) ps vs
  | _, _ => d
  end.

Lemma length_write_at ps : ∀ d vs, length (write_at d ps vs) = length d.
Proof. induction ps as [|p ps IH]; intros d [|v vs]; cbn; [done..|]. by rewrite IH, length_insert. Qed.

Lemma write_at_app ps qs : ∀ d vs ws,
  length vs = length ps → write_at d (ps ++ qs) (vs ++ ws) = write_at (write_at d ps vs) qs ws.
Proof. induction ps as [|p ps IH]; intros d [|v vs] ws Hl; cbn in *; try done. apply IH. lia. Qed.

Lemma lookup_write_at_other ps : ∀ d vs i, i ∉ ps → write_at d ps vs !! i = d !! i.
Proof.
  induction ps as [|p ps IH]; intros d [|v vs] i Hi; cbn; [done..|].
  rewrite IH by set_solver. apply list_lookup_insert_ne. set_solver.
Qed.

Lemma lookup_write_at ps : ∀ d vs k p v,
  NoDup ps → Forall (λ p, (p < length d)%nat) ps → length vs = length ps →
  ps !! k = Some p → vs !! k = Some v → write_at d ps vs !! p = Some v.
Proof.
  induction ps as [|p ps IH]; intros d [|v vs] k p' v' Hn Hf Hl Hp Hv; cbn in *; try done.
  apply NoDup_cons in Hn as [Hnp Hn]. apply Forall_cons in Hf as [Hp0 Hf].
  destruct k as [|k]; cbn in *.
  - simplify_eq. rewrite lookup_write_at_other by done. by apply list_lookup_insert_eq.
  - apply (IH _ _ k); [done| |lia|done|done]. eapply Forall_impl; [exact Hf|].
    intros. by rewrite length_insert.
Qed.

Lemma splice_write_at s : ∀ d o,
  (o + length s <= length d)%nat → splice d (Z.of_nat o) s = write_at d (seq o (length s)) s.
Proof.
  induction s as [|v s IH]; intros d o Hl; cbn [length seq write_at] in *.
  - unfold splice. cbn. by rewrite Nat.add_0_r, Nat2Z.id, take_drop.
  - replace (write_at (<[o := v]> d) (seq (S o) (length s)) s)
      with (splice (<[o := v]> d) (Z.of_nat (S o)) s)
      by (apply IH; rewrite length_insert; lia).
    apply list_eq. intros i. rewrite !lookup_splice by (rewrite ?length_insert; cbn; lia).
    rewrite !Nat2Z.id. cbn [length]. repeat case_decide; try lia.
    + destruct (i - o)%nat as [|k] eqn:E; [lia|]. cbn. f_equal. lia.
    + assert (i = o) as -> by lia. rewrite Nat.sub_diag, list_lookup_insert_eq by lia. done.
    + rewrite list_lookup_insert_ne by lia. done.
Qed.

(** * The offsets of a scatter list *)

Section Lists.
Context {PR : Profile} {T : Target}.
Implicit Types (m : GuestMem.t) (b : Buf.t).

(** The buffer lies in DRAM, whose size fits the host. *)
Definition buf_in m b : Prop :=
  0 <= Buf.len b ∧ GuestMem.base m <= Buf.addr b
  ∧ Buf.addr b + Buf.len b <= GuestMem.base m + Z.of_nat (length (GuestMem.dram m)).

Definition mem_fits m : Prop :=
  0 <= GuestMem.base m ∧ Z.of_nat (length (GuestMem.dram m)) < 2 ^ usize_bits
  ∧ GuestMem.base m + Z.of_nat (length (GuestMem.dram m)) < 2 ^ 64.

Definition positions m (bufs : list Buf.t) : list nat :=
  bufs ≫= λ b, seq (Z.to_nat (Buf.addr b - GuestMem.base m)) (Z.to_nat (Buf.len b)).

Lemma positions_in m bufs :
  Forall (buf_in m) bufs → Forall (λ p, (p < length (GuestMem.dram m))%nat) (positions m bufs).
Proof.
  intros Hb. apply Forall_bind, (Forall_impl _ _ _ Hb). intros b (Hl & Ha & He).
  apply Forall_forall. intros p Hp%elem_of_seq. lia.
Qed.

Lemma window_in m a n :
  mem_fits m → 0 <= n → GuestMem.base m <= a →
  a + n <= GuestMem.base m + Z.of_nat (length (GuestMem.dram m)) →
  GuestMem.window m a n = Some (a - GuestMem.base m).
Proof.
  intros (Hb & Hu & _) Hn Ha He. unfold GuestMem.window. destruct (Z.ltb_spec a (GuestMem.base m)); [lia|].
  rewrite wrap_small by (unfold urange; lia).
  destruct (Z.ltb_spec (a - GuestMem.base m + n) (2 ^ usize_bits)); [|lia].
  destruct (Z.leb_spec (a - GuestMem.base m + n) (Z.of_nat (length (GuestMem.dram m)))); [done|lia].
Qed.

Lemma read_in m a n :
  mem_fits m → 0 <= n → GuestMem.base m <= a →
  a + n <= GuestMem.base m + Z.of_nat (length (GuestMem.dram m)) →
  GuestMem.read m a n
  = (λ p, GuestMem.dram m !!! p) <$> seq (Z.to_nat (a - GuestMem.base m)) (Z.to_nat n).
Proof.
  intros Hm Hn Ha He. unfold GuestMem.read. rewrite window_in by done.
  apply list_eq. intros i. rewrite list_lookup_fmap.
  destruct (decide (i < Z.to_nat n)%nat).
  - rewrite lookup_take_lt, lookup_drop, lookup_seq_lt by done. cbn.
    apply list_lookup_lookup_total_lt. lia.
  - rewrite lookup_seq_ge by lia. rewrite lookup_take_ge by lia. done.
Qed.

Lemma write_in m a src :
  mem_fits m → GuestMem.base m <= a →
  a + Z.of_nat (length src) <= GuestMem.base m + Z.of_nat (length (GuestMem.dram m)) →
  GuestMem.write a src m
  = Some (tt, m <| GuestMem.dram := write_at (GuestMem.dram m)
                     (seq (Z.to_nat (a - GuestMem.base m)) (length src)) src |>).
Proof.
  intros Hm Ha He. unfold GuestMem.write, modify. rewrite window_in by (done || lia).
  do 2 f_equal. rewrite <- splice_write_at by lia. by rewrite Z2Nat.id by lia.
Qed.

(** The offsets of the buffer [b :: bufs] after [skip] of them. *)
Lemma positions_cons m b bufs :
  positions m (b :: bufs)
  = seq (Z.to_nat (Buf.addr b - GuestMem.base m)) (Z.to_nat (Buf.len b)) ++ positions m bufs.
Proof. done. Qed.

Lemma drop_skip {A} (l l' : list A) n : (length l <= n)%nat → drop n (l ++ l') = drop (n - length l) l'.
Proof. intros. by rewrite drop_app_ge. Qed.

Lemma drop_seq_app s n k (l : list nat) :
  (k <= n)%nat → drop k (seq s n ++ l) = seq (s + k) (n - k) ++ l.
Proof. intros. rewrite drop_app_le by (rewrite length_seq; lia). by rewrite drop_seq. Qed.

(** What a transfer of at most [n] bytes from [skip] on touches. *)
Definition touched m bufs (skip n : Z) : list nat :=
  take (Z.to_nat n) (drop (Z.to_nat skip) (positions m bufs)).

Lemma touched_skip m b bufs skip n :
  0 <= Buf.len b <= skip → touched m (b :: bufs) skip n = touched m bufs (skip - Buf.len b) n.
Proof.
  intros. unfold touched. rewrite positions_cons, drop_skip; rewrite length_seq; [|lia].
  do 2 f_equal. lia.
Qed.

Lemma touched_here m b bufs skip n :
  buf_in m b → 0 <= skip < Buf.len b → 0 <= n →
  touched m (b :: bufs) skip n
  = seq (Z.to_nat (Buf.addr b + skip - GuestMem.base m)) (Z.to_nat (Z.min (Buf.len b - skip) n))
    ++ touched m bufs 0 (n - Z.min (Buf.len b - skip) n).
Proof.
  intros (Hl & Ha & He) Hs Hn. unfold touched. rewrite positions_cons, drop_seq_app by lia.
  rewrite drop_0, take_app, take_seq, length_seq. f_equal.
  - f_equal; lia.
  - f_equal. lia.
Qed.

Lemma touched_length m bufs skip n : Z.of_nat (length (touched m bufs skip n)) <= Z.max 0 n.
Proof. unfold touched. rewrite length_take. lia. Qed.

Lemma touched_none m bufs : touched m bufs 0 0 = [].
Proof. done. Qed.

Lemma sg_read_touched m bufs :
  mem_fits m → Forall (buf_in m) bufs → ∀ skip out d,
  0 <= skip → 0 <= d <= Z.of_nat (length out) →
  sg_read m bufs skip out d
  = Some (splice out d ((λ p, GuestMem.dram m !!! p) <$> touched m bufs skip (Z.of_nat (length out) - d)),
          d + Z.of_nat (length (touched m bufs skip (Z.of_nat (length out) - d)))).
Proof.
  intros Hm. induction 1 as [|b bufs Hb Hbs IH]; intros skip out d Hs Hd; cbn [sg_read].
  - unfold touched. cbn. rewrite drop_nil, take_nil. cbn. by rewrite splice_nil, Z.add_0_r.
  - pose proof Hb as (Hl & Ha & He). destruct (Z.leb_spec (Buf.len b) skip) as [Hc|Hc].
    + rewrite IH, touched_skip by lia. done.
    + rewrite touched_here by (done || lia).
      set (n := Z.min (Buf.len b - skip) (Z.of_nat (length out) - d)).
      assert (Hn : 0 <= n <= Z.of_nat (length out) - d ∧ n <= Buf.len b - skip) by (unfold n; lia).
      destruct Hm as (Hb0 & Hu & H64). rewrite add_u_small by (unfold urange; lia). cbn [mbind option_bind].
      rewrite read_in by (done || lia).
      set (A := (λ p, GuestMem.dram m !!! p) <$> seq (Z.to_nat (Buf.addr b + skip - GuestMem.base m)) (Z.to_nat n)).
      assert (HA : length A = Z.to_nat n) by (unfold A; by rewrite length_fmap, length_seq).
      assert (Hls : length (splice out d A) = length out) by (apply length_splice; lia).
      rewrite Hls, fmap_app. fold A. rewrite length_app, length_seq.
      destruct (Z.eqb_spec (d + n) (Z.of_nat (length out))) as [E|E].
      * replace (Z.of_nat (length out) - d - n) with 0 by lia.
        rewrite touched_none, fmap_nil, app_nil_r. cbn [length]. f_equal. f_equal. lia.
      * rewrite IH by (rewrite ?Hls; lia). rewrite Hls.
        replace (Z.of_nat (length out) - d - n) with (Z.of_nat (length out) - (d + n)) by lia.
        pose proof (touched_length m bufs 0 (Z.of_nat (length out) - (d + n))) as Ht.
        rewrite <- splice_app; [|lia|rewrite length_app, length_fmap; lia].
        rewrite HA. f_equal. f_equal; [f_equal; lia|lia].
Qed.

Lemma sg_write_touched bufs : ∀ m skip src d,
  mem_fits m → Forall (buf_in m) bufs → 0 <= skip → 0 <= d <= Z.of_nat (length src) →
  sg_write bufs skip src d m
  = let ps := touched m bufs skip (Z.of_nat (length src) - d) in
    Some (d + Z.of_nat (length ps),
          m <| GuestMem.dram := write_at (GuestMem.dram m) ps (take (length ps) (drop (Z.to_nat d) src)) |>).
Proof.
  induction bufs as [|b bufs IH]; intros m skip src d Hm Hbs Hs Hd; cbn [sg_write].
  - unfold touched. cbn. rewrite drop_nil, take_nil. cbn. rewrite Z.add_0_r. by destruct m.
  - apply Forall_cons in Hbs as [Hb Hbs].
    pose proof Hb as (Hl & Ha & He). destruct (Z.leb_spec (Buf.len b) skip) as [Hc|Hc].
    + rewrite IH, touched_skip by (done || lia). done.
    + rewrite touched_here by (done || lia). cbv zeta.
      set (n := Z.min (Buf.len b - skip) (Z.of_nat (length src) - d)).
      assert (Hn : 0 <= n <= Z.of_nat (length src) - d ∧ n <= Buf.len b - skip) by (unfold n; lia).
      pose proof Hm as (Hb0 & Hu & H64). unfold mbind at 1, M_bind at 1, lift at 1.
      rewrite add_u_small by (unfold urange; lia).
      assert (Hlt : length (take (Z.to_nat n) (drop (Z.to_nat d) src)) = Z.to_nat n)
        by (rewrite length_take, length_drop; lia).
      unfold mbind at 1, M_bind at 1. rewrite write_in by (rewrite ?Hlt; done || lia). rewrite Hlt.
      rewrite length_app, length_seq.
      set (ps := seq (Z.to_nat (Buf.addr b + skip - GuestMem.base m)) (Z.to_nat n)).
      destruct (Z.eqb_spec (d + n) (Z.of_nat (length src))) as [E|E].
      * replace (Z.of_nat (length src) - d - n) with 0 by lia.
        rewrite touched_none, app_nil_r. cbn [length]. rewrite Nat.add_0_r.
        unfold mret, M_ret. f_equal. f_equal. lia.
      * set (m' := m <| GuestMem.dram := _ |>).
        assert (Hm' : length (GuestMem.dram m') = length (GuestMem.dram m)) by apply length_write_at.
        assert (Hmf : mem_fits m') by (unfold mem_fits; rewrite Hm'; exact Hm).
        assert (Hbf : Forall (buf_in m') bufs).
        { eapply Forall_impl; [exact Hbs|]. intros b'. unfold buf_in. by rewrite Hm'. }
        rewrite IH by (done || lia). cbv zeta.
        replace (touched m' bufs 0) with (touched m bufs 0) by done.
        replace (Z.of_nat (length src) - (d + n)) with (Z.of_nat (length src) - d - n) by lia.
        set (qs := touched m bufs 0 (Z.of_nat (length src) - d - n)).
        replace (take (Z.to_nat n + length qs) (drop (Z.to_nat d) src))
          with (take (Z.to_nat n) (drop (Z.to_nat d) src)
                ++ take (length qs) (drop (Z.to_nat (d + n)) src)).
        -- rewrite write_at_app by (unfold ps; rewrite length_seq; lia). unfold m'. cbn.
           do 2 f_equal. lia.
        -- replace (Z.to_nat (d + n)) with (Z.to_nat d + Z.to_nat n)%nat by lia.
           rewrite <- drop_drop. by rewrite take_take_drop.
Qed.

(** * The contents of a scatter list *)

Definition contents m (bufs : list Buf.t) : list Z :=
  (λ p, GuestMem.dram m !!! p) <$> positions m bufs.

Lemma length_contents m bufs : length (contents m bufs) = length (positions m bufs).
Proof. apply length_fmap. Qed.

Lemma positions_same m m' bufs :
  GuestMem.base m' = GuestMem.base m → positions m' bufs = positions m bufs.
Proof. intros E. unfold positions. by rewrite E. Qed.

(** The memory after a transfer to the list. *)
Definition scattered m bufs (skip : Z) (src : list Z) : GuestMem.t :=
  m <| GuestMem.dram := write_at (GuestMem.dram m) (touched m bufs skip (Z.of_nat (length src))) src |>.

Lemma touched_full m bufs skip (src : list Z) :
  0 <= skip → skip + Z.of_nat (length src) <= Z.of_nat (length (positions m bufs)) →
  length (touched m bufs skip (Z.of_nat (length src))) = length src.
Proof. intros. unfold touched. rewrite length_take, length_drop. lia. Qed.

Lemma sg_write_run m bufs skip src :
  mem_fits m → Forall (buf_in m) bufs → 0 <= skip →
  skip + Z.of_nat (length src) <= Z.of_nat (length (positions m bufs)) →
  sg_write bufs skip src 0 m = Some (Z.of_nat (length src), scattered m bufs skip src).
Proof.
  intros Hm Hb Hs Hf. rewrite sg_write_touched by (done || lia). cbv zeta. rewrite Z.sub_0_r, drop_0.
  rewrite touched_full, firstn_all by done. done.
Qed.

Lemma sg_read_run m bufs skip n :
  mem_fits m → Forall (buf_in m) bufs → 0 <= skip →
  skip + Z.of_nat n <= Z.of_nat (length (positions m bufs)) →
  sg_read m bufs skip (replicate n 0) 0
  = Some (take n (drop (Z.to_nat skip) (contents m bufs)), Z.of_nat n).
Proof.
  intros Hm Hb Hs Hf. rewrite sg_read_touched by (rewrite ?length_replicate; done || lia).
  rewrite length_replicate, Z.sub_0_r.
  assert (Hl : length (touched m bufs skip (Z.of_nat n)) = n)
    by (unfold touched; rewrite length_take, length_drop; lia).
  rewrite Hl, Z.add_0_l. do 2 f_equal.
  unfold splice. cbn. rewrite drop_ge by (rewrite length_fmap, length_replicate; lia).
  rewrite app_nil_r. unfold touched, contents. rewrite Nat2Z.id, fmap_take, fmap_drop. done.
Qed.

Lemma contents_scattered m bufs skip src :
  Forall (buf_in m) bufs → NoDup (positions m bufs) → 0 <= skip →
  skip + Z.of_nat (length src) <= Z.of_nat (length (positions m bufs)) →
  contents (scattered m bufs skip src) bufs = splice (contents m bufs) skip src.
Proof.
  intros Hb Hnd Hs Hf. pose proof (touched_full m bufs skip src Hs Hf) as Hlen.
  apply list_eq. intros k. rewrite lookup_splice by (rewrite length_contents; lia).
  unfold contents. rewrite !list_lookup_fmap, (positions_same m) by done.
  destruct (positions m bufs !! k) as [p|] eqn:Ek; cbn.
  2:{ apply lookup_ge_None in Ek. by rewrite decide_False by lia. }
  assert (Htk : ∀ j, touched m bufs skip (Z.of_nat (length src)) !! j
                     = if decide (j < length src)%nat then positions m bufs !! (Z.to_nat skip + j)%nat else None).
  { intros j. unfold touched. rewrite Nat2Z.id. case_decide.
    - by rewrite lookup_take_lt, lookup_drop.
    - by rewrite lookup_take_ge by lia. }
  assert (Hin : (p < length (GuestMem.dram m))%nat).
  { pose proof (positions_in m bufs Hb) as Hp. rewrite Forall_lookup in Hp. by eapply Hp. }
  case_decide as Hc.
  - destruct (lookup_lt_is_Some_2 src (k - Z.to_nat skip)%nat) as [v Ev]; [lia|].
    rewrite Ev. f_equal. apply list_lookup_total_correct.
    apply (lookup_write_at _ _ _ (k - Z.to_nat skip)%nat); [| |by rewrite Hlen| |done].
    + unfold touched. eapply sublist_NoDup; [exact Hnd|]. etrans; [apply sublist_take|apply sublist_drop].
    + by apply Forall_take, Forall_drop, positions_in.
    + rewrite Htk, decide_True by lia. by replace (Z.to_nat skip + (k - Z.to_nat skip))%nat with k by lia.
  - f_equal. rewrite !list_lookup_total_alt. f_equal. apply lookup_write_at_other.
    intros [j Hj]%list_elem_of_lookup. rewrite Htk in Hj. case_decide; [|done].
    pose proof (NoDup_lookup _ _ _ _ Hnd Ek Hj). lia.
Qed.

Lemma scattered_other m bufs skip src i :
  i ∉ positions m bufs → GuestMem.dram (scattered m bufs skip src) !! i = GuestMem.dram m !! i.
Proof.
  intros Hi. apply lookup_write_at_other. intros Hin. apply Hi. unfold touched in Hin.
  apply list_elem_of_lookup in Hin as [k Hk].
  destruct (decide (k < Z.to_nat (Z.of_nat (length src)))%nat).
  - rewrite lookup_take_lt, lookup_drop in Hk by done. by eapply list_elem_of_lookup_2.
  - by rewrite lookup_take_ge in Hk by lia.
Qed.

Lemma scattered_fits m bufs skip src : mem_fits m → mem_fits (scattered m bufs skip src).
Proof. intros Hm. unfold mem_fits, scattered. cbn. by rewrite length_write_at. Qed.

Lemma scattered_in m bufs skip src b : buf_in m b → buf_in (scattered m bufs skip src) b.
Proof. unfold buf_in, scattered. cbn. by rewrite length_write_at. Qed.

Lemma sg_len_run m bufs :
  Forall (buf_in m) bufs → Z.of_nat (length (positions m bufs)) < 2 ^ usize_bits →
  sg_len bufs = Some (Z.of_nat (length (positions m bufs))).
Proof.
  intros Hb. unfold sg_len.
  assert (H : ∀ acc, 0 <= acc → acc + Z.of_nat (length (positions m bufs)) < 2 ^ usize_bits →
    foldl (λ acc b, a ← acc; add_u usize_bits a (Buf.len b)) (Some acc) bufs
    = Some (acc + Z.of_nat (length (positions m bufs)))).
  { induction Hb as [|b bufs (Hl & _) _ IH]; intros acc Ha Hs; cbn [foldl]; [by rewrite Z.add_0_r|].
    rewrite positions_cons, length_app, length_seq in *. cbn [mbind option_bind].
    rewrite add_u_small by (unfold urange; lia). rewrite IH by lia. f_equal. lia. }
  intros Hs. rewrite H by lia. done.
Qed.
End Lists.

(** * Properties *)

(** What a device scatters into a guest buffer list it gathers back.  For
    buffers that lie in DRAM and do not overlap, and a transfer that fits,
    [sg_write] reports every byte written, [sg_read] of the same range then
    returns exactly those bytes, and no byte of DRAM outside the range has
    changed. *)
Theorem sg_roundtrip `{Profile} `{Target} m bufs skip src :
  mem_fits m → Forall (buf_in m) bufs → NoDup (positions m bufs) →
  0 <= skip → skip + Z.of_nat (length src) <= Z.of_nat (length (positions m bufs)) →
  ∃ m', sg_write bufs skip src 0 m = Some (Z.of_nat (length src), m')
        ∧ sg_read m' bufs skip (replicate (length src) 0) 0 = Some (src, Z.of_nat (length src))
        ∧ contents m' bufs = splice (contents m bufs) skip src
        ∧ ∀ i, i ∉ positions m bufs → GuestMem.dram m' !! i = GuestMem.dram m !! i.
Proof.
  intros Hm Hb Hnd Hs Hf. exists (scattered m bufs skip src).
  split_and!; [by apply sg_write_run| |by apply contents_scattered|by intros; apply scattered_other].
  rewrite sg_read_run; [|by apply scattered_fits|by eapply Forall_impl; [|apply scattered_in]|done|by rewrite (positions_same m)].
  do 2 f_equal. rewrite contents_scattered by done. apply splice_slice. rewrite length_contents. lia.
Qed.

Definition demo_mem : GuestMem.t := GuestMem.mk (replicate 64 0) 0x80000000.
Definition demo_bufs : list Buf.t := [Buf.mk 0x80000020 5; Buf.mk 0x80000004 3; Buf.mk 0x80000030 8].

Lemma sg_roundtrip_witness :
  ∃ m', @sg_write Dev Wasm32 demo_bufs 3 [1; 2; 3; 4; 5; 6; 7] 0 demo_mem = Some (7, m')
        ∧ @sg_read Dev Wasm32 m' demo_bufs 3 (replicate 7 0) 0 = Some ([1; 2; 3; 4; 5; 6; 7], 7).
Proof.
  destruct (@sg_roundtrip Dev Wasm32 demo_mem demo_bufs 3 [1; 2; 3; 4; 5; 6; 7])
    as (m' & Hw & Hr & _).
  - by vm_compute.
  - repeat constructor; by vm_compute.
  - apply (bool_decide_unpack _). vm_compute. exact I.
  - lia.
  - by vm_compute.
  - exists m'. exact (conj Hw Hr).
Defined.
