(* ===== verification/VirtioQueue.v ===== *)
(** What the virtio transport guarantees: the used ring, completions, the bound
    on queue processing, and the snapshot of a slot. *)

From S2P Require Import Prelude Keeps State Stream Virtio VirtioSg.
Import VirtioMmio.

(** * Well-formed transport state: the widths of the Rust fields *)

Definition queue_wf (q : QueueState.t) : Prop :=
  urange 16 (QueueState.num q) ∧ urange 64 (QueueState.desc q) ∧ urange 64 (QueueState.avail q)
  ∧ urange 64 (QueueState.used q) ∧ urange 16 (QueueState.last_avail q).

Definition completion_wf `{Target} (c : Completion.t) : Prop :=
  urange usize_bits (Completion.queue c) ∧ urange 16 (Completion.head c)
  ∧ urange 32 (Completion.len c) ∧ urange 64 (Completion.due c).

Record mmio_wf `{Target} {D} (v : t D) : Prop := {
  mw_dfs : urange 32 (device_features_sel v);
  mw_df : urange 64 (driver_features v);
  mw_drs : urange 32 (driver_features_sel v);
  mw_status : urange 32 (status v);
  mw_qsel : urange usize_bits (queue_sel v);
  mw_queues : length (queues v) = MAX_QUEUES ∧ Forall queue_wf (queues v);
  mw_isr : urange 32 (interrupt_status v);
  mw_gen : urange 32 (config_generation v);
  mw_now : urange 64 (now v);
  mw_pending : Forall completion_wf (pending v);
}.

(** * Snapshots *)

(** The bytes of a run of writer calls. *)
Ltac wr :=
  cbn [Writer.u8 Writer.u16 Writer.u32 Writer.u64 Writer.bool Writer.push Writer.buf];
  by rewrite <- ?app_assoc.

Section Snapshot.
Context {PR : Profile} {T : Target} {Ht : TargetOk T} {D : Type}.
Implicit Types v : t D.

Definition queue_bytes (q : QueueState.t) : list Z :=
  to_le_bytes 2 (QueueState.num q) ++ [b2z (QueueState.ready q)]
  ++ to_le_bytes 8 (QueueState.desc q) ++ to_le_bytes 8 (QueueState.avail q)
  ++ to_le_bytes 8 (QueueState.used q) ++ to_le_bytes 2 (QueueState.last_avail q).

Definition completion_bytes (c : Completion.t) : list Z :=
  to_le_bytes 8 (Completion.queue c) ++ to_le_bytes 2 (Completion.head c)
  ++ to_le_bytes 4 (Completion.len c) ++ to_le_bytes 8 (Completion.due c).

Definition mmio_bytes v : list Z :=
  to_le_bytes 4 (device_features_sel v) ++ to_le_bytes 8 (driver_features v)
  ++ to_le_bytes 4 (driver_features_sel v) ++ to_le_bytes 4 (status v)
  ++ to_le_bytes 8 (queue_sel v) ++ concat (queue_bytes <$> queues v)
  ++ to_le_bytes 4 (interrupt_status v) ++ to_le_bytes 4 (config_generation v)
  ++ to_le_bytes 8 (now v) ++ to_le_bytes 8 (Z.of_nat (length (pending v)))
  ++ concat (completion_bytes <$> pending v).

Lemma save_mmio_wrote v : wrote (save_state v) (mmio_bytes v).
Proof.
  intros w. unfold save_state, mmio_bytes. cbv zeta.
  rewrite (wrote_foldl save_completion completion_bytes).
  2:{ intros c _ w'. unfold save_completion, completion_bytes. wr. }
  cbn [Writer.u64 Writer.u32 Writer.push Writer.buf].
  rewrite (wrote_foldl save_queue queue_bytes).
  2:{ intros c _ w'. unfold save_queue, queue_bytes. wr. }
  wr.
Qed.

Lemma vec_get_lt {A} (l : list A) i x :
  vec_get l i = Some x → l !! Z.to_nat i = Some x ∧ 0 <= i < Z.of_nat (length l).
Proof. unfold vec_get. destruct (_ && _) eqn:E; [|done]. intros ->. split; [done|lia]. Qed.

Lemma vec_get_insert {A} (l : list A) i x y :
  vec_get l i = Some x → vec_get (<[Z.to_nat i := y]> l) i = Some y.
Proof.
  intros [Hl Hi]%vec_get_lt. unfold vec_get. rewrite length_insert.
  replace ((0 <=? i) && (i <? Z.of_nat (length l))) with true by (symmetry; lia).
  apply list_lookup_insert_eq. lia.
Qed.

Lemma upd_queue_upd i f g v : upd_queue i f (upd_queue i g v) = upd_queue i (f ∘ g) v.
Proof.
  unfold upd_queue. destruct (vec_get (queues v) i) as [q|] eqn:E; [|by rewrite E].
  cbn. rewrite (vec_get_insert _ _ q) by done. by rewrite list_insert_insert_eq.
Qed.

Lemma load_queue_loads i q :
  queue_wf q → loads (load_queue i) (queue_bytes q) (upd_queue (D := D) (Z.of_nat i) (λ _, q)) tt.
Proof.
  intros (Hn & Hd & Ha & Hu & Hl). unfold load_queue, queue_bytes. eapply loads_ext.
  - apply loads_into; [by apply reads_u16|]. apply loads_into; [apply reads_bool|].
    apply loads_into; [by apply reads_u64|]. apply loads_into; [by apply reads_u64|].
    apply loads_into; [by apply reads_u64|]. apply loads_into_last. by apply reads_u16.
  - intros v. unfold compose. rewrite !upd_queue_upd. unfold upd_queue. case_match; [|done]. by destruct q.
Qed.

Lemma load_completion_reads c :
  completion_wf c → reads load_completion (completion_bytes c) c.
Proof.
  intros (Hq & Hh & Hl & Hd). unfold load_completion, completion_bytes.
  assert (Hq64 : urange 64 (Completion.queue c)) by (apply (urange_weaken usize_bits); [pose proof (usize_ok (T := T)); lia|done]).
  eapply reads_bind; [by apply reads_u64|]. eapply reads_bind; [by apply reads_u16|].
  eapply reads_bind; [by apply reads_u32|]. rewrite <- (app_nil_r (to_le_bytes 8 _)).
  eapply reads_bind; [by apply reads_u64|]. rewrite wrap_small by done. destruct c. apply reads_ret.
Qed.

Lemma load_pending_loads cs : ∀ fuel,
  Forall completion_wf cs → (length cs <= fuel)%nat →
  loads (load_pending fuel (Z.of_nat (length cs))) (concat (completion_bytes <$> cs))
    (λ v, v <| pending := pending v ++ cs |>) tt.
Proof.
  induction cs as [|c cs IH]; intros fuel Hw Hf; cbn [length fmap list_fmap concat] in *.
  - intros v pre post _. destruct fuel; cbn; unfold mret, M_ret; rewrite !app_nil_r; by destruct v.
  - apply Forall_cons in Hw as [Hc Hw]. destruct fuel as [|fuel]; [lia|]. cbn [load_pending].
    destruct (Z.leb_spec (Z.of_nat (S (length cs))) 0); [lia|].
    replace (Z.of_nat (S (length cs)) - 1) with (Z.of_nat (length cs)) by lia.
    eapply loads_ext; [apply loads_into; [by apply load_completion_reads|apply IH; [done|lia]]|].
    intros v. unfold compose, push_completion. cbn. by rewrite <- app_assoc.
Qed.

Lemma load_queues_loads qs :
  length qs = MAX_QUEUES → Forall queue_wf qs →
  loads (S := t D) (for_some MAX_QUEUES 0 load_queue) (concat (queue_bytes <$> qs))
    (λ v, (foldl (λ '(j, s) q, (j + 1, upd_queue (Z.of_nat j) (λ _, q) s))%nat (0%nat, v) qs).2) tt.
Proof.
  intros Hl Hw. rewrite <- Hl. apply (loads_for qs load_queue queue_bytes
    (λ i q, upd_queue (Z.of_nat i) (λ _, q)) 0%nat). intros k q Hq.
  apply load_queue_loads. rewrite Forall_lookup in Hw. by eapply Hw.
Qed.

Lemma set_queues_all qs v :
  length qs = MAX_QUEUES → length (queues v) = MAX_QUEUES →
  (foldl (λ '(j, s) q, (j + 1, upd_queue (Z.of_nat j) (λ _, q) s))%nat (0%nat, v) qs).2
  = v <| queues := qs |>.
Proof.
  intros Hl Hv. destruct qs as [|q0 [|q1 [|q2 [|q3 [|]]]]]; try done.
  destruct v as [? ? ? ? ? ? ? [|a0 [|a1 [|a2 [|a3 [|]]]]] ? ? ? ?]; try done.
Qed.

Lemma completion_bytes_length c : length (completion_bytes c) = 22%nat.
Proof. unfold completion_bytes. by rewrite !length_app, !length_to_le_bytes. Qed.

Lemma completions_length cs : (length cs <= length (concat (completion_bytes <$> cs)))%nat.
Proof.
  induction cs as [|c cs IH]; [done|]. cbn [fmap list_fmap concat length].
  rewrite length_app, completion_bytes_length. lia.
Qed.

Lemma load_tail_loads cs :
  Forall completion_wf cs →
  loads (S := t D)
    (let? n := on_snd Reader.u64 in
     on_fst (modify (λ v, v <| pending := [] |>));;
     fuel ← on_snd (get (λ r, S (length (Reader.buf r))));
     load_pending fuel (as_usize n))
    (to_le_bytes 8 (Z.of_nat (length cs)) ++ concat (completion_bytes <$> cs))
    (λ v, v <| pending := cs |>) tt.
Proof.
  intros Hw v pre post Hf. pose proof (completions_length cs) as Hl. pose proof (usize_ok (T := T)) as Hu.
  assert (Hn : urange usize_bits (Z.of_nat (length cs))).
  { unfold fits, urange in *. rewrite !length_app in Hf. lia. }
  revert v pre post Hf.
  eapply loads_ext; [eapply (loads_bind _ _ _ _ id (λ v, v <| pending := cs |>) (Z.of_nat (length cs)))|done].
  - apply loads_reads, reads_u64. apply (urange_weaken usize_bits); [lia|done].
  - intros v pre post Hf. rewrite wrap_small by done. unfold mbind at 1, M_bind at 1, on_fst, modify.
    unfold mbind at 1, M_bind at 1, on_snd, get. cbn [Reader.buf].
    rewrite (load_pending_loads cs); [done|done| |done]. rewrite !length_app. lia.
Qed.

(** A slot restored over any transport has the state that was saved; the device
    and the interrupt number are those of the slot. *)
Lemma load_mmio_run v v0 pre post :
  mmio_wf v → length (queues v0) = MAX_QUEUES → fits (pre ++ mmio_bytes v) →
  load_state (v0, Reader.mk (pre ++ mmio_bytes v ++ post) (Z.of_nat (length pre)))
  = Some (Some tt, (v <| dev := dev v0 |> <| irq := irq v0 |>,
                    Reader.mk (pre ++ mmio_bytes v ++ post) (Z.of_nat (length (pre ++ mmio_bytes v))))).
Proof.
  intros [] Hv0 Hf. destruct mw_queues0 as [Hql Hqw]. pose proof (usize_ok (T := T)) as Hu.
  assert (Hqs : urange 64 (queue_sel v)) by (apply (urange_weaken usize_bits); [lia|done]).
  eassert (HL : loads (S := t D) load_state (mmio_bytes v) _ tt).
  { unfold load_state, mmio_bytes.
    do 4 (apply loads_into; [by first [apply reads_u32|apply reads_u64]|]).
    apply loads_into; [by apply reads_u64|].
    eapply loads_bind; [by apply load_queues_loads|].
    do 3 (apply loads_into; [by first [apply reads_u32|apply reads_u64]|]).
    by apply load_tail_loads. }
  rewrite HL by done.
  unfold compose. do 3 f_equal. rewrite set_queues_all by done. rewrite wrap_small by done.
  by destruct v, v0.
Qed.
End Snapshot.

(** * Loads and stores of guest memory *)

Section Memory.
Context {PR : Profile} {T : Target}.
Implicit Types m : GuestMem.t.

(** The [n] bytes from [a] on lie in DRAM. *)
Definition range_in m (a n : Z) : Prop :=
  0 <= n ∧ GuestMem.base m <= a
  ∧ a + n <= GuestMem.base m + Z.of_nat (length (GuestMem.dram m)).

(** The same DRAM window, whatever its contents. *)
Definition same_window m m' : Prop :=
  GuestMem.base m' = GuestMem.base m ∧ length (GuestMem.dram m') = length (GuestMem.dram m).

Definition stored m (a : Z) (src : list Z) : GuestMem.t :=
  m <| GuestMem.dram := write_at (GuestMem.dram m)
         (seq (Z.to_nat (a - GuestMem.base m)) (length src)) src |>.

Lemma stored_window m a src : same_window m (stored m a src).
Proof. split; [done|]. apply length_write_at. Qed.

Lemma window_trans m1 m2 m3 : same_window m1 m2 → same_window m2 m3 → same_window m1 m3.
Proof. unfold same_window. intros [] []. split; congruence. Qed.

Lemma same_window_fits m m' : same_window m m' → mem_fits m → mem_fits m'.
Proof. intros [Hb Hl]. unfold mem_fits. by rewrite Hb, Hl. Qed.

Lemma same_window_in m m' a n : same_window m m' → range_in m a n → range_in m' a n.
Proof. intros [Hb Hl]. unfold range_in. by rewrite Hb, Hl. Qed.

Lemma store_run m a src :
  mem_fits m → range_in m a (Z.of_nat (length src)) →
  GuestMem.write a src m = Some (tt, stored m a src).
Proof. intros Hm (_ & Ha & He). by apply write_in. Qed.

Lemma load_stored m a src n :
  n = Z.of_nat (length src) → mem_fits m → range_in m a n →
  GuestMem.read (stored m a src) a n = src.
Proof.
  intros -> Hm Hr. pose proof (stored_window m a src) as Hw.
  pose proof (same_window_in _ _ _ _ Hw Hr) as (Hn & Ha & He).
  rewrite read_in by (done || by eapply same_window_fits). rewrite Nat2Z.id.
  destruct Hr as (_ & Ha' & He').
  apply list_eq. intros k. rewrite list_lookup_fmap.
  destruct (src !! k) as [v|] eqn:Ek.
  - pose proof (lookup_lt_Some _ _ _ Ek). rewrite lookup_seq_lt by done. cbn. f_equal.
    apply list_lookup_total_correct. unfold stored. cbn.
    apply (lookup_write_at _ _ _ k); [apply NoDup_seq| |by rewrite length_seq|by apply lookup_seq_lt|done].
    apply Forall_forall. intros p Hp%elem_of_seq. lia.
  - apply lookup_ge_None in Ek. by rewrite lookup_seq_ge.
Qed.

Lemma load_stored_other m a src b n :
  mem_fits m → range_in m a (Z.of_nat (length src)) → range_in m b n →
  b + n <= a ∨ a + Z.of_nat (length src) <= b →
  GuestMem.read (stored m a src) b n = GuestMem.read m b n.
Proof.
  intros Hm Ha Hb Hd. pose proof (stored_window m a src) as Hw.
  pose proof (same_window_in _ _ _ _ Hw Hb) as (Hn & Hb1 & Hb2). destruct Ha as (_ & Ha1 & Ha2).
  destruct Hb as (_ & Hb3 & Hb4).
  rewrite !read_in by (done || by eapply same_window_fits).
  change (GuestMem.base (stored m a src)) with (GuestMem.base m).
  apply list_fmap_ext. intros k p Hp%lookup_seq. unfold stored. cbn.
  rewrite !list_lookup_total_alt. f_equal. apply lookup_write_at_other.
  rewrite elem_of_seq. lia.
Qed.

(** * The used ring *)

(** The used ring of the queue, its index included, lies in DRAM. *)
Definition ring_in m (q : QueueState.t) : Prop :=
  0 < QueueState.num q < 2 ^ 16 ∧ 0 < QueueState.used q
  ∧ range_in m (QueueState.used q) (4 + 8 * QueueState.num q).

Definition used_idx m (q : QueueState.t) : Z := GuestMem.read_u16 m (QueueState.used q + 2).
(** The entry [k] of the ring: the head and the length the driver reads. *)
Definition used_entry m (q : QueueState.t) (k : Z) : Z * Z :=
  (GuestMem.read_u32 m (QueueState.used q + 4 + k * 8),
   GuestMem.read_u32 m (QueueState.used q + 4 + k * 8 + 4)).

(** The abstract ring after a completion was pushed. *)
Definition pushed m q (head len : Z) m' : Prop :=
  same_window m m'
  ∧ used_idx m' q = as_u16 (used_idx m q + 1)
  ∧ used_entry m' q (used_idx m q mod QueueState.num q) = (as_u32 head, as_u32 len)
  ∧ (∀ k, 0 <= k < QueueState.num q → k ≠ used_idx m q mod QueueState.num q →
          used_entry m' q k = used_entry m q k)
  ∧ ∀ a n, range_in m a n →
      (a + n <= QueueState.used q ∨ QueueState.used q + 4 + 8 * QueueState.num q <= a) →
      GuestMem.read m' a n = GuestMem.read m a n.

Lemma push_used_pushed m q head len :
  mem_fits m → ring_in m q →
  ∃ m', push_used q head len m = Some (tt, m') ∧ pushed m q head len m'.
Proof.
  intros Hm (Hnum & Hused & Hr). pose proof Hr as (_ & Hr1 & Hr2). pose proof Hm as (Hb & _ & H64).
  set (slot := used_idx m q mod QueueState.num q).
  assert (Hs : 0 <= slot < QueueState.num q) by (apply Z.mod_pos_bound; lia).
  set (a := QueueState.used q + 4 + slot * 8).
  set (m1 := stored m a (to_le_bytes 4 head)).
  set (m2 := stored m1 (a + 4) (to_le_bytes 4 len)).
  set (m3 := stored m2 (QueueState.used q + 2) (to_le_bytes 2 (as_u16 (used_idx m q + 1)))).
  assert (W1 : same_window m m1) by apply stored_window.
  assert (W2 : same_window m m2) by (eapply window_trans; [exact W1|apply stored_window]).
  assert (W3 : same_window m m3) by (eapply window_trans; [exact W2|apply stored_window]).
  assert (F1 : mem_fits m1) by (by eapply same_window_fits).
  assert (F2 : mem_fits m2) by (by eapply same_window_fits).
  assert (Rin : ∀ m' o n, same_window m m' → 0 <= n → 0 <= o → o + n <= 4 + 8 * QueueState.num q →
                          range_in m' (QueueState.used q + o) n).
  { intros m' o n Hw Hn Ho He. apply (same_window_in m); [done|]. unfold range_in. lia. }
  assert (R1 : range_in m a 4) by (unfold a; rewrite <- Z.add_assoc; apply Rin; done || lia).
  assert (R2 : range_in m1 (a + 4) 4) by (unfold a; rewrite <- !Z.add_assoc; apply Rin; done || lia).
  assert (R3 : range_in m2 (QueueState.used q + 2) 2) by (apply Rin; done || lia).
  exists m3. split.
  - unfold push_used. replace (overflow_checks && _) with false
      by (symmetry; apply andb_false_iff; right; lia).
    unfold mbind at 1, M_bind at 1, mret at 1, M_ret at 1.
    unfold mbind at 1, M_bind at 1, lift at 1. rewrite add_u_small by (unfold urange; lia).
    unfold mbind at 1, M_bind at 1, get at 1.
    destruct (Z.eqb_spec (QueueState.num q) 0); [lia|].
    unfold mbind at 1, M_bind at 1, mret at 1, M_ret at 1. cbv zeta. fold (used_idx m q). fold slot.
    unfold mbind at 1, M_bind at 1, lift at 1. rewrite add_u_small by (unfold urange; lia).
    unfold mbind at 1, M_bind at 1, lift at 1. rewrite add_u_small by (unfold urange; lia). fold a.
    unfold mbind at 1, M_bind at 1. unfold GuestMem.write_u32. rewrite store_run by done.
    unfold mbind at 1, M_bind at 1, lift at 1. rewrite add_u_small by (unfold urange; lia).
    unfold mbind at 1, M_bind at 1. rewrite store_run by done.
    unfold GuestMem.write_u16. by rewrite store_run.
  - split; [done|]. split; [|split; [|split]].
    + unfold used_idx at 1, GuestMem.read_u16. unfold m3.
      rewrite load_stored by done. rewrite from_to_le_bytes. by apply wrap_wrap.
    + unfold used_entry, GuestMem.read_u32. fold slot. fold a. f_equal.
      * unfold m3. rewrite load_stored_other; [|done|done| |right; cbn; lia].
        -- unfold m2. rewrite load_stored_other; [|done|done|by apply (same_window_in m)|left; lia].
           unfold m1. rewrite load_stored by done. by rewrite from_to_le_bytes.
        -- by apply (same_window_in m).
      * unfold m3. rewrite load_stored_other; [|done|done| |right; cbn; lia].
        -- unfold m2. rewrite load_stored by done. by rewrite from_to_le_bytes.
        -- unfold a. rewrite <- !Z.add_assoc. apply Rin; done || lia.
    + intros k Hk Hne. unfold used_entry, GuestMem.read_u32.
      assert (Hsame : ∀ o, 0 <= o <= 4 →
        GuestMem.read m3 (QueueState.used q + (4 + k * 8 + o)) 4
        = GuestMem.read m (QueueState.used q + (4 + k * 8 + o)) 4).
      { intros o Ho. unfold m3. rewrite load_stored_other; [|done|done|apply Rin; done || lia|right; cbn; lia].
        unfold m2. rewrite load_stored_other; [|done|done|apply Rin; done || lia|unfold a; cbn; lia].
        unfold m1. rewrite load_stored_other; [done|done|done|apply Rin; done || lia|unfold a; cbn; lia]. }
      pose proof (Hsame 0) as H0. pose proof (Hsame 4) as H4. rewrite Z.add_0_r in H0.
      rewrite <- !Z.add_assoc. rewrite <- !Z.add_assoc in H4. rewrite H0, H4 by lia. done.
    + intros b n Hb' Hd. unfold m3.
      rewrite load_stored_other; [|done|done|by apply (same_window_in m)|cbn; lia].
      unfold m2. rewrite load_stored_other; [|done|done|by apply (same_window_in m)|unfold a; cbn; lia].
      unfold m1. rewrite load_stored_other; [done|done|done|done|unfold a; cbn; lia].
Qed.
End Memory.

(** * Completions *)

(** The completions [cs] reported in order on their queues: what the driver
    sees of them. *)
Fixpoint push_all `{Profile} `{Target} (qs : list QueueState.t) (cs : list Completion.t)
  : M GuestMem.t unit :=
  match cs with
  | [] => mret tt
  | c :: cs =>
      match vec_get qs (Completion.queue c) with
      | Some q => push_used q (Completion.head c) (Completion.len c)
      | None => mret tt
      end;;
      push_all qs cs
  end.

(** Every completion in flight falls due within the latency. *)
Definition due_bound {D} (v : t D) : Prop :=
  Forall (λ c, Completion.due c <= now v + COMPLETION_LATENCY) (pending v).

(** The queues of the completions in flight are still programmed. *)
Definition programmed {D} (v : t D) : Prop :=
  Forall (λ c, match vec_get (queues v) (Completion.queue c) with
               | Some q => QueueState.num q ≠ 0
               | None => True
               end) (pending v).

Section Completions.
Context {D : Type} `{VirtioDevice D} `{Profile} `{Target}.
Implicit Types v : t D.

Lemma retire_run c v m :
  retire c (v, m)
  = match (match vec_get (queues v) (Completion.queue c) with
           | Some q => push_used q (Completion.head c) (Completion.len c)
           | None => mret tt
           end) m with
    | Some (_, m') => Some (tt, (v, m'))
    | None => None
    end.
Proof.
  unfold retire, self_get, mbind at 1, M_bind at 1, on_fst, get.
  destruct (vec_get _ _) as [q|]; [|done]. unfold on_mem, on_snd.
  by destruct (push_used _ _ _ m) as [[[] m']|].
Qed.

(** When everything is due, one pass reports all of it, oldest first. *)
Lemma retire_due_all nw cs : ∀ v m fired,
  pending v = cs → Forall (λ c, Completion.due c <= nw) cs →
  retire_due cs nw fired (v, m)
  = match push_all (queues v) cs m with
    | Some (_, m') => Some (fired || negb (bool_decide (cs = [])), (v <| pending := [] |>, m'))
    | None => None
    end.
Proof.
  induction cs as [|c cs IH]; intros v m fired Hp Hd; cbn [retire_due push_all].
  - unfold mret, M_ret. rewrite orb_false_r. destruct v. cbn in *. by subst.
  - apply Forall_cons in Hd as [Hc Hd]. destruct (Z.ltb_spec nw (Completion.due c)); [lia|].
    rewrite !M_bind_run. unfold self_upd at 1, on_fst, modify. rewrite M_bind_run, retire_run.
    change (queues (v <| pending := cs |>)) with (queues v).
    destruct ((match vec_get (queues v) (Completion.queue c) with
           | Some q => push_used q (Completion.head c) (Completion.len c)
           | None => mret tt end) m) as [[[] m']|]; [|done].
    rewrite IH by done. change (queues (v <| pending := cs |>)) with (queues v).
    destruct (push_all (queues v) cs m') as [[[] m'']|]; [|done].
    do 2 f_equal. by rewrite orb_true_r.
Qed.
End Completions.

(** * Serving a kick *)

Section Serving.
Context {D : Type} `{VirtioDevice D} {PR : Profile} {T : Target}.
Implicit Types (v : t D) (m : GuestMem.t).

(** What a kick does to the device: the chains in [n] consecutive slots of the
    available ring, from [last] on, are handed to it one after another.  Each is
    returned with the bytes written and with whether the device keeps it for
    later; a head that is no descriptor is skipped. *)
Fixpoint serve_entries (n : nat) (queue : Z) (q : QueueState.t) (last : Z) (s : D * GuestMem.t)
  : option (list (Chain.t * Z * bool) * (D * GuestMem.t)) :=
  match n with
  | O => Some ([], s)
  | S n =>
      head ← avail_head s.2 q last;
      r ← walk s.2 q head;
      match r with
      | None => serve_entries n queue q (as_u16 (last + 1)) s
      | Some c =>
          '(w, s1) ← handle queue c s;
          '(df, s2) ← on_fst deferred_this s1;
          '(l, s') ← serve_entries n queue q (as_u16 (last + 1)) s2;
          Some ((c, w, df) :: l, s')
      end
  end.

Lemma serve_entries_S n queue q last s :
  serve_entries (S n) queue q last s
  = match avail_head s.2 q last with
    | None => None
    | Some h =>
        match walk s.2 q h with
        | None => None
        | Some None => serve_entries n queue q (as_u16 (last + 1)) s
        | Some (Some c) =>
            match handle queue c s with
            | None => None
            | Some (w, s1) =>
                match on_fst deferred_this s1 with
                | None => None
                | Some (df, s2) =>
                    match serve_entries n queue q (as_u16 (last + 1)) s2 with
                    | None => None
                    | Some (l, s') => Some ((c, w, df) :: l, s')
                    end
                end
            end
        end
    end.
Proof. reflexivity. Qed.

(** The completions owed at once: one per chain that the device did not keep. *)
Definition completions_of (queue due : Z) (l : list (Chain.t * Z * bool)) : list Completion.t :=
  (λ e, Completion.mk queue (Chain.head e.1.1) e.1.2 due) <$> filter (λ e, e.2 = false) l.

Definition queued (queue : Z) (l : list (Chain.t * Z * bool)) (d : D) v : t D :=
  v <| dev := d |>
    <| pending := pending v ++ completions_of queue (as_u64 (now v + COMPLETION_LATENCY)) l |>.

Lemma queued_nil queue v : queued queue [] (dev v) v = v.
Proof. unfold queued, completions_of. cbn. rewrite app_nil_r. by destruct v. Qed.

Lemma completions_cons queue due e l :
  completions_of queue due (e :: l) = completions_of queue due [e] ++ completions_of queue due l.
Proof. unfold completions_of. destruct e as [[c w] df]. rewrite !filter_cons. by destruct df. Qed.

Lemma queued_cons queue e l d d' v :
  queued queue l d' (queued queue [e] d v) = queued queue (e :: l) d' v.
Proof.
  unfold queued. rewrite (completions_cons _ _ e l), app_assoc. by destruct v.
Qed.

(** How many entries the loop takes: those published, within the budget. *)
Definition taken (budget idx last : Z) : Z := Z.min ((idx - last) mod 2 ^ 16) budget.

Lemma taken_next b idx last :
  0 <= b → urange 16 last → urange 16 idx → last ≠ idx →
  taken (b + 1) idx last = taken b idx (as_u16 (last + 1)) + 1.
Proof.
  intros Hb Hl Hi Hne. unfold taken.
  assert (Hn : (idx - as_u16 (last + 1)) mod 2 ^ 16 = (idx - last) mod 2 ^ 16 - 1); [|lia].
  unfold wrap, urange in *. rewrite Zminus_mod_idemp_r.
  destruct (Z.lt_ge_cases idx last).
  - rewrite <- (Z.mod_unique (idx - (last + 1)) (2 ^ 16) (-1) (idx - last - 1 + 2 ^ 16)) by lia.
    rewrite <- (Z.mod_unique (idx - last) (2 ^ 16) (-1) (idx - last + 2 ^ 16)) by lia. lia.
  - rewrite !Z.mod_small by lia. lia.
Qed.

Lemma taken_range b idx last : 0 <= b → 0 <= taken b idx last <= b.
Proof. intros. unfold taken. pose proof (Z.mod_pos_bound (idx - last) (2 ^ 16)). lia. Qed.

(** The loop serves the entries and queues what is owed. *)
Lemma notify_loop_serves queue q idx b : ∀ last sv v m,
  urange 16 last → urange 16 idx →
  notify_loop b queue q idx last sv (v, m)
  = '(l, (d, m')) ← serve_entries (Z.to_nat (taken (Z.of_nat b) idx last)) queue q last (dev v, m);
    Some ((as_u16 (last + taken (Z.of_nat b) idx last), sv || negb (bool_decide (l = []))),
          (queued queue l d v, m')).
Proof.
  induction b as [|b IH]; intros last sv v m Hl Hi; cbn [notify_loop].
  - unfold taken. rewrite Z.min_r by (apply Z.mod_pos_bound; lia).
    change (Z.of_nat 0) with 0. change (Z.to_nat 0) with O. cbn [serve_entries mbind option_bind].
    by rewrite queued_nil, Z.add_0_r, wrap_small, orb_false_r.
  - destruct (Z.eqb_spec last idx) as [->|Hne].
    + unfold taken. rewrite Z.sub_diag, Z.mod_0_l, Z.min_l by lia.
      change (Z.to_nat 0) with O. cbn [serve_entries mbind option_bind].
      by rewrite queued_nil, Z.add_0_r, wrap_small, orb_false_r.
    + replace (Z.of_nat (S b)) with (Z.of_nat b + 1) by lia.
      rewrite taken_next by (done || lia). set (k := taken _ _ _).
      assert (Hk : 0 <= k) by (apply taken_range; lia).
      replace (Z.to_nat (k + 1)) with (S (Z.to_nat k)) by lia. rewrite serve_entries_S.
      replace (as_u16 (last + (k + 1))) with (as_u16 (as_u16 (last + 1) + k))
        by (unfold wrap; rewrite Zplus_mod_idemp_l; f_equal; lia).
      unfold on_mem. rewrite get_snd_bind. cbn [id snd].
      rewrite M_bind_run. unfold lift at 1. destruct (avail_head m q last) as [h|]; [|done].
      rewrite M_bind_run. unfold lift at 1. destruct (walk m q h) as [[c|]|]; [| |done].
      2:{ rewrite M_bind_run. unfold mret at 1, M_ret at 1.
          rewrite IH by (done || (apply wrap_range; lia)). done. }
      rewrite !M_bind_run. unfold on_dev at 1, zoom at 1. cbn [fst snd].
      destruct (handle queue c (dev v, m)) as [[w [d1 m1]]|]; [|done].
      rewrite M_bind_run. unfold on_dev1, on_dev at 1, zoom at 1. cbn [fst snd].
      change (dev (set_dev d1 v)) with d1.
      destruct (on_fst deferred_this (d1, m1)) as [[df [d2 m2]]|]; [|done].
      assert (Hq : (if negb df then
                      nw ← self_get now;
                      self_upd (push_completion (Completion.mk queue (Chain.head c) w
                                                   (as_u64 (nw + COMPLETION_LATENCY))))
                    else mret tt) (set_dev d2 (set_dev d1 v), m2)
                   = Some (tt, (queued queue [(c, w, df)] d2 v, m2))).
      { unfold queued, completions_of. destruct df, v; cbn; [by rewrite app_nil_r|done]. }
      cbn [fst snd]. erewrite M_bind_some by exact Hq. unfold mret at 1, M_ret at 1.
      rewrite IH by (done || (apply wrap_range; lia)). fold k.
      change (dev (queued queue [(c, w, df)] d2 v)) with d2.
      destruct (serve_entries (Z.to_nat k) queue q (as_u16 (last + 1)) (d2, m2)) as [[l [d' m']]|]; [|done].
      cbn [mbind option_bind]. rewrite queued_cons. by rewrite orb_true_r.
Qed.

(** A queue whose kick is served: one the device has, ready, and not the one it
    receives on. *)
Definition kickable v (queue : Z) (q : QueueState.t) : Prop :=
  length (queues v) = MAX_QUEUES ∧ 0 <= queue < num_queues (dev v)
  ∧ vec_get (queues v) queue = Some q ∧ QueueState.ready q = true ∧ 0 < QueueState.num q
  ∧ rx_queue (dev v) ≠ Some queue ∧ urange 16 (QueueState.last_avail q).

(** The entries of the available ring that a kick takes when the driver's index is [idx]. *)
Definition kick_count (q : QueueState.t) (idx : Z) : Z :=
  taken (QueueState.num q * 2 + 1) idx (QueueState.last_avail q).

Lemma notify_head v m queue q :
  kickable v queue q →
  notify queue (v, m)
  = (idx ← lift (avail_idx m q);
     '(last, serviced) ← notify_loop (Z.to_nat (QueueState.num q * 2 + 1)) queue q idx
                           (QueueState.last_avail q) false;
     self_upd (upd_queue queue (λ q', q' <| QueueState.last_avail := last |>));;
     mret serviced) (v, m).
Proof.
  intros (Hlen & Hqr & Hq & Hr & Hn & Hrx & Hl). pose proof (vec_get_lt _ _ _ Hq) as [_ Hrg].
  unfold notify, self_get. rewrite get_fst_bind.
  replace ((Z.of_nat MAX_QUEUES <=? queue) || (num_queues (dev v) <=? queue)) with false
    by (symmetry; rewrite orb_false_iff, !Z.leb_gt; lia).
  rewrite bool_decide_eq_false_2 by done. rewrite get_fst_bind, Hq. erewrite lift_bind by reflexivity.
  rewrite Hr. replace (QueueState.num q =? 0) with false by lia. cbn [negb orb].
  unfold on_mem. by rewrite get_snd_bind.
Qed.

Lemma notify_run v m queue q idx :
  kickable v queue q → avail_idx m q = Some idx → urange 16 idx →
  notify queue (v, m)
  = '(l, (d, m')) ← serve_entries (Z.to_nat (kick_count q idx)) queue q (QueueState.last_avail q) (dev v, m);
    Some (negb (bool_decide (l = [])),
          (upd_queue queue (λ q', q' <| QueueState.last_avail :=
                                    as_u16 (QueueState.last_avail q + kick_count q idx) |>)
             (queued queue l d v), m')).
Proof.
  intros Hk Hai Hi. rewrite (notify_head v m queue q Hk). destruct Hk as (_ & _ & _ & _ & Hn & _ & Hl).
  rewrite (lift_bind _ _ _ _ Hai). rewrite M_bind_run, notify_loop_serves by done.
  rewrite Z2Nat.id by lia. fold (kick_count q idx).
  by destruct (serve_entries _ _ _ _ _) as [[l [d m']]|].
Qed.

Lemma kicked_queue v queue q f l d :
  vec_get (queues v) queue = Some q →
  vec_get (queues (upd_queue queue f (queued queue l d v))) queue = Some (f q).
Proof.
  intros Hq. unfold upd_queue. change (queues (queued queue l d v)) with (queues v). rewrite Hq.
  cbn [queues set_field]. by apply (vec_get_insert _ _ q).
Qed.

(** The kick itself changes [last_avail], the device and what is in flight. *)
Lemma kicked_fields v queue f l d :
  let v1 := upd_queue queue f (queued queue l d v) in
  pending v1 = pending v ++ completions_of queue (as_u64 (now v + COMPLETION_LATENCY)) l
  ∧ now v1 = now v ∧ dev v1 = d.
Proof. cbv zeta. unfold upd_queue. by case_match. Qed.

Lemma programmed_kick v queue q f l d :
  vec_get (queues v) queue = Some q → 0 < QueueState.num q →
  (∀ q', QueueState.num (f q') = QueueState.num q') → programmed v →
  programmed (upd_queue queue f (queued queue l d v)).
Proof.
  intros Hq Hn Hf Hp. pose proof (kicked_queue v queue q f l d Hq) as Hk. unfold programmed.
  destruct (kicked_fields v queue f l d) as (-> & _). apply Forall_app. split.
  - eapply Forall_impl; [exact Hp|]. intros c Hc. cbn beta in *.
    unfold upd_queue. change (queues (queued queue l d v)) with (queues v). rewrite Hq.
    cbn [queues set_field]. unfold vec_get in *. rewrite length_insert.
    destruct ((0 <=? Completion.queue c) && _); [|done].
    destruct (decide (Z.to_nat (Completion.queue c) = Z.to_nat queue)) as [E|E].
    + rewrite E in *. destruct (0 <=? queue) eqn:E0; [|done]. cbn [andb] in Hq.
      destruct (_ <? _); [|done]. rewrite Hq in Hc.
      rewrite list_lookup_insert_eq by (by eapply lookup_lt_Some). cbn beta iota. by rewrite Hf.
    + by rewrite list_lookup_insert_ne by done.
  - apply Forall_fmap, Forall_true. intros x. cbn. rewrite Hk, Hf. lia.
Qed.

(** A tick at which everything in flight is due reports all of it. *)
Lemma tick_all v m m' amount :
  0 <= now v → 0 <= amount → now v + amount < 2 ^ 64 → push_all (queues v) (pending v) m = Some (tt, m') →
  Forall (λ c, Completion.due c <= now v + amount) (pending v) →
  ∃ v', tick amount (v, m) = Some (negb (bool_decide (pending v = [])), (v', m'))
    ∧ pending v' = [] ∧ dev v' = dev v ∧ (pending v ≠ [] → irq_level v' = true).
Proof.
  intros Hn Ha Hw Em Hd. unfold tick. rewrite M_bind_run. unfold self_upd at 1, on_fst, modify.
  rewrite wrap_small by (unfold urange; lia). set (v2 := v <| now := now v + amount |>).
  rewrite M_bind_run. unfold self_get at 1, on_fst, get.
  change (pending v2) with (pending v). destruct (bool_decide_reflect (pending v = [])) as [E0|E0].
  - rewrite E0 in Em. injection Em as <-. exists v2. by split_and!.
  - rewrite M_bind_run. cbn [self_get on_fst get]. rewrite M_bind_run.
    rewrite (retire_due_all (now v2) (pending v) v2); [|done|done].
    change (queues v2) with (queues v). rewrite Em. rewrite bool_decide_false by done.
    eexists. split; [reflexivity|]. split_and!; [done..|]. intros _. unfold irq_level, raise. cbn.
    destruct (Z.eqb_spec (Z.lor (interrupt_status v) 1) 0) as [E|]; [|done].
    by apply Z.lor_eq_0_iff in E as [_ E].
Qed.

(** ** Panics: overflow checks only *)

Lemma read_desc_none m d : read_desc m d = None → overflow_checks = true.
Proof.
  unfold read_desc. destruct (add_u 64 d 8) eqn:E; [|intros _; by eapply add_u_none].
  cbn [mbind option_bind]. destruct (add_u 64 d 12) eqn:E1; [|intros _; by eapply add_u_none].
  cbn [mbind option_bind]. destruct (add_u 64 d 14) eqn:E2; [done|intros _; by eapply add_u_none].
Qed.

Lemma walk_indirect_none m a n : ∀ inner c, walk_indirect m a n inner c = None → overflow_checks = true.
Proof.
  induction n as [|n IH]; intros inner c; cbn [walk_indirect]; [done|].
  destruct (add_u _ _ _) eqn:E; [|intros _; by eapply add_u_none]. cbn [mbind option_bind].
  destruct (read_desc _ _) as [[[[ad ln] fl] nx]|] eqn:Er; [|intros _; by eapply read_desc_none].
  unfold mbind, option_bind. destruct (_ =? _); [done|apply IH].
Qed.

Lemma walk_from_none m q n : ∀ idx c, walk_from m q n idx c = None → overflow_checks = true.
Proof.
  induction n as [|n IH]; intros idx c; cbn [walk_from]; [done|]. destruct (_ <=? _); [done|].
  destruct (add_u _ _ _) eqn:E; [|intros _; by eapply add_u_none]. cbn [mbind option_bind].
  destruct (read_desc _ _) as [[[[ad ln] fl] nx]|] eqn:Er; [|intros _; by eapply read_desc_none].
  unfold mbind, option_bind. destruct (negb _).
  - destruct (walk_indirect _ _ _ _ _) eqn:Ew; [|intros _; by eapply walk_indirect_none].
    destruct (_ =? _); [done|apply IH].
  - destruct (_ =? _); [done|apply IH].
Qed.

Lemma avail_head_none m q last : avail_head m q last = None → overflow_checks = true.
Proof.
  unfold avail_head. cbv zeta. destruct (add_u 64 _ 4) eqn:E; [|intros _; by eapply add_u_none].
  unfold mbind, option_bind. destruct (add_u 64 z _) eqn:E1; [by intros [=]|intros _; by eapply add_u_none].
Qed.

(** With a device that keeps [I] and panics at most by an overflow check, so
    does the kick. *)
Lemma serve_entries_total (I : D * GuestMem.t → Prop) queue q n :
  (∀ c, keeps (overflow_checks = true) I (handle queue c) (λ _, True)) →
  keeps (overflow_checks = true) I (on_fst deferred_this) (λ _, True) →
  ∀ last s, I s → serve_entries n queue q last s = None → overflow_checks = true.
Proof.
  intros Hh Hd. induction n as [|n IH]; intros last s Hs; [done|]. rewrite serve_entries_S.
  destruct (avail_head _ _ _) as [h|] eqn:Eh; [|intros _; by eapply avail_head_none].
  destruct (walk _ _ _) as [[c|]|] eqn:Ew; [|by apply IH|intros _; by eapply walk_from_none].
  pose proof (Hh c s Hs) as H1. unfold wp in H1. destruct (handle queue c s) as [[w s1]|]; [|done].
  destruct H1 as [_ H1]. pose proof (Hd s1 H1) as H2. unfold wp in H2.
  destruct (on_fst deferred_this s1) as [[df s2]|]; [|done]. destruct H2 as [_ H2].
  pose proof (IH (as_u16 (last + 1)) s2 H2) as H3. by destruct (serve_entries n _ _ _ _) as [[l s']|].
Qed.

Lemma add_u_value w a b x : 0 <= w → add_u w a b = Some x → x = wrap w (a + b).
Proof.
  intros Hw. unfold add_u, checked_u. destruct (_ && _) eqn:E; [|destruct overflow_checks; [done|]]; intros [= <-]; [|done].
  symmetry. apply wrap_small. unfold urange. lia.
Qed.

Lemma read_u16_range m a : Forall is_byte (GuestMem.dram m) → urange 16 (GuestMem.read_u16 m a).
Proof.
  intros Hb. unfold GuestMem.read_u16, GuestMem.read. case_match; [|by unfold urange].
  apply (urange_weaken (8 * Z.of_nat (length (take (Z.to_nat 2) (drop (Z.to_nat z) (GuestMem.dram m)))))).
  - rewrite length_take. lia.
  - by apply from_le_bytes_range, Forall_take, Forall_drop.
Qed.
End Serving.

(** * The driver's view of a batch of completions *)

Section Ring.
Context {PR : Profile} {T : Target}.
Implicit Types m : GuestMem.t.

(** The [k]-th slot behind the index, for a ring size that divides 2^16. *)
Definition ring_slot m (q : QueueState.t) (k : nat) : Z := (used_idx m q + Z.of_nat k) mod QueueState.num q.

Lemma next_slot n u k : 0 < n → (n | 2 ^ 16) → (as_u16 (u + 1) + k) mod n = (u + (1 + k)) mod n.
Proof.
  intros Hn Hd. unfold wrap. rewrite <- Zplus_mod_idemp_l, Z.mod_mod_divide by done.
  rewrite Zplus_mod_idemp_l. f_equal. lia.
Qed.

Lemma slot_distinct n u k : 0 < n → 0 < k < n → (u + k) mod n ≠ u mod n.
Proof.
  intros Hn Hk E. assert (Hz : (u + k - u) mod n = 0) by (rewrite Zminus_mod, E, Z.sub_diag; by apply Z.mod_0_l; lia).
  replace (u + k - u) with k in Hz by lia. rewrite Z.mod_small in Hz; lia.
Qed.

(** Completions of one queue, no more than its ring holds, appear on it in order. *)
Lemma push_all_ring qs i q cs : ∀ m,
  mem_fits m → ring_in m q → (QueueState.num q | 2 ^ 16) → vec_get qs i = Some q →
  Forall (λ c, Completion.queue c = i) cs → Z.of_nat (length cs) <= QueueState.num q →
  ∃ m', push_all qs cs m = Some (tt, m')
    ∧ (cs ≠ [] → used_idx m' q = as_u16 (used_idx m q + Z.of_nat (length cs)))
    ∧ (∀ k c, cs !! k = Some c →
         used_entry m' q (ring_slot m q k) = (as_u32 (Completion.head c), as_u32 (Completion.len c)))
    ∧ ∀ j, 0 <= j < QueueState.num q → (∀ k, (k < length cs)%nat → j ≠ ring_slot m q k) →
         used_entry m' q j = used_entry m q j.
Proof.
  induction cs as [|c cs IH]; intros m Hm Hr Hd Hq Hc Hl; cbn [push_all length] in *.
  - by exists m.
  - apply Forall_cons in Hc as [<- Hc]. rewrite M_bind_run, Hq.
    destruct (push_used_pushed m q (Completion.head c) (Completion.len c) Hm Hr)
      as (m1 & -> & Hw & Hi & He & Ho & _).
    pose proof Hr as (Hn & _).
    assert (Hs : ∀ k, ring_slot m1 q k = ring_slot m q (S k)).
    { intros k. unfold ring_slot. rewrite Hi, next_slot by (done || lia). f_equal. lia. }
    assert (Hr1 : ring_in m1 q).
    { destruct Hr as (R1 & R2 & R3). exact (conj R1 (conj R2 (same_window_in m m1 _ _ Hw R3))). }
    destruct (IH m1) as (m2 & E & Hi2 & He2 & Ho2); [by eapply same_window_fits|done..|lia|].
    exists m2. split_and!; [done| | |].
    + intros _. destruct cs as [|c1 cs].
      * injection E as <-. rewrite Hi. done.
      * rewrite Hi2, Hi by done. unfold wrap. rewrite Zplus_mod_idemp_l. f_equal. lia.
    + intros [|k] c'; cbn [lookup list_lookup].
      * intros [= <-]. rewrite Ho2.
        -- unfold ring_slot. cbn [Z.of_nat]. rewrite Z.add_0_r. exact He.
        -- apply Z.mod_pos_bound. lia.
        -- intros k Hk. rewrite Hs. unfold ring_slot. cbn [Z.of_nat]. rewrite Z.add_0_r.
           intros E'. symmetry in E'. revert E'. apply slot_distinct; lia.
      * intros Hk. rewrite <- Hs. by apply He2.
    + intros j Hj Hne. rewrite Ho2; [|done|intros k Hk; rewrite Hs; apply Hne; lia].
      apply Ho; [done|]. specialize (Hne 0%nat ltac:(lia)). unfold ring_slot in Hne. cbn [Z.of_nat] in Hne.
      by rewrite Z.add_0_r in Hne.
Qed.
End Ring.

(** * The release build *)

Section Release.
Context {T : Target}.
#[local] Existing Instance Release.

Lemma add_release w a b : ∃ x, add_u w a b = Some x.
Proof. unfold add_u, checked_u. cbn. by case_match; eexists. Qed.

Lemma write_window m a src : 
  ∃ m', GuestMem.write a src m = Some (tt, m') ∧ same_window m m'.
Proof.
  unfold GuestMem.write, modify. eexists. split; [done|].
  unfold GuestMem.window. case_match eqn:E; [|by split]. split; [done|]. cbn.
  apply length_splice. revert E. case_match; [done|]. case_match eqn:Ec; [|done]. intros [= <-].
  apply andb_true_iff in Ec as [_ Ec].
  assert (0 <= as_usize (a - GuestMem.base m)).
  { unfold wrap. destruct (Z.eq_dec (2 ^ usize_bits) 0) as [->|Hz]; [rewrite Z.mod_0_r; lia|].
    apply Z.mod_pos_bound. pose proof (Z.pow_nonneg 2 usize_bits). lia. }
  lia.
Qed.

Lemma wp_add_release P w a b (Q : Z → GuestMem.t → Prop) m :
  (∀ x, Q x m) → wp P (lift (add_u w a b)) Q m.
Proof. intros HQ. apply wp_lift. destruct (add_release w a b) as [x ->]. apply HQ. Qed.

Lemma wp_write P m0 m a src (Q : unit → GuestMem.t → Prop) :
  same_window m0 m → (∀ m', same_window m0 m' → Q tt m') → wp P (GuestMem.write a src) Q m.
Proof.
  intros Hw HQ. destruct (write_window m a src) as (m' & E & Hw'). eapply wp_some; [exact E|].
  apply HQ. by eapply window_trans.
Qed.

(** With the queue programmed, the release build always reports. *)
Lemma push_used_total q head len m :
  QueueState.num q ≠ 0 → ∃ m', push_used q head len m = Some (tt, m') ∧ same_window m m'.
Proof.
  intros Hn. assert (Hw : wp False (push_used q head len) (λ _ m', same_window m m') m).
  { unfold push_used. destruct (Z.eqb_spec (QueueState.num q) 0); [done|].
    apply wp_bind, wp_ret, wp_bind, wp_add_release. intros i. apply wp_bind, wp_get, wp_bind, wp_ret.
    apply wp_bind, wp_add_release. intros a. apply wp_bind, wp_add_release. intros b.
    apply wp_bind, (wp_write _ m); [by split|]. intros m1 W1. apply wp_bind, wp_add_release. intros c.
    apply wp_bind, (wp_write _ m); [done|]. intros m2 W2. by apply (wp_write _ m). }
  apply wp_total in Hw as ([] & m' & E & Hs). by exists m'.
Qed.

Lemma push_all_total qs cs m :
  Forall (λ c, match vec_get qs (Completion.queue c) with
               | Some q => QueueState.num q ≠ 0 | None => True end) cs →
  ∃ m', push_all qs cs m = Some (tt, m') ∧ same_window m m'.
Proof.
  intros Hp. revert m. induction Hp as [|c cs Hc _ IH]; intros m; cbn [push_all]; [by exists m|].
  rewrite M_bind_run. destruct (vec_get qs (Completion.queue c)) as [q|].
  - destruct (push_used_total q (Completion.head c) (Completion.len c) m Hc) as (m1 & -> & W1).
    destruct (IH m1) as (m2 & -> & W2). exists m2. split; [done|]. by eapply window_trans.
  - apply IH.
Qed.
End Release.

(** * Properties *)

(** A completion is reported as the driver expects.  With the used ring in
    DRAM, [push_used] puts the chain's head and the byte count in the slot the
    index designates, then advances the index by one modulo 2^16; every other
    entry and all memory outside the ring are untouched.  It holds in both
    profiles and on both host widths. *)
Theorem used_ring_push `{Profile} `{Target} m q head len :
  mem_fits m → ring_in m q →
  ∃ m', push_used q head len m = Some (tt, m') ∧ pushed m q head len m'.
Proof. apply push_used_pushed. Qed.

Definition ring_mem : GuestMem.t := GuestMem.mk (replicate 128 0) 0x80000000.
Definition ring_queue : QueueState.t := QueueState.mk 4 true 0x80000000 0x80000020 0x80000040 0.

Lemma used_ring_push_witness :
  ∃ m', @push_used Dev Wasm32 ring_queue 7 513 ring_mem = Some (tt, m')
        ∧ @pushed Wasm32 ring_mem ring_queue 7 513 m'.
Proof.
  apply (@used_ring_push Dev Wasm32).
  - by vm_compute.
  - by vm_compute.
Defined.

(** C12: no request is left behind.  Take a kick of a ready queue that is not the
    one the device receives on, in the release build, and suppose that the device
    itself does not panic on the chains it finds there, [l], in the order of the
    available ring.  Then the kick returns, and queues behind the completions in
    flight exactly one per chain of [l] that the device did not keep for later
    (the 9p device keeps those it needs the host for, and reports them through
    [supply]); and within [COMPLETION_LATENCY] retired instructions all of them
    have been reported, oldest first, nothing is in flight and the interrupt line
    is up if there was any.  If only requests of this queue were in flight, no
    more than its ring holds, and the ring lies in DRAM with a size that divides
    2^16, the driver finds them there: the index has advanced by their number, and
    the slots from the old index on hold their heads and byte counts in order. *)
Theorem completions_delivered {D} `{VirtioDevice D} `{Target} (v : t D) m queue q idx amount l d m1 :
  kickable v queue q → @avail_idx Release _ m q = Some idx → urange 16 idx →
  due_bound v → programmed v → 0 <= now v → COMPLETION_LATENCY <= amount → now v + amount < 2 ^ 64 →
  @serve_entries D _ Release _ (Z.to_nat (kick_count q idx)) queue q (QueueState.last_avail q) (dev v, m)
  = Some (l, (d, m1)) →
  let owed := pending v ++ completions_of queue (now v + COMPLETION_LATENCY) l in
  ∃ v1 v2 m2,
    @notify D _ Release _ queue (v, m) = Some (negb (bool_decide (l = [])), (v1, m1))
    ∧ pending v1 = owed
    ∧ @push_all Release _ (queues v1) owed m1 = Some (tt, m2)
    ∧ @tick D Release _ amount (v1, m1) = Some (negb (bool_decide (owed = [])), (v2, m2))
    ∧ pending v2 = [] ∧ dev v2 = d ∧ (owed ≠ [] → irq_level v2 = true)
    ∧ (mem_fits m1 → ring_in m1 q → (QueueState.num q | 2 ^ 16) →
       Forall (λ c, Completion.queue c = queue) (pending v) → Z.of_nat (length owed) <= QueueState.num q →
       (owed ≠ [] → used_idx m2 q = as_u16 (used_idx m1 q + Z.of_nat (length owed)))
       ∧ ∀ k c, owed !! k = Some c →
           used_entry m2 q (ring_slot m1 q k) = (as_u32 (Completion.head c), as_u32 (Completion.len c))).
Proof.
  intros Hk Hai Hi Hd Hp Hn Ha Hw Hs owed. assert (COMPLETION_LATENCY = 2000) as HL by done.
  pose proof Hk as (_ & _ & Hq & _ & Hnum & _).
  set (f := λ q', q' <| QueueState.last_avail := as_u16 (QueueState.last_avail q + kick_count q idx) |>).
  set (v1 := upd_queue queue f (queued queue l d v)).
  assert (E1 : @notify D _ Release _ queue (v, m) = Some (negb (bool_decide (l = [])), (v1, m1))).
  { rewrite (@notify_run _ _ Release _ v m queue q idx) by done. by rewrite Hs. }
  destruct (kicked_fields v queue f l d) as (Hp1 & Hn1 & Hd1).
  rewrite wrap_small in Hp1 by (unfold urange; lia). fold v1 in Hp1, Hn1, Hd1. fold owed in Hp1.
  assert (Hprog : programmed v1) by (by apply (programmed_kick v queue q)).
  destruct (push_all_total (queues v1) (pending v1) m1 Hprog) as (m2 & Em & _). rewrite Hp1 in Em.
  destruct (tick_all (PR := Release) v1 m1 m2 amount) as (v2 & Et & Hv2);
    [by rewrite Hn1|lia|by rewrite Hn1|by rewrite Hp1| |].
  { rewrite Hp1, Hn1. apply Forall_app. split; [eapply Forall_impl; [exact Hd|]; cbn; lia|].
    apply Forall_fmap, Forall_true. intros x. cbn. lia. }
  rewrite Hp1 in Et, Hv2. destruct Hv2 as (Hv2 & Hv2d & Hirq).
  exists v1, v2, m2. split_and!; [done..|congruence|done|].
  intros Hm Hr Hdiv Hall Hlen.
  destruct (@push_all_ring Release _ (queues v1) queue (f q) owed m1) as (m' & E' & Hu & He & _); [done..| | |done|].
  - by apply kicked_queue.
  - apply Forall_app. split; [done|]. apply Forall_fmap, Forall_true. done.
  - rewrite Em in E'. injection E' as <-. done.
Qed.

(** C38: a driver reset does not cancel the requests in flight, and the next
    completion panics the emulator.  Writing 0 to the status register clears the
    queues but keeps [pending]; when the first completion falls due, or the hart
    idles, its ring index is taken modulo a queue size of zero.  Any guest that
    resets a device within the latency of a request reaches it, in either build
    profile. *)
Theorem reset_in_flight_panics {D} `{VirtioDevice D} `{Profile} `{Target} (v : t D) m c cs amount :
  pending v = c :: cs → 0 <= Completion.queue c < Z.of_nat MAX_QUEUES →
  0 <= now v → 0 <= amount → now v + amount < 2 ^ 64 → Completion.due c <= now v + amount →
  (write 0x070 0;; tick amount) (v, m) = None ∧ (write 0x070 0;; flush_pending) (v, m) = None.
Proof.
  intros Hp Hq Hn Ha Hw Hd.
  assert (Hreset : ∃ v1, write 0x070 0 (v, m) = Some (true, (v1, m)) ∧ pending v1 = c :: cs
    ∧ now v1 = now v ∧ queues v1 = replicate MAX_QUEUES QueueState.default).
  { eexists. split; [reflexivity|]. split_and!; [exact Hp|done|done]. }
  destruct Hreset as (v1 & E & Hp1 & Hn1 & Hq1).
  assert (Hret : ∀ v2, queues v2 = replicate MAX_QUEUES QueueState.default → retire (D := D) c (v2, m) = None).
  { intros v2 Hq2. rewrite retire_run, Hq2. unfold vec_get.
    rewrite length_replicate.
    replace ((0 <=? Completion.queue c) && _) with true by (symmetry; lia).
    rewrite lookup_replicate_2 by lia. unfold push_used. rewrite M_bind_run.
    destruct overflow_checks; [reflexivity|]. cbn beta iota delta [andb mret M_ret].
    rewrite M_bind_run. unfold lift at 1. destruct (add_u 64 _ 2); reflexivity. }
  split; rewrite M_bind_run, E.
  - unfold tick. rewrite M_bind_run. unfold self_upd at 1, on_fst, modify.
    rewrite Hn1, wrap_small by (unfold urange; lia).
    rewrite M_bind_run. unfold self_get at 1, on_fst, get. cbn [pending set_field].
    rewrite Hp1. cbn [bool_decide]. rewrite bool_decide_false by done.
    rewrite !M_bind_run. cbn [self_get on_fst get]. rewrite M_bind_run. cbn [retire_due now set_field].
    destruct (Z.ltb_spec (now v + amount) (Completion.due c)); [lia|].
    rewrite !M_bind_run. unfold self_upd at 1, on_fst, modify. rewrite M_bind_run, Hret by done. done.
  - unfold flush_pending. rewrite M_bind_run. unfold self_get at 1, on_fst, get. rewrite Hp1.
    rewrite bool_decide_false by done. rewrite M_bind_run. unfold self_upd at 1, on_fst, modify.
    rewrite M_bind_run. cbn [retire_all]. rewrite M_bind_run, Hret by done. done.
Qed.

(** C32: a kick always ends, and consumes the available ring.  For a ready queue
    other than the one the device receives on (whose kick delivers frames
    instead), with a device that keeps an invariant [I] and does not panic under
    it, the kick returns; only a build with overflow checks may stop it, by such a
    check.  When the driver has published [n] chains since the last kick, the
    first [min n (2 num + 1)] of them are consumed: all of them unless the index
    is corrupt, and a corrupt one costs at most that many iterations. *)
Theorem notify_consumes {D} `{VirtioDevice D} `{Profile} `{Target} (I : D * GuestMem.t → Prop)
    (v : t D) m queue q :
  (∀ c, keeps (overflow_checks = true) I (handle queue c) (λ _, True)) →
  keeps (overflow_checks = true) I (on_fst deferred_this) (λ _, True) →
  I (dev v, m) → Forall is_byte (GuestMem.dram m) → kickable v queue q →
  let idx := GuestMem.read_u16 m (as_u64 (QueueState.avail q + 2)) in
  let n := (idx - QueueState.last_avail q) mod 2 ^ 16 in
  match notify queue (v, m) with
  | Some (_, (v1, _)) =>
      vec_get (queues v1) queue
      = Some (q <| QueueState.last_avail :=
                as_u16 (QueueState.last_avail q + Z.min n (QueueState.num q * 2 + 1)) |>)
  | None => overflow_checks = true
  end.
Proof.
  intros Hh Hdf HI Hm Hk. cbv zeta. set (idx := GuestMem.read_u16 m _).
  destruct (avail_idx m q) as [i|] eqn:Ei.
  2:{ rewrite (notify_head v m queue q Hk), M_bind_run. unfold lift at 1. rewrite Ei.
      revert Ei. unfold avail_idx. destruct (add_u 64 _ 2) eqn:E; [done|]. intros _. by eapply add_u_none. }
  assert (i = idx) as ->.
  { revert Ei. unfold avail_idx. destruct (add_u 64 _ 2) as [a|] eqn:E; [|done].
    apply add_u_value in E as ->; [|lia]. by intros [= <-]. }
  rewrite (notify_run v m queue q idx) by (done || by apply read_u16_range).
  pose proof (serve_entries_total I queue q (Z.to_nat (kick_count q idx)) Hh Hdf
    (QueueState.last_avail q) (dev v, m) HI) as Ht.
  destruct (serve_entries _ _ _ _ _) as [[l [d m']]|]; [|by apply Ht].
  cbn [mbind option_bind]. apply (kicked_queue v queue q). by destruct Hk as (_ & _ & ? & _).
Qed.
