(* ===== verification/VirtioBlk.v ===== *)
(** The virtio-blk device ([riscv-devices/src/virtio_blk.rs]).

    [BlockBackend] is the trait of a backing store, with its in-memory and its
    detached implementation; the file-backed one is host I/O.  [VirtioBlk] is
    the device over any backing store. *)

From S2P Require Import Prelude Keeps State Stream Virtio VirtioSg VirtioQueue.

Definition SECTOR_SIZE : Z := 512.
Definition T_IN : Z := 0.
Definition T_OUT : Z := 1.
Definition T_FLUSH : Z := 4.
Definition T_GET_ID : Z := 8.
Definition S_OK : Z := 0.
Definition S_IOERR : Z := 1.
Definition S_UNSUPP : Z := 2.
Definition F_FLUSH : Z := Z.shiftl 1 9.
Definition F_RO : Z := Z.shiftl 1 5.

(** [bk_read sector n]: [n] bytes from [sector] on, [None] for [false]. *)
Class BlockBackend (K : Type) := {
  capacity_sectors : K → Z;
  bk_read : Z → Z → M K (option (list Z));
  bk_write : Z → list Z → M K bool;
  bk_flush : M K bool;
  bk_read_only : K → bool;
}.

Module MemBackend.
Record t := mk { data : list Z }.
#[global] Instance eta_membackend : Eta t := λ k, mk (data k).

Section Ops.
Context `{Profile} `{Target}.

(** The range [off..off + len] of a request, if the store has it. *)
Definition range (k : t) (sector len : Z) : option (option Z) :=
  off ← mul_u usize_bits (as_usize sector) SECTOR_SIZE;
  let e := off + len in
  Some (if 2 ^ usize_bits <=? e then None
        else if Z.of_nat (length (data k)) <? e then None else Some off).

Definition read (sector len : Z) : M t (option (list Z)) :=
  k ← get id; r ← lift (range k sector len);
  mret (off ← r; Some (take (Z.to_nat len) (drop (Z.to_nat off) (data k)))).

Definition write (sector : Z) (buf : list Z) : M t bool :=
  k ← get id; r ← lift (range k sector (Z.of_nat (length buf)));
  match r with
  | None => mret false
  | Some off => modify (λ k, k <| data := splice (data k) off buf |>);; mret true
  end.

#[global] Instance backend : BlockBackend t := {
  capacity_sectors k := Z.of_nat (length (data k)) / SECTOR_SIZE;
  bk_read := read;
  bk_write := write;
  bk_flush := mret true;
  bk_read_only _ := false;
}.
End Ops.
End MemBackend.

(** A disk whose contents are yet to be supplied. *)
Module DetachedBackend.
Record t := mk { sectors : Z }.
#[global] Instance backend : BlockBackend t := {
  capacity_sectors k := sectors k;
  bk_read _ _ := mret None;
  bk_write _ _ := mret false;
  bk_flush := mret true;
  bk_read_only _ := true;
}.
End DetachedBackend.

Module VirtioBlk.
Record t (K : Type) := mk {
  backend : K;
  serial : list Z;
  reads : Z;
  writes : Z;
  max_descs : Z;
  max_bytes : Z;
}.
Arguments mk {K}.
Arguments backend {K}.
Arguments serial {K}.
Arguments reads {K}.
Arguments writes {K}.
Arguments max_descs {K}.
Arguments max_bytes {K}.
#[global] Instance eta_blk {K} : Eta (t K) := λ b,
  mk (backend b) (serial b) (reads b) (writes b) (max_descs b) (max_bytes b).

(** [b"riscv-vm-disk"], padded to 20 bytes *)
Definition new {K} (k : K) : t K :=
  mk k ([114; 105; 115; 99; 118; 45; 118; 109; 45; 100; 105; 115; 107] ++ replicate 7 0) 0 0 0 0.

Section Ops.
Context {K : Type} `{BlockBackend K} `{Profile} `{Target}.
Abbreviation BM := (M (t K * GuestMem.t)).

Definition set_backend (k : K) (b : t K) : t K := b <| backend := k |>.
Definition on_backend {A} (m : M K A) : BM A := on_fst (zoom backend set_backend m).
Definition blk_get {A} (f : t K → A) : BM A := on_fst (get f).
Definition blk_upd (f : t K → t K) : BM unit := on_fst (modify f).

Definition config (b : t K) : list Z := to_le_bytes 8 (capacity_sectors (backend b)).

Definition blk_features (b : t K) : Z :=
  let f := Z.lor VIRTIO_F_VERSION_1 F_FLUSH in
  if bk_read_only (backend b) then Z.lor f F_RO else f.

(** [self.reads += 1], [self.writes += 1] *)
Definition count_read : BM unit :=
  n ← blk_get reads; n' ← lift (add_u 64 n 1); blk_upd (λ b, b <| reads := n' |>).
Definition count_write : BM unit :=
  n ← blk_get writes; n' ← lift (add_u 64 n 1); blk_upd (λ b, b <| writes := n' |>).

Definition serve_in (chain : Chain.t) (sector data_cap : Z) : BM Z :=
  let want := data_cap - data_cap mod SECTOR_SIZE in
  if want =? 0 then mret S_IOERR
  else
    e ← lift (add_u 64 sector (want / SECTOR_SIZE));
    cap ← blk_get (λ b, capacity_sectors (backend b));
    if cap <? e then mret S_IOERR
    else
      r ← on_backend (bk_read sector want);
      match r with
      | Some buf =>
          on_snd (sg_write (Chain.writable chain) 0 buf 0);;
          count_read;;
          mret S_OK
      | None => mret S_IOERR
      end.

Definition serve_out (chain : Chain.t) (sector : Z) : BM Z :=
  ro ← blk_get (λ b, bk_read_only (backend b));
  if ro : bool then mret S_IOERR
  else
    total ← lift (sg_len (Chain.readable chain));
    let payload := Z.max 0 (total - 16) in
    let want := payload - payload mod SECTOR_SIZE in
    if want =? 0 then mret S_IOERR
    else
      m ← on_snd (get id);
      '(buf, _) ← lift (sg_read m (Chain.readable chain) 16 (replicate (Z.to_nat want) 0) 0);
      ok ← on_backend (bk_write sector buf);
      if ok : bool then count_write;; mret S_OK else mret S_IOERR.

Definition serve (chain : Chain.t) (req_type sector data_cap : Z) : BM Z :=
  if req_type =? T_IN then serve_in chain sector data_cap
  else if req_type =? T_OUT then serve_out chain sector
  else if req_type =? T_FLUSH then
    ok ← on_backend bk_flush; mret (if ok : bool then S_OK else S_IOERR)
  else if req_type =? T_GET_ID then
    s ← blk_get serial;
    let n := Z.min data_cap (Z.of_nat (length s)) in
    on_snd (sg_write (Chain.writable chain) 0 (take (Z.to_nat n) s) 0);;
    mret S_OK
  else mret S_UNSUPP.

(** The high-water marks of the chains seen. *)
Definition note_chain (nd nb : Z) (b : t K) : t K :=
  let b := if max_descs b <? nd then b <| max_descs := nd |> else b in
  if max_bytes b <? nb then b <| max_bytes := nb |> else b.

Definition blk_handle (queue : Z) (chain : Chain.t) : BM Z :=
  nd ← lift (add_u usize_bits (Z.of_nat (length (Chain.readable chain)))
                              (Z.of_nat (length (Chain.writable chain))));
  rl ← lift (sg_len (Chain.readable chain));
  wl ← lift (sg_len (Chain.writable chain));
  nb ← lift (add_u usize_bits rl wl);
  blk_upd (note_chain nd nb);;
  m ← on_snd (get id);
  '(hdr, got) ← lift (sg_read m (Chain.readable chain) 0 (replicate 16 0) 0);
  if negb (got =? 16) then mret 0
  else
    let req_type := from_le_bytes (take 4 hdr) in
    let sector := from_le_bytes (take 8 (drop 8 hdr)) in
    writable_total ← lift (sg_len (Chain.writable chain));
    if writable_total =? 0 then mret 0
    else
      let data_cap := writable_total - 1 in
      status ← serve chain req_type sector data_cap;
      on_snd (sg_write (Chain.writable chain) (writable_total - 1) [status] 0);;
      s ← blk_get serial;
      if req_type =? T_IN then lift (add_u 32 (as_u32 (data_cap - data_cap mod SECTOR_SIZE)) 1)
      else if req_type =? T_GET_ID then
        lift (add_u 32 (as_u32 (Z.min data_cap (Z.of_nat (length s)))) 1)
      else mret 1.

(** [config().get(off).copied().unwrap_or(0)] *)
Definition config_byte (c : list Z) (off : Z) : Z := from_option id 0 (vec_get c off).

#[global] Instance device : VirtioDevice (t K) := {
  device_id _ := 2;
  features := blk_features;
  num_queues _ := 1;
  config_read b off := config_byte (config b) off;
  config_write _ _ := mret tt;
  handle := blk_handle;
  deferred_this := mret false;
  take_host_reqs := mret [];
  supply _ _ := mret None;
  dev_poll := mret false;
  dev_state b := Some (to_le_bytes 8 (capacity_sectors (backend b)));
  load_dev_state _ := mret (Some tt);
  rx_queue _ := None;
  has_rx := mret false;
  fill_rx _ := mret 0;
}.

(** The capacity must be the one the snapshot recorded. *)
Definition attach_backend (k : K) : M (t K) bool :=
  b ← get id;
  if negb (capacity_sectors k =? capacity_sectors (backend b)) then mret false
  else modify (set_backend k);; mret true.
End Ops.
End VirtioBlk.

(** * Requests *)

Section Requests.
Context {PR : Profile} {T : Target} {Ht : TargetOk T}.
Abbreviation Disk := (VirtioBlk.t MemBackend.t).
Implicit Types (m : GuestMem.t) (b : Disk).

Definition disk b : list Z := MemBackend.data (VirtioBlk.backend b).

(** A request laid out as the driver does: the buffers are in DRAM, the
    device-writable ones do not overlap, and the readable part starts with a
    header for [ty] and [sector]. *)
Record request m (c : Chain.t) (ty sector : Z) : Prop := {
  rq_mem : mem_fits m;
  rq_readable : Forall (buf_in m) (Chain.readable c);
  rq_writable : Forall (buf_in m) (Chain.writable c);
  rq_disjoint : NoDup (positions m (Chain.writable c));
  rq_descs : Z.of_nat (length (Chain.readable c)) + Z.of_nat (length (Chain.writable c)) < 2 ^ usize_bits;
  rq_bytes : Z.of_nat (length (positions m (Chain.readable c)))
             + Z.of_nat (length (positions m (Chain.writable c))) < 2 ^ usize_bits;
  rq_reply : (0 < length (positions m (Chain.writable c)))%nat;
  rq_header : ∃ reserved, length reserved = 4%nat
              ∧ take 16 (contents m (Chain.readable c))
                = to_le_bytes 4 ty ++ reserved ++ to_le_bytes 8 sector;
  rq_ty : urange 32 ty;
  rq_sector : urange 64 sector;
}.

(** The sectors [sector .. sector + n] exist. *)
Definition on_disk b (sector n : Z) : Prop :=
  0 <= sector ∧ 0 < n ∧ (sector + n) * SECTOR_SIZE <= Z.of_nat (length (disk b))
  ∧ Z.of_nat (length (disk b)) < 2 ^ usize_bits.

Lemma header_fields m c ty sector :
  request m c ty sector →
  ∃ hdr, sg_read m (Chain.readable c) 0 (replicate 16 0) 0 = Some (hdr, 16)
         ∧ from_le_bytes (take 4 hdr) = ty ∧ from_le_bytes (take 8 (drop 8 hdr)) = sector.
Proof.
  intros []. destruct rq_header0 as (res & Hr & Hh).
  assert (Hl : (16 <= length (positions m (Chain.readable c)))%nat).
  { apply (f_equal length) in Hh. rewrite length_take, !length_app, !length_to_le_bytes, length_contents in Hh. lia. }
  exists (to_le_bytes 4 ty ++ res ++ to_le_bytes 8 sector). split.
  - rewrite sg_read_run by (done || lia). rewrite drop_0. by rewrite Hh.
  - split.
    + rewrite take_app_le by (rewrite length_to_le_bytes; lia).
      rewrite take_ge by (rewrite length_to_le_bytes; lia). rewrite from_to_le_bytes. by apply wrap_small.
    + rewrite drop_app_ge by (rewrite length_to_le_bytes; lia). rewrite length_to_le_bytes.
      rewrite drop_app_ge by (rewrite Hr; lia). rewrite Hr, drop_0.
      rewrite take_ge by (rewrite length_to_le_bytes; lia). rewrite from_to_le_bytes. by apply wrap_small.
Qed.

(** The common part of a request: the header is parsed, and the status byte goes
    to the end of the reply. *)
Lemma handle_run m c ty sector b q :
  request m c ty sector →
  let total := Z.of_nat (length (positions m (Chain.writable c))) in
  VirtioBlk.blk_handle q c (b, m)
  = (status ← VirtioBlk.serve c ty sector (total - 1);
     on_snd (sg_write (Chain.writable c) (total - 1) [status] 0);;
     s ← VirtioBlk.blk_get VirtioBlk.serial;
     if ty =? T_IN then lift (add_u 32 (as_u32 (total - 1 - (total - 1) mod SECTOR_SIZE)) 1)
     else if ty =? T_GET_ID then lift (add_u 32 (as_u32 (Z.min (total - 1) (Z.of_nat (length s)))) 1)
     else mret 1)
    (VirtioBlk.note_chain
       (Z.of_nat (length (Chain.readable c)) + Z.of_nat (length (Chain.writable c)))
       (Z.of_nat (length (positions m (Chain.readable c))) + total) b, m).
Proof.
  intros Hr total. destruct (header_fields m c ty sector Hr) as (hdr & Eh & <- & <-). destruct Hr.
  unfold VirtioBlk.blk_handle.
  erewrite lift_bind; [|apply add_u_small; unfold urange; lia].
  erewrite lift_bind; [|apply (sg_len_run m); [done|lia]].
  erewrite lift_bind; [|apply (sg_len_run m); [done|lia]].
  erewrite lift_bind; [|apply add_u_small; unfold urange; lia].
  unfold VirtioBlk.blk_upd. rewrite modify_fst_bind, get_snd_bind. cbn [id].
  rewrite (lift_bind _ _ _ _ Eh). cbn [negb Z.eqb Pos.eqb]. cbv zeta.
  erewrite lift_bind; [|apply (sg_len_run m); [done|lia]]. fold total.
  destruct (Z.eqb_spec total 0); [lia|]. done.
Qed.

Lemma range_run b sector n :
  on_disk b sector n →
  MemBackend.range (VirtioBlk.backend b) sector (n * SECTOR_SIZE) = Some (Some (sector * SECTOR_SIZE)).
Proof.
  intros (Hs & Hn & He & Hu). unfold MemBackend.range, SECTOR_SIZE, disk in *.
  rewrite (wrap_small _ sector) by (unfold urange; lia).
  unfold mul_u, checked_u. replace ((0 <=? sector * 512) && (sector * 512 <? 2 ^ usize_bits)) with true
    by (symmetry; lia). cbn [mbind option_bind].
  destruct (Z.leb_spec (2 ^ usize_bits) (sector * 512 + n * 512)); [lia|].
  destruct (Z.ltb_spec (Z.of_nat (length (MemBackend.data (VirtioBlk.backend b))))
              (sector * 512 + n * 512)); [lia|done].
Qed.

Lemma note_chain_same nd nb b :
  VirtioBlk.backend (VirtioBlk.note_chain nd nb b) = VirtioBlk.backend b
  ∧ VirtioBlk.reads (VirtioBlk.note_chain nd nb b) = VirtioBlk.reads b
  ∧ VirtioBlk.writes (VirtioBlk.note_chain nd nb b) = VirtioBlk.writes b.
Proof. unfold VirtioBlk.note_chain. by split_ifs. Qed.

Lemma read_run b sector n :
  on_disk b sector n →
  MemBackend.read sector (n * SECTOR_SIZE) (VirtioBlk.backend b)
  = Some (Some (take (Z.to_nat (n * SECTOR_SIZE)) (drop (Z.to_nat (sector * SECTOR_SIZE)) (disk b))),
          VirtioBlk.backend b).
Proof.
  intros Hd. unfold MemBackend.read. rewrite M_bind_run. cbn [get id].
  erewrite lift_bind; [|by apply range_run]. done.
Qed.

Lemma write_run b sector n buf :
  on_disk b sector n → Z.of_nat (length buf) = n * SECTOR_SIZE →
  MemBackend.write sector buf (VirtioBlk.backend b)
  = Some (true, MemBackend.mk (splice (disk b) (sector * SECTOR_SIZE) buf)).
Proof.
  intros Hd Hl. unfold MemBackend.write. rewrite M_bind_run. cbn [get id]. rewrite Hl.
  erewrite lift_bind; [|by apply range_run]. done.
Qed.

(** The sectors a read request asks for. *)
Definition sectors_of b (sector n : Z) : list Z :=
  take (Z.to_nat (n * SECTOR_SIZE)) (drop (Z.to_nat (sector * SECTOR_SIZE)) (disk b)).

Lemma sectors_length b sector n :
  on_disk b sector n → length (sectors_of b sector n) = Z.to_nat (n * SECTOR_SIZE).
Proof. intros (Hs & Hn & He & _). unfold sectors_of, SECTOR_SIZE in *. rewrite length_take, length_drop. lia. Qed.

Lemma serve_in_run m c sector b n :
  request m c T_IN sector → on_disk b sector n →
  Z.of_nat (length (positions m (Chain.writable c))) = n * SECTOR_SIZE + 1 →
  VirtioBlk.reads b + 1 < 2 ^ 64 → 0 <= VirtioBlk.reads b →
  VirtioBlk.serve c T_IN sector (n * SECTOR_SIZE) (b, m)
  = Some (S_OK, (b <| VirtioBlk.reads := VirtioBlk.reads b + 1 |>,
                 scattered m (Chain.writable c) 0 (sectors_of b sector n))).
Proof.
  intros Hr Hd Hw Hc Hc0. pose proof Hd as (Hs & Hn & He & Hu). destruct Hr.
  unfold VirtioBlk.serve, VirtioBlk.serve_in. cbn [Z.eqb T_IN]. cbv zeta.
  rewrite Z_mod_mult, Z.sub_0_r.
  destruct (Z.eqb_spec (n * SECTOR_SIZE) 0) as [E|_]; [unfold SECTOR_SIZE in *; lia|].
  rewrite Z.div_mul by done. erewrite lift_bind.
  2:{ apply add_u_small. pose proof (usize_ok (T := T)). pose proof (Z.pow_le_mono_r 2 usize_bits 64).
      unfold urange, SECTOR_SIZE in *. lia. }
  unfold VirtioBlk.blk_get at 1. rewrite get_fst_bind. cbn [capacity_sectors MemBackend.backend].
  destruct (Z.ltb_spec (Z.of_nat (length (MemBackend.data (VirtioBlk.backend b))) / SECTOR_SIZE) (sector + n))
    as [Hlt|_].
  { exfalso. unfold disk in He. assert (sector + n <= Z.of_nat (length (MemBackend.data (VirtioBlk.backend b))) / SECTOR_SIZE);
      [|lia]. apply Z.div_le_lower_bound; unfold SECTOR_SIZE in *; lia. }
  unfold VirtioBlk.on_backend. erewrite fst_bind.
  2:{ unfold zoom. cbn [bk_read MemBackend.backend]. by rewrite read_run. }
  fold (sectors_of b sector n). cbv beta iota. erewrite snd_bind.
  2:{ apply sg_write_run; [done|done|lia|]. rewrite sectors_length by done. unfold SECTOR_SIZE in *. lia. }
  unfold VirtioBlk.count_read. rewrite M_bind_run. unfold VirtioBlk.blk_get. rewrite get_fst_bind.
  erewrite lift_bind; [|apply add_u_small; cbn; unfold urange; lia].
  unfold VirtioBlk.blk_upd, on_fst, modify, mret, M_ret. reflexivity.
Qed.

Lemma read_served m c sector b n q :
  request m c T_IN sector → on_disk b sector n →
  Z.of_nat (length (positions m (Chain.writable c))) = n * SECTOR_SIZE + 1 →
  n * SECTOR_SIZE + 1 < 2 ^ 32 → 0 <= VirtioBlk.reads b → VirtioBlk.reads b + 1 < 2 ^ 64 →
  ∃ b' m', VirtioBlk.blk_handle q c (b, m) = Some (n * SECTOR_SIZE + 1, (b', m'))
    ∧ disk b' = disk b
    ∧ contents m' (Chain.writable c) = sectors_of b sector n ++ [S_OK]
    ∧ ∀ i, i ∉ positions m (Chain.writable c) → GuestMem.dram m' !! i = GuestMem.dram m !! i.
Proof.
  intros Hr Hd Hw H32 Hc0 Hc. rewrite (handle_run m c T_IN sector) by done. cbv zeta. rewrite Hw.
  replace (n * SECTOR_SIZE + 1 - 1) with (n * SECTOR_SIZE) by lia.
  set (b1 := VirtioBlk.note_chain _ _ b). destruct (note_chain_same
    (Z.of_nat (length (Chain.readable c)) + Z.of_nat (length (Chain.writable c)))
    (Z.of_nat (length (positions m (Chain.readable c))) + (n * SECTOR_SIZE + 1)) b) as (Eb & Er & _).
  fold b1 in Eb, Er.
  assert (Edisk : disk b1 = disk b) by (unfold disk; by rewrite Eb).
  assert (Hd1 : on_disk b1 sector n) by (unfold on_disk; by rewrite Edisk).
  erewrite M_bind_some; [|apply (serve_in_run m c sector b1 n); [done..|by rewrite Er|by rewrite Er]].
  set (m1 := scattered m (Chain.writable c) 0 (sectors_of b1 sector n)).
  pose proof Hd as (Hs & Hn & _). destruct Hr.
  assert (Hsl : length (sectors_of b1 sector n) = Z.to_nat (n * SECTOR_SIZE)) by (by apply sectors_length).
  assert (Hp1 : positions m1 (Chain.writable c) = positions m (Chain.writable c)) by (by apply positions_same).
  erewrite snd_bind.
  2:{ apply sg_write_run; [by apply scattered_fits|by eapply Forall_impl; [|apply scattered_in]| |].
      - unfold SECTOR_SIZE in *. lia.
      - rewrite Hp1. cbn. lia. }
  unfold VirtioBlk.blk_get. rewrite get_fst_bind. cbn [Z.eqb T_IN].
  rewrite Z_mod_mult, Z.sub_0_r. unfold lift.
  rewrite (wrap_small 32) by (unfold urange, SECTOR_SIZE in *; lia).
  rewrite add_u_small by (unfold urange, SECTOR_SIZE in *; lia).
  eexists _, _. split; [reflexivity|]. split; [done|]. split.
  - rewrite contents_scattered.
    + unfold m1. rewrite contents_scattered by (done || (unfold SECTOR_SIZE in *; lia)).
      replace (sectors_of b sector n) with (sectors_of b1 sector n) by (unfold sectors_of; by rewrite Edisk).
      replace (n * SECTOR_SIZE) with (0 + Z.of_nat (length (sectors_of b1 sector n)))
        by (rewrite Hsl; unfold SECTOR_SIZE in *; lia).
      rewrite splice_app by (rewrite ?length_app, ?length_contents; cbn; lia).
      unfold splice. cbn. rewrite drop_ge; [by rewrite app_nil_r|].
      rewrite length_app, length_contents. cbn. lia.
    + by eapply Forall_impl; [|apply scattered_in].
    + by rewrite Hp1.
    + unfold SECTOR_SIZE in *. lia.
    + rewrite Hp1. cbn. lia.
  - intros i Hi. rewrite scattered_other by (by rewrite Hp1). by apply scattered_other.
Qed.

(** The data of a write request: what follows its header. *)
Definition payload m (c : Chain.t) : list Z := drop 16 (contents m (Chain.readable c)).

Lemma serve_out_run m c sector b n cap :
  request m c T_OUT sector → on_disk b sector n →
  Z.of_nat (length (positions m (Chain.readable c))) = 16 + n * SECTOR_SIZE →
  0 <= VirtioBlk.writes b → VirtioBlk.writes b + 1 < 2 ^ 64 →
  VirtioBlk.serve c T_OUT sector cap (b, m)
  = Some (S_OK, (b <| VirtioBlk.backend := MemBackend.mk (splice (disk b) (sector * SECTOR_SIZE) (payload m c)) |>
                   <| VirtioBlk.writes := VirtioBlk.writes b + 1 |>, m)).
Proof.
  intros Hr Hd Hl Hc0 Hc. pose proof Hd as (Hs & Hn & He & Hu). destruct Hr.
  unfold VirtioBlk.serve, VirtioBlk.serve_out.
  change (T_OUT =? T_IN) with false. change (T_OUT =? T_OUT) with true. cbv iota. unfold VirtioBlk.blk_get at 1.
  rewrite get_fst_bind. cbn [bk_read_only MemBackend.backend].
  erewrite lift_bind; [|apply (sg_len_run m); [done|unfold SECTOR_SIZE in *; lia]]. cbv zeta.
  rewrite Hl. replace (Z.max 0 (16 + n * SECTOR_SIZE - 16)) with (n * SECTOR_SIZE)
    by (unfold SECTOR_SIZE in *; lia).
  rewrite Z_mod_mult, Z.sub_0_r.
  destruct (Z.eqb_spec (n * SECTOR_SIZE) 0) as [E|_]; [unfold SECTOR_SIZE in *; lia|].
  rewrite get_snd_bind. cbn [id].
  assert (Hpl : length (payload m c) = Z.to_nat (n * SECTOR_SIZE)).
  { unfold payload. rewrite length_drop, length_contents. unfold SECTOR_SIZE in *. lia. }
  erewrite lift_bind; [|apply sg_read_run; [done|done|lia|unfold SECTOR_SIZE in *; lia]].
  cbv beta iota. change (Z.to_nat 16) with 16%nat. fold (payload m c).
  rewrite take_ge by lia. unfold VirtioBlk.on_backend. erewrite fst_bind.
  2:{ unfold zoom. cbn [bk_write MemBackend.backend]. rewrite (write_run b sector n); [done|done|].
      rewrite Hpl. unfold SECTOR_SIZE in *. lia. }
  unfold VirtioBlk.count_write. rewrite M_bind_run. unfold VirtioBlk.blk_get. rewrite get_fst_bind.
  erewrite lift_bind; [|apply add_u_small; cbn; unfold urange; lia].
  unfold VirtioBlk.blk_upd, on_fst, modify, mret, M_ret. reflexivity.
Qed.

Lemma write_served m c sector b n q :
  request m c T_OUT sector → on_disk b sector n →
  Z.of_nat (length (positions m (Chain.readable c))) = 16 + n * SECTOR_SIZE →
  0 <= VirtioBlk.writes b → VirtioBlk.writes b + 1 < 2 ^ 64 →
  ∃ b' m', VirtioBlk.blk_handle q c (b, m) = Some (1, (b', m'))
    ∧ disk b' = splice (disk b) (sector * SECTOR_SIZE) (payload m c)
    ∧ VirtioBlk.reads b' = VirtioBlk.reads b
    ∧ last (contents m' (Chain.writable c)) = Some S_OK
    ∧ ∀ i, i ∉ positions m (Chain.writable c) → GuestMem.dram m' !! i = GuestMem.dram m !! i.
Proof.
  intros Hr Hd Hl Hc0 Hc. rewrite (handle_run m c T_OUT sector) by done. cbv zeta.
  set (total := Z.of_nat (length (positions m (Chain.writable c)))).
  set (b1 := VirtioBlk.note_chain _ _ b). destruct (note_chain_same
    (Z.of_nat (length (Chain.readable c)) + Z.of_nat (length (Chain.writable c)))
    (Z.of_nat (length (positions m (Chain.readable c))) + total) b) as (Eb & Er & Ew). fold b1 in Eb, Er, Ew.
  assert (Edisk : disk b1 = disk b) by (unfold disk; by rewrite Eb).
  assert (Hd1 : on_disk b1 sector n) by (unfold on_disk; by rewrite Edisk).
  erewrite M_bind_some; [|apply (serve_out_run m c sector b1 n); [done..|by rewrite Ew|by rewrite Ew]].
  pose proof Hr as [Hm _ Hwr Hnd _ _ Hrep _ _ _].
  assert (Hfit : total - 1 + Z.of_nat (length [S_OK]) <= Z.of_nat (length (positions m (Chain.writable c))))
    by (unfold total; cbn; lia).
  assert (Ht0 : 0 <= total - 1) by (unfold total; lia).
  erewrite snd_bind; [|by apply sg_write_run].
  eexists _, _. split; [reflexivity|]. split; [by rewrite <- Edisk|]. split; [done|]. split.
  - rewrite contents_scattered by done. unfold splice. rewrite app_assoc, drop_ge, app_nil_r; [apply last_snoc|].
    rewrite length_contents. cbn. unfold total. lia.
  - intros i Hi. by apply scattered_other.
Qed.

(** A splice replaces its own window and nothing else. *)
Lemma splice_frame (d : list Z) o l n :
  0 <= o → length l = Z.to_nat n → (Z.to_nat o + length l <= length d)%nat →
  length (splice d o l) = length d
  ∧ take (Z.to_nat n) (drop (Z.to_nat o) (splice d o l)) = l
  ∧ ∀ i, (i < Z.to_nat o ∨ Z.to_nat o + Z.to_nat n <= i)%nat → splice d o l !! i = d !! i.
Proof.
  intros Ho Hl Hd. split_and!.
  - by apply length_splice.
  - rewrite <- Hl. by apply splice_slice.
  - intros i Hi. rewrite lookup_splice by done. by rewrite decide_False by lia.
Qed.

(** C13: the disk keeps what the guest writes.  A well-formed write request of
    [n] sectors replies with status OK; afterwards the disk has its payload in the
    bytes of its sectors, [512 * sector] and on, and every other byte and the size
    of the disk are as before; guest memory changes in the reply buffers only.  A
    later read request of the same sectors, from whatever memory, delivers exactly
    that payload followed by the status byte, reports its length for the used
    ring, leaves the disk as it is and touches no other guest memory. *)
Theorem blk_write_read m c b m2 c2 sector n q q2 :
  request m c T_OUT sector → on_disk b sector n →
  Z.of_nat (length (positions m (Chain.readable c))) = 16 + n * SECTOR_SIZE →
  request m2 c2 T_IN sector →
  Z.of_nat (length (positions m2 (Chain.writable c2))) = n * SECTOR_SIZE + 1 →
  n * SECTOR_SIZE + 1 < 2 ^ 32 →
  0 <= VirtioBlk.writes b → VirtioBlk.writes b + 1 < 2 ^ 64 →
  0 <= VirtioBlk.reads b → VirtioBlk.reads b + 1 < 2 ^ 64 →
  ∃ b1 m1 b2 m3,
    VirtioBlk.blk_handle q c (b, m) = Some (1, (b1, m1))
    ∧ last (contents m1 (Chain.writable c)) = Some S_OK
    ∧ (take (Z.to_nat (n * 512)) (drop (Z.to_nat (sector * 512)) (disk b1)) = payload m c
       ∧ length (disk b1) = length (disk b)
       ∧ ∀ i, (i < Z.to_nat (sector * 512) ∨ Z.to_nat (sector * 512) + Z.to_nat (n * 512) <= i)%nat →
              disk b1 !! i = disk b !! i)
    ∧ (∀ i, i ∉ positions m (Chain.writable c) → GuestMem.dram m1 !! i = GuestMem.dram m !! i)
    ∧ VirtioBlk.blk_handle q2 c2 (b1, m2) = Some (n * SECTOR_SIZE + 1, (b2, m3))
    ∧ contents m3 (Chain.writable c2) = payload m c ++ [S_OK]
    ∧ disk b2 = disk b1
    ∧ ∀ i, i ∉ positions m2 (Chain.writable c2) → GuestMem.dram m3 !! i = GuestMem.dram m2 !! i.
Proof.
  intros Hr Hd Hl Hr2 Hl2 H32 Hw0 Hw Hrd0 Hrd.
  destruct (write_served m c sector b n q) as (b1 & m1 & E1 & D1 & R1 & S1 & O1); [done..|].
  assert (Hpl : length (payload m c) = Z.to_nat (n * SECTOR_SIZE)).
  { unfold payload. rewrite length_drop, length_contents. unfold SECTOR_SIZE in *. lia. }
  pose proof Hd as (Hs & Hn & He & Hu).
  assert (Hsp : (Z.to_nat (sector * SECTOR_SIZE) + length (payload m c) <= length (disk b))%nat)
    by (rewrite Hpl; unfold SECTOR_SIZE in *; lia).
  destruct (splice_frame (disk b) (sector * SECTOR_SIZE) (payload m c) (n * SECTOR_SIZE))
    as (F1 & F2 & F3); [unfold SECTOR_SIZE; lia|done..|]. rewrite <- D1 in F1, F2, F3.
  assert (Hd1 : on_disk b1 sector n) by (unfold on_disk; by rewrite F1).
  destruct (read_served m2 c2 sector b1 n q2) as (b2 & m3 & E2 & D2 & C2 & O2); [done..|by rewrite R1|by rewrite R1|].
  exists b1, m1, b2, m3. do 2 (split; [done|]). split; [split; [exact F2|by split]|].
  do 2 (split; [done|]). split; [|by split].
  rewrite C2. f_equal. exact F2.
Qed.
End Requests.

(** * A disk at work *)

Definition demo_disk : VirtioBlk.t MemBackend.t := VirtioBlk.new (MemBackend.mk (replicate 1024 0)).

(** A request header at the start of DRAM, the data behind it. *)
Definition request_mem (ty fill : Z) : GuestMem.t :=
  GuestMem.mk (to_le_bytes 4 ty ++ replicate 4 0 ++ to_le_bytes 8 1 ++ replicate 512 fill
               ++ replicate 600 0) 0x80000000.
Definition write_chain : Chain.t := Chain.mk 0 [Buf.mk 0x80000000 528] [Buf.mk 0x80000210 1].
Definition read_chain : Chain.t := Chain.mk 0 [Buf.mk 0x80000000 16] [Buf.mk 0x80000210 513].

Lemma write_request : @request Wasm32 (request_mem T_OUT 7) write_chain T_OUT 1.
Proof.
  constructor.
  - by vm_compute.
  - repeat constructor; by vm_compute.
  - repeat constructor; by vm_compute.
  - cbn [positions write_chain Chain.writable mbind list_bind]. rewrite app_nil_r. apply NoDup_seq.
  - by vm_compute.
  - by vm_compute.
  - apply Nat.ltb_lt. by vm_compute.
  - exists (replicate 4 0). split; [done|]. vm_compute. reflexivity.
  - by vm_compute.
  - by vm_compute.
Qed.

Lemma read_request : @request Wasm32 (request_mem T_IN 0) read_chain T_IN 1.
Proof.
  constructor.
  - by vm_compute.
  - repeat constructor; by vm_compute.
  - repeat constructor; by vm_compute.
  - cbn [positions read_chain Chain.writable mbind list_bind]. rewrite app_nil_r. apply NoDup_seq.
  - by vm_compute.
  - by vm_compute.
  - apply Nat.ltb_lt. by vm_compute.
  - exists (replicate 4 0). split; [done|]. vm_compute. reflexivity.
  - by vm_compute.
  - by vm_compute.
Qed.

Lemma blk_write_read_witness :
  ∃ b1 m1 b2 m3,
    @VirtioBlk.blk_handle _ (@MemBackend.backend Release Wasm32) Release Wasm32 0 write_chain
      (demo_disk, request_mem T_OUT 7) = Some (1, (b1, m1))
    ∧ @VirtioBlk.blk_handle _ (@MemBackend.backend Release Wasm32) Release Wasm32 0 read_chain
        (b1, request_mem T_IN 0) = Some (513, (b2, m3))
    ∧ contents m3 (Chain.writable read_chain) = replicate 512 7 ++ [0].
Proof.
  destruct (@blk_write_read Release Wasm32 wasm_ok (request_mem T_OUT 7) write_chain demo_disk
    (request_mem T_IN 0) read_chain 1 1 0 0 write_request)
    as (b1 & m1 & b2 & m3 & E1 & _ & _ & _ & E2 & C & _).
  - by vm_compute.
  - by vm_compute.
  - exact read_request.
  - by vm_compute.
  - by vm_compute.
  - by vm_compute.
  - by vm_compute.
  - by vm_compute.
  - by vm_compute.
  - exists b1, m1, b2, m3. split; [exact E1|]. split; [exact E2|]. rewrite C. vm_compute. reflexivity.
Defined.

(** * The device panics at most by an overflow check *)

Section Panics.
Context {PR : Profile} {T : Target}.
Abbreviation Disk := (VirtioBlk.t MemBackend.t).
Abbreviation safe m := (keeps (overflow_checks = true) (λ _, True) m (λ _, True)).

Lemma safe_lift {S A} (o : option A) : (o = None → overflow_checks = true) → safe (lift o : M S A).
Proof. intros Ho. apply keeps_lift. destruct o; [done|by apply Ho]. Qed.

Lemma safe_add {S} w a b : safe (lift (add_u w a b) : M S Z).
Proof. apply safe_lift, add_u_none. Qed.

Lemma safe_get {S A} (f : S → A) : safe (get f).
Proof. by apply keeps_get. Qed.
Lemma safe_modify {S} (f : S → S) : safe (modify f).
Proof. by apply keeps_modify. Qed.
Lemma safe_ret {S A} (a : A) : safe (mret a : M S A).
Proof. by apply keeps_ret. Qed.

Lemma safe_fst {S1 S2 A} (m : M S1 A) : safe m → safe (on_fst m : M (S1 * S2) A).
Proof. intros Hm [a b] _. apply wp_on_fst. eapply wp_mono; [by apply Hm|]. done. Qed.
Lemma safe_snd {S1 S2 A} (m : M S2 A) : safe m → safe (on_snd m : M (S1 * S2) A).
Proof. intros Hm [a b] _. apply wp_on_snd. eapply wp_mono; [by apply Hm|]. done. Qed.

Lemma safe_sg_len {S} bufs : safe (lift (sg_len bufs) : M S Z).
Proof.
  apply safe_lift. unfold sg_len.
  assert (Hn : ∀ bs o, (o = None → overflow_checks = true) →
    foldl (λ acc b, a ← acc; add_u usize_bits a (Buf.len b)) o bs = None → overflow_checks = true).
  { induction bs as [|b bs IH]; intros o Ho; [done|]. cbn [foldl]. apply IH.
    destruct o as [a|]; [apply add_u_none|by intros _; apply Ho]. }
  by apply Hn.
Qed.

Lemma safe_sg_read {S} m bufs : ∀ skip out d, safe (lift (sg_read m bufs skip out d) : M S _).
Proof.
  intros skip out d. apply safe_lift. revert skip out d.
  induction bufs as [|b bufs IH]; intros skip out d; cbn [sg_read]; [done|].
  destruct (_ <=? _); [apply IH|]. cbv zeta.
  destruct (add_u 64 _ _) as [a|] eqn:E; [|intros _; by eapply add_u_none].
  unfold mbind, option_bind. destruct (_ =? _); [done|apply IH].
Qed.

Lemma safe_sg_write bufs : ∀ skip src d, safe (sg_write bufs skip src d).
Proof.
  induction bufs as [|b bufs IH]; intros skip src d; cbn [sg_write]; [apply safe_ret|].
  destruct (_ <=? _); [apply IH|]. eapply keeps_bind; [apply safe_add|]. intros a _.
  apply keeps_seq; [apply safe_modify|]. cbv zeta. destruct (_ =? _); [apply safe_ret|apply IH].
Qed.

Lemma safe_range {S} k sector len : safe (lift (MemBackend.range k sector len) : M S _).
Proof.
  apply safe_lift. unfold MemBackend.range. destruct (mul_u _ _ _) eqn:E; [done|]. intros _.
  revert E. unfold mul_u, checked_u. by destruct (_ && _), overflow_checks.
Qed.

Lemma safe_backend {A} (m : M MemBackend.t A) : safe m → safe (VirtioBlk.on_backend m).
Proof.
  intros Hm. apply safe_fst. intros b _. apply wp_zoom. eapply wp_mono; [by apply Hm|]. done.
Qed.
End Panics.

Create HintDb safe.
#[export] Hint Resolve safe_add safe_get safe_modify safe_ret safe_fst safe_snd safe_sg_len safe_sg_read
  safe_sg_write safe_range safe_backend : safe.

(** Walk down a body whose parts are safe. *)
Ltac safe_step :=
  lazymatch goal with
  | |- keeps _ _ (mbind _ _) _ => eapply keeps_bind; [|intros ? _]
  | |- keeps _ _ (if ?c then _ else _) _ => destruct c
  | |- keeps _ _ (match ?x with _ => _ end) _ => destruct x
  | |- _ => solve [eauto with safe]
  end.

Section Total.
Context {PR : Profile} {T : Target}.
Abbreviation Disk := (VirtioBlk.t MemBackend.t).
Abbreviation safe m := (keeps (overflow_checks = true) (λ _, True) m (λ _, True)).

Lemma mem_read_safe sector n : safe (MemBackend.read sector n).
Proof. unfold MemBackend.read. repeat safe_step. Qed.
Lemma mem_write_safe sector l : safe (MemBackend.write sector l).
Proof. unfold MemBackend.write. repeat safe_step. Qed.
#[local] Hint Resolve mem_read_safe mem_write_safe : safe.

Lemma serve_safe c ty sector cap : safe (VirtioBlk.serve c ty sector cap : M (Disk * GuestMem.t) Z).
Proof.
  unfold VirtioBlk.serve, VirtioBlk.serve_in, VirtioBlk.serve_out, VirtioBlk.count_read,
    VirtioBlk.count_write, VirtioBlk.blk_get, VirtioBlk.blk_upd, bk_read, bk_write, bk_flush,
    MemBackend.backend. cbv zeta.
  repeat safe_step.
Qed.
#[local] Hint Resolve serve_safe : safe.

Lemma blk_never_panics q c : safe (VirtioBlk.blk_handle q c : M (Disk * GuestMem.t) Z).
Proof. unfold VirtioBlk.blk_handle, VirtioBlk.blk_get, VirtioBlk.blk_upd. cbv zeta. repeat safe_step. Qed.

Lemma deferred_never_panics : safe (on_fst deferred_this : M (Disk * GuestMem.t) bool).
Proof. apply safe_fst, safe_ret. Qed.
End Total.

(** A guest that has published one cache-flush request on queue 0. *)
Definition kick_mem : GuestMem.t :=
  GuestMem.mk
    (to_le_bytes 8 0x80000080 ++ to_le_bytes 4 16 ++ to_le_bytes 2 1 ++ to_le_bytes 2 1
     ++ to_le_bytes 8 0x800000A0 ++ to_le_bytes 4 1 ++ to_le_bytes 2 2 ++ to_le_bytes 2 0
     ++ to_le_bytes 2 0 ++ to_le_bytes 2 1 ++ to_le_bytes 2 0 ++ to_le_bytes 2 0
     ++ replicate 88 0 ++ to_le_bytes 4 T_FLUSH ++ replicate 124 0) 0x80000000.
Definition kick_queue : QueueState.t :=
  QueueState.mk 2 true 0x80000000 0x80000020 0x80000030 0.
Definition kick_slot : VirtioMmio.t (VirtioBlk.t MemBackend.t) :=
  let v := VirtioMmio.new demo_disk 1 in
  v <| VirtioMmio.status := 15 |>
    <| VirtioMmio.queues := kick_queue :: replicate 3 QueueState.default |>.

Definition kick_run :=
  @VirtioMmio.notify _ (@VirtioBlk.device _ (@MemBackend.backend Release Wasm32) Release Wasm32)
    Release Wasm32 0 (kick_slot, kick_mem).
Definition kicked : VirtioMmio.t (VirtioBlk.t MemBackend.t) * GuestMem.t :=
  match kick_run with Some (_, s) => s | None => (kick_slot, kick_mem) end.

(** The chain the kick finds, and what serving it leaves. *)
Definition kick_served :=
  @serve_entries _ (@VirtioBlk.device _ (@MemBackend.backend Release Wasm32) Release Wasm32)
    Release Wasm32 1 0 kick_queue 0 (demo_disk, kick_mem).
Definition kick_chains : list (Chain.t * Z * bool) :=
  match kick_served with Some (l, _) => l | None => [] end.
Definition kick_after : VirtioBlk.t MemBackend.t * GuestMem.t :=
  match kick_served with Some (_, s) => s | None => (demo_disk, kick_mem) end.

Lemma kick_kickable :
  @kickable _ (@VirtioBlk.device _ (@MemBackend.backend Release Wasm32) Release Wasm32)
    kick_slot 0 kick_queue.
Proof. unfold kickable. split_and!; by vm_compute. Qed.

Lemma kick_bytes : Forall is_byte (GuestMem.dram kick_mem).
Proof. apply (Forall_impl (λ x, (0 <=? x) && (x <? 256) = true)); [|intros x; unfold is_byte, urange; lia].
  apply Forall_forall. intros x Hx. revert x Hx. apply Forall_forall. vm_compute. by repeat constructor. Qed.

Lemma completions_delivered_witness :
  ∃ v1 v2 m2,
    @VirtioMmio.notify _ (@VirtioBlk.device _ (@MemBackend.backend Release Wasm32) Release Wasm32)
      Release Wasm32 0 (kick_slot, kick_mem) = Some (true, (v1, kick_after.2))
    ∧ VirtioMmio.pending v1 = [Completion.mk 0 0 1 2000]
    ∧ @VirtioMmio.tick _ Release Wasm32 2000 (v1, kick_after.2) = Some (true, (v2, m2))
    ∧ @used_idx Wasm32 m2 kick_queue = 1
    ∧ @used_entry Wasm32 m2 kick_queue 0 = (0, 1).
Proof.
  destruct (@completions_delivered _
    (@VirtioBlk.device _ (@MemBackend.backend Release Wasm32) Release Wasm32) Wasm32
    kick_slot kick_mem 0 kick_queue 1 2000 kick_chains kick_after.1 kick_after.2)
    as (v1 & v2 & m2 & E1 & E2 & _ & E3 & _ & _ & _ & E4).
  - exact kick_kickable.
  - vm_compute. reflexivity.
  - by vm_compute.
  - constructor.
  - constructor.
  - by vm_compute.
  - by vm_compute.
  - by vm_compute.
  - vm_compute. reflexivity.
  - exists v1, v2, m2. split; [exact E1|]. split; [exact E2|]. split; [exact E3|].
    destruct E4 as [Hi He].
    + unfold mem_fits. split_and!; vm_compute; first [reflexivity|discriminate].
    + unfold ring_in, range_in. split_and!; vm_compute; first [reflexivity|discriminate].
    + exists (2 ^ 15). reflexivity.
    + constructor.
    + by vm_compute.
    + split; [rewrite Hi by discriminate; vm_compute; reflexivity|].
      exact (He 0%nat (Completion.mk 0 0 1 2000) eq_refl).
Defined.

Lemma notify_consumes_witness :
  match @VirtioMmio.notify _ (@VirtioBlk.device _ (@MemBackend.backend Release Wasm32) Release Wasm32)
          Release Wasm32 0 (kick_slot, kick_mem) with
  | Some (_, (v1, _)) => vec_get (VirtioMmio.queues v1) 0 = Some (kick_queue <| QueueState.last_avail := 1 |>)
  | None => False
  end.
Proof.
  pose proof (@notify_consumes _
    (@VirtioBlk.device _ (@MemBackend.backend Release Wasm32) Release Wasm32) Release Wasm32
    (λ _, True) kick_slot kick_mem 0 kick_queue
    (@blk_never_panics Release Wasm32 0) (@deferred_never_panics Release Wasm32) I
    kick_bytes kick_kickable) as H. cbv zeta in H.
  destruct (VirtioMmio.notify 0 (kick_slot, kick_mem)) as [[r [v1 m1]]|] eqn:E; [|discriminate H].
  rewrite H. vm_compute. reflexivity.
Defined.

Lemma reset_in_flight_panics_witness :
  @mbind _ M_bind _ _
    (λ _, @VirtioMmio.tick _ Release Wasm32 2000)
    (@VirtioMmio.write _ (@VirtioBlk.device _ (@MemBackend.backend Release Wasm32) Release Wasm32)
       Release Wasm32 0x070 0)
    (kicked.1, kicked.2) = None.
Proof.
  refine (proj1 (@reset_in_flight_panics _
    (@VirtioBlk.device _ (@MemBackend.backend Release Wasm32) Release Wasm32) Release Wasm32
    kicked.1 kicked.2 (Completion.mk 0 0 1 2000) [] 2000 _ _ _ _ _ _)).
  - vm_compute. reflexivity.
  - split; by vm_compute.
  - by vm_compute.
  - by vm_compute.
  - by vm_compute.
  - by vm_compute.
Defined.
