(* ===== verification/VirtioNet.v ===== *)
(** The virtio-net device ([riscv-devices/src/virtio_net.rs]).

    [NetBackend] is where frames come from and go to, with its loopback, its
    recording and its shared-queue implementation; [VirtioNet] is the device
    over any of them. *)

From S2P Require Import Prelude Keeps State Stream Virtio VirtioSg VirtioQueue VirtioBlk.

Definition NET_HDR_LEN : Z := 12.
Definition MAX_FRAME : Z := 1600.
Definition F_MAC : Z := Z.shiftl 1 5.
Definition RX_QUEUE : Z := 0.
Definition TX_QUEUE : Z := 1.

(** A [VecDeque] pushed at the back and popped at the front. *)
Definition push_back {A} (x : A) (l : list A) : list A := l ++ [x].

Class NetBackend (N : Type) := {
  transmit : list Z → M N unit;
  receive : M N (option (list Z));
}.

Module LoopbackBackend.
Record t := mk { queue : list (list Z) }.
Definition new : t := mk [].
#[global] Instance backend : NetBackend t := {
  transmit frame := modify (λ b, mk (push_back frame (queue b)));
  receive := b ← get id;
    match queue b with
    | [] => mret None
    | f :: q => modify (λ _, mk q);; mret (Some f)
    end;
}.
End LoopbackBackend.

Module CaptureBackend.
Record t := mk { sent : list (list Z); inbound : list (list Z) }.
Definition new : t := mk [] [].
#[global] Instance backend : NetBackend t := {
  transmit frame := modify (λ b, mk (push_back frame (sent b)) (inbound b));
  receive := b ← get id;
    match inbound b with
    | [] => mret None
    | f :: q => modify (λ b, mk (sent b) q);; mret (Some f)
    end;
}.
End CaptureBackend.

(** [SharedNet]: the queues the device shares with the host.  The device owns
    them here; what else holds the [Rc] reaches them through the device. *)
Module NetQueues.
Record t := mk { to_host : list (list Z); to_guest : list (list Z) }.
#[global] Instance eta_netqueues : Eta t := λ q, mk (to_host q) (to_guest q).
Definition default : t := mk [] [].
(** [SharedBackend] *)
#[global] Instance shared_backend : NetBackend t := {
  transmit frame := modify (λ q, q <| to_host := push_back frame (to_host q) |>);
  receive := q ← get id;
    match to_guest q with
    | [] => mret None
    | f :: l => modify (λ q, q <| to_guest := l |>);; mret (Some f)
    end;
}.
End NetQueues.

Module VirtioNet.
Record t (N : Type) := mk {
  backend : N;
  mac : list Z;
  pending_rx : option (list Z);
  tx_frames : Z;
  rx_frames : Z;
}.
Arguments mk {N}.
Arguments backend {N}.
Arguments mac {N}.
Arguments pending_rx {N}.
Arguments tx_frames {N}.
Arguments rx_frames {N}.
#[global] Instance eta_net {N} : Eta (t N) := λ n,
  mk (backend n) (mac n) (pending_rx n) (tx_frames n) (rx_frames n).

Definition new {N} (b : N) (mac : list Z) : t N := mk b mac None 0 0.

Section Ops.
Context {N : Type} `{NetBackend N} `{Profile} `{Target}.
Abbreviation NM := (M (t N * GuestMem.t)).

Definition set_backend (b : N) (n : t N) : t N := n <| backend := b |>.
Definition on_backend {A} (m : M N A) : M (t N) A := zoom backend set_backend m.
Definition net_get {A} (f : t N → A) : NM A := on_fst (get f).
Definition net_upd (f : t N → t N) : NM unit := on_fst (modify f).

(** [[0u8; 10]] with the MAC in front *)
Definition config (n : t N) : list Z := splice (replicate 10 0) 0 (mac n).

Definition net_handle (queue : Z) (chain : Chain.t) : NM Z :=
  if negb (queue =? TX_QUEUE) then mret 0
  else
    total ← lift (sg_len (Chain.readable chain));
    if total <=? NET_HDR_LEN then mret 0
    else
      let len := Z.min (total - NET_HDR_LEN) MAX_FRAME in
      m ← on_snd (get id);
      '(frame, _) ← lift (sg_read m (Chain.readable chain) NET_HDR_LEN (replicate (Z.to_nat len) 0) 0);
      on_fst (on_backend (transmit frame));;
      c ← net_get tx_frames; c' ← lift (add_u 64 c 1);
      net_upd (λ n, n <| tx_frames := c' |>);;
      mret 0.

Definition save_net (n : t N) : list Z :=
  let w := Writer.bytes Writer.default (mac n) in
  Writer.buf match pending_rx n with
             | Some f => Writer.bytes (Writer.bool w true) f
             | None => Writer.bool w false
             end.

(** [self.mac.copy_from_slice(mac.get(..6)?)], then the held frame.  The reads
    before a failing one have taken effect. *)
Definition load_net (bytes : list Z) : M (t N) (option unit) := λ n,
  match (let? m := on_snd Reader.bytes in
         match slice_get m 0 6 with
         | None => mret None
         | Some m6 =>
             on_fst (modify (λ n : t N, n <| mac := m6 |>));;
             let? held := on_snd Reader.bool in
             if held : bool then
               let? f := on_snd Reader.bytes in
               on_fst (modify (λ n : t N, n <| pending_rx := Some f |>));; mret (Some tt)
             else on_fst (modify (λ n : t N, n <| pending_rx := None |>));; mret (Some tt)
         end) (n, Reader.new bytes) with
  | Some (r, (n', _)) => Some (r, n')
  | None => None
  end.

Definition net_has_rx : M (t N) bool :=
  p ← get pending_rx;
  (match p with
   | None => f ← on_backend receive; modify (λ n, n <| pending_rx := f |>)
   | Some _ => mret tt
   end);;
  p ← get pending_rx;
  mret (bool_decide (is_Some p)).

Definition net_fill_rx (chain : Chain.t) : NM Z :=
  p ← net_get pending_rx;
  net_upd (λ n, n <| pending_rx := None |>);;
  match p with
  | None => mret 0
  | Some frame =>
      capacity ← lift (sg_len (Chain.writable chain));
      need ← lift (add_u usize_bits NET_HDR_LEN (Z.of_nat (length frame)));
      if capacity <? need then mret 0
      else
        on_snd (sg_write (Chain.writable chain) 0 (replicate 12 0) 0);;
        on_snd (sg_write (Chain.writable chain) NET_HDR_LEN frame 0);;
        c ← net_get rx_frames; c' ← lift (add_u 64 c 1);
        net_upd (λ n, n <| rx_frames := c' |>);;
        mret (as_u32 need)
  end.

#[global] Instance device : VirtioDevice (t N) := {
  device_id _ := 1;
  features _ := Z.lor VIRTIO_F_VERSION_1 F_MAC;
  num_queues _ := 2;
  config_read n off := VirtioBlk.config_byte (config n) off;
  config_write _ _ := mret tt;
  handle := net_handle;
  deferred_this := mret false;
  take_host_reqs := mret [];
  supply _ _ := mret None;
  dev_poll := mret false;
  dev_state n := Some (save_net n);
  load_dev_state := load_net;
  rx_queue _ := Some RX_QUEUE;
  has_rx := net_has_rx;
  fill_rx := net_fill_rx;
}.
End Ops.
End VirtioNet.

(** * A frame out and back in *)

Section Frames.
Context {PR : Profile} {T : Target} {Ht : TargetOk T}.
Implicit Types m : GuestMem.t.

(** A buffer list in DRAM whose size fits the host. *)
Definition bufs_ok m (bufs : list Buf.t) : Prop :=
  mem_fits m ∧ Forall (buf_in m) bufs ∧ Z.of_nat (length (positions m bufs)) < 2 ^ usize_bits.

(** The frame behind the header of a transmit chain, cut to the largest size. *)
Definition tx_frame m (c : Chain.t) : list Z :=
  take (Z.to_nat MAX_FRAME) (drop 12 (contents m (Chain.readable c))).

Lemma handle_transmits {N} `{NetBackend N} (n : VirtioNet.t N) m c b' :
  bufs_ok m (Chain.readable c) → (12 < length (positions m (Chain.readable c)))%nat →
  transmit (tx_frame m c) (VirtioNet.backend n) = Some (tt, b') →
  0 <= VirtioNet.tx_frames n → VirtioNet.tx_frames n + 1 < 2 ^ 64 →
  VirtioNet.net_handle TX_QUEUE c (n, m)
  = Some (0, (n <| VirtioNet.backend := b' |> <| VirtioNet.tx_frames := VirtioNet.tx_frames n + 1 |>, m)).
Proof.
  intros (Hm & Hb & Hu) Hl E Hc0 Hc. unfold VirtioNet.net_handle. cbn [TX_QUEUE Z.eqb Pos.eqb negb].
  erewrite lift_bind; [|by apply (sg_len_run m)]. unfold NET_HDR_LEN.
  destruct (Z.leb_spec (Z.of_nat (length (positions m (Chain.readable c)))) 12); [lia|]. cbv zeta.
  rewrite get_snd_bind. cbn [id].
  erewrite lift_bind; [|apply sg_read_run; [done|done|lia|lia]]. cbv beta iota.
  replace (take (Z.to_nat (Z.min (Z.of_nat (length (positions m (Chain.readable c))) - 12) MAX_FRAME))
             (drop (Z.to_nat 12) (contents m (Chain.readable c)))) with (tx_frame m c).
  2:{ unfold tx_frame. change (Z.to_nat 12) with 12%nat. destruct (Z.min_spec
        (Z.of_nat (length (positions m (Chain.readable c))) - 12) MAX_FRAME) as [[? ->]|[? ->]]; [|done].
      rewrite !take_ge; [done|rewrite length_drop, length_contents; lia..]. }
  erewrite fst_bind; [|unfold VirtioNet.on_backend, zoom; by rewrite E].
  unfold VirtioNet.net_get. rewrite get_fst_bind.
  erewrite lift_bind; [|apply add_u_small; cbn; unfold urange; lia]. done.
Qed.

Lemma fill_delivers {N} (n : VirtioNet.t N) m c frame :
  VirtioNet.pending_rx n = Some frame →
  bufs_ok m (Chain.writable c) → NoDup (positions m (Chain.writable c)) →
  (12 + length frame <= length (positions m (Chain.writable c)))%nat →
  Z.of_nat (12 + length frame) < 2 ^ 32 →
  0 <= VirtioNet.rx_frames n → VirtioNet.rx_frames n + 1 < 2 ^ 64 →
  ∃ m', VirtioNet.net_fill_rx c (n, m)
        = Some (Z.of_nat (12 + length frame),
                (n <| VirtioNet.pending_rx := None |>
                   <| VirtioNet.rx_frames := VirtioNet.rx_frames n + 1 |>, m'))
    ∧ contents m' (Chain.writable c)
      = splice (contents m (Chain.writable c)) 0 (replicate 12 0 ++ frame)
    ∧ ∀ i, i ∉ positions m (Chain.writable c) → GuestMem.dram m' !! i = GuestMem.dram m !! i.
Proof.
  intros Hp (Hm & Hb & Hu) Hnd Hl H32 Hc0 Hc. unfold VirtioNet.net_fill_rx, VirtioNet.net_get, VirtioNet.net_upd.
  rewrite get_fst_bind, Hp, modify_fst_bind.
  erewrite lift_bind; [|by apply (sg_len_run m)].
  erewrite lift_bind; [|apply add_u_small; unfold urange, NET_HDR_LEN; lia]. unfold NET_HDR_LEN.
  destruct (Z.ltb_spec (Z.of_nat (length (positions m (Chain.writable c)))) (12 + Z.of_nat (length frame))); [lia|].
  erewrite snd_bind; [|apply sg_write_run; [done|done|lia|rewrite length_replicate; lia]].
  set (m1 := scattered m (Chain.writable c) 0 (replicate 12 0)).
  assert (Hp1 : positions m1 (Chain.writable c) = positions m (Chain.writable c)) by (by apply positions_same).
  assert (Hb1 : Forall (buf_in m1) (Chain.writable c)) by (by eapply Forall_impl; [|apply scattered_in]).
  erewrite snd_bind; [|apply sg_write_run; [by apply scattered_fits|done|lia|rewrite Hp1; lia]].
  rewrite get_fst_bind. erewrite lift_bind; [|apply add_u_small; cbn; unfold urange; lia].
  rewrite modify_fst_bind. rewrite wrap_small by (unfold urange; lia).
  eexists. split; [unfold mret, M_ret; do 2 f_equal; lia|]. split.
  - rewrite contents_scattered by (done || (rewrite ?Hp1; done || lia)).
    unfold m1. rewrite contents_scattered by (done || lia || (rewrite length_replicate; lia)).
    apply (splice_app _ 0 (replicate 12 0) frame); [lia|].
    rewrite length_app, length_replicate, length_contents. lia.
  - intros i Hi. rewrite scattered_other by (by rewrite Hp1). by apply scattered_other.
Qed.

(** A frame survives the device.  What the guest puts behind the 12-byte
    header of a transmit chain, up to the largest frame, is what a loopback
    network hands back, and the receive path writes it unchanged behind a zeroed
    header into the next buffer that is large enough, reporting the full
    length and touching no other memory. *)
Theorem net_loopback_roundtrip (n : VirtioNet.t LoopbackBackend.t) m c m2 c2 :
  VirtioNet.pending_rx n = None → LoopbackBackend.queue (VirtioNet.backend n) = [] →
  bufs_ok m (Chain.readable c) → (12 < length (positions m (Chain.readable c)))%nat →
  bufs_ok m2 (Chain.writable c2) → NoDup (positions m2 (Chain.writable c2)) →
  (12 + length (tx_frame m c) <= length (positions m2 (Chain.writable c2)))%nat →
  0 <= VirtioNet.tx_frames n → VirtioNet.tx_frames n + 1 < 2 ^ 64 →
  0 <= VirtioNet.rx_frames n → VirtioNet.rx_frames n + 1 < 2 ^ 64 →
  ∃ n1 n2 n3 m3,
    VirtioNet.net_handle TX_QUEUE c (n, m) = Some (0, (n1, m))
    ∧ VirtioNet.net_has_rx n1 = Some (true, n2)
    ∧ VirtioNet.net_fill_rx c2 (n2, m2) = Some (Z.of_nat (12 + length (tx_frame m c)), (n3, m3))
    ∧ contents m3 (Chain.writable c2)
      = splice (contents m2 (Chain.writable c2)) 0 (replicate 12 0 ++ tx_frame m c)
    ∧ ∀ i, i ∉ positions m2 (Chain.writable c2) → GuestMem.dram m3 !! i = GuestMem.dram m2 !! i.
Proof.
  intros Hp Hq Hb Hl Hb2 Hnd Hfit Ht0 Ht1 Hr0 Hr1.
  pose proof (handle_transmits n m c (LoopbackBackend.mk [tx_frame m c]) Hb Hl) as E1.
  rewrite E1; [|unfold transmit, LoopbackBackend.backend, modify; by rewrite Hq|done|done].
  set (n1 := n <| VirtioNet.backend := _ |> <| VirtioNet.tx_frames := _ |>).
  set (n2 := n1 <| VirtioNet.backend := LoopbackBackend.mk [] |>
                <| VirtioNet.pending_rx := Some (tx_frame m c) |>).
  assert (E2 : VirtioNet.net_has_rx n1 = Some (true, n2)).
  { unfold VirtioNet.net_has_rx. rewrite M_bind_run. unfold get at 1.
    change (VirtioNet.pending_rx n1) with (VirtioNet.pending_rx n). rewrite Hp. reflexivity. }
  destruct (fill_delivers n2 m2 c2 (tx_frame m c)) as (m3 & E3 & C3 & O3); try done.
  { unfold tx_frame. rewrite length_take. unfold MAX_FRAME. lia. }
  eexists n1, n2, _, m3. split_and!; [done|done|exact E3|done|done].
Qed.
End Frames.

Definition net_mem (fill : Z) : GuestMem.t := GuestMem.mk (replicate 12 9 ++ replicate 100 fill) 0x80000000.
Definition net_chain : Chain.t := Chain.mk 0 [Buf.mk 0x80000000 12; Buf.mk 0x8000000C 60] [Buf.mk 0x80000008 80].

Lemma net_loopback_roundtrip_witness :
  ∃ n1 n2 n3 m3,
    @VirtioNet.net_handle _ _ Dev Wasm32 TX_QUEUE net_chain
      (VirtioNet.new LoopbackBackend.new [2; 0; 0; 0; 0; 1], net_mem 5) = Some (0, (n1, net_mem 5))
    ∧ VirtioNet.net_has_rx n1 = Some (true, n2)
    ∧ @VirtioNet.net_fill_rx _ Dev Wasm32 net_chain (n2, net_mem 0) = Some (72, (n3, m3))
    ∧ contents m3 (Chain.writable net_chain) = replicate 12 0 ++ replicate 60 5 ++ replicate 8 0.
Proof.
  destruct (@net_loopback_roundtrip Dev Wasm32
    (VirtioNet.new LoopbackBackend.new [2; 0; 0; 0; 0; 1]) (net_mem 5) net_chain (net_mem 0) net_chain)
    as (n1 & n2 & n3 & m3 & E1 & E2 & E3 & C & _).
  - reflexivity.
  - reflexivity.
  - split; [by vm_compute|]. split; [repeat constructor; by vm_compute|by vm_compute].
  - apply Nat.ltb_lt. by vm_compute.
  - split; [by vm_compute|]. split; [repeat constructor; by vm_compute|by vm_compute].
  - cbn [positions net_chain Chain.writable mbind list_bind]. rewrite app_nil_r. apply NoDup_seq.
  - apply Nat.leb_le. by vm_compute.
  - by vm_compute.
  - by vm_compute.
  - by vm_compute.
  - by vm_compute.
  - exists n1, n2, n3, m3. split; [exact E1|]. split; [exact E2|]. split; [exact E3|].
    rewrite C. vm_compute. reflexivity.
Defined.
