(* ===== verification/VirtioSafe.v ===== *)
(** What the transport keeps of a well-formed slot, for every device that keeps
    its own promises: [DeviceOk] states them, the block and the network device
    meet them. *)

From S2P Require Import Prelude Keeps State Stream Virtio VirtioSg VirtioQueue VirtioBlk VirtioNet.
Import VirtioMmio.

(** * Guest memory: as long as it was, and bytes *)

Section Memory.
Context {PR : Profile} {T : Target}.
Implicit Types m : GuestMem.t.

Definition mem_inv (l : nat) m : Prop :=
  length (GuestMem.dram m) = l ∧ Forall is_byte (GuestMem.dram m).

Lemma bytes_splice d o s : Forall is_byte d → Forall is_byte s → Forall is_byte (splice d o s).
Proof. intros. unfold splice. rewrite !Forall_app. split_and!; [by apply Forall_take|done|by apply Forall_drop]. Qed.

Lemma window_some m a n off :
  0 <= n → GuestMem.window m a n = Some off →
  0 <= off ∧ off + n <= Z.of_nat (length (GuestMem.dram m)).
Proof.
  intros Hn. unfold GuestMem.window. destruct (a <? _) eqn:Ea; [done|]. cbv zeta.
  destruct (_ && _) eqn:E; [|done]. intros [= <-]. apply andb_prop in E as [_ E].
  split; [|lia]. unfold wrap. destruct (decide (0 < 2 ^ usize_bits)).
  - by apply Z.mod_pos_bound.
  - assert (2 ^ usize_bits = 0) as -> by (pose proof (Z.pow_nonneg 2 usize_bits); lia).
    rewrite Z.mod_0_r. lia.
Qed.

Lemma mem_write P l a src :
  Forall is_byte src → keeps P (mem_inv l) (GuestMem.write a src) (λ _, True).
Proof.
  intros Hs. apply keeps_modify. intros m [Hl Hb].
  destruct (GuestMem.window m a (Z.of_nat (length src))) as [off|] eqn:E; [|done].
  apply window_some in E; [|lia]. split; cbn; [rewrite length_splice; [done|lia]|by apply bytes_splice].
Qed.

Lemma mem_read_bytes l m a n : mem_inv l m → Forall is_byte (GuestMem.read m a n).
Proof.
  intros [_ Hb]. unfold GuestMem.read. destruct (GuestMem.window _ _ _).
  - by apply Forall_take, Forall_drop.
  - apply Forall_replicate. unfold is_byte, urange. lia.
Qed.

Lemma mem_read_length m a n : 0 <= n → length (GuestMem.read m a n) = Z.to_nat n.
Proof.
  intros Hn. unfold GuestMem.read. destruct (GuestMem.window _ _ _) eqn:E.
  - apply window_some in E; [|done]. rewrite length_take, length_drop. lia.
  - apply length_replicate.
Qed.

Lemma mem_read_range l m a n :
  0 <= n → mem_inv l m → urange (8 * n) (from_le_bytes (GuestMem.read m a n)).
Proof.
  intros Hn Hm. pose proof (from_le_bytes_range _ (mem_read_bytes l m a n Hm)) as Hr.
  by rewrite mem_read_length, Z2Nat.id in Hr.
Qed.

Lemma sg_write_keeps l bufs : ∀ skip src d,
  Forall is_byte src → keeps True (mem_inv l) (sg_write bufs skip src d) (λ _, True).
Proof.
  induction bufs as [|b bufs IH]; intros skip src d Hs; cbn [sg_write]; [by apply keeps_ret|].
  destruct (_ <=? _); [by apply IH|]. eapply keeps_bind.
  { apply (keeps_lift _ _ _ (λ _, True)). by destruct (add_u _ _ _). }
  intros a _. apply keeps_seq; [apply mem_write; by apply Forall_take, Forall_drop|].
  cbv zeta. destruct (_ =? _); [by apply keeps_ret|by apply IH].
Qed.

Lemma sg_read_bytes l m bufs : ∀ skip out d r,
  mem_inv l m → Forall is_byte out → sg_read m bufs skip out d = Some r → Forall is_byte r.1.
Proof.
  induction bufs as [|b bufs IH]; intros skip out d r Hm Ho; cbn [sg_read].
  - by intros [= <-].
  - destruct (_ <=? _); [by apply IH|]. cbv zeta. destruct (add_u _ _ _) as [a|]; [|done].
    cbn [mbind option_bind].
    assert (Ho' : Forall is_byte (splice out d
      (GuestMem.read m a (Z.min (Buf.len b - skip) (Z.of_nat (length out) - d))))).
    { apply bytes_splice; [done|by apply (mem_read_bytes l)]. }
    destruct (_ =? _); [by intros [= <-]|by apply IH].
Qed.

Lemma push_used_keeps l q head len : keeps True (mem_inv l) (push_used q head len) (λ _, True).
Proof.
  unfold push_used.
  assert (Hl : ∀ w a b, keeps True (mem_inv l) (lift (add_u w a b)) (λ _, True)).
  { intros. apply keeps_lift. by destruct (add_u _ _ _). }
  assert (Hp : ∀ (c : bool), keeps True (mem_inv l) (if c then panic else mret tt) (λ _, True)).
  { intros []; [by intros s _|by apply keeps_ret]. }
  apply keeps_seq; [apply Hp|]. eapply keeps_bind; [apply Hl|]. intros i _.
  eapply keeps_bind; [by apply (keeps_get _ _ _ (λ _, True))|]. intros u _.
  apply keeps_seq; [apply Hp|]. cbv zeta. eapply keeps_bind; [apply Hl|]. intros a _.
  eapply keeps_bind; [apply Hl|]. intros a' _.
  apply keeps_seq; [apply mem_write, to_le_bytes_bytes|]. eapply keeps_bind; [apply Hl|]. intros b _.
  apply keeps_seq; apply mem_write, to_le_bytes_bytes.
Qed.

(** Walking a chain keeps its head. *)
Lemma push_head w b c : Chain.head (Chain.push w b c) = Chain.head c.
Proof. by destruct w. Qed.

Lemma walk_indirect_head m addr n : ∀ inner c c',
  walk_indirect m addr n inner c = Some c' → Chain.head c' = Chain.head c.
Proof.
  induction n as [|n IH]; intros inner c c'; cbn [walk_indirect]; [by intros [= <-]|].
  destruct (add_u _ _ _); [|done]. cbn [mbind option_bind].
  destruct (read_desc _ _) as [[[[ad ln] fl] nx]|]; [|done]. unfold mbind, option_bind.
  destruct (Z.land fl DESC_F_NEXT =? 0); [intros [= <-]; apply push_head|]. intros E. by rewrite (IH _ _ _ E), push_head.
Qed.

Lemma walk_from_head m q n : ∀ idx c c',
  walk_from m q n idx c = Some (Some c') → Chain.head c' = Chain.head c.
Proof.
  induction n as [|n IH]; intros idx c c'; cbn [walk_from]; [by intros [= <-]|].
  destruct (_ <=? _); [done|]. destruct (add_u _ _ _); [|done]. cbn [mbind option_bind].
  destruct (read_desc _ _) as [[[[ad ln] fl] nx]|]; [|done]. unfold mbind, option_bind.
  destruct (negb (Z.land fl DESC_F_INDIRECT =? 0)).
  - destruct (walk_indirect _ _ _ _ _) as [c1|] eqn:E1; [|done]. apply walk_indirect_head in E1.
    cbn [option_bind]. rewrite <- E1. destruct (Z.land fl DESC_F_NEXT =? 0); [by intros [= <-]|apply IH].
  - destruct (Z.land fl DESC_F_NEXT =? 0); [intros [= <-]; apply push_head|].
    intros E. by rewrite (IH _ _ _ E), push_head.
Qed.

Lemma walk_head m q head c : walk m q head = Some (Some c) → Chain.head c = head.
Proof. intros E. by apply walk_from_head in E. Qed.

Lemma avail_head_range l m q last h : mem_inv l m → avail_head m q last = Some h → urange 16 h.
Proof.
  intros Hm. unfold avail_head. cbv zeta. destruct (add_u _ _ _); [|done]. cbn [mbind option_bind].
  destruct (add_u _ _ _); [|done]. intros [= <-]. by apply (mem_read_range l _ _ 2).
Qed.
End Memory.

(** * What a device promises *)

Definition dev_mem {D} (I : D → Prop) (l : nat) (s : D * GuestMem.t) : Prop := I s.1 ∧ mem_inv l s.2.

(** Every method keeps the device's own invariant, writes only bytes into the
    guest memory without resizing it, and returns values of their widths.  A
    panic is not excluded. *)
Class DeviceOk (D : Type) `{VirtioDevice D} := {
  dev_inv : D → Prop;
  device_id_ok d : dev_inv d → urange 32 (device_id d);
  config_read_ok d off : dev_inv d → urange 8 (config_read d off);
  config_write_ok off v : keeps True dev_inv (config_write off v) (λ _, True);
  handle_ok l q c : urange 16 (Chain.head c) → keeps True (dev_mem dev_inv l) (handle q c) (urange 32);
  supply_ok l i payload : Forall is_byte payload →
    keeps True (dev_mem dev_inv l) (supply i payload) (λ r,
      match r with Some (q, h, n) => 0 <= q < Z.of_nat MAX_QUEUES ∧ urange 16 h ∧ urange 32 n | None => True end);
  deferred_ok : keeps True dev_inv deferred_this (λ _, True);
  poll_ok l : keeps True (dev_mem dev_inv l) dev_poll (λ _, True);
  has_rx_ok : keeps True dev_inv has_rx (λ _, True);
  fill_rx_ok l c : keeps True (dev_mem dev_inv l) (fill_rx c) (urange 32);
}.

(** * The transport *)

Lemma low_half_range x v : urange 64 x → urange 32 v → urange 64 (low_half x v).
Proof.
  intros Hx Hv. apply urange_lor; [lia|by apply urange_land_l|by apply (urange_weaken 32)].
Qed.

Lemma high_half_range x v : urange 64 x → urange 64 (high_half x v).
Proof. intros Hx. apply urange_lor; [lia|by apply urange_land_l|apply wrap_range; lia]. Qed.

Section Transport.
Context {D : Type} `{DeviceOk D} {PR : Profile} {T : Target} {Ht : TargetOk T}.

(** The slot [i] is well formed, and so is the memory lent to it. *)
Definition slot_wf (i : nat) (v : t D) : Prop := mmio_wf v ∧ dev_inv (dev v) ∧ irq v = S i.
Definition slot_mem (i l : nat) (s : t D * GuestMem.t) : Prop := slot_wf i s.1 ∧ mem_inv l s.2.

Context (i l : nat).
Abbreviation vkeeps := (keeps True (slot_mem i l)).

Lemma vk_ret {A} (a : A) : vkeeps (mret a) (λ _, True).
Proof. by apply keeps_ret. Qed.

Lemma vk_get {A} (f : t D → A) R : (∀ v, slot_wf i v → R (f v)) → vkeeps (self_get f) R.
Proof. intros Hf. by apply keeps_on_fst, keeps_get. Qed.

Lemma vk_get_any {A} (f : t D → A) : vkeeps (self_get f) (λ _, True).
Proof. by apply vk_get. Qed.

Lemma vk_upd f : (∀ v, slot_wf i v → slot_wf i (f v)) → vkeeps (self_upd f) (λ _, True).
Proof. intros Hf. by apply keeps_on_fst, keeps_modify. Qed.

Lemma vk_mem {A} (m : M GuestMem.t A) R : keeps True (mem_inv l) m R → vkeeps (on_mem m) R.
Proof. apply keeps_on_snd. Qed.

Lemma vk_lift {A} (o : option A) : vkeeps (lift o) (λ _, True).
Proof. apply keeps_lift. by destruct o. Qed.

Lemma vk_dev {A} (m : M (D * GuestMem.t) A) R : keeps True (dev_mem dev_inv l) m R → vkeeps (on_dev m) R.
Proof.
  intros Hm. apply (keeps_zoom _ _ (dev_mem dev_inv l)); [done| |].
  - intros [v m'] [(_ & Hd & _) Hm']. by split.
  - intros [v m'] [d m''] [(Hv & _ & Hi) _] [Hd Hm'']. split; [|done].
    split_and!; [|done|done]. by destruct Hv.
Qed.

Lemma vk_dev1 {A} (m : M D A) R : keeps True dev_inv m R → vkeeps (on_dev1 m) R.
Proof. intros Hm. by apply vk_dev, keeps_on_fst. Qed.

(** ** State updates *)

Lemma upd_queue_wf q f v :
  (∀ x, queue_wf x → queue_wf (f x)) → slot_wf i v → slot_wf i (upd_queue q f v).
Proof.
  intros Hf (Hv & Hd & Hi). unfold upd_queue. destruct (vec_get (queues v) q) as [x|] eqn:E; [|done].
  split_and!; [|done|done]. destruct Hv as [? ? ? ? ? [Hl Hq] ? ? ? ?]. constructor; try assumption.
  cbn. split; [by rewrite length_insert|]. apply Forall_insert; [done|]. apply Hf.
  unfold vec_get in E. destruct (_ && _); [|done]. by eapply Forall_lookup_1.
Qed.

Lemma with_queue_wf f v :
  (∀ x, queue_wf x → queue_wf (f x)) → slot_wf i v → slot_wf i (with_queue f v).
Proof. apply upd_queue_wf. Qed.

Lemma raise_wf v : slot_wf i v → slot_wf i (raise v).
Proof.
  intros (Hv & Hd & Hi). split_and!; [|done|done]. destruct Hv. constructor; try assumption. cbn.
  apply urange_lor; [lia|done|by unfold urange].
Qed.

Lemma set_pending_wf cs v : Forall completion_wf cs → slot_wf i v → slot_wf i (v <| pending := cs |>).
Proof. intros Hc (Hv & Hd & Hi). split_and!; [|done|done]. destruct Hv. by constructor. Qed.

Lemma push_completion_wf c v : completion_wf c → slot_wf i v → slot_wf i (push_completion c v).
Proof.
  intros Hc Hv. apply set_pending_wf; [|done]. apply Forall_app. split; [apply Hv|by constructor].
Qed.

Lemma vec_get_queue qs q x : Forall queue_wf qs → vec_get qs q = Some x → queue_wf x.
Proof.
  intros Hq. unfold vec_get. destruct (_ && _); [|done]. intros E. by eapply Forall_lookup_1.
Qed.

(** ** Completions *)

Lemma vk_push q head len : vkeeps (on_mem (push_used q head len)) (λ _, True).
Proof. apply vk_mem, push_used_keeps. Qed.

Lemma vk_raise : vkeeps (self_upd raise) (λ _, True).
Proof. apply vk_upd, raise_wf. Qed.

Lemma vk_retire c : vkeeps (retire c) (λ _, True).
Proof.
  eapply keeps_bind; [apply vk_get_any|]. intros qs _. destruct (vec_get _ _); [apply vk_push|apply vk_ret].
Qed.

Lemma vk_retire_all cs : vkeeps (retire_all cs) (λ _, True).
Proof. induction cs as [|c cs IH]; cbn; [apply vk_ret|]. apply keeps_seq; [apply vk_retire|exact IH]. Qed.

Lemma vk_pending : vkeeps (self_get pending) (Forall completion_wf).
Proof. apply vk_get. intros v Hv. apply Hv. Qed.

Lemma vk_flush : vkeeps flush_pending (λ _, True).
Proof.
  eapply keeps_bind; [apply vk_pending|]. intros p _. case_bool_decide; [apply vk_ret|].
  apply keeps_seq; [apply vk_upd; intros; by apply set_pending_wf|].
  apply keeps_seq; [apply vk_retire_all|]. apply keeps_seq; [apply vk_raise|apply vk_ret].
Qed.

Lemma vk_retire_due cs : ∀ nw fired,
  Forall completion_wf cs → vkeeps (retire_due cs nw fired) (λ _, True).
Proof.
  induction cs as [|c cs IH]; intros nw fired Hc; cbn [retire_due]; [apply vk_ret|].
  apply Forall_cons in Hc as [_ Hc]. destruct (_ <? _); [apply vk_ret|].
  apply keeps_seq; [apply vk_upd; intros; by apply set_pending_wf|].
  apply keeps_seq; [apply vk_retire|by apply IH].
Qed.

Lemma vk_tick n : vkeeps (tick n) (λ _, True).
Proof.
  apply keeps_seq.
  { apply vk_upd. intros v (Hv & Hd & Hi). split_and!; [|done|done]. destruct Hv.
    constructor; try assumption. cbn. apply wrap_range. lia. }
  eapply keeps_bind; [apply vk_pending|]. intros p Hp. case_bool_decide; [apply vk_ret|].
  eapply keeps_bind; [apply vk_get_any|]. intros nw _.
  eapply keeps_bind; [by apply vk_retire_due|]. intros [] _; [|by apply vk_ret].
  apply keeps_seq; [apply vk_raise|apply vk_ret].
Qed.

(** ** Queues *)

Lemma vk_memory : vkeeps (on_mem (get id)) (mem_inv l).
Proof. by apply vk_mem, keeps_get. Qed.

Lemma vk_take_avail q : vkeeps (take_avail q) (λ _, True).
Proof.
  eapply keeps_bind; [apply vk_get_any|]. intros qs _. destruct (vec_get qs q) as [x|]; [|apply vk_ret].
  destruct (_ || _); [apply vk_ret|]. eapply keeps_bind; [apply vk_memory|]. intros m _.
  eapply keeps_bind; [apply vk_lift|]. intros idx _. destruct (_ =? _); [apply vk_ret|].
  eapply keeps_bind; [apply vk_lift|]. intros head _. eapply keeps_bind; [apply vk_lift|].
  intros [chain|] _; [|apply vk_ret]. apply keeps_seq; [|apply vk_ret].
  apply vk_upd. intros v. apply upd_queue_wf. intros y (? & ? & ? & ? & _).
  unfold queue_wf. cbn. split_and!; try done. apply wrap_range. lia.
Qed.

Lemma vk_complete q head len : vkeeps (complete q head len) (λ _, True).
Proof.
  eapply keeps_bind; [apply vk_get_any|]. intros qs _. destruct (vec_get qs q) as [x|]; [|apply vk_ret].
  apply keeps_seq; [apply vk_push|apply vk_raise].
Qed.

Lemma vk_rx_loop n : ∀ q d, vkeeps (rx_loop n q d) (λ _, True).
Proof.
  induction n as [|n IH]; intros q d; cbn [rx_loop]; [apply vk_ret|].
  eapply keeps_bind; [apply vk_dev1, has_rx_ok|]. intros [] _; [|apply vk_ret]. cbn [negb].
  eapply keeps_bind; [apply vk_take_avail|]. intros [c|] _; [|apply vk_ret].
  eapply keeps_bind; [apply vk_dev, fill_rx_ok|]. intros w _.
  apply keeps_seq; [apply vk_complete|apply IH].
Qed.

Lemma vk_poll : vkeeps poll (λ _, True).
Proof.
  eapply keeps_bind; [apply vk_get_any|]. intros st _. destruct (_ =? _); [apply vk_ret|].
  eapply keeps_bind; [apply vk_dev, poll_ok|]. intros [] _.
  - apply keeps_seq; [apply vk_raise|apply vk_ret].
  - eapply keeps_bind; [apply vk_get_any|]. intros d _.
    destruct (rx_queue d); [apply vk_rx_loop|apply vk_ret].
Qed.

Lemma vk_notify_loop n : ∀ queue q idx last s,
  urange usize_bits queue → urange 16 last →
  vkeeps (notify_loop n queue q idx last s) (λ r, urange 16 r.1).
Proof.
  induction n as [|n IH]; intros queue q idx last s Hq Hl; cbn [notify_loop]; [by apply keeps_ret|].
  destruct (_ =? _); [by apply keeps_ret|]. eapply keeps_bind; [apply vk_memory|]. intros m Hm.
  eapply (keeps_bind _ _ _ _ (urange 16)).
  { apply keeps_lift. destruct (avail_head m q last) eqn:E; [|done]. by eapply avail_head_range. }
  intros head Hh.
  eapply (keeps_bind _ _ _ _ (λ r, match r with Some c => Chain.head c = head | None => True end)).
  { apply keeps_lift. destruct (walk m q head) as [[c|]|] eqn:E; [|done..]. by apply walk_head in E. }
  intros r Hr. eapply (keeps_bind _ _ _ _ (λ _, True)).
  2:{ intros s' _. apply IH; [done|apply wrap_range; lia]. }
  destruct r as [c|]; [|apply vk_ret]. eapply keeps_bind; [apply vk_dev, handle_ok; by rewrite Hr|]. intros w Hw.
  eapply keeps_bind; [apply vk_dev1, deferred_ok|]. intros [] _; cbn [negb].
  - apply keeps_seq; apply vk_ret.
  - apply keeps_seq; [|apply vk_ret]. eapply keeps_bind; [apply vk_get_any|]. intros nw _.
    apply vk_upd. intros v. apply push_completion_wf. unfold completion_wf. cbn.
    rewrite Hr. split_and!; [done|done|done|apply wrap_range; lia].
Qed.

Lemma vk_notify queue : 0 <= queue → vkeeps (notify queue) (λ _, True).
Proof.
  intros Hq. eapply keeps_bind; [apply vk_get_any|]. intros d _.
  destruct ((_ <=? queue) || _) eqn:E; [apply vk_ret|].
  apply orb_false_elim in E as [E _]. assert (Hr : urange usize_bits queue).
  { apply (urange_weaken 2); [pose proof usize_ok; lia|]. apply Z.leb_gt in E. unfold urange, MAX_QUEUES in *. lia. }
  case_bool_decide; [apply vk_poll|].
  eapply (keeps_bind _ _ _ _ (Forall queue_wf)); [apply vk_get; intros v Hv; apply Hv|]. intros qs Hqs.
  eapply (keeps_bind _ _ _ _ queue_wf).
  { apply keeps_lift. destruct (vec_get qs queue) eqn:Eq; [|done]. by eapply vec_get_queue. }
  intros q Hqw. destruct (_ || _); [apply vk_ret|]. eapply keeps_bind; [apply vk_memory|]. intros m _.
  eapply keeps_bind; [apply vk_lift|]. intros idx _.
  eapply keeps_bind; [apply vk_notify_loop; [done|apply Hqw]|]. intros [last s] Hlast. cbn in Hlast.
  apply keeps_seq; [|apply vk_ret]. apply vk_upd. intros v. apply upd_queue_wf.
  intros y (? & ? & ? & ? & _). unfold queue_wf. cbn. by split_and!.
Qed.

(** What the host supplies completes the chain it was asked for. *)
Lemma vk_supply id payload : Forall is_byte payload → vkeeps (mmio_supply id payload) (λ _, True).
Proof.
  intros Hp. unfold mmio_supply. eapply keeps_bind; [by apply vk_dev, supply_ok|].
  intros [[[q h] n]|] Hr; [|apply vk_ret]. destruct Hr as (Hq & Hh & Hn).
  eapply (keeps_bind _ _ _ _ (urange 64)); [apply vk_get; intros v Hv; apply Hv|]. intros nw Hnw.
  apply keeps_seq; [|apply vk_ret]. apply vk_upd. intros v. apply push_completion_wf.
  unfold completion_wf. cbn. split_and!; try done. apply (urange_weaken 2); [pose proof usize_ok; lia|].
  unfold urange, MAX_QUEUES in *. lia.
Qed.

(** ** Registers *)

(** A register write that only updates the state. *)
Lemma vk_reg f r : (∀ v, slot_wf i v → slot_wf i (f v)) → vkeeps (self_upd f;; mret (r : bool)) (λ _, True).
Proof. intros Hf. apply keeps_seq; [by apply vk_upd|apply vk_ret]. Qed.

Lemma vk_queue_reg f r :
  (∀ q, queue_wf q → queue_wf (f q)) → vkeeps (self_upd (with_queue f);; mret (r : bool)) (λ _, True).
Proof. intros Hf. apply vk_reg. intros v. by apply with_queue_wf. Qed.
End Transport.

Ltac reg_wf :=
  intros ? (Hv & Hd & Hi); split_and!; [|done|done]; destruct Hv; constructor; try assumption; cbn.

Ltac queue_reg_wf :=
  apply vk_queue_reg; intros q (? & ? & ? & ? & ?); unfold queue_wf; cbn; split_and!;
  try done; first [by apply low_half_range|by apply high_half_range|by apply wrap_range].

Section Registers.
Context {D : Type} `{DeviceOk D} {PR : Profile} {T : Target} {Ht : TargetOk T}.
Context (i l : nat).
Abbreviation vkeeps := (keeps True (slot_mem (D := D) i l)).

Lemma vk_write off val : urange 32 val → vkeeps (write off val) (λ _, True).
Proof.
  intros Hv32. unfold write. cbv zeta.
  destruct (0x100 <=? off). { apply keeps_seq; [apply vk_dev1, config_write_ok|apply vk_ret]. }
  destruct (_ =? 0x014). { apply vk_reg. by reg_wf. }
  destruct (_ =? 0x020).
  { apply vk_reg. reg_wf. destruct (_ =? 0); [by apply low_half_range|by apply high_half_range]. }
  destruct (_ =? 0x024). { apply vk_reg. by reg_wf. }
  destruct (_ =? 0x030).
  { apply vk_reg. reg_wf. apply (urange_weaken 32); [pose proof usize_ok; lia|done]. }
  destruct (_ =? 0x038). { queue_reg_wf. }
  destruct (_ =? 0x044).
  { apply vk_queue_reg. intros q (? & ? & ? & ? & ?). destruct (negb _); unfold queue_wf; cbn; by split_and!. }
  destruct (_ =? 0x050). { apply vk_notify. apply Hv32. }
  destruct (_ =? 0x064). { apply vk_reg. reg_wf. by apply urange_land_l. }
  destruct (_ =? 0x070).
  { apply keeps_seq; [apply vk_upd; by reg_wf|]. destruct (_ =? 0); [|apply vk_ret].
    apply vk_reg. reg_wf; try done. split; [done|]. assert (Hq0 : queue_wf QueueState.default) by (by split_and!). by repeat (apply Forall_cons; split). }
  do 6 (destruct (_ =? _); [queue_reg_wf|]). apply vk_ret.
Qed.

Lemma mmio_read_range v off : slot_wf i v → urange 32 (read v off).
Proof.
  intros (Hv & Hd & _). unfold read. destruct Hv. cbv zeta.
  destruct (0x100 <=? off).
  { apply (from_le_bytes_range [_; _; _; _]). repeat constructor; by apply config_read_ok. }
  split_ifs; try assumption; try done; try (apply wrap_range; lia).
  - by apply device_id_ok.
  - apply urange_b2z. lia.
Qed.
End Registers.

(** * The devices keep their promises *)

(** A backing store holds bytes, and hands out bytes only. *)
Class StoreOk (K : Type) `{BlockBackend K} := {
  store_inv : K → Prop;
  store_read_ok s n :
    keeps True store_inv (bk_read s n) (λ r, match r with Some l => Forall is_byte l | None => True end);
  store_write_ok s buf : Forall is_byte buf → keeps True store_inv (bk_write s buf) (λ _, True);
  store_flush_ok : keeps True store_inv bk_flush (λ _, True);
}.

Section Stores.
Context {PR : Profile} {T : Target} {Ht : TargetOk T}.

Definition bytes_in (k : MemBackend.t) : Prop := Forall is_byte (MemBackend.data k).

Lemma store_read s n :
  keeps True bytes_in (MemBackend.read s n) (λ r, match r with Some l => Forall is_byte l | None => True end).
Proof.
  intros k Hk. apply wp_bind, wp_get, wp_bind, wp_lift.
  destruct (MemBackend.range _ _ _) as [r|]; [|done]. apply wp_ret. split; [|done].
  destruct r; [|done]. cbn. by apply Forall_take, Forall_drop.
Qed.

Lemma store_write s buf : Forall is_byte buf → keeps True bytes_in (MemBackend.write s buf) (λ _, True).
Proof.
  intros Hb k Hk. apply wp_bind, wp_get, wp_bind, wp_lift.
  destruct (MemBackend.range _ _ _) as [[off|]|]; [|by apply wp_ret|done].
  apply wp_bind, wp_modify, wp_ret. split; [done|]. unfold bytes_in. cbn. by apply bytes_splice.
Qed.

#[global] Instance memory_store_ok : StoreOk MemBackend.t.
Proof.
  refine {| store_inv := bytes_in |}; [apply store_read|apply store_write|by apply keeps_ret].
Defined.

#[global] Instance detached_store_ok : StoreOk DetachedBackend.t.
Proof. refine {| store_inv _ := True |}; intros; by apply keeps_ret. Defined.
End Stores.

Section Disk.
Context {K : Type} {BK : BlockBackend K} {SK : StoreOk K}.
Context {PR : Profile} {T : Target} {Ht : TargetOk T}.

(** ** The disk *)

Definition disk_inv (b : VirtioBlk.t K) : Prop :=
  store_inv (VirtioBlk.backend b) ∧ Forall is_byte (VirtioBlk.serial b).
Abbreviation bkeeps l := (keeps True (dev_mem disk_inv l)).

Lemma blk_lift l {A} (o : option A) : bkeeps l (lift o) (λ _, True).
Proof. apply keeps_lift. by destruct o. Qed.

Lemma blk_any l {A} (f : _ → A) : bkeeps l (VirtioBlk.blk_get f) (λ _, True).
Proof. by apply keeps_on_fst, keeps_get. Qed.

Lemma blk_upd_keeps l f :
  (∀ b, disk_inv b → disk_inv (f b)) → bkeeps l (VirtioBlk.blk_upd f) (λ _, True).
Proof. intros Hf. by apply keeps_on_fst, keeps_modify. Qed.

Lemma blk_backend l {A} (m : M K A) R :
  keeps True store_inv m R → bkeeps l (VirtioBlk.on_backend m) R.
Proof.
  intros Hm. apply keeps_on_fst. apply (keeps_zoom _ _ store_inv); [done|by intros b []|].
  intros b k [_ Hs] Hk. by split.
Qed.

Lemma blk_sg l bufs skip src d : Forall is_byte src → bkeeps l (on_snd (sg_write bufs skip src d)) (λ _, True).
Proof. intros Hs. by apply keeps_on_snd, sg_write_keeps. Qed.

Lemma blk_count l : bkeeps l VirtioBlk.count_read (λ _, True) ∧ bkeeps l VirtioBlk.count_write (λ _, True).
Proof.
  split; (eapply keeps_bind; [apply blk_any|]; intros n _; eapply keeps_bind; [apply blk_lift|];
    intros n' _; apply blk_upd_keeps; done).
Qed.

Definition is_status (s : Z) : Prop := is_byte s.

Lemma blk_serve_in l c s cap : bkeeps l (VirtioBlk.serve_in c s cap) is_status.
Proof.
  unfold VirtioBlk.serve_in. cbv zeta. destruct (_ =? _); [by apply keeps_ret|].
  eapply keeps_bind; [apply blk_lift|]. intros e _. eapply keeps_bind; [apply blk_any|]. intros cp _.
  destruct (_ <? _); [by apply keeps_ret|].
  eapply keeps_bind; [apply blk_backend, store_read_ok|]. intros [buf|] Hb; [|by apply keeps_ret].
  apply keeps_seq; [by apply blk_sg|]. apply keeps_seq; [apply blk_count|by apply keeps_ret].
Qed.

Lemma blk_serve_out l c s : bkeeps l (VirtioBlk.serve_out c s) is_status.
Proof.
  unfold VirtioBlk.serve_out. eapply keeps_bind; [apply blk_any|]. intros [] _; [by apply keeps_ret|].
  eapply keeps_bind; [apply blk_lift|]. intros total _. cbv zeta. destruct (_ =? _); [by apply keeps_ret|].
  eapply (keeps_bind _ _ _ _ (mem_inv l)); [by apply keeps_on_snd, keeps_get|]. intros m Hm.
  eapply (keeps_bind _ _ _ _ (λ r, Forall is_byte r.1)).
  { apply keeps_lift. destruct (sg_read _ _ _ _ _) eqn:E; [|done].
    eapply sg_read_bytes; [done| |done]. apply Forall_replicate. by unfold is_byte, urange. }
  intros [buf got] Hb. eapply keeps_bind; [by apply blk_backend, store_write_ok|].
  intros [] _; [|by apply keeps_ret]. apply keeps_seq; [apply blk_count|by apply keeps_ret].
Qed.

Lemma blk_serve l c ty s cap : bkeeps l (VirtioBlk.serve c ty s cap) is_status.
Proof.
  unfold VirtioBlk.serve. destruct (_ =? _); [apply blk_serve_in|]. destruct (_ =? _); [apply blk_serve_out|].
  destruct (_ =? _).
  { eapply (keeps_bind _ _ _ _ (λ _, True)); [by apply blk_backend, store_flush_ok|].
    intros [] _; by apply keeps_ret. }
  destruct (_ =? _); [|by apply keeps_ret].
  eapply (keeps_bind _ _ _ _ (Forall is_byte)).
  { apply keeps_on_fst, keeps_get. by intros b []. }
  intros sr Hs. apply keeps_seq; [by apply blk_sg, Forall_take|by apply keeps_ret].
Qed.

Lemma blk_handle_keeps l q c : bkeeps l (VirtioBlk.blk_handle q c) (urange 32).
Proof.
  unfold VirtioBlk.blk_handle. do 4 (eapply keeps_bind; [apply blk_lift|]; intros ? _).
  apply keeps_seq.
  { apply blk_upd_keeps. intros b Hb. unfold VirtioBlk.note_chain. by repeat case_match. }
  eapply (keeps_bind _ _ _ _ (mem_inv l)); [by apply keeps_on_snd, keeps_get|]. intros m Hm.
  eapply keeps_bind; [apply blk_lift|]. intros [hdr got] _. destruct (negb _); [by apply keeps_ret|].
  cbv zeta. eapply keeps_bind; [apply blk_lift|]. intros wt _. destruct (_ =? _); [by apply keeps_ret|].
  eapply keeps_bind; [apply blk_serve|]. intros st Hst. apply keeps_seq; [apply blk_sg; by constructor|].
  eapply keeps_bind; [apply blk_any|]. intros sr _.
  destruct (_ =? _); [by apply keeps_checked|]. destruct (_ =? _); [by apply keeps_checked|by apply keeps_ret].
Qed.

Lemma config_byte_range c off : Forall is_byte c → urange 8 (VirtioBlk.config_byte c off).
Proof.
  intros Hc. unfold VirtioBlk.config_byte, vec_get. destruct (_ && _); [|done].
  destruct (c !! _) eqn:E; [|done]. cbn. by eapply Forall_lookup_1 in E.
Qed.

#[global] Instance disk_ok : DeviceOk (VirtioBlk.t K).
Proof.
  refine {| dev_inv := disk_inv |}; intros; try (by apply keeps_ret).
  - by cbn.
  - apply config_byte_range, to_le_bytes_bytes.
  - apply blk_handle_keeps.
Defined.
End Disk.

Section Card.
Context {PR : Profile} {T : Target} {Ht : TargetOk T}.

(** ** The network card *)

Definition queues_inv (q : NetQueues.t) : Prop := Forall (Forall is_byte) (NetQueues.to_guest q).
Definition nic_inv (n : VirtioNet.t NetQueues.t) : Prop :=
  queues_inv (VirtioNet.backend n) ∧ Forall is_byte (VirtioNet.mac n)
  ∧ match VirtioNet.pending_rx n with Some f => Forall is_byte f | None => True end.
Abbreviation nkeeps l := (keeps True (dev_mem nic_inv l)).

Lemma nic_lift l {A} (o : option A) : nkeeps l (lift o) (λ _, True).
Proof. apply keeps_lift. by destruct o. Qed.

Lemma nic_any l {A} (f : _ → A) : nkeeps l (VirtioNet.net_get f) (λ _, True).
Proof. by apply keeps_on_fst, keeps_get. Qed.

Lemma nic_upd l f : (∀ n, nic_inv n → nic_inv (f n)) → nkeeps l (VirtioNet.net_upd f) (λ _, True).
Proof. intros Hf. by apply keeps_on_fst, keeps_modify. Qed.

Lemma nic_sg l bufs skip src d : Forall is_byte src → nkeeps l (on_snd (sg_write bufs skip src d)) (λ _, True).
Proof. intros Hs. by apply keeps_on_snd, sg_write_keeps. Qed.

Lemma nic_backend {A} (m : M NetQueues.t A) R :
  keeps True queues_inv m R → keeps True nic_inv (VirtioNet.on_backend m) R.
Proof.
  intros Hm. apply (keeps_zoom _ _ queues_inv); [done|by intros n []|]. intros n q [_ Hr] Hq. by split.
Qed.

Lemma nic_handle l q c : nkeeps l (VirtioNet.net_handle q c) (urange 32).
Proof.
  unfold VirtioNet.net_handle. destruct (negb _); [by apply keeps_ret|].
  eapply keeps_bind; [apply nic_lift|]. intros total _. destruct (_ <=? _); [by apply keeps_ret|].
  cbv zeta. eapply (keeps_bind _ _ _ _ (mem_inv l)); [by apply keeps_on_snd, keeps_get|]. intros m _.
  eapply keeps_bind; [apply nic_lift|]. intros [frame got] _.
  apply keeps_seq; [by apply keeps_on_fst, nic_backend, keeps_modify|].
  eapply keeps_bind; [apply nic_any|]. intros n _. eapply keeps_bind; [apply nic_lift|]. intros n' _.
  apply keeps_seq; [by apply nic_upd|by apply keeps_ret].
Qed.

Lemma queues_receive :
  keeps True queues_inv (receive (N := NetQueues.t)) (λ r, match r with Some f => Forall is_byte f | None => True end).
Proof.
  intros q Hq. cbn. apply wp_bind, wp_get. unfold id. destruct (NetQueues.to_guest q) as [|f fs] eqn:E.
  - by apply wp_ret.
  - apply wp_bind, wp_modify, wp_ret. unfold queues_inv in *. rewrite E in Hq.
    by apply Forall_cons in Hq as [??].
Qed.

Lemma nic_has_rx : keeps True nic_inv VirtioNet.net_has_rx (λ _, True).
Proof.
  unfold VirtioNet.net_has_rx. eapply keeps_bind; [by apply (keeps_get _ _ _ (λ _, True))|]. intros p _.
  apply keeps_seq.
  - destruct p; [by apply keeps_ret|]. eapply keeps_bind; [apply nic_backend, queues_receive|].
    intros f Hf. apply keeps_modify. by intros n (? & ? & _).
  - eapply keeps_bind; [by apply (keeps_get _ _ _ (λ _, True))|]. intros. by apply keeps_ret.
Qed.

Lemma nic_fill l c : nkeeps l (VirtioNet.net_fill_rx c) (urange 32).
Proof.
  unfold VirtioNet.net_fill_rx.
  eapply (keeps_bind _ _ _ _ (λ r, match r with Some f => Forall is_byte f | None => True end)).
  { apply keeps_on_fst, keeps_get. by intros n (_ & _ & ?). }
  intros p Hp. apply keeps_seq; [apply nic_upd; by intros n (? & ? & _)|].
  destruct p as [f|]; [|by apply keeps_ret].
  eapply keeps_bind; [apply nic_lift|]. intros cap _. eapply keeps_bind; [apply nic_lift|]. intros need _.
  destruct (_ <? _); [by apply keeps_ret|].
  apply keeps_seq; [apply nic_sg, Forall_replicate; by unfold is_byte, urange|].
  apply keeps_seq; [by apply nic_sg|].
  eapply keeps_bind; [apply nic_any|]. intros n _. eapply keeps_bind; [apply nic_lift|]. intros n' _.
  apply keeps_seq; [by apply nic_upd|]. apply keeps_ret, wrap_range. lia.
Qed.

#[global] Instance nic_ok : DeviceOk (VirtioNet.t NetQueues.t).
Proof.
  refine {| dev_inv := nic_inv |}; intros; try (by apply keeps_ret).
  - by cbn.
  - apply config_byte_range, bytes_splice; [apply Forall_replicate; by unfold is_byte, urange|].
    match goal with H : nic_inv _ |- _ => apply H end.
  - apply nic_handle.
  - apply nic_has_rx.
  - apply nic_fill.
Defined.
End Card.
