(* ===== verification/P9Fs.v ===== *)
(** The file tree of the virtio-9p device ([riscv-devices/src/virtio_9p.rs]:
    [Inode], [P9Fs]), and the strings it names things with.

    A [String] is its UTF-8 bytes.  Bytes that come from the guest or from the
    host are decoded with the standard library's lossy or strict conversion,
    which are modelled here.  An index out of range and a walk that does not end
    are both a panic ([None]); for a well-formed tree neither happens. *)

From S2P Require Import Prelude Keeps State Virtio.

(** * UTF-8 *)

(** [safe_get]: past the end is 0, which continues nothing. *)
Definition byte_at (l : list Z) (i : nat) : Z := nth i l 0.
Definition is_cont (b : Z) : bool := Z.land b 192 =? 128.
Definition between (lo hi b : Z) : bool := (lo <=? b) && (b <=? hi).

(** The decoder's step: is the next character well formed, and how many bytes
    does it, or the maximal malformed prefix, take. *)
Definition utf8_char (l : list Z) : bool * nat :=
  let b0 := byte_at l 0 in
  let b1 := byte_at l 1 in
  let b2 := byte_at l 2 in
  let b3 := byte_at l 3 in
  if b0 <? 0x80 then (true, 1)%nat
  else if between 0xC2 0xDF b0 then if is_cont b1 then (true, 2)%nat else (false, 1)%nat
  else if between 0xE0 0xEF b0 then
    let ok := if b0 =? 0xE0 then between 0xA0 0xBF b1
              else if b0 =? 0xED then between 0x80 0x9F b1
              else between 0x80 0xBF b1 in
    if negb ok then (false, 1)%nat
    else if is_cont b2 then (true, 3)%nat else (false, 2)%nat
  else if between 0xF0 0xF4 b0 then
    let ok := if b0 =? 0xF0 then between 0x90 0xBF b1
              else if b0 =? 0xF4 then between 0x80 0x8F b1
              else between 0x80 0xBF b1 in
    if negb ok then (false, 1)%nat
    else if negb (is_cont b2) then (false, 2)%nat
    else if is_cont b3 then (true, 4)%nat else (false, 3)%nat
  else (false, 1)%nat.

(** U+FFFD in UTF-8 *)
Definition replacement : list Z := [0xEF; 0xBF; 0xBD].

(** Every step takes at least one byte, so the length is fuel enough. *)
Fixpoint lossy_from (fuel : nat) (l : list Z) : list Z :=
  match fuel, l with
  | S fuel, _ :: _ =>
      let '(ok, n) := utf8_char l in
      (if ok then take n l else replacement) ++ lossy_from fuel (drop n l)
  | _, _ => []
  end.
Definition from_utf8_lossy (l : list Z) : list Z := lossy_from (length l) l.

Fixpoint valid_from (fuel : nat) (l : list Z) : bool :=
  match fuel, l with
  | S fuel, _ :: _ => let '(ok, n) := utf8_char l in ok && valid_from fuel (drop n l)
  | _, _ => true
  end.
Definition from_utf8 (l : list Z) : option (list Z) :=
  if valid_from (length l) l then Some l else None.

(** * Paths *)

Definition SLASH : Z := 47.
Definition dot : list Z := [46].
Definition dotdot : list Z := [46; 46].

(** [path.split('/').filter(|s| !s.is_empty())] *)
Fixpoint split_slash (l cur : list Z) : list (list Z) :=
  match l with
  | [] => [cur]
  | c :: l => if c =? SLASH then cur :: split_slash l [] else split_slash l (cur ++ [c])
  end.
Definition segments (path : list Z) : list (list Z) :=
  filter (λ s, s ≠ []) (split_slash path []).

(** [parts.join("/")] *)
Fixpoint join_slash (parts : list (list Z)) : list Z :=
  match parts with
  | [] => []
  | [p] => p
  | p :: parts => p ++ SLASH :: join_slash parts
  end.

(** * Inodes *)

Definition S_IFDIR : Z := 0x4000.
Definition S_IFREG : Z := 0x8000.
Definition QTDIR : Z := 0x80.
Definition QTFILE : Z := 0x00.

Module Inode.
Record t := mk {
  is_dir : bool;
  data : list Z;
  children : list (list Z * Z);
  parent : Z;
  perm : Z;
  mtime : Z;
  loaded : bool;
  size : Z;
}.
#[global] Instance eta_inode : Eta t := λ n,
  mk (is_dir n) (data n) (children n) (parent n) (perm n) (mtime n) (loaded n) (size n).

(** 0o755 and 0o644 *)
Definition dir (parent : Z) : t := mk true [] [] parent 0x1ED 0 true 0.
Definition file (parent : Z) : t := mk false [] [] parent 0x1A4 0 true 0.
Definition stub_dir (parent : Z) : t := mk true [] [] parent 0x1ED 0 false 0.
Definition stub_file (parent size : Z) : t := mk false [] [] parent 0x1A4 0 false size.

Definition mode (n : t) : Z := Z.lor (perm n) (if is_dir n then S_IFDIR else S_IFREG).
Definition qid_type (n : t) : Z := if is_dir n then QTDIR else QTFILE.

Definition add_child (name : list Z) (i : Z) (n : t) : t := n <| children := children n ++ [(name, i)] |>.
End Inode.

(** [children.iter().find(|(n, _)| n == name)] and [find(|(_, i)| *i == ino)] *)
Fixpoint find_name (cs : list (list Z * Z)) (name : list Z) : option Z :=
  match cs with
  | [] => None
  | (n, i) :: cs => if bool_decide (n = name) then Some i else find_name cs name
  end.
Fixpoint find_index (cs : list (list Z * Z)) (ino : Z) : option (list Z) :=
  match cs with
  | [] => None
  | (n, i) :: cs => if i =? ino then Some n else find_index cs ino
  end.

(** * The tree *)

Module P9Fs.
Record t := mk {
  inodes : list Inode.t;
  fids : gmap Z Z;
  msize : Z;
  dirty : Z;
}.
#[global] Instance eta_fs : Eta t := λ f, mk (inodes f) (fids f) (msize f) (dirty f).

Definition new : t := mk [Inode.dir 0] ∅ 8192 0.

(** [self.inodes[i as usize]] *)
Definition inode_at (f : t) (i : Z) : option Inode.t := inodes f !! Z.to_nat i.
Definition set_inode (i : Z) (g : Inode.t → Inode.t) : M t unit :=
  n ← (f ← get id; lift (inode_at f i));
  modify (λ f, f <| inodes := <[Z.to_nat i := g n]> (inodes f) |>).

Definition alloc (node : Inode.t) : M t Z :=
  modify (λ f, f <| inodes := inodes f ++ [node] |>);;
  get (λ f, as_u32 (Z.of_nat (length (inodes f)) - 1)).

Definition child (f : t) (dir : Z) (name : list Z) : option (option Z) :=
  n ← inode_at f dir; Some (find_name (Inode.children n) name).

Fixpoint resolve_from (f : t) (segs : list (list Z)) (cur : Z) : option (option Z) :=
  match segs with
  | [] => Some (Some cur)
  | seg :: segs =>
      c ← child f cur seg;
      match c with
      | None => Some None
      | Some cur => resolve_from f segs cur
      end
  end.
Definition resolve (f : t) (path : list Z) : option (option Z) := resolve_from f (segments path) 0.

(** The parts pushed so far, already in the order of the path.  A parent has a
    smaller index than its child, so one turn per inode is enough. *)
Fixpoint path_parts (fuel : nat) (f : t) (ino : Z) (parts : list (list Z)) : option (list (list Z)) :=
  if ino =? 0 then Some parts
  else match fuel with
  | O => None
  | S fuel =>
      n ← inode_at f ino;
      let p := Inode.parent n in
      d ← inode_at f p;
      path_parts fuel f p
        (match find_index (Inode.children d) ino with Some name => name :: parts | None => parts end)
  end.
Definition path_of (f : t) (ino : Z) : option (list Z) :=
  join_slash <$> path_parts (length (inodes f)) f ino [].

(** Make the node and link it under [dir]. *)
Definition link_new (dir : Z) (name : list Z) (node : Inode.t) : M t Z :=
  n ← alloc node;
  set_inode dir (Inode.add_child name n);;
  mret n.

(** One record per turn; a slice is not longer than [isize::MAX], so the
    position does not overflow. *)
Fixpoint apply_listing (fuel : nat) (dir : Z) (l : list Z) : M t unit :=
  match fuel with
  | O => mret tt
  | S fuel =>
      if Z.of_nat (length l) <? 2 then mret tt
      else
        let nl := from_le_bytes (take 2 l) in
        let l := drop 2 l in
        if Z.of_nat (length l) <? nl + 1 + 8 then mret tt
        else match from_utf8 (take (Z.to_nat nl) l) with
        | None => mret tt
        | Some name =>
            let l := drop (Z.to_nat nl) l in
            let flags := byte_at l 0 in
            let size := from_le_bytes (take 8 (drop 1 l)) in
            let l := drop 9 l in
            f ← get id;
            known ← (if bool_decide (name = [] ∨ name = dot ∨ name = dotdot) then mret true
                     else c ← lift (child f dir name); mret (bool_decide (is_Some c)));
            (if known : bool then mret tt
             else
               link_new dir name
                 (if negb (Z.land flags 1 =? 0) then Inode.stub_dir dir else Inode.stub_file dir size);;
               mret tt);;
            apply_listing fuel dir l
        end
  end.

(** One directory of a path, made when it is missing. *)
Definition enter_dir (cur : Z) (seg : list Z) : M t Z :=
  f ← get id;
  c ← lift (child f cur seg);
  known ← lift (match c with
                | Some i => n ← inode_at f i; Some (if Inode.is_dir n then Some i else None)
                | None => Some None
                end);
  match known with
  | Some i => mret i
  | None => link_new cur seg (Inode.dir cur)
  end.

Fixpoint enter_dirs (segs : list (list Z)) (cur : Z) : M t Z :=
  match segs with
  | [] => mret cur
  | seg :: segs => cur ← enter_dir cur seg; enter_dirs segs cur
  end.

Definition put_leaf (cur : Z) (leaf data : list Z) : M t unit :=
  f ← get id;
  c ← lift (child f cur leaf);
  match c with
  | Some i =>
      n ← lift (inode_at f i);
      if Inode.is_dir n then mret tt else set_inode i (λ n, n <| Inode.data := data |>)
  | None => link_new cur leaf ((Inode.file cur) <| Inode.data := data |>);; mret tt
  end.

Definition put_file (path data : list Z) : M t unit :=
  match rev (segments path) with
  | [] => mret tt
  | leaf :: dirs => cur ← enter_dirs (rev dirs) 0; put_leaf cur leaf data
  end.

Definition mkdir_p (path : list Z) : M t unit := enter_dirs (segments path) 0;; mret tt.

(** A child has a larger index than its directory, so the depth is bounded by
    the number of inodes. *)
Fixpoint walk_files (fuel : nat) (f : t) (dir : Z) (prefix : list Z) : option (list (list Z * list Z)) :=
  match fuel with
  | O => None
  | S fuel =>
      n ← inode_at f dir;
      (λ l, concat l) <$> mapM (λ '(name, idx),
        node ← inode_at f idx;
        let path := match prefix with [] => name | _ => prefix ++ SLASH :: name end in
        if Inode.is_dir node then walk_files fuel f idx path
        else Some [(path, Inode.data node)]) (Inode.children n)
  end.
Definition list_files (f : t) : option (list (list Z * list Z)) :=
  walk_files (length (inodes f)) f 0 [].

Definition dirty_counter (f : t) : Z := dirty f.
End P9Fs.
