(* ===== verification/Virtio9p.v ===== *)
(** The virtio-9p device ([riscv-devices/src/virtio_9p.rs]): 9P2000.L over the
    virtio transport.

    One definition per message.  A handler runs over the device and the cursor
    into the message body and returns the reply, or an errno.  In lazy mode a
    handler that needs the host parks the request: [defer] sets
    [defer_pending], [handle] turns it into a held chain, and [supply] runs the
    same message again once the host has answered.  The cursor [Cur] has the
    methods of the snapshot reader over the body, and the reply builder [W] those
    of the writer. *)

From S2P Require Import Prelude Keeps State Stream Virtio P9Fs.

(** Message types *)
Definition TLERROR : Z := 6.
Definition RLERROR : Z := 7.
Definition TSTATFS : Z := 8.
Definition TLOPEN : Z := 12.
Definition TLCREATE : Z := 14.
Definition TSYMLINK : Z := 16.
Definition TMKNOD : Z := 18.
Definition TREADLINK : Z := 22.
Definition TGETATTR : Z := 24.
Definition TSETATTR : Z := 26.
Definition TXATTRWALK : Z := 30.
Definition TREADDIR : Z := 40.
Definition TFSYNC : Z := 50.
Definition TLINK : Z := 70.
Definition TMKDIR : Z := 72.
Definition TRENAMEAT : Z := 74.
Definition TUNLINKAT : Z := 76.
Definition TVERSION : Z := 100.
Definition TATTACH : Z := 104.
Definition TFLUSH : Z := 108.
Definition TWALK : Z := 110.
Definition TREAD : Z := 116.
Definition TWRITE : Z := 118.
Definition TCLUNK : Z := 120.
Definition TREMOVE : Z := 122.

Definition ENOENT : Z := 2.
Definition EBADF : Z := 9.
Definition EEXIST : Z := 17.
Definition ENOTDIR : Z := 20.
Definition EISDIR : Z := 21.
Definition EINVAL : Z := 22.
Definition ENOSYS : Z := 38.
Definition ENOTEMPTY : Z := 39.
Definition DEFER : Z := 0xFFFFFFFF.

Definition DT_DIR : Z := 4.
Definition DT_REG : Z := 8.
Definition MSIZE_MAX : Z := 128 * 1024.

(** "9P2000.L" and "unknown" *)
Definition version_l : list Z := [57; 80; 50; 48; 48; 48; 46; 76].
Definition version_unknown : list Z := [117; 110; 107; 110; 111; 119; 110].

(** [ok_or(e)?] *)
Definition ok_or {S A B} (m : M S (option A)) (e : Z) (k : A → M S (Result B Z)) : M S (Result B Z) :=
  o ← m; match o with None => mret (Err e) | Some a => k a end.
Notation "'let!' x := m 'else' e 'in' k" := (ok_or m e (λ x, k))
  (at level 10, x pattern, k at level 200).

(** [Vec::resize(len, 0)]: a length above [isize::MAX] is a capacity overflow. *)
Definition vec_resize `{Target} (l : list Z) (len : Z) : option (list Z) :=
  if 2 ^ (usize_bits - 1) <=? len then None
  else Some (take (Z.to_nat len) l ++ replicate (Z.to_nat len - length l) 0).

(** A [BTreeMap<String, u8>]: in the order of the bytes of its keys. *)
Fixpoint bytes_lt (a b : list Z) : bool :=
  match a, b with
  | _, [] => false
  | [], _ :: _ => true
  | x :: a, y :: b => (x <? y) || ((x =? y) && bytes_lt a b)
  end.
Fixpoint map_insert (k : list Z) (v : Z) (l : list (list Z * Z)) : list (list Z * Z) :=
  match l with
  | [] => [(k, v)]
  | (k', v') :: l =>
      if bool_decide (k = k') then (k, v) :: l
      else if bytes_lt k k' then (k, v) :: (k', v') :: l
      else (k', v') :: map_insert k v l
  end.

Module Cur.
Section Ops.
Context `{Profile} `{Target}.
Definition t : Type := Reader.t.
Definition new (b : list Z) : t := Reader.new b.
Definition get_slice (n : Z) : M t (option (list Z)) := Reader.take n.
Definition u8 : M t (option Z) := Reader.u8.
Definition u16 : M t (option Z) := Reader.u16.
Definition u32 : M t (option Z) := Reader.u32.
Definition u64 : M t (option Z) := Reader.u64.
Definition str : M t (option (list Z)) :=
  let? n := u16 in
  let? s := get_slice n in
  mret (Some (from_utf8_lossy s)).
End Ops.
End Cur.

Module W.
Definition t : Type := Writer.t.
Definition new : t := Writer.default.
Definition u8 : t → Z → t := Writer.u8.
Definition u16 : t → Z → t := Writer.u16.
Definition u32 : t → Z → t := Writer.u32.
Definition u64 : t → Z → t := Writer.u64.
Definition raw : t → list Z → t := Writer.push.
Definition str (w : t) (s : list Z) : t := raw (u16 w (as_u16 (Z.of_nat (length s)))) s.
Definition qid (w : t) (ty path : Z) : t := u64 (u32 (u8 w ty) 0) path.
Definition bytes : t → list Z := Writer.buf.
End W.

(** Prepend the header: size, type, tag. *)
Definition frame (ty tag : Z) (body : list Z) : list Z :=
  to_le_bytes 4 (as_u32 (7 + Z.of_nat (length body))) ++ [ty] ++ to_le_bytes 2 tag ++ body.

Module FileChange.
Record t := mk { op : Z; path : list Z; data : list Z }.
End FileChange.

Module Held.
Record t := mk { id : Z; head : Z; writable : list Buf.t; msg : list Z; kind : Z; target : Z }.
End Held.

Module Virtio9p.
(** [defer_pending]: (kind, path, off, len, target) *)
Record t := mk {
  fs : P9Fs.t;
  tag : list Z;
  lazy : bool;
  defer_pending : option (Z * list Z * Z * Z * Z);
  held : list Held.t;
  host_reqs : list HostReq.t;
  deferred : bool;
  next_id : Z;
  dirty_changes : list (list Z * Z);
}.
#[global] Instance eta_p9 : Eta t := λ d,
  mk (fs d) (tag d) (lazy d) (defer_pending d) (held d) (host_reqs d) (deferred d) (next_id d)
     (dirty_changes d).

Definition new (name : list Z) : t := mk P9Fs.new name false None [] [] false 1 [].

Definition unlist_root (f : P9Fs.t) : P9Fs.t :=
  f <| P9Fs.inodes := alter (λ n, n <| Inode.loaded := false |>) 0%nat (P9Fs.inodes f) |>.
Definition new_lazy (name : list Z) : t := (new name) <| lazy := true |> <| fs := unlist_root P9Fs.new |>.

Section Ops.
Context `{Profile} `{Target}.

Definition set_fs (f : P9Fs.t) (d : t) : t := d <| fs := f |>.
Definition on_fs {A} (m : M P9Fs.t A) : M t A := zoom fs set_fs m.

Definition mark (path : list Z) (op : Z) (d : t) : t :=
  if lazy d && negb (bool_decide (path = [])) then
    d <| dirty_changes := map_insert path op (dirty_changes d) |>
  else d.

(** ** Messages *)

Abbreviation HM := (M (t * Cur.t)).
Definition self_get {A} (f : t → A) : HM A := on_fst (get f).
Definition self_upd (f : t → t) : HM unit := on_fst (modify f).
Definition self_fs {A} (m : M P9Fs.t A) : HM A := on_fst (on_fs m).
Definition arg {A} (m : M Cur.t A) : HM A := on_snd m.
Definition reply : Type := Z * W.t.
Definition ok (ty : Z) (w : W.t) : HM (Result reply Z) := mret (Ok (ty + 1, w)).
Definition fail {A} (e : Z) : HM (Result A Z) := mret (Err e).

Definition fid_inode (fid : Z) : HM (option Z) := self_get (λ d, P9Fs.fids (fs d) !! fid).
Definition bind_fid (fid ino : Z) (f : P9Fs.t) : P9Fs.t :=
  f <| P9Fs.fids := <[fid := ino]> (P9Fs.fids f) |>.
Definition drop_fid (fid : Z) (f : P9Fs.t) : P9Fs.t :=
  f <| P9Fs.fids := delete fid (P9Fs.fids f) |>.
Definition node_of (i : Z) : HM Inode.t := f ← self_get fs; lift (P9Fs.inode_at f i).
Definition child_of (dir : Z) (name : list Z) : HM (option Z) :=
  f ← self_get fs; lift (P9Fs.child f dir name).

(** [self.fs.dirty += 1] *)
Definition bump_dirty : HM unit :=
  n ← self_get (λ d, P9Fs.dirty (fs d)); n' ← lift (add_u 64 n 1);
  self_fs (modify (λ f, f <| P9Fs.dirty := n' |>)).
(** [let p = self.fs.path_of(ino); self.mark(p, op)] *)
Definition mark_inode (ino op : Z) : HM unit :=
  f ← self_get fs; p ← lift (P9Fs.path_of f ino); self_upd (mark p op).

Definition defer {A} (kind target off len : Z) : HM (Result A Z) :=
  f ← self_get fs; path ← lift (P9Fs.path_of f target);
  self_upd (λ d, d <| defer_pending := Some (kind, path, off, len, target) |>);;
  fail DEFER.

Definition t_version : HM (Result reply Z) :=
  let! msize := arg Cur.u32 else EINVAL in
  let! version := arg Cur.str else EINVAL in
  let msize := Z.min msize MSIZE_MAX in
  self_fs (modify (λ f, f <| P9Fs.msize := msize |> <| P9Fs.fids := ∅ |>));;
  let w := W.u32 W.new msize in
  ok TVERSION (W.str w (if bool_decide (version = version_l) then version_l else version_unknown)).

Definition t_attach : HM (Result reply Z) :=
  let! fid := arg Cur.u32 else EINVAL in
  _ ← arg Cur.u32; _ ← arg Cur.str; _ ← arg Cur.str; _ ← arg Cur.u32;
  self_fs (modify (bind_fid fid 0));;
  n ← node_of 0;
  ok TATTACH (W.qid W.new (Inode.qid_type n) 0).

(** One name of a walk: the directory it leads to, or [None] to stop there. *)
Definition walk_name (cur : Z) (name : list Z) : HM (Result (option Z) Z) :=
  if bool_decide (name = dotdot) then n ← node_of cur; mret (Ok (Some (Inode.parent n)))
  else if bool_decide (name = dot) then mret (Ok (Some cur))
  else
    n ← node_of cur; lz ← self_get lazy;
    if lz && Inode.is_dir n && negb (Inode.loaded n) then defer 1 cur 0 0
    else c ← child_of cur name; mret (Ok c).

Fixpoint walk_names (n : nat) (cur : Z) (qids : list (Z * Z)) : HM (Result (Z * list (Z * Z)) Z) :=
  match n with
  | O => mret (Ok (cur, qids))
  | S n =>
      let! name := arg Cur.str else EINVAL in
      r ← walk_name cur name;
      match r with
      | Err e => fail e
      | Ok None => mret (Ok (cur, qids))
      | Ok (Some cur) =>
          node ← node_of cur;
          walk_names n cur (qids ++ [(Inode.qid_type node, cur)])
      end
  end.

Definition t_walk : HM (Result reply Z) :=
  let! fid := arg Cur.u32 else EINVAL in
  let! newfid := arg Cur.u32 else EINVAL in
  let! nwname := arg Cur.u16 else EINVAL in
  let! start := fid_inode fid else EBADF in
  r ← walk_names (Z.to_nat nwname) start [];
  match r with
  | Err e => fail e
  | Ok (cur, qids) =>
      let n := Z.of_nat (length qids) in
      let w := foldl (λ w '(ty, p), W.qid w ty p) (W.u16 W.new (as_u16 n)) qids in
      if n =? nwname then self_fs (modify (bind_fid newfid cur));; ok TWALK w
      else if n =? 0 then fail ENOENT
      else ok TWALK w
  end.

Definition t_getattr : HM (Result reply Z) :=
  let! fid := arg Cur.u32 else EINVAL in
  _ ← arg Cur.u64;
  let! ino := fid_inode fid else EBADF in
  n ← node_of ino;
  let size := if Inode.loaded n || Inode.is_dir n then Z.of_nat (length (Inode.data n))
              else Inode.size n in
  let w := W.qid (W.u64 W.new 0x000007ff) (Inode.qid_type n) ino in
  let w := W.u32 (W.u32 (W.u32 w (Inode.mode n)) 0) 0 in
  let w := W.u64 (W.u64 w (if Inode.is_dir n then 2 else 1)) 0 in
  let w := W.u64 (W.u64 (W.u64 w size) 4096) ((size + 511) / 512) in
  let w := W.u64 (W.u64 w (Inode.mtime n)) 0 in
  let w := W.u64 (W.u64 w (Inode.mtime n)) 0 in
  let w := W.u64 (W.u64 w (Inode.mtime n)) 0 in
  ok TGETATTR (W.u64 (W.u64 (W.u64 (W.u64 w 0) 0) 0) 0).

Definition t_lopen : HM (Result reply Z) :=
  let! fid := arg Cur.u32 else EINVAL in
  _ ← arg Cur.u32;
  let! ino := fid_inode fid else EBADF in
  n ← node_of ino;
  ok TLOPEN (W.u32 (W.qid W.new (Inode.qid_type n) ino) 0).

(** The directory of a new entry and the checks before it is made. *)
Definition fresh_entry (dfid : Z) (name : list Z) : HM (Result Z Z) :=
  let! dir := fid_inode dfid else EBADF in
  d ← node_of dir;
  if negb (Inode.is_dir d) then fail ENOTDIR
  else
    c ← child_of dir name;
    match c with Some _ => fail EEXIST | None => mret (Ok dir) end.

Definition t_lcreate : HM (Result reply Z) :=
  let! dfid := arg Cur.u32 else EINVAL in
  let! name := arg Cur.str else EINVAL in
  _ ← arg Cur.u32;
  let! mode := arg Cur.u32 else EINVAL in
  _ ← arg Cur.u32;
  r ← fresh_entry dfid name;
  match r with
  | Err e => fail e
  | Ok dir =>
      n ← self_fs (P9Fs.link_new dir name ((Inode.file dir) <| Inode.perm := Z.land mode 0x1FF |>));
      self_fs (modify (bind_fid dfid n));;
      bump_dirty;; mark_inode n 0;;
      ok TLCREATE (W.u32 (W.qid W.new QTFILE n) 0)
  end.

Definition t_mkdir : HM (Result reply Z) :=
  let! dfid := arg Cur.u32 else EINVAL in
  let! name := arg Cur.str else EINVAL in
  _ ← arg Cur.u32; _ ← arg Cur.u32;
  r ← fresh_entry dfid name;
  match r with
  | Err e => fail e
  | Ok dir =>
      n ← self_fs (P9Fs.link_new dir name (Inode.dir dir));
      bump_dirty;; mark_inode n 2;;
      ok TMKDIR (W.qid W.new QTDIR n)
  end.

(** The bytes of [data] that a read of [count] at [offset] returns. *)
Definition read_slice (data : list Z) (offset count : Z) : list Z :=
  let len := Z.of_nat (length data) in
  let e := Z.min (Z.min (offset + count) (2 ^ usize_bits - 1)) len in
  if offset <? len then take (Z.to_nat (e - offset)) (drop (Z.to_nat offset) data) else [].

Definition t_read : HM (Result reply Z) :=
  let! fid := arg Cur.u32 else EINVAL in
  let! offset := arg Cur.u64 else EINVAL in
  let offset := as_usize offset in
  let! count := arg Cur.u32 else EINVAL in
  let! ino := fid_inode fid else EBADF in
  n ← node_of ino; lz ← self_get lazy;
  if Inode.is_dir n then fail EISDIR
  else if lz && negb (Inode.loaded n) then defer 0 ino offset count
  else
    let s := read_slice (Inode.data n) offset count in
    ok TREAD (W.raw (W.u32 W.new (as_u32 (Z.of_nat (length s)))) s).

(** [data.resize(end, 0)] when it is shorter, then the copy. *)
Definition write_slice (data : list Z) (offset : Z) (src : list Z) : option (list Z) :=
  e ← add_u usize_bits offset (Z.of_nat (length src));
  data ← (if Z.of_nat (length data) <? e then vec_resize data e else Some data);
  _ ← slice_get data offset e;
  Some (splice data offset src).

Definition t_write : HM (Result reply Z) :=
  let! fid := arg Cur.u32 else EINVAL in
  let! offset := arg Cur.u64 else EINVAL in
  let offset := as_usize offset in
  let! count := arg Cur.u32 else EINVAL in
  let! data := arg (c ← get id; e ← lift (add_u usize_bits (Reader.pos c) count);
                    mret (slice_get (Reader.buf c) (Reader.pos c) e)) else EINVAL in
  let! ino := fid_inode fid else EBADF in
  n ← node_of ino;
  if Inode.is_dir n then fail EISDIR
  else
    new ← lift (write_slice (Inode.data n) offset data);
    self_fs (P9Fs.set_inode ino (λ n,
      n <| Inode.data := new |> <| Inode.loaded := true |> <| Inode.size := Z.of_nat (length new) |>));;
    bump_dirty;; mark_inode ino 0;;
    ok TWRITE (W.u32 W.new count).

(** "." and "..", then the children *)
Definition dir_entries (f : P9Fs.t) (ino : Z) (n : Inode.t) : option (list (list Z * Z * Z)) :=
  cs ← mapM (λ '(name, idx),
         c ← P9Fs.inode_at f idx; Some (name, idx, if Inode.is_dir c then DT_DIR else DT_REG))
       (Inode.children n);
  Some ((dot, ino, DT_DIR) :: (dotdot, Inode.parent n, DT_DIR) :: cs).

Definition dirent (qt idx cookie dt : Z) (name : list Z) : list Z :=
  [qt] ++ to_le_bytes 4 0 ++ to_le_bytes 8 idx ++ to_le_bytes 8 cookie ++ [dt]
  ++ to_le_bytes 2 (as_u16 (Z.of_nat (length name))) ++ name.

(** Entries [i + 1], [i + 2], .. until one does not fit. *)
Fixpoint emit_entries (f : P9Fs.t) (es : list (list Z * Z * Z)) (i offset count : Z) (data : list Z)
  : option (list Z) :=
  match es with
  | [] => Some data
  | (name, idx, dt) :: es =>
      let cookie := i + 1 in
      if cookie <=? offset then emit_entries f es (i + 1) offset count data
      else
        let entry_len := 13 + 8 + 1 + 2 + Z.of_nat (length name) in
        if count <? Z.of_nat (length data) + entry_len then Some data
        else
          c ← P9Fs.inode_at f idx;
          emit_entries f es (i + 1) offset count
            (data ++ dirent (Inode.qid_type c) idx cookie dt name)
  end.

Definition t_readdir : HM (Result reply Z) :=
  let! fid := arg Cur.u32 else EINVAL in
  let! offset := arg Cur.u64 else EINVAL in
  let! count := arg Cur.u32 else EINVAL in
  let! ino := fid_inode fid else EBADF in
  n ← node_of ino; lz ← self_get lazy;
  if negb (Inode.is_dir n) then fail ENOTDIR
  else if lz && negb (Inode.loaded n) then defer 1 ino 0 0
  else
    f ← self_get fs;
    es ← lift (dir_entries f ino n);
    data ← lift (emit_entries f es 0 offset count []);
    ok TREADDIR (W.raw (W.u32 W.new (as_u32 (Z.of_nat (length data)))) data).

Definition t_setattr : HM (Result reply Z) :=
  let! fid := arg Cur.u32 else EINVAL in
  let! valid := arg Cur.u32 else EINVAL in
  let! mode := arg Cur.u32 else EINVAL in
  _ ← arg Cur.u32; _ ← arg Cur.u32;
  let! size := arg Cur.u64 else EINVAL in
  let! ino := fid_inode fid else EBADF in
  _ ← node_of ino;
  (if negb (Z.land valid 1 =? 0)
   then self_fs (P9Fs.set_inode ino (λ n, n <| Inode.perm := Z.land mode 0x1FF |>)) else mret tt);;
  (if negb (Z.land valid 8 =? 0) then
     n ← node_of ino;
     new ← lift (vec_resize (Inode.data n) (as_usize size));
     self_fs (P9Fs.set_inode ino (λ n, n <| Inode.data := new |> <| Inode.size := size |>));;
     bump_dirty;; mark_inode ino 0
   else mret tt);;
  ok TSETATTR W.new.

Definition t_clunk : HM (Result reply Z) :=
  let! fid := arg Cur.u32 else EINVAL in
  self_fs (modify (drop_fid fid));; ok TCLUNK W.new.

Definition unlink_child (dir target : Z) : HM (Result unit Z) :=
  n ← node_of target;
  if Inode.is_dir n && negb (bool_decide (Inode.children n = [])) then fail ENOTEMPTY
  else
    self_fs (P9Fs.set_inode dir (λ n,
      n <| Inode.children := filter (λ c, c.2 ≠ target) (Inode.children n) |>));;
    mret (Ok tt).

(** What is unlinked, and from where. *)
Definition unlink (dir target : Z) (after : P9Fs.t → P9Fs.t) (ty : Z) : HM (Result reply Z) :=
  f ← self_get fs; path ← lift (P9Fs.path_of f target);
  r ← unlink_child dir target;
  match r with
  | Err e => fail e
  | Ok _ =>
      self_fs (modify after);;
      self_upd (mark path 1);;
      bump_dirty;;
      ok ty W.new
  end.

Definition t_remove : HM (Result reply Z) :=
  let! fid := arg Cur.u32 else EINVAL in
  let! ino := fid_inode fid else EBADF in
  n ← node_of ino;
  unlink (Inode.parent n) ino (drop_fid fid) TREMOVE.

Definition t_unlinkat : HM (Result reply Z) :=
  let! dfid := arg Cur.u32 else EINVAL in
  let! name := arg Cur.str else EINVAL in
  _ ← arg Cur.u32;
  let! dir := fid_inode dfid else EBADF in
  let! target := child_of dir name else ENOENT in
  unlink dir target id TUNLINKAT.

Definition t_statfs : HM (Result reply Z) :=
  let! _ := arg Cur.u32 else EINVAL in
  files ← self_get (λ d, Z.of_nat (length (P9Fs.inodes (fs d))));
  let w := W.u32 (W.u32 W.new 0x01876967) 4096 in
  let w := W.u64 (W.u64 (W.u64 w (2 ^ 20)) (2 ^ 19)) (2 ^ 19) in
  ok TSTATFS (W.u32 (W.u64 (W.u64 (W.u64 w files) (2 ^ 20)) 0) 255).

Definition t_xattrwalk : HM (Result reply Z) :=
  _ ← arg Cur.u32; _ ← arg Cur.u32; _ ← arg Cur.str;
  ok TXATTRWALK (W.u64 W.new 0).

Definition handle_msg (ty : Z) : HM (Result reply Z) :=
  if ty =? TVERSION then t_version
  else if ty =? TATTACH then t_attach
  else if ty =? TWALK then t_walk
  else if ty =? TGETATTR then t_getattr
  else if ty =? TLOPEN then t_lopen
  else if ty =? TLCREATE then t_lcreate
  else if ty =? TMKDIR then t_mkdir
  else if ty =? TREAD then t_read
  else if ty =? TWRITE then t_write
  else if ty =? TREADDIR then t_readdir
  else if ty =? TSETATTR then t_setattr
  else if ty =? TCLUNK then t_clunk
  else if ty =? TREMOVE then t_remove
  else if ty =? TUNLINKAT then t_unlinkat
  else if ty =? TSTATFS then t_statfs
  else if ty =? TFSYNC then ok TFSYNC W.new
  else if ty =? TFLUSH then ok TFLUSH W.new
  else if ty =? TXATTRWALK then t_xattrwalk
  else fail ENOSYS.

(** ** The device *)

Definition dispatch (msg : list Z) : M t (list Z) := λ d,
  if Z.of_nat (length msg) <? 7 then Some ([], d)
  else
    let ty := byte_at msg 4 in
    let tag := from_le_bytes (take 2 (drop 5 msg)) in
    match handle_msg ty (d, Cur.new (drop 7 msg)) with
    | None => None
    | Some (r, (d, _)) =>
        match defer_pending d, r with
        | Some _, _ => Some ([], d)
        | None, Ok (rtype, body) => Some (frame rtype tag (W.bytes body), d)
        | None, Err errno => Some (frame RLERROR tag (W.bytes (W.u32 W.new errno)), d)
        end
    end.

(** Park the pending request on the chain of [head]: the new request id goes to
    the host. *)
Definition park (pending : Z * list Z * Z * Z * Z) (head : Z) (writable : list Buf.t)
    (msg : list Z) (d : t) : t :=
  let '(kind, path, off, len, target) := pending in
  let id := next_id d in
  d <| defer_pending := None |>
    <| next_id := as_u32 (id + 1) |>
    <| host_reqs := host_reqs d ++ [HostReq.mk id kind path off len] |>
    <| held := held d ++ [Held.mk id head writable msg kind target] |>.

Abbreviation PM := (M (t * GuestMem.t)).

(** The reply goes into the writable buffers, as far as they reach. *)
Definition send_reply (writable : list Buf.t) (r : list Z) : PM Z :=
  cap ← lift (sg_len writable);
  let n := Z.min (Z.of_nat (length r)) cap in
  on_snd (sg_write writable 0 (take (Z.to_nat n) r) 0);;
  mret (as_u32 n).

Definition p9_handle (queue : Z) (chain : Chain.t) : PM Z :=
  req_len ← lift (sg_len (Chain.readable chain));
  if req_len <? 7 then mret 0
  else
    m ← on_snd (get id);
    '(msg, _) ← lift (sg_read m (Chain.readable chain) 0 (replicate (Z.to_nat req_len) 0) 0);
    on_fst (modify (λ d, d <| defer_pending := None |>));;
    r ← on_fst (dispatch msg);
    pending ← on_fst (get defer_pending);
    match pending with
    | Some p =>
        on_fst (modify (λ d,
          (park p (Chain.head chain) (Chain.writable chain) msg d) <| deferred := true |>));;
        mret 0
    | None => send_reply (Chain.writable chain) r
    end.

Definition take_deferred : M t bool :=
  b ← get deferred; modify (λ d, d <| deferred := false |>);; mret b.
Definition take_reqs : M t (list HostReq.t) :=
  l ← get host_reqs; modify (λ d, d <| host_reqs := [] |>);; mret l.

(** Take the held request [id] out. *)
Fixpoint take_held (id : Z) (hs : list Held.t) : option (Held.t * list Held.t) :=
  match hs with
  | [] => None
  | h :: hs =>
      if Held.id h =? id then Some (h, hs)
      else '(x, hs) ← take_held id hs; Some (x, h :: hs)
  end.

Definition fill_in (h : Held.t) (payload : list Z) : M P9Fs.t unit :=
  if Held.kind h =? 0 then
    P9Fs.set_inode (Held.target h) (λ n,
      n <| Inode.data := payload |> <| Inode.size := Z.of_nat (length payload) |>
        <| Inode.loaded := true |>)
  else if Held.kind h =? 1 then
    P9Fs.apply_listing (length payload) (Held.target h) payload;;
    P9Fs.set_inode (Held.target h) (λ n, n <| Inode.loaded := true |>)
  else mret tt.

Definition p9_supply (id : Z) (payload : list Z) : PM (option (Z * Z * Z)) :=
  hs ← on_fst (get held);
  match take_held id hs with
  | None => mret None
  | Some (h, hs) =>
      on_fst (modify (λ d, d <| held := hs |>));;
      on_fst (on_fs (fill_in h payload));;
      on_fst (modify (λ d, d <| defer_pending := None |>));;
      r ← on_fst (dispatch (Held.msg h));
      pending ← on_fst (get defer_pending);
      match pending with
      | Some p =>
          on_fst (modify (park p (Held.head h) (Held.writable h) (Held.msg h)));; mret None
      | None => n ← send_reply (Held.writable h) r; mret (Some (0, Held.head h, n))
      end
  end.

(** Config space: the length of the tag, then the tag. *)
Definition config (d : t) (off : Z) : Z :=
  let len := Z.of_nat (length (tag d)) in
  if off =? 0 then as_u8 len
  else if off =? 1 then as_u8 (Z.shiftr len 8)
  else from_option (λ x, x) 0 (vec_get (tag d) (off - 2)).

(** ** The host's side *)

Definition p9_put (path data : list Z) : M t bool := on_fs (P9Fs.put_file path data);; mret true.
Definition p9_mkdir (path : list Z) : M t unit := on_fs (P9Fs.mkdir_p path).
Definition p9_list (d : t) : option (list (list Z * list Z)) := P9Fs.list_files (fs d).
Definition p9_dirty (d : t) : Z := P9Fs.dirty_counter (fs d).

Definition p9_set_lazy (d : t) : t :=
  d <| lazy := true |> <| fs := unlist_root P9Fs.new |> <| held := [] |> <| host_reqs := [] |>
    <| defer_pending := None |> <| deferred := false |> <| next_id := 1 |> <| dirty_changes := [] |>.

(** The change as the host is told it; a file that is gone is left out. *)
Definition change_of (f : P9Fs.t) (c : list Z * Z) : option (list FileChange.t) :=
  let '(path, op) := c in
  if op =? 0 then
    r ← P9Fs.resolve f path;
    match r with
    | None => Some []
    | Some ino =>
        n ← P9Fs.inode_at f ino;
        Some (if Inode.is_dir n then [] else [FileChange.mk op path (Inode.data n)])
    end
  else Some [FileChange.mk op path []].

Definition p9_take_changes : M t (list FileChange.t) :=
  d ← get id;
  modify (λ d, d <| dirty_changes := [] |>);;
  l ← lift (mapM (change_of (fs d)) (dirty_changes d));
  mret (concat l).

#[global] Instance device : VirtioDevice t := {
  device_id _ := 9;
  features _ := Z.lor VIRTIO_F_VERSION_1 1;
  num_queues _ := 1;
  config_read := config;
  config_write _ _ := mret tt;
  handle := p9_handle;
  deferred_this := take_deferred;
  take_host_reqs := take_reqs;
  supply := p9_supply;
  dev_poll := mret false;
  dev_state d := Some (tag d);
  load_dev_state _ := mret (Some tt);
  rx_queue _ := None;
  has_rx := mret false;
  fill_rx _ := mret 0;
}.
End Ops.
End Virtio9p.
