(* ===== verification/P9Safe.v ===== *)
(** The invariant of the 9p file server, and that no message breaks it.

    [tree_wf]: every index that the tree or a fid holds is one of an inode, and
    a parent comes before its children, so every walk up ends.  [p9_inv] adds
    that all contents and names are bytes, which is what the transport needs.
    Both are carried through the handlers together: with [B] the structure too,
    without it only the bytes. *)

From S2P Require Import Prelude Keeps State Stream Virtio VirtioSg VirtioQueue VirtioSafe P9Fs Virtio9p.
Import P9Fs Virtio9p.

(** * The tree *)

Definition node_bytes (n : Inode.t) : Prop :=
  Forall is_byte (Inode.data n) ∧ Forall (λ c, Forall is_byte c.1) (Inode.children n).

Record tree_wf (f : P9Fs.t) : Prop := {
  tw_root : ∃ n, inodes f !! 0%nat = Some n ∧ Inode.is_dir n = true ∧ Inode.parent n = 0;
  tw_parent i n : inodes f !! i = Some n → i ≠ 0%nat → 0 <= Inode.parent n < Z.of_nat i;
  tw_child i n name c : inodes f !! i = Some n → (name, c) ∈ Inode.children n →
    Z.of_nat i < c ∧ ∃ m, inodes f !! Z.to_nat c = Some m ∧ Inode.parent m = Z.of_nat i;
  tw_once i n : inodes f !! i = Some n → NoDup (Inode.children n).*2;
  tw_fid fid ino : fids f !! fid = Some ino → 0 <= ino < Z.of_nat (length (inodes f));
}.

Lemma inode_at_valid f i : 0 <= i < Z.of_nat (length (inodes f)) → is_Some (inode_at f i).
Proof. intros. apply lookup_lt_is_Some. lia. Qed.

Lemma find_name_elem cs name i : find_name cs name = Some i → (name, i) ∈ cs.
Proof.
  induction cs as [|[n j] cs IH]; [done|]. cbn. case_bool_decide; [|set_solver].
  intros [= <-]. subst. set_solver.
Qed.

Lemma find_index_elem cs name i : find_index cs i = Some name → (name, i) ∈ cs.
Proof.
  induction cs as [|[n j] cs IH]; [done|]. cbn. destruct (Z.eqb_spec j i) as [->|]; [|set_solver].
  intros [= <-]. set_solver.
Qed.

Lemma path_parts_total f : tree_wf f → ∀ fuel ino parts,
  0 <= ino < Z.of_nat (length (inodes f)) → ino <= Z.of_nat fuel → is_Some (path_parts fuel f ino parts).
Proof.
  intros Hf. induction fuel as [|fuel IH]; intros ino parts Hi Hfu; cbn [path_parts].
  - replace ino with 0 by lia. done.
  - destruct (Z.eqb_spec ino 0) as [|Hne]; [done|]. destruct (inode_at_valid f ino Hi) as [n En]. rewrite En.
    cbn [mbind option_bind]. pose proof (tw_parent _ Hf _ _ En ltac:(lia)) as Hp.
    destruct (inode_at_valid f (Inode.parent n) ltac:(lia)) as [p Ep]. rewrite Ep. cbn [mbind option_bind].
    apply IH; lia.
Qed.

Lemma path_of_total f ino :
  tree_wf f → 0 <= ino < Z.of_nat (length (inodes f)) → is_Some (path_of f ino).
Proof. intros Hf Hi. unfold path_of. apply fmap_is_Some. apply path_parts_total; [done|done|lia]. Qed.

(** * Strings are bytes *)

Lemma all_bytes l : forallb (λ x, (0 <=? x) && (x <? 256)) l = true → Forall is_byte l.
Proof.
  rewrite forallb_forall. intros Hl. apply Forall_forall. intros x Hx%list_elem_of_In%Hl.
  unfold is_byte, urange. lia.
Qed.

Lemma byte_at_byte l i : Forall is_byte l → is_byte (byte_at l i).
Proof.
  intros Hl. unfold byte_at. destruct (nth_in_or_default i l 0) as [Hi| ->]; [|by unfold is_byte, urange].
  rewrite Forall_forall in Hl. apply Hl. by apply list_elem_of_In.
Qed.

Lemma lossy_bytes l : Forall is_byte l → Forall is_byte (from_utf8_lossy l).
Proof.
  unfold from_utf8_lossy. generalize (length l) as fuel. intros fuel. revert l.
  induction fuel as [|fuel IH]; intros [|b l] Hl; try apply Forall_nil_2. cbn [lossy_from].
  destruct (utf8_char (b :: l)) as [ok n]. apply Forall_app_2.
  - destruct ok; [by apply Forall_take|]. by repeat constructor.
  - by apply IH, Forall_drop.
Qed.

Lemma byte_list_le n x : Forall is_byte (to_le_bytes n x).
Proof. apply to_le_bytes_bytes. Qed.
#[local] Hint Resolve byte_list_le : core.

(** * The invariant through a message *)

Definition cinv (c : Cur.t) : Prop := Forall is_byte (Reader.buf c).

Section Inv.
Context {PR : Profile} {T : Target} {Ht : TargetOk T}.
Context (B : bool) (P : Prop) (HB : B = false → P) (HP : overflow_checks = true → P).

(** The tree has [L] inodes. *)
Definition finv (L : nat) (f : P9Fs.t) : Prop :=
  Forall node_bytes (inodes f) ∧ (B = true → tree_wf f ∧ length (inodes f) = L).

Definition valid (L : nat) (i : Z) : Prop := B = true → 0 <= i < Z.of_nat L.

Record dinv (L : nat) (d : Virtio9p.t) : Prop := {
  di_fs : finv L (fs d);
  di_tag : Forall is_byte (tag d);
  di_pending : match defer_pending d with Some (_, _, _, _, target) => valid L target | None => True end;
  di_held : Forall (λ h, valid L (Held.target h) ∧ Forall is_byte (Held.msg h) ∧ urange 16 (Held.head h)) (held d);
}.

Definition hinv (L : nat) (s : Virtio9p.t * Cur.t) : Prop := dinv L s.1 ∧ cinv s.2.

Lemma panics {A} (o : option A) : (B = true → is_Some o) → match o with Some _ => True | None => P end.
Proof using HB.
  intros Ho. destruct o; [done|]. destruct (bool_dec B true) as [E|E]; [by destruct (Ho E)|].
  apply HB. by destruct B.
Qed.

Context (L : nat).
Abbreviation fkeeps := (keeps P (finv L)).
Abbreviation hkeeps := (keeps P (hinv L)).

(** ** Reading the tree *)

Lemma finv_node f i n : finv L f → inode_at f i = Some n → node_bytes n.
Proof. intros [Hb _] E. by eapply Forall_lookup_1. Qed.

Lemma node_some f i : finv L f → valid L i → match inode_at f i with Some n => node_bytes n | None => P end.
Proof using HB.
  intros Hf Hi. pose proof (panics (inode_at f i)) as Hp.
  destruct (inode_at f i) as [n|] eqn:E; [by eapply finv_node|]. apply Hp. intros HB1.
  destruct Hf as [_ Hf]. destruct (Hf HB1) as [_ Hl]. rewrite <- E.
  apply inode_at_valid. rewrite Hl. by apply Hi.
Qed.

Lemma child_some f dir name : finv L f → valid L dir →
  match P9Fs.child f dir name with Some (Some c) => valid L c | Some None => True | None => P end.
Proof using HB.
  intros Hf Hd. unfold P9Fs.child. pose proof (node_some f dir Hf Hd) as Hn.
  destruct (inode_at f dir) as [n|] eqn:E; [|done]. cbn [mbind option_bind].
  destruct (find_name _ _) as [c|] eqn:Hc; [|done]. intros HB1.
  destruct (proj2 Hf HB1) as [Hw Hl]. apply find_name_elem in Hc.
  destruct (tw_child _ Hw _ _ _ _ E Hc) as (Hlt & m & Hm & _). apply lookup_lt_Some in Hm. lia.
Qed.

Lemma path_some f i : finv L f → valid L i → match path_of f i with Some _ => True | None => P end.
Proof using HB.
  intros Hf Hi. apply panics. intros HB1. destruct (proj2 Hf HB1) as [Hw Hl].
  apply path_of_total; [done|]. rewrite Hl. auto.
Qed.

(** ** Writing it *)

(** An update of a node that keeps its bytes, its place in the tree and does not
    add children keeps the invariant. *)
Definition tame (g : Inode.t → Inode.t) : Prop := ∀ n, node_bytes n →
  node_bytes (g n) ∧ Inode.parent (g n) = Inode.parent n ∧ Inode.is_dir (g n) = Inode.is_dir n
  ∧ (∀ c, c ∈ Inode.children (g n) → c ∈ Inode.children n)
  ∧ (NoDup (Inode.children n).*2 → NoDup (Inode.children (g n)).*2).

Lemma tree_tame f k n g :
  tree_wf f → inodes f !! k = Some n → Inode.parent (g n) = Inode.parent n →
  Inode.is_dir (g n) = Inode.is_dir n → (∀ c, c ∈ Inode.children (g n) → c ∈ Inode.children n) →
  (NoDup (Inode.children n).*2 → NoDup (Inode.children (g n)).*2) →
  tree_wf (f <| inodes := <[k := g n]> (inodes f) |>).
Proof.
  intros [H1 H2 H3 Ho H4] En Hp Hd Hc Hn.
  assert (Hl : ∀ i m, <[k := g n]> (inodes f) !! i = Some m → ∃ m', inodes f !! i = Some m'
    ∧ Inode.parent m = Inode.parent m' ∧ Inode.is_dir m = Inode.is_dir m'
    ∧ (∀ c, c ∈ Inode.children m → c ∈ Inode.children m')).
  { intros i m Hm. apply list_lookup_insert_Some in Hm as [(-> & <- & _)|[_ Hm]]; [by exists n|by exists m]. }
  assert (Hr : ∀ i m, inodes f !! i = Some m → ∃ m', <[k := g n]> (inodes f) !! i = Some m'
    ∧ Inode.parent m' = Inode.parent m ∧ Inode.is_dir m' = Inode.is_dir m).
  { intros i m Hm. destruct (decide (i = k)) as [->|Hne].
    - rewrite list_lookup_insert_eq by (by eapply lookup_lt_Some). rewrite En in Hm. injection Hm as <-. eauto.
    - rewrite list_lookup_insert_ne by done. eauto. }
  constructor; cbn.
  - destruct H1 as (m & Hm & Hmd & Hmp). destruct (Hr _ _ Hm) as (m' & -> & E1 & E2).
    exists m'. split_and!; congruence.
  - intros i m Hm Hi. destruct (Hl _ _ Hm) as (m' & Hm' & -> & _). by eapply H2.
  - intros i m name c Hm Hin. destruct (Hl _ _ Hm) as (m' & Hm' & _ & _ & Hsub).
    destruct (H3 i m' name c Hm' (Hsub _ Hin)) as (Hlt & q & Hq & Hqp).
    split; [done|]. destruct (Hr _ _ Hq) as (q' & -> & E1 & _). exists q'. split; [done|congruence].
  - intros i m [(<- & <- & _)|[_ Hm]]%list_lookup_insert_Some; [by apply Hn, (Ho k)|by apply (Ho i)].
  - intros fid ino. rewrite length_insert. apply H4.
Qed.

Lemma set_inode_keeps i g : valid L i → tame g → fkeeps (set_inode i g) (λ _, True).
Proof using HB.
  intros Hi Hg f Hf. apply wp_bind. unfold set_inode. apply wp_bind, wp_get, wp_lift. cbn [id].
  pose proof (node_some f i Hf Hi) as Hn. destruct (inode_at f i) as [n|] eqn:En; [|done].
  apply wp_modify. split; [done|]. destruct (Hg n Hn) as (Hb & Hp & Hd & Hc & Ho). split; cbn.
  - apply Forall_insert; [apply Hf|done].
  - intros HB1. destruct (proj2 Hf HB1) as [Hw Hl]. split; [by apply tree_tame|by rewrite length_insert].
Qed.

Lemma fids_keeps g : (∀ f, finv L f → inodes (g f) = inodes f ∧
    (B = true → ∀ fid ino, fids (g f) !! fid = Some ino → 0 <= ino < Z.of_nat L)) →
  fkeeps (modify g) (λ _, True).
Proof.
  intros Hg. apply keeps_modify. intros f Hf. destruct (Hg f Hf) as [Ei Hfid]. destruct Hf as [Hb Hf].
  split; rewrite ?Ei; [done|]. intros HB1. destruct (Hf HB1) as [[H1 H2 H3 Ho H4] Hl]. split; [|done].
  constructor; rewrite ?Ei; try done. intros fid ino Hx. rewrite Hl. eauto.
Qed.

Lemma bind_fid_keeps fid ino : valid L ino → fkeeps (modify (bind_fid fid ino)) (λ _, True).
Proof.
  intros Hi. apply fids_keeps. intros f Hf. split; [done|]. intros HB1 fid' ino' Hx.
  cbn in Hx. apply lookup_insert_Some in Hx as [[_ <-]|[_ Hx]]; [auto|].
  destruct (proj2 Hf HB1) as [Hw Hl]. pose proof (tw_fid _ Hw _ _ Hx). lia.
Qed.

Lemma drop_fid_keeps fid : fkeeps (modify (drop_fid fid)) (λ _, True).
Proof.
  apply fids_keeps. intros f Hf. split; [done|]. intros HB1 fid' ino' Hx.
  cbn in Hx. apply lookup_delete_Some in Hx as [_ Hx].
  destruct (proj2 Hf HB1) as [Hw Hl]. pose proof (tw_fid _ Hw _ _ Hx). lia.
Qed.

Lemma tree_link f dir name node :
  tree_wf f → 0 <= dir < Z.of_nat (length (inodes f)) →
  Inode.children node = [] → Inode.parent node = dir →
  ∀ d, inode_at f dir = Some d →
  let k := length (inodes f) in
  tree_wf (f <| inodes := <[Z.to_nat dir := Inode.add_child name (Z.of_nat k) d]> (inodes f ++ [node]) |>).
Proof.
  intros [H1 H2 H3 Ho H4] Hdir Hc Hp d Ed k.
  assert (Hdk : (Z.to_nat dir < k)%nat) by (subst k; lia).
  set (l := <[Z.to_nat dir := Inode.add_child name (Z.of_nat k) d]> (inodes f ++ [node])).
  assert (Hat : ∀ i m, l !! i = Some m →
    (i = k ∧ m = node) ∨ (∃ m', inodes f !! i = Some m' ∧ Inode.parent m = Inode.parent m' ∧
       (∀ c, c ∈ Inode.children m → c ∈ Inode.children m' ∨ (i = Z.to_nat dir ∧ c = (name, Z.of_nat k))))).
  { intros i m Hm. apply list_lookup_insert_Some in Hm as [(<- & <- & _)|[_ Hm]].
    - right. exists d. split_and!; [exact Ed|done|]. intros c Hin. cbn in Hin.
      apply elem_of_app in Hin as [Hin|Hin]; [by left|right]. by apply list_elem_of_singleton in Hin.
    - apply lookup_app_Some in Hm as [Hm|[Hge Hm]]; [right; exists m; auto|left].
      apply list_lookup_singleton_Some in Hm as [Hz ->]. split; [subst k; lia|done]. }
  assert (Hto : ∀ i m', inodes f !! i = Some m' → ∃ m, l !! i = Some m ∧
    Inode.parent m = Inode.parent m' ∧ Inode.is_dir m = Inode.is_dir m').
  { intros i m' Hm. pose proof (lookup_lt_Some _ _ _ Hm) as Hlt. destruct (decide (i = Z.to_nat dir)) as [->|Hne].
    - exists (Inode.add_child name (Z.of_nat k) d). unfold inode_at in Ed. rewrite Hm in Ed. injection Ed as ->.
      split; [|done]. apply list_lookup_insert_eq. rewrite length_app. lia.
    - exists m'. split; [|done]. unfold l. rewrite list_lookup_insert_ne by done. by rewrite lookup_app_l. }
  assert (Hk : l !! k = Some node).
  { unfold l. rewrite list_lookup_insert_ne by lia. rewrite lookup_app_r by (subst k; lia).
    subst k. by rewrite Nat.sub_diag. }
  constructor; cbn.
  - destruct H1 as (m & Hm & Hd & Hp0). destruct (Hto _ _ Hm) as (m' & Hm' & Ep & Ed').
    exists m'. split_and!; [exact Hm'|congruence..].
  - intros i m Hm Hi. destruct (Hat i m Hm) as [[-> ->]|(m' & Hm' & -> & _)]; [lia|by eapply H2].
  - intros i m nm c Hm Hin. destruct (Hat i m Hm) as [[-> ->]|(m' & Hm' & _ & Hsub)].
    + rewrite Hc in Hin. by apply elem_of_nil in Hin.
    + destruct (Hsub _ Hin) as [Hin'|[-> [= -> ->]]].
      * destruct (H3 _ _ _ _ Hm' Hin') as (Hlt & q & Hq & Hqp). split; [done|].
        destruct (Hto _ _ Hq) as (q' & Hq' & Ep & _). exists q'. split; [exact Hq'|congruence].
      * split; [lia|]. exists node. rewrite Nat2Z.id. split; [exact Hk|lia].
  - intros i m [(<- & <- & _)|[_ Hm]]%list_lookup_insert_Some.
    + cbn. rewrite fmap_app. cbn. apply NoDup_app. split_and!; [by apply (Ho (Z.to_nat dir))| |by apply NoDup_singleton].
      intros c ([nm c'] & -> & Hin)%list_elem_of_fmap Hk'%list_elem_of_singleton. cbn in Hk'. subst c'.
      destruct (H3 _ _ _ _ Ed Hin) as (_ & q & Hq & _). apply lookup_lt_Some in Hq. lia.
    + apply lookup_app_Some in Hm as [Hm|[_ Hm]]; [by apply (Ho i)|].
      apply list_lookup_singleton_Some in Hm as [_ <-]. rewrite Hc. by apply NoDup_nil.
  - intros fid ino Hx. unfold l. rewrite length_insert, length_app. pose proof (H4 _ _ Hx). lia.
Qed.
End Inv.

Section Link.
Context {PR : Profile} {T : Target} {Ht : TargetOk T}.
Context (B : bool) (P : Prop) (HB : B = false → P) (L : nat).

Lemma link_new_keeps dir name node f :
  (B = true → Z.of_nat L < 2 ^ 32) → finv B L f → valid B L dir → Forall is_byte name →
  node_bytes node → Inode.children node = [] → Inode.parent node = dir →
  wp P (link_new dir name node) (λ n f', valid B (S L) n ∧ finv B (S L) f') f.
Proof using HB.
  intros HL Hf Hd Hn Hnb Hc Hp. unfold link_new, alloc.
  apply wp_bind, wp_bind, wp_modify, wp_get, wp_bind. set (n := as_u32 _).
  unfold set_inode. apply wp_bind, wp_bind, wp_get, wp_lift. cbn [id].
  destruct Hf as [Hb Hf].
  assert (Hb' : Forall node_bytes (inodes f ++ [node])) by (by rewrite Forall_app, Forall_singleton).
  pose proof (panics B P HB (inode_at (f <| inodes := inodes f ++ [node] |>) dir)) as Hat.
  destruct (inode_at _ dir) as [d|] eqn:Ed.
  2:{ apply Hat. intros HB1. destruct (Hf HB1) as [_ Hl]. specialize (Hd HB1).
      rewrite <- Ed. apply inode_at_valid. cbn. rewrite length_app. lia. }
  apply wp_modify, wp_ret. assert (Hdb : node_bytes d) by (by eapply Forall_lookup_1).
  assert (Hn' : B = true → n = Z.of_nat L).
  { intros HB1. destruct (Hf HB1) as [_ Hl]. subst n. cbn. rewrite length_app. cbn [length].
    replace (Z.of_nat (length (inodes f) + 1) - 1) with (Z.of_nat L) by lia.
    apply wrap_small. unfold urange. specialize (HL HB1). lia. }
  split; [intros HB1; rewrite (Hn' HB1); lia|]. split; cbn.
  - apply Forall_insert; [done|]. destruct Hdb as [Hd1 Hd2]. split; [exact Hd1|].
    cbn. by rewrite Forall_app, Forall_singleton.
  - intros HB1. destruct (Hf HB1) as [Hw Hl]. rewrite (Hn' HB1), <- Hl. split.
    + specialize (Hd HB1). rewrite <- Hl in Hd. refine (tree_link f dir name node Hw Hd Hc Hp d _).
      unfold inode_at in *. cbn in Ed. rewrite lookup_app_l in Ed by lia. done.
    + rewrite length_insert, length_app. cbn. lia.
Qed.
End Link.

(** * The handlers *)

Abbreviation HM := (M (Virtio9p.t * Cur.t)).

(** A reply of the right type whose body is bytes; any errno will do. *)
Definition reply_ok (ty : Z) (r : Result reply Z) : Prop :=
  match r with Ok (t, w) => t = ty + 1 ∧ is_byte t ∧ Forall is_byte (W.bytes w) | Err _ => True end.

Lemma w_push w l : Forall is_byte (W.bytes w) → Forall is_byte l → Forall is_byte (W.bytes (Writer.push w l)).
Proof. intros. by apply Forall_app_2. Qed.
Lemma w_new : Forall is_byte (W.bytes W.new).
Proof. by apply Forall_nil. Qed.
Lemma byte_one x : is_byte x → Forall is_byte [x].
Proof. by rewrite Forall_singleton. Qed.
Lemma qid_byte n : is_byte (Inode.qid_type n).
Proof. unfold Inode.qid_type. by destruct (Inode.is_dir n). Qed.
Lemma qtdir_byte : is_byte QTDIR.
Proof. done. Qed.
Lemma qtfile_byte : is_byte QTFILE.
Proof. done. Qed.
#[local] Hint Resolve w_push w_new byte_one qid_byte qtdir_byte qtfile_byte : core.

(** The body of a reply, built field by field. *)
Ltac wbytes := unfold W.str, W.qid, W.u64, W.u32, W.u16, W.u8, W.raw, Writer.u64, Writer.u32, Writer.u16, Writer.u8;
  repeat apply w_push; auto.

Section Handlers.
Context {PR : Profile} {T : Target} {Ht : TargetOk T}.
Context (B : bool) (P : Prop) (HB : B = false → P) (HP : overflow_checks = true → P) (L : nat).
Abbreviation fkeeps := (keeps P (finv B L)).
Abbreviation hkeeps := (keeps P (hinv B L)).

Lemma hk_ret {A} (a : A) (R : A → Prop) : R a → hkeeps (mret a) R.
Proof. by apply keeps_ret. Qed.

Lemma hk_self {A} (f : Virtio9p.t → A) (R : A → Prop) : (∀ d, dinv B L d → R (f d)) → hkeeps (self_get f) R.
Proof. intros Hf. by apply (keeps_on_fst P (dinv B L) cinv), keeps_get. Qed.

Lemma hk_any {A} (f : Virtio9p.t → A) : hkeeps (self_get f) (λ _, True).
Proof. by apply hk_self. Qed.

Lemma hk_upd f : (∀ d, dinv B L d → dinv B L (f d)) → hkeeps (self_upd f) (λ _, True).
Proof. intros Hf. by apply (keeps_on_fst P (dinv B L) cinv), keeps_modify. Qed.

Lemma hk_fs {A} (m : M P9Fs.t A) R : fkeeps m R → hkeeps (self_fs m) R.
Proof.
  intros Hm. apply (keeps_on_fst P (dinv B L) cinv). apply (keeps_zoom _ _ (finv B L)); [done|by intros d []|].
  intros d f [] Hf. by constructor.
Qed.

Lemma hk_lift {A} (o : option A) (R : A → Prop) :
  match o with Some a => R a | None => P end → hkeeps (lift o) R.
Proof. apply keeps_lift. Qed.

Lemma hk_checked w x : 0 <= w → hkeeps (lift (checked_u w x)) (urange w).
Proof using HP Ht. intros. by apply keeps_checked. Qed.

(** ** Arguments *)

Lemma slice_get_bytes l a b s : Forall is_byte l → slice_get l a b = Some s → Forall is_byte s.
Proof.
  intros Hl. unfold slice_get. destruct (_ && _); [|done]. intros [= <-]. by apply Forall_take, Forall_drop.
Qed.

Lemma ck_take n : keeps P cinv (Reader.take n) (from_option (Forall is_byte) True).
Proof using HP Ht.
  intros c Hc. apply wp_bind, wp_get, wp_bind, wp_get, wp_bind, wp_lift.
  assert (Hu : 0 <= usize_bits) by (pose proof usize_ok; lia).
  pose proof (keeps_checked P cinv _ (Reader.pos c + n) Hu HP c Hc) as Hk.
  unfold wp, lift, add_u in *. destruct (checked_u _ _) as [e|]; [|done].
  destruct (slice_get _ _ e) as [s|] eqn:Es; [|done].
  apply (wp_bind P (modify _) (λ _, mret (Some s)) _ c), wp_modify, wp_ret.
  split; [|done]. cbn. eapply slice_get_bytes; [exact Hc|exact Es].
Qed.

Lemma ck_fixed n : keeps P cinv (Reader.fixed n) (λ _, True).
Proof using HP Ht. eapply keeps_bind; [apply ck_take|]. intros. by apply keeps_ret. Qed.

Lemma ck_str : keeps P cinv Cur.str (from_option (Forall is_byte) True).
Proof using HP Ht.
  eapply keeps_bind; [apply (ck_fixed 2)|]. intros [n|] _; [|by apply keeps_ret].
  eapply keeps_bind; [apply ck_take|]. intros [s|] Hs; apply keeps_ret; [|done]. by apply lossy_bytes.
Qed.

Lemma hk_arg {A} (m : M Cur.t A) R : keeps P cinv m R → hkeeps (arg m) R.
Proof. apply (keeps_on_snd P (dinv B L) cinv). Qed.

Lemma hk_u16 : hkeeps (arg Cur.u16) (λ _, True).
Proof using HP Ht. apply hk_arg, (ck_fixed 2). Qed.
Lemma hk_u32 : hkeeps (arg Cur.u32) (λ _, True).
Proof using HP Ht. apply hk_arg, (ck_fixed 4). Qed.
Lemma hk_u64 : hkeeps (arg Cur.u64) (λ _, True).
Proof using HP Ht. apply hk_arg, (ck_fixed 8). Qed.
Lemma hk_str : hkeeps (arg Cur.str) (from_option (Forall is_byte) True).
Proof using HP Ht. apply hk_arg, ck_str. Qed.

(** ** Steps *)

Lemma hk_fail {A} e ty : hkeeps (fail (A := A) e) (λ r, match r with Err _ => True | Ok _ => ty end).
Proof. by apply keeps_ret. Qed.

Lemma hk_err {A} e (R : Result A Z → Prop) : R (Err e) → hkeeps (fail e) R.
Proof. by apply keeps_ret. Qed.

Lemma hk_or {A X} (m : M _ (option A)) e (k : A → M _ (Result X Z)) (R : option A → Prop) Q :
  hkeeps m R → (∀ a, R (Some a) → hkeeps (k a) Q) → Q (Err e) → hkeeps (ok_or m e k) Q.
Proof. intros Hm Hk He. eapply keeps_bind; [exact Hm|]. intros [a|] Ha; [by apply Hk|by apply keeps_ret]. Qed.

Lemma hk_skip {A X} (m : M _ A) (k : M _ X) R Q : hkeeps m R → hkeeps k Q → hkeeps (m ≫= λ _, k) Q.
Proof. intros Hm Hk. eapply keeps_bind; [exact Hm|]. by intros. Qed.

Lemma hk_ok ty w : is_byte (ty + 1) → Forall is_byte (W.bytes w) → hkeeps (ok ty w) (reply_ok ty).
Proof. intros. by apply keeps_ret. Qed.

Lemma hk_fid fid : hkeeps (fid_inode fid) (from_option (valid B L) True).
Proof.
  apply hk_self. intros d Hd. destruct (fids (fs d) !! fid) as [ino|] eqn:E; [|done]. cbn. intros HB1.
  destruct (proj2 (di_fs _ _ _ Hd) HB1) as [Hw Hl]. pose proof (tw_fid _ Hw _ _ E). lia.
Qed.

Lemma hk_tree : hkeeps (self_get fs) (finv B L).
Proof. apply hk_self. by intros d []. Qed.

(** A node, with what the tree says of its relatives. *)
Definition node_ok (n : Inode.t) : Prop :=
  node_bytes n ∧ valid B L (Inode.parent n) ∧ Forall (λ c, valid B L c.2) (Inode.children n).

Lemma hk_node i : valid B L i → hkeeps (node_of i) node_ok.
Proof using HB.
  intros Hi. eapply keeps_bind; [apply hk_tree|]. intros f Hf. apply hk_lift.
  pose proof (node_some B P HB L f i Hf Hi) as Hn. destruct (inode_at f i) as [n|] eqn:E; [|done].
  split_and!; [done| |].
  - intros HB1. destruct (proj2 Hf HB1) as [Hw Hl]. specialize (Hi HB1).
    destruct (decide (Z.to_nat i = 0%nat)) as [E0|E0].
    + destruct (tw_root _ Hw) as (r & Hr & _ & Hp). unfold inode_at in E. rewrite E0, Hr in E.
      injection E as <-. lia.
    + pose proof (tw_parent _ Hw _ _ E E0). lia.
  - apply Forall_forall. intros [name c] Hc HB1. destruct (proj2 Hf HB1) as [Hw Hl].
    destruct (tw_child _ Hw _ _ name c E Hc) as (Hlt & m & Hm & _). apply lookup_lt_Some in Hm. cbn. lia.
Qed.

Lemma hk_child dir name : valid B L dir → hkeeps (child_of dir name) (from_option (valid B L) True).
Proof using HB.
  intros Hd. eapply keeps_bind; [apply hk_tree|]. intros f Hf. apply hk_lift.
  pose proof (child_some B P HB L f dir name Hf Hd) as Hc. by destruct (P9Fs.child f dir name) as [[c|]|].
Qed.

Lemma hk_bump : hkeeps bump_dirty (λ _, True).
Proof using HP Ht.
  eapply keeps_bind; [apply hk_any|]. intros n _. eapply keeps_bind; [by apply hk_checked|].
  intros n' _. apply hk_fs, keeps_modify. intros f [Hb Hf]. split; [done|]. intros HB1.
  destruct (Hf HB1) as [[] Hl]. split; [by constructor|done].
Qed.

Lemma mark_inv path op d : dinv B L d → dinv B L (mark path op d).
Proof. intros []. unfold mark. destruct (_ && _); by constructor. Qed.

Lemma hk_mark_inode i op : valid B L i → hkeeps (mark_inode i op) (λ _, True).
Proof using HB.
  intros Hi. eapply keeps_bind; [apply hk_tree|]. intros f Hf.
  eapply keeps_bind; [by apply hk_lift, (path_some B P HB L)|]. intros p _. apply hk_upd. intros d. apply mark_inv.
Qed.

Lemma hk_defer {A} kind i off len (R : Result A Z → Prop) :
  valid B L i → R (Err DEFER) → hkeeps (defer kind i off len) R.
Proof using HB.
  intros Hi HR. eapply keeps_bind; [apply hk_tree|]. intros f Hf.
  eapply keeps_bind; [by apply hk_lift, (path_some B P HB L)|]. intros p _.
  eapply hk_skip; [apply hk_upd|by apply hk_err]. intros d []. by constructor.
Qed.

(** One argument, one fid, one node: the first lines of every handler. *)
Ltac harg := first
  [ eapply hk_or; [by apply hk_u32|intros ? _|done]
  | eapply hk_or; [by apply hk_u64|intros ? _|done]
  | eapply hk_or; [by apply hk_u16|intros ? _|done]
  | eapply hk_or; [by apply hk_str|intros ? ?|done]
  | eapply hk_skip; [by apply hk_u32|]
  | eapply hk_skip; [by apply hk_u64|]
  | eapply hk_skip; [by apply hk_str|] ].
Ltac hfid := eapply hk_or; [apply hk_fid|intros ? ?|done].
Ltac hnode := eapply keeps_bind; [by apply hk_node|intros ? ?].
Ltac hreply := apply hk_ok; [done|wbytes].

Lemma hk_version : hkeeps t_version (reply_ok TVERSION).
Proof using HP Ht.
  unfold t_version. do 2 harg. eapply hk_skip; [|hreply].
  - apply hk_fs, keeps_modify. intros f [Hb Hf]. split; [done|]. intros HB1.
    destruct (Hf HB1) as [[] Hl]. split; [constructor; try done|done].
  - by case_bool_decide; apply all_bytes.
Qed.

(** The root is there. *)
Lemma root_valid d : dinv B L d → valid B L 0.
Proof.
  intros Hd HB1. destruct (proj2 (di_fs _ _ _ Hd) HB1) as [Hw Hl].
  destruct (tw_root _ Hw) as (n & Hn & _). apply lookup_lt_Some in Hn. lia.
Qed.

Lemma hk_attach : hkeeps t_attach (reply_ok TATTACH).
Proof using HB HP Ht.
  intros [d c] Hs. pose proof (root_valid d (proj1 Hs)) as H0. revert Hs. generalize (d, c). clear d c.
  change (hkeeps t_attach (reply_ok TATTACH)). unfold t_attach. repeat harg.
  eapply hk_skip; [by apply hk_fs, bind_fid_keeps|]. hnode. hreply.
Qed.

Lemma hk_walk_name cur name : valid B L cur →
  hkeeps (walk_name cur name) (λ r, match r with Ok (Some i) => valid B L i | _ => True end).
Proof using HB.
  intros Hc. unfold walk_name. case_bool_decide; [|case_bool_decide].
  - eapply keeps_bind; [by apply hk_node|]. intros n (_ & Hn & _). by apply hk_ret.
  - by apply hk_ret.
  - hnode. eapply keeps_bind; [apply hk_any|]. intros lz _. destruct (_ && _); [by apply hk_defer|].
    eapply keeps_bind; [by apply hk_child|]. intros [i|] Hi; by apply hk_ret.
Qed.

Lemma hk_walk_names n : ∀ cur qids, valid B L cur → Forall (λ q, is_byte q.1) qids →
  hkeeps (walk_names n cur qids)
    (λ r, match r with Ok (i, qs) => valid B L i ∧ Forall (λ q, is_byte q.1) qs | Err _ => True end).
Proof using HB HP Ht.
  induction n as [|n IH]; intros cur qids Hc Hq; cbn [walk_names]; [by apply hk_ret|].
  harg. eapply keeps_bind; [by apply hk_walk_name|]. intros [[i|]|e] Hi; [|by apply hk_ret|by apply hk_err].
  hnode. apply IH; [done|]. rewrite Forall_app, Forall_singleton. split; [done|apply qid_byte].
Qed.

Lemma qids_bytes qids : Forall (λ q, is_byte q.1) qids → ∀ w, Forall is_byte (W.bytes w) →
  Forall is_byte (W.bytes (foldl (λ w '(ty, p), W.qid w ty p) w qids)).
Proof.
  induction 1 as [|[ty p] qs Hq _ IH]; intros w Hw; [done|]. cbn. apply IH. cbn in Hq. wbytes.
Qed.

Lemma hk_walk : hkeeps t_walk (reply_ok TWALK).
Proof using HB HP Ht.
  unfold t_walk. do 3 harg. hfid. eapply keeps_bind; [by apply hk_walk_names|].
  intros [[cur qids]|e] Hr; [|by apply hk_err]. destruct Hr as [Hc Hq].
  destruct (_ =? _).
  - eapply hk_skip; [by apply hk_fs, bind_fid_keeps|]. apply hk_ok, qids_bytes; [done|done|]. wbytes.
  - destruct (_ =? _); [by apply hk_err|]. apply hk_ok, qids_bytes; [done|done|]. wbytes.
Qed.

Lemma hk_getattr : hkeeps t_getattr (reply_ok TGETATTR).
Proof using HB HP Ht. unfold t_getattr. do 2 harg. hfid. hnode. hreply. Qed.

Lemma hk_lopen : hkeeps t_lopen (reply_ok TLOPEN).
Proof using HB HP Ht. unfold t_lopen. do 2 harg. hfid. hnode. hreply. Qed.

Lemma hk_fresh dfid name :
  hkeeps (fresh_entry dfid name) (λ r, match r with Ok dir => valid B L dir | Err _ => True end).
Proof using HB.
  unfold fresh_entry. hfid. hnode. destruct (negb _); [by apply hk_err|].
  eapply keeps_bind; [by apply hk_child|]. intros [c|] _; [by apply hk_err|by apply hk_ret].
Qed.

Lemma hk_read : hkeeps t_read (reply_ok TREAD).
Proof using HB HP Ht.
  unfold t_read. do 3 harg. hfid. eapply keeps_bind; [by apply hk_node|]. intros n Hn.
  eapply keeps_bind; [apply hk_any|]. intros lz _. destruct (Inode.is_dir n); [by apply hk_err|].
  destruct (_ && _); [by apply hk_defer|]. hreply. unfold read_slice.
  destruct (_ <? _); [by apply Forall_take, Forall_drop, Hn|by apply Forall_nil].
Qed.

Lemma entries_some f es : finv B L f → Forall (λ c, Forall is_byte c.1) es → Forall (λ c, valid B L c.2) es →
  match mapM (λ '(name, idx), c ← inode_at f idx;
           Some (name, idx, if Inode.is_dir c then DT_DIR else DT_REG)) es with
  | Some l => Forall (λ e, Forall is_byte e.1.1 ∧ valid B L e.1.2 ∧ is_byte e.2) l
  | None => P
  end.
Proof using HB.
  intros Hf. induction es as [|[name idx] es IH]; intros Hn Hv; [by apply Forall_nil|]. cbn [mapM].
  apply Forall_cons in Hn as [Hn Hns]. apply Forall_cons in Hv as [Hv Hvs].
  pose proof (node_some B P HB L f idx Hf Hv) as Hc. destruct (inode_at f idx) as [c|]; [|done].
  cbn [mbind option_bind]. specialize (IH Hns Hvs). destruct (mapM _ es) as [l|]; [|done].
  cbn. constructor; [|done]. split_and!; [done|done|by destruct (Inode.is_dir c)].
Qed.

Lemma emit_some f es : finv B L f →
  Forall (λ e, Forall is_byte e.1.1 ∧ valid B L e.1.2 ∧ is_byte e.2) es →
  ∀ i offset count data, Forall is_byte data →
  match emit_entries f es i offset count data with Some l => Forall is_byte l | None => P end.
Proof using HB.
  intros Hf. induction 1 as [|[[name idx] dt] es (H1 & H2 & H3) _ IH]; intros i offset count data Hd; [done|].
  cbn [emit_entries]. destruct (_ <=? _); [by apply IH|]. destruct (_ <? _); [done|].
  pose proof (node_some B P HB L f idx Hf H2) as Hc. destruct (inode_at f idx) as [c|]; [|done].
  cbn [mbind option_bind]. apply IH. unfold dirent. rewrite !Forall_app. split_and!; auto.
Qed.

Lemma hk_readdir : hkeeps t_readdir (reply_ok TREADDIR).
Proof using HB HP Ht.
  unfold t_readdir. do 3 harg. hfid. eapply keeps_bind; [by apply hk_node|]. intros n (Hn & Hp & Hc).
  eapply keeps_bind; [apply hk_any|]. intros lz _. destruct (negb _); [by apply hk_err|].
  destruct (_ && _); [by apply hk_defer|]. eapply keeps_bind; [apply hk_tree|]. intros f Hf.
  eapply (keeps_bind _ _ _ _ (Forall (λ e, Forall is_byte e.1.1 ∧ valid B L e.1.2 ∧ is_byte e.2))).
  { apply hk_lift. unfold dir_entries. pose proof (entries_some f _ Hf (proj2 Hn) Hc) as He.
    destruct (mapM _ _) as [l|]; [|done]. cbn. rewrite !Forall_cons. cbn. split_and!; try done; by apply all_bytes. }
  intros es He. eapply (keeps_bind _ _ _ _ (Forall is_byte)).
  { apply hk_lift. by apply emit_some. }
  intros data Hd. hreply.
Qed.

(** ** Changes of the tree *)

Lemma hk_clunk : hkeeps t_clunk (reply_ok TCLUNK).
Proof using HP Ht. unfold t_clunk. harg. eapply hk_skip; [apply hk_fs, drop_fid_keeps|]. hreply. Qed.

Lemma hk_unlink_child dir target : valid B L dir → valid B L target →
  hkeeps (unlink_child dir target) (λ _, True).
Proof using HB.
  intros Hd Ht'. unfold unlink_child. eapply keeps_bind; [by apply hk_node|]. intros n _.
  destruct (_ && _); [by apply hk_err|]. eapply hk_skip; [|by apply hk_ret].
  apply hk_fs, set_inode_keeps; [done|done|]. intros m [Hm1 Hm2]. split_and!; [|done|done| |].
  - split; [done|]. cbn. apply Forall_forall. intros c [_ Hc]%list_elem_of_filter.
    rewrite Forall_forall in Hm2. auto.
  - intros c Hc. cbn in Hc. by apply list_elem_of_filter in Hc as [_ Hc].
  - intros Ho. eapply sublist_NoDup; [exact Ho|]. cbn. apply fmap_sublist, sublist_filter.
Qed.

Lemma hk_unlink dir target after ty : valid B L dir → valid B L target →
  fkeeps (modify after) (λ _, True) → is_byte (ty + 1) → hkeeps (unlink dir target after ty) (reply_ok ty).
Proof using HB HP Ht.
  intros Hd Ht' Ha Hty. unfold unlink. eapply keeps_bind; [apply hk_tree|]. intros f Hf.
  eapply keeps_bind; [by apply hk_lift, (path_some B P HB L)|]. intros p _.
  eapply keeps_bind; [by apply hk_unlink_child|]. intros [u|e] _; [|by apply hk_err].
  eapply hk_skip; [by apply hk_fs|]. eapply hk_skip; [apply hk_upd; intros d; apply mark_inv|].
  eapply hk_skip; [apply hk_bump|]. hreply.
Qed.

Lemma hk_remove : hkeeps t_remove (reply_ok TREMOVE).
Proof using HB HP Ht.
  unfold t_remove. harg. hfid. eapply keeps_bind; [by apply hk_node|]. intros n (_ & Hn & _).
  apply hk_unlink; [done|done|apply drop_fid_keeps|done].
Qed.

Lemma hk_unlinkat : hkeeps t_unlinkat (reply_ok TUNLINKAT).
Proof using HB HP Ht.
  unfold t_unlinkat. do 3 harg. hfid. eapply hk_or; [by apply hk_child|intros target Htg|done].
  apply hk_unlink; [done|done|by apply keeps_modify|done].
Qed.

Lemma hk_statfs : hkeeps t_statfs (reply_ok TSTATFS).
Proof using HP Ht. unfold t_statfs. harg. eapply keeps_bind; [apply hk_any|]. intros files _. hreply. Qed.

Lemma hk_xattrwalk : hkeeps t_xattrwalk (reply_ok TXATTRWALK).
Proof using HP Ht. unfold t_xattrwalk. repeat harg. hreply. Qed.

(** ** Sizes *)

Lemma resize_bytes l n l' : Forall is_byte l → vec_resize l n = Some l' → Forall is_byte l'.
Proof.
  intros Hl. unfold vec_resize. destruct (_ <=? _); [done|]. intros [= <-].
  apply Forall_app_2; [by apply Forall_take|]. apply Forall_replicate. by unfold is_byte, urange.
Qed.

Lemma length_resize l n l' : 0 <= n → Z.of_nat (length l) < n → vec_resize l n = Some l' →
  Z.of_nat (length l') = n.
Proof.
  intros H0 Hl. unfold vec_resize. destruct (_ <=? _); [done|]. intros [= <-].
  rewrite length_app, length_take, length_replicate. lia.
Qed.

Lemma write_bytes data off src l :
  Forall is_byte data → Forall is_byte src → write_slice data off src = Some l → Forall is_byte l.
Proof.
  intros Hd Hs. unfold write_slice. destruct (add_u _ _ _) as [e|]; [|done]. cbn [mbind option_bind].
  assert (Hr : ∀ d, (if Z.of_nat (length data) <? e then vec_resize data e else Some data) = Some d → Forall is_byte d).
  { intros d. destruct (_ <? _); [by apply resize_bytes|]. by intros [= <-]. }
  destruct (if _ <? _ then _ else _) as [d|]; [|done]. cbn [mbind option_bind].
  destruct (slice_get _ _ _); [|done]. intros [= <-]. apply bytes_splice; auto.
Qed.

(** A write whose end is at most [isize::MAX] succeeds. *)
Lemma write_total data off src :
  0 <= off → off + Z.of_nat (length src) < 2 ^ (usize_bits - 1) → is_Some (write_slice data off src).
Proof using Ht.
  intros Hoff HW. assert (Hu : 32 <= usize_bits) by (pose proof usize_ok; lia).
  assert (Hlt : 2 ^ (usize_bits - 1) < 2 ^ usize_bits) by (apply Z.pow_lt_mono_r; lia).
  unfold write_slice. rewrite add_u_small by (unfold urange; lia). cbn [mbind option_bind].
  set (e := off + _) in *. assert (Hs : ∀ d : list Z, e <= Z.of_nat (length d) → is_Some (slice_get d off e)).
  { intros d Hd. unfold slice_get. destruct (Z.leb_spec off e); [|lia].
    destruct (Z.leb_spec e (Z.of_nat (length d))); [done|lia]. }
  destruct (Z.ltb_spec (Z.of_nat (length data)) e) as [Hl|Hl].
  - destruct (vec_resize data e) as [d|] eqn:E; cbn [mbind option_bind].
    + destruct (Hs d) as [x ->]; [|done]. apply length_resize in E; lia.
    + unfold vec_resize in E. destruct (Z.leb_spec (2 ^ (usize_bits - 1)) e); [lia|done].
  - cbn [mbind option_bind]. by destruct (Hs data Hl) as [x ->].
Qed.

Lemma write_some data off src :
  Forall is_byte data → Forall is_byte src → 0 <= off →
  (2 ^ (usize_bits - 1) <= off + Z.of_nat (length src) → P) →
  match write_slice data off src with Some l => Forall is_byte l | None => P end.
Proof using Ht.
  intros Hd Hs Hoff HW. destruct (write_slice data off src) as [l|] eqn:E; [exact (write_bytes _ _ _ _ Hd Hs E)|].
  destruct (Z.le_gt_cases (2 ^ (usize_bits - 1)) (off + Z.of_nat (length src))); [auto|].
  destruct (write_total data off src) as [x Hx]; [lia|lia|congruence].
Qed.

(** The tail of a write, once the arguments are read. *)
Lemma hk_write_tail ino off count src : valid B L ino → Forall is_byte src → 0 <= off →
  (2 ^ (usize_bits - 1) <= off + Z.of_nat (length src) → P) →
  hkeeps (n ← node_of ino;
    if Inode.is_dir n then fail EISDIR
    else
      new ← lift (write_slice (Inode.data n) off src);
      self_fs (P9Fs.set_inode ino (λ n,
        n <| Inode.data := new |> <| Inode.loaded := true |> <| Inode.size := Z.of_nat (length new) |>));;
      bump_dirty;; mark_inode ino 0;;
      ok TWRITE (W.u32 W.new count)) (reply_ok TWRITE).
Proof using HB HP Ht.
  intros Hi Hs Hoff HW. eapply keeps_bind; [by apply hk_node|]. intros n ((Hn & _) & _).
  destruct (Inode.is_dir n); [by apply hk_err|].
  eapply keeps_bind; [by apply hk_lift, write_some|]. intros new Hnew.
  eapply hk_skip; [apply hk_fs, set_inode_keeps; [done|done|]|].
  - intros m [_ Hm]. by split_and!.
  - eapply hk_skip; [apply hk_bump|]. eapply hk_skip; [by apply hk_mark_inode|]. hreply.
Qed.

Lemma hk_setattr_tail ino valid_ mode size : valid B L ino → 0 <= as_usize size →
  (2 ^ (usize_bits - 1) <= as_usize size → P) →
  hkeeps (_ ← node_of ino;
    (if negb (Z.land valid_ 1 =? 0)
     then self_fs (P9Fs.set_inode ino (λ n, n <| Inode.perm := Z.land mode 0x1FF |>)) else mret tt);;
    (if negb (Z.land valid_ 8 =? 0) then
       n ← node_of ino;
       new ← lift (vec_resize (Inode.data n) (as_usize size));
       self_fs (P9Fs.set_inode ino (λ n, n <| Inode.data := new |> <| Inode.size := size |>));;
       bump_dirty;; mark_inode ino 0
     else mret tt);;
    ok TSETATTR W.new) (reply_ok TSETATTR).
Proof using HB HP Ht.
  intros Hi Hz HW. hnode. eapply (hk_skip _ _ (λ _, True)).
  { destruct (negb _); [|by apply hk_ret]. apply hk_fs, set_inode_keeps; [done|done|].
    intros m Hm. by split_and!. }
  eapply (hk_skip _ _ (λ _, True)); [|hreply]. destruct (negb _); [|by apply hk_ret].
  eapply keeps_bind; [by apply hk_node|]. intros n ((Hn & _) & _).
  eapply (keeps_bind _ _ _ _ (Forall is_byte)).
  { apply hk_lift. destruct (vec_resize _ _) as [l|] eqn:E; [exact (resize_bytes _ _ _ Hn E)|].
    unfold vec_resize in E. destruct (Z.leb_spec (2 ^ (usize_bits - 1)) (as_usize size)); [auto|done]. }
  intros new Hnew. eapply hk_skip; [apply hk_fs, set_inode_keeps; [done|done|]|].
  - intros m [_ Hm]. by split_and!.
  - eapply hk_skip; [apply hk_bump|]. by apply hk_mark_inode.
Qed.

(** ** Arguments at known places *)

(** The little-endian number of [n] bytes at [off] of a body. *)
Definition arg_at (n off : nat) (body : list Z) : Z := from_le_bytes (take n (drop off body)).

Lemma fixed_at n p body : (n + p < 1000)%nat →
  Reader.fixed (Z.of_nat n) (Reader.mk body (Z.of_nat p)) =
    if (n + p <=? length body)%nat
    then Some (Some (arg_at n p body), Reader.mk body (Z.of_nat (n + p)))
    else Some (None, Reader.mk body (Z.of_nat p)).
Proof using Ht.
  intros Hn. assert (Hu : 32 <= usize_bits) by (pose proof usize_ok; lia).
  assert (Hlt : 2 ^ 32 <= 2 ^ usize_bits) by (apply Z.pow_le_mono_r; lia).
  assert (E : add_u usize_bits (Z.of_nat p) (Z.of_nat n) = Some (Z.of_nat (n + p))).
  { replace (Z.of_nat (n + p)) with (Z.of_nat p + Z.of_nat n) by lia. apply add_u_small. unfold urange. lia. }
  unfold Reader.fixed, Reader.take, mbind, M_bind, get, lift. cbn [Reader.pos Reader.buf]. rewrite E.
  unfold slice_get. destruct (Z.leb_spec (Z.of_nat p) (Z.of_nat (n + p))); [|lia]. cbn [andb].
  destruct (Nat.leb_spec (n + p) (length body)), (Z.leb_spec (Z.of_nat (n + p)) (Z.of_nat (length body))); try lia.
  - cbn. unfold arg_at. rewrite Nat2Z.id. by replace (Z.to_nat (Z.of_nat (n + p) - Z.of_nat p)) with n by lia.
  - done.
Qed.

(** One argument read at a known place, with its failure. *)
Lemma or_at {X} n e (k : Z → HM (Result X Z)) Q d body p :
  (n + p < 1000)%nat →
  ((n + p <= length body)%nat → wp P (k (arg_at n p body)) Q (d, Reader.mk body (Z.of_nat (n + p)))) →
  Q (Err e) (d, Reader.mk body (Z.of_nat p)) →
  wp P (ok_or (arg (Reader.fixed (Z.of_nat n))) e k) Q (d, Reader.mk body (Z.of_nat p)).
Proof using Ht.
  intros Hn Hk He. apply wp_bind. unfold arg. unfold wp at 1, on_snd. rewrite fixed_at by done.
  destruct (Nat.leb_spec (n + p) (length body)); [by apply Hk|exact He].
Qed.

Lemma skip_at {X} n (k : HM X) Q d body p :
  (n + p < 1000)%nat →
  ((n + p <= length body)%nat → wp P k Q (d, Reader.mk body (Z.of_nat (n + p)))) →
  ((length body < n + p)%nat → wp P k Q (d, Reader.mk body (Z.of_nat p))) →
  wp P (_ ← arg (Reader.fixed (Z.of_nat n)); k) Q (d, Reader.mk body (Z.of_nat p)).
Proof using Ht.
  intros Hn Hk He. apply wp_bind. unfold arg. unfold wp at 1, on_snd. rewrite fixed_at by done.
  destruct (Nat.leb_spec (n + p) (length body)); [by apply Hk|by apply He].
Qed.

(** A message that asks for a file larger than an allocation can be. *)
Definition oversized (ty : Z) (body : list Z) : Prop :=
  (ty = TWRITE ∧ 2 ^ (usize_bits - 1) <= as_usize (arg_at 8 4 body) + arg_at 4 12 body)
  ∨ (ty = TSETATTR ∧ 2 ^ (usize_bits - 1) <= as_usize (arg_at 8 20 body)).

Lemma usize_nonneg x : 0 <= as_usize x.
Proof using Ht.
  assert (0 <= usize_bits) by (pose proof usize_ok; lia). unfold wrap.
  assert (0 < 2 ^ usize_bits) by (by apply pow2_pos). apply Z.mod_pos_bound. lia.
Qed.

Lemma hk_write d body : (oversized TWRITE body → P) →
  hinv B L (d, Cur.new body) → wp P t_write (λ r s, reply_ok TWRITE r ∧ hinv B L s) (d, Cur.new body).
Proof using HB HP Ht.
  intros HO Hs. unfold t_write. change (Cur.new body) with (Reader.mk body (Z.of_nat 0)) in *.
  apply (or_at 4); [lia| |done]. intros _. cbn [Nat.add].
  apply (or_at 8); [lia| |done]. intros _. cbn [Nat.add]. cbv zeta.
  apply (or_at 4); [lia| |done]. intros _. cbn [Nat.add]. set (count := arg_at 4 12 body) in *.
  assert (Hc : 0 <= count).
  { assert (Forall is_byte (take 4 (drop 12 body))) by (apply Forall_take, Forall_drop, Hs).
    by apply from_le_bytes_range. }
  apply wp_bind. unfold arg. apply wp_on_snd. apply wp_bind, wp_get, wp_bind, wp_lift. cbn [id Reader.pos Reader.buf].
  assert (Hu : 0 <= usize_bits) by (pose proof usize_ok; lia).
  assert (He : match add_u usize_bits (Z.of_nat 16) count with Some e => e <= 16 + count | None => P end).
  { unfold add_u, checked_u. destruct (_ && _); [lia|]. destruct overflow_checks; [by apply HP|].
    unfold wrap. apply Z.mod_le; [lia|by apply pow2_pos]. }
  destruct (add_u _ _ _) as [e|]; [|done]. apply wp_ret.
  destruct (slice_get body (Z.of_nat 16) e) as [src|] eqn:Es; [|done].
  assert (Hl : Z.of_nat (length src) <= count).
  { unfold slice_get in Es. destruct (_ && _); [|done]. injection Es as <-. rewrite length_take. lia. }
  eapply (hk_or (fid_inode (arg_at 4 0 body)) EBADF); [apply hk_fid| |done|exact Hs]. intros ino Hino.
  apply hk_write_tail; [done| |apply usize_nonneg|].
  - eapply slice_get_bytes; [apply Hs|exact Es].
  - intros Hbig. apply HO. left. split; [done|]. fold count. lia.
Qed.

Lemma hk_setattr d body : (oversized TSETATTR body → P) →
  hinv B L (d, Cur.new body) → wp P t_setattr (λ r s, reply_ok TSETATTR r ∧ hinv B L s) (d, Cur.new body).
Proof using HB HP Ht.
  intros HO Hs. unfold t_setattr. change (Cur.new body) with (Reader.mk body (Z.of_nat 0)) in *.
  apply (or_at 4); [lia|intros _|done]. apply (or_at 4); [lia|intros _|done].
  apply (or_at 4); [lia|intros _|done]. cbn [Nat.add].
  assert (Hshort : ∀ p, (length body < 20)%nat → (12 <= p < 100)%nat → ∀ k : Z → HM (Result reply Z),
    wp P (let! size := arg Cur.u64 else EINVAL in k size)
      (λ r s, reply_ok TSETATTR r ∧ hinv B L s) (d, Reader.mk body (Z.of_nat p))).
  { intros p Hb Hp k. apply (or_at 8); [lia|lia|done]. }
  apply (skip_at 4); [lia| |]; cbn [Nat.add]; intros H16.
  - apply (skip_at 4); [lia| |]; cbn [Nat.add]; intros H20; [|apply Hshort; lia].
    apply (or_at 8); [lia|intros _|done]. cbn [Nat.add].
    eapply (hk_or (fid_inode (arg_at 4 0 body)) EBADF); [apply hk_fid| |done|exact Hs]. intros ino Hino.
    apply hk_setattr_tail; [done|apply usize_nonneg|]. intros Hbig. apply HO. by right.
  - apply (skip_at 4); [lia| |]; cbn [Nat.add]; intros H20; apply Hshort; lia.
Qed.
End Handlers.

(** * Whole messages *)

Section Messages.
Context {PR : Profile} {T : Target} {Ht : TargetOk T}.
Context (B : bool) (P : Prop) (HB : B = false → P) (HP : overflow_checks = true → P) (L : nat).
Context (HL : B = true → Z.of_nat L < 2 ^ 32).

(** A message adds at most one inode. *)
Definition hnext (s : Virtio9p.t * Cur.t) : Prop := hinv B L s ∨ hinv B (S L) s.

Lemma hk_next {A} (m : HM A) R s : keeps P (hinv B L) m R → hinv B L s → wp P m (λ a s', R a ∧ hnext s') s.
Proof. intros Hm Hs. eapply wp_mono; [by apply Hm|]. intros a s' [Ha Hs']. split; [done|by left]. Qed.

Lemma valid_S i : valid B L i → valid B (S L) i.
Proof. intros Hi HB1. specialize (Hi HB1). lia. Qed.

Lemma link_step {X} dir name node (k : Z → HM X) Q s :
  hinv B L s → valid B L dir → Forall is_byte name → node_bytes node →
  Inode.children node = [] → Inode.parent node = dir →
  (∀ n s', valid B (S L) n → hinv B (S L) s' → wp P (k n) Q s') →
  wp P (n ← self_fs (link_new dir name node); k n) Q s.
Proof using HB HL.
  intros [Hd Hc] Hdir Hn Hnb Hch Hp Hk. destruct s as [d c]. apply wp_bind. unfold self_fs.
  apply wp_on_fst, wp_zoom. eapply wp_mono.
  { apply (link_new_keeps B P HB L); [exact HL|apply Hd|done..]. }
  intros n f [Hnv Hf]. apply Hk; [done|]. split; [|exact Hc]. destruct Hd as [D1 D2 D3 D4].
  cbn in D1, D2, D3, D4. constructor; [done|done| |]; cbn.
  - destruct (defer_pending d) as [[[[[? ?] ?] ?] tg]|]; [by apply valid_S|done].
  - eapply Forall_impl; [exact D4|]. intros h (Hh1 & Hh2). split; [by apply valid_S|done].
Qed.

Lemma hk_S {A} (m : HM A) R s :
  keeps P (hinv B (S L)) m R → hinv B (S L) s → wp P m (λ a s', R a ∧ hnext s') s.
Proof. intros Hm Hs. eapply wp_mono; [by apply Hm|]. intros a s' [Ha Hs']. split; [done|by right]. Qed.

(** Arguments first, then the directory, then the new node. *)
Lemma step_or {A X} (m : HM (option A)) e (k : A → HM (Result X Z)) (R : option A → Prop) Q s :
  keeps P (hinv B L) m R → hinv B L s →
  (∀ a s', R (Some a) → hinv B L s' → wp P (k a) (λ r s', Q r ∧ hnext s') s') → Q (Err e) →
  wp P (ok_or m e k) (λ r s', Q r ∧ hnext s') s.
Proof.
  intros Hm Hs Hk He. apply wp_bind. eapply wp_mono; [by apply Hm|]. intros [a|] s' [Ha Hs'].
  - by apply Hk.
  - apply wp_ret. split; [done|by left].
Qed.

Lemma step_bind {A X} (m : HM A) (k : A → HM X) (R : A → Prop) Q s :
  keeps P (hinv B L) m R → hinv B L s →
  (∀ a s', R a → hinv B L s' → wp P (k a) Q s') → wp P (a ← m; k a) Q s.
Proof. intros Hm Hs Hk. apply wp_bind. eapply wp_mono; [by apply Hm|]. intros a s' [Ha Hs']. by apply Hk. Qed.

Lemma hk_lcreate s : hinv B L s → wp P t_lcreate (λ r s', reply_ok TLCREATE r ∧ hnext s') s.
Proof using HB HP Ht HL.
  intros Hs. eapply step_or; [by apply hk_u32|done| |done]. intros dfid s1 _ H1.
  eapply step_or; [by apply hk_str|done| |done]. intros name s2 Hn H2. cbn in Hn.
  eapply step_bind; [by apply hk_u32|done|]. intros _ s3 _ H3.
  eapply step_or; [by apply hk_u32|done| |done]. intros mode s4 _ H4.
  eapply step_bind; [by apply hk_u32|done|]. intros _ s5 _ H5.
  eapply step_bind; [by apply hk_fresh|done|]. intros [dir|e] s6 Hdir H6.
  2:{ apply wp_ret. split; [done|by left]. }
  apply link_step; [done|done|done| |done|done|].
  { split; cbn; by apply Forall_nil. }
  intros n s7 Hnv H7. apply hk_S; [|done]. eapply hk_skip; [by apply hk_fs, bind_fid_keeps|].
  eapply hk_skip; [by apply hk_bump|]. eapply hk_skip; [by apply hk_mark_inode|]. apply hk_ok; [done|wbytes].
Qed.

Lemma hk_mkdir s : hinv B L s → wp P t_mkdir (λ r s', reply_ok TMKDIR r ∧ hnext s') s.
Proof using HB HP Ht HL.
  intros Hs. eapply step_or; [by apply hk_u32|done| |done]. intros dfid s1 _ H1.
  eapply step_or; [by apply hk_str|done| |done]. intros name s2 Hn H2. cbn in Hn.
  eapply step_bind; [by apply hk_u32|done|]. intros _ s3 _ H3.
  eapply step_bind; [by apply hk_u32|done|]. intros _ s5 _ H5.
  eapply step_bind; [by apply hk_fresh|done|]. intros [dir|e] s6 Hdir H6.
  2:{ apply wp_ret. split; [done|by left]. }
  apply link_step; [done|done|done| |done|done|].
  { split; cbn; by apply Forall_nil. }
  intros n s7 Hnv H7. apply hk_S; [|done].
  eapply hk_skip; [by apply hk_bump|]. eapply hk_skip; [by apply hk_mark_inode|]. apply hk_ok; [done|wbytes].
Qed.

Lemma handle_msg_ok ty d body : (oversized ty body → P) → hinv B L (d, Cur.new body) →
  wp P (handle_msg ty) (λ r s', reply_ok ty r ∧ hnext s') (d, Cur.new body).
Proof using HB HP Ht HL.
  intros HO Hs. unfold handle_msg.
  repeat match goal with |- context [ty =? ?k] => destruct (Z.eqb_spec ty k) as [->|]; cbn [Z.eqb] end.
  all: try (by apply hk_lcreate). all: try (by apply hk_mkdir).
  - apply hk_next; [by apply hk_version|done].
  - apply hk_next; [by apply hk_attach|done].
  - apply hk_next; [by apply hk_walk|done].
  - apply hk_next; [by apply hk_getattr|done].
  - apply hk_next; [by apply hk_lopen|done].
  - apply hk_next; [by apply hk_read|done].
  - eapply wp_mono; [by apply hk_write|]. intros r s' [Hr Hs']. split; [done|by left].
  - apply hk_next; [by apply hk_readdir|done].
  - eapply wp_mono; [by apply hk_setattr|]. intros r s' [Hr Hs']. split; [done|by left].
  - apply hk_next; [by apply hk_clunk|done].
  - apply hk_next; [by apply hk_remove|done].
  - apply hk_next; [by apply hk_unlinkat|done].
  - apply hk_next; [by apply hk_statfs|done].
  - apply hk_next; [by apply hk_ok|done].
  - apply hk_next; [by apply hk_ok|done].
  - apply hk_next; [by apply hk_xattrwalk|done].
  - apply hk_next; [by apply hk_err|done].
Qed.

(** The reply to a message, when there is one now: its own type or an error,
    and the tag of the request. *)
Definition answers (msg r : list Z) : Prop :=
  ∃ ty body, (ty = byte_at msg 4 + 1 ∨ ty = RLERROR) ∧ is_byte ty ∧ Forall is_byte body
             ∧ r = frame ty (from_le_bytes (take 2 (drop 5 msg))) body.

Definition dnext (d : Virtio9p.t) : Prop := dinv B L d ∨ dinv B (S L) d.

Lemma dispatch_ok msg d : Forall is_byte msg → (oversized (byte_at msg 4) (drop 7 msg) → P) → dinv B L d →
  wp P (dispatch msg)
    (λ r d', dnext d' ∧ (7 <= Z.of_nat (length msg) → defer_pending d' = None → answers msg r)
             ∧ (Z.of_nat (length msg) < 7 ∨ is_Some (defer_pending d') → r = [])) d.
Proof using HB HP Ht HL.
  intros Hm HO Hd. unfold dispatch, wp. destruct (Z.ltb_spec (Z.of_nat (length msg)) 7) as [Hl|Hl].
  { split_and!; [by left|lia|done]. }
  pose proof (handle_msg_ok (byte_at msg 4) d (drop 7 msg) HO) as Hh. unfold wp in Hh.
  destruct (handle_msg _ _) as [[r [d' c]]|]; [|apply Hh; split; [done|by apply Forall_drop]].
  destruct Hh as [Hr Hn]; [split; [done|by apply Forall_drop]|].
  assert (Hd' : dnext d') by (destruct Hn as [[Hn _]|[Hn _]]; [by left|by right]).
  destruct (defer_pending d') eqn:Ep.
  { split_and!; [done|intros _; by rewrite Ep|done]. }
  assert (Hno : ∀ r' : list Z, Z.of_nat (length msg) < 7 ∨ is_Some (defer_pending d') → r' = []).
  { intros r' [?|Hs]; [lia|]. rewrite Ep in Hs. by apply is_Some_None in Hs. }
  destruct r as [[t w]|e]; split_and!; auto; intros _ _.
  - destruct Hr as (-> & Hty & Hw). eexists _, _. split_and!; [by left|exact Hty|exact Hw|done].
  - eexists RLERROR, _. split_and!; [by right|done| |reflexivity]. apply to_le_bytes_bytes.
Qed.
End Messages.

(** * The device keeps its promises *)

Section Device.
Context {PR : Profile} {T : Target} {Ht : TargetOk T}.

Definition p9_inv (d : Virtio9p.t) : Prop := dinv false 0 d.
Abbreviation pkeeps l := (keeps True (dev_mem p9_inv l)).

Lemma false_dinv L d : dinv false L d → p9_inv d.
Proof.
  intros [[Hf _] Htag Hp Hh]. constructor; [by split|done| |].
  - by destruct (defer_pending d) as [[[[[? ?] ?] ?] ?]|].
  - eapply Forall_impl; [exact Hh|]. intros h (_ & Hm). split; [done|exact Hm].
Qed.

Lemma dispatch_keeps msg : Forall is_byte msg → keeps True p9_inv (dispatch msg) (Forall is_byte).
Proof.
  intros Hm d Hd. eapply wp_mono.
  { apply (dispatch_ok false True ltac:(done) ltac:(done) 0 ltac:(done) msg d Hm ltac:(done) Hd). }
  intros r d' (Hn & Ha & Hnil). split; [|destruct Hn as [Hn|Hn]; by apply false_dinv in Hn].
  destruct (decide (7 <= Z.of_nat (length msg))) as [Hl|Hl]; [|rewrite Hnil by lia; by apply Forall_nil].
  destruct (decide (is_Some (defer_pending d'))) as [Hp|Hp]; [rewrite Hnil by auto; by apply Forall_nil|].
  rewrite <- eq_None_not_Some in Hp. destruct (Ha Hl Hp) as (ty & body & _ & Hty & Hb & ->).
  unfold frame. rewrite !Forall_app, Forall_singleton. split_and!; try apply to_le_bytes_bytes; done.
Qed.

Lemma pk_lift l {A} (o : option A) : pkeeps l (lift o) (λ _, True).
Proof. apply keeps_lift. by destruct o. Qed.

Lemma pk_upd l f : (∀ d, p9_inv d → p9_inv (f d)) → pkeeps l (on_fst (modify f)) (λ _, True).
Proof. intros Hf. by apply (keeps_on_fst True p9_inv), keeps_modify. Qed.

Lemma pk_get l {A} (f : Virtio9p.t → A) R : (∀ d, p9_inv d → R (f d)) → pkeeps l (on_fst (get f)) R.
Proof. intros Hf. by apply (keeps_on_fst True p9_inv), keeps_get. Qed.

Lemma send_keeps l bufs r : Forall is_byte r → pkeeps l (send_reply bufs r) (urange 32).
Proof.
  intros Hr. unfold send_reply. eapply keeps_bind; [apply pk_lift|]. intros cap _. cbv zeta.
  apply keeps_seq; [by apply (keeps_on_snd True p9_inv), sg_write_keeps, Forall_take|].
  apply keeps_ret. apply wrap_range. lia.
Qed.

Lemma park_inv p head bufs msg d : Forall is_byte msg → urange 16 head → p9_inv d →
  p9_inv (park p head bufs msg d).
Proof.
  intros Hm Hh [Hf Htag _ Hheld]. destruct p as [[[[kind path] off] len] target]. constructor; [done|done|done|].
  cbn. rewrite Forall_app, Forall_singleton. split; [done|by split].
Qed.

Lemma p9_handle_keeps l q c : urange 16 (Chain.head c) → pkeeps l (p9_handle q c) (urange 32).
Proof.
  intros Hh. unfold p9_handle. eapply keeps_bind; [apply pk_lift|]. intros n _.
  destruct (_ <? _); [by apply keeps_ret|].
  eapply (keeps_bind _ _ _ _ (mem_inv l)); [by apply (keeps_on_snd True p9_inv), keeps_get|]. intros m Hm.
  eapply (keeps_bind _ _ _ _ (λ r, Forall is_byte r.1)).
  { apply keeps_lift. destruct (sg_read _ _ _ _ _) eqn:E; [|done].
    eapply sg_read_bytes; [done| |done]. apply Forall_replicate. by unfold is_byte, urange. }
  intros [msg got] Hb. cbn in Hb. apply keeps_seq; [apply pk_upd; intros d []; by constructor|].
  eapply keeps_bind; [by apply (keeps_on_fst True p9_inv), dispatch_keeps|]. intros r Hr.
  eapply keeps_bind; [by apply (pk_get l defer_pending (λ _, True))|]. intros [p|] _; [|by apply send_keeps].
  apply keeps_seq; [|by apply keeps_ret]. apply pk_upd. intros d Hd.
  by destruct (park_inv p (Chain.head c) (Chain.writable c) msg d Hb Hh Hd).
Qed.

Lemma take_held_elem id hs h hs' : take_held id hs = Some (h, hs') → h ∈ hs ∧ ∀ x, x ∈ hs' → x ∈ hs.
Proof.
  revert h hs'. induction hs as [|y hs IH]; intros h hs'; [done|]. cbn [take_held].
  destruct (_ =? _); [intros [= -> ->]; set_solver|].
  destruct (take_held id hs) as [[x xs]|]; [|done]. cbn. intros [= -> <-].
  destruct (IH h xs eq_refl) as [H1 H2]. set_solver.
Qed.

Lemma fill_bytes h payload : Forall is_byte payload →
  keeps True (finv false 0) (fill_in h payload) (λ _, True).
Proof.
  intros Hp. unfold fill_in. destruct (_ =? _).
  { apply set_inode_keeps; [done|done|]. intros n [_ Hn]. by split_and!. }
  destruct (_ =? _); [|by apply keeps_ret].
  apply keeps_seq; [|apply set_inode_keeps; [done|done|]; intros n Hn; by split_and!].
  generalize (length payload) as fuel. intros fuel. revert payload Hp.
  induction fuel as [|fuel IH]; intros l Hl; cbn [apply_listing]; [by apply keeps_ret|].
  destruct (_ <? _); [by apply keeps_ret|]. cbv zeta. destruct (_ <? _); [by apply keeps_ret|].
  unfold from_utf8. destruct (valid_from _ _); [|by apply keeps_ret].
  eapply (keeps_bind _ _ _ _ (λ _, True)); [by apply keeps_get|]. intros f _.
  eapply (keeps_bind _ _ _ _ (λ _, True)).
  { case_bool_decide; [by apply keeps_ret|]. eapply (keeps_bind _ _ _ _ (λ _, True)).
    - apply keeps_lift. by destruct (P9Fs.child _ _ _).
    - intros c _. by apply keeps_ret. }
  intros [] _.
  - apply keeps_seq; [by apply keeps_ret|]. apply IH. by do 3 apply Forall_drop.
  - apply keeps_seq; [|apply IH; by do 3 apply Forall_drop]. apply keeps_seq; [|by apply keeps_ret].
    intros g Hg. eapply wp_mono.
    { apply (link_new_keeps false True ltac:(done) 0); [done|done|done| |by destruct (negb _)..].
      by apply Forall_take, Forall_drop. }
    intros n g' [_ Hg']. split; [done|]. split; [apply Hg'|done].
Qed.

Lemma p9_supply_keeps l id payload : Forall is_byte payload →
  pkeeps l (p9_supply id payload)
    (λ r, match r with Some (q, h, n) => q = 0 ∧ urange 16 h ∧ urange 32 n | None => True end).
Proof.
  intros Hp. unfold p9_supply.
  eapply keeps_bind; [apply (pk_get l held (Forall (λ h, Forall is_byte (Held.msg h) ∧ urange 16 (Held.head h))))|].
  { intros d []. eapply Forall_impl; [done|]. by intros h (_ & Hh). }
  intros hs Hhs. destruct (take_held id hs) as [[h hs']|] eqn:E; [|by apply keeps_ret].
  apply take_held_elem in E as [Hin Hsub]. rewrite Forall_forall in Hhs. destruct (Hhs h Hin) as [Hm Hh].
  apply keeps_seq.
  { apply pk_upd. intros d []. constructor; try done. cbn. apply Forall_forall. intros x Hx. split; [done|].
    by apply Hhs, Hsub. }
  apply keeps_seq.
  { apply (keeps_on_fst True p9_inv), (keeps_zoom _ _ (finv false 0)); [by apply fill_bytes|by intros d []|].
    intros d f [] Hf. by constructor. }
  apply keeps_seq; [apply pk_upd; intros d []; by constructor|].
  eapply keeps_bind; [by apply (keeps_on_fst True p9_inv), dispatch_keeps|]. intros r Hr.
  eapply keeps_bind; [by apply (pk_get l defer_pending (λ _, True))|]. intros [p|] _.
  - apply keeps_seq; [|by apply keeps_ret]. apply pk_upd. intros d Hd. by apply park_inv.
  - eapply keeps_bind; [by apply send_keeps|]. intros n Hn. by apply keeps_ret.
Qed.

Lemma config_p9_range d off : p9_inv d → urange 8 (config d off).
Proof.
  intros []. unfold config. cbv zeta. split_ifs; try (apply wrap_range; lia).
  unfold vec_get. destruct (_ && _); [|done]. destruct (_ !! _) eqn:E; [|done]. cbn.
  by eapply Forall_lookup_1 in E.
Qed.

#[global] Instance share_ok : DeviceOk Virtio9p.t.
Proof.
  refine {| dev_inv := p9_inv |}; intros; try (by apply keeps_ret).
  - by cbn.
  - by apply config_p9_range.
  - by apply p9_handle_keeps.
  - eapply keeps_mono; [by apply p9_supply_keeps|]. intros [[[q h] n]|]; [|done]. by intros (-> & ?).
  - eapply keeps_bind; [by apply (keeps_get _ _ _ (λ _, True))|]. intros b _.
    apply keeps_seq; [|by apply keeps_ret]. apply keeps_modify. intros d []. by constructor.
Defined.

(** Fresh servers, and the host's updates. *)
Lemma p9_new_inv lz name : Forall is_byte name →
  p9_inv (if lz : bool then Virtio9p.new_lazy name else Virtio9p.new name).
Proof.
  intros Hn. assert (Hd : node_bytes (Inode.dir 0)) by (split; by apply Forall_nil).
  destruct lz; (constructor; [split; [by apply Forall_singleton|done]|exact Hn|done|by apply Forall_nil]).
Qed.

Lemma set_lazy_inv d : p9_inv d → p9_inv (p9_set_lazy d).
Proof.
  intros [_ Ht' _ _]. assert (Hd : node_bytes (Inode.dir 0)) by (split; by apply Forall_nil).
  constructor; [split; [by apply Forall_singleton|done]|exact Ht'|done|by apply Forall_nil].
Qed.

Lemma segments_bytes path : Forall is_byte path → Forall (Forall is_byte) (segments path).
Proof.
  intros Hp. assert (Hs : ∀ cur, Forall is_byte cur → Forall (Forall is_byte) (split_slash path cur)).
  { induction Hp as [|c l Hc Hl IH]; intros cur Hcur; cbn; [by apply Forall_singleton|].
    destruct (_ =? _).
    - constructor; [done|]. apply IH. by apply Forall_nil.
    - apply IH. rewrite Forall_app, Forall_singleton. by split. }
  unfold segments. apply Forall_forall. intros x [_ Hx]%list_elem_of_filter.
  specialize (Hs [] ltac:(by apply Forall_nil)). rewrite Forall_forall in Hs. auto.
Qed.

Abbreviation bkeeps := (keeps True (finv false 0)).

Lemma link_bytes dir name node : Forall is_byte name → node_bytes node →
  Inode.children node = [] → Inode.parent node = dir → bkeeps (link_new dir name node) (λ _, True).
Proof.
  intros Hn Hnb Hc Hp f Hf. eapply wp_mono; [apply (link_new_keeps false True ltac:(done) 0); done|].
  intros n f' [_ [Hf' _]]. by split; [|split].
Qed.

Lemma child_lift f dir name : bkeeps (lift (P9Fs.child f dir name)) (λ _, True).
Proof. apply keeps_lift. by destruct (P9Fs.child _ _ _). Qed.

Lemma enter_dirs_keeps segs : Forall (Forall is_byte) segs → ∀ cur, bkeeps (enter_dirs segs cur) (λ _, True).
Proof.
  induction 1 as [|seg segs Hs _ IH]; intros cur; cbn [enter_dirs]; [by apply keeps_ret|].
  eapply (keeps_bind _ _ _ _ (λ _, True)); [|by intros; apply IH]. unfold enter_dir.
  eapply (keeps_bind _ _ _ _ (λ _, True)); [by apply keeps_get|]. intros f _.
  eapply keeps_bind; [apply child_lift|]. intros c _. eapply (keeps_bind _ _ _ _ (λ _, True)).
  { apply keeps_lift. by destruct (match c with Some _ => _ | None => _ end). }
  intros [i|] _; [by apply keeps_ret|]. apply link_bytes; [done|split; by apply Forall_nil|done|done].
Qed.

Lemma put_keeps path data : Forall is_byte path → Forall is_byte data →
  keeps True p9_inv (p9_put path data) (λ _, True).
Proof.
  intros Hp Hd. apply keeps_seq; [|by apply keeps_ret].
  apply (keeps_zoom _ _ (finv false 0)); [|by intros d []|by intros d f [] Hf; constructor].
  unfold put_file. pose proof (segments_bytes path Hp) as Hs. apply Forall_rev in Hs.
  destruct (rev (segments path)) as [|leaf dirs]; [by apply keeps_ret|]. apply Forall_cons in Hs as [Hl Hds].
  eapply keeps_bind; [by apply enter_dirs_keeps, Forall_rev|]. intros cur _. unfold put_leaf.
  eapply (keeps_bind _ _ _ _ (λ _, True)); [by apply keeps_get|]. intros f _.
  eapply keeps_bind; [apply child_lift|]. intros [i|] _.
  - eapply (keeps_bind _ _ _ _ (λ _, True)); [apply keeps_lift; by destruct (inode_at _ _)|]. intros n _.
    destruct (Inode.is_dir n); [by apply keeps_ret|]. apply set_inode_keeps; [done|done|].
    intros m [_ Hm]. by split_and!.
  - apply keeps_seq; [|by apply keeps_ret]. apply link_bytes; [done| |done|done]. split; [done|by apply Forall_nil].
Qed.

Lemma mkdir_keeps path : Forall is_byte path → keeps True p9_inv (p9_mkdir path) (λ _, True).
Proof.
  intros Hp. apply (keeps_zoom _ _ (finv false 0)); [|by intros d []|by intros d f [] Hf; constructor].
  apply keeps_seq; [by apply enter_dirs_keeps, segments_bytes|by apply keeps_ret].
Qed.

Lemma changes_keeps : keeps True p9_inv p9_take_changes (λ _, True).
Proof.
  eapply (keeps_bind _ _ _ _ (λ _, True)); [by apply keeps_get|]. intros d _.
  apply keeps_seq; [apply keeps_modify; intros d' []; by constructor|].
  eapply (keeps_bind _ _ _ _ (λ _, True)); [apply keeps_lift; by destruct (mapM _ _)|].
  intros l _. by apply keeps_ret.
Qed.
End Device.
