(* ===== verification/P9Props.v ===== *)
(** What the 9p file server answers.

    The requests are written out as the client sends them, and the theorems say
    what the whole message handler does with them: a session of well-sized
    messages is answered to the end; what was written is what is read, and what
    the host is told; following the cookies of a directory lists every entry
    once; a read that waits for the host returns the host's bytes. *)

From S2P Require Import Prelude Keeps State Stream Virtio VirtioSg VirtioQueue VirtioSafe P9Fs Virtio9p P9Safe.
Import P9Fs Virtio9p.

(** * Requests *)

Definition write_body (fid off : Z) (src : list Z) : list Z :=
  to_le_bytes 4 fid ++ to_le_bytes 8 off ++ to_le_bytes 4 (Z.of_nat (length src)) ++ src.
Definition read_body (fid off count : Z) : list Z :=
  to_le_bytes 4 fid ++ to_le_bytes 8 off ++ to_le_bytes 4 count.

(** [size[4] type[1] tag[2] body] *)
Definition request (ty tag : Z) (body : list Z) : list Z := frame ty tag body.

Lemma arg_at_head n x r : urange (8 * Z.of_nat n) x → arg_at n 0 (to_le_bytes n x ++ r) = x.
Proof.
  intros Hx. unfold arg_at. rewrite drop_0, take_app_length' by (by rewrite length_to_le_bytes).
  by rewrite from_to_le_bytes, wrap_small.
Qed.

Lemma arg_at_skip n m off x r : arg_at n (m + off) (to_le_bytes m x ++ r) = arg_at n off r.
Proof.
  unfold arg_at. do 2 f_equal. rewrite drop_app_ge by (rewrite length_to_le_bytes; lia).
  f_equal. rewrite length_to_le_bytes. lia.
Qed.

(** The fields of a read and of a write, wherever the rest of the body goes. *)
Lemma io_args fid off count r :
  urange 32 fid → urange 64 off → urange 32 count →
  let body := to_le_bytes 4 fid ++ to_le_bytes 8 off ++ to_le_bytes 4 count ++ r in
  arg_at 4 0 body = fid ∧ arg_at 8 4 body = off ∧ arg_at 4 12 body = count.
Proof.
  intros. subst body. split_and!; [by apply arg_at_head| |].
  - rewrite (arg_at_skip 8 4 0). by apply arg_at_head.
  - rewrite (arg_at_skip 4 4 8), (arg_at_skip 4 8 0). by apply arg_at_head.
Qed.

(** * Contents *)

(** The bytes of [l] from [off] to [off + n]. *)
Definition window (get : Z → Z) (off n : Z) : list Z := get <$> seqZ off n.

(** A file after [src] was written at [off]: the source, the old bytes around
    it, and zeroes in a gap. *)
Definition put_byte (data : list Z) (off : Z) (src : list Z) (i : Z) : Z :=
  if (off <=? i) && (i <? off + Z.of_nat (length src)) then byte_at src (Z.to_nat (i - off))
  else byte_at data (Z.to_nat i).

Lemma byte_at_lookup l i : (i < length l)%nat → l !! i = Some (byte_at l i).
Proof. intros Hi. unfold byte_at. rewrite nth_lookup. by destruct (lookup_lt_is_Some_2 l i Hi) as [x ->]. Qed.

Lemma byte_at_past l i : (length l <= i)%nat → byte_at l i = 0.
Proof. intros. by apply nth_overflow. Qed.

Section Contents.
Context {PR : Profile} {T : Target} {Ht : TargetOk T}.

Lemma read_slice_window l off count :
  0 <= off → 0 <= count → Z.of_nat (length l) < 2 ^ usize_bits →
  read_slice l off count
  = window (λ i, byte_at l (Z.to_nat i)) off (Z.min (off + count) (Z.of_nat (length l)) - off).
Proof using Ht.
  intros Ho Hc Hl. unfold read_slice, window. set (len := Z.of_nat (length l)) in *.
  replace (Z.min (Z.min (off + count) (2 ^ usize_bits - 1)) len) with (Z.min (off + count) len) by lia.
  destruct (Z.ltb_spec off len) as [Hlt|Hge].
  - apply list_eq. intros i. rewrite list_lookup_fmap. set (k := Z.min (off + count) len - off).
    destruct (decide (i < Z.to_nat k)%nat) as [Hi|Hi].
    + rewrite lookup_take_lt by done. rewrite lookup_drop, lookup_seqZ_lt by lia. cbn.
      rewrite byte_at_lookup by lia. do 2 f_equal. lia.
    + rewrite lookup_take_ge by lia. rewrite lookup_seqZ_ge by lia. done.
  - rewrite seqZ_nil by lia. done.
Qed.

(** [write_slice] against the bytes of the file: its length and every byte. *)
Lemma write_slice_spec data off src :
  0 <= off → off + Z.of_nat (length src) < 2 ^ (usize_bits - 1) →
  ∃ new, write_slice data off src = Some new
    ∧ Z.of_nat (length new) = Z.max (Z.of_nat (length data)) (off + Z.of_nat (length src))
    ∧ ∀ i, 0 <= i → byte_at new (Z.to_nat i) = put_byte data off src i.
Proof using Ht.
  intros Ho Hw. pose proof usize_half as Hh. pose proof usize_wide.
  unfold write_slice. rewrite add_u_small by (unfold urange; lia). cbn [mbind option_bind].
  set (n := Z.of_nat (length src)) in *. set (e := off + n) in *.
  set (base := data ++ replicate (Z.to_nat e - length data) 0).
  assert (Eb : (if Z.of_nat (length data) <? e then vec_resize data e else Some data) = Some base).
  { subst base. destruct (Z.ltb_spec (Z.of_nat (length data)) e).
    - unfold vec_resize. destruct (Z.leb_spec (2 ^ (usize_bits - 1)) e); [lia|].
      by rewrite take_ge by lia.
    - replace (Z.to_nat e - length data)%nat with 0%nat by lia. by rewrite app_nil_r. }
  rewrite Eb. cbn [mbind option_bind].
  assert (Hlb : Z.of_nat (length base) = Z.max (Z.of_nat (length data)) e).
  { subst base. rewrite length_app, length_replicate. lia. }
  unfold slice_get. destruct (Z.leb_spec off e); [|lia]. destruct (Z.leb_spec e (Z.of_nat (length base))); [|lia].
  cbn [andb mbind option_bind]. eexists. split; [done|].
  assert (Hfit : (Z.to_nat off + length src <= length base)%nat) by lia.
  split; [rewrite length_splice by done; lia|].
  assert (Hold : ∀ k, byte_at base k = byte_at data k).
  { intros k. unfold byte_at. destruct (decide (k < length data)%nat).
    - by apply app_nth1.
    - rewrite (nth_overflow data) by lia. unfold base. rewrite app_nth2 by lia. rewrite nth_lookup.
      destruct (replicate _ _ !! _) eqn:E; [by apply lookup_replicate in E as [-> _]|done]. }
  intros i Hi. unfold put_byte. fold n. fold e. unfold byte_at at 1. rewrite nth_lookup, lookup_splice by done.
  destruct (decide _) as [Hin|Hout].
  - destruct (Z.leb_spec off i), (Z.ltb_spec i e); try lia. cbn [andb].
    rewrite byte_at_lookup by lia. cbn. f_equal. lia.
  - replace ((off <=? i) && (i <? e)) with false by lia. rewrite <- (Hold (Z.to_nat i)).
    unfold byte_at. by rewrite nth_lookup.
Qed.
End Contents.

Lemma slice_tail {A} (pre l : list A) k :
  Z.of_nat (length pre) = k → slice_get (pre ++ l) k (k + Z.of_nat (length l)) = Some l.
Proof. intros <-. rewrite <- (app_nil_r l) at 1. by apply slice_get_app. Qed.

(** * Running a handler *)

Section Run.
Context {PR : Profile} {T : Target} {Ht : TargetOk T}.
Lemma or_run {X} n e (k : Z → M (Virtio9p.t * Cur.t) (Result X Z)) d body p :
  (n + p < 1000)%nat → (n + p <= length body)%nat →
  ok_or (arg (Reader.fixed (Z.of_nat n))) e k (d, Reader.mk body (Z.of_nat p))
  = k (arg_at n p body) (d, Reader.mk body (Z.of_nat (n + p))).
Proof using Ht.
  intros Hn Hl. unfold ok_or, arg.  rewrite M_bind_run. unfold on_snd. rewrite fixed_at by done.
  destruct (Nat.leb_spec (n + p) (length body)); [done|lia].
Qed.

Lemma skip_run {X} n (k : option Z → M (Virtio9p.t * Cur.t) X) d body p :
  (n + p < 1000)%nat → (n + p <= length body)%nat →
  (arg (Reader.fixed (Z.of_nat n)) ≫= k) (d, Reader.mk body (Z.of_nat p))
  = k (Some (arg_at n p body)) (d, Reader.mk body (Z.of_nat (n + p))).
Proof using Ht.
  intros Hn Hl. unfold arg. rewrite M_bind_run. unfold on_snd. rewrite fixed_at by done.
  destruct (Nat.leb_spec (n + p) (length body)); [done|lia].
Qed.

Lemma self_run {A X} (f : Virtio9p.t → A) (k : A → M (Virtio9p.t * Cur.t) X) d c :
  (self_get f ≫= k) (d, c) = k (f d) (d, c).
Proof. done. Qed.

Lemma fid_run {X} e (k : Z → M (Virtio9p.t * Cur.t) (Result X Z)) fid d c ino :
  fids (fs d) !! fid = Some ino → ok_or (fid_inode fid) e k (d, c) = k ino (d, c).
Proof. intros Hf. unfold ok_or, fid_inode. rewrite self_run. by rewrite Hf. Qed.

Lemma node_run {X} (k : Inode.t → M (Virtio9p.t * Cur.t) X) i d c n :
  inode_at (fs d) i = Some n → (node_of i ≫= k) (d, c) = k n (d, c).
Proof. intros Hn. rewrite M_bind_run. unfold node_of. rewrite self_run. unfold lift. by rewrite Hn. Qed.

Lemma set_inode_run i g f n : inode_at f i = Some n →
  set_inode i g f = Some (tt, f <| inodes := <[Z.to_nat i := g n]> (inodes f) |>).
Proof. intros E. unfold set_inode, mbind, M_bind, get, lift, id. by rewrite E. Qed.

Lemma bump_run {X} (k : unit → M (Virtio9p.t * Cur.t) X) d c :
  0 <= dirty (fs d) < 2 ^ 64 - 1 →
  (bump_dirty ≫= k) (d, c) = k tt (set_fs ((fs d) <| dirty := dirty (fs d) + 1 |>) d, c).
Proof.
  intros Hd. rewrite M_bind_run. unfold bump_dirty. rewrite self_run, M_bind_run. unfold lift.
  rewrite add_u_small by (unfold urange; lia). done.
Qed.

Lemma mark_run {X} (k : unit → M (Virtio9p.t * Cur.t) X) ino op d c p :
  path_of (fs d) ino = Some p → (mark_inode ino op ≫= k) (d, c) = k tt (mark p op d, c).
Proof. intros Hp. rewrite M_bind_run. unfold mark_inode. rewrite self_run, M_bind_run. unfold lift. by rewrite Hp. Qed.

Lemma fs_run {A X} (m : M P9Fs.t A) (k : A → M (Virtio9p.t * Cur.t) X) d c a f :
  m (fs d) = Some (a, f) → (self_fs m ≫= k) (d, c) = k a (set_fs f d, c).
Proof. intros Em. rewrite M_bind_run. unfold self_fs, on_fst, on_fs, zoom. by rewrite Em. Qed.
End Run.

(** The next field of the message. *)
Ltac run_arg n := etransitivity; [apply (or_run n); lia|].

(** One message through [dispatch]. *)
Section Dispatch.
Context {PR : Profile} {T : Target} {Ht : TargetOk T}.

Lemma frame_parts ty tag body : urange 16 tag →
  let m := request ty tag body in
  7 <= Z.of_nat (length m) ∧ byte_at m 4 = ty ∧ from_le_bytes (take 2 (drop 5 m)) = tag ∧ drop 7 m = body.
Proof.
  intros Htag. cbn. split_and!; [lia|done| |done].
  rewrite <- (wrap_small (8 * Z.of_nat 2) tag) at 3 by done. by rewrite <- from_to_le_bytes.
Qed.

Lemma dispatch_ready ty tag body d rt w d' c :
  urange 16 tag → handle_msg ty (d, Cur.new body) = Some (Ok (rt, w), (d', c)) → defer_pending d' = None →
  dispatch (request ty tag body) d = Some (frame rt tag (W.bytes w), d').
Proof.
  intros Htag Eh Ep. destruct (frame_parts ty tag body Htag) as (Hl & Hty & Htg & Hb). unfold dispatch.
  destruct (Z.ltb_spec (Z.of_nat (length (request ty tag body))) 7); [lia|]. by rewrite Hty, Htg, Hb, Eh, Ep.
Qed.

Lemma dispatch_parked ty tag body d r d' c :
  urange 16 tag → handle_msg ty (d, Cur.new body) = Some (r, (d', c)) → is_Some (defer_pending d') →
  dispatch (request ty tag body) d = Some ([], d').
Proof.
  intros Htag Eh [p Ep]. destruct (frame_parts ty tag body Htag) as (Hl & Hty & Htg & Hb). unfold dispatch.
  destruct (Z.ltb_spec (Z.of_nat (length (request ty tag body))) 7); [lia|]. by rewrite Hty, Htg, Hb, Eh, Ep.
Qed.

(** * Reading and writing a file *)

(** The file [n], an inode of the server, under an open fid. *)
Record opened (d : Virtio9p.t) (fid ino : Z) (n : Inode.t) : Prop := {
  op_fid : fids (fs d) !! fid = Some ino;
  op_node : inode_at (fs d) ino = Some n;
  op_file : Inode.is_dir n = false;
}.

Definition content (new : list Z) (n : Inode.t) : Inode.t :=
  n <| Inode.data := new |> <| Inode.loaded := true |> <| Inode.size := Z.of_nat (length new) |>.

(** The server after a write of [new] to [ino], found at [path]. *)
Definition wrote (d : Virtio9p.t) (ino : Z) (n : Inode.t) (new path : list Z) : Virtio9p.t :=
  mark path 0 (set_fs ((fs d) <| inodes := <[Z.to_nat ino := content new n]> (inodes (fs d)) |>
                              <| dirty := dirty (fs d) + 1 |>) d).

(** Paths and lookups see only the names and the parents. *)
Definition skeleton (f : P9Fs.t) : list (list (list Z * Z) * Z) :=
  (λ n, (Inode.children n, Inode.parent n)) <$> inodes f.

Lemma skeleton_at f f' i : skeleton f = skeleton f' →
  (λ n, (Inode.children n, Inode.parent n)) <$> inode_at f i
  = (λ n, (Inode.children n, Inode.parent n)) <$> inode_at f' i.
Proof. intros E. unfold inode_at. rewrite <- !list_lookup_fmap. unfold skeleton in E. by rewrite E. Qed.

Lemma skeleton_parts f f' : skeleton f = skeleton f' → ∀ fuel ino parts,
  path_parts fuel f ino parts = path_parts fuel f' ino parts.
Proof.
  intros E. induction fuel as [|fuel IH]; intros ino parts; cbn [path_parts]; [done|].
  destruct (ino =? 0); [done|]. pose proof (skeleton_at f f' ino E) as Ei.
  destruct (inode_at f ino) as [n|], (inode_at f' ino) as [n'|]; cbn in Ei; try done.
  injection Ei as _ Ep. cbn [mbind option_bind]. rewrite Ep.
  pose proof (skeleton_at f f' (Inode.parent n') E) as Ej.
  destruct (inode_at f (Inode.parent n')) as [m|], (inode_at f' (Inode.parent n')) as [m'|];
    cbn in Ej; try done. injection Ej as Ec _. cbn [mbind option_bind]. rewrite Ec. apply IH.
Qed.

Lemma skeleton_path f f' ino : skeleton f = skeleton f' → path_of f ino = path_of f' ino.
Proof.
  intros E. unfold path_of. assert (length (inodes f) = length (inodes f')) as ->.
  { apply (f_equal length) in E. unfold skeleton in E. by rewrite !length_fmap in E. }
  f_equal. by apply skeleton_parts.
Qed.

Lemma skeleton_resolve f f' : skeleton f = skeleton f' → ∀ segs cur,
  resolve_from f segs cur = resolve_from f' segs cur.
Proof.
  intros E. induction segs as [|seg segs IH]; intros cur; cbn [resolve_from]; [done|].
  unfold P9Fs.child. pose proof (skeleton_at f f' cur E) as Ei.
  destruct (inode_at f cur) as [n|], (inode_at f' cur) as [n'|]; cbn in Ei; try done.
  injection Ei as Ec _. cbn [mbind option_bind]. rewrite Ec. destruct (find_name _ _); [apply IH|done].
Qed.

Lemma skeleton_insert f i n n' g :
  inodes f !! i = Some n → Inode.children n' = Inode.children n → Inode.parent n' = Inode.parent n →
  inodes g = <[i := n']> (inodes f) → skeleton g = skeleton f.
Proof.
  intros En Ec Ep Eg. unfold skeleton. rewrite Eg. rewrite list_fmap_insert, Ec, Ep.
  apply list_insert_id. rewrite list_lookup_fmap, En. done.
Qed.

Lemma mark_frame path op d : fs (mark path op d) = fs d ∧ lazy (mark path op d) = lazy d
  ∧ defer_pending (mark path op d) = defer_pending d.
Proof. unfold mark. by destruct (_ && _). Qed.

Lemma t_write_run d fid ino n off src path new :
  opened d fid ino n → path_of (fs d) ino = Some path →
  urange 32 fid → 0 <= off → off + Z.of_nat (length src) < 2 ^ (usize_bits - 1) →
  Z.of_nat (length src) < 2 ^ 32 →
  write_slice (Inode.data n) off src = Some new →
  0 <= dirty (fs d) < 2 ^ 64 - 1 →
  ∃ c, handle_msg TWRITE (d, Cur.new (write_body fid off src))
       = Some (Ok (TWRITE + 1, W.u32 W.new (Z.of_nat (length src))), (wrote d ino n new path, c)).
Proof using Ht.
  intros [Hfid Hn Hfile] Hpath Hf Ho Hw Hs Hnew Hd. pose proof usize_half. pose proof usize_wide.
  change (handle_msg TWRITE) with t_write.
  set (body := write_body fid off src). set (len := Z.of_nat (length src)) in *. assert (0 <= len) by apply Nat2Z.is_nonneg.
  destruct (io_args fid off len src Hf) as (E1 & E2 & E3); [unfold urange; lia|unfold urange; lia|].
  change (to_le_bytes 4 fid ++ to_le_bytes 8 off ++ to_le_bytes 4 len ++ src) with body in E1, E2, E3.
  assert (Hlen : length body = (16 + length src)%nat).
  { unfold body, write_body. rewrite !length_app, !length_to_le_bytes. lia. }
  assert (Hslice : slice_get body 16 (16 + len) = Some src).
  { unfold body, write_body. rewrite !app_assoc. apply (slice_tail _ src 16). by rewrite !length_app, !length_to_le_bytes. }
  eexists. unfold t_write. change (Cur.new body) with (Reader.mk body (Z.of_nat 0)).
  run_arg 4%nat. run_arg 8%nat. run_arg 4%nat. cbn [Nat.add].
  rewrite E1, E2, E3. cbv zeta. rewrite (wrap_small usize_bits off) by (unfold urange; lia).
  unfold ok_or at 1, arg. rewrite (snd_bind _ _ _ _ (Some src) (Reader.mk body (Z.of_nat 16))).
  2:{ rewrite M_bind_run. cbn [get id Reader.pos Reader.buf]. rewrite M_bind_run. unfold lift.
      rewrite add_u_small by (unfold urange; lia). unfold mret, M_ret. cbn [Reader.buf Reader.pos].
      by rewrite <- Hslice. }
  rewrite (fid_run _ _ _ _ _ _ Hfid), (node_run _ _ _ _ _ Hn), Hfile, (lift_bind _ _ _ _ Hnew).
  set (f1 := (fs d) <| inodes := <[Z.to_nat ino := content new n]> (inodes (fs d)) |>).
  erewrite fs_run by (by apply set_inode_run).
  rewrite bump_run by done. erewrite mark_run; [reflexivity|].
  rewrite <- Hpath. apply skeleton_path. by apply (skeleton_insert _ (Z.to_nat ino) n (content new n)).
Qed.

Lemma t_read_run d fid ino n off count :
  opened d fid ino n → lazy d && negb (Inode.loaded n) = false →
  urange 32 fid → urange 32 count → 0 <= off < 2 ^ (usize_bits - 1) →
  let s := read_slice (Inode.data n) off count in
  ∃ c, handle_msg TREAD (d, Cur.new (read_body fid off count))
       = Some (Ok (TREAD + 1, W.raw (W.u32 W.new (as_u32 (Z.of_nat (length s)))) s), (d, c)).
Proof using Ht.
  intros [Hfid Hn Hfile] Hlz Hf Hc Ho s. pose proof usize_half. pose proof usize_wide.
  change (handle_msg TREAD) with t_read. set (body := read_body fid off count).
  destruct (io_args fid off count [] Hf) as (E1 & E2 & E3); [unfold urange; lia|done|].
  rewrite app_nil_r in E1, E2, E3.
  change (to_le_bytes 4 fid ++ to_le_bytes 8 off ++ to_le_bytes 4 count) with body in E1, E2, E3.
  assert (Hlen : length body = 16%nat).
  { unfold body, read_body. by rewrite !length_app, !length_to_le_bytes. }
  eexists. unfold t_read. change (Cur.new body) with (Reader.mk body (Z.of_nat 0)).
  run_arg 4%nat. run_arg 8%nat. cbv zeta. run_arg 4%nat. cbn [Nat.add].
  rewrite E1, E2, E3. rewrite (wrap_small usize_bits off) by (unfold urange; lia).
  by rewrite (fid_run _ _ _ _ _ _ Hfid), (node_run _ _ _ _ _ Hn), self_run, Hfile, Hlz.
Qed.

Lemma wrote_opened d fid ino n new path : 0 <= ino →
  opened d fid ino n → opened (wrote d ino n new path) fid ino (content new n).
Proof.
  intros Hi [Hfid Hn Hfile]. destruct (mark_frame path 0 (set_fs ((fs d) <| inodes := <[Z.to_nat ino := content new n]> (inodes (fs d)) |>
    <| dirty := dirty (fs d) + 1 |>) d)) as (Ef & _ & _).
  unfold wrote. constructor; rewrite ?Ef; [exact Hfid| |exact Hfile].
  cbn. unfold inode_at in *. cbn. apply list_lookup_insert_eq. by eapply lookup_lt_Some.
Qed.

(** A write and the reads after it, over the bytes that the server holds for the
    file.  For a file that is still an unread stub these are not the host's. *)
Lemma write_then_read d L fid ino n off src tag :
  dinv true L d → opened d fid ino n → defer_pending d = None →
  urange 32 fid → urange 16 tag → Z.of_nat (length src) < 2 ^ 32 →
  0 <= off → off + Z.of_nat (length src) < 2 ^ (usize_bits - 1) →
  Z.of_nat (length (Inode.data n)) < 2 ^ (usize_bits - 1) →
  0 <= dirty (fs d) < 2 ^ 64 - 1 →
  ∃ d', dispatch (request TWRITE tag (write_body fid off src)) d
        = Some (frame (TWRITE + 1) tag (to_le_bytes 4 (Z.of_nat (length src))), d')
  ∧ ∀ off' count, 0 <= off' < 2 ^ (usize_bits - 1) → urange 32 count →
      let size := Z.max (Z.of_nat (length (Inode.data n))) (off + Z.of_nat (length src)) in
      let bytes := window (put_byte (Inode.data n) off src) off' (Z.min (off' + count) size - off') in
      dispatch (request TREAD tag (read_body fid off' count)) d'
      = Some (frame (TREAD + 1) tag (to_le_bytes 4 (Z.of_nat (length bytes)) ++ bytes), d').
Proof using Ht.
  intros Hd Hop Hp Hf Htag Hs Ho Hw Hn Hdirty. destruct (usize_half) as [Hub Hur].
  destruct (write_slice_spec (Inode.data n) off src Ho Hw) as (new & Enew & Hlen & Hbytes).
  destruct (di_fs _ _ _ Hd) as [_ Hwf]. destruct (Hwf eq_refl) as [Htree _].
  pose proof (tw_fid _ Htree _ _ (op_fid _ _ _ _ Hop)) as Hino.
  destruct (path_of_total (fs d) ino Htree Hino) as [path Hpath].
  destruct (t_write_run d fid ino n off src path new Hop Hpath Hf Ho Hw Hs Enew Hdirty) as [c Ec].
  set (d' := wrote d ino n new path) in *.
  assert (Hp' : defer_pending d' = None) by (unfold d', wrote; by rewrite (proj2 (proj2 (mark_frame _ _ _)))).
  exists d'. split; [exact (dispatch_ready _ _ _ _ _ _ _ _ Htag Ec Hp')|]. intros off' count Hoff' Hcount size bytes.
  destruct (t_read_run d' fid ino (content new n) off' count) as [c' Ec'];
    [apply wrote_opened; [lia|done]|cbn; by rewrite andb_false_r|done..|].
  cbn [Inode.data content] in Ec'. rewrite (read_slice_window new) in Ec' by (unfold urange in *; lia).
  assert (Ew : window (λ i, byte_at new (Z.to_nat i)) off' (Z.min (off' + count) (Z.of_nat (length new)) - off')
               = bytes).
  { unfold bytes, size. rewrite Hlen. apply list_fmap_ext. intros i x Hx.
    apply lookup_seqZ in Hx as [-> _]. apply Hbytes. lia. }
  rewrite Ew in Ec'. rewrite (dispatch_ready _ _ _ _ _ _ _ _ Htag Ec' Hp'). do 3 f_equal.
  cbn [W.raw W.u32 W.new Writer.u32 Writer.push W.bytes Writer.buf]. rewrite wrap_small; [done|].
  unfold bytes, window. rewrite length_fmap, length_seqZ. unfold urange in *. lia.
Qed.

(** C16: Writes are read back.  Take an open file whose content the server holds:
    one of an eager share, or a lazy one that has been loaded.  A Twrite of [src]
    at [off] to it is answered with its length, and after it a Tread of any part
    of the file returns, byte for byte, the source where it was written, the old
    content around it and zeroes in a gap the write jumped over; the read changes
    nothing.  The file has to stay below the largest allocation and the change
    counter must not overflow. *)
Theorem p9_write_read d L fid ino n off src tag :
  dinv true L d → opened d fid ino n → (lazy d = true → Inode.loaded n = true) →
  defer_pending d = None →
  urange 32 fid → urange 16 tag → Z.of_nat (length src) < 2 ^ 32 →
  0 <= off → off + Z.of_nat (length src) < 2 ^ (usize_bits - 1) →
  Z.of_nat (length (Inode.data n)) < 2 ^ (usize_bits - 1) →
  0 <= dirty (fs d) < 2 ^ 64 - 1 →
  ∃ d', dispatch (request TWRITE tag (write_body fid off src)) d
        = Some (frame (TWRITE + 1) tag (to_le_bytes 4 (Z.of_nat (length src))), d')
  ∧ ∀ off' count, 0 <= off' < 2 ^ (usize_bits - 1) → urange 32 count →
      let size := Z.max (Z.of_nat (length (Inode.data n))) (off + Z.of_nat (length src)) in
      let bytes := window (put_byte (Inode.data n) off src) off' (Z.min (off' + count) size - off') in
      dispatch (request TREAD tag (read_body fid off' count)) d'
      = Some (frame (TREAD + 1) tag (to_le_bytes 4 (Z.of_nat (length bytes)) ++ bytes), d').
Proof using Ht. intros Hd Hop _. by apply (write_then_read d L fid ino n off src tag). Qed.

(** An unread stub loses the host's bytes.  In lazy mode a file that the guest
    never read has no bytes here, whatever its size on the host.  A Twrite to it
    marks it as loaded all the same: from then on the file is the written bytes
    behind [off] zeroes, and ends where the write ended. *)
Theorem p9_stub_write_truncates d L fid ino n off src tag :
  dinv true L d → opened d fid ino n → lazy d = true → Inode.loaded n = false → Inode.data n = [] →
  defer_pending d = None →
  urange 32 fid → urange 16 tag → Z.of_nat (length src) < 2 ^ 32 →
  0 <= off → off + Z.of_nat (length src) < 2 ^ (usize_bits - 1) →
  0 <= dirty (fs d) < 2 ^ 64 - 1 →
  ∃ d', dispatch (request TWRITE tag (write_body fid off src)) d
        = Some (frame (TWRITE + 1) tag (to_le_bytes 4 (Z.of_nat (length src))), d')
  ∧ ∀ count, urange 32 count →
      let bytes := window (put_byte [] off src) 0 (Z.min count (off + Z.of_nat (length src))) in
      dispatch (request TREAD tag (read_body fid 0 count)) d'
      = Some (frame (TREAD + 1) tag (to_le_bytes 4 (Z.of_nat (length bytes)) ++ bytes), d').
Proof using Ht.
  intros Hd Hop _ _ E Hp Hf Htag Hs Ho Hw Hdi. destruct (usize_half) as [Hub Hur].
  destruct (write_then_read d L fid ino n off src tag) as (d' & Ew & Hr); [done..|rewrite E; cbn; lia|done|].
  exists d'. split; [done|]. intros count Hc. specialize (Hr 0 count ltac:(lia) Hc).
  cbv zeta in Hr. rewrite E in Hr. cbn [length Z.of_nat] in Hr.
  rewrite Z.sub_0_r, Z.add_0_l, Z.max_r in Hr by lia. exact Hr.
Qed.
End Dispatch.

(** * What the host is told *)

Lemma find_index_once cs name i : NoDup cs.*2 → (name, i) ∈ cs → find_index cs i = Some name.
Proof.
  induction cs as [|[n j] cs IH]; [intros _ []%elem_of_nil|]. cbn [fmap list_fmap snd].
  intros [Hnin Hnd]%NoDup_cons [[= -> ->]|Hin]%elem_of_cons; cbn; [by rewrite Z.eqb_refl|].
  destruct (Z.eqb_spec j i) as [->|]; [|by apply IH]. contradict Hnin. apply list_elem_of_fmap. by exists (name, i).
Qed.

Lemma resolve_snoc f seg segs : ∀ cur ino,
  resolve_from f (segs ++ [seg]) cur = Some (Some ino) →
  ∃ mid, resolve_from f segs cur = Some (Some mid) ∧ P9Fs.child f mid seg = Some (Some ino).
Proof.
  induction segs as [|s segs IH]; intros cur ino; cbn [resolve_from app].
  - destruct (P9Fs.child f cur seg) as [[c|]|] eqn:E; cbn; try done. intros [= <-]. eauto.
  - destruct (P9Fs.child f cur s) as [[c|]|]; cbn; try done. apply IH.
Qed.

Lemma child_link f dir name c : tree_wf f → 0 <= dir → P9Fs.child f dir name = Some (Some c) →
  ∃ d n, inode_at f dir = Some d ∧ inode_at f c = Some n ∧ Inode.parent n = dir ∧ dir < c
         ∧ find_index (Inode.children d) c = Some name.
Proof.
  intros Hf Hdir. unfold P9Fs.child. destruct (inode_at f dir) as [d|] eqn:Ed; [|done]. cbn. intros [= Hc].
  apply find_name_elem in Hc. destruct (tw_child _ Hf _ _ _ _ Ed Hc) as (Hlt & n & Hn & Hp).
  exists d, n. split_and!; [done|done|lia|lia|]. apply find_index_once; [by apply (tw_once _ Hf _ _ Ed)|done].
Qed.

(** The names walked down are the names found going up. *)
Lemma path_of_resolved f : tree_wf f → ∀ segs ino parts fuel,
  resolve_from f segs 0 = Some (Some ino) → ino <= Z.of_nat fuel →
  0 <= ino ∧ path_parts fuel f ino parts = Some (segs ++ parts).
Proof.
  intros Hf segs. induction segs as [|seg segs IH] using rev_ind; intros ino parts fuel.
  - intros [= <-] _. split; [done|]. by destruct fuel.
  - intros (mid & Hm & Hc)%resolve_snoc Hfu.
    destruct (IH mid (seg :: parts) (Nat.pred fuel) Hm) as [Hmid Hparts].
    { destruct (IH mid [] (Z.to_nat mid) Hm) as [Hmid _]; [lia|].
      destruct (child_link f mid seg ino Hf Hmid Hc) as (_ & _ & _ & _ & _ & Hlt & _). lia. }
    destruct (child_link f mid seg ino Hf Hmid Hc) as (d & n & Ed & En & Hp & Hlt & Hi).
    split; [lia|]. destruct fuel as [|fuel]; [lia|]. cbn [path_parts Nat.pred] in *.
    destruct (Z.eqb_spec ino 0); [lia|]. rewrite En. cbn [mbind option_bind]. rewrite Hp, Ed. cbn [mbind option_bind].
    by rewrite Hi, Hparts, <- app_assoc.
Qed.

Lemma resolve_total f : tree_wf f → ∀ segs cur, 0 <= cur < Z.of_nat (length (inodes f)) →
  match resolve_from f segs cur with
  | Some (Some i) => 0 <= i < Z.of_nat (length (inodes f))
  | Some None => True
  | None => False
  end.
Proof.
  intros Hf. induction segs as [|seg segs IH]; intros cur Hc; cbn [resolve_from]; [done|].
  unfold P9Fs.child at 1. destruct (inode_at_valid f cur Hc) as [n En]. rewrite En. cbn [mbind option_bind].
  destruct (find_name _ _) as [c|] eqn:E; [|done]. apply IH. apply find_name_elem in E.
  destruct (tw_child _ Hf _ _ _ _ En E) as (Hlt & m & Hm & _). apply lookup_lt_Some in Hm. lia.
Qed.

Lemma root_in f : tree_wf f → 0 <= 0 < Z.of_nat (length (inodes f)).
Proof. intros Hf. destruct (tw_root _ Hf) as (n & En & _). apply lookup_lt_Some in En. lia. Qed.

(** ** Segments of a joined path *)

Definition clean (seg : list Z) : Prop := seg ≠ [] ∧ SLASH ∉ seg.

Lemma split_clean seg rest : SLASH ∉ seg → ∀ cur,
  split_slash (seg ++ rest) cur = split_slash rest (cur ++ seg).
Proof.
  induction seg as [|c seg IH]; intros Hs cur; cbn; [by rewrite app_nil_r|].
  apply not_elem_of_cons in Hs as [Hc Hs]. destruct (Z.eqb_spec c SLASH); [done|]. rewrite IH by done.
  by rewrite <- app_assoc.
Qed.

Lemma split_pieces l : ∀ cur, SLASH ∉ cur → Forall (λ s, SLASH ∉ s) (split_slash l cur).
Proof.
  induction l as [|c l IH]; intros cur Hc; cbn; [by apply Forall_singleton|].
  destruct (Z.eqb_spec c SLASH).
  - constructor; [done|]. apply IH, not_elem_of_nil.
  - apply IH. rewrite not_elem_of_app, not_elem_of_cons. split; [done|]. split; [done|apply not_elem_of_nil].
Qed.

Lemma segments_clean path : Forall clean (segments path).
Proof.
  apply Forall_forall. intros s [Hne Hin]%list_elem_of_filter. split; [done|].
  pose proof (split_pieces path [] (not_elem_of_nil _)) as Hs. rewrite Forall_forall in Hs. auto.
Qed.

Lemma segments_join segs : Forall clean segs → segments (join_slash segs) = segs.
Proof.
  unfold segments. induction 1 as [|s segs [Hne Hs] Hall IH]; [done|].
  destruct segs as [|s' segs].
  - cbn [join_slash]. rewrite <- (app_nil_r s), split_clean by done. cbn [split_slash app]. rewrite app_nil_r. by rewrite filter_cons_True.
  - change (join_slash (s :: s' :: segs)) with (s ++ SLASH :: join_slash (s' :: segs)).
    rewrite split_clean by done. cbn [split_slash app]. rewrite Z.eqb_refl. rewrite filter_cons_True by done.
    by rewrite IH.
Qed.

(** A path that resolves is, up to empty segments, the path of what it names. *)
Lemma resolve_path f path ino : tree_wf f → resolve f path = Some (Some ino) →
  path_of f ino = Some (join_slash (segments path))
  ∧ resolve f (join_slash (segments path)) = Some (Some ino).
Proof.
  intros Hf Hr. unfold resolve in *. rewrite segments_join by apply segments_clean. split; [|done].
  unfold path_of. pose proof (resolve_total f Hf (segments path) 0 (root_in f Hf)) as Ht. rewrite Hr in Ht.
  destruct (path_of_resolved f Hf (segments path) ino [] (length (inodes f)) Hr) as [_ ->]; [lia|].
  cbn. by rewrite app_nil_r.
Qed.

Lemma map_insert_in k v l : (k, v) ∈ map_insert k v l.
Proof.
  induction l as [|[k' v'] l IH]; cbn; [set_solver|]. case_bool_decide; [set_solver|].
  destruct (bytes_lt k k'); set_solver.
Qed.

Section WriteBack.
Context {PR : Profile} {T : Target} {Ht : TargetOk T}.

Lemma change_total f c : tree_wf f → is_Some (change_of f c).
Proof.
  intros Hf. destruct c as [path op]. unfold change_of. destruct (op =? 0); [|done].
  pose proof (resolve_total f Hf (segments path) 0 (root_in f Hf)) as Hr. unfold resolve.
  destruct (resolve_from f (segments path) 0) as [[i|]|]; cbn; try done.
  destruct (inode_at_valid f i Hr) as [n ->]. done.
Qed.

Lemma changes_in f path op cs l : tree_wf f → (path, op) ∈ cs → change_of f (path, op) = Some l →
  ∃ ls, mapM (change_of f) cs = Some ls ∧ l ∈ ls.
Proof.
  intros Hf Hin Hl. destruct (mapM_is_Some_2 (change_of f) cs) as [ls Els].
  { apply Forall_forall. intros c _. by apply change_total. }
  exists ls. split; [done|]. apply mapM_Some in Els. apply list_elem_of_lookup in Hin as [i Hi].
  destruct (Forall2_lookup_l _ _ _ _ _ Els Hi) as (y & Hy & Ey). rewrite Hl in Ey. injection Ey as <-.
  by eapply list_elem_of_lookup_2.
Qed.

Lemma join_nonempty segs : Forall clean segs → segs ≠ [] → join_slash segs ≠ [].
Proof. intros [|s [|s' l] [Hs _] _]; cbn; [done|done|]. by destruct s. Qed.

(** C35: Writes are reported to the host.  In lazy mode, after the guest wrote to
    a file it can reach by a path, the changes the host collects contain that
    file: under the same path (up to empty segments), and with the content that
    a read would now return.  Collecting them empties the list. *)
Theorem p9_write_back d L fid ino n off src tag path :
  dinv true L d → lazy d = true → opened d fid ino n → defer_pending d = None →
  resolve (fs d) path = Some (Some ino) →
  urange 32 fid → urange 16 tag → Z.of_nat (length src) < 2 ^ 32 →
  0 <= off → off + Z.of_nat (length src) < 2 ^ (usize_bits - 1) →
  0 <= dirty (fs d) < 2 ^ 64 - 1 →
  ∃ r d' changes d'' new,
    dispatch (request TWRITE tag (write_body fid off src)) d = Some (r, d')
    ∧ p9_take_changes d' = Some (changes, d'')
    ∧ FileChange.mk 0 (join_slash (segments path)) new ∈ changes
    ∧ Z.of_nat (length new) = Z.max (Z.of_nat (length (Inode.data n))) (off + Z.of_nat (length src))
    ∧ (∀ i, 0 <= i → byte_at new (Z.to_nat i) = put_byte (Inode.data n) off src i)
    ∧ dirty_changes d'' = [].
Proof using Ht.
  intros Hd Hlz Hop Hp Hres Hf Htag Hs Ho Hw Hdirty.
  destruct (write_slice_spec (Inode.data n) off src Ho Hw) as (new & Enew & Hlen & Hbytes).
  destruct (di_fs _ _ _ Hd) as [_ Hwf]. destruct (Hwf eq_refl) as [Htree _].
  pose proof (tw_fid _ Htree _ _ (op_fid _ _ _ _ Hop)) as Hino.
  destruct (resolve_path _ _ _ Htree Hres) as [Hpath Hres'].
  set (p := join_slash (segments path)) in *.
  destruct (t_write_run d fid ino n off src p new Hop Hpath Hf Ho Hw Hs Enew Hdirty) as [c Ec].
  assert (Hne : p ≠ []).
  { apply join_nonempty; [apply segments_clean|]. intros E. unfold resolve in Hres. rewrite E in Hres.
    injection Hres as <-. destruct (tw_root _ Htree) as (r & Er & Hrd & _).
    pose proof (op_node _ _ _ _ Hop) as En. change (inodes (fs d) !! 0%nat = Some n) in En. rewrite Er in En. injection En as ->.
    by rewrite (op_file _ _ _ _ Hop) in Hrd. }
  set (f' := (fs d) <| inodes := <[Z.to_nat ino := content new n]> (inodes (fs d)) |> <| dirty := dirty (fs d) + 1 |>).
  assert (Hd' : wrote d ino n new p = (set_fs f' d) <| dirty_changes := map_insert p 0 (dirty_changes d) |>).
  { unfold wrote, mark. cbn. rewrite Hlz, bool_decide_false by done. done. }
  assert (Htree' : tree_wf f').
  { destruct (tree_tame (fs d) (Z.to_nat ino) n (content new) Htree (op_node _ _ _ _ Hop)); [done..|].
    by constructor. }
  assert (Hsk : skeleton f' = skeleton (fs d)) by (by apply (skeleton_insert _ (Z.to_nat ino) n (content new n) _ (op_node _ _ _ _ Hop))).
  assert (Hch : change_of f' (p, 0) = Some [FileChange.mk 0 p new]).
  { unfold change_of, resolve. cbn [Z.eqb]. rewrite (skeleton_resolve _ _ Hsk). unfold resolve in Hres'.
    rewrite Hres'. cbn [mbind option_bind]. unfold inode_at. cbn.
    rewrite list_lookup_insert_eq by lia. cbn. by rewrite (op_file _ _ _ _ Hop). }
  destruct (changes_in f' p 0 (map_insert p 0 (dirty_changes d)) _ Htree' (map_insert_in _ _ _) Hch) as (ls & Els & Hin).
  exists (frame (TWRITE + 1) tag (to_le_bytes 4 (Z.of_nat (length src)))), (wrote d ino n new p), (concat ls).
  eexists _, new. split_and!; [|rewrite Hd'| |exact Hlen|exact Hbytes|].
  - apply (dispatch_ready _ _ _ _ _ _ _ _ Htag Ec). unfold wrote. by rewrite (proj2 (proj2 (mark_frame _ _ _))).
  - unfold p9_take_changes, mbind, M_bind, get, modify, lift, id, mret, M_ret. cbn. rewrite Els. reflexivity.
  - apply list_elem_of_In, in_concat. exists [FileChange.mk 0 p new]. split; [by apply list_elem_of_In|by left].
  - done.
Qed.
End WriteBack.

(** * A session *)

Section Session.
Context {PR : Profile} {T : Target}.

(** What [handle] does with the messages of a queue, in order. *)
Fixpoint serve (msgs : list (list Z)) : M Virtio9p.t (list (list Z)) :=
  match msgs with
  | [] => mret []
  | m :: ms =>
      modify (λ d, d <| defer_pending := None |>);;
      r ← dispatch m;
      rs ← serve ms;
      mret (r :: rs)
  end.

(** A server that is not lazy parks nothing. *)
Definition calm (d : Virtio9p.t) : Prop := lazy d = false ∧ defer_pending d = None.
Abbreviation ckeeps m := (keeps True (λ s : Virtio9p.t * Cur.t, calm s.1) m (λ _, True)).

Lemma calm_seq {A X} (m : M (Virtio9p.t * Cur.t) A) (k : A → M (Virtio9p.t * Cur.t) X) :
  ckeeps m → (∀ a, ckeeps (k a)) → ckeeps (m ≫= k).
Proof. intros Hm Hk. eapply keeps_bind; [exact Hm|]. intros a _. apply Hk. Qed.

Lemma calm_lazy {X} (k : bool → M (Virtio9p.t * Cur.t) X) : ckeeps (k false) → ckeeps (self_get lazy ≫= k).
Proof. intros Hk [d c] Hd. destruct (Hd) as [Hl _]. specialize (Hk _ Hd). unfold wp in *. rewrite self_run. cbn in Hl. by rewrite Hl. Qed.

Lemma calm_ret {A} (a : A) : ckeeps (mret a).
Proof. by apply keeps_ret. Qed.

Lemma calm_get {A} (f : Virtio9p.t → A) : ckeeps (self_get f).
Proof. by apply (keeps_on_fst True calm (λ _ : Cur.t, True)) || (intros [d c] Hd; apply wp_on_fst, wp_get; done). Qed.

Lemma calm_arg {A} (m : M Cur.t A) : ckeeps (arg m).
Proof. intros [d c] Hd. unfold arg, wp, on_snd. by destruct (m c) as [[??]|]. Qed.

Lemma calm_lift {A} (o : option A) : ckeeps (lift o).
Proof. apply keeps_lift. by destruct o. Qed.

Lemma calm_fs {A} (m : M P9Fs.t A) : ckeeps (self_fs m).
Proof. intros [d c] Hd. unfold self_fs, on_fs, wp, on_fst, zoom. by destruct (m (fs d)) as [[??]|]. Qed.

Lemma calm_mark path op : ckeeps (self_upd (mark path op)).
Proof.
  intros [d c] [Hl Hp]. apply wp_on_fst, wp_modify. split; [done|]. destruct (mark_frame path op d) as (_ & E1 & E2).
  unfold calm. cbn in *. by rewrite E1, E2.
Qed.
End Session.

(** Every primitive of a handler but [defer] is calm, and [defer] is under [lazy]. *)
Ltac calm :=
  repeat first
    [ progress cbv zeta | apply calm_ret | apply calm_arg | apply calm_lift | apply calm_fs | apply calm_mark
    | apply calm_lazy; cbn [andb] | apply calm_get
    | apply calm_seq; [|intros ?]
    | match goal with
      | |- keeps _ _ (if ?b then _ else _) _ => destruct b
      | |- keeps _ _ (match ?x with _ => _ end) _ => destruct x
      end
    | progress unfold ok_or, ok, fail, fid_inode, node_of, child_of, bump_dirty, mark_inode, fresh_entry, unlink, unlink_child, walk_name ].

Section Served.
Context {PR : Profile} {T : Target}.
Abbreviation ckeeps m := (keeps True (λ s : Virtio9p.t * Cur.t, calm s.1) m (λ _, True)).

Lemma calm_walk n : ∀ cur qids, ckeeps (walk_names n cur qids).
Proof. induction n as [|n IH]; intros cur qids; cbn [walk_names]; calm. apply IH. Qed.

Lemma calm_msg ty : ckeeps (handle_msg ty).
Proof.
  unfold handle_msg. repeat (destruct (ty =? _); [|]).
  all: unfold t_version, t_attach, t_walk, t_getattr, t_lopen, t_lcreate, t_mkdir, t_read, t_write, t_readdir, t_setattr,
    t_clunk, t_remove, t_unlinkat, t_statfs, t_xattrwalk; calm.
  apply calm_walk.
Qed.

Lemma calm_dispatch msg d r d' : calm d → dispatch msg d = Some (r, d') → calm d'.
Proof.
  intros Hd. unfold dispatch. destruct (_ <? 7); [by intros [= <- <-]|].
  pose proof (calm_msg (byte_at msg 4) (d, Cur.new (drop 7 msg)) Hd) as Hc. unfold wp in Hc.
  destruct (handle_msg _ _) as [[x [d1 c]]|]; [|done]. destruct Hc as [_ [Hl Hp]]. cbn in Hl, Hp. rewrite Hp.
  by destruct x as [[t w]|e]; intros [= <- <-].
Qed.

(** A message of at least a header's length gets its reply, a shorter one none. *)
Definition answered (msg r : list Z) : Prop :=
  if Z.of_nat (length msg) <? 7 then r = [] else answers msg r.
End Served.

(** C17: The file server always answers.  In the release build, whatever bytes
    the guest sends, one message after another, a server that is not lazy gives every message with a
    header exactly one reply, of the message's type or an error and with its
    tag, and its tree and fids stay well formed.  The exceptions are stated: a
    write or a truncation to more than the largest allocation, and 2^32
    inodes. *)
Theorem p9_server_total {T : Target} {Ht : TargetOk T} (d : Virtio9p.t) (msgs : list (list Z)) (L : nat) :
  let PR : Profile := Release in
  dinv true L d → calm d →
  Forall (λ m, Forall is_byte m ∧ ¬ oversized (byte_at m 4) (drop 7 m)) msgs →
  Z.of_nat L + Z.of_nat (length msgs) <= 2 ^ 32 →
  ∃ rs d', serve msgs d = Some (rs, d') ∧ Forall2 answered msgs rs ∧ tree_wf (fs d') ∧ calm d'.
Proof.
  intros PR Hd Hc Hms. revert d L Hd Hc. induction Hms as [|m ms [Hm Ho] _ IH]; intros d L Hd Hc HL; cbn [serve].
  - exists [], d. split_and!; [done|constructor| |done]. destruct (di_fs _ _ _ Hd) as [_ Hf]. by apply Hf.
  - cbn [length] in HL. set (d0 := d <| defer_pending := None |>).
    assert (Hd0 : dinv true L d0) by (destruct Hd; by constructor).
    assert (Hc0 : calm d0) by (by destruct Hc).
    pose proof (dispatch_ok true False ltac:(done) ltac:(done) L ltac:(intros _; lia) m d0 Hm Ho Hd0) as Hw.
    rewrite M_bind_run. cbn [modify]. rewrite M_bind_run. fold d0. unfold wp in Hw.
    destruct (dispatch m d0) as [[r d1]|] eqn:E; [|done]. destruct Hw as (Hn & Ha & Hnil).
    pose proof (calm_dispatch _ _ _ _ Hc0 E) as Hc1.
    assert (∃ L1, dinv true L1 d1 ∧ (L1 <= S L)%nat) as (L1 & Hd1 & HL1) by (destruct Hn as [Hn|Hn]; eexists; split; [exact Hn|lia|exact Hn|lia]).
    destruct (IH d1 L1 Hd1 Hc1) as (rs & d2 & Es & Hr & Hw2 & Hc2); [lia|].
    exists (r :: rs), d2. split_and!; [by rewrite M_bind_run, Es| |done|done]. constructor; [|done].
    unfold answered. destruct (Z.ltb_spec (Z.of_nat (length m)) 7); [apply Hnil; by left|]. apply Ha; [done|apply Hc1].
Qed.

(** * Listing a directory *)

Definition readdir_body (fid off count : Z) : list Z :=
  to_le_bytes 4 fid ++ to_le_bytes 8 off ++ to_le_bytes 4 count.

(** The client's view of a reply: the cookie and the name of every record. *)
Fixpoint dirents (fuel : nat) (l : list Z) : list (Z * list Z) :=
  match fuel, l with
  | S fuel, _ :: _ =>
      let n := Z.to_nat (from_le_bytes (take 2 (drop 22 l))) in
      (from_le_bytes (take 8 (drop 13 l)), take n (drop 24 l)) :: dirents fuel (drop (24 + n) l)
  | _, _ => []
  end.

(** The client: ask from the last cookie on until a reply is empty. *)
Fixpoint list_dir `{Profile} `{Target} (fuel : nat) (tag fid count off : Z) (d : Virtio9p.t)
  : option (list (list Z)) :=
  match fuel with
  | O => None
  | S fuel =>
      '(r, d) ← dispatch (request TREADDIR tag (readdir_body fid off count)) d;
      let data := drop 11 r in
      let es := dirents (length data) data in
      match last es with
      | None => Some []
      | Some (cookie, _) => (app es.*2) <$> list_dir fuel tag fid count cookie d
      end
  end.

(** The record of entry number [i]. *)
Definition record (f : P9Fs.t) (i : Z) (e : list Z * Z * Z) : list Z :=
  let '(name, idx, dt) := e in
  match inode_at f idx with
  | Some c => dirent (Inode.qid_type c) idx (i + 1) dt name
  | None => []
  end.
Fixpoint records (f : P9Fs.t) (i : Z) (es : list (list Z * Z * Z)) : list Z :=
  match es with [] => [] | e :: es => record f i e ++ records f (i + 1) es end.

Definition entry_len (e : list Z * Z * Z) : Z := 24 + Z.of_nat (length e.1.1).
Definition known (f : P9Fs.t) (e : list Z * Z * Z) : Prop := is_Some (inode_at f e.1.2).

Lemma length_record f i e : known f e → Z.of_nat (length (record f i e)) = entry_len e.
Proof.
  destruct e as [[name idx] dt]. intros [c Ec]. cbn in Ec. unfold record, entry_len, dirent. rewrite Ec.
  rewrite !length_app, !length_to_le_bytes. cbn [length fst]. lia.
Qed.

(** Entries up to the cookie are skipped. *)
Lemma emit_skip f off count data : ∀ es i, i <= off →
  emit_entries f es i off count data
  = emit_entries f (drop (Z.to_nat (off - i)) es) (Z.min off (i + Z.of_nat (length es))) off count data.
Proof.
  induction es as [|[[name idx] dt] es IH]; intros i Hi; [by destruct (Z.to_nat (off - i))|].
  destruct (decide (i = off)) as [->|Hne].
  - rewrite Z.sub_diag. cbn [Z.to_nat drop]. by replace (Z.min off _) with off by lia.
  - cbn [emit_entries]. destruct (Z.leb_spec (i + 1) off); [|lia]. rewrite IH by lia.
    replace (Z.to_nat (off - i)) with (S (Z.to_nat (off - (i + 1)))) by lia. cbn [drop length].
    f_equal. lia.
Qed.

(** Then as many as fit. *)
Lemma emit_from f off count : ∀ es i data, off <= i → Forall (known f) es →
  ∃ k, (k <= length es)%nat ∧ emit_entries f es i off count data = Some (data ++ records f i (take k es))
    ∧ (Z.of_nat (length data) <= count → Z.of_nat (length (data ++ records f i (take k es))) <= count)
    ∧ (∀ e, head es = Some e → Z.of_nat (length data) + entry_len e <= count → (0 < k)%nat).
Proof.
  induction es as [|e es IH]; intros i data Hi Hk.
  { exists 0%nat. cbn. rewrite app_nil_r. split_and!; [lia|done|done|done]. }
  apply Forall_cons in Hk as [He Hes]. destruct e as [[name idx] dt]. cbn [emit_entries].
  destruct (Z.leb_spec (i + 1) off); [lia|].
  destruct (Z.ltb_spec count (Z.of_nat (length data) + (13 + 8 + 1 + 2 + Z.of_nat (length name)))) as [Hfull|Hfit].
  { exists 0%nat. cbn [take records]. rewrite app_nil_r. split_and!; [lia|done|done|].
    intros e [= <-]. unfold entry_len. cbn. lia. }
  destruct He as [c Ec]. cbn in Ec. rewrite Ec. cbn [mbind option_bind].
  destruct (IH (i + 1) (data ++ dirent (Inode.qid_type c) idx (i + 1) dt name) ltac:(lia) Hes)
    as (k & Hle & -> & Hc & _).
  exists (S k). cbn [take records record length]. rewrite Ec, !app_assoc in *. split_and!; [lia|done| |intros; lia].
  intros _. apply Hc. rewrite length_app. pose proof (length_record f i (name, idx, dt) ltac:(by exists c)) as Hl.
  cbn [record] in Hl. rewrite Ec in Hl. unfold entry_len in Hl. cbn [fst] in Hl. lia.
Qed.

Lemma field_at {A} (a b c : list A) m n : length a = m → length b = n → take n (drop m (a ++ b ++ c)) = b.
Proof. intros <- <-. by rewrite drop_app_length, take_app_length. Qed.

(** The records read back by the client. *)
Definition numbered (i : Z) (es : list (list Z * Z * Z)) : list (Z * list Z) :=
  imap (λ k e, (i + Z.of_nat k + 1, e.1.1)) es.

Lemma numbered_cons i e es : numbered i (e :: es) = (i + 1, e.1.1) :: numbered (i + 1) es.
Proof.
  unfold numbered. cbn. f_equal; [f_equal; lia|]. apply imap_ext. intros k x _. cbn. f_equal. lia.
Qed.

Lemma dirents_records f : ∀ es i fuel,
  Forall (known f) es → Forall (λ e, Z.of_nat (length e.1.1) < 2 ^ 16) es →
  0 <= i → i + Z.of_nat (length es) < 2 ^ 64 → (length es <= fuel)%nat →
  dirents fuel (records f i es) = numbered i es.
Proof.
  induction es as [|e es IH]; intros i fuel Hk Hn Hi H64 Hfu; [by destruct fuel|].
  apply Forall_cons in Hk as [He Hk]. apply Forall_cons in Hn as [Hne Hn]. destruct fuel as [|fuel]; [cbn in Hfu; lia|].
  cbn [length] in *. destruct e as [[name idx] dt]. destruct He as [c Ec]. cbn in Ec, Hne.
  cbn [records record]. rewrite Ec. set (rest := records f (i + 1) es).
  set (hd := [Inode.qid_type c] ++ to_le_bytes 4 0 ++ to_le_bytes 8 idx).
  set (len := to_le_bytes 2 (as_u16 (Z.of_nat (length name)))).
  assert (Hhd : length hd = 13%nat) by (unfold hd; by rewrite !length_app, !length_to_le_bytes).
  assert (Hcl : length (to_le_bytes 8 (i + 1)) = 8%nat) by apply length_to_le_bytes.
  assert (Hll : length len = 2%nat) by apply length_to_le_bytes.
  set (l := dirent (Inode.qid_type c) idx (i + 1) dt name ++ rest).
  assert (E1 : l = hd ++ to_le_bytes 8 (i + 1) ++ ([dt] ++ len ++ name ++ rest)).
  { unfold l, dirent, hd, len. by rewrite <- !app_assoc. }
  assert (E2 : l = (hd ++ to_le_bytes 8 (i + 1) ++ [dt]) ++ len ++ (name ++ rest)).
  { rewrite E1. by rewrite <- !app_assoc. }
  assert (E3 : l = (hd ++ to_le_bytes 8 (i + 1) ++ [dt] ++ len) ++ name ++ rest).
  { rewrite E1. by rewrite <- !app_assoc. }
  assert (Hne' : ∃ x l', l = x :: l') by (rewrite E1; by eexists _, _). destruct Hne' as (x & l' & El).
  cbn [dirents]. rewrite El. cbv zeta. rewrite <- El.
  rewrite numbered_cons. cbn [fst].
  assert (Hlen : from_le_bytes (take 2 (drop 22 l)) = Z.of_nat (length name)).
  { rewrite E2, (field_at _ len) by (rewrite ?length_app, ?Hhd, ?Hcl; done). unfold len.
    rewrite from_to_le_bytes. rewrite !wrap_small; unfold urange; try lia. rewrite wrap_small; unfold urange; lia. }
  rewrite Hlen, Nat2Z.id. f_equal; [f_equal|].
  - rewrite E1, (field_at _ (to_le_bytes 8 (i + 1))) by done. rewrite from_to_le_bytes. apply wrap_small. unfold urange. lia.
  - rewrite E3. apply field_at; [|done]. by rewrite !length_app, Hhd, Hcl, Hll.
  - rewrite E3, <- drop_drop. rewrite (drop_app_length' _ _ 24) by (by rewrite !length_app, Hhd, Hcl, Hll).
    rewrite drop_app_length. apply IH; [done|done|lia|lia|lia].
Qed.

Lemma length_numbered i es : length (numbered i es) = length es.
Proof. apply length_imap. Qed.

Lemma numbered_last i es e : last es = Some e →
  last (numbered i es) = Some (i + Z.of_nat (length es), e.1.1).
Proof.
  rewrite !last_lookup, length_numbered. intros He. unfold numbered. rewrite list_lookup_imap, He. cbn.
  apply lookup_lt_Some in He. do 2 f_equal. lia.
Qed.

Lemma numbered_names i es : (numbered i es).*2 = es.*1.*1.
Proof.
  unfold numbered. rewrite fmap_imap, <- list_fmap_compose. apply imap_const.
Qed.

Lemma records_length f : ∀ es i, Forall (known f) es → (length es <= length (records f i es))%nat.
Proof.
  induction es as [|e es IH]; intros i Hk; cbn [records]; [done|]. apply Forall_cons in Hk as [He Hk].
  rewrite length_app. specialize (IH (i + 1) Hk). pose proof (length_record f i e He). unfold entry_len in *.
  cbn [length]. lia.
Qed.

Section Readdir.
Context {PR : Profile} {T : Target} {Ht : TargetOk T}.

(** A directory under an open fid, listed already if the server is lazy. *)
Record opened_dir (d : Virtio9p.t) (fid ino : Z) (n : Inode.t) : Prop := {
  od_fid : fids (fs d) !! fid = Some ino;
  od_node : inode_at (fs d) ino = Some n;
  od_dir : Inode.is_dir n = true;
  od_listed : lazy d && negb (Inode.loaded n) = false;
}.

Lemma dir_entries_known f ino n : tree_wf f → inode_at f ino = Some n → 0 <= ino →
  ∃ es, dir_entries f ino n = Some es ∧ Forall (known f) es ∧ es.*1.*1 = dot :: dotdot :: (Inode.children n).*1.
Proof.
  intros Hf Hn Hi. unfold dir_entries.
  set (g := λ '(name, idx), c ← inode_at f idx; Some (name, idx, if Inode.is_dir c then DT_DIR else DT_REG)).
  assert (Hc : Forall (λ c, is_Some (inode_at f c.2)) (Inode.children n)).
  { apply Forall_forall. intros [name c] Hin. destruct (tw_child _ Hf _ _ _ _ Hn Hin) as (_ & m & Hm & _). by exists m. }
  assert (∃ cs, mapM g (Inode.children n) = Some cs ∧ Forall (known f) cs ∧ cs.*1.*1 = (Inode.children n).*1) as (cs & -> & Hk & En).
  { induction Hc as [|[name c] l [m Em] _ (cs & Ecs & Hk & En)]; [by exists []|]. cbn in Em.
    assert (Eg : g (name, c) = Some (name, c, if Inode.is_dir m then DT_DIR else DT_REG)) by (unfold g; by rewrite Em).
    eexists ((name, c, _) :: cs).
    change (mapM g ((name, c) :: l)) with (y ← g (name, c); k ← mapM g l; Some (y :: k)).
    rewrite Eg. cbn [mbind option_bind]. rewrite Ecs. split_and!; [done| |by rewrite !fmap_cons, En]. constructor; [by exists m|done]. }
  cbn [mbind option_bind]. eexists. split_and!; [done| |by rewrite !fmap_cons, En].
  repeat (constructor; [|]); [by exists n| |done]. unfold known. cbn.
  destruct (decide (Z.to_nat ino = 0%nat)) as [E|Hne].
  - destruct (tw_root _ Hf) as (r & Er & _ & Hp). unfold inode_at in Hn. rewrite E, Er in Hn. injection Hn as <-.
    rewrite Hp. by exists r.
  - pose proof (tw_parent _ Hf _ _ Hn Hne). apply inode_at_valid.
    unfold inode_at in Hn. apply lookup_lt_Some in Hn. lia.
Qed.

Lemma readdir_run d fid ino n off count es :
  opened_dir d fid ino n → dir_entries (fs d) ino n = Some es → Forall (known (fs d)) es →
  urange 32 fid → urange 32 count → 0 <= off <= Z.of_nat (length es) → Z.of_nat (length es) < 2 ^ 64 →
  ∃ k c, let data := records (fs d) off (take k (drop (Z.to_nat off) es)) in
    handle_msg TREADDIR (d, Cur.new (readdir_body fid off count))
    = Some (Ok (TREADDIR + 1, W.raw (W.u32 W.new (as_u32 (Z.of_nat (length data)))) data), (d, c))
    ∧ (∀ e, es !! Z.to_nat off = Some e → entry_len e <= count → (0 < k)%nat).
Proof using Ht.
  intros [Hfid Hn Hdir Hl] Ees Hk Hf Hc Ho H64. set (body := readdir_body fid off count).
  destruct (io_args fid off count [] Hf) as (E1 & E2 & E3); [unfold urange; lia|done|].
  rewrite app_nil_r in E1, E2, E3.
  change (to_le_bytes 4 fid ++ to_le_bytes 8 off ++ to_le_bytes 4 count) with body in E1, E2, E3.
  assert (Hlen : length body = 16%nat).
  { unfold body, readdir_body. by rewrite !length_app, !length_to_le_bytes. }
  destruct (emit_from (fs d) off count (drop (Z.to_nat off) es) off [] ltac:(lia) ltac:(by apply Forall_drop))
    as (k & _ & Ek & _ & Hfit).
  eexists k, _. cbv zeta. split.
  - change (handle_msg TREADDIR) with t_readdir. unfold t_readdir.
    change (Cur.new body) with (Reader.mk body (Z.of_nat 0)).
    run_arg 4%nat. run_arg 8%nat. run_arg 4%nat. cbn [Nat.add]. rewrite E1, E2, E3.
    rewrite (fid_run _ _ _ _ _ _ Hfid), (node_run _ _ _ _ _ Hn), self_run, Hdir, Hl. cbn [negb].
    rewrite self_run, (lift_bind _ _ _ _ Ees). rewrite emit_skip by lia. rewrite Z.sub_0_r.
    replace (Z.min off (0 + Z.of_nat (length es))) with off by lia. by rewrite (lift_bind _ _ _ _ Ek).
  - intros e He Hfits. apply (Hfit e); [by rewrite head_lookup, lookup_drop, Nat.add_0_r|]. cbn [length]. lia.
Qed.

Lemma list_rest d fid ino n count tag es :
  opened_dir d fid ino n → defer_pending d = None → dir_entries (fs d) ino n = Some es → Forall (known (fs d)) es →
  urange 32 fid → urange 32 count → urange 16 tag → Z.of_nat (length es) < 2 ^ 64 - 1 →
  Forall (λ e, entry_len e <= count ∧ Z.of_nat (length e.1.1) < 2 ^ 16) es →
  ∀ fuel off, 0 <= off <= Z.of_nat (length es) → Z.of_nat (length es) - off < Z.of_nat fuel →
  list_dir fuel tag fid count off d = Some (drop (Z.to_nat off) es).*1.*1.
Proof using Ht.
  intros Hop Hp Ees Hk Hf Hc Htag H64 Hfit. induction fuel as [|fuel IH]; intros off Ho Hfu; [lia|].
  destruct (readdir_run d fid ino n off count es Hop Ees Hk Hf Hc Ho ltac:(lia)) as (k & c & Er & Hpos).
  set (rest := drop (Z.to_nat off) es) in *. set (data := records (fs d) off (take k rest)) in *.
  assert (Hrest : Forall (known (fs d)) rest) by (by apply Forall_drop).
  cbn [list_dir]. rewrite (dispatch_ready _ _ _ _ _ _ _ _ Htag Er Hp). cbn [mbind option_bind].
  assert (Edata : drop 11 (frame (TREADDIR + 1) tag (W.bytes (W.raw (W.u32 W.new (as_u32 (Z.of_nat (length data)))) data))) = data) by done.
  rewrite Edata. cbv zeta. unfold data. rewrite dirents_records; [|by apply Forall_take| |lia| |].
  2:{ apply Forall_take, Forall_drop. eapply Forall_impl; [exact Hfit|]. by intros e [_ H]. }
  2:{ rewrite length_take. unfold rest. rewrite length_drop. lia. }
  2:{ apply records_length. by apply Forall_take. }
  destruct (last (take k rest)) as [e|] eqn:El.
  - rewrite (numbered_last _ _ _ El), numbered_names. set (m := length (take k rest)).
    assert (Hm : (0 < m)%nat) by (unfold m; destruct (take k rest); [done|cbn; lia]).
    assert (Hle : (m <= length rest)%nat) by (unfold m; rewrite length_take; lia).
    assert (Hlr : length rest = (length es - Z.to_nat off)%nat) by (unfold rest; apply length_drop).
    rewrite IH by lia. cbn [fmap option_fmap option_map]. f_equal. rewrite <- !fmap_app. do 2 f_equal.
    replace (Z.to_nat (off + Z.of_nat m)) with (Z.to_nat off + m)%nat by lia.
    rewrite <- drop_drop. fold rest. unfold m. rewrite length_take.
    transitivity (take k rest ++ drop k rest); [f_equal|apply take_drop]. destruct (decide (k <= length rest)%nat).
    + f_equal. lia.
    + rewrite !drop_ge by lia. done.
  - apply last_None in El. rewrite El. cbn. assert (rest = []) as ->; [|done].
    destruct rest as [|e rest'] eqn:Er'; [done|]. assert (Hoe : es !! Z.to_nat off = Some e).
    { rewrite <- (Nat.add_0_r (Z.to_nat off)), <- lookup_drop. fold rest. by rewrite Er'. }
    pose proof (Forall_lookup_1 _ _ _ _ Hfit Hoe) as [Hel _]. specialize (Hpos e Hoe Hel).
    destruct k; [lia|done].
Qed.

(** A directory listing is complete.  A client that asks for [count] bytes
    at a time and goes on from the last cookie it got, until a reply is empty,
    gets ".", ".." and every child of the directory, each once and in order, if
    [count] holds the longest record; one request per entry, and the last, are
    enough. *)
Theorem p9_readdir_complete d L fid ino n count tag fuel :
  dinv true L d → opened_dir d fid ino n → defer_pending d = None →
  urange 32 fid → urange 32 count → urange 16 tag → 26 <= count →
  Forall (λ c, 24 + Z.of_nat (length c.1) <= count ∧ Z.of_nat (length c.1) < 2 ^ 16) (Inode.children n) →
  Z.of_nat (length (Inode.children n)) + 2 < Z.of_nat fuel < 2 ^ 64 →
  list_dir fuel tag fid count 0 d = Some (dot :: dotdot :: (Inode.children n).*1).
Proof using Ht.
  intros Hd Hop Hp Hf Hc Htag H26 Hfit Hfu. destruct (di_fs _ _ _ Hd) as [_ Hwf]. destruct (Hwf eq_refl) as [Htree _].
  pose proof (tw_fid _ Htree _ _ (od_fid _ _ _ _ Hop)) as Hino.
  destruct (dir_entries_known (fs d) ino n Htree (od_node _ _ _ _ Hop)) as (es & Ees & Hk & En); [lia|].
  assert (Hl : length es = (2 + length (Inode.children n))%nat).
  { apply (f_equal length) in En. rewrite !length_fmap in En. cbn in En. by rewrite length_fmap in En. }
  rewrite <- En. refine (list_rest d fid ino n count tag es Hop Hp Ees Hk Hf Hc Htag _ _ fuel 0 _ _); [lia| |lia|lia].
  assert (Hall : Forall (λ name, 24 + Z.of_nat (length name) <= count ∧ Z.of_nat (length name) < 2 ^ 16) es.*1.*1).
  { rewrite En. repeat (constructor; [cbn; lia|]). by apply Forall_fmap. }
  rewrite !Forall_fmap in Hall. exact Hall.
Qed.
End Readdir.

(** * Waiting for the host *)

Section Lazy.
Context {PR : Profile} {T : Target} {Ht : TargetOk T}.

Lemma lazy_read_parks d fid ino n path off count :
  opened d fid ino n → lazy d = true → Inode.loaded n = false → path_of (fs d) ino = Some path →
  urange 32 fid → urange 32 count → 0 <= off < 2 ^ (usize_bits - 1) →
  ∃ c, handle_msg TREAD (d, Cur.new (read_body fid off count))
       = Some (Err DEFER, (d <| defer_pending := Some (0, path, off, count, ino) |>, c)).
Proof using Ht.
  intros [Hfid Hn Hfile] Hlz Hld Hpath Hf Hc Ho. pose proof usize_half. pose proof usize_wide.
  change (handle_msg TREAD) with t_read. set (body := read_body fid off count).
  destruct (io_args fid off count [] Hf) as (E1 & E2 & E3); [unfold urange; lia|done|].
  rewrite app_nil_r in E1, E2, E3.
  change (to_le_bytes 4 fid ++ to_le_bytes 8 off ++ to_le_bytes 4 count) with body in E1, E2, E3.
  assert (Hlen : length body = 16%nat).
  { unfold body, read_body. by rewrite !length_app, !length_to_le_bytes. }
  eexists. unfold t_read. change (Cur.new body) with (Reader.mk body (Z.of_nat 0)).
  run_arg 4%nat. run_arg 8%nat. cbv zeta. run_arg 4%nat. cbn [Nat.add].
  rewrite E1, E2, E3. rewrite (wrap_small usize_bits off) by (unfold urange; lia).
  rewrite (fid_run _ _ _ _ _ _ Hfid), (node_run _ _ _ _ _ Hn), self_run, Hfile, Hlz, Hld. cbn [negb andb].
  unfold defer. by rewrite self_run, (lift_bind _ _ _ _ Hpath).
Qed.

Lemma take_held_last id hs h : Forall (λ h, Held.id h ≠ id) hs → Held.id h = id →
  take_held id (hs ++ [h]) = Some (h, hs).
Proof.
  intros Hhs Hh. induction Hhs as [|x hs Hx _ IH]; cbn; [by rewrite Hh, Z.eqb_refl|].
  destruct (Z.eqb_spec (Held.id x) id); [done|]. by rewrite IH.
Qed.

(** A read the host has to serve.  When the guest reads a file whose bytes
    are not loaded, the chain is held, nothing is written to the guest, and the
    host is asked for exactly that file and range under a new id.  When the host
    supplies the bytes for that id, the held chain, and no other, is answered
    with a Rread of those bytes, and from then on the file is loaded with
    them. *)
Theorem p9_lazy_read d m q chain fid ino n path off count tag msg x :
  msg = request TREAD tag (read_body fid off count) →
  sg_len (Chain.readable chain) = Some (Z.of_nat (length msg)) →
  sg_read m (Chain.readable chain) 0 (replicate (length msg) 0) 0 = Some (msg, x) →
  opened d fid ino n → lazy d = true → Inode.loaded n = false → path_of (fs d) ino = Some path → 0 <= ino →
  urange 32 fid → urange 32 count → urange 16 tag → 0 <= off < 2 ^ (usize_bits - 1) →
  Forall (λ h, Held.id h ≠ next_id d) (held d) →
  ∃ d2, p9_handle q chain (d, m) = Some (0, (d2, m)) ∧ deferred d2 = true
  ∧ host_reqs d2 = host_reqs d ++ [HostReq.mk (next_id d) 0 path off count]
  ∧ ∀ payload m', Z.of_nat (length payload) < 2 ^ (usize_bits - 1) →
      ∃ d3, let bytes := window (λ i, byte_at payload (Z.to_nat i)) off
                           (Z.min (off + count) (Z.of_nat (length payload)) - off) in
      p9_supply (next_id d) payload (d2, m')
      = (len ← send_reply (Chain.writable chain)
                 (frame (TREAD + 1) tag (to_le_bytes 4 (Z.of_nat (length bytes)) ++ bytes));
         mret (Some (0, Chain.head chain, len))) (d3, m')
      ∧ opened d3 fid ino (content payload n) ∧ held d3 = held d.
Proof using Ht.
  intros Hmsg Hlen Hread Hop Hlz Hld Hpath Hino Hf Hc Htag Ho Hids.
  set (d0 := d <| defer_pending := None |>). assert (Hop0 : opened d0 fid ino n) by (by destruct Hop).
  destruct (lazy_read_parks d0 fid ino n path off count Hop0 Hlz Hld Hpath Hf Hc Ho) as [c Ec].
  set (p := (0, path, off, count, ino)) in *. set (d1 := d0 <| defer_pending := Some p |>) in *.
  set (d2 := (park p (Chain.head chain) (Chain.writable chain) msg d1) <| deferred := true |>).
  pose proof (dispatch_parked _ tag _ _ _ _ _ Htag Ec ltac:(by exists p)) as Ed. rewrite <- Hmsg in Ed.
  exists d2. split_and!; [|done|done|].
  - unfold p9_handle. rewrite (lift_bind _ _ _ _ Hlen). destruct (Z.ltb_spec (Z.of_nat (length msg)) 7) as [Hl|_].
    { pose proof (frame_parts TREAD tag (read_body fid off count) Htag) as [? _]. rewrite <- Hmsg in *. lia. }
    rewrite get_snd_bind. cbn [id]. rewrite Nat2Z.id, (lift_bind _ _ _ _ Hread), modify_fst_bind. fold d0.
    by rewrite (fst_bind _ _ _ _ _ _ Ed), get_fst_bind.
  - intros payload m' Hpl. pose proof usize_half as [Hub Hur].
    set (h := Held.mk (next_id d) (Chain.head chain) (Chain.writable chain) msg 0 ino).
    assert (Hheld : take_held (next_id d) (held d2) = Some (h, held d)) by (by apply take_held_last).
    set (f' := (fs d) <| inodes := <[Z.to_nat ino := content payload n]> (inodes (fs d)) |>).
    set (d3 := (set_fs f' (d2 <| held := held d |>)) <| defer_pending := None |>).
    assert (Hop3 : opened d3 fid ino (content payload n)).
    { destruct Hop as [Hfid Hn Hfile]. constructor; [done| |done].
      unfold inode_at in *. cbn. apply list_lookup_insert_eq. by eapply lookup_lt_Some. }
    destruct (t_read_run d3 fid ino (content payload n) off count Hop3) as [c' Ec'];
      [cbn; by rewrite andb_false_r|done..|].
    exists d3. cbv zeta. split_and!; [|done|done].
    unfold p9_supply. rewrite get_fst_bind, Hheld, modify_fst_bind.
    rewrite (fst_bind _ _ _ _ tt (set_fs f' (d2 <| held := held d |>))).
    2:{ unfold on_fs, zoom, fill_in. cbn [Held.kind Held.target h Z.eqb].
        rewrite (set_inode_run _ _ _ n) by apply Hop. done. }
    rewrite modify_fst_bind. fold d3. cbn [Held.msg h]. rewrite Hmsg.
    rewrite (fst_bind _ _ _ _ _ _ (dispatch_ready _ _ _ _ _ _ _ _ Htag Ec' eq_refl)), get_fst_bind.
    cbn [defer_pending d3]. cbn [Inode.data content] in *. rewrite (read_slice_window payload) by (unfold urange in *; lia).
    set (bytes := window _ _ _). assert (Hb : as_u32 (Z.of_nat (length bytes)) = Z.of_nat (length bytes)).
    { apply wrap_small. unfold bytes, window. rewrite length_fmap, length_seqZ. unfold urange in *. lia. }
    rewrite Hb. done.
Qed.
End Lazy.

(** * A message that stops the emulator *)

Definition setattr_body (fid valid mode uid gid size : Z) : list Z :=
  to_le_bytes 4 fid ++ to_le_bytes 4 valid ++ to_le_bytes 4 mode ++ to_le_bytes 4 uid ++ to_le_bytes 4 gid
  ++ to_le_bytes 8 size.

Section Panic.
Context {PR : Profile} {T : Target} {Ht : TargetOk T}.

(** The guest can stop the emulator.  A Tsetattr that sets the size of any
    open fid to half the address space or more panics (the vector's capacity
    overflows) where a file server would answer with an error. *)
Theorem p9_huge_size_panics d fid ino n tag mode uid gid size :
  fids (fs d) !! fid = Some ino → inode_at (fs d) ino = Some n →
  urange 32 fid → urange 32 mode → urange 32 uid → urange 32 gid → urange 64 size → urange 16 tag →
  2 ^ (usize_bits - 1) <= as_usize size →
  dispatch (request TSETATTR tag (setattr_body fid 8 mode uid gid size)) d = None.
Proof using Ht.
  intros Hfid Hn Hf Hmo Hu Hg Hs Htag Hbig. set (body := setattr_body fid 8 mode uid gid size).
  assert (E : handle_msg TSETATTR (d, Cur.new body) = None).
  { assert (E1 : arg_at 4 0 body = fid) by (by apply arg_at_head).
    assert (E2 : arg_at 4 4 body = 8) by (unfold body, setattr_body; rewrite (arg_at_skip 4 4 0); by apply arg_at_head).
    assert (E3 : arg_at 8 20 body = size).
    { unfold body, setattr_body. rewrite (arg_at_skip 8 4 16), (arg_at_skip 8 4 12), (arg_at_skip 8 4 8), (arg_at_skip 8 4 4),
        (arg_at_skip 8 4 0). rewrite <- (app_nil_r (to_le_bytes 8 size)). by apply arg_at_head. }
    assert (Hl : length body = 28%nat) by (unfold body, setattr_body; by rewrite !length_app, !length_to_le_bytes).
    change (handle_msg TSETATTR) with t_setattr. unfold t_setattr. change (Cur.new body) with (Reader.mk body (Z.of_nat 0)).
    run_arg 4%nat. run_arg 4%nat. run_arg 4%nat. cbn [Nat.add]. rewrite E1, E2.
    do 2 (etransitivity; [apply (skip_run 4); lia|]). cbn [Nat.add].
    etransitivity; [apply (or_run 8); lia|]. rewrite E3, (fid_run _ _ _ _ _ _ Hfid), (node_run _ _ _ _ _ Hn).
    change (Z.land 8 1 =? 0) with true. change (Z.land 8 8 =? 0) with false. cbn [negb].
    rewrite M_bind_run. cbn [mret M_ret]. rewrite M_bind_run, (node_run _ _ _ _ _ Hn), M_bind_run.
    unfold lift, vec_resize. destruct (Z.leb_spec (2 ^ (usize_bits - 1)) (as_usize size)); [done|lia]. }
  destruct (frame_parts TSETATTR tag body Htag) as (Hl & Hty & Htg & Hb). unfold dispatch.
  destruct (Z.ltb_spec (Z.of_nat (length (request TSETATTR tag body))) 7); [lia|]. by rewrite Hty, Htg, Hb, E.
Qed.
End Panic.

(** * A concrete share *)

(** A share with the file "d/f": attached as fid 0, the file as fid 1 and the
    directory "d" as fid 2. *)
Definition name_d : list Z := [100].
Definition name_f : list Z := [102].
Definition path_df : list Z := [100; 47; 102].
Definition wire_str (s : list Z) : list Z := to_le_bytes 2 (Z.of_nat (length s)) ++ s.
Definition attach_msg : list Z :=
  request TATTACH 7 (to_le_bytes 4 0 ++ to_le_bytes 4 0 ++ wire_str [] ++ wire_str [] ++ to_le_bytes 4 0).
Definition walk_msg (newfid : Z) (names : list (list Z)) : list Z :=
  request TWALK 7 (to_le_bytes 4 0 ++ to_le_bytes 4 newfid ++ to_le_bytes 2 (Z.of_nat (length names))
                   ++ concat (wire_str <$> names)).
Definition share_msgs : list (list Z) := [attach_msg; walk_msg 1 [name_d; name_f]; walk_msg 2 [name_d]].
Definition demo_share : Virtio9p.t :=
  let PR : Profile := Release in let T : Target := Wasm32 in
  match (p9_put path_df [10; 20; 30];; serve share_msgs) (Virtio9p.new [104]) with
  | Some (_, d) => d
  | None => Virtio9p.new []
  end.

Definition df_dir : Inode.t := Inode.add_child name_f 2 (Inode.dir 0).
Definition df_file (lz : bool) : Inode.t :=
  (Inode.file 1) <| Inode.data := [10; 20; 30] |> <| Inode.loaded := negb lz |>.
Definition df_nodes (lz : bool) : list Inode.t :=
  [Inode.add_child name_d 1 (Inode.dir 0); df_dir; df_file lz].
Definition df_share (lz : bool) : Virtio9p.t :=
  (Virtio9p.new [104]) <| lazy := lz |>
    <| fs := P9Fs.mk (df_nodes lz) (<[2 := 1]> (<[1 := 2]> (<[0 := 0]> ∅))) 8192 0 |>.

Lemma demo_share_is : demo_share = df_share false.
Proof. vm_compute. reflexivity. Qed.

Lemma df_wf lz : dinv true 3 (df_share lz).
Proof.
  constructor; [|by repeat constructor|done|by apply Forall_nil]. split.
  - repeat constructor; by unfold is_byte, urange.
  - intros _. split; [|done]. constructor.
    + by eexists.
    + intros [|[|[|i]]] n [= <-]; cbn; lia.
    + intros [|[|[|i]]] n name c [= <-] Hin; cbn in Hin;
        try (by apply elem_of_nil in Hin); apply list_elem_of_singleton in Hin as [= -> ->];
        (split; [lia|]); by eexists.
    + intros [|[|[|i]]] n [= <-]; cbn; try apply NoDup_singleton. apply NoDup_nil_2.
    + intros fid ino Hf. cbn in Hf. apply lookup_insert_Some in Hf as [[_ <-]|[_ Hf]]; [cbn; lia|].
      apply lookup_insert_Some in Hf as [[_ <-]|[_ Hf]]; [cbn; lia|].
      apply lookup_insert_Some in Hf as [[_ <-]|[_ Hf]]; [cbn; lia|]. by rewrite lookup_empty in Hf.
Qed.

Lemma p9_write_read_witness :
  ∃ d', @dispatch Release Wasm32 (request TWRITE 3 (write_body 1 5 [7; 8])) demo_share
        = Some (frame 119 3 [2; 0; 0; 0], d')
  ∧ @dispatch Release Wasm32 (request TREAD 3 (read_body 1 1 100)) d'
    = Some (frame 117 3 ([6; 0; 0; 0] ++ [20; 30; 0; 0; 7; 8]), d').
Proof.
  rewrite demo_share_is.
  destruct (@p9_write_read Release Wasm32 wasm_ok (df_share false) 3 1 2 (df_file false) 5 [7; 8] 3) as (d' & E & Hr).
  - apply df_wf.
  - by constructor.
  - done.
  - done.
  - by unfold urange.
  - by unfold urange.
  - done.
  - done.
  - done.
  - done.
  - done.
  - exists d'. split; [exact E|]. apply (Hr 1 100); [done|by unfold urange].
Defined.

Lemma p9_write_back_witness :
  ∃ r d' changes d'' new,
    @dispatch Release Wasm32 (request TWRITE 3 (write_body 1 5 [7; 8])) (df_share true) = Some (r, d')
    ∧ p9_take_changes d' = Some (changes, d'')
    ∧ FileChange.mk 0 path_df new ∈ changes ∧ length new = 7%nat ∧ byte_at new 6 = 8.
Proof.
  destruct (@p9_write_back Release Wasm32 wasm_ok (df_share true) 3 1 2 (df_file true) 5 [7; 8] 3 ([47] ++ path_df))
    as (r & d' & ch & d'' & new & E & Et & Hin & Hl & Hb & _).
  - apply df_wf.
  - done.
  - by constructor.
  - done.
  - done.
  - by unfold urange.
  - by unfold urange.
  - done.
  - done.
  - done.
  - done.
  - exists r, d', ch, d'', new. split_and!; [exact E|exact Et|exact Hin|cbn in Hl; lia|exact (Hb 6 ltac:(lia))].
Defined.

Lemma p9_server_total_witness :
  ∃ rs d', @serve Release Wasm32 [walk_msg 9 [name_d; name_d]; [1; 2; 3]] demo_share = Some (rs, d')
           ∧ Forall2 answered [walk_msg 9 [name_d; name_d]; [1; 2; 3]] rs.
Proof.
  rewrite demo_share_is.
  destruct (@p9_server_total Wasm32 wasm_ok (df_share false) [walk_msg 9 [name_d; name_d]; [1; 2; 3]] 3)
    as (rs & d' & E & Hr & _).
  - apply df_wf.
  - done.
  - repeat constructor; try (by unfold is_byte, urange); intros [[? _]|[? _]]; by vm_compute in H.
  - done.
  - by exists rs, d'.
Defined.

Lemma p9_readdir_complete_witness :
  @list_dir Release Wasm32 4 3 2 26 0 demo_share = Some [dot; dotdot; name_f].
Proof.
  rewrite demo_share_is.
  apply (@p9_readdir_complete Release Wasm32 wasm_ok (df_share false) 3 2 1 df_dir 26 3 4).
  - apply df_wf.
  - by constructor.
  - done.
  - by unfold urange.
  - by unfold urange.
  - by unfold urange.
  - done.
  - by repeat constructor.
  - done.
Defined.

Lemma p9_huge_size_panics_witness :
  @dispatch Release Native64 (request TSETATTR 3 (setattr_body 1 8 0 0 0 (2 ^ 63))) demo_share = None.
Proof.
  apply (@p9_huge_size_panics Release Native64 native_ok demo_share 1 2 (df_file false));
    try (by unfold urange); rewrite ?demo_share_is; try done.
Defined.

(** The read of fid 1 in guest memory, and a buffer for the reply. *)
Definition read_msg : list Z := request TREAD 3 (read_body 1 1 100).
Definition demo_mem : GuestMem.t := GuestMem.mk (read_msg ++ replicate 64 0) 0x80000000.
Definition demo_chain : Chain.t := Chain.mk 5 [Buf.mk 0x80000000 23] [Buf.mk 0x80000020 64].

Lemma p9_lazy_read_witness :
  ∃ d2, @p9_handle Release Wasm32 0 demo_chain (df_share true, demo_mem) = Some (0, (d2, demo_mem))
  ∧ host_reqs d2 = [HostReq.mk 1 0 path_df 1 100]
  ∧ ∃ d3 m', @p9_supply Release Wasm32 1 [1; 2; 3; 4] (d2, demo_mem) = Some (Some (0, 5, 14), (d3, m'))
             ∧ take 14 (drop 32 (GuestMem.dram m')) = frame 117 3 ([3; 0; 0; 0] ++ [2; 3; 4]).
Proof.
  destruct (@p9_lazy_read Release Wasm32 wasm_ok (df_share true) demo_mem 0 demo_chain 1 2 (df_file true) path_df
    1 100 3 read_msg 23) as (d2 & E & _ & Hreq & Hs).
  - done.
  - by vm_compute.
  - by vm_compute.
  - by constructor.
  - done.
  - done.
  - by vm_compute.
  - done.
  - by unfold urange.
  - by unfold urange.
  - by unfold urange.
  - done.
  - by apply Forall_nil.
  - exists d2. split_and!; [exact E|exact Hreq|]. destruct (Hs [1; 2; 3; 4] demo_mem) as (d3 & Es & _); [done|].
    cbv zeta in Es. eexists d3, _. split; [etransitivity; [exact Es|]|]; vm_compute; reflexivity.
Defined.
