(* ===== verification/DeviceBus.v ===== *)
(** The device bus ([riscv-devices/src/device_bus.rs]): DRAM, CLINT, UART, PLIC
    and the virtio-mmio slots behind guest physical addresses.

    [DeviceBus] implements the [Bus] trait of the interpreter.  A method that
    takes [&self] but mutates through a [Cell] or a [RefCell] (reading the
    receive buffer, claiming an interrupt, the access counters) is a
    computation on the state like the others.  The frame queues that [net]
    shares with the attached network device live in the device; [net] is the
    slot that holds them. *)

From S2P Require Import Prelude Keeps Types State Stream Cpu Plic Virtio VirtioBlk VirtioNet P9Fs Virtio9p.

Definition MROM_BASE : Z := 0x00000000.
Definition MROM_SIZE : Z := 0x00010000.
Definition CLINT_BASE : Z := 0x02000000.
Definition CLINT_SIZE : Z := 0x00010000.
Definition UART_BASE : Z := 0x10000000.
Definition UART_SIZE : Z := 0x00000100.
Definition DRAM_BASE : Z := 0x80000000.
Definition MTIME_STEPS_PER_TICK : Z := 10.
Definition MAX_IDLE_SKIP : Z := 10000.

(** The backing stores that are not host files, as one type for what the code
    holds as [Box<dyn BlockBackend>]. *)
Inductive AnyBackend :=
| InMemory (k : MemBackend.t)
| Detached (k : DetachedBackend.t).

Module AnyStore.
Section Dispatch.
Context `{Profile} `{Target}.

Definition call {A} (mem : M MemBackend.t A) (det : M DetachedBackend.t A) : M AnyBackend A := λ k,
  match k with
  | InMemory k => '(a, k) ← mem k; Some (a, InMemory k)
  | Detached k => '(a, k) ← det k; Some (a, Detached k)
  end.
Definition on_either {A} (mem : MemBackend.t → A) (det : DetachedBackend.t → A) (k : AnyBackend) : A :=
  match k with InMemory k => mem k | Detached k => det k end.

#[global] Instance backend : BlockBackend AnyBackend := {
  capacity_sectors := on_either capacity_sectors capacity_sectors;
  bk_read s n := call (bk_read s n) (bk_read s n);
  bk_write s buf := call (bk_write s buf) (bk_write s buf);
  bk_flush := call bk_flush bk_flush;
  bk_read_only := on_either bk_read_only bk_read_only;
}.
End Dispatch.
End AnyStore.

(** What the bus constructs and reaches behind the transport: the network
    card's queues, the disk's backing store and the shared folder.  The methods
    with the default of the trait do nothing for the other kinds. *)
Class Devices (D : Type) `{VirtioDevice D} := {
  new_net : list Z → D;
  net_queues : D → option NetQueues.t;
  set_net_queues : NetQueues.t → D → D;
  new_blk : AnyBackend → D;
  attach_backend : AnyBackend → M D bool;
  new_p9 : bool → list Z → D;
  p9_put : list Z → list Z → M D bool;
  p9_mkdir : list Z → M D unit;
  p9_list : D → option (list (list Z * list Z));
  p9_dirty : D → Z;
  p9_set_lazy : D → D;
  p9_take_changes : M D (list FileChange.t);
}.

(** The device models of the guest as one type, for what the code holds as
    [Box<dyn VirtioDevice>]: a disk, the network card whose queues the host
    shares, or the shared folder. *)
Inductive AnyDevice :=
| Disk (d : VirtioBlk.t AnyBackend)
| Nic (d : VirtioNet.t NetQueues.t)
| Share (d : Virtio9p.t).

Module AnyDev.
Section Dispatch.
Context `{Profile} `{Target}.

(** A method call goes to the device that is there. *)
Definition call {A} (blk : M (VirtioBlk.t AnyBackend) A) (nic : M (VirtioNet.t NetQueues.t) A)
    (share : M Virtio9p.t A) : M AnyDevice A := λ d,
  match d with
  | Disk b => '(a, b) ← blk b; Some (a, Disk b)
  | Nic n => '(a, n) ← nic n; Some (a, Nic n)
  | Share p => '(a, p) ← share p; Some (a, Share p)
  end.
Definition call_mem {A} (blk : M (VirtioBlk.t AnyBackend * GuestMem.t) A)
    (nic : M (VirtioNet.t NetQueues.t * GuestMem.t) A)
    (share : M (Virtio9p.t * GuestMem.t) A) : M (AnyDevice * GuestMem.t) A := λ s,
  match s.1 with
  | Disk b => '(a, (b, m)) ← blk (b, s.2); Some (a, (Disk b, m))
  | Nic n => '(a, (n, m)) ← nic (n, s.2); Some (a, (Nic n, m))
  | Share p => '(a, (p, m)) ← share (p, s.2); Some (a, (Share p, m))
  end.
Definition on_kind {A} (blk : VirtioBlk.t AnyBackend → A) (nic : VirtioNet.t NetQueues.t → A)
    (share : Virtio9p.t → A) (d : AnyDevice) : A :=
  match d with Disk b => blk b | Nic n => nic n | Share p => share p end.

#[global] Instance device : VirtioDevice AnyDevice := {
  device_id := on_kind device_id device_id device_id;
  features := on_kind features features features;
  num_queues := on_kind num_queues num_queues num_queues;
  config_read := on_kind config_read config_read config_read;
  config_write off v := call (config_write off v) (config_write off v) (config_write off v);
  handle q c := call_mem (handle q c) (handle q c) (handle q c);
  deferred_this := call deferred_this deferred_this deferred_this;
  take_host_reqs := call take_host_reqs take_host_reqs take_host_reqs;
  supply id p := call_mem (supply id p) (supply id p) (supply id p);
  dev_poll := call_mem dev_poll dev_poll dev_poll;
  dev_state := on_kind dev_state dev_state dev_state;
  load_dev_state l := call (load_dev_state l) (load_dev_state l) (load_dev_state l);
  rx_queue := on_kind rx_queue rx_queue rx_queue;
  has_rx := call has_rx has_rx has_rx;
  fill_rx c := call_mem (fill_rx c) (fill_rx c) (fill_rx c);
}.

#[global] Instance devices : Devices AnyDevice := {
  new_net mac := Nic (VirtioNet.new NetQueues.default mac);
  net_queues := on_kind (λ _, None) (λ n, Some (VirtioNet.backend n)) (λ _, None);
  set_net_queues q := on_kind Disk (λ n, Nic (VirtioNet.set_backend q n)) Share;
  new_blk k := Disk (VirtioBlk.new k);
  attach_backend k := call (VirtioBlk.attach_backend k) (mret false) (mret false);
  new_p9 lazy name := Share (if lazy then Virtio9p.new_lazy name else Virtio9p.new name);
  p9_put path data := call (mret false) (mret false) (Virtio9p.p9_put path data);
  p9_mkdir path := call (mret tt) (mret tt) (Virtio9p.p9_mkdir path);
  p9_list := on_kind (λ _, Some []) (λ _, Some []) Virtio9p.p9_list;
  p9_dirty := on_kind (λ _, 0) (λ _, 0) Virtio9p.p9_dirty;
  p9_set_lazy := on_kind Disk Nic (λ p, Share (Virtio9p.p9_set_lazy p));
  p9_take_changes := call (mret []) (mret []) Virtio9p.p9_take_changes;
}.
End Dispatch.
End AnyDev.

Module DeviceBus.
Record t (D : Type) := mk {
  dram : list Z;
  dram_base : Z;
  dram_size : Z;
  mtime : Z;
  mtimecmp : Z;
  msoft : Z;
  tick_accum : Z;
  uart_console : list Z;
  uart_mcr : Z;
  uart_scr : Z;
  uart_ier : Z;
  uart_rx : list Z;
  plic : Plic.t;
  uart_fcr : Z;
  uart_lcr : Z;
  uart_dll : Z;
  uart_dlm : Z;
  virtio : list (option (VirtioMmio.t D));
  virtio_n : nat;
  net_poll_accum : Z;
  idle_stall : Z;
  net : option nat;
  clint_mtime_reads : Z;
  clint_mtimecmp_writes : Z;
}.
Arguments mk {D}.
Arguments dram {D}.
Arguments dram_base {D}.
Arguments dram_size {D}.
Arguments mtime {D}.
Arguments mtimecmp {D}.
Arguments msoft {D}.
Arguments tick_accum {D}.
Arguments uart_console {D}.
Arguments uart_mcr {D}.
Arguments uart_scr {D}.
Arguments uart_ier {D}.
Arguments uart_rx {D}.
Arguments plic {D}.
Arguments uart_fcr {D}.
Arguments uart_lcr {D}.
Arguments uart_dll {D}.
Arguments uart_dlm {D}.
Arguments virtio {D}.
Arguments virtio_n {D}.
Arguments net_poll_accum {D}.
Arguments idle_stall {D}.
Arguments net {D}.
Arguments clint_mtime_reads {D}.
Arguments clint_mtimecmp_writes {D}.
#[global] Instance eta_bus {D} : Eta (t D) := λ b,
  mk (dram b) (dram_base b) (dram_size b) (mtime b) (mtimecmp b) (msoft b) (tick_accum b)
     (uart_console b) (uart_mcr b) (uart_scr b) (uart_ier b) (uart_rx b) (plic b) (uart_fcr b)
     (uart_lcr b) (uart_dll b) (uart_dlm b) (virtio b) (virtio_n b) (net_poll_accum b)
     (idle_stall b) (net b) (clint_mtime_reads b) (clint_mtimecmp_writes b).

(** DRAM comes up zeroed on every host: the native allocation clears it, and
    wasm linear memory grows with zeros. *)
Definition new {D} (size : Z) : t D :=
  mk (replicate (Z.to_nat size) 0) DRAM_BASE size 0 U64_MAX 0 0 [] 0 0 0 [] Plic.new 0 0 0 0
     (replicate VIRTIO_MMIO_SLOTS None) 0 0 0 None 0 0.

(** ** Address decoding *)

Definition in_clint (addr : Z) : bool := (CLINT_BASE <=? addr) && (addr <? CLINT_BASE + CLINT_SIZE).
Definition in_plic (addr : Z) : bool := (PLIC_BASE <=? addr) && (addr <? PLIC_BASE + PLIC_SIZE).
Definition in_uart (addr : Z) : bool := (UART_BASE <=? addr) && (addr <? UART_BASE + UART_SIZE).

Definition virtio_slot (addr : Z) : option (nat * Z) :=
  let e := VIRTIO_MMIO_BASE + VIRTIO_MMIO_STRIDE * Z.of_nat VIRTIO_MMIO_SLOTS in
  if (addr <? VIRTIO_MMIO_BASE) || (e <=? addr) then None
  else
    let rel := addr - VIRTIO_MMIO_BASE in
    Some (Z.to_nat (rel / VIRTIO_MMIO_STRIDE), rel mod VIRTIO_MMIO_STRIDE).

Section Ops.
Context {D : Type} `{Devices D} `{Profile} `{Target}.
Abbreviation DM := (M (t D)).

Definition dram_offset (b : t D) (addr : Z) : option (option Z) :=
  if dram_base b <=? addr then
    e ← add_u 64 (dram_base b) (dram_size b);
    Some (if addr <? e then Some (as_usize (addr - dram_base b)) else None)
  else Some None.

(** [dram[off..off + n]] and its [copy_from_slice]: past the end is a panic. *)
Definition dram_slice (off n : Z) : DM (list Z) :=
  d ← get dram; e ← lift (add_u usize_bits off n); lift (slice_get d off e).
Definition dram_store (off : Z) (src : list Z) : DM unit :=
  dram_slice off (Z.of_nat (length src));;
  modify (λ b, b <| dram := splice (dram b) off src |>).

Definition load_blob (addr : Z) (data : list Z) : DM unit :=
  base ← get dram_base; o ← lift (sub_u 64 addr base);
  dram_store (as_usize o) data.

(** *** Slots *)

Definition set_plic (p : Plic.t) (b : t D) : t D := b <| plic := p |>.
Definition on_plic {A} (m : M Plic.t A) : DM A := zoom plic set_plic m.

Definition mem_of (b : t D) : GuestMem.t := GuestMem.mk (dram b) (dram_base b).
Definition set_slot (i : nat) (v : VirtioMmio.t D) (b : t D) : t D :=
  b <| virtio := <[i := Some v]> (virtio b) |>.
(** A method of the transport in slot [i], with the DRAM lent to it. *)
Definition on_slot {A} (i : nat) (v : VirtioMmio.t D)
    (m : M (VirtioMmio.t D * GuestMem.t) A) : DM A := λ b,
  match m (v, mem_of b) with
  | Some (a, (v', g)) => Some (a, set_slot i v' (b <| dram := GuestMem.dram g |>))
  | None => None
  end.

(** [self.virtio[slot]]: the outer option is a panic. *)
Definition slot_at (i : nat) : DM (option (VirtioMmio.t D)) := l ← get virtio; lift (l !! i).

(** [plic.set_level(dev.irq, dev.irq_level())] for the device in slot [i] *)
Definition sync_line (i : nat) : DM unit :=
  o ← slot_at i;
  match o with
  | Some v => on_plic (Plic.set_level (VirtioMmio.irq v) (VirtioMmio.irq_level v))
  | None => mret tt
  end.

Fixpoint position_none {A} (l : list (option A)) (i : nat) : option nat :=
  match l with
  | [] => None
  | None :: _ => Some i
  | Some _ :: l => position_none l (S i)
  end.

Definition attach_virtio (d : D) : DM (option nat) :=
  l ← get virtio;
  match position_none l 0 with
  | None => mret None
  | Some slot =>
      let irq := S slot in
      modify (set_slot slot (VirtioMmio.new d irq));;
      modify (λ b, b <| virtio_n := Nat.max (virtio_n b) (S slot) |>);;
      mret (Some irq)
  end.

Definition attach_virtio_net (mac : list Z) : DM (option nat) :=
  let? irq := attach_virtio (new_net mac) in
  modify (λ b, b <| net := Some (irq - 1)%nat |>);;
  mret (Some irq).

(** The shared queues, through whichever slot owns them. *)
Definition shared_net (b : t D) : option NetQueues.t :=
  i ← net b; o ← virtio b !! i; v ← o; net_queues (VirtioMmio.dev v).

Definition net_sent_frames (b : t D) : option (list (list Z)) :=
  NetQueues.to_host <$> shared_net b.

Definition net_inject_frame (frame : list Z) : DM (option unit) :=
  b ← get id;
  match net b, shared_net b with
  | Some i, Some q =>
      let q := q <| NetQueues.to_guest := push_back frame (NetQueues.to_guest q) |> in
      o ← slot_at i;
      (match o with
       | Some v => modify (set_slot i (VirtioMmio.set_dev (set_net_queues q (VirtioMmio.dev v)) v))
       | None => mret tt
       end);;
      mret (Some tt)
  | _, _ => mret None
  end.

(** *** Time *)

Definition fast_forward_mtime (target : Z) : DM unit :=
  mt ← get mtime;
  if mt <? target then modify (λ b, b <| mtime := target |> <| tick_accum := 0 |>) else mret tt.

(** The guard of the idle paths: [true] when the clock must not move. *)
Definition idle_hold : DM bool :=
  b ← get id;
  let queued := match shared_net b with
                | Some q => negb (bool_decide (NetQueues.to_guest q = []))
                | None => false
                end in
  if queued && (idle_stall b <? 4096) then
    n ← lift (add_u 32 (idle_stall b) 1);
    modify (λ b, b <| idle_stall := n |>);; mret true
  else modify (λ b, b <| idle_stall := 0 |>);; mret false.

Definition idle_skip_mtime_to (target : Z) : DM unit :=
  hold ← idle_hold;
  if hold : bool then mret tt else fast_forward_mtime target.

Definition idle_skip_mtime (target : Z) : DM unit :=
  hold ← idle_hold;
  if hold : bool then mret tt
  else
    mt ← get mtime; lim ← lift (add_u 64 mt MAX_IDLE_SKIP);
    fast_forward_mtime (Z.min target lim).

Definition idle_skip_mtime_realtime (target allowance : Z) : DM bool :=
  hold ← idle_hold;
  if hold : bool then mret false
  else
    mt ← get mtime;
    fast_forward_mtime (Z.min target (Z.min (mt + allowance) U64_MAX));;
    mt ← get mtime; mret (target <=? mt).

(** *** Device work *)

(** [for slot in 0..self.virtio_n] *)
Fixpoint for_slots (n i : nat) (body : nat → DM unit) : DM unit :=
  match n with
  | O => mret tt
  | S n => body i;; for_slots n (S i) body
  end.

Fixpoint flush_slots (n i : nat) (any : bool) : DM bool :=
  match n with
  | O => mret any
  | S n =>
      o ← slot_at i;
      any' ← match o with
             | Some v =>
                 if negb (VirtioMmio.has_pending v) then mret any
                 else
                   r ← on_slot i v VirtioMmio.flush_pending;
                   sync_line i;;
                   mret (r || any)
             | None => mret any
             end;
      flush_slots n (S i) any'
  end.

Definition flush_virtio_completions : DM bool :=
  n ← get virtio_n; flush_slots n 0 false.

Definition refresh_virtio_irqs : DM unit :=
  n ← get virtio_n; for_slots n 0 sync_line.

Definition virtio_write (slot : nat) (off val : Z) : DM unit :=
  o ← slot_at slot;
  match o with
  | None => mret tt
  | Some v =>
      changed ← on_slot slot v (VirtioMmio.write off val);
      if changed : bool then sync_line slot else mret tt
  end.

(** One slot of [virtio_tick]. *)
Definition tick_slot (advance : Z) (poll_rx : bool) (i : nat) : DM unit :=
  o ← slot_at i;
  match o with
  | None => mret tt
  | Some v =>
      (if poll_rx then
         r ← on_slot i v VirtioMmio.poll;
         if r : bool then sync_line i else mret tt
       else mret tt);;
      o ← slot_at i;
      match o with
      | None => mret tt
      | Some v =>
          if negb (VirtioMmio.has_pending v) then mret tt
          else
            r ← on_slot i v (VirtioMmio.tick advance);
            if r : bool then sync_line i else mret tt
      end
  end.

Definition virtio_tick (advance : Z) : DM unit :=
  modify (λ b, b <| net_poll_accum := as_u64 (net_poll_accum b + 1) |>);;
  poll_rx ← get (λ b, net_poll_accum b mod 512 =? 0);
  n ← get virtio_n;
  for_slots n 0 (tick_slot advance poll_rx).

Definition tick : DM unit :=
  a ← get tick_accum; a' ← lift (add_u 64 a 1);
  modify (λ b, b <| tick_accum := a' |>);;
  (if MTIME_STEPS_PER_TICK <=? a'
   then modify (λ b, b <| tick_accum := 0 |> <| mtime := as_u64 (mtime b + 1) |>)
   else mret tt);;
  virtio_tick 1.

Definition tick_n (n : Z) : DM unit :=
  if n =? 0 then mret tt
  else if n =? 1 then tick
  else
    a ← get tick_accum; a' ← lift (add_u 64 a n);
    let ticks := a' / MTIME_STEPS_PER_TICK in
    modify (λ b, b <| tick_accum := a' mod MTIME_STEPS_PER_TICK |>
                   <| mtime := as_u64 (mtime b + ticks) |>
                   <| net_poll_accum := as_u64 (net_poll_accum b + (n - 1)) |>);;
    virtio_tick n.

(** *** UART *)

Definition uart_irq_level (b : t D) : bool :=
  negb (Z.land (uart_ier b) 0x02 =? 0)
  || (negb (Z.land (uart_ier b) 0x01 =? 0) && negb (bool_decide (uart_rx b = []))).

Definition refresh_uart_irq : DM unit :=
  lv ← get uart_irq_level; on_plic (Plic.set_level UART_IRQ lv).

Definition uart_push_input (bytes : list Z) : DM unit :=
  modify (λ b, b <| uart_rx := uart_rx b ++ bytes |>);; refresh_uart_irq.

Definition pop_rx : DM Z :=
  l ← get uart_rx;
  match l with
  | [] => mret 0
  | x :: l => modify (λ b, b <| uart_rx := l |>);; mret x
  end.

Definition external_interrupt_pending : DM bool :=
  lv ← get uart_irq_level;
  refresh_virtio_irqs;;
  on_plic (Plic.set_level UART_IRQ lv);;
  get (λ b, Plic.any_pending (plic b)).

Definition any_virtio_pending (b : t D) : bool :=
  existsb (λ o, match o with Some v => VirtioMmio.has_pending v | None => false end)
          (take (virtio_n b) (virtio b)).

(** The host address of a DRAM page, [host] being that of DRAM itself. *)
Definition dram_page_host_addr (host : Z) (b : t D) (paddr : Z) : option (option Z) :=
  let page := Z.land paddr (unot 64 0xFFF) in
  if page <? dram_base b then Some None
  else
    let off := page - dram_base b in
    if (2 ^ 64 <=? off + 4096) || (dram_size b <? off + 4096) then Some None
    else a ← add_u 64 host off; Some (Some (as_u32 a)).

(** ** The [Bus] trait *)

Definition uart_lsr (b : t D) : Z :=
  Z.lor 0x60 (if bool_decide (uart_rx b = []) then 0x00 else 0x01).

Definition uart_iir (b : t D) : Z :=
  if negb (Z.land (uart_ier b) 0x01 =? 0) && negb (bool_decide (uart_rx b = [])) then 0xC4
  else if negb (Z.land (uart_ier b) 0x02 =? 0) then 0xC2
  else 0xC1.

(** MSR reflects MCR in loopback mode. *)
Definition uart_msr (b : t D) : Z :=
  let mcr := uart_mcr b in
  if negb (Z.land mcr 0x10 =? 0) then
    Z.lor (Z.lor (Z.lor (as_u8 (Z.shiftl (Z.land mcr 1) 5)) (as_u8 (Z.shiftl (Z.land mcr 2) 3)))
                 (as_u8 (Z.shiftl (Z.land mcr 4) 4)))
          (as_u8 (Z.shiftl (Z.land mcr 8) 4))
  else 0x00.

Definition uart_read (off : Z) : DM Z :=
  b ← get id;
  let dlab := negb (Z.land (uart_lcr b) 0x80 =? 0) in
  if off =? 0x00 then if dlab then mret (uart_dll b) else pop_rx
  else if off =? 0x01 then mret (if dlab then uart_dlm b else uart_ier b)
  else if off =? 0x02 then mret (uart_iir b)
  else if off =? 0x03 then mret (uart_lcr b)
  else if off =? 0x04 then mret (uart_mcr b)
  else if (off =? 0x05) || (off =? 0x0A) || (off =? 0x14) || (off =? 0x1C) then mret (uart_lsr b)
  else if off =? 0x06 then mret (uart_msr b)
  else if off =? 0x07 then mret (uart_scr b)
  else mret 0.

Definition uart_write (off val : Z) : DM unit :=
  b ← get id;
  let dlab := negb (Z.land (uart_lcr b) 0x80 =? 0) in
  if off =? 0x00 then
    if dlab then modify (λ b, b <| uart_dll := val |>)
    else modify (λ b, b <| uart_console := uart_console b ++ [val] |>)
  else if off =? 0x01 then
    if dlab then modify (λ b, b <| uart_dlm := val |>) else modify (λ b, b <| uart_ier := val |>)
  else if off =? 0x02 then modify (λ b, b <| uart_fcr := val |>)
  else if off =? 0x03 then modify (λ b, b <| uart_lcr := val |>)
  else if off =? 0x04 then modify (λ b, b <| uart_mcr := val |>)
  else if off =? 0x07 then modify (λ b, b <| uart_scr := val |>)
  else mret tt.

Definition bus_read_u8 (addr : Z) : DM Z :=
  b ← get id; o ← lift (dram_offset b addr);
  match o with
  | Some off => lift (vec_get (dram b) off)
  | None =>
      if in_clint addr then mret (if Z.land addr 0xFFFF =? 0 then 3 else 0)
      else match virtio_slot addr with
      | Some (slot, off) =>
          d ← slot_at slot;
          match d with
          | Some v => mret (as_u8 (Z.shiftr (VirtioMmio.read v (Z.land off (unot usize_bits 3)))
                                            (off mod 4 * 8)))
          | None => mret 0
          end
      | None => if in_uart addr then uart_read (as_u8 (addr - UART_BASE)) else mret 0
      end
  end.

Definition bus_read_u16 (addr : Z) : DM Z :=
  lo ← bus_read_u8 addr;
  a ← lift (add_u 64 addr 1);
  hi ← bus_read_u8 a;
  mret (from_le_bytes [lo; hi]).

Definition count_mtime_read : DM unit :=
  n ← get clint_mtime_reads; n' ← lift (add_u 64 n 1);
  modify (λ b, b <| clint_mtime_reads := n' |>).

Definition bus_read_u32 (addr : Z) : DM Z :=
  b ← get id; o ← lift (dram_offset b addr);
  match o with
  | Some off => s ← dram_slice off 4; mret (from_le_bytes s)
  | None =>
      if in_clint addr then
        (if (addr =? 0x0200BFF8) || (addr =? 0x0200BFFC) then count_mtime_read else mret tt);;
        mret (if addr =? 0x02000000 then msoft b
              else if addr =? 0x02000004 then 0
              else if addr =? 0x02004000 then as_u32 (mtimecmp b)
              else if addr =? 0x02004004 then as_u32 (Z.shiftr (mtimecmp b) 32)
              else if addr =? 0x0200BFF8 then as_u32 (mtime b)
              else if addr =? 0x0200BFFC then as_u32 (Z.shiftr (mtime b) 32)
              else 0)
      else match virtio_slot addr with
      | Some (slot, off) =>
          d ← slot_at slot;
          mret (match d with Some v => VirtioMmio.read v off | None => 0 end)
      | None =>
          if in_plic addr then refresh_uart_irq;; on_plic (Plic.plic_read addr)
          else if in_uart addr then bus_read_u8 addr
          else mret 0
      end
  end.

Definition bus_read_u64 (addr : Z) : DM Z :=
  b ← get id; o ← lift (dram_offset b addr);
  match o with
  | Some off => s ← dram_slice off 8; mret (from_le_bytes s)
  | None =>
      if in_clint addr then
        (if addr =? 0x0200BFF8 then count_mtime_read else mret tt);;
        mret (if addr =? 0x02000000 then msoft b
              else if addr =? 0x02004000 then mtimecmp b
              else if addr =? 0x0200BFF8 then mtime b
              else 0)
      else
        lo ← bus_read_u32 addr;
        a ← lift (add_u 64 addr 4);
        hi ← bus_read_u32 a;
        mret (Z.lor lo (as_u64 (Z.shiftl hi 32)))
  end.

Definition bus_write_u8 (addr val : Z) : DM unit :=
  b ← get id; o ← lift (dram_offset b addr);
  match o with
  | Some off => dram_store off [val]
  | None =>
      match virtio_slot addr with
      | Some (slot, off) => if 0x100 <=? off then virtio_write slot off val else mret tt
      | None => if in_uart addr then uart_write (as_u8 (addr - UART_BASE)) val else mret tt
      end
  end.

Definition bus_write_u16 (addr val : Z) : DM unit :=
  b ← get id; o ← lift (dram_offset b addr);
  match o with
  | Some off => dram_store off (to_le_bytes 2 val)
  | None =>
      if in_uart addr then bus_write_u8 addr (Z.land val 0xFF)
      else
        bus_write_u8 addr (Z.land val 0xFF);;
        a ← lift (add_u 64 addr 1);
        bus_write_u8 a (Z.land (Z.shiftr val 8) 0xFF)
  end.

Definition bus_write_u32 (addr val : Z) : DM unit :=
  b ← get id; o ← lift (dram_offset b addr);
  match o with
  | Some off => dram_store off (to_le_bytes 4 val)
  | None =>
      if in_uart addr then bus_write_u8 addr (Z.land val 0xFF)
      else if in_clint addr then
        if addr =? 0x02000000 then modify (λ b, b <| msoft := val |>)
        else if addr =? 0x02004000 then
          modify (λ b, b <| mtimecmp := VirtioMmio.low_half (mtimecmp b) val |>)
        else if addr =? 0x02004004 then
          modify (λ b, b <| mtimecmp := VirtioMmio.high_half (mtimecmp b) val |>)
        else mret tt
      else match virtio_slot addr with
      | Some (slot, off) => virtio_write slot off val
      | None => if in_plic addr then on_plic (Plic.plic_write addr val) else mret tt
      end
  end.

Definition count_mtimecmp_write : DM unit :=
  n ← get clint_mtimecmp_writes; n' ← lift (add_u 64 n 1);
  modify (λ b, b <| clint_mtimecmp_writes := n' |>).

Definition bus_write_u64 (addr val : Z) : DM unit :=
  b ← get id; o ← lift (dram_offset b addr);
  match o with
  | Some off => dram_store off (to_le_bytes 8 val)
  | None =>
      if in_uart addr then bus_write_u8 addr (Z.land val 0xFF)
      else if in_clint addr then
        if addr =? 0x02000000 then modify (λ b, b <| msoft := as_u32 val |>)
        else if addr =? 0x02004000 then
          modify (λ b, b <| mtimecmp := val |>);; count_mtimecmp_write
        else mret tt
      else
        bus_write_u32 addr (Z.land val 0xFFFFFFFF);;
        a ← lift (add_u 64 addr 4);
        bus_write_u32 a (Z.land (Z.shiftr val 32) 0xFFFFFFFF)
  end.

#[global] Instance bus : Bus (t D) := {
  read_u8 := bus_read_u8;
  read_u16 := bus_read_u16;
  read_u32 := bus_read_u32;
  read_u64 := bus_read_u64;
  write_u8 := bus_write_u8;
  write_u16 := bus_write_u16;
  write_u32 := bus_write_u32;
  write_u64 := bus_write_u64;
  check_timer_interrupt := get (λ b, mtimecmp b <=? mtime b);
  read_mtime := get mtime;
  check_external_interrupt := external_interrupt_pending;
}.
(** *** The host's side of the devices *)

Definition slot_is (kind : Z) (o : option (VirtioMmio.t D)) : bool :=
  match o with Some v => device_id (VirtioMmio.dev v) =? kind | None => false end.
(** The first slot that holds a device of that kind. *)
Fixpoint find_kind (kind : Z) (l : list (option (VirtioMmio.t D))) (i : nat) : option nat :=
  match l with
  | [] => None
  | o :: l => if slot_is kind o then Some i else find_kind kind l (S i)
  end.

Definition virtio_device_id (b : t D) (slot : Z) : option Z :=
  o ← vec_get (virtio b) slot; v ← o; Some (device_id (VirtioMmio.dev v)).

Definition attach_9p (name : list Z) : DM (option nat) := attach_virtio (new_p9 false name).
Definition attach_9p_lazy (name : list Z) : DM (option nat) := attach_virtio (new_p9 true name).

(** A method of the device in the first slot of that kind, [dflt] without one. *)
Definition on_kind_of {A} (kind : Z) (dflt : A) (m : M D A) : DM A :=
  l ← get virtio;
  match find_kind kind l 0 with
  | None => mret dflt
  | Some i =>
      o ← slot_at i;
      match o with
      | Some v =>
          '(a, d) ← lift (m (VirtioMmio.dev v));
          modify (set_slot i (VirtioMmio.set_dev d v));; mret a
      | None => mret dflt
      end
  end.
Definition dev_of_kind (kind : Z) (b : t D) : option D :=
  i ← find_kind kind (virtio b) 0; o ← virtio b !! i; v ← o; Some (VirtioMmio.dev v).

Definition share_set_lazy : DM unit := on_kind_of 9 tt (modify p9_set_lazy).
Definition share_take_changes : DM (list FileChange.t) := on_kind_of 9 [] p9_take_changes.
Definition share_take_reqs : DM (list HostReq.t) := on_kind_of 9 [] take_host_reqs.
Definition share_put (path data : list Z) : DM bool := on_kind_of 9 false (p9_put path data).
Definition share_mkdir (path : list Z) : DM unit := on_kind_of 9 tt (p9_mkdir path).
Definition share_list (b : t D) : option (list (list Z * list Z)) :=
  match dev_of_kind 9 b with Some d => p9_list d | None => Some [] end.
Definition share_dirty (b : t D) : Z :=
  match dev_of_kind 9 b with Some d => p9_dirty d | None => 0 end.

Definition share_supply (id : Z) (payload : list Z) : DM bool :=
  b ← get Datatypes.id;
  match find_kind 9 (take (virtio_n b) (virtio b)) 0 with
  | None => mret false
  | Some slot =>
      o ← slot_at slot;
      match o with
      | None => mret false
      | Some v =>
          ok ← on_slot slot v (VirtioMmio.mmio_supply id payload);
          sync_line slot;; mret ok
      end
  end.

(** A restored disk gets its store back; without a disk one is made. *)
Definition attach_blk_backend (k : AnyBackend) : DM bool :=
  l ← get virtio;
  match find_kind 2 l 0 with
  | Some _ => on_kind_of 2 false (attach_backend k)
  | None => irq ← attach_virtio (new_blk k); mret (bool_decide (is_Some irq))
  end.
End Ops.
End DeviceBus.
