(* ===== verification/BusProps.v ===== *)
(** What the device bus guarantees: the clock, DRAM accesses, and the invariant
    that every bus operation keeps. *)

From S2P Require Import Prelude Keeps Types State Stream Cpu Plic Virtio VirtioSg VirtioQueue VirtioBlk VirtioNet DeviceBus.
Import DeviceBus.

(** * The clock *)

Section Clock.
Context {D : Type} `{Devices D} {PR : Profile} {T : Target}.
Implicit Types b : t D.

(** The fields that count retired instructions. *)
Definition clock b : Z * Z * Z := (mtime b, tick_accum b, net_poll_accum b).

Definition clock_is (c : Z * Z * Z) b : Prop := clock b = c.

Lemma clock_upd c (f : t D → t D) :
  (∀ b, clock (f b) = clock b) → keeps True (clock_is c) (modify f) (λ _, True).
Proof. intros Hf. apply keeps_modify. unfold clock_is. intros b. by rewrite Hf. Qed.

Lemma clock_get {A} c (f : t D → A) : keeps True (clock_is c) (get f) (λ _, True).
Proof. by apply keeps_get. Qed.

Lemma clock_lift {A} c (o : option A) : keeps True (clock_is c) (lift o) (λ _, True).
Proof. apply keeps_lift. by destruct o. Qed.

Lemma clock_plic {A} c (m : M Plic.t A) : keeps True (clock_is c) (on_plic m) (λ _, True).
Proof. intros b Hb. apply wp_zoom. unfold wp. by destruct (m (plic b)) as [[??]|]. Qed.

Lemma clock_slot {A} c i v (m : M (VirtioMmio.t D * GuestMem.t) A) :
  keeps True (clock_is c) (on_slot i v m) (λ _, True).
Proof. intros b Hb. unfold wp, on_slot. by destruct (m (v, mem_of b)) as [[a [v' g]]|]. Qed.

Lemma clock_slot_at c i : keeps True (clock_is c) (slot_at i) (λ _, True).
Proof. eapply keeps_bind; [apply clock_get|]. intros. apply clock_lift. Qed.

Lemma clock_sync c i : keeps True (clock_is c) (sync_line i) (λ _, True).
Proof.
  eapply keeps_bind; [apply clock_slot_at|]. intros [v|] _; [apply clock_plic|by apply keeps_ret].
Qed.

Lemma clock_ret {A} c (a : A) : keeps True (clock_is c) (mret a) (λ _, True).
Proof. by apply keeps_ret. Qed.
End Clock.

Create HintDb clock.
#[export] Hint Resolve clock_get clock_lift clock_plic clock_slot clock_slot_at clock_sync clock_ret : clock.

(** Walk down a body, discharging the parts with the given database. *)
Ltac walk_with solve_leaf :=
  lazymatch goal with
  | |- keeps _ _ (mbind _ _) _ => eapply keeps_bind; [solve [solve_leaf]|intros ? _]
  | |- keeps _ _ (if ?c then _ else _) _ => destruct c
  | |- keeps _ _ (match ?x with _ => _ end) _ => destruct x
  | |- _ => solve [solve_leaf]
  end.
Ltac clock_step := walk_with ltac:(eauto with clock).

Section Ticks.
Context {D : Type} `{Devices D} {PR : Profile} {T : Target}.
Implicit Types b : t D.

Lemma clock_tick_slot c a p i : keeps True (clock_is (D := D) c) (tick_slot a p i) (λ _, True).
Proof.
  unfold tick_slot. do 2 clock_step; [|apply clock_ret].
  eapply keeps_bind; [|intros ? _].
  - repeat clock_step.
  - repeat clock_step.
Qed.

Lemma clock_for_slots c n : ∀ i body,
  (∀ i, keeps True (clock_is (D := D) c) (body i) (λ _, True)) →
  keeps True (clock_is (D := D) c) (for_slots n i body) (λ _, True).
Proof.
  induction n as [|n IH]; intros i body Hb; cbn [for_slots]; [apply clock_ret|].
  apply keeps_seq; auto.
Qed.

(** The clock after [n] retired instructions. *)
Definition clock_after (n : Z) (c : Z * Z * Z) : Z * Z * Z :=
  let '(mt, acc, net) := c in
  (as_u64 (mt + (acc + n) / MTIME_STEPS_PER_TICK), (acc + n) mod MTIME_STEPS_PER_TICK, as_u64 (net + n)).

Lemma virtio_tick_clock a b :
  wp True (virtio_tick a) (λ _ b', clock b' = (mtime b, tick_accum b, as_u64 (net_poll_accum b + 1))) b.
Proof.
  unfold virtio_tick. apply wp_bind, wp_modify.
  set (b1 := b <| net_poll_accum := _ |>).
  assert (Hk : keeps True (clock_is (D := D) (clock b1))
    (poll_rx ← get (λ b, net_poll_accum b mod 512 =? 0);
     n ← get virtio_n; for_slots n 0 (tick_slot a poll_rx)) (λ _, True)).
  { do 2 clock_step. apply clock_for_slots. intros. apply clock_tick_slot. }
  eapply wp_mono; [by apply Hk|]. intros [] b' [_ E]. exact E.
Qed.

Lemma tick_clock b :
  0 <= tick_accum b < MTIME_STEPS_PER_TICK → urange 64 (mtime b) →
  wp True tick (λ _ b', clock b' = clock_after 1 (clock b)) b.
Proof.
  intros Ha Hm. unfold MTIME_STEPS_PER_TICK in Ha. unfold tick. apply wp_bind, wp_get, wp_bind, wp_lift.
  rewrite add_u_small by (unfold urange; lia). apply wp_bind, wp_modify, wp_bind.
  unfold clock_after, MTIME_STEPS_PER_TICK. cbn [clock].
  apply wp_if; intros Hc.
  - apply wp_modify. eapply wp_mono; [apply virtio_tick_clock|]. intros [] b' ->. cbn.
    replace (tick_accum b + 1) with 10 by lia. done.
  - apply wp_ret. eapply wp_mono; [apply virtio_tick_clock|]. intros [] b' ->. cbn.
    rewrite Z.div_small, Z.mod_small, Z.add_0_r by lia. by rewrite (wrap_small 64 (mtime b)).
Qed.

Lemma tick_n_clock n b :
  0 <= tick_accum b < MTIME_STEPS_PER_TICK → urange 64 (mtime b) → urange 64 (net_poll_accum b) →
  0 <= n → n + 10 < 2 ^ 64 →
  wp True (tick_n n) (λ _ b', clock b' = clock_after n (clock b)) b.
Proof.
  intros Ha Hm Hp Hn H64. pose proof Ha as Ha'. unfold MTIME_STEPS_PER_TICK in Ha'. unfold tick_n.
  apply wp_if; intros Hz.
  { apply wp_ret. apply Z.eqb_eq in Hz as ->. unfold clock_after, clock, MTIME_STEPS_PER_TICK.
    rewrite !Z.add_0_r, Z.div_small, Z.mod_small, Z.add_0_r by lia. by rewrite !wrap_small. }
  apply wp_if; intros Ho; [apply Z.eqb_eq in Ho as ->; by apply tick_clock|].
  apply wp_bind, wp_get, wp_bind, wp_lift. rewrite add_u_small by (unfold urange; lia). cbv zeta.
  apply wp_bind, wp_modify. eapply wp_mono; [apply virtio_tick_clock|]. intros [] b' ->. cbn.
  f_equal. unfold wrap. rewrite Zplus_mod_idemp_l. f_equal. lia.
Qed.

Fixpoint ticks (n : nat) : M (t D) unit :=
  match n with O => mret tt | S n => tick;; ticks n end.

Lemma clock_after_add n m c :
  0 <= c.1.2 → clock_after m (clock_after n c) = clock_after (n + m) c.
Proof.
  destruct c as [[mt acc] net]. cbn. intros Ha. unfold clock_after, MTIME_STEPS_PER_TICK.
  assert (E : (acc + (n + m)) / 10 = (acc + n) / 10 + ((acc + n) mod 10 + m) / 10).
  { rewrite <- Z.div_add_l by lia. f_equal. pose proof (Z.div_mod (acc + n) 10). lia. }
  f_equal; [f_equal|].
  - unfold wrap. rewrite Zplus_mod_idemp_l. f_equal. lia.
  - rewrite Zplus_mod_idemp_l. f_equal. lia.
  - unfold wrap. rewrite Zplus_mod_idemp_l. f_equal. lia.
Qed.

Lemma ticks_clock n : ∀ b,
  0 <= tick_accum b < MTIME_STEPS_PER_TICK → urange 64 (mtime b) → urange 64 (net_poll_accum b) →
  wp True (ticks n) (λ _ b', clock b' = clock_after (Z.of_nat n) (clock b)) b.
Proof.
  induction n as [|n IH]; intros b Ha Hm Hp; cbn [ticks].
  - apply wp_ret. unfold clock_after, clock, MTIME_STEPS_PER_TICK in *. cbn [Z.of_nat].
    rewrite !Z.add_0_r, Z.div_small, Z.mod_small, Z.add_0_r by lia. by rewrite !wrap_small.
  - apply wp_bind. eapply wp_mono; [by apply tick_clock|]. intros [] b1 E.
    assert (Hr : 0 <= tick_accum b1 < MTIME_STEPS_PER_TICK ∧ urange 64 (mtime b1) ∧ urange 64 (net_poll_accum b1)).
    { unfold clock_after, clock in E. injection E as -> -> ->.
      split; [apply Z.mod_pos_bound; unfold MTIME_STEPS_PER_TICK; lia|]. split; apply wrap_range; lia. }
    destruct Hr as (Ha1 & Hm1 & Hp1).
    eapply wp_mono; [by apply IH|]. intros [] b2 ->. rewrite E, clock_after_add by apply Ha.
    f_equal. lia.
Qed.
End Ticks.

(** * DRAM *)

(** The accesses of a bus by their width in bytes. *)
Definition rd {B} `{Bus B} (n : nat) (a : Z) : M B Z :=
  match n with 1%nat => read_u8 a | 2%nat => read_u16 a | 4%nat => read_u32 a | _ => read_u64 a end.
Definition wr {B} `{Bus B} (n : nat) (a v : Z) : M B unit :=
  match n with 1%nat => write_u8 a v | 2%nat => write_u16 a v | 4%nat => write_u32 a v | _ => write_u64 a v end.
Definition is_width (n : nat) : Prop := n ∈ [1; 2; 4; 8]%nat.

(** Run [b ← get id]. *)
Ltac get_self := erewrite M_bind_some by reflexivity; unfold id; cbv beta.

Section Dram.
Context {D : Type} `{Devices D} {PR : Profile} {T : Target} {Ht : TargetOk T}.
Implicit Types b : t D.

(** The DRAM of a bus is as large as it says, fits the address spaces of the
    guest and of the host, and holds bytes. *)
Record dram_wf b : Prop := {
  dw_size : dram_size b = Z.of_nat (length (dram b));
  dw_base : 0 <= dram_base b;
  dw_guest : dram_base b + dram_size b < 2 ^ 64;
  dw_host : dram_size b < 2 ^ usize_bits;
  dw_bytes : Forall is_byte (dram b);
}.

(** [m] agrees with the DRAM of [b] on its addresses. *)
Definition ram_view b (m : Ram.t) : Prop :=
  ∀ i x, dram b !! i = Some x → Ram.get_byte m (dram_base b + Z.of_nat i) = x.

Definition in_dram b (a : Z) (n : nat) : Prop :=
  dram_base b <= a ∧ a + Z.of_nat n <= dram_base b + dram_size b.

Lemma dram_offset_in b a n :
  dram_wf b → in_dram b a (S n) → dram_offset b a = Some (Some (a - dram_base b)).
Proof.
  intros Hw [Hlo Hhi]. pose proof (dw_guest _ Hw). pose proof (dw_host _ Hw). pose proof (dw_base _ Hw).
  unfold dram_offset. replace (dram_base b <=? a) with true by lia.
  rewrite add_u_small by (unfold urange; lia). cbn.
  replace (a <? dram_base b + dram_size b) with true by lia.
  by rewrite wrap_small by (unfold urange; lia).
Qed.

Lemma slice_in (l : list Z) o n :
  0 <= o → o + Z.of_nat n <= Z.of_nat (length l) →
  slice_get l o (o + Z.of_nat n) = Some (take n (drop (Z.to_nat o) l)).
Proof.
  intros Ho Hn. unfold slice_get.
  replace (_ && _) with true by (symmetry; apply andb_true_intro; split; lia).
  by replace (o + Z.of_nat n - o) with (Z.of_nat n) by lia; rewrite Nat2Z.id.
Qed.

Lemma dram_slice_run b o n :
  dram_wf b → 0 <= o → o + Z.of_nat n <= dram_size b →
  dram_slice o (Z.of_nat n) b = Some (take n (drop (Z.to_nat o) (dram b)), b).
Proof.
  intros Hw Ho Hn. pose proof (dw_host _ Hw). pose proof (dw_size _ Hw) as Hs.
  unfold dram_slice. erewrite M_bind_some by reflexivity.
  erewrite lift_bind by (apply add_u_small; unfold urange; lia).
  unfold lift. by rewrite slice_in by lia.
Qed.

Lemma dram_slice_past b o n :
  dram_wf b → 0 <= o <= dram_size b → (n <= 8)%nat → dram_size b < o + Z.of_nat n →
  dram_slice o (Z.of_nat n) b = None.
Proof.
  intros Hw Ho Hn8 Hn. pose proof (dw_host _ Hw). pose proof (dw_size _ Hw) as Hs.
  unfold dram_slice. erewrite M_bind_some by reflexivity. rewrite M_bind_run. unfold lift.
  destruct (add_u usize_bits o (Z.of_nat n)) as [e|] eqn:E; [|done].
  pose proof usize_ok. unfold add_u, checked_u in E. destruct (_ && _) eqn:Eb.
  - injection E as <-. by rewrite slice_get_short by lia.
  - destruct overflow_checks; [done|]. injection E as <-.
    unfold slice_get. replace (o <=? wrap usize_bits (o + Z.of_nat n)) with false; [done|].
    symmetry. apply Z.leb_gt.
    assert (2 ^ 8 <= 2 ^ usize_bits) by (apply Z.pow_le_mono_r; lia).
    assert (E1 : wrap usize_bits (o + Z.of_nat n) = o + Z.of_nat n - 2 ^ usize_bits).
    { unfold wrap. rewrite <- (Z_mod_plus_full _ (-1)). apply Z.mod_small. lia. }
    rewrite E1. lia.
Qed.

Lemma dram_byte b a :
  dram_wf b → in_dram b a 1 →
  bus_read_u8 a b = (x ← dram b !! Z.to_nat (a - dram_base b); Some (x, b)).
Proof.
  intros Hw Hin. pose proof (dw_size _ Hw). destruct Hin as [Hlo Hhi].
  unfold bus_read_u8. get_self.
  erewrite lift_bind by (apply (dram_offset_in _ _ 0); [done|by split]).
  unfold lift, vec_get. replace (_ && _) with true by (symmetry; apply andb_true_intro; split; lia).
  by destruct (dram b !! _).
Qed.

Lemma take_one (l : list Z) i x : l !! i = Some x → take 1 (drop i l) = [x].
Proof. intros E. by rewrite (drop_S _ _ _ E). Qed.

Lemma dram_lookup b a : dram_wf b → in_dram b a 1 → ∃ x, dram b !! Z.to_nat (a - dram_base b) = Some x.
Proof.
  intros Hw [Hlo Hhi]. pose proof (dw_size _ Hw). apply lookup_lt_is_Some. lia.
Qed.

Lemma dram_read n b a :
  is_width n → dram_wf b → in_dram b a n →
  rd n a b = Some (from_le_bytes (take n (drop (Z.to_nat (a - dram_base b)) (dram b))), b).
Proof.
  intros Hn Hw Hin. pose proof (dw_guest _ Hw). pose proof (dw_base _ Hw). pose proof Hin as [Hlo Hhi].
  unfold is_width in Hn. rewrite !elem_of_cons, elem_of_nil in Hn.
  destruct Hn as [->|[->|[->|[->|[]]]]]; cbn [rd read_u8 read_u16 read_u32 read_u64 bus].
  - rewrite dram_byte by done. destruct (dram_lookup _ _ Hw Hin) as [x E]. rewrite E.
    rewrite (take_one _ _ _ E). cbn. by rewrite Z.add_0_r.
  - unfold bus_read_u16. assert (Hi0 : in_dram b a 1) by (split; lia).
    assert (Hi1 : in_dram b (a + 1) 1) by (split; lia).
    destruct (dram_lookup _ _ Hw Hi0) as [x Ex]. destruct (dram_lookup _ _ Hw Hi1) as [y Ey].
    erewrite M_bind_some by (rewrite dram_byte by done; rewrite Ex; reflexivity).
    erewrite lift_bind by (apply add_u_small; unfold urange; lia).
    erewrite M_bind_some by (rewrite dram_byte by done; rewrite Ey; reflexivity).
    replace (Z.to_nat (a + 1 - dram_base b)) with (S (Z.to_nat (a - dram_base b))) in Ey by lia.
    rewrite (drop_S _ _ _ Ex). cbn [take]. rewrite (take_one _ _ _ Ey). done.
  - unfold bus_read_u32. get_self.
    erewrite lift_bind by (by apply (dram_offset_in _ _ 3)). cbv iota.
    erewrite M_bind_some by (apply (dram_slice_run _ _ 4); [done|lia..]). done.
  - unfold bus_read_u64. get_self.
    erewrite lift_bind by (by apply (dram_offset_in _ _ 7)). cbv iota.
    erewrite M_bind_some by (apply (dram_slice_run _ _ 8); [done|lia..]). done.
Qed.

Lemma dram_store_run b o src :
  dram_wf b → 0 <= o → o + Z.of_nat (length src) <= dram_size b →
  dram_store o src b = Some (tt, b <| dram := splice (dram b) o src |>).
Proof.
  intros Hw Ho Hn. unfold dram_store. by erewrite M_bind_some by (by apply dram_slice_run).
Qed.

Lemma dram_write n b a v :
  is_width n → dram_wf b → in_dram b a n → urange (8 * Z.of_nat n) v →
  wr n a v b = Some (tt, b <| dram := splice (dram b) (a - dram_base b) (to_le_bytes n v) |>).
Proof.
  intros Hn Hw Hin Hv. pose proof Hin as [Hlo Hhi].
  unfold is_width in Hn. rewrite !elem_of_cons, elem_of_nil in Hn.
  destruct Hn as [->|[->|[->|[->|[]]]]]; cbn [wr write_u8 write_u16 write_u32 write_u64 bus].
  - replace (to_le_bytes 1 v) with [v].
    2:{ cbn [to_le_bytes]. change 0xFF with (Z.ones 8).
        by rewrite Z.land_ones, Z.mod_small by (unfold urange in Hv; lia). }
    unfold bus_write_u8. get_self.
    erewrite lift_bind by (by apply (dram_offset_in _ _ 0)). cbv iota. apply dram_store_run; [done|cbn; lia..].
  - unfold bus_write_u16. get_self.
    erewrite lift_bind by (by apply (dram_offset_in _ _ 1)). cbv iota. apply dram_store_run; [done|cbn; lia..].
  - unfold bus_write_u32. get_self.
    erewrite lift_bind by (by apply (dram_offset_in _ _ 3)). cbv iota. apply dram_store_run; [done|cbn; lia..].
  - unfold bus_write_u64. get_self.
    erewrite lift_bind by (by apply (dram_offset_in _ _ 7)). cbv iota. apply dram_store_run; [done|cbn; lia..].
Qed.

Lemma dram_read_past n b a :
  n = 4%nat ∨ n = 8%nat → dram_wf b → in_dram b a 1 → ¬ in_dram b a n → rd n a b = None.
Proof.
  intros Hn Hw [Hlo Hhi] Hout.
  assert (Hp : dram_size b < a - dram_base b + Z.of_nat n) by (unfold in_dram in Hout; lia).
  destruct Hn as [->| ->]; cbn [rd read_u32 read_u64 bus]; [unfold bus_read_u32|unfold bus_read_u64];
    get_self; (erewrite lift_bind by (apply (dram_offset_in _ _ 0); [done|by split])); cbv iota;
    rewrite M_bind_run.
  - by rewrite (dram_slice_past _ _ 4) by (done || lia).
  - by rewrite (dram_slice_past _ _ 8) by (done || lia).
Qed.

Lemma dram_write_past n b a v :
  n = 2%nat ∨ n = 4%nat ∨ n = 8%nat → dram_wf b → in_dram b a 1 → ¬ in_dram b a n → wr n a v b = None.
Proof.
  intros Hn Hw [Hlo Hhi] Hout.
  assert (Hp : dram_size b < a - dram_base b + Z.of_nat n) by (unfold in_dram in Hout; lia).
  destruct Hn as [->|[->| ->]]; cbn [wr write_u16 write_u32 write_u64 bus];
    [unfold bus_write_u16|unfold bus_write_u32|unfold bus_write_u64];
    get_self; (erewrite lift_bind by (apply (dram_offset_in _ _ 0); [done|by split])); cbv iota;
    unfold dram_store; rewrite M_bind_run, length_to_le_bytes, dram_slice_past by (done || lia); done.
Qed.

(** ** The reference memory *)

Lemma store_at bs : ∀ (m : Ram.t) a j x,
  Z.of_nat (length bs) < 2 ^ 64 → Forall is_byte bs → bs !! j = Some x →
  Ram.get_byte (Ram.store m a bs) (a + Z.of_nat j) = x.
Proof.
  induction bs as [|y bs IH]; intros m a j x Hl Hb Hj; [done|].
  apply Forall_cons in Hb as [Hy Hb]. cbn [Ram.store length] in *.
  destruct j as [|j]; cbn in Hj.
  - injection Hj as ->. rewrite Z.add_0_r.
    assert (Hne : ∀ k, 0 <= k < Z.of_nat (length bs) → as_u64 (a + 1 + k) ≠ as_u64 a).
    { intros k Hk E. unfold wrap in E.
      assert (Ha : (a + 1 + k - a) mod 2 ^ 64 = 0) by (rewrite Zminus_mod, E, Z.sub_diag; done).
      replace (a + 1 + k - a) with (1 + k) in Ha by lia. rewrite Z.mod_small in Ha; lia. }
    rewrite store_other by done. unfold Ram.get_byte, Ram.set_byte, Ram.t.
    rewrite lookup_insert_eq. by apply wrap_small.
  - replace (a + Z.of_nat (S j)) with (a + 1 + Z.of_nat j) by lia. apply IH; [lia|done..].
Qed.

Lemma load_view b m n : ∀ a,
  dram_wf b → ram_view b m → in_dram b a n →
  Ram.load n m a = take n (drop (Z.to_nat (a - dram_base b)) (dram b)).
Proof.
  induction n as [|n IH]; intros a Hw Hv [Hlo Hhi]; cbn [Ram.load]; [by rewrite take_0|].
  assert (Hi : in_dram b a 1) by (split; lia). destruct (dram_lookup _ _ Hw Hi) as [x E].
  rewrite (drop_S _ _ _ E). cbn [take]. f_equal.
  - rewrite <- (Hv _ _ E). f_equal. lia.
  - rewrite IH by (done || split; lia). do 2 f_equal. lia.
Qed.

Lemma splice_dram_wf b a src :
  dram_wf b → in_dram b a (length src) → Forall is_byte src →
  dram_wf (b <| dram := splice (dram b) (a - dram_base b) src |>).
Proof.
  intros Hw [Hlo Hhi] Hb. pose proof (dw_size _ Hw) as Hs.
  assert (Hl : length (splice (dram b) (a - dram_base b) src) = length (dram b)) by (apply length_splice; lia).
  destruct Hw. constructor; cbn; rewrite ?Hl; try done.
  unfold splice. rewrite !Forall_app. split_and!; [by apply Forall_take|done|by apply Forall_drop].
Qed.

Lemma store_view b m a src :
  dram_wf b → ram_view b m → in_dram b a (length src) → Forall is_byte src →
  let b' := b <| dram := splice (dram b) (a - dram_base b) src |> in
  ram_view b' (Ram.store m a src) ∧ dram_wf b'.
Proof.
  intros Hw Hv [Hlo Hhi] Hb. pose proof (dw_size _ Hw) as Hs. pose proof (dw_guest _ Hw) as Hg.
  pose proof (dw_base _ Hw) as H0b.
  split.
  - intros i x Hi. cbn in Hi. rewrite lookup_splice in Hi by lia. cbn. case_decide as Hd.
    + replace (dram_base b + Z.of_nat i) with (a + Z.of_nat (i - Z.to_nat (a - dram_base b))) by lia.
      apply store_at; [lia|done..].
    + rewrite store_other; [by apply Hv|]. intros j Hj. apply lookup_lt_Some in Hi.
      rewrite !wrap_small by (unfold urange; lia). lia.
  - by apply splice_dram_wf.
Qed.
End Dram.

(** * Properties *)

(** C33: a compiled block keeps time like the instructions it stands for.
    Advancing the bus by [n] retired instructions at once and ticking it [n]
    times end with the same guest clock, the same sub-tick remainder and the
    same poll counter, whatever devices are attached: [mtime] moves by one per
    ten instructions, none lost or gained at the boundaries. *)
Theorem batch_clock_exact {D} `{Devices D} `{Profile} `{Target} n (b b1 b2 : t D) :
  0 <= tick_accum b < MTIME_STEPS_PER_TICK → urange 64 (mtime b) → urange 64 (net_poll_accum b) →
  Z.of_nat n + 10 < 2 ^ 64 →
  tick_n (Z.of_nat n) b = Some (tt, b1) → ticks n b = Some (tt, b2) →
  clock b1 = clock b2
  ∧ mtime b1 = as_u64 (mtime b + (tick_accum b + Z.of_nat n) / MTIME_STEPS_PER_TICK)
  ∧ tick_accum b1 = (tick_accum b + Z.of_nat n) mod MTIME_STEPS_PER_TICK.
Proof.
  intros Ha Hm Hp Hn E1 E2.
  pose proof (wp_run _ _ _ _ _ _ (tick_n_clock (Z.of_nat n) b Ha Hm Hp ltac:(lia) Hn) E1) as C1.
  pose proof (wp_run _ _ _ _ _ _ (ticks_clock n b Ha Hm Hp) E2) as C2. cbn beta in C1, C2.
  split; [congruence|]. unfold clock_after, clock in C1. injection C1. by intros.
Qed.

(** A board with 256 bytes of DRAM, a disk of one sector and a network card. *)
Definition demo_bus : t AnyDevice :=
  let PR : Profile := Release in let T : Target := Wasm32 in
  match (attach_virtio (Disk (VirtioBlk.new (InMemory (MemBackend.mk (replicate 512 0)))));;
         attach_virtio_net [2; 0; 0; 0; 0; 1]) (DeviceBus.new 256) with
  | Some (_, b) => b
  | None => DeviceBus.new 256
  end.
Definition after {A} (r : option (A * t AnyDevice)) : t AnyDevice :=
  match r with Some (_, b) => b | None => demo_bus end.

Abbreviation demo_dev := (@AnyDev.device Release Wasm32).
Abbreviation demo_devs := (@AnyDev.devices Release Wasm32).

Lemma batch_clock_exact_witness :
  mtime (after (@tick_n _ demo_dev Release Wasm32 1234 demo_bus)) = 123
  ∧ clock (after (@tick_n _ demo_dev Release Wasm32 1234 demo_bus))
    = clock (after (@ticks _ demo_dev Release Wasm32 1234 demo_bus)).
Proof.
  destruct (@batch_clock_exact _ demo_dev demo_devs Release Wasm32 1234 demo_bus
    (after (@tick_n _ demo_dev Release Wasm32 1234 demo_bus))
    (after (@ticks _ demo_dev Release Wasm32 1234 demo_bus))) as (Hc & Hm & _).
  - vm_compute. done.
  - vm_compute. done.
  - vm_compute. done.
  - vm_compute. done.
  - vm_compute. reflexivity.
  - vm_compute. reflexivity.
  - split; [rewrite Hm; vm_compute; reflexivity|exact Hc].
Defined.

(** C14: DRAM is memory.  An access of one, two, four or eight bytes that lies in
    DRAM, aligned or not, behaves as on the reference memory: a read returns the
    little-endian value of the bytes last stored and changes nothing, a write
    stores exactly the bytes of the value and leaves every device alone, and
    both succeed in both build profiles and on both hosts. *)
Theorem dram_refines_ram {D} `{Devices D} `{Profile} (T : Target) (Ht : TargetOk T)
    n (b : t D) (m : Ram.t) a v :
  is_width n → dram_wf b → ram_view b m → in_dram b a n → urange (8 * Z.of_nat n) v →
  (∃ x, rd n a b = Some (x, b) ∧ rd n a m = Some (x, m))
  ∧ ∃ d' m', wr n a v b = Some (tt, b <| dram := d' |>) ∧ wr n a v m = Some (tt, m')
             ∧ dram_wf (b <| dram := d' |>) ∧ ram_view (b <| dram := d' |>) m'.
Proof.
  intros Hn Hw Hv Hin Hr.
  assert (Er : ∀ m : Ram.t, rd n a m = Some (from_le_bytes (Ram.load n m a), m)
             ∧ wr n a v m = Some (tt, Ram.store m a (to_le_bytes n v))).
  { intros. unfold is_width in Hn. rewrite !elem_of_cons, elem_of_nil in Hn.
    by destruct Hn as [->|[->|[->|[->|[]]]]]. }
  split.
  - eexists. split; [by apply dram_read|]. rewrite (proj1 (Er m)). by rewrite (load_view b).
  - do 2 eexists. split; [by apply dram_write|]. split; [apply Er|].
    apply and_comm. apply store_view; [done..| |apply to_le_bytes_bytes]. by rewrite length_to_le_bytes.
Qed.

Definition demo_ram : Ram.t := Ram.store ∅ 0x80000000 (replicate 256 0).

Lemma demo_dram_wf : @dram_wf _ Wasm32 demo_bus.
Proof. constructor; vm_compute; first [done|by repeat constructor]. Qed.

Lemma dram_refines_ram_witness :
  ∃ d', @wr _ (@DeviceBus.bus _ demo_dev Release Wasm32) 4 0x80000003 0xDEADBEEF demo_bus
        = Some (tt, demo_bus <| dram := d' |>) ∧ d' !! 4%nat = Some 0xBE.
Proof.
  destruct (@dram_refines_ram _ demo_dev demo_devs Release Wasm32 wasm_ok 4 demo_bus demo_ram
    0x80000003 0xDEADBEEF) as [_ (d' & m' & E & Em & _ & Hv)].
  - unfold is_width. rewrite !elem_of_cons. auto.
  - apply demo_dram_wf.
  - intros i x Hi. assert (Hl : (i < 256)%nat) by (apply lookup_lt_Some in Hi; exact Hi).
    change (replicate 256 0 !! i = Some x) in Hi. apply lookup_replicate_1 in Hi as [-> _].
    unfold demo_ram. change (dram_base demo_bus) with 0x80000000. apply store_at.
    + done.
    + vm_compute. repeat constructor; discriminate.
    + by apply lookup_replicate_2.
  - split; vm_compute; discriminate.
  - split; vm_compute; done.
  - exists d'. split; [exact E|].
    assert (E2 : Some (tt, demo_bus <| dram := d' |>)
                 = @wr _ (@DeviceBus.bus _ demo_dev Release Wasm32) 4 0x80000003 0xDEADBEEF demo_bus)
      by (symmetry; exact E).
    assert (E3 : Some d' = option_map (λ r, dram r.2)
      (@wr _ (@DeviceBus.bus _ demo_dev Release Wasm32) 4 0x80000003 0xDEADBEEF demo_bus)).
    { rewrite <- E2. reflexivity. }
    vm_compute in E3. injection E3 as ->. reflexivity.
Defined.

(** An access that runs over the end of DRAM crashes the machine.  A read of
    four or eight bytes or a write of two, four or eight that starts in DRAM and
    ends behind it panics, in both build profiles and on both hosts, instead of
    raising an access fault or reading as zero like any other unbacked address. *)
Theorem dram_straddle_panics {D} `{Devices D} `{Profile} (T : Target) (Ht : TargetOk T)
    n (b : t D) a v :
  is_width n → dram_wf b → in_dram b a 1 → ¬ in_dram b a n →
  ((4 <= n)%nat → rd n a b = None) ∧ ((2 <= n)%nat → wr n a v b = None).
Proof.
  intros Hn Hw Hin Hout. unfold is_width in Hn. rewrite !elem_of_cons, elem_of_nil in Hn.
  split; intros.
  - apply dram_read_past; [|done..]. destruct Hn as [->|[->|[->|[->|[]]]]]; [lia|lia|auto..].
  - apply dram_write_past; [|done..]. destruct Hn as [->|[->|[->|[->|[]]]]]; [lia|auto..].
Qed.

Lemma dram_straddle_panics_witness :
  @rd _ (@DeviceBus.bus _ demo_dev Release Wasm32) 8 0x800000FC demo_bus = None.
Proof.
  apply (@dram_straddle_panics _ demo_dev demo_devs Release Wasm32 wasm_ok 8 demo_bus 0x800000FC 0).
  - unfold is_width. rewrite !elem_of_cons. auto.
  - apply demo_dram_wf.
  - split; vm_compute; discriminate.
  - intros [_ Hh]. vm_compute in Hh. by apply Hh.
  - lia.
Defined.
