(* ===== verification/BusWords.v ===== *)
(** The DRAM of the device bus is the memory that the page-table walker needs.

    [bus_words] is the [WordMem] instance of [DeviceBus.t]: its region is the
    aligned doublewords of DRAM, whose place stays fixed.  [bus_translates] is
    what the MMU theorems say of a machine whose page tables lie in DRAM. *)

From S2P Require Import Prelude Bits Types SupTypes Cpu Mmu MmuSpec State Stream Plic Virtio VirtioSg VirtioQueue VirtioBlk VirtioNet DeviceBus BusProps.
Import DeviceBus.

Lemma window_splice_same (d : list Z) o s :
  0 <= o → o + Z.of_nat (length s) <= Z.of_nat (length d) →
  take (length s) (drop (Z.to_nat o) (splice d o s)) = s.
Proof.
  intros. apply list_eq. intros i. destruct (decide (i < length s)%nat).
  - rewrite lookup_take_lt, lookup_drop, lookup_splice by lia. case_decide; [|lia]. f_equal. lia.
  - rewrite !lookup_ge_None_2; [done|lia|rewrite length_take; lia].
Qed.

Lemma window_splice_other (d : list Z) o s o' n :
  0 <= o → 0 <= o' → o + Z.of_nat (length s) <= Z.of_nat (length d) →
  o' + Z.of_nat n <= o ∨ o + Z.of_nat (length s) <= o' →
  take n (drop (Z.to_nat o') (splice d o s)) = take n (drop (Z.to_nat o') d).
Proof.
  intros. apply list_eq. intros i. destruct (decide (i < n)%nat).
  - rewrite !lookup_take_lt, !lookup_drop, lookup_splice by lia. case_decide; [lia|done].
  - rewrite !lookup_ge_None_2; [done|rewrite length_take; lia..].
Qed.

Section Words.
Context {D : Type} `{Devices D} {PR : Profile} {T : Target} {Ht : TargetOk T}.
Context (base size : Z).
Implicit Types b : t D.

Definition dram_at b : Prop := dram_wf b ∧ dram_base b = base ∧ dram_size b = size.

Definition in_region (a : Z) : Prop := base <= a ∧ a + 8 <= base + size.
#[local] Instance in_region_dec a : Decision (in_region a).
Proof. unfold in_region. apply _. Defined.

Definition dram_word b (a : Z) : Z :=
  if decide (in_region a) then from_le_bytes (take 8 (drop (Z.to_nat (a - dram_base b)) (dram b)))
  else 0.

Lemma dram_word_range b a : dram_at b → urange 64 (dram_word b a).
Proof.
  intros (Hw & Hb & Hs). unfold dram_word. case_decide as Hi; [|by unfold urange].
  pose proof (dw_size _ Hw). destruct Hi.
  replace 64 with (8 * Z.of_nat (length (take 8 (drop (Z.to_nat (a - dram_base b)) (dram b))))).
  - apply from_le_bytes_range, Forall_take, Forall_drop, (dw_bytes _ Hw).
  - rewrite length_take, length_drop. lia.
Qed.

Lemma width_8 : is_width 8.
Proof. unfold is_width. set_solver. Qed.

Lemma in_region_dram b a : dram_at b → in_region a → in_dram b a 8.
Proof. intros (_ & Eb & Es) [Hlo Hhi]. unfold in_dram. split; lia. Qed.

Lemma dram_word_read b a : dram_at b → in_region a → read_u64 a b = Some (dram_word b a, b).
Proof.
  intros Hb Hi. change (read_u64 a b) with (rd 8 a b). rewrite dram_read.
  - unfold dram_word. by rewrite decide_True.
  - exact width_8.
  - exact (proj1 Hb).
  - by apply in_region_dram.
Qed.

(** A store changes its own doubleword and no other aligned one. *)
Lemma dram_word_write b a v :
  dram_at b → (8 | a) → in_region a → urange 64 v →
  ∃ b', write_u64 a v b = Some (tt, b') ∧ dram_at b'
    ∧ ∀ a', (8 | a') → dram_word b' a' = if decide (a' = a) then v else dram_word b a'.
Proof.
  intros Hb H8 Hi Hv. pose proof (in_region_dram b a Hb Hi) as Hd.
  pose proof Hb as (Hw & Hbase & Hsize). pose proof (dw_size _ Hw) as Hlen.
  eexists. split.
  { change (write_u64 a v b) with (wr 8 a v b). apply dram_write; [exact width_8|done|done|exact Hv]. }
  split.
  { split; [|done]. apply splice_dram_wf; [done| |apply to_le_bytes_bytes].
    by rewrite length_to_le_bytes. }
  intros a' H8'. unfold dram_word.
  set (b' := b <| dram := _ |>).
  assert (dram_base b' = dram_base b) as -> by reflexivity.
  assert (dram b' = splice (dram b) (a - dram_base b) (to_le_bytes 8 v)) as -> by reflexivity.
  destruct (decide (a' = a)) as [->|Hne].
  - rewrite decide_True by done.
    rewrite (window_splice_same _ _ (to_le_bytes 8 v)) by (rewrite ?length_to_le_bytes; unfold in_region in *; lia).
    rewrite from_to_le_bytes. by apply wrap_small.
  - case_decide as Hi'; [|done]. f_equal.
    apply (window_splice_other _ _ _ (a' - dram_base b) 8); rewrite ?length_to_le_bytes.
    all: destruct H8 as [q ->], H8' as [q' ->]; unfold in_region in *; lia.
Qed.

Definition bus_words : WordMem (t D).
Proof.
  refine {| word := dram_word; mem_ok := dram_at; in_mem := in_region |}.
  - exact dram_word_range.
  - intros. by apply dram_word_read.
  - intros b a v Hb _ H8 Hi Hv.
    destruct (dram_word_write b a v Hb H8 Hi Hv) as (b' & E & Hb' & Hw). eauto.
Defined.

(** A machine whose page tables lie in DRAM translates as the walk of its DRAM
    says, and keeps TLB and DRAM in agreement. *)
Lemma bus_translates satp priv sum mxr access va m b :
  Satp.wf satp → urange 64 va → dram_at b →
  tlb_ok (dram_word b) (root_of satp) (Mmu.tlb m) → tables_in (WM := bus_words) satp b va →
  wp (overflow_checks = true) (Mmu.translate satp priv sum mxr access va)
    (λ res s, res = emulated (sv39_translate (dram_word b) satp priv sum mxr access va)
                             (deviation (dram_word b) satp priv sum mxr access va)
              ∧ tlb_ok (dram_word s.2) (root_of satp) (Mmu.tlb s.1) ∧ dram_at s.2) (m, b).
Proof.
  intros Hs Hva Hb Hx Hi. eapply wp_mono.
  - exact (translate_spec (WM := bus_words) _ id satp Hs priv sum mxr access va m b Hva Hb Hx Hi).
  - intros res [m' b'] [-> [Htlb Hm _ _]]. by rewrite flags_translate_spec.
Qed.
End Words.
