(* ===== verification/BusSafe.v ===== *)
(** The invariant of the whole machine.

    Every operation of the device bus keeps [bus_wf], for every set of devices
    that keeps its promises, so the bus meets the interface [BusOk] that the
    supervisor is verified against.  A machine is then the supervisor and the
    bus with the steps that the run loop interleaves. *)

From S2P Require Import Prelude Keeps Types State Stream Cpu Fpu SupTypes SupState Supervisor SupSafe Plic Virtio VirtioSg VirtioQueue VirtioBlk VirtioNet VirtioSafe P9Fs Virtio9p P9Safe DeviceBus BusProps.
Import DeviceBus.

(** What the bus relies on when it reaches into the network card. *)
Definition backend_inv (k : AnyBackend) : Prop :=
  AnyStore.on_either bytes_in (λ _, True) k.

Class DevicesOk (D : Type) `{Devices D} `{DeviceOk D} : Prop := {
  net_queues_ok d q : dev_inv d → net_queues d = Some q → queues_inv q;
  set_net_queues_ok d q : dev_inv d → queues_inv q → dev_inv (set_net_queues q d);
  new_net_ok mac : Forall is_byte mac → dev_inv (new_net mac);
  new_blk_ok k : backend_inv k → dev_inv (new_blk k);
  attach_backend_ok k : backend_inv k → keeps True dev_inv (attach_backend k) (λ _, True);
  new_p9_ok lazy name : Forall is_byte name → dev_inv (new_p9 lazy name);
  p9_put_ok path data : Forall is_byte path → Forall is_byte data →
    keeps True dev_inv (p9_put path data) (λ _, True);
  p9_mkdir_ok path : Forall is_byte path → keeps True dev_inv (p9_mkdir path) (λ _, True);
  p9_set_lazy_ok d : dev_inv d → dev_inv (p9_set_lazy d);
  p9_take_changes_ok : keeps True dev_inv p9_take_changes (λ _, True);
  take_host_reqs_ok : keeps True dev_inv take_host_reqs (λ _, True);
}.

Section Bus.
Context {D : Type} {VD : VirtioDevice D} {DV : Devices D} {DO : DeviceOk D} {DS : DevicesOk D}.
Context {PR : Profile} {T : Target} {Ht : TargetOk T}.
Implicit Types b : t D.

Definition slots_wf (slots : list (option (VirtioMmio.t D))) : Prop :=
  length slots = VIRTIO_MMIO_SLOTS ∧ ∀ i v, slots !! i = Some (Some v) → slot_wf i v.

Record bus_wf b : Prop := {
  bw_dram : dram_wf b;
  bw_mtime : urange 64 (mtime b);
  bw_mtimecmp : urange 64 (mtimecmp b);
  bw_msoft : urange 32 (msoft b);
  bw_accum : 0 <= tick_accum b < MTIME_STEPS_PER_TICK;
  bw_uart : Forall is_byte [uart_mcr b; uart_scr b; uart_ier b; uart_fcr b; uart_lcr b; uart_dll b; uart_dlm b];
  bw_console : Forall is_byte (uart_console b);
  bw_rx : Forall is_byte (uart_rx b);
  bw_plic : plic_wf (plic b);
  bw_slots : slots_wf (virtio b);
  bw_n : (virtio_n b <= VIRTIO_MMIO_SLOTS)%nat;
  bw_poll : urange 64 (net_poll_accum b);
  bw_idle : urange 32 (idle_stall b);
  bw_reads : urange 64 (clint_mtime_reads b);
  bw_writes : urange 64 (clint_mtimecmp_writes b);
}.

Abbreviation dkeeps := (keeps True bus_wf).

Lemma bk_ret {A} (a : A) : dkeeps (mret a) (λ _, True).
Proof. by apply keeps_ret. Qed.

Lemma bk_get {A} (f : t D → A) R : (∀ b, bus_wf b → R (f b)) → dkeeps (get f) R.
Proof. apply keeps_get. Qed.

Lemma bk_any {A} (f : t D → A) : dkeeps (get f) (λ _, True).
Proof. by apply keeps_get. Qed.

Lemma bk_self : dkeeps (get id) bus_wf.
Proof. by apply keeps_get. Qed.

Lemma bk_upd f : (∀ b, bus_wf b → bus_wf (f b)) → dkeeps (modify f) (λ _, True).
Proof. apply keeps_modify. Qed.

Lemma bk_lift {A} (o : option A) : dkeeps (lift o) (λ _, True).
Proof. apply keeps_lift. by destruct o. Qed.

Lemma bk_add w x y : 0 <= w → dkeeps (lift (add_u w x y)) (urange w).
Proof. intros. by apply keeps_checked. Qed.

Lemma plic_upd_wf p b : plic_wf p → bus_wf b → bus_wf (set_plic p b).
Proof. intros Hp []. constructor; try assumption. by destruct bw_dram0. Qed.

Lemma bk_plic {A} (m : M Plic.t A) R : keeps True plic_wf m R → dkeeps (on_plic m) R.
Proof.
  intros Hm. apply (keeps_zoom _ _ plic_wf); [done|by intros b []|]. intros b p Hb Hp. by apply plic_upd_wf.
Qed.

Lemma plic_level irq lv : (irq < PLIC_NSRC)%nat → keeps True plic_wf (Plic.set_level irq lv) (λ _, True).
Proof.
  intros Hi p Hp. destruct (set_level_run p irq lv Hp Hi) as (l & E & Hw). by eapply wp_some.
Qed.

Lemma bk_level irq lv : (irq < PLIC_NSRC)%nat → dkeeps (on_plic (Plic.set_level irq lv)) (λ _, True).
Proof. intros. by apply bk_plic, plic_level. Qed.

(** ** Slots *)

Definition opt_slot_wf (i : nat) (o : option (VirtioMmio.t D)) : Prop :=
  match o with Some v => (i < VIRTIO_MMIO_SLOTS)%nat ∧ slot_wf i v | None => True end.

Lemma bk_slot_at i : dkeeps (slot_at i) (opt_slot_wf i).
Proof.
  intros b Hb. apply wp_bind, wp_get, wp_lift. destruct (virtio b !! i) as [o|] eqn:E; [|done].
  split; [|done]. destruct o as [v|]; [|done]. destruct (bw_slots _ Hb) as [Hl Hs]. split; [|by apply Hs].
  apply lookup_lt_Some in E. lia.
Qed.

Lemma set_slot_wf i v b : slot_wf i v → bus_wf b → bus_wf (set_slot i v b).
Proof.
  intros Hv []. constructor; try assumption. { by destruct bw_dram0. }
  destruct bw_slots0 as [Hl Hs]. cbn. split; [by rewrite length_insert|]. intros j w Hj.
  destruct (decide (j = i)) as [->|Hne].
  - destruct (decide (i < length (virtio b))%nat).
    + rewrite list_lookup_insert_eq in Hj by done. by injection Hj as <-.
    + rewrite list_insert_ge in Hj by lia. by apply Hs.
  - rewrite list_lookup_insert_ne in Hj by done. by apply Hs.
Qed.

Lemma bk_on_slot {A} i v (m : M (VirtioMmio.t D * GuestMem.t) A) R :
  slot_wf i v → (∀ l, keeps True (slot_mem i l) m R) → dkeeps (on_slot i v m) R.
Proof.
  intros Hv Hm b Hb. unfold wp, on_slot. pose proof (bw_dram _ Hb) as Hd.
  assert (Hw : slot_mem i (length (dram b)) (v, mem_of b)).
  { split; [done|]. split; [done|apply Hd]. }
  specialize (Hm _ _ Hw). unfold wp in Hm. destruct (m (v, mem_of b)) as [[a [v' g]]|]; [|done].
  destruct Hm as (HR & Hv' & Hl & Hby). cbn in *. split; [done|]. apply set_slot_wf; [done|].
  destruct Hb. constructor; try assumption. destruct Hd. constructor; cbn; try assumption. by rewrite Hl.
Qed.

Lemma bk_sync i : dkeeps (sync_line i) (λ _, True).
Proof.
  eapply keeps_bind; [apply bk_slot_at|]. intros [v|] Hv; [|apply bk_ret]. destruct Hv as (Hi & _ & _ & ->).
  apply bk_level. unfold VIRTIO_MMIO_SLOTS, PLIC_NSRC in *. lia.
Qed.

Lemma bk_sync_if (c : bool) i : dkeeps (if c then sync_line i else mret tt) (λ _, True).
Proof. destruct c; [apply bk_sync|apply bk_ret]. Qed.

Lemma bk_for_slots n : ∀ i body,
  (∀ i, dkeeps (body i) (λ _, True)) → dkeeps (for_slots n i body) (λ _, True).
Proof.
  induction n as [|n IH]; intros i body Hb; cbn; [apply bk_ret|]. apply keeps_seq; [apply Hb|by apply IH].
Qed.

Lemma bk_refresh : dkeeps refresh_virtio_irqs (λ _, True).
Proof. eapply keeps_bind; [apply bk_any|]. intros n _. apply bk_for_slots, bk_sync. Qed.

Lemma bk_flush_slots n : ∀ i any, dkeeps (flush_slots n i any) (λ _, True).
Proof.
  induction n as [|n IH]; intros i any; cbn [flush_slots]; [apply bk_ret|].
  eapply keeps_bind; [apply bk_slot_at|]. intros o Ho. eapply (keeps_bind _ _ _ _ (λ _, True)).
  2:{ intros. apply IH. }
  destruct o as [v|]; [|apply bk_ret]. destruct (negb _); [apply bk_ret|].
  eapply keeps_bind; [apply bk_on_slot; [apply Ho|intros; apply vk_flush]|]. intros r _.
  apply keeps_seq; [apply bk_sync|apply bk_ret].
Qed.

Lemma bk_virtio_write i off val : urange 32 val → dkeeps (virtio_write i off val) (λ _, True).
Proof.
  intros Hv. eapply keeps_bind; [apply bk_slot_at|]. intros [v|] Ho; [|apply bk_ret].
  eapply keeps_bind; [apply bk_on_slot; [apply Ho|intros; by apply vk_write]|]. intros r _. apply bk_sync_if.
Qed.

Lemma bk_tick_slot n poll i : dkeeps (tick_slot n poll i) (λ _, True).
Proof.
  eapply keeps_bind; [apply bk_slot_at|]. intros [v|] Ho; [|apply bk_ret]. apply keeps_seq.
  - destruct poll; [|apply bk_ret].
    eapply keeps_bind; [apply bk_on_slot; [apply Ho|intros; apply vk_poll]|]. intros r _. apply bk_sync_if.
  - eapply keeps_bind; [apply bk_slot_at|]. intros [w|] Hw; [|apply bk_ret].
    destruct (negb _); [apply bk_ret|].
    eapply keeps_bind; [apply bk_on_slot; [apply Hw|intros; apply vk_tick]|]. intros r _. apply bk_sync_if.
Qed.
End Bus.

(** Updates of fields that nothing else constrains. *)
Ltac bus_upd :=
  apply bk_upd; let b := fresh "b" in let Hb := fresh "Hb" in
  intros b Hb; destruct Hb; constructor; try assumption;
  try match goal with H : dram_wf _ |- dram_wf _ => by destruct H end; cbn.

Section Ops.
Context {D : Type} {VD : VirtioDevice D} {DV : Devices D} {DO : DeviceOk D} {DS : DevicesOk D}.
Context {PR : Profile} {T : Target} {Ht : TargetOk T}.
Implicit Types b : t D.
Abbreviation dkeeps := (keeps True (bus_wf (D := D))).

(** ** Time *)

Lemma bk_virtio_tick n : dkeeps (virtio_tick n) (λ _, True).
Proof.
  apply keeps_seq; [bus_upd; apply wrap_range; lia|]. eapply keeps_bind; [apply bk_any|]. intros p _.
  eapply keeps_bind; [apply bk_any|]. intros k _. apply bk_for_slots. intros. apply bk_tick_slot.
Qed.

Lemma bk_accum : dkeeps (get tick_accum) (λ a, 0 <= a < MTIME_STEPS_PER_TICK).
Proof. apply bk_get. by intros b []. Qed.

Lemma bk_tick : dkeeps tick (λ _, True).
Proof.
  intros b Hb. unfold tick. pose proof (bw_accum _ Hb) as Ha. unfold MTIME_STEPS_PER_TICK in Ha.
  apply wp_bind, wp_get, wp_bind, wp_lift. rewrite add_u_small by (unfold urange; lia).
  apply wp_bind, wp_modify, wp_bind.
  apply wp_if; intros Hc; unfold MTIME_STEPS_PER_TICK in Hc; [apply wp_modify|apply wp_ret];
    apply bk_virtio_tick; destruct Hb; constructor; try assumption; try (by destruct bw_dram0); cbn;
    unfold MTIME_STEPS_PER_TICK; try lia; apply wrap_range; lia.
Qed.

Lemma bk_tick_n n : 0 <= n → dkeeps (tick_n n) (λ _, True).
Proof.
  intros Hn. unfold tick_n. destruct (_ =? 0); [apply bk_ret|]. destruct (_ =? 1); [apply bk_tick|].
  eapply keeps_bind; [apply bk_accum|]. intros a Ha. eapply keeps_bind; [by apply bk_add|]. intros a' Ha'.
  cbv zeta. apply keeps_seq; [|apply bk_virtio_tick].
  bus_upd; try (apply wrap_range; lia). apply Z.mod_pos_bound. unfold MTIME_STEPS_PER_TICK. lia.
Qed.

Lemma bk_fast_forward target : urange 64 target → dkeeps (fast_forward_mtime target) (λ _, True).
Proof.
  intros Ht'. eapply keeps_bind; [apply bk_any|]. intros mt _. destruct (_ <? _); [|apply bk_ret].
  bus_upd. unfold MTIME_STEPS_PER_TICK. lia.
Qed.

Lemma bk_idle_hold : dkeeps idle_hold (λ _, True).
Proof.
  eapply keeps_bind; [apply bk_any|]. intros b _. cbv zeta. match goal with |- context [if ?c then _ else _] => destruct c end.
  - eapply keeps_bind; [by apply bk_add|]. intros n Hn. apply keeps_seq; [by bus_upd|apply bk_ret].
  - apply keeps_seq; [by bus_upd|apply bk_ret].
Qed.

Lemma bk_mtime : dkeeps (get mtime) (urange 64).
Proof. apply bk_get. by intros b []. Qed.

Lemma bk_idle_skip target : urange 64 target → dkeeps (idle_skip_mtime target) (λ _, True).
Proof.
  intros Ht'. eapply keeps_bind; [apply bk_idle_hold|]. intros [] _; [apply bk_ret|].
  eapply keeps_bind; [apply bk_mtime|]. intros mt _. eapply keeps_bind; [by apply bk_add|]. intros lim Hl.
  apply bk_fast_forward. unfold urange in *. lia.
Qed.

Lemma bk_idle_skip_to target : urange 64 target → dkeeps (idle_skip_mtime_to target) (λ _, True).
Proof.
  intros Ht'. eapply keeps_bind; [apply bk_idle_hold|]. intros [] _; [apply bk_ret|by apply bk_fast_forward].
Qed.

Lemma bk_idle_realtime target n :
  urange 64 target → 0 <= n → dkeeps (idle_skip_mtime_realtime target n) (λ _, True).
Proof.
  intros Ht' Hn. eapply keeps_bind; [apply bk_idle_hold|]. intros [] _; [apply bk_ret|].
  eapply keeps_bind; [apply bk_mtime|]. intros mt Hm. apply keeps_seq.
  - apply bk_fast_forward. unfold urange, U64_MAX in *. lia.
  - eapply keeps_bind; [apply bk_mtime|]. intros. apply bk_ret.
Qed.

(** ** The console and the network, from the host's side *)

Lemma bk_uart_irq : dkeeps refresh_uart_irq (λ _, True).
Proof. eapply keeps_bind; [apply bk_any|]. intros lv _. apply bk_level. by apply Nat.ltb_lt. Qed.

Lemma bk_push_input l : Forall is_byte l → dkeeps (uart_push_input l) (λ _, True).
Proof. intros Hl. apply keeps_seq; [|apply bk_uart_irq]. bus_upd. by apply Forall_app. Qed.

Lemma bk_external : dkeeps external_interrupt_pending (λ _, True).
Proof.
  eapply keeps_bind; [apply bk_any|]. intros lv _. apply keeps_seq; [apply bk_refresh|].
  apply keeps_seq; [apply bk_level; by apply Nat.ltb_lt|]. apply bk_any.
Qed.

Lemma bk_flush_all : dkeeps flush_virtio_completions (λ _, True).
Proof. eapply keeps_bind; [apply bk_any|]. intros n _. apply bk_flush_slots. Qed.

Lemma shared_net_wf b q : bus_wf b → shared_net b = Some q → queues_inv q.
Proof.
  intros Hb. unfold shared_net. destruct (net b) as [i|]; [|done]. cbn.
  destruct (virtio b !! i) as [[v|]|] eqn:E; [|done..]. cbn. intros Hq.
  eapply net_queues_ok; [|exact Hq]. by eapply (bw_slots _ Hb).
Qed.

Lemma bk_inject frame : Forall is_byte frame → dkeeps (net_inject_frame frame) (λ _, True).
Proof.
  intros Hf. eapply keeps_bind; [apply bk_self|]. intros b Hb. destruct (net b) as [i|] eqn:En; [|apply bk_ret].
  destruct (shared_net b) as [q|] eqn:Eq; [|apply bk_ret]. apply shared_net_wf in Eq; [|done]. cbv zeta.
  eapply keeps_bind; [apply bk_slot_at|]. intros o Ho. apply keeps_seq; [|apply bk_ret].
  destruct o as [v|]; [|apply bk_ret]. apply bk_upd. intros b'. apply set_slot_wf.
  destruct Ho as (_ & Hv & Hd & Hi). split_and!; [by destruct Hv| |done]. apply set_net_queues_ok; [done|].
  unfold queues_inv. cbn. apply Forall_app. split; [done|by constructor].
Qed.

(** ** DRAM *)

Lemma dram_offset_range b a o : bus_wf b → dram_offset b a = Some (Some o) → urange usize_bits o.
Proof.
  intros Hb. unfold dram_offset. destruct (_ <=? _); [|done]. destruct (add_u _ _ _); [|done]. cbn.
  destruct (_ <? _); [|done]. intros [= <-]. apply wrap_range. pose proof usize_ok. lia.
Qed.

(** A slice that does not panic is where and as long as it should be. *)
Lemma dram_slice_wf b off n s :
  bus_wf b → urange usize_bits off → 0 < n <= 8 → dram_slice off n b = Some s →
  s.2 = b ∧ Forall is_byte s.1 ∧ length s.1 = Z.to_nat n ∧ off + n <= Z.of_nat (length (dram b)).
Proof.
  intros Hb Ho Hn. unfold dram_slice. erewrite M_bind_some by reflexivity. rewrite M_bind_run. unfold lift.
  destruct (add_u usize_bits off n) as [e|] eqn:Ee; [|done].
  unfold slice_get. destruct (_ && _) eqn:Ec; [|done]. intros [= <-]. cbn.
  assert (He : e = off + n).
  { unfold add_u, checked_u in Ee. destruct (_ && _) eqn:Ef; [by injection Ee|].
    destruct overflow_checks; [done|]. injection Ee as <-. exfalso.
    pose proof usize_ok as Hu. pose proof (Z.pow_le_mono_r 2 32 usize_bits) as Hp.
    assert (E1 : wrap usize_bits (off + n) = off + n - 2 ^ usize_bits).
    { unfold wrap. rewrite <- (Z_mod_plus_full _ (-1)). apply Z.mod_small. unfold urange in Ho. lia. }
    rewrite E1 in Ec. lia. }
  subst e. split_and!; [done|apply Forall_take, Forall_drop, Hb|rewrite length_take, length_drop|].
  - unfold urange in Ho. lia.
  - lia.
Qed.

Lemma bk_slice off n :
  urange usize_bits off → 0 < n <= 8 →
  dkeeps (dram_slice off n) (λ s, urange (8 * n) (from_le_bytes s)).
Proof.
  intros Ho Hn b Hb. unfold wp. destruct (dram_slice off n b) as [s|] eqn:E; [|done].
  destruct (dram_slice_wf _ _ _ _ Hb Ho Hn E) as (Es & Hs & Hl & _). destruct s as [s b']; cbn in *; subst.
  split; [|done]. pose proof (from_le_bytes_range _ Hs) as Hr. by rewrite Hl, Z2Nat.id in Hr by lia.
Qed.

Lemma bk_store off src :
  urange usize_bits off → Forall is_byte src → (0 < length src <= 8)%nat → dkeeps (dram_store off src) (λ _, True).
Proof.
  intros Ho Hs Hl b Hb. unfold dram_store. apply wp_bind. unfold wp at 1.
  destruct (dram_slice off _ b) as [r|] eqn:E; [|done].
  destruct (dram_slice_wf _ _ _ _ Hb Ho (conj (proj1 (Nat2Z.inj_lt _ _) (proj1 Hl)) (proj1 (Nat2Z.inj_le _ _) (proj2 Hl))) E) as (Es & _ & _ & He). destruct r as [r b']; cbn in *; subst.
  apply wp_modify. split; [done|]. destruct Hb. constructor; try assumption. destruct bw_dram0.
  constructor; cbn; try assumption; [|by apply bytes_splice].
  rewrite length_splice; [done|]. unfold urange in Ho. lia.
Qed.

(** ** The [Bus] trait *)

Lemma bk_offset b a : bus_wf b → dkeeps (lift (dram_offset b a)) (λ o, ∀ off, o = Some off → urange usize_bits off).
Proof.
  intros Hb. apply keeps_lift. destruct (dram_offset b a) as [o|] eqn:E; [|done]. intros off ->.
  by eapply dram_offset_range.
Qed.

Lemma bk_pop : dkeeps pop_rx (urange 8).
Proof.
  eapply (keeps_bind _ _ _ _ (Forall is_byte)); [apply bk_get; by intros b []|]. intros [|x l] Hl; [by apply keeps_ret|].
  apply Forall_cons in Hl as [Hx Hl]. apply keeps_seq; [by bus_upd|by apply keeps_ret].
Qed.

Lemma uart_msr_range b : urange 8 (uart_msr b).
Proof.
  unfold uart_msr. cbv zeta. destruct (negb _); [|done].
  repeat (apply urange_lor; [lia| |]); apply wrap_range; lia.
Qed.

Lemma bk_uart_read off : dkeeps (uart_read off) (urange 8).
Proof.
  eapply keeps_bind; [apply bk_self|]. intros b Hb. cbv zeta. pose proof (bw_uart _ Hb) as Hu.
  rewrite !Forall_cons in Hu. destruct Hu as (Hmcr & Hscr & Hier & Hfcr & Hlcr & Hdll & Hdlm & _).
  assert (Hlsr : urange 8 (uart_lsr b)) by (unfold uart_lsr; by case_bool_decide).
  assert (Hiir : urange 8 (uart_iir b)) by (unfold uart_iir; by split_ifs).
  pose proof (uart_msr_range b). split_ifs; try apply bk_pop; by apply keeps_ret.
Qed.

Lemma bk_uart_write off val : urange 8 val → dkeeps (uart_write off val) (λ _, True).
Proof.
  intros Hv. eapply keeps_bind; [apply bk_any|]. intros b _. cbv zeta.
  split_ifs; try apply bk_ret; bus_upd;
    try match goal with H : Forall is_byte [_; _; _; _; _; _; _] |- _ =>
      rewrite !Forall_cons in H |- *; destruct_and! H; by split_and! end.
  apply Forall_app. split; [done|by constructor].
Qed.

Lemma bk_read_u8 a : dkeeps (bus_read_u8 a) (urange 8).
Proof.
  eapply keeps_bind; [apply bk_self|]. intros b Hb. eapply keeps_bind; [by apply bk_offset|]. intros [off|] Ho.
  { apply keeps_lift. unfold vec_get. destruct (_ && _); [|done]. destruct (dram b !! _) eqn:E; [|done].
    by eapply Forall_lookup_1 in E; [|apply Hb]. }
  destruct (in_clint a); [apply keeps_ret; by destruct (_ =? _)|].
  destruct (virtio_slot a) as [[i off]|].
  - eapply keeps_bind; [apply bk_slot_at|]. intros [v|] _; apply keeps_ret; [apply wrap_range; lia|done].
  - destruct (in_uart a); [apply bk_uart_read|by apply keeps_ret].
Qed.

Lemma bk_read_u16 a : dkeeps (bus_read_u16 a) (urange 16).
Proof.
  eapply keeps_bind; [apply bk_read_u8|]. intros lo Hlo. eapply keeps_bind; [apply bk_lift|]. intros a' _.
  eapply keeps_bind; [apply bk_read_u8|]. intros hi Hhi. apply keeps_ret.
  apply (from_le_bytes_range [lo; hi]). rewrite !Forall_cons. by split_and!.
Qed.

Lemma bk_count_read : dkeeps count_mtime_read (λ _, True).
Proof.
  eapply keeps_bind; [apply bk_any|]. intros n _. eapply keeps_bind; [by apply bk_add|]. intros n' Hn. by bus_upd.
Qed.

Lemma bk_count_write : dkeeps count_mtimecmp_write (λ _, True).
Proof.
  eapply keeps_bind; [apply bk_any|]. intros n _. eapply keeps_bind; [by apply bk_add|]. intros n' Hn. by bus_upd.
Qed.

Lemma bk_read_u32 a : dkeeps (bus_read_u32 a) (urange 32).
Proof.
  eapply keeps_bind; [apply bk_self|]. intros b Hb. eapply keeps_bind; [by apply bk_offset|]. intros [off|] Ho.
  { eapply keeps_bind; [apply bk_slice; [by apply Ho|lia]|]. intros s Hs. by apply keeps_ret. }
  destruct (in_clint a).
  { apply keeps_seq; [destruct (_ || _); [apply bk_count_read|apply bk_ret]|]. apply keeps_ret.
    pose proof (bw_msoft _ Hb). split_ifs; try done; apply wrap_range; lia. }
  destruct (virtio_slot a) as [[i off]|].
  - eapply keeps_bind; [apply bk_slot_at|]. intros [v|] Hv; apply keeps_ret; [|done].
    eapply mmio_read_range, Hv.
  - destruct (in_plic a).
    { apply keeps_seq; [apply bk_uart_irq|]. apply bk_plic. intros p Hp.
      eapply wp_weaken; [|eapply wp_mono; [by apply plic_read_run|]]; [done|]. by intros v p' (? & ? & _). }
    destruct (in_uart a); [|by apply keeps_ret].
    eapply keeps_mono; [apply bk_read_u8|]. intros v. by apply urange_weaken.
Qed.

Lemma bk_read_u64 a : dkeeps (bus_read_u64 a) (urange 64).
Proof.
  eapply keeps_bind; [apply bk_self|]. intros b Hb. eapply keeps_bind; [by apply bk_offset|]. intros [off|] Ho.
  { eapply keeps_bind; [apply bk_slice; [by apply Ho|lia]|]. intros s Hs. by apply keeps_ret. }
  destruct (in_clint a).
  { apply keeps_seq; [destruct (_ =? _); [apply bk_count_read|apply bk_ret]|]. apply keeps_ret.
    pose proof (bw_msoft _ Hb). pose proof (bw_mtime _ Hb). pose proof (bw_mtimecmp _ Hb).
    split_ifs; try done. by apply (urange_weaken 32). }
  eapply keeps_bind; [apply bk_read_u32|]. intros lo Hlo. eapply keeps_bind; [apply bk_lift|]. intros a' _.
  eapply keeps_bind; [apply bk_read_u32|]. intros hi _. apply keeps_ret.
  apply urange_lor; [lia|by apply (urange_weaken 32)|apply wrap_range; lia].
Qed.

Lemma land_ff v : urange 8 (Z.land v 0xFF).
Proof. by apply (land_ones_range 8). Qed.

Lemma bk_write_u8 a v : urange 8 v → dkeeps (bus_write_u8 a v) (λ _, True).
Proof.
  intros Hv. eapply keeps_bind; [apply bk_self|]. intros b Hb. eapply keeps_bind; [by apply bk_offset|].
  intros [off|] Ho; [apply bk_store; [by apply Ho|by constructor|cbn; lia]|].
  destruct (virtio_slot a) as [[i off]|].
  - destruct (_ <=? _); [|apply bk_ret]. apply bk_virtio_write. by apply (urange_weaken 8).
  - destruct (in_uart a); [by apply bk_uart_write|apply bk_ret].
Qed.

(** The byte path of a wider write to the UART. *)
Lemma bk_store_le off n v :
  urange usize_bits off → (0 < n <= 8)%nat → dkeeps (dram_store off (to_le_bytes n v)) (λ _, True).
Proof. intros Ho Hn. apply bk_store; [done|apply to_le_bytes_bytes|by rewrite length_to_le_bytes]. Qed.

Lemma bk_write_u16 a v : dkeeps (bus_write_u16 a v) (λ _, True).
Proof.
  eapply keeps_bind; [apply bk_self|]. intros b Hb. eapply keeps_bind; [by apply bk_offset|].
  intros [off|] Ho; [apply bk_store_le; [by apply Ho|lia]|].
  destruct (in_uart a); [apply bk_write_u8, land_ff|].
  apply keeps_seq; [apply bk_write_u8, land_ff|]. eapply keeps_bind; [apply bk_lift|]. intros a' _.
  apply bk_write_u8, land_ff.
Qed.

Lemma bk_write_u32 a v : urange 32 v → dkeeps (bus_write_u32 a v) (λ _, True).
Proof.
  intros Hv. eapply keeps_bind; [apply bk_self|]. intros b Hb. eapply keeps_bind; [by apply bk_offset|].
  intros [off|] Ho; [apply bk_store_le; [by apply Ho|lia]|].
  destruct (in_uart a); [apply bk_write_u8, land_ff|]. destruct (in_clint a).
  - split_ifs; try apply bk_ret; bus_upd; [by apply low_half_range|by apply high_half_range].
  - destruct (virtio_slot a) as [[i off]|]; [by apply bk_virtio_write|]. destruct (in_plic a); [|apply bk_ret].
    apply bk_plic. intros p Hp. eapply wp_weaken; [|eapply wp_mono; [by apply plic_write_run|]]; [done|].
    by intros [] p' (? & _).
Qed.

Lemma bk_write_u64 a v : urange 64 v → dkeeps (bus_write_u64 a v) (λ _, True).
Proof.
  intros Hv. eapply keeps_bind; [apply bk_self|]. intros b Hb. eapply keeps_bind; [by apply bk_offset|].
  intros [off|] Ho; [apply bk_store_le; [by apply Ho|lia]|].
  destruct (in_uart a); [apply bk_write_u8, land_ff|]. destruct (in_clint a).
  - split_ifs; [bus_upd; apply wrap_range; lia| |apply bk_ret]. apply keeps_seq; [by bus_upd|apply bk_count_write].
  - apply keeps_seq; [apply bk_write_u32; by apply (land_ones_range 32)|]. eapply keeps_bind; [apply bk_lift|].
    intros a' _. apply bk_write_u32. by apply (land_ones_range 32).
Qed.

(** The bus meets the interface the supervisor is verified against. *)
#[global] Instance device_bus_ok : BusOk True (t D).
Proof.
  refine {| bus_inv := bus_wf |}; intros.
  - by apply bk_read_u8.
  - by apply bk_read_u16.
  - by apply bk_read_u32.
  - by apply bk_read_u64.
  - eapply wp_mono; [by apply bk_write_u8|]. by intros [] ? [].
  - eapply wp_mono; [by apply bk_write_u16|]. by intros [] ? [].
  - eapply wp_mono; [by apply bk_write_u32|]. by intros [] ? [].
  - eapply wp_mono; [by apply bk_write_u64|]. by intros [] ? [].
  - by apply wp_get.
  - by apply bk_mtime.
  - eapply wp_mono; [by apply bk_external|]. by intros ? ? [].
Defined.
End Ops.

(** * The devices of the guest keep their promises *)

Section Any.
Context {PR : Profile} {T : Target} {Ht : TargetOk T}.

#[global] Instance any_store_ok : StoreOk AnyBackend.
Proof.
  refine {| store_inv := backend_inv |}.
  - intros sec n [k|k] Hk; unfold wp; cbn [bk_read AnyStore.backend AnyStore.call].
    + pose proof (store_read_ok (K := MemBackend.t) sec n k Hk) as Hr. unfold wp in Hr.
      by destruct (bk_read sec n k) as [[r k']|].
    + done.
  - intros sec buf Hb [k|k] Hk; unfold wp; cbn [bk_write AnyStore.backend AnyStore.call].
    + pose proof (store_write_ok (K := MemBackend.t) sec buf Hb k Hk) as Hr. unfold wp in Hr.
      by destruct (bk_write sec buf k) as [[r k']|].
    + done.
  - by intros [k|k] Hk.
Defined.

Definition any_inv (d : AnyDevice) : Prop := AnyDev.on_kind disk_inv nic_inv p9_inv d.

Lemma call_keeps {A} (f : M (VirtioBlk.t AnyBackend) A) (g : M (VirtioNet.t NetQueues.t) A)
    (h : M Virtio9p.t A) R :
  keeps True disk_inv f R → keeps True nic_inv g R → keeps True p9_inv h R →
  keeps True any_inv (AnyDev.call f g h) R.
Proof.
  intros Hf Hg Hh [b|n|p] Hd; unfold wp, AnyDev.call.
  - specialize (Hf b Hd). unfold wp in Hf. by destruct (f b) as [[a b']|].
  - specialize (Hg n Hd). unfold wp in Hg. by destruct (g n) as [[a n']|].
  - specialize (Hh p Hd). unfold wp in Hh. by destruct (h p) as [[a p']|].
Qed.

Lemma call_mem_keeps {A} l (f : M (VirtioBlk.t AnyBackend * GuestMem.t) A)
    (g : M (VirtioNet.t NetQueues.t * GuestMem.t) A) (h : M (Virtio9p.t * GuestMem.t) A) R :
  keeps True (dev_mem disk_inv l) f R → keeps True (dev_mem nic_inv l) g R →
  keeps True (dev_mem p9_inv l) h R → keeps True (dev_mem any_inv l) (AnyDev.call_mem f g h) R.
Proof.
  intros Hf Hg Hh [[b|n|p] m] [Hd Hm]; unfold wp, AnyDev.call_mem; cbn.
  - specialize (Hf (b, m) (conj Hd Hm)). unfold wp in Hf. by destruct (f (b, m)) as [[a [b' m']]|].
  - specialize (Hg (n, m) (conj Hd Hm)). unfold wp in Hg. by destruct (g (n, m)) as [[a [n' m']]|].
  - specialize (Hh (p, m) (conj Hd Hm)). unfold wp in Hh. by destruct (h (p, m)) as [[a [p' m']]|].
Qed.

#[global] Instance any_ok : DeviceOk AnyDevice.
Proof.
  pose (disk := disk_ok (K := AnyBackend)). pose (nic := nic_ok). pose (share := share_ok).
  refine {| dev_inv := any_inv |}; intros.
  - destruct d as [d|d|d]; [apply (@device_id_ok _ _ disk d)|apply (@device_id_ok _ _ nic d)
                           |apply (@device_id_ok _ _ share d)]; done.
  - destruct d as [d|d|d]; [apply (@config_read_ok _ _ disk d)|apply (@config_read_ok _ _ nic d)
                           |apply (@config_read_ok _ _ share d)]; done.
  - apply call_keeps; [apply (@config_write_ok _ _ disk)|apply (@config_write_ok _ _ nic)
                      |apply (@config_write_ok _ _ share)].
  - apply call_mem_keeps; [by apply (@handle_ok _ _ disk)|by apply (@handle_ok _ _ nic)
                          |by apply (@handle_ok _ _ share)].
  - apply call_mem_keeps; [by apply (@supply_ok _ _ disk)|by apply (@supply_ok _ _ nic)
                          |by apply (@supply_ok _ _ share)].
  - apply call_keeps; [apply (@deferred_ok _ _ disk)|apply (@deferred_ok _ _ nic)
                      |apply (@deferred_ok _ _ share)].
  - apply call_mem_keeps; [apply (@poll_ok _ _ disk)|apply (@poll_ok _ _ nic)|apply (@poll_ok _ _ share)].
  - apply call_keeps; [apply (@has_rx_ok _ _ disk)|apply (@has_rx_ok _ _ nic)|apply (@has_rx_ok _ _ share)].
  - apply call_mem_keeps; [apply (@fill_rx_ok _ _ disk)|apply (@fill_rx_ok _ _ nic)
                          |apply (@fill_rx_ok _ _ share)].
Defined.

Lemma new_blk_inv k : backend_inv k → disk_inv (VirtioBlk.new k).
Proof. intros Hk. split; [exact Hk|]. cbn. by repeat (apply Forall_cons; split). Qed.

#[global] Instance any_devices_ok : DevicesOk AnyDevice.
Proof.
  split.
  - intros [b|n|p] q Hd Hq; [done| |done]. injection Hq as <-. apply Hd.
  - intros [b|n|p] q Hd Hq; [done| |done]. destruct Hd as (_ & Hm & Hp). by split_and!.
  - intros mac Hm. split; [constructor|]. by split.
  - intros k Hk. by apply new_blk_inv.
  - intros k Hk. apply call_keeps; [|by apply keeps_ret..].
    intros b [Hb Hs]. apply wp_bind, wp_get. destruct (negb _); [by apply wp_ret|].
    apply wp_bind, wp_modify, wp_ret. split; [done|]. by split.
  - intros lz name Hn. by apply p9_new_inv.
  - intros path data Hp Hd. apply call_keeps; [by apply keeps_ret..|by apply put_keeps].
  - intros path Hp. apply call_keeps; [by apply keeps_ret..|by apply mkdir_keeps].
  - intros [b|n|p] Hd; [done|done|]. by apply set_lazy_inv.
  - apply call_keeps; [by apply keeps_ret..|apply changes_keeps].
  - apply call_keeps; [by apply keeps_ret..|]. eapply (keeps_bind _ _ _ _ (λ _, True)); [by apply keeps_get|].
    intros r _. apply keeps_seq; [|by apply keeps_ret]. apply keeps_modify. intros d []. by constructor.
Qed.
End Any.

(** * A fresh board *)

Section Fresh.
Context {D : Type} {VD : VirtioDevice D} {DV : Devices D} {DO : DeviceOk D} {DS : DevicesOk D}.
Context {PR : Profile} {T : Target} {Ht : TargetOk T}.

(** A [Vec] holds at most [isize::MAX] bytes. *)
Lemma bus_new_wf size : 0 <= size < 2 ^ (usize_bits - 1) → bus_wf (DeviceBus.new (D := D) size).
Proof.
  intros Hs. pose proof usize_half as [Hp Hhalf].
  constructor; cbn; try (by unfold urange); try (by apply Forall_nil).
  - constructor; cbn; rewrite ?length_replicate; unfold DRAM_BASE; try lia.
    apply Forall_replicate. by unfold is_byte, urange.
  - by rewrite !Forall_cons.
  - apply plic_new_wf.
  - split; [done|]. intros i v Hi. change (replicate VIRTIO_MMIO_SLOTS None !! i = Some (Some v)) in Hi.
    by apply lookup_replicate_1 in Hi as [? _].
  - apply Nat.leb_le. reflexivity.
Qed.

Lemma position_none_at {A} (l : list (option A)) : ∀ i j,
  position_none l i = Some j → (i <= j < i + length l)%nat.
Proof.
  induction l as [|[x|] l IH]; intros i j E; cbn in *; [done| |].
  - apply IH in E. lia.
  - injection E as <-. lia.
Qed.

Lemma mmio_new_wf d irq : mmio_wf (VirtioMmio.new (D := D) d irq).
Proof.
  pose proof usize_ok as Hu.
  assert (H0 : urange usize_bits 0) by (apply (urange_weaken 32); [lia|by unfold urange]).
  constructor; cbn; try (by unfold urange); try done.
  split; [done|]. assert (Hq : queue_wf QueueState.default) by (by split_and!). by rewrite !Forall_cons.
Qed.

Lemma attach_keeps d : dev_inv d → keeps True (bus_wf (D := D)) (attach_virtio d) (λ _, True).
Proof.
  intros Hd b Hb. apply wp_bind, wp_get. destruct (position_none (virtio b) 0) as [i|] eqn:E; [|by apply wp_ret].
  apply position_none_at in E. destruct (bw_slots _ Hb) as [Hl _]. apply wp_bind, wp_modify, wp_bind, wp_modify, wp_ret.
  split; [done|].
  assert (Hw : bus_wf (set_slot i (VirtioMmio.new d (S i)) b)).
  { apply set_slot_wf; [|done]. split_and!; [apply mmio_new_wf|done|done]. }
  destruct Hw. constructor; try assumption; [by destruct bw_dram0|]. cbn. pose proof (bw_n _ Hb). lia.
Qed.

Lemma attach_net_keeps mac : Forall is_byte mac → keeps True (bus_wf (D := D)) (attach_virtio_net mac) (λ _, True).
Proof.
  intros Hm. unfold attach_virtio_net. eapply keeps_bind; [apply attach_keeps, new_net_ok, Hm|].
  intros [irq|] _; [|apply bk_ret]. apply keeps_seq; [by bus_upd|apply bk_ret].
Qed.
End Fresh.
