(* ===== verification/Fdt.v ===== *)
(** The devicetree patcher ([riscv-machine/src/fdt.rs]).

    The blob is a list of bytes that the two entry points overwrite in place.
    Results are wrapped twice: the outer [option] is a panic (an index or a
    slice out of range, or an overflow where overflows are checked), the inner
    one is a scan of the structure block that has used up its fuel. *)

From S2P Require Import Prelude Keeps State Stream Virtio VirtioSg.

Definition FDT_MAGIC : Z := 0xd00dfeed.
Definition FDT_BEGIN_NODE : Z := 1.
Definition FDT_END_NODE : Z := 2.
Definition FDT_PROP : Z := 3.
Definition FDT_NOP : Z := 4.
Definition FDT_END : Z := 9.

Definition from_be_bytes (l : list Z) : Z := from_le_bytes (rev l).
Definition to_be_bytes (n : nat) (v : Z) : list Z := rev (to_le_bytes n v).

(** [a + b] on [i32] *)
Definition add_i32 `{Profile} (a b : Z) : option Z :=
  let r := a + b in
  if (- 2 ^ 31 <=? r) && (r <? 2 ^ 31) then Some r
  else if overflow_checks then None else Some (as_i32 r).

(** The property and node names, as bytes. *)
Definition initrd_start_name : list Z :=
  [108; 105; 110; 117; 120; 44; 105; 110; 105; 116; 114; 100; 45; 115; 116; 97; 114; 116].
Definition initrd_end_name : list Z :=
  [108; 105; 110; 117; 120; 44; 105; 110; 105; 116; 114; 100; 45; 101; 110; 100].
Definition memory_name : list Z := [109; 101; 109; 111; 114; 121].
Definition memory_at : list Z := memory_name ++ [64].
Definition reg_name : list Z := [114; 101; 103].

Section Fdt.
Context `{Profile} `{Target}.

Definition be32 (b : list Z) (o : Z) : option Z :=
  x0 ← vec_get b o;
  o1 ← add_u usize_bits o 1; x1 ← vec_get b o1;
  o2 ← add_u usize_bits o 2; x2 ← vec_get b o2;
  o3 ← add_u usize_bits o 3; x3 ← vec_get b o3;
  Some (from_be_bytes [x0; x1; x2; x3]).

Definition align4 (n : Z) : option Z :=
  e ← add_u usize_bits n 3; Some (Z.land e (unot usize_bits 3)).

(** [dtb[s..].iter().position(|&c| c == 0).map(|n| s + n).unwrap_or(dtb.len())] *)
Fixpoint zero_at (l : list Z) (s : Z) : Z :=
  match l with
  | [] => s
  | c :: l => if c =? 0 then s else zero_at l (s + 1)
  end.
Definition cstr_end (b : list Z) (s : Z) : option Z :=
  if Z.of_nat (length b) <? s then None else Some (zero_at (drop (Z.to_nat s) b) s).

(** The offsets of the structure and of the strings block, of a blob that is a
    devicetree. *)
Definition open_tree (b : list Z) : option (option (Z * Z)) :=
  let len := Z.of_nat (length b) in
  if len <? 40 then Some None
  else
    magic ← be32 b 0;
    if negb (magic =? FDT_MAGIC) then Some None
    else
      off_struct ← be32 b 8;
      off_strings ← be32 b 12;
      size_strings ← be32 b 32;
      if len <=? off_struct then Some None
      else
        e ← add_u usize_bits off_strings size_strings;
        if len <? e then Some None else Some (Some (off_struct, off_strings)).

Definition name_at (b : list Z) (off_strings off : Z) : option (list Z) :=
  s ← add_u usize_bits off_strings off;
  if Z.of_nat (length b) <=? s then Some []
  else e ← cstr_end b s; slice_get b s e.

(** The end of the node name at [pos] *)
Definition node_name (b : list Z) (pos : Z) : option (Z * list Z) :=
  e ← cstr_end b pos; name ← slice_get b pos e; Some (e, name).

(** The header of the property at [pos]: length, name and where the data is. *)
Definition read_prop (b : list Z) (off_strings pos : Z) : option (Z * list Z * Z) :=
  p4 ← add_u usize_bits pos 4; len ← be32 b p4;
  p8 ← add_u usize_bits pos 8; nameoff ← be32 b p8;
  data ← add_u usize_bits pos 12;
  n ← name_at b off_strings nameoff;
  Some (len, n, data).

(** ** [patch_initrd] *)

(** [writes] and [patched] while scanning *)
Record initrd_scan := { w_start : Z; w_end : Z; patched : Z }.

(** The [while] loop; [Some None] of the innermost result is [return false]. *)
Fixpoint initrd_loop (fuel : nat) (b : list Z) (off_strings pos : Z) (s : initrd_scan)
  : option (option (option initrd_scan)) :=
  match fuel with
  | O => Some None
  | S fuel =>
      p4 ← add_u usize_bits pos 4;
      if Z.of_nat (length b) <? p4 then Some (Some (Some s))
      else
        tok ← be32 b pos;
        if tok =? FDT_BEGIN_NODE then
          e ← cstr_end b p4; e1 ← add_u usize_bits e 1; pos ← align4 e1;
          initrd_loop fuel b off_strings pos s
        else if (tok =? FDT_END_NODE) || (tok =? FDT_NOP) then initrd_loop fuel b off_strings p4 s
        else if tok =? FDT_PROP then
          '(len, n, data) ← read_prop b off_strings pos;
          let s :=
            if len =? 8 then
              if bool_decide (n = initrd_start_name)
              then {| w_start := data; w_end := w_end s; patched := patched s + 1 |}
              else if bool_decide (n = initrd_end_name)
              then {| w_start := w_start s; w_end := data; patched := patched s + 1 |}
              else s
            else s in
          e ← add_u usize_bits data len; pos ← align4 e;
          initrd_loop fuel b off_strings pos s
        else if tok =? FDT_END then Some (Some (Some s))
        else Some (Some None)
  end.

(** [dtb[at..at + 8].copy_from_slice(..)] *)
Definition write_be (b : list Z) (at_ : Z) (v : Z) : option (list Z) :=
  e ← add_u usize_bits at_ 8;
  _ ← slice_get b at_ e;
  Some (splice b at_ (to_be_bytes 8 v)).

Definition write_if (b : list Z) (at_ v : Z) : option (list Z) :=
  if at_ =? 0 then Some b else write_be b at_ v.

Definition patch_initrd (fuel : nat) (b : list Z) (start end_ : Z) : option (option (bool * list Z)) :=
  t ← open_tree b;
  match t with
  | None => Some (Some (false, b))
  | Some (off_struct, off_strings) =>
      r ← initrd_loop fuel b off_strings off_struct {| w_start := 0; w_end := 0; patched := 0 |};
      match r with
      | None => Some None
      | Some None => Some (Some (false, b))
      | Some (Some s) =>
          b1 ← write_if b (w_start s) start;
          b2 ← write_if b1 (w_end s) end_;
          Some (Some (patched s =? 2, b2))
      end
  end.

(** ** [patch_memory] *)

Record memory_scan := { in_memory : bool; depth : Z; memory_depth : Z; at_ : Z }.

Definition is_memory (name : list Z) : bool :=
  bool_decide (name = memory_name) || bool_decide (take (length memory_at) name = memory_at).

Fixpoint memory_loop (fuel : nat) (b : list Z) (off_strings pos : Z) (s : memory_scan)
  : option (option (option memory_scan)) :=
  match fuel with
  | O => Some None
  | S fuel =>
      p4 ← add_u usize_bits pos 4;
      if Z.of_nat (length b) <? p4 then Some (Some (Some s))
      else
        tok ← be32 b pos;
        if tok =? FDT_BEGIN_NODE then
          '(e, name) ← node_name b p4;
          d ← add_i32 (depth s) 1;
          let s :=
            if negb (in_memory s) && is_memory name
            then {| in_memory := true; depth := d; memory_depth := d; at_ := at_ s |}
            else {| in_memory := in_memory s; depth := d; memory_depth := memory_depth s; at_ := at_ s |} in
          e1 ← add_u usize_bits e 1; pos ← align4 e1;
          memory_loop fuel b off_strings pos s
        else if tok =? FDT_END_NODE then
          let im := if in_memory s && (depth s =? memory_depth s) then false else in_memory s in
          d ← add_i32 (depth s) (-1);
          memory_loop fuel b off_strings p4
            {| in_memory := im; depth := d; memory_depth := memory_depth s; at_ := at_ s |}
        else if tok =? FDT_NOP then memory_loop fuel b off_strings p4 s
        else if tok =? FDT_PROP then
          p4 ← add_u usize_bits pos 4; len ← be32 b p4;
          p8 ← add_u usize_bits pos 8; nameoff ← be32 b p8;
          data ← add_u usize_bits pos 12;
          hit ← (if in_memory s && (len =? 16)
                 then n ← name_at b off_strings nameoff; Some (bool_decide (n = reg_name))
                 else Some false);
          let s := if hit : bool
                   then {| in_memory := in_memory s; depth := depth s; memory_depth := memory_depth s; at_ := data |}
                   else s in
          e ← add_u usize_bits data len; pos ← align4 e;
          memory_loop fuel b off_strings pos s
        else if tok =? FDT_END then Some (Some (Some s))
        else Some (Some None)
  end.

Definition patch_memory (fuel : nat) (b : list Z) (base size : Z) : option (option (bool * list Z)) :=
  t ← open_tree b;
  match t with
  | None => Some (Some (false, b))
  | Some (off_struct, off_strings) =>
      r ← memory_loop fuel b off_strings off_struct
            {| in_memory := false; depth := 0; memory_depth := -1; at_ := 0 |};
      match r with
      | None => Some None
      | Some None => Some (Some (false, b))
      | Some (Some s) =>
          if at_ s =? 0 then Some (Some (false, b))
          else
            b1 ← write_be b (at_ s) base;
            a8 ← add_u usize_bits (at_ s) 8;
            b2 ← write_be b1 a8 size;
            Some (Some (true, b2))
      end
  end.
End Fdt.

(** * Serialised trees *)

Inductive token :=
| TBegin (name : list Z)
| TEnd
| TNop
| TProp (nameoff : Z) (data : list Z).

Definition pad4 (l : list Z) : list Z := l ++ replicate (Z.to_nat ((- Z.of_nat (length l)) mod 4)) 0.
Definition be (v : Z) : list Z := to_be_bytes 4 v.

Definition token_bytes (t : token) : list Z :=
  match t with
  | TBegin name => be FDT_BEGIN_NODE ++ pad4 (name ++ [0])
  | TEnd => be FDT_END_NODE
  | TNop => be FDT_NOP
  | TProp nameoff data => be FDT_PROP ++ be (Z.of_nat (length data)) ++ be nameoff ++ pad4 data
  end.
Definition struct_bytes (ts : list token) : list Z := concat (token_bytes <$> ts).

(** A whole blob: the 40 byte header (magic, total size, offsets of the
    structure, of the strings and of the reservations, versions, boot hart, sizes
    of the strings and of the structure), the structure block, the strings. *)
Definition header (nst nstr : nat) : list Z :=
  concat (be <$> [FDT_MAGIC; 40 + Z.of_nat nst + Z.of_nat nstr; 40; 40 + Z.of_nat nst; 40; 17; 16; 0;
                  Z.of_nat nstr; Z.of_nat nst]).
Definition blob (ts : list token) (strings : list Z) : list Z :=
  let st := struct_bytes ts ++ be FDT_END in
  header (length st) (length strings) ++ st ++ strings.

Example initrd_example :
  let strings := initrd_start_name ++ [0] ++ initrd_end_name ++ [0] in
  let tree a b := blob [TBegin []; TProp 0 (to_be_bytes 8 a); TProp 19 (to_be_bytes 8 b); TEnd] strings in
  @patch_initrd Dev Wasm32 10 (tree 0 0) 0xBE9E0000 0xBEFFF58A
  = Some (Some (true, tree 0xBE9E0000 0xBEFFF58A)).
Proof. vm_compute. reflexivity. Qed.

Example memory_example :
  let tree size := blob
    [TBegin []; TBegin [117; 64]; TProp 0 (to_be_bytes 8 0x10000000 ++ to_be_bytes 8 0x100); TEnd;
     TBegin (memory_at ++ [56; 48]); TProp 0 (to_be_bytes 8 0x80000000 ++ to_be_bytes 8 size); TEnd; TEnd]
    (reg_name ++ [0]) in
  @patch_memory Dev Wasm32 20 (tree (2 ^ 30)) 0x80000000 (2 ^ 29) = Some (Some (true, tree (2 ^ 29))).
Proof. vm_compute. reflexivity. Qed.

(** * Termination *)

Lemma zero_at_bounds l : ∀ s, s <= zero_at l s <= s + Z.of_nat (length l).
Proof.
  induction l as [|c l IH]; intros s; cbn [zero_at length]; [lia|].
  destruct (_ =? _); [lia|]. specialize (IH (s + 1)). lia.
Qed.

Section Termination.
Context {PR : Profile}.
#[local] Instance T64 : Target := Native64.

Lemma add64 a b : 0 <= a + b < 2 ^ 64 → add_u usize_bits a b = Some (a + b).
Proof. intros. by apply add_u_small. Qed.

Lemma align4_up n : 0 <= n < 2 ^ 63 → ∃ m, align4 n = Some m ∧ n <= m < n + 4.
Proof.
  intros Hn. unfold align4. rewrite add64 by lia. change (unot usize_bits 3) with (unot 64 (Z.ones 2)).
  cbn [mbind option_bind]. rewrite land_unot_ones by (unfold urange; lia). eexists. split; [reflexivity|].
  change (2 ^ 2) with 4. pose proof (Z.mod_pos_bound (n + 3) 4). lia.
Qed.

Context (b : list Z) (Hb : Forall is_byte b) (Hlen : Z.of_nat (length b) < 2 ^ 62).

Lemma be32_range o v : be32 b o = Some v → urange 32 v.
Proof.
  unfold be32. intros E. repeat (apply bind_Some in E as (? & ? & E)). injection E as <-.
  assert (Hx : ∀ i x, vec_get b i = Some x → is_byte x).
  { intros i y. unfold vec_get. destruct (_ && _); [|done]. apply Forall_lookup_1, Hb. }
  unfold from_be_bytes. cbn [rev app].
  match goal with |- urange _ (from_le_bytes ?l) => assert (Hl : Forall is_byte l) end.
  { rewrite !Forall_cons. split_and!; [by eapply Hx..|done]. }
  by pose proof (from_le_bytes_range _ Hl).
Qed.

Lemma cstr_end_bounds s e : cstr_end b s = Some e → 0 <= s → s <= e <= Z.of_nat (length b).
Proof.
  unfold cstr_end. destruct (_ <? _) eqn:E; [done|]. intros [= <-] Hs.
  pose proof (zero_at_bounds (drop (Z.to_nat s) b) s) as Hz. rewrite length_drop in Hz. lia.
Qed.

(** Where the scan goes after a node name or a property. *)
Definition advances (pos pos' : Z) : Prop := pos + 4 <= pos' < 2 ^ 62 + 2 ^ 34.

Lemma after_name pos e e1 pos' :
  0 <= pos < 2 ^ 62 → cstr_end b (pos + 4) = Some e → add_u usize_bits e 1 = Some e1 → align4 e1 = Some pos' →
  advances pos pos'.
Proof.
  intros Hp Ee E1 E2. apply cstr_end_bounds in Ee; [|lia]. rewrite add64 in E1 by lia. injection E1 as <-.
  destruct (align4_up (e + 1)) as (m & Em & Hm); [lia|]. rewrite Em in E2. injection E2 as <-.
  unfold advances. lia.
Qed.

Lemma after_prop pos data len e pos' :
  0 <= pos < 2 ^ 62 → add_u usize_bits pos 12 = Some data → urange 32 len →
  add_u usize_bits data len = Some e → align4 e = Some pos' → advances pos pos'.
Proof.
  intros Hp Ed Hl E1 E2. unfold urange in Hl. rewrite add64 in Ed by lia. injection Ed as <-.
  rewrite add64 in E1 by lia. injection E1 as <-.
  destruct (align4_up (pos + 12 + len)) as (m & Em & Hm); [lia|]. rewrite Em in E2. injection E2 as <-.
  unfold advances. lia.
Qed.

(** Enough fuel for a scan from [pos]. *)
Definition enough (fuel : nat) (pos : Z) : Prop :=
  0 <= pos < 2 ^ 62 + 2 ^ 34 ∧ (0 < fuel)%nat ∧ Z.of_nat (length b) - pos < Z.of_nat fuel.

Lemma enough_step fuel pos pos' :
  enough (S fuel) pos → pos + 4 <= Z.of_nat (length b) → advances pos pos' → enough fuel pos'.
Proof. unfold enough, advances. lia. Qed.

(** Both scans move forward by a token at least, and stop at the end. *)
Lemma initrd_loop_ends os fuel : ∀ pos s, enough fuel pos → initrd_loop fuel b os pos s ≠ Some None.
Proof.
  induction fuel as [|fuel IH]; intros pos s Hf; [unfold enough in Hf; lia|]. cbn [initrd_loop].
  pose proof Hf as (Hp & _ & _). rewrite add64 by lia. cbn [mbind option_bind].
  destruct (Z.ltb_spec (Z.of_nat (length b)) (pos + 4)) as [|Hin]; [done|].
  destruct (be32 b pos) as [tok|] eqn:Et; [|done]. cbn [mbind option_bind].
  assert (Hadv : ∀ pos' s, advances pos pos' → initrd_loop fuel b os pos' s ≠ Some None).
  { intros pos' s' Ha. eapply IH, enough_step; [done|lia|done]. }
  assert (H4 : advances pos (pos + 4)) by (unfold advances; lia).
  destruct (tok =? FDT_BEGIN_NODE).
  { intros E. apply bind_Some in E as (e & Ee & E). apply bind_Some in E as (e1 & E1 & E).
    apply bind_Some in E as (pos' & E2 & E). revert E. apply Hadv. by eapply after_name; [lia|..]. }
  destruct (_ || _); [by apply Hadv|]. destruct (tok =? FDT_PROP).
  2:{ by destruct (tok =? FDT_END). }
  intros E. apply bind_Some in E as ([[len n] data] & Er & E). unfold read_prop in Er.
  apply bind_Some in E as (e & E1 & E). apply bind_Some in E as (pos' & E2 & E).
  revert E. apply Hadv. apply bind_Some in Er as (p4 & _ & Er). apply bind_Some in Er as (len' & El & Er).
  apply bind_Some in Er as (p8 & _ & Er). apply bind_Some in Er as (no & _ & Er).
  apply bind_Some in Er as (data' & Ed & Er). apply bind_Some in Er as (n' & _ & [= -> -> ->]).
  eapply after_prop; [lia|done|by eapply be32_range|done..].
Qed.

Lemma memory_loop_ends os fuel : ∀ pos s, enough fuel pos → memory_loop fuel b os pos s ≠ Some None.
Proof.
  induction fuel as [|fuel IH]; intros pos s Hf; [unfold enough in Hf; lia|]. cbn [memory_loop].
  pose proof Hf as (Hp & _ & _). rewrite !(add64 pos) by lia. cbn [mbind option_bind].
  destruct (Z.ltb_spec (Z.of_nat (length b)) (pos + 4)) as [|Hin]; [done|].
  destruct (be32 b pos) as [tok|] eqn:Et; [|done]. cbn [mbind option_bind].
  assert (Hadv : ∀ pos' s, advances pos pos' → memory_loop fuel b os pos' s ≠ Some None).
  { intros pos' s' Ha. eapply IH, enough_step; [done|lia|done]. }
  assert (H4 : advances pos (pos + 4)) by (unfold advances; lia).
  destruct (tok =? FDT_BEGIN_NODE).
  { intros E. apply bind_Some in E as ([e n] & Ee & E). apply bind_Some in E as (d & _ & E). cbv zeta in E.
    apply bind_Some in E as (e1 & E1 & E). apply bind_Some in E as (pos' & E2 & E). revert E. apply Hadv.
    unfold node_name in Ee. apply bind_Some in Ee as (e' & Ee & En). apply bind_Some in En as (n' & _ & [= -> ->]).
    by eapply after_name; [lia|..]. }
  destruct (tok =? FDT_END_NODE).
  { cbv zeta. intros E. apply bind_Some in E as (d & _ & E). revert E. by apply Hadv. }
  destruct (tok =? FDT_NOP); [by apply Hadv|]. destruct (tok =? FDT_PROP).
  2:{ by destruct (tok =? FDT_END). }
  intros E. apply bind_Some in E as (len & El & E). apply bind_Some in E as (no & _ & E).
  apply bind_Some in E as (hit & _ & E). cbv zeta in E.
  apply bind_Some in E as (e & E1 & E). apply bind_Some in E as (pos' & E2 & E). revert E. apply Hadv.
  eapply after_prop; [lia|by apply add64; lia|by eapply be32_range|done..].
Qed.

Lemma open_tree_inside o s : open_tree b = Some (Some (o, s)) → 0 <= o < Z.of_nat (length b).
Proof.
  unfold open_tree. cbv zeta. destruct (_ <? 40); [done|]. intros E.
  apply bind_Some in E as (m & _ & E). destruct (negb _); [done|].
  apply bind_Some in E as (os & Eo & E). apply bind_Some in E as (ss & _ & E). apply bind_Some in E as (sz & _ & E).
  destruct (Z.leb_spec (Z.of_nat (length b)) os); [done|]. apply bind_Some in E as (e & _ & E).
  destruct (_ <? e); [done|]. injection E as -> ->. apply be32_range in Eo. unfold urange in Eo. lia.
Qed.
End Termination.

(** * Scanning a serialised tree *)

Definition token_ok (t : token) : Prop :=
  match t with
  | TBegin name => 0 ∉ name
  | TProp nameoff data => 0 <= nameoff < 2 ^ 30
  | _ => True
  end.

Definition tlen (t : token) : Z := Z.of_nat (length (token_bytes t)).

Lemma length_be v : length (be v) = 4%nat.
Proof. unfold be, to_be_bytes. by rewrite length_rev, length_to_le_bytes. Qed.

Lemma from_be_to_be v : urange 32 v → from_be_bytes (be v) = v.
Proof.
  intros. unfold from_be_bytes, be, to_be_bytes. rewrite rev_involutive, from_to_le_bytes. by apply wrap_small.
Qed.

Lemma length_pad4 l : Z.of_nat (length (pad4 l)) = Z.of_nat (length l) + (- Z.of_nat (length l)) mod 4.
Proof.
  unfold pad4. rewrite length_app, length_replicate.
  pose proof (Z.mod_pos_bound (- Z.of_nat (length l)) 4). lia.
Qed.

Lemma zero_at_app name rest : ∀ s, 0 ∉ name → zero_at (name ++ 0 :: rest) s = s + Z.of_nat (length name).
Proof.
  induction name as [|c name IH]; intros s Hn; cbn [zero_at app length]; [cbn; lia|].
  apply not_elem_of_cons in Hn as [Hc Hn]. destruct (Z.eqb_spec c 0); [congruence|]. rewrite IH by done. lia.
Qed.

Section Scan.
Context {PR : Profile} {T : Target} {Ht : TargetOk T}.

Lemma add_fits a b : 0 <= a + b < 2 ^ 32 → add_u usize_bits a b = Some (a + b).
Proof.
  intros. apply add_u_small. pose proof usize_ok. pose proof (Z.pow_le_mono_r 2 32 usize_bits).
  unfold urange. lia.
Qed.

Lemma vec_get_app (pre l post : list Z) i x :
  l !! i = Some x → vec_get (pre ++ l ++ post) (Z.of_nat (length pre) + Z.of_nat i) = Some x.
Proof.
  intros E. pose proof (lookup_lt_Some _ _ _ E). unfold vec_get. rewrite !length_app.
  replace (_ && _) with true by (symmetry; apply andb_true_intro; rewrite Z.leb_le, Z.ltb_lt; lia).
  replace (Z.to_nat _) with (length pre + i)%nat by lia.
  rewrite lookup_app_r by lia. replace (length pre + i - length pre)%nat with i by lia.
  by rewrite lookup_app_l.
Qed.

Lemma be32_at pre v post :
  urange 32 v → Z.of_nat (length pre) < 2 ^ 31 → be32 (pre ++ be v ++ post) (Z.of_nat (length pre)) = Some v.
Proof.
  intros Hv Hl. pose proof (length_be v) as Hb. rewrite <- (from_be_to_be v Hv) at 2.
  destruct (be v) as [|x0 [|x1 [|x2 [|x3 [|]]]]] eqn:E; cbn in Hb; try lia.
  unfold be32. rewrite !add_fits by lia.
  pose proof (vec_get_app pre [x0; x1; x2; x3] post) as Hg.
  pose proof (Hg 0%nat x0 eq_refl) as H0. pose proof (Hg 1%nat x1 eq_refl) as H1.
  pose proof (Hg 2%nat x2 eq_refl) as H2. pose proof (Hg 3%nat x3 eq_refl) as H3.
  rewrite Z.add_0_r in H0. change (Z.of_nat 1) with 1 in H1. change (Z.of_nat 2) with 2 in H2.
  change (Z.of_nat 3) with 3 in H3. cbn [mbind option_bind].
  rewrite H0. cbn [mbind option_bind]. rewrite H1. cbn [mbind option_bind]. rewrite H2. cbn [mbind option_bind]. by rewrite H3.
Qed.

Lemma align4_run n : 0 <= n < 2 ^ 31 → align4 n = Some (n + (- n) mod 4).
Proof.
  intros Hn. unfold align4. rewrite add_fits by lia. cbn [mbind option_bind]. f_equal.
  change 3 with (Z.ones 2) at 2. pose proof usize_ok.
  rewrite land_unot_ones; [|lia|apply (urange_weaken 32); [lia|unfold urange; lia]].
  pose proof (Z.div_mod (n + 3) 4). pose proof (Z.mod_pos_bound (n + 3) 4).
  pose proof (Z.div_mod (- n) 4). pose proof (Z.mod_pos_bound (- n) 4). change (2 ^ 2) with 4. lia.
Qed.

Lemma cstr_end_at pre name post :
  0 ∉ name → cstr_end (pre ++ name ++ 0 :: post) (Z.of_nat (length pre))
  = Some (Z.of_nat (length pre) + Z.of_nat (length name)).
Proof.
  intros Hn. unfold cstr_end. rewrite length_app.
  destruct (Z.ltb_spec (Z.of_nat (length pre + length (name ++ 0 :: post))) (Z.of_nat (length pre))); [lia|].
  rewrite Nat2Z.id, drop_app_length. by rewrite zero_at_app.
Qed.

Lemma node_name_at pre name post :
  0 ∉ name → node_name (pre ++ name ++ 0 :: post) (Z.of_nat (length pre))
  = Some (Z.of_nat (length pre) + Z.of_nat (length name), name).
Proof.
  intros Hn. unfold node_name. rewrite cstr_end_at by done. cbn [mbind option_bind].
  by rewrite slice_get_app by lia.
Qed.

Definition prop_name (b : list Z) (os no : Z) : list Z := default [] (name_at b os no).

Lemma name_at_total b os no :
  0 <= os < 2 ^ 30 → 0 <= no < 2 ^ 30 → name_at b os no = Some (prop_name b os no).
Proof.
  intros Ho Hn. unfold prop_name. destruct (name_at b os no) as [l|] eqn:E; [done|]. exfalso. revert E.
  unfold name_at. rewrite add_fits by lia. cbn [mbind option_bind].
  destruct (Z.leb_spec (Z.of_nat (length b)) (os + no)); [done|]. unfold cstr_end.
  destruct (Z.ltb_spec (Z.of_nat (length b)) (os + no)); [lia|]. cbn [mbind option_bind]. unfold slice_get.
  pose proof (zero_at_bounds (drop (Z.to_nat (os + no)) b) (os + no)) as Hz. rewrite length_drop in Hz.
  by replace (_ && _) with true by (symmetry; apply andb_true_intro; rewrite !Z.leb_le; lia).
Qed.

Definition initrd_token (b : list Z) (os pos : Z) (t : token) (s : initrd_scan) : initrd_scan :=
  match t with
  | TProp no d =>
      if Z.of_nat (length d) =? 8 then
        if bool_decide (prop_name b os no = initrd_start_name)
        then {| w_start := pos + 12; w_end := w_end s; patched := patched s + 1 |}
        else if bool_decide (prop_name b os no = initrd_end_name)
        then {| w_start := w_start s; w_end := pos + 12; patched := patched s + 1 |}
        else s
      else s
  | _ => s
  end.

Definition memory_token (b : list Z) (os pos : Z) (t : token) (s : memory_scan) : memory_scan :=
  match t with
  | TBegin name =>
      let d := depth s + 1 in
      if negb (in_memory s) && is_memory name
      then {| in_memory := true; depth := d; memory_depth := d; at_ := at_ s |}
      else {| in_memory := in_memory s; depth := d; memory_depth := memory_depth s; at_ := at_ s |}
  | TEnd =>
      {| in_memory := if in_memory s && (depth s =? memory_depth s) then false else in_memory s;
         depth := depth s - 1; memory_depth := memory_depth s; at_ := at_ s |}
  | TProp no d =>
      if in_memory s && (Z.of_nat (length d) =? 16) && bool_decide (prop_name b os no = reg_name)
      then {| in_memory := in_memory s; depth := depth s; memory_depth := memory_depth s; at_ := pos + 12 |}
      else s
  | TNop => s
  end.

Lemma mod4_shift p n : p mod 4 = 0 → (- (p + n)) mod 4 = (- n) mod 4.
Proof.
  intros Hp. replace (- (p + n)) with (- n + (- (p / 4)) * 4).
  - by rewrite Z_mod_plus_full.
  - pose proof (Z.div_mod p 4). lia.
Qed.

(** ** One token *)

Context (pre : list Z) (os : Z) (Hos : 0 <= os < 2 ^ 30) (Hpre : Z.of_nat (length pre) mod 4 = 0).
Abbreviation pos := (Z.of_nat (length pre)).

(** The parts of a blob around the token at [pos]. *)
Lemma token_head t post :
  Z.of_nat (length (pre ++ token_bytes t ++ post)) < 2 ^ 30 →
  pos + 4 <= Z.of_nat (length (pre ++ token_bytes t ++ post))
  ∧ be32 (pre ++ token_bytes t ++ post) pos
    = Some (match t with TBegin _ => FDT_BEGIN_NODE | TEnd => FDT_END_NODE | TNop => FDT_NOP | TProp _ _ => FDT_PROP end).
Proof.
  intros Hl. rewrite !length_app in *. split.
  - destruct t; cbn [token_bytes] in *; rewrite ?length_app, ?length_be in *; lia.
  - destruct t; cbn [token_bytes]; rewrite <- ?app_assoc; (apply be32_at; [by unfold urange|lia]).
Qed.

Lemma begin_next name post :
  token_ok (TBegin name) → Z.of_nat (length (pre ++ token_bytes (TBegin name) ++ post)) < 2 ^ 30 →
  let e := pos + 4 + Z.of_nat (length name) in
  node_name (pre ++ token_bytes (TBegin name) ++ post) (pos + 4) = Some (e, name)
  ∧ cstr_end (pre ++ token_bytes (TBegin name) ++ post) (pos + 4) = Some e
  ∧ add_u usize_bits e 1 = Some (e + 1) ∧ align4 (e + 1) = Some (pos + tlen (TBegin name)).
Proof.
  intros Hn Hl e. unfold token_ok in Hn.
  assert (Hlt : tlen (TBegin name) = 4 + (Z.of_nat (length name) + 1) + (- (Z.of_nat (length name) + 1)) mod 4).
  { unfold tlen. cbn [token_bytes]. rewrite length_app, length_be, Nat2Z.inj_add, length_pad4, length_app. cbn [length].
    rewrite Nat2Z.inj_add. change (Z.of_nat 1) with 1. lia. }
  assert (Hsz : pos + tlen (TBegin name) < 2 ^ 30) by (unfold tlen; rewrite !length_app in Hl; lia).
  pose proof (Z.mod_pos_bound (- (Z.of_nat (length name) + 1)) 4).
  assert (Eb : pre ++ token_bytes (TBegin name) ++ post
    = (pre ++ be FDT_BEGIN_NODE) ++ name ++ 0 :: (replicate (Z.to_nat ((- Z.of_nat (length (name ++ [0]))) mod 4)) 0 ++ post)).
  { cbn [token_bytes]. unfold pad4. by rewrite <- !app_assoc. }
  assert (Ep : pos + 4 = Z.of_nat (length (pre ++ be FDT_BEGIN_NODE))) by (rewrite length_app, length_be; lia).
  rewrite Eb, Ep. split_and!.
  - rewrite node_name_at by done. by rewrite <- Ep.
  - rewrite cstr_end_at by done. by rewrite <- Ep.
  - apply add_fits. unfold e. lia.
  - rewrite align4_run by (unfold e; lia). f_equal.
    replace (e + 1) with (pos + 4 + (Z.of_nat (length name) + 1)) by (unfold e; lia).
    rewrite mod4_shift; [lia|]. by rewrite Z.add_mod, Hpre by lia.
Qed.

Lemma prop_next no d post :
  token_ok (TProp no d) → Z.of_nat (length (pre ++ token_bytes (TProp no d) ++ post)) < 2 ^ 30 →
  let b := pre ++ token_bytes (TProp no d) ++ post in
  be32 b (pos + 4) = Some (Z.of_nat (length d)) ∧ be32 b (pos + 8) = Some no
  ∧ add_u usize_bits (pos + 12) (Z.of_nat (length d)) = Some (pos + 12 + Z.of_nat (length d))
  ∧ align4 (pos + 12 + Z.of_nat (length d)) = Some (pos + tlen (TProp no d)).
Proof.
  intros Hn Hl b. unfold token_ok in Hn.
  assert (Hlt : tlen (TProp no d) = 12 + Z.of_nat (length d) + (- Z.of_nat (length d)) mod 4).
  { unfold tlen. cbn [token_bytes]. rewrite !length_app, !length_be, !Nat2Z.inj_add, length_pad4. lia. }
  assert (Hsz : pos + tlen (TProp no d) < 2 ^ 30) by (unfold tlen; rewrite !length_app in Hl; lia).
  pose proof (Z.mod_pos_bound (- Z.of_nat (length d)) 4).
  split_and!.
  - replace (pos + 4) with (Z.of_nat (length (pre ++ be FDT_PROP))) by (rewrite length_app, length_be; lia).
    unfold b. cbn [token_bytes]. rewrite <- !app_assoc, (app_assoc pre).
    apply be32_at; [unfold urange; lia|]. rewrite length_app, length_be. lia.
  - replace (pos + 8) with (Z.of_nat (length (pre ++ be FDT_PROP ++ be (Z.of_nat (length d)))))
      by (rewrite !length_app, !length_be; lia).
    unfold b. cbn [token_bytes]. rewrite <- !app_assoc.
    replace (pre ++ be FDT_PROP ++ be (Z.of_nat (length d)) ++ be no ++ pad4 d ++ post)
      with ((pre ++ be FDT_PROP ++ be (Z.of_nat (length d))) ++ be no ++ (pad4 d ++ post)) by (by rewrite <- !app_assoc).
    apply be32_at; [unfold urange; lia|]. rewrite !length_app, !length_be. lia.
  - apply add_fits. lia.
  - rewrite align4_run by lia. f_equal. replace (pos + 12 + Z.of_nat (length d)) with (pos + (12 + Z.of_nat (length d))) by lia.
    rewrite mod4_shift by done. rewrite (mod4_shift 12) by done. lia.
Qed.

Lemma initrd_step t post fuel s :
  token_ok t → let b := pre ++ token_bytes t ++ post in Z.of_nat (length b) < 2 ^ 30 →
  initrd_loop (S fuel) b os pos s = initrd_loop fuel b os (pos + tlen t) (initrd_token b os pos t s).
Proof.
  intros Ht' b Hl. destruct (token_head t post Hl) as [Hin Htok]. fold b in Hin, Htok.
  cbn [initrd_loop]. rewrite add_fits by lia. cbn [mbind option_bind].
  destruct (Z.ltb_spec (Z.of_nat (length b)) (pos + 4)); [lia|]. rewrite Htok. cbn [mbind option_bind].
  destruct t as [name| | |no d]; cbv [FDT_BEGIN_NODE FDT_END_NODE FDT_NOP FDT_PROP]; cbn [Z.eqb Pos.eqb orb].
  - destruct (begin_next name post Ht' Hl) as (_ & Ec & Ea & El). fold b in Ec.
    rewrite Ec. cbn [mbind option_bind]. rewrite Ea. cbn [mbind option_bind]. by rewrite El.
  - unfold tlen. cbn [token_bytes initrd_token]. by rewrite length_be.
  - unfold tlen. cbn [token_bytes initrd_token]. by rewrite length_be.
  - destruct (prop_next no d post Ht' Hl) as (E4 & E8 & Ea & El). fold b in E4, E8. unfold read_prop.
    rewrite !(add_fits pos) by lia. cbn [mbind option_bind]. rewrite E4. cbn [mbind option_bind]. rewrite E8. cbn [mbind option_bind].
    rewrite name_at_total by (cbn in Ht'; lia). cbn [mbind option_bind]. rewrite Ea. cbn [mbind option_bind]. by rewrite El.
Qed.

Lemma memory_step t post fuel s :
  token_ok t → let b := pre ++ token_bytes t ++ post in Z.of_nat (length b) < 2 ^ 30 →
  - 2 ^ 30 < depth s < 2 ^ 30 →
  memory_loop (S fuel) b os pos s = memory_loop fuel b os (pos + tlen t) (memory_token b os pos t s).
Proof.
  intros Ht' b Hl Hd. destruct (token_head t post Hl) as [Hin Htok]. fold b in Hin, Htok.
  assert (Hi : ∀ k, -1 <= k <= 1 → add_i32 (depth s) k = Some (depth s + k)).
  { intros k Hk. unfold add_i32. cbv zeta.
    by replace (_ && _) with true by (symmetry; apply andb_true_intro; rewrite Z.leb_le, Z.ltb_lt; lia). }
  cbn [memory_loop]. rewrite !(add_fits pos) by lia. cbn [mbind option_bind].
  destruct (Z.ltb_spec (Z.of_nat (length b)) (pos + 4)); [lia|]. rewrite Htok. cbn [mbind option_bind].
  destruct t as [name| | |no d]; cbv [FDT_BEGIN_NODE FDT_END_NODE FDT_NOP FDT_PROP]; cbn [Z.eqb Pos.eqb].
  - destruct (begin_next name post Ht' Hl) as (Ec & _ & Ea & El). fold b in Ec.
    rewrite Ec. cbn [mbind option_bind]. rewrite Hi by lia. cbn [mbind option_bind]. rewrite Ea. cbn [mbind option_bind]. by rewrite El.
  - rewrite Hi by lia. unfold tlen. cbn [mbind option_bind token_bytes memory_token]. by rewrite length_be.
  - unfold tlen. cbn [token_bytes memory_token]. by rewrite length_be.
  - destruct (prop_next no d post Ht' Hl) as (E4 & E8 & Ea & El). fold b in E4, E8.
    rewrite E4. cbn [mbind option_bind]. rewrite E8. cbn [mbind option_bind memory_token].
    destruct (in_memory s && _) eqn:Em; cbn [mbind option_bind andb].
    + rewrite name_at_total by (cbn in Ht'; lia). cbn [mbind option_bind]. rewrite Ea. cbn [mbind option_bind]. by rewrite El.
    + rewrite Ea. cbn [mbind option_bind]. by rewrite El.
Qed.
End Scan.

(** ** Whole blobs *)

Lemma zero_at_from l : ∀ s, zero_at l s = s + zero_at l 0.
Proof.
  induction l as [|c l IH]; intros s; cbn [zero_at]; [lia|]. destruct (_ =? _); [lia|].
  rewrite (IH (s + 1)), (IH (0 + 1)). lia.
Qed.

(** The zero-terminated name at an offset of the strings block. *)
Definition name_in (strings : list Z) (no : Z) : list Z :=
  let l := drop (Z.to_nat no) strings in take (Z.to_nat (zero_at l 0)) l.

Lemma tlen_mod4 t : tlen t mod 4 = 0.
Proof.
  assert (Hp : ∀ l, Z.of_nat (length (pad4 l)) mod 4 = 0).
  { intros l. rewrite length_pad4. rewrite Zplus_mod_idemp_r. by replace (_ + - _) with 0 by lia. }
  assert (H4 : ∀ k n, n mod 4 = 0 → (4 * k + n) mod 4 = 0).
  { intros k n Hn. rewrite Z.add_comm, Z.mul_comm, Z_mod_plus_full. done. }
  unfold tlen. destruct t; cbn [token_bytes]; rewrite ?length_app, ?length_be, ?Nat2Z.inj_add; try done.
  - apply (H4 1), Hp.
  - replace (_ + _) with (4 * 3 + Z.of_nat (length (pad4 data))) by lia. apply H4, Hp.
Qed.

Section Blob.
Context {PR : Profile} {T : Target} {Ht : TargetOk T}.

Fixpoint initrd_tokens (b : list Z) (os pos : Z) (ts : list token) (s : initrd_scan) : initrd_scan :=
  match ts with
  | [] => s
  | t :: ts => initrd_tokens b os (pos + tlen t) ts (initrd_token b os pos t s)
  end.
Fixpoint memory_tokens (b : list Z) (os pos : Z) (ts : list token) (s : memory_scan) : memory_scan :=
  match ts with
  | [] => s
  | t :: ts => memory_tokens b os (pos + tlen t) ts (memory_token b os pos t s)
  end.

Lemma end_token_at pre post :
  Z.of_nat (length (pre ++ be FDT_END ++ post)) < 2 ^ 30 →
  Z.of_nat (length pre) + 4 <= Z.of_nat (length (pre ++ be FDT_END ++ post))
  ∧ be32 (pre ++ be FDT_END ++ post) (Z.of_nat (length pre)) = Some FDT_END.
Proof.
  intros Hl. rewrite !length_app, length_be in *. split; [lia|]. apply be32_at; [by unfold urange|lia].
Qed.

Lemma mod4_next pre t : Z.of_nat (length pre) mod 4 = 0 → Z.of_nat (length (pre ++ token_bytes t)) mod 4 = 0.
Proof.
  intros Hp. rewrite length_app, Nat2Z.inj_add. fold (tlen t). by rewrite Z.add_mod, Hp, tlen_mod4 by lia.
Qed.

Lemma initrd_run os ts : ∀ pre post fuel s,
  0 <= os < 2 ^ 30 → Z.of_nat (length pre) mod 4 = 0 → Forall token_ok ts → (length ts < fuel)%nat →
  let b := pre ++ struct_bytes ts ++ be FDT_END ++ post in
  Z.of_nat (length b) < 2 ^ 30 →
  initrd_loop fuel b os (Z.of_nat (length pre)) s
  = Some (Some (Some (initrd_tokens b os (Z.of_nat (length pre)) ts s))).
Proof.
  induction ts as [|t ts IH]; intros pre post fuel s Hos Hp Hok Hf b Hl.
  - destruct fuel as [|fuel]; [cbn in Hf; lia|]. destruct (end_token_at pre post Hl) as [Hin Htok].
    change (pre ++ be FDT_END ++ post) with b in Hin, Htok. cbn [initrd_loop initrd_tokens].
    rewrite add_fits by lia. cbn [mbind option_bind].
    destruct (Z.ltb_spec (Z.of_nat (length b)) (Z.of_nat (length pre) + 4)); [lia|]. by rewrite Htok.
  - destruct fuel as [|fuel]; [cbn in Hf; lia|]. apply Forall_cons in Hok as [Ht' Hok].
    assert (Eb : b = pre ++ token_bytes t ++ (struct_bytes ts ++ be FDT_END ++ post)).
    { unfold b, struct_bytes. cbn. by rewrite <- !app_assoc. }
    rewrite Eb in Hl |- *. rewrite initrd_step by done. cbn [initrd_tokens].
    replace (Z.of_nat (length pre) + tlen t) with (Z.of_nat (length (pre ++ token_bytes t)))
      by (rewrite length_app; unfold tlen; lia).
    rewrite app_assoc in Hl |- *. apply IH; [done|by apply mod4_next|done|cbn in Hf; lia|done].
Qed.

(** The depth stays within the number of tokens. *)
Lemma memory_run os ts : ∀ pre post fuel s,
  0 <= os < 2 ^ 30 → Z.of_nat (length pre) mod 4 = 0 → Forall token_ok ts → (length ts < fuel)%nat →
  - 2 ^ 29 + Z.of_nat (length ts) < depth s < 2 ^ 29 - Z.of_nat (length ts) →
  let b := pre ++ struct_bytes ts ++ be FDT_END ++ post in
  Z.of_nat (length b) < 2 ^ 30 →
  memory_loop fuel b os (Z.of_nat (length pre)) s
  = Some (Some (Some (memory_tokens b os (Z.of_nat (length pre)) ts s))).
Proof.
  induction ts as [|t ts IH]; intros pre post fuel s Hos Hp Hok Hf Hd b Hl.
  - destruct fuel as [|fuel]; [cbn in Hf; lia|]. destruct (end_token_at pre post Hl) as [Hin Htok].
    change (pre ++ be FDT_END ++ post) with b in Hin, Htok. cbn [memory_loop memory_tokens].
    rewrite !(add_fits (Z.of_nat (length pre))) by lia. cbn [mbind option_bind].
    destruct (Z.ltb_spec (Z.of_nat (length b)) (Z.of_nat (length pre) + 4)); [lia|]. by rewrite Htok.
  - destruct fuel as [|fuel]; [cbn in Hf; lia|]. apply Forall_cons in Hok as [Ht' Hok]. cbn [length] in Hd.
    assert (Eb : b = pre ++ token_bytes t ++ (struct_bytes ts ++ be FDT_END ++ post)).
    { unfold b, struct_bytes. cbn. by rewrite <- !app_assoc. }
    rewrite Eb in Hl |- *. rewrite memory_step by (done || lia). cbn [memory_tokens].
    replace (Z.of_nat (length pre) + tlen t) with (Z.of_nat (length (pre ++ token_bytes t)))
      by (rewrite length_app; unfold tlen; lia).
    rewrite app_assoc in Hl |- *. apply IH; [done|by apply mod4_next|done|cbn in Hf; lia| |done].
    destruct t; cbn [memory_token]; [destruct (negb _ && _)| | |destruct (_ && _)]; cbn [depth]; lia.
Qed.

Lemma be32_word ws post i v :
  ws !! i = Some v → urange 32 v → Z.of_nat (length ws) < 2 ^ 28 →
  be32 (concat (be <$> ws) ++ post) (4 * Z.of_nat i) = Some v.
Proof.
  intros E Hv Hl. pose proof (lookup_lt_Some _ _ _ E) as Hi.
  assert (Hc : ∀ l, length (concat (be <$> l)) = (4 * length l)%nat).
  { induction l as [|x l IH]; [done|]. cbn [fmap list_fmap concat length]. rewrite length_app, length_be, IH. lia. }
  rewrite <- (take_drop_middle _ _ _ E), fmap_app, concat_app. cbn [fmap list_fmap concat].
  rewrite <- !app_assoc.
  replace (4 * Z.of_nat i) with (Z.of_nat (length (concat (be <$> take i ws)))) by (rewrite Hc, length_take; lia).
  apply be32_at; [done|]. rewrite Hc, length_take. lia.
Qed.

Lemma length_header a c : length (header a c) = 40%nat.
Proof. reflexivity. Qed.

Context (strings : list Z).

Lemma blob_size ts :
  Z.of_nat (length (blob ts strings))
  = 44 + Z.of_nat (length (struct_bytes ts)) + Z.of_nat (length strings).
Proof. unfold blob. cbv zeta. rewrite !length_app, length_header, length_be. lia. Qed.

(** Where the strings of a blob start. *)
Definition strings_off (ts : list token) : Z := 44 + Z.of_nat (length (struct_bytes ts)).

Lemma open_blob ts :
  Z.of_nat (length (blob ts strings)) < 2 ^ 30 →
  open_tree (blob ts strings) = Some (Some (40, strings_off ts)).
Proof.
  intros Hl. pose proof (blob_size ts) as Hs.
  assert (Hst : length (struct_bytes ts ++ be FDT_END) = (length (struct_bytes ts) + 4)%nat)
    by (rewrite length_app, length_be; done).
  unfold open_tree. cbv zeta. destruct (Z.ltb_spec (Z.of_nat (length (blob ts strings))) 40); [lia|].
  assert (Hw : ∀ i v, [FDT_MAGIC; 40 + Z.of_nat (length (struct_bytes ts) + 4) + Z.of_nat (length strings); 40;
      40 + Z.of_nat (length (struct_bytes ts) + 4); 40; 17; 16; 0; Z.of_nat (length strings);
      Z.of_nat (length (struct_bytes ts) + 4)] !! i = Some v → urange 32 v →
    be32 (blob ts strings) (4 * Z.of_nat i) = Some v).
  { intros i v Hi Hv. unfold blob, header. cbv zeta. rewrite Hst. by apply be32_word. }
  pose proof (Hw 0%nat _ eq_refl ltac:(by unfold urange)) as W0. change (4 * Z.of_nat 0) with 0 in W0.
  pose proof (Hw 2%nat _ eq_refl ltac:(by unfold urange)) as W2. change (4 * Z.of_nat 2) with 8 in W2.
  pose proof (Hw 3%nat _ eq_refl ltac:(unfold urange; lia)) as W3. change (4 * Z.of_nat 3) with 12 in W3.
  pose proof (Hw 8%nat _ eq_refl ltac:(unfold urange; lia)) as W8. change (4 * Z.of_nat 8) with 32 in W8.
  rewrite W0. cbn [mbind option_bind]. change (negb (FDT_MAGIC =? FDT_MAGIC)) with false. cbv iota.
  rewrite W2. cbn [mbind option_bind]. rewrite W3. cbn [mbind option_bind]. rewrite W8. cbn [mbind option_bind].
  destruct (Z.leb_spec (Z.of_nat (length (blob ts strings))) 40); [lia|].
  rewrite add_fits by lia. cbn [mbind option_bind].
  destruct (Z.ltb_spec (Z.of_nat (length (blob ts strings)))
    (40 + Z.of_nat (length (struct_bytes ts) + 4) + Z.of_nat (length strings))); [lia|].
  do 3 f_equal. unfold strings_off. lia.
Qed.

Lemma blob_split ts :
  blob ts strings = header (length (struct_bytes ts ++ be FDT_END)) (length strings)
                    ++ struct_bytes ts ++ be FDT_END ++ strings.
Proof. unfold blob. cbv zeta. by rewrite <- app_assoc. Qed.

Lemma blob_name ts no :
  Z.of_nat (length (blob ts strings)) < 2 ^ 30 → 0 <= no < 2 ^ 30 →
  prop_name (blob ts strings) (strings_off ts) no = name_in strings no.
Proof.
  intros Hl Hno. pose proof (blob_size ts) as Hs. unfold prop_name, name_at.
  assert (Hos : strings_off ts = 44 + Z.of_nat (length (struct_bytes ts))) by done.
  rewrite add_fits by lia. cbn [mbind option_bind].
  assert (Hd : drop (Z.to_nat (strings_off ts + no)) (blob ts strings) = drop (Z.to_nat no) strings).
  { rewrite blob_split, !app_assoc. rewrite drop_app_ge; [f_equal|];
      rewrite !length_app, length_header, length_be; lia. }
  unfold name_in. destruct (Z.leb_spec (Z.of_nat (length (blob ts strings))) (strings_off ts + no)).
  - rewrite (drop_ge strings) by lia. done.
  - unfold cstr_end. destruct (Z.ltb_spec (Z.of_nat (length (blob ts strings))) (strings_off ts + no)); [lia|].
    cbn [mbind option_bind]. rewrite Hd, zero_at_from. unfold slice_get.
    pose proof (zero_at_bounds (drop (Z.to_nat no) strings) 0) as Hz. rewrite length_drop in Hz.
    replace (_ && _) with true by (symmetry; apply andb_true_intro; rewrite !Z.leb_le; lia).
    cbn [default]. rewrite Hd. unfold id. f_equal. lia.
Qed.

(** Overwriting the data of a property. *)
Lemma blob_overwrite ts1 ts2 no d v :
  length v = length d →
  splice (blob (ts1 ++ TProp no d :: ts2) strings) (40 + Z.of_nat (length (struct_bytes ts1)) + 12) v
  = blob (ts1 ++ TProp no v :: ts2) strings.
Proof.
  intros Hv.
  assert (Hl : ∀ x, length (struct_bytes (ts1 ++ TProp no x :: ts2) ++ be FDT_END)
    = (length (struct_bytes ts1) + (4 + (4 + (4 + length (pad4 x)))) + length (struct_bytes ts2) + 4)%nat).
  { intros x. unfold struct_bytes. rewrite fmap_app, concat_app. cbn [fmap list_fmap concat token_bytes].
    rewrite !length_app, !length_be. lia. }
  assert (Hpad : length (pad4 v) = length (pad4 d)) by (unfold pad4; rewrite !length_app, Hv; done).
  assert (Hb : ∀ x, blob (ts1 ++ TProp no x :: ts2) strings
    = (header (length (struct_bytes (ts1 ++ TProp no x :: ts2) ++ be FDT_END)) (length strings)
       ++ struct_bytes ts1 ++ be FDT_PROP ++ be (Z.of_nat (length x)) ++ be no)
      ++ x ++ (replicate (Z.to_nat ((- Z.of_nat (length x)) mod 4)) 0 ++ struct_bytes ts2 ++ be FDT_END ++ strings)).
  { intros x. rewrite blob_split. unfold struct_bytes at 2. rewrite fmap_app, concat_app.
    cbn [fmap list_fmap concat token_bytes]. unfold pad4. fold (struct_bytes ts1). fold (struct_bytes ts2).
    by rewrite <- !app_assoc. }
  rewrite !Hb, !Hl, Hpad, Hv.
  set (pre := _ ++ struct_bytes ts1 ++ _).
  assert (Hp : Z.to_nat (40 + Z.of_nat (length (struct_bytes ts1)) + 12) = length pre).
  { unfold pre. rewrite !length_app, length_header, !length_be. lia. }
  unfold splice. rewrite Hp, take_app_length, drop_app_ge by lia.
  rewrite drop_app_ge by lia. replace (_ - _ - _)%nat with 0%nat by lia. by rewrite drop_0.
Qed.

Lemma write_be_run b a v :
  0 <= a → a + 8 <= Z.of_nat (length b) → Z.of_nat (length b) < 2 ^ 30 →
  write_be b a v = Some (splice b a (to_be_bytes 8 v)).
Proof.
  intros Ha Hl Hb. unfold write_be. rewrite add_fits by lia. cbn [mbind option_bind]. unfold slice_get.
  by replace (_ && _) with true by (symmetry; apply andb_true_intro; rewrite !Z.leb_le; lia).
Qed.
End Blob.

(** ** What the scans find *)

Lemma struct_app ts us : struct_bytes (ts ++ us) = struct_bytes ts ++ struct_bytes us.
Proof. unfold struct_bytes. by rewrite fmap_app, concat_app. Qed.

Lemma length_struct_prop no d us :
  Z.of_nat (length (struct_bytes (TProp no d :: us))) = tlen (TProp no d) + Z.of_nat (length (struct_bytes us)).
Proof. unfold struct_bytes. cbn [fmap list_fmap concat]. rewrite length_app. unfold tlen. lia. Qed.

Lemma tlen_prop no d : 12 + Z.of_nat (length d) <= tlen (TProp no d).
Proof.
  unfold tlen. cbn [token_bytes]. rewrite !length_app, !length_be.
  pose proof (length_pad4 d). pose proof (Z.mod_pos_bound (- Z.of_nat (length d)) 4). lia.
Qed.

Lemma tlen_same no d v : length v = length d → tlen (TProp no v) = tlen (TProp no d).
Proof. intros Hv. unfold tlen. cbn [token_bytes]. unfold pad4. by rewrite !length_app, !length_be, Hv. Qed.

Lemma length_be8 v : length (to_be_bytes 8 v) = 8%nat.
Proof. unfold to_be_bytes. by rewrite length_rev, length_to_le_bytes. Qed.

(** The token is not a property that [patch_initrd] looks for. *)
Definition not_initrd (strings : list Z) (t : token) : Prop :=
  match t with
  | TProp no d => length d = 8%nat → name_in strings no ≠ initrd_start_name ∧ name_in strings no ≠ initrd_end_name
  | _ => True
  end.

(** The token does not belong to a memory node, or is not its bank. *)
Definition not_memory (t : token) : Prop :=
  match t with TBegin name => is_memory name = false | _ => True end.
Definition not_bank (strings : list Z) (t : token) : Prop :=
  match t with
  | TNop => True
  | TProp no d => length d = 16%nat → name_in strings no ≠ reg_name
  | _ => False
  end.

Section Found.
Context {PR : Profile} {T : Target} {Ht : TargetOk T} (strings : list Z) (ts : list token).
Abbreviation b := (blob ts strings).
Abbreviation os := (strings_off ts).
Context (Hl : Z.of_nat (length b) < 2 ^ 30).

Lemma initrd_tokens_app us vs : ∀ pos s,
  initrd_tokens b os pos (us ++ vs) s
  = initrd_tokens b os (pos + Z.of_nat (length (struct_bytes us))) vs (initrd_tokens b os pos us s).
Proof.
  induction us as [|u us IH]; intros pos s; cbn [initrd_tokens app]; [by rewrite Z.add_0_r|].
  rewrite IH. f_equal. unfold struct_bytes. cbn [fmap list_fmap concat]. rewrite length_app. unfold tlen. lia.
Qed.

Lemma memory_tokens_app us vs : ∀ pos s,
  memory_tokens b os pos (us ++ vs) s
  = memory_tokens b os (pos + Z.of_nat (length (struct_bytes us))) vs (memory_tokens b os pos us s).
Proof.
  induction us as [|u us IH]; intros pos s; cbn [memory_tokens app]; [by rewrite Z.add_0_r|].
  rewrite IH. f_equal. unfold struct_bytes. cbn [fmap list_fmap concat]. rewrite length_app. unfold tlen. lia.
Qed.

Lemma initrd_quiet us : ∀ pos s,
  Forall token_ok us → Forall (not_initrd strings) us → initrd_tokens b os pos us s = s.
Proof.
  induction us as [|u us IH]; intros pos s Hok Hn; cbn [initrd_tokens]; [done|].
  apply Forall_cons in Hok as [Hu Hok]. apply Forall_cons in Hn as [Hn1 Hn]. rewrite IH by done.
  destruct u as [| | |no d]; cbn [initrd_token]; try done. destruct (Z.eqb_spec (Z.of_nat (length d)) 8) as [E|]; [|done].
  rewrite blob_name by done. destruct Hn1 as [Hs He]; [lia|]. by rewrite !bool_decide_false.
Qed.

(** Outside a memory node nothing is recorded, and the scan stays outside. *)
Lemma memory_outside us : ∀ pos s,
  Forall not_memory us → in_memory s = false →
  let s' := memory_tokens b os pos us s in in_memory s' = false ∧ at_ s' = at_ s.
Proof.
  induction us as [|u us IH]; intros pos s Hn Hs; [done|]. apply Forall_cons in Hn as [Hu Hn].
  cbn [memory_tokens]. cbv zeta.
  assert (Hstep : in_memory (memory_token b os pos u s) = false ∧ at_ (memory_token b os pos u s) = at_ s).
  { destruct u; cbn [memory_token]; rewrite ?Hs; cbn [andb negb]; try done.
    unfold not_memory in Hu. by rewrite Hu. }
  destruct Hstep as [H1 H2]. destruct (IH (pos + tlen u) (memory_token b os pos u s) Hn H1) as [H3 H4].
  split; [exact H3|]. by rewrite H4.
Qed.

(** Inside one, between its banks, nothing changes. *)
Lemma memory_inside us : ∀ pos s,
  Forall token_ok us → Forall (not_bank strings) us → memory_tokens b os pos us s = s.
Proof.
  induction us as [|u us IH]; intros pos s Hok Hn; cbn [memory_tokens]; [done|].
  apply Forall_cons in Hok as [Hu Hok]. apply Forall_cons in Hn as [Hn1 Hn]. rewrite IH by done.
  destruct u as [| | |no d]; cbn [memory_token]; try done. destruct (in_memory s); [|done]. cbn [andb].
  destruct (Z.eqb_spec (Z.of_nat (length d)) 16) as [E|]; [|done].
  rewrite blob_name by done. by rewrite bool_decide_false by (apply Hn1; lia).
Qed.
End Found.

(** ** Overwriting *)

Section Overwrite.
Context {PR : Profile} {T : Target} {Ht : TargetOk T} (strings : list Z).

(** The offset of the data of the property after [ts1]. *)
Definition data_off (ts1 : list token) : Z := 40 + Z.of_nat (length (struct_bytes ts1)) + 12.

Lemma data_off_inside ts1 no d ts2 :
  data_off ts1 + Z.of_nat (length d) <= Z.of_nat (length (blob (ts1 ++ TProp no d :: ts2) strings)).
Proof.
  rewrite blob_size, struct_app, length_app, Nat2Z.inj_add, length_struct_prop. pose proof (tlen_prop no d).
  unfold data_off. lia.
Qed.

Lemma data_off_nonzero ts1 : (data_off ts1 =? 0) = false.
Proof. apply Z.eqb_neq. unfold data_off. lia. Qed.

Lemma overwrite_size ts1 no d v ts2 :
  length v = length d →
  length (struct_bytes (ts1 ++ TProp no v :: ts2)) = length (struct_bytes (ts1 ++ TProp no d :: ts2)).
Proof.
  intros Hv. apply Nat2Z.inj. rewrite !struct_app, !length_app, !Nat2Z.inj_add, !length_struct_prop.
  by rewrite (tlen_same no d v).
Qed.

Lemma blob_same_size ts us :
  length (struct_bytes ts) = length (struct_bytes us) → length (blob ts strings) = length (blob us strings).
Proof. intros E. apply Nat2Z.inj. by rewrite !blob_size, E. Qed.

(** Writing eight bytes into a property, [skip] bytes in. *)
Lemma blob_write ts1 ts2 no l d r v :
  length d = 8%nat → Z.of_nat (length (blob (ts1 ++ TProp no (l ++ d ++ r) :: ts2) strings)) < 2 ^ 30 →
  write_be (blob (ts1 ++ TProp no (l ++ d ++ r) :: ts2) strings) (data_off ts1 + Z.of_nat (length l)) v
  = Some (blob (ts1 ++ TProp no (l ++ to_be_bytes 8 v ++ r) :: ts2) strings).
Proof.
  intros Hd Hl. pose proof (data_off_inside ts1 no (l ++ d ++ r) ts2) as Hin. rewrite !length_app in Hin.
  assert (H0 : 0 <= data_off ts1) by (unfold data_off; lia).
  rewrite write_be_run by lia. f_equal.
  rewrite <- (blob_overwrite strings ts1 ts2 no (l ++ d ++ r) (l ++ to_be_bytes 8 v ++ r)) by (by rewrite !length_app, length_be8, Hd).
  fold (data_off ts1). set (B := blob _ strings) in *.
  assert (HB : ∀ i x, (l ++ d ++ r) !! i = Some x → B !! (Z.to_nat (data_off ts1) + i)%nat = Some x).
  { intros i x Hi. unfold B. rewrite <- (blob_overwrite strings ts1 ts2 no (l ++ d ++ r) (l ++ d ++ r)) by done.
    fold (data_off ts1) B. rewrite lookup_splice by (rewrite !length_app; lia).
    pose proof (lookup_lt_Some _ _ _ Hi). rewrite decide_True by lia. by replace (_ + _ - _)%nat with i by lia. }
  apply list_eq. intros i. rewrite !lookup_splice by (rewrite ?length_app, ?length_be8; lia).
  rewrite !length_app, length_be8.
  destruct (decide (Z.to_nat (data_off ts1) <= i < Z.to_nat (data_off ts1) + (length l + (8 + length r)))%nat) as [Hi|Hi].
  2:{ rewrite decide_False by lia. done. }
  destruct (decide (Z.to_nat (data_off ts1 + Z.of_nat (length l)) <= i < Z.to_nat (data_off ts1 + Z.of_nat (length l)) + 8)%nat).
  - rewrite lookup_app_r, lookup_app_l by (rewrite ?length_be8; lia). f_equal. lia.
  - destruct ((l ++ to_be_bytes 8 v ++ r) !! (i - Z.to_nat (data_off ts1))%nat) as [x|] eqn:E.
    2:{ apply lookup_ge_None in E. rewrite !length_app, length_be8 in E. lia. }
    assert (E' : (l ++ d ++ r) !! (i - Z.to_nat (data_off ts1))%nat = Some x).
    { destruct (decide (i - Z.to_nat (data_off ts1) < length l)%nat).
      - rewrite lookup_app_l in E |- * by lia. done.
      - rewrite !lookup_app_r in E |- * by (rewrite ?length_be8; lia). rewrite length_be8 in E. by rewrite Hd. }
    apply HB in E'. by replace (Z.to_nat (data_off ts1) + (i - Z.to_nat (data_off ts1)))%nat with i in E' by lia.
Qed.

Lemma write_if_prop ts1 ts2 no d v :
  length d = 8%nat → Z.of_nat (length (blob (ts1 ++ TProp no d :: ts2) strings)) < 2 ^ 30 →
  write_if (blob (ts1 ++ TProp no d :: ts2) strings) (data_off ts1) v
  = Some (blob (ts1 ++ TProp no (to_be_bytes 8 v) :: ts2) strings).
Proof.
  intros Hd Hl. unfold write_if. rewrite data_off_nonzero.
  pose proof (blob_write ts1 ts2 no [] d [] v Hd) as Hw. cbn [app length] in Hw. rewrite !app_nil_r, Z.add_0_r in Hw.
  by apply Hw.
Qed.
End Overwrite.

(** * Properties *)

(** C36: the devicetree scans end.  On a 64-bit host, for every blob of bytes of a
    realistic size, well formed or not, both patch functions return or panic on
    an index out of range: each turn of their loops moves forward by a token, so
    one turn per byte is more than enough. *)
Theorem fdt_scan_terminates (PR : Profile) b x y :
  Forall is_byte b → Z.of_nat (length b) < 2 ^ 62 →
  @patch_initrd PR Native64 (S (length b)) b x y ≠ Some None
  ∧ @patch_memory PR Native64 (S (length b)) b x y ≠ Some None.
Proof.
  intros Hb Hl. split.
  - unfold patch_initrd. destruct (open_tree b) as [[[o s]|]|] eqn:E; [|done..]. cbn [mbind option_bind].
    apply open_tree_inside in E; [|done..]. intros E1.
    destruct (initrd_loop _ b s o _) as [r|] eqn:El; [|done]. cbn [mbind option_bind] in E1.
    destruct r as [[sc|]|]; [|done|].
    + destruct (write_if b _ _) as [b1|]; [|done]. cbn [mbind option_bind] in E1.
      by destruct (write_if b1 _ _).
    + revert El. apply initrd_loop_ends; [done..|]. unfold enough. lia.
  - unfold patch_memory. destruct (open_tree b) as [[[o s]|]|] eqn:E; [|done..]. cbn [mbind option_bind].
    apply open_tree_inside in E; [|done..]. intros E1.
    destruct (memory_loop _ b s o _) as [r|] eqn:El; [|done]. cbn [mbind option_bind] in E1.
    destruct r as [[sc|]|]; [|done|].
    + destruct (_ =? 0); [done|]. destruct (write_be b _ _) as [b1|]; [|done]. cbn [mbind option_bind] in E1.
      destruct (add_u _ _ _); [|done]. cbn [mbind option_bind] in E1. by destruct (write_be b1 _ _).
    + revert El. apply memory_loop_ends; [done..|]. unfold enough. lia.
Qed.

Lemma fdt_scan_terminates_witness :
  @patch_memory Release Native64 65 (replicate 64 0xAA) 1 2 ≠ Some None.
Proof.
  apply (fdt_scan_terminates Release (replicate 64 0xAA) 1 2).
  - by apply Forall_replicate.
  - done.
Defined.

(** C39: on a 32-bit host a crafted blob hangs the machine before it boots.  A
    property whose length field is [2^32 - 12] sends the release build's scan
    back to that very property, so [patch_memory], which [Machine::new] calls
    first, never returns: no number of turns is enough. *)
Theorem fdt_scan_hangs_wasm fuel :
  let b := header 16 0 ++ be FDT_PROP ++ be (2 ^ 32 - 12) ++ be 0 ++ be FDT_END in
  @patch_memory Release Wasm32 fuel b 0x80000000 (2 ^ 29) = Some None.
Proof.
  intros b. unfold patch_memory.
  assert (E : @open_tree Release Wasm32 b = Some (Some (40, 56))) by (vm_compute; reflexivity).
  assert (W0 : @be32 Release Wasm32 b 40 = Some FDT_PROP) by (vm_compute; reflexivity).
  assert (W4 : @be32 Release Wasm32 b 44 = Some (2 ^ 32 - 12)) by (vm_compute; reflexivity).
  assert (W8 : @be32 Release Wasm32 b 48 = Some 0) by (vm_compute; reflexivity).
  rewrite E. cbn [mbind option_bind].
  assert (El : @memory_loop Release Wasm32 fuel b 56 40
    {| in_memory := false; depth := 0; memory_depth := -1; at_ := 0 |} = Some None).
  { induction fuel as [|fuel IH]; [done|]. cbn [memory_loop]. etransitivity; [|exact IH].
    change (@add_u Release (@usize_bits Wasm32) 40 4) with (Some 44). cbn [mbind option_bind].
    change (Z.of_nat (length b) <? 44) with false. cbv iota.
    rewrite W0. cbn [mbind option_bind]. change (FDT_PROP =? FDT_BEGIN_NODE) with false.
    change (FDT_PROP =? FDT_END_NODE) with false. change (FDT_PROP =? FDT_NOP) with false.
    change (FDT_PROP =? FDT_PROP) with true. cbv iota. rewrite W4. cbn [mbind option_bind].
    change (@add_u Release (@usize_bits Wasm32) 40 8) with (Some 48). cbn [mbind option_bind].
    rewrite W8. cbn [mbind option_bind].
    change (@add_u Release (@usize_bits Wasm32) 40 12) with (Some 52). cbn [mbind option_bind andb in_memory].
    change (@add_u Release (@usize_bits Wasm32) 52 (2 ^ 32 - 12)) with (Some 40). cbn [mbind option_bind].
    change (@align4 Release Wasm32 40) with (Some 40). reflexivity. }
  by rewrite El.
Qed.


Lemma initrd_found {PR : Profile} {T : Target} {Ht : TargetOk T} strings ts1 ts2 ts3 n1 n2 d1 d2 :
  let ts := ts1 ++ TProp n1 d1 :: ts2 ++ TProp n2 d2 :: ts3 in
  Forall token_ok ts → Forall (not_initrd strings) (ts1 ++ ts2 ++ ts3) →
  length d1 = 8%nat → name_in strings n1 = initrd_start_name →
  length d2 = 8%nat → name_in strings n2 = initrd_end_name →
  Z.of_nat (length (blob ts strings)) < 2 ^ 30 →
  initrd_tokens (blob ts strings) (strings_off ts) 40 ts {| w_start := 0; w_end := 0; patched := 0 |}
  = {| w_start := data_off ts1; w_end := data_off (ts1 ++ TProp n1 d1 :: ts2); patched := 2 |}.
Proof.
  intros ts Hok Hq Hd1 Hn1 Hd2 Hn2 Hl.
  apply Forall_app in Hq as [Hq1 Hq]. apply Forall_app in Hq as [Hq2 Hq3].
  pose proof Hok as Hok'. unfold ts in Hok'. apply Forall_app in Hok' as [Ho1 Hok'].
  apply Forall_cons in Hok' as [Hp1 Hok']. apply Forall_app in Hok' as [Ho2 Hok'].
  apply Forall_cons in Hok' as [Hp2 Ho3]. unfold ts at 3.
  rewrite initrd_tokens_app, (initrd_quiet _ _ Hl ts1) by done. cbn [initrd_tokens].
  rewrite initrd_tokens_app, (initrd_quiet _ _ Hl ts2) by done. cbn [initrd_tokens].
  rewrite initrd_quiet by done. cbn [initrd_token]. rewrite !blob_name by done. rewrite Hd1, Hd2, Hn1, Hn2.
  cbn. unfold data_off. f_equal. rewrite struct_app, length_app, Nat2Z.inj_add, length_struct_prop. lia.
Qed.

(** The initrd patch changes the two addresses and nothing else.  For a tree
    with one 8-byte [linux,initrd-start] property and, after it, one 8-byte
    [linux,initrd-end] property, anywhere among the nodes and under whatever
    offsets its strings block gives the names, [patch_initrd] succeeds and
    leaves the serialisation of the same tree with exactly those two values
    replaced. *)
Theorem patch_initrd_exact (PR : Profile) (T : Target) (Ht : TargetOk T) strings ts1 ts2 ts3 n1 n2 d1 d2 start end_ fuel :
  let tree a c := ts1 ++ TProp n1 a :: ts2 ++ TProp n2 c :: ts3 in
  Forall token_ok (tree d1 d2) → Forall (not_initrd strings) (ts1 ++ ts2 ++ ts3) →
  length d1 = 8%nat → name_in strings n1 = initrd_start_name →
  length d2 = 8%nat → name_in strings n2 = initrd_end_name →
  Z.of_nat (length (blob (tree d1 d2) strings)) < 2 ^ 30 → (length (tree d1 d2) < fuel)%nat →
  patch_initrd fuel (blob (tree d1 d2) strings) start end_
  = Some (Some (true, blob (tree (to_be_bytes 8 start) (to_be_bytes 8 end_)) strings)).
Proof.
  intros tree Hok Hq Hd1 Hn1 Hd2 Hn2 Hl Hf.
  pose proof (blob_size strings (tree d1 d2)) as Hs. unfold patch_initrd. rewrite open_blob by done.
  cbn [mbind option_bind].
  pose proof (initrd_run (strings_off (tree d1 d2)) (tree d1 d2)
    (header (length (struct_bytes (tree d1 d2) ++ be FDT_END)) (length strings))
    strings fuel {| w_start := 0; w_end := 0; patched := 0 |}) as Hrun.
  cbv zeta in Hrun. rewrite <- blob_split, length_header in Hrun. change (Z.of_nat 40) with 40 in Hrun.
  rewrite Hrun by (done || unfold strings_off; lia). cbn [mbind option_bind].
  pose proof (initrd_found strings ts1 ts2 ts3 n1 n2 d1 d2 Hok Hq Hd1 Hn1 Hd2 Hn2 Hl) as Hfound.
  cbv zeta in Hfound. fold (tree d1 d2) in Hfound. rewrite Hfound. cbn [w_start w_end patched].
  unfold tree at 1. rewrite write_if_prop by done. cbn [mbind option_bind].
  assert (Hmove : ∀ a c, tree a c = (ts1 ++ TProp n1 a :: ts2) ++ TProp n2 c :: ts3).
  { intros. unfold tree. by rewrite <- app_assoc. }
  assert (Hoff : data_off (ts1 ++ TProp n1 d1 :: ts2) = data_off (ts1 ++ TProp n1 (to_be_bytes 8 start) :: ts2)).
  { unfold data_off. by rewrite (overwrite_size ts1 n1 d1 (to_be_bytes 8 start)) by (by rewrite length_be8). }
  fold (tree (to_be_bytes 8 start) d2). rewrite Hmove, Hoff, write_if_prop; [|done|].
  - cbn [mbind option_bind]. by rewrite Hmove.
  - rewrite <- Hmove. rewrite (blob_same_size strings _ (tree d1 d2)); [done|].
    unfold tree. apply overwrite_size. by rewrite length_be8.
Qed.

Lemma patch_initrd_exact_witness :
  let strings := initrd_start_name ++ [0] ++ initrd_end_name ++ [0] in
  let tree a b := [TBegin []; TProp 0 (to_be_bytes 8 a); TProp 19 (to_be_bytes 8 b); TEnd] in
  @patch_initrd Dev Wasm32 10 (blob (tree 0 0) strings) 0xBE9E0000 0xBEFFF58A
  = Some (Some (true, blob (tree 0xBE9E0000 0xBEFFF58A) strings)).
Proof.
  intros strings tree.
  apply (patch_initrd_exact Dev Wasm32 wasm_ok strings [TBegin []] [] [TEnd] 0 19
    (to_be_bytes 8 0) (to_be_bytes 8 0) 0xBE9E0000 0xBEFFF58A 10).
  - cbn. rewrite !Forall_cons. cbn. split_and!; try lia; try done. apply not_elem_of_nil.
  - cbn. rewrite !Forall_cons. by cbn.
  - reflexivity.
  - vm_compute. reflexivity.
  - reflexivity.
  - vm_compute. reflexivity.
  - vm_compute. reflexivity.
  - apply Nat.ltb_lt. reflexivity.
Defined.

Lemma memory_found {PR : Profile} {T : Target} {Ht : TargetOk T} strings ts1 nm ts2 no d ts3 ts4 :
  let node := ts1 ++ TBegin nm :: ts2 in
  let ts := node ++ TProp no d :: ts3 ++ TEnd :: ts4 in
  Forall token_ok ts → Forall not_memory (ts1 ++ ts4) → is_memory nm = true →
  Forall (not_bank strings) (ts2 ++ ts3) → length d = 16%nat → name_in strings no = reg_name →
  Z.of_nat (length (blob ts strings)) < 2 ^ 30 →
  at_ (memory_tokens (blob ts strings) (strings_off ts) 40 ts
         {| in_memory := false; depth := 0; memory_depth := -1; at_ := 0 |}) = data_off node.
Proof.
  intros node ts Hok Hq Hm Hb Hd Hn Hl.
  apply Forall_app in Hq as [Hq1 Hq4]. apply Forall_app in Hb as [Hb2 Hb3].
  pose proof Hok as Hok'. unfold ts, node in Hok'. rewrite Forall_app in Hok'. destruct Hok' as [Hok1 Hok'].
  apply Forall_app in Hok1 as [Ho1 Hok1]. apply Forall_cons in Hok1 as [_ Ho2].
  apply Forall_cons in Hok' as [Hp Hok']. apply Forall_app in Hok' as [Ho3 Hok']. apply Forall_cons in Hok' as [_ Ho4].
  unfold ts at 3. rewrite memory_tokens_app. unfold node at 2. rewrite memory_tokens_app.
  destruct (memory_outside strings ts ts1 40 {| in_memory := false; depth := 0; memory_depth := -1; at_ := 0 |} Hq1 eq_refl)
    as [Hin _]. cbv zeta in Hin.
  set (s1 := memory_tokens _ _ 40 ts1 _) in *. cbn [memory_tokens memory_token]. rewrite Hin, Hm. cbn [negb andb].
  rewrite (memory_inside _ _ Hl ts2) by done. cbn [in_memory depth memory_depth at_].
  rewrite Hd, blob_name by done. rewrite Hn. change (Z.of_nat 16 =? 16) with true. rewrite bool_decide_true by done. cbn [andb].
  rewrite memory_tokens_app, (memory_inside _ _ Hl ts3) by done. cbn [memory_tokens memory_token in_memory depth memory_depth at_].
  match goal with |- at_ (memory_tokens _ _ ?p ts4 ?s) = _ =>
    destruct (memory_outside strings ts ts4 p s Hq4) as [_ Hat] end.
  { cbn [in_memory depth memory_depth andb]. by rewrite Z.eqb_refl. }
  cbv zeta in Hat. rewrite Hat. reflexivity.
Qed.

(** The memory patch makes the tree describe the memory there is.  For a tree
    whose only memory node, named [memory] or [memory@...], has one bank in its
    own [reg] property of two 64-bit cells, [patch_memory] succeeds and leaves
    the serialisation of the same tree with exactly that bank replaced; the
    [reg] of every other node stays as it was. *)
Theorem patch_memory_exact (PR : Profile) (T : Target) (Ht : TargetOk T) strings ts1 nm ts2 no d1 d2 ts3 ts4 base size fuel :
  let tree d := (ts1 ++ TBegin nm :: ts2) ++ TProp no d :: ts3 ++ TEnd :: ts4 in
  Forall token_ok (tree (d1 ++ d2)) → Forall not_memory (ts1 ++ ts4) → is_memory nm = true →
  Forall (not_bank strings) (ts2 ++ ts3) → name_in strings no = reg_name →
  length d1 = 8%nat → length d2 = 8%nat →
  Z.of_nat (length (blob (tree (d1 ++ d2)) strings)) < 2 ^ 28 → (length (tree (d1 ++ d2)) < fuel)%nat →
  Z.of_nat (length (tree (d1 ++ d2))) < 2 ^ 28 →
  patch_memory fuel (blob (tree (d1 ++ d2)) strings) base size
  = Some (Some (true, blob (tree (to_be_bytes 8 base ++ to_be_bytes 8 size)) strings)).
Proof.
  intros tree Hok Hq Hm Hb Hn Hd1 Hd2 Hl Hf Hts.
  pose proof (blob_size strings (tree (d1 ++ d2))) as Hs. unfold patch_memory. rewrite open_blob by lia.
  cbn [mbind option_bind].
  pose proof (memory_run (strings_off (tree (d1 ++ d2))) (tree (d1 ++ d2))
    (header (length (struct_bytes (tree (d1 ++ d2)) ++ be FDT_END)) (length strings))
    strings fuel {| in_memory := false; depth := 0; memory_depth := -1; at_ := 0 |}) as Hrun.
  cbv zeta in Hrun. rewrite <- blob_split, length_header in Hrun. change (Z.of_nat 40) with 40 in Hrun.
  rewrite Hrun; [|unfold strings_off; lia|done|done|done|cbn [depth]; lia|lia]. cbn [mbind option_bind].
  assert (Hd : length (d1 ++ d2) = 16%nat) by (rewrite length_app; lia).
  pose proof (memory_found strings ts1 nm ts2 no (d1 ++ d2) ts3 ts4 Hok Hq Hm Hb Hd Hn) as Hfound.
  cbv zeta in Hfound. fold (tree (d1 ++ d2)) in Hfound. rewrite Hfound by lia. rewrite data_off_nonzero.
  pose proof (blob_write strings (ts1 ++ TBegin nm :: ts2) (ts3 ++ TEnd :: ts4) no [] d1 d2 base Hd1) as Hw1.
  cbn [app length] in Hw1. rewrite Z.add_0_r in Hw1. fold (tree (d1 ++ d2)) in Hw1.
  rewrite Hw1 by lia. cbn [mbind option_bind].
  pose proof (data_off_inside strings (ts1 ++ TBegin nm :: ts2) no (d1 ++ d2) (ts3 ++ TEnd :: ts4)) as Hoff.
  fold (tree (d1 ++ d2)) in Hoff. rewrite Hd in Hoff.
  rewrite add_fits by (unfold data_off in *; lia). cbn [mbind option_bind].
  pose proof (blob_write strings (ts1 ++ TBegin nm :: ts2) (ts3 ++ TEnd :: ts4) no (to_be_bytes 8 base) d2 [] size Hd2) as Hw2.
  rewrite !app_nil_r, length_be8 in Hw2. change (Z.of_nat 8) with 8 in Hw2. rewrite Hw2; [done|].
  rewrite (blob_same_size strings _ (tree (d1 ++ d2))); [lia|]. apply overwrite_size.
  by rewrite !length_app, length_be8, Hd1.
Qed.

Lemma patch_memory_exact_witness :
  let tree size :=
    [TBegin []; TBegin [117; 64]; TProp 0 (to_be_bytes 8 0x10000000 ++ to_be_bytes 8 0x100); TEnd;
     TBegin (memory_at ++ [56; 48]); TProp 0 (to_be_bytes 8 0x80000000 ++ to_be_bytes 8 size); TEnd; TEnd] in
  @patch_memory Dev Wasm32 20 (blob (tree (2 ^ 30)) (reg_name ++ [0])) 0x80000000 (2 ^ 29)
  = Some (Some (true, blob (tree (2 ^ 29)) (reg_name ++ [0]))).
Proof.
  intros tree.
  apply (patch_memory_exact Dev Wasm32 wasm_ok (reg_name ++ [0])
    [TBegin []; TBegin [117; 64]; TProp 0 (to_be_bytes 8 0x10000000 ++ to_be_bytes 8 0x100); TEnd]
    (memory_at ++ [56; 48]) [] 0 (to_be_bytes 8 0x80000000) (to_be_bytes 8 (2 ^ 30)) [] [TEnd]
    0x80000000 (2 ^ 29) 20).
  - cbn. rewrite !Forall_cons. cbn. split_and!; try lia; try done; rewrite ?not_elem_of_cons; split_and?; try done; apply not_elem_of_nil.
  - cbn. rewrite !Forall_cons. by cbn.
  - reflexivity.
  - apply Forall_nil. done.
  - vm_compute. reflexivity.
  - reflexivity.
  - reflexivity.
  - vm_compute. reflexivity.
  - apply Nat.ltb_lt. reflexivity.
  - vm_compute. reflexivity.
Defined.
