(* ===== verification/Machine.v ===== *)
(** The machine ([riscv-machine/src/lib.rs]): boot, the run loop, the console.

    This is the machine of a native host.  The parts of [run] under
    [target_arch = "wasm32"] (entering compiled blocks, flushing them) do not
    exist there, and of the fields they use only those that other code reads are
    kept.  [Machine::run] counts retired instructions in [n] and increments it
    by one per turn, so [budget] turns are all there are. *)

From S2P Require Import Prelude Keeps Types State Stream Cpu Fpu SupTypes SupState Supervisor Plic Virtio VirtioBlk VirtioNet DeviceBus Fdt.

Definition SHORT_WAIT : Z := 50000.

Module Machine.
Record t (D : Type) := mk {
  bus : DeviceBus.t D;
  cpu : Sup.t;
  console : list Z;
  console_taken : Z;
  sbi_taken : Z;
  steps : Z;
  host_ns : Z;
  last_idle_host_ns : Z;
  idle_waits : list Z;
  idle_skipped : Z;
  idle_until : Z;
  prof_insns : list Z;
  prof_idle_insns : Z;
  prof_idle_mark : Z;
  prof_wake_device : bool;
  prof_parks : list Z;
  idle_handback : bool;
  idle_pacing : bool;
  idle_reported : bool;
}.
Arguments mk {D}.
Arguments bus {D}.
Arguments cpu {D}.
Arguments console {D}.
Arguments console_taken {D}.
Arguments sbi_taken {D}.
Arguments steps {D}.
Arguments host_ns {D}.
Arguments last_idle_host_ns {D}.
Arguments idle_waits {D}.
Arguments idle_skipped {D}.
Arguments idle_until {D}.
Arguments prof_insns {D}.
Arguments prof_idle_insns {D}.
Arguments prof_idle_mark {D}.
Arguments prof_wake_device {D}.
Arguments prof_parks {D}.
Arguments idle_handback {D}.
Arguments idle_pacing {D}.
Arguments idle_reported {D}.
#[global] Instance eta_machine {D} : Eta (t D) := λ m,
  mk (bus m) (cpu m) (console m) (console_taken m) (sbi_taken m) (steps m) (host_ns m)
     (last_idle_host_ns m) (idle_waits m) (idle_skipped m) (idle_until m) (prof_insns m)
     (prof_idle_insns m) (prof_idle_mark m) (prof_wake_device m) (prof_parks m)
     (idle_handback m) (idle_pacing m) (idle_reported m).

(** The counters as [new] and [restore] leave them. *)
Definition fresh {D} (b : DeviceBus.t D) (s : Sup.t) (steps : Z) : t D :=
  mk b s [] 0 0 steps 0 0 (replicate 7 0) 0 0 (replicate 4 0) 0 0 false (replicate 2 0) false false false.

Section Ops.
Context {D : Type} `{Devices D} `{Profile} `{Target} `{Libm}.
Abbreviation MM := (M (t D)).

Definition set_bus (b : DeviceBus.t D) (m : t D) : t D := m <| bus := b |>.
Definition set_hart (p : Sup.t * DeviceBus.t D) (m : t D) : t D := m <| cpu := p.1 |> <| bus := p.2 |>.
Definition on_bus {A} (c : M (DeviceBus.t D) A) : MM A := zoom bus set_bus c.
Definition on_hart {A} (c : M (Sup.t * DeviceBus.t D) A) : MM A := zoom (λ m, (cpu m, bus m)) set_hart c.

(** [v[i] += 1] on an array of counters *)
Definition bump (f : t D → list Z) (set : list Z → t D → t D) (i : nat) : MM unit :=
  l ← get f; x ← lift (l !! i); x' ← lift (add_u 64 x 1);
  modify (set (<[i := x']> l)).

(** ** Boot *)

(** [(DRAM_BASE + dram - len - 0x100_0000) & !0xFFFF] *)
Definition initrd_addr (dram len : Z) : option Z :=
  top ← add_u 64 DRAM_BASE dram; a ← sub_u 64 top len; a ← sub_u 64 a 0x1000000;
  Some (Z.land a (unot 64 0xFFFF)).

(** [(initrd_load - len - 0x1000) & !0xFFF] *)
Definition dtb_addr (initrd_load len : Z) : option Z :=
  a ← sub_u 64 initrd_load len; a ← sub_u 64 a 0x1000; Some (Z.land a (unot 64 0xFFF)).

(** Both patches of the devicetree, in the order of [new]. *)
Definition patch_dtb (dtb : list Z) (dram initrd_load initrd_end : Z) : option (list Z) :=
  r ← patch_memory (S (length dtb)) dtb DRAM_BASE dram;
  '(_, dtb) ← r;
  r ← patch_initrd (S (length dtb)) dtb initrd_load initrd_end;
  '(_, dtb) ← r;
  Some dtb.

(** The registers and delegations the kernel starts with. *)
Definition boot_cpu (kernel_load dtb_load sp : Z) : option Sup.t :=
  let s := Sup.new kernel_load 0 in
  '(_, c) ← (Cpu.write_reg 10 0;; Cpu.write_reg 11 dtb_load;; Cpu.write_reg 2 sp) (Sup.cpu s);
  Some (s <| Sup.cpu := c |> <| Sup.priv_level := PSupervisor |>
          <| Sup.medeleg := 0xB1FF |> <| Sup.mideleg := 0x2A2 |>).

Definition new (kernel initrd dtb : list Z) (dram_bytes : Z) : option (t D) :=
  hdr ← slice_get kernel 0x08 0x10;
  kernel_load ← add_u 64 DRAM_BASE (from_le_bytes hdr);
  '(_, b) ← DeviceBus.load_blob kernel_load kernel (DeviceBus.new dram_bytes);
  initrd_load ← initrd_addr dram_bytes (Z.of_nat (length initrd));
  '(_, b) ← DeviceBus.load_blob initrd_load initrd b;
  initrd_end ← add_u 64 initrd_load (Z.of_nat (length initrd));
  dtb ← patch_dtb dtb dram_bytes initrd_load initrd_end;
  dtb_load ← dtb_addr initrd_load (Z.of_nat (length dtb));
  '(_, b) ← DeviceBus.load_blob dtb_load dtb b;
  top ← add_u 64 DRAM_BASE dram_bytes;
  sp ← sub_u 64 top 0x10000;
  s ← boot_cpu kernel_load dtb_load sp;
  Some (fresh b s 0).

Definition set_idle_handback (on : bool) (m : t D) : t D :=
  let m := m <| idle_handback := on |> in
  if on then m else m <| idle_reported := false |>.

(** ** Console *)

Definition drain_console : MM unit :=
  m ← get id;
  let out := DeviceBus.uart_console (bus m) in
  let len := Z.of_nat (length out) in
  (if console_taken m <? len then
     s ← lift (slice_get out (console_taken m) len);
     modify (λ m, m <| console := console m ++ s |> <| console_taken := len |>)
   else mret tt);;
  m ← get id;
  let buf := Sup.console_buf (cpu m) in
  if sbi_taken m <? Sup.console_len (cpu m) then
    let n := Z.min (Sup.console_len (cpu m)) (Z.of_nat (length buf)) in
    s ← lift (slice_get buf (sbi_taken m) n);
    modify (λ m, m <| console := console m ++ s |> <| sbi_taken := n |>)
  else mret tt.

Definition take_console : MM (list Z) :=
  drain_console;;
  c ← get console;
  modify (λ m, m <| console := [] |>);;
  mret c.

Definition console_input (bytes : list Z) : MM unit := on_bus (DeviceBus.uart_push_input bytes).

(** ** The run loop *)

(** [self.steps += n; self.drain_console(); return n] *)
Definition finish (n : Z) : MM unit :=
  s ← get steps; s' ← lift (add_u 64 s n);
  modify (λ m, m <| steps := s' |>);;
  drain_console.

Definition wait_bin (wait : Z) : nat :=
  if wait <=? 99 then 0 else if wait <=? 999 then 1 else if wait <=? 9999 then 2
  else if wait <=? 49999 then 3 else if wait <=? 149999 then 4 else if wait <=? 999999 then 5 else 6.

(** The attribution of idle instructions. *)
Definition profile_park (n : Z) : MM unit :=
  m ← get id;
  total ← lift (add_u 64 (steps m) n);
  span ← lift (sub_u 64 total (prof_idle_mark m));
  (if (span <? 20000) && negb (prof_wake_device m) then
     x ← lift (add_u 64 (prof_idle_insns m) span);
     modify (λ m, m <| prof_idle_insns := x |>)
   else mret tt);;
  modify (λ m, m <| prof_idle_mark := total |>);;
  ext ← on_bus check_external_interrupt;
  modify (λ m, m <| prof_wake_device := ext |>);;
  bump prof_parks (λ l m, m <| prof_parks := l |>) (if ext : bool then 1 else 0)%nat.

(** [idle_skipped += mtime.saturating_sub(before)] *)
Definition count_skipped (before : Z) : MM unit :=
  m ← get id;
  x ← lift (add_u 64 (idle_skipped m) (Z.max 0 (DeviceBus.mtime (bus m) - before)));
  modify (λ m, m <| idle_skipped := x |>).

(** No host clock: the guest's time is virtual.  [true] means that [run] returns. *)
Definition idle_virtual (n next wait : Z) : MM bool :=
  m ← get id;
  if idle_handback m && (500000 <=? wait) && negb (prof_wake_device m) && negb (idle_reported m) then
    modify (λ m, m <| idle_reported := true |> <| idle_until := next |>);;
    finish n;; mret true
  else
    modify (λ m, m <| idle_reported := false |>);;
    (if idle_reported m then on_bus (DeviceBus.idle_skip_mtime_to next)
     else on_bus (DeviceBus.idle_skip_mtime next));;
    mret false.

(** With one: the wait is granted the real time that has passed. *)
Definition idle_paced (n next before : Z) : MM bool :=
  m ← get id;
  (if negb (idle_pacing m)
   then modify (λ m, m <| idle_pacing := true |> <| last_idle_host_ns := host_ns m |>)
   else mret tt);;
  m ← get id;
  let allowance := Z.max 0 (host_ns m - last_idle_host_ns m) / 100 in
  modify (λ m, m <| last_idle_host_ns := host_ns m |>);;
  reached ← on_bus (DeviceBus.idle_skip_mtime_realtime next allowance);
  if negb reached then
    modify (λ m, m <| idle_until := next |>);;
    count_skipped before;;
    finish n;; mret true
  else
    modify (λ m, m <| idle_pacing := false |>);;
    mret false.

(** The hart is parked until [next]. *)
Definition park_until (n next : Z) : MM bool :=
  before ← get (λ m, DeviceBus.mtime (bus m));
  let wait := Z.max 0 (next - before) in
  profile_park n;;
  bump idle_waits (λ l m, m <| idle_waits := l |>) (wait_bin wait);;
  hns ← get host_ns;
  stop ← (if hns =? 0 then idle_virtual n next wait
          else if wait <? SHORT_WAIT then on_bus (DeviceBus.idle_skip_mtime next);; mret false
          else idle_paced n next before);
  if stop : bool then mret true else count_skipped before;; mret false.

(** A frame waits for the host. *)
Definition frame_waiting (m : t D) : bool :=
  match DeviceBus.shared_net (bus m) with
  | Some q => negb (bool_decide (NetQueues.to_host q = []))
  | None => false
  end.

Definition park (n : Z) : MM bool :=
  waiting ← get frame_waiting;
  if waiting : bool then finish n;; mret true
  else
    on_bus DeviceBus.flush_virtio_completions;;
    next ← get (λ m, Z.min (Sup.stimecmp (cpu m)) (DeviceBus.mtimecmp (bus m)));
    if next =? U64_MAX then mret false else park_until n next.

(** One turn of the loop; [true] means that [run] returns [n]. *)
Definition turn (n : Z) : MM bool :=
  on_bus DeviceBus.tick;;
  p ← get (λ m, Sup.priv_level (cpu m));
  bump prof_insns (λ l m, m <| prof_insns := l |>) (Z.to_nat (Z.land (priv_code p) 3));;
  st ← on_hart Supervisor.step;
  match st with
  | StWfi => park n
  | _ => mret false
  end.

Fixpoint run_loop (turns : nat) (n : Z) : MM Z :=
  match turns with
  | O => finish n;; mret n
  | S turns =>
      stop ← turn n;
      if stop : bool then mret n else run_loop turns (n + 1)
  end.

Definition run (budget : Z) : MM Z :=
  modify (λ m, m <| idle_until := 0 |>);;
  run_loop (Z.to_nat budget) 0.
End Ops.
End Machine.
