(* ===== verification/BootTree.v ===== *)
(** The devicetree of a boot: what both patches of [Machine::new] together do
    to a tree of tokens.  A tree is addressed by the positions of the three
    properties the board rewrites; everything else in it is arbitrary. *)

From S2P Require Import Prelude Keeps State Stream DeviceBus Fdt Machine.

(** The token with other data, and the tree with one property rewritten. *)
Definition with_data (d : list Z) (t : token) : token :=
  match t with TProp no _ => TProp no d | _ => t end.
Definition set_data (i : nat) (d : list Z) (ts : list token) : list token := alter (with_data d) i ts.

(** The one memory node has one bank of two 64-bit cells, the property at [mem]:
    it lies between the tokens that open and close the node, no other token
    in the node is a bank, and no other node is a memory node. *)
Record memory_bank (strings : list Z) (ts : list token) (mem : nat) : Prop := {
  mb_node : ∃ node fin nm no d,
    (node < mem < fin)%nat ∧ ts !! node = Some (TBegin nm) ∧ is_memory nm = true ∧ ts !! fin = Some TEnd
    ∧ ts !! mem = Some (TProp no d) ∧ length d = 16%nat ∧ name_in strings no = reg_name
    ∧ (∀ i t, ts !! i = Some t → (node < i < fin)%nat → i ≠ mem → not_bank strings t)
    ∧ (∀ i t, ts !! i = Some t → (i < node ∨ fin < i)%nat → not_memory t);
}.

(** The only 8-byte properties named [linux,initrd-start] and [linux,initrd-end]
    are at [start] and, after it, [stop]. *)
Record initrd_range (strings : list Z) (ts : list token) (start stop : nat) : Prop := {
  ir_order : (start < stop)%nat;
  ir_start : ∃ no d, ts !! start = Some (TProp no d) ∧ length d = 8%nat ∧ name_in strings no = initrd_start_name;
  ir_stop : ∃ no d, ts !! stop = Some (TProp no d) ∧ length d = 8%nat ∧ name_in strings no = initrd_end_name;
  ir_only : ∀ i t, ts !! i = Some t → i ≠ start → i ≠ stop → not_initrd strings t;
}.

Record board_tree (strings : list Z) (ts : list token) (mem start stop : nat) : Prop := {
  bt_ok : Forall token_ok ts;
  bt_size : Z.of_nat (length (blob ts strings)) < 2 ^ 28;
  bt_memory : memory_bank strings ts mem;
  bt_initrd : initrd_range strings ts start stop;
}.

(** The tree a kernel of this board should find: [dram] bytes of memory from
    [DRAM_BASE], and the initrd from [a] up to [c]. *)
Definition booted_tree (ts : list token) (mem start stop : nat) (dram a c : Z) : list token :=
  set_data stop (to_be_bytes 8 c)
    (set_data start (to_be_bytes 8 a) (set_data mem (to_be_bytes 8 DRAM_BASE ++ to_be_bytes 8 dram) ts)).

Section Trees.
Implicit Types ts : list token.

Lemma set_data_at ts1 no d v ts2 :
  set_data (length ts1) v (ts1 ++ TProp no d :: ts2) = ts1 ++ TProp no v :: ts2.
Proof. unfold set_data. rewrite <- (Nat.add_0_r (length ts1)) at 1. by rewrite alter_app_r. Qed.

(** A token somewhere, and two of them. *)
Lemma split_one {A} (l : list A) i x :
  l !! i = Some x → ∃ l1 l2, l = l1 ++ x :: l2 ∧ length l1 = i.
Proof.
  intros E. exists (take i l), (drop (S i) l). split; [by rewrite take_drop_middle|].
  apply lookup_lt_Some in E. rewrite length_take. lia.
Qed.

Lemma split_two {A} (l : list A) i j x y :
  (i < j)%nat → l !! i = Some x → l !! j = Some y →
  ∃ l1 l2 l3, l = l1 ++ x :: l2 ++ y :: l3 ∧ length l1 = i ∧ j = (i + S (length l2))%nat.
Proof.
  intros Hij Ex Ey. destruct (split_one l i x Ex) as (l1 & r & -> & <-).
  rewrite lookup_app_r in Ey by lia. replace (j - length l1)%nat with (S (j - length l1 - 1)) in Ey by lia.
  destruct (split_one r _ y Ey) as (l2 & l3 & -> & Hl). exists l1, l2, l3. split_and!; [done..|lia].
Qed.

(** Rewriting a bank leaves the other two properties where and what they are. *)
Lemma initrd_range_set strings ts start stop mem no d v :
  ts !! mem = Some (TProp no d) → length d = 16%nat → length v = 16%nat →
  initrd_range strings ts start stop → initrd_range strings (set_data mem v ts) start stop.
Proof.
  intros Em Hd Hv [Ho (n1 & d1 & E1 & L1 & N1) (n2 & d2 & E2 & L2 & N2) Hq].
  assert (Hs : mem ≠ start) by (intros ->; rewrite E1 in Em; injection Em as <- <-; lia).
  assert (He : mem ≠ stop) by (intros ->; rewrite E2 in Em; injection Em as <- <-; lia).
  unfold set_data. split; [done| | |].
  - exists n1, d1. by rewrite list_lookup_alter_ne by done.
  - exists n2, d2. by rewrite list_lookup_alter_ne by done.
  - intros i t Ei Hi1 Hi2. destruct (decide (mem = i)) as [<-|].
    + rewrite list_lookup_alter_eq, Em in Ei. injection Ei as <-. intros Hl. cbn in Hl. lia.
    + rewrite list_lookup_alter_ne in Ei by done. by eapply Hq.
Qed.

(** What the patches' own lemmas ask for, from the positions. *)
Lemma lookup_mid {A} (l1 : list A) l2 x i : l1 !! i = Some x → (l1 ++ l2) !! i = Some x.
Proof. intros E. rewrite lookup_app_l; [done|]. by eapply lookup_lt_Some. Qed.

Lemma lookup_right {A} (l1 : list A) l2 x y i : l2 !! i = Some y → (l1 ++ x :: l2) !! (length l1 + S i)%nat = Some y.
Proof. intros E. rewrite lookup_app_r by lia. by replace (length l1 + S i - length l1)%nat with (S i) by lia. Qed.

Lemma initrd_range_split strings ts start stop :
  initrd_range strings ts start stop →
  ∃ ts1 ts2 ts3 n1 d1 n2 d2, ts = ts1 ++ TProp n1 d1 :: ts2 ++ TProp n2 d2 :: ts3
    ∧ length ts1 = start ∧ stop = (start + S (length ts2))%nat
    ∧ Forall (not_initrd strings) (ts1 ++ ts2 ++ ts3)
    ∧ length d1 = 8%nat ∧ name_in strings n1 = initrd_start_name
    ∧ length d2 = 8%nat ∧ name_in strings n2 = initrd_end_name.
Proof.
  intros [Ho (n1 & d1 & E1 & L1 & N1) (n2 & d2 & E2 & L2 & N2) Hq].
  destruct (split_two ts start stop _ _ Ho E1 E2) as (ts1 & ts2 & ts3 & -> & <- & ->).
  exists ts1, ts2, ts3, n1, d1, n2, d2. split_and!; try done.
  apply Forall_app_2; [|apply Forall_app_2]; apply Forall_lookup_2; intros i t Ei.
  - pose proof (lookup_lt_Some _ _ _ Ei). apply (Hq i t); [by apply lookup_mid|lia|lia].
  - pose proof (lookup_lt_Some _ _ _ Ei).
    apply (Hq (length ts1 + S i)%nat t); [by apply lookup_right, lookup_mid|lia|lia].
  - apply (Hq (length ts1 + S (length ts2 + S i))%nat t); [by do 2 apply lookup_right|lia|lia].
Qed.

Lemma memory_bank_split strings ts mem :
  memory_bank strings ts mem →
  ∃ ts1 nm ts2 no d ts3 ts4, ts = (ts1 ++ TBegin nm :: ts2) ++ TProp no d :: ts3 ++ TEnd :: ts4
    ∧ length (ts1 ++ TBegin nm :: ts2) = mem
    ∧ Forall not_memory (ts1 ++ ts4) ∧ is_memory nm = true ∧ Forall (not_bank strings) (ts2 ++ ts3)
    ∧ name_in strings no = reg_name ∧ length d = 16%nat.
Proof.
  intros [(node & fin & nm & no & d & Ho & En & Hm & Ef & Ed & Ld & Nd & Hb & Hq)].
  destruct (split_two ts mem fin _ _ ltac:(lia) Ed Ef) as (l & ts3 & ts4 & -> & <- & ->).
  rewrite lookup_app_l in En by lia. destruct (split_one l node _ En) as (ts1 & ts2 & -> & <-).
  exists ts1, nm, ts2, no, d, ts3, ts4. rewrite length_app in *. cbn [length] in *. split_and!; try done.
  - apply Forall_app_2; apply Forall_lookup_2; intros i t Ei; pose proof (lookup_lt_Some _ _ _ Ei).
    + apply (Hq i t); [by do 2 apply lookup_mid|lia].
    + eapply Hq; [do 2 apply lookup_right; exact Ei|rewrite length_app; cbn; lia].
  - apply Forall_app_2; apply Forall_lookup_2; intros i t Ei; pose proof (lookup_lt_Some _ _ _ Ei).
    + eapply Hb; [apply lookup_mid, lookup_right; exact Ei|lia|lia].
    + eapply Hb; [apply lookup_right, lookup_mid; exact Ei|rewrite length_app; cbn; lia|rewrite length_app; cbn; lia].
Qed.

Lemma tokens_fit strings ts : (length ts <= length (struct_bytes ts))%nat ∧ (length ts < length (blob ts strings))%nat.
Proof.
  assert (H0 : (length ts <= length (struct_bytes ts))%nat).
  { unfold struct_bytes. induction ts as [|x ts IH]; cbn; [done|]. rewrite length_app.
    assert (1 <= length (token_bytes x))%nat; [|lia].
    destruct x; cbn [token_bytes]; rewrite ?length_app, length_be; lia. }
  split; [done|]. pose proof (blob_size strings ts). lia.
Qed.
End Trees.

(** Both patches together: the tree of a board becomes the one a kernel of the
    machine should find, and no other byte of the blob changes. *)
Lemma patch_dtb_exact {PR : Profile} {T : Target} {Ht : TargetOk T} strings ts mem start stop dram a c :
  board_tree strings ts mem start stop →
  Machine.patch_dtb (blob ts strings) dram a c
  = Some (blob (booted_tree ts mem start stop dram a c) strings).
Proof.
  intros [Hok Hsz Hmem Hrd]. unfold Machine.patch_dtb, booted_tree.
  destruct (memory_bank_split _ _ _ Hmem)
    as (ts1 & nm & ts2 & no & d & ts3 & ts4 & E & Hl & Hq & Hm & Hb & Hn & Hd).
  set (r := to_be_bytes 8 DRAM_BASE ++ to_be_bytes 8 dram).
  assert (Hr : length r = 16%nat) by (unfold r; by rewrite length_app, !length_be8).
  assert (Eset : set_data mem r ts = (ts1 ++ TBegin nm :: ts2) ++ TProp no r :: ts3 ++ TEnd :: ts4)
    by (rewrite E, <- Hl; apply set_data_at).
  assert (Ed : ts !! mem = Some (TProp no d)) by (rewrite E, <- Hl; by apply list_lookup_middle).
  pose proof (initrd_range_set strings ts start stop mem no d r Ed Hd Hr Hrd) as Hrd'.
  destruct (tokens_fit strings ts) as [_ Hf].
  assert (Hsz' : length (blob (set_data mem r ts) strings) = length (blob ts strings)).
  { apply blob_same_size. rewrite Eset, E. apply overwrite_size. congruence. }
  assert (Hok' : Forall token_ok (set_data mem r ts)).
  { rewrite Eset. rewrite E in Hok. apply Forall_app in Hok as [? Hok]. apply Forall_cons in Hok as [? ?].
    by apply Forall_app_2; [|apply Forall_cons_2]. }
  pose proof (patch_memory_exact PR T Ht strings ts1 nm ts2 no (take 8 d) (drop 8 d) ts3 ts4 DRAM_BASE dram
    (S (length (blob ts strings)))) as Hpm.
  cbv zeta in Hpm. rewrite take_drop, <- E in Hpm.
  rewrite Hpm by (done || (rewrite ?length_take, ?length_drop; lia)). cbn [mbind option_bind].
  fold r. rewrite <- Eset. destruct (tokens_fit strings (set_data mem r ts)) as [_ Hf'].
  rewrite Hsz'. rewrite Hsz' in Hf'. clear Hpm Eset E Hl.
  destruct (initrd_range_split _ _ _ _ Hrd')
    as (us1 & us2 & us3 & n1 & d1 & n2 & d2 & E & Hl1 & Hl2 & Hqi & L1 & N1 & L2 & N2).
  rewrite E in *.
  rewrite (patch_initrd_exact PR T Ht strings us1 us2 us3 n1 n2 d1 d2) by (done || lia). cbn [mbind option_bind].
  f_equal. f_equal. rewrite Hl2, <- Hl1, set_data_at.
  replace (length us1 + S (length us2))%nat with (length (us1 ++ TProp n1 (to_be_bytes 8 a) :: us2))
    by (rewrite length_app; cbn; lia).
  change (us1 ++ TProp n1 (to_be_bytes 8 a) :: us2 ++ TProp n2 d2 :: us3)
    with (us1 ++ (TProp n1 (to_be_bytes 8 a) :: us2) ++ TProp n2 d2 :: us3).
  by rewrite app_assoc, set_data_at, <- app_assoc.
Qed.

Lemma to_be_bytes_bytes n v : Forall is_byte (to_be_bytes n v).
Proof. unfold to_be_bytes. apply Forall_rev, to_le_bytes_bytes. Qed.

(** Rewriting properties with bytes leaves a blob of bytes. *)
Lemma set_data_bytes strings ts i v :
  Forall is_byte v → Forall is_byte (blob ts strings) → Forall is_byte (blob (set_data i v ts) strings).
Proof.
  intros Hv Hb. unfold blob in *. cbv zeta in *. rewrite !Forall_app in Hb |- *.
  destruct Hb as (_ & [Hs He] & Hn). split_and!; [|clear Hn|done|done].
  - unfold header. apply Forall_concat, Forall_fmap, Forall_forall. intros x _. apply to_be_bytes_bytes.
  - unfold struct_bytes in *. apply Forall_concat in Hs. apply Forall_concat. rewrite Forall_fmap in Hs |- *.
    apply Forall_lookup_2. intros j t Ej. unfold set_data in Ej. destruct (decide (i = j)) as [<-|].
    + rewrite list_lookup_alter_eq in Ej. apply fmap_Some in Ej as (t0 & E0 & ->).
      pose proof (Forall_lookup_1 _ _ _ _ Hs E0) as H0. destruct t0 as [| | |no d]; try done.
      cbn [with_data token_bytes compose] in H0 |- *. unfold pad4 in *. rewrite !Forall_app in H0 |- *. destruct H0 as (Ht & _ & Hno & _).
      split_and!; [done|apply to_be_bytes_bytes|done|done|]. by apply Forall_replicate.
    + rewrite list_lookup_alter_ne in Ej by done. exact (Forall_lookup_1 _ _ _ _ Hs Ej).
Qed.

Lemma booted_tree_bytes strings ts mem start stop dram a c :
  Forall is_byte (blob ts strings) → Forall is_byte (blob (booted_tree ts mem start stop dram a c) strings).
Proof.
  intros Hb. unfold booted_tree. do 2 (apply set_data_bytes; [apply to_be_bytes_bytes|]).
  apply set_data_bytes; [apply Forall_app_2; apply to_be_bytes_bytes|exact Hb].
Qed.
