(* ===== verification/MachineProps.v ===== *)
(** What the machine guarantees: the invariant of the whole system across [run],
    why [run] returns early, what the console delivers, and how a boot lays out
    memory. *)

From S2P Require Import Prelude Keeps Types State Stream Cpu Fpu SupTypes SupState Supervisor SupSafe SupPark Plic Virtio VirtioSg VirtioQueue VirtioBlk VirtioNet VirtioSafe DeviceBus BusProps BusSafe Fdt Machine BootTree.
Import Machine.

(** * The invariant *)

Section Safe.
Context {D : Type} {VD : VirtioDevice D} {DV : Devices D} {DO : DeviceOk D} {DS : DevicesOk D}.
Context {PR : Profile} {T : Target} {Ht : TargetOk T} {L : Libm} {LO : LibmOk}.

Record machine_wf (m : t D) : Prop := {
  mc_cpu : sup_wf (cpu m);
  mc_bus : bus_wf (bus m);
  mc_words : Forall (urange 64) [steps m; host_ns m; last_idle_host_ns m; idle_skipped m; idle_until m;
                                 prof_idle_insns m; prof_idle_mark m];
  mc_waits : length (idle_waits m) = 7%nat ∧ Forall (urange 64) (idle_waits m);
  mc_insns : length (prof_insns m) = 4%nat ∧ Forall (urange 64) (prof_insns m);
  mc_parks : length (prof_parks m) = 2%nat ∧ Forall (urange 64) (prof_parks m);
}.

Abbreviation mkeeps := (keeps True machine_wf).

Lemma mk_ret {A} (a : A) : mkeeps (mret a) (λ _, True).
Proof. by apply keeps_ret. Qed.

Lemma mk_any {A} (f : t D → A) : mkeeps (get f) (λ _, True).
Proof. by apply keeps_get. Qed.

Lemma mk_self : mkeeps (get id) machine_wf.
Proof. by apply keeps_get. Qed.

Lemma mk_lift {A} (o : option A) : mkeeps (lift o) (λ _, True).
Proof. apply keeps_lift. by destruct o. Qed.

Lemma mk_checked w x : 0 <= w → mkeeps (lift (checked_u w x)) (urange w).
Proof. intros. by apply keeps_checked. Qed.

Lemma mk_bus {A} (c : M (DeviceBus.t D) A) R : keeps True bus_wf c R → mkeeps (on_bus c) R.
Proof.
  intros Hc. apply (keeps_zoom _ _ bus_wf); [done|by intros m []|]. intros m b [] Hb. by constructor.
Qed.

Lemma mk_hart {A} (c : M (Sup.t * DeviceBus.t D) A) R :
  keeps True (machine_inv True) c R → mkeeps (on_hart c) R.
Proof.
  intros Hc. apply (keeps_zoom _ _ (machine_inv True)); [done|by intros m []|].
  intros m [s b] [] [Hs Hb]. by constructor.
Qed.

Lemma mk_upd f : (∀ m, machine_wf m → machine_wf (f m)) → mkeeps (modify f) (λ _, True).
Proof. apply keeps_modify. Qed.

Lemma words_in m i x :
  machine_wf m → [steps m; host_ns m; last_idle_host_ns m; idle_skipped m; idle_until m;
                  prof_idle_insns m; prof_idle_mark m] !! i = Some x → urange 64 x.
Proof. intros Hm E. by eapply Forall_lookup_1 in E; [|apply Hm]. Qed.
End Safe.

(** An update of fields that nothing else constrains, or of one of the words. *)
Ltac machine_upd :=
  apply mk_upd; let m := fresh "m" in let Hm := fresh "Hm" in
  intros m Hm; destruct Hm; constructor; try assumption; cbn;
  try match goal with H : Forall (urange 64) [_; _; _; _; _; _; _] |- _ =>
    rewrite !Forall_cons in H |- *; destruct_and! H; by split_and! end.

Section Run.
Context {D : Type} {VD : VirtioDevice D} {DV : Devices D} {DO : DeviceOk D} {DS : DevicesOk D}.
Context {PR : Profile} {T : Target} {Ht : TargetOk T} {L : Libm} {LO : LibmOk}.
Abbreviation mkeeps := (keeps True (machine_wf (D := D))).

Lemma mk_bump f set i :
  (∀ l m, machine_wf m → length l = length (f m) → Forall (urange 64) l → machine_wf (set l m)) →
  (∀ m, machine_wf m → Forall (urange 64) (f m)) →
  mkeeps (bump f set i) (λ _, True).
Proof.
  intros Hset Hf m Hm. apply wp_bind, wp_get, wp_bind, wp_lift. destruct (f m !! i) as [x|] eqn:E; [|done].
  apply wp_bind, wp_lift. pose proof (mk_checked 64 (x + 1) ltac:(lia) m Hm) as Hc.
  unfold add_u. unfold wp, lift in Hc. destruct (checked_u 64 (x + 1)) as [x'|]; [|done]. destruct Hc as [Hx _].
  apply wp_modify. split; [done|]. apply Hset; [done|by rewrite length_insert|].
  apply Forall_insert; [by apply Hf|done].
Qed.

Lemma mk_drain : mkeeps drain_console (λ _, True).
Proof.
  eapply keeps_bind; [apply mk_self|]. intros m _. cbv zeta. apply keeps_seq.
  - destruct (_ <? _); [|apply mk_ret]. eapply keeps_bind; [apply mk_lift|]. intros s _. machine_upd.
  - eapply keeps_bind; [apply mk_self|]. intros m1 _. destruct (_ <? _); [|apply mk_ret].
    eapply keeps_bind; [apply mk_lift|]. intros s _. machine_upd.
Qed.

Lemma mk_finish n : mkeeps (finish n) (λ _, True).
Proof.
  eapply keeps_bind; [apply mk_any|]. intros s _. eapply keeps_bind; [by apply mk_checked|]. intros s' Hs.
  apply keeps_seq; [machine_upd|apply mk_drain].
Qed.

Lemma mk_profile n : mkeeps (profile_park n) (λ _, True).
Proof.
  eapply keeps_bind; [apply mk_self|]. intros m Hm. eapply keeps_bind; [by apply mk_checked|]. intros total Ht'.
  eapply keeps_bind; [by apply mk_checked|]. intros span Hs. apply keeps_seq.
  { destruct (_ && _); [|apply mk_ret]. eapply keeps_bind; [by apply mk_checked|]. intros x Hx. machine_upd. }
  apply keeps_seq; [machine_upd|]. eapply keeps_bind; [apply mk_bus, bk_external|]. intros ext _.
  apply keeps_seq; [machine_upd|]. apply mk_bump; [|intros ? []; tauto].
  intros l m' [] Hl Hf. constructor; try assumption. cbn. split; [|done]. rewrite Hl. by destruct mc_parks0.
Qed.

Lemma mk_skipped before : mkeeps (count_skipped before) (λ _, True).
Proof.
  eapply keeps_bind; [apply mk_self|]. intros m _. eapply keeps_bind; [by apply mk_checked|]. intros x Hx.
  machine_upd.
Qed.

Lemma mk_idle_virtual n next wait : urange 64 next → mkeeps (idle_virtual n next wait) (λ _, True).
Proof.
  intros Hn. eapply keeps_bind; [apply mk_self|]. intros m _. destruct (_ && _).
  - apply keeps_seq; [machine_upd|]. apply keeps_seq; [apply mk_finish|apply mk_ret].
  - apply keeps_seq; [machine_upd|]. apply keeps_seq; [|apply mk_ret].
    destruct (idle_reported m); apply mk_bus; [by apply bk_idle_skip_to|by apply bk_idle_skip].
Qed.

Lemma mk_idle_paced n next before : urange 64 next → mkeeps (idle_paced n next before) (λ _, True).
Proof.
  intros Hn. eapply keeps_bind; [apply mk_self|]. intros m _. apply keeps_seq.
  { destruct (negb _); [|apply mk_ret]. machine_upd. }
  eapply keeps_bind; [apply mk_self|]. intros m1 _. cbv zeta. apply keeps_seq; [machine_upd|].
  eapply keeps_bind; [apply mk_bus, bk_idle_realtime; [done|]|].
  { apply Z.div_pos; lia. }
  intros reached _. destruct (negb reached).
  - apply keeps_seq; [machine_upd|]. apply keeps_seq; [apply mk_skipped|]. apply keeps_seq; [apply mk_finish|apply mk_ret].
  - apply keeps_seq; [machine_upd|apply mk_ret].
Qed.

Lemma mk_park_until n next : urange 64 next → mkeeps (park_until n next) (λ _, True).
Proof.
  intros Hn. eapply keeps_bind; [apply mk_any|]. intros before _. cbv zeta.
  apply keeps_seq; [apply mk_profile|]. apply keeps_seq.
  { apply mk_bump; [|intros ? []; tauto].
    intros l m' [] Hl Hf. constructor; try assumption. cbn. split; [|done]. rewrite Hl. by destruct mc_waits0. }
  eapply keeps_bind; [apply mk_any|]. intros hns _. eapply (keeps_bind _ _ _ _ (λ _, True)).
  - destruct (_ =? 0); [by apply mk_idle_virtual|]. destruct (_ <? _); [|by apply mk_idle_paced].
    apply keeps_seq; [by apply mk_bus, bk_idle_skip|apply mk_ret].
  - intros [] _; [apply mk_ret|]. apply keeps_seq; [apply mk_skipped|apply mk_ret].
Qed.

Lemma mk_park n : mkeeps (park n) (λ _, True).
Proof.
  eapply keeps_bind; [apply mk_any|]. intros [] _; [apply keeps_seq; [apply mk_finish|apply mk_ret]|].
  apply keeps_seq; [apply mk_bus, bk_flush_all|].
  eapply (keeps_bind _ _ _ _ (urange 64)).
  { apply keeps_get. intros m Hm. pose proof (wf_stimecmp _ (mc_cpu _ Hm)). pose proof (bw_mtimecmp _ (mc_bus _ Hm)).
    unfold urange in *. lia. }
  intros next Hn. destruct (_ =? _); [apply mk_ret|by apply mk_park_until].
Qed.

Lemma mk_turn n : mkeeps (turn n) (λ _, True).
Proof.
  apply keeps_seq; [apply mk_bus, bk_tick|]. eapply keeps_bind; [apply mk_any|]. intros p _.
  apply keeps_seq.
  { apply mk_bump; [|intros ? []; tauto].
    intros l m' [] Hl Hf. constructor; try assumption. cbn. split; [|done]. rewrite Hl. by destruct mc_insns0. }
  eapply keeps_bind; [apply mk_hart, step_keeps; done|]. intros [] _; [apply mk_ret..|apply mk_park].
Qed.

Lemma mk_run_loop k : ∀ n, mkeeps (run_loop k n) (λ r, n <= r <= n + Z.of_nat k).
Proof.
  induction k as [|k IH]; intros n; cbn [run_loop].
  - apply keeps_seq; [apply mk_finish|]. apply keeps_ret. lia.
  - eapply keeps_bind; [apply mk_turn|]. intros [] _; [apply keeps_ret; lia|].
    eapply keeps_mono; [apply IH|]. cbn. lia.
Qed.

Lemma mk_run budget : 0 <= budget → mkeeps (run budget) (λ r, 0 <= r <= budget).
Proof.
  intros Hb. apply keeps_seq; [machine_upd|]. eapply keeps_mono; [apply mk_run_loop|]. cbn. lia.
Qed.
End Run.

(** * Why [run] returns early *)

(** ** The deadline of a parked hart *)

Section Rest.
Context {D : Type} `{Devices D} {PR : Profile} {T : Target}.

(** The guest clock and its timer. *)
Definition timer (b : DeviceBus.t D) : Z * Z := (DeviceBus.mtime b, DeviceBus.mtimecmp b).
Definition timer_is c (b : DeviceBus.t D) : Prop := timer b = c.

Lemma timer_get {A} c (f : DeviceBus.t D → A) : keeps True (timer_is c) (get f) (λ _, True).
Proof. by apply keeps_get. Qed.
Lemma timer_lift {S A} (I : S → Prop) (o : option A) : keeps True I (lift o) (λ _, True).
Proof. apply keeps_lift. by destruct o. Qed.
Lemma timer_ret {S A} (I : S → Prop) (a : A) : keeps True I (mret a) (λ _, True).
Proof. by apply keeps_ret. Qed.
Lemma timer_plic {A} c (m : M Plic.t A) : keeps True (timer_is c) (DeviceBus.on_plic m) (λ _, True).
Proof. intros b Hb. apply wp_zoom. unfold wp. by destruct (m (DeviceBus.plic b)) as [[??]|]. Qed.

Lemma timer_sync c i : keeps True (timer_is c) (DeviceBus.sync_line i) (λ _, True).
Proof.
  eapply keeps_bind; [|intros o _].
  - unfold DeviceBus.slot_at. eapply keeps_bind; [apply timer_get|]. intros. apply timer_lift.
  - destruct o; [apply timer_plic|apply timer_ret].
Qed.

Lemma timer_external c : keeps True (timer_is c) DeviceBus.external_interrupt_pending (λ _, True).
Proof.
  unfold DeviceBus.external_interrupt_pending, DeviceBus.refresh_virtio_irqs.
  eapply keeps_bind; [apply timer_get|]. intros lv _. apply keeps_seq.
  - eapply keeps_bind; [apply timer_get|]. intros n _. generalize 0%nat.
    induction n as [|n IH]; intros i; cbn [DeviceBus.for_slots]; [apply timer_ret|].
    apply keeps_seq; [apply timer_sync|apply IH].
  - apply keeps_seq; [apply timer_plic|apply timer_get].
Qed.

Lemma timer_hold c : keeps True (timer_is c) DeviceBus.idle_hold (λ _, True).
Proof.
  unfold DeviceBus.idle_hold. eapply keeps_bind; [apply timer_get|]. intros b _. cbv zeta. destruct (_ && _).
  - eapply keeps_bind; [apply timer_lift|]. intros n _. apply keeps_seq; [by apply keeps_modify|apply timer_ret].
  - apply keeps_seq; [by apply keeps_modify|apply timer_ret].
Qed.

(** A paced wait that does not reach its target ends before it. *)
Lemma realtime_short target allowance b :
  DeviceBus.mtime b < target →
  wp True (DeviceBus.idle_skip_mtime_realtime target allowance)
    (λ reached b', DeviceBus.mtimecmp b' = DeviceBus.mtimecmp b
                   ∧ (reached = false → DeviceBus.mtime b' < target)) b.
Proof.
  intros Hlt. unfold DeviceBus.idle_skip_mtime_realtime. apply wp_bind.
  eapply wp_mono; [by apply (timer_hold (timer b))|]. intros hold b1 [_ E]. injection E as E1 E2.
  apply wp_if; intros _; [apply wp_ret; split; [done|lia]|].
  apply wp_bind, wp_get, wp_bind. unfold DeviceBus.fast_forward_mtime. apply wp_bind, wp_get.
  apply wp_if; intros _; [apply wp_modify|apply wp_ret]; apply wp_bind, wp_get, wp_ret; cbn; split; lia || done.
Qed.

(** What parking leaves alone: the hart, the deadline reported, the guest clock
    and its timer. *)
Definition rest (m : t D) : Sup.t * Z * (Z * Z) := (cpu m, idle_until m, timer (bus m)).
Definition rests {A} (c : M (t D) A) : Prop := ∀ r, keeps True (λ m, rest m = r) c (λ _, True).

Lemma rests_bind {A B} (c : M (t D) A) (k : A → M (t D) B) : rests c → (∀ a, rests (k a)) → rests (c ≫= k).
Proof. intros Hc Hk r. eapply keeps_bind; [apply Hc|]. intros a _. apply Hk. Qed.
Lemma rests_get {A} (f : t D → A) : rests (get f).
Proof. intros r. by apply keeps_get. Qed.
Lemma rests_lift {A} (o : option A) : rests (lift o).
Proof. intros r. apply timer_lift. Qed.
Lemma rests_ret {A} (a : A) : rests (mret a).
Proof. intros r. apply timer_ret. Qed.
Lemma rests_upd f : (∀ m, rest (f m) = rest m) → rests (modify f).
Proof. intros Hf r. apply keeps_modify. intros m. by rewrite Hf. Qed.
Lemma rests_bus {A} (c : M (DeviceBus.t D) A) : (∀ r, keeps True (timer_is r) c (λ _, True)) → rests (on_bus c).
Proof.
  intros Hc r m Hm. apply wp_zoom. eapply wp_mono; [by apply (Hc (timer (bus m)))|].
  intros a b [_ E]. split; [done|]. rewrite <- Hm. unfold rest. cbn. by rewrite E.
Qed.
Lemma rests_bump f set i : (∀ l m, rest (set l m) = rest m) → rests (bump f set i).
Proof.
  intros Hs. unfold bump. apply rests_bind; [apply rests_get|]. intros l.
  do 2 (apply rests_bind; [apply rests_lift|]; intros ?). by apply rests_upd.
Qed.
End Rest.

Create HintDb rest.
#[export] Hint Resolve rests_get rests_lift rests_ret timer_external : rest.
#[export] Hint Extern 1 (rests (modify _)) => (apply rests_upd; reflexivity) : rest.
#[export] Hint Extern 1 (rests (bump _ _ _)) => (apply rests_bump; reflexivity) : rest.
#[export] Hint Extern 1 (rests (on_bus check_external_interrupt)) => (apply rests_bus, timer_external) : rest.

Ltac rest_step :=
  lazymatch goal with
  | |- rests (mbind _ _) => apply rests_bind; [|intros ?]
  | |- rests (if ?c then _ else _) => destruct c
  | |- _ => solve [eauto with rest]
  end.

Section Early.
Context {D : Type} {VD : VirtioDevice D} {DV : Devices D}.
Context {PR : Profile} {T : Target} {L : Libm}.
Implicit Types m : t D.

Lemma rests_profile n : rests (D := D) (profile_park n).
Proof. unfold profile_park. repeat rest_step. Qed.
Lemma rests_skipped before : rests (D := D) (count_skipped before).
Proof. unfold count_skipped. repeat rest_step. Qed.

(** The next deadline of a parked hart. *)
Definition deadline m : Z := Z.min (Sup.stimecmp (cpu m)) (DeviceBus.mtimecmp (bus m)).

(** The hart is parked and the host has something to do: send a frame, or sleep
    until the deadline, which lies ahead. *)
Definition host_wanted m : Prop :=
  Sup.wfi (cpu m) = true
  ∧ (frame_waiting m = true ∧ idle_until m = 0
     ∨ idle_until m = deadline m ∧ DeviceBus.mtime (bus m) < deadline m ∧ deadline m ≠ U64_MAX).

(** The outcome of a part of a turn: [run] returns with the host wanted, or goes on. *)
Definition outcome (stop : bool) m : Prop := if stop then host_wanted m else idle_until m = 0.

Lemma finish_frame n m :
  wp True (finish n) (λ _ m', bus m' = bus m ∧ idle_until m' = idle_until m ∧ cpu m' = cpu m) m.
Proof.
  unfold finish. apply wp_bind, wp_get, wp_bind, wp_lift. destruct (add_u 64 _ _) as [s|]; [|done].
  apply wp_bind, wp_modify. unfold drain_console. apply wp_bind, wp_get, wp_bind. cbv zeta.
  apply wp_if; intros.
  - apply wp_bind, wp_lift. destruct (slice_get _ _ _); [|done]. apply wp_modify. apply wp_bind, wp_get. unfold id.
    apply wp_if; intros; [|by apply wp_ret]. apply wp_bind, wp_lift. destruct (slice_get _ _ _); [|done]. by apply wp_modify.
  - apply wp_ret. apply wp_bind, wp_get. unfold id.
    apply wp_if; intros; [|by apply wp_ret]. apply wp_bind, wp_lift. destruct (slice_get _ _ _); [|done]. by apply wp_modify.
Qed.

(** [finish n; return n] from a state in which the host is wanted. *)
Lemma finish_wanted n m : host_wanted m → wp True (finish n;; mret true) outcome m.
Proof.
  intros Hw. apply wp_bind. eapply wp_mono; [apply finish_frame|]. intros [] m' (Hb & Hi & Hc). apply wp_ret.
  unfold outcome, host_wanted, frame_waiting, deadline in *. by rewrite Hb, Hi, Hc.
Qed.

(** Work on the bus does not report a deadline. *)
Lemma bus_until {A} (c : M (DeviceBus.t D) A) m :
  wp True (on_bus c) (λ _ m', idle_until m' = idle_until m ∧ cpu m' = cpu m) m.
Proof. apply wp_zoom. unfold wp. by destruct (c (bus m)) as [[]|]. Qed.

Lemma bump_until f set i m :
  (∀ l m, idle_until (set l m) = idle_until m) → wp True (bump f set i) (λ _ m', idle_until m' = idle_until m) m.
Proof.
  intros Hs. apply wp_bind, wp_get, wp_bind, wp_lift. destruct (_ !! i); [|done].
  apply wp_bind, wp_lift. destruct (add_u _ _ _); [|done]. by apply wp_modify.
Qed.

(** Parked at a deadline that is not reached yet. *)
Definition waiting next m : Prop :=
  Sup.wfi (cpu m) = true ∧ next = deadline m ∧ next ≠ U64_MAX ∧ idle_until m = 0.

Lemma idle_virtual_early n next wait m :
  waiting next m → wait = Z.max 0 (next - DeviceBus.mtime (bus m)) →
  wp True (idle_virtual n next wait) outcome m.
Proof.
  intros (Hp & Hn & Hu & Hi) Hwait. apply wp_bind, wp_get. unfold id. apply wp_if; intros Hc.
  - apply wp_bind, wp_modify. apply finish_wanted. split; [done|]. right. rewrite !andb_true_iff in Hc.
    unfold deadline in *. cbn. destruct_and! Hc. split_and!; [done|lia|congruence].
  - apply wp_bind, wp_modify, wp_bind. destruct (idle_reported m);
      (eapply wp_mono; [apply bus_until|]); intros [] m' [E _]; apply wp_ret; unfold outcome; by rewrite E.
Qed.

Lemma idle_paced_early n next before m :
  waiting next m → DeviceBus.mtime (bus m) < next → wp True (idle_paced n next before) outcome m.
Proof.
  intros (Hp & Hn & Hu & Hi) Hlt. apply wp_bind, wp_get, wp_bind.
  eapply wp_mono with (Q := λ _ m', rest m' = rest m).
  { apply wp_if; intros; [by apply wp_modify|by apply wp_ret]. }
  intros [] m1 E1. unfold rest, timer in E1. injection E1 as Ec Ei Et Etc.
  apply wp_bind, wp_get. cbv zeta. apply wp_bind, wp_modify, wp_bind, wp_zoom.
  eapply wp_mono; [apply realtime_short; cbn; lia|]. intros reached b [Hcmp Hr]. cbn in Hcmp. apply wp_if; intros Hreached.
  - apply negb_true_iff in Hreached. specialize (Hr Hreached). apply wp_bind, wp_modify, wp_bind.
    eapply wp_mono; [by apply (rests_skipped before (rest (set_bus b (m1 <| last_idle_host_ns := host_ns m1 |>) <| idle_until := next |>)))|].
    intros [] m3 [_ E3]. unfold rest, timer in E3. cbn in E3. injection E3 as E3c E3i E3t E3tc.
    apply finish_wanted. unfold host_wanted, deadline in *. rewrite E3c, E3i, E3t, E3tc, Ec, Hcmp, Etc. split; [done|].
    right. split_and!; [done|lia|congruence].
  - apply wp_bind, wp_modify, wp_ret. unfold outcome. cbn. by rewrite Ei.
Qed.

Lemma park_until_early n next m : waiting next m → wp True (park_until n next) outcome m.
Proof.
  intros Hw. unfold park_until. apply wp_bind, wp_get. cbv zeta. set (before := DeviceBus.mtime (bus m)).
  apply wp_bind. eapply wp_mono; [by apply (rests_profile n (rest m))|]. intros [] m1 [_ E1].
  apply wp_bind. eapply wp_mono; [by apply (rests_bump (D := D) idle_waits (λ l m, m <| idle_waits := l |>) _ ltac:(done) (rest m))|].
  intros [] m2 [_ E2]. clear m1 E1. unfold rest, timer in E2. injection E2 as Ec Ei Et Etc.
  assert (Hw2 : waiting next m2) by (unfold waiting, deadline in *; by rewrite Ec, Ei, Etc).
  apply wp_bind, wp_get, wp_bind. eapply (wp_mono _ _ outcome).
  - apply wp_if; intros _; [apply idle_virtual_early; [done|unfold before; by rewrite Et]|].
    apply wp_if; intros Hs.
    + apply wp_bind. eapply wp_mono; [apply bus_until|]. intros [] m3 [E _]. apply wp_ret. unfold outcome.
      rewrite E. apply Hw2.
    + apply idle_paced_early; [done|]. unfold SHORT_WAIT, before in Hs. lia.
  - intros [] m3 Ho; [by apply wp_ret|]. apply wp_bind.
    eapply wp_mono; [by apply (rests_skipped before (rest m3))|]. intros [] m4 [_ E]. apply wp_ret.
    unfold rest in E. injection E as _ E _ _. unfold outcome in *. by rewrite E.
Qed.

Lemma turn_early n m : idle_until m = 0 → wp True (turn n) outcome m.
Proof.
  intros Hi. unfold turn. apply wp_bind. eapply wp_mono; [apply bus_until|]. intros [] m1 [E1 _].
  apply wp_bind, wp_get, wp_bind. eapply wp_mono; [by apply bump_until|]. intros [] m2 E2.
  apply wp_bind. eapply (wp_mono _ _ (λ st m', idle_until m' = 0 ∧ (st = StWfi → Sup.wfi (cpu m') = true))).
  { apply wp_zoom. eapply wp_mono; [apply step_parks|]. intros st [u b] Hs. split; [cbn; congruence|exact Hs]. }
  intros [] m3 [Hi3 Hp]; [by apply wp_ret..|]. specialize (Hp eq_refl).
  unfold park. apply wp_bind, wp_get. apply wp_if; intros Hw.
  - apply finish_wanted. split; [done|]. by left.
  - apply wp_bind. eapply wp_mono; [apply bus_until|]. intros r m4 [E4 C4]. apply wp_bind, wp_get.
    apply wp_if; intros Hx; [apply wp_ret; unfold outcome; congruence|]. apply Z.eqb_neq in Hx.
    apply park_until_early. unfold waiting. rewrite E4, C4. split_and!; [done|unfold deadline; by rewrite C4|by rewrite C4 in Hx|done].
Qed.

Lemma run_loop_early k : ∀ n m,
  idle_until m = 0 →
  wp True (run_loop k n) (λ r m', if decide (r < n + Z.of_nat k) then host_wanted m' else idle_until m' = 0) m.
Proof.
  induction k as [|k IH]; intros n m Hm; cbn [run_loop].
  - apply wp_bind. eapply wp_mono; [apply finish_frame|]. intros [] m' (_ & E & _). apply wp_ret.
    rewrite decide_False by lia. by rewrite E.
  - apply wp_bind. eapply wp_mono; [by apply turn_early|]. intros [] m1 Ho.
    + apply wp_ret. by rewrite decide_True by lia.
    + eapply wp_mono; [by apply IH|]. intros r m' Hr. cbn in Hr |- *.
      replace (n + Z.of_nat (S k)) with (n + 1 + Z.of_nat k) by lia. exact Hr.
Qed.
End Early.

(** * Boot *)

Lemma sub_u_small {PR : Profile} w a b : urange w (a - b) → sub_u w a b = Some (a - b).
Proof. intros Hr. apply (add_u_small w a (- b)). by rewrite Z.add_opp_r. Qed.

Section Boot.
Context {D : Type} {VD : VirtioDevice D} {DV : Devices D} {DO : DeviceOk D} {DS : DevicesOk D}.
Context {PR : Profile} {T : Target} {Ht : TargetOk T}.
Implicit Types b : DeviceBus.t D.

(** DRAM holds the bytes [s] at the guest address [a]. *)
Definition holds b (a : Z) (s : list Z) : Prop :=
  take (length s) (drop (Z.to_nat (a - DeviceBus.dram_base b)) (DeviceBus.dram b)) = s.

Definition loaded b (a : Z) (s : list Z) : DeviceBus.t D :=
  b <| DeviceBus.dram := splice (DeviceBus.dram b) (a - DeviceBus.dram_base b) s |>.

Lemma load_blob_run b a s :
  dram_wf b → in_dram b a (length s) → DeviceBus.load_blob a s b = Some (tt, loaded b a s).
Proof.
  intros Hw [Hlo Hhi]. pose proof (dw_guest _ Hw). pose proof (dw_host _ Hw). pose proof (dw_base _ Hw).
  unfold DeviceBus.load_blob. erewrite M_bind_some by reflexivity.
  erewrite lift_bind by (apply sub_u_small; unfold urange; lia).
  rewrite wrap_small by (unfold urange; lia). apply dram_store_run; [done|lia|lia].
Qed.

Lemma loaded_wf b a s :
  bus_wf b → in_dram b a (length s) → Forall is_byte s → bus_wf (loaded b a s).
Proof.
  intros Hb Hin Hs. pose proof (splice_dram_wf b a s (bw_dram _ Hb) Hin Hs) as Hw.
  destruct Hb. constructor; assumption.
Qed.

Lemma set_mtimecmp_wf b x : urange 64 x → bus_wf b → bus_wf (b <| DeviceBus.mtimecmp := x |>).
Proof. intros Hx []. constructor; try assumption. by destruct bw_dram. Qed.

Lemma holds_loaded b a s : dram_wf b → in_dram b a (length s) → holds (loaded b a s) a s.
Proof.
  intros Hw [Hlo Hhi]. pose proof (dw_size _ Hw). unfold holds, loaded. cbn. apply splice_slice. lia.
Qed.

Lemma holds_other b a s a' s' :
  dram_wf b → in_dram b a (length s) → in_dram b a' (length s') →
  a + Z.of_nat (length s) <= a' ∨ a' + Z.of_nat (length s') <= a →
  holds b a s → holds (loaded b a' s') a s.
Proof.
  intros Hw [Hlo Hhi] [Hlo' Hhi'] Hd Hh. pose proof (dw_size _ Hw). unfold holds, loaded in *. cbn.
  rewrite <- Hh at 2. apply list_eq. intros i.
  destruct (decide (i < length s)%nat).
  - rewrite !lookup_take_lt, !lookup_drop by done. rewrite lookup_splice by lia. by rewrite decide_False by lia.
  - by rewrite !lookup_take_ge by lia.
Qed.

(** Three images that do not overlap, loaded one after the other. *)
Lemma boot_loads b0 kl k il i dl d :
  bus_wf b0 → Forall is_byte k → Forall is_byte i → Forall is_byte d →
  in_dram b0 kl (length k) → in_dram b0 il (length i) → in_dram b0 dl (length d) →
  kl + Z.of_nat (length k) <= dl → dl + Z.of_nat (length d) <= il →
  let b1 := loaded b0 kl k in let b2 := loaded b1 il i in let b3 := loaded b2 dl d in
  (DeviceBus.load_blob kl k b0 = Some (tt, b1) ∧ DeviceBus.load_blob il i b1 = Some (tt, b2)
   ∧ DeviceBus.load_blob dl d b2 = Some (tt, b3))
  ∧ bus_wf b3 ∧ holds b3 kl k ∧ holds b3 il i ∧ holds b3 dl d.
Proof.
  intros Hb0 Hk Hi Hd Hik Hii Hid Hkd Hdi b1 b2 b3.
  pose proof (loaded_wf b0 kl k Hb0 Hik Hk : bus_wf b1) as Hb1.
  pose proof (loaded_wf b1 il i Hb1 Hii Hi : bus_wf b2) as Hb2.
  pose proof (loaded_wf b2 dl d Hb2 Hid Hd : bus_wf b3) as Hb3.
  split_and!; [by apply load_blob_run; [apply Hb0|]|by apply load_blob_run; [apply Hb1|]
              |by apply load_blob_run; [apply Hb2|]|done|..].
  - apply holds_other; [apply Hb2|done|done|lia|]. apply holds_other; [apply Hb1|done|done|lia|].
    apply holds_loaded; [apply Hb0|done].
  - apply holds_other; [apply Hb2|done|done|lia|]. apply holds_loaded; [apply Hb1|done].
  - apply holds_loaded; [apply Hb2|done].
Qed.

(** Where the images go. *)
Definition initrd_base (dram len : Z) : Z :=
  let a := DRAM_BASE + dram - len - 0x1000000 in a - a mod 0x10000.
Definition dtb_base (initrd_load len : Z) : Z := let a := initrd_load - len - 0x1000 in a - a mod 0x1000.

Lemma initrd_below dram len : initrd_base dram len + len + 0x1000000 <= DRAM_BASE + dram.
Proof.
  unfold initrd_base. cbv zeta. pose proof (Z.mod_pos_bound (DRAM_BASE + dram - len - 0x1000000) 0x10000). lia.
Qed.

Lemma dtb_below a len : dtb_base a len + len + 0x1000 <= a.
Proof. unfold dtb_base. cbv zeta. pose proof (Z.mod_pos_bound (a - len - 0x1000) 0x1000). lia. Qed.

Lemma initrd_addr_run dram len :
  0 <= dram < 2 ^ 63 → 0 <= len → len + 0x1000000 <= dram → initrd_addr dram len = Some (initrd_base dram len).
Proof.
  intros Hd Hl Hf. unfold initrd_addr, initrd_base, DRAM_BASE. cbv zeta.
  rewrite add_u_small by (unfold urange; lia). cbn [mbind option_bind].
  rewrite sub_u_small by (unfold urange; lia). cbn [mbind option_bind].
  rewrite sub_u_small by (unfold urange; lia). cbn [mbind option_bind].
  by rewrite (land_unot_ones 64 16) by (unfold urange; lia).
Qed.

Lemma dtb_addr_run a len :
  0 <= a < 2 ^ 64 → 0 <= len → len + 0x1000 <= a → dtb_addr a len = Some (dtb_base a len).
Proof.
  intros Ha Hl Hf. unfold dtb_addr, dtb_base. cbv zeta.
  rewrite sub_u_small by (unfold urange; lia). cbn [mbind option_bind].
  rewrite sub_u_small by (unfold urange; lia). cbn [mbind option_bind].
  by rewrite (land_unot_ones 64 12) by (unfold urange; lia).
Qed.

(** The registers of the boot protocol. *)
Definition boots (s : Sup.t) (pc dtb_load sp : Z) : Prop :=
  Cpu.pc (Sup.cpu s) = pc ∧ Cpu.read_reg (Sup.cpu s) 10 = 0 ∧ Cpu.read_reg (Sup.cpu s) 11 = dtb_load
  ∧ Cpu.read_reg (Sup.cpu s) 2 = sp ∧ Sup.priv_level s = PSupervisor.

Lemma boot_cpu_run pc dtb_load sp :
  urange 64 pc → urange 64 dtb_load → urange 64 sp →
  ∃ s, boot_cpu pc dtb_load sp = Some s ∧ boots s pc dtb_load sp ∧ sup_wf s.
Proof.
  intros Hp Hd Hs. unfold boot_cpu. set (s := Sup.new pc 0).
  assert (Hw : sup_wf s) by (apply sup_new_wf; [done|by unfold urange]). pose proof (wf_cpu _ Hw) as Hc.
  pose proof (Cpu.set_reg_wf _ 10 0 Hc ltac:(lia) ltac:(by unfold urange)) as Hc1.
  pose proof (Cpu.set_reg_wf _ 11 dtb_load Hc1 ltac:(lia) Hd) as Hc2.
  pose proof (Cpu.set_reg_wf _ 2 sp Hc2 ltac:(lia) Hs) as Hc3.
  assert (E : (Cpu.write_reg 10 0;; Cpu.write_reg 11 dtb_load;; Cpu.write_reg 2 sp) (Sup.cpu s)
    = Some (tt, Cpu.set_reg (Cpu.set_reg (Cpu.set_reg (Sup.cpu s) 10 0) 11 dtb_load) 2 sp)).
  { erewrite M_bind_some by (apply Cpu.write_reg_eq; lia). erewrite M_bind_some by (apply Cpu.write_reg_eq; lia).
    apply Cpu.write_reg_eq. lia. }
  set (c3 := Cpu.set_reg _ 2 sp) in *.
  assert (R10 : Cpu.read_reg c3 10 = 0) by (unfold c3; by rewrite !Cpu.read_set_reg by (done || lia)).
  assert (R11 : Cpu.read_reg c3 11 = dtb_load) by (unfold c3; by rewrite !Cpu.read_set_reg by (done || lia)).
  assert (R2 : Cpu.read_reg c3 2 = sp) by (unfold c3; by rewrite !Cpu.read_set_reg by (done || lia)).
  rewrite E. cbn [mbind option_bind]. eexists. split; [reflexivity|]. split.
  - by split_and!.
  - destruct Hw. constructor; try assumption; by cbn.
Qed.
End Boot.

(** * The machine and its host *)

(** What happens to a machine: the host runs it, types, collects the output,
    delivers frames, plugs in devices, sets the clock and the idle policy. *)
Inductive machine_step {D} `{Devices D, DeviceOk D} `{Profile} `{Target} `{Libm} : t D → t D → Prop :=
| ms_run budget n m m' : 0 <= budget → run budget m = Some (n, m') → machine_step m m'
| ms_input bytes m m' : Forall is_byte bytes → console_input bytes m = Some (tt, m') → machine_step m m'
| ms_output out m m' : take_console m = Some (out, m') → machine_step m m'
| ms_frame frame r m m' :
    Forall is_byte frame → on_bus (DeviceBus.net_inject_frame frame) m = Some (r, m') → machine_step m m'
| ms_attach d r m m' :
    dev_inv d → on_bus (DeviceBus.attach_virtio d) m = Some (r, m') → machine_step m m'
| ms_attach_net mac r m m' :
    Forall is_byte mac → on_bus (DeviceBus.attach_virtio_net mac) m = Some (r, m') → machine_step m m'
| ms_clock ns m : urange 64 ns → machine_step m (m <| host_ns := ns |>)
| ms_handback on m : machine_step m (set_idle_handback on m).

Section Reach.
Context {D : Type} {VD : VirtioDevice D} {DV : Devices D} {DO : DeviceOk D} {DS : DevicesOk D}.
Context {PR : Profile} {T : Target} {Ht : TargetOk T} {L : Libm} {LO : LibmOk}.

Lemma mk_take : keeps True (machine_wf (D := D)) take_console (λ _, True).
Proof.
  apply keeps_seq; [apply mk_drain|]. eapply keeps_bind; [apply mk_any|]. intros c _.
  apply keeps_seq; [machine_upd|apply mk_ret].
Qed.

Lemma fresh_wf b s n : sup_wf s → bus_wf b → urange 64 n → machine_wf (fresh (D := D) b s n).
Proof. intros Hs Hb Hn. constructor; cbn; rewrite ?Forall_cons; first [done|by split_and!]. Qed.

Lemma set_clock_wf (m : t D) ns : urange 64 ns → machine_wf m → machine_wf (m <| host_ns := ns |>).
Proof.
  intros Hn []. constructor; try assumption. cbn. rewrite !Forall_cons in mc_words0 |- *.
  by destruct_and! mc_words0; split_and!.
Qed.

Lemma machine_step_wf (m m' : t D) : machine_step m m' → machine_wf m → machine_wf m'.
Proof.
  intros Hs Hm.
  assert (Hrun : ∀ {A} (c : M (t D) A) R r, keeps True machine_wf c R → c m = Some (r, m') → machine_wf m').
  { intros A c R r Hc E. pose proof (Hc m Hm) as Hw. unfold wp in Hw. rewrite E in Hw. by destruct Hw. }
  destruct Hs.
  - eapply Hrun; [by apply mk_run|done].
  - eapply Hrun; [by apply mk_bus, bk_push_input|done].
  - eapply Hrun; [apply mk_take|done].
  - eapply Hrun; [by apply mk_bus, bk_inject|done].
  - eapply Hrun; [by apply mk_bus, attach_keeps|done].
  - eapply Hrun; [by apply mk_bus, attach_net_keeps|done].
  - by apply set_clock_wf.
  - destruct Hm. unfold set_idle_handback. cbv zeta. by destruct on.
Qed.
End Reach.

(** * Properties *)

(** C2: the whole machine stays well formed.  Whatever the guest executes and
    the host does, in any order and any number of times (running the machine,
    typing, draining the console, delivering frames, attaching devices, moving
    the host clock), every state that is reached satisfies the invariants of
    all components at once: the hart's registers and CSRs and the cached
    decodes, the bitmap and arrays of the interrupt controller, the bytes and
    size of DRAM under DMA, the CLINT and UART registers, the queues and
    completions of every virtio slot and the state of the device behind it. *)
Theorem machine_invariant {D} {VD : VirtioDevice D} {DV : Devices D} {DO : DeviceOk D} {DS : DevicesOk D}
    {PR : Profile} {T : Target} {Ht : TargetOk T} {L : Libm} {LO : LibmOk} (m m' : t D) :
  rtc machine_step m m' → machine_wf m → machine_wf m'.
Proof.
  induction 1 as [m|m m1 m2 Hs _ IH]; intros Hm; [done|]. apply IH. by eapply machine_step_wf.
Qed.

(** C20: why [run] returns.  It executes at most [budget] instructions.  It stops
    short only with the hart parked by WFI and the host having something to do:
    either a frame that the guest has sent waits for it, or [idle_until] is the
    guest's next deadline (the earlier of stimecmp and mtimecmp), which lies ahead
    of the guest clock and is not the no-deadline value.  So a parked hart without
    a deadline and without a frame keeps turning until the budget is used up, and
    then, as in the case of the frame, [idle_until] is 0. *)
Theorem run_returns_early {D} {VD : VirtioDevice D} {DV : Devices D} {DO : DeviceOk D} {DS : DevicesOk D}
    {PR : Profile} {T : Target} {Ht : TargetOk T} {L : Libm} {LO : LibmOk} budget n (m m' : t D) :
  machine_wf m → 0 <= budget → run budget m = Some (n, m') →
  let next := Z.min (Sup.stimecmp (cpu m')) (DeviceBus.mtimecmp (bus m')) in
  0 <= n <= budget
  ∧ (n < budget →
       Sup.wfi (cpu m') = true
       ∧ (frame_waiting m' = true ∧ idle_until m' = 0
          ∨ idle_until m' = next ∧ DeviceBus.mtime (bus m') < next ∧ next ≠ U64_MAX))
  ∧ (n = budget → idle_until m' = 0)
  ∧ (frame_waiting m' = false → next = U64_MAX → n = budget).
Proof.
  intros Hm Hb E. cbv zeta. pose proof (mk_run budget Hb m Hm) as Hk. unfold wp in Hk. rewrite E in Hk.
  unfold run in E. erewrite M_bind_some in E by reflexivity.
  pose proof (run_loop_early (Z.to_nat budget) 0 (m <| idle_until := 0 |>) eq_refl) as He.
  unfold wp in He. rewrite E in He. rewrite Z.add_0_l, Z2Nat.id in He by done. destruct Hk as [Hk _].
  split; [done|]. split_and!.
  - intros Hn. by rewrite decide_True in He by done.
  - intros ->. by rewrite decide_False in He by lia.
  - intros Hf Hx. destruct (decide (n < budget)) as [Hn|]; [|lia].
    destruct He as [_ [[Hf' _]|(_ & _ & Hd)]]; [congruence|]. by unfold deadline in Hd.
Qed.

(** C21: a boot puts everything where the kernel looks for it, and tells the
    kernel so.  For images of bytes, a devicetree with one memory bank and one
    initrd range (the serialisation of any tree of tokens with these, below 256
    MiB), memory for all of them above the kernel and less of it than a [Vec] of
    the host can hold, [Machine::new] succeeds in every build and on every host:
    DRAM holds the kernel at its text offset, the initrd at the 64 KiB boundary
    16 MiB below the top, and below it the serialisation of the same tree in
    which the bank is the machine's DRAM, [linux,initrd-start] and
    [linux,initrd-end] are the two ends of the initrd just mentioned, and
    nothing else is changed; none overlaps another.  The hart starts at the
    kernel in supervisor mode with the hart id and the address of that
    devicetree in [a0] and [a1] and the stack 64 KiB below the top; and the
    machine is well formed. *)
Theorem boot_layout {D} {VD : VirtioDevice D} {DV : Devices D} {DO : DeviceOk D} {DS : DevicesOk D}
    {PR : Profile} {T : Target} {Ht : TargetOk T} kernel initrd strings tree mem start stop hdr dram :
  Forall is_byte kernel → Forall is_byte initrd → Forall is_byte (blob tree strings) →
  board_tree strings tree mem start stop → slice_get kernel 8 16 = Some hdr → 0 <= dram < 2 ^ (usize_bits - 1) →
  Z.of_nat (length initrd) + 0x1000000 <= dram →
  let kernel_load := DRAM_BASE + from_le_bytes hdr in
  let initrd_load := initrd_base dram (Z.of_nat (length initrd)) in
  let initrd_end := initrd_load + Z.of_nat (length initrd) in
  let dtb := blob (booted_tree tree mem start stop dram initrd_load initrd_end) strings in
  let dtb_load := dtb_base initrd_load (Z.of_nat (length dtb)) in
  kernel_load + Z.of_nat (length kernel) <= dtb_load →
  ∃ m : t D, new kernel initrd (blob tree strings) dram = Some m
    ∧ holds (bus m) kernel_load kernel ∧ holds (bus m) initrd_load initrd ∧ holds (bus m) dtb_load dtb
    ∧ boots (cpu m) kernel_load dtb_load (DRAM_BASE + dram - 0x10000) ∧ machine_wf m.
Proof.
  intros Hk Hi Hb Hbt Eh Hdr Hfit kl il ie dtb dl Hroom. pose proof usize_half as [_ Hw].
  assert (HB : DRAM_BASE = 0x80000000) by done.
  pose proof (booted_tree_bytes strings tree mem start stop dram il ie Hb) as Hd. fold dtb in Hd.
  pose proof (patch_dtb_exact strings tree mem start stop dram il ie Hbt) as Ep. fold dtb in Ep. clearbody dtb.
  assert (Ht0 : 0 <= from_le_bytes hdr).
  { apply from_le_bytes_range. unfold slice_get in Eh. destruct (_ && _); [|done]. injection Eh as <-.
    by apply Forall_take, Forall_drop. }
  pose proof (initrd_below dram (Z.of_nat (length initrd))) as Hil. fold il in Hil.
  pose proof (dtb_below il (Z.of_nat (length dtb))) as Hdl. fold dl in Hdl. unfold kl in Hroom.
  destruct (boot_loads (DeviceBus.new (D := D) dram) kl kernel il initrd dl dtb)
    as ((E1 & E2 & E3) & Hb3 & Hhk & Hhi & Hhd);
    [by apply bus_new_wf|done|done|done|split; cbn; unfold kl; lia|split; cbn; lia|split; cbn; lia|done|lia|].
  destruct (boot_cpu_run kl dl (DRAM_BASE + dram - 0x10000)) as (s & Es & Hs & Hsw);
    [unfold urange, kl; lia|unfold urange; lia|unfold urange; lia|].
  exists (fresh (loaded (loaded (loaded (DeviceBus.new dram) kl kernel) il initrd) dl dtb) s 0).
  split; [|split_and!; [done..|]; by apply fresh_wf].
  unfold new. rewrite Eh. cbn [mbind option_bind].
  rewrite (add_u_small 64 DRAM_BASE (from_le_bytes hdr)) by (unfold urange; lia). cbn [mbind option_bind].
  fold kl. rewrite E1. cbn [mbind option_bind].
  rewrite initrd_addr_run by lia. cbn [mbind option_bind]. fold il. rewrite E2. cbn [mbind option_bind].
  rewrite (add_u_small 64 il (Z.of_nat (length initrd))) by (unfold urange; lia). cbn [mbind option_bind]. fold ie. rewrite Ep. cbn [mbind option_bind].
  rewrite dtb_addr_run by lia. cbn [mbind option_bind]. fold dl. rewrite E3. cbn [mbind option_bind].
  rewrite add_u_small by (unfold urange; lia). cbn [mbind option_bind].
  rewrite sub_u_small by (unfold urange; lia). cbn [mbind option_bind]. by rewrite Es.
Qed.

(** ** Concrete machines *)

(** A board with a guest that executes [wfi], a timer at guest time 10^6 and a
    host clock. *)
Definition sleepy_board : DeviceBus.t AnyDevice :=
  (loaded demo_bus 0x80000000 (to_le_bytes 4 0x10500073)) <| DeviceBus.mtimecmp := 1000000 |>.
Definition sleepy_hart : Sup.t := (Sup.new 0x80000000 0) <| Sup.console_buf := [] |>.
Definition sleepy : t AnyDevice := (fresh sleepy_board sleepy_hart 0) <| host_ns := 5 |>.
Abbreviation demo_run := (@run _ demo_dev demo_devs Release Wasm32 ref_libm).
Definition slept : t AnyDevice := match demo_run 10 sleepy with Some (_, m) => m | None => sleepy end.

Lemma demo_board_wf : @bus_wf _ demo_dev (@any_ok Release Wasm32 wasm_ok) Wasm32 demo_bus.
Proof.
  pose proof (bus_new_wf (D := AnyDevice) (VD := demo_dev) (DO := @any_ok Release Wasm32 wasm_ok) (T := Wasm32) 256 ltac:(done)) as H0.
  assert (Hd : @any_inv Release Wasm32 (Disk (VirtioBlk.new (InMemory (MemBackend.mk (replicate 512 0)))))).
  { split; [apply Forall_replicate; by unfold is_byte, urange|]. vm_compute. by repeat constructor. }
  assert (Hk : keeps True (@bus_wf _ demo_dev (@any_ok Release Wasm32 wasm_ok) Wasm32)
    (@DeviceBus.attach_virtio _ (Disk (VirtioBlk.new (InMemory (MemBackend.mk (replicate 512 0)))));;
     @DeviceBus.attach_virtio_net _ demo_dev demo_devs [2; 0; 0; 0; 0; 1]) (λ _, True)).
  { apply keeps_seq; [by apply attach_keeps|]. apply attach_net_keeps. vm_compute. by repeat constructor. }
  pose proof (Hk _ H0) as Hw. unfold wp in Hw. unfold demo_bus. cbv zeta.
  match type of Hw with match ?c with _ => _ end => destruct c as [[r b]|]; [apply Hw|exact H0] end.
Qed.

Lemma set_console_wf s l : sup_wf s → sup_wf (s <| Sup.console_buf := l |>).
Proof. intros []. by constructor. Qed.

Lemma sleepy_board_wf : @bus_wf _ demo_dev (@any_ok Release Wasm32 wasm_ok) Wasm32 sleepy_board.
Proof.
  apply set_mtimecmp_wf; [by unfold urange|].
  apply loaded_wf; [apply demo_board_wf|split; vm_compute; discriminate|apply to_le_bytes_bytes].
Qed.

Lemma sleepy_wf : @machine_wf _ demo_dev (@any_ok Release Wasm32 wasm_ok) Wasm32 sleepy.
Proof.
  apply set_clock_wf; [by unfold urange|]. apply fresh_wf; [|apply sleepy_board_wf|by unfold urange].
  apply set_console_wf, sup_new_wf; by unfold urange.
Qed.

Lemma machine_invariant_witness : @machine_wf _ demo_dev (@any_ok Release Wasm32 wasm_ok) Wasm32 slept.
Proof.
  apply (@machine_invariant _ demo_dev demo_devs (@any_ok Release Wasm32 wasm_ok)
    (@any_devices_ok Release Wasm32 wasm_ok) Release Wasm32 wasm_ok ref_libm ref_libm_ok sleepy slept).
  - apply rtc_once. apply (ms_run 10 0); [lia|]. vm_compute. reflexivity.
  - apply sleepy_wf.
Defined.

Lemma run_returns_early_witness : Sup.wfi (cpu slept) = true ∧ idle_until slept = 1000000.
Proof.
  destruct (@run_returns_early _ demo_dev demo_devs (@any_ok Release Wasm32 wasm_ok)
    (@any_devices_ok Release Wasm32 wasm_ok) Release Wasm32 wasm_ok ref_libm ref_libm_ok 10 0 sleepy slept)
    as (_ & Hs & _).
  - apply sleepy_wf.
  - lia.
  - vm_compute. reflexivity.
  - destruct (Hs ltac:(lia)) as [Hw [[Hf _]|[Hi _]]].
    + vm_compute in Hf. discriminate Hf.
    + split; [exact Hw|]. rewrite Hi. vm_compute. reflexivity.
Defined.

(** A kernel of sixteen bytes for offset 2 MiB, an initrd of three, 64 MiB. *)
Definition demo_kernel : list Z := replicate 8 0 ++ to_le_bytes 8 0x200000.
Definition demo_strings : list Z := initrd_start_name ++ [0] ++ initrd_end_name ++ [0] ++ reg_name ++ [0].
Definition demo_tree (size a b : Z) : list token :=
  [TBegin []; TBegin memory_name; TProp 36 (to_be_bytes 8 0x80000000 ++ to_be_bytes 8 size); TEnd;
   TProp 0 (to_be_bytes 8 a); TProp 19 (to_be_bytes 8 b); TEnd].

(** The finitely many positions of a concrete tree. *)
Ltac each_token :=
  intros i t Ei; do 7 (destruct i as [|i]; [injection Ei as <-; cbn; intros; first [done|lia]|]); discriminate Ei.

Lemma demo_board_tree : board_tree demo_strings (demo_tree (2 ^ 30) 0 0) 2 4 5.
Proof.
  constructor.
  - unfold demo_tree. rewrite !Forall_cons. split_and!; try done; try (by cbn; lia); apply (bool_decide_unpack _); vm_compute; exact I.
  - vm_compute. reflexivity.
  - constructor. exists 1%nat, 3%nat, memory_name, 36, (to_be_bytes 8 0x80000000 ++ to_be_bytes 8 (2 ^ 30)).
    split_and!; try (by vm_compute); try lia; each_token.
  - constructor; [lia| | |each_token].
    + exists 0, (to_be_bytes 8 0). by vm_compute.
    + exists 19, (to_be_bytes 8 0). by vm_compute.
Qed.

Lemma boot_layout_witness :
  ∃ m : t AnyDevice,
    @new _ Release Wasm32 demo_kernel [1; 2; 3] (blob (demo_tree (2 ^ 30) 0 0) demo_strings) (2 ^ 26) = Some m
    ∧ holds (bus m) 0x82FF0000 [1; 2; 3]
    ∧ holds (bus m) 0x82FEE000 (blob (demo_tree (2 ^ 26) 0x82FF0000 0x82FF0003) demo_strings)
    ∧ boots (cpu m) 0x80200000 0x82FEE000 0x83FF0000.
Proof.
  destruct (@boot_layout AnyDevice demo_dev demo_devs (@any_ok Release Wasm32 wasm_ok)
    (@any_devices_ok Release Wasm32 wasm_ok) Release Wasm32 wasm_ok demo_kernel [1; 2; 3] demo_strings
    (demo_tree (2 ^ 30) 0 0) 2 4 5 (to_le_bytes 8 0x200000) (2 ^ 26))
    as (m & E & _ & Hi & Hd & Hs & _).
  - vm_compute. by repeat constructor.
  - vm_compute. by repeat constructor.
  - vm_compute. by repeat constructor.
  - exact demo_board_tree.
  - vm_compute. reflexivity.
  - vm_compute. split; [discriminate|reflexivity].
  - vm_compute. discriminate.
  - vm_compute. discriminate.
  - exists m. split; [exact E|]. split; [exact Hi|]. split; [exact Hd|exact Hs].
Defined.
