(* ===== verification/Snapshot.v ===== *)
(** Machine snapshots: [save_state] and [load_state] of the supervisor
    ([riscv-supervisor/src/supervisor.rs]) and of the bus
    ([riscv-devices/src/device_bus.rs]), and [save] and [restore] of the machine
    ([riscv-machine/src/lib.rs]).

    A saver appends to a [Writer]; a loader is a computation over what it fills
    in and the [Reader], whose result is the option that the source's [?]
    chains.  A panic is the outer [None], as everywhere. *)

From S2P Require Import Prelude Keeps State Stream Types SupTypes Cpu Mmu SupState Plic Virtio VirtioQueue VirtioBlk P9Fs Virtio9p DeviceBus Fpu Machine.

Definition done_some {S} : M S (option unit) := mret (Some tt).

(** [for i in 0..n { self.f[i] = read()?; }] *)
Definition load_each {S A} (n : nat) (m : M Reader.t (option A)) (set : nat → A → S → S)
    : M (S * Reader.t) (option unit) :=
  for_some n 0 (λ i, load_into m (set i) done_some).

(** A part of what is being filled in. *)
Definition load_part {S T A} (get : S → T) (put : T → S → S) (m : M (T * Reader.t) (option A))
    : M (S * Reader.t) (option A) := λ '(s, r),
  match m (get s, r) with Some (o, (t, r)) => Some (o, (put t s, r)) | None => None end.

(** A value filled in from [s], or nothing when the stream falls short. *)
Definition filled {S} (s : S) (m : M (S * Reader.t) (option unit)) : M Reader.t (option S) := λ r,
  match m (s, r) with
  | Some (o, (s, r)) => Some ((λ _, s) <$> o, r)
  | None => None
  end.

(** * The supervisor *)

Module SupSnap.

Definition save_state (s : Sup.t) (w : Writer.t) : Writer.t :=
  let c := Sup.cpu s in
  let w := foldl Writer.u64 w (Cpu.x c) in
  let w := foldl Writer.u64 w (Cpu.f c) in
  let w := Writer.u64 w (Cpu.pc c) in
  let w := Writer.u64 w (Cpu.fcsr c) in
  let w := Writer.bool w (Cpu.fs_dirty c) in
  let w := Writer.u8 w (priv_code (Sup.priv_level s)) in
  let w := Writer.u64 w (MStatus.to_bits (Sup.mstatus s)) in
  let w := Writer.u64 w (Sup.mie s) in
  let w := Writer.u64 w (Sup.mip s) in
  let w := Writer.u64 w (Sup.mtvec s) in
  let w := Writer.u64 w (Sup.mepc s) in
  let w := Writer.u64 w (Sup.mcause s) in
  let w := Writer.u64 w (Sup.mtval s) in
  let w := Writer.u64 w (Sup.mscratch s) in
  let w := Writer.u64 w (Sup.medeleg s) in
  let w := Writer.u64 w (Sup.mideleg s) in
  let w := Writer.u64 w (Sup.stvec s) in
  let w := Writer.u64 w (Sup.sepc s) in
  let w := Writer.u64 w (Sup.scause s) in
  let w := Writer.u64 w (Sup.stval s) in
  let w := Writer.u64 w (Sup.sscratch s) in
  let w := Writer.u64 w (Satp.to_bits (Sup.satp s)) in
  let w := Writer.u64 w (Sup.stimecmp s) in
  let w := Writer.u64 w (Sup.mcycle s) in
  let w := Writer.u64 w (Sup.minstret s) in
  let w := foldl Writer.u64 w (Sup.pmpcfg s) in
  let w := foldl Writer.u64 w (Sup.pmpaddr s) in
  let w := Writer.u64 w (Sup.mhartid s) in
  let w := Writer.bool w (Sup.wfi s) in
  let w := Writer.bool w (Sup.sbi_enabled s) in
  let w := Writer.u64 w (from_option id U64_MAX (Sup.reservation_addr s)) in
  Writer.bool w (bool_decide (is_Some (Sup.reservation_addr s))).

Definition priv_of (v : Z) : Privilege :=
  if v =? 0 then PUser else if v =? 1 then PSupervisor else PMachine.

Definition set_x (i : nat) (v : Z) (s : Sup.t) : Sup.t :=
  Sup.set_cpu ((Sup.cpu s) <| Cpu.x := <[i := v]> (Cpu.x (Sup.cpu s)) |>) s.
Definition set_f (i : nat) (v : Z) (s : Sup.t) : Sup.t :=
  Sup.set_cpu ((Sup.cpu s) <| Cpu.f := <[i := v]> (Cpu.f (Sup.cpu s)) |>) s.
Definition set_pmpcfg (i : nat) (v : Z) (s : Sup.t) : Sup.t :=
  s <| Sup.pmpcfg := <[i := v]> (Sup.pmpcfg s) |>.
Definition set_pmpaddr (i : nat) (v : Z) (s : Sup.t) : Sup.t :=
  s <| Sup.pmpaddr := <[i := v]> (Sup.pmpaddr s) |>.

(** The restored image is another machine's memory: the caches start cold. *)
Definition drop_caches (s : Sup.t) : Sup.t :=
  Sup.dcache_flush (s <| Sup.mmu := Mmu.flush_tlb (Sup.mmu s) |>).

Section Load.
Context `{Profile} `{Target}.

Definition load_state : M (Sup.t * Reader.t) (option unit) :=
  let? _ := load_each 32 Reader.u64 set_x in
  let? _ := load_each 32 Reader.u64 set_f in
  load_into Reader.u64 (λ v s, Sup.set_cpu ((Sup.cpu s) <| Cpu.pc := v |>) s) (
  load_into Reader.u64 (λ v s, Sup.set_cpu ((Sup.cpu s) <| Cpu.fcsr := v |>) s) (
  load_into Reader.bool (λ v s, Sup.set_cpu ((Sup.cpu s) <| Cpu.fs_dirty := v |>) s) (
  load_into Reader.u8 (λ v s, s <| Sup.priv_level := priv_of v |>) (
  load_into Reader.u64 (λ v s, s <| Sup.mstatus := MStatus.from_bits v |>) (
  load_into Reader.u64 (λ v s, s <| Sup.mie := v |>) (
  load_into Reader.u64 (λ v s, s <| Sup.mip := v |>) (
  load_into Reader.u64 (λ v s, s <| Sup.mtvec := v |>) (
  load_into Reader.u64 (λ v s, s <| Sup.mepc := v |>) (
  load_into Reader.u64 (λ v s, s <| Sup.mcause := v |>) (
  load_into Reader.u64 (λ v s, s <| Sup.mtval := v |>) (
  load_into Reader.u64 (λ v s, s <| Sup.mscratch := v |>) (
  load_into Reader.u64 (λ v s, s <| Sup.medeleg := v |>) (
  load_into Reader.u64 (λ v s, s <| Sup.mideleg := v |>) (
  load_into Reader.u64 (λ v s, s <| Sup.stvec := v |>) (
  load_into Reader.u64 (λ v s, s <| Sup.sepc := v |>) (
  load_into Reader.u64 (λ v s, s <| Sup.scause := v |>) (
  load_into Reader.u64 (λ v s, s <| Sup.stval := v |>) (
  load_into Reader.u64 (λ v s, s <| Sup.sscratch := v |>) (
  load_into Reader.u64 (λ v s, s <| Sup.satp := Satp.from_bits v |>) (
  load_into Reader.u64 (λ v s, s <| Sup.stimecmp := v |>) (
  load_into Reader.u64 (λ v s, s <| Sup.mcycle := v |>) (
  load_into Reader.u64 (λ v s, s <| Sup.minstret := v |>) (
  let? _ := load_each 16 Reader.u64 set_pmpcfg in
  let? _ := load_each 64 Reader.u64 set_pmpaddr in
  load_into Reader.u64 (λ v s, s <| Sup.mhartid := v |>) (
  load_into Reader.bool (λ v s, s <| Sup.wfi := v |>) (
  load_into Reader.bool (λ v s, s <| Sup.sbi_enabled := v |>) (
  let? addr := on_snd Reader.u64 in
  load_into Reader.bool (λ v s, s <| Sup.reservation_addr := if v : bool then Some addr else None |>) (
  on_fst (modify drop_caches);; done_some))))))))))))))))))))))))))).
End Load.
End SupSnap.

(** * The bus *)

Definition PAGE : nat := 4096.

Module BusSnap.
Section Ops.
Context {D : Type} `{Devices D} `{Profile} `{Target}.
Implicit Types b : DeviceBus.t D.

Definition page (l : list Z) (i : nat) : list Z := take PAGE (drop (i * PAGE) l).
(** [page.iter().any(|&b| b != 0)] *)
Definition in_use (p : list Z) : bool := existsb (λ x, negb (x =? 0)) p.
Definition used_pages (l : list Z) : list nat :=
  filter (λ i, in_use (page l i) = true) (seq 0 (length l / PAGE)).
Definition save_page (l : list Z) (w : Writer.t) (i : nat) : Writer.t :=
  Writer.push (Writer.u64 w (Z.of_nat i)) (page l i).

Definition save_dram (l : list Z) (w : Writer.t) : Writer.t :=
  let w := Writer.u64 w (Z.of_nat (length (used_pages l))) in
  foldl (save_page l) w (used_pages l).

Definition save_plic (p : Plic.t) (w : Writer.t) : Writer.t :=
  let w := foldl Writer.u32 w (Plic.priority p) in
  let w := foldl Writer.bool w (Plic.level p) in
  let w := foldl Writer.bool w (Plic.claimed p) in
  let w := foldl (foldl Writer.u32) w (Plic.enable p) in
  foldl Writer.u32 w (Plic.threshold p).

(** [None]: the device cannot snapshot itself. *)
Definition save_slot (o : option (VirtioMmio.t D)) (w : Writer.t) : option Writer.t :=
  match o with
  | None => Some (Writer.bool w false)
  | Some v =>
      let w := Writer.bool w true in
      blob ← dev_state (VirtioMmio.dev v);
      let w := Writer.u32 w (device_id (VirtioMmio.dev v)) in
      Some (VirtioMmio.save_state v (Writer.bytes w blob))
  end.
Fixpoint save_slots (l : list (option (VirtioMmio.t D))) (w : Writer.t) : option Writer.t :=
  match l with
  | [] => Some w
  | o :: l => w ← save_slot o w; save_slots l w
  end.

Definition save_state b (w : Writer.t) : option Writer.t :=
  let w := Writer.u64 w (DeviceBus.dram_size b) in
  let w := save_dram (DeviceBus.dram b) w in
  let w := Writer.u64 w (DeviceBus.mtime b) in
  let w := Writer.u64 w (DeviceBus.mtimecmp b) in
  let w := Writer.u32 w (DeviceBus.msoft b) in
  let w := Writer.u64 w (DeviceBus.tick_accum b) in
  let w := Writer.u8 w (DeviceBus.uart_mcr b) in
  let w := Writer.u8 w (DeviceBus.uart_scr b) in
  let w := Writer.u8 w (DeviceBus.uart_ier b) in
  let w := Writer.u8 w (DeviceBus.uart_fcr b) in
  let w := Writer.u8 w (DeviceBus.uart_lcr b) in
  let w := Writer.u8 w (DeviceBus.uart_dll b) in
  let w := Writer.u8 w (DeviceBus.uart_dlm b) in
  let w := Writer.bytes w (DeviceBus.uart_rx b) in
  let w := save_plic (DeviceBus.plic b) w in
  w ← save_slots (DeviceBus.virtio b) w;
  Some (Writer.u64 w (DeviceBus.net_poll_accum b)).

(** ** Loading *)

Abbreviation LM := (M (DeviceBus.t D * Reader.t)).

(** [r.buf.get(r.pos..r.pos + PAGE)?] and [r.pos += PAGE] *)
Definition read_page : M Reader.t (option (list Z)) := Reader.take (Z.of_nat PAGE).

(** One page: its number, its place by [checked_mul], its bytes. *)
Definition load_page : LM (option unit) :=
  let? i := on_snd Reader.u64 in
  let at_ := as_usize i * Z.of_nat PAGE in
  if 2 ^ usize_bits <=? at_ then mret None
  else
    let? p := on_snd read_page in
    e ← lift (add_u usize_bits at_ (Z.of_nat PAGE));
    l ← on_fst (get DeviceBus.dram);
    match slice_get l at_ e with
    | None => mret None
    | Some _ => on_fst (modify (λ b, b <| DeviceBus.dram := splice (DeviceBus.dram b) at_ p |>));; done_some
    end.

(** Every page consumes bytes of the stream, so one more than its length is
    fuel enough. *)
Fixpoint load_pages (fuel : nat) (n : Z) : LM (option unit) :=
  if n <=? 0 then done_some
  else match fuel with
  | O => mret None
  | S fuel => let? _ := load_page in load_pages fuel (n - 1)
  end.

Definition set_enable (c i : nat) (v : Z) (p : Plic.t) : Plic.t :=
  p <| Plic.enable := alter (λ row, <[i := v]> row) c (Plic.enable p) |>.

(** The saved arrays; [claimable] is derived, and recomputed below. *)
Definition load_lines : M (Plic.t * Reader.t) (option unit) :=
  let? _ := load_each PLIC_NSRC Reader.u32 (λ i v p, p <| Plic.priority := <[i := v]> (Plic.priority p) |>) in
  let? _ := load_each PLIC_NSRC Reader.bool (λ i v p, p <| Plic.level := <[i := v]> (Plic.level p) |>) in
  let? _ := load_each PLIC_NSRC Reader.bool (λ i v p, p <| Plic.claimed := <[i := v]> (Plic.claimed p) |>) in
  let? _ := for_some PLIC_NCTX 0 (λ c, load_each PLIC_WORDS Reader.u32 (set_enable c)) in
  load_each PLIC_NCTX Reader.u32 (λ c v p, p <| Plic.threshold := <[c := v]> (Plic.threshold p) |>).

Definition load_plic : M (Plic.t * Reader.t) (option unit) :=
  let? _ := load_lines in
  for_some PLIC_NSRC 0 (λ i, on_fst (Plic.recalc_claimable i);; done_some).

(** [bus.virtio[slot].as_mut()?] and a method of the transport there *)
Definition in_slot (i : nat) (m : M (VirtioMmio.t D * Reader.t) (option unit)) : LM (option unit) :=
  o ← on_fst (DeviceBus.slot_at i);
  match o with
  | None => mret None
  | Some v => load_part (λ _, v) (DeviceBus.set_slot i) m
  end.

(** [dev.dev.load_dev_state(&blob)?] *)
Definition load_dev (blob : list Z) : M (VirtioMmio.t D * Reader.t) (option unit) :=
  on_fst (zoom VirtioMmio.dev VirtioMmio.set_dev (load_dev_state blob)).

(** [(0..n).rev().find(|&i| v[i].is_some())] *)
Fixpoint last_some {A} (l : list (option A)) (i : nat) : option nat :=
  match l with
  | [] => None
  | o :: l => match last_some l (S i) with
              | Some j => Some j
              | None => match o with Some _ => Some i | None => None end
              end
  end.

Definition load_net_slot (blob : list Z) : LM (option unit) :=
  o ← lift (fst <$> Reader.bytes (Reader.new blob));
  match o with
  | None => mret None
  | Some mac_b =>
      match slice_get mac_b 0 6 with
      | None => mret None
      | Some mac =>
          let? _ := on_fst (DeviceBus.attach_virtio_net mac) in
          l ← on_fst (get DeviceBus.virtio);
          match last_some l 0 with
          | None => mret None
          | Some slot => in_slot slot (let? _ := load_dev blob in VirtioMmio.load_state)
          end
      end
  end.

Definition load_fresh (d : D) : LM (option unit) :=
  let? irq := on_fst (DeviceBus.attach_virtio d) in
  in_slot (irq - 1) VirtioMmio.load_state.

Definition load_slot : LM (option unit) :=
  let? here := on_snd Reader.bool in
  if negb here then done_some
  else
    let? kind := on_snd Reader.u32 in
    let? blob := on_snd Reader.bytes in
    if kind =? 1 then load_net_slot blob
    else if kind =? 2 then
      match slice_get blob 0 8 with
      | None => mret None
      | Some sect => load_fresh (new_blk (Detached (DetachedBackend.mk (from_le_bytes sect))))
      end
    else if kind =? 9 then load_fresh (new_p9 false (from_utf8_lossy blob))
    else mret None.

Definition load_rest : LM (option unit) :=
  load_into Reader.u64 (λ v b, b <| DeviceBus.mtime := v |>) (
  load_into Reader.u64 (λ v b, b <| DeviceBus.mtimecmp := v |>) (
  load_into Reader.u32 (λ v b, b <| DeviceBus.msoft := v |>) (
  load_into Reader.u64 (λ v b, b <| DeviceBus.tick_accum := v |>) (
  load_into Reader.u8 (λ v b, b <| DeviceBus.uart_mcr := v |>) (
  load_into Reader.u8 (λ v b, b <| DeviceBus.uart_scr := v |>) (
  load_into Reader.u8 (λ v b, b <| DeviceBus.uart_ier := v |>) (
  load_into Reader.u8 (λ v b, b <| DeviceBus.uart_fcr := v |>) (
  load_into Reader.u8 (λ v b, b <| DeviceBus.uart_lcr := v |>) (
  load_into Reader.u8 (λ v b, b <| DeviceBus.uart_dll := v |>) (
  load_into Reader.u8 (λ v b, b <| DeviceBus.uart_dlm := v |>) (
  load_into Reader.bytes (λ v b, b <| DeviceBus.uart_rx := DeviceBus.uart_rx b ++ v |>) (
  let? _ := load_part DeviceBus.plic DeviceBus.set_plic load_plic in
  let? _ := for_some VIRTIO_MMIO_SLOTS 0 (λ _, load_slot) in
  load_into Reader.u64 (λ v b, b <| DeviceBus.net_poll_accum := v |>) done_some)))))))))))).

(** A DRAM size that no allocation can have panics. *)
Definition load_state : M Reader.t (option (DeviceBus.t D)) :=
  let? size := Reader.u64 in
  let size := as_usize size in
  b0 ← lift (if size <? 2 ^ (usize_bits - 1) then Some (DeviceBus.new size) else None);
  filled b0 (let? used := on_snd Reader.u64 in
             fuel ← on_snd (get (λ r, S (length (Reader.buf r))));
             let? _ := load_pages fuel used in
             load_rest).
End Ops.
End BusSnap.

(** * The machine *)

(** "RVSNAP01" *)
Definition SNAP_MAGIC : list Z := [82; 86; 83; 78; 65; 80; 48; 49].

Module MachineSnap.
Section Ops.
Context {D : Type} `{Devices D} `{Profile} `{Target} `{Libm}.

(** The console output is collected and dropped; [None]: a device cannot
    snapshot itself. *)
Definition save : M (Machine.t D) (option (list Z)) :=
  Machine.take_console;;
  m ← get id;
  let w := Writer.push Writer.default SNAP_MAGIC in
  let w := Writer.u64 w (Machine.steps m) in
  let w := SupSnap.save_state (Machine.cpu m) w in
  mret (Writer.buf <$> BusSnap.save_state (Machine.bus m) w).

Definition restore_from : M Reader.t (option (Machine.t D)) :=
  let? steps := Reader.u64 in
  let? cpu := filled (Sup.new DRAM_BASE 0) SupSnap.load_state in
  let? bus := BusSnap.load_state in
  mret (Some (Machine.fresh bus cpu steps)).

Definition restore (bytes : list Z) : option (option (Machine.t D)) :=
  match slice_get bytes 0 8 with
  | None => Some None
  | Some magic =>
      if bool_decide (magic = SNAP_MAGIC) then fst <$> restore_from (Reader.mk bytes 8) else Some None
  end.
End Ops.
End MachineSnap.
