(* ===== verification/SnapshotProps.v ===== *)
(** A snapshot restores the machine.

    [thaw] says what a restored hart, device, slot and bus look like: the saved
    state with cold caches, empty host queues, detached storage and an empty
    share.  The loaders read exactly what the savers wrote and produce it, for
    every well-formed machine, so a restored machine differs from the saved one
    in nothing the snapshot claims to keep; saving it again gives the same
    bytes. *)

From S2P Require Import Prelude Keeps State Stream Types SupTypes Cpu Mmu SupState MmuSafe SupSafe Plic Virtio VirtioSg VirtioQueue VirtioBlk VirtioNet VirtioSafe P9Fs Virtio9p P9Safe DeviceBus BusProps BusSafe Fpu Machine MachineProps Snapshot.

Abbreviation reads := Stream.reads.
Abbreviation loads := Stream.loads.

(** * Lists of fields *)

Definition set_list {S A} (set : nat → A → S → S) (i : nat) (xs : list A) (s : S) : S :=
  (foldl (λ '(j, s) x, (j + 1, set j x s))%nat (i, s) xs).2.

(** Setting every element through a getter and a setter of the list. *)
Lemma set_list_lens {S A} (get : S → list A) (put : list A → S → S) (set : nat → A → S → S) :
  (∀ i x s, set i x s = put (<[i := x]> (get s)) s) →
  (∀ l s, get (put l s) = l) → (∀ l l' s, put l (put l' s) = put l s) → (∀ s, put (get s) s = s) →
  ∀ xs i s, set_list set i xs s = put (list_inserts i xs (get s)) s.
Proof.
  intros Hset Hgp Hpp Hpg xs. unfold set_list. induction xs as [|x xs IH]; intros i s; cbn [foldl].
  - cbn. by rewrite Hpg.
  - rewrite IH, Hset, Hgp, Hpp. cbn [list_inserts]. rewrite list_insert_inserts_lt by lia.
    by rewrite Nat.add_1_r.
Qed.

Lemma inserts_all {A} (xs l : list A) : length xs = length l → list_inserts 0 xs l = xs.
Proof. intros Hl. pose proof (list_inserts_0_l xs [] l Hl) as E. by rewrite app_nil_r in E. Qed.

Section Fields.
Context {PR : Profile} {T : Target} {Ht : TargetOk T}.

Lemma loads_each {S A} n (m : M Reader.t (option A)) (set : nat → A → S → S) (bytes : A → list Z) xs :
  length xs = n → (∀ x, x ∈ xs → reads m (bytes x) x) →
  loads (load_each n m set) (concat (bytes <$> xs)) (set_list set 0 xs) tt.
Proof.
  intros <- Hm. apply (loads_for xs _ bytes set 0%nat). intros k x Hx.
  apply loads_into_last, Hm. by eapply list_elem_of_lookup_2.
Qed.

Lemma loads_u64s {S} n (set : nat → Z → S → S) xs :
  length xs = n → Forall (urange 64) xs →
  loads (load_each n Reader.u64 set) (concat (to_le_bytes 8 <$> xs)) (set_list set 0 xs) tt.
Proof. intros Hl Hx. apply loads_each; [done|]. intros x Hin. apply reads_u64. rewrite Forall_forall in Hx. auto. Qed.

Lemma loads_u32s {S} n (set : nat → Z → S → S) xs :
  length xs = n → Forall (urange 32) xs →
  loads (load_each n Reader.u32 set) (concat (to_le_bytes 4 <$> xs)) (set_list set 0 xs) tt.
Proof. intros Hl Hx. apply loads_each; [done|]. intros x Hin. apply reads_u32. rewrite Forall_forall in Hx. auto. Qed.

Lemma loads_bools {S} n (set : nat → bool → S → S) xs :
  length xs = n → loads (load_each n Reader.bool set) (concat ((λ b, [b2z b]) <$> xs)) (set_list set 0 xs) tt.
Proof. intros Hl. apply loads_each; [done|]. intros x _. apply reads_bool. Qed.

(** Updating what was read, without reading. *)
Lemma loads_upd {S} (f : S → S) : loads (on_fst (modify f);; done_some) [] f tt.
Proof. intros s pre post _. by rewrite app_nil_r. Qed.

Lemma loads_part {S X B} (get : S → X) (put : X → S → S) (m : M (X * Reader.t) (option B)) l f b :
  loads m l f b → loads (load_part get put m) l (λ s, put (f (get s)) s) b.
Proof. intros Hm s pre post Hf. unfold load_part. by rewrite Hm. Qed.

Lemma reads_filled {S} (s : S) m l f : loads m l f tt → reads (filled s m) l (f s).
Proof. intros Hm pre post Hf. unfold filled. by rewrite Hm. Qed.
End Fields.

Lemma wrote_u64s xs : wrote (λ w, foldl Writer.u64 w xs) (concat (to_le_bytes 8 <$> xs)).
Proof. apply wrote_foldl. intros x _. apply wrote_u64. Qed.
Lemma wrote_u32s xs : wrote (λ w, foldl Writer.u32 w xs) (concat (to_le_bytes 4 <$> xs)).
Proof. apply wrote_foldl. intros x _. apply wrote_u32. Qed.
Lemma wrote_bools xs : wrote (λ w, foldl Writer.bool w xs) (concat ((λ b, [b2z b]) <$> xs)).
Proof. apply wrote_foldl. intros x _. apply wrote_bool. Qed.

(** * The hart *)

Definition sup_bytes (s : Sup.t) : list Z :=
  let c := Sup.cpu s in
  concat (to_le_bytes 8 <$> Cpu.x c) ++ concat (to_le_bytes 8 <$> Cpu.f c)
  ++ to_le_bytes 8 (Cpu.pc c) ++ to_le_bytes 8 (Cpu.fcsr c) ++ [b2z (Cpu.fs_dirty c)]
  ++ [priv_code (Sup.priv_level s)] ++ to_le_bytes 8 (MStatus.to_bits (Sup.mstatus s))
  ++ to_le_bytes 8 (Sup.mie s) ++ to_le_bytes 8 (Sup.mip s) ++ to_le_bytes 8 (Sup.mtvec s)
  ++ to_le_bytes 8 (Sup.mepc s) ++ to_le_bytes 8 (Sup.mcause s) ++ to_le_bytes 8 (Sup.mtval s)
  ++ to_le_bytes 8 (Sup.mscratch s) ++ to_le_bytes 8 (Sup.medeleg s) ++ to_le_bytes 8 (Sup.mideleg s)
  ++ to_le_bytes 8 (Sup.stvec s) ++ to_le_bytes 8 (Sup.sepc s) ++ to_le_bytes 8 (Sup.scause s)
  ++ to_le_bytes 8 (Sup.stval s) ++ to_le_bytes 8 (Sup.sscratch s) ++ to_le_bytes 8 (Satp.to_bits (Sup.satp s))
  ++ to_le_bytes 8 (Sup.stimecmp s) ++ to_le_bytes 8 (Sup.mcycle s) ++ to_le_bytes 8 (Sup.minstret s)
  ++ concat (to_le_bytes 8 <$> Sup.pmpcfg s) ++ concat (to_le_bytes 8 <$> Sup.pmpaddr s)
  ++ to_le_bytes 8 (Sup.mhartid s) ++ [b2z (Sup.wfi s)] ++ [b2z (Sup.sbi_enabled s)]
  ++ to_le_bytes 8 (from_option id U64_MAX (Sup.reservation_addr s))
  ++ [b2z (bool_decide (is_Some (Sup.reservation_addr s)))].

Lemma save_sup_wrote s : wrote (SupSnap.save_state s) (sup_bytes s).
Proof.
  intros w. unfold SupSnap.save_state, sup_bytes. cbv zeta.
  cbn [Writer.u8 Writer.u64 Writer.bool Writer.push Writer.buf].
  rewrite (wrote_u64s (Sup.pmpaddr s)), (wrote_u64s (Sup.pmpcfg s)).
  cbn [Writer.u8 Writer.u64 Writer.bool Writer.push Writer.buf].
  rewrite (wrote_u64s (Cpu.f _)), (wrote_u64s (Cpu.x _)). by rewrite <- !app_assoc.
Qed.

(** The registers of [c]; what compiled code leaves in the hart is not kept. *)
Definition thaw_cpu (c : Cpu.t) : Cpu.t :=
  (Cpu.new DRAM_BASE) <| Cpu.x := Cpu.x c |> <| Cpu.f := Cpu.f c |> <| Cpu.pc := Cpu.pc c |>
    <| Cpu.fcsr := Cpu.fcsr c |> <| Cpu.fs_dirty := Cpu.fs_dirty c |>.

(** The registers, control registers and counters of [s], in a new hart. *)
Definition thaw_sup (s : Sup.t) : Sup.t :=
  SupSnap.drop_caches ((Sup.new DRAM_BASE 0)
    <| Sup.cpu := thaw_cpu (Sup.cpu s) |> <| Sup.priv_level := Sup.priv_level s |> <| Sup.mstatus := Sup.mstatus s |>
    <| Sup.mie := Sup.mie s |> <| Sup.mip := Sup.mip s |> <| Sup.mtvec := Sup.mtvec s |>
    <| Sup.mepc := Sup.mepc s |> <| Sup.mcause := Sup.mcause s |> <| Sup.mtval := Sup.mtval s |>
    <| Sup.mscratch := Sup.mscratch s |> <| Sup.medeleg := Sup.medeleg s |> <| Sup.mideleg := Sup.mideleg s |>
    <| Sup.stvec := Sup.stvec s |> <| Sup.sepc := Sup.sepc s |> <| Sup.scause := Sup.scause s |>
    <| Sup.stval := Sup.stval s |> <| Sup.sscratch := Sup.sscratch s |> <| Sup.satp := Sup.satp s |>
    <| Sup.stimecmp := Sup.stimecmp s |> <| Sup.mcycle := Sup.mcycle s |> <| Sup.minstret := Sup.minstret s |>
    <| Sup.pmpcfg := Sup.pmpcfg s |> <| Sup.pmpaddr := Sup.pmpaddr s |> <| Sup.mhartid := Sup.mhartid s |>
    <| Sup.wfi := Sup.wfi s |> <| Sup.sbi_enabled := Sup.sbi_enabled s |>
    <| Sup.reservation_addr := Sup.reservation_addr s |>).

Section Hart.
Context {PR : Profile} {T : Target} {Ht : TargetOk T}.

Lemma set_x_list xs s : length xs = length (Cpu.x (Sup.cpu s)) →
  set_list SupSnap.set_x 0 xs s = Sup.set_cpu ((Sup.cpu s) <| Cpu.x := xs |>) s.
Proof.
  intros Hl. rewrite (set_list_lens (λ s, Cpu.x (Sup.cpu s)) (λ l s, Sup.set_cpu ((Sup.cpu s) <| Cpu.x := l |>) s));
    [by rewrite inserts_all|done..|by intros [[]]].
Qed.
Lemma set_f_list xs s : length xs = length (Cpu.f (Sup.cpu s)) →
  set_list SupSnap.set_f 0 xs s = Sup.set_cpu ((Sup.cpu s) <| Cpu.f := xs |>) s.
Proof.
  intros Hl. rewrite (set_list_lens (λ s, Cpu.f (Sup.cpu s)) (λ l s, Sup.set_cpu ((Sup.cpu s) <| Cpu.f := l |>) s));
    [by rewrite inserts_all|done..|by intros [[]]].
Qed.
Lemma set_pmpcfg_list xs s : length xs = length (Sup.pmpcfg s) →
  set_list SupSnap.set_pmpcfg 0 xs s = s <| Sup.pmpcfg := xs |>.
Proof.
  intros Hl. rewrite (set_list_lens Sup.pmpcfg (λ l s, s <| Sup.pmpcfg := l |>)); [by rewrite inserts_all|done..|by intros []].
Qed.
Lemma set_pmpaddr_list xs s : length xs = length (Sup.pmpaddr s) →
  set_list SupSnap.set_pmpaddr 0 xs s = s <| Sup.pmpaddr := xs |>.
Proof.
  intros Hl. rewrite (set_list_lens Sup.pmpaddr (λ l s, s <| Sup.pmpaddr := l |>)); [by rewrite inserts_all|done..|by intros []].
Qed.

Lemma priv_of_code p : SupSnap.priv_of (priv_code p) = p.
Proof. by destruct p. Qed.
Lemma priv_code_byte p : urange 8 (priv_code p).
Proof. by destruct p. Qed.

Lemma u64_of_54 l : Forall (urange 54) l → Forall (urange 64) l.
Proof. intros Hl. eapply Forall_impl; [exact Hl|]. intros x. apply (urange_weaken 54 64). lia. Qed.

(** The reservation is written as its address and whether there is one. *)
Lemma loads_reservation (r : option Z) :
  from_option (urange 64) True r →
  loads (let? addr := on_snd Reader.u64 in
    load_into Reader.bool (λ v s, s <| Sup.reservation_addr := if v : bool then Some addr else None |>) (
    on_fst (modify SupSnap.drop_caches);; done_some))
    (to_le_bytes 8 (from_option id U64_MAX r) ++ [b2z (bool_decide (is_Some r))])
    (λ s, SupSnap.drop_caches (s <| Sup.reservation_addr := r |>)) tt.
Proof.
  intros Hr. eapply loads_ext; [eapply (loads_bind _ _ _ _ id)|].
  - apply loads_reads, reads_u64. by destruct r.
  - rewrite <- (app_nil_r [_]). eapply loads_into; [apply reads_bool|apply loads_upd].
  - intros s. cbn. by destruct r.
Qed.

Lemma new_lengths pc h :
  length (Cpu.x (Sup.cpu (Sup.new pc h))) = 32%nat ∧ length (Cpu.f (Sup.cpu (Sup.new pc h))) = 32%nat
  ∧ length (Sup.pmpcfg (Sup.new pc h)) = 16%nat ∧ length (Sup.pmpaddr (Sup.new pc h)) = 64%nat
  ∧ Sup.cpu (Sup.new pc h) = Cpu.new pc.
Proof. by split_and!. Qed.

Lemma load_sup_loads s : sup_wf s → from_option (urange 64) True (Sup.reservation_addr s) →
  reads (filled (Sup.new DRAM_BASE 0) SupSnap.load_state) (sup_bytes s) (thaw_sup s).
Proof.
  intros Hs Hr. destruct (wf_cpu _ Hs) as [Hxl Hx _ Hfl Hf Hpc Hfc].
  destruct (wf_pmpcfg _ Hs) as [Hcl Hc]. destruct (wf_pmpaddr _ Hs) as [Hal Ha%u64_of_54].
  eassert (HL : loads SupSnap.load_state (sup_bytes s) _ tt).
  { unfold SupSnap.load_state, sup_bytes. cbv zeta.
    eapply loads_bind; [by apply loads_u64s|]. eapply loads_bind; [by apply loads_u64s|].
    do 2 (apply loads_into; [by apply reads_u64|]). apply loads_into; [apply reads_bool|].
    apply loads_into; [apply reads_u8, priv_code_byte|]. apply loads_into; [apply reads_u64, mstatus_to_range|].
    do 14 (apply loads_into; [apply reads_u64; apply Hs|]). apply loads_into; [apply reads_u64, satp_to_range|].
    do 3 (apply loads_into; [apply reads_u64; apply Hs|]).
    eapply loads_bind; [by apply loads_u64s|]. eapply loads_bind; [by apply loads_u64s|].
    apply loads_into; [apply reads_u64; apply Hs|]. do 2 (apply loads_into; [apply reads_bool|]).
    by apply loads_reservation. }
  apply (reads_filled (Sup.new DRAM_BASE 0)) in HL. intros pre post Hfit. rewrite (HL pre post Hfit). do 3 f_equal.
  unfold compose, thaw_sup. pose proof (new_lengths DRAM_BASE 0) as (E1 & E2 & E3 & E4 & E5).
  generalize dependent (Sup.new DRAM_BASE 0). intros s0 _ E1 E2 E3 E4 E5.
  rewrite set_x_list by congruence. rewrite set_f_list by (cbn; congruence).
  rewrite set_pmpcfg_list by (cbn; congruence). rewrite set_pmpaddr_list by (cbn; congruence).
  f_equal. rewrite mstatus_from_to by apply Hs. rewrite satp_from_to by apply Hs. rewrite priv_of_code.
  apply Sup.sup_ext; cbn; try reflexivity. unfold thaw_cpu. by rewrite E5.
Qed.
End Hart.

(** * The interrupt controller *)

Definition plic_bytes (p : Plic.t) : list Z :=
  concat (to_le_bytes 4 <$> Plic.priority p) ++ concat ((λ b, [b2z b]) <$> Plic.level p)
  ++ concat ((λ b, [b2z b]) <$> Plic.claimed p)
  ++ concat ((λ row, concat (to_le_bytes 4 <$> row)) <$> Plic.enable p)
  ++ concat (to_le_bytes 4 <$> Plic.threshold p).

Lemma save_plic_wrote p : wrote (BusSnap.save_plic p) (plic_bytes p).
Proof.
  intros w. unfold BusSnap.save_plic, plic_bytes. cbv zeta.
  rewrite wrote_u32s, (wrote_foldl (foldl Writer.u32) (λ row, concat (to_le_bytes 4 <$> row))).
  2:{ intros row _. apply wrote_u32s. }
  rewrite (wrote_bools (Plic.claimed p)), (wrote_bools (Plic.level p)), wrote_u32s. by rewrite <- !app_assoc.
Qed.

Section Lines.
Context {PR : Profile} {T : Target} {Ht : TargetOk T}.

Lemma set_row_list c xs p row :
  Plic.enable p !! c = Some row → length xs = length row →
  set_list (BusSnap.set_enable c) 0 xs p = p <| Plic.enable := <[c := xs]> (Plic.enable p) |>.
Proof.
  intros Hc Hl. assert (H : ∀ i xs row p, Plic.enable p !! c = Some row →
    set_list (BusSnap.set_enable c) i xs p = p <| Plic.enable := <[c := list_inserts i xs row]> (Plic.enable p) |>).
  { clear. intros i xs. revert i. unfold set_list. induction xs as [|x xs IH]; intros i row p Hc; cbn [foldl].
    - cbn. rewrite list_insert_id by done. by destruct p.
    - rewrite (IH _ (<[i := x]> row)).
      2:{ unfold BusSnap.set_enable. cbn. rewrite list_lookup_alter_eq, Hc. done. }
      cbn [list_inserts]. rewrite list_insert_inserts_lt by lia. rewrite Nat.add_1_r. unfold BusSnap.set_enable.
      set (l := list_inserts (S i) xs (<[i := x]> row)).
      assert (E : <[c := l]> (alter (λ r, <[i := x]> r) c (Plic.enable p)) = <[c := l]> (Plic.enable p)).
      { apply list_eq. intros j. destruct (decide (j = c)) as [->|Hne].
        + assert (c < length (Plic.enable p))%nat by (by eapply lookup_lt_Some).
          by rewrite !list_lookup_insert_eq by (rewrite ?length_alter; done).
        + by rewrite !list_lookup_insert_ne, list_lookup_alter_ne by done. }
      rewrite <- E. reflexivity. }
  rewrite (H _ _ _ _ Hc). by rewrite inserts_all.
Qed.

Lemma set_rows_list rows : ∀ i p,
  (∀ k row, rows !! k = Some row → ∃ r, Plic.enable p !! (i + k)%nat = Some r ∧ length row = length r) →
  set_list (λ c row, set_list (BusSnap.set_enable c) 0 row) i rows p
  = p <| Plic.enable := list_inserts i rows (Plic.enable p) |>.
Proof.
  induction rows as [|row rows IH]; intros i p Hr; [by destruct p|].
  destruct (Hr 0%nat row eq_refl) as (r & Hc & Hl). rewrite Nat.add_0_r in Hc.
  set (p' := p <| Plic.enable := <[i := row]> (Plic.enable p) |>).
  transitivity (set_list (λ c row, set_list (BusSnap.set_enable c) 0 row) (i + 1) rows p').
  { unfold set_list at 1. cbn [foldl]. by rewrite (set_row_list i row p r Hc Hl). }
  rewrite IH.
  - unfold p'. cbn [list_inserts]. rewrite list_insert_inserts_lt by lia. by rewrite Nat.add_1_r.
  - intros k row' Hk. destruct (Hr (S k) row' Hk) as (r' & Hr' & Hl'). exists r'. split; [|done].
    unfold p'. cbn. rewrite list_lookup_insert_ne by lia. rewrite <- Hr'. f_equal. lia.
Qed.

Lemma set_arrays_list (p : Plic.t) prio lv cl th :
  (length prio = length (Plic.priority p) → set_list (λ i v p, p <| Plic.priority := <[i := v]> (Plic.priority p) |>) 0 prio p
    = p <| Plic.priority := prio |>)
  ∧ (length lv = length (Plic.level p) → set_list (λ i v p, p <| Plic.level := <[i := v]> (Plic.level p) |>) 0 lv p
    = p <| Plic.level := lv |>)
  ∧ (length cl = length (Plic.claimed p) → set_list (λ i v p, p <| Plic.claimed := <[i := v]> (Plic.claimed p) |>) 0 cl p
    = p <| Plic.claimed := cl |>)
  ∧ (length th = length (Plic.threshold p) → set_list (λ i v p, p <| Plic.threshold := <[i := v]> (Plic.threshold p) |>) 0 th p
    = p <| Plic.threshold := th |>).
Proof.
  split_and!; intros Hl.
  - rewrite (set_list_lens Plic.priority (λ l p, p <| Plic.priority := l |>)); [by rewrite inserts_all|done..|by intros []].
  - rewrite (set_list_lens Plic.level (λ l p, p <| Plic.level := l |>)); [by rewrite inserts_all|done..|by intros []].
  - rewrite (set_list_lens Plic.claimed (λ l p, p <| Plic.claimed := l |>)); [by rewrite inserts_all|done..|by intros []].
  - rewrite (set_list_lens Plic.threshold (λ l p, p <| Plic.threshold := l |>)); [by rewrite inserts_all|done..|by intros []].
Qed.

Lemma load_lines_loads p : plic_wf p →
  ∃ f, loads BusSnap.load_lines (plic_bytes p) f tt
       ∧ f Plic.new = p <| Plic.claimable := Plic.claimable Plic.new |>.
Proof.
  intros Hp. destruct (pw_priority _ Hp) as [Hpl Hpr]. destruct (pw_enable _ Hp) as [Hel Her].
  destruct (pw_threshold _ Hp) as [Htl Htr]. pose proof (pw_level _ Hp) as Hll. pose proof (pw_claimed _ Hp) as Hcl.
  eexists. split.
  { unfold BusSnap.load_lines, plic_bytes.
    eapply loads_bind; [by apply loads_u32s|]. eapply loads_bind; [by apply loads_bools|].
    eapply loads_bind; [by apply loads_bools|].
    eapply loads_bind; [|by apply loads_u32s]. rewrite <- Hel.
    apply (loads_for (Plic.enable p) _ _ (λ c row, set_list (BusSnap.set_enable c) 0 row) 0%nat).
    intros k row Hk. rewrite Forall_lookup in Her. destruct (Her _ _ Hk). by apply loads_u32s. }
  unfold compose. assert (En : length (Plic.enable Plic.new) = PLIC_NCTX) by done.
  rewrite (proj1 (set_arrays_list _ _ [] [] [])) by exact Hpl.
  rewrite (proj1 (proj2 (set_arrays_list _ [] _ [] []))) by exact Hll.
  rewrite (proj1 (proj2 (proj2 (set_arrays_list _ [] [] _ [])))) by exact Hcl.
  match goal with |- context [foldl _ (0%nat, ?s) (Plic.enable p)] =>
    change (foldl _ (0%nat, s) (Plic.enable p)).2 with (set_list (λ c row, set_list (BusSnap.set_enable c) 0 row) 0 (Plic.enable p) s) end.
  rewrite set_rows_list.
  2:{ intros k row Hk. rewrite Forall_lookup in Her. destruct (Her _ _ Hk) as [Hrl _].
      exists (replicate PLIC_WORDS 0). split; [|by rewrite length_replicate].
      cbn [Nat.add]. change (replicate PLIC_NCTX (replicate PLIC_WORDS 0) !! k = Some (replicate PLIC_WORDS 0)).
      apply lookup_replicate. split; [done|]. apply lookup_lt_Some in Hk. lia. }
  rewrite (proj2 (proj2 (proj2 (set_arrays_list _ [] [] [] _)))) by exact Htl.
  rewrite inserts_all by exact Hel. by destruct p.
Qed.

Lemma recalc_loop (r : Reader.t) n : ∀ i p,
  plic_shape p → (i + n = PLIC_NSRC)%nat → (∀ j, (j < i)%nat → bit_ok p j) →
  ∃ l, for_some n i (λ i, on_fst (Plic.recalc_claimable i);; done_some) (p, r)
       = Some (Some tt, (p <| Plic.claimable := l |>, r)) ∧ plic_wf (p <| Plic.claimable := l |>).
Proof.
  induction n as [|n IH]; intros i p Hs Hn Hb.
  - exists (Plic.claimable p). assert (E : p <| Plic.claimable := Plic.claimable p |> = p) by (by destruct p).
    rewrite E. split; [done|]. apply shape_wf; [done|]. intros j Hj. apply Hb. lia.
  - destruct (recalc_step p i Hs ltac:(lia)) as (l & E & Hs' & Hb'). cbn [for_some].
    destruct (IH (S i) (p <| Plic.claimable := l |>) Hs' ltac:(lia)) as (l' & E' & Hw).
    + intros j Hj. apply Hb'; [lia|]. destruct (decide (j = i)); [by left|right]. apply Hb. lia.
    + exists l'. split; [|exact Hw]. unfold bind_some, mbind, M_bind, on_fst. rewrite E. exact E'.
Qed.

(** The bitmap is determined by the lines. *)
Lemma claimable_unique p l : plic_wf p → plic_wf (p <| Plic.claimable := l |>) → l = Plic.claimable p.
Proof.
  intros Hp Hl. destruct (pw_claimable _ Hp) as [Hn Hr]. destruct (pw_claimable _ Hl) as [Hn' Hr']. cbn in Hn', Hr'.
  apply list_eq. intros w. destruct (decide (w < PLIC_WORDS)%nat) as [Hw|Hw].
  2:{ rewrite !lookup_ge_None_2 by lia. done. }
  rewrite (lookup_in l PLIC_WORDS w Hn' Hw), (lookup_in _ PLIC_WORDS w Hn Hw). f_equal.
  rewrite Forall_lookup in Hr, Hr'. pose proof (Hr w _ (lookup_in _ _ w Hn Hw)) as Hx.
  pose proof (Hr' w _ (lookup_in _ _ w Hn' Hw)) as Hy.
  apply Z.bits_inj'. intros k Hk. destruct (Z.lt_ge_cases k 32) as [Hk32|Hk32].
  2:{ by rewrite !(urange_testbit 32) by (done || lia). }
  set (i := (w * 32 + Z.to_nat k)%nat). assert (Hi : (i < PLIC_NSRC)%nat) by (unfold i, PLIC_NSRC, PLIC_WORDS in *; lia).
  assert (Hdiv : (i / 32 = w)%nat) by (unfold i; rewrite Nat.div_add_l, Nat.div_small by lia; lia).
  assert (Hmod : (i mod 32 = Z.to_nat k)%nat) by (unfold i; rewrite Nat.add_comm, Nat.Div0.mod_add, Nat.mod_small by lia; lia).
  pose proof (pw_bitmap _ Hp i Hi) as E1. pose proof (pw_bitmap _ Hl i Hi) as E2.
  change (Z.testbit (l !!! (i / 32)%nat) (Z.of_nat (i mod 32)) = pending p i) in E2.
  rewrite Hdiv, Hmod, Z2Nat.id in E1, E2 by done. rewrite E1. exact E2.
Qed.

Lemma load_plic_run p pre post : plic_wf p → fits (pre ++ plic_bytes p) →
  BusSnap.load_plic (Plic.new, Reader.mk (pre ++ plic_bytes p ++ post) (Z.of_nat (length pre)))
  = Some (Some tt, (p, Reader.mk (pre ++ plic_bytes p ++ post) (Z.of_nat (length (pre ++ plic_bytes p))))).
Proof.
  intros Hp Hf. destruct (load_lines_loads p Hp) as (f & HL & Ef). unfold BusSnap.load_plic, bind_some at 1.
  rewrite (M_bind_some _ _ _ _ _ (HL Plic.new pre post Hf)). rewrite Ef.
  set (p0 := p <| Plic.claimable := Plic.claimable Plic.new |>).
  assert (Hs : plic_shape p0).
  { pose proof (wf_shape _ Hp) as Hs. unfold plic_shape in *. destruct_and!. split_and!; try done.
    by apply Forall_replicate. }
  destruct (recalc_loop (Reader.mk (pre ++ plic_bytes p ++ post) (Z.of_nat (length (pre ++ plic_bytes p))))
    PLIC_NSRC 0 p0 Hs eq_refl ltac:(lia)) as (l & E & Hw).
  rewrite E. change (p0 <| Plic.claimable := l |>) with (p <| Plic.claimable := l |>) in *.
  rewrite (claimable_unique p l Hp Hw). by destruct p.
Qed.
End Lines.

(** * DRAM *)

Definition page_bytes (l : list Z) (i : nat) : list Z := to_le_bytes 8 (Z.of_nat i) ++ BusSnap.page l i.
Definition dram_bytes (l : list Z) : list Z :=
  to_le_bytes 8 (Z.of_nat (length (BusSnap.used_pages l))) ++ concat (page_bytes l <$> BusSnap.used_pages l).

Lemma save_dram_wrote l : wrote (BusSnap.save_dram l) (dram_bytes l).
Proof.
  intros w. unfold BusSnap.save_dram, dram_bytes. cbv zeta.
  rewrite (wrote_foldl (BusSnap.save_page l) (page_bytes l)).
  2:{ intros i _ w'. unfold BusSnap.save_page, page_bytes. cbn. by rewrite <- app_assoc. }
  cbn. by rewrite <- app_assoc.
Qed.

Lemma page_size : Z.of_nat PAGE = 4096.
Proof. reflexivity. Qed.
Lemma page_nonzero : (PAGE ≠ 0)%nat.
Proof. done. Qed.
#[local] Opaque PAGE.

(** The number of a page of [l], and its place. *)
Lemma page_in (l : list Z) i : (i < length l / PAGE)%nat → ((i + 1) * PAGE <= length l)%nat.
Proof. intros Hi. pose proof (Nat.Div0.mul_div_le (length l) PAGE). nia. Qed.

Lemma length_page (l : list Z) i : (i < length l / PAGE)%nat → length (BusSnap.page l i) = PAGE.
Proof. intros Hi%page_in. unfold BusSnap.page. rewrite length_take, length_drop. lia. Qed.

Lemma used_pages_in (l : list Z) : Forall (λ i, (i < length l / PAGE)%nat) (BusSnap.used_pages l).
Proof.
  apply Forall_forall. intros i [_ Hi]%list_elem_of_filter. apply elem_of_seq in Hi. lia.
Qed.

Lemma used_pages_length (l : list Z) : (length (BusSnap.used_pages l) <= length l)%nat.
Proof.
  etransitivity; [apply length_filter|]. rewrite length_seq. apply Nat.Div0.div_le_upper_bound. pose proof page_nonzero. nia.
Qed.

Lemma pages_length (l : list Z) ps : (length ps <= length (concat (page_bytes l <$> ps)))%nat.
Proof.
  induction ps as [|i ps IH]; [done|]. cbn [fmap list_fmap concat length]. unfold page_bytes at 1.
  rewrite !length_app, length_to_le_bytes. lia.
Qed.

(** The pages of [l] put into [d]. *)
Definition put_pages (l : list Z) (ps : list nat) (d : list Z) : list Z :=
  foldl (λ d i, splice d (Z.of_nat i * Z.of_nat PAGE) (BusSnap.page l i)) d ps.

Lemma put_pages_lookup (l : list Z) ps : ∀ d k, length d = length l → Forall (λ i, (i < length l / PAGE)%nat) ps →
  length (put_pages l ps d) = length l ∧
  put_pages l ps d !! k = if decide ((k / PAGE)%nat ∈ ps) then l !! k else d !! k.
Proof.
  induction ps as [|i ps IH]; intros d k Hd Hps; cbn [put_pages foldl].
  - split; [done|]. rewrite decide_False; [done|]. apply not_elem_of_nil.
  - apply Forall_cons in Hps as [Hi Hps]. pose proof (page_in _ _ Hi) as Hin. pose proof (length_page _ _ Hi) as Hp.
    set (d' := splice d (Z.of_nat i * Z.of_nat PAGE) (BusSnap.page l i)).
    assert (Ho : Z.to_nat (Z.of_nat i * Z.of_nat PAGE) = (i * PAGE)%nat) by lia.
    assert (Hd' : length d' = length l) by (unfold d'; rewrite length_splice; lia).
    destruct (IH d' k Hd' Hps) as [Hl E]. split; [exact Hl|]. unfold put_pages in E. rewrite E.
    pose proof (Nat.div_mod_eq k PAGE) as Hk. pose proof (Nat.mod_upper_bound k PAGE page_nonzero) as Hm.
    destruct (decide (k / PAGE ∈ ps)%nat) as [Hyes|Hno]; [rewrite decide_True; [done|apply elem_of_cons; by right]|].
    unfold d'. rewrite lookup_splice by lia. rewrite Ho, Hp.
    destruct (decide (i * PAGE <= k < i * PAGE + PAGE)%nat) as [Hr|Hr].
    + assert (k / PAGE = i)%nat as Hki by nia. rewrite decide_True by (apply elem_of_cons; by left).
      unfold BusSnap.page. rewrite lookup_take_lt by lia. rewrite lookup_drop. f_equal. lia.
    + rewrite decide_False; [done|]. intros Hc%elem_of_cons. destruct Hc as [Hc|Hc]; [|done]. subst i. lia.
Qed.

Lemma dram_restored (l : list Z) : (length l mod PAGE = 0)%nat →
  put_pages l (BusSnap.used_pages l) (replicate (length l) 0) = l.
Proof.
  intros Hm. apply list_eq. intros k.
  destruct (put_pages_lookup l (BusSnap.used_pages l) (replicate (length l) 0) k) as [Hl ->];
    [by rewrite length_replicate|apply used_pages_in|].
  destruct (decide _) as [_|Hno]; [done|].
  destruct (decide (k < length l)%nat) as [Hk|Hk]; [|by rewrite !lookup_ge_None_2 by (rewrite ?length_replicate; lia)].
  rewrite lookup_replicate_2 by done. destruct (lookup_lt_is_Some_2 l k Hk) as [x Hx]. rewrite Hx. f_equal.
  assert (Hi : (k / PAGE < length l / PAGE)%nat).
  { pose proof (Nat.div_mod_eq (length l) PAGE). pose proof (Nat.div_mod_eq k PAGE).
    pose proof (Nat.mod_upper_bound k PAGE page_nonzero). nia. }
  destruct (BusSnap.in_use (BusSnap.page l (k / PAGE))) eqn:Eu.
  { contradict Hno. apply list_elem_of_filter. split; [done|]. apply elem_of_seq. lia. }
  unfold BusSnap.in_use in Eu. destruct (Z.eqb_spec x 0) as [|Hne]; [done|].
  enough (existsb (λ y, negb (y =? 0)) (BusSnap.page l (k / PAGE)) = true) by congruence.
  apply existsb_exists. exists x. split; [|apply negb_true_iff; lia].
  apply list_elem_of_In, (list_elem_of_lookup_2 _ (k mod PAGE)). unfold BusSnap.page.
  pose proof (Nat.div_mod_eq k PAGE). pose proof (Nat.mod_upper_bound k PAGE page_nonzero).
  rewrite lookup_take_lt by lia. rewrite lookup_drop, <- Hx. f_equal. lia.
Qed.

Section Dram.
Context {D : Type} {VD : VirtioDevice D} {DV : Devices D} {PR : Profile} {T : Target} {Ht : TargetOk T}.
Implicit Types b : DeviceBus.t D.

(** Bytes taken as they are. *)
Lemma reads_take l n : n = Z.of_nat (length l) → reads (Reader.take n) l l.
Proof. intros -> pre post Hf. by apply take_exact. Qed.

Lemma load_page_run l i b pre post :
  Z.of_nat (length l) < 2 ^ (usize_bits - 1) → (i < length l / PAGE)%nat →
  length (DeviceBus.dram b) = length l → fits (pre ++ page_bytes l i) →
  BusSnap.load_page (b, Reader.mk (pre ++ page_bytes l i ++ post) (Z.of_nat (length pre)))
  = Some (Some tt, (b <| DeviceBus.dram := splice (DeviceBus.dram b) (Z.of_nat i * Z.of_nat PAGE) (BusSnap.page l i) |>,
                    Reader.mk (pre ++ page_bytes l i ++ post) (Z.of_nat (length (pre ++ page_bytes l i))))).
Proof.
  intros Hl Hi Hb Hf. pose proof (page_in _ _ Hi) as Hin. pose proof (length_page _ _ Hi) as Hp.
  assert (Hu : 2 ^ (usize_bits - 1) <= 2 ^ usize_bits ∧ 2 ^ usize_bits <= 2 ^ 64).
  { pose proof usize_ok. split; apply Z.pow_le_mono_r; lia. }
  pose proof page_size as HP.
  unfold page_bytes in *. set (h := to_le_bytes 8 (Z.of_nat i)) in *. rewrite <- (app_assoc h).
  assert (Hfh : fits (pre ++ h)) by (rewrite app_assoc in Hf; by apply fits_prefix in Hf).
  unfold BusSnap.load_page, bind_some at 1. rewrite M_bind_run. unfold on_snd at 1.
  rewrite (reads_u64 (Z.of_nat i) ltac:(unfold urange; lia) pre (BusSnap.page l i ++ post) Hfh). fold h. cbv zeta.
  rewrite (wrap_small usize_bits (Z.of_nat i)) by (unfold urange; lia).
  destruct (Z.leb_spec (2 ^ usize_bits) (Z.of_nat i * Z.of_nat PAGE)); [lia|].
  unfold bind_some. rewrite M_bind_run. unfold on_snd at 1, BusSnap.read_page.
  rewrite (app_assoc pre h). rewrite (reads_take (BusSnap.page l i) (Z.of_nat PAGE) ltac:(by rewrite Hp) (pre ++ h) post)
    by (by rewrite <- app_assoc).
  rewrite lift_bind with (a := (Z.of_nat i + 1) * Z.of_nat PAGE).
  2:{ rewrite add_u_small; [f_equal; lia|unfold urange; lia]. }
  rewrite get_fst_bind. unfold slice_get.
  destruct (Z.leb_spec (Z.of_nat i * Z.of_nat PAGE) ((Z.of_nat i + 1) * Z.of_nat PAGE)); [|lia].
  destruct (Z.leb_spec ((Z.of_nat i + 1) * Z.of_nat PAGE) (Z.of_nat (length (DeviceBus.dram b)))); [|lia].
  cbn [andb]. rewrite modify_fst_bind. rewrite <- !app_assoc. done.
Qed.

Lemma load_pages_run l ps : Z.of_nat (length l) < 2 ^ (usize_bits - 1) →
  Forall (λ i, (i < length l / PAGE)%nat) ps → ∀ fuel b pre post,
  length (DeviceBus.dram b) = length l → fits (pre ++ concat (page_bytes l <$> ps)) → (length ps < fuel)%nat →
  BusSnap.load_pages fuel (Z.of_nat (length ps))
    (b, Reader.mk (pre ++ concat (page_bytes l <$> ps) ++ post) (Z.of_nat (length pre)))
  = Some (Some tt, (b <| DeviceBus.dram := put_pages l ps (DeviceBus.dram b) |>,
            Reader.mk (pre ++ concat (page_bytes l <$> ps) ++ post)
                      (Z.of_nat (length (pre ++ concat (page_bytes l <$> ps)))))).
Proof.
  intros Hl Hps. induction Hps as [|i ps Hi Hps IH]; intros fuel b pre post Hb Hf Hfu.
  - destruct fuel; [lia|]. cbn. rewrite app_nil_r. by destruct b.
  - destruct fuel as [|fuel]; [lia|]. cbn [BusSnap.load_pages length]. destruct (Z.leb_spec (Z.of_nat (S (length ps))) 0); [lia|].
    change (concat (page_bytes l <$> i :: ps)) with (page_bytes l i ++ concat (page_bytes l <$> ps)) in *.
    rewrite <- (app_assoc (page_bytes l i)). unfold bind_some.
    erewrite M_bind_some; [|apply load_page_run; [done|done|done|by rewrite app_assoc in Hf; apply fits_prefix in Hf]].
    rewrite (app_assoc pre (page_bytes l i)). replace (Z.of_nat (S (length ps)) - 1) with (Z.of_nat (length ps)) by lia.
    rewrite IH; [|cbn; pose proof (page_in _ _ Hi); rewrite length_splice; rewrite ?(length_page _ _ Hi); lia
                 |by rewrite <- app_assoc|cbn in Hfu; lia].
    rewrite <- !app_assoc. done.
Qed.
End Dram.

(** * Loading from a given state *)

Section Runs.
Context {PR : Profile} {T : Target} {Ht : TargetOk T}.

Definition runs {S B} (m : M (S * Reader.t) (option B)) (s : S) (l : list Z) (s' : S) (b : B) : Prop :=
  ∀ pre post, fits (pre ++ l) →
  m (s, Reader.mk (pre ++ l ++ post) (Z.of_nat (length pre)))
  = Some (Some b, (s', Reader.mk (pre ++ l ++ post) (Z.of_nat (length (pre ++ l))))).

Lemma runs_loads {S B} (m : M (S * Reader.t) (option B)) s l f b : loads m l f b → runs m s l (f s) b.
Proof. intros Hm pre post Hf. by apply Hm. Qed.

Lemma runs_bind {S A B} (m : M (S * Reader.t) (option A)) k s l s1 a l' s2 (b : B) :
  runs m s l s1 a → runs (k a) s1 l' s2 b → runs (bind_some m k) s (l ++ l') s2 b.
Proof.
  intros Hm Hk pre post Hf. unfold bind_some. rewrite <- app_assoc.
  erewrite M_bind_some; [|apply Hm; rewrite app_assoc in Hf; by apply fits_prefix in Hf].
  cbn beta iota. rewrite (app_assoc pre l). rewrite Hk by (by rewrite <- app_assoc).
  by rewrite <- !app_assoc.
Qed.

(** A step that reads nothing. *)
Lemma runs_fst {S A B} (m : M S (option A)) (k : A → M (S * Reader.t) (option B)) s s1 a l s2 (b : B) :
  m s = Some (Some a, s1) → runs (k a) s1 l s2 b → runs (bind_some (on_fst m) k) s l s2 b.
Proof.
  intros Hm Hk pre post Hf. unfold bind_some.
  erewrite M_bind_some; [|unfold on_fst; rewrite Hm; reflexivity]. by apply Hk.
Qed.

Lemma runs_read {S A B} (m : M Reader.t (option A)) (k : A → M (S * Reader.t) (option B)) s l a l' s2 (b : B) :
  reads m l a → runs (k a) s l' s2 b → runs (bind_some (on_snd m) k) s (l ++ l') s2 b.
Proof. intros Hm. apply runs_bind. change s with (id s) at 2. by apply runs_loads, loads_reads. Qed.

Lemma runs_into {S A B} (m : M Reader.t (option A)) (f : A → S → S) k s l a l' s2 (b : B) :
  reads m l a → runs k (f a s) l' s2 b → runs (load_into m f k) s (l ++ l') s2 b.
Proof. intros Hm Hk. unfold load_into. eapply runs_read; [exact Hm|]. exact Hk. Qed.

Lemma runs_part {S X B} (get : S → X) (put : X → S → S) (m : M (X * Reader.t) (option B)) s l x b :
  runs m (get s) l x b → runs (load_part get put m) s l (put x s) b.
Proof. intros Hm pre post Hf. unfold load_part. by rewrite Hm. Qed.

(** The length of the stream bounds what is read of it. *)
Lemma runs_fuel {S B} (k : nat → M (S * Reader.t) (option B)) s l s' (b : B) :
  (∀ fuel, (length l < fuel)%nat → runs (k fuel) s l s' b) →
  runs (fuel ← on_snd (get (λ r, Datatypes.S (length (Reader.buf r)))); k fuel) s l s' b.
Proof.
  intros Hk pre post Hf. rewrite get_snd_bind. apply Hk; [|done]. cbn. rewrite !length_app. lia.
Qed.

Lemma runs_done {S} (s : S) : runs done_some s [] s tt.
Proof. intros pre post _. by rewrite app_nil_r. Qed.

(** A stored value, from a reader of its own. *)
Lemma reads_front {A} (m : M Reader.t (option A)) l l' a :
  reads m l a → fits (l ++ l') → ∃ r, m (Reader.new (l ++ l')) = Some (Some a, r).
Proof. intros Hm Hf. eexists. apply (Hm [] l'). cbn. by apply fits_prefix in Hf. Qed.
Lemma runs_whole {S B} (m : M (S * Reader.t) (option B)) s l s' b :
  runs m s l s' b → fits l → ∃ r, m (s, Reader.new l) = Some (Some b, (s', r)).
Proof. intros Hm Hf. pose proof (Hm [] [] Hf) as E. cbn in E. rewrite app_nil_r in E. eauto. Qed.

Lemma reads_filled_at {S} (s s' : S) m l : runs m s l s' tt → reads (filled s m) l s'.
Proof. intros Hm pre post Hf. unfold filled. by rewrite Hm. Qed.
End Runs.

Lemma slice_get_front {A} (l r : list A) n : n = Z.of_nat (length l) → slice_get (l ++ r) 0 n = Some l.
Proof.
  intros ->. unfold slice_get. rewrite length_app.
  destruct (Z.leb_spec 0 (Z.of_nat (length l))); [|lia].
  destruct (Z.leb_spec (Z.of_nat (length l)) (Z.of_nat (length l + length r))); [|lia].
  cbn [andb]. rewrite Z.sub_0_r, Nat2Z.id. change (Z.to_nat 0) with 0%nat. by rewrite drop_0, take_app_length.
Qed.
Lemma slice_get_whole {A} (l : list A) n : n = Z.of_nat (length l) → slice_get l 0 n = Some l.
Proof. intros Hn. pose proof (slice_get_front l [] n Hn) as E. by rewrite app_nil_r in E. Qed.

(** * The virtio slots *)

Section Slots.
Context {PR : Profile} {T : Target} {Ht : TargetOk T}.
Implicit Types b : DeviceBus.t AnyDevice.

(** What comes back of a device: a disk with its size and no storage, a network
    card with its address and the frame it holds, a share with its name. *)
Definition thaw_dev (d : AnyDevice) : AnyDevice :=
  match d with
  | Disk d => Disk (VirtioBlk.new (Detached (DetachedBackend.mk (capacity_sectors (VirtioBlk.backend d)))))
  | Nic n => Nic ((VirtioNet.new NetQueues.default (VirtioNet.mac n)) <| VirtioNet.pending_rx := VirtioNet.pending_rx n |>)
  | Share p => Share (Virtio9p.new (from_utf8_lossy (Virtio9p.tag p)))
  end.
Definition thaw_slot (v : VirtioMmio.t AnyDevice) : VirtioMmio.t AnyDevice :=
  v <| VirtioMmio.dev := thaw_dev (VirtioMmio.dev v) |>.

(** Widths the device types do not enforce on their own. *)
Definition dev_sized (d : AnyDevice) : Prop :=
  match d with
  | Disk d => urange 64 (capacity_sectors (VirtioBlk.backend d))
  | Nic n => length (VirtioNet.mac n) = 6%nat
  | Share _ => True
  end.

Definition held_bytes (o : option (list Z)) : list Z :=
  match o with Some f => [b2z true] ++ to_le_bytes 8 (Z.of_nat (length f)) ++ f | None => [b2z false] end.
Definition dev_blob (d : AnyDevice) : list Z :=
  match d with
  | Disk d => to_le_bytes 8 (capacity_sectors (VirtioBlk.backend d))
  | Nic n => (to_le_bytes 8 (Z.of_nat (length (VirtioNet.mac n))) ++ VirtioNet.mac n) ++ held_bytes (VirtioNet.pending_rx n)
  | Share p => Virtio9p.tag p
  end.
Definition dev_kind (d : AnyDevice) : Z := match d with Disk _ => 2 | Nic _ => 1 | Share _ => 9 end.
Definition is_nic (d : AnyDevice) : bool := match d with Nic _ => true | _ => false end.

Definition slot_bytes (o : option (VirtioMmio.t AnyDevice)) : list Z :=
  match o with
  | None => [b2z false]
  | Some v =>
      let blob := dev_blob (VirtioMmio.dev v) in
      [b2z true] ++ to_le_bytes 4 (dev_kind (VirtioMmio.dev v))
      ++ (to_le_bytes 8 (Z.of_nat (length blob)) ++ blob) ++ mmio_bytes v
  end.


Lemma dev_state_blob (d : AnyDevice) : dev_state d = Some (dev_blob d).
Proof.
  destruct d as [d|n|p]; [done| |done]. cbn. unfold VirtioNet.save_net. f_equal.
  destruct (VirtioNet.pending_rx n); cbn; by rewrite <- ?app_assoc.
Qed.

Lemma writer_eq (w : Writer.t) l : Writer.buf w = l → w = Writer.mk l.
Proof. intros <-. by destruct w. Qed.

Lemma save_slot_wrote o w : BusSnap.save_slot o w = Some (Writer.mk (Writer.buf w ++ slot_bytes o)).
Proof.
  destruct o as [v|]; [|done]. unfold BusSnap.save_slot. rewrite dev_state_blob. cbn [mbind option_bind].
  f_equal. apply writer_eq. rewrite (save_mmio_wrote v). unfold slot_bytes. cbv zeta.
  assert (E : device_id (VirtioMmio.dev v) = dev_kind (VirtioMmio.dev v)) by (by destruct (VirtioMmio.dev v)).
  rewrite E. cbn [Writer.u8 Writer.u32 Writer.u64 Writer.bool Writer.bytes Writer.push Writer.buf]. by rewrite <- !app_assoc.
Qed.

Lemma save_slots_wrote l : ∀ w, BusSnap.save_slots l w = Some (Writer.mk (Writer.buf w ++ concat (slot_bytes <$> l))).
Proof.
  induction l as [|o l IH]; intros w; cbn [BusSnap.save_slots fmap list_fmap concat].
  - rewrite app_nil_r. by destruct w.
  - rewrite save_slot_wrote. cbn [mbind option_bind]. rewrite IH. cbn [Writer.buf]. by rewrite <- app_assoc.
Qed.

(** The network card reads back its address and its held frame. *)
Lemma load_net_blob (n n0 : VirtioNet.t NetQueues.t) : length (VirtioNet.mac n) = 6%nat → fits (dev_blob (Nic n)) →
  VirtioNet.load_net (dev_blob (Nic n)) n0
  = Some (Some tt, n0 <| VirtioNet.mac := VirtioNet.mac n |> <| VirtioNet.pending_rx := VirtioNet.pending_rx n |>).
Proof.
  intros Hm Hf. unfold VirtioNet.load_net.
  match goal with |- match ?m _ with _ => _ end = _ =>
    assert (Hr : runs m n0 (dev_blob (Nic n))
      (n0 <| VirtioNet.mac := VirtioNet.mac n |> <| VirtioNet.pending_rx := VirtioNet.pending_rx n |>) tt) end.
  { unfold dev_blob. eapply runs_read; [apply reads_bytes|]. rewrite slice_get_whole by (by rewrite Hm).
    intros pre post Hf'. rewrite modify_fst_bind. revert pre post Hf'.
    change (runs (let? held := on_snd Reader.bool in
             if held : bool then
               let? f := on_snd Reader.bytes in
               on_fst (modify (λ n : VirtioNet.t NetQueues.t, n <| VirtioNet.pending_rx := Some f |>));; mret (Some tt)
             else on_fst (modify (λ n : VirtioNet.t NetQueues.t, n <| VirtioNet.pending_rx := None |>));; mret (Some tt))
      (n0 <| VirtioNet.mac := VirtioNet.mac n |>) (held_bytes (VirtioNet.pending_rx n))
      (n0 <| VirtioNet.mac := VirtioNet.mac n |> <| VirtioNet.pending_rx := VirtioNet.pending_rx n |>) tt).
    destruct (VirtioNet.pending_rx n) as [f|]; cbn [held_bytes].
    - eapply runs_read; [apply reads_bool|]. cbn iota. rewrite <- (app_nil_r (_ ++ f)).
      eapply runs_read; [apply reads_bytes|]. apply runs_loads, loads_upd.
    - rewrite <- (app_nil_r [b2z false]). eapply runs_read; [apply reads_bool|]. apply runs_loads, loads_upd. }
  destruct (runs_whole _ _ _ _ _ Hr Hf) as (r & E). by rewrite E.
Qed.
End Slots.

Section Restore.
Context {PR : Profile} {T : Target} {Ht : TargetOk T}.
Implicit Types b : DeviceBus.t AnyDevice.
Implicit Types v : VirtioMmio.t AnyDevice.

(** The slots are used from the first on. *)
Definition packed_slots (vs : list (VirtioMmio.t AnyDevice)) (n : nat) : list (option (VirtioMmio.t AnyDevice)) :=
  (Some <$> vs) ++ replicate n None.

Lemma packed_push vs v n : packed_slots (vs ++ [v]) n = <[length vs := Some v]> (packed_slots vs (S n)).
Proof.
  unfold packed_slots. rewrite fmap_app, <- app_assoc. rewrite insert_app_r_alt by (by rewrite length_fmap).
  by rewrite length_fmap, Nat.sub_diag.
Qed.
Lemma packed_last vs v v' n : <[length vs := Some v']> (packed_slots (vs ++ [v]) n) = packed_slots (vs ++ [v']) n.
Proof.
  rewrite !packed_push. by rewrite list_insert_insert_eq.
Qed.
Lemma packed_lookup vs v n : packed_slots (vs ++ [v]) n !! length vs = Some (Some v).
Proof.
  rewrite packed_push. apply list_lookup_insert_eq. unfold packed_slots.
  rewrite length_app, length_fmap, length_replicate. lia.
Qed.

Lemma position_packed vs n i : DeviceBus.position_none (packed_slots vs (S n)) i = Some (i + length vs)%nat.
Proof.
  revert i. induction vs as [|v vs IH]; intros i; [cbn; by rewrite Nat.add_0_r|].
  unfold packed_slots in *. cbn [fmap list_fmap app DeviceBus.position_none length]. rewrite IH. f_equal. lia.
Qed.
Lemma last_none {A} n i : BusSnap.last_some (replicate n (@None A)) i = None.
Proof. revert i. induction n as [|n IH]; intros i; cbn; [done|by rewrite IH]. Qed.
Lemma last_packed vs v n i : BusSnap.last_some (packed_slots (vs ++ [v]) n) i = Some (i + length vs)%nat.
Proof.
  revert i. induction vs as [|u vs IH]; intros i; unfold packed_slots in *; cbn [fmap list_fmap app BusSnap.last_some length].
  - rewrite last_none, Nat.add_0_r. done.
  - rewrite IH. f_equal. lia.
Qed.

(** One more slot. *)
Definition attached b vs n v : DeviceBus.t AnyDevice :=
  b <| DeviceBus.virtio := packed_slots (vs ++ [v]) n |> <| DeviceBus.virtio_n := S (length vs) |>.

Lemma attach_packed b vs n d :
  DeviceBus.virtio b = packed_slots vs (S n) → DeviceBus.virtio_n b = length vs →
  DeviceBus.attach_virtio d b = Some (Some (S (length vs)), attached b vs n (VirtioMmio.new d (S (length vs)))).
Proof.
  intros Hv Hn. unfold DeviceBus.attach_virtio. rewrite M_bind_run. cbn [get]. rewrite Hv, position_packed. cbn [Nat.add].
  transitivity (Some (Some (S (length vs)),
    b <| DeviceBus.virtio := <[length vs := Some (VirtioMmio.new d (S (length vs)))]> (DeviceBus.virtio b) |>
      <| DeviceBus.virtio_n := Nat.max (DeviceBus.virtio_n b) (S (length vs)) |>)); [reflexivity|].
  rewrite Hv, <- packed_push, Hn, Nat.max_r by lia. reflexivity.
Qed.

Lemma runs_in_slot i (m : M (VirtioMmio.t AnyDevice * Reader.t) (option unit)) b v l v' :
  DeviceBus.virtio b !! i = Some (Some v) → runs m v l v' tt →
  runs (BusSnap.in_slot i m) b l (DeviceBus.set_slot i v' b) tt.
Proof.
  intros Hi Hm pre post Hf. unfold BusSnap.in_slot. rewrite M_bind_run. unfold on_fst at 1, DeviceBus.slot_at.
  rewrite M_bind_run. cbn [get]. rewrite Hi. cbn [lift]. unfold load_part. by rewrite Hm.
Qed.

Lemma set_last b vs n v v' : DeviceBus.set_slot (length vs) v' (attached b vs n v) = attached b vs n v'.
Proof.
  unfold DeviceBus.set_slot, attached.
  rewrite <- (packed_last vs v v' n). reflexivity.
Qed.

(** The slot that a saved one becomes, behind those already restored. *)
Definition restored b vs n v : DeviceBus.t AnyDevice :=
  (attached b vs n (thaw_slot v))
    <| DeviceBus.net := if is_nic (VirtioMmio.dev v) then Some (length vs) else DeviceBus.net b |>.

Lemma runs_transport v d : mmio_wf v → runs VirtioMmio.load_state (VirtioMmio.new d (VirtioMmio.irq v)) (mmio_bytes v)
  (v <| VirtioMmio.dev := d |>) tt.
Proof. intros Hw pre post Hf. rewrite (load_mmio_run v) by done. by destruct v. Qed.

Lemma load_fresh_run b vs n v d :
  DeviceBus.virtio b = packed_slots vs (S n) → DeviceBus.virtio_n b = length vs →
  mmio_wf v → VirtioMmio.irq v = S (length vs) → d = thaw_dev (VirtioMmio.dev v) → is_nic (VirtioMmio.dev v) = false →
  runs (BusSnap.load_fresh d) b (mmio_bytes v) (restored b vs n v) tt.
Proof.
  intros Hv Hn Hw Hi -> Hk. unfold BusSnap.load_fresh. eapply runs_fst; [by apply attach_packed|].
  replace (S (length vs) - 1)%nat with (length vs) by lia.
  unfold restored. rewrite Hk.
  assert (E : (attached b vs n (thaw_slot v)) <| DeviceBus.net := DeviceBus.net b |>
              = DeviceBus.set_slot (length vs) (thaw_slot v) (attached b vs n (VirtioMmio.new (thaw_dev (VirtioMmio.dev v)) (S (length vs))))).
  { rewrite set_last. reflexivity. }
  rewrite E. apply (runs_in_slot _ _ _ (VirtioMmio.new (thaw_dev (VirtioMmio.dev v)) (S (length vs)))); [apply packed_lookup|].
  rewrite <- Hi. by apply runs_transport.
Qed.

Lemma load_dev_nic (c n0 : VirtioNet.t NetQueues.t) : length (VirtioNet.mac c) = 6%nat → fits (dev_blob (Nic c)) →
  load_dev_state (dev_blob (Nic c)) (Nic n0)
  = Some (Some tt, Nic (n0 <| VirtioNet.mac := VirtioNet.mac c |> <| VirtioNet.pending_rx := VirtioNet.pending_rx c |>)).
Proof.
  intros Hm Hf.
  change (load_dev_state (dev_blob (Nic c)) (Nic n0))
    with ('(a, n) ← VirtioNet.load_net (dev_blob (Nic c)) n0; Some (a, Nic n)).
  by rewrite (load_net_blob c) by done.
Qed.

(** The network card: its device state first, then the transport. *)
Lemma load_net_run b vs n v (c : VirtioNet.t NetQueues.t) :
  DeviceBus.virtio b = packed_slots vs (S n) → DeviceBus.virtio_n b = length vs →
  mmio_wf v → VirtioMmio.irq v = S (length vs) → VirtioMmio.dev v = Nic c → length (VirtioNet.mac c) = 6%nat →
  fits (dev_blob (Nic c)) →
  runs (BusSnap.load_net_slot (dev_blob (Nic c))) b (mmio_bytes v) (restored b vs n v) tt.
Proof.
  intros Hv Hn Hw Hi Hd Hm Hf pre post Hfit.
  unfold BusSnap.load_net_slot.
  destruct (reads_front Reader.bytes (to_le_bytes 8 (Z.of_nat (length (VirtioNet.mac c))) ++ VirtioNet.mac c)
    (held_bytes (VirtioNet.pending_rx c)) _ (reads_bytes _) Hf) as (r & Er).
  rewrite (lift_bind _ _ _ (Some (VirtioNet.mac c))) by (unfold dev_blob; by rewrite Er). cbn iota.
  rewrite slice_get_whole by (by rewrite Hm). revert pre post Hfit.
  set (v0 := VirtioMmio.new (new_net (VirtioNet.mac c)) (S (length vs)) : VirtioMmio.t AnyDevice).
  eapply (runs_fst _ _ _ ((attached b vs n v0) <| DeviceBus.net := Some (length vs) |>)).
  { unfold DeviceBus.attach_virtio_net, bind_some. rewrite (M_bind_some _ _ _ _ _ (attach_packed b vs n _ Hv Hn)).
    cbn iota. replace (S (length vs) - 1)%nat with (length vs) by lia. reflexivity. }
  intros pre post Hfit. rewrite get_fst_bind.
  change (BusSnap.last_some (DeviceBus.virtio _) 0) with (BusSnap.last_some (packed_slots (vs ++ [v0]) n) 0).
  rewrite last_packed. cbn [Nat.add].
  revert pre post Hfit.
  assert (E : restored b vs n v = DeviceBus.set_slot (length vs) (thaw_slot v)
                ((attached b vs n v0) <| DeviceBus.net := Some (length vs) |>)).
  { unfold restored. rewrite Hd. cbn [is_nic]. rewrite <- (set_last b vs n v0 (thaw_slot v)). reflexivity. }
  rewrite E. apply (runs_in_slot _ _ _ v0); [apply packed_lookup|].
  eapply (runs_fst _ _ _ (VirtioMmio.new (thaw_dev (Nic c)) (S (length vs)))).
  { unfold zoom. change (VirtioMmio.dev v0) with (Nic (VirtioNet.new NetQueues.default (VirtioNet.mac c))).
    rewrite (load_dev_nic c _ Hm Hf). reflexivity. }
  unfold thaw_slot. rewrite Hd, <- Hi. by apply runs_transport.
Qed.
End Restore.

Section Board.
Context {PR : Profile} {T : Target} {Ht : TargetOk T}.
Implicit Types b : DeviceBus.t AnyDevice.
Implicit Types v : VirtioMmio.t AnyDevice.

Lemma fits_part a l l' : fits (a ++ l ++ l') → fits l.
Proof. unfold fits, urange. rewrite !length_app. lia. Qed.

Lemma runs_fits {S B} (m : M (S * Reader.t) (option B)) s l s' (b : B) : (fits l → runs m s l s' b) → runs m s l s' b.
Proof. intros Hm pre post Hf. apply Hm; [|done]. apply (fits_part pre l []). by rewrite app_nil_r. Qed.

Definition slot_ok (i : nat) v : Prop := mmio_wf v ∧ VirtioMmio.irq v = S i ∧ dev_sized (VirtioMmio.dev v).

Lemma load_slot_run b vs n v :
  DeviceBus.virtio b = packed_slots vs (S n) → DeviceBus.virtio_n b = length vs → slot_ok (length vs) v →
  runs BusSnap.load_slot b (slot_bytes (Some v)) (restored b vs n v) tt.
Proof.
  intros Hv Hn (Hw & Hi & Hs). apply runs_fits. intros Hf. unfold BusSnap.load_slot, slot_bytes in *. cbv zeta in *.
  assert (Hblob : fits (dev_blob (VirtioMmio.dev v))).
  { rewrite <- !(app_assoc (to_le_bytes 8 _)), !app_assoc in Hf. rewrite <- (app_assoc _ (dev_blob _)) in Hf.
    by apply fits_part in Hf. }
  clear Hf. eapply runs_read; [apply reads_bool|]. cbn [negb].
  eapply runs_read; [apply reads_u32; by destruct (VirtioMmio.dev v)|].
  eapply runs_read; [apply reads_bytes|].
  destruct (VirtioMmio.dev v) as [d|c|p] eqn:Hd; cbn [dev_kind Z.eqb Pos.eqb].
  - change (dev_blob (Disk d)) with (to_le_bytes 8 (capacity_sectors (VirtioBlk.backend d))).
    rewrite slice_get_whole by (by rewrite length_to_le_bytes). rewrite from_to_le_bytes. cbn [dev_sized] in Hs.
    rewrite wrap_small by done. apply load_fresh_run; try done; by rewrite Hd.
  - by apply load_net_run.
  - apply load_fresh_run; try done; by rewrite Hd.
Qed.

(** The slot of the network card that the host reaches: the last one. *)
Fixpoint last_nic (i : nat) (vs : list (VirtioMmio.t AnyDevice)) (o : option nat) : option nat :=
  match vs with
  | [] => o
  | v :: vs => last_nic (S i) vs (if is_nic (VirtioMmio.dev v) then Some i else o)
  end.

Definition restored_all b vs us m : DeviceBus.t AnyDevice :=
  b <| DeviceBus.virtio := packed_slots (vs ++ (thaw_slot <$> us)) m |>
    <| DeviceBus.virtio_n := (length vs + length us)%nat |>
    <| DeviceBus.net := last_nic (length vs) us (DeviceBus.net b) |>.

Lemma restored_all_cons b vs v us m :
  restored_all (restored b vs (length us + m) v) (vs ++ [thaw_slot v]) us m = restored_all b vs (v :: us) m.
Proof.
  unfold restored_all. cbn [fmap list_fmap length last_nic]. rewrite <- (app_assoc vs [thaw_slot v]), length_app. cbn [length app].
  rewrite <- Nat.add_assoc, Nat.add_1_r. cbn [Nat.add]. reflexivity.
Qed.

Lemma load_slots_run us m : ∀ i b vs,
  DeviceBus.virtio b = packed_slots vs (length us + m) → DeviceBus.virtio_n b = length vs →
  (∀ k v, us !! k = Some v → slot_ok (length vs + k) v) →
  runs (for_some (length us + m) i (λ _, BusSnap.load_slot)) b (concat (slot_bytes <$> packed_slots us m))
    (restored_all b vs us m) tt.
Proof.
  induction us as [|v us IH]; intros i b vs Hv Hn Hs; cbn [length Nat.add] in *.
  - assert (E : restored_all b vs [] m = b).
    { unfold restored_all. cbn [fmap list_fmap length last_nic]. rewrite app_nil_r, Nat.add_0_r, <- Hv, <- Hn. by destruct b. }
    rewrite E. clear. revert i. induction m as [|m IH]; intros i; [exact (runs_done b)|].
    cbn [for_some packed_slots fmap list_fmap app replicate concat].
    eapply runs_bind; [|apply IH]. unfold BusSnap.load_slot, slot_bytes. rewrite <- (app_nil_r [b2z false]).
    eapply runs_read; [apply reads_bool|]. apply runs_done.
  - cbn [for_some packed_slots fmap list_fmap app concat].
    eapply runs_bind.
    + apply load_slot_run; [exact Hv|exact Hn|]. rewrite <- (Nat.add_0_r (length vs)). by apply Hs.
    + rewrite <- restored_all_cons. apply IH.
      * reflexivity.
      * change (S (length vs) = length (vs ++ [thaw_slot v])). rewrite length_app. cbn. lia.
      * intros k w Hk. rewrite length_app. cbn [length]. rewrite <- Nat.add_assoc. by apply (Hs (S k)).
Qed.
End Board.

Section Bus.
Context {PR : Profile} {T : Target} {Ht : TargetOk T}.
Implicit Types b : DeviceBus.t AnyDevice.
Implicit Types v : VirtioMmio.t AnyDevice.

Definition slots_of b : list (VirtioMmio.t AnyDevice) := omap id (DeviceBus.virtio b).
Definition free_slots b : nat := (VIRTIO_MMIO_SLOTS - length (slots_of b))%nat.

(** What a snapshot needs of the bus beyond [bus_wf]: the slots filled from the
    first on, as the attach calls fill them, devices of the sizes they have,
    and a DRAM of whole pages that an allocation can have. *)
Record bus_ready b : Prop := {
  br_len : length (DeviceBus.virtio b) = VIRTIO_MMIO_SLOTS;
  br_packed : DeviceBus.virtio b = packed_slots (slots_of b) (free_slots b);
  br_slots : ∀ k v, slots_of b !! k = Some v → slot_ok k v;
  br_pages : (length (DeviceBus.dram b) mod PAGE = 0)%nat;
  br_size : Z.of_nat (length (DeviceBus.dram b)) < 2 ^ (usize_bits - 1);
  br_dram : DeviceBus.dram_size b = Z.of_nat (length (DeviceBus.dram b));
  br_mtime : urange 64 (DeviceBus.mtime b);
  br_mtimecmp : urange 64 (DeviceBus.mtimecmp b);
  br_msoft : urange 32 (DeviceBus.msoft b);
  br_accum : urange 64 (DeviceBus.tick_accum b);
  br_uart : Forall (urange 8) [DeviceBus.uart_mcr b; DeviceBus.uart_scr b; DeviceBus.uart_ier b;
    DeviceBus.uart_fcr b; DeviceBus.uart_lcr b; DeviceBus.uart_dll b; DeviceBus.uart_dlm b];
  br_plic : plic_wf (DeviceBus.plic b);
  br_poll : urange 64 (DeviceBus.net_poll_accum b);
}.

(** The bus that comes back: a new one of the same size with the memory, the
    clock, the registers, the interrupt controller and the thawed slots. *)
Definition thaw_bus b : DeviceBus.t AnyDevice :=
  (DeviceBus.new (DeviceBus.dram_size b))
    <| DeviceBus.dram := DeviceBus.dram b |> <| DeviceBus.mtime := DeviceBus.mtime b |>
    <| DeviceBus.mtimecmp := DeviceBus.mtimecmp b |> <| DeviceBus.msoft := DeviceBus.msoft b |>
    <| DeviceBus.tick_accum := DeviceBus.tick_accum b |> <| DeviceBus.uart_mcr := DeviceBus.uart_mcr b |>
    <| DeviceBus.uart_scr := DeviceBus.uart_scr b |> <| DeviceBus.uart_ier := DeviceBus.uart_ier b |>
    <| DeviceBus.uart_fcr := DeviceBus.uart_fcr b |> <| DeviceBus.uart_lcr := DeviceBus.uart_lcr b |>
    <| DeviceBus.uart_dll := DeviceBus.uart_dll b |> <| DeviceBus.uart_dlm := DeviceBus.uart_dlm b |>
    <| DeviceBus.uart_rx := DeviceBus.uart_rx b |> <| DeviceBus.plic := DeviceBus.plic b |>
    <| DeviceBus.virtio := packed_slots (thaw_slot <$> slots_of b) (free_slots b) |>
    <| DeviceBus.virtio_n := length (slots_of b) |>
    <| DeviceBus.net := last_nic 0 (slots_of b) None |>
    <| DeviceBus.net_poll_accum := DeviceBus.net_poll_accum b |>.

Definition rest_bytes b : list Z :=
  to_le_bytes 8 (DeviceBus.mtime b) ++ to_le_bytes 8 (DeviceBus.mtimecmp b) ++ to_le_bytes 4 (DeviceBus.msoft b)
  ++ to_le_bytes 8 (DeviceBus.tick_accum b) ++ [DeviceBus.uart_mcr b] ++ [DeviceBus.uart_scr b] ++ [DeviceBus.uart_ier b]
  ++ [DeviceBus.uart_fcr b] ++ [DeviceBus.uart_lcr b] ++ [DeviceBus.uart_dll b] ++ [DeviceBus.uart_dlm b]
  ++ (to_le_bytes 8 (Z.of_nat (length (DeviceBus.uart_rx b))) ++ DeviceBus.uart_rx b)
  ++ plic_bytes (DeviceBus.plic b) ++ concat (slot_bytes <$> DeviceBus.virtio b)
  ++ to_le_bytes 8 (DeviceBus.net_poll_accum b).
Definition bus_bytes b : list Z :=
  to_le_bytes 8 (DeviceBus.dram_size b) ++ dram_bytes (DeviceBus.dram b) ++ rest_bytes b.

Lemma save_bus_wrote b w : BusSnap.save_state b w = Some (Writer.mk (Writer.buf w ++ bus_bytes b)).
Proof.
  unfold BusSnap.save_state. cbv zeta. rewrite save_slots_wrote. cbn [mbind option_bind]. f_equal. apply writer_eq.
  cbn [Writer.u8 Writer.u32 Writer.u64 Writer.bytes Writer.push Writer.buf]. rewrite (save_plic_wrote (DeviceBus.plic b)).
  cbn [Writer.u8 Writer.u32 Writer.u64 Writer.bytes Writer.push Writer.buf]. rewrite (save_dram_wrote (DeviceBus.dram b)).
  cbn [Writer.u8 Writer.u32 Writer.u64 Writer.bytes Writer.push Writer.buf].
  unfold bus_bytes, rest_bytes. by rewrite <- !app_assoc.
Qed.

Lemma slots_count b : bus_ready b → (length (slots_of b) + free_slots b = VIRTIO_MMIO_SLOTS)%nat.
Proof.
  intros []. pose proof (f_equal length br_packed0) as E. rewrite br_len0 in E. unfold packed_slots in E.
  by rewrite length_app, length_fmap, length_replicate in E.
Qed.

(** The bus being loaded, as a constructor applied to its fields. *)
Ltac bus_norm s :=
  eval cbv beta iota delta [set_field DeviceBus.new DeviceBus.set_plic restored_all thaw_bus
    DeviceBus.dram DeviceBus.dram_base DeviceBus.dram_size DeviceBus.mtime DeviceBus.mtimecmp DeviceBus.msoft
    DeviceBus.tick_accum DeviceBus.uart_console DeviceBus.uart_mcr DeviceBus.uart_scr DeviceBus.uart_ier
    DeviceBus.uart_rx DeviceBus.plic DeviceBus.uart_fcr DeviceBus.uart_lcr DeviceBus.uart_dll DeviceBus.uart_dlm
    DeviceBus.virtio DeviceBus.virtio_n DeviceBus.net_poll_accum DeviceBus.idle_stall DeviceBus.net
    DeviceBus.clint_mtime_reads DeviceBus.clint_mtimecmp_writes] in s.
Ltac at_bus :=
  lazymatch goal with |- runs ?m ?s ?l ?s' ?x => let s1 := bus_norm s in change (runs m s1 l s' x) end.

Lemma load_rest_run b b0 :
  bus_ready b → (length (slots_of b) + free_slots b = VIRTIO_MMIO_SLOTS)%nat →
  b0 = (DeviceBus.new (DeviceBus.dram_size b)) <| DeviceBus.dram := DeviceBus.dram b |> →
  runs BusSnap.load_rest b0 (rest_bytes b) (thaw_bus b) tt.
Proof.
  intros [] Hn ->. unfold BusSnap.load_rest, rest_bytes.
  repeat match goal with H : Forall _ (_ :: _) |- _ => apply Forall_cons in H as [? H] end.
  do 4 (eapply runs_into; [by first [apply reads_u32|apply reads_u64]|at_bus]).
  do 7 (eapply runs_into; [by apply reads_u8|at_bus]).
  eapply runs_into; [apply reads_bytes|at_bus].
  eapply runs_bind.
  { eapply (runs_part _ _ _ _ _ (DeviceBus.plic b)). intros pre post Hf. by apply load_plic_run. }
  at_bus.
  rewrite br_packed0 at 1. eapply runs_bind.
  { rewrite <- Hn. apply (load_slots_run (slots_of b) (free_slots b) 0 _ []); [|reflexivity|exact br_slots0].
    rewrite Hn. reflexivity. }
  at_bus.
  rewrite <- (app_nil_r (to_le_bytes 8 (DeviceBus.net_poll_accum b))).
  eapply runs_into; [by apply reads_u64|at_bus].
  match goal with |- runs _ ?s _ _ _ =>
    let s' := bus_norm (thaw_bus b) in change (runs done_some s [] s' tt) end.
  apply runs_done.
Qed.
End Bus.

(** * The machine *)

Section Machine.
Context {PR : Profile} {T : Target} {Ht : TargetOk T} {LM : Libm}.
Implicit Types b : DeviceBus.t AnyDevice.
Implicit Types m : Machine.t AnyDevice.

Lemma load_bus_reads b : bus_ready b → reads BusSnap.load_state (bus_bytes b) (thaw_bus b).
Proof.
  intros Hb. pose proof (slots_count b Hb) as Hn. pose proof Hb as []. unfold BusSnap.load_state, bus_bytes. pose proof usize_ok as Hu.
  assert (Hp : 2 ^ (usize_bits - 1) < 2 ^ usize_bits) by (apply Z.pow_lt_mono_r; lia).
  assert (Hp64 : 2 ^ usize_bits <= 2 ^ 64) by (apply Z.pow_le_mono_r; lia).
  rewrite br_dram0. eapply reads_bind; [apply reads_u64; unfold urange; lia|]. cbv zeta.
  rewrite wrap_small by (unfold urange; lia).
  destruct (Z.ltb_spec (Z.of_nat (length (DeviceBus.dram b))) (2 ^ (usize_bits - 1))); [|lia].
  intros pre post Hf. rewrite (lift_bind _ _ _ _ eq_refl). revert pre post Hf. apply reads_filled_at.
  unfold dram_bytes. rewrite <- app_assoc.
  eapply runs_read; [apply reads_u64|].
  { pose proof (used_pages_length (DeviceBus.dram b)). unfold urange. lia. }
  eapply runs_fuel. intros fuel Hfuel.
  eapply runs_bind.
  - intros pre post Hf. apply (load_pages_run (DeviceBus.dram b)); try done.
    + apply used_pages_in.
    + cbn. rewrite length_replicate. lia.
    + pose proof (pages_length (DeviceBus.dram b) (BusSnap.used_pages (DeviceBus.dram b))). rewrite length_app in Hfuel. lia.
  - apply load_rest_run; [done|done|]. rewrite br_dram0. cbn [DeviceBus.dram DeviceBus.new]. rewrite Nat2Z.id.
    by rewrite dram_restored by done.
Qed.

(** What a snapshot needs of the bus beyond its invariant: the slots filled from
    the first on, as the attach calls fill them, devices of the sizes they
    have, and a DRAM of whole pages that an allocation can have. *)
Record snap_ready b : Prop := {
  sr_packed : DeviceBus.virtio b = packed_slots (slots_of b) (free_slots b);
  sr_sized : Forall (λ v, dev_sized (VirtioMmio.dev v)) (slots_of b);
  sr_pages : (length (DeviceBus.dram b) mod PAGE = 0)%nat;
  sr_size : DeviceBus.dram_size b < 2 ^ (usize_bits - 1);
}.

Lemma ready_of_wf b : bus_wf b → snap_ready b → bus_ready b.
Proof.
  intros Hb []. pose proof Hb as []. destruct bw_slots as [Hl Hs]. pose proof (dw_size _ bw_dram) as Hd.
  constructor; try done.
  - intros k v Hk. destruct (Hs k v) as (Hw & _ & Hi).
    { rewrite sr_packed0. unfold packed_slots. rewrite lookup_app_l.
      - by rewrite list_lookup_fmap, Hk.
      - rewrite length_fmap. by eapply lookup_lt_Some. }
    split_and!; [done|done|]. rewrite Forall_lookup in sr_sized0. by eapply sr_sized0.
  - lia.
  - unfold urange, MTIME_STEPS_PER_TICK in *. lia.
Qed.

(** The console counters stay behind what they count. *)
Record console_ok m : Prop := {
  co_taken : 0 <= Machine.console_taken m;
  co_sbi : 0 <= Machine.sbi_taken m;
  co_len : Sup.console_len (Machine.cpu m) <= Z.of_nat (length (Sup.console_buf (Machine.cpu m)));
}.

Lemma slice_get_some {A} (l : list A) x y : 0 <= x → x <= y → y <= Z.of_nat (length l) → ∃ r, slice_get l x y = Some r.
Proof.
  intros H0 Hx Hy. unfold slice_get. destruct (Z.leb_spec x y); [|lia].
  destruct (Z.leb_spec y (Z.of_nat (length l))); [|lia]. eauto.
Qed.

Lemma take_console_run m : console_ok m → ∃ out m1,
  Machine.take_console m = Some (out, m1)
  ∧ Machine.cpu m1 = Machine.cpu m ∧ Machine.bus m1 = Machine.bus m ∧ Machine.steps m1 = Machine.steps m.
Proof.
  intros []. unfold Machine.take_console.
  enough (∃ m1, Machine.drain_console m = Some (tt, m1)
    ∧ Machine.cpu m1 = Machine.cpu m ∧ Machine.bus m1 = Machine.bus m ∧ Machine.steps m1 = Machine.steps m) as (m1 & E & Hm).
  { eexists _, _. rewrite (M_bind_some _ _ _ _ _ E). split; [reflexivity|]. exact Hm. }
  unfold Machine.drain_console. rewrite M_bind_run. cbn [get id].
  set (out := DeviceBus.uart_console (Machine.bus m)).
  assert (∃ m1, (if Machine.console_taken m <? Z.of_nat (length out) then
      s ← lift (slice_get out (Machine.console_taken m) (Z.of_nat (length out)));
      modify (λ m : Machine.t AnyDevice, m <| Machine.console := Machine.console m ++ s |> <| Machine.console_taken := Z.of_nat (length out) |>)
    else mret tt) m = Some (tt, m1) ∧ Machine.sbi_taken m1 = Machine.sbi_taken m
    ∧ Machine.cpu m1 = Machine.cpu m ∧ Machine.bus m1 = Machine.bus m ∧ Machine.steps m1 = Machine.steps m)
    as (m1 & E & Hs & Hc & Hb & Hn).
  { destruct (Z.ltb_spec (Machine.console_taken m) (Z.of_nat (length out))); [|by eexists].
    destruct (slice_get_some out (Machine.console_taken m) (Z.of_nat (length out))) as [r Er]; [lia..|].
    eexists. rewrite (lift_bind _ _ _ _ Er). by split. }
  rewrite (M_bind_some _ _ _ _ _ E). rewrite M_bind_run. cbn [get id]. rewrite Hs, Hc.
  destruct (Z.ltb_spec (Machine.sbi_taken m) (Sup.console_len (Machine.cpu m))); [|by eexists].
  destruct (slice_get_some (Sup.console_buf (Machine.cpu m)) (Machine.sbi_taken m)
    (Z.min (Sup.console_len (Machine.cpu m)) (Z.of_nat (length (Sup.console_buf (Machine.cpu m)))))) as [r Er]; [lia..|].
  eexists. rewrite (lift_bind _ _ _ _ Er). by split.
Qed.

Definition machine_bytes m : list Z :=
  SNAP_MAGIC ++ to_le_bytes 8 (Machine.steps m) ++ sup_bytes (Machine.cpu m) ++ bus_bytes (Machine.bus m).
Definition thaw m : Machine.t AnyDevice :=
  Machine.fresh (thaw_bus (Machine.bus m)) (thaw_sup (Machine.cpu m)) (Machine.steps m).

Lemma save_run m : console_ok m → ∃ m1, MachineSnap.save m = Some (Some (machine_bytes m), m1)
  ∧ Machine.cpu m1 = Machine.cpu m ∧ Machine.bus m1 = Machine.bus m ∧ Machine.steps m1 = Machine.steps m.
Proof.
  intros Hm. destruct (take_console_run m Hm) as (out & m1 & E & Hc & Hb & Hs). exists m1. split; [|done].
  unfold MachineSnap.save. rewrite (M_bind_some _ _ _ _ _ E). rewrite M_bind_run. cbn [get id]. cbv zeta.
  unfold mret, M_ret. do 2 f_equal. rewrite save_bus_wrote. cbn [fmap option_fmap option_map Writer.buf].
  rewrite (save_sup_wrote (Machine.cpu m1)), Hc, Hb, Hs. unfold machine_bytes.
  cbn [Writer.u64 Writer.push Writer.buf Writer.default]. by rewrite <- !app_assoc.
Qed.

(** What the fields of the hart the stream carries may hold beyond [sup_wf]. *)
Definition reservation_ok (s : Sup.t) : Prop := from_option (urange 64) True (Sup.reservation_addr s).

Lemma restore_run m : sup_wf (Machine.cpu m) → reservation_ok (Machine.cpu m) → bus_ready (Machine.bus m) →
  urange 64 (Machine.steps m) → fits (machine_bytes m) →
  MachineSnap.restore (machine_bytes m) = Some (Some (thaw m)).
Proof.
  intros Hs Hr Hb Hn Hf. unfold MachineSnap.restore, machine_bytes in *.
  rewrite (slice_get_front SNAP_MAGIC) by done. rewrite bool_decide_eq_true_2 by done.
  assert (Hread : reads MachineSnap.restore_from
    (to_le_bytes 8 (Machine.steps m) ++ sup_bytes (Machine.cpu m) ++ bus_bytes (Machine.bus m)) (thaw m)).
  { unfold MachineSnap.restore_from. eapply reads_bind; [by apply reads_u64|].
    eapply reads_bind; [by apply load_sup_loads|]. rewrite <- (app_nil_r (bus_bytes _)).
    eapply reads_bind; [by apply load_bus_reads|]. apply reads_ret. }
  specialize (Hread SNAP_MAGIC []). rewrite app_nil_r in Hread.
  change (Z.of_nat (length SNAP_MAGIC)) with 8 in Hread. by rewrite (Hread Hf).
Qed.

(** ** The restored machine is well formed *)

Lemma set_field_wf s : sup_wf s →
  ∀ s0, sup_wf s0 → sup_wf (s0 <| Sup.cpu := thaw_cpu (Sup.cpu s) |>).
Proof.
  intros Hs s0. destruct (wf_cpu _ Hs). wf_upd. constructor; try done.
Qed.

Lemma thaw_sup_wf s : sup_wf s → sup_wf (thaw_sup s).
Proof.
  intros Hs. unfold thaw_sup, SupSnap.drop_caches. apply dcache_flush_wf.
  pose proof (sup_new_wf DRAM_BASE 0 ltac:(done) ltac:(done)) as H0.
  generalize dependent (Sup.new DRAM_BASE 0). intros s0 H0.
  apply (set_field_wf s Hs) in H0. generalize dependent (s0 <| Sup.cpu := thaw_cpu (Sup.cpu s) |>).
  clear s0. intros s0 H0. destruct Hs, H0. constructor; cbn; try assumption. by apply tlb_shape_flush.
Qed.

Lemma thaw_dev_inv (d : AnyDevice) : any_inv d → any_inv (thaw_dev d).
Proof.
  destruct d as [d|n|p]; cbn [any_inv AnyDev.on_kind thaw_dev].
  - intros _. by apply new_blk_inv.
  - intros (_ & Hm & Hp). split; [constructor|]. by split.
  - intros Hp. apply (p9_new_inv false), lossy_bytes. apply Hp.
Qed.

Lemma packed_slot_lookup vs n i v :
  packed_slots vs n !! i = Some (Some v) → vs !! i = Some v.
Proof.
  unfold packed_slots. intros [Hi|[_ Hi]]%lookup_app_Some.
  - rewrite list_lookup_fmap in Hi. destruct (vs !! i); [by injection Hi as ->|done].
  - by apply lookup_replicate_1 in Hi as [? _].
Qed.

Lemma thaw_bus_wf b : bus_wf b → snap_ready b → bus_wf (thaw_bus b).
Proof.
  intros Hb Hr. pose proof (ready_of_wf b Hb Hr) as Hy. pose proof (slots_count b Hy) as Hn. destruct Hr, Hb, Hy.
  pose proof usize_half as [Hu1 Hu2]. unfold thaw_bus. destruct bw_slots as [Hl Hs].
  constructor; cbn; try assumption; try done.
  - destruct bw_dram. constructor; cbn; try done. unfold DRAM_BASE. lia.
  - split.
    + rewrite <- Hl, sr_packed0. unfold packed_slots. by rewrite !length_app, !length_fmap.
    + intros i w Hw%packed_slot_lookup. rewrite list_lookup_fmap in Hw.
      destruct (slots_of b !! i) as [v|] eqn:Ev; [|done]. injection Hw as <-.
      destruct (Hs i v) as (Hm & Hd & Hi).
      { rewrite sr_packed0. unfold packed_slots. rewrite lookup_app_l by (rewrite length_fmap; by eapply lookup_lt_Some).
        by rewrite list_lookup_fmap, Ev. }
      split_and!; [by destruct Hm|by apply thaw_dev_inv|done].
  - lia.
Qed.

(** ** A second snapshot *)

(** A share whose name is UTF-8, as the mount tags of the command line are. *)
Definition named_ok (v : VirtioMmio.t AnyDevice) : Prop :=
  match VirtioMmio.dev v with Share p => from_utf8_lossy (Virtio9p.tag p) = Virtio9p.tag p | _ => True end.

Lemma thaw_slot_bytes v : named_ok v → slot_bytes (Some (thaw_slot v)) = slot_bytes (Some v).
Proof.
  intros Hn. unfold slot_bytes. cbv zeta. unfold named_ok in Hn.
  assert (E : dev_blob (VirtioMmio.dev (thaw_slot v)) = dev_blob (VirtioMmio.dev v)
              ∧ dev_kind (VirtioMmio.dev (thaw_slot v)) = dev_kind (VirtioMmio.dev v)).
  { change (VirtioMmio.dev (thaw_slot v)) with (thaw_dev (VirtioMmio.dev v)).
    destruct (VirtioMmio.dev v) as [d|n|p]; split; try done. }
  destruct E as [-> ->]. reflexivity.
Qed.

Lemma thaw_bus_bytes b : snap_ready b → Forall named_ok (slots_of b) → bus_bytes (thaw_bus b) = bus_bytes b.
Proof.
  intros [] Hn.
  assert (E : concat (slot_bytes <$> packed_slots (thaw_slot <$> slots_of b) (free_slots b))
              = concat (slot_bytes <$> DeviceBus.virtio b)).
  { rewrite sr_packed0. unfold packed_slots. rewrite !fmap_app, !concat_app. f_equal. f_equal.
    rewrite <- !list_fmap_compose. apply Forall_fmap_ext. eapply Forall_impl; [exact Hn|]. intros v. apply thaw_slot_bytes. }
  unfold bus_bytes, rest_bytes. rewrite <- E. reflexivity.
Qed.

Lemma thaw_sup_bytes s : sup_bytes (thaw_sup s) = sup_bytes s.
Proof.
  unfold thaw_sup. generalize (Sup.new DRAM_BASE 0). intros s0. reflexivity.
Qed.

Lemma thaw_sup_console s :
  Sup.console_len (thaw_sup s) = Sup.console_len (Sup.new DRAM_BASE 0)
  ∧ Sup.console_buf (thaw_sup s) = Sup.console_buf (Sup.new DRAM_BASE 0).
Proof. unfold thaw_sup. generalize (Sup.new DRAM_BASE 0). intros s0. split; reflexivity. Qed.
Lemma new_console_len pc h : Sup.console_len (Sup.new pc h) = 0.
Proof. reflexivity. Qed.

Lemma thaw_console m : console_ok (thaw m).
Proof.
  constructor; [apply Z.le_refl..|].
  change (Sup.console_len (thaw_sup (Machine.cpu m)) <= Z.of_nat (length (Sup.console_buf (thaw_sup (Machine.cpu m))))).
  destruct (thaw_sup_console (Machine.cpu m)) as [-> ->]. rewrite new_console_len. apply Nat2Z.is_nonneg.
Qed.

(** C15: A snapshot restores the machine.  Of every well-formed machine (what a
    boot builds and any run leaves, [machine_invariant]) whose DRAM is whole
    pages, whose slots were filled by the attach calls, whose console counters
    are not past what they count and whose reservation, if any, is a 64-bit
    address, [save] produces a snapshot without changing the hart, the bus or the instruction count; from
    exactly those bytes [restore] builds a machine with the same registers,
    CSRs, memory, clock, UART, interrupt controller, queues and requests in
    flight, the TLB and decode cache empty and the host's side of each device
    detached ([thaw] says what each device keeps); the derived claimable bitmap
    comes back equal although it is not stored; the restored machine is well
    formed; and saving it again gives the same bytes when the share names are
    UTF-8. *)
Theorem snapshot_roundtrip m :
  machine_wf m → console_ok m → reservation_ok (Machine.cpu m) → snap_ready (Machine.bus m) →
  fits (machine_bytes m) →
  ∃ m1, MachineSnap.save m = Some (Some (machine_bytes m), m1)
    ∧ Machine.cpu m1 = Machine.cpu m ∧ Machine.bus m1 = Machine.bus m ∧ Machine.steps m1 = Machine.steps m
    ∧ MachineSnap.restore (machine_bytes m) = Some (Some (thaw m))
    ∧ machine_wf (thaw m)
    ∧ (Forall named_ok (slots_of (Machine.bus m)) → fst <$> MachineSnap.save (thaw m) = Some (Some (machine_bytes m))).
Proof.
  intros [Hc Hb Hw] Hm Hr Hy Hf. apply Forall_cons in Hw as [Hn _].
  destruct (save_run m Hm) as (m1 & E & E1 & E2 & E3). exists m1. split_and!; try done.
  - apply restore_run; try done. by apply ready_of_wf.
  - apply fresh_wf; [by apply thaw_sup_wf|by apply thaw_bus_wf|done].
  - intros Hu. destruct (save_run (thaw m) (thaw_console m)) as (m2 & -> & _). cbn [fmap option_fmap option_map fst].
    unfold machine_bytes, thaw. cbn [Machine.fresh Machine.cpu Machine.bus Machine.steps].
    by rewrite thaw_sup_bytes, thaw_bus_bytes.
Qed.

Lemma grow_wf b l : bus_wf b → Forall is_byte l → Z.of_nat (length l) < 2 ^ 31 → DeviceBus.dram_base b = DRAM_BASE →
  bus_wf (b <| DeviceBus.dram := l |> <| DeviceBus.dram_size := Z.of_nat (length l) |>).
Proof.
  intros [] Hl Hn Hb. pose proof usize_half as [Hu1 Hu2]. constructor; try assumption. constructor; cbn; try done; rewrite ?Hb; unfold DRAM_BASE; lia.
Qed.
End Machine.

(** ** A concrete machine *)

(** Two pages of memory, of which the second is in use, a disk, a network card. *)
Definition two_pages : list Z := replicate (Z.to_nat 8192) 0.
Definition snap_board : DeviceBus.t AnyDevice :=
  loaded (demo_bus <| DeviceBus.dram := two_pages |> <| DeviceBus.dram_size := Z.of_nat (length two_pages) |>)
    0x80001000 (to_le_bytes 4 0x10500073).
Definition snapped : Machine.t AnyDevice := Machine.fresh snap_board sleepy_hart 7.

Lemma snap_board_wf : @bus_wf _ demo_dev (@any_ok Release Wasm32 wasm_ok) Wasm32 snap_board.
Proof.
  apply loaded_wf; [|split; vm_compute; discriminate|apply to_le_bytes_bytes].
  apply (@grow_wf Release Wasm32 wasm_ok); [apply demo_board_wf| |vm_compute; reflexivity|vm_compute; reflexivity].
  apply Forall_replicate. by unfold is_byte, urange.
Qed.

Lemma snapped_ready : @snap_ready Release Wasm32 snap_board.
Proof.
  constructor; [vm_compute; reflexivity| |vm_compute; reflexivity|vm_compute; reflexivity].
  assert (E : VirtioMmio.dev <$> slots_of snap_board
    = [Disk (VirtioBlk.new (InMemory (MemBackend.mk (replicate 512 0)))); Nic (VirtioNet.new NetQueues.default [2; 0; 0; 0; 0; 1])])
    by (vm_compute; reflexivity).
  pose proof (Forall_fmap VirtioMmio.dev (@dev_sized Release Wasm32) (slots_of snap_board)) as [H _].
  apply H. rewrite E. repeat constructor; vm_compute; discriminate.
Qed.

Lemma snapshot_roundtrip_witness : ∃ bytes,
  (fst <$> @MachineSnap.save _ demo_dev snapped = Some (Some bytes))
  ∧ @MachineSnap.restore _ demo_dev demo_devs Release Wasm32 bytes = Some (Some (@thaw Release Wasm32 snapped)).
Proof.
  destruct (@snapshot_roundtrip Release Wasm32 wasm_ok snapped) as (m1 & E & _ & _ & _ & Er & _).
  - apply fresh_wf; [|apply snap_board_wf|by unfold urange].
    apply set_console_wf, sup_new_wf; by unfold urange.
  - constructor; vm_compute; discriminate.
  - exact I.
  - apply snapped_ready.
  - split; vm_compute; [discriminate|reflexivity].
  - eexists. split; [rewrite E; reflexivity|exact Er].
Defined.
