(* ===== verification/Wasm.v ===== *)
(** The WebAssembly that the block compiler emits ([riscv-jit/src/lib.rs]) and
    what it does.

    [W] has the constructors of [wasm_encoder::Instruction] that the compiler
    uses, under the names it imports them by.  [If], [Else], [End] and [Block],
    [End] bracket instruction sequences; here the bracketed sequences are the
    fields of [If] and [Block], as in the abstract syntax of the WebAssembly
    specification.  [run] is the execution of that specification on a stack, the
    locals of a function and one linear memory: a trap or an ill-typed program
    is [None].  Imported functions are a parameter.  The vector instructions
    have no semantics here: the switch that emits them is off. *)

From S2P Require Import Prelude.

Inductive ValType := TI32 | TI64 | TV128.
Inductive BlockType := BEmpty | BResult (t : ValType).

Module MemArg.
Record t := mk { offset : Z; align : Z }.
End MemArg.

Inductive W :=
| LocalGet (x : nat) | LocalSet (x : nat) | LocalTee (x : nat)
| I32Const (z : Z) | I64Const (z : Z)
| I64Add | I64Sub | I64Mul | I64And | I64Or | I64Xor | I64Shl | I64ShrU | I64ShrS
| I64Eq | I64Ne | I64LtS | I64LtU | I64GeS | I64GeU | I64GtS | I64GtU
| I32Add | I32Sub | I32Mul | I32And | I32Shl | I32ShrU | I32ShrS
| I32Eq | I32Ne | I32LeU | I32Eqz
| I32WrapI64 | I64ExtendI32U | I64ExtendI32S | I64Extend8S | I64Extend16S | I64Extend32S
| I64Load (m : MemArg.t) | I64Load8U (m : MemArg.t) | I64Load16U (m : MemArg.t)
| I64Load32U (m : MemArg.t) | I32Load (m : MemArg.t)
| I64Store (m : MemArg.t) | I64Store8 (m : MemArg.t) | I64Store16 (m : MemArg.t)
| I64Store32 (m : MemArg.t) | I32Store (m : MemArg.t)
| Drop | Select
| If (bt : BlockType) (t e : list W) | Block (bt : BlockType) (b : list W) | Br (l : nat)
| Return | Call (f : Z) | ReturnCall (f : Z) | CallIndirect (type_index table_index : Z)
| ReturnCallIndirect (type_index table_index : Z)
| I64x2Splat | V128Store (m : MemArg.t).

(** A function: how many locals of each type after the parameters, and its body. *)
Module Func.
Record t := mk { locals : list (nat * ValType); body : list W }.
End Func.

(** * Linear memory

    Bytes beyond what was written are whatever the host left there; an access
    that does not lie within the memory traps. *)

Module Lin.
Record t := mk { len : Z; byte : Z → Z }.

Definition inside (m : t) (a : Z) (n : nat) : bool := (0 <=? a) && (a + Z.of_nat n <=? len m).
Definition bytes (m : t) (a : Z) (n : nat) : list Z := (λ i, wrap 8 (byte m (a + Z.of_nat i))) <$> seq 0 n.
Definition load (n : nat) (m : t) (a : Z) : option Z :=
  if inside m a n then Some (from_le_bytes (bytes m a n)) else None.
Definition poke (n : nat) (m : t) (a v : Z) : t :=
  mk (len m) (λ i, if (a <=? i) && (i <? a + Z.of_nat n) then to_le_bytes n v !!! Z.to_nat (i - a) else byte m i).
Definition store (n : nat) (m : t) (a v : Z) : option t :=
  if inside m a n then Some (poke n m a v) else None.
End Lin.

(** * Execution *)

Inductive val := V32 (z : Z) | V64 (z : Z).

Module St.
Record t (H : Type) := mk { stack : list val; locals : list val; memory : Lin.t; host : H }.
Arguments mk {H}.
Arguments stack {H}.
Arguments locals {H}.
Arguments memory {H}.
Arguments host {H}.
End St.

(** How a sequence ends: at its end, by a branch to an enclosing label, by
    returning, or by a tail call of a function of the table. *)
Inductive res (H : Type) :=
| RNext (s : St.t H)
| RBr (l : nat) (s : St.t H)
| RReturn (s : St.t H)
| RTail (f : Z) (args : list val) (s : St.t H).
Arguments RNext {H}.
Arguments RBr {H}.
Arguments RReturn {H}.
Arguments RTail {H}.

(** An imported function: its arguments, the memory and the host's own state. *)
Class Imports (H : Type) := imported : Z → list val → Lin.t → H → option (list val * Lin.t * H).

(** How many arguments an imported function takes. *)
Class Arity := arity : Z → nat.

Section Run.
Context {H : Type} `{Imports H} `{Arity}.
Implicit Types s : St.t H.

Definition push (v : val) s : St.t H := St.mk (v :: St.stack s) (St.locals s) (St.memory s) (St.host s).
Definition with_stack (l : list val) s : St.t H := St.mk l (St.locals s) (St.memory s) (St.host s).
Definition with_memory (m : Lin.t) s : St.t H := St.mk (St.stack s) (St.locals s) m (St.host s).

Definition bin64 (f : Z → Z → Z) s : option (St.t H) :=
  match St.stack s with V64 b :: V64 a :: k => Some (with_stack (V64 (as_u64 (f a b)) :: k) s) | _ => None end.
Definition rel64 (f : Z → Z → bool) s : option (St.t H) :=
  match St.stack s with V64 b :: V64 a :: k => Some (with_stack (V32 (b2z (f a b)) :: k) s) | _ => None end.
Definition bin32 (f : Z → Z → Z) s : option (St.t H) :=
  match St.stack s with V32 b :: V32 a :: k => Some (with_stack (V32 (as_u32 (f a b)) :: k) s) | _ => None end.
Definition rel32 (f : Z → Z → bool) s : option (St.t H) :=
  match St.stack s with V32 b :: V32 a :: k => Some (with_stack (V32 (b2z (f a b)) :: k) s) | _ => None end.
Definition un64 (f : Z → Z) s : option (St.t H) :=
  match St.stack s with V64 a :: k => Some (with_stack (V64 (f a) :: k) s) | _ => None end.
Definition ext32 (f : Z → Z) s : option (St.t H) :=
  match St.stack s with V32 a :: k => Some (with_stack (V64 (f a) :: k) s) | _ => None end.

(** The effective address of an access does not wrap. *)
Definition load_op (n : nat) (mkv : Z → val) (m : MemArg.t) s : option (St.t H) :=
  match St.stack s with
  | V32 a :: k => v ← Lin.load n (St.memory s) (a + MemArg.offset m); Some (with_stack (mkv v :: k) s)
  | _ => None
  end.
Definition store_op (n : nat) (m : MemArg.t) s : option (St.t H) :=
  match St.stack s with
  | V64 v :: V32 a :: k =>
      m' ← Lin.store n (St.memory s) (a + MemArg.offset m) v; Some (with_memory m' (with_stack k s))
  | _ => None
  end.
Definition store32_op (m : MemArg.t) s : option (St.t H) :=
  match St.stack s with
  | V32 v :: V32 a :: k =>
      m' ← Lin.store 4 (St.memory s) (a + MemArg.offset m) v; Some (with_memory m' (with_stack k s))
  | _ => None
  end.

(** The topmost [n] values, the first pushed first. *)
Definition pop_args (n : nat) (k : list val) : option (list val * list val) :=
  if (n <=? length k)%nat then Some (rev (take n k), drop n k) else None.

Definition call_op (f : Z) s : option (St.t H) :=
  '(args, k) ← pop_args (arity f) (St.stack s);
  '(rs, m, h) ← imported f args (St.memory s) (St.host s);
  Some (St.mk (rev rs ++ k) (St.locals s) m h).

Definition results (bt : BlockType) : nat := match bt with BEmpty => 0 | BResult _ => 1 end.

(** Leaving a block whose label is the innermost one. *)
Definition leave (bt : BlockType) (base : list val) (r : res H) : option (res H) :=
  match r with
  | RNext s =>
      if (length (St.stack s) =? results bt)%nat then Some (RNext (with_stack (St.stack s ++ base) s)) else None
  | RBr O s =>
      if (results bt <=? length (St.stack s))%nat
      then Some (RNext (with_stack (take (results bt) (St.stack s) ++ base) s)) else None
  | RBr (S l) s => Some (RBr l s)
  | r => Some r
  end.

(** The instructions without control flow. *)
Definition simple (i : W) s : option (St.t H) :=
  match i with
  | LocalGet x => v ← St.locals s !! x; Some (push v s)
  | LocalSet x =>
      match St.stack s with
      | v :: k => if (x <? length (St.locals s))%nat then Some (St.mk k (<[x := v]> (St.locals s)) (St.memory s) (St.host s)) else None
      | [] => None
      end
  | LocalTee x =>
      match St.stack s with
      | v :: k => if (x <? length (St.locals s))%nat then Some (St.mk (v :: k) (<[x := v]> (St.locals s)) (St.memory s) (St.host s)) else None
      | [] => None
      end
  | I32Const z => Some (push (V32 (as_u32 z)) s)
  | I64Const z => Some (push (V64 (as_u64 z)) s)
  | I64Add => bin64 Z.add s | I64Sub => bin64 Z.sub s | I64Mul => bin64 Z.mul s
  | I64And => bin64 Z.land s | I64Or => bin64 Z.lor s | I64Xor => bin64 Z.lxor s
  | I64Shl => bin64 (λ a b, Z.shiftl a (b mod 64)) s
  | I64ShrU => bin64 (λ a b, Z.shiftr a (b mod 64)) s
  | I64ShrS => bin64 (λ a b, Z.shiftr (as_i64 a) (b mod 64)) s
  | I64Eq => rel64 Z.eqb s | I64Ne => rel64 (λ a b, negb (a =? b)) s
  | I64LtS => rel64 (λ a b, as_i64 a <? as_i64 b) s | I64LtU => rel64 Z.ltb s
  | I64GeS => rel64 (λ a b, as_i64 a >=? as_i64 b) s | I64GeU => rel64 Z.geb s
  | I64GtS => rel64 (λ a b, as_i64 a >? as_i64 b) s | I64GtU => rel64 Z.gtb s
  | I32Add => bin32 Z.add s | I32Sub => bin32 Z.sub s | I32Mul => bin32 Z.mul s
  | I32And => bin32 Z.land s
  | I32Shl => bin32 (λ a b, Z.shiftl a (b mod 32)) s
  | I32ShrU => bin32 (λ a b, Z.shiftr a (b mod 32)) s
  | I32ShrS => bin32 (λ a b, Z.shiftr (as_i32 a) (b mod 32)) s
  | I32Eq => rel32 Z.eqb s | I32Ne => rel32 (λ a b, negb (a =? b)) s | I32LeU => rel32 Z.leb s
  | I32Eqz => match St.stack s with V32 a :: k => Some (with_stack (V32 (b2z (a =? 0)) :: k) s) | _ => None end
  | I32WrapI64 => match St.stack s with V64 a :: k => Some (with_stack (V32 (as_u32 a) :: k) s) | _ => None end
  | I64ExtendI32U => ext32 id s | I64ExtendI32S => ext32 (λ a, as_u64 (as_i32 a)) s
  | I64Extend8S => un64 (λ a, as_u64 (as_i8 a)) s | I64Extend16S => un64 (λ a, as_u64 (as_i16 a)) s
  | I64Extend32S => un64 (λ a, as_u64 (as_i32 a)) s
  | I64Load m => load_op 8 V64 m s | I64Load8U m => load_op 1 V64 m s | I64Load16U m => load_op 2 V64 m s
  | I64Load32U m => load_op 4 V64 m s | I32Load m => load_op 4 V32 m s
  | I64Store m => store_op 8 m s | I64Store8 m => store_op 1 m s | I64Store16 m => store_op 2 m s
  | I64Store32 m => store_op 4 m s | I32Store m => store32_op m s
  | Drop => match St.stack s with _ :: k => Some (with_stack k s) | [] => None end
  | Select =>
      match St.stack s with
      | V32 c :: b :: a :: k => Some (with_stack ((if c =? 0 then b else a) :: k) s)
      | _ => None
      end
  | Call f => call_op f s
  | _ => None
  end.

Fixpoint exec (i : W) s {struct i} : option (res H) :=
  let fix seq (c : list W) s : option (res H) :=
    match c with
    | [] => Some (RNext s)
    | i :: c => match exec i s with Some (RNext s') => seq c s' | r => r end
    end in
  match i with
  | If bt t e =>
      match St.stack s with
      | V32 c :: k => r ← (if c =? 0 then seq e (with_stack [] s) else seq t (with_stack [] s)); leave bt k r
      | _ => None
      end
  | Block bt b => r ← seq b (with_stack [] s); leave bt (St.stack s) r
  | Br l => Some (RBr l s)
  | Return => Some (RReturn s)
  | ReturnCall f =>
      match St.stack s with
      | V64 pc :: V32 regs :: _ => Some (RTail f [V32 regs; V64 pc] s)
      | _ => None
      end
  | ReturnCallIndirect _ _ =>
      match St.stack s with
      | V32 f :: V64 pc :: V32 regs :: _ => Some (RTail f [V32 regs; V64 pc] s)
      | _ => None
      end
  | i => RNext <$> simple i s
  end.

Fixpoint run (c : list W) s : option (res H) :=
  match c with
  | [] => Some (RNext s)
  | i :: c => match exec i s with Some (RNext s') => run c s' | r => r end
  end.
End Run.

(** The locals a function starts with: its arguments, then zeroes. *)
Definition zero_of (t : ValType) : val := match t with TI32 => V32 0 | _ => V64 0 end.
Definition entry_locals (f : Func.t) (args : list val) : list val :=
  args ++ concat ((λ '(n, t), replicate n (zero_of t)) <$> Func.locals f).

Definition call {H} `{Imports H} `{Arity} (f : Func.t) (args : list val) (m : Lin.t) (h : H) : option (res H) :=
  run (Func.body f) (St.mk [] (entry_locals f args) m h).

(** * Laws of execution *)

Section Laws.
Context {H : Type} {IM : Imports H} {AR : Arity}.
Implicit Types s : St.t H.

Lemma run_cons i c s : run (i :: c) s = match exec i s with Some (RNext s') => run c s' | r => r end.
Proof. done. Qed.

Lemma run_next i c s s' : exec i s = Some (RNext s') → run (i :: c) s = run c s'.
Proof. intros E. cbn [run]. by rewrite E. Qed.

Lemma run_app c1 c2 s :
  run (c1 ++ c2) s = match run c1 s with Some (RNext s') => run c2 s' | r => r end.
Proof.
  revert s. induction c1 as [|i c1 IH]; intros s; [done|]. cbn [app run].
  destruct (exec i s) as [[s'|l s'|s'|g a s']|]; [apply IH|done..].
Qed.

Lemma exec_if bt t e k c s :
  St.stack s = V32 c :: k →
  exec (If bt t e) s = (r ← run (if c =? 0 then e else t) (with_stack [] s); leave bt k r).
Proof.
  intros E. cbn [exec]. rewrite E. by destruct (c =? 0).
Qed.

Lemma exec_block bt b s : exec (Block bt b) s = (r ← run b (with_stack [] s); leave bt (St.stack s) r).
Proof. done. Qed.
End Laws.

(** * Laws of the memory *)

Section LinLaws.
Implicit Types m : Lin.t.

Lemma lin_bytes_range m a n : Forall is_byte (Lin.bytes m a n).
Proof.
  unfold Lin.bytes. apply Forall_fmap, Forall_forall. intros i _. apply wrap_range. lia.
Qed.

Lemma length_lin_bytes m a n : length (Lin.bytes m a n) = n.
Proof. unfold Lin.bytes. by rewrite length_fmap, length_seq. Qed.

Lemma lin_load_range n m a v : Lin.load n m a = Some v → urange (8 * Z.of_nat n) v.
Proof.
  unfold Lin.load. destruct (Lin.inside m a n); [|done]. intros [= <-].
  rewrite <- (length_lin_bytes m a n) at 1. apply from_le_bytes_range, lin_bytes_range.
Qed.

Lemma lin_load_inside n m a v : Lin.load n m a = Some v → 0 <= a ∧ a + Z.of_nat n <= Lin.len m.
Proof.
  unfold Lin.load, Lin.inside. destruct (_ && _) eqn:E; [|done]. intros _.
  by rewrite andb_true_iff, !Z.leb_le in E.
Qed.

Lemma lin_inside_true m a n : 0 <= a → a + Z.of_nat n <= Lin.len m → Lin.inside m a n = true.
Proof. intros. unfold Lin.inside. by rewrite andb_true_iff, !Z.leb_le. Qed.

Lemma lin_load_total n m a : 0 <= a → a + Z.of_nat n <= Lin.len m → is_Some (Lin.load n m a).
Proof. intros. unfold Lin.load. rewrite lin_inside_true by done. by eexists. Qed.

Lemma lin_store_poke n m a v : 0 <= a → a + Z.of_nat n <= Lin.len m → Lin.store n m a v = Some (Lin.poke n m a v).
Proof. intros. unfold Lin.store. by rewrite lin_inside_true. Qed.

(** What is read back after a write: the value, truncated to the width. *)
Lemma lin_load_poke n m a v :
  0 <= a → a + Z.of_nat n <= Lin.len m →
  Lin.load n (Lin.poke n m a v) a = Some (wrap (8 * Z.of_nat n) v).
Proof.
  intros. unfold Lin.load. rewrite lin_inside_true by done. f_equal.
  rewrite <- from_to_le_bytes. f_equal. apply list_eq. intros i. unfold Lin.bytes.
  rewrite list_lookup_fmap. destruct (decide (i < n)%nat) as [Hi|Hi].
  - rewrite lookup_seq_lt by done. cbn.
    rewrite (proj2 (Z.leb_le a (a + Z.of_nat i))), (proj2 (Z.ltb_lt _ _)) by lia. cbn.
    replace (Z.to_nat (a + Z.of_nat i - a)) with i by lia.
    destruct (lookup_lt_is_Some_2 (to_le_bytes n v) i) as [w Hw]; [by rewrite length_to_le_bytes|].
    rewrite Hw. f_equal. rewrite (list_lookup_total_correct _ _ _ Hw). apply wrap_small.
    pose proof (to_le_bytes_bytes n v) as Hb. rewrite Forall_lookup in Hb. by eapply Hb.
  - rewrite lookup_seq_ge by lia. symmetry. apply lookup_ge_None. rewrite length_to_le_bytes. lia.
Qed.

Lemma lin_load_other n n' m a a' v :
  a' + Z.of_nat n' <= a ∨ a + Z.of_nat n <= a' →
  Lin.load n' (Lin.poke n m a v) a' = Lin.load n' m a'.
Proof.
  intros Hd. unfold Lin.load. change (Lin.inside (Lin.poke n m a v) a' n') with (Lin.inside m a' n').
  destruct (Lin.inside m a' n'); [|done]. do 2 f_equal. unfold Lin.bytes.
  apply list_fmap_ext. intros i k Hk. apply lookup_seq in Hk as [-> Hk]. f_equal. cbn.
  destruct (Z.leb_spec a (a' + Z.of_nat i)); [|done].
  by destruct (Z.ltb_spec (a' + Z.of_nat i) (a + Z.of_nat n)); [lia|].
Qed.

Lemma low_word b0 b1 b2 b3 r :
  urange 8 b0 → urange 8 b1 → urange 8 b2 → urange 8 b3 →
  b0 + 256 * (b1 + 256 * (b2 + 256 * (b3 + 256 * 0)))
  = as_u32 (b0 + 256 * (b1 + 256 * (b2 + 256 * (b3 + 256 * r)))).
Proof.
  unfold urange, wrap. intros.
  replace (b0 + 256 * (b1 + 256 * (b2 + 256 * (b3 + 256 * r))))
    with (b0 + 256 * (b1 + 256 * (b2 + 256 * (b3 + 256 * 0))) + r * 2 ^ 32) by lia.
  rewrite Z_mod_plus_full, Z.mod_small by lia. done.
Qed.

(** The low half of a double word. *)
Lemma lin_load_low m a v : Lin.load 8 m a = Some v → Lin.load 4 m a = Some (as_u32 v).
Proof.
  intros Hv. pose proof (lin_load_inside _ _ _ _ Hv). unfold Lin.load in *.
  rewrite lin_inside_true in Hv by lia. rewrite lin_inside_true by lia.
  injection Hv as <-. f_equal. unfold Lin.bytes. cbn [seq fmap list_fmap].
  cbn [from_le_bytes]. apply low_word; apply wrap_range; lia.
Qed.
End LinLaws.
