(* ===== verification/Jit.v ===== *)
(** The block compiler ([riscv-jit/src/lib.rs]).

    Every emitter is the list of instructions its Rust counterpart appends to
    the function under construction; an [Emit] is the part of that state an
    emitter reads.  The compile-time switches keep their names and values, and
    an arm behind a switch is kept, except that the two caches of register
    values ([REG_FWD_ON], [REG_RESIDENT_ON]) and the state only they use are
    left out: both switches are [false].  The counters of what was emitted are
    diagnostics and left out too. *)

From S2P Require Import Prelude Types Wasm.

(** An instruction, its width and its offset from the start of the block. *)
Definition Src : Type := Instr * Z * Z.

Definition F_LOAD8U : Z := 0.
Definition F_STORE8 : Z := 4.
Definition F_CSR : Z := 8.
Definition F_FP : Z := 9.
Definition FIRST_DEFINED : Z := 10.

Definition L_REGS : nat := 0.
Definition L_PC : nat := 1.
Definition L_TMP : nat := 2.
Definition L_NEXT : nat := 3.
Definition L_ENT : nat := 4.
Definition L_ADDR : nat := 5.
Definition L_TENT : nat := 6.
Definition L_GHOST : nat := 7.
Definition L_GFLAG : nat := 8.
Definition L_SHOST : nat := 9.
Definition L_SFLAG : nat := 10.
Definition L_VAL : nat := 11.
Definition REG_LOCAL_BASE : nat := 12.

Definition GROUP_CSE_ON : bool := true.
Definition REG_FWD_ON : bool := false.
Definition FUSE_ON : bool := false.
Definition TAILLINK_ON : bool := false.
Definition REG_RESIDENT_ON : bool := false.
Definition SIMD_ON : bool := false.
Definition TLB_HOIST_ON : bool := false.
Definition RAS_ON : bool := false.

Definition L_V128 : nat := if REG_RESIDENT_ON then REG_LOCAL_BASE + 32 else REG_LOCAL_BASE.
Definition L_RASPC : nat :=
  REG_LOCAL_BASE + (if REG_RESIDENT_ON then 32 else 0) + (if SIMD_ON then 1 else 0).
Definition L_RASE : nat := L_RASPC + 1.

(** Offsets from the register file, in bytes. *)
Definition FAULT_OFF : Z := 32 * 8.
Definition NEXT_PC_OFF : Z := FAULT_OFF + 8.
Definition INSNS_OFF : Z := NEXT_PC_OFF + 8.
Definition BUDGET_OFF : Z := INSNS_OFF + 8.
Definition reg_off (r : Z) : Z := r * 8.

Definition CHAIN_ENTRY_BYTES : Z := 16.
Definition TLB_ENTRY_BYTES : Z := 32.
Definition GROUP_SPAN_MAX : Z := 256.

(** * What the host provides *)

Module TlbCfg.
Record t := mk { read_base : Z; write_base : Z; entries : Z; gen_addr : Z }.
End TlbCfg.

Module ChainCfg.
Record t := mk {
  base : Z;
  gen_addr : Z;
  entries : Z;
  tlb : option TlbCfg.t;
  ras_base : Z;
  ras_sp_addr : Z;
  ras_entries : Z;
}.
End ChainCfg.

Module FpCfg.
Record t := mk { fregs_base : Z; fs_word : Z }.
End FpCfg.

(** * Which instructions *)

(** Kind, destination and sources of the double moves and sign injections. *)
Definition inline_fp_kind (raw : Z) : option (Z * Z * Z * Z) :=
  if negb (Z.land raw 0x7f =? 0x53) then None
  else
    let rd := Z.land (Z.shiftr raw 7) 0x1f in
    let funct3 := Z.land (Z.shiftr raw 12) 7 in
    let rs1 := Z.land (Z.shiftr raw 15) 0x1f in
    let rs2 := Z.land (Z.shiftr raw 20) 0x1f in
    let funct7 := Z.land (Z.shiftr raw 25) 0x7f in
    if (funct7 =? 0x11) && (funct3 <=? 2) then Some (funct3, rd, rs1, rs2)
    else if (funct7 =? 0x71) && (funct3 =? 0) && (rs2 =? 0) then Some (3, rd, rs1, 0)
    else if (funct7 =? 0x79) && (funct3 =? 0) && (rs2 =? 0) then Some (4, rd, rs1, 0)
    else None.

Definition is_compilable_csr (i : Instr) : bool :=
  match i with
  | Csrrw _ _ csr | Csrrs _ _ csr | Csrrc _ _ csr
  | Csrrwi _ _ csr | Csrrsi _ _ csr | Csrrci _ _ csr => negb ((0xC00 <=? csr) && (csr <=? 0xC1F))
  | _ => false
  end.

Definition is_compilable (i : Instr) : bool :=
  match i with
  | Lui _ _ | Addi _ _ _ | Slti _ _ _ | Sltiu _ _ _ | Xori _ _ _ | Ori _ _ _
  | Andi _ _ _ | Slli _ _ _ | Srli _ _ _ | Srai _ _ _
  | Add _ _ _ | Sub _ _ _ | Sll _ _ _ | Slt _ _ _ | Sltu _ _ _ | Xor _ _ _
  | Srl _ _ _ | Sra _ _ _ | Or _ _ _ | And _ _ _
  | Addiw _ _ _ | Slliw _ _ _ | Srliw _ _ _ | Sraiw _ _ _
  | Addw _ _ _ | Subw _ _ _ | Sllw _ _ _ | Srlw _ _ _ | Sraw _ _ _
  | Auipc _ _
  | Lb _ _ _ | Lh _ _ _ | Lw _ _ _ | Ld _ _ _ | Lbu _ _ _ | Lhu _ _ _ | Lwu _ _ _
  | Sb _ _ _ | Sh _ _ _ | Sw _ _ _ | Sd _ _ _
  | Fence _ _
  | Mul _ _ _ | Mulw _ _ _ | Mulh _ _ _ | Mulhsu _ _ _ | Mulhu _ _ _
  | Lrw _ _ _ _ | Lrd _ _ _ _ | Scw _ _ _ _ _ | Scd _ _ _ _ _
  | Amoswapw _ _ _ _ _ | Amoaddw _ _ _ _ _ | Amoxorw _ _ _ _ _ | Amoandw _ _ _ _ _
  | Amoorw _ _ _ _ _ | Amominw _ _ _ _ _ | Amomaxw _ _ _ _ _ | Amominuw _ _ _ _ _
  | Amomaxuw _ _ _ _ _
  | Amoswapd _ _ _ _ _ | Amoaddd _ _ _ _ _ | Amoxord _ _ _ _ _ | Amoandd _ _ _ _ _
  | Amoord _ _ _ _ _ | Amomind _ _ _ _ _ | Amomaxd _ _ _ _ _ | Amominud _ _ _ _ _
  | Amomaxud _ _ _ _ _
  | Flw _ _ _ | Fld _ _ _ | Fsw _ _ _ | Fsd _ _ _ | Fp _ => true
  | i => is_compilable_csr i
  end.

Definition is_interrupt_csr (csr : Z) : bool :=
  (csr =? 0x100) || (csr =? 0x104) || (csr =? 0x144)
  || (csr =? 0x300) || (csr =? 0x304) || (csr =? 0x344).

Definition is_terminator (i : Instr) : bool :=
  match i with
  | Jal _ _ | Jalr _ _ _ | Beq _ _ _ | Bne _ _ _ | Blt _ _ _ | Bge _ _ _
  | Bltu _ _ _ | Bgeu _ _ _ => true
  | _ => false
  end.

(** The register a plain store writes to memory. *)
Definition store_val (i : Instr) : option Z :=
  match i with
  | Sb _ rs2 _ | Sh _ rs2 _ | Sw _ rs2 _ | Sd _ rs2 _ => Some rs2
  | _ => None
  end.

(** Base register, immediate, bytes and direction of a plain access. *)
Definition mem_access (i : Instr) : option (Z * Z * Z * bool) :=
  match i with
  | Lb _ rs1 imm | Lbu _ rs1 imm => Some (rs1, imm, 1, false)
  | Lh _ rs1 imm | Lhu _ rs1 imm => Some (rs1, imm, 2, false)
  | Lw _ rs1 imm | Lwu _ rs1 imm => Some (rs1, imm, 4, false)
  | Ld _ rs1 imm => Some (rs1, imm, 8, false)
  | Sb rs1 _ imm => Some (rs1, imm, 1, true)
  | Sh rs1 _ imm => Some (rs1, imm, 2, true)
  | Sw rs1 _ imm => Some (rs1, imm, 4, true)
  | Sd rs1 _ imm => Some (rs1, imm, 8, true)
  | _ => None
  end.

Definition dest_reg (i : Instr) : option Z :=
  match i with
  | Lui rd _ | Auipc rd _ | Addi rd _ _ | Slti rd _ _
  | Sltiu rd _ _ | Xori rd _ _ | Ori rd _ _ | Andi rd _ _
  | Slli rd _ _ | Srli rd _ _ | Srai rd _ _ | Add rd _ _
  | Sub rd _ _ | Sll rd _ _ | Slt rd _ _ | Sltu rd _ _
  | Xor rd _ _ | Srl rd _ _ | Sra rd _ _ | Or rd _ _
  | And rd _ _ | Addiw rd _ _ | Slliw rd _ _ | Srliw rd _ _
  | Sraiw rd _ _ | Addw rd _ _ | Subw rd _ _ | Sllw rd _ _
  | Srlw rd _ _ | Sraw rd _ _ | Mul rd _ _ | Mulw rd _ _
  | Mulh rd _ _ | Mulhsu rd _ _ | Mulhu rd _ _
  | Lb rd _ _ | Lh rd _ _ | Lw rd _ _ | Ld rd _ _
  | Lbu rd _ _ | Lhu rd _ _ | Lwu rd _ _ | Jal rd _ => Some rd
  | _ => None
  end.

(** * Groups of accesses through one base register *)

Inductive Role :=
| Solo
| Leader (store : bool) (min_imm span : Z)
| Member (store : bool)
| Vfill (first_imm count fill : Z)
| VfillSkip.

(** An open group: base, lowest and highest effective offset, accumulated
    stride, and the positions of its accesses. *)
Module Group.
Record t := mk { base : Z; lo : Z; hi : Z; acc : Z; idxs : list nat }.
End Group.

(** The pair of open groups, loads first. *)
Module Plan.
Record t := mk { roles : list Role; loads : option Group.t; stores : option Group.t }.
Definition group (p : t) (store : bool) : option Group.t := if store then stores p else loads p.
Definition set_group (p : t) (store : bool) (g : option Group.t) : t :=
  if store then mk (roles p) (loads p) g else mk (roles p) g (stores p).
End Plan.

(** A group that may be emitted as vector stores: consecutive [sd]s of one
    register to ascending contiguous words. *)
Definition fill_run (insns : list Src) (g : Group.t) (first : nat) : option Z :=
  let idxs := Group.idxs g in
  let n := Z.of_nat (length idxs) in
  match (i ← insns !! first; store_val i.1.1) with
  | None => None
  | Some fill =>
      if (Group.acc g =? 0) && (n <=? 65535) && (Group.hi g - Group.lo g =? n * 8)
         && forallb (λ '(j, ix), (ix =? first + j)%nat
              && match insns !! ix with
                 | Some (Sd _ rs2 imm, _, _) => (imm =? Group.lo g + Z.of_nat j * 8) && (rs2 =? fill)
                 | _ => false
                 end) (zip (seq 0 (length idxs)) idxs)
      then Some fill else None
  end.

Definition close (insns : list Src) (store : bool) (p : Plan.t) : Plan.t :=
  match Plan.group p store with
  | None => p
  | Some g =>
      let p := Plan.set_group p store None in
      match Group.idxs g with
      | first :: ((_ :: _) as rest) =>
          match (if SIMD_ON && store then fill_run insns g first else None) with
          | Some fill =>
              Plan.mk (foldl (λ rs k, <[k := VfillSkip]> rs)
                         (<[first := Vfill (Group.lo g) (Z.of_nat (length (Group.idxs g))) fill]> (Plan.roles p)) rest)
                (Plan.loads p) (Plan.stores p)
          | None =>
              Plan.mk (foldl (λ rs k, <[k := Member store]> rs)
                         (<[first := Leader store (Group.lo g) (Group.hi g - Group.lo g)]> (Plan.roles p)) rest)
                (Plan.loads p) (Plan.stores p)
          end
      | _ => p
      end
  end.

(** The group an access at position [k] joins, if it fits within the span. *)
Definition join (k : nat) (rs1 imm size : Z) (g : option Group.t) : option Group.t :=
  match g with
  | Some g =>
      if Group.base g =? rs1 then
        let eff := Group.acc g + imm in
        let nmin := Z.min eff (Group.lo g) in
        let nmax := Z.max (eff + size) (Group.hi g) in
        if nmax - nmin <=? GROUP_SPAN_MAX
        then Some (Group.mk rs1 nmin nmax (Group.acc g) (Group.idxs g ++ [k])) else None
      else None
  | None => None
  end.

Definition transparent (i : Instr) : bool :=
  match i with
  | Beq _ _ _ | Bne _ _ _ | Blt _ _ _ | Bge _ _ _ | Bltu _ _ _ | Bgeu _ _ _
  | Jal _ _ | Jalr _ _ _ | Fence _ _ => true
  | _ => false
  end.

Definition plan_access (insns : list Src) (k : nat) (i : Instr) (p : Plan.t) : Plan.t :=
  match mem_access i with
  | Some (rs1, imm, size, st) =>
      match join k rs1 imm size (Plan.group p st) with
      | Some g => Plan.set_group p st (Some g)
      | None => Plan.set_group (close insns st p) st (Some (Group.mk rs1 imm (imm + size) 0 [k]))
      end
  | None =>
      if negb (transparent i) && (match dest_reg i with None => true | Some _ => false end)
      then close insns true (close insns false p) else p
  end.

(** The stride an induction step adds to the groups of its register. *)
Definition stride_of (i : Instr) : option (Z * Z) :=
  match i with
  | Addi rd rs1 imm =>
      if TLB_HOIST_ON && (rd =? rs1) && negb (rd =? 0) && (Z.abs imm <=? GROUP_SPAN_MAX)
      then Some (rd, imm) else None
  | _ => None
  end.

Definition plan_write (insns : list Src) (i : Instr) (st : bool) (p : Plan.t) : Plan.t :=
  match Plan.group p st with
  | None => p
  | Some g =>
      match stride_of i with
      | Some (rd, imm) =>
          if Group.base g =? rd
          then Plan.set_group p st (Some (Group.mk rd (Group.lo g) (Group.hi g) (Group.acc g + imm) (Group.idxs g)))
          else p
      | None =>
          match dest_reg i with
          | Some rd => if negb (rd =? 0) && (Group.base g =? rd) then close insns st p else p
          | None => p
          end
      end
  end.

Fixpoint plan_from (insns : list Src) (k : nat) (l : list Src) (p : Plan.t) : Plan.t :=
  match l with
  | [] => p
  | (i, _, _) :: l =>
      if negb (is_compilable i) && negb (is_terminator i) then p
      else plan_from insns (S k) l (plan_write insns i true (plan_write insns i false (plan_access insns k i p)))
  end.

Definition plan_groups (insns : list Src) : list Role :=
  Plan.roles (close insns true (close insns false
    (plan_from insns 0 insns (Plan.mk (replicate (length insns) Solo) None None)))).

(** * Emitters *)

Inductive AmoOp := OpSwap | OpAdd | OpXor | OpAnd | OpOr | OpMin | OpMax | OpMinU | OpMaxU.

Module Emit.
Record t := mk {
  off : Z;
  chain : option ChainCfg.t;
  tlb : option TlbCfg.t;
  fp : option FpCfg.t;
  gen_addr : Z;
  role : Role;
}.
End Emit.

(** [MemArg { offset, align, memory_index: 0 }] *)
Abbreviation at_ := MemArg.mk.

Definition bail_if_faulted : list W :=
  [LocalGet L_REGS; I32Load (at_ FAULT_OFF 2); If BEmpty [Return] []].

Definition get_reg (r : Z) : list W :=
  if r =? 0 then [I64Const 0] else [LocalGet L_REGS; I64Load (at_ (reg_off r) 3)].

Definition set_with (r : Z) (body : list W) : list W :=
  if r =? 0 then [] else LocalGet L_REGS :: body ++ [I64Store (at_ (reg_off r) 3)].

Definition pc (e : Emit.t) : list W := [LocalGet L_PC; I64Const (Emit.off e); I64Add].

Definition addr (rs1 imm : Z) : list W := get_reg rs1 ++ [I64Const imm; I64Add].

Definition csr_op (e : Emit.t) (csr rd src kind : Z) (val : list W) : list W :=
  [I32Const csr; I32Const rd; I32Const src] ++ val ++ [I32Const kind] ++ pc e
  ++ [Call F_CSR] ++ bail_if_faulted.

Definition fp_call (e : Emit.t) (kind r1 r2 arg : Z) : list W :=
  let packed := Z.lor (Z.lor kind (Z.shiftl r1 8)) (Z.shiftl r2 16) in
  [I64Const packed; I64Const arg] ++ pc e ++ [Call F_FP] ++ bail_if_faulted.

Definition fp_gated (e : Emit.t) (c : FpCfg.t) (host : Z * Z * Z * Z) (inline : list W) : list W :=
  let '(k, r1, r2, arg) := host in
  [I32Const 0; I32Load (at_ (FpCfg.fs_word c) 2); If BEmpty inline (fp_call e k r1 r2 arg)].

Definition fget (c : FpCfg.t) (r : Z) : list W :=
  [I32Const 0; I64Load (at_ (FpCfg.fregs_base c + r * 8) 3)].

(** ** The inlined TLB *)

Definition tlb_probe (c : TlbCfg.t) (size : Z) (store : bool) : list W :=
  let base := if store then TlbCfg.write_base c else TlbCfg.read_base c in
  [LocalGet L_ADDR; I64Const 12; I64ShrU; I32WrapI64; I32Const (TlbCfg.entries c - 1); I32And;
   I32Const TLB_ENTRY_BYTES; I32Mul; I32Const base; I32Add; LocalSet L_TENT;
   LocalGet L_TENT; I64Load (at_ 0 3); LocalGet L_ADDR; I64Const 12; I64ShrU; I64Eq;
   LocalGet L_TENT; I32Load (at_ 8 2); I32Const 0; I32Load (at_ (TlbCfg.gen_addr c) 2); I32Eq; I32And]
  ++ (if 1 <? size
      then [LocalGet L_ADDR; I32WrapI64; I32Const 0xFFF; I32And; I32Const (4096 - size); I32LeU; I32And]
      else []).

Definition tlb_host_addr : list W :=
  [LocalGet L_TENT; I64Load (at_ 16 3); I32WrapI64;
   LocalGet L_ADDR; I32WrapI64; I32Const 0xFFF; I32And; I32Add].

Definition group_probe (e : Emit.t) (store : bool) (rs1 min_imm span : Z) : list W :=
  match Emit.tlb e with
  | None => []
  | Some c =>
      let host := if store then L_SHOST else L_GHOST in
      let flag := if store then L_SFLAG else L_GFLAG in
      addr rs1 min_imm ++ [LocalSet L_ADDR] ++ tlb_probe c span store
      ++ [If (BResult TI32)
            [LocalGet L_TENT; I64Load (at_ 16 3); I32WrapI64; LocalSet host; I32Const 1]
            [I32Const 0];
          LocalSet flag]
  end.

Definition group_host_addr (host : nat) : list W :=
  [LocalGet host; LocalGet L_ADDR; I32WrapI64; I32Const 0xFFF; I32And; I32Add].

(** ** Loads and stores *)

(** The widths are given by their base-2 logarithm. *)
Definition load_insn (size_log2 : Z) : W :=
  let m := at_ 0 size_log2 in
  if size_log2 =? 0 then I64Load8U m else if size_log2 =? 1 then I64Load16U m
  else if size_log2 =? 2 then I64Load32U m else I64Load m.
Definition store_insn (size_log2 : Z) : W :=
  let m := at_ 0 size_log2 in
  if size_log2 =? 0 then I64Store8 m else if size_log2 =? 1 then I64Store16 m
  else if size_log2 =? 2 then I64Store32 m else I64Store m.

(** The same for the accesses that are never narrower than a word. *)
Definition wide_load (size_log2 : Z) : W :=
  if size_log2 =? 2 then I64Load32U (at_ 0 size_log2) else I64Load (at_ 0 size_log2).
Definition wide_store (size_log2 : Z) : W :=
  if size_log2 =? 2 then I64Store32 (at_ 0 size_log2) else I64Store (at_ 0 size_log2).

(** The host call that performs the access whose address is in [L_ADDR]. *)
Definition host_load (e : Emit.t) (size_log2 : Z) : list W :=
  [LocalGet L_ADDR] ++ pc e ++ [Call (F_LOAD8U + size_log2)].
Definition host_store (e : Emit.t) (size_log2 : Z) (value : list W) : list W :=
  [LocalGet L_ADDR] ++ value ++ pc e ++ [Call (F_STORE8 + size_log2)].

Definition load_value (e : Emit.t) (size_log2 : Z) : list W :=
  match Emit.tlb e with
  | Some c =>
      tlb_probe c (Z.shiftl 1 size_log2) false
      ++ [If (BResult TI64) (tlb_host_addr ++ [load_insn size_log2]) (host_load e size_log2)]
  | None => host_load e size_log2
  end.

Definition in_group (e : Emit.t) (store : bool) : bool :=
  match Emit.tlb e with
  | None => false
  | Some _ =>
      match Emit.role e with
      | Leader s _ _ | Member s => Bool.eqb s store
      | _ => false
      end
  end.

Definition lead (e : Emit.t) (store : bool) (rs1 : Z) : list W :=
  match Emit.role e with
  | Leader s min_imm span => if Bool.eqb s store then group_probe e store rs1 min_imm span else []
  | _ => []
  end.

Definition load (e : Emit.t) (rd rs1 imm size_log2 : Z) (ext : list W) : list W :=
  lead e false rs1
  ++ addr rs1 imm ++ [LocalSet L_ADDR]
  ++ (if in_group e false then
        [LocalGet L_GFLAG;
         If (BResult TI64) (group_host_addr L_GHOST ++ [load_insn size_log2]) (host_load e size_log2)]
      else load_value e size_log2)
  ++ (if rd =? 0 then Drop :: bail_if_faulted
      else [LocalSet L_TMP] ++ bail_if_faulted ++ [LocalGet L_REGS; LocalGet L_TMP] ++ ext
           ++ [I64Store (at_ (reg_off rd) 3)]).

Definition store_value (e : Emit.t) (rs2 size_log2 : Z) : list W :=
  match Emit.tlb e with
  | Some c =>
      tlb_probe c (Z.shiftl 1 size_log2) true
      ++ [If BEmpty (tlb_host_addr ++ get_reg rs2 ++ [store_insn size_log2])
            (host_store e size_log2 (get_reg rs2))]
  | None => host_store e size_log2 (get_reg rs2)
  end.

Definition store (e : Emit.t) (rs1 rs2 imm size_log2 : Z) : list W :=
  lead e true rs1
  ++ addr rs1 imm ++ [LocalSet L_ADDR]
  ++ (if in_group e true then
        [LocalGet L_SFLAG;
         If BEmpty (group_host_addr L_SHOST ++ get_reg rs2 ++ [store_insn size_log2])
           (host_store e size_log2 (get_reg rs2))]
      else store_value e rs2 size_log2)
  ++ bail_if_faulted.

(** ** Floating point *)

Definition fp_load (e : Emit.t) (c : FpCfg.t) (rd rs1 imm size_log2 : Z) (boxed : bool) : list W :=
  addr rs1 imm ++ [LocalSet L_ADDR]
  ++ match Emit.tlb e with
     | Some t =>
         tlb_probe t (Z.shiftl 1 size_log2) false
         ++ [If (BResult TI64) (tlb_host_addr ++ [wide_load size_log2]) (host_load e size_log2)]
     | None => host_load e size_log2
     end
  ++ [LocalSet L_TMP] ++ bail_if_faulted ++ [I32Const 0; LocalGet L_TMP]
  ++ (if boxed then [I64Const 0xFFFFFFFF00000000; I64Or] else [])
  ++ [I64Store (at_ (FpCfg.fregs_base c + rd * 8) 3)].

Definition fp_store (e : Emit.t) (c : FpCfg.t) (rs1 rs2 imm size_log2 : Z) : list W :=
  addr rs1 imm ++ [LocalSet L_ADDR]
  ++ match Emit.tlb e with
     | Some t =>
         tlb_probe t (Z.shiftl 1 size_log2) true
         ++ [If BEmpty (tlb_host_addr ++ fget c rs2 ++ [wide_store size_log2])
               (host_store e size_log2 (fget c rs2))]
     | None => host_store e size_log2 (fget c rs2)
     end
  ++ bail_if_faulted.

Definition fp_sgnj (c : FpCfg.t) (kind rd rs1 rs2 : Z) : list W :=
  let SIGN := I64_MIN in
  [I32Const 0] ++ fget c rs1 ++ [I64Const (Z.lnot SIGN); I64And]
  ++ fget c rs2 ++ (if kind =? 2 then fget c rs1 ++ [I64Xor] else [])
  ++ [I64Const SIGN; I64And] ++ (if kind =? 1 then [I64Const SIGN; I64Xor] else [])
  ++ [I64Or; I64Store (at_ (FpCfg.fregs_base c + rd * 8) 3)].

Definition fp_mv_x_d (c : FpCfg.t) (rd rs1 : Z) : list W :=
  if rd =? 0 then [] else [LocalGet L_REGS] ++ fget c rs1 ++ [I64Store (at_ (reg_off rd) 3)].

Definition fp_mv_d_x (c : FpCfg.t) (rd rs1 : Z) : list W :=
  [I32Const 0] ++ get_reg rs1 ++ [I64Store (at_ (FpCfg.fregs_base c + rd * 8) 3)].

(** ** Products of 128 bits *)

Definition half (local : nat) (high : bool) : list W :=
  LocalGet local :: (if high then [I64Const 32; I64ShrU] else [I64Const 0xFFFFFFFF; I64And]).

Definition mulhu_of_scratch : list W :=
  half L_TMP true ++ half L_ADDR false ++ [I64Mul]
  ++ half L_TMP false ++ half L_ADDR false ++ [I64Mul; I64Const 32; I64ShrU; I64Add; LocalSet L_NEXT]
  ++ half L_TMP false ++ half L_ADDR true
  ++ [I64Mul; LocalGet L_NEXT; I64Const 0xFFFFFFFF; I64And; I64Add; I64Const 32; I64ShrU]
  ++ half L_TMP true ++ half L_ADDR true
  ++ [I64Mul; I64Add; LocalGet L_NEXT; I64Const 32; I64ShrU; I64Add].

Definition mulh_sign_term (local_s local_v : nat) : list W :=
  [LocalGet local_s; I64Const 63; I64ShrS; LocalGet local_v; I64And; I64Sub].

(** ** Atomics *)

Definition load_at_addr (e : Emit.t) (size_log2 : Z) : list W :=
  match Emit.tlb e with
  | Some c =>
      tlb_probe c (Z.shiftl 1 size_log2) false
      ++ [If (BResult TI64) (tlb_host_addr ++ [wide_load size_log2]) (host_load e size_log2)]
  | None => host_load e size_log2
  end.

Definition store_at_addr (e : Emit.t) (size_log2 : Z) (value : list W) : list W :=
  match Emit.tlb e with
  | Some c =>
      tlb_probe c (Z.shiftl 1 size_log2) true
      ++ [If BEmpty (tlb_host_addr ++ value ++ [wide_store size_log2]) (host_store e size_log2 value)]
  | None => host_store e size_log2 value
  end.

Definition amo_value (rs2 : Z) (word : bool) (op : AmoOp) : list W :=
  let old (signed : bool) := LocalGet L_TMP :: (if word && signed then [I64Extend32S] else []) in
  let src (signed : bool) :=
    get_reg rs2
    ++ (if word then if signed then [I64Extend32S] else [I64Const 0xffffffff; I64And] else []) in
  let select (signed : bool) (cmp : W) :=
    old signed ++ src signed ++ old signed ++ src signed ++ [cmp; Select] in
  match op with
  | OpSwap => get_reg rs2
  | OpAdd => old false ++ get_reg rs2 ++ [I64Add]
  | OpXor => old false ++ get_reg rs2 ++ [I64Xor]
  | OpAnd => old false ++ get_reg rs2 ++ [I64And]
  | OpOr => old false ++ get_reg rs2 ++ [I64Or]
  | OpMin => select true I64LtS
  | OpMax => select true I64GtS
  | OpMinU => select false I64LtU
  | OpMaxU => select false I64GtU
  end.

Definition amo (e : Emit.t) (rd rs1 rs2 size_log2 : Z) (op : AmoOp) : list W :=
  let word := size_log2 =? 2 in
  get_reg rs1 ++ [LocalSet L_ADDR]
  ++ load_at_addr e size_log2 ++ [LocalSet L_TMP] ++ bail_if_faulted
  ++ store_at_addr e size_log2 (amo_value rs2 word op) ++ bail_if_faulted
  ++ (if rd =? 0 then []
      else [LocalGet L_REGS; LocalGet L_TMP] ++ (if word then [I64Extend32S] else [])
           ++ [I64Store (at_ (reg_off rd) 3)]).

(** ** Control flow *)

Definition set_next_pc (body : list W) : list W :=
  body ++ [LocalSet L_NEXT; LocalGet L_REGS; LocalGet L_NEXT; I64Store (at_ NEXT_PC_OFF 3)].

Definition count_insns (n : Z) : list W :=
  [LocalGet L_REGS; LocalGet L_REGS; I64Load (at_ INSNS_OFF 3); I64Const n; I64Add;
   I64Store (at_ INSNS_OFF 3)].

(** Address of the chain entry for the program counter in a local. *)
Definition chain_slot (c : ChainCfg.t) (key : nat) : list W :=
  [LocalGet key; I32WrapI64; I32Const 1; I32ShrU; I32Const (ChainCfg.entries c - 1); I32And;
   I32Const CHAIN_ENTRY_BYTES; I32Mul; I32Const (ChainCfg.base c); I32Add; LocalSet L_ENT].

(** The entry at a local has the key in another local, and the current generation. *)
Definition entry_live (c : ChainCfg.t) (ent key : nat) : list W :=
  [LocalGet ent; I64Load (at_ 0 3); LocalGet key; I64Eq;
   LocalGet ent; I32Load (at_ 8 2); I32Const 0; I32Load (at_ (ChainCfg.gen_addr c) 2); I32Eq; I32And].

Definition budget_left : list W :=
  [LocalGet L_REGS; I64Load (at_ INSNS_OFF 3); LocalGet L_REGS; I64Load (at_ BUDGET_OFF 3); I64LtU].

Definition tail_call (ent : nat) : list W :=
  [LocalGet L_REGS; LocalGet L_NEXT; LocalGet ent; I32Load (at_ 12 2); ReturnCallIndirect 0 0].

Definition chain_to_successor (e : Emit.t) : list W :=
  match Emit.chain e with
  | None => []
  | Some c =>
      chain_slot c L_NEXT ++ entry_live c L_ENT L_NEXT ++ budget_left
      ++ [I32And; If BEmpty (tail_call L_ENT) []]
  end.

Definition link_to (func_idx : Z) : list W :=
  budget_left ++ [If BEmpty [LocalGet L_REGS; LocalGet L_NEXT; ReturnCall func_idx] []].

Definition here (e : Emit.t) (extra : Z) : list W :=
  [LocalGet L_PC; I64Const (Emit.off e + extra); I64Add].

Definition ras_slot (c : ChainCfg.t) : list W :=
  [I32Const (ChainCfg.ras_entries c - 1); I32And; I32Const CHAIN_ENTRY_BYTES; I32Mul;
   I32Const (ChainCfg.ras_base c); I32Add; LocalSet L_RASE].

Definition ras_push (e : Emit.t) (ret_extra : Z) : list W :=
  match Emit.chain e with
  | None => []
  | Some c =>
      if ChainCfg.ras_entries c =? 0 then [] else
      here e ret_extra ++ [LocalSet L_RASPC]
      ++ [I32Const 0; I32Load (at_ (ChainCfg.ras_sp_addr c) 2)] ++ ras_slot c
      ++ [LocalGet L_RASE; LocalGet L_RASPC; I64Store (at_ 0 3);
          LocalGet L_RASE; I32Const 0; I32Load (at_ (ChainCfg.gen_addr c) 2); I32Store (at_ 8 2)]
      ++ chain_slot c L_RASPC
      ++ [LocalGet L_RASE] ++ entry_live c L_ENT L_RASPC
      ++ [If (BResult TI32) [LocalGet L_ENT; I32Load (at_ 12 2)] [I32Const 0]; I32Store (at_ 12 2)]
      ++ [I32Const 0; I32Const 0; I32Load (at_ (ChainCfg.ras_sp_addr c) 2); I32Const 1; I32Add;
          I32Store (at_ (ChainCfg.ras_sp_addr c) 2)]
  end.

Definition ras_return (e : Emit.t) : list W :=
  match Emit.chain e with
  | None => []
  | Some c =>
      if ChainCfg.ras_entries c =? 0 then [] else
      [I32Const 0; I32Const 0; I32Load (at_ (ChainCfg.ras_sp_addr c) 2); I32Const 1; I32Sub;
       LocalTee L_ENT; I32Store (at_ (ChainCfg.ras_sp_addr c) 2); LocalGet L_ENT]
      ++ ras_slot c ++ entry_live c L_RASE L_NEXT
      ++ [LocalGet L_RASE; I32Load (at_ 12 2); I32Const 0; I32Ne; I32And]
      ++ budget_left ++ [I32And; If BEmpty (tail_call L_RASE) []]
  end.

Definition branch_cond (rs1 rs2 : Z) (cmp : W) : list W := get_reg rs1 ++ get_reg rs2 ++ [cmp].

Definition branch_guard (e : Emit.t) (rs1 rs2 imm width : Z) (cmp : W) (followed_taken : bool)
    (count : Z) : list W :=
  let leave_to := if followed_taken then Emit.off e + width else Emit.off e + imm in
  branch_cond rs1 rs2 cmp ++ (if followed_taken then [I32Eqz] else [])
  ++ [If BEmpty
        (set_next_pc [LocalGet L_PC; I64Const leave_to; I64Add] ++ count_insns count ++ [Br 1]) []].

Definition jal_link_only (e : Emit.t) (rd width : Z) : list W := set_with rd (here e width).

Definition branch (e : Emit.t) (rs1 rs2 imm width : Z) (cmp : W) : list W :=
  set_next_pc
    ([LocalGet L_PC; I64Const (Emit.off e + imm); I64Add;
      LocalGet L_PC; I64Const (Emit.off e + width); I64Add]
     ++ get_reg rs1 ++ get_reg rs2 ++ [cmp; Select]).

(** ** Behind switches *)

Definition fusible (a b : Src) : option (Z * bool * Z) :=
  match b with
  | (Addi d2 rs1 lo, _, _) =>
      match a with
      | (Lui rd imm, _, _) =>
          if negb (rd =? 0) && (rd =? rs1) && (rd =? d2)
          then Some (rd, false, as_i64 (as_i64 imm + lo)) else None
      | (Auipc rd imm, _, off) =>
          if negb (rd =? 0) && (rd =? rs1) && (rd =? d2)
          then Some (rd, true, as_i64 (as_i64 (off + as_i64 imm) + lo)) else None
      | _ => None
      end
  | _ => None
  end.

Definition fused_const (rd : Z) (pc_relative : bool) (konst : Z) : list W :=
  set_with rd (if pc_relative then [LocalGet L_PC; I64Const konst; I64Add] else [I64Const konst]).

Definition memset_v128 (e : Emit.t) (rs1 fill first_imm count : Z) : list W :=
  match Emit.tlb e with
  | None => []
  | Some c =>
      let host_off (disp : Z) :=
        [LocalGet L_SHOST; LocalGet L_ADDR; I32WrapI64; I32Const 0xFFF; I32And]
        ++ (if disp =? 0 then [] else [I32Const disp; I32Add]) ++ [I32Add] in
      addr rs1 first_imm ++ [LocalSet L_ADDR] ++ tlb_probe c (count * 8) true
      ++ [If BEmpty
            ([LocalGet L_TENT; I64Load (at_ 16 3); I32WrapI64; LocalSet L_SHOST]
             ++ get_reg fill ++ [I64x2Splat; LocalSet L_V128]
             ++ flat_map (λ p, host_off (Z.of_nat p * 16) ++ [LocalGet L_V128; V128Store (at_ 0 0)])
                  (seq 0 (Z.to_nat (count / 2)))
             ++ (if count mod 2 =? 1
                 then host_off ((count - 1) * 8) ++ get_reg fill ++ [I64Store (at_ 0 3)] else []))
            (flat_map (λ j, [LocalGet L_ADDR; I64Const (Z.of_nat j * 8); I64Add] ++ get_reg fill ++ pc e
                            ++ [Call (F_STORE8 + 3)]) (seq 0 (Z.to_nat count)))]
      ++ bail_if_faulted
  end.

(** * One instruction *)

Definition set_bin (rd rs1 : Z) (second op : list W) : list W := set_with rd (get_reg rs1 ++ second ++ op).

(** The arms of [emit], as its comments group them; a group answers [None] for
    an instruction of another one. *)
Definition imm_op (rd rs1 imm : Z) (op : list W) : option (list W) :=
  Some (set_bin rd rs1 [I64Const imm] op).
Definition reg_op (rd rs1 rs2 : Z) (op : list W) : option (list W) :=
  Some (set_bin rd rs1 (get_reg rs2) op).
Definition word_imm (rd rs1 sh : Z) (op : W) : option (list W) :=
  Some (set_bin rd rs1 [I32WrapI64; I32Const sh] [op; I64ExtendI32S]).
Definition word_reg (rd rs1 rs2 : Z) (op : W) : option (list W) :=
  Some (set_with rd (get_reg rs1 ++ [I32WrapI64] ++ get_reg rs2 ++ [I32WrapI64; op; I64ExtendI32S])).

Definition emit_alu (e : Emit.t) (i : Instr) : option (list W) :=
  match i with
  | Lui rd imm => Some (set_with rd [I64Const imm])
  | Auipc rd imm =>
      Some (set_with rd [LocalGet L_PC; I64Const (Emit.off e); I64Add; I64Const imm; I64Add])
  | Addi rd rs1 imm => imm_op rd rs1 imm [I64Add]
  | Xori rd rs1 imm => imm_op rd rs1 imm [I64Xor]
  | Ori rd rs1 imm => imm_op rd rs1 imm [I64Or]
  | Andi rd rs1 imm => imm_op rd rs1 imm [I64And]
  | Slti rd rs1 imm => imm_op rd rs1 imm [I64LtS; I64ExtendI32U]
  | Sltiu rd rs1 imm => imm_op rd rs1 imm [I64LtU; I64ExtendI32U]
  | Slli rd rs1 shamt => imm_op rd rs1 shamt [I64Shl]
  | Srli rd rs1 shamt => imm_op rd rs1 shamt [I64ShrU]
  | Srai rd rs1 shamt => imm_op rd rs1 shamt [I64ShrS]
  | Add rd rs1 rs2 => reg_op rd rs1 rs2 [I64Add]
  | Sub rd rs1 rs2 => reg_op rd rs1 rs2 [I64Sub]
  | Sll rd rs1 rs2 => reg_op rd rs1 rs2 [I64Shl]
  | Srl rd rs1 rs2 => reg_op rd rs1 rs2 [I64ShrU]
  | Sra rd rs1 rs2 => reg_op rd rs1 rs2 [I64ShrS]
  | Xor rd rs1 rs2 => reg_op rd rs1 rs2 [I64Xor]
  | Or rd rs1 rs2 => reg_op rd rs1 rs2 [I64Or]
  | And rd rs1 rs2 => reg_op rd rs1 rs2 [I64And]
  | Slt rd rs1 rs2 => reg_op rd rs1 rs2 [I64LtS; I64ExtendI32U]
  | Sltu rd rs1 rs2 => reg_op rd rs1 rs2 [I64LtU; I64ExtendI32U]
  | _ => None
  end.

Definition emit_alu_w (i : Instr) : option (list W) :=
  let narrow := [I32WrapI64; I64ExtendI32S] in
  match i with
  | Addiw rd rs1 imm => imm_op rd rs1 imm (I64Add :: narrow)
  | Addw rd rs1 rs2 => reg_op rd rs1 rs2 (I64Add :: narrow)
  | Subw rd rs1 rs2 => reg_op rd rs1 rs2 (I64Sub :: narrow)
  | Slliw rd rs1 shamt => word_imm rd rs1 shamt I32Shl
  | Srliw rd rs1 shamt => word_imm rd rs1 shamt I32ShrU
  | Sraiw rd rs1 shamt => word_imm rd rs1 shamt I32ShrS
  | Sllw rd rs1 rs2 => word_reg rd rs1 rs2 I32Shl
  | Srlw rd rs1 rs2 => word_reg rd rs1 rs2 I32ShrU
  | Sraw rd rs1 rs2 => word_reg rd rs1 rs2 I32ShrS
  | _ => None
  end.

Definition emit_mem (e : Emit.t) (i : Instr) : option (list W) :=
  match i with
  | Lb rd rs1 imm => Some (load e rd rs1 imm 0 [I64Extend8S])
  | Lh rd rs1 imm => Some (load e rd rs1 imm 1 [I64Extend16S])
  | Lw rd rs1 imm => Some (load e rd rs1 imm 2 [I64Extend32S])
  | Ld rd rs1 imm => Some (load e rd rs1 imm 3 [])
  | Lbu rd rs1 imm => Some (load e rd rs1 imm 0 [])
  | Lhu rd rs1 imm => Some (load e rd rs1 imm 1 [])
  | Lwu rd rs1 imm => Some (load e rd rs1 imm 2 [])
  | Sb rs1 rs2 imm => Some (store e rs1 rs2 imm 0)
  | Sh rs1 rs2 imm => Some (store e rs1 rs2 imm 1)
  | Sw rs1 rs2 imm => Some (store e rs1 rs2 imm 2)
  | Sd rs1 rs2 imm => Some (store e rs1 rs2 imm 3)
  | Fence _ _ => Some []
  | _ => None
  end.

Definition emit_fp_op (e : Emit.t) (raw : Z) : list W :=
  match Emit.fp e, inline_fp_kind raw with
  | Some c, Some (k, rd, rs1, rs2) =>
      fp_gated e c (4, 0, 0, raw)
        (if k <=? 2 then fp_sgnj c k rd rs1 rs2
         else if k =? 3 then fp_mv_x_d c rd rs1 else fp_mv_d_x c rd rs1)
  | _, _ => fp_call e 4 0 0 raw
  end.

Definition emit_fp (e : Emit.t) (i : Instr) : option (list W) :=
  let gated rs1 imm k r1 inline :=
    Some match Emit.fp e with
         | Some c => fp_gated e c (k, r1, rs1, imm) (inline c)
         | None => fp_call e k r1 rs1 imm
         end in
  match i with
  | Fld rd rs1 imm => gated rs1 imm 0 rd (λ c, fp_load e c rd rs1 imm 3 false)
  | Flw rd rs1 imm => gated rs1 imm 1 rd (λ c, fp_load e c rd rs1 imm 2 true)
  | Fsd rs1 rs2 imm => gated rs1 imm 2 rs2 (λ c, fp_store e c rs1 rs2 imm 3)
  | Fsw rs1 rs2 imm => gated rs1 imm 3 rs2 (λ c, fp_store e c rs1 rs2 imm 2)
  | Fp raw => Some (emit_fp_op e raw)
  | _ => None
  end.

Definition emit_csr (e : Emit.t) (i : Instr) : option (list W) :=
  match i with
  | Csrrw rd rs1 csr => Some (csr_op e csr rd rs1 0 (get_reg rs1))
  | Csrrs rd rs1 csr => Some (csr_op e csr rd rs1 1 (get_reg rs1))
  | Csrrc rd rs1 csr => Some (csr_op e csr rd rs1 2 (get_reg rs1))
  | Csrrwi rd zimm csr => Some (csr_op e csr rd zimm 0 [I64Const zimm])
  | Csrrsi rd zimm csr => Some (csr_op e csr rd zimm 1 [I64Const zimm])
  | Csrrci rd zimm csr => Some (csr_op e csr rd zimm 2 [I64Const zimm])
  | _ => None
  end.

Definition emit_atomic (e : Emit.t) (i : Instr) : option (list W) :=
  match i with
  | Lrw rd rs1 _ _ => Some (load e rd rs1 0 2 [I64Extend32S])
  | Lrd rd rs1 _ _ => Some (load e rd rs1 0 3 [])
  | Scw rd rs1 rs2 _ _ => Some (store e rs1 rs2 0 2 ++ set_with rd [I64Const 0])
  | Scd rd rs1 rs2 _ _ => Some (store e rs1 rs2 0 3 ++ set_with rd [I64Const 0])
  | Amoswapw rd rs1 rs2 _ _ => Some (amo e rd rs1 rs2 2 OpSwap)
  | Amoaddw rd rs1 rs2 _ _ => Some (amo e rd rs1 rs2 2 OpAdd)
  | Amoxorw rd rs1 rs2 _ _ => Some (amo e rd rs1 rs2 2 OpXor)
  | Amoandw rd rs1 rs2 _ _ => Some (amo e rd rs1 rs2 2 OpAnd)
  | Amoorw rd rs1 rs2 _ _ => Some (amo e rd rs1 rs2 2 OpOr)
  | Amominw rd rs1 rs2 _ _ => Some (amo e rd rs1 rs2 2 OpMin)
  | Amomaxw rd rs1 rs2 _ _ => Some (amo e rd rs1 rs2 2 OpMax)
  | Amominuw rd rs1 rs2 _ _ => Some (amo e rd rs1 rs2 2 OpMinU)
  | Amomaxuw rd rs1 rs2 _ _ => Some (amo e rd rs1 rs2 2 OpMaxU)
  | Amoswapd rd rs1 rs2 _ _ => Some (amo e rd rs1 rs2 3 OpSwap)
  | Amoaddd rd rs1 rs2 _ _ => Some (amo e rd rs1 rs2 3 OpAdd)
  | Amoxord rd rs1 rs2 _ _ => Some (amo e rd rs1 rs2 3 OpXor)
  | Amoandd rd rs1 rs2 _ _ => Some (amo e rd rs1 rs2 3 OpAnd)
  | Amoord rd rs1 rs2 _ _ => Some (amo e rd rs1 rs2 3 OpOr)
  | Amomind rd rs1 rs2 _ _ => Some (amo e rd rs1 rs2 3 OpMin)
  | Amomaxd rd rs1 rs2 _ _ => Some (amo e rd rs1 rs2 3 OpMax)
  | Amominud rd rs1 rs2 _ _ => Some (amo e rd rs1 rs2 3 OpMinU)
  | Amomaxud rd rs1 rs2 _ _ => Some (amo e rd rs1 rs2 3 OpMaxU)
  | _ => None
  end.

Definition mul_high (rd rs1 rs2 : Z) (signs : list W) : option (list W) :=
  Some (set_with rd (get_reg rs1 ++ [LocalSet L_TMP] ++ get_reg rs2 ++ [LocalSet L_ADDR]
                     ++ mulhu_of_scratch ++ signs)).

Definition emit_mul (i : Instr) : option (list W) :=
  match i with
  | Mul rd rs1 rs2 => reg_op rd rs1 rs2 [I64Mul]
  | Mulhu rd rs1 rs2 => mul_high rd rs1 rs2 []
  | Mulh rd rs1 rs2 => mul_high rd rs1 rs2 (mulh_sign_term L_TMP L_ADDR ++ mulh_sign_term L_ADDR L_TMP)
  | Mulhsu rd rs1 rs2 => mul_high rd rs1 rs2 (mulh_sign_term L_TMP L_ADDR)
  | Mulw rd rs1 rs2 => reg_op rd rs1 rs2 [I64Mul; I64Extend32S]
  | _ => None
  end.

Definition emit_jump (e : Emit.t) (i : Instr) (width : Z) : option (list W) :=
  match i with
  | Beq rs1 rs2 imm => Some (branch e rs1 rs2 imm width I64Eq)
  | Bne rs1 rs2 imm => Some (branch e rs1 rs2 imm width I64Ne)
  | Blt rs1 rs2 imm => Some (branch e rs1 rs2 imm width I64LtS)
  | Bge rs1 rs2 imm => Some (branch e rs1 rs2 imm width I64GeS)
  | Bltu rs1 rs2 imm => Some (branch e rs1 rs2 imm width I64LtU)
  | Bgeu rs1 rs2 imm => Some (branch e rs1 rs2 imm width I64GeU)
  | Jal rd imm =>
      Some (set_with rd (here e width)
            ++ set_next_pc [LocalGet L_PC; I64Const (Emit.off e + imm); I64Add]
            ++ (if RAS_ON && ((rd =? 1) || (rd =? 5)) then ras_push e width else []))
  | Jalr rd rs1 imm =>
      Some (get_reg rs1 ++ [I64Const imm; I64Add; I64Const (-2); I64And; LocalSet L_TMP]
            ++ set_with rd (here e width) ++ set_next_pc [LocalGet L_TMP]
            ++ (if RAS_ON && ((rd =? 1) || (rd =? 5)) then ras_push e width else []))
  | _ => None
  end.

(** The first group that answers; [None] where the Rust function returns
    [false]. *)
Definition first_of (l : list (option (list W))) : option (list W) :=
  foldr (λ o k, match o with Some c => Some c | None => k end) None l.

Definition emit (e : Emit.t) (i : Instr) (width : Z) : option (list W) :=
  first_of [emit_alu e i; emit_alu_w i; emit_mem e i; emit_fp e i; emit_csr e i;
            emit_atomic e i; emit_mul i; emit_jump e i width].

(** * A block *)

(** An instruction in the middle of a trace that may leave it; [None] where
    the loop stops. *)
Definition emit_mid (e : Emit.t) (i : Instr) (width count : Z) : option (list W) :=
  let guard rs1 rs2 imm cmp := Some (branch_guard e rs1 rs2 imm width cmp (imm <? 0) count) in
  match i with
  | Jal rd _ =>
      Some (jal_link_only e rd width
            ++ (if RAS_ON && ((rd =? 1) || (rd =? 5)) then ras_push e width else []))
  | Beq rs1 rs2 imm => guard rs1 rs2 imm I64Eq
  | Bne rs1 rs2 imm => guard rs1 rs2 imm I64Ne
  | Blt rs1 rs2 imm => guard rs1 rs2 imm I64LtS
  | Bge rs1 rs2 imm => guard rs1 rs2 imm I64GeS
  | Bltu rs1 rs2 imm => guard rs1 rs2 imm I64LtU
  | Bgeu rs1 rs2 imm => guard rs1 rs2 imm I64GeU
  | _ => None
  end.

Section Body.
Context (chain : option ChainCfg.t) (fp : option FpCfg.t).

Definition env_at (off : Z) (role : Role) : Emit.t :=
  Emit.mk off chain (c ← chain; ChainCfg.tlb c) fp (default 0 (ChainCfg.gen_addr <$> chain)) role.

(** The loop over the trace: the code, and how many instructions it covers.
    [n] of them have been emitted before. *)
Fixpoint emit_loop (roles : list Role) (n : nat) (l : list Src) : list W * nat :=
  match l, roles with
  | (i, width, off) :: l', role :: roles' =>
      let e := env_at off role in
      if is_compilable i then
        match role with
        | Vfill first_imm count fill =>
            let rs1 := match mem_access i with Some (b, _, _, _) => b | None => 0 end in
            let '(c', n') := emit_loop roles' (n + 1) l' in (memset_v128 e rs1 fill first_imm count ++ c', n')
        | VfillSkip => emit_loop roles' (n + 1) l'
        | _ =>
            match l', roles', (if FUSE_ON then (b ← head l'; fusible (i, width, off) b) else None) with
            | _ :: l'', _ :: roles'', Some (rd, pc_rel, konst) =>
                let '(c', n') := emit_loop roles'' (n + 2) l'' in (fused_const rd pc_rel konst ++ c', n')
            | _, _, _ =>
                match emit e i width with
                | Some c => let '(c', n') := emit_loop roles' (n + 1) l' in (c ++ c', n')
                | None => ([], n)
                end
            end
        end
      else if negb (is_terminator i) then ([], n)
      else match l' with
           | [] => match emit e i width with Some c => (c, (n + 1)%nat) | None => ([], n) end
           | _ =>
               match emit_mid e i width (Z.of_nat n + 1) with
               | Some c => let '(c', n') := emit_loop roles' (n + 1) l' in (c ++ c', n')
               | None => ([], n)
               end
           end
  | _, _ => ([], n)
  end.

Definition body_locals : list (nat * ValType) :=
  [(2, TI64); (1, TI32); (1, TI64); (1, TI32); (4, TI32); (1, TI64)]%nat
  ++ (if REG_RESIDENT_ON then [(32%nat, TI64)] else [])
  ++ (if SIMD_ON then [(1%nat, TV128)] else [])
  ++ (if RAS_ON then [(1, TI64); (1, TI32)]%nat else []).

Definition roles_of (insns : list Src) : list Role :=
  match (c ← chain; ChainCfg.tlb c) with
  | Some _ => if GROUP_CSE_ON then plan_groups insns else replicate (length insns) Solo
  | None => replicate (length insns) Solo
  end.

(** What follows the instructions inside the block. *)
Definition body_tail (insns : list Src) (n : nat) (link_target : option Z) : list W :=
  let last := last (take n insns) in
  let ends_fallthrough := match last with Some (i, _, _) => negb (is_terminator i) | None => true end in
  let e := env_at 0 Solo in
  (if ends_fallthrough then
     match last with
     | Some (_, w, off) => set_next_pc [LocalGet L_PC; I64Const (off + w); I64Add]
     | None => []
     end
   else [])
  ++ count_insns (Z.of_nat n)
  ++ (if TAILLINK_ON && ends_fallthrough && (n =? length insns)%nat
      then match link_target with Some idx => link_to idx | None => [] end else [])
  ++ (if RAS_ON then
        match last with
        | Some (Jalr rd rs1 _, _, _) => if (rd =? 0) && ((rs1 =? 1) || (rs1 =? 5)) then ras_return e else []
        | _ => []
        end
      else []).

Definition emit_body (insns : list Src) (link_target : option Z) : option (Func.t * nat) :=
  let '(code, n) := emit_loop (roles_of insns) 0 insns in
  if (n =? 0)%nat then None
  else Some (Func.mk body_locals
               (Block BEmpty (code ++ body_tail insns n link_target)
                :: chain_to_successor (env_at 0 Solo)), n).
End Body.

(** * Modules

    The sections of a module, as they are handed to [wasm_encoder]: types as
    parameters and results, imported functions and defined ones as type
    indices, the size of the table, the offset of the one element segment (a
    constant or the imported global) and its functions, and the bodies. *)

Inductive TableSize := ImportedTable (minimum : Z) | OwnTable (size : Z).
Inductive ElemOffset := GlobalOffset | ConstOffset (z : Z).

Module WModule.
Record t := mk {
  types : list (list ValType * list ValType);
  imports : list Z;
  funcs : list Z;
  table : option TableSize;
  exports : list Z;
  elems : option (ElemOffset * list Z);
  code : list Func.t;
}.
End WModule.

Definition common_types : list (list ValType * list ValType) :=
  [([TI32; TI64], []);
   ([TI64; TI64], [TI64]);
   ([TI64; TI64; TI64], []);
   ([TI32; TI32; TI32; TI64; TI32; TI64], [])].

(** The four loads, the four stores, [csr] and [fp]. *)
Definition common_imports : list Z := [1; 1; 1; 1; 2; 2; 2; 2; 3; 2].

(** [start.entry(pa).or_insert(i)]: the first run at an address. *)
Definition run_at (paddrs : list Z) (pa : Z) : option Z :=
  Z.of_nat ∘ fst <$> list_find (λ q, q = pa) paddrs.

Definition fallthrough_links (runs : list (list Src)) (paddrs : list Z) : list (option Z) :=
  if negb TAILLINK_ON || negb (length paddrs =? length runs)%nat then replicate (length runs) None
  else
    imap (λ i run,
      '(_, w, off) ← last run;
      let pa := paddrs !!! i in
      let succ := as_u64 (pa + (as_u64 off + w)) in
      if Z.land succ (unot 64 0xFFF) =? Z.land pa (unot 64 0xFFF)
      then (λ j, FIRST_DEFINED + j) <$> run_at paddrs succ else None) runs.

Definition emit_all (chain : option ChainCfg.t) (fp : option FpCfg.t) (runs : list (list Src))
    (links : list (option Z)) : option (list (option Func.t) * list Z) :=
  let emitted := imap (λ i run, emit_body chain fp run (mjoin (links !! i))) runs in
  if existsb (λ r, match r with Some _ => true | None => false end) emitted
  then Some (fmap (M := option) fst <$> emitted,
             (λ r : option (Func.t * nat), match r with Some (_, n) => Z.of_nat n | None => 0 end) <$> emitted)
  else None.

Definition emit_code (bodies : list (option Func.t)) : list Func.t :=
  default (Func.mk [] []) <$> bodies.

Definition defined_idxs (n : Z) : list Z := (λ k, FIRST_DEFINED + Z.of_nat k) <$> seq 0 (Z.to_nat n).

Definition compile_many_into_table (runs : list (list Src)) (paddrs : list Z)
    (chain : option ChainCfg.t) (fp : option FpCfg.t) : option (WModule.t * list Z) :=
  let links := fallthrough_links runs paddrs in
  '(bodies, covered) ← emit_all chain fp runs links;
  let n := Z.of_nat (length bodies) in
  Some (WModule.mk common_types common_imports (replicate (length bodies) 0)
          (Some (ImportedTable n)) [] (Some (GlobalOffset, defined_idxs n)) (emit_code bodies),
        covered).

Definition compile_many (runs : list (list Src)) (fp : option FpCfg.t) : option (WModule.t * list Z) :=
  '(bodies, covered) ← emit_all None fp runs [];
  let n := Z.of_nat (length bodies) in
  let types := common_types ++ [([TI32; TI32; TI64], [])] in
  let dispatch := Func.mk [] [LocalGet 1; LocalGet 2; LocalGet 0; CallIndirect 0 0] in
  Some (WModule.mk types common_imports (replicate (length bodies) 0 ++ [3])
          (Some (OwnTable n)) [FIRST_DEFINED + n] (Some (ConstOffset 0, defined_idxs n))
          (emit_code bodies ++ [dispatch]),
        covered).

Definition compile (insns : list Src) (fp : option FpCfg.t) : option (WModule.t * nat) :=
  '(f, n) ← emit_body None fp insns None;
  Some (WModule.mk common_types common_imports [0] None [FIRST_DEFINED] None [f], n).
