(* ===== verification/JitPlan.v ===== *)
(** The grouping pass of the block compiler ([plan_groups]). *)

From S2P Require Import Prelude Types Wasm Jit.

(** The roles that exist while the vector switch is off. *)
Definition plain (r : Role) : Prop :=
  match r with Vfill _ _ _ | VfillSkip => False | _ => True end.

Section Plain.
Context (insns : list Src).

Lemma members_plain st l (rs : list Role) :
  Forall plain rs → Forall plain (foldl (λ rs k, <[k := Member st]> rs) rs l).
Proof. revert rs. induction l as [|k l IH]; intros rs Hr; cbn; [done|]. by apply IH, Forall_insert. Qed.

Lemma set_group_roles p st g : Plan.roles (Plan.set_group p st g) = Plan.roles p.
Proof. by destruct st. Qed.

Lemma close_plain st p : Forall plain (Plan.roles p) → Forall plain (Plan.roles (close insns st p)).
Proof.
  intros Hp. unfold close. destruct (Plan.group p st) as [g|]; [|done]. cbv zeta.
  destruct (Group.idxs g) as [|a [|b l]]; [by rewrite set_group_roles..|].
  cbn [SIMD_ON andb]. apply members_plain, Forall_insert; [|done]. by rewrite set_group_roles.
Qed.

Lemma access_plain k i p : Forall plain (Plan.roles p) → Forall plain (Plan.roles (plan_access insns k i p)).
Proof.
  intros Hp. unfold plan_access. destruct (mem_access i) as [[[[r imm] n] st]|].
  - destruct (join _ _ _ _ _); rewrite set_group_roles; [done|by apply close_plain].
  - destruct (_ && _); [by do 2 apply close_plain|done].
Qed.

Lemma write_plain i st p : Forall plain (Plan.roles p) → Forall plain (Plan.roles (plan_write insns i st p)).
Proof.
  intros Hp. unfold plan_write. destruct (Plan.group p st) as [g|]; [|done].
  destruct (stride_of i) as [[rd imm]|]; [destruct (_ =? _); [by rewrite set_group_roles|done]|].
  destruct (dest_reg i) as [rd|]; [|done]. destruct (_ && _); [by apply close_plain|done].
Qed.

Lemma from_plain l k p : Forall plain (Plan.roles p) → Forall plain (Plan.roles (plan_from insns k l p)).
Proof.
  revert k p. induction l as [|[[i w] off] l IH]; intros k p Hp; cbn [plan_from]; [done|].
  destruct (_ && _); [done|]. by apply IH, write_plain, write_plain, access_plain.
Qed.

Lemma replicate_plain n : Forall plain (replicate n Solo).
Proof. by apply Forall_replicate. Qed.

Lemma plan_groups_plain : Forall plain (plan_groups insns).
Proof. apply close_plain, close_plain, from_plain, replicate_plain. Qed.

Lemma roles_of_plain chain : Forall plain (roles_of chain insns).
Proof.
  unfold roles_of. destruct (_ ≫= _); [apply plan_groups_plain|apply replicate_plain].
Qed.
End Plain.

(** * Soundness

    A leader's window covers its own access, and a member's access lies in the
    window of the last leader before it, through the same base register, which
    no instruction between them writes. *)

(** Whether [i] may change register [r], as the pass sees it. *)
Definition kills (i : Instr) (r : Z) : bool :=
  match dest_reg i with
  | Some d => (d =? r) && negb (d =? 0)
  | None => match mem_access i with Some _ => false | None => negb (transparent i) end
  end.
Definition base_of (i : Instr) : Z := match mem_access i with Some (r, _, _, _) => r | None => 0 end.

(** The role belongs to a group of direction [st]. *)
Definition role_of (st : bool) (r : Role) : Prop :=
  match r with Leader s _ _ | Member s => s = st | _ => False end.
Definition leads (st : bool) (r : Role) : Prop := match r with Leader s _ _ => s = st | _ => False end.

Section Sound.
Context (insns : list Src).
Implicit Types (rs : list Role) (j x : nat) (st : bool) (r imm size : Z) (p : Plan.t) (g : Group.t).

(** The instruction at [j] accesses memory so. *)
Definition access_at j r imm size st : Prop := ∃ s, insns !! j = Some s ∧ mem_access s.1.1 = Some (r, imm, size, st).
Definition free_at x r : Prop := ∀ s, insns !! x = Some s → kills s.1.1 r = false.

(** The window of the leader at [i0] holds for an access at [j]. *)
Definition linked rs st (i0 j : nat) (mn span r : Z) : Prop :=
  (i0 < j)%nat ∧ rs !! i0 = Some (Leader st mn span) ∧ (∃ imm size, access_at i0 r imm size st) ∧
  (∀ x role, (i0 < x < j)%nat → rs !! x = Some role → ¬ leads st role) ∧
  (∀ x, (i0 <= x < j)%nat → free_at x r).

Definition role_sound rs j (role : Role) : Prop :=
  match role with
  | Solo => True
  | Leader st mn span =>
      ∃ r imm size, access_at j r imm size st ∧ mn <= imm ∧ imm + size <= mn + span ∧ span <= GROUP_SPAN_MAX
  | Member st =>
      ∃ i0 mn span r imm size, linked rs st i0 j mn span r ∧ access_at j r imm size st ∧
        mn <= imm ∧ imm + size <= mn + span
  | _ => False
  end.

(** An open group whose accesses are before [ka] and whose base is not written
    from its first access up to [kk]. *)
Record group_ok (ka kk : nat) rs st g (first : nat) (rest : list nat) : Prop := mk_group_ok {
  go_idxs : Group.idxs g = first :: rest;
  go_first : (first < ka)%nat;
  go_rest : Forall (λ x, (first < x < ka)%nat) rest;
  go_acc : Group.acc g = 0;
  go_span : Group.hi g - Group.lo g <= GROUP_SPAN_MAX;
  go_access x : x ∈ first :: rest → ∃ imm size, access_at x (Group.base g) imm size st ∧
                  Group.lo g <= imm ∧ imm + size <= Group.hi g ∧ rs !! x = Some Solo;
  go_roles x role : (first <= x)%nat → rs !! x = Some role → ¬ role_of st role;
  go_free x : (first <= x < kk)%nat → free_at x (Group.base g);
}.

Record plan_ok (ka : nat) (kk : bool → nat) p : Prop := mk_plan_ok {
  po_len : length (Plan.roles p) = length insns;
  po_sound j role : Plan.roles p !! j = Some role → role_sound (Plan.roles p) j role;
  po_rest j role : (ka <= j)%nat → Plan.roles p !! j = Some role → role = Solo;
  po_group st g : Plan.group p st = Some g → ∃ first rest, group_ok ka (kk st) (Plan.roles p) st g first rest;
  po_kk st : (ka <= S (kk st))%nat;
}.

Lemma access_fun j r imm size st r' imm' size' st' :
  access_at j r imm size st → access_at j r' imm' size' st' → r = r' ∧ imm = imm' ∧ size = size' ∧ st = st'.
Proof. intros (s & E & Hs) (s' & E' & Hs'). by simplify_eq. Qed.

(** Closing a group assigns the roles of its accesses. *)
Lemma members_lookup st l rs x :
  Forall (λ y, (y < length rs)%nat) l →
  foldl (λ rs k, <[k := Member st]> rs) rs l !! x = if decide (x ∈ l) then Some (Member st) else rs !! x.
Proof.
  revert rs. induction l as [|k l IH]; intros rs Hl; cbn; [done|]. apply Forall_cons in Hl as [Hk Hl].
  rewrite IH by (eapply Forall_impl; [exact Hl|]; intros y; by rewrite length_insert).
  destruct (decide (x ∈ l)) as [Hx|Hx], (decide (x ∈ k :: l)) as [Hx'|Hx']; try done.
  - exfalso. apply Hx'. by right.
  - apply elem_of_cons in Hx' as [->|?]; [|done]. by rewrite list_lookup_insert_eq.
  - rewrite list_lookup_insert_ne; [done|]. intros ->. apply Hx'. by left.
Qed.

Lemma group_set p st (o : option Group.t) st' :
  Plan.group (Plan.set_group p st o) st' = if Bool.eqb st st' then o else Plan.group p st'.
Proof. by destruct st, st'. Qed.

(** The roles after the group [g] is closed. *)
Definition closed st g rs : list Role :=
  match Group.idxs g with
  | first :: ((_ :: _) as rest) =>
      foldl (λ rs k, <[k := Member st]> rs) (<[first := Leader st (Group.lo g) (Group.hi g - Group.lo g)]> rs) rest
  | _ => rs
  end.

Lemma close_eq st p g :
  Plan.group p st = Some g →
  close insns st p = (let p' := Plan.set_group p st None in Plan.mk (closed st g (Plan.roles p)) (Plan.loads p') (Plan.stores p')).
Proof.
  intros Hg. unfold close. rewrite Hg. cbv zeta. unfold closed. cbn [SIMD_ON andb].
  destruct (Group.idxs g) as [|a [|a' l]]; rewrite ?set_group_roles; by destruct st, p.
Qed.

Section Close.
Context (ka kk : nat) (st : bool) (g : Group.t) (rs : list Role) (first : nat) (rest : list nat).
Context (Hlen : length rs = length insns) (Hg : group_ok ka kk rs st g first rest) (Hkk : (ka <= S kk)%nat).

Lemma solo_here x : x ∈ first :: rest → rs !! x = Some Solo ∧ (x < length rs)%nat.
Proof.
  intros Hx. destruct (go_access _ _ _ _ _ _ _ Hg x Hx) as (? & ? & _ & _ & _ & E). split; [done|].
  by apply lookup_lt_Some in E.
Qed.

Lemma first_not_rest : first ∉ rest.
Proof. intros Hin. pose proof (go_rest _ _ _ _ _ _ _ Hg) as Hr. rewrite Forall_forall in Hr. apply Hr in Hin. lia. Qed.

Lemma closed_lookup x :
  rest ≠ [] →
  closed st g rs !! x = if decide (x ∈ rest) then Some (Member st)
                        else if decide (x = first) then Some (Leader st (Group.lo g) (Group.hi g - Group.lo g)) else rs !! x.
Proof.
  intros Hne. unfold closed. rewrite (go_idxs _ _ _ _ _ _ _ Hg).
  transitivity (foldl (λ rs k, <[k := Member st]> rs)
    (<[first := Leader st (Group.lo g) (Group.hi g - Group.lo g)]> rs) rest !! x); [by destruct rest|].
  rewrite members_lookup.
  - destruct (decide (x ∈ rest)); [done|]. destruct (decide (x = first)) as [->|Hx].
    + apply list_lookup_insert_eq. apply solo_here. by left.
    + by rewrite list_lookup_insert_ne.
  - apply Forall_forall. intros y Hy. rewrite length_insert. apply solo_here. by right.
Qed.

Lemma closed_alone : rest = [] → closed st g rs = rs.
Proof. intros E. unfold closed. by rewrite (go_idxs _ _ _ _ _ _ _ Hg), E. Qed.

Lemma closed_length : length (closed st g rs) = length rs.
Proof.
  unfold closed. rewrite (go_idxs _ _ _ _ _ _ _ Hg). destruct rest as [|a l]; [done|].
  assert (∀ l (q : list Role), length (foldl (λ rs k, <[k := Member st]> rs) q l) = length q) as ->.
  { intros l'. induction l' as [|k l' IH]; intros q; [done|]. cbn. by rewrite IH, length_insert. }
  by rewrite length_insert.
Qed.

(** What a closed role list holds at [x]. *)
Lemma closed_cases x role :
  closed st g rs !! x = Some role →
  rs !! x = Some role ∨ (first <= x)%nat ∧ x ∈ first :: rest ∧ role_of st role.
Proof.
  intros E. destruct (decide (rest = [])) as [Hr|Hr]; [by rewrite closed_alone in E; [left|]|].
  rewrite closed_lookup in E by done. pose proof (go_rest _ _ _ _ _ _ _ Hg) as Hf. rewrite Forall_forall in Hf.
  destruct (decide (x ∈ rest)) as [Hx|_].
  - right. injection E as <-. split_and!; [apply Hf in Hx; lia|by right|done].
  - destruct (decide (x = first)) as [->|]; [|by left]. right. injection E as <-. split_and!; [lia|by left|done].
Qed.

(** Roles that were there stay, and mean what they meant. *)
Lemma closed_keeps x role : rs !! x = Some role → role ≠ Solo → closed st g rs !! x = Some role.
Proof.
  intros E Hs. destruct (decide (rest = [])) as [Hr|Hr]; [by rewrite closed_alone|].
  rewrite closed_lookup by done.
  destruct (decide (x ∈ rest)) as [Hx|_]; [destruct (solo_here x) as [E' _]; [by right|congruence]|].
  destruct (decide (x = first)) as [->|]; [|done]. destruct (solo_here first) as [E' _]; [by left|congruence].
Qed.

Lemma linked_closed s i0 j mn span r role :
  rs !! j = Some role → role_of s role → linked rs s i0 j mn span r → linked (closed st g rs) s i0 j mn span r.
Proof.
  intros Ej Hj (Hlt & Hl & Ha & Hb & Hf). split_and!; [done|by apply closed_keeps|done| |done].
  intros x role' Hx Ex Hlead. destruct (closed_cases x role' Ex) as [Ex'|(Hfx & _ & Hr)]; [by eapply Hb|].
  assert (s = st) as ->. { clear Ex. destruct role'; cbn in *; (done || congruence). }
  eapply (go_roles _ _ _ _ _ _ _ Hg j); [lia|done|done].
Qed.

Lemma role_sound_closed j role :
  (∀ j role, rs !! j = Some role → role_sound rs j role) →
  closed st g rs !! j = Some role → role_sound (closed st g rs) j role.
Proof.
  intros Hs E. pose proof (go_rest _ _ _ _ _ _ _ Hg) as Hrest. rewrite Forall_forall in Hrest.
  assert (Hold : rs !! j = Some role → role_sound (closed st g rs) j role).
  { intros E'. pose proof (Hs j role E') as Hj. destruct role; try done.
    destruct Hj as (i0 & mn & span & r & imm & size & Hl & Hr). exists i0, mn, span, r, imm, size.
    split; [|done]. by eapply linked_closed. }
  destruct (decide (rest = [])) as [Hr|Hr]; [by rewrite closed_alone in E; [apply Hold|]|].
  assert (E0 := E). rewrite closed_lookup in E by done. destruct (decide (j ∈ rest)) as [Hj|Hj].
  - injection E as <-. cbn.
    destruct (go_access _ _ _ _ _ _ _ Hg j ltac:(by right)) as (imm & size & Ha & Hlo & Hhi & _).
    destruct (go_access _ _ _ _ _ _ _ Hg first ltac:(by left)) as (imm0 & size0 & Ha0 & _).
    exists first, (Group.lo g), (Group.hi g - Group.lo g), (Group.base g), imm, size.
    apply Hrest in Hj as Hlt. split_and!; [|done|done|lia]. split_and!; [lia| |by exists imm0, size0| |].
    + rewrite closed_lookup by done. rewrite decide_False by apply first_not_rest. by rewrite decide_True.
    + intros x role' Hx Ex Hlead. rewrite closed_lookup in Ex by done.
      destruct (decide (x ∈ rest)); [by injection Ex as <-|].
      rewrite decide_False in Ex by lia.
      eapply (go_roles _ _ _ _ _ _ _ Hg x); [lia|exact Ex|]. by destruct role'.
    + intros x Hx. apply (go_free _ _ _ _ _ _ _ Hg). lia.
  - destruct (decide (j = first)) as [->|]; [|by apply Hold]. injection E as <-. cbn.
    destruct (go_access _ _ _ _ _ _ _ Hg first ltac:(by left)) as (imm & size & Ha & Hlo & Hhi & _).
    exists (Group.base g), imm, size. split_and!; [done|done|lia|apply (go_span _ _ _ _ _ _ _ Hg)].
Qed.

Lemma closed_other x : x ∉ first :: rest → closed st g rs !! x = rs !! x.
Proof.
  intros Hx. destruct (decide (rest = [])) as [Hr|Hr]; [by rewrite closed_alone|].
  rewrite closed_lookup by done. apply not_elem_of_cons in Hx as [Hx1 Hx2].
  by rewrite decide_False, decide_False.
Qed.

Lemma group_closed ka' kk' st' g' first' rest' :
  st' ≠ st → group_ok ka' kk' rs st' g' first' rest' → group_ok ka' kk' (closed st g rs) st' g' first' rest'.
Proof.
  intros Hne Hg'. destruct Hg' as [H1 H2 H3 H4 H5 H6 H7 H8]. constructor; try done.
  - intros x Hx. destruct (H6 x Hx) as (imm & size & Ha & Hlo & Hhi & E). exists imm, size. split_and!; try done.
    rewrite closed_other; [done|]. intros Hin.
    destruct (go_access _ _ _ _ _ _ _ Hg x Hin) as (? & ? & Ha' & _).
    destruct (access_fun _ _ _ _ _ _ _ _ _ Ha Ha') as (_ & _ & _ & ?). done.
  - intros x role Hx Ex Hr. destruct (closed_cases x role Ex) as [Ex'|(_ & _ & Hr')]; [by eapply H7|].
    destruct role; cbn in *; (done || congruence).
Qed.
End Close.

Lemma close_ok ka kk st p :
  plan_ok ka kk p → plan_ok ka kk (close insns st p) ∧ Plan.group (close insns st p) st = None.
Proof.
  intros Hp. destruct (Plan.group p st) as [g|] eqn:Eg.
  2: { assert (close insns st p = p) as -> by (unfold close; by rewrite Eg). done. }
  destruct (po_group _ _ _ Hp st g Eg) as (first & rest & Hg).
  pose proof (po_len _ _ _ Hp) as Hlen. pose proof (po_kk _ _ _ Hp st) as Hkk.
  rewrite (close_eq st p g Eg). cbv zeta. split; [|by destruct st].
  constructor; cbn [Plan.roles].
  - by rewrite (closed_length ka (kk st) st g _ first rest).
  - intros j role E. eapply role_sound_closed; try eassumption. apply Hp.
  - intros j role Hj E. destruct (closed_cases ka (kk st) st g _ first rest Hlen Hg Hkk j role E) as [E'|(_ & Hin & _)].
    + by eapply (po_rest _ _ _ Hp).
    + exfalso. pose proof (go_rest _ _ _ _ _ _ _ Hg) as Hf. rewrite Forall_forall in Hf.
      pose proof (go_first _ _ _ _ _ _ _ Hg). apply elem_of_cons in Hin as [->|Hin]; [lia|].
      apply Hf in Hin. lia.
  - intros st' g' E. assert (E' : Plan.group p st' = Some g' ∧ st' ≠ st).
    { by destruct st, st'. }
    destruct E' as [E' Hne]. destruct (po_group _ _ _ Hp st' g' E') as (first' & rest' & Hg').
    exists first', rest'. by eapply group_closed.
  - apply Hp.
Qed.

Lemma plan_ok_weaken ka ka' kk p : (ka <= ka')%nat → (∀ st, (ka' <= S (kk st))%nat) → plan_ok ka kk p → plan_ok ka' kk p.
Proof.
  intros Hle Hk [H1 H2 H3 H4 H5]. constructor; try done.
  - intros j role Hj. apply H3. lia.
  - intros st g Eg. destruct (H4 st g Eg) as (first & rest & [G1 G2 G3 G4 G5 G6 G7 G8]).
    exists first, rest. constructor; try done; [lia|]. eapply Forall_impl; [exact G3|]. cbn. lia.
Qed.

(** A group that has just been opened or extended. *)
Lemma set_group_ok ka kk st g first rest p :
  plan_ok ka kk p → group_ok ka (kk st) (Plan.roles p) st g first rest → plan_ok ka kk (Plan.set_group p st (Some g)).
Proof.
  intros [H1 H2 H3 H4 H5] Hg. constructor; rewrite ?set_group_roles; try done.
  intros st' g' E. rewrite group_set in E. destruct (Bool.eqb_spec st st') as [<-|Hne].
  - injection E as <-. by exists first, rest.
  - by apply H4.
Qed.

Lemma mem_access_size i r imm size st : mem_access i = Some (r, imm, size, st) → 1 <= size <= 8.
Proof. destruct i; try discriminate; cbn; intros [= <- <- <- <-]; lia. Qed.

Lemma plan_access_ok k s p :
  insns !! k = Some s → plan_ok k (λ _, k) p →
  let p' := plan_access insns k s.1.1 p in
  plan_ok (S k) (λ _, k) p' ∧
  (mem_access s.1.1 = None → dest_reg s.1.1 = None → transparent s.1.1 = false → ∀ st, Plan.group p' st = None).
Proof.
  intros Es Hp. cbv zeta. unfold plan_access.
  assert (Hp' : plan_ok (S k) (λ _, k) p) by (by apply (plan_ok_weaken k); [lia|lia|]).
  destruct (mem_access s.1.1) as [[[[r imm] size] st]|] eqn:Em.
  - split; [|done]. pose proof (mem_access_size _ _ _ _ _ Em) as Hsize.
    assert (Ha : access_at k r imm size st) by by exists s.
    assert (Hsolo : ∀ q, plan_ok k (λ _, k) q → Plan.roles q !! k = Some Solo).
    { intros q Hq. destruct (lookup_lt_is_Some_2 (Plan.roles q) k) as [role Er].
      - rewrite (po_len _ _ _ Hq). by apply lookup_lt_Some in Es.
      - rewrite Er. f_equal. by eapply (po_rest _ _ _ Hq). }
    destruct (join k r imm size (Plan.group p st)) as [g'|] eqn:Ej.
    + unfold join in Ej. destruct (Plan.group p st) as [g|] eqn:Eg; [|done].
      destruct (Z.eqb_spec (Group.base g) r) as [Hbase|]; [|done].
      destruct (po_group _ _ _ Hp st g Eg) as (first & rest & [G1 G2 G3 G4 G5 G6 G7 G8]).
      rewrite G4 in Ej. cbv zeta in Ej. destruct (Z.leb_spec (Z.max (0 + imm + size) (Group.hi g) - Z.min (0 + imm) (Group.lo g)) GROUP_SPAN_MAX); [|done].
      injection Ej as <-. apply (set_group_ok _ _ _ _ first (rest ++ [k])); [done|].
      constructor; cbn [Group.idxs Group.acc Group.lo Group.hi Group.base]; try done.
      * by rewrite G1.
      * lia.
      * apply Forall_app. split; [eapply Forall_impl; [exact G3|]; cbn; lia|]. repeat constructor; lia.
      * intros x Hx. rewrite app_comm_cons in Hx. apply elem_of_app in Hx as [Hx|Hx%list_elem_of_singleton].
        -- destruct (G6 x Hx) as (imm' & size' & ? & ? & ? & ?). exists imm', size'. rewrite <- Hbase. split_and!; (done || lia).
        -- subst x. exists imm, size. split_and!; [done|lia|lia|by apply Hsolo].
      * by rewrite <- Hbase.
    + destruct (close_ok k (λ _, k) st p Hp) as [Hc _].
      apply (set_group_ok _ _ _ _ k []); [by apply (plan_ok_weaken k); [lia|lia|]|].
      constructor; cbn [Group.idxs Group.acc Group.lo Group.hi Group.base]; try done.
      * lia.
      * unfold GROUP_SPAN_MAX. lia.
      * intros x ->%list_elem_of_singleton. exists imm, size. split_and!; [done|lia|lia|by apply Hsolo].
      * intros x role Hx Ex. rewrite (po_rest _ _ _ Hc x role Hx Ex). by intros [].
      * lia.
  - destruct (negb (transparent s.1.1) && match dest_reg s.1.1 with Some _ => false | None => true end) eqn:Ec.
    + destruct (close_ok _ _ false p Hp') as [H1 H2]. destruct (close_ok _ _ true _ H1) as [H3 H4].
      split; [done|]. intros _ _ _ st. destruct st; [done|].
      unfold close at 1. destruct (Plan.group (close insns false p) true) as [g|] eqn:Eg; [|done].
      cbv zeta. rewrite <- H2. cbn [SIMD_ON andb]. destruct (Group.idxs g) as [|a [|a' l]]; done.
    + split; [done|]. intros _ Hd Ht. by rewrite Hd, Ht in Ec.
Qed.

Lemma stride_none i : stride_of i = None.
Proof. by destruct i. Qed.

(** The instruction at [k] leaves the groups that stay open. *)
Lemma plan_write_ok k kk s st p :
  insns !! k = Some s → plan_ok (S k) kk p → kk st = k →
  (mem_access s.1.1 = None → dest_reg s.1.1 = None → transparent s.1.1 = false → Plan.group p st = None) →
  let p' := plan_write insns s.1.1 st p in
  plan_ok (S k) (λ st', if Bool.eqb st' st then S k else kk st') p' ∧
  (∀ st', st' ≠ st → Plan.group p st' = None → Plan.group p' st' = None).
Proof.
  intros Es Hp Hk Hnone. cbv zeta. set (kk' := λ st', _).
  assert (Hgrow : ∀ q, plan_ok (S k) kk q → (∀ g, Plan.group q st = Some g → kills s.1.1 (Group.base g) = false) → plan_ok (S k) kk' q).
  { intros q [H1 H2 H3 H4 H5] Hkill. constructor; try done.
    - intros st' g Eg. destruct (H4 st' g Eg) as (first & rest & [G1 G2 G3 G4 G5 G6 G7 G8]).
      exists first, rest. constructor; try done. unfold kk'. destruct (Bool.eqb_spec st' st) as [->|]; [|done].
      intros x Hx. destruct (decide (x = k)) as [->|]; [|apply G8; rewrite Hk; lia].
      intros s' Es'. assert (s' = s) as -> by congruence. by apply Hkill.
    - intros st'. unfold kk'. destruct (Bool.eqb st' st); [lia|apply H5]. }
  assert (Hclose : plan_ok (S k) kk' (close insns st p) ∧ (∀ st', st' ≠ st → Plan.group p st' = None → Plan.group (close insns st p) st' = None)).
  { destruct (close_ok _ _ st p Hp) as [Hc Hn]. split; [apply Hgrow; [done|intros g Eg; by rewrite Hn in Eg]|].
    intros st' Hne Eg. unfold close. destruct (Plan.group p st) as [g|]; [|done]. cbv zeta. cbn [SIMD_ON andb].
    destruct (Group.idxs g) as [|a [|a' l]]; destruct st, st'; (done || cbn in *; congruence). }
  unfold plan_write. destruct (Plan.group p st) as [g|] eqn:Eg.
  2: { split; [apply Hgrow; [done|congruence]|done]. }
  rewrite stride_none. unfold kills in Hgrow.
  destruct (dest_reg s.1.1) as [rd|] eqn:Ed.
  - destruct (negb (rd =? 0) && (Group.base g =? rd)) eqn:Ek; [done|]. split; [|done]. apply Hgrow; [done|].
    intros g' Eg'. assert (g' = g) as -> by congruence. rewrite andb_comm, (Z.eqb_sym rd (Group.base g)). done.
  - split; [|done]. apply Hgrow; [done|]. intros g' _. destruct (mem_access s.1.1); [done|].
    destruct (transparent s.1.1); [done|]. by specialize (Hnone eq_refl eq_refl eq_refl).
Qed.

Lemma plan_ok_ext ka kk kk' p : (∀ st, kk st = kk' st) → plan_ok ka kk p → plan_ok ka kk' p.
Proof.
  intros He [H1 H2 H3 H4 H5]. constructor; try done; intros st; rewrite <- He; [apply H4|apply H5].
Qed.

Lemma plan_from_ok l k p :
  (∀ j, l !! j = insns !! (k + j)%nat) → plan_ok k (λ _, k) p →
  ∃ k', plan_ok k' (λ _, k') (plan_from insns k l p).
Proof.
  revert k p. induction l as [|[[i w] off] l IH]; intros k p Hl Hp; cbn [plan_from]; [by exists k|].
  destruct (_ && _); [by exists k|].
  assert (Es : insns !! k = Some (i, w, off)) by (rewrite <- (Nat.add_0_r k); by rewrite <- Hl).
  destruct (plan_access_ok k _ p Es Hp) as [H1 Hn1]. cbn [fst] in H1, Hn1.
  destruct (plan_write_ok k _ _ false _ Es H1 eq_refl) as [H2 Hn2]; [by intros; apply Hn1|]. cbn [fst] in H2, Hn2.
  destruct (plan_write_ok k _ _ true _ Es H2 eq_refl) as [H3 _]; [intros; apply Hn2; [done|by apply Hn1]|]. cbn [fst] in H3.
  apply IH.
  - intros j. replace (S k + j)%nat with (k + S j)%nat by lia. apply (Hl (S j)).
  - eapply plan_ok_ext; [|exact H3]. by intros [].
Qed.

Lemma plan_groups_ok : ∃ k, plan_ok k (λ _, k) (close insns true (close insns false
  (plan_from insns 0 insns (Plan.mk (replicate (length insns) Solo) None None)))).
Proof.
  destruct (plan_from_ok insns 0 (Plan.mk (replicate (length insns) Solo) None None)) as [k Hk].
  - done.
  - constructor; cbn [Plan.roles]; [by rewrite length_replicate| | |by intros []|lia].
    + intros j role [-> _]%lookup_replicate_1. done.
    + intros j role _ [-> _]%lookup_replicate_1. done.
  - exists k. apply close_ok, close_ok, Hk.
Qed.

Lemma plan_groups_sound j role : plan_groups insns !! j = Some role → role_sound (plan_groups insns) j role.
Proof. destruct plan_groups_ok as [k Hk]. apply (po_sound _ _ _ Hk). Qed.

Lemma plan_groups_length : length (plan_groups insns) = length insns.
Proof. destruct plan_groups_ok as [k Hk]. apply (po_len _ _ _ Hk). Qed.

Lemma roles_of_sound chain j role :
  roles_of chain insns !! j = Some role → role_sound (roles_of chain insns) j role.
Proof.
  unfold roles_of. destruct (_ ≫= _); [apply plan_groups_sound|]. by intros [-> _]%lookup_replicate_1.
Qed.

Lemma roles_of_length chain : length (roles_of chain insns) = length insns.
Proof. unfold roles_of. destruct (_ ≫= _); [apply plan_groups_length|]. apply length_replicate. Qed.

Lemma roles_of_no_tlb chain j role :
  (c ← chain; ChainCfg.tlb c) = None → roles_of chain insns !! j = Some role → role = Solo.
Proof. unfold roles_of. intros ->. by intros [-> _]%lookup_replicate_1. Qed.
End Sound.
