(* ===== verification/WasmTyping.v ===== *)
(** Validation of the emitted WebAssembly, by the algorithm of the
    specification's appendix: a stack of types and a flag for the code behind an
    unconditional transfer of control, where operands are polymorphic.  A
    module validates if its element segment names functions it defines, its
    functions have their declared types, and its exports exist. *)

From S2P Require Import Prelude Types Wasm Jit JitPlan.

#[global] Instance ValType_eq_dec : EqDecision ValType.
Proof. solve_decision. Defined.

Abbreviation FuncType := (list ValType * list ValType)%type.

Module Ctx.
Record t := mk {
  types : list FuncType;
  funcs : list FuncType;
  table : bool;
  locals : list ValType;
  result : list ValType;
}.
End Ctx.

(** Types on the stack, top first, and whether anything may lie below them. *)
Definition Opds : Type := list ValType * bool.

Definition pop (t : ValType) (o : Opds) : option Opds :=
  match o with
  | (t' :: k, u) => if decide (t' = t) then Some (k, u) else None
  | ([], u) => if u then Some ([], u) else None
  end.
Fixpoint pops (ts : list ValType) (o : Opds) : option Opds :=
  match ts with [] => Some o | t :: ts => o' ← pop t o; pops ts o' end.
Definition pushes (ts : list ValType) (o : Opds) : Opds := (ts ++ o.1, o.2).
Definition unreachable : Opds := ([], true).
Definition diverge (o : option Opds) : option Opds := match o with Some _ => Some unreachable | None => None end.

(** Operands, the last on top, and results of an instruction. *)
Definition effect (args res : list ValType) (o : Opds) : option Opds :=
  pushes (rev res) <$> pops (rev args) o.

(** An alignment hint is at most the natural one, an offset a 32-bit number. *)
Definition access_ok (m : MemArg.t) (log2 : Z) : bool :=
  (0 <=? MemArg.align m) && (MemArg.align m <=? log2)
  && (0 <=? MemArg.offset m) && (MemArg.offset m <? 2 ^ 32).
Definition loads (t : ValType) (log2 : Z) (m : MemArg.t) (o : Opds) : option Opds :=
  if access_ok m log2 then effect [TI32] [t] o else None.
Definition stores (t : ValType) (log2 : Z) (m : MemArg.t) (o : Opds) : option Opds :=
  if access_ok m log2 then effect [TI32; t] [] o else None.

Definition block_type (bt : BlockType) : list ValType :=
  match bt with BEmpty => [] | BResult t => [t] end.

(** The types at the end of a block are exactly its results. *)
Definition ends_with (ts : list ValType) (o : Opds) : bool :=
  match pops (rev ts) o with Some ([], _) => true | _ => false end.

Section Validate.
Context (C : Ctx.t).

Definition call_type (ft : option FuncType) (o : Opds) : option Opds :=
  '(args, res) ← ft; effect args res o.
Definition tail_type (ft : option FuncType) (o : Opds) : option Opds :=
  '(args, res) ← ft;
  if decide (res = Ctx.result C) then diverge (pops (rev args) o) else None.
Definition type_at (ti tbl : Z) : option FuncType :=
  if Ctx.table C && (tbl =? 0) && (0 <=? ti) then Ctx.types C !! Z.to_nat ti else None.
Definition func_at (f : Z) : option FuncType :=
  if 0 <=? f then Ctx.funcs C !! Z.to_nat f else None.

Definition check_simple (i : W) (o : Opds) : option Opds :=
  match i with
  | LocalGet x => t ← Ctx.locals C !! x; effect [] [t] o
  | LocalSet x => t ← Ctx.locals C !! x; effect [t] [] o
  | LocalTee x => t ← Ctx.locals C !! x; effect [t] [t] o
  | I32Const _ => effect [] [TI32] o
  | I64Const _ => effect [] [TI64] o
  | I64Add | I64Sub | I64Mul | I64And | I64Or | I64Xor | I64Shl | I64ShrU | I64ShrS =>
      effect [TI64; TI64] [TI64] o
  | I64Eq | I64Ne | I64LtS | I64LtU | I64GeS | I64GeU | I64GtS | I64GtU =>
      effect [TI64; TI64] [TI32] o
  | I32Add | I32Sub | I32Mul | I32And | I32Shl | I32ShrU | I32ShrS | I32Eq | I32Ne | I32LeU =>
      effect [TI32; TI32] [TI32] o
  | I32Eqz => effect [TI32] [TI32] o
  | I32WrapI64 => effect [TI64] [TI32] o
  | I64ExtendI32U | I64ExtendI32S => effect [TI32] [TI64] o
  | I64Extend8S | I64Extend16S | I64Extend32S => effect [TI64] [TI64] o
  | I64Load m => loads TI64 3 m o
  | I64Load8U m => loads TI64 0 m o
  | I64Load16U m => loads TI64 1 m o
  | I64Load32U m => loads TI64 2 m o
  | I32Load m => loads TI32 2 m o
  | I64Store m => stores TI64 3 m o
  | I64Store8 m => stores TI64 0 m o
  | I64Store16 m => stores TI64 1 m o
  | I64Store32 m => stores TI64 2 m o
  | I32Store m => stores TI32 2 m o
  | Drop => match o with (_ :: k, u) => Some (k, u) | ([], u) => if u then Some o else None end
  | Select =>
      match pop TI32 o with
      | Some (t :: k, u) => pushes [t] <$> pop t (k, u)
      | Some ([], u) => if u then Some unreachable else None
      | None => None
      end
  | Call f => call_type (func_at f) o
  | CallIndirect ti tbl => o ← pop TI32 o; call_type (type_at ti tbl) o
  | Return => diverge (pops (rev (Ctx.result C)) o)
  | ReturnCall f => tail_type (func_at f) o
  | ReturnCallIndirect ti tbl => o ← pop TI32 o; tail_type (type_at ti tbl) o
  | I64x2Splat => effect [TI64] [TV128] o
  | V128Store m => stores TV128 4 m o
  | If _ _ _ | Block _ _ | Br _ => None
  end.

Fixpoint check (labels : list (list ValType)) (i : W) (o : Opds) {struct i} : option Opds :=
  let fix seq (labels : list (list ValType)) (c : list W) (o : Opds) : option Opds :=
    match c with [] => Some o | i :: c => o' ← check labels i o; seq labels c o' end in
  let body (bt : BlockType) (c : list W) : option unit :=
    o ← seq (block_type bt :: labels) c ([], false);
    if ends_with (block_type bt) o then Some tt else None in
  match i with
  | If bt t e => o ← pop TI32 o; body bt t;; body bt e;; Some (pushes (block_type bt) o)
  | Block bt b => body bt b;; Some (pushes (block_type bt) o)
  | Br l => ts ← labels !! l; diverge (pops (rev ts) o)
  | i => check_simple i o
  end.

Fixpoint check_seq (labels : list (list ValType)) (c : list W) (o : Opds) : option Opds :=
  match c with [] => Some o | i :: c => o' ← check labels i o; check_seq labels c o' end.

Definition check_block (labels : list (list ValType)) (ts : list ValType) (c : list W) : bool :=
  match check_seq (ts :: labels) c ([], false) with Some o => ends_with ts o | None => false end.
End Validate.

Definition flat_locals (l : list (nat * ValType)) : list ValType :=
  concat ((λ '(n, t), replicate n t) <$> l).

(** A function of a given type, within a module. *)
Definition valid_func (types funcs : list FuncType) (table : bool) (ft : FuncType) (f : Func.t) : bool :=
  check_block (Ctx.mk types funcs table (ft.1 ++ flat_locals (Func.locals f)) ft.2) [] ft.2 (Func.body f).

Definition nth_type (types : list FuncType) (ti : Z) : option FuncType :=
  if 0 <=? ti then types !! Z.to_nat ti else None.
Fixpoint declared (types : list FuncType) (idxs : list Z) : option (list FuncType) :=
  match idxs with
  | [] => Some []
  | ti :: l =>
      match nth_type types ti, declared types l with
      | Some ft, Some fts => Some (ft :: fts)
      | _, _ => None
      end
  end.

Definition valid (m : WModule.t) : bool :=
  match declared (WModule.types m) (WModule.imports m), declared (WModule.types m) (WModule.funcs m) with
  | Some imp, Some defs =>
      let funcs := imp ++ defs in
      let table := match WModule.table m with Some _ => true | None => false end in
      (length defs =? length (WModule.code m))%nat
      && forallb (λ '(ft, f), valid_func (WModule.types m) funcs table ft f) (zip defs (WModule.code m))
      && forallb (λ f, (0 <=? f) && (f <? Z.of_nat (length funcs))) (WModule.exports m)
      && match WModule.elems m with
         | None => true
         | Some (_, l) => table && forallb (λ f, (0 <=? f) && (f <? Z.of_nat (length funcs))) l
         end
  | _, _ => false
  end.

(** * What the compiler emits validates *)

Create HintDb takes.

(** The addresses the host bakes in: 32-bit, with room for the register file. *)
Record cfg_ok (chain : option ChainCfg.t) (fp : option FpCfg.t) : Prop := mk_cfg_ok {
  chain_gen_ok c : chain = Some c → urange 32 (ChainCfg.gen_addr c);
  tlb_gen_ok c t : chain = Some c → ChainCfg.tlb c = Some t → urange 32 (TlbCfg.gen_addr t);
  fp_fs_ok c : fp = Some c → urange 32 (FpCfg.fs_word c);
  fp_regs_ok c : fp = Some c → 0 <= FpCfg.fregs_base c ∧ FpCfg.fregs_base c + 256 <= 2 ^ 32;
}.

Section Emitted.
Context (types funcs : list FuncType) (table : bool).
Context (Htypes : types !! 0%nat = Some ([TI32; TI64], [])).
Context (Hloads : ∀ f, 0 <= f < 4 → funcs !! Z.to_nat f = Some ([TI64; TI64], [TI64])).
Context (Hstores : ∀ f, 4 <= f < 8 → funcs !! Z.to_nat f = Some ([TI64; TI64; TI64], [])).
Context (Hcsr : funcs !! 8%nat = Some ([TI32; TI32; TI32; TI64; TI32; TI64], [])).
Context (Hfp : funcs !! 9%nat = Some ([TI64; TI64; TI64], [])).

Definition block_ctx : Ctx.t :=
  Ctx.mk types funcs table ([TI32; TI64] ++ flat_locals body_locals) [].

(** [c] takes the operands [k] to [k'], whatever encloses it; the innermost
    label but one, which a side exit branches to, takes no operands. *)
Definition takes (c : list W) (k k' : list ValType) : Prop :=
  ∀ labels, check_seq block_ctx labels c (k, false) = Some (k', false).

Lemma check_seq_app labels a b o :
  check_seq block_ctx labels (a ++ b) o
  = o' ← check_seq block_ctx labels a o; check_seq block_ctx labels b o'.
Proof.
  revert o. induction a as [|i a IH]; intros o; [done|]. cbn [app check_seq].
  destruct (check block_ctx labels i o); [apply IH|done].
Qed.

Lemma takes_nil k : takes [] k k.
Proof. done. Qed.

Lemma takes_app a b k k1 k2 : takes a k k1 → takes b k1 k2 → takes (a ++ b) k k2.
Proof. intros Ha Hb labels. rewrite check_seq_app, Ha. apply Hb. Qed.

Lemma takes_cons i c k k1 k2 :
  (∀ labels, check block_ctx labels i (k, false) = Some (k1, false)) → takes c k1 k2 → takes (i :: c) k k2.
Proof. intros Hi Hc labels. cbn [check_seq]. rewrite Hi. apply Hc. Qed.

Lemma check_body_eq labels ts c :
  (o ← (fix seq labels c o := match c with [] => Some o
        | i :: c => o' ← check block_ctx labels i o; seq labels c o' end) (ts :: labels) c ([], false);
   if ends_with ts o then Some tt else None)
  = if check_block block_ctx labels ts c then Some tt else None.
Proof.
  unfold check_block.
  enough (∀ c l o, (fix seq (labels : list (list ValType)) (c : list W) (o : Opds) : option Opds :=
     match c with [] => Some o
        | i :: c => o' ← check block_ctx labels i o; seq labels c o' end) l c o
    = check_seq block_ctx l c o) as -> by (by destruct (check_seq _ _ _ _)).
  clear. intros c. induction c as [|i c IH]; intros l o; [done|]. cbn [check_seq].
  destruct (check block_ctx l i o) as [o'|]; [apply IH|done].
Qed.

Lemma check_if labels bt t e k :
  check_block block_ctx labels (block_type bt) t = true →
  check_block block_ctx labels (block_type bt) e = true →
  check block_ctx labels (If bt t e) (TI32 :: k, false) = Some (block_type bt ++ k, false).
Proof. intros Ht He. cbn [check]. cbn. rewrite !check_body_eq, Ht, He. done. Qed.

Lemma block_takes labels ts c : takes c [] ts → (length ts <= 1)%nat → check_block block_ctx labels ts c = true.
Proof.
  intros Hc Hl. unfold check_block. rewrite Hc. unfold ends_with.
  destruct ts as [|t [|]]; cbn in Hl; [done| |lia]. cbn. by destruct t.
Qed.

Lemma takes_if bt t e k k' :
  takes t [] (block_type bt) → takes e [] (block_type bt) → k' = block_type bt ++ k →
  takes [If bt t e] (TI32 :: k) k'.
Proof.
  intros Ht He -> labels. cbn [check_seq].
  rewrite check_if by (apply block_takes; [done|destruct bt; cbn; lia]). done.
Qed.

(** An arm that leaves the function. *)
Lemma takes_if_leave t k :
  (∀ labels, check_seq block_ctx labels t ([], false) = Some unreachable) →
  takes [If BEmpty t []] (TI32 :: k) k.
Proof.
  intros Ht labels. cbn [check_seq]. rewrite check_if; [done| |done].
  unfold check_block. by rewrite Ht.
Qed.

Lemma access_ok_off off a l :
  urange 32 off → 0 <= a <= l → access_ok (at_ off a) l = true.
Proof. intros [] ?. unfold access_ok. cbn. rewrite !andb_true_iff, !Z.leb_le, Z.ltb_lt. lia. Qed.

Lemma takes_load64 m c k k' :
  access_ok m 3 = true → takes c (TI64 :: k) k' → takes (I64Load m :: c) (TI32 :: k) k'.
Proof. intros Hm. apply takes_cons. intros labels. cbn. unfold loads. by rewrite Hm. Qed.

Lemma takes_load32 m c k k' :
  access_ok m 2 = true → takes c (TI32 :: k) k' → takes (I32Load m :: c) (TI32 :: k) k'.
Proof. intros Hm. apply takes_cons. intros labels. cbn. unfold loads. by rewrite Hm. Qed.

Lemma takes_store64 m c k k' :
  access_ok m 3 = true → takes c k k' → takes (I64Store m :: c) (TI64 :: TI32 :: k) k'.
Proof. intros Hm. apply takes_cons. intros labels. cbn. unfold stores. by rewrite Hm. Qed.

Lemma takes_call_load f c k k' :
  0 <= f < 4 → takes c (TI64 :: k) k' → takes (Call (F_LOAD8U + f) :: c) (TI64 :: TI64 :: k) k'.
Proof.
  intros Hf. apply takes_cons. intros labels. unfold F_LOAD8U. cbn [check check_simple].
  unfold call_type, func_at. rewrite (proj2 (Z.leb_le 0 (0 + f))) by lia. cbn.
  rewrite Hloads by lia. done.
Qed.

Lemma takes_call_store f c k k' :
  0 <= f < 4 → takes c k k' → takes (Call (F_STORE8 + f) :: c) (TI64 :: TI64 :: TI64 :: k) k'.
Proof.
  intros Hf. apply takes_cons. intros labels. unfold F_STORE8. cbn [check check_simple].
  unfold call_type, func_at. rewrite (proj2 (Z.leb_le 0 (4 + f))) by lia. cbn.
  rewrite Hstores by lia. done.
Qed.

(** Straight-line code is followed by computation, calls and accesses at an
    address that is not a constant by their own rules. *)
Ltac straight := intros ?; cbn; reflexivity.
Ltac chk side :=
  lazymatch goal with
  | |- takes [] _ _ => apply takes_nil
  | |- takes (If ?b ?t ?e :: _) _ _ =>
      eapply (takes_app [If b t e]); [eapply takes_if; [chk side|chk side|reflexivity]|chk side]
  | |- takes (Call (F_LOAD8U + _) :: _) _ _ => apply takes_call_load; [side|chk side]
  | |- takes (Call (F_STORE8 + _) :: _) _ _ => apply takes_call_store; [side|chk side]
  | |- takes (?i :: _) _ _ =>
      first [ eapply takes_cons; [straight|chk side]
            | apply takes_load64; [side|chk side] | apply takes_load32; [side|chk side]
            | apply takes_store64; [side|chk side] ]
  | |- takes (_ ++ _) _ _ => eapply takes_app; [chk side|chk side]
  | |- takes (if ?b then _ else _) _ _ => destruct b; chk side
  | |- takes _ _ _ => solve [eauto 3 with takes]
  end.

Lemma takes_bail k : takes bail_if_faulted k k.
Proof.
  unfold bail_if_faulted. eapply takes_cons; [straight|]. eapply takes_cons; [straight|].
  by apply takes_if_leave.
Qed.
#[local] Hint Resolve takes_bail : takes.

Lemma reg_access r : reg r → access_ok (at_ (reg_off r) 3) 3 = true.
Proof. unfold reg, reg_off, urange. intros. apply access_ok_off; unfold urange; lia. Qed.

Lemma takes_get r k : reg r → takes (get_reg r) k (TI64 :: k).
Proof. intros Hr. unfold get_reg. chk ltac:(by apply reg_access). Qed.
#[local] Hint Resolve takes_get : takes.

Lemma takes_set_with r c k :
  reg r → takes c (TI32 :: k) (TI64 :: TI32 :: k) → takes (set_with r c) k k.
Proof. intros Hr Hc. unfold set_with. chk ltac:(by apply reg_access). Qed.

Lemma takes_pc e k : takes (pc e) k (TI64 :: k).
Proof. unfold pc. chk idtac. Qed.
Lemma takes_addr r imm k : reg r → takes (addr r imm) k (TI64 :: k).
Proof. intros. unfold addr. chk idtac. Qed.
Lemma takes_here e x k : takes (here e x) k (TI64 :: k).
Proof. unfold here. chk idtac. Qed.
#[local] Hint Resolve takes_pc takes_addr takes_here : takes.

Lemma takes_csr_op e csr rd src kind val k :
  takes val (TI32 :: TI32 :: TI32 :: k) (TI64 :: TI32 :: TI32 :: TI32 :: k) →
  takes (csr_op e csr rd src kind val) k k.
Proof.
  intros Hv. unfold csr_op. repeat (eapply takes_app; [chk idtac|]).
  eapply takes_app; [|chk idtac]. apply (takes_cons _ _ _ k); [|apply takes_nil].
  intros ?. cbn [check check_simple]. unfold call_type, func_at.
  change (0 <=? F_CSR) with true. change (Z.to_nat F_CSR) with 8%nat. cbn [Ctx.funcs block_ctx]. by rewrite Hcsr.
Qed.

Lemma takes_fp_call e kind r1 r2 arg k : takes (fp_call e kind r1 r2 arg) k k.
Proof.
  unfold fp_call. cbv zeta. repeat (eapply takes_app; [chk idtac|]).
  eapply takes_app; [|chk idtac]. apply (takes_cons _ _ _ k); [|apply takes_nil].
  intros ?. cbn [check check_simple]. unfold call_type, func_at.
  change (0 <=? F_FP) with true. change (Z.to_nat F_FP) with 9%nat. cbn [Ctx.funcs block_ctx]. by rewrite Hfp.
Qed.
#[local] Hint Resolve takes_fp_call : takes.

(** ** Memory accesses *)

(** An emitter whose configuration is well-formed. *)
Record emit_ok (e : Emit.t) : Prop := mk_emit_ok {
  emit_tlb_ok t : Emit.tlb e = Some t → urange 32 (TlbCfg.gen_addr t);
  emit_fp_ok c : Emit.fp e = Some c →
    urange 32 (FpCfg.fs_word c) ∧ 0 <= FpCfg.fregs_base c ∧ FpCfg.fregs_base c + 256 <= 2 ^ 32;
}.

(** The base-2 logarithm of a width. *)
Definition lg (l : Z) : Prop := l = 0 ∨ l = 1 ∨ l = 2 ∨ l = 3.
Definition lg_wide (l : Z) : Prop := l = 2 ∨ l = 3.

Lemma lg_wide_lg l : lg_wide l → lg l.
Proof. unfold lg_wide, lg. lia. Qed.
Lemma lg_call l : lg l → 0 <= l < 4.
Proof. unfold lg. lia. Qed.
#[local] Hint Resolve lg_wide_lg lg_call : takes.

Lemma gen_access a : urange 32 a → access_ok (at_ a 2) 2 = true.
Proof. intros. by apply access_ok_off. Qed.

Lemma freg_access c r :
  0 <= FpCfg.fregs_base c → FpCfg.fregs_base c + 256 <= 2 ^ 32 → reg r →
  access_ok (at_ (FpCfg.fregs_base c + r * 8) 3) 3 = true.
Proof. unfold reg, urange. intros. apply access_ok_off; unfold urange; lia. Qed.

Ltac side := first [solve [eauto 3 with takes] | by apply reg_access | by apply gen_access
                   | by apply freg_access].

Lemma takes_probe t size st k : urange 32 (TlbCfg.gen_addr t) → takes (tlb_probe t size st) k (TI32 :: k).
Proof. intros Ht. unfold tlb_probe. cbv zeta. destruct (1 <? size); chk side. Qed.
Lemma takes_host_addr k : takes tlb_host_addr k (TI32 :: k).
Proof. unfold tlb_host_addr. chk side. Qed.
Lemma takes_group_host_addr (st : bool) k :
  takes (group_host_addr (if st then L_SHOST else L_GHOST)) k (TI32 :: k).
Proof. unfold group_host_addr. destruct st; chk side. Qed.
Lemma takes_group_s k : takes (group_host_addr L_SHOST) k (TI32 :: k).
Proof. exact (takes_group_host_addr true k). Qed.
Lemma takes_group_g k : takes (group_host_addr L_GHOST) k (TI32 :: k).
Proof. exact (takes_group_host_addr false k). Qed.
#[local] Hint Resolve takes_probe takes_host_addr takes_group_s takes_group_g emit_tlb_ok : takes.

Lemma takes_group_probe e st r imm span k : emit_ok e → reg r → takes (group_probe e st r imm span) k k.
Proof.
  intros He Hr. unfold group_probe. destruct (Emit.tlb e) eqn:Et; [|chk side].
  cbv zeta. pose proof (emit_tlb_ok e He _ Et). destruct st; chk side.
Qed.

Lemma takes_load_insn l k : lg l → takes [load_insn l] (TI32 :: k) (TI64 :: k).
Proof. intros [->|[->|[->| ->]]]; chk side. Qed.
Lemma takes_store_insn l k : lg l → takes [store_insn l] (TI64 :: TI32 :: k) k.
Proof. intros [->|[->|[->| ->]]]; chk side. Qed.
Lemma takes_wide_load l k : lg_wide l → takes [wide_load l] (TI32 :: k) (TI64 :: k).
Proof. intros [->| ->]; chk side. Qed.
Lemma takes_wide_store l k : lg_wide l → takes [wide_store l] (TI64 :: TI32 :: k) k.
Proof. intros [->| ->]; chk side. Qed.

Lemma takes_host_load e l k : lg l → takes (host_load e l) k (TI64 :: k).
Proof. intros. unfold host_load. chk side. Qed.
Lemma takes_host_store e l v k :
  lg l → (∀ k, takes v k (TI64 :: k)) → takes (host_store e l v) k k.
Proof. intros Hl Hv. unfold host_store. chk side. Qed.
#[local] Hint Resolve takes_host_load takes_group_probe : takes.

(** The two ways to reach memory: directly, or by calling the host. *)
Lemma takes_load_arms e l a i k :
  lg l → takes [i] [TI32] [TI64] → takes a [] [TI32] →
  takes [If (BResult TI64) (a ++ [i]) (host_load e l)] (TI32 :: k) (TI64 :: k).
Proof.
  intros Hl Hi Ha. eapply takes_if; [|side|reflexivity]. eapply takes_app; [exact Ha|exact Hi].
Qed.
Lemma takes_store_arms e l a v i k :
  lg l → takes [i] [TI64; TI32] [] → takes a [] [TI32] → (∀ k, takes v k (TI64 :: k)) →
  takes [If BEmpty (a ++ v ++ [i]) (host_store e l v)] (TI32 :: k) k.
Proof.
  intros Hl Hi Ha Hv. eapply takes_if; [|by apply takes_host_store|reflexivity].
  eapply takes_app; [exact Ha|]. eapply takes_app; [apply Hv|exact Hi].
Qed.

Lemma takes_probed_load e l i k :
  emit_ok e → lg l → takes [i] [TI32] [TI64] →
  takes match Emit.tlb e with
        | Some c => tlb_probe c (Z.shiftl 1 l) false
                    ++ [If (BResult TI64) (tlb_host_addr ++ [i]) (host_load e l)]
        | None => host_load e l
        end k (TI64 :: k).
Proof.
  intros He Hl Hi. destruct (Emit.tlb e) as [c|] eqn:Et; [|side].
  eapply takes_app; [side|]. apply takes_load_arms; [done..|apply takes_host_addr].
Qed.
Lemma takes_probed_store e l v i k :
  emit_ok e → lg l → takes [i] [TI64; TI32] [] → (∀ k, takes v k (TI64 :: k)) →
  takes match Emit.tlb e with
        | Some c => tlb_probe c (Z.shiftl 1 l) true
                    ++ [If BEmpty (tlb_host_addr ++ v ++ [i]) (host_store e l v)]
        | None => host_store e l v
        end k k.
Proof.
  intros He Hl Hi Hv. destruct (Emit.tlb e) as [c|] eqn:Et; [|by apply takes_host_store].
  eapply takes_app; [side|]. by apply takes_store_arms; [..|apply takes_host_addr|].
Qed.

Lemma takes_lead e st r k : emit_ok e → reg r → takes (lead e st r) k k.
Proof.
  intros He Hr. unfold lead. destruct (Emit.role e) as [|s ? ?| | |]; chk side.
Qed.

Lemma takes_ld e rd rs1 imm l ext k :
  emit_ok e → reg rd → reg rs1 → lg l → (∀ k, takes ext (TI64 :: k) (TI64 :: k)) →
  takes (load e rd rs1 imm l ext) k k.
Proof.
  intros He Hd Hr Hl Hx. unfold load. eapply takes_app; [by apply takes_lead|].
  eapply takes_app; [side|]. eapply takes_app; [chk side|].
  eapply (takes_app _ _ _ (TI64 :: k)).
  - destruct (in_group e false).
    + eapply takes_cons; [straight|]. apply takes_load_arms; [done|by apply takes_load_insn|side].
    + apply takes_probed_load; [done..|by apply takes_load_insn].
  - destruct (rd =? 0); chk side.
Qed.

Lemma takes_st e rs1 rs2 imm l k :
  emit_ok e → reg rs1 → reg rs2 → lg l → takes (store e rs1 rs2 imm l) k k.
Proof.
  intros He Hr Hs Hl. unfold store. eapply takes_app; [by apply takes_lead|].
  eapply takes_app; [side|]. eapply takes_app; [chk side|]. eapply takes_app; [|side].
  destruct (in_group e true).
  - eapply takes_cons; [straight|].
    apply takes_store_arms; [done|by apply takes_store_insn|side|intros; side].
  - apply takes_probed_store; [done..|by apply takes_store_insn|intros; side].
Qed.

(** ** Floating point *)

Lemma takes_fget c r k :
  0 <= FpCfg.fregs_base c → FpCfg.fregs_base c + 256 <= 2 ^ 32 → reg r → takes (fget c r) k (TI64 :: k).
Proof. intros. unfold fget. chk side. Qed.
#[local] Hint Resolve takes_fget : takes.

Section Float.
Context (e : Emit.t) (c : FpCfg.t) (He : emit_ok e).
Context (Hs : urange 32 (FpCfg.fs_word c)) (Hlo : 0 <= FpCfg.fregs_base c)
        (Hhi : FpCfg.fregs_base c + 256 <= 2 ^ 32).

Lemma takes_gated k1 r1 r2 arg inl k : takes inl [] [] → takes (fp_gated e c (k1, r1, r2, arg) inl) k k.
Proof.
  intros Hi. unfold fp_gated. eapply takes_cons; [straight|].
  apply takes_load32; [by apply gen_access|]. eapply takes_if; [exact Hi|side|reflexivity].
Qed.

Lemma takes_fp_load rd rs1 imm l boxed k :
  reg rd → reg rs1 → lg_wide l → takes (fp_load e c rd rs1 imm l boxed) k k.
Proof.
  intros. unfold fp_load. eapply takes_app; [side|]. eapply takes_app; [chk side|].
  eapply takes_app; [apply takes_probed_load; [done|side|by apply takes_wide_load]|].
  destruct boxed; chk side.
Qed.

Lemma takes_fp_store rs1 rs2 imm l k :
  reg rs1 → reg rs2 → lg_wide l → takes (fp_store e c rs1 rs2 imm l) k k.
Proof.
  intros. unfold fp_store. eapply takes_app; [side|]. eapply takes_app; [chk side|].
  eapply takes_app; [apply takes_probed_store; [done|side|by apply takes_wide_store|intros; side]|side].
Qed.

Lemma takes_sgnj kind rd rs1 rs2 k : reg rd → reg rs1 → reg rs2 → takes (fp_sgnj c kind rd rs1 rs2) k k.
Proof. intros. unfold fp_sgnj. cbv zeta. destruct (kind =? 2), (kind =? 1); chk side. Qed.

Lemma takes_mv_x_d rd rs1 k : reg rd → reg rs1 → takes (fp_mv_x_d c rd rs1) k k.
Proof. intros. unfold fp_mv_x_d. chk side. Qed.
Lemma takes_mv_d_x rd rs1 k : reg rd → reg rs1 → takes (fp_mv_d_x c rd rs1) k k.
Proof. intros. unfold fp_mv_d_x. chk side. Qed.
End Float.

(** ** Products, atomics, jumps *)

Lemma takes_mulhu k : takes mulhu_of_scratch k (TI64 :: k).
Proof. unfold mulhu_of_scratch, half. chk side. Qed.
Lemma takes_sign_term (a b : bool) k :
  takes (mulh_sign_term (if a then L_TMP else L_ADDR) (if b then L_TMP else L_ADDR)) (TI64 :: k) (TI64 :: k).
Proof. destruct a, b; unfold mulh_sign_term; chk side. Qed.

Lemma takes_amo_value rs2 word op k : reg rs2 → takes (amo_value rs2 word op) k (TI64 :: k).
Proof. intros. unfold amo_value. cbv zeta. destruct op, word; cbn [andb]; chk side. Qed.

Lemma takes_amo e rd rs1 rs2 l op k :
  emit_ok e → reg rd → reg rs1 → reg rs2 → lg_wide l → takes (amo e rd rs1 rs2 l op) k k.
Proof.
  intros. unfold amo. cbv zeta. eapply takes_app; [side|]. eapply takes_app; [chk side|].
  eapply takes_app; [apply takes_probed_load; [done|side|by apply takes_wide_load]|].
  eapply takes_app; [chk side|]. eapply takes_app; [side|].
  eapply takes_app; [apply takes_probed_store; [done|side|by apply takes_wide_store|]|].
  { intros. by apply takes_amo_value. }
  eapply takes_app; [side|]. destruct (rd =? 0); [chk side|]. destruct (l =? 2); chk side.
Qed.

Lemma takes_next_pc body k : takes body k (TI64 :: k) → takes (set_next_pc body) k k.
Proof. intros Hb. unfold set_next_pc. eapply takes_app; [exact Hb|]. chk side. Qed.

(** A comparison of two operands. *)
Definition compares (cmp : W) : Prop := ∀ k, takes [cmp] (TI64 :: TI64 :: k) (TI32 :: k).

Lemma takes_branch e rs1 rs2 imm width cmp k :
  reg rs1 → reg rs2 → compares cmp → takes (branch e rs1 rs2 imm width cmp) k k.
Proof.
  intros H1 H2 Hc. unfold branch. apply takes_next_pc. eapply takes_app; [chk side|].
  eapply takes_app; [side|]. eapply takes_app; [side|].
  apply (takes_app [cmp] [Select] _ (TI32 :: TI64 :: TI64 :: k)); [apply Hc|chk side].
Qed.

Lemma takes_set_bin rd rs1 second op k :
  reg rd → reg rs1 → (∀ k, takes (second ++ op) (TI64 :: k) (TI64 :: k)) →
  takes (set_bin rd rs1 second op) k k.
Proof.
  intros Hd Hr Ho. unfold set_bin. apply takes_set_with; [done|].
  eapply takes_app; [side|apply Ho].
Qed.

Lemma inline_fp_regs raw k rd rs1 rs2 :
  inline_fp_kind raw = Some (k, rd, rs1, rs2) → reg rd ∧ reg rs1 ∧ reg rs2.
Proof.
  assert (Hm : ∀ n, reg (Z.land n 0x1f)).
  { intros n. unfold reg, urange. change 0x1f with (Z.ones 5). rewrite Z.land_ones by lia.
    apply Z.mod_pos_bound. lia. }
  assert (H0 : reg 0) by (unfold reg, urange; lia).
  unfold inline_fp_kind. cbv zeta. destruct (negb _); [done|]. intros.
  repeat case_match; simplify_eq; done.
Qed.

Lemma takes_high rs1 rs2 signs k :
  reg rs1 → reg rs2 → (∀ k, takes signs (TI64 :: k) (TI64 :: k)) →
  takes (get_reg rs1 ++ [LocalSet L_TMP] ++ get_reg rs2 ++ [LocalSet L_ADDR] ++ mulhu_of_scratch ++ signs)
    k (TI64 :: k).
Proof.
  intros H1 H2 Hs. repeat (eapply takes_app; [chk side|]).
  eapply takes_app; [apply takes_mulhu|apply Hs].
Qed.

Ltac by_high :=
  apply takes_high; [done|done|intros; try apply takes_nil; try eapply takes_app;
                                first [exact (takes_sign_term true false _)
                                      |exact (takes_sign_term false true _)]].

Ltac by_op :=
  lazymatch goal with
  | |- takes (set_bin _ _ _ _) _ _ => apply takes_set_bin; [done|done|intros; chk side]
  | |- takes (set_with _ (_ ++ [LocalSet L_TMP] ++ _)) _ _ =>
      apply takes_set_with; [done|]; by_high
  | |- takes (set_with _ _) _ _ => apply takes_set_with; [done|]; chk side
  | |- takes (load _ _ _ _ _ _) _ _ => apply takes_ld; [done..|unfold lg; lia|intros; chk side]
  | |- takes (store _ _ _ _ _) _ _ => apply takes_st; [done..|unfold lg; lia]
  | |- takes (amo _ _ _ _ _ _) _ _ => apply takes_amo; [done..|unfold lg_wide; lia]
  | |- takes (csr_op _ _ _ _ _ _) _ _ => apply takes_csr_op; chk side
  | |- takes (branch _ _ _ _ _ _) _ _ => apply takes_branch; [done..|intros ?; chk side]
  end.

Lemma takes_ras_off (b : bool) c k : takes (if RAS_ON && b then c else []) k k.
Proof. apply takes_nil. Qed.

Lemma takes_jump_to x k : takes (set_next_pc [LocalGet L_PC; I64Const x; I64Add]) k k.
Proof. apply takes_next_pc. chk side. Qed.

Lemma takes_fp_gate e inl kind r1 rs1 imm k :
  emit_ok e →
  (∀ cf, urange 32 (FpCfg.fs_word cf) → 0 <= FpCfg.fregs_base cf → FpCfg.fregs_base cf + 256 <= 2 ^ 32 →
         takes (inl cf) [] []) →
  takes match Emit.fp e with
        | Some cf => fp_gated e cf (kind, r1, rs1, imm) (inl cf)
        | None => fp_call e kind r1 rs1 imm
        end k k.
Proof.
  intros He Hi. destruct (Emit.fp e) as [cf|] eqn:Ef; [|side].
  destruct (emit_fp_ok e He _ Ef) as (? & ? & ?). apply takes_gated; auto.
Qed.

Lemma takes_fp e raw k : emit_ok e → takes (emit_fp_op e raw) k k.
Proof.
  intros He. unfold emit_fp_op. destruct (Emit.fp e) as [cf|] eqn:Ef; [|side].
  destruct (inline_fp_kind raw) as [[[[kd rd] rs1] rs2]|] eqn:Ek; [|side].
  destruct (emit_fp_ok e He _ Ef) as (? & ? & ?).
  destruct (inline_fp_regs _ _ _ _ _ Ek) as (? & ? & ?). apply takes_gated; [done|].
  destruct (kd <=? 2); [by apply takes_sgnj|].
  destruct (kd =? 3); [by apply takes_mv_x_d|by apply takes_mv_d_x].
Qed.

Lemma takes_emit e i width c k : emit_ok e → instr_wf i → emit e i width = Some c → takes c k k.
Proof.
  intros He Hi Hc. unfold emit in Hc.
  destruct i; cbn [first_of foldr emit_alu emit_alu_w emit_mem emit_fp emit_csr emit_atomic emit_mul emit_jump
      imm_op reg_op word_imm word_reg mul_high] in Hc;
    lazymatch type of Hc with
    | None = _ => discriminate Hc
    | Some _ = _ => apply (inj Some) in Hc as <-
    end; cbn [instr_wf] in Hi; destruct_and?.
  all: try by_op.
  all: try (eapply takes_app; [by_op|by_op]).
  all: try by apply takes_nil.
  all: try by apply takes_fp.
  - eapply takes_app; [apply takes_set_with; [done|side]|].
    eapply takes_app; [apply takes_jump_to|apply takes_ras_off].
  - eapply takes_app; [side|]. eapply takes_app; [chk side|].
    eapply takes_app; [apply takes_set_with; [done|side]|].
    eapply takes_app; [|apply takes_ras_off]. apply takes_next_pc. chk side.
  - apply (takes_fp_gate e (λ c, fp_load e c rd rs1 imm 2 true)); [done|].
    intros. apply takes_fp_load; [done..|unfold lg_wide; lia].
  - apply (takes_fp_gate e (λ c, fp_load e c rd rs1 imm 3 false)); [done|].
    intros. apply takes_fp_load; [done..|unfold lg_wide; lia].
  - apply (takes_fp_gate e (λ c, fp_store e c rs1 rs2 imm 2)); [done|].
    intros. apply takes_fp_store; [done..|unfold lg_wide; lia].
  - apply (takes_fp_gate e (λ c, fp_store e c rs1 rs2 imm 3)); [done|].
    intros. apply takes_fp_store; [done..|unfold lg_wide; lia].
Qed.

(** ** A whole block *)

(** Inside the block the side exits leave, under the labels of that block and
    of the function. *)
Definition inside (c : list W) : Prop :=
  check_seq block_ctx [[]; []] c ([], false) = Some ([], false).

Lemma inside_app a b : inside a → inside b → inside (a ++ b).
Proof. unfold inside. intros Ha Hb. by rewrite check_seq_app, Ha. Qed.
Lemma inside_takes c : takes c [] [] → inside c.
Proof. intros Hc. apply Hc. Qed.

Lemma takes_count n k : takes (count_insns n) k k.
Proof. unfold count_insns. chk side. Qed.

Lemma inside_guard e rs1 rs2 imm width cmp taken count :
  reg rs1 → reg rs2 → compares cmp → inside (branch_guard e rs1 rs2 imm width cmp taken count).
Proof.
  intros H1 H2 Hc. unfold branch_guard, branch_cond. cbv zeta.
  assert (Ht : takes ((get_reg rs1 ++ get_reg rs2 ++ [cmp]) ++ (if taken then [I32Eqz] else [])) [] [TI32]).
  { eapply takes_app; [eapply takes_app; [side|]; eapply takes_app; [side|apply Hc]|].
    destruct taken; chk side. }
  rewrite (app_assoc _ _ [_]). unfold inside. rewrite check_seq_app, Ht. cbn [mbind option_bind check_seq].
  rewrite check_if; [done| |done]. unfold check_block.
  rewrite check_seq_app, takes_jump_to. cbn [mbind option_bind].
  rewrite check_seq_app, takes_count. done.
Qed.

Lemma inside_mid e i width count c :
  emit_ok e → instr_wf i → emit_mid e i width count = Some c → inside c.
Proof.
  intros He Hi Hc.
  destruct i; cbn [emit_mid] in Hc; try discriminate Hc; apply (inj Some) in Hc as <-;
    cbn [instr_wf] in Hi; destruct_and?.
  1: { apply inside_takes. eapply takes_app; [|apply takes_ras_off].
       apply takes_set_with; [done|side]. }
  all: apply inside_guard; [done..|intros ?; chk side].
Qed.

Section Block.
Context (chain : option ChainCfg.t) (fp : option FpCfg.t) (Hcfg : cfg_ok chain fp).

Definition src_wf (s : Src) : Prop := instr_wf s.1.1.

Lemma env_ok off role : emit_ok (env_at chain fp off role).
Proof.
  constructor; cbn.
  - intros t Ht. destruct chain as [c|] eqn:Ec; [|done]. by eapply (tlb_gen_ok _ _ Hcfg).
  - intros c Hc. split; [by eapply (fp_fs_ok _ _ Hcfg)|by eapply (fp_regs_ok _ _ Hcfg)].
Qed.

Lemma inside_emit off role i w c : instr_wf i → emit (env_at chain fp off role) i w = Some c → inside c.
Proof. intros Hi Hc. apply inside_takes. eapply takes_emit; [apply env_ok|done..]. Qed.

Lemma inside_loop l : ∀ roles n code n',
  Forall plain roles → Forall src_wf l → emit_loop chain fp roles n l = (code, n') → inside code.
Proof.
  induction l as [|[[i w] off] l IH]; intros [|r roles] n code n' Hr Hl E;
    try by (cbn in E; simplify_eq; apply inside_takes, takes_nil).
  apply Forall_cons in Hr as [Hr Hrs]. apply Forall_cons in Hl as [Hi Hl]. cbn in Hi.
  assert (Hrest : ∀ c m, inside c →
    (let '(c', n'') := emit_loop chain fp roles m l in (c ++ c', n'')) = (code, n') → inside code).
  { intros c m Hc E'. destruct (emit_loop chain fp roles m l) as [c' n''] eqn:El.
    injection E' as <- <-. apply inside_app; [done|]. by eapply IH. }
  cbn [emit_loop FUSE_ON] in E. cbv zeta in E.
  destruct (is_compilable i) eqn:Hci.
  - assert (Hsame : match emit (env_at chain fp off r) i w with
                    | Some c => let '(c', n'') := emit_loop chain fp roles (n + 1) l in (c ++ c', n'')
                    | None => ([], n) end = (code, n')).
    { destruct r; try done; destruct l, roles; exact E. }
    destruct (emit _ i w) as [c|] eqn:Ee; [|by simplify_eq; apply inside_takes, takes_nil].
    eapply Hrest; [by eapply inside_emit|exact Hsame].
  - destruct (is_terminator i); cbn [negb] in E; [|by simplify_eq; apply inside_takes, takes_nil].
    destruct l as [|s l].
    + destruct (emit _ i w) as [c|] eqn:Ee; simplify_eq; [by eapply inside_emit|].
      apply inside_takes, takes_nil.
    + destruct (emit_mid _ i w _) as [c|] eqn:Ee; [|by simplify_eq; apply inside_takes, takes_nil].
      eapply Hrest; [|exact E]. eapply inside_mid; [apply env_ok|done..].
Qed.

Lemma inside_tail insns n link : inside (body_tail chain fp insns n link).
Proof.
  unfold body_tail. cbv zeta. apply inside_app.
  { destruct (last (take n insns)) as [[[i w] off]|]; [|by apply inside_takes, takes_nil].
    destruct (negb _); apply inside_takes; [apply takes_jump_to|apply takes_nil]. }
  apply inside_app; [apply inside_takes, takes_count|]. done.
Qed.

Lemma takes_budget k : takes budget_left k (TI32 :: k).
Proof. unfold budget_left. chk side. Qed.

Lemma takes_chain e :
  Emit.chain e = chain → (chain ≠ None → table = true) → takes (chain_to_successor e) [] [].
Proof.
  intros He Ht. unfold chain_to_successor. rewrite He. destruct chain as [c|] eqn:Ec; [|chk side].
  pose proof (chain_gen_ok _ _ Hcfg _ eq_refl) as Hg. unfold chain_slot, entry_live.
  eapply takes_app; [chk side|]. eapply takes_app; [chk side|].
  eapply takes_app; [apply takes_budget|]. eapply takes_cons; [straight|].
  apply takes_if_leave. intros labels.
  assert (Hta : type_at block_ctx 0 0 = Some ([TI32; TI64], [])).
  { unfold type_at. cbn [Ctx.table block_ctx]. rewrite Ht by done. exact Htypes. }
  cbn. by rewrite Hta.
Qed.

Lemma body_valid insns link f n :
  (chain ≠ None → table = true) → Forall src_wf insns →
  emit_body chain fp insns link = Some (f, n) →
  valid_func types funcs table ([TI32; TI64], []) f = true.
Proof.
  intros Ht Hw Hb. unfold emit_body in Hb.
  destruct (emit_loop chain fp (roles_of chain insns) 0 insns) as [code m] eqn:El.
  destruct (m =? 0)%nat; [done|]. injection Hb as <- <-.
  assert (Hin : check_block block_ctx [[]] [] (code ++ body_tail chain fp insns m link) = true).
  { assert (Hi : inside (code ++ body_tail chain fp insns m link)).
    2: { unfold check_block. by rewrite Hi. }
    apply inside_app; [|apply inside_tail]. eapply inside_loop; [apply roles_of_plain|done|exact El]. }
  unfold valid_func. cbn [Func.body Func.locals fst snd].
  change (Ctx.mk types funcs table _ _) with block_ctx.
  unfold check_block. cbn [check_seq]. cbn [check]. rewrite check_body_eq.
  change (block_type BEmpty) with (@nil ValType). rewrite Hin. cbn [mbind option_bind].
  cbn. by rewrite (takes_chain (env_at chain fp 0 Solo) eq_refl Ht).
Qed.
End Block.
End Emitted.

(** ** Modules *)

Definition block_type_of : FuncType := ([TI32; TI64], []).

Definition import_types : list FuncType :=
  [([TI64; TI64], [TI64]); ([TI64; TI64], [TI64]); ([TI64; TI64], [TI64]); ([TI64; TI64], [TI64]);
   ([TI64; TI64; TI64], []); ([TI64; TI64; TI64], []); ([TI64; TI64; TI64], []); ([TI64; TI64; TI64], []);
   ([TI32; TI32; TI32; TI64; TI32; TI64], []); ([TI64; TI64; TI64], [])].

Section Modules.
Context (types defs : list FuncType) (table : bool) (Htypes : types !! 0%nat = Some block_type_of).
Context (chain : option ChainCfg.t) (fp : option FpCfg.t) (Hcfg : cfg_ok chain fp).
Context (Htable : chain ≠ None → table = true).

Lemma blocks_declared n l fts :
  declared types l = Some fts →
  declared types (replicate n 0 ++ l) = Some (replicate n block_type_of ++ fts).
Proof.
  intros Hl. induction n as [|n IH]; [done|]. cbn [replicate app declared].
  change (nth_type types 0) with (types !! 0%nat). by rewrite Htypes, IH.
Qed.

Lemma module_body insns link f k :
  Forall src_wf insns → emit_body chain fp insns link = Some (f, k) →
  valid_func types (import_types ++ defs) table block_type_of f = true.
Proof.
  intros. eapply (body_valid _ _ table); try done.
  - intros i Hi. destruct (Z.to_nat i) as [|[|[|[|]]]] eqn:E; try done. lia.
  - intros i Hi. destruct (Z.to_nat i) as [|[|[|[|[|[|[|[|]]]]]]]] eqn:E; try done; lia.
Qed.

Lemma emit_all_bodies runs links bodies covered :
  emit_all chain fp runs links = Some (bodies, covered) →
  length bodies = length runs ∧ length covered = length runs ∧
  ∀ f, Some f ∈ bodies → ∃ run link n, run ∈ runs ∧ emit_body chain fp run link = Some (f, n).
Proof.
  unfold emit_all. cbv zeta. destruct (existsb _ _); [|done]. intros [= <- <-].
  rewrite !length_fmap, !length_imap. split_and!; [done..|].
  intros f Hf. apply list_elem_of_fmap in Hf as ([[g n]|] & [= ->] & Hf).
  apply elem_of_lookup_imap in Hf as (i & run & Hb & Hr).
  exists run, (mjoin (links !! i)), n. split; [by eapply list_elem_of_lookup_2|done].
Qed.

Definition valid_def (fts : FuncType * Func.t) : bool :=
  valid_func types (import_types ++ defs) table fts.1 fts.2.

Lemma emit_code_valid runs links bodies covered :
  Forall (Forall src_wf) runs → emit_all chain fp runs links = Some (bodies, covered) →
  forallb valid_def (zip (replicate (length bodies) block_type_of) (emit_code bodies)) = true.
Proof.
  intros Hw He. apply emit_all_bodies in He as (_ & _ & Hf). unfold emit_code.
  assert (Hb : ∀ b, b ∈ bodies → valid_def (block_type_of, default (Func.mk [] []) b) = true).
  { intros [f|] Hin; [|done]. destruct (Hf f Hin) as (run & link & k & Hr & Hk).
    eapply module_body; [|exact Hk]. rewrite Forall_forall in Hw. by apply Hw. }
  clear Hf. induction bodies as [|b bs IH]; [done|]. cbn.
  rewrite Hb by apply list_elem_of_here. cbn. apply IH. intros. by apply Hb, list_elem_of_further.
Qed.

(** A module over those types whose imports are the common ones. *)
Lemma valid_eq m :
  WModule.types m = types → WModule.imports m = common_imports → take 4 types = common_types →
  declared types (WModule.funcs m) = Some defs →
  (match WModule.table m with Some _ => true | None => false end) = table →
  valid m =
    let inside := λ f, (0 <=? f) && (f <? 10 + Z.of_nat (length defs)) in
    (length defs =? length (WModule.code m))%nat && forallb valid_def (zip defs (WModule.code m))
    && forallb inside (WModule.exports m)
    && match WModule.elems m with None => true | Some (_, l) => table && forallb inside l end.
Proof.
  intros Ht Hi H4 Hd Hb. unfold valid. rewrite Ht, Hi, Hd, Hb.
  assert (declared types common_imports = Some import_types) as ->.
  { rewrite <- (take_drop 4 types), H4. reflexivity. }
  cbv zeta. rewrite length_app. change (length import_types) with 10%nat.
  replace (Z.of_nat (10 + length defs)) with (10 + Z.of_nat (length defs)) by lia.
  do 2 f_equal. f_equal. generalize (zip defs (WModule.code m)). unfold valid_def.
  intros l. induction l as [|[ft f] l IH]; [done|]. cbn [forallb fst snd]. by f_equal.
Qed.
End Modules.

Lemma defined_ok n m :
  Z.of_nat n <= m →
  forallb (λ f, (0 <=? f) && (f <? 10 + m)) (defined_idxs (Z.of_nat n)) = true.
Proof.
  intros Hm. apply forallb_forall. intros f Hf. apply list_elem_of_In in Hf. unfold defined_idxs in Hf.
  apply list_elem_of_fmap in Hf as (k & -> & Hk). apply elem_of_seq in Hk.
  unfold FIRST_DEFINED. rewrite andb_true_iff, Z.leb_le, Z.ltb_lt. lia.
Qed.

(** ** The properties *)

(** C8: every module the compiler builds for the emulator validates: whatever
    the traces, the configuration and the instructions (floating point, CSR
    accesses, atomics and side exits included), each block is a function from
    the register-file address and the program counter to nothing, well-typed
    with its twelve locals and its imports; and the element segment installs
    one function for each trace, in order, including the traces that compiled
    to nothing. *)
Theorem compiled_module_validates runs paddrs chain fp m covered :
  cfg_ok chain fp → Forall (Forall src_wf) runs →
  compile_many_into_table runs paddrs chain fp = Some (m, covered) →
  valid m = true ∧ length (WModule.code m) = length runs ∧ length covered = length runs ∧
  WModule.elems m = Some (GlobalOffset, defined_idxs (Z.of_nat (length runs))).
Proof.
  intros Hc Hw Hm. unfold compile_many_into_table in Hm.
  destruct (emit_all _ _ _ _) as [[bodies cov]|] eqn:Ee; [|done]. injection Hm as <- <-.
  pose proof (emit_all_bodies _ _ _ _ _ _ Ee) as (Hlen & Hlc & _).
  cbn [WModule.code WModule.elems]. unfold emit_code at 2. rewrite length_fmap, <- Hlen.
  split_and!; [|done|by rewrite Hlc|done].
  rewrite (valid_eq common_types (replicate (length bodies) block_type_of) true);
    [|done..|by rewrite <- (app_nil_r (replicate _ 0)), <- (app_nil_r (replicate _ block_type_of)); apply blocks_declared|done].
  cbv zeta. cbn [WModule.code WModule.exports WModule.elems forallb andb]. rewrite !andb_true_iff.
  rewrite !length_replicate. split_and!; try done.
  - unfold emit_code. rewrite length_fmap. apply Nat.eqb_refl.
  - by eapply (emit_code_valid common_types _ true eq_refl chain fp Hc).
  - by apply defined_ok.
Qed.

(** A double-word copy through the inlined TLB, an inlined sign injection, and a
    run that does not compile. *)
Definition sample_chain : ChainCfg.t :=
  ChainCfg.mk 0x10000 0x9000 65536 (Some (TlbCfg.mk 0x20000 0x40000 4096 0x9004)) 0 0 0.
Definition sample_runs : list (list Src) :=
  [[(Ld 5 10 8, 4, 0); (Sd 11 5 0, 4, 4); (Fp 0x22208153, 4, 8); (Bne 5 0 (-12), 4, 12)]; [(Ecall, 4, 0)]].

Lemma compiled_module_validates_witness :
  ∃ m covered, compile_many_into_table sample_runs [0x80001000; 0x80002000] (Some sample_chain)
                 (Some (FpCfg.mk 0x8000 0x9008)) = Some (m, covered)
               ∧ covered = [4; 0] ∧ valid m = true.
Proof.
  eexists _, _. split; [reflexivity|]. split; [reflexivity|].
  eapply (compiled_module_validates sample_runs [0x80001000; 0x80002000] (Some sample_chain)
            (Some (FpCfg.mk 0x8000 0x9008))); [| |reflexivity].
  - split; [intros c [= <-]|intros c t [= <-] [= <-]|intros c [= <-]|intros c [= <-]];
      unfold urange; cbn; lia.
  - repeat constructor; cbn; unfold reg, urange, srange; lia.
Defined.

(** C40: the self-contained module of [compile_many] never validates, for any
    traces: its [dispatch] is declared with type 3, which the CSR import took
    over, and the body of [dispatch] does not have that type.  Declared with
    type 4, where the type meant for it is, the same module validates. *)
Theorem standalone_module_invalid runs fp m covered :
  compile_many runs fp = Some (m, covered) →
  valid m = false ∧
  (cfg_ok None fp → Forall (Forall src_wf) runs →
   valid (WModule.mk (WModule.types m) (WModule.imports m) (replicate (length runs) 0 ++ [4])
            (WModule.table m) (WModule.exports m) (WModule.elems m) (WModule.code m)) = true).
Proof.
  intros Hm. unfold compile_many in Hm.
  destruct (emit_all _ _ _ _) as [[bodies cov]|] eqn:Ee; [|done]. injection Hm as <- <-.
  pose proof (emit_all_bodies _ _ _ _ _ _ Ee) as (Hlen & _).
  set (types := common_types ++ [([TI32; TI32; TI64], [])]).
  set (n := length bodies). set (defs ft := replicate n block_type_of ++ [ft]).
  assert (Hd : ∀ t ft, nth_type types t = Some ft →
    declared types (replicate n 0 ++ [t]) = Some (defs ft)).
  { intros t ft Ht. apply blocks_declared; [done|]. cbn [declared]. by rewrite Ht. }
  set (dispatch := Func.mk [] [LocalGet 1; LocalGet 2; LocalGet 0; CallIndirect 0 0]).
  assert (Hz : ∀ ft, zip (defs ft) (emit_code bodies ++ [dispatch])
                     = zip (replicate n block_type_of) (emit_code bodies) ++ [(ft, dispatch)]).
  { intros ft. unfold defs. rewrite zip_with_app; [done|].
    unfold emit_code. by rewrite length_replicate, length_fmap. }
  split.
  - rewrite (valid_eq types (defs ([TI32; TI32; TI32; TI64; TI32; TI64], [])) true);
      [|done..|by apply Hd|done].
    cbv zeta. cbn [WModule.code]. rewrite Hz, forallb_app. cbn [forallb].
    assert (valid_def types (defs ([TI32; TI32; TI32; TI64; TI32; TI64], [])) true
              ([TI32; TI32; TI32; TI64; TI32; TI64], [], dispatch) = false) as -> by reflexivity.
    by rewrite !andb_false_r.
  - intros Hc Hw. rewrite <- Hlen. fold n.
    rewrite (valid_eq types (defs ([TI32; TI32; TI64], [])) true); [|done..|by apply Hd|done].
    cbv zeta. cbn [WModule.code WModule.exports WModule.elems]. rewrite Hz, forallb_app, !andb_true_iff.
    assert (Hl : length (defs ([TI32; TI32; TI64], [])) = S n).
    { unfold defs. rewrite length_app, length_replicate. cbn. lia. }
    rewrite Hl. split_and!; try done.
    + unfold emit_code. rewrite length_app, length_fmap. fold n. cbn [length]. apply Nat.eqb_eq. lia.
    + by eapply (emit_code_valid types _ true eq_refl None fp Hc).
    + cbn [forallb]. unfold FIRST_DEFINED. rewrite andb_true_r, andb_true_iff, Z.leb_le, Z.ltb_lt. lia.
    + apply defined_ok. lia.
Qed.

(** The harnesses' module for the sample traces. *)
Lemma standalone_module_invalid_witness :
  ∃ m covered, compile_many sample_runs None = Some (m, covered) ∧ valid m = false.
Proof.
  eexists _, _. split; [reflexivity|].
  eapply (standalone_module_invalid sample_runs None). reflexivity.
Defined.
