(* ===== verification/JitHost.v ===== *)
(** What a compiled block relies on of its host, and what its pieces do.

    [JitHost] is the contract between the code the compiler emits and the
    program that runs it: where the register file is, which functions are
    imported, and what a live entry of the inlined TLB promises.  The guest's
    memory is a [Bus] at virtual addresses whose reads and writes answer [None]
    where the access faults; [host_sees m h b] says that the linear memory [m]
    and the host's own state [h] stand for it. *)

From S2P Require Import Prelude Types Cpu Execute Wasm Jit.

(** Imported functions take what the import section declares. *)
#[global] Instance jit_arity : Arity := λ f,
  if f <? F_STORE8 then 2%nat else if f =? F_CSR then 6%nat else 3%nat.

(** Accesses by the base-2 logarithm of their width. *)
Definition lg (l : Z) : Prop := l = 0 ∨ l = 1 ∨ l = 2 ∨ l = 3.
Definition size_of (l : Z) : nat :=
  if l =? 0 then 1 else if l =? 1 then 2 else if l =? 2 then 4 else 8.
Definition bread {B} `{Bus B} (l a : Z) : M B Z :=
  if l =? 0 then read_u8 a else if l =? 1 then read_u16 a
  else if l =? 2 then read_u32 a else read_u64 a.
Definition bwrite {B} `{Bus B} (l a v : Z) : M B unit :=
  if l =? 0 then write_u8 a (as_u8 v) else if l =? 1 then write_u16 a (as_u16 v)
  else if l =? 2 then write_u32 a (as_u32 v) else write_u64 a (as_u64 v).

(** The register file and the four words behind it. *)
Definition WINDOW : Z := 288.

Class JitHost (H B : Type) {BU : Bus B} {IM : Imports H} (chain : option ChainCfg.t) := {
  host_regs : Z;
  host_sees : Lin.t → H → B → Prop;
  host_mapped : bool → Z → Z → B → Prop;
  host_fault_pc : H → Z;

  host_regs_range : 0 <= host_regs ∧ host_regs + WINDOW <= 2 ^ 32;
  host_room m h b : host_sees m h b → host_regs + WINDOW <= Lin.len m;
  host_window m h b k v :
    host_sees m h b → 0 <= k < 36 → host_sees (Lin.poke 8 m (host_regs + 8 * k) v) h b;

  host_loads l a pc m h b :
    lg l → urange 64 a → host_sees m h b → Lin.load 8 m (host_regs + FAULT_OFF) = Some 0 →
    ∃ v m' h', imported (F_LOAD8U + l) [V64 a; V64 pc] m h = Some ([V64 v], m', h') ∧
      match bread l a b with
      | Some (v', b') =>
          v = v' ∧ host_sees m' h' b' ∧
          ∀ k, 0 <= k < 36 → Lin.load 8 m' (host_regs + 8 * k) = Lin.load 8 m (host_regs + 8 * k)
      | None =>
          host_fault_pc h' = pc ∧ host_sees m' h' b ∧
          ∀ k, 0 <= k < 36 → Lin.load 8 m' (host_regs + 8 * k)
                             = Lin.load 8 (Lin.poke 8 m (host_regs + FAULT_OFF) 1) (host_regs + 8 * k)
      end;
  host_stores l a v pc m h b :
    lg l → urange 64 a → host_sees m h b → Lin.load 8 m (host_regs + FAULT_OFF) = Some 0 →
    ∃ m' h', imported (F_STORE8 + l) [V64 a; V64 v; V64 pc] m h = Some ([], m', h') ∧
      match bwrite l a v b with
      | Some (_, b') =>
          host_sees m' h' b' ∧
          ∀ k, 0 <= k < 36 → Lin.load 8 m' (host_regs + 8 * k) = Lin.load 8 m (host_regs + 8 * k)
      | None =>
          host_fault_pc h' = pc ∧ host_sees m' h' b ∧
          ∀ k, 0 <= k < 36 → Lin.load 8 m' (host_regs + 8 * k)
                             = Lin.load 8 (Lin.poke 8 m (host_regs + FAULT_OFF) 1) (host_regs + 8 * k)
      end;

  host_read_range l a b v b' : lg l → bread l a b = Some (v, b') → urange (8 * Z.of_nat (size_of l)) v;

  (* a mapped page: its place in linear memory, direct access, and that guest
     accesses do not unmap it *)
  host_page st vpn page b :
    host_mapped st vpn page b →
    0 <= page ∧ page + 4096 <= 2 ^ 32 ∧ (page + 4096 <= host_regs ∨ host_regs + WINDOW <= page);
  host_direct_load l vpn page off m h b :
    lg l → host_mapped false vpn page b → host_sees m h b →
    0 <= off → off + Z.of_nat (size_of l) <= 4096 →
    ∃ v, Lin.load (size_of l) m (page + off) = Some v ∧ bread l (vpn * 4096 + off) b = Some (v, b);
  host_direct_store l vpn page off v m h b :
    lg l → host_mapped true vpn page b → host_sees m h b →
    0 <= off → off + Z.of_nat (size_of l) <= 4096 →
    page + off + Z.of_nat (size_of l) <= Lin.len m ∧
    ∃ b', bwrite l (vpn * 4096 + off) v b = Some (tt, b') ∧
          host_sees (Lin.poke (size_of l) m (page + off) v) h b';
  host_mapped_read st vpn page l a b v b' :
    host_mapped st vpn page b → bread l a b = Some (v, b') → host_mapped st vpn page b';
  host_mapped_write st vpn page l a v b b' :
    host_mapped st vpn page b → bwrite l a v b = Some (tt, b') → host_mapped st vpn page b';

  (* the tables the generated code reads *)
  host_chain_layout c :
    chain = Some c →
    0 <= ChainCfg.base c ∧ 0 < ChainCfg.entries c ∧
    ChainCfg.base c + CHAIN_ENTRY_BYTES * ChainCfg.entries c <= 2 ^ 32 ∧ 0 <= ChainCfg.gen_addr c;
  host_chain_table c m h b :
    chain = Some c → host_sees m h b →
    ChainCfg.base c + CHAIN_ENTRY_BYTES * ChainCfg.entries c <= Lin.len m ∧
    ChainCfg.gen_addr c + 4 <= Lin.len m;
  host_tlb_layout c t (st : bool) :
    chain = Some c → ChainCfg.tlb c = Some t →
    let base := if st then TlbCfg.write_base t else TlbCfg.read_base t in
    0 <= base ∧ 0 < TlbCfg.entries t ∧ base + TLB_ENTRY_BYTES * TlbCfg.entries t <= 2 ^ 32;
  host_tlb_entry c t (st : bool) i m h b :
    chain = Some c → ChainCfg.tlb c = Some t → host_sees m h b → 0 <= i < TlbCfg.entries t →
    let e := (if st then TlbCfg.write_base t else TlbCfg.read_base t) + i * TLB_ENTRY_BYTES in
    ∃ tag gen page cur,
      Lin.load 8 m e = Some tag ∧ Lin.load 4 m (e + 8) = Some gen ∧
      Lin.load 8 m (e + 16) = Some page ∧ Lin.load 4 m (TlbCfg.gen_addr t) = Some cur ∧
      (gen = cur → host_mapped st tag (as_u32 page) b);
}.

(** * The state of a block *)

Module Loc.
Record t := mk {
  tmp : Z; next : Z; ent : Z; addr : Z; tent : Z;
  ghost : Z; gflag : Z; shost : Z; sflag : Z; fwd : Z;
}.
#[global] Instance eta_loc : Eta t := λ l,
  mk (tmp l) (next l) (ent l) (addr l) (tent l) (ghost l) (gflag l) (shost l) (sflag l) (fwd l).
Definition zero : t := mk 0 0 0 0 0 0 0 0 0 0.
(** The host page and the flag of a direction's group. *)
Definition page (st : bool) (l : t) : Z := if st then shost l else ghost l.
Definition flag (st : bool) (l : t) : Z := if st then sflag l else gflag l.
(** The locals that one instruction hands to the next. *)
Definition groups (l : t) : Z * Z * Z * Z := (ghost l, gflag l, shost l, sflag l).
End Loc.

Section Run.
Context {H B : Type} {BU : Bus B} {IM : Imports H} {chain : option ChainCfg.t} {JH : JitHost H B chain}.
Context (pc0 : Z).
Implicit Types (k : list val) (l : Loc.t) (m : Lin.t) (h : H) (b : B).

Definition locs l : list val :=
  [V32 host_regs; V64 pc0; V64 (Loc.tmp l); V64 (Loc.next l); V32 (Loc.ent l); V64 (Loc.addr l);
   V32 (Loc.tent l); V32 (Loc.ghost l); V32 (Loc.gflag l); V32 (Loc.shost l); V32 (Loc.sflag l);
   V64 (Loc.fwd l)].
Definition stt k l m h : St.t H := St.mk k (locs l) m h.

(** The window holds the words [ws]. *)
Definition slots m (ws : list Z) : Prop :=
  length ws = 36%nat ∧ ∀ i v, ws !! i = Some v → Lin.load 8 m (host_regs + 8 * Z.of_nat i) = Some v.
Definition window (x : list Z) (fault next insns budget : Z) : list Z :=
  x ++ [fault; next; insns; budget].

Lemma slots_load m ws i v : slots m ws → ws !! i = Some v → Lin.load 8 m (host_regs + 8 * Z.of_nat i) = Some v.
Proof. intros [_ Hs]. apply Hs. Qed.

Lemma slots_poke m h b ws i v :
  host_sees m h b → slots m ws → (i < 36)%nat → urange 64 v →
  slots (Lin.poke 8 m (host_regs + 8 * Z.of_nat i) v) (<[i := v]> ws).
Proof.
  intros Hs [Hl Hw] Hi Hv. pose proof (host_room _ _ _ Hs). pose proof host_regs_range.
  unfold WINDOW in *. split; [by rewrite length_insert|]. intros j w Hj.
  destruct (decide (i = j)) as [<-|Hne].
  - rewrite list_lookup_insert_eq in Hj by lia. injection Hj as <-.
    rewrite lin_load_poke by lia. f_equal. by apply wrap_small.
  - rewrite list_lookup_insert_ne in Hj by done. rewrite lin_load_other by lia. by apply Hw.
Qed.

Lemma slots_same m m' ws :
  (∀ i, 0 <= i < 36 → Lin.load 8 m' (host_regs + 8 * i) = Lin.load 8 m (host_regs + 8 * i)) →
  slots m ws → slots m' ws.
Proof.
  intros Hk [Hl Hw]. split; [done|]. intros i v Hi. rewrite Hk; [by apply Hw|].
  apply lookup_lt_Some in Hi. lia.
Qed.

Lemma slots_store m h b ws i v :
  host_sees m h b → slots m ws → (i < 36)%nat →
  Lin.store 8 m (host_regs + 8 * Z.of_nat i) v = Some (Lin.poke 8 m (host_regs + 8 * Z.of_nat i) v).
Proof.
  intros Hs _ Hi. pose proof (host_room _ _ _ Hs). pose proof host_regs_range. unfold WINDOW in *.
  apply lin_store_poke; lia.
Qed.

Lemma sees_poke m h b i v :
  host_sees m h b → (i < 36)%nat → host_sees (Lin.poke 8 m (host_regs + 8 * Z.of_nat i) v) h b.
Proof. intros Hs Hi. apply host_window; [done|lia]. Qed.

End Run.

(** ** Straight-line code

    [wstep] performs the next instruction of a state whose locals are explicit,
    as long as it neither reads memory nor transfers control; what is computed
    stays as the semantics writes it. *)

Ltac wstep :=
  lazymatch goal with
  | |- context [run (?i :: ?c) ?s] =>
      let r := eval cbv beta iota zeta delta
        [exec simple push with_stack with_memory bin64 rel64 bin32 rel32 un64 ext32
         St.stack St.locals St.memory St.host stt locs fmap option_fmap option_map mbind option_bind
         lookup list_lookup insert list_insert length Nat.ltb Nat.leb id
         L_REGS L_PC L_TMP L_NEXT L_ENT L_ADDR L_TENT L_GHOST L_GFLAG L_SHOST L_SFLAG L_VAL
         Loc.tmp Loc.next Loc.ent Loc.addr Loc.tent Loc.ghost Loc.gflag Loc.shost Loc.sflag Loc.fwd]
        in (exec i s) in
      lazymatch r with
      | Some (RNext (St.mk ?k [V32 _; V64 ?p; V64 ?t; V64 ?n; V32 ?e; V64 ?a; V32 ?te; V32 ?g;
                               V32 ?gf; V32 ?sh; V32 ?sf; V64 ?f] ?m ?h)) =>
          rewrite (run_next i c s (stt p k (Loc.mk t n e a te g gf sh sf f) m h) eq_refl)
      end
  end.
Ltac wrun := cbn [app]; repeat wstep.

Section Pieces.
Context {H B : Type} {BU : Bus B} {IM : Imports H} {chain : option ChainCfg.t} {JH : JitHost H B chain}.
Context (pc0 : Z).
Implicit Types (k : list val) (l : Loc.t) (m : Lin.t) (h : H) (b : B) (c : list W).

Lemma run_load64 off al a v c k l m h :
  Lin.load 8 m (a + off) = Some v →
  run (I64Load (at_ off al) :: c) (stt pc0 (V32 a :: k) l m h) = run c (stt pc0 (V64 v :: k) l m h).
Proof. intros E. rewrite run_cons. cbn. by rewrite E. Qed.

Lemma run_load32 off al a v c k l m h :
  Lin.load 4 m (a + off) = Some v →
  run (I32Load (at_ off al) :: c) (stt pc0 (V32 a :: k) l m h) = run c (stt pc0 (V32 v :: k) l m h).
Proof. intros E. rewrite run_cons. cbn. by rewrite E. Qed.

Lemma run_store64 off al a v c k l m h m' :
  Lin.store 8 m (a + off) v = Some m' →
  run (I64Store (at_ off al) :: c) (stt pc0 (V64 v :: V32 a :: k) l m h) = run c (stt pc0 k l m' h).
Proof. intros E. rewrite run_cons. cbn. by rewrite E. Qed.

(** Two-armed conditionals, by the value tested. *)
Lemma run_if bt t e c z k l m h :
  run (If bt t e :: c) (stt pc0 (V32 z :: k) l m h)
  = match (r ← run (if z =? 0 then e else t) (stt pc0 [] l m h); leave bt k r) with
    | Some (RNext s) => run c s
    | r => r
    end.
Proof. rewrite run_cons, (exec_if _ _ _ k z) by done. done. Qed.

Lemma run_get r c k l m h ws x :
  reg r → slots m ws → ws !! Z.to_nat r = Some x → (r = 0 → x = 0) →
  run (get_reg r ++ c) (stt pc0 k l m h) = run c (stt pc0 (V64 x :: k) l m h).
Proof.
  intros Hr Hs Hx H0. unfold get_reg. destruct (Z.eqb_spec r 0) as [E|Hne].
  - by rewrite H0.
  - destruct l. wrun. rewrite (run_load64 _ _ _ x); [done|]. unfold reg_off, reg, urange in *.
    rewrite <- (slots_load _ _ _ _ Hs Hx). f_equal. lia.
Qed.

Lemma run_pc e c k l m h :
  run (pc e ++ c) (stt pc0 k l m h) = run c (stt pc0 (V64 (as_u64 (pc0 + as_u64 (Emit.off e))) :: k) l m h).
Proof. destruct l. unfold pc. by wrun. Qed.

Lemma run_addr r imm c k l m h ws x :
  reg r → slots m ws → ws !! Z.to_nat r = Some x → (r = 0 → x = 0) →
  run (addr r imm ++ c) (stt pc0 k l m h) = run c (stt pc0 (V64 (as_u64 (x + as_u64 imm)) :: k) l m h).
Proof.
  intros. unfold addr. rewrite <- app_assoc, (run_get r _ _ _ _ _ ws x) by done. destruct l. by wrun.
Qed.

(** ** The register file *)

(** The window and the guest's memory are those of the hart [c] and of [b]. *)
Record sim (c : Cpu.t) b (fault next insns budget : Z) m h : Prop := mk_sim {
  sim_slots : slots m (window (Cpu.x c) fault next insns budget);
  sim_sees : host_sees m h b;
  sim_wf : Cpu.wf c;
}.

Lemma window_reg (c : Cpu.t) f n i u r :
  Cpu.wf c → reg r → window (Cpu.x c) f n i u !! Z.to_nat r = Some (Cpu.read_reg c r).
Proof.
  intros Hc Hr. unfold reg, urange in Hr. unfold window.
  rewrite lookup_app_l by (rewrite (Cpu.wf_x_len _ Hc); lia).
  unfold Cpu.read_reg. rewrite Cpu.land31_small by lia. apply list_lookup_lookup_total_lt.
  rewrite (Cpu.wf_x_len _ Hc). lia.
Qed.

Lemma window_word (x : list Z) f n i u j :
  length x = 32%nat → window x f n i u !! (32 + j)%nat = [f; n; i; u] !! j.
Proof. intros Hx. unfold window. rewrite lookup_app_r by lia. f_equal. lia. Qed.

Lemma window_set_word (x : list Z) f n i u j v :
  length x = 32%nat → <[(32 + j)%nat := v]> (window x f n i u) = x ++ <[j := v]> [f; n; i; u].
Proof. intros Hx. unfold window. rewrite <- Hx at 1. by rewrite insert_app_r. Qed.

Lemma window_set_reg (c : Cpu.t) f n i u r v :
  Cpu.wf c → reg r → r ≠ 0 →
  <[Z.to_nat r := v]> (window (Cpu.x c) f n i u) = window (Cpu.x (Cpu.set_reg c r v)) f n i u.
Proof.
  intros Hc Hr Hne. unfold reg, urange in Hr. unfold window, Cpu.set_reg.
  destruct (Z.eqb_spec r 0) as [|_]; [done|]. cbn.
  rewrite insert_app_l; [done|]. rewrite (Cpu.wf_x_len _ Hc). lia.
Qed.

Section State.
Context (cpu : Cpu.t) (b : B) (fault next insns budget : Z) (m : Lin.t) (h : H).
Context (Hsim : sim cpu b fault next insns budget m h).
Let Hslots := sim_slots _ _ _ _ _ _ _ _ Hsim.
Let Hsees := sim_sees _ _ _ _ _ _ _ _ Hsim.
Let Hwf := sim_wf _ _ _ _ _ _ _ _ Hsim.

Lemma load_word j v :
  [fault; next; insns; budget] !! j = Some v →
  Lin.load 8 m (host_regs + (256 + 8 * Z.of_nat j)) = Some v.
Proof.
  intros Hj. rewrite <- (slots_load _ _ (32 + j) v Hslots).
  - f_equal. lia.
  - rewrite window_word; [done|]. apply (Cpu.wf_x_len _ Hwf).
Qed.

Lemma run_get_reg r c k l :
  reg r → run (get_reg r ++ c) (stt pc0 k l m h) = run c (stt pc0 (V64 (Cpu.read_reg cpu r) :: k) l m h).
Proof.
  intros Hr. eapply run_get; [done|exact Hslots|by apply window_reg|].
  intros ->. by apply Cpu.read_reg_0.
Qed.

Lemma run_address r imm c k l :
  reg r →
  run (addr r imm ++ c) (stt pc0 k l m h)
  = run c (stt pc0 (V64 (as_u64 (Cpu.read_reg cpu r + as_u64 imm)) :: k) l m h).
Proof.
  intros Hr. eapply run_addr; [done|exact Hslots|by apply window_reg|].
  intros ->. by apply Cpu.read_reg_0.
Qed.

(** Storing a register, and the words behind the register file. *)
Lemma store_reg r v :
  reg r → r ≠ 0 → urange 64 v →
  ∃ m', Lin.store 8 m (host_regs + reg_off r) v = Some m' ∧
        sim (Cpu.set_reg cpu r v) b fault next insns budget m' h.
Proof.
  intros Hr Hne Hv. assert (Hr' : 0 <= r < 32) by (unfold reg, urange in Hr; lia).
  assert (Hn : (Z.to_nat r < 36)%nat) by lia.
  assert (Hoff : host_regs + reg_off r = host_regs + 8 * Z.of_nat (Z.to_nat r)).
  { unfold reg_off. lia. }
  exists (Lin.poke 8 m (host_regs + 8 * Z.of_nat (Z.to_nat r)) v). rewrite Hoff. split.
  - eapply slots_store; [exact Hsees|exact Hslots|done].
  - constructor; [|by apply sees_poke|by apply Cpu.set_reg_wf].
    rewrite <- window_set_reg by done. by eapply slots_poke.
Qed.

Lemma store_word j v f' n' i' u' :
  (j < 4)%nat → urange 64 v → <[j := v]> [fault; next; insns; budget] = [f'; n'; i'; u'] →
  ∃ m', Lin.store 8 m (host_regs + (256 + 8 * Z.of_nat j)) v = Some m' ∧ sim cpu b f' n' i' u' m' h.
Proof.
  intros Hj Hv E. replace (256 + 8 * Z.of_nat j) with (8 * Z.of_nat (32 + j)) by lia.
  exists (Lin.poke 8 m (host_regs + 8 * Z.of_nat (32 + j)) v). split.
  - eapply slots_store; [exact Hsees|exact Hslots|lia].
  - constructor; [|apply sees_poke; [done|lia]|done].
    unfold window. rewrite <- E, <- window_set_word with (i := insns); [|apply (Cpu.wf_x_len _ Hwf)].
    eapply slots_poke; [exact Hsees|exact Hslots|lia|done].
Qed.

(** The check of the fault word. *)
Lemma run_bail c k l :
  run (bail_if_faulted ++ c) (stt pc0 k l m h)
  = if as_u32 fault =? 0 then run c (stt pc0 k l m h) else Some (RReturn (stt pc0 [] l m h)).
Proof.
  unfold bail_if_faulted. destruct l. cbn [app]. wstep.
  rewrite (run_load32 _ _ _ (as_u32 fault)).
  - rewrite run_if. by destruct (as_u32 fault =? 0).
  - apply lin_load_low. exact (load_word 0 fault eq_refl).
Qed.

(** [body] computes [v] on the stack and touches nothing else that outlives an
    instruction. *)
Definition pushes l (body : list W) (v : Z) : Prop :=
  ∃ l', Loc.groups l' = Loc.groups l ∧
        ∀ k c, run (body ++ c) (stt pc0 k l m h) = run c (stt pc0 (V64 v :: k) l' m h).
End State.
End Pieces.
