(* ===== verification/JitAccess.v ===== *)
(** The memory accesses of a compiled block.

    What the inlined TLB finds is a page the host has mapped; through it, or
    through the host's function, an access does what the bus does.  A lemma
    about emitted code is stated for any continuation [rest] and any claim
    [Post] about the way the function ends. *)

From S2P Require Import Prelude Bits Types Cpu Execute Wasm Jit JitHost.

Lemma land_le_r a b : 0 <= a → 0 <= b → 0 <= Z.land a b <= b.
Proof.
  intros Ha Hb. split; [by apply Z.land_nonneg; left|].
  pose proof (Z.lor_nonneg (Z.land a b) b). 
  rewrite <- (Z.add_0_r (Z.land a b)).
  assert (E : b = Z.land a b + Z.ldiff b a).
  { rewrite Z.add_nocarry_lxor.
    - apply Z.bits_inj'. intros n Hn. rewrite Z.lxor_spec, Z.ldiff_spec, Z.land_spec.
      by destruct (Z.testbit a n), (Z.testbit b n).
    - apply Z.bits_inj'. intros n Hn. rewrite !Z.land_spec, Z.ldiff_spec, Z.bits_0.
      by destruct (Z.testbit a n), (Z.testbit b n). }
  rewrite E at 2. apply Z.add_le_mono_l. apply Z.ldiff_nonneg. by left.
Qed.

Lemma land_FFF x : Z.land x 0xFFF = x mod 4096.
Proof. change 0xFFF with (Z.ones 12). by rewrite Z.land_ones. Qed.

Definition set_tent (te : Z) (l : Loc.t) : Loc.t := l <| Loc.tent := te |>.
Definition set_addr (a : Z) (l : Loc.t) : Loc.t := l <| Loc.addr := a |>.
Definition set_tmp (v : Z) (l : Loc.t) : Loc.t := l <| Loc.tmp := v |>.
Definition set_group (st : bool) (page flag : Z) (l : Loc.t) : Loc.t :=
  if st then l <| Loc.shost := page |> <| Loc.sflag := flag |>
  else l <| Loc.ghost := page |> <| Loc.gflag := flag |>.

Section Access.
Context {H B : Type} {BU : Bus B} {IM : Imports H} {chain : option ChainCfg.t} {JH : JitHost H B chain}.
Context (pc0 : Z).
Implicit Types (k : list val) (l : Loc.t) (m : Lin.t) (h : H) (b : B) (c : list W).

(** ** The inlined TLB *)

Lemma low_index x n : 0 < n → 0 <= Z.land (as_u32 x) (n - 1) < n.
Proof.
  intros Hn. pose proof (wrap_range 32 x ltac:(lia)).
  pose proof (land_le_r (as_u32 x) (n - 1)). unfold urange in *. lia.
Qed.


(** The entry the probe looks at. *)
Definition entry_of t (st : bool) (a : Z) : Z :=
  (if st then TlbCfg.write_base t else TlbCfg.read_base t)
  + Z.land (as_u32 (a / 4096)) (TlbCfg.entries t - 1) * TLB_ENTRY_BYTES.

Lemma entry_word ch t (st : bool) a :
  chain = Some ch → ChainCfg.tlb ch = Some t →
  as_u32
    (as_u32 (as_u32 (Z.land (as_u32 (as_u64 (Z.shiftr a (as_u64 12 mod 64)))) (as_u32 (TlbCfg.entries t - 1)))
             * as_u32 TLB_ENTRY_BYTES)
     + as_u32 (if st then TlbCfg.write_base t else TlbCfg.read_base t))
  = entry_of t st a.
Proof.
  intros Hc Ht. pose proof (host_tlb_layout (JitHost := JH) _ _ st Hc Ht) as (Hb & He & Hfit).
  unfold entry_of, TLB_ENTRY_BYTES in *. pose proof (low_index (a / 4096) _ He).
  set (base := if st then _ else _) in *. set (n := TlbCfg.entries t) in *.
  change (as_u64 12 mod 64) with 12. change (as_u32 32) with 32. rewrite Z.shiftr_div_pow2 by lia.
  change (2 ^ 12) with 4096. rewrite (wrap_wrap_le 32 64) by lia.
  rewrite (wrap_small 32 (n - 1)) by (unfold urange; lia).
  set (i := Z.land _ _) in *.
  rewrite (wrap_small 32 i), (wrap_small 32 (i * 32)), (wrap_small 32 base) by (unfold urange; lia).
  rewrite wrap_small by (unfold urange; lia). lia.
Qed.

Lemma page_number a : urange 64 a → as_u64 (Z.shiftr a (as_u64 12 mod 64)) = a / 4096.
Proof.
  intros Ha. change (as_u64 12 mod 64) with 12. rewrite Z.shiftr_div_pow2 by lia.
  apply wrap_small, urange_div; [done|]. by unfold urange.
Qed.

Lemma page_offset a : as_u32 (Z.land (as_u32 a) (as_u32 0xFFF)) = a mod 4096.
Proof.
  change (as_u32 0xFFF) with 0xFFF. rewrite land_FFF. unfold wrap.
  rewrite (Z.mod_mod_divide a (2 ^ 32) 4096) by (by exists (2 ^ 20)).
  apply Z.mod_small. pose proof (Z.mod_pos_bound a 4096). lia.
Qed.

(** A check in the code: the conjunction of truth values. *)
Lemma land_b2z x y : as_u32 (Z.land (b2z x) (b2z y)) = b2z (x && y).
Proof. by destruct x, y. Qed.

Lemma run_probe ch t st size a m h b l :
  chain = Some ch → ChainCfg.tlb ch = Some t → 1 <= size <= 256 → urange 64 a →
  host_sees m h b → Loc.addr l = a →
  ∃ hit page,
    (∀ k c, run (tlb_probe t size st ++ c) (stt pc0 k l m h)
            = run c (stt pc0 (V32 (b2z hit) :: k) (set_tent (entry_of t st a) l) m h)) ∧
    Lin.load 8 m (entry_of t st a + 16) = Some page ∧
    (hit = true → host_mapped st (a / 4096) (as_u32 page) b ∧ a mod 4096 + size <= 4096).
Proof.
  intros Hc Ht Hsize Ha Hs <-.
  pose proof (host_tlb_layout (JitHost := JH) _ _ st Hc Ht) as (_ & He & _).
  pose proof (low_index (Loc.addr l / 4096) _ He) as Hi.
  destruct (host_tlb_entry _ _ st _ _ _ _ Hc Ht Hs Hi) as (tag & gen & page & cur & Et & Eg & Ep & Ec & Hmap).
  fold (entry_of t st (Loc.addr l)) in Et, Eg, Ep.
  exists ((tag =? Loc.addr l / 4096) && (gen =? cur)
          && (if 1 <? size then Loc.addr l mod 4096 <=? 4096 - size else true)), page.
  split_and!; [|done|].
  - intros k c. unfold tlb_probe. destruct l as [tmp nx en ad tn gh gf sh sf fw].
    cbn [Loc.addr] in *. rewrite <- app_assoc. cbn [app]. do 11 wstep.
    rewrite (entry_word ch) by done. wstep. rewrite (run_load64 _ _ _ _ tag) by (by rewrite Z.add_0_r).
    do 4 wstep. rewrite page_number by done. wstep. rewrite (run_load32 _ _ _ _ gen) by done.
    wstep. rewrite (run_load32 _ _ _ _ cur) by done. do 2 wstep. rewrite land_b2z.
    destruct (1 <? size); [|by rewrite andb_true_r].
    cbn [app]. do 4 wstep. rewrite page_offset. do 3 wstep. rewrite land_b2z.
    rewrite (wrap_small 32 (4096 - size)) by (unfold urange; lia). done.
  - rewrite !andb_true_iff, !Z.eqb_eq. intros [[<- Hg] Ho]. split; [by apply Hmap|].
    destruct (Z.ltb_spec 1 size); [by apply Z.leb_le in Ho; lia|].
    pose proof (Z.mod_pos_bound (Loc.addr l) 4096). lia.
Qed.

(** ** Conditionals that yield *)

Lemma run_if_value z ty t e c k l m h l' m' h' v :
  run (if z =? 0 then e else t) (stt pc0 [] l m h) = Some (RNext (stt pc0 [v] l' m' h')) →
  run (If (BResult ty) t e :: c) (stt pc0 (V32 z :: k) l m h) = run c (stt pc0 (v :: k) l' m' h').
Proof. intros Hr. rewrite run_if. by rewrite Hr. Qed.

Lemma run_if_unit z t e c k l m h l' m' h' :
  run (if z =? 0 then e else t) (stt pc0 [] l m h) = Some (RNext (stt pc0 [] l' m' h')) →
  run (If BEmpty t e :: c) (stt pc0 (V32 z :: k) l m h) = run c (stt pc0 k l' m' h').
Proof. intros Hr. rewrite run_if. by rewrite Hr. Qed.

(** ** Where an access goes *)

Lemma host_place (st : bool) vpn page b a :
  host_mapped st vpn page b → 0 <= a mod 4096 < 4096 → as_u32 (page + a mod 4096) = page + a mod 4096.
Proof.
  intros Hm Ha. destruct (host_page _ _ _ _ Hm) as (? & ? & _). apply wrap_small. unfold urange. lia.
Qed.

Lemma run_tlb_host_addr te page k c l m h :
  Loc.tent l = te → Lin.load 8 m (te + 16) = Some page →
  run (tlb_host_addr ++ c) (stt pc0 k l m h)
  = run c (stt pc0 (V32 (as_u32 (as_u32 page + Loc.addr l mod 4096)) :: k) l m h).
Proof.
  intros <- Hp. unfold tlb_host_addr. destruct l. cbn [app]. wstep.
  rewrite (run_load64 _ _ _ _ page) by done. do 5 wstep. rewrite page_offset. by wstep.
Qed.

Definition host_local (st : bool) : nat := if st then L_SHOST else L_GHOST.
Definition flag_local (st : bool) : nat := if st then L_SFLAG else L_GFLAG.

Lemma run_group_host_addr st k c l m h :
  run (group_host_addr (host_local st) ++ c) (stt pc0 k l m h)
  = run c (stt pc0 (V32 (as_u32 (Loc.page st l + Loc.addr l mod 4096)) :: k) l m h).
Proof.
  unfold group_host_addr. destruct l. cbn [app]. destruct st; cbn [host_local];
    do 5 wstep; rewrite page_offset; by wstep.
Qed.

Lemma run_flag st k c l m h :
  run (LocalGet (flag_local st) :: c) (stt pc0 k l m h) = run c (stt pc0 (V32 (Loc.flag st l) :: k) l m h).
Proof. destruct l. destruct st; cbn [flag_local]; by wstep. Qed.

Lemma page_split a : a = a / 4096 * 4096 + a mod 4096.
Proof. pose proof (Z.div_mod a 4096). lia. Qed.

Lemma run_load_insn n a v k c l m h :
  lg n → Lin.load (size_of n) m a = Some v →
  run (load_insn n :: c) (stt pc0 (V32 a :: k) l m h) = run c (stt pc0 (V64 v :: k) l m h).
Proof.
  intros Hn Hv. rewrite run_cons. destruct Hn as [->|[->|[->| ->]]]; cbn in Hv; cbn -[Lin.load];
    by rewrite Z.add_0_r, Hv.
Qed.

Lemma run_store_insn n a v k c l m h m' :
  lg n → Lin.store (size_of n) m a v = Some m' →
  run (store_insn n :: c) (stt pc0 (V64 v :: V32 a :: k) l m h) = run c (stt pc0 k l m' h).
Proof.
  intros Hn Hv. rewrite run_cons. destruct Hn as [->|[->|[->| ->]]]; cbn in Hv; cbn -[Lin.store];
    by rewrite Z.add_0_r, Hv.
Qed.

(** ** One access *)

Section One.
Context (cpu : Cpu.t) (next insns budget : Z) (e : Emit.t).
Context (Henv : Emit.tlb e = (c ← chain; ChainCfg.tlb c)).

(** The address of the instruction. *)
Definition at_pc : Z := as_u64 (pc0 + as_u64 (Emit.off e)).

Definition loaded b n a v m' h' : Prop :=
  match bread n a b with
  | Some (v', b') => v = v' ∧ sim cpu b' 0 next insns budget m' h'
  | None => sim cpu b 1 next insns budget m' h' ∧ host_fault_pc h' = at_pc
  end.
Definition stored b n a v m' h' : Prop :=
  match bwrite n a v b with
  | Some (_, b') => sim cpu b' 0 next insns budget m' h'
  | None => sim cpu b 1 next insns budget m' h' ∧ host_fault_pc h' = at_pc
  end.

Context (b : B) (m : Lin.t) (h : H).
Context (Hsim : sim cpu b 0 next insns budget m h).
Let Hslots := sim_slots _ _ _ _ _ _ _ _ Hsim.
Let Hsees := sim_sees _ _ _ _ _ _ _ _ Hsim.
Let Hwf := sim_wf _ _ _ _ _ _ _ _ Hsim.

Lemma fault_clear : Lin.load 8 m (host_regs + FAULT_OFF) = Some 0.
Proof. exact (load_word _ _ _ _ _ _ _ _ Hsim 0 0 eq_refl). Qed.

(** What the host leaves of the window. *)
Lemma sim_kept b' m' h' :
  host_sees m' h' b' →
  (∀ i, 0 <= i < 36 → Lin.load 8 m' (host_regs + 8 * i) = Lin.load 8 m (host_regs + 8 * i)) →
  sim cpu b' 0 next insns budget m' h'.
Proof. intros Hs Hk. constructor; [by eapply slots_same|done..]. Qed.

Lemma sim_faulted m' h' :
  host_sees m' h' b →
  (∀ i, 0 <= i < 36 → Lin.load 8 m' (host_regs + 8 * i)
                      = Lin.load 8 (Lin.poke 8 m (host_regs + FAULT_OFF) 1) (host_regs + 8 * i)) →
  sim cpu b 1 next insns budget m' h'.
Proof.
  intros Hs Hk. constructor; [|done..]. eapply slots_same; [exact Hk|].
  pose proof (slots_poke _ _ _ _ 32 1 Hsees Hslots ltac:(lia) ltac:(done)) as Hp.
  change 32%nat with (32 + 0)%nat in Hp. rewrite window_set_word in Hp; [exact Hp|].
  apply (Cpu.wf_x_len _ Hwf).
Qed.

Lemma run_host_load n l :
  lg n → urange 64 (Loc.addr l) →
  ∃ v m' h', (∀ k c, run (host_load e n ++ c) (stt pc0 k l m h) = run c (stt pc0 (V64 v :: k) l m' h'))
             ∧ loaded b n (Loc.addr l) v m' h'.
Proof.
  intros Hn Ha.
  destruct (host_loads n _ at_pc _ _ _ Hn Ha Hsees fault_clear) as (v & m' & h' & Hc & Hr).
  exists v, m', h'. split.
  - intros k c. unfold host_load, pc. destruct l as [tmp nx en ad tn gh gf sh sf fw].
    cbn [Loc.addr] in *. cbn [app]. do 4 wstep. fold at_pc. rewrite run_cons.
    cbn [exec simple]. unfold call_op, stt.
    replace (arity (F_LOAD8U + n)) with 2%nat by (by destruct Hn as [->|[->|[->| ->]]]).
    cbn -[Z.add F_LOAD8U F_STORE8]. rewrite take_0, drop_0. cbn [rev app]. by rewrite Hc.
  - unfold loaded. destruct (bread _ _ _) as [[v' b']|].
    + destruct Hr as (-> & Hs & Hk). split; [done|]. by apply sim_kept.
    + destruct Hr as (Hf & Hs & Hk). split; [|done]. by apply sim_faulted.
Qed.

(** The value of a store is the same at any state that differs in [L_TENT]. *)
Definition yields (value : list W) (v : Z) l : Prop :=
  ∀ te k c, run (value ++ c) (stt pc0 k (set_tent te l) m h) = run c (stt pc0 (V64 v :: k) (set_tent te l) m h).

Lemma run_host_store n value v l te :
  lg n → urange 64 (Loc.addr l) → yields value v l →
  ∃ m' h', (∀ k c, run (host_store e n value ++ c) (stt pc0 k (set_tent te l) m h)
                   = run c (stt pc0 k (set_tent te l) m' h'))
           ∧ stored b n (Loc.addr l) v m' h'.
Proof.
  intros Hn Ha Hv.
  destruct (host_stores n _ v at_pc _ _ _ Hn Ha Hsees fault_clear) as (m' & h' & Hc & Hr).
  exists m', h'. split.
  - intros k c. unfold host_store, pc. rewrite <- !app_assoc.
    pose proof (Hv te) as Hv'. destruct l as [tmp nx en ad tn gh gf sh sf fw].
    cbn [Loc.addr] in *. cbn [app].
    change (set_tent te (Loc.mk tmp nx en ad tn gh gf sh sf fw)) with (Loc.mk tmp nx en ad te gh gf sh sf fw) in *.
    wstep. rewrite Hv'. cbn [app]. do 3 wstep. fold at_pc.
    rewrite run_cons. cbn [exec simple]. unfold call_op, stt.
    replace (arity (F_STORE8 + n)) with 3%nat by (by destruct Hn as [->|[->|[->| ->]]]).
    cbn -[Z.add F_LOAD8U F_STORE8]. rewrite take_0, drop_0. cbn [rev app]. by rewrite Hc.
  - unfold stored. destruct (bwrite _ _ _ _) as [[[] b']|].
    + destruct Hr as (Hs & Hk). by apply sim_kept.
    + destruct Hr as (Hf & Hs & Hk). split; [|done]. by apply sim_faulted.
Qed.

(** Directly, where the page is mapped. *)
Lemma direct_load n a page :
  lg n → host_mapped false (a / 4096) page b → a mod 4096 + Z.of_nat (size_of n) <= 4096 →
  ∃ v, Lin.load (size_of n) m (as_u32 (page + a mod 4096)) = Some v ∧ loaded b n a v m h.
Proof.
  intros Hn Hm Ho. pose proof (Z.mod_pos_bound a 4096 ltac:(lia)) as Hr.
  destruct (host_direct_load n _ _ (a mod 4096) _ _ _ Hn Hm Hsees ltac:(lia) Ho) as (v & Hl & Hb).
  exists v. rewrite (host_place _ _ _ _ _ Hm Hr). split; [done|].
  unfold loaded. rewrite <- page_split in Hb. by rewrite Hb.
Qed.

Lemma direct_store n a page v :
  lg n → host_mapped true (a / 4096) page b → a mod 4096 + Z.of_nat (size_of n) <= 4096 →
  ∃ m', Lin.store (size_of n) m (as_u32 (page + a mod 4096)) v = Some m' ∧ stored b n a v m' h.
Proof.
  intros Hn Hm Ho. pose proof (Z.mod_pos_bound a 4096 ltac:(lia)) as Hr.
  destruct (host_direct_store n _ _ (a mod 4096) v _ _ _ Hn Hm Hsees ltac:(lia) Ho) as (Hi & b' & Hb & Hs).
  destruct (host_page _ _ _ _ Hm) as (Hp & _ & Hd).
  rewrite (host_place _ _ _ _ _ Hm Hr). eexists. split; [apply lin_store_poke; lia|].
  unfold stored. rewrite <- page_split in Hb. rewrite Hb. apply sim_kept; [done|].
  intros i Hi'. apply lin_load_other. unfold WINDOW in Hd. lia.
Qed.

Lemma size_of_shift n : lg n → Z.shiftl 1 n = Z.of_nat (size_of n).
Proof. by intros [->|[->|[->| ->]]]. Qed.
Lemma size_of_range n : lg n → 1 <= Z.of_nat (size_of n) <= 8.
Proof. by intros [->|[->|[->| ->]]]. Qed.

(** The code ends where its list does. *)
Lemma run_whole c s s' : (∀ r, run (c ++ r) s = run r s') → run c s = Some (RNext s').
Proof. intros Hr. specialize (Hr []). by rewrite app_nil_r in Hr. Qed.

Lemma run_probed_load t n l :
  Emit.tlb e = Some t → lg n → urange 64 (Loc.addr l) →
  ∃ v m' h', (∀ k c,
      run (tlb_probe t (Z.shiftl 1 n) false
           ++ If (BResult TI64) (tlb_host_addr ++ [load_insn n]) (host_load e n) :: c) (stt pc0 k l m h)
      = run c (stt pc0 (V64 v :: k) (set_tent (entry_of t false (Loc.addr l)) l) m' h'))
    ∧ loaded b n (Loc.addr l) v m' h'.
Proof.
  intros Ht Hn Ha. rewrite Henv in Ht. apply bind_Some in Ht as (ch & Hch & Ht).
  rewrite size_of_shift by done. pose proof (size_of_range n Hn).
  destruct (run_probe ch t false (Z.of_nat (size_of n)) _ m h b l Hch Ht ltac:(lia) Ha Hsees eq_refl)
    as (hit & page & Hrun & Hp & Hhit).
  set (l' := set_tent _ l) in *.
  assert (Hl' : Loc.addr l' = Loc.addr l) by done.
  destruct hit.
  - destruct (Hhit eq_refl) as [Hm Ho].
    destruct (direct_load n _ _ Hn Hm Ho) as (v & Hv & Hl). exists v, m, h. split; [|done].
    intros k c. rewrite Hrun. eapply run_if_value, run_whole. intros r. cbn [Z.eqb b2z].
    rewrite <- app_assoc, (run_tlb_host_addr _ page) by done. cbn [app]. by apply run_load_insn.
  - destruct (run_host_load n l' Hn Ha) as (v & m' & h' & Hv & Hl).
    exists v, m', h'. split; [|done]. intros k c. rewrite Hrun.
    eapply run_if_value, run_whole. intros r. cbn [Z.eqb b2z]. apply Hv.
Qed.

Lemma run_probed_store t n value v l :
  Emit.tlb e = Some t → lg n → urange 64 (Loc.addr l) → yields value v l →
  ∃ m' h', (∀ k c,
      run (tlb_probe t (Z.shiftl 1 n) true
           ++ If BEmpty (tlb_host_addr ++ value ++ [store_insn n]) (host_store e n value) :: c) (stt pc0 k l m h)
      = run c (stt pc0 k (set_tent (entry_of t true (Loc.addr l)) l) m' h'))
    ∧ stored b n (Loc.addr l) v m' h'.
Proof.
  intros Ht Hn Ha Hv. rewrite Henv in Ht. apply bind_Some in Ht as (ch & Hch & Ht).
  rewrite size_of_shift by done. pose proof (size_of_range n Hn).
  destruct (run_probe ch t true (Z.of_nat (size_of n)) _ m h b l Hch Ht ltac:(lia) Ha Hsees eq_refl)
    as (hit & page & Hrun & Hp & Hhit).
  set (te := entry_of _ _ _) in *.
  destruct hit.
  - destruct (Hhit eq_refl) as [Hm Ho].
    destruct (direct_store n _ _ v Hn Hm Ho) as (m' & Hs & Hl). exists m', h. split; [|done].
    intros k c. rewrite Hrun. eapply run_if_unit, run_whole. intros r. cbn [Z.eqb b2z].
    rewrite <- !app_assoc, (run_tlb_host_addr _ page) by done. rewrite (Hv te). cbn [app].
    by apply run_store_insn.
  - destruct (run_host_store n value v l te Hn Ha Hv) as (m' & h' & Hr & Hl).
    exists m', h'. split; [|done]. intros k c. rewrite Hrun.
    eapply run_if_unit, run_whole. intros r. cbn [Z.eqb b2z]. apply Hr.
Qed.

Lemma run_load_value n l :
  lg n → urange 64 (Loc.addr l) →
  ∃ te v m' h', (∀ k c, run (load_value e n ++ c) (stt pc0 k l m h)
                        = run c (stt pc0 (V64 v :: k) (set_tent te l) m' h'))
                ∧ loaded b n (Loc.addr l) v m' h'.
Proof.
  intros Hn Ha. unfold load_value. case_eq (Emit.tlb e); [intros t Ht|intros Ht].
  - destruct (run_probed_load t n l Ht Hn Ha) as (v & m' & h' & Hr & Hl).
    exists (entry_of t false (Loc.addr l)), v, m', h'. split; [|done]. intros k c. rewrite <- app_assoc. apply Hr.
  - destruct (run_host_load n l Hn Ha) as (v & m' & h' & Hr & Hl).
    exists (Loc.tent l), v, m', h'. split; [|done]. intros k c. rewrite Hr. by destruct l.
Qed.

(** ** Groups *)

(** What the flag of a group promises: the window of [span] bytes at [mn] from
    the base register lies within the mapped page. *)
Definition led (st : bool) (base mn span page flag : Z) (c : Cpu.t) b0 : Prop :=
  flag ≠ 0 →
  let a := as_u64 (Cpu.read_reg c base + as_u64 mn) in
  host_mapped st (a / 4096) page b0 ∧ a mod 4096 + span <= 4096.

Lemma in_window x mn span imm size :
  mn <= imm → imm + size <= mn + span → 0 < size →
  as_u64 (x + as_u64 mn) mod 4096 + span <= 4096 →
  let a := as_u64 (x + as_u64 imm) in
  a / 4096 = as_u64 (x + as_u64 mn) / 4096 ∧ a mod 4096 + size <= 4096.
Proof.
  intros Hlo Hhi Hs Hp.
  rewrite !wrap_add_r in * by lia. set (p := as_u64 (x + mn)) in *.
  assert (E : as_u64 (x + imm) = p + (imm - mn)).
  { unfold p. replace (x + imm) with (x + mn + (imm - mn)) by lia. rewrite <- wrap_add_l by lia. fold p.
    pose proof (wrap_range 64 (x + mn) ltac:(lia)) as Hr. fold p in Hr. unfold urange in Hr.
    pose proof (page_split p). pose proof (Z.mod_pos_bound p 4096).
    assert (p / 4096 < 2 ^ 52) by (apply Z.div_lt_upper_bound; lia).
    apply wrap_small. unfold urange. lia. }
  cbv zeta. rewrite E. pose proof (page_split p) as Hps. pose proof (Z.mod_pos_bound p 4096 ltac:(lia)).
  assert (Hq : (p + (imm - mn)) = p / 4096 * 4096 + (p mod 4096 + (imm - mn))) by lia.
  rewrite Hq, Z.add_comm, Z.div_add, Z.mod_add, Z.div_small, Z.mod_small by lia. lia.
Qed.

Lemma group_reach st base mn span page flag b0 imm n :
  led st base mn span page flag cpu b0 → lg n → flag ≠ 0 → mn <= imm → imm + Z.of_nat (size_of n) <= mn + span →
  let a := as_u64 (Cpu.read_reg cpu base + as_u64 imm) in
  host_mapped st (a / 4096) page b0 ∧ a mod 4096 + Z.of_nat (size_of n) <= 4096.
Proof.
  intros Hl Hn Hf Hlo Hhi. destruct (Hl Hf) as [Hm Ho]. pose proof (size_of_range n Hn).
  destruct (in_window _ _ _ _ _ Hlo Hhi ltac:(lia) Ho) as [E Hi]. cbv zeta. by rewrite E.
Qed.

Definition same_group (st : bool) l l' : Prop := Loc.page st l' = Loc.page st l ∧ Loc.flag st l' = Loc.flag st l.

Lemma run_group_probe t st rs1 mn span l :
  Emit.tlb e = Some t → reg rs1 → 1 <= span <= 256 →
  ∃ l', (∀ c, run (group_probe e st rs1 mn span ++ c) (stt pc0 [] l m h) = run c (stt pc0 [] l' m h)) ∧
        led st rs1 mn span (Loc.page st l') (Loc.flag st l') cpu b ∧ same_group (negb st) l l'.
Proof.
  intros Ht Hr Hs. set (a := as_u64 (Cpu.read_reg cpu rs1 + as_u64 mn)).
  assert (Ha : urange 64 a) by (apply wrap_range; lia).
  assert (Ht' := Ht). rewrite Henv in Ht'. apply bind_Some in Ht' as (ch & Hch & Ht').
  destruct (run_probe ch t st span a m h b (set_addr a l) Hch Ht' Hs Ha Hsees eq_refl)
    as (hit & page & Hrun & Hp & Hhit).
  exists (if hit then set_group st (as_u32 page) 1 (set_tent (entry_of t st a) (set_addr a l))
          else set_group st (Loc.page st l) 0 (set_tent (entry_of t st a) (set_addr a l))).
  split_and!.
  - intros c. unfold group_probe. rewrite Ht. rewrite <- !app_assoc.
    rewrite (run_address _ _ _ _ _ _ _ _ _ Hsim) by done. fold a.
    transitivity (run (tlb_probe t span st
      ++ [If (BResult TI32)
            [LocalGet L_TENT; I64Load (at_ 16 3); I32WrapI64; LocalSet (host_local st); I32Const 1]
            [I32Const 0]; LocalSet (flag_local st)] ++ c) (stt pc0 [] (set_addr a l) m h)).
    { destruct l. cbn [app]. by wstep. }
    rewrite Hrun. cbn [app]. set (te := entry_of t st a) in *.
    destruct hit.
    + erewrite run_if_value;
        [|apply run_whole with (s' := stt pc0 [V32 1] (set_group st (as_u32 page) (Loc.flag st l) (set_tent te (set_addr a l))) m h)].
      * destruct l, st; cbn [flag_local]; by wstep.
      * intros r. cbn [b2z Z.eqb app]. destruct l. cbn [app].
        change (set_tent te (set_addr a (Loc.mk tmp next0 ent addr tent ghost gflag shost sflag fwd)))
          with (Loc.mk tmp next0 ent a te ghost gflag shost sflag fwd).
        wstep. rewrite (run_load64 _ _ _ _ page) by done. wstep. destruct st; cbn [host_local]; by do 2 wstep.
    + erewrite run_if_value; [|by apply run_whole with (s' := stt pc0 [V32 0] (set_tent te (set_addr a l)) m h)].
      destruct l, st; cbn [flag_local]; by wstep.
  - destruct hit; destruct st; cbn; intros Hf; (done || by apply Hhit).
  - by destruct hit, st, l.
Qed.

Lemma run_grouped_load n l :
  lg n → urange 64 (Loc.addr l) →
  (Loc.flag false l ≠ 0 → host_mapped false (Loc.addr l / 4096) (Loc.page false l) b
                          ∧ Loc.addr l mod 4096 + Z.of_nat (size_of n) <= 4096) →
  ∃ v m' h', (∀ k c,
      run (LocalGet L_GFLAG :: If (BResult TI64) (group_host_addr L_GHOST ++ [load_insn n]) (host_load e n) :: c)
        (stt pc0 k l m h) = run c (stt pc0 (V64 v :: k) l m' h'))
    ∧ loaded b n (Loc.addr l) v m' h'.
Proof.
  intros Hn Ha Hg. destruct (Z.eqb_spec (Loc.flag false l) 0) as [Hf|Hf].
  - destruct (run_host_load n l Hn Ha) as (v & m' & h' & Hr & Hl). exists v, m', h'. split; [|done].
    intros k c. rewrite (run_flag false), Hf. apply run_if_value, run_whole. intros r. apply Hr.
  - destruct (Hg Hf) as [Hm Ho]. destruct (direct_load n _ _ Hn Hm Ho) as (v & Hv & Hl).
    exists v, m, h. split; [|done]. intros k c. rewrite (run_flag false).
    apply run_if_value, run_whole. intros r. rewrite (proj2 (Z.eqb_neq _ _) Hf).
    rewrite <- app_assoc, (run_group_host_addr false). by apply run_load_insn.
Qed.

Lemma run_grouped_store n value v l :
  lg n → urange 64 (Loc.addr l) → yields value v l →
  (Loc.flag true l ≠ 0 → host_mapped true (Loc.addr l / 4096) (Loc.page true l) b
                         ∧ Loc.addr l mod 4096 + Z.of_nat (size_of n) <= 4096) →
  ∃ m' h', (∀ k c,
      run (LocalGet L_SFLAG :: If BEmpty (group_host_addr L_SHOST ++ value ++ [store_insn n]) (host_store e n value) :: c)
        (stt pc0 k l m h) = run c (stt pc0 k l m' h'))
    ∧ stored b n (Loc.addr l) v m' h'.
Proof.
  intros Hn Ha Hv Hg. destruct (Z.eqb_spec (Loc.flag true l) 0) as [Hf|Hf].
  - destruct (run_host_store n value v l (Loc.tent l) Hn Ha Hv) as (m' & h' & Hr & Hl). exists m', h'. split; [|done].
    intros k c. rewrite (run_flag true), Hf. apply run_if_unit, run_whole. intros r.
    specialize (Hr [] r). by destruct l.
  - destruct (Hg Hf) as [Hm Ho]. destruct (direct_store n _ _ v Hn Hm Ho) as (m' & Hs & Hl).
    exists m', h. split; [|done]. intros k c. rewrite (run_flag true).
    apply run_if_unit, run_whole. intros r. rewrite (proj2 (Z.eqb_neq _ _) Hf).
    rewrite <- !app_assoc, (run_group_host_addr true).
    assert (E : l = set_tent (Loc.tent l) l) by (by destruct l). rewrite E, (Hv (Loc.tent l)).
    cbn [app]. by apply run_store_insn.
Qed.

(** ** The accesses of an instruction, with its part in a group *)

Definition role_fits (st : bool) (rs1 imm size : Z) l : Prop :=
  (Emit.tlb e = None → Emit.role e = Solo) ∧
  match Emit.role e with
  | Solo => True
  | Leader s mn span => s = st ∧ mn <= imm ∧ imm + size <= mn + span ∧ span <= 256
  | Member s => s = st ∧ ∃ mn span, mn <= imm ∧ imm + size <= mn + span
                          ∧ led st rs1 mn span (Loc.page st l) (Loc.flag st l) cpu b
  | _ => False
  end.

(** What becomes of the groups: a leader sets up its own. *)
Definition carried (rs1 : Z) l l' : Prop := ∀ st,
  match Emit.role e with
  | Leader s mn span =>
      if Bool.eqb s st then led st rs1 mn span (Loc.page st l') (Loc.flag st l') cpu b else same_group st l l'
  | _ => same_group st l l'
  end.

Definition head_of (st : bool) (rs1 imm : Z) : list W := lead e st rs1 ++ addr rs1 imm ++ [LocalSet L_ADDR].

Lemma run_head st rs1 imm size l :
  reg rs1 → 1 <= size → role_fits st rs1 imm size l →
  let a := as_u64 (Cpu.read_reg cpu rs1 + as_u64 imm) in
  ∃ l', (∀ c, run (head_of st rs1 imm ++ c) (stt pc0 [] l m h) = run c (stt pc0 [] l' m h)) ∧
        Loc.addr l' = a ∧ carried rs1 l l' ∧
        (in_group e st = true → ∃ mn span, mn <= imm ∧ imm + size <= mn + span
                          ∧ led st rs1 mn span (Loc.page st l') (Loc.flag st l') cpu b).
Proof.
  intros Hr Hs [Ht Hrole]. cbv zeta. set (a := as_u64 _).
  assert (Haddr : ∀ l c, run (addr rs1 imm ++ LocalSet L_ADDR :: c) (stt pc0 [] l m h)
                         = run c (stt pc0 [] (set_addr a l) m h)).
  { intros l0 c. rewrite (run_address _ _ _ _ _ _ _ _ _ Hsim) by done. fold a. destruct l0. by wstep. }
  unfold head_of, lead, carried, in_group in *.
  case_eq (Emit.role e); [intros Er|intros s mn span Er|intros s Er|intros ??? Er|intros Er];
    rewrite Er in Hrole, Ht; try done.
  - exists (set_addr a l). split_and!; [intros c; rewrite <- !app_assoc; apply Haddr|done|by intros []|by destruct (Emit.tlb e)].
  - destruct Hrole as (-> & Hlo & Hhi & Hsp). rewrite Bool.eqb_reflx.
    case_eq (Emit.tlb e); [intros t Et|intros Et; by specialize (Ht Et)].
    destruct (run_group_probe t st rs1 mn span l Et Hr ltac:(lia)) as (l' & Hrun & Hled & Hsame).
    exists (set_addr a l'). split_and!.
    + intros c. rewrite <- !app_assoc. rewrite Hrun. apply Haddr.
    + done.
    + intros st'. destruct (Bool.eqb_spec st st') as [<-|Hne]; [by destruct st|].
      replace st' with (negb st) by (by destruct st, st'). by destruct st.
    + intros _. exists mn, span. by destruct st.
  - destruct Hrole as (-> & Hm). exists (set_addr a l). split_and!; [intros c; rewrite <- !app_assoc; apply Haddr|done|by intros []|].
    intros _. by destruct st.
Qed.

Lemma carried_ext rs1 l l1 l2 : Loc.groups l1 = Loc.groups l2 → carried rs1 l l1 → carried rs1 l l2.
Proof.
  intros Hg Hc st. specialize (Hc st). destruct l1, l2. injection Hg as -> -> -> ->.
  destruct (Emit.role e); exact Hc.
Qed.

Lemma run_load_access rs1 imm n l :
  reg rs1 → lg n → role_fits false rs1 imm (Z.of_nat (size_of n)) l →
  let a := as_u64 (Cpu.read_reg cpu rs1 + as_u64 imm) in
  ∃ v l' m' h', (∀ c,
      run (head_of false rs1 imm
           ++ (if in_group e false then
                 [LocalGet L_GFLAG;
                  If (BResult TI64) (group_host_addr L_GHOST ++ [load_insn n]) (host_load e n)]
               else load_value e n) ++ c) (stt pc0 [] l m h)
      = run c (stt pc0 [V64 v] l' m' h'))
    ∧ loaded b n a v m' h' ∧ carried rs1 l l'.
Proof.
  intros Hr Hn Hrole. cbv zeta. pose proof (size_of_range n Hn).
  destruct (run_head false rs1 imm (Z.of_nat (size_of n)) l Hr ltac:(lia) Hrole) as (l1 & Hrun & Ha & Hc & Hg).
  assert (Ha' : urange 64 (Loc.addr l1)) by (rewrite Ha; apply wrap_range; lia).
  rewrite <- Ha. case_eq (in_group e false); intros Hin.
  - destruct (run_grouped_load n l1 Hn Ha') as (v & m' & h' & Hr' & Hl).
    { intros Hf. destruct (Hg Hin) as (mn & span & Hlo & Hhi & Hled). rewrite Ha. by eapply group_reach. }
    exists v, l1, m', h'. split_and!; [|done..]. intros c. rewrite Hrun. apply Hr'.
  - destruct (run_load_value n l1 Hn Ha') as (te & v & m' & h' & Hr' & Hl).
    exists v, (set_tent te l1), m', h'. split_and!; [|done|by eapply carried_ext, Hc].
    intros c. rewrite Hrun. apply Hr'.
Qed.

Lemma get_reg_yields r l : reg r → yields (get_reg r) (Cpu.read_reg cpu r) l.
Proof. intros Hr te k c. by apply (run_get_reg _ _ _ _ _ _ _ _ _ Hsim). Qed.

Lemma run_store_access rs1 rs2 imm n l :
  reg rs1 → reg rs2 → lg n → role_fits true rs1 imm (Z.of_nat (size_of n)) l →
  let a := as_u64 (Cpu.read_reg cpu rs1 + as_u64 imm) in
  ∃ l' m' h', (∀ c,
      run (head_of true rs1 imm
           ++ (if in_group e true then
                 [LocalGet L_SFLAG;
                  If BEmpty (group_host_addr L_SHOST ++ get_reg rs2 ++ [store_insn n])
                    (host_store e n (get_reg rs2))]
               else store_value e rs2 n) ++ c) (stt pc0 [] l m h)
      = run c (stt pc0 [] l' m' h'))
    ∧ stored b n a (Cpu.read_reg cpu rs2) m' h' ∧ carried rs1 l l'.
Proof.
  intros Hr Hr2 Hn Hrole. cbv zeta. pose proof (size_of_range n Hn).
  destruct (run_head true rs1 imm (Z.of_nat (size_of n)) l Hr ltac:(lia) Hrole) as (l1 & Hrun & Ha & Hc & Hg).
  assert (Ha' : urange 64 (Loc.addr l1)) by (rewrite Ha; apply wrap_range; lia).
  pose proof (get_reg_yields rs2 l1 Hr2) as Hy.
  rewrite <- Ha. case_eq (in_group e true); intros Hin.
  - destruct (run_grouped_store n _ _ l1 Hn Ha' Hy) as (m' & h' & Hr' & Hl).
    { intros Hf. destruct (Hg Hin) as (mn & span & Hlo & Hhi & Hled). rewrite Ha. by eapply group_reach. }
    exists l1, m', h'. split_and!; [|done..]. intros c. rewrite Hrun. apply Hr'.
  - unfold store_value. case_eq (Emit.tlb e); [intros t Ht|intros Ht].
    + destruct (run_probed_store t n _ _ l1 Ht Hn Ha' Hy) as (m' & h' & Hr' & Hl).
      exists (set_tent (entry_of t true (Loc.addr l1)) l1), m', h'. split_and!; [|done|by eapply carried_ext, Hc].
      intros c. rewrite Hrun, <- app_assoc. apply Hr'.
    + destruct (run_host_store n _ _ l1 (Loc.tent l1) Hn Ha' Hy) as (m' & h' & Hr' & Hl).
      exists l1, m', h'. split_and!; [|done|done].
      intros c. rewrite Hrun. specialize (Hr' [] c). by destruct l1.
Qed.
End One.

(** ** Loads and stores *)

Section Whole.
Context (cpu : Cpu.t) (next insns budget : Z) (e : Emit.t).
Context (Henv : Emit.tlb e = (c ← chain; ChainCfg.tlb c)).
Context (b : B) (m : Lin.t) (h : H).
Context (Hsim : sim cpu b 0 next insns budget m h).
Context (Post : option (res H) → Prop).

(** The end of an access that faulted. *)
Definition faults (P : Prop) : Prop := ∀ l' m' h' b',
  P → sim cpu b' 1 next insns budget m' h' → host_fault_pc h' = at_pc e → Post (Some (RReturn (stt pc0 [] l' m' h'))).

Lemma load_split rd rs1 imm n ext rest :
  load e rd rs1 imm n ext ++ rest
  = head_of e false rs1 imm
    ++ (if in_group e false then
          [LocalGet L_GFLAG;
           If (BResult TI64) (group_host_addr L_GHOST ++ [load_insn n]) (host_load e n)]
        else load_value e n)
    ++ (if rd =? 0 then Drop :: bail_if_faulted
        else [LocalSet L_TMP] ++ bail_if_faulted ++ [LocalGet L_REGS; LocalGet L_TMP] ++ ext
             ++ [I64Store (at_ (reg_off rd) 3)]) ++ rest.
Proof. unfold load, head_of. by rewrite !app_assoc. Qed.

Lemma store_split rs1 rs2 imm n rest :
  store e rs1 rs2 imm n ++ rest
  = head_of e true rs1 imm
    ++ (if in_group e true then
          [LocalGet L_SFLAG;
           If BEmpty (group_host_addr L_SHOST ++ get_reg rs2 ++ [store_insn n])
             (host_store e n (get_reg rs2))]
        else store_value e rs2 n)
    ++ bail_if_faulted ++ rest.
Proof. unfold store, head_of. by rewrite !app_assoc. Qed.

Lemma run_load rd rs1 imm n ext extv l rest :
  reg rd → reg rs1 → lg n → role_fits cpu e b false rs1 imm (Z.of_nat (size_of n)) l →
  (∀ v k c l m h, run (ext ++ c) (stt pc0 (V64 v :: k) l m h) = run c (stt pc0 (V64 (extv v) :: k) l m h)) →
  (∀ v, urange (8 * Z.of_nat (size_of n)) v → urange 64 (extv v)) →
  let a := as_u64 (Cpu.read_reg cpu rs1 + as_u64 imm) in
  (∀ v b' l' m' h', bread n a b = Some (v, b') →
     sim (Cpu.set_reg cpu rd (extv v)) b' 0 next insns budget m' h' → carried cpu e b rs1 l l' →
     Post (run rest (stt pc0 [] l' m' h'))) →
  faults (bread n a b = None) →
  Post (run (load e rd rs1 imm n ext ++ rest) (stt pc0 [] l m h)).
Proof.
  intros Hd Hr Hn Hrole Hext Hextv. cbv zeta. intros Hok Hfault.
  destruct (run_load_access _ _ _ _ e Henv _ _ _ Hsim rs1 imm n l Hr Hn Hrole)
    as (v & l' & m' & h' & Hrun & Hl & Hc).
  rewrite load_split, Hrun. clear Hrun.
  unfold loaded in Hl. destruct (bread _ _ _) as [[v' b']|] eqn:Eb.
  - destruct Hl as (-> & Hs'). pose proof (host_read_range _ _ _ _ _ Hn Eb) as Hv.
    destruct (Z.eqb_spec rd 0) as [->|Hne].
    + cbn [app]. destruct l'. wstep. rewrite (run_bail _ _ _ _ _ _ _ _ _ Hs').
      by eapply Hok.
    + cbn [app]. destruct l' as [tmp nx en ad tn gh gf sh sf fw]. wstep.
      rewrite <- !app_assoc, (run_bail _ _ _ _ _ _ _ _ _ Hs').
      change (as_u32 0 =? 0) with true. cbv iota. cbn [app]. do 2 wstep. rewrite <- app_assoc, Hext. cbn [app].
      destruct (store_reg _ _ _ _ _ _ _ _ Hs' rd (extv v') Hd Hne (Hextv _ Hv)) as (m2 & Hst & Hs2).
      rewrite (run_store64 _ _ _ _ _ _ _ _ _ _ m2) by done.
      eapply Hok; [done|exact Hs2|]. by eapply carried_ext, Hc.
  - destruct Hl as (Hs' & Hf). destruct (Z.eqb_spec rd 0) as [->|Hne]; cbn [app]; destruct l'; wstep;
      rewrite <- ?app_assoc, (run_bail _ _ _ _ _ _ _ _ _ Hs'); by eapply Hfault.
Qed.

Lemma run_store rs1 rs2 imm n l rest :
  reg rs1 → reg rs2 → lg n → role_fits cpu e b true rs1 imm (Z.of_nat (size_of n)) l →
  let a := as_u64 (Cpu.read_reg cpu rs1 + as_u64 imm) in
  (∀ b' l' m' h', bwrite n a (Cpu.read_reg cpu rs2) b = Some (tt, b') →
     sim cpu b' 0 next insns budget m' h' → carried cpu e b rs1 l l' →
     Post (run rest (stt pc0 [] l' m' h'))) →
  faults (bwrite n a (Cpu.read_reg cpu rs2) b = None) →
  Post (run (store e rs1 rs2 imm n ++ rest) (stt pc0 [] l m h)).
Proof.
  intros Hr Hr2 Hn Hrole. cbv zeta. intros Hok Hfault.
  destruct (run_store_access _ _ _ _ e Henv _ _ _ Hsim rs1 rs2 imm n l Hr Hr2 Hn Hrole)
    as (l' & m' & h' & Hrun & Hl & Hc).
  rewrite store_split, Hrun. clear Hrun.
  unfold stored in Hl. destruct (bwrite _ _ _ _) as [[[] b']|] eqn:Eb.
  - rewrite (run_bail _ _ _ _ _ _ _ _ _ Hl). by eapply Hok.
  - destruct Hl as (Hs' & Hf). rewrite (run_bail _ _ _ _ _ _ _ _ _ Hs'). by eapply Hfault.
Qed.
End Whole.
End Access.
