(* ===== verification/JitAlu.v ===== *)
(** Arithmetic in a compiled block: what each emitter of a register result
    computes is the value the ISA prescribes. *)

From S2P Require Import Prelude Bits Types Decode Encode Compressed Float Cpu Fpu Execute Isa Wasm Jit JitHost JitAccess.

(** * Values *)

Lemma imm_signed x imm : srange 64 imm → (as_i64 x <? as_i64 (as_u64 imm)) = (as_i64 x <? imm).
Proof. intros Hi. by rewrite sext_wrap, (sext_small 64 imm). Qed.

Lemma shift_amount w n : 0 <= n < w → (w = 64 ∨ w = 32) → wrap w n mod w = n.
Proof. intros Hn Hw. assert (urange w n) by (unfold urange; destruct Hw as [->| ->]; lia). rewrite wrap_small, Z.mod_small by done. done. Qed.

Lemma low_of x : as_u64 (as_i32 (as_u32 x)) = as_u64 (as_i32 x).
Proof. by rewrite sext_wrap. Qed.

Lemma low_of_64 x : as_i32 (as_u64 x) = as_i32 x.
Proof. apply sext_cong; [done|]. by rewrite wrap_wrap_le. Qed.

Lemma count_32 n : as_u32 n mod 32 = n mod 32.
Proof. apply Z.mod_mod_divide. by exists (2 ^ 27). Qed.

Lemma low_shiftl x n : 0 <= n → as_i32 (Z.shiftl (as_u32 x) n) = as_i32 (x * 2 ^ n).
Proof. intros. apply sext_cong; [done|]. rewrite Z.shiftl_mul_pow2 by done. by apply wrap_mul_l. Qed.

Lemma low_sar x n : 0 <= n < 32 → as_i32 (Z.shiftr (as_i32 (as_u32 x)) n) = as_i32 x / 2 ^ n.
Proof.
  intros Hn. rewrite sext_wrap, Z.shiftr_div_pow2 by lia. apply sext_small; [done|].
  rewrite <- Z.shiftr_div_pow2 by lia. apply (srange_weaken (32 - n)); [lia|]. apply shiftr_sext_range. lia.
Qed.

(** ** Products of 128 bits from products of 32-bit halves *)

Definition hi (x : Z) : Z := as_u64 (Z.shiftr x (as_u64 32 mod 64)).
Definition lo (x : Z) : Z := as_u64 (Z.land x (as_u64 0xFFFFFFFF)).

Lemma lo_value x : lo x = x mod 2 ^ 32.
Proof.
  unfold lo. change (as_u64 0xFFFFFFFF) with (Z.ones 32). rewrite Z.land_ones by lia.
  apply wrap_small. pose proof (Z.mod_pos_bound x (2 ^ 32)). unfold urange. lia.
Qed.

Lemma hi_value x : urange 64 x → hi x = x / 2 ^ 32.
Proof.
  intros Hx. unfold hi. change (as_u64 32 mod 64) with 32. rewrite Z.shiftr_div_pow2 by lia.
  apply wrap_small, urange_div; [done|]. by unfold urange.
Qed.

Lemma hi_range x : urange 64 x → 0 <= hi x < 2 ^ 32.
Proof.
  intros Hx. rewrite hi_value by done. unfold urange in Hx.
  split; [apply Z.div_pos|apply Z.div_lt_upper_bound]; lia.
Qed.

Lemma halves x : urange 64 x → x = hi x * 2 ^ 32 + lo x.
Proof. intros Hx. rewrite hi_value, lo_value by done. pose proof (Z.div_mod x (2 ^ 32)). lia. Qed.

Lemma schoolbook x1 x0 y1 y0 :
  0 <= x1 < 2 ^ 32 → 0 <= x0 < 2 ^ 32 → 0 <= y1 < 2 ^ 32 → 0 <= y0 < 2 ^ 32 →
  let n := x1 * y0 + x0 * y0 / 2 ^ 32 in
  let p := x0 * y1 + n mod 2 ^ 32 in
  0 <= x0 * y0 / 2 ^ 32 < 2 ^ 32 ∧ urange 64 n ∧ urange 64 p ∧ 0 <= p / 2 ^ 32 < 2 ^ 32 ∧ 0 <= n / 2 ^ 32 < 2 ^ 32 ∧
  x1 * y1 + p / 2 ^ 32 + n / 2 ^ 32 = (x1 * 2 ^ 32 + x0) * (y1 * 2 ^ 32 + y0) / 2 ^ 64 ∧
  (x1 * 2 ^ 32 + x0) * (y1 * 2 ^ 32 + y0) / 2 ^ 64 < 2 ^ 64.
Proof.
  intros Hx1 Hx0 Hy1 Hy0 n p. set (r := 2 ^ 32) in *. change (2 ^ 64) with (r * r).
  assert (Hr : 0 < r) by done.
  assert (Hq : ∀ u v, 0 <= u < r → 0 <= v < r → 0 <= u * v <= (r - 1) * (r - 1)) by (intros; nia).
  pose proof (Hq x0 y0 Hx0 Hy0) as H00. pose proof (Hq x1 y0 Hx1 Hy0) as H10.
  pose proof (Hq x0 y1 Hx0 Hy1) as H01. pose proof (Hq x1 y1 Hx1 Hy1) as H11.
  assert (Hdiv : ∀ u, 0 <= u < r * r → 0 <= u / r < r).
  { intros u Hu. split; [apply Z.div_pos|apply Z.div_lt_upper_bound]; lia. }
  pose proof (Hdiv (x0 * y0) ltac:(lia)) as Hc.
  assert (Hn : 0 <= n < r * r) by (unfold n; lia).
  pose proof (Z.mod_pos_bound n r Hr) as Hnm.
  assert (Hp : 0 <= p < r * r) by (unfold p; lia).
  do 3 (split; [done|]). do 2 (split; [by apply Hdiv|]). split.
  - apply Z.div_unique with (p mod r * r + x0 * y0 mod r).
    + left. pose proof (Z.mod_pos_bound p r Hr). pose proof (Z.mod_pos_bound (x0 * y0) r Hr). nia.
    + rewrite (Z.mod_eq p), (Z.mod_eq (x0 * y0)) by lia. unfold p at 2. rewrite (Z.mod_eq n) by lia.
      unfold n at 2. ring.
  - assert (0 <= x1 * r + x0 < r * r) by nia. assert (0 <= y1 * r + y0 < r * r) by nia.
    apply Z.div_lt_upper_bound; [lia|]. nia.
Qed.

Lemma mulhu_value u v :
  urange 64 u → urange 64 v →
  let n := as_u64 (as_u64 (hi u * lo v) + hi (as_u64 (lo u * lo v))) in
  as_u64 (as_u64 (hi (as_u64 (as_u64 (lo u * hi v) + lo n)) + as_u64 (hi u * hi v)) + hi n) = u * v / 2 ^ 64.
Proof.
  intros Hu Hv n.
  assert (Hlu : 0 <= lo u < 2 ^ 32) by (rewrite lo_value; apply Z.mod_pos_bound; lia).
  assert (Hlv : 0 <= lo v < 2 ^ 32) by (rewrite lo_value; apply Z.mod_pos_bound; lia).
  pose proof (hi_range u Hu) as Hhu. pose proof (hi_range v Hv) as Hhv.
  destruct (schoolbook _ _ _ _ Hhu Hlu Hhv Hlv) as (Hc & Hn & Hp & Hp2 & Hn2 & Heq & Hlt).
  rewrite <- (halves u Hu), <- (halves v Hv) in Heq, Hlt.
  assert (Hprod : ∀ y z, 0 <= y < 2 ^ 32 → 0 <= z < 2 ^ 32 → urange 64 (y * z)) by (unfold urange; intros; nia).
  assert (En : n = hi u * lo v + lo u * lo v / 2 ^ 32).
  { unfold n. rewrite (wrap_small 64 (lo u * lo v)), (wrap_small 64 (hi u * lo v)), (hi_value (lo u * lo v)) by auto.
    by apply wrap_small. }
  clearbody n. rewrite <- En in *.
  rewrite (wrap_small 64 (lo u * hi v)), (wrap_small 64 (hi u * hi v)) by auto.
  rewrite (lo_value n), (wrap_small 64 (_ + _ mod _)), (hi_value n), (hi_value (_ + _ mod _)) by done.
  rewrite wrap_add_l by lia. rewrite (Z.add_comm (_ / _) (hi u * hi v)), Heq.
  apply wrap_small. unfold urange. split; [|done]. apply Z.div_pos; [|lia]. unfold urange in *. nia.
Qed.

(** The correction for a negative factor. *)
Lemma sign_term s v : urange 64 s → urange 64 v →
  as_u64 (Z.land (as_u64 (Z.shiftr (as_i64 s) (as_u64 63 mod 64))) v) = if as_i64 s <? 0 then v else 0.
Proof.
  intros Hs Hv. change (as_u64 63 mod 64) with 63. rewrite Z.shiftr_div_pow2 by lia.
  pose proof (sext_range 64 s ltac:(lia)) as Hr. unfold srange in Hr. change (64 - 1) with 63 in Hr.
  destruct (Z.ltb_spec (as_i64 s) 0).
  - assert (E : as_i64 s / 2 ^ 63 = -1).
    { symmetry. apply Z.div_unique with (as_i64 s + 2 ^ 63); lia. }
    rewrite E. change (as_u64 (-1)) with (Z.ones 64). rewrite Z.land_comm, Z.land_ones by lia.
    change (as_u64 (as_u64 v) = v). rewrite wrap_wrap by lia. by apply wrap_small.
  - by rewrite Z.div_small by lia.
Qed.

Lemma signed_reading s : urange 64 s → as_i64 s = s - (if as_i64 s <? 0 then 2 ^ 64 else 0).
Proof.
  intros Hs. unfold urange in Hs. rewrite sext_unsigned by done.
  destruct (Z.ltb_spec s (2 ^ (64 - 1))); [destruct (Z.ltb_spec s 0)|destruct (Z.ltb_spec (s - 2 ^ 64) 0)]; lia.
Qed.

Lemma mulhsu_value u v : urange 64 u → urange 64 v →
  as_u64 (u * v / 2 ^ 64 - (if as_i64 u <? 0 then v else 0)) = as_u64 (as_i64 u * v / 2 ^ 64).
Proof.
  intros Hu Hv. rewrite (signed_reading u) at 2 by done. destruct (_ <? 0); [|by rewrite !Z.sub_0_r]. f_equal.
  replace ((u - 2 ^ 64) * v) with (u * v + (- v) * 2 ^ 64) by lia. rewrite Z.div_add by lia. lia.
Qed.

Lemma mulh_value u v : urange 64 u → urange 64 v →
  as_u64 (u * v / 2 ^ 64 - (if as_i64 u <? 0 then v else 0) - (if as_i64 v <? 0 then u else 0))
  = as_u64 (as_i64 u * as_i64 v / 2 ^ 64).
Proof.
  intros Hu Hv. rewrite (signed_reading v) at 2 by done. destruct (as_i64 v <? 0).
  - rewrite <- wrap_sub by lia. rewrite mulhsu_value, wrap_sub by done.
    replace (as_i64 u * (v - 2 ^ 64)) with (as_i64 u * v + (- as_i64 u) * 2 ^ 64) by lia.
    rewrite Z.div_add by lia. change (?a + - ?b) with (a - b).
    rewrite <- (wrap_sub 64 _ u), <- (wrap_sub 64 _ (as_i64 u)), wrap_sext by lia. done.
  - rewrite !Z.sub_0_r. by apply mulhsu_value.
Qed.

(** * Code that leaves a value *)

Section Values.
Context {H B : Type} {BU : Bus B} {IM : Imports H} {chain : option ChainCfg.t} {JH : JitHost H B chain}.
Context (pc0 : Z) (cpu : Cpu.t) (b : B) (fault next insns budget : Z) (m : Lin.t) (h : H).
Context (Hsim : sim cpu b fault next insns budget m h).
Let Hwf := sim_wf _ _ _ _ _ _ _ _ Hsim.

Abbreviation pushed := (pushes pc0 m h).
Abbreviation x r := (Cpu.read_reg cpu r).

Lemma run_reg r c k l : reg r → run (get_reg r ++ c) (stt pc0 k l m h) = run c (stt pc0 (V64 (x r) :: k) l m h).
Proof. apply (run_get_reg _ _ _ _ _ _ _ _ _ Hsim). Qed.

Lemma pushes_un r l op v :
  reg r →
  (∀ a k c l, a = x r → run (op ++ c) (stt pc0 (V64 a :: k) l m h) = run c (stt pc0 (V64 v :: k) l m h)) →
  pushed l (get_reg r ++ op) v.
Proof. intros Hr Hop. exists l. split; [done|]. intros k c. rewrite <- app_assoc, run_reg by done. by apply Hop. Qed.

Lemma pushes_bin mid r s l op w v :
  reg r → reg s →
  (∀ k c l, run (mid ++ c) (stt pc0 (V64 (x r) :: k) l m h) = run c (stt pc0 (w :: k) l m h)) →
  (∀ k c l, run (op ++ c) (stt pc0 (V64 (x s) :: w :: k) l m h) = run c (stt pc0 (V64 v :: k) l m h)) →
  pushed l (get_reg r ++ mid ++ get_reg s ++ op) v.
Proof.
  intros Hr Hs Hmid Hop. exists l. split; [done|]. intros k c.
  by rewrite <- !app_assoc, run_reg, Hmid, run_reg, Hop.
Qed.

(** ** The arithmetic emitters *)

(** [c] sets the destination of [i] to the value the ISA gives. *)
Definition sets (i : Instr) (l : Loc.t) (c : list W) : Prop :=
  let '(rd, r, s) := alu_operands i in
  ∃ body v, c = set_with rd body ∧ alu_spec i (Cpu.pc cpu) (x r) (x s) = Some v ∧ pushed l body (as_u64 v).

(** Run the emitted instructions and compare the values. *)
Ltac un_case :=
  eexists _, _; split; [reflexivity|]; split; [reflexivity|];
  apply pushes_un; [done|]; intros a k c' l' ->; destruct l'; wrun; do 4 f_equal.
Ltac bin_case mid :=
  eexists _, _; split; [reflexivity|]; split; [reflexivity|];
  eapply (pushes_bin mid);
    [done|done|intros k c' l'; destruct l'; wrun; reflexivity
    |intros k c' l'; destruct l'; wrun; do 4 f_equal].

Lemma pushes_lui l imm : pushed l [I64Const imm] (as_u64 imm).
Proof. exists l. split; [done|]. intros k c. destruct l. by wrun. Qed.

Lemma pushes_auipc e l imm :
  Cpu.pc cpu = at_pc pc0 e →
  pushed l [LocalGet L_PC; I64Const (Emit.off e); I64Add; I64Const imm; I64Add] (as_u64 (Cpu.pc cpu + imm)).
Proof.
  intros ->. exists l. split; [done|]. intros k c. destruct l. wrun. fold (at_pc pc0 e).
  by rewrite wrap_add_r.
Qed.

Lemma emit_alu_sets e i l c :
  instr_wf i → Cpu.pc cpu = at_pc pc0 e → emit_alu e i = Some c → sets i l c.
Proof.
  intros Hi Hpc Hc. unfold sets. destruct i; try discriminate; cbn [instr_wf] in Hi; destruct_and?;
    apply (inj Some) in Hc as <-; cbn [alu_operands alu_spec].
  1: { eexists _, _. split; [reflexivity|]. split; [reflexivity|]. apply pushes_lui. }
  1: { eexists _, _. split; [reflexivity|]. split; [reflexivity|]. by apply pushes_auipc. }
  1-9: un_case.
  10-19: bin_case (@nil W).
  - by apply wrap_add_r.
  - by rewrite imm_signed, wrap_b2z.
  - by rewrite wrap_b2z.
  - by rewrite !wrap_lxor, wrap_wrap.
  - by rewrite !wrap_lor, wrap_wrap.
  - by rewrite !wrap_land, wrap_wrap.
  - rewrite shift_amount, Z.shiftl_mul_pow2; unfold urange in *; auto with lia.
  - rewrite shift_amount, Z.shiftr_div_pow2; unfold urange in *; auto with lia.
  - rewrite shift_amount, Z.shiftr_div_pow2; unfold urange in *; auto with lia.
  - rewrite Z.shiftl_mul_pow2; [done|apply Z.mod_pos_bound; lia].
  - by rewrite wrap_b2z.
  - by rewrite wrap_b2z.
  - rewrite Z.shiftr_div_pow2; [done|apply Z.mod_pos_bound; lia].
  - rewrite Z.shiftr_div_pow2; [done|apply Z.mod_pos_bound; lia].
Qed.

Lemma emit_alu_w_sets i l c : instr_wf i → emit_alu_w i = Some c → sets i l c.
Proof.
  intros Hi Hc. unfold sets. destruct i; try discriminate; cbn [instr_wf] in Hi; destruct_and?;
    apply (inj Some) in Hc as <-; cbn [alu_operands alu_spec].
  1-4: un_case.
  5-6: bin_case (@nil W).
  7-9: bin_case [I32WrapI64].
  all: rewrite low_of.
  all: rewrite ?low_of_64, ?count_32; try done.
  - f_equal. rewrite <- low_of_64, wrap_add_r by lia. apply low_of_64.
  - rewrite Z.mod_small, low_shiftl; unfold urange in *; (done || lia).
  - rewrite Z.mod_small, Z.shiftr_div_pow2; unfold urange in *; (done || lia).
  - rewrite Z.mod_small, low_sar; unfold urange in *; (done || lia).
  - rewrite low_shiftl; [done|]. apply Z.mod_pos_bound. lia.
  - rewrite Z.shiftr_div_pow2; [done|]. apply Z.mod_pos_bound. lia.
  - rewrite low_sar; [done|]. apply Z.mod_pos_bound. lia.
Qed.

Lemma run_mulhu l :
  urange 64 (Loc.tmp l) → urange 64 (Loc.addr l) →
  ∃ n, ∀ k c, run (mulhu_of_scratch ++ c) (stt pc0 k l m h)
       = run c (stt pc0 (V64 (Loc.tmp l * Loc.addr l / 2 ^ 64) :: k) (l <| Loc.next := n |>) m h).
Proof.
  intros Hx Hy. destruct l as [u nx en v te gh gf sh sf fw]. cbn [Loc.tmp Loc.addr] in *.
  rewrite <- (mulhu_value u v Hx Hy). eexists. intros k c. unfold mulhu_of_scratch, half. by wrun.
Qed.

Lemma run_sign (first : bool) v k c l :
  urange 64 (Loc.tmp l) → urange 64 (Loc.addr l) →
  let '(s, o) := if first then (Loc.tmp l, Loc.addr l) else (Loc.addr l, Loc.tmp l) in
  run (mulh_sign_term (if first then L_TMP else L_ADDR) (if first then L_ADDR else L_TMP) ++ c)
    (stt pc0 (V64 v :: k) l m h)
  = run c (stt pc0 (V64 (as_u64 (v - (if as_i64 s <? 0 then o else 0))) :: k) l m h).
Proof.
  intros Hx Hy. destruct l as [u nx en w te gh gf sh sf fw]. cbn [Loc.tmp Loc.addr] in *.
  destruct first; unfold mulh_sign_term; wrun; by rewrite sign_term.
Qed.

(** Both factors go through scratch locals. *)
Lemma pushes_mul_high r s l signs v :
  reg r → reg s →
  (∀ k c l, Loc.tmp l = x r → Loc.addr l = x s →
     run (signs ++ c) (stt pc0 (V64 (x r * x s / 2 ^ 64) :: k) l m h) = run c (stt pc0 (V64 v :: k) l m h)) →
  pushed l (get_reg r ++ [LocalSet L_TMP] ++ get_reg s ++ [LocalSet L_ADDR] ++ mulhu_of_scratch ++ signs) v.
Proof.
  intros Hr Hs Hsigns.
  pose proof (Cpu.read_reg_range cpu r Hwf) as Hx. pose proof (Cpu.read_reg_range cpu s Hwf) as Hy.
  destruct (run_mulhu (set_addr (x s) (set_tmp (x r) l)) Hx Hy) as (n & Hn).
  exists (set_addr (x s) (set_tmp (x r) l) <| Loc.next := n |>). split; [by destruct l|]. intros k c.
  rewrite <- !app_assoc, run_reg by done.
  destruct l as [u nx en w te gh gf sh sf fw]. cbn [app]. wstep. rewrite run_reg by done. cbn [app]. wstep.
  etransitivity; [apply Hn|]. by apply Hsigns.
Qed.

Lemma emit_mul_sets i l c : instr_wf i → emit_mul i = Some c → sets i l c.
Proof.
  intros Hi Hc. unfold sets. destruct i; try discriminate; cbn [instr_wf] in Hi; destruct_and?;
    apply (inj Some) in Hc as <-; cbn [alu_operands alu_spec].
  1,5: bin_case (@nil W).
  1: by rewrite low_of_64.
  all: eexists _, _; split; [reflexivity|]; split; [reflexivity|];
    pose proof (Cpu.read_reg_range cpu rs1 Hwf) as Hx; pose proof (Cpu.read_reg_range cpu rs2 Hwf) as Hy;
    apply pushes_mul_high; [done|done|]; intros k c l' E1 E2; rewrite <- E1, <- E2 in *.
  - rewrite <- app_assoc.
    etransitivity; [by apply (run_sign true)|]. etransitivity; [by apply (run_sign false)|].
    do 4 f_equal. rewrite <- mulh_value by done. rewrite <- wrap_sub, wrap_wrap, wrap_sub by lia. done.
  - etransitivity; [by apply (run_sign true)|]. by rewrite mulhsu_value.
  - by rewrite <- (mulhu_value _ _ Hx Hy), wrap_wrap.
Qed.

(** ** Setting a register *)

Lemma run_set_with (Post : option (res H) → Prop) rd body v l rest :
  reg rd → urange 64 v → pushed l body v →
  (∀ l' m', sim (Cpu.set_reg cpu rd v) b fault next insns budget m' h → Loc.groups l' = Loc.groups l →
     Post (run rest (stt pc0 [] l' m' h))) →
  Post (run (set_with rd body ++ rest) (stt pc0 [] l m h)).
Proof.
  intros Hd Hv (l' & Hg & Hrun) HP. unfold set_with. destruct (Z.eqb_spec rd 0) as [->|Hne].
  - by apply HP.
  - cbn [app]. rewrite <- app_assoc.
    destruct (store_reg _ _ _ _ _ _ _ _ Hsim rd v Hd Hne Hv) as (m' & Hst & Hs).
    rewrite run_next with (s' := stt pc0 [V32 host_regs] l m h) by (by destruct l).
    rewrite Hrun. cbn [app]. rewrite (run_store64 _ _ _ _ _ _ _ _ _ _ m') by done. by apply HP.
Qed.
End Values.
