(* ===== verification/JitStep.v ===== *)
(** One compiled instruction against one instruction of the interpreter. *)

From S2P Require Import Prelude Bits Types Decode Encode Compressed Float Cpu Fpu Execute Isa Wasm Jit JitPlan JitHost JitAccess JitAlu.

(** * Memory instructions of the interpreter *)

(** Destination, base, offset, width and extension of a load. *)
Definition load_spec (i : Instr) : option (Z * Z * Z * Z * (Z → Z)) :=
  match i with
  | Lb rd r imm => Some (rd, r, imm, 0, λ v, as_u64 (as_i8 v))
  | Lh rd r imm => Some (rd, r, imm, 1, λ v, as_u64 (as_i16 v))
  | Lw rd r imm => Some (rd, r, imm, 2, λ v, as_u64 (as_i32 v))
  | Ld rd r imm => Some (rd, r, imm, 3, λ v, v)
  | Lbu rd r imm => Some (rd, r, imm, 0, λ v, v)
  | Lhu rd r imm => Some (rd, r, imm, 1, λ v, v)
  | Lwu rd r imm => Some (rd, r, imm, 2, λ v, v)
  | Lrw rd r _ _ => Some (rd, r, 0, 2, λ v, as_u64 (as_i32 v))
  | Lrd rd r _ _ => Some (rd, r, 0, 3, λ v, v)
  | _ => None
  end.
(** Base, source, offset, width of a store, and the register that a conditional
    one clears. *)
Definition store_spec (i : Instr) : option (Z * Z * Z * Z * option Z) :=
  match i with
  | Sb r s imm => Some (r, s, imm, 0, None)
  | Sh r s imm => Some (r, s, imm, 1, None)
  | Sw r s imm => Some (r, s, imm, 2, None)
  | Sd r s imm => Some (r, s, imm, 3, None)
  | Scw rd r s _ _ => Some (r, s, 0, 2, Some rd)
  | Scd rd r s _ _ => Some (r, s, 0, 3, Some rd)
  | _ => None
  end.

Section Shapes.
Context {B : Type} `{Bus B} `{Profile} `{Libm}.
Implicit Types (c : Cpu.t) (b : B).

Lemma effective a imm : as_u64 (as_i64 (as_i64 a + imm)) = as_u64 (a + as_u64 imm).
Proof. by rewrite wrap_sext, wrap_sext_add, wrap_add_r. Qed.

Definition target c r imm : Z := as_u64 (Cpu.read_reg c r + as_u64 imm).

Lemma target_0 c r : Cpu.wf c → target c r 0 = Cpu.read_reg c r.
Proof.
  intros Hc. unfold target. change (as_u64 0) with 0. rewrite Z.add_0_r.
  by apply wrap_small, Cpu.read_reg_range.
Qed.

Lemma load_shape i rd r imm n ext c b width :
  Cpu.wf c → instr_wf i → load_spec i = Some (rd, r, imm, n, ext) →
  execute_width i width (c, b)
  = '(v, b') ← bread n (target c r imm) b; Some (Running, (write_back c rd (ext v) width, b')).
Proof.
  intros Hc Hi Hs. destruct i; try discriminate; injection Hs as <- <- <- <- <-; cbn [instr_wf] in Hi;
    destruct_and?; runs; rewrite ?ea_run, on_bus_bind, ?effective, ?target_0 by done; unfold target;
    cbn [bread Z.eqb Pos.eqb mbind option_bind];
    match goal with |- match ?x with _ => _ end = _ => destruct x as [[v b']|] end; (done || by apply wb_run).
Qed.

Definition clear c (rd : option Z) : Cpu.t := match rd with Some r => Cpu.set_reg c r 0 | None => c end.

Lemma store_shape i r s imm n rd c b width :
  Cpu.wf c → instr_wf i → store_spec i = Some (r, s, imm, n, rd) →
  execute_width i width (c, b)
  = '(_, b') ← bwrite n (target c r imm) (Cpu.read_reg c s) b; Some (Running, (retire (clear c rd) width, b')).
Proof.
  intros Hc Hi Hs. destruct i; try discriminate; injection Hs as <- <- <- <- <-; cbn [instr_wf] in Hi;
    destruct_and?; runs; rewrite ?ea_run, ?rr_run, on_bus_bind, ?effective, ?target_0 by done; unfold target;
    cbn [bwrite Z.eqb Pos.eqb mbind option_bind];
    rewrite ?(wrap_small 64 (Cpu.read_reg c rs2)) by (by apply Cpu.read_reg_range);
    match goal with |- match ?x with _ => _ end = _ => destruct x as [[[] b']|] end; (done || by apply wb_run).
Qed.

Lemma fence_shape p s c b width : execute_width (Fence p s) width (c, b) = Some (Running, (retire c width, b)).
Proof. done. Qed.
End Shapes.

(** * Simulation of one instruction *)

Lemma retire_x c w : Cpu.x (retire c w) = Cpu.x c.
Proof. done. Qed.
Lemma read_retire c w r : Cpu.read_reg (retire c w) r = Cpu.read_reg c r.
Proof. done. Qed.

Lemma write_back_pc c rd v w : Cpu.pc (write_back c rd v w) = as_u64 (Cpu.pc c + as_u64 w).
Proof. unfold write_back, Cpu.set_reg. by destruct (rd =? 0). Qed.

Section Step.
Context {H B : Type} {BU : Bus B} {IM : Imports H} {chain : option ChainCfg.t} {JH : JitHost H B chain}.
Context {PR : Profile} {L : Libm} (HP : overflow_checks = false).
Context (pc0 : Z) (cpu : Cpu.t) (next insns budget : Z) (e : Emit.t).
Context (Henv : Emit.tlb e = (c ← chain; ChainCfg.tlb c)).
Context (b : B) (m : Lin.t) (h : H).
Context (Hsim : sim cpu b 0 next insns budget m h) (Hpc : Cpu.pc cpu = at_pc pc0 e).
Let Hwf := sim_wf _ _ _ _ _ _ _ _ Hsim.

(** Pages stay mapped. *)
Definition still_mapped b1 b2 : Prop := ∀ st vpn page, host_mapped st vpn page b1 → host_mapped st vpn page b2.

Definition role_ok (i : Instr) (l : Loc.t) : Prop :=
  match mem_access i with
  | Some (r, imm, size, st) => role_fits cpu e b st r imm size l
  | None => Emit.role e = Solo
  end.

(** After [c] has run, the interpreter has executed [i] and the window shows the
    hart it leaves; or both have faulted. *)
Definition simulates (i : Instr) (width : Z) (l : Loc.t) (c : list W) : Prop :=
  ∀ (Post : option (res H) → Prop) rest,
  (∀ cpu' b' l' m' h',
     execute_width i width (cpu, b) = Some (Running, (cpu', b')) →
     sim cpu' b' 0 next insns budget m' h' → Cpu.pc cpu' = as_u64 (Cpu.pc cpu + as_u64 width) →
     (∀ r, reg r → kills i r = false → Cpu.read_reg cpu' r = Cpu.read_reg cpu r) →
     carried cpu e b (base_of i) l l' → still_mapped b b' →
     Post (run rest (stt pc0 [] l' m' h'))) →
  (∀ l' m' h' b', execute_width i width (cpu, b) = None →
     sim cpu b' 1 next insns budget m' h' → host_fault_pc h' = Cpu.pc cpu →
     Post (Some (RReturn (stt pc0 [] l' m' h')))) →
  Post (run (c ++ rest) (stt pc0 [] l m h)).

Lemma sim_retire c b0 f m0 h0 w : sim c b0 f next insns budget m0 h0 → sim (retire c w) b0 f next insns budget m0 h0.
Proof. intros [Hs Hv Hw]. by constructor; [|done|apply retire_wf]. Qed.

(** The groups are untouched by an instruction without a part in one. *)
Lemma carried_solo r l l' : Emit.role e = Solo → Loc.groups l' = Loc.groups l → carried cpu e b r l l'.
Proof.
  intros Hr Hg. eapply carried_ext; [by rewrite <- Hg|]. intros st. rewrite Hr. by split.
Qed.

Lemma set_reg_frame i rd v r :
  reg rd → urange 64 v → kills i r = false → dest_reg i = Some rd ∨ (∀ r, kills i r = true) → reg r →
  Cpu.read_reg (Cpu.set_reg cpu rd v) r = Cpu.read_reg cpu r.
Proof.
  intros Hd Hv Hk Hi Hr. unfold reg, urange in *. rewrite Cpu.read_set_reg by (done || lia).
  destruct Hi as [Hi|Hi]; [|by rewrite Hi in Hk]. unfold kills in Hk. rewrite Hi in Hk.
  rewrite (Z.eqb_sym rd r) in Hk. by rewrite Hk.
Qed.

(** ** Register results *)

Lemma sets_simulates i width l c :
  instr_wf i → sets pc0 cpu m h i l c → dest_reg i = Some (alu_operands i).1.1 → mem_access i = None →
  reg (alu_operands i).1.1 → role_ok i l → simulates i width l c.
Proof.
  intros Hi Hs Hd Hm Hr Hrole Post rest Hok _. unfold sets in Hs. unfold role_ok in Hrole. rewrite Hm in Hrole.
  pose proof (alu_refines i cpu b width) as Href.
  destruct (alu_operands i) as [[rd r] s]. cbn in Hd, Hr. destruct Hs as (body & v & -> & Hv & Hp).
  apply (run_set_with _ _ _ _ _ _ _ _ _ Hsim Post rd body (as_u64 v) l rest Hr); [apply wrap_range; lia|done|].
  intros l' m' Hs' Hg.
  eapply (Hok (write_back cpu rd (as_u64 v) width) b).
  - apply Href; [done|done| |done]. unfold mulhsu_overflows. destruct i; try done. rewrite HP. by intros [].
  - by apply sim_retire.
  - apply write_back_pc.
  - intros r' Hr' Hk. apply (set_reg_frame i); try done; [apply wrap_range; lia|by left].
  - by apply carried_solo.
  - by intros ???.
Qed.

(** ** Memory *)

Lemma load_simulates i width l rd r imm n ext :
  instr_wf i → load_spec i = Some (rd, r, imm, n, ext) → reg rd → reg r → lg n →
  dest_reg i = Some rd ∨ (∀ r, kills i r = true) → role_fits cpu e b false r imm (Z.of_nat (size_of n)) l →
  base_of i = r ∨ Emit.role e = Solo →
  ∀ code,
  (∀ v k c l m (h : H), run (code ++ c) (stt pc0 (V64 v :: k) l m h) = run c (stt pc0 (V64 (ext v) :: k) l m h)) →
  (∀ v, urange (8 * Z.of_nat (size_of n)) v → urange 64 (ext v)) →
  simulates i width l (load e rd r imm n code).
Proof.
  intros Hi Hs Hrd Hr Hn Hd Hrole Hbase code Hcode Hext Post rest Hok Hfault.
  pose proof (load_shape i rd r imm n ext cpu b width Hwf Hi Hs) as Hx. unfold target in Hx.
  apply (run_load _ _ _ _ _ e Henv _ _ _ Hsim Post rd r imm n code ext l rest); try done.
  - intros v b' l' m' h' Eb Hs' Hc. rewrite Eb in Hx.
    eapply (Hok (write_back cpu rd (ext v) width) b').
    + done.
    + by apply sim_retire.
    + apply write_back_pc.
    + intros r' Hr' Hk. apply (set_reg_frame i); try done. apply Hext. by eapply host_read_range.
    + destruct Hbase as [->|Hsolo]; [done|]. intros st. specialize (Hc st). by rewrite Hsolo in Hc |- *.
    + intros st vpn page Hp. by eapply host_mapped_read.
  - intros l' m' h' b' Eb Hs' Hf. rewrite Eb in Hx. eapply Hfault; [done|done|]. by rewrite Hf, Hpc.
Qed.

Lemma store_simulates i width l r s imm n rd :
  instr_wf i → store_spec i = Some (r, s, imm, n, rd) → reg r → reg s → from_option reg True rd → lg n →
  role_fits cpu e b true r imm (Z.of_nat (size_of n)) l →
  (rd = None ∧ base_of i = r) ∨ (Emit.role e = Solo ∧ ∀ r, kills i r = true) →
  simulates i width l (store e r s imm n ++ match rd with Some rd => set_with rd [I64Const 0] | None => [] end).
Proof.
  intros Hi Hs Hr Hs' Hrd Hn Hrole Hcase Post rest Hok Hfault.
  pose proof (store_shape i r s imm n rd cpu b width Hwf Hi Hs) as Hx. unfold target in Hx.
  rewrite <- app_assoc.
  apply (run_store _ _ _ _ _ e Henv _ _ _ Hsim Post r s imm n l); try done.
  - intros b' l' m' h' Eb Hsm Hc. rewrite Eb in Hx. cbn in Hx.
    assert (Hmap : still_mapped b b') by (intros st vpn page Hp; by eapply host_mapped_write).
    assert (Hc' : carried cpu e b (base_of i) l l').
    { destruct Hcase as [[_ ->]|[Hsolo _]]; [done|]. intros st. specialize (Hc st). by rewrite Hsolo in Hc |- *. }
    destruct rd as [rd|]; cbn [clear] in Hx.
    + apply (run_set_with _ _ _ _ _ _ _ _ _ Hsm Post rd [I64Const 0] 0 l' rest Hrd); [done| |].
      { exists l'. split; [done|]. intros k c. destruct l'. by wrun. }
      intros l2 m2 Hs2 Hg. eapply Hok; [exact Hx|by apply sim_retire|apply write_back_pc| | |done].
      * intros r' Hr' Hk. destruct Hcase as [[? _]|[_ Hall]]; [done|]. by rewrite Hall in Hk.
      * by eapply carried_ext, Hc'.
    + cbn [app]. eapply Hok; [exact Hx|by apply sim_retire|done|done|done|done].
  - intros l' m' h' b' Eb Hsm Hf. rewrite Eb in Hx. eapply Hfault; [done|exact Hsm|]. by rewrite Hf, Hpc.
Qed.

(** ** Atomics *)

Definition amo_fn (w : Z) (op : AmoOp) : Z → Z → Z :=
  match op with
  | OpSwap => λ _ y, y
  | OpAdd => λ x y, (x + y) mod 2 ^ w
  | OpXor => Z.lxor | OpAnd => Z.land | OpOr => Z.lor
  | OpMin => λ x y, if sext w x <=? sext w y then x else y
  | OpMax => λ x y, if sext w x <=? sext w y then y else x
  | OpMinU => Z.min | OpMaxU => Z.max
  end.

(** The widths of atomics: 32 bits for [n = 2], 64 for [n = 3]. *)
Definition atomic (n w : Z) : Prop := (n = 2 ∧ w = 32) ∨ (n = 3 ∧ w = 64).

Lemma select_b2z (c : bool) x y : (if b2z c =? 0 then V64 x else V64 y) = V64 (if c then y else x).
Proof. by destruct c. Qed.

Lemma low_signed x : as_i64 (as_u64 (as_i32 x)) = as_i32 x.
Proof. rewrite sext_wrap by lia. apply sext_small; [done|]. apply (srange_weaken 32); [lia|]. by apply sext_range. Qed.
Lemma low_unsigned x : as_u32 (as_u64 (as_i32 x)) = as_u32 x.
Proof. by rewrite wrap_wrap_le, wrap_sext. Qed.
Lemma wrap_if w (c : bool) x y : wrap w (if c then x else y) = if c then wrap w x else wrap w y.
Proof. by destruct c. Qed.
Lemma mask_32 x : as_u64 (Z.land x (as_u64 0xFFFFFFFF)) = as_u32 x.
Proof. exact (lo_value x). Qed.
(** [smin_value] and [smax_value] for values that are not signed readings. *)
Lemma pick_min w old y : 0 < w → urange w old →
  (if sext w old <? sext w y then wrap w old else wrap w y) = if sext w old <=? sext w (wrap w y) then old else wrap w y.
Proof. intros. rewrite <- smin_value by done. by rewrite wrap_if, !wrap_sext. Qed.
Lemma pick_max w old y : 0 < w → urange w old →
  (if sext w old >? sext w y then wrap w old else wrap w y) = if sext w old <=? sext w (wrap w y) then wrap w y else old.
Proof. intros. rewrite <- smax_value by done. by rewrite wrap_if, !wrap_sext. Qed.

Ltac wgo r :=
  repeat (cbn [app]; rewrite <- ?app_assoc; first [wstep | rewrite r by done]).

Lemma amo_value_ok s n w op l old :
  reg s → atomic n w → urange w old → Loc.tmp l = old →
  ∃ v, yields pc0 m h (amo_value s (n =? 2) op) v l ∧
       wrap w v = amo_fn w op old (wrap w (Cpu.read_reg cpu s)).
Proof.
  intros Hr Hn Ho <-. pose proof (run_reg pc0 _ _ _ _ _ _ _ _ Hsim s) as Hreg.
  destruct l as [u nx en ad tn gh gf sh sf fw]. cbn [Loc.tmp] in *.
  destruct Hn as [[-> ->]|[-> ->]]; cbn [Z.eqb Pos.eqb]; destruct op; cbn [amo_value andb amo_fn];
    (eexists; split;
      [intros te k c; change (set_tent te (Loc.mk u nx en ad tn gh gf sh sf fw)) with (Loc.mk u nx en ad te gh gf sh sf fw);
       wgo Hreg; rewrite ?select_b2z; reflexivity|]).
  all: rewrite ?mask_32, ?low_signed; rewrite ?wrap_if, ?low_unsigned;
    rewrite ?pick_min, ?pick_max by (done || lia); try done.
  all: rewrite ?wrap_wrap_le, ?wrap_wrap, ?wrap_lxor, ?wrap_lor, ?wrap_land, ?(wrap_small _ u) by (done || lia); try done.
  1,4: symmetry; by apply wrap_add_r.
  all: rewrite ?(wrap_small 64 (Cpu.read_reg cpu s)) by (by apply Cpu.read_reg_range);
    apply umin_value || apply umax_value.
Qed.
End Step.

Section Atomic.
Context {H B : Type} {BU : Bus B} {IM : Imports H} {chain : option ChainCfg.t} {JH : JitHost H B chain}.
Context {PR : Profile} {L : Libm}.
Context (pc0 : Z) (cpu : Cpu.t) (next insns budget : Z) (e : Emit.t).
Context (Henv : Emit.tlb e = (c ← chain; ChainCfg.tlb c)) (Hpc : Cpu.pc cpu = at_pc pc0 e).
Context (n w : Z) (Hn : atomic n w).

Lemma atomic_lg : lg n.
Proof. unfold lg. destruct Hn as [[-> _]|[-> _]]; auto. Qed.

Lemma load_at_addr_value : load_at_addr e n = load_value e n.
Proof. by destruct Hn as [[-> _]|[-> _]]. Qed.

Lemma atomic_read a b : read_w w a b = bread n a b.
Proof. by destruct Hn as [[-> ->]|[-> ->]]. Qed.
Lemma atomic_write a v v' b : wrap w v = v' → write_w w a v' b = bwrite n a v b.
Proof. intros <-. by destruct Hn as [[-> ->]|[-> ->]]. Qed.
Lemma atomic_size : 8 * Z.of_nat (size_of n) = w.
Proof. by destruct Hn as [[-> ->]|[-> ->]]. Qed.

Lemma run_store_at b m h value v l :
  sim cpu b 0 next insns budget m h → urange 64 (Loc.addr l) → yields pc0 m h value v l →
  ∃ te m' h', (∀ k c, run (store_at_addr e n value ++ c) (stt pc0 k l m h) = run c (stt pc0 k (set_tent te l) m' h'))
              ∧ stored pc0 cpu next insns budget e b n (Loc.addr l) v m' h'.
Proof.
  intros Hsim Ha Hv. unfold store_at_addr. pose proof atomic_lg as Hlg.
  replace (wide_store n) with (store_insn n) by (by destruct Hn as [[-> _]|[-> _]]).
  case_eq (Emit.tlb e); [intros t Ht|intros Ht].
  - destruct (run_probed_store pc0 _ _ _ _ e Henv _ _ _ Hsim t n value v l Ht Hlg Ha Hv) as (m' & h' & Hr & Hs).
    exists (entry_of t true (Loc.addr l)), m', h'. split; [|done]. intros k c. rewrite <- app_assoc. apply Hr.
  - destruct (run_host_store pc0 _ _ _ _ e _ _ _ Hsim n value v l (Loc.tent l) Hlg Ha Hv) as (m' & h' & Hr & Hs).
    exists (Loc.tent l), m', h'. split; [|done]. intros k c. specialize (Hr k c). by destruct l.
Qed.

(** The old word, sign extended. *)
Lemma run_old k v c l (m : Lin.t) (h : H) :
  urange w v →
  run ((if n =? 2 then [I64Extend32S] else []) ++ c) (stt pc0 (V64 v :: k) l m h)
  = run c (stt pc0 (V64 (as_u64 (sext w v)) :: k) l m h).
Proof.
  intros Hv. destruct l. destruct Hn as [[-> ->]|[-> ->]]; cbn [Z.eqb Pos.eqb].
  - by wrun.
  - by rewrite via_i64.
Qed.

Lemma amo_simulates b m h i width l rd r s op :
  sim cpu b 0 next insns budget m h → instr_wf i → amo_spec i = Some (w, rd, r, s, amo_fn w op) →
  reg rd → reg r → reg s → (∀ r, kills i r = true) → Emit.role e = Solo →
  simulates pc0 cpu next insns budget e b m h i width l (amo e rd r s n op).
Proof.
  intros Hsim Hi Hspec Hrd Hr Hs Hk Hrole Post rest Hok Hfault. pose proof (sim_wf _ _ _ _ _ _ _ _ Hsim) as Hwf.
  pose proof atomic_lg as Hlg. set (a := Cpu.read_reg cpu r).
  assert (Ha : urange 64 a) by by apply Cpu.read_reg_range.
  assert (Hrange : ∀ v b', bread n a b = Some (v, b') → urange w v).
  { intros v b' E. rewrite <- atomic_size. by eapply host_read_range. }
  pose proof (amo_shape i w rd r s _ cpu b width Hwf Hi Hspec) as Hx.
  rewrite Hx in Hok, Hfault by (intros v b'; rewrite atomic_read; apply Hrange).
  unfold amo_effect in Hok, Hfault. fold a in Hok, Hfault. rewrite atomic_read in Hok, Hfault.
  unfold amo. rewrite load_at_addr_value, <- !app_assoc, (run_reg pc0 _ _ _ _ _ _ _ _ Hsim) by done.
  fold a. cbn [app].
  rewrite run_next with (s' := stt pc0 [] (set_addr a l) m h) by (by destruct l).
  destruct (run_load_value pc0 _ _ _ _ e Henv _ _ _ Hsim n (set_addr a l) Hlg Ha) as (te & v & m1 & h1 & Hrun & Hl).
  rewrite Hrun. unfold loaded in Hl. change (Loc.addr (set_addr a l)) with a in Hl.
  rewrite run_next with (s' := stt pc0 [] (set_tmp v (set_tent te (set_addr a l))) m1 h1) by (by destruct l).
  set (l1 := set_tmp v _). destruct (bread n a b) as [[v' b1]|] eqn:Eb; cbn [mbind option_bind] in Hok, Hfault.
  2: { destruct Hl as [Hs1 Hf]. rewrite (run_bail _ _ _ _ _ _ _ _ _ Hs1). eapply Hfault; [done|exact Hs1|by rewrite Hf, Hpc]. }
  destruct Hl as [<- Hs1]. rewrite (run_bail _ _ _ _ _ _ _ _ _ Hs1). change (as_u32 0 =? 0) with true. cbv iota.
  destruct (amo_value_ok pc0 _ _ _ _ _ _ _ Hs1 s n w op l1 v Hs Hn ltac:(by eapply Hrange) eq_refl) as (x & Hy & Hx').
  destruct (run_store_at b1 m1 h1 _ x l1 Hs1 Ha Hy) as (te2 & m2 & h2 & Hrun2 & Hst).
  rewrite Hrun2. unfold stored in Hst. change (Loc.addr l1) with a in Hst.
  rewrite (atomic_write a x _ b1 Hx') in Hok, Hfault.
  destruct (bwrite n a x b1) as [[[] b2]|] eqn:Ew; cbn [mbind option_bind] in Hok, Hfault.
  2: { destruct Hst as [Hs2 Hf]. rewrite (run_bail _ _ _ _ _ _ _ _ _ Hs2). eapply Hfault; [done|exact Hs2|by rewrite Hf, Hpc]. }
  rewrite (run_bail _ _ _ _ _ _ _ _ _ Hst). change (as_u32 0 =? 0) with true. cbv iota.
  assert (Hmap : still_mapped b b2).
  { intros st vpn page Hp. eapply host_mapped_write; [|exact Ew]. by eapply host_mapped_read. }
  assert (Hc : carried cpu e b (base_of i) l (set_tent te2 l1)) by (apply carried_solo; [done|by destruct l]).
  destruct (Z.eqb_spec rd 0) as [->|Hne].
  - eapply Hok; [reflexivity|by apply sim_retire|done| |exact Hc|exact Hmap]. intros r' _ Hk'. by rewrite Hk in Hk'.
  - assert (Hold : urange 64 (as_u64 (sext w v))) by (apply wrap_range; lia).
    destruct (store_reg _ _ _ _ _ _ _ _ Hst rd _ Hrd Hne Hold) as (m3 & Est & Hs3).
    cbn [app]. rewrite run_next with (s' := stt pc0 [V32 host_regs] (set_tent te2 l1) m2 h2) by (by destruct l).
    rewrite run_next with (s' := stt pc0 [V64 v; V32 host_regs] (set_tent te2 l1) m2 h2) by (by destruct l).
    rewrite <- app_assoc, run_old by by eapply Hrange. cbn [app].
    rewrite (run_store64 _ _ _ _ _ _ _ _ _ _ m3) by done.
    eapply Hok; [reflexivity|by apply sim_retire|apply write_back_pc| |exact Hc|exact Hmap].
    intros r' _ Hk'. by rewrite Hk in Hk'.
Qed.
End Atomic.

(** ** Every integer instruction *)

(** Neither floating point nor CSR: those are calls of the host. *)
Definition integer (i : Instr) : bool :=
  match i with
  | Flw _ _ _ | Fld _ _ _ | Fsw _ _ _ | Fsd _ _ _ | Fp _
  | Csrrw _ _ _ | Csrrs _ _ _ | Csrrc _ _ _ | Csrrwi _ _ _ | Csrrsi _ _ _ | Csrrci _ _ _ => false
  | _ => true
  end.

(** An arithmetic instruction: it only writes its destination. *)
Definition writes_rd (i : Instr) : Prop :=
  dest_reg i = Some (alu_operands i).1.1 ∧ mem_access i = None ∧ reg (alu_operands i).1.1.

Lemma alu_writes e i c : instr_wf i → emit_alu e i = Some c → writes_rd i.
Proof. intros Hi Hc. destruct i; try discriminate; cbn in Hi |- *; unfold writes_rd; cbn; tauto. Qed.
Lemma alu_w_writes i c : instr_wf i → emit_alu_w i = Some c → writes_rd i.
Proof. intros Hi Hc. destruct i; try discriminate; cbn in Hi |- *; unfold writes_rd; cbn; tauto. Qed.
Lemma mul_writes i c : instr_wf i → emit_mul i = Some c → writes_rd i.
Proof. intros Hi Hc. destruct i; try discriminate; cbn in Hi |- *; unfold writes_rd; cbn; tauto. Qed.

Lemma integer_fp e i : integer i = true → emit_fp e i = None.
Proof. by destruct i. Qed.
Lemma integer_csr e i : integer i = true → emit_csr e i = None.
Proof. by destruct i. Qed.
Lemma compilable_jump e i width : is_compilable i = true → emit_jump e i width = None.
Proof. by destruct i. Qed.

Section Emit.
Context {H B : Type} {BU : Bus B} {IM : Imports H} {chain : option ChainCfg.t} {JH : JitHost H B chain}.
Context {PR : Profile} {L : Libm} (HP : overflow_checks = false).
Context (pc0 : Z) (cpu : Cpu.t) (next insns budget : Z) (e : Emit.t).
Context (Henv : Emit.tlb e = (c ← chain; ChainCfg.tlb c)) (Hpc : Cpu.pc cpu = at_pc pc0 e).
Context (b : B) (m : Lin.t) (h : H) (Hsim : sim cpu b 0 next insns budget m h).

Abbreviation simulated := (simulates pc0 cpu next insns budget e b m h).
Abbreviation role_okay := (role_ok cpu e b).

Lemma role_solo i l : mem_access i = None → role_okay i l → ∀ st r imm size, role_fits cpu e b st r imm size l.
Proof. unfold role_ok. intros -> Hr st r imm size. unfold role_fits. by rewrite Hr. Qed.

Lemma emit_mem_simulates i width l c :
  instr_wf i → role_okay i l → emit_mem e i = Some c → simulated i width l c.
Proof.
  intros Hi Hrole Hc. destruct i; try discriminate; apply (inj Some) in Hc as <-; cbn [instr_wf] in Hi; destruct_and?.
  1-7: eapply (load_simulates pc0 _ _ _ _ e Henv _ _ _ Hsim Hpc);
    [done|reflexivity|done|done|by unfold lg; auto|by left|exact Hrole|by left
    |intros ? ? ? l' ? ?; destruct l'; by wrun
    |intros v Hv; first [apply wrap_range; lia|eapply urange_weaken; [|exact Hv]; cbn; lia]].
  1-4: match goal with |- simulated ?i _ _ (store _ _ _ _ ?n) => 
         pose proof (store_simulates pc0 _ _ _ _ e Henv _ _ _ Hsim Hpc i width l rs1 rs2 imm n None) as Hst end;
    cbv iota in Hst; rewrite app_nil_r in Hst;
    apply Hst; [done|reflexivity|done|done|done|by unfold lg; auto|exact Hrole|by left].
  intros Post rest Hok _. cbn [app]. eapply Hok; [reflexivity|by apply sim_retire|done|done| |by intros ???].
  by apply carried_solo.
Qed.

Lemma emit_atomic_simulates i width l c :
  instr_wf i → role_okay i l → emit_atomic e i = Some c → simulated i width l c.
Proof.
  intros Hi Hrole Hc.
  assert (Hm : mem_access i = None) by (by destruct i).
  assert (Hk : ∀ r, kills i r = true) by (by destruct i).
  pose proof (role_solo i l Hm Hrole) as Hfits. unfold role_ok in Hrole. rewrite Hm in Hrole.
  destruct i; try discriminate; apply (inj Some) in Hc as <-; cbn [instr_wf] in Hi; destruct_and?.
  all: lazymatch goal with
  | |- simulated _ _ _ (load _ _ _ _ _ _) =>
      eapply (load_simulates pc0 _ _ _ _ e Henv _ _ _ Hsim Hpc);
        [done|reflexivity|done|done|by unfold lg; auto|by right|apply Hfits|by right
        |intros ? ? ? l' ? ?; destruct l'; by wrun
        |intros v Hv; first [apply wrap_range; lia|exact Hv]]
  | |- simulated ?i _ _ (store _ _ _ _ ?n ++ _) =>
      apply (store_simulates pc0 _ _ _ _ e Henv _ _ _ Hsim Hpc i width l rs1 rs2 0 n (Some rd));
        [done|reflexivity|done|done|done|by unfold lg; auto|apply Hfits|by right]
  | |- simulated _ _ _ (amo _ _ _ _ 2 _) =>
      eapply (amo_simulates pc0 _ _ _ _ e Henv Hpc 2 32); [by left|done|done|reflexivity|done..]
  | |- simulated _ _ _ (amo _ _ _ _ 3 _) =>
      eapply (amo_simulates pc0 _ _ _ _ e Henv Hpc 3 64); [by right|done|done|reflexivity|done..]
  end.
Qed.

Lemma emit_simulates i width l c :
  instr_wf i → integer i = true → is_compilable i = true → role_okay i l →
  emit e i width = Some c → simulated i width l c.
Proof.
  intros Hi Hint Hcomp Hrole Hc. unfold emit, first_of in Hc. cbn [foldr] in Hc.
  destruct (emit_alu e i) as [c'|] eqn:E1.
  { apply (inj Some) in Hc as <-. destruct (alu_writes _ _ _ Hi E1) as (Hd & Hm & Hr).
    eapply (sets_simulates HP); try done. by eapply emit_alu_sets. }
  destruct (emit_alu_w i) as [c'|] eqn:E2.
  { apply (inj Some) in Hc as <-. destruct (alu_w_writes _ _ Hi E2) as (Hd & Hm & Hr).
    eapply (sets_simulates HP); try done. by eapply emit_alu_w_sets. }
  destruct (emit_mem e i) as [c'|] eqn:E3.
  { apply (inj Some) in Hc as <-. by apply emit_mem_simulates. }
  rewrite integer_fp, integer_csr in Hc by done.
  destruct (emit_atomic e i) as [c'|] eqn:E4.
  { apply (inj Some) in Hc as <-. by apply emit_atomic_simulates. }
  destruct (emit_mul i) as [c'|] eqn:E5.
  { apply (inj Some) in Hc as <-. destruct (mul_writes _ _ Hi E5) as (Hd & Hm & Hr).
    eapply (sets_simulates HP); try done. by eapply emit_mul_sets. }
  by rewrite compilable_jump in Hc.
Qed.
End Emit.
