(* ===== verification/JitJump.v ===== *)
(** Jumps and branches of a compiled block: at its end, where they leave the
    address of the successor in the window, and in its middle, where the trace
    follows one side and a guard leaves on the other. *)

From S2P Require Import Prelude Bits Types Decode Encode Compressed Float Cpu Fpu Execute Isa Wasm Jit JitPlan JitHost JitAccess JitAlu JitStep.

(** Where the trace goes on after an instruction: backward branches are followed
    as taken. *)
Definition trace_next (off : Z) (i : Instr) (width : Z) : Z :=
  match i with
  | Jal _ imm => off + imm
  | Beq _ _ imm | Bne _ _ imm | Blt _ _ imm | Bge _ _ imm | Bltu _ _ imm | Bgeu _ _ imm =>
      if imm <? 0 then off + imm else off + width
  | _ => off + width
  end.

(** Sources, offset, condition and comparison of a branch. *)
Definition branch_cmp (i : Instr) : option (Z * Z * Z * (Z → Z → bool) * W) :=
  match i with
  | Beq r s imm => Some (r, s, imm, Z.eqb, I64Eq)
  | Bne r s imm => Some (r, s, imm, λ a b, negb (a =? b), I64Ne)
  | Blt r s imm => Some (r, s, imm, λ a b, as_i64 a <? as_i64 b, I64LtS)
  | Bge r s imm => Some (r, s, imm, λ a b, as_i64 a >=? as_i64 b, I64GeS)
  | Bltu r s imm => Some (r, s, imm, Z.ltb, I64LtU)
  | Bgeu r s imm => Some (r, s, imm, Z.geb, I64GeU)
  | _ => None
  end.

Section Shapes.
Context {B : Type} `{Bus B} `{Profile} `{Libm}.
Implicit Types (c : Cpu.t) (b : B).

Lemma branch_shape i r s imm f w c b width :
  branch_cmp i = Some (r, s, imm, f, w) →
  execute_width i width (c, b)
  = Some (Running, (if f (Cpu.read_reg c r) (Cpu.read_reg c s) then goto c imm else retire c width, b)).
Proof.
  intros Hi. destruct i; try discriminate; injection Hi as <- <- <- <- <-; runs; unfold branch_if;
    rewrite !rr_run; (match goal with |- (if ?x then _ else _) _ = _ => destruct x end); (apply jump_rel_run || done).
Qed.

Lemma jal_shape rd imm c b width :
  reg rd →
  execute_width (Jal rd imm) width (c, b)
  = Some (Running, (goto (Cpu.set_reg c rd (as_u64 (Cpu.pc c + as_u64 width))) imm, b)).
Proof. intros Hr. runs. rewrite write_x_run by done. apply jump_rel_run. Qed.

Lemma jalr_shape rd r imm c b width :
  reg rd →
  execute_width (Jalr rd r imm) width (c, b)
  = Some (Running, (set_field Cpu.pc (λ _, Z.land (target c r imm) (unot 64 1))
                      (Cpu.set_reg c rd (as_u64 (Cpu.pc c + as_u64 width))), b)).
Proof. intros Hr. runs. rewrite ea_run, get_pc_run, write_x_run, effective by done. done. Qed.
End Shapes.

Section Jump.
Context {H B : Type} {BU : Bus B} {IM : Imports H} {chain : option ChainCfg.t} {JH : JitHost H B chain}.
Context {PR : Profile} {L : Libm}.
Context (pc0 : Z) (cpu : Cpu.t) (next insns budget : Z) (e : Emit.t).
Context (Hpc : Cpu.pc cpu = at_pc pc0 e).
Context (b : B) (m : Lin.t) (h : H) (Hsim : sim cpu b 0 next insns budget m h).
Let Hwf := sim_wf _ _ _ _ _ _ _ _ Hsim.

(** The address of an offset. *)
Definition pc_of (off : Z) : Z := as_u64 (pc0 + as_u64 off).

Lemma pc_of_add d : as_u64 (Cpu.pc cpu + d) = pc_of (Emit.off e + d).
Proof.
  rewrite Hpc. unfold at_pc, pc_of. rewrite wrap_add_l, !wrap_add_r by lia.
  rewrite <- (wrap_add_l 64 (pc0 + _)), wrap_add_r, wrap_add_l by lia. f_equal. lia.
Qed.
Lemma pc_of_range off : urange 64 (pc_of off).
Proof. apply wrap_range. lia. Qed.

Lemma sim_pc c b0 f n i u m0 h0 v : urange 64 v → sim c b0 f n i u m0 h0 → sim (c <| Cpu.pc := v |>) b0 f n i u m0 h0.
Proof. intros Hv [Hs Hh Hw]. constructor; [done..|by apply Cpu.set_pc_wf]. Qed.
Lemma sim_goto c b0 f n i u m0 h0 imm : sim c b0 f n i u m0 h0 → sim (goto c imm) b0 f n i u m0 h0.
Proof. apply sim_pc. apply (wrap_range 64). lia. Qed.

(** ** The words of the window *)

Lemma run_set_next_pc l l1 body v :
  urange 64 v → (∀ k c, run (body ++ c) (stt pc0 k l m h) = run c (stt pc0 (V64 v :: k) l1 m h)) →
  ∃ m', (∀ k rest, run (set_next_pc body ++ rest) (stt pc0 k l m h) = run rest (stt pc0 k (l1 <| Loc.next := v |>) m' h))
        ∧ sim cpu b 0 v insns budget m' h.
Proof.
  intros Hv Hrun.
  destruct (store_word _ _ _ _ _ _ _ _ Hsim 1 v 0 v insns budget ltac:(lia) Hv eq_refl) as (m' & Hst & Hs).
  exists m'. split; [|done]. intros k rest. unfold set_next_pc. rewrite <- app_assoc, Hrun. cbn [app].
  destruct l1. do 3 wstep. by rewrite (run_store64 _ _ _ _ _ _ _ _ _ _ m') by done.
Qed.

Lemma run_count_insns n l k rest :
  ∃ m', run (count_insns n ++ rest) (stt pc0 k l m h) = run rest (stt pc0 k l m' h)
        ∧ sim cpu b 0 next (as_u64 (insns + as_u64 n)) budget m' h.
Proof.
  set (v := as_u64 (insns + as_u64 n)). assert (Hv : urange 64 v) by (apply wrap_range; lia).
  destruct (store_word _ _ _ _ _ _ _ _ Hsim 2 v 0 next v budget ltac:(lia) Hv eq_refl) as (m' & Hst & Hs).
  exists m'. split; [|done]. unfold count_insns. destruct l. cbn [app]. do 2 wstep.
  rewrite (run_load64 _ _ _ _ insns); [|exact (load_word _ _ _ _ _ _ _ _ Hsim 2 insns eq_refl)].
  do 2 wstep. by rewrite (run_store64 _ _ _ _ _ _ _ _ _ _ m') by done.
Qed.

Lemma run_set_plain rd body v l :
  reg rd → urange 64 v → (∀ k c, run (body ++ c) (stt pc0 k l m h) = run c (stt pc0 (V64 v :: k) l m h)) →
  ∃ m', (∀ rest, run (set_with rd body ++ rest) (stt pc0 [] l m h) = run rest (stt pc0 [] l m' h))
        ∧ sim (Cpu.set_reg cpu rd v) b 0 next insns budget m' h.
Proof.
  intros Hd Hv Hrun. unfold set_with. destruct (Z.eqb_spec rd 0) as [->|Hne].
  - by exists m.
  - destruct (store_reg _ _ _ _ _ _ _ _ Hsim rd v Hd Hne Hv) as (m' & Hst & Hs). exists m'. split; [|done].
    intros rest. cbn [app]. rewrite <- app_assoc.
    rewrite run_next with (s' := stt pc0 [V32 host_regs] l m h) by (by destruct l).
    rewrite Hrun. cbn [app]. by rewrite (run_store64 _ _ _ _ _ _ _ _ _ _ m') by done.
Qed.

Lemma run_offset x k c l :
  run (LocalGet L_PC :: I64Const x :: I64Add :: c) (stt pc0 k l m h) = run c (stt pc0 (V64 (pc_of x) :: k) l m h).
Proof. destruct l. by do 3 wstep. Qed.

Lemma run_branch_cond i r s imm f w k c l :
  reg r → reg s → branch_cmp i = Some (r, s, imm, f, w) →
  run (branch_cond r s w ++ c) (stt pc0 k l m h)
  = run c (stt pc0 (V32 (b2z (f (Cpu.read_reg cpu r) (Cpu.read_reg cpu s))) :: k) l m h).
Proof.
  intros Hr Hs Hi. unfold branch_cond. rewrite <- !app_assoc.
  rewrite !(run_reg pc0 _ _ _ _ _ _ _ _ Hsim) by done. cbn [app]. destruct l.
  destruct i; try discriminate; injection Hi as <- <- <- <- <-; by wstep.
Qed.
End Jump.

Section Control.
Context {H B : Type} {BU : Bus B} {IM : Imports H} {chain : option ChainCfg.t} {JH : JitHost H B chain}.
Context {PR : Profile} {L : Libm}.
Context (pc0 : Z) (cpu : Cpu.t) (next insns budget : Z) (e : Emit.t).
Context (Hpc : Cpu.pc cpu = at_pc pc0 e).
Context (b : B) (m : Lin.t) (h : H) (Hsim : sim cpu b 0 next insns budget m h).

(** ** The last instruction *)

(** After [c] the window names the successor, and so does [L_NEXT]. *)
Definition ends (i : Instr) (width : Z) (l : Loc.t) (c : list W) : Prop :=
  ∀ (Post : option (res H) → Prop) rest,
  (∀ cpu' l' m', execute_width i width (cpu, b) = Some (Running, (cpu', b)) →
     sim cpu' b 0 (Cpu.pc cpu') insns budget m' h → Loc.next l' = Cpu.pc cpu' →
     Post (run rest (stt pc0 [] l' m' h))) →
  Post (run (c ++ rest) (stt pc0 [] l m h)).

Lemma branch_ends i r s imm f w width l :
  reg r → reg s → branch_cmp i = Some (r, s, imm, f, w) → ends i width l (branch e r s imm width w).
Proof.
  intros Hr Hs Hi Post rest Hok. pose proof (branch_shape i r s imm f w cpu b width Hi) as Hx.
  set (t := f _ _) in Hx.
  set (v := if t then pc_of pc0 (Emit.off e + imm) else pc_of pc0 (Emit.off e + width)).
  assert (Hv : urange 64 v) by (unfold v; destruct t; apply pc_of_range).
  destruct (run_set_next_pc pc0 cpu next insns budget b m h Hsim l l
    ([LocalGet L_PC; I64Const (Emit.off e + imm); I64Add; LocalGet L_PC; I64Const (Emit.off e + width); I64Add]
     ++ get_reg r ++ get_reg s ++ [w; Select]) v Hv) as (m' & Hrun & Hs').
  { intros k c. rewrite <- app_assoc. cbn [app]. rewrite !run_offset.
    replace ((get_reg r ++ get_reg s ++ [w; Select]) ++ c) with (branch_cond r s w ++ Select :: c).
    - rewrite (run_branch_cond pc0 _ _ _ _ _ _ _ Hsim i r s imm f w) by done. fold t.
      destruct l. wstep. unfold v. by destruct t.
    - unfold branch_cond. by rewrite <- !app_assoc. }
  unfold branch. rewrite (Hrun []).
  assert (Epc : Cpu.pc (if t then goto cpu imm else retire cpu width) = v).
  { unfold v. destruct t; cbn; symmetry; rewrite <- (pc_of_add pc0 cpu e Hpc); [done|]. by rewrite wrap_add_r. }
  eapply Hok; [exact Hx| |by rewrite Epc]. rewrite Epc.
  destruct t; [by apply sim_goto|by apply sim_retire].
Qed.

Lemma jal_ends rd imm width l :
  reg rd → ends (Jal rd imm) width l
    (set_with rd (here e width) ++ set_next_pc [LocalGet L_PC; I64Const (Emit.off e + imm); I64Add]).
Proof.
  intros Hr Post rest Hok. rewrite <- app_assoc.
  destruct (run_set_plain pc0 _ _ _ _ _ _ _ Hsim rd (here e width) (pc_of pc0 (Emit.off e + width)) l Hr
    ltac:(apply pc_of_range)) as (m1 & Hrun1 & Hs1).
  { intros k c. apply run_offset. }
  rewrite Hrun1. 
  destruct (run_set_next_pc pc0 _ _ _ _ _ _ _ Hs1 l l [LocalGet L_PC; I64Const (Emit.off e + imm); I64Add]
    (pc_of pc0 (Emit.off e + imm)) ltac:(apply pc_of_range)) as (m2 & Hrun2 & Hs2).
  { intros k c. apply run_offset. }
  rewrite Hrun2. rewrite <- (pc_of_add pc0 cpu e Hpc) in Hs1, Hs2 |- *. rewrite <- (pc_of_add pc0 cpu e Hpc) in Hs2.
  assert (Epc : Cpu.pc (goto (Cpu.set_reg cpu rd (as_u64 (Cpu.pc cpu + as_u64 width))) imm) = as_u64 (Cpu.pc cpu + imm)).
  { unfold goto, Cpu.set_reg. by destruct (rd =? 0). }
  eapply Hok; [by apply jal_shape| |by rewrite Epc]. rewrite Epc, wrap_add_r by lia. by apply sim_goto.
Qed.

Lemma jalr_ends rd r imm width l :
  reg rd → reg r → ends (Jalr rd r imm) width l
    (get_reg r ++ [I64Const imm; I64Add; I64Const (-2); I64And; LocalSet L_TMP]
     ++ set_with rd (here e width) ++ set_next_pc [LocalGet L_TMP]).
Proof.
  intros Hd Hr Post rest Hok. rewrite <- !app_assoc, (run_reg pc0 _ _ _ _ _ _ _ _ Hsim) by done.
  set (t := Z.land (target cpu r imm) (unot 64 1)).
  assert (Et : as_u64 (Z.land (target cpu r imm) (as_u64 (-2))) = t).
  { rewrite Isa.wrap_land by lia. unfold target at 1. by rewrite !wrap_wrap by lia. }
  assert (Ht : urange 64 t) by (rewrite <- Et; apply wrap_range; lia).
  cbn [app]. rewrite run_next with (s' := stt pc0 [V64 (as_u64 imm); V64 (Cpu.read_reg cpu r)] l m h) by (by destruct l).
  rewrite run_next with (s' := stt pc0 [V64 (target cpu r imm)] l m h) by (by destruct l).
  rewrite run_next with (s' := stt pc0 [V64 (as_u64 (-2)); V64 (target cpu r imm)] l m h) by (by destruct l).
  rewrite run_next with (s' := stt pc0 [V64 t] l m h) by (rewrite <- Et; by destruct l).
  rewrite run_next with (s' := stt pc0 [] (set_tmp t l) m h) by (by destruct l).
  destruct (run_set_plain pc0 _ _ _ _ _ _ _ Hsim rd (here e width) (pc_of pc0 (Emit.off e + width)) (set_tmp t l) Hd
    ltac:(apply pc_of_range)) as (m1 & Hrun1 & Hs1).
  { intros k c. apply run_offset. }
  rewrite Hrun1.
  destruct (run_set_next_pc pc0 _ _ _ _ _ _ _ Hs1 (set_tmp t l) (set_tmp t l) [LocalGet L_TMP] t Ht) as (m2 & Hrun2 & Hs2).
  { intros k c. apply run_next. by destruct l. }
  rewrite Hrun2. rewrite <- (pc_of_add pc0 cpu e Hpc), <- wrap_add_r in Hs2 by lia.
  eapply Hok; [by apply jalr_shape| |done]. by apply sim_pc.
Qed.

Lemma emit_jump_ends i width l c :
  instr_wf i → is_terminator i = true → emit_jump e i width = Some c → ends i width l c.
Proof.
  intros Hi Ht Hc. destruct i; try discriminate; apply (inj Some) in Hc as <-; cbn [instr_wf] in Hi; destruct_and?;
    cbn [RAS_ON andb]; rewrite ?app_nil_r; first [by apply jal_ends|by apply jalr_ends|by eapply branch_ends].
Qed.

(** ** Inside the trace *)

(** The trace goes on, or the code leaves the block with the instructions
    counted. *)
Definition guards (i : Instr) (width count : Z) (l : Loc.t) (c : list W) : Prop :=
  ∀ (Post : option (res H) → Prop) rest,
  (∀ cpu' l' m', execute_width i width (cpu, b) = Some (Running, (cpu', b)) →
     sim cpu' b 0 next insns budget m' h → Cpu.pc cpu' = pc_of pc0 (trace_next (Emit.off e) i width) →
     (∀ r, reg r → kills i r = false → Cpu.read_reg cpu' r = Cpu.read_reg cpu r) → Loc.groups l' = Loc.groups l →
     Post (run rest (stt pc0 [] l' m' h))) →
  (∀ cpu' l' m', execute_width i width (cpu, b) = Some (Running, (cpu', b)) →
     sim cpu' b 0 (Cpu.pc cpu') (as_u64 (insns + as_u64 count)) budget m' h → Loc.next l' = Cpu.pc cpu' →
     Post (Some (RBr 0 (stt pc0 [] l' m' h)))) →
  Post (run (c ++ rest) (stt pc0 [] l m h)).

Lemma jal_guards rd imm width count l : reg rd → guards (Jal rd imm) width count l (jal_link_only e rd width).
Proof.
  intros Hr Post rest Hok _. unfold jal_link_only.
  destruct (run_set_plain pc0 _ _ _ _ _ _ _ Hsim rd (here e width) (pc_of pc0 (Emit.off e + width)) l Hr
    ltac:(apply pc_of_range)) as (m1 & Hrun1 & Hs1).
  { intros k c. apply run_offset. }
  rewrite Hrun1. rewrite <- (pc_of_add pc0 cpu e Hpc), <- wrap_add_r in Hs1 by lia.
  eapply Hok; [by apply jal_shape|by apply sim_goto| | |done].
  - cbn [trace_next]. rewrite <- (pc_of_add pc0 cpu e Hpc). unfold goto, Cpu.set_reg. by destruct (rd =? 0).
  - intros r Hr' Hk. eapply (set_reg_frame _ _ _ _ _ _ _ Hsim (Jal rd imm)); try done; [apply wrap_range; lia|by left].
Qed.

(** Leaving through the inner conditional. *)
Lemma run_exit x count l :
  ∃ l' m', run (set_next_pc [LocalGet L_PC; I64Const x; I64Add] ++ count_insns count ++ [Br 1]) (stt pc0 [] l m h)
           = Some (RBr 1 (stt pc0 [] l' m' h)) ∧ Loc.next l' = pc_of pc0 x ∧
           sim cpu b 0 (pc_of pc0 x) (as_u64 (insns + as_u64 count)) budget m' h.
Proof.
  destruct (run_set_next_pc pc0 _ _ _ _ _ _ _ Hsim l l [LocalGet L_PC; I64Const x; I64Add]
    (pc_of pc0 x) ltac:(apply pc_of_range)) as (m2 & Hrun2 & Hs2).
  { intros k c. apply run_offset. }
  destruct (run_count_insns pc0 _ _ _ _ _ _ _ Hs2 count (l <| Loc.next := pc_of pc0 x |>) [] [Br 1]) as (m3 & Hrun3 & Hs3).
  exists (l <| Loc.next := pc_of pc0 x |>), m3. rewrite Hrun2, Hrun3. by split_and!.
Qed.

Lemma branch_guards i r s imm f w width count l :
  reg r → reg s → branch_cmp i = Some (r, s, imm, f, w) →
  guards i width count l (branch_guard e r s imm width w (imm <? 0) count).
Proof.
  intros Hr Hs Hi Post rest Hok Hleave. pose proof (branch_shape i r s imm f w cpu b width Hi) as Hx.
  unfold branch_guard. rewrite <- !app_assoc, (run_branch_cond pc0 _ _ _ _ _ _ _ Hsim i r s imm f w) by done.
  set (t := f _ _) in *. cbv zeta. set (fol := imm <? 0). set (to := if fol then Emit.off e + width else Emit.off e + imm).
  assert (Etn : trace_next (Emit.off e) i width = if fol then Emit.off e + imm else Emit.off e + width).
  { destruct i; try discriminate; by injection Hi as _ _ <- _ _. }
  assert (Epc : Cpu.pc (if t then goto cpu imm else retire cpu width)
                = pc_of pc0 (if t then Emit.off e + imm else Emit.off e + width)).
  { destruct t; cbn; rewrite <- (pc_of_add pc0 cpu e Hpc); [done|]. by rewrite wrap_add_r. }
  assert (Hs' : ∀ n u m', sim cpu b 0 n u budget m' h → sim (if t then goto cpu imm else retire cpu width) b 0 n u budget m' h).
  { intros n u m' Hm. destruct t; [by apply sim_goto|by apply sim_retire]. }
  set (lv := if fol then negb t else t).
  assert (Hlv : ∀ c, run ((if fol then [I32Eqz] else []) ++ c) (stt pc0 [V32 (b2z t)] l m h)
                     = run c (stt pc0 [V32 (b2z lv)] l m h)).
  { intros c. unfold lv. destruct fol; [|done]. apply run_next. by destruct t. }
  rewrite Hlv. cbn [app]. rewrite run_if.
  destruct (run_exit to count l) as (l' & m' & Hrun & Hn & Hs2).
  destruct lv eqn:Elv; subst lv.
  - assert (Eto : to = if t then Emit.off e + imm else Emit.off e + width) by (unfold to; by destruct fol, t).
    cbn [b2z Z.eqb]. rewrite Hrun. cbn [mbind option_bind leave].
    eapply Hleave; [exact Hx| |by rewrite Epc, <- Eto]. rewrite Epc, <- Eto. by apply Hs'.
  - cbn [b2z Z.eqb]. change (run [] (stt pc0 [] l m h)) with (Some (RNext (stt pc0 [] l m h))). cbn [mbind option_bind leave].
    eapply (Hok _ l); [exact Hx|by apply Hs'| | |done].
    + rewrite Epc, Etn. f_equal. by destruct fol, t.
    + intros r' _ _. by destruct t.
Qed.

Lemma emit_mid_guards i width count l c :
  instr_wf i → emit_mid e i width count = Some c → guards i width count l c.
Proof.
  intros Hi Hc. destruct i; try discriminate; apply (inj Some) in Hc as <-; cbn [instr_wf] in Hi; destruct_and?;
    cbn [RAS_ON andb]; rewrite ?app_nil_r; first [by apply jal_guards|by eapply branch_guards].
Qed.
End Control.
