(* ===== verification/JitSim.v ===== *)
(** A compiled block does what the interpreter does.

    The block follows one path through the guest's code; running it from a
    window that shows a hart is some number of the interpreter's steps from that
    hart, whichever way the block ends. *)

From S2P Require Import Prelude Bits Types Decode Encode Compressed Float Cpu Fpu Execute Isa Wasm Jit JitPlan JitHost JitAccess JitAlu JitStep JitJump.

(** * The shape of the emitted loop *)

Definition is_jalr (i : Instr) : bool := match i with Jalr _ _ _ => true | _ => false end.

Lemma emit_total e i w : is_compilable i = true ∨ is_terminator i = true → ∃ c, emit e i w = Some c.
Proof. intros Hi. destruct i; try (by destruct Hi); by eexists. Qed.

Lemma emit_mid_total e i w n : is_terminator i = true → is_jalr i = false → ∃ c, emit_mid e i w n = Some c.
Proof. intros Hi Hj. destruct i; try done; by eexists. Qed.

Section Shape.
Context (chain : option ChainCfg.t) (fp : option FpCfg.t).

(** The code for one instruction of the trace. *)
Definition piece (n : nat) (role : Role) (s : Src) (l : list Src) : option (list W) :=
  let e := env_at chain fp s.2 role in
  if is_compilable s.1.1 then emit e s.1.1 s.1.2
  else match l with [] => emit e s.1.1 s.1.2 | _ => emit_mid e s.1.1 s.1.2 (Z.of_nat n + 1) end.

Lemma emit_loop_step role roles n (s : Src) (l : list Src) c :
  plain role → is_compilable s.1.1 = true ∨ is_terminator s.1.1 = true → length roles = length l →
  piece n role s l = Some c →
  emit_loop chain fp (role :: roles) n (s :: l)
  = (c ++ (emit_loop chain fp roles (n + 1) l).1, (emit_loop chain fp roles (n + 1) l).2).
Proof.
  destruct s as [[i w] off]. unfold piece. cbn [fst snd]. intros Hp Hi Hlen Hc. cbn [emit_loop FUSE_ON]. cbv zeta.
  destruct (is_compilable i) eqn:Ei.
  - assert (E : (match l, roles, None (A := Z * bool * Z) with
       | _ :: l'', _ :: roles'', Some (rd, pc_rel, konst) =>
           let '(c', n') := emit_loop chain fp roles'' (n + 2) l'' in (fused_const rd pc_rel konst ++ c', n')
       | _, _, _ =>
           match emit (env_at chain fp off role) i w with
           | Some c => let '(c', n') := emit_loop chain fp roles (n + 1) l in (c ++ c', n')
           | None => ([], n)
           end
       end) = (c ++ (emit_loop chain fp roles (n + 1) l).1, (emit_loop chain fp roles (n + 1) l).2)).
    { rewrite Hc. destruct (emit_loop chain fp roles (n + 1) l). by destruct l, roles. }
    by destruct role.
  - destruct Hi as [|Ht]; [done|]. rewrite Ht. cbn [negb]. destruct l as [|s' l].
    + destruct roles; [|done]. rewrite Hc. cbn. by rewrite app_nil_r.
    + rewrite Hc. by destruct (emit_loop chain fp roles (n + 1) (s' :: l)).
Qed.
End Shape.

(** * Steps of the interpreter *)

Section Steps.
Context {B : Type} {BU : Bus B} {PR : Profile} {L : Libm}.

(** [code] is what is fetched and decoded at a virtual address. *)
Context (code : Z → option (Instr * Z)).

Inductive steps : nat → Cpu.t → B → Cpu.t → B → Prop :=
| steps_none c b : steps 0 c b c b
| steps_more n c b i w c1 b1 c2 b2 :
    steps n c b c1 b1 → code (Cpu.pc c1) = Some (i, w) →
    execute_width i w (c1, b1) = Some (Running, (c2, b2)) → steps (S n) c b c2 b2.
End Steps.

(** * The trace *)

Section Trace.
Context (code : Z → option (Instr * Z)) (pc0 : Z).

(** A trace from [pc0]: instructions fetched along the path that the compiler
    assumes, none of them floating point or CSR. *)
Record traced (insns : list Src) : Prop := mk_traced {
  tr_first s : insns !! 0%nat = Some s → s.2 = 0;
  tr_code j i w off : insns !! j = Some (i, w, off) → code (pc_of pc0 off) = Some (i, w);
  tr_wf j s : insns !! j = Some s → instr_wf s.1.1 ∧ integer s.1.1 = true ∧
              (is_compilable s.1.1 = true ∨ is_terminator s.1.1 = true);
  tr_next j s s' : insns !! j = Some s → insns !! S j = Some s' →
                   is_jalr s.1.1 = false ∧ s'.2 = trace_next s.2 s.1.1 s.1.2;
}.
End Trace.

(** * The loop *)

Section Loop.
Context {H B : Type} {BU : Bus B} {IM : Imports H} {chain : option ChainCfg.t} {JH : JitHost H B chain}.
Context {PR : Profile} {L : Libm} (HP : overflow_checks = false).
Context (code : Z → option (Instr * Z)) (pc0 : Z) (insns : list Src) (Htr : traced code pc0 insns).
Context (fp : option FpCfg.t) (cpu0 : Cpu.t) (b0 : B) (next insns0 budget : Z).
Implicit Types (cpu : Cpu.t) (b : B) (l : Loc.t) (m : Lin.t) (h : H).

Let roles := roles_of chain insns.

(** Every open group holds at position [j]. *)
Definition groups_hold (j : nat) cpu b l : Prop := ∀ st i0 mn span r,
  linked insns roles st i0 j mn span r → led st r mn span (Loc.page st l) (Loc.flag st l) cpu b.

(** The hart is at position [j] of the trace. *)
Record at_step (j : nat) cpu b l m h : Prop := mk_at_step {
  as_steps : steps code j cpu0 b0 cpu b;
  as_sim : sim cpu b 0 next insns0 budget m h;
  as_pc s : insns !! j = Some s → Cpu.pc cpu = pc_of pc0 s.2;
  as_groups : groups_hold j cpu b l;
}.

(** The ways a block may go. *)
Context (Post : option (res H) → Prop) (rest : list W).
Context (Hfall : ∀ cpu b l m h s, last insns = Some s → is_terminator s.1.1 = false →
  steps code (length insns) cpu0 b0 cpu b → sim cpu b 0 next insns0 budget m h →
  Cpu.pc cpu = pc_of pc0 (s.2 + s.1.2) → Post (run rest (stt pc0 [] l m h))).
Context (Hterm : ∀ cpu b l m h s, last insns = Some s → is_terminator s.1.1 = true →
  steps code (length insns) cpu0 b0 cpu b → sim cpu b 0 (Cpu.pc cpu) insns0 budget m h →
  Loc.next l = Cpu.pc cpu → Post (run rest (stt pc0 [] l m h))).
Context (Hleave : ∀ k cpu b l m h, (0 < k <= length insns)%nat →
  steps code k cpu0 b0 cpu b → sim cpu b 0 (Cpu.pc cpu) (as_u64 (insns0 + as_u64 (Z.of_nat k))) budget m h →
  Loc.next l = Cpu.pc cpu → Post (Some (RBr 0 (stt pc0 [] l m h)))).
Context (Hfault : ∀ k cpu b b' l m h i w, (k < length insns)%nat →
  steps code k cpu0 b0 cpu b → code (Cpu.pc cpu) = Some (i, w) → execute_width i w (cpu, b) = None →
  sim cpu b' 1 next insns0 budget m h → host_fault_pc h = Cpu.pc cpu → Post (Some (RReturn (stt pc0 [] l m h)))).

Lemma access_reg j r imm size st : access_at insns j r imm size st → reg r.
Proof.
  intros (s & E & Hm). destruct (tr_wf _ _ _ Htr j s E) as (Hw & _). destruct s as [[i w] off]. cbn in *.
  destruct i; try discriminate; cbn in Hm, Hw; injection Hm as <- _ _ _; tauto.
Qed.

Lemma linked_shorter st i0 j mn span r :
  linked insns roles st i0 (S j) mn span r → (i0 < j)%nat → linked insns roles st i0 j mn span r.
Proof.
  intros (_ & H1 & H2 & H3 & H4) Hlt. split_and!; try done; [intros x ? ?; apply H3; lia|intros x ?; apply H4; lia].
Qed.

Lemma led_frame st r mn span page flag cpu cpu' b b' :
  Cpu.read_reg cpu' r = Cpu.read_reg cpu r → still_mapped b b' →
  led st r mn span page flag cpu b → led st r mn span page flag cpu' b'.
Proof. intros Hr Hm Hl Hf. rewrite Hr. destruct (Hl Hf) as [H1 H2]. split; [by apply Hm|done]. Qed.

(** A step of the trace keeps the groups. *)
Lemma groups_step j s role cpu b l cpu' b' l' :
  insns !! j = Some s → roles !! j = Some role → groups_hold j cpu b l →
  (∀ r, reg r → kills s.1.1 r = false → Cpu.read_reg cpu' r = Cpu.read_reg cpu r) →
  carried cpu (env_at chain fp s.2 role) b (base_of s.1.1) l l' → still_mapped b b' → groups_hold (S j) cpu' b' l'.
Proof.
  intros Es Er Hg Hregs Hc Hmap st i0 mn span r Hl. pose proof Hl as (Hlt & Hlead & (imm & size & Ha) & Hbet & Hfree).
  assert (Hr : Cpu.read_reg cpu' r = Cpu.read_reg cpu r).
  { apply Hregs; [by eapply access_reg|]. apply (Hfree j ltac:(lia) s Es). }
  specialize (Hc st). cbn [Emit.role env_at] in Hc. eapply led_frame; [exact Hr|exact Hmap|].
  destruct (decide (i0 = j)) as [->|Hne].
  - assert (role = Leader st mn span) as -> by congruence. rewrite Bool.eqb_reflx in Hc.
    destruct Ha as (s' & Es' & Hm). assert (s' = s) as -> by congruence. unfold base_of in Hc. by rewrite Hm in Hc.
  - assert (Hsame : same_group st l l').
    { pose proof (Hbet j role ltac:(lia) Er) as Hn. destruct role; try done. cbn in Hn. by destruct (Bool.eqb_spec store st). }
    destruct Hsame as [-> ->]. eapply Hg, linked_shorter; [exact Hl|lia].
Qed.

Lemma role_here j s role cpu b l :
  insns !! j = Some s → roles !! j = Some role → groups_hold j cpu b l →
  role_ok cpu (env_at chain fp s.2 role) b s.1.1 l.
Proof.
  intros Es Er Hg. pose proof (roles_of_sound insns chain j role Er) as Hsound.
  assert (Hsolo : Emit.tlb (env_at chain fp s.2 role) = None → role = Solo).
  { intros Ht. by eapply (roles_of_no_tlb insns chain j). }
  unfold role_ok, role_fits. cbn [Emit.role env_at].
  destruct (mem_access s.1.1) as [[[[r imm] size] st]|] eqn:Em.
  - assert (Ha : access_at insns j r imm size st) by by exists s.
    split; [done|]. destruct role; try done; cbn in Hsound.
    + destruct Hsound as (r' & imm' & size' & Ha' & H1 & H2 & H3).
      destruct (access_fun _ _ _ _ _ _ _ _ _ _ Ha Ha') as (<- & <- & <- & <-). done.
    + destruct Hsound as (i0 & mn & span & r' & imm' & size' & Hl & Ha' & H1 & H2).
      destruct (access_fun _ _ _ _ _ _ _ _ _ _ Ha Ha') as (<- & <- & <- & <-). split; [done|].
      exists mn, span. split_and!; [done|done|]. by eapply Hg.
  - destruct role; try done; cbn in Hsound.
    + destruct Hsound as (r' & imm' & size' & (s' & Es' & Hm) & _). congruence.
    + destruct Hsound as (i0 & mn & span & r' & imm' & size' & _ & (s' & Es' & Hm) & _). congruence.
Qed.

Lemma emit_terminator e i w : is_terminator i = true → emit e i w = emit_jump e i w.
Proof. by destruct i. Qed.
Lemma compilable_next i off w : is_compilable i = true → trace_next off i w = off + w.
Proof. by destruct i. Qed.
Lemma compilable_falls i : is_compilable i = true → is_terminator i = false.
Proof. by destruct i. Qed.
Lemma jump_solo i : is_terminator i = true → mem_access i = None.
Proof. by destruct i. Qed.

(** Past an instruction that does not jump. *)
Lemma pc_past off w cpu : Cpu.pc cpu = pc_of pc0 off → as_u64 (Cpu.pc cpu + as_u64 w) = pc_of pc0 (off + w).
Proof.
  intros ->. unfold pc_of. rewrite wrap_add_l, wrap_add_r, !wrap_add_r by lia. 
  rewrite <- (wrap_add_l 64 (pc0 + _)), wrap_add_r, wrap_add_l by lia. f_equal. lia.
Qed.

Lemma fetched j s cpu b loc m h :
  insns !! j = Some s → at_step j cpu b loc m h → code (Cpu.pc cpu) = Some (s.1.1, s.1.2).
Proof.
  intros Es Ha. rewrite (as_pc _ _ _ _ _ _ Ha s Es). eapply (tr_code _ _ _ Htr j). by destruct s as [[??]?].
Qed.

(** One instruction that does not jump. *)
Lemma ordinary_step j s role cpu b loc m h c rest' :
  insns !! j = Some s → roles !! j = Some role → is_compilable s.1.1 = true → at_step j cpu b loc m h →
  emit (env_at chain fp s.2 role) s.1.1 s.1.2 = Some c →
  (∀ cpu' b' loc' m' h', at_step (S j) cpu' b' loc' m' h' → Cpu.pc cpu' = pc_of pc0 (s.2 + s.1.2) →
     Post (run rest' (stt pc0 [] loc' m' h'))) →
  Post (run (c ++ rest') (stt pc0 [] loc m h)).
Proof.
  intros Es Er Ec Ha Hc Hk. pose proof (fetched _ _ _ _ _ _ _ Es Ha) as Hfetch. destruct Ha as [Hst Hsim Hpc Hg].
  specialize (Hpc s Es). destruct (tr_wf _ _ _ Htr j s Es) as (Hwf & Hint & _).
  apply (emit_simulates HP pc0 cpu next insns0 budget (env_at chain fp s.2 role) eq_refl Hpc b m h Hsim
           s.1.1 s.1.2 loc c Hwf Hint Ec (role_here _ _ _ _ _ _ Es Er Hg) Hc).
  - intros cpu' b' l' m' h' Hx Hsim' Hpc' Hregs Hcar Hmap.
    rewrite (pc_past s.2 s.1.2) in Hpc' by done. apply (Hk cpu' b'); [|done].
    constructor; [by eapply steps_more|done| |by eapply groups_step].
    intros s' Es'. destruct (tr_next _ _ _ Htr j s s' Es Es') as [_ ->]. by rewrite compilable_next.
  - intros l' m' h' b' Hx Hsim' Hf. eapply Hfault; try done. by apply lookup_lt_Some in Es.
Qed.

(** A jump inside the trace. *)
Lemma guard_step j s role cpu b loc m h c rest' :
  insns !! j = Some s → roles !! j = Some role → is_terminator s.1.1 = true → at_step j cpu b loc m h →
  emit_mid (env_at chain fp s.2 role) s.1.1 s.1.2 (Z.of_nat j + 1) = Some c →
  (∀ cpu' loc' m', at_step (S j) cpu' b loc' m' h → Post (run rest' (stt pc0 [] loc' m' h))) →
  Post (run (c ++ rest') (stt pc0 [] loc m h)).
Proof.
  intros Es Er Ht Ha Hc Hk. pose proof (fetched _ _ _ _ _ _ _ Es Ha) as Hfetch. destruct Ha as [Hst Hsim Hpc Hg].
  specialize (Hpc s Es). destruct (tr_wf _ _ _ Htr j s Es) as (Hwf & _).
  pose proof (role_here _ _ _ _ _ _ Es Er Hg) as Hrole. unfold role_ok in Hrole. rewrite jump_solo in Hrole by done.
  apply (emit_mid_guards pc0 cpu next insns0 budget (env_at chain fp s.2 role) Hpc b m h Hsim s.1.1 s.1.2 _ loc c Hwf Hc).
  - intros cpu' l' m' Hx Hsim' Hpc' Hregs Hgr. apply (Hk cpu').
    constructor; [by eapply steps_more|done| |].
    + intros s' Es'. by destruct (tr_next _ _ _ Htr j s s' Es Es') as [_ ->].
    + eapply groups_step; [done..| |by intros ???]. by apply carried_solo.
  - intros cpu' l' m' Hx Hsim' Hn. replace (Z.of_nat j + 1) with (Z.of_nat (S j)) in Hsim' by lia.
    eapply (Hleave (S j)); [|by eapply steps_more|exact Hsim'|done]. split; [lia|]. by apply lookup_lt_Some in Es.
Qed.

(** A jump that ends it. *)
Lemma jump_step j s role cpu b loc m h c :
  insns !! j = Some s → last insns = Some s → S j = length insns → is_terminator s.1.1 = true →
  at_step j cpu b loc m h → emit (env_at chain fp s.2 role) s.1.1 s.1.2 = Some c →
  Post (run (c ++ rest) (stt pc0 [] loc m h)).
Proof.
  intros Es E1 E2 Ht Ha Hc. pose proof (fetched _ _ _ _ _ _ _ Es Ha) as Hfetch. destruct Ha as [Hst Hsim Hpc Hg].
  specialize (Hpc s Es). destruct (tr_wf _ _ _ Htr j s Es) as (Hwf & _). rewrite emit_terminator in Hc by done.
  apply (emit_jump_ends pc0 cpu next insns0 budget (env_at chain fp s.2 role) Hpc b m h Hsim s.1.1 s.1.2 loc c Hwf Ht Hc).
  intros cpu' l' m' Hx Hsim' Hn. eapply Hterm; try done. rewrite <- E2. by eapply steps_more.
Qed.

Lemma emit_loop_nil rs n : emit_loop chain fp rs n [] = ([], n).
Proof. by destruct rs. Qed.

Lemma loop_runs (l : list Src) j cpu b (loc : Loc.t) m h :
  l = drop j insns → at_step j cpu b loc m h →
  (l = [] → j = length insns ∧ ∃ s, last insns = Some s ∧ is_terminator s.1.1 = false ∧ Cpu.pc cpu = pc_of pc0 (s.2 + s.1.2)) →
  Post (run ((emit_loop chain fp (drop j roles) j l).1 ++ rest) (stt pc0 [] loc m h)).
Proof.
  revert j cpu b loc m h. induction l as [|s l IH]; intros j cpu b loc m h Hl Ha Hend.
  { destruct (Hend eq_refl) as (-> & s & E1 & E2 & E3). rewrite emit_loop_nil. destruct Ha. by eapply Hfall. }
  clear Hend. assert (Es : insns !! j = Some s) by (by rewrite <- (Nat.add_0_r j), <- lookup_drop, <- Hl).
  assert (Hl' : l = drop (S j) insns) by (rewrite (drop_S _ _ _ Es) in Hl; congruence).
  destruct (lookup_lt_is_Some_2 roles j) as [role Er].
  { unfold roles. rewrite roles_of_length. by apply lookup_lt_Some in Es. }
  rewrite (drop_S _ _ _ Er).
  assert (Hplain : plain role).
  { pose proof (roles_of_plain insns chain) as Hf. rewrite Forall_forall in Hf. apply Hf. by eapply list_elem_of_lookup_2. }
  destruct (tr_wf _ _ _ Htr j s Es) as (_ & _ & Hkind).
  assert (Hlen : length (drop (S j) roles) = length l).
  { rewrite Hl', !length_drop. unfold roles. by rewrite roles_of_length. }
  assert (Hlast : l = [] → last insns = Some s ∧ S j = length insns).
  { intros ->. assert (E : length insns = S j); [|by rewrite last_lookup, E].
    apply lookup_lt_Some in Es. pose proof (f_equal length Hl') as E. rewrite length_drop in E. cbn in E. lia. }
  pose proof (emit_loop_step chain fp role (drop (S j) roles) j s l) as Hstep. unfold piece in Hstep.
  destruct (is_compilable s.1.1) eqn:Ec.
  - destruct (emit_total (env_at chain fp s.2 role) s.1.1 s.1.2 ltac:(by left)) as [c Hc].
    rewrite (Hstep c) by (done || by left). cbn [fst]. rewrite <- app_assoc.
    eapply (ordinary_step j s role); [done..|]. intros cpu' b' loc' m' h' Ha' Hpc'. rewrite Nat.add_1_r.
    eapply IH; [done|done|]. intros E. destruct (Hlast E) as [E1 E2]. split; [done|]. exists s.
    split_and!; [done|by apply compilable_falls|done].
  - destruct Hkind as [Hk|Ht]; [congruence|]. destruct l as [|s2 l].
    + destruct (Hlast eq_refl) as [E1 E2].
      destruct (emit_total (env_at chain fp s.2 role) s.1.1 s.1.2 ltac:(by right)) as [c Hc].
      rewrite (Hstep c) by (done || by right). rewrite emit_loop_nil. cbn [fst]. rewrite app_nil_r.
      by eapply (jump_step j s role).
    + assert (Es2 : insns !! S j = Some s2) by (by rewrite <- (Nat.add_0_r (S j)), <- lookup_drop, <- Hl').
      destruct (tr_next _ _ _ Htr j _ s2 Es Es2) as [Hj Hoff].
      destruct (emit_mid_total (env_at chain fp s.2 role) s.1.1 s.1.2 (Z.of_nat j + 1) Ht Hj) as [c Hc].
      rewrite (Hstep c) by (done || by right). cbn [fst]. rewrite <- app_assoc.
      eapply (guard_step j s role); [done..|]. intros cpu' loc' m' Ha'. rewrite Nat.add_1_r. by eapply IH.
Qed.
End Loop.

(** * The whole block *)

Section Chain.
Context {H B : Type} {BU : Bus B} {IM : Imports H} {chain : option ChainCfg.t} {JH : JitHost H B chain}.
Context (pc0 : Z).
Implicit Types (cpu : Cpu.t) (b : B) (l : Loc.t) (m : Lin.t) (h : H).

(** The entry of the chain table for an address. *)
Definition chain_entry (c : ChainCfg.t) (pc : Z) : Z :=
  ChainCfg.base c + Z.land (Z.shiftr (as_u32 pc) 1) (ChainCfg.entries c - 1) * CHAIN_ENTRY_BYTES.

(** The table holds the function [f] for [pc], and the entry is of the current
    generation. *)
Definition entry_is_live (c : ChainCfg.t) m (pc f : Z) : Prop :=
  let e := chain_entry c pc in
  ∃ g, Lin.load 8 m e = Some pc ∧ Lin.load 4 m (e + 8) = Some g ∧ Lin.load 4 m (ChainCfg.gen_addr c) = Some g ∧
       Lin.load 4 m (e + 12) = Some f.

Definition set_ent (v : Z) (l : Loc.t) : Loc.t := l <| Loc.ent := v |>.

Lemma chain_index c pc : chain = Some c → 0 <= Z.land (Z.shiftr (as_u32 pc) 1) (ChainCfg.entries c - 1) < ChainCfg.entries c.
Proof.
  intros Hc. destruct (host_chain_layout (JitHost := JH) c Hc) as (_ & He & _).
  pose proof (land_le_r (Z.shiftr (as_u32 pc) 1) (ChainCfg.entries c - 1)) as Hl.
  assert (0 <= Z.shiftr (as_u32 pc) 1) by (apply Z.shiftr_nonneg, (wrap_range 32); lia). lia.
Qed.

Lemma run_chain_slot c code' k l m h :
  chain = Some c →
  run (chain_slot c L_NEXT ++ code') (stt pc0 k l m h) = run code' (stt pc0 k (set_ent (chain_entry c (Loc.next l)) l) m h).
Proof.
  intros Hc. pose proof (chain_index c (Loc.next l) Hc) as Hi.
  destruct (host_chain_layout (JitHost := JH) c Hc) as (Hb & He & Hfit & _). unfold CHAIN_ENTRY_BYTES in Hfit.
  assert (E : as_u32 (as_u32 (as_u32 (Z.land (as_u32 (Z.shiftr (as_u32 (Loc.next l)) (as_u32 1 mod 32)))
                (as_u32 (ChainCfg.entries c - 1))) * as_u32 CHAIN_ENTRY_BYTES) + as_u32 (ChainCfg.base c))
              = chain_entry c (Loc.next l)).
  { unfold chain_entry, CHAIN_ENTRY_BYTES. change (as_u32 1 mod 32) with 1. change (as_u32 16) with 16.
    assert (Hs : urange 32 (Z.shiftr (as_u32 (Loc.next l)) 1)).
    { pose proof (wrap_range 32 (Loc.next l) ltac:(lia)) as Hr. unfold urange in *.
      rewrite Z.shiftr_div_pow2 by lia. change (2 ^ 1) with 2.
      split; [apply Z.div_pos|apply Z.div_lt_upper_bound]; lia. }
    rewrite (wrap_small 32 (Z.shiftr _ 1)) by done.
    rewrite (wrap_small 32 (ChainCfg.entries c - 1)) by (unfold urange; lia). set (i := Z.land _ _) in *.
    rewrite (wrap_small 32 i), (wrap_small 32 (i * 16)), (wrap_small 32 (ChainCfg.base c)) by (unfold urange; lia).
    rewrite wrap_small by (unfold urange; lia). lia. }
  rewrite <- E. unfold chain_slot. destruct l. cbn [app]. by do 11 wstep.
Qed.

Context (cpu : Cpu.t) (b : B) (next insns budget : Z) (m : Lin.t) (h : H).
Context (Hsim : sim cpu b 0 next insns budget m h).

Lemma run_budget_left k l code' :
  run (budget_left ++ code') (stt pc0 k l m h) = run code' (stt pc0 (V32 (b2z (insns <? budget)) :: k) l m h).
Proof.
  unfold budget_left. destruct l. cbn [app]. wstep.
  rewrite (run_load64 _ _ _ _ insns); [|exact (load_word _ _ _ _ _ _ _ _ Hsim 2 insns eq_refl)]. wstep.
  rewrite (run_load64 _ _ _ _ budget); [|exact (load_word _ _ _ _ _ _ _ _ Hsim 3 budget eq_refl)]. by wstep.
Qed.

(** The successor is entered directly where the table has it and the budget
    allows; otherwise the function returns. *)
Lemma run_chain_to_successor e l :
  Emit.chain e = chain → Loc.next l = next →
  (∃ l', run (chain_to_successor e) (stt pc0 [] l m h) = Some (RNext (stt pc0 [] l' m h))) ∨
  (∃ c f s, chain = Some c ∧ entry_is_live c m next f ∧ insns < budget ∧ St.memory s = m ∧ St.host s = h ∧
     run (chain_to_successor e) (stt pc0 [] l m h) = Some (RTail f [V32 host_regs; V64 next] s)).
Proof.
  intros He Hn. unfold chain_to_successor. case_eq (Emit.chain e); [intros c Hc; rewrite He in Hc|intros _; left; by exists l].
  pose proof (chain_index c next Hc) as Hi.
  destruct (host_chain_layout (JitHost := JH) c Hc) as (Hb & He' & Hfit & Hga).
  destruct (host_chain_table _ _ _ _ Hc (sim_sees _ _ _ _ _ _ _ _ Hsim)) as (Hlen & Hglen).
  unfold CHAIN_ENTRY_BYTES in Hfit, Hlen.
  assert (Hent : 0 <= chain_entry c next ∧ chain_entry c next + 16 <= Lin.len m).
  { unfold chain_entry, CHAIN_ENTRY_BYTES. lia. }
  destruct (lin_load_total 8 m (chain_entry c next)) as [key Hkey]; [lia..|].
  destruct (lin_load_total 4 m (chain_entry c next + 8)) as [gen Hgen]; [lia..|].
  destruct (lin_load_total 4 m (chain_entry c next + 12)) as [f Hf]; [lia..|].
  destruct (lin_load_total 4 m (ChainCfg.gen_addr c)) as [cur Hcur]; [lia..|].
  rewrite run_chain_slot, Hn by done. set (l1 := set_ent _ l).
  assert (Hlive : ∀ code', run (entry_live c L_ENT L_NEXT ++ code') (stt pc0 [] l1 m h)
                  = run code' (stt pc0 [V32 (b2z ((key =? next) && (gen =? cur)))] l1 m h)).
  { intros code'. unfold l1, entry_live. destruct l as [tmp nx en ad tn gh gf sh sf fw]. cbn [Loc.next] in Hn.
    set (te := chain_entry c next) in *.
    change (set_ent te (Loc.mk tmp nx en ad tn gh gf sh sf fw)) with (Loc.mk tmp nx te ad tn gh gf sh sf fw).
    cbn [app]. wstep. rewrite (run_load64 _ _ _ _ key) by (by rewrite Z.add_0_r). do 3 wstep.
    rewrite (run_load32 _ _ _ _ gen) by done. wstep. rewrite (run_load32 _ _ _ _ cur) by done. do 2 wstep.
    by rewrite land_b2z, Hn. }
  rewrite Hlive, run_budget_left. cbn [app].
  rewrite run_next with (s' := stt pc0 [V32 (b2z ((key =? next) && (gen =? cur) && (insns <? budget)))] l1 m h)
    by (rewrite <- (land_b2z (_ && _) (insns <? budget)); by destruct l).
  rewrite run_if. destruct ((key =? next) && (gen =? cur) && (insns <? budget)) eqn:Elive; cbn [b2z Z.eqb].
  - right. rewrite !andb_true_iff, !Z.eqb_eq, Z.ltb_lt in Elive. destruct Elive as [[-> ->] Hbud].
    exists c, f, (stt pc0 [V32 f; V64 next; V32 host_regs] l1 m h).
    split_and!; try done; [by exists cur|]. unfold tail_call.
    rewrite run_next with (s' := stt pc0 [V32 host_regs] l1 m h) by (by destruct l).
    rewrite run_next with (s' := stt pc0 [V64 next; V32 host_regs] l1 m h) by (rewrite <- Hn; by destruct l).
    rewrite run_next with (s' := stt pc0 [V32 (chain_entry c next); V64 next; V32 host_regs] l1 m h) by (by destruct l).
    rewrite (run_load32 _ _ _ _ f) by done. done.
  - left. by exists l1.
Qed.
End Chain.

Section Block.
Context {H B : Type} {BU : Bus B} {IM : Imports H} {chain : option ChainCfg.t} {JH : JitHost H B chain}.
Context {PR : Profile} {L : Libm} (HP : overflow_checks = false).
Context (code : Z → option (Instr * Z)) (pc0 : Z) (insns : list Src) (Htr : traced code pc0 insns).
Context (fp : option FpCfg.t) (cpu0 : Cpu.t) (b0 : B) (next insns0 budget : Z).
Implicit Types (cpu : Cpu.t) (b : B) (l : Loc.t) (m : Lin.t) (h : H).

(** The count of retired instructions after [k] more. *)
Definition counted (k : nat) : Z := as_u64 (insns0 + as_u64 (Z.of_nat k)).

(** How a call of the block ends: it returns to its caller, it calls its live
    successor, or an access faulted.  The interpreter has then taken [k] steps,
    and in the last case its next step faults too. *)
Inductive block_end : option (res H) → Prop :=
| block_returns k cpu b s :
    (0 < k <= length insns)%nat → steps code k cpu0 b0 cpu b →
    sim cpu b 0 (Cpu.pc cpu) (counted k) budget (St.memory s) (St.host s) → block_end (Some (RNext s))
| block_links k cpu b s c f :
    (0 < k <= length insns)%nat → steps code k cpu0 b0 cpu b →
    sim cpu b 0 (Cpu.pc cpu) (counted k) budget (St.memory s) (St.host s) →
    chain = Some c → entry_is_live c (St.memory s) (Cpu.pc cpu) f → counted k < budget →
    block_end (Some (RTail f [V32 host_regs; V64 (Cpu.pc cpu)] s))
| block_faults k cpu b b' s i w :
    (k < length insns)%nat → steps code k cpu0 b0 cpu b →
    code (Cpu.pc cpu) = Some (i, w) → execute_width i w (cpu, b) = None →
    sim cpu b' 1 next insns0 budget (St.memory s) (St.host s) → host_fault_pc (St.host s) = Cpu.pc cpu →
    block_end (Some (RReturn s)).

(** What the inside of the block leaves. *)
Definition inside_end (r : option (res H)) : Prop :=
  (∃ k cpu b l m h, (0 < k <= length insns)%nat ∧ steps code k cpu0 b0 cpu b ∧
     sim cpu b 0 (Cpu.pc cpu) (counted k) budget m h ∧ Loc.next l = Cpu.pc cpu ∧
     (r = Some (RNext (stt pc0 [] l m h)) ∨ r = Some (RBr 0 (stt pc0 [] l m h)))) ∨
  (∃ k cpu b b' l m h i w, (k < length insns)%nat ∧ steps code k cpu0 b0 cpu b ∧
     code (Cpu.pc cpu) = Some (i, w) ∧ execute_width i w (cpu, b) = None ∧
     sim cpu b' 1 next insns0 budget m h ∧ host_fault_pc h = Cpu.pc cpu ∧
     r = Some (RReturn (stt pc0 [] l m h))).

Lemma loop_count (l : list Src) j :
  l = drop j insns → (j <= length insns)%nat →
  (emit_loop chain fp (drop j (roles_of chain insns)) j l).2 = length insns.
Proof.
  revert j. induction l as [|s l IH]; intros j Hl Hj.
  { rewrite emit_loop_nil. cbn. pose proof (f_equal length Hl) as E. rewrite length_drop in E. cbn in E. lia. }
  assert (Es : insns !! j = Some s) by (by rewrite <- (Nat.add_0_r j), <- lookup_drop, <- Hl).
  assert (Hl' : l = drop (S j) insns) by (rewrite (drop_S _ _ _ Es) in Hl; congruence).
  destruct (lookup_lt_is_Some_2 (roles_of chain insns) j) as [role Er].
  { rewrite roles_of_length. by apply lookup_lt_Some in Es. }
  rewrite (drop_S _ _ _ Er).
  assert (Hplain : plain role).
  { pose proof (roles_of_plain insns chain) as Hf. rewrite Forall_forall in Hf. apply Hf. by eapply list_elem_of_lookup_2. }
  destruct (tr_wf _ _ _ Htr j s Es) as (_ & _ & Hkind).
  assert (Hpiece : ∃ c, piece chain fp j role s l = Some c).
  { unfold piece. destruct (is_compilable s.1.1) eqn:Ec; [apply emit_total; by left|].
    destruct Hkind as [|Ht]; [congruence|]. destruct l as [|s2 l']; [apply emit_total; by right|].
    assert (Es2 : insns !! S j = Some s2) by (by rewrite <- (Nat.add_0_r (S j)), <- lookup_drop, <- Hl').
    apply emit_mid_total; [done|]. by destruct (tr_next _ _ _ Htr j s s2 Es Es2). }
  destruct Hpiece as [c Hc]. erewrite emit_loop_step; [|done|done| |exact Hc].
  - cbn [snd]. rewrite Nat.add_1_r. apply IH; [done|]. by apply lookup_lt_Some in Es.
  - rewrite Hl', !length_drop. by rewrite roles_of_length.
Qed.

Lemma run_tail_counts k cpu b m h l :
  (0 < k)%nat → k = length insns → steps code k cpu0 b0 cpu b → sim cpu b 0 (Cpu.pc cpu) insns0 budget m h →
  Loc.next l = Cpu.pc cpu → inside_end (run (count_insns (Z.of_nat k)) (stt pc0 [] l m h)).
Proof.
  intros Hk Hk' Hst Hsim Hn. left. exists k, cpu, b, l.
  destruct (run_count_insns pc0 _ _ _ _ _ _ _ Hsim (Z.of_nat k) l [] []) as (m' & Hrun & Hs).
  rewrite app_nil_r in Hrun. exists m', h. split_and!; try done; [lia|]. left. by rewrite Hrun.
Qed.

Lemma body_tail_eq link s :
  last insns = Some s →
  body_tail chain fp insns (length insns) link
  = (if is_terminator s.1.1 then [] else set_next_pc [LocalGet L_PC; I64Const (s.2 + s.1.2); I64Add])
    ++ count_insns (Z.of_nat (length insns)).
Proof.
  intros Hl. unfold body_tail. rewrite firstn_all, Hl. destruct s as [[i w] off]. cbn [fst snd TAILLINK_ON RAS_ON andb].
  rewrite !app_nil_r. by destruct (is_terminator i).
Qed.

Lemma inside_runs link m h :
  insns ≠ [] → urange 64 pc0 → Cpu.pc cpu0 = pc0 → sim cpu0 b0 0 next insns0 budget m h →
  inside_end (run ((emit_loop chain fp (roles_of chain insns) 0 insns).1 ++ body_tail chain fp insns (length insns) link)
                (stt pc0 [] Loc.zero m h)).
Proof.
  intros Hne Hr Hpc Hsim. destruct (last insns) as [s|] eqn:Hlast; [|by apply last_None in Hlast].
  assert (Hpos : (0 < length insns)%nat) by (destruct insns; [done|cbn; lia]).
  rewrite (body_tail_eq link s Hlast).
  rewrite <- (drop_0 (roles_of chain insns)) at 1.
  apply (loop_runs HP code pc0 insns Htr fp cpu0 b0 next insns0 budget inside_end) with (cpu := cpu0) (b := b0); try done.
  - intros cpu b l m' h' s' Hs' Ht Hst Hs2 Hpc'. assert (s' = s) as -> by congruence. rewrite Ht.
    destruct (run_set_next_pc pc0 _ _ _ _ _ _ _ Hs2 l l [LocalGet L_PC; I64Const (s.2 + s.1.2); I64Add]
      (Cpu.pc cpu)) as (m2 & Hrun & Hs3).
    { rewrite Hpc'. apply pc_of_range. }
    { intros k c. rewrite Hpc'. apply run_offset. }
    rewrite Hrun. by eapply run_tail_counts.
  - intros cpu b l m' h' s' Hs' Ht Hst Hs2 Hn. assert (s' = s) as -> by congruence. rewrite Ht.
    by eapply run_tail_counts.
  - intros k cpu b l m' h' Hk Hst Hs2 Hn. left. exists k, cpu, b, l, m', h'. split_and!; (lia || by auto).
  - intros k cpu b b' l m' h' i w Hk Hst Hf Hx Hs2 Hfp. right. by exists k, cpu, b, b', l, m', h', i, w.
  - constructor; [by apply steps_none|done| |].
    + intros s0 Es. rewrite (tr_first _ _ _ Htr s0 Es), Hpc. unfold pc_of. cbn. rewrite Z.add_0_r.
      symmetry. by apply wrap_small.
    + intros st i0 mn span r (Hlt & _). lia.
Qed.

Lemma run_block body tail k l m h :
  run (Block BEmpty body :: tail) (stt pc0 k l m h)
  = match (r ← run body (stt pc0 [] l m h); leave BEmpty k r) with Some (RNext s) => run tail s | r => r end.
Proof. rewrite run_cons, exec_block. done. Qed.

Lemma block_runs link f n m h :
  emit_body chain fp insns link = Some (f, n) → urange 64 pc0 → Cpu.pc cpu0 = pc0 →
  sim cpu0 b0 0 next insns0 budget m h →
  n = length insns ∧ block_end (call f [V32 host_regs; V64 pc0] m h).
Proof.
  intros Hf Hr Hpc Hsim. unfold emit_body in Hf.
  pose proof (loop_count insns 0 eq_refl ltac:(lia)) as Hn. rewrite drop_0 in Hn.
  pose proof (inside_runs link m h) as Hin.
  destruct (emit_loop chain fp (roles_of chain insns) 0 insns) as [cd n']. cbn [fst snd] in Hn, Hin. subst n'.
  destruct (Nat.eqb_spec (length insns) 0) as [|Hne]; [done|]. injection Hf as <- <-. split; [done|].
  specialize (Hin ltac:(by intros ->) Hr Hpc Hsim). unfold call. cbn [Func.body].
  change (St.mk [] (entry_locals _ [V32 host_regs; V64 pc0]) m h) with (stt pc0 [] Loc.zero m h).
  rewrite run_block. set (r := run (cd ++ _) _) in *. clearbody r.
  destruct Hin as [(k & cpu & b & l & m' & h' & Hk & Hst & Hs & Hnx & Hcase)
                  |(k & cpu & b & b' & l & m' & h' & i & w & Hk & Hst & Hfe & Hx & Hs & Hfp & ->)].
  - assert (Hleave : (r0 ← r; leave BEmpty [] r0) = Some (RNext (stt pc0 [] l m' h'))) by (by destruct Hcase as [->| ->]).
    rewrite Hleave.
    destruct (run_chain_to_successor pc0 cpu b _ _ _ m' h' Hs (env_at chain fp 0 Solo) l eq_refl Hnx)
      as [(l' & ->)|(c & g & s & Hc & Hlive & Hbud & Hm & Hh & ->)].
    + by eapply block_returns.
    + eapply block_links; try done; by rewrite ?Hm, ?Hh.
  - cbn [mbind option_bind leave]. by eapply block_faults.
Qed.
End Block.
