(* ===== verification/JitProps.v ===== *)
(** The guarantees of the block compiler, and a small host that meets its
    contract: one mapped page, one chain entry, one entry in each TLB. *)

From S2P Require Import Prelude Bits Types Decode Encode Compressed Float Cpu Fpu Execute Isa Wasm Jit JitPlan JitHost JitAccess JitAlu JitStep JitJump JitSim.

Module OnePage.

(** The guest's page is the first of its address space; beyond it everything
    faults. *)
Definition size : Z := 4096.
Definition bread_n (n : nat) (a : Z) : M Lin.t Z := λ b, v ← Lin.load n b a; Some (v, b).
Definition bwrite_n (n : nat) (a v : Z) : M Lin.t unit := λ b, b' ← Lin.store n b a v; Some (tt, b').
#[global] Instance bus : Bus Lin.t := {
  read_u8 := bread_n 1; read_u16 := bread_n 2; read_u32 := bread_n 4; read_u64 := bread_n 8;
  write_u8 := bwrite_n 1; write_u16 := bwrite_n 2; write_u32 := bwrite_n 4; write_u64 := bwrite_n 8;
  check_timer_interrupt := mret false; read_mtime := mret 0; check_external_interrupt := mret false;
}.

(** Linear memory: the register file at 0, the page at 4096, then the chain
    table, the TLBs and the generation word. *)
Definition PAGE : Z := 4096.
Definition CHAIN : Z := 8192.
Definition READ_TLB : Z := 8256.
Definition WRITE_TLB : Z := 8320.
Definition GEN : Z := 8448.
Definition LEN : Z := 65536.
Definition tlb : TlbCfg.t := TlbCfg.mk READ_TLB WRITE_TLB 1 GEN.
Definition chain : option ChainCfg.t := Some (ChainCfg.mk CHAIN GEN 1 (Some tlb) 0 0 0).

Definition reaches (n : nat) (a : Z) : bool := (0 <=? a) && (a + Z.of_nat n <=? size).

(** The host's state is the program counter of the last fault. *)
#[global] Instance imports : Imports Z := λ f args m h,
  match args with
  | [V64 a; V64 pc] =>
      if reaches (size_of (f - F_LOAD8U)) a
      then v ← Lin.load (size_of (f - F_LOAD8U)) m (PAGE + a); Some ([V64 v], m, h)
      else Some ([V64 0], Lin.poke 8 m FAULT_OFF 1, pc)
  | [V64 a; V64 v; V64 pc] =>
      if reaches (size_of (f - F_STORE8)) a
      then Some ([], Lin.poke (size_of (f - F_STORE8)) m (PAGE + a) v, h)
      else Some ([], Lin.poke 8 m FAULT_OFF 1, pc)
  | _ => None
  end.

Definition same_page (m b : Lin.t) : Prop := ∀ a, 0 <= a < size → wrap 8 (Lin.byte m (PAGE + a)) = wrap 8 (Lin.byte b a).

(** An entry of the TLB that is of the current generation is for the page. *)
Definition tlb_fine (m : Lin.t) (e : Z) : Prop :=
  ∃ tag gen page cur, Lin.load 8 m e = Some tag ∧ Lin.load 4 m (e + 8) = Some gen ∧
    Lin.load 8 m (e + 16) = Some page ∧ Lin.load 4 m GEN = Some cur ∧ (gen = cur → tag = 0 ∧ as_u32 page = PAGE).

Record sees (m : Lin.t) (h : Z) (b : Lin.t) : Prop := mk_sees {
  sees_len : Lin.len m = LEN; sees_size : Lin.len b = size; sees_page : same_page m b;
  sees_read : tlb_fine m READ_TLB; sees_write : tlb_fine m WRITE_TLB;
}.

Definition mapped (st : bool) (vpn page : Z) (b : Lin.t) : Prop := vpn = 0 ∧ page = PAGE ∧ Lin.len b = size.

(** ** Facts about bytes *)

Lemma to_le_wrap n v : to_le_bytes n (wrap (8 * Z.of_nat n) v) = to_le_bytes n v.
Proof.
  rewrite <- from_to_le_bytes. rewrite <- (length_to_le_bytes n v) at 1.
  apply to_from_le_bytes, to_le_bytes_bytes.
Qed.

Lemma page_load n m h b a : sees m h b → reaches n a = true → Lin.load n m (PAGE + a) = Lin.load n b a ∧ is_Some (Lin.load n b a).
Proof.
  intros Hs Hr. unfold reaches in Hr. rewrite andb_true_iff, !Z.leb_le in Hr. unfold size in Hr.
  assert (Hi : Lin.inside b a n = true) by (apply lin_inside_true; rewrite ?(sees_size _ _ _ Hs); unfold size; lia).
  assert (Hi' : Lin.inside m (PAGE + a) n = true).
  { apply lin_inside_true; rewrite ?(sees_len _ _ _ Hs); unfold PAGE, LEN; lia. }
  unfold Lin.load. rewrite Hi, Hi'. split; [|by eexists]. do 2 f_equal. unfold Lin.bytes. apply list_fmap_ext.
  intros i k Hk. apply lookup_seq in Hk as [-> Hk]. rewrite <- Z.add_assoc. apply (sees_page _ _ _ Hs). unfold size. lia.
Qed.

Lemma tlb_fine_poke n m a v e :
  tlb_fine m e → (a + Z.of_nat n <= e ∨ e + 24 <= a) → (a + Z.of_nat n <= GEN ∨ GEN + 4 <= a) → tlb_fine (Lin.poke n m a v) e.
Proof.
  intros (tag & gen & page & cur & H1 & H2 & H3 & H4 & H5) He Hg. exists tag, gen, page, cur.
  rewrite !lin_load_other by lia. done.
Qed.

(** A write outside the page and the tables. *)
Lemma sees_window m h b h' n a v : sees m h b → 0 <= a → a + Z.of_nat n <= PAGE → sees (Lin.poke n m a v) h' b.
Proof.
  intros [H1 H2 H3 H4 H5] Ha Hn. unfold PAGE in *. constructor; [done|done| | |].
  - intros x Hx. rewrite <- H3 by done. f_equal. cbn. unfold PAGE.
    destruct (Z.leb_spec a (4096 + x)), (Z.ltb_spec (4096 + x) (a + Z.of_nat n)); cbn; (done || lia).
  - apply tlb_fine_poke; [done|unfold READ_TLB; lia|unfold GEN; lia].
  - apply tlb_fine_poke; [done|unfold WRITE_TLB; lia|unfold GEN; lia].
Qed.

(** The same write in both views. *)
Lemma sees_both m h b n a v w :
  sees m h b → reaches n a = true → to_le_bytes n v = to_le_bytes n w →
  sees (Lin.poke n m (PAGE + a) v) h (Lin.poke n b a w).
Proof.
  intros [H1 H2 H3 H4 H5] Hr Hv. unfold reaches in Hr. rewrite andb_true_iff, !Z.leb_le in Hr. unfold size in Hr.
  constructor; [done|done| | |].
  - intros x Hx. cbn. rewrite Hv. replace (PAGE + x - (PAGE + a)) with (x - a) by lia.
    destruct (Z.leb_spec (PAGE + a) (PAGE + x)), (Z.ltb_spec (PAGE + x) (PAGE + a + Z.of_nat n)),
      (Z.leb_spec a x), (Z.ltb_spec x (a + Z.of_nat n)); cbn; try lia; try done; by apply H3.
  - apply tlb_fine_poke; [done|unfold READ_TLB, PAGE; lia|unfold GEN, PAGE; lia].
  - apply tlb_fine_poke; [done|unfold WRITE_TLB, PAGE; lia|unfold GEN, PAGE; lia].
Qed.

Lemma bread_eq l a b : lg l → bread l a b = (v ← Lin.load (size_of l) b a; Some (v, b)).
Proof. by intros [->|[->|[->| ->]]]. Qed.

Lemma bwrite_eq l a v b :
  lg l → bwrite l a v b = if Lin.inside b a (size_of l)
                          then Some (tt, Lin.poke (size_of l) b a (wrap (8 * Z.of_nat (size_of l)) v)) else None.
Proof.
  intros Hl. destruct Hl as [->|[->|[->| ->]]]; cbn; unfold bwrite_n, Lin.store; by destruct (Lin.inside _ _ _).
Qed.

Lemma inside_reaches n a b : Lin.len b = size → Lin.inside b a n = reaches n a.
Proof. intros E. unfold Lin.inside, reaches. by rewrite E. Qed.

Lemma off_page (l off : Z) : lg l → 0 <= off → off + Z.of_nat (size_of l) <= 4096 → reaches (size_of l) off = true.
Proof. intros _ H1 H2. unfold reaches, size. by rewrite andb_true_iff, !Z.leb_le. Qed.

(** ** The laws *)

Lemma law_loads l a pc m h b :
  lg l → urange 64 a → sees m h b →
  ∃ v m' h', imported (F_LOAD8U + l) [V64 a; V64 pc] m h = Some ([V64 v], m', h') ∧
    match bread l a b with
    | Some (v', b') => v = v' ∧ sees m' h' b' ∧
        ∀ k, 0 <= k < 36 → Lin.load 8 m' (0 + 8 * k) = Lin.load 8 m (0 + 8 * k)
    | None => h' = pc ∧ sees m' h' b ∧
        ∀ k, 0 <= k < 36 → Lin.load 8 m' (0 + 8 * k) = Lin.load 8 (Lin.poke 8 m (0 + FAULT_OFF) 1) (0 + 8 * k)
    end.
Proof.
  intros Hl Ha Hs. unfold imported, imports. replace (F_LOAD8U + l - F_LOAD8U) with l by lia.
  rewrite bread_eq by done. destruct (reaches (size_of l) a) eqn:Er.
  - destruct (page_load _ _ _ _ _ Hs Er) as [E [v Hv]]. rewrite E, Hv. cbn [mbind option_bind].
    by exists v, m, h.
  - assert (E : Lin.load (size_of l) b a = None).
    { unfold Lin.load. by rewrite inside_reaches, Er by apply Hs. }
    rewrite E. cbn [mbind option_bind]. exists 0, (Lin.poke 8 m FAULT_OFF 1), pc.
    split_and!; [done|done| |done]. eapply sees_window; [exact Hs|done|done].
Qed.

Lemma law_stores l a v pc m h b :
  lg l → urange 64 a → sees m h b →
  ∃ m' h', imported (F_STORE8 + l) [V64 a; V64 v; V64 pc] m h = Some ([], m', h') ∧
    match bwrite l a v b with
    | Some (_, b') => sees m' h' b' ∧ ∀ k, 0 <= k < 36 → Lin.load 8 m' (0 + 8 * k) = Lin.load 8 m (0 + 8 * k)
    | None => h' = pc ∧ sees m' h' b ∧
        ∀ k, 0 <= k < 36 → Lin.load 8 m' (0 + 8 * k) = Lin.load 8 (Lin.poke 8 m (0 + FAULT_OFF) 1) (0 + 8 * k)
    end.
Proof.
  intros Hl Ha Hs. unfold imported, imports. replace (F_STORE8 + l - F_STORE8) with l by lia.
  rewrite bwrite_eq, inside_reaches by (done || apply Hs). destruct (reaches (size_of l) a) eqn:Er.
  - eexists _, _. split; [done|]. split; [apply sees_both; [done|done|by rewrite to_le_wrap]|].
    intros k Hk. apply lin_load_other. unfold reaches in Er. rewrite andb_true_iff, !Z.leb_le in Er. unfold PAGE. lia.
  - exists (Lin.poke 8 m FAULT_OFF 1), pc. split_and!; [done|done| |done]. eapply sees_window; [exact Hs|done|done].
Qed.

Lemma law_direct_load l vpn page off m h b :
  lg l → mapped false vpn page b → sees m h b → 0 <= off → off + Z.of_nat (size_of l) <= 4096 →
  ∃ v, Lin.load (size_of l) m (page + off) = Some v ∧ bread l (vpn * 4096 + off) b = Some (v, b).
Proof.
  intros Hl (-> & -> & _) Hs H1 H2. pose proof (off_page l off Hl H1 H2) as Hr.
  destruct (page_load _ _ _ _ _ Hs Hr) as [E [v Hv]]. exists v. rewrite E, bread_eq by done.
  change (0 * 4096 + off) with off. by rewrite Hv.
Qed.

Lemma law_direct_store l vpn page off v m h b :
  lg l → mapped true vpn page b → sees m h b → 0 <= off → off + Z.of_nat (size_of l) <= 4096 →
  page + off + Z.of_nat (size_of l) <= Lin.len m ∧
  ∃ b', bwrite l (vpn * 4096 + off) v b = Some (tt, b') ∧ sees (Lin.poke (size_of l) m (page + off) v) h b'.
Proof.
  intros Hl (-> & -> & _) Hs H1 H2. pose proof (off_page l off Hl H1 H2) as Hr.
  change (0 * 4096 + off) with off. rewrite bwrite_eq, inside_reaches, Hr by (done || apply Hs).
  split; [rewrite (sees_len _ _ _ Hs); unfold PAGE, LEN; lia|].
  eexists. split; [done|]. apply sees_both; [done|done|by rewrite to_le_wrap].
Qed.

Lemma law_tlb (st : bool) i m h b :
  sees m h b → 0 <= i < 1 →
  let e := (if st then WRITE_TLB else READ_TLB) + i * TLB_ENTRY_BYTES in
  ∃ tag gen page cur,
    Lin.load 8 m e = Some tag ∧ Lin.load 4 m (e + 8) = Some gen ∧
    Lin.load 8 m (e + 16) = Some page ∧ Lin.load 4 m GEN = Some cur ∧
    (gen = cur → mapped st tag (as_u32 page) b).
Proof.
  intros Hs Hi. assert (i = 0) as -> by lia. cbv zeta. rewrite Z.add_0_r.
  assert (Hf : tlb_fine m (if st then WRITE_TLB else READ_TLB)) by (destruct st; apply Hs).
  destruct Hf as (tag & gen & page & cur & H1 & H2 & H3 & H4 & H5). exists tag, gen, page, cur.
  split_and!; try done. intros E. destruct (H5 E) as [-> ->]. split_and!; try done. apply Hs.
Qed.

#[global] Instance host : JitHost Z Lin.t chain.
Proof.
  refine {| host_regs := 0; host_sees := sees; host_mapped := mapped; host_fault_pc := λ h, h |}.
  - done.
  - intros m h b Hs. by rewrite (sees_len _ _ _ Hs).
  - intros m h b k v Hs Hk. eapply sees_window; [exact Hs|lia|unfold PAGE; lia].
  - intros l a pc m h b Hl Ha Hs _. by apply law_loads.
  - intros l a v pc m h b Hl Ha Hs _. by apply law_stores.
  - intros l a b v b' Hl Hb. rewrite bread_eq in Hb by done.
    destruct (Lin.load _ b a) as [v0|] eqn:E; [|done]. injection Hb as <- <-. by apply lin_load_range in E.
  - intros st vpn page b (-> & -> & _). unfold PAGE, WINDOW. lia.
  - intros. by eapply law_direct_load.
  - intros. by eapply law_direct_store.
  - intros st vpn page l a b v b' Hm Hb. revert Hb. unfold bread.
    repeat destruct (_ =? _); cbn; unfold bread_n; destruct (Lin.load _ b a); intros [= <- <-] || intros [=]; done.
  - intros st vpn page l a v b b' (H1 & H2 & H3) Hb. revert Hb. unfold bwrite.
    repeat destruct (_ =? _); cbn; unfold bwrite_n, Lin.store; destruct (Lin.inside _ _ _); intros [= <-] || intros [=]; done.
  - intros c [= <-]. unfold CHAIN, GEN, CHAIN_ENTRY_BYTES. cbn. lia.
  - intros c m h b [= <-] Hs. rewrite (sees_len _ _ _ Hs). unfold CHAIN, GEN, CHAIN_ENTRY_BYTES, LEN. cbn. lia.
  - intros c t st [= <-] [= <-]. destruct st; cbn -[Z.pow Z.mul]; unfold READ_TLB, WRITE_TLB, TLB_ENTRY_BYTES; lia.
  - intros c t st i m h b [= <-] [= <-] Hs Hi. by eapply law_tlb.
Defined.
End OnePage.

(** A loop that adds two words of the page into the first. *)
Module Example.
Definition pc0 : Z := 0x1000.
Definition prog : list Src :=
  [(Lw 5 10 0, 4, 0); (Lw 6 10 4, 4, 4); (Add 5 5 6, 4, 8); (Sw 10 5 0, 4, 12); (Bne 6 0 (-16), 4, 16)].
Definition code (pc : Z) : option (Instr * Z) := fst <$> prog !! Z.to_nat ((pc - pc0) / 4).
Definition memory : Lin.t := Lin.mk OnePage.LEN (λ a,
  if a =? 280 then 100
  else if (a =? OnePage.GEN) || (a =? OnePage.READ_TLB + 8) || (a =? OnePage.WRITE_TLB + 8) then 1
  else if (a =? OnePage.READ_TLB + 17) || (a =? OnePage.WRITE_TLB + 17) then 16
  else 0).
Definition guest : Lin.t := Lin.mk OnePage.size (λ _, 0).
Definition hart : Cpu.t := Cpu.new pc0.

Lemma prog_traced : traced code pc0 prog.
Proof.
  constructor.
  - by intros s [= <-].
  - intros j i w off Hj. do 5 (destruct j as [|j]; [by injection Hj as <- <- <-|]). done.
  - intros j s Hj. do 5 (destruct j as [|j]; [injection Hj as <-; cbn; unfold reg, urange, srange; split_and!; (lia || done || by auto)|]). done.
  - intros j s s' Hj Hj'. do 5 (destruct j as [|j]; [first [done|injection Hj as <-; by injection Hj' as <-]|]). done.
Qed.

Lemma memory_seen : OnePage.sees memory 0 guest.
Proof.
  constructor; [done|done| | |].
  - intros a Ha. unfold OnePage.size in Ha. cbn. unfold OnePage.PAGE, OnePage.GEN, OnePage.READ_TLB, OnePage.WRITE_TLB.
    repeat match goal with |- context [?x =? ?y] => destruct (Z.eqb_spec x y); [lia|] end. done.
  - exists 0, 1, 4096, 1. split_and!; by vm_compute.
  - exists 0, 1, 4096, 1. split_and!; by vm_compute.
Qed.

Lemma hart_shown : sim hart guest 0 0 0 100 memory 0.
Proof.
  constructor; [|exact memory_seen|apply Cpu.new_wf; unfold pc0, urange; lia].
  split; [reflexivity|]. intros i v Hi.
  do 36 (destruct i as [|i]; [injection Hi as <-; by vm_compute|]). done.
Qed.
End Example.

(** * Properties *)

(** C3: compiled code does what the interpreter does.  Let a trace be decoded
    from the guest's code along the path that [decode_run] follows (jumps,
    backward branches taken, forward ones not), free of floating point and CSR
    instructions, and let the register file in linear memory show the hart [cpu]
    at the first instruction.  Calling the function that [emit_body] makes
    terminates without a WebAssembly trap, and some number of interpreter steps
    from [cpu] lead to a hart that the register file then shows: either the
    function returned (at the end of the trace, or by a guard where a branch went
    the other way) with the program counter and the count of retired instructions
    written back, or it entered the block of that program counter by a chain
    entry of the current generation with budget left, or an access faulted where
    the interpreter's next step faults too, with the fault word set and the
    program counter of the faulting instruction reported.  This covers the inline
    TLB, the groups of accesses that share one probe, atomics, and the high
    products computed from 32-bit halves. *)
Theorem block_simulates (H B : Type) (BU : Bus B) (IM : Imports H) (chain : option ChainCfg.t)
    (JH : JitHost H B chain) (PR : Profile) (L : Libm) code pc0 insns fp link f n cpu (b : B) next insns0 budget m (h : H) :
  overflow_checks = false → traced code pc0 insns → emit_body chain fp insns link = Some (f, n) →
  Cpu.pc cpu = pc0 → sim cpu b 0 next insns0 budget m h →
  n = length insns ∧ block_end code insns cpu b next insns0 budget (call f [V32 host_regs; V64 pc0] m h).
Proof.
  intros HP Htr Hf Hpc Hsim. eapply block_runs; try done. rewrite <- Hpc. apply Hsim.
Qed.

Lemma block_simulates_witness :
  ∃ f, emit_body OnePage.chain None Example.prog None = Some (f, 5%nat) ∧
  block_end (BU := OnePage.bus) (PR := Release) (L := ref_libm) (JH := OnePage.host)
    Example.code Example.prog Example.hart Example.guest 0 0 100 (call f [V32 0; V64 0x1000] Example.memory 0).
Proof.
  destruct (emit_body OnePage.chain None Example.prog None) as [[f n]|] eqn:E; [|vm_compute in E; discriminate].
  exists f.
  destruct (block_simulates Z Lin.t OnePage.bus OnePage.imports OnePage.chain OnePage.host Release ref_libm
    Example.code 0x1000 Example.prog None None f n Example.hart Example.guest 0 0 100 Example.memory 0
    eq_refl Example.prog_traced E eq_refl Example.hart_shown) as [-> He].
  split; [reflexivity|exact He].
Defined.
