(* ===== verification/BlockCache.v ===== *)
(** The block cache ([riscv-machine/src/jit.rs]): which runs of instructions are
    compiled, when, and where generated code finds them again.

    The tables are vectors of a fixed length that are never resized; [Tbl] keeps
    the entries that were written over the one the vector was made of, and its
    accesses panic out of range as indexing does.  The functions that only hand
    out addresses of fields to the compiler are not modelled: the addresses are
    the configuration [ChainCfg] of the compiler's model. *)

From stdpp Require Import gmap.
From S2P Require Import Prelude Keeps Types Decode Compressed SupTypes State Cpu Fpu Mmu SupState Supervisor Jit.

(** * Tables *)

Module Tbl.
Record t (A : Type) := mk { len : Z; fill : A; cells : gmap Z A }.
Arguments mk {A} len fill cells.
Arguments len {A}.
Arguments fill {A}.
Arguments cells {A}.

Definition new {A} (len : Z) (a : A) : t A := mk len a ∅.
Definition inside {A} (v : t A) (i : Z) : bool := (0 <=? i) && (i <? len v).
(** [v[i]] and [v[i] = a] *)
Definition at_ {A} (v : t A) (i : Z) : A := default (fill v) (cells v !! i).
Definition index {A} (v : t A) (i : Z) : option A := if inside v i then Some (at_ v i) else None.
Definition put {A} (i : Z) (a : A) (v : t A) : option (t A) :=
  if inside v i then Some (mk (len v) (fill v) (<[i := a]> (cells v))) else None.
(** A loop over [v.iter_mut()] that updates every entry. *)
Definition map {A} (f : A → A) (v : t A) : t A := mk (len v) (f (fill v)) (f <$> cells v).

Lemma index_at {A} (v : t A) i a : index v i = Some a → a = at_ v i.
Proof. unfold index. by destruct (inside v i); intros [= <-]. Qed.

Lemma index_inside {A} (v : t A) i : 0 <= i < len v → index v i = Some (at_ v i).
Proof. intros Hi. unfold index, inside. by destruct (Z.leb_spec 0 i), (Z.ltb_spec i (len v)); try lia. Qed.

Lemma put_inside {A} (v : t A) i a :
  0 <= i < len v → put i a v = Some (mk (len v) (fill v) (<[i := a]> (cells v))).
Proof. intros Hi. unfold put, inside. by destruct (Z.leb_spec 0 i), (Z.ltb_spec i (len v)); try lia. Qed.

Lemma at_put {A} (v w : t A) i j a : put i a v = Some w → at_ w j = if decide (i = j) then a else at_ v j.
Proof.
  unfold put. destruct (inside v i); intros [= <-]. unfold at_. cbn. destruct (decide (i = j)) as [->|Hn].
  - by rewrite lookup_insert_eq.
  - by rewrite lookup_insert_ne.
Qed.

Lemma len_put {A} (v w : t A) i a : put i a v = Some w → len w = len v.
Proof. unfold put. by destruct (inside v i); intros [= <-]. Qed.

Lemma at_map {A} (f : A → A) (v : t A) i : at_ (map f v) i = f (at_ v i).
Proof. unfold at_, map. cbn. rewrite lookup_fmap. by destruct (cells v !! i). Qed.

Lemma at_new {A} n (a : A) i : at_ (new n a) i = a.
Proof. done. Qed.
End Tbl.

(** * Data *)

Definition HOT : Z := 16.
Definition MAX_RUN : nat := 64.
Definition SLOTS : Z := 262144.
Definition CHAIN_ENTRIES : Z := 65536.
Definition RAS_ENTRIES : Z := 256.
Definition TLB_ENTRIES : Z := 4096.
Definition VVCACHE : Z := 4096.
Definition KEY_VPNS : Z := 16384.
Definition KEY_VPN_PROBES : nat := 8.
Definition U32_MAX : Z := 0xFFFFFFFF.

(** [enum State] of a slot *)
Inductive BlockState :=
| Cold (n : Z)
| Queued
| Compiled (idx bytes insns : Z) (branchy : bool)
| Rejected.

Module Slot.
Record t := mk { tag : Z; state : BlockState }.
Definition EMPTY : t := mk U64_MAX (Cold 0).
End Slot.

Module Hit.
Record t := mk { idx : Z; bytes : Z; insns : Z; branchy : bool }.
End Hit.

Module TlbEntry.
Record t := mk { vpn : Z; gen : Z; base : Z }.
Definition EMPTY : t := mk U64_MAX 0 0.
#[global] Instance eta_tlb_entry : Eta t := λ e, mk (vpn e) (gen e) (base e).
End TlbEntry.

Module ChainEntry.
Record t := mk { key : Z; gen : Z; idx : Z }.
End ChainEntry.

Module VSlot.
Record t := mk { key : Z; gen : Z; hit : Hit.t }.
End VSlot.

(** [struct Jit] *)
Module Cache.
Record t := mk {
  slots : Tbl.t Slot.t;
  chain : Tbl.t ChainEntry.t;
  chain_ras : Tbl.t ChainEntry.t;
  ras_sp : Z;
  code_pages : gset Z;
  smc_dirty : bool;
  flushes : Z;
  chain_gen : Z;
  data_gen : Z;
  fs_word : Z;
  vcache : Tbl.t VSlot.t;
  tlb_r : Tbl.t TlbEntry.t;
  tlb_w : Tbl.t TlbEntry.t;
  pending : list (Z * list Src);
  installed : Z;
  key_vpns : Tbl.t Z;
  key_vpns_full : Z;
  sfence_skips : Z;
  sfence_hits : Z;
  formed : Z;
  rejected : Z;
  entries : Z;
  slot_state : list Z;
  hits : Z;
  hit_insns : Z;
}.
#[global] Instance eta_cache : Eta t := λ j,
  mk (slots j) (chain j) (chain_ras j) (ras_sp j) (code_pages j) (smc_dirty j) (flushes j) (chain_gen j)
     (data_gen j) (fs_word j) (vcache j) (tlb_r j) (tlb_w j) (pending j) (installed j) (key_vpns j)
     (key_vpns_full j) (sfence_skips j) (sfence_hits j) (formed j) (rejected j) (entries j) (slot_state j)
     (hits j) (hit_insns j).

Definition new : t :=
  mk (Tbl.new SLOTS Slot.EMPTY) (Tbl.new CHAIN_ENTRIES (ChainEntry.mk 0 0 0))
     (Tbl.new RAS_ENTRIES (ChainEntry.mk 0 0 0)) 0 ∅ false 0 1 1 0
     (Tbl.new VVCACHE (VSlot.mk U64_MAX U32_MAX (Hit.mk 0 0 0 false)))
     (Tbl.new TLB_ENTRIES TlbEntry.EMPTY) (Tbl.new TLB_ENTRIES TlbEntry.EMPTY)
     [] 0 (Tbl.new KEY_VPNS U64_MAX) 0 0 0 0 0 0 (replicate 4 0) 0 0.
End Cache.

(** * Operations of the cache alone *)

Module BlockCache.
Section Pure.
Context `{Profile} `{Target}.
Abbreviation CM := (M Cache.t).

(** [self.f += x] on a counter of [w] bits *)
Definition bump (w : Z) (f : Cache.t → Z) (set : Z → Cache.t → Cache.t) (x : Z) : CM unit :=
  n ← get f; n' ← lift (add_u w n x); modify (set n').

(** Indexing a table of the cache, and assigning to an entry. *)
Definition tbl_get {A} (f : Cache.t → Tbl.t A) (i : Z) : CM A := v ← get f; lift (Tbl.index v i).
Definition tbl_set {A} (f : Cache.t → Tbl.t A) (set : Tbl.t A → Cache.t → Cache.t) (i : Z) (a : A) : CM unit :=
  v ← get f; v' ← lift (Tbl.put i a v); modify (set v').

Definition set_slots v (j : Cache.t) : Cache.t := j <| Cache.slots := v |>.
Definition set_chain v (j : Cache.t) : Cache.t := j <| Cache.chain := v |>.
Definition set_vcache v (j : Cache.t) : Cache.t := j <| Cache.vcache := v |>.
Definition set_tlb_r v (j : Cache.t) : Cache.t := j <| Cache.tlb_r := v |>.
Definition set_tlb_w v (j : Cache.t) : Cache.t := j <| Cache.tlb_w := v |>.
Definition set_key_vpns v (j : Cache.t) : Cache.t := j <| Cache.key_vpns := v |>.

Definition index (paddr : Z) : Z := Z.land (as_usize (Z.shiftr paddr 1)) (SLOTS - 1).

(** [1 + ((gen << 2) | (priv as u32 & 3))] *)
Definition gen_word (gen : Z) (p : Privilege) : option Z :=
  add_u 32 1 (Z.lor (as_u32 (Z.shiftl gen 2)) (Z.land (priv_code p) 3)).

Definition refresh_gen (s : Sup.t) : CM unit :=
  g ← lift (gen_word (Sup.trans_gen s) (Sup.priv_level s));
  modify (λ j, j <| Cache.chain_gen := g |>);;
  d ← lift (gen_word (Sup.data_trans_gen s) (Sup.priv_level s));
  modify (λ j, j <| Cache.data_gen := d |>);;
  modify (λ j, j <| Cache.fs_word := Z.b2z (Supervisor.fs_is_dirty s) |>).

(** ** The set of pages that hold keys *)

Definition key_vpn_slot (vpn probe : Z) : Z :=
  Z.land (as_usize (Z.shiftr (as_u64 (vpn * 0x9E3779B97F4A7C15)) 50) + probe) (KEY_VPNS - 1).

(** [(vpn << 12) | (trans_gen & 0xFFF) as u64] *)
Definition key_packed (vpn trans_gen : Z) : Z := Z.lor (as_u64 (Z.shiftl vpn 12)) (Z.land trans_gen 0xFFF).

Definition probes : list Z := Z.of_nat <$> seq 0 KEY_VPN_PROBES.

Fixpoint note_probe (ps : list Z) (vpn trans_gen : Z) : CM unit :=
  match ps with
  | [] => modify (λ j, j <| Cache.key_vpns_full := as_u32 (trans_gen + 1) |>)
  | p :: ps =>
      let s := key_vpn_slot vpn p in
      e ← tbl_get Cache.key_vpns s;
      if e =? key_packed vpn trans_gen then mret tt
      else if (e =? U64_MAX) || negb (Z.land e 0xFFF =? Z.land trans_gen 0xFFF) then
        tbl_set Cache.key_vpns set_key_vpns s (key_packed vpn trans_gen)
      else note_probe ps vpn trans_gen
  end.

Definition note_key_page (va trans_gen : Z) : CM unit := note_probe probes (Z.shiftr va 12) trans_gen.

Fixpoint any_probe (ps : list Z) (vpn trans_gen : Z) : CM bool :=
  match ps with
  | [] => mret false
  | p :: ps =>
      e ← tbl_get Cache.key_vpns (key_vpn_slot vpn p);
      if e =? key_packed vpn trans_gen then mret true else any_probe ps vpn trans_gen
  end.

Definition page_may_have_keys (va trans_gen : Z) : CM bool :=
  full ← get Cache.key_vpns_full;
  if full =? as_u32 (trans_gen + 1) then mret true else any_probe probes (Z.shiftr va 12) trans_gen.

(** ** The inlined TLBs and the code pages *)

Definition tlb_index (vpn : Z) : Z := Z.land (as_usize vpn) (TLB_ENTRIES - 1).

(** [if t[i].vpn == vpn { t[i].gen = 0 }] *)
Definition retire_entry (f : Cache.t → Tbl.t TlbEntry.t) (set : Tbl.t TlbEntry.t → Cache.t → Cache.t)
    (vpn : Z) : CM unit :=
  e ← tbl_get f (tlb_index vpn);
  if TlbEntry.vpn e =? vpn then tbl_set f set (tlb_index vpn) (e <| TlbEntry.gen := 0 |>) else mret tt.

Definition invalidate_tlb_page (vaddr : Z) : CM unit :=
  let vpn := Z.shiftr vaddr 12 in
  retire_entry Cache.tlb_r set_tlb_r vpn;; retire_entry Cache.tlb_w set_tlb_w vpn.

Definition is_code_page (ppn : Z) (j : Cache.t) : bool := bool_decide (ppn ∈ Cache.code_pages j).
Definition note_code_write : CM unit := modify (λ j, j <| Cache.smc_dirty := true |>).

Definition fill_tlb (vaddr host_page : Z) (store : bool) : CM unit :=
  let vpn := Z.shiftr vaddr 12 in
  g ← get Cache.data_gen;
  let e := TlbEntry.mk vpn g host_page in
  if store then tbl_set Cache.tlb_w set_tlb_w (tlb_index vpn) e
  else tbl_set Cache.tlb_r set_tlb_r (tlb_index vpn) e.

(** ** Discarding and installing *)

Definition void_chain (e : ChainEntry.t) : ChainEntry.t := ChainEntry.mk 0 0 (ChainEntry.idx e).
Definition void_vslot (v : VSlot.t) : VSlot.t := VSlot.mk (VSlot.key v) U32_MAX (VSlot.hit v).

Definition flush : CM unit :=
  bump 64 Cache.flushes (λ n j, j <| Cache.flushes := n |>) 1;;
  modify (λ j, j <| Cache.slots := Tbl.map (λ _, Slot.EMPTY) (Cache.slots j) |>);;
  modify (λ j, j <| Cache.pending := [] |>);;
  modify (λ j, j <| Cache.vcache := Tbl.map void_vslot (Cache.vcache j) |>);;
  modify (λ j, j <| Cache.tlb_r := Tbl.map (λ _, TlbEntry.EMPTY) (Cache.tlb_r j) |>);;
  modify (λ j, j <| Cache.tlb_w := Tbl.map (λ _, TlbEntry.EMPTY) (Cache.tlb_w j) |>);;
  modify (λ j, j <| Cache.chain := Tbl.map void_chain (Cache.chain j) |>);;
  modify (λ j, j <| Cache.chain_ras := Tbl.map void_chain (Cache.chain_ras j) |>);;
  modify (λ j, j <| Cache.ras_sp := 0 |>);;
  modify (λ j, j <| Cache.code_pages := ∅ |>);;
  modify (λ j, j <| Cache.smc_dirty := false |>);;
  modify (λ j, j <| Cache.installed := 0 |>).

Definition take_pending : CM (list (Z * list Src)) :=
  p ← get Cache.pending; modify (λ j, j <| Cache.pending := [] |>);; mret p.

Definition pending_len (j : Cache.t) : nat := length (Cache.pending j).

Definition queued (st : BlockState) : bool := match st with Queued => true | _ => false end.

(** The body of [installed]'s loop for block [k]; the result is whether its page
    became code. *)
Definition install_one (k : nat) (paddr : Z) (bytes insns : list Z) (branchy : list bool) (table_base : Z) : CM bool :=
  let i := index paddr in
  s ← tbl_get Cache.slots i;
  (if (Slot.tag s =? paddr) && queued (Slot.state s) then
     idx ← lift (add_u 32 table_base (as_u32 (Z.of_nat k)));
     b ← lift (bytes !! k); n ← lift (insns !! k); br ← lift (branchy !! k);
     tbl_set Cache.slots set_slots i (Slot.mk paddr (Compiled idx b n br))
   else mret tt);;
  pages ← get Cache.code_pages;
  modify (λ j, j <| Cache.code_pages := {[Z.shiftr paddr 12]} ∪ pages |>);;
  bump 32 Cache.installed (λ n j, j <| Cache.installed := n |>) 1;;
  mret (negb (bool_decide (Z.shiftr paddr 12 ∈ pages))).

Fixpoint install_from (k : nat) (paddrs : list Z) (bytes insns : list Z) (branchy : list bool)
    (table_base : Z) (new_code_page : bool) : CM bool :=
  match paddrs with
  | [] => mret new_code_page
  | paddr :: paddrs =>
      fresh ← install_one k paddr bytes insns branchy table_base;
      install_from (S k) paddrs bytes insns branchy table_base (new_code_page || fresh)
  end.

(** [debug_assert_eq!] is compiled into the builds that check for overflow. *)
Definition installed (paddrs bytes insns : list Z) (branchy : list bool) (table_base : Z) : CM unit :=
  (if overflow_checks && negb ((length paddrs =? length bytes)%nat && (length paddrs =? length insns)%nat &&
                               (length paddrs =? length branchy)%nat)
   then panic else mret tt);;
  new_code_page ← install_from 0 paddrs bytes insns branchy table_base false;
  if new_code_page : bool then
    modify (λ j, j <| Cache.tlb_w := Tbl.map (λ e, e <| TlbEntry.gen := 0 |>) (Cache.tlb_w j) |>)
  else mret tt.

Definition installed_count (j : Cache.t) : Z := Cache.installed j.
End Pure.

(** * Formation *)

Section Formation.
Context {B : Type} `{Bus B} `{Profile} `{Target} `{Libm}.
Abbreviation SM := (M (Sup.t * B)).
Abbreviation JM := (M (Cache.t * (Sup.t * B))).

Definition is_csr (i : Instr) : bool :=
  match i with
  | Csrrw _ _ _ | Csrrs _ _ _ | Csrrc _ _ _ | Csrrwi _ _ _ | Csrrsi _ _ _ | Csrrci _ _ _ => true
  | _ => false
  end.

(** Where the trace goes after a terminator: [None] ends it. *)
Definition trace_target (i : Instr) (pc width : Z) : option Z :=
  match i with
  | Jal _ imm => Some (as_u64 (as_i64 pc + imm))
  | Beq _ _ imm | Bne _ _ imm | Blt _ _ imm | Bge _ _ imm | Bltu _ _ imm | Bgeu _ _ imm =>
      Some (if imm <? 0 then as_u64 (as_i64 pc + imm) else as_u64 (pc + width))
  | _ => None
  end.

(** What [decode_run] reads at [pc]; [None] for an encoding that [decompress]
    rejects. *)
Definition decoded (half width raw : Z) : option Instr :=
  if width =? 2 then decompress half else Some (decode raw).

(** The loop of [decode_run] from [pc], with [n] more instructions allowed. *)
Fixpoint decode_from (n : nat) (start pc : Z) (seen : list Z) : SM (list Src) :=
  match n with
  | O => mret []
  | S n =>
      if negb (Z.shiftr pc 12 =? Z.shiftr start 12) then mret []
      else
        let off := as_i32 (pc - start) in
        if bool_decide (off ∈ seen) then mret []
        else
          let seen := seen ++ [off] in
          r ← Supervisor.debug_fetch pc;
          match r with
          | Err _ => mret []
          | Ok (_, half, width, raw) =>
              match decoded half width raw with
              | None => mret []
              | Some instr =>
                  a ← lift (add_u 64 pc width);
                  last ← lift (sub_u 64 a 1);
                  if negb (Z.shiftr last 12 =? Z.shiftr start 12) then mret []
                  else if is_compilable instr then
                    if is_csr instr then mret [(instr, width, off)]
                    else
                      rest ← decode_from n start (as_u64 (pc + width)) seen;
                      mret ((instr, width, off) :: rest)
                  else if negb (is_terminator instr) then mret []
                  else match trace_target instr pc width with
                       | None => mret [(instr, width, off)]
                       | Some next =>
                           rest ← decode_from n start next seen;
                           mret ((instr, width, off) :: rest)
                       end
              end
          end
  end.

Definition decode_run : SM (list Src) :=
  start ← on_fst (get (λ s, Cpu.pc (Sup.cpu s)));
  decode_from MAX_RUN start start [].

(** The bin of [slot_state] for a slot that is taken over. *)
Definition slot_bin (s : Slot.t) : nat :=
  if Slot.tag s =? U64_MAX then 0
  else match Slot.state s with
       | Cold n => if n =? 1 then 1 else 2
       | _ => 3
       end.

Definition count_bin (i : nat) : M Cache.t unit :=
  l ← get Cache.slot_state; x ← lift (l !! i); x' ← lift (add_u 64 x 1);
  modify (λ j, j <| Cache.slot_state := <[i := x']> l |>).

Definition set_state (i tag : Z) (st : BlockState) : M Cache.t unit :=
  tbl_set Cache.slots set_slots i (Slot.mk tag st).

(** The slot's counter has reached the threshold: decode and queue the run. *)
Definition form (i paddr : Z) : JM unit :=
  run ← on_snd decode_run;
  match run with
  | [] =>
      on_fst (set_state i paddr Rejected;; bump 64 Cache.rejected (λ n j, j <| Cache.rejected := n |>) 1)
  | _ =>
      on_fst (set_state i paddr Queued;; bump 64 Cache.formed (λ n j, j <| Cache.formed := n |>) 1;;
              modify (λ j, j <| Cache.pending := Cache.pending j ++ [(paddr, run)] |>))
  end.

Definition on_block_start : JM (option Hit.t) :=
  on_fst (bump 64 Cache.entries (λ n j, j <| Cache.entries := n |>) 1);;
  pc ← on_snd (on_fst (get (λ s, Cpu.pc (Sup.cpu s))));
  r ← on_snd (Supervisor.debug_translate Instruction pc);
  match r with
  | Err _ => mret None
  | Ok paddr =>
      let i := index paddr in
      slot ← on_fst (tbl_get Cache.slots i);
      if negb (Slot.tag slot =? paddr) then
        on_fst (count_bin (slot_bin slot));;
        on_fst (set_state i paddr (Cold 1));;
        mret None
      else match Slot.state slot with
           | Compiled idx bytes insns branchy => mret (Some (Hit.mk idx bytes insns branchy))
           | Queued | Rejected => mret None
           | Cold n =>
               n' ← on_fst (lift (add_u 32 n 1));
               if n' <? HOT then on_fst (set_state i paddr (Cold n'));; mret None
               else form i paddr;; mret None
           end
  end.

(** [cpu.cpu.pc ^ ((cpu.priv_level as u64) << 62)] *)
Definition vkey (pc : Z) (p : Privilege) : Z := Z.lxor pc (as_u64 (Z.shiftl (priv_code p) 62)).
Definition vcache_index (key : Z) : Z := Z.land (as_usize (Z.shiftr key 1)) (VVCACHE - 1).
Definition chain_index (pc : Z) : Z := Z.land (as_usize (Z.shiftr pc 1)) (CHAIN_ENTRIES - 1).

Definition count_hit (h : Hit.t) : M Cache.t unit :=
  bump 64 Cache.hits (λ n j, j <| Cache.hits := n |>) 1;;
  bump 64 Cache.hit_insns (λ n j, j <| Cache.hit_insns := n |>) (Hit.insns h).

(** A hit of the physical table is entered where it is found without translating. *)
Definition remember (key : Z) (s : Sup.t) (h : Hit.t) : M Cache.t unit :=
  let pc := Cpu.pc (Sup.cpu s) in
  tbl_set Cache.vcache set_vcache (vcache_index key) (VSlot.mk key (Sup.trans_gen s) h);;
  g ← get Cache.chain_gen;
  tbl_set Cache.chain set_chain (chain_index pc) (ChainEntry.mk pc g (Hit.idx h));;
  note_key_page pc (Sup.trans_gen s).

Definition lookup : JM (option Hit.t) :=
  s ← on_snd (on_fst (get id));
  let key := vkey (Cpu.pc (Sup.cpu s)) (Sup.priv_level s) in
  v ← on_fst (tbl_get Cache.vcache (vcache_index key));
  if (VSlot.key v =? key) && (VSlot.gen v =? Sup.trans_gen s) then
    on_fst (count_hit (VSlot.hit v));;
    mret (Some (VSlot.hit v))
  else
    r ← on_block_start;
    match r with
    | None => mret None
    | Some h =>
        on_fst (count_hit h);;
        s ← on_snd (on_fst (get id));
        on_fst (remember key s h);;
        mret (Some h)
    end.
End Formation.

(** [struct Stats] *)
Module Stats.
Record t := mk { entries : Z; formed : Z; rejected : Z; total_insns : Z; max_len : Z }.
End Stats.

Definition stats (pending_seen : list (Z * list Src)) (j : Cache.t) : Stats.t :=
  let lens := (λ p : Z * list Src, Z.of_nat (length p.2)) <$> pending_seen in
  Stats.mk (Cache.entries j) (Cache.formed j) (Cache.rejected j) (foldr Z.add 0 lens) (foldr Z.max 0 lens).

Definition compilable (i : Instr) : bool := is_compilable i.
End BlockCache.
