(* ===== verification/BlockProps.v ===== *)
(** What the block cache guarantees ([riscv-machine/src/jit.rs]). *)

From stdpp Require Import gmap.
From S2P Require Import Prelude Keeps Types Decode Compressed SupTypes State Stream Cpu Fpu Mmu MmuSpec SupState SupTrap Supervisor SupSafe Jit BlockCache.
Import BlockCache.

(** * Tables have the length they were made with *)

Record shaped (j : Cache.t) : Prop := mk_shaped {
  sh_slots : Tbl.len (Cache.slots j) = SLOTS;
  sh_chain : Tbl.len (Cache.chain j) = CHAIN_ENTRIES;
  sh_vcache : Tbl.len (Cache.vcache j) = VVCACHE;
  sh_tlb_r : Tbl.len (Cache.tlb_r j) = TLB_ENTRIES;
  sh_tlb_w : Tbl.len (Cache.tlb_w j) = TLB_ENTRIES;
  sh_keys : Tbl.len (Cache.key_vpns j) = KEY_VPNS;
  sh_bins : length (Cache.slot_state j) = 4%nat;
}.

Lemma shaped_new : shaped Cache.new.
Proof. done. Qed.

(** ** The set of pages with keys *)

Section Keys.
Context `{Target}.

Lemma key_slot_range vpn p : 0 <= key_vpn_slot vpn p < KEY_VPNS.
Proof. unfold key_vpn_slot. change (KEY_VPNS - 1) with (Z.ones 14). rewrite Z.land_ones by lia. by apply Z.mod_pos_bound. Qed.

Lemma packed_gen vpn g : urange 52 vpn → Z.land (key_packed vpn g) 0xFFF = Z.land g 0xFFF.
Proof. intros Hv. unfold key_packed. bitblast 64. Qed.

Lemma packed_page vpn g : urange 52 vpn → Z.shiftr (key_packed vpn g) 12 = vpn.
Proof. intros Hv. unfold key_packed. bitblast 64. Qed.

Definition entry (j : Cache.t) (s : Z) : Z := Tbl.at_ (Cache.key_vpns j) s.

(** The filter answers for page [vpn] in generation [g]. *)
Definition recorded (ps : list Z) (g vpn : Z) (j : Cache.t) : Prop :=
  Cache.key_vpns_full j = as_u32 (g + 1) ∨ ∃ p, p ∈ ps ∧ entry j (key_vpn_slot vpn p) = key_packed vpn g.

(** Reading a table at an index that is in range. *)
Lemma tbl_get_run {A} (f : Cache.t → Tbl.t A) i j : 0 <= i < Tbl.len (f j) → tbl_get f i j = Some (Tbl.at_ (f j) i, j).
Proof. intros Hi. unfold tbl_get. rewrite M_bind_run. cbn [get]. unfold lift. by rewrite Tbl.index_inside. Qed.

Lemma tbl_set_run {A} (f : Cache.t → Tbl.t A) set i a j :
  0 <= i < Tbl.len (f j) → ∃ v, Tbl.put i a (f j) = Some v ∧ tbl_set f set i a j = Some (tt, set v j).
Proof.
  intros Hi. eexists. rewrite Tbl.put_inside by done. split; [done|].
  unfold tbl_set. rewrite M_bind_run. cbn [get]. rewrite M_bind_run. unfold lift. by rewrite Tbl.put_inside.
Qed.

Lemma any_probe_run ps vpn g j :
  shaped j → ∃ b, any_probe ps vpn g j = Some (b, j) ∧
    (b = true ↔ ∃ p, p ∈ ps ∧ entry j (key_vpn_slot vpn p) = key_packed vpn g).
Proof.
  intros Hj. induction ps as [|p ps (b & Hb & IH)]; cbn [any_probe].
  - exists false. split; [done|]. split; [done|]. intros (p & Hp & _). by apply elem_of_nil in Hp.
  - rewrite M_bind_run, tbl_get_run by (rewrite (sh_keys _ Hj); apply key_slot_range).
    fold (entry j (key_vpn_slot vpn p)). destruct (Z.eqb_spec (entry j (key_vpn_slot vpn p)) (key_packed vpn g)) as [E|E].
    + exists true. split; [done|]. split; [|done]. intros _. exists p. split; [by left|done].
    + exists b. split; [done|]. rewrite IH. split.
      * intros (q & Hq & Eq). exists q. split; [by right|done].
      * intros (q & Hq & Eq). apply elem_of_cons in Hq as [->|Hq]; [done|]. by exists q.
Qed.

(** The filter is a query of [recorded]. *)
Lemma may_have_keys_run va g j :
  shaped j → ∃ b, page_may_have_keys va g j = Some (b, j) ∧ (b = true ↔ recorded probes g (Z.shiftr va 12) j).
Proof.
  intros Hj. unfold page_may_have_keys. rewrite M_bind_run. cbn [get].
  destruct (Z.eqb_spec (Cache.key_vpns_full j) (as_u32 (g + 1))) as [E|E].
  - exists true. split; [done|]. split; [by left|done].
  - destruct (any_probe_run probes (Z.shiftr va 12) g j Hj) as (b & Hb & Hiff). exists b. split; [done|].
    rewrite Hiff. split; [by right|]. by intros [|].
Qed.

(** What recording a page does: nothing, raise the flag, or claim an entry that
    is free or of another generation. *)
Inductive records (vpn g : Z) (j : Cache.t) : Cache.t → Prop :=
| records_known : records vpn g j j
| records_full : records vpn g j (j <| Cache.key_vpns_full := as_u32 (g + 1) |>)
| records_claim s v :
    (∃ p, s = key_vpn_slot vpn p) →
    entry j s = U64_MAX ∨ Z.land (entry j s) 0xFFF ≠ Z.land g 0xFFF →
    Tbl.put s (key_packed vpn g) (Cache.key_vpns j) = Some v → records vpn g j (set_key_vpns v j).

Lemma note_probe_run ps vpn g j :
  shaped j → ∃ j', note_probe ps vpn g j = Some (tt, j') ∧ records vpn g j j' ∧ recorded ps g vpn j'.
Proof.
  intros Hj. induction ps as [|p ps (j' & Hr & Hrec & Hin)]; cbn [note_probe].
  - eexists. split; [done|]. split; [constructor|]. by left.
  - pose proof (key_slot_range vpn p) as Hs. rewrite <- (sh_keys _ Hj) in Hs.
    rewrite M_bind_run, tbl_get_run by done. fold (entry j (key_vpn_slot vpn p)).
    destruct (Z.eqb_spec (entry j (key_vpn_slot vpn p)) (key_packed vpn g)) as [E|E].
    { exists j. split; [done|]. split; [constructor|]. right. exists p. split; [by left|done]. }
    destruct ((entry j (key_vpn_slot vpn p) =? U64_MAX) ||
              negb (Z.land (entry j (key_vpn_slot vpn p)) 0xFFF =? Z.land g 0xFFF)) eqn:Ec.
    + destruct (tbl_set_run Cache.key_vpns set_key_vpns _ (key_packed vpn g) j Hs) as (v & Hv & Hset).
      exists (set_key_vpns v j). split; [done|]. split.
      * econstructor; [by eexists| |exact Hv]. apply orb_true_iff in Ec as [Ec|Ec]; [left; by apply Z.eqb_eq|].
        right. apply negb_true_iff, Z.eqb_neq in Ec. done.
      * right. exists p. split; [by left|]. unfold entry. cbn. rewrite (Tbl.at_put _ _ _ _ _ Hv). by rewrite decide_True.
    + exists j'. split; [done|]. split; [done|]. destruct Hin as [|(q & Hq & Eq)]; [by left|].
      right. exists q. split; [by right|done].
Qed.

Lemma records_shaped vpn g j j' : records vpn g j j' → shaped j → shaped j'.
Proof.
  intros Hr Hj. destruct Hr as [| |s v _ _ Hv]; [done| |]; destruct Hj; constructor; try done.
  cbn. by rewrite (Tbl.len_put _ _ _ _ Hv).
Qed.

(** Pages of the same generation keep their entries. *)
Lemma records_keeps vpn vpn' g j j' ps :
  urange 52 vpn → key_packed vpn g ≠ U64_MAX → records vpn' g j j' → recorded ps g vpn j → recorded ps g vpn j'.
Proof.
  intros Hvpn Hmax Hr Hrec. destruct Hr as [| |s v _ Hs Hv]; [done|by left|].
  destruct Hrec as [|(p & Hp & E)]; [by left|]. right. exists p. split; [done|]. unfold entry. cbn.
  rewrite (Tbl.at_put _ _ _ _ _ Hv). destruct (decide (s = _)) as [->|]; [|done]. exfalso.
  fold (entry j (key_vpn_slot vpn p)) in Hs. rewrite E in Hs. destruct Hs as [Hs|Hs]; [done|].
  by rewrite packed_gen in Hs.
Qed.

(** Only the page that was recorded becomes known, unless the flag is raised. *)
Lemma records_only vpn vpn' g j j' ps :
  urange 52 vpn → urange 52 vpn' → records vpn' g j j' → recorded ps g vpn j' →
  recorded ps g vpn j ∨ vpn = vpn' ∨ Cache.key_vpns_full j' = as_u32 (g + 1).
Proof.
  intros Hvpn Hvpn' Hr Hrec. destruct Hr as [| |s v _ Hs Hv]; [by left|by right; right|].
  destruct Hrec as [|(p & Hp & E)]; [by left; left|]. unfold entry in E. cbn in E.
  rewrite (Tbl.at_put _ _ _ _ _ Hv) in E. destruct (decide (s = _)) as [->|].
  - right. left. rewrite <- (packed_page vpn g), <- E by done. by rewrite packed_page.
  - left. right. by exists p.
Qed.

(** Recording pages one after another. *)
Definition note_pages (vas : list Z) (g : Z) : M Cache.t unit :=
  foldr (λ va m, note_key_page va g;; m) (mret tt) vas.

Lemma va_page va : urange 64 va → urange 52 (Z.shiftr va 12).
Proof. intros. by apply (urange_shiftr 52 64). Qed.

Lemma packed_below va g : urange 64 va → va < 2 ^ 64 - 4096 → key_packed (Z.shiftr va 12) g ≠ U64_MAX.
Proof.
  intros Hva Hlt E. assert (Hp : Z.shiftr va 12 = 2 ^ 52 - 1).
  { rewrite <- (packed_page (Z.shiftr va 12) g), E by by apply va_page. done. }
  rewrite Z.shiftr_div_pow2 in Hp by lia. pose proof (Z.mul_div_le va (2 ^ 12) ltac:(lia)). lia.
Qed.

Lemma records_flag vpn g j j' :
  records vpn g j j' → Cache.key_vpns_full j = as_u32 (g + 1) → Cache.key_vpns_full j' = as_u32 (g + 1).
Proof. by intros []. Qed.

Lemma note_pages_run vas g j :
  shaped j → Forall (λ va, urange 64 va ∧ va < 2 ^ 64 - 4096) vas →
  ∃ j', note_pages vas g j = Some (tt, j') ∧ shaped j' ∧
    (Cache.key_vpns_full j = as_u32 (g + 1) → Cache.key_vpns_full j' = as_u32 (g + 1)) ∧
    (∀ va, va ∈ vas → recorded probes g (Z.shiftr va 12) j') ∧
    (∀ vpn, urange 52 vpn → key_packed vpn g ≠ U64_MAX → recorded probes g vpn j → recorded probes g vpn j') ∧
    (∀ vpn, urange 52 vpn → recorded probes g vpn j' →
       recorded probes g vpn j ∨ (∃ va, va ∈ vas ∧ Z.shiftr va 12 = vpn) ∨ Cache.key_vpns_full j' = as_u32 (g + 1)).
Proof.
  intros Hj Hvas. revert j Hj. induction Hvas as [|va vas [Hva Hlt] Hvas IH]; intros j Hj.
  - exists j. split_and!; try done; [by intros va ?%elem_of_nil|by left].
  - destruct (note_probe_run probes (Z.shiftr va 12) g j Hj) as (j1 & Hrun & Hr & Hin).
    destruct (IH j1 (records_shaped _ _ _ _ Hr Hj)) as (j' & Hrun' & Hj' & Hflag & Hall & Hkeep & Honly).
    exists j'. split; [|split; [done|split_and!]].
    + change (note_pages (va :: vas) g) with (note_key_page va g;; note_pages vas g).
      rewrite M_bind_run. unfold note_key_page. by rewrite Hrun.
    + intros Hf. apply Hflag. by eapply records_flag.
    + intros va' [->|Hva']%elem_of_cons; [|by apply Hall].
      apply Hkeep; [by apply va_page|by apply packed_below|done].
    + intros vpn Hvpn Hmax Hrec. apply Hkeep; try done. by eapply records_keeps.
    + intros vpn Hvpn Hrec. destruct (Honly vpn Hvpn Hrec) as [Hrec1|[(va' & Hva' & E)|Hf]].
      * destruct (records_only vpn _ g j j1 probes Hvpn (va_page va Hva) Hr Hrec1) as [|[->|Hf]];
          [by left|right; left; exists va; split; [by left|done]|right; right; by apply Hflag].
      * right. left. exists va'. split; [by right|done].
      * by right; right.
Qed.
End Keys.

(** C30: the filter of [sfence.vma] is exact within a generation.  Record pages
    one after another with [note_key_page], all in generation [g], from any state
    of the table, entries of other generations included.  Then
    [page_may_have_keys] answers yes for every recorded page, so no page that
    holds a key escapes invalidation; and a yes for any other page was a yes
    before, or the overflow flag is up.  (The last page of the address space is
    excepted: its entry is the free marker.) *)
Theorem key_filter_exact (T : Target) (vas : list Z) (g : Z) (j : Cache.t) :
  shaped j → Forall (λ va, urange 64 va ∧ va < 2 ^ 64 - 4096) vas →
  ∃ j', note_pages vas g j = Some (tt, j') ∧
    (∀ va, va ∈ vas → page_may_have_keys va g j' = Some (true, j')) ∧
    (∀ va, urange 64 va → page_may_have_keys va g j' = Some (true, j') →
       page_may_have_keys va g j = Some (true, j) ∨ (∃ va', va' ∈ vas ∧ Z.shiftr va' 12 = Z.shiftr va 12) ∨
       Cache.key_vpns_full j' = as_u32 (g + 1)).
Proof.
  intros Hj Hvas. destruct (note_pages_run vas g j Hj Hvas) as (j' & Hrun & Hj' & _ & Hall & _ & Honly).
  exists j'. split; [done|]. split.
  - intros va Hva. destruct (may_have_keys_run va g j' Hj') as (b & Hb & Hiff).
    by rewrite Hb, (proj2 Hiff (Hall va Hva)).
  - intros va Hva Hyes. destruct (may_have_keys_run va g j' Hj') as (b & Hb & Hiff).
    rewrite Hb in Hyes. injection Hyes as ->.
    destruct (Honly _ (va_page va Hva) (proj1 Hiff eq_refl)) as [Hrec|Hrest]; [left|by right].
    destruct (may_have_keys_run va g j Hj) as (b' & Hb' & Hiff'). by rewrite Hb', (proj2 Hiff' Hrec).
Qed.

Lemma key_filter_exact_witness :
  ∃ j', note_pages (H := Native64) [0x10000; 0x5000] 7 Cache.new = Some (tt, j') ∧
    page_may_have_keys (H0 := Native64) 0x5000 7 j' = Some (true, j').
Proof.
  destruct (key_filter_exact Native64 [0x10000; 0x5000] 7 Cache.new shaped_new) as (j' & Hrun & Hall & _).
  { repeat constructor; unfold urange; lia. }
  exists j'. split; [exact Hrun|]. apply (Hall 0x5000). by right; left.
Defined.

(** ** Looking up *)

(** A hit of the virtual table needs neither translation nor the physical table. *)
Lemma lookup_hit `{PR : Profile} `{TG : Target} {B} {BU : Bus B} (j j' : Cache.t) (s : Sup.t) (b : B) v :
  let key := vkey (Cpu.pc (Sup.cpu s)) (Sup.priv_level s) in
  Tbl.index (Cache.vcache j) (vcache_index key) = Some v → VSlot.key v = key → VSlot.gen v = Sup.trans_gen s →
  count_hit (VSlot.hit v) j = Some (tt, j') → lookup (j, (s, b)) = Some (Some (VSlot.hit v), (j', (s, b))).
Proof.
  cbv zeta. intros Hi Hk Hg Hc. unfold lookup.
  rewrite (snd_bind _ _ j (s, b) s (s, b)) by done. rewrite (fst_bind _ _ j (s, b) v j).
  2:{ unfold tbl_get. rewrite M_bind_run. cbn [get]. unfold lift. by rewrite Hi. }
  rewrite Hk, Hg, !Z.eqb_refl. cbn [andb]. by rewrite (fst_bind _ _ j (s, b) tt j').
Qed.

(** ** Two address spaces *)

Module TwoSpaces.
Definition SATP_A : Z := 0x8000000000080200.
Definition SATP_B : Z := 0x8000000000080201.
Definition VA_A : Z := 0x10000.
Definition VA_B : Z := 0x453f000.
Definition HIT_A : Hit.t := Hit.mk 5 8 2 false.
Definition HIT_B : Hit.t := Hit.mk 6 4 1 true.

(** A process of space A runs, then one of space B, then the first again. *)
Definition in_a : Sup.t := (Sup.switch_address_space 0 SATP_A (Sup.new VA_A 0)) <| Sup.priv_level := PUser |>.
Definition in_b : Sup.t := set_pc VA_B (Sup.switch_address_space SATP_A SATP_B in_a).
Definition back_in_a : Sup.t := set_pc VA_A (Sup.switch_address_space SATP_B SATP_A in_b).

Definition visit `{Profile} `{Target} (s : Sup.t) (h : Hit.t) : M Cache.t unit :=
  refresh_gen s;; remember (vkey (Cpu.pc (Sup.cpu s)) (Sup.priv_level s)) s h.
End TwoSpaces.

(** C37: the filter loses pages when address spaces are switched.  [note_key_page]
    takes an entry of another generation for dead, but a generation that
    [switch_address_space] leaves is restored when its address space comes back.
    A process of space A enters a block, a process of space B enters one on a
    page whose entry falls into the same place, and A is resumed with the
    generation it had: [page_may_have_keys] now denies that A's page holds keys,
    so an [sfence.vma] of that page leaves the generation alone, while [lookup]
    still returns A's block from the virtual table without translating, and the
    chain entry that generated code probes still carries the live generation
    word. *)
Theorem stale_block_survives (PR : Profile) (B : Type) (BU : Bus B) (b : B) :
  ∃ j j',
    (TwoSpaces.visit (H0 := Wasm32) TwoSpaces.in_a TwoSpaces.HIT_A;; TwoSpaces.visit (H0 := Wasm32) TwoSpaces.in_b TwoSpaces.HIT_B;;
     refresh_gen TwoSpaces.back_in_a) Cache.new = Some (tt, j) ∧
    page_may_have_keys (H0 := Wasm32) TwoSpaces.VA_A (Sup.trans_gen TwoSpaces.in_a) j = Some (false, j) ∧
    Sup.trans_gen TwoSpaces.back_in_a = Sup.trans_gen TwoSpaces.in_a ∧
    lookup (H1 := Wasm32) (j, (TwoSpaces.back_in_a, b)) = Some (Some TwoSpaces.HIT_A, (j', (TwoSpaces.back_in_a, b))) ∧
    Tbl.at_ (Cache.chain j) (chain_index (H1 := Wasm32) TwoSpaces.VA_A) =
      ChainEntry.mk TwoSpaces.VA_A (Cache.chain_gen j) (Hit.idx TwoSpaces.HIT_A).
Proof.
  eexists _, _. split; [vm_compute; reflexivity|].
  split; [vm_compute; reflexivity|]. split; [vm_compute; reflexivity|]. split; [|vm_compute; reflexivity].
  eapply (lookup_hit (TG := Wasm32)) with (v := VSlot.mk (vkey TwoSpaces.VA_A PUser) _ TwoSpaces.HIT_A); vm_compute; reflexivity.
Qed.

(** ** Generation words *)

Lemma gen_word_small `{PR : Profile} g p :
  0 <= g < 2 ^ 30 - 1 → gen_word g p = Some (1 + (4 * g + priv_code p)).
Proof.
  intros Hg. unfold gen_word. rewrite wrap_small by (rewrite Z.shiftl_mul_pow2 by lia; unfold urange; lia).
  assert (Hl : Z.lor (Z.shiftl g 2) (Z.land (priv_code p) 3) = 4 * g + priv_code p).
  { replace (Z.land (priv_code p) 3) with (priv_code p) by by destruct p.
    rewrite Z.shiftl_mul_pow2, lor_add_disjoint by (lia || apply (priv_code_range p)). lia. }
  rewrite Hl. pose proof (priv_code_range p) as Hp. unfold urange in Hp. unfold add_u, checked_u.
  destruct (Z.leb_spec 0 (1 + (4 * g + priv_code p))), (Z.ltb_spec (1 + (4 * g + priv_code p)) (2 ^ 32)); (done || lia).
Qed.

(** C31: generation words name the translation generation and the privilege.  Up
    to a translation generation of 2^30 - 2 the word is one more than four times
    the generation plus the privilege, so it fits 32 bits, is never 0, the mark
    of an empty entry, and differs between any two pairs.  Beyond, the shift
    drops bits: generation 2^30 has the words of generation 0, and in machine
    mode 2^30 - 1 gives 0, or a panic where overflow is checked. *)
Theorem gen_word_bounds (PR : Profile) :
  (∀ g p, 0 <= g < 2 ^ 30 - 1 → ∃ w, gen_word g p = Some w ∧ w = 1 + (4 * g + priv_code p) ∧ 0 < w < 2 ^ 32) ∧
  (∀ g p g' p', 0 <= g < 2 ^ 30 - 1 → 0 <= g' < 2 ^ 30 - 1 → gen_word g p = gen_word g' p' → g = g' ∧ p = p') ∧
  (∀ p, gen_word (2 ^ 30) p = gen_word 0 p) ∧
  gen_word (2 ^ 30 - 1) PMachine = (if overflow_checks then None else Some 0).
Proof.
  split_and!.
  - intros g p Hg. eexists. split; [by apply gen_word_small|]. pose proof (priv_code_range p) as Hp.
    unfold urange in Hp. lia.
  - intros g p g' p' Hg Hg'. rewrite !gen_word_small by done. intros [= E].
    destruct p, p'; cbn in E; split; (done || lia).
  - by intros [].
  - done.
Qed.

Lemma gen_word_bounds_witness :
  gen_word (H := Release) 5 PUser = Some 21 ∧ gen_word (H := Release) 6 PUser ≠ gen_word (H := Release) 5 PSupervisor.
Proof.
  destruct (gen_word_bounds Release) as (H1 & H2 & _). split.
  - destruct (H1 5 PUser) as (w & Hw & -> & _); [lia|exact Hw].
  - intros E. destruct (H2 6 PUser 5 PSupervisor) as [[=] _]; [lia|lia|exact E].
Defined.
