(* ===== verification/BlockTrace.v ===== *)
(** The runs that the block cache decodes ([decode_run] of
    [riscv-machine/src/jit.rs]), and that they are what the compiler's
    correctness asks of a trace. *)

From stdpp Require Import gmap.
From S2P Require Import Prelude Keeps Types Decode Compressed SupTypes State Stream Cpu Fpu Execute Mmu SupState Supervisor SupSafe Jit JitPlan JitStep JitJump JitSim BlockCache.
Import BlockCache.

(** * One fetch *)

Lemma decode_low raw : Z.land raw 3 ≠ 3 → decode raw = Unimp.
Proof.
  intros Hr. assert (Ho : ∀ c, Z.land c 3 = 3 → (Z.land raw 0x7F =? c) = false).
  { intros c Hc. apply Z.eqb_neq. intros E. apply Hr. etransitivity; [|exact Hc]. by rewrite <- E, <- Z.land_assoc. }
  unfold decode. cbv zeta. by rewrite !Ho by done.
Qed.

(** What [debug_fetch] returns. *)
Definition fetched_ok (r : Result (Z * Z * Z * Z) Z) : Prop :=
  match r with
  | Ok (_, half, width, raw) =>
      urange 16 half ∧ urange 32 raw ∧ (width = 2 ∨ width = 4 ∨ (width = 0 ∧ Z.land raw 3 ≠ 3))
  | Err _ => True
  end.

(** An instruction that goes into a run. *)
Definition admissible (i : Instr) (width : Z) : Prop :=
  instr_wf i ∧ (width = 2 ∨ width = 4) ∧ (is_compilable i = true ∨ is_terminator i = true).

Lemma decoded_admissible pa half width raw i :
  fetched_ok (Ok (pa, half, width, raw)) → decoded half width raw = Some i →
  is_compilable i = true ∨ is_terminator i = true → admissible i width.
Proof.
  intros (Hh & Hr & Hw) Hd Hc. unfold decoded in Hd. destruct (Z.eqb_spec width 2) as [->|Hn].
  - split; [by apply (decompress_encodable half)|]. split; [by left|done].
  - injection Hd as <-. destruct Hw as [?|[->|[-> Hl]]]; [done| |].
    + split; [by apply decode_wf|]. split; [by right|done].
    + rewrite decode_low in Hc by done. by destruct Hc.
Qed.

Lemma join_low hi half : urange 16 half → Z.land (Supervisor.join_halves hi half) 3 = Z.land half 3.
Proof. intros Hh. unfold Supervisor.join_halves. bitblast 16. Qed.

Section Fetch.
Context {B : Type} {BU : Bus B} {PR : Profile} {TG : Target} {L : Libm} (P : Prop).
Context {BO : BusOk P B} {LO : LibmOk} (HP : overflow_checks = true → P).

Lemma debug_fetch_safe va : urange 64 va → keeps P (machine_inv P) (Supervisor.debug_fetch va) fetched_ok.
Proof.
  intros Hv. unfold Supervisor.debug_fetch. eapply keeps_bind; [by apply translate_safe|].
  intros [pa|t] Hpa; [|by apply keeps_ret].
  assert (Hraw : ∀ hi half, urange 16 half → urange 32 (Supervisor.join_halves hi half)).
  { intros hi half Hh. apply urange_lor; [lia|apply wrap_range; lia|]. by apply (urange_weaken 16). }
  eapply keeps_bind; [by apply read_half_safe|]. intros half Hh. destruct (negb (Z.land half 3 =? 3)) eqn:Eh.
  - destruct (decompress half) eqn:Ed; [apply keeps_ret; split_and!; [done|done|by left]|].
    eapply keeps_bind; [by apply bkeeps_add|]. intros a Ha.
    eapply keeps_bind; [by apply read_half_safe|]. intros hi Hhi. apply keeps_ret.
    split_and!; [done|by apply Hraw|]. right. right. split; [done|]. rewrite join_low by done.
    by apply negb_true_iff, Z.eqb_neq in Eh.
  - eapply keeps_bind; [by apply bkeeps_add|]. intros a Ha.
    eapply keeps_bind; [by apply read_half_safe|]. intros hi Hhi. apply keeps_ret.
    split_and!; [done|by apply Hraw|]. by right; left.
Qed.
End Fetch.

(** * The path of a run *)

Definition in_page (start va : Z) : Prop := Z.shiftr (as_u64 va) 12 = Z.shiftr start 12.

Section Path.
Context (F : Z → Instr → Z → Prop) (start : Z).

(** A run from offset [off], apart from the offsets in [seen]. *)
Fixpoint path (off : Z) (seen : list Z) (run : list Src) : Prop :=
  match run with
  | [] => True
  | (i, w, o) :: rest =>
      o = off ∧ (off ∉ seen) ∧ in_page start (start + off) ∧ in_page start (start + off + w - 1) ∧
      (-4096) < off < 4096 ∧ F (as_u64 (start + off)) i w ∧ admissible i w ∧
      (rest ≠ [] → is_jalr i = false ∧ is_csr i = false) ∧
      path (trace_next off i w) (off :: seen) rest
  end.
End Path.

Lemma page_div va : Z.shiftr va 12 = va / 4096.
Proof. by rewrite Z.shiftr_div_pow2 by lia. Qed.

(** Two addresses of a page are close. *)
Lemma page_close pc start :
  Z.shiftr pc 12 = Z.shiftr start 12 → (-4096) < pc - start < 4096.
Proof.
  rewrite !page_div. intros E. pose proof (Z.div_mod pc 4096 ltac:(lia)). pose proof (Z.div_mod start 4096 ltac:(lia)).
  pose proof (Z.mod_pos_bound pc 4096 ltac:(lia)). pose proof (Z.mod_pos_bound start 4096 ltac:(lia)). lia.
Qed.

Lemma page_offset_exact pc start : Z.shiftr pc 12 = Z.shiftr start 12 → as_i32 (pc - start) = pc - start.
Proof. intros E%page_close. apply sext_small; [lia|]. unfold srange. lia. Qed.

(** The target of a step of the trace, as an offset. *)
Lemma trace_target_next i pc w start off next :
  instr_wf i → trace_target i pc w = Some next → pc = as_u64 (start + off) →
  next = as_u64 (start + trace_next off i w).
Proof.
  intros Hwf Ht ->. assert (Hj : ∀ imm, as_u64 (as_i64 (as_u64 (start + off)) + imm) = as_u64 (start + (off + imm))).
  { intros imm. rewrite <- wrap_add_l, wrap_sext, !wrap_add_l by lia. f_equal. lia. }
  assert (Hf : as_u64 (as_u64 (start + off) + w) = as_u64 (start + (off + w))).
  { rewrite wrap_add_l by lia. f_equal. lia. }
  destruct i; try done; cbn in Ht |- *; injection Ht as <-; rewrite ?Hj, ?Hf; try done; by destruct (_ <? 0).
Qed.

Lemma trace_next_range off i w :
  instr_wf i → (-4096) < off < 4096 → w = 2 ∨ w = 4 → - (2 ^ 63) - 4096 <= trace_next off i w <= 2 ^ 63 + 4096.
Proof.
  intros Hwf Ho Hw. destruct i; cbn in *; try lia; try (destruct (_ <? 0)); unfold srange in *; lia.
Qed.

(** Within the page the offset of an address is the one it was reached by. *)
Lemma page_reached pc start tn :
  urange 64 pc → urange 64 start → Z.shiftr pc 12 = Z.shiftr start 12 → pc = as_u64 (start + tn) →
  - (2 ^ 63) - 4096 <= tn <= 2 ^ 63 + 4096 → pc - start = tn.
Proof.
  intros Hp Hs E%page_close Hpc Ht. unfold urange in *. unfold wrap in Hpc.
  pose proof (Z.div_mod (start + tn) (2 ^ 64) ltac:(lia)) as Hd. rewrite <- Hpc in Hd. clear Hpc.
  remember ((start + tn) / 2 ^ 64) as q. assert ((-1) < q < 1) by lia. lia.
Qed.

Lemma checked_value `{PR : Profile} w r x : 0 <= w → checked_u w r = Some x → x = wrap w r.
Proof.
  unfold checked_u. intros Hw. destruct (_ && _) eqn:E.
  - intros [= <-]. apply andb_prop in E as [E1 E2]. rewrite wrap_small; [done|]. unfold urange. lia.
  - by destruct overflow_checks; intros [= <-].
Qed.

Lemma path_seen F start off seen seen' run :
  (∀ o, o ∈ seen ↔ o ∈ seen') → path F start off seen run → path F start off seen' run.
Proof.
  revert off seen seen'. induction run as [|[[i w] o] run IH]; intros off seen seen' Hs; [done|]. cbn.
  intros (-> & Hn & Hrest). destruct Hrest as (H1 & H2 & H3 & H4 & H5 & H6 & H7).
  split; [done|]. split; [by rewrite <- Hs|]. do 6 (split; [done|]).
  eapply IH; [|exact H7]. intros o. rewrite !elem_of_cons, Hs. done.
Qed.

Lemma last_byte x w : as_u64 (as_u64 (as_u64 x + w) - 1) = as_u64 (x + w - 1).
Proof.
  rewrite (wrap_add_l 64 x w) by lia. change (as_u64 (x + w) - 1) with (as_u64 (x + w) + (-1)).
  by rewrite wrap_add_l by lia.
Qed.

Section Decode.
Context {B : Type} {BU : Bus B} {PR : Profile} {TG : Target} {L : Libm} (P : Prop) (HP : overflow_checks = true → P).

(** Any invariant under which fetching at an address reads what [F] allows. *)
Context (I : Sup.t * B → Prop) (F : Z → Instr → Z → Prop).
Definition reads_as (pc : Z) (r : Result (Z * Z * Z * Z) Z) : Prop :=
  fetched_ok r ∧ ∀ pa half w raw i, r = Ok (pa, half, w, raw) → decoded half w raw = Some i → F pc i w.
Context (HF : ∀ pc, urange 64 pc → keeps P I (Supervisor.debug_fetch pc) (reads_as pc)).

Lemma keeps_value (o : Z) : keeps P I (lift (checked_u 64 o)) (λ x, x = as_u64 o).
Proof.
  apply keeps_lift. destruct (checked_u 64 o) eqn:E; [by apply checked_value in E|].
  apply HP. revert E. unfold checked_u. destruct (_ && _); [done|]. by destruct overflow_checks.
Qed.

Lemma decode_from_path n start off pc seen :
  urange 64 start → pc = as_u64 (start + off) → - (2 ^ 63) - 4096 <= off <= 2 ^ 63 + 4096 →
  keeps P I (decode_from n start pc seen) (λ run, path F start off seen run ∧ (length run <= n)%nat).
Proof.
  intros Hst. revert off pc seen. induction n as [|n IH]; intros off pc seen Hpc Hoff; cbn [decode_from].
  { by apply keeps_ret. }
  assert (Hp : urange 64 pc) by (rewrite Hpc; apply wrap_range; lia).
  destruct (Z.eqb_spec (Z.shiftr pc 12) (Z.shiftr start 12)) as [Hpg|Hpg]; cbn [negb]; [|apply keeps_ret; split; [done|cbn; lia]].
  cbv zeta. rewrite page_offset_exact by done.
  pose proof (page_reached pc start off Hp Hst Hpg Hpc Hoff) as Ho. rewrite Ho.
  pose proof (page_close pc start Hpg) as Hclose. rewrite Ho in Hclose.
  destruct (bool_decide_reflect (off ∈ seen)) as [Hin|Hin]; [apply keeps_ret; split; [done|cbn; lia]|].
  eapply keeps_bind; [by apply HF|]. intros [[[[pa half] w] raw]|e] [Hok Hr]; [|apply keeps_ret; split; [done|cbn; lia]].
  destruct (decoded half w raw) as [i|] eqn:Ed; [|apply keeps_ret; split; [done|cbn; lia]].
  specialize (Hr _ _ _ _ _ eq_refl Ed).
  eapply keeps_bind; [apply (keeps_value (pc + w))|]. intros a ->.
  eapply keeps_bind; [apply (keeps_value (as_u64 (pc + w) - 1))|]. intros last Hl.
  destruct (Z.eqb_spec (Z.shiftr last 12) (Z.shiftr start 12)) as [Hlp|Hlp]; cbn [negb]; [|apply keeps_ret; split; [done|cbn; lia]].
  assert (Hhere : in_page start (start + off)) by (unfold in_page; by rewrite <- Hpc).
  assert (Hend : in_page start (start + off + w - 1)).
  { unfold in_page. by rewrite <- Hlp, Hl, Hpc, last_byte. }
  assert (Hone : ∀ rest, (is_compilable i = true ∨ is_terminator i = true) →
    (rest ≠ [] → is_jalr i = false ∧ is_csr i = false) →
    path F start (trace_next off i w) (seen ++ [off]) rest → path F start off seen ((i, w, off) :: rest)).
  { intros rest Hi Hend' Hrest. cbn. split; [done|]. do 3 (split; [done|]). split; [lia|].
    split; [by rewrite <- Hpc|]. split; [by eapply decoded_admissible|]. split; [done|].
    eapply path_seen; [|exact Hrest]. intros o. rewrite elem_of_app, !elem_of_cons, elem_of_nil. tauto. }
  destruct (is_compilable i) eqn:Ec.
  - destruct (is_csr i) eqn:Ecsr; [apply keeps_ret; split; [apply Hone; [by left|done|done]|cbn; lia]|].
    eapply keeps_bind; [apply (IH (off + w))|].
    + rewrite Hpc, wrap_add_l by lia. f_equal. lia.
    + destruct (decoded_admissible _ _ _ _ _ Hok Ed (or_introl Ec)) as (_ & Hw & _). lia.
    + intros rest [Hrest Hlen]. apply keeps_ret. split; [|cbn; lia]. apply Hone; [by left| |].
      * intros _. split; [by destruct i|done].
      * replace (trace_next off i w) with (off + w) by by destruct i. done.
  - destruct (is_terminator i) eqn:Et; cbn [negb]; [|apply keeps_ret; split; [done|cbn; lia]].
    destruct (decoded_admissible _ _ _ _ _ Hok Ed (or_intror Et)) as (Hwf & Hw & _).
    destruct (trace_target i pc w) as [next|] eqn:En.
    + eapply keeps_bind; [apply (IH (trace_next off i w))|].
      * by eapply trace_target_next.
      * by apply trace_next_range.
      * intros rest [Hrest Hlen]. apply keeps_ret. split; [|cbn; lia]. apply Hone; [by right| |done].
        intros _. split; by destruct i.
    + apply keeps_ret. split; [apply Hone; [by right|done|done]|cbn; lia].
Qed.
End Decode.

(** * What a path says of each instruction *)

Section Reading.
Context (F : Z → Instr → Z → Prop) (start : Z).

Lemma path_nodup off seen run : path F start off seen run → NoDup (snd <$> run) ∧ ∀ o, o ∈ snd <$> run → o ∉ seen.
Proof.
  revert off seen. induction run as [|[[i w] o] run IH]; intros off seen; cbn.
  { intros _. split; [constructor|]. by intros o ?%elem_of_nil. }
  intros (-> & Hn & _ & _ & _ & _ & _ & _ & Hrest). destruct (IH _ _ Hrest) as [Hnd Hdis]. split.
  - constructor; [|done]. intros Hin. by apply (Hdis off Hin); left.
  - intros o [->|Hin]%elem_of_cons; [done|]. intros Hs. by apply (Hdis o Hin); right.
Qed.

Lemma path_entry off seen run i w o :
  path F start off seen run → (i, w, o) ∈ run →
  in_page start (start + o) ∧ in_page start (start + o + w - 1) ∧ (-4096) < o < 4096 ∧
  F (as_u64 (start + o)) i w ∧ admissible i w.
Proof.
  revert off seen. induction run as [|[[i' w'] o'] run IH]; intros off seen; cbn; [by intros _ ?%elem_of_nil|].
  intros (-> & _ & H1 & H2 & H3 & H4 & H5 & _ & Hrest) [E|Hin]%elem_of_cons; [by injection E as -> -> ->|by eapply IH].
Qed.

Lemma path_first off seen run s : path F start off seen run → run !! 0%nat = Some s → s.2 = off.
Proof. destruct run as [|[[i w] o] run]; [done|]. cbn. by intros [-> _] [= <-]. Qed.

Lemma path_next off seen run j s s' :
  path F start off seen run → run !! j = Some s → run !! S j = Some s' →
  is_jalr s.1.1 = false ∧ s'.2 = trace_next s.2 s.1.1 s.1.2.
Proof.
  revert off seen j. induction run as [|[[i w] o] run IH]; intros off seen j; [done|]. cbn [path].
  intros (-> & _ & _ & _ & _ & _ & _ & Hlast & Hrest). destruct j as [|j].
  - intros [= <-] Hs'. cbn in Hs'. cbn [fst snd]. destruct run as [|s1 run]; [done|].
    split; [by apply Hlast|]. by eapply path_first.
  - cbn. by eapply IH.
Qed.
End Reading.

(** The code that a run was read from. *)
Definition code_of (start : Z) (run : list Src) (pc : Z) : option (Instr * Z) :=
  '(_, s) ← list_find (λ s : Src, pc_of start s.2 = pc) run; Some s.1.

Lemma pc_of_inj start o o' :
  (-4096) < o < 4096 → (-4096) < o' < 4096 → pc_of start o = pc_of start o' → o = o'.
Proof.
  intros Ho Ho' E. unfold pc_of in E. rewrite !wrap_add_r in E by lia.
  apply (f_equal (λ x, sext 64 (x - start))) in E. unfold Z.sub in E.
  assert (Hc : ∀ x, (-4096) < x < 4096 → sext 64 (as_u64 (start + x) + - start) = x).
  { intros x Hx. rewrite <- (sext_small 64 x) at 2 by (unfold srange; lia).
    apply (proj1 (wrap_eq_sext_eq 64 _ _ eq_refl)). rewrite wrap_add_l by lia. f_equal. lia. }
  by rewrite !Hc in E.
Qed.

Lemma path_code F start off seen run i w o :
  path F start off seen run → (i, w, o) ∈ run → code_of start run (pc_of start o) = Some (i, w).
Proof.
  intros Hp Hin. unfold code_of. destruct (path_nodup _ _ _ _ _ Hp) as [Hnd _].
  destruct (list_find (λ s : Src, pc_of start s.2 = pc_of start o) run) as [[k s]|] eqn:E.
  - apply list_find_Some in E as (Hk & Hs & _). cbn. destruct s as [[i' w'] o']. cbn in Hs.
    pose proof (list_elem_of_lookup_2 _ _ _ Hk) as Hin'.
    destruct (path_entry _ _ _ _ _ _ _ _ Hp Hin) as (_ & _ & Ho & _).
    destruct (path_entry _ _ _ _ _ _ _ _ Hp Hin') as (_ & _ & Ho' & _).
    apply pc_of_inj in Hs; [|done|done]. subst o'.
    apply list_elem_of_lookup_1 in Hin as [k' Hk'].
    assert (k' = k) as ->.
    { eapply (NoDup_lookup (snd <$> run)); [done| |].
      - rewrite list_lookup_fmap, Hk'. done.
      - rewrite list_lookup_fmap. by apply (f_equal (fmap snd)) in Hk. }
    pose proof (eq_trans (eq_sym Hk) Hk') as E'. by injection E' as -> ->.
  - exfalso. apply list_find_None in E. rewrite Forall_forall in E. by apply (E _ Hin).
Qed.

Lemma path_traced F start run :
  path F start 0 [] run → Forall (λ s : Src, integer s.1.1 = true) run → traced (code_of start run) start run.
Proof.
  intros Hp Hint. constructor.
  - intros s Hs. by eapply path_first.
  - intros j i w o Hj. eapply path_code; [done|]. by eapply list_elem_of_lookup_2.
  - intros j [[i w] o] Hj. cbn. apply list_elem_of_lookup_2 in Hj as Hin. rewrite Forall_forall in Hint.
    destruct (path_entry _ _ _ _ _ _ _ _ Hp Hin) as (_ & _ & _ & _ & Hwf & _ & Hc).
    split; [done|]. split; [by apply (Hint _ Hin)|done].
  - intros j s s' Hs Hs'. by eapply path_next.
Qed.

(** * Properties *)

Section Seen.
Context {B : Type} {BU : Bus B} {PR : Profile} {TG : Target} {L : Libm}.

(** The states that a sequence of fetches passes from [p0]. *)
Inductive peeked (p0 : Sup.t * B) : Sup.t * B → Prop :=
| peeked_here : peeked p0 p0
| peeked_more p pc r p' : peeked p0 p → Supervisor.debug_fetch pc p = Some (r, p') → peeked p0 p'.

(** Some fetch at [pc] on the way read the instruction [i] of [w] bytes. *)
Definition fetches (p0 : Sup.t * B) (pc : Z) (i : Instr) (w : Z) : Prop :=
  ∃ p p' pa half raw, peeked p0 p ∧ Supervisor.debug_fetch pc p = Some (Ok (pa, half, w, raw), p') ∧
    decoded half w raw = Some i.
End Seen.

(** C5: the runs that are queued are traces of the guest's code.  In the release
    build, on a bus whose accesses never panic (the reference memory is one), and
    from a well-formed state, [decode_run] returns, whatever memory holds.  A run
    has at most 64 instructions at distinct offsets; each is one the compiler takes, was
    fetched and decoded at its address by [debug_fetch], and lies with all its
    bytes in the page of the first, whose translation is the only one the block
    is keyed on.  The offsets follow the control flow: jumps, backward branches
    as taken, forward ones as not taken, and an indirect jump or a CSR
    instruction is the last.  A run without floating point and CSR instructions
    is therefore a trace in the sense of the compiler's correctness theorem. *)
Theorem decode_run_traces (B : Type) (BU : Bus B) (BO : BusOk False B) (TG : Target) (L : Libm) (LO : LibmOk)
    (s : Sup.t) (b : B) :
  sup_wf s → bus_inv b →
  let pc := Cpu.pc (Sup.cpu s) in
  ∃ run s' b', decode_run (H0 := Release) (s, b) = Some (run, (s', b')) ∧ sup_wf s' ∧ bus_inv b' ∧
    (length run <= 64)%nat ∧ NoDup (snd <$> run) ∧
    (∀ i w off, (i, w, off) ∈ run →
       in_page pc (pc + off) ∧ in_page pc (pc + off + w - 1) ∧ fetches (PR := Release) (s, b) (as_u64 (pc + off)) i w ∧
       (is_compilable i = true ∨ is_terminator i = true)) ∧
    (∀ j x y, run !! j = Some x → run !! S j = Some y →
       is_jalr x.1.1 = false ∧ y.2 = trace_next x.2 x.1.1 x.1.2) ∧
    (Forall (λ x : Src, integer x.1.1 = true) run → traced (code_of pc run) pc run).
Proof.
  intros Hs Hb pc.
  set (F := fetches (PR := Release) (s, b)).
  set (I := λ p : Sup.t * B, machine_inv False p ∧ peeked (PR := Release) (s, b) p).
  assert (HF : ∀ va, urange 64 va → keeps False I (Supervisor.debug_fetch (H0 := Release) va) (reads_as F va)).
  { intros va Hva p [Hp Hpk]. pose proof (debug_fetch_safe (PR := Release) False (λ E : false = true, False_ind _ ltac:(done)) va Hva p Hp) as Hf.
    unfold wp in Hf |- *. destruct (Supervisor.debug_fetch va p) as [[r p']|] eqn:E; [|done]. destruct Hf as [Hok Hp'].
    assert (Hpk' : peeked (PR := Release) (s, b) p') by by econstructor.
    split; [|by split]. split; [exact Hok|]. intros pa half w raw i -> Hd. by exists p, p', pa, half, raw. }
  assert (Hpc : urange 64 pc) by apply Hs.
  assert (Hk : keeps False I (decode_from (H0 := Release) MAX_RUN pc pc []) (λ run, path F pc 0 [] run ∧ (length run <= MAX_RUN)%nat)).
  { apply decode_from_path; try done. by rewrite Z.add_0_r, wrap_small. }
  destruct (keeps_total _ _ _ (s, b) Hk (conj (conj Hs Hb) (peeked_here _))) as (run & [s' b'] & Hrun & [Hp Hlen] & [[Hs' Hb'] _]).
  exists run, s', b'. split; [exact Hrun|]. split_and!; try done.
  - by eapply path_nodup.
  - intros i w off Hin. destruct (path_entry _ _ _ _ _ _ _ _ Hp Hin) as (H1 & H2 & _ & H3 & _ & _ & H4). done.
  - intros j x y Hx Hy. by eapply path_next.
  - intros Hint. by eapply path_traced.
Qed.

(** A loop of two instructions in memory: [addi x5, x5, 1; bne x5, x6, -4]. *)
Definition loop_code : Ram.t :=
  Ram.store ∅ 0x80000000 (to_le_bytes 4 0x00128293 ++ to_le_bytes 4 0xFE629EE3).

Lemma decode_run_traces_witness :
  ∃ run s' b', decode_run (H0 := Release) (Sup.new 0x80000000 0, loop_code) = Some (run, (s', b')) ∧
    run = [(Addi 5 5 1, 4, 0); (Bne 5 6 (-4), 4, 4)] ∧ traced (code_of 0x80000000 run) 0x80000000 run.
Proof.
  destruct (decode_run_traces Ram.t Ram.bus Ram.bus_ok Wasm32 ref_libm ref_libm_ok (Sup.new 0x80000000 0) loop_code)
    as (run & s' & b' & Hrun & _ & _ & _ & _ & _ & _ & Htr).
  - apply sup_new_wf; by unfold urange.
  - repeat (apply map_Forall_insert_2; [by vm_compute|]). apply map_Forall_empty.
  - exists run, s', b'. split; [exact Hrun|].
    assert (E : run = [(Addi 5 5 1, 4, 0); (Bne 5 6 (-4), 4, 4)]).
    { apply (f_equal (fmap fst)) in Hrun. vm_compute in Hrun. by injection Hrun as <-. }
    split; [exact E|]. apply Htr. rewrite E. repeat constructor.
Defined.
