(* ===== verification/BlockInv.v ===== *)
(** The invariant of the block cache ([riscv-machine/src/jit.rs]), kept by every
    operation, and what flushing and repeated visits do. *)

From stdpp Require Import gmap.
From S2P Require Import Prelude Keeps Types Decode Compressed SupTypes State Stream Cpu Fpu Mmu MmuSpec SupState SupTrap Supervisor SupSafe Jit BlockCache BlockProps BlockTrace.
Import BlockCache.

(** * The invariant *)

Section Inv.
Context {TG : Target}.

(** [fl] lists the blocks that the host has taken and not installed yet. *)
Definition slot_ok (waiting : list Z) (pages : gset Z) (i : Z) (s : Slot.t) : Prop :=
  (s = Slot.EMPTY ∨ index (Slot.tag s) = i) ∧
  match Slot.state s with
  | Cold n => 0 <= n < HOT
  | Queued => Slot.tag s ∈ waiting
  | Compiled _ _ _ _ => Z.shiftr (Slot.tag s) 12 ∈ pages
  | Rejected => True
  end.

Definition waiting (fl : list Z) (j : Cache.t) : list Z := (fst <$> Cache.pending j) ++ fl.
Definition run_ok (p : Z * list Src) : Prop := p.2 ≠ [] ∧ (length p.2 <= 64)%nat.

Record cache_ok (fl : list Z) (j : Cache.t) : Prop := mk_cache_ok {
  co_shaped : shaped j;
  co_slots i : slot_ok (waiting fl j) (Cache.code_pages j) i (Tbl.at_ (Cache.slots j) i);
  co_pending : Forall run_ok (Cache.pending j);
}.

Lemma cache_ok_new : cache_ok [] Cache.new.
Proof. constructor; [done| |done]. intros i. split; [by left|done]. Qed.

Lemma slot_ok_mono w w' pages pages' i s :
  w ⊆ w' → pages ⊆ pages' → slot_ok w pages i s → slot_ok w' pages' i s.
Proof. intros Hw Hp [Ht Hs]. split; [done|]. destruct (Slot.state s); set_solver. Qed.

Lemma slot_ok_empty w pages i : slot_ok w pages i Slot.EMPTY.
Proof. split; [by left|done]. Qed.

(** Only the slots, the queue, the code pages and the lengths matter. *)
Lemma cache_ok_same fl j j' :
  Cache.slots j' = Cache.slots j → Cache.pending j' = Cache.pending j → Cache.code_pages j' = Cache.code_pages j →
  shaped j' → cache_ok fl j → cache_ok fl j'.
Proof.
  intros E1 E2 E3 Hs [_ H2 H3]. constructor; [done| |by rewrite E2].
  intros i. unfold waiting. rewrite E1, E2, E3. apply H2.
Qed.

Lemma index_range paddr : 0 <= index paddr < SLOTS.
Proof. unfold index. change (SLOTS - 1) with (Z.ones 18). rewrite Z.land_ones by lia. by apply Z.mod_pos_bound. Qed.
Lemma tlb_index_range vpn : 0 <= tlb_index vpn < TLB_ENTRIES.
Proof. unfold tlb_index. change (TLB_ENTRIES - 1) with (Z.ones 12). rewrite Z.land_ones by lia. by apply Z.mod_pos_bound. Qed.
Lemma vcache_index_range key : 0 <= vcache_index key < VVCACHE.
Proof. unfold vcache_index. change (VVCACHE - 1) with (Z.ones 12). rewrite Z.land_ones by lia. by apply Z.mod_pos_bound. Qed.
Lemma chain_index_range pc : 0 <= chain_index pc < CHAIN_ENTRIES.
Proof. unfold chain_index. change (CHAIN_ENTRIES - 1) with (Z.ones 16). rewrite Z.land_ones by lia. by apply Z.mod_pos_bound. Qed.
End Inv.

(** * Every operation keeps it *)

Section Keep.
Context {PR : Profile} {TG : Target} (P : Prop) (HP : overflow_checks = true → P) (fl : list Z).
Abbreviation ckeeps := (keeps P (cache_ok fl)).

(** An update of other fields. *)
Lemma ckeeps_upd f :
  (∀ j, shaped j → shaped (f j) ∧ Cache.slots (f j) = Cache.slots j ∧ Cache.pending (f j) = Cache.pending j ∧
        Cache.code_pages (f j) = Cache.code_pages j) → ckeeps (modify f) (λ _, True).
Proof.
  intros Hf. apply keeps_modify. intros j Hj. destruct (Hf j (co_shaped _ _ Hj)) as (H1 & H2 & H3 & H4).
  by eapply cache_ok_same.
Qed.

Lemma ckeeps_any {A} (f : Cache.t → A) : ckeeps (get f) (λ _, True).
Proof. by apply keeps_get. Qed.

Lemma ckeeps_bump w f set x :
  0 <= w → (∀ n j, shaped j → shaped (set n j) ∧ Cache.slots (set n j) = Cache.slots j ∧
    Cache.pending (set n j) = Cache.pending j ∧ Cache.code_pages (set n j) = Cache.code_pages j) →
  ckeeps (bump w f set x) (λ _, True).
Proof.
  intros Hw Hset. unfold bump. eapply keeps_bind; [apply ckeeps_any|]. intros n _.
  eapply keeps_bind; [by apply keeps_checked|]. intros n' _. apply ckeeps_upd. intros j. apply Hset.
Qed.

Lemma ckeeps_get {A} (f : Cache.t → Tbl.t A) i n (R : A → Prop) :
  0 <= i < n → (∀ j, shaped j → Tbl.len (f j) = n) → (∀ j, cache_ok fl j → R (Tbl.at_ (f j) i)) →
  ckeeps (tbl_get f i) R.
Proof.
  intros Hi Hn HR j Hj. unfold wp. rewrite tbl_get_run by by rewrite (Hn j (co_shaped _ _ Hj)). by split; [apply HR|].
Qed.

Lemma ckeeps_set {A} (f : Cache.t → Tbl.t A) set i n a :
  0 <= i < n → (∀ j, shaped j → Tbl.len (f j) = n) →
  (∀ v j, Tbl.len v = n → shaped j → shaped (set v j) ∧ Cache.slots (set v j) = Cache.slots j ∧
    Cache.pending (set v j) = Cache.pending j ∧ Cache.code_pages (set v j) = Cache.code_pages j) →
  ckeeps (tbl_set f set i a) (λ _, True).
Proof.
  intros Hi Hn Hset j Hj. pose proof (Hn j (co_shaped _ _ Hj)) as E.
  destruct (tbl_set_run f set i a j) as (v & Hv & Hrun); [by rewrite E|]. unfold wp. rewrite Hrun.
  split; [done|]. destruct (Hset v j) as (H1 & H2 & H3 & H4); [by rewrite (Tbl.len_put _ _ _ _ Hv)|apply Hj|].
  by eapply cache_ok_same.
Qed.

(** The step on the slot table. *)
Lemma slots_put i s v j :
  cache_ok fl j → Tbl.put i s (Cache.slots j) = Some v →
  slot_ok (waiting fl j) (Cache.code_pages j) i s → cache_ok fl (set_slots v j).
Proof.
  intros [H1 H2 H3] Hv Hs. constructor; [|intros i'|done].
  - destruct H1. constructor; try done. cbn. by rewrite (Tbl.len_put _ _ _ _ Hv).
  - cbn. rewrite (Tbl.at_put _ _ _ _ _ Hv). destruct (decide (i = i')) as [<-|]; [done|]. apply H2.
Qed.

Lemma ckeeps_slot i tag st :
  index tag = i →
  match st with Cold n => 0 <= n < HOT | Rejected => True | _ => False end →
  ckeeps (set_state i tag st) (λ _, True).
Proof.
  intros <- Hst j Hj. unfold set_state. set (i := index tag).
  destruct (tbl_set_run Cache.slots set_slots i (Slot.mk tag st) j) as (v & Hv & Hrun);
    [rewrite (sh_slots _ (co_shaped _ _ Hj)); apply index_range|].
  unfold wp. rewrite Hrun. split; [done|]. eapply slots_put; [done..|]. split; [by right|]. by destruct st.
Qed.

Ltac other_fields := intros; split_and!; try done; match goal with H : shaped _ |- _ => destruct H end; by constructor.

Lemma count_bin_keeps i : (i < 4)%nat → ckeeps (count_bin i) (λ _, True).
Proof.
  intros Hi. unfold count_bin. eapply keeps_bind; [apply (keeps_get _ _ _ (λ l, length l = 4%nat)); intros j Hj; apply Hj|].
  intros l Hl. cbn in Hl. eapply keeps_bind; [apply keeps_lift with (R := λ _, True)|].
  { destruct (l !! i) eqn:E; [done|]. apply lookup_ge_None in E. lia. }
  intros x _. eapply keeps_bind; [by apply keeps_checked|]. intros x' _. apply ckeeps_upd.
  intros j Hj. split_and!; try done. destruct Hj. constructor; try done. cbn. by rewrite length_insert.
Qed.

Lemma slot_bin_range s : (slot_bin s < 4)%nat.
Proof. unfold slot_bin. destruct (_ =? _); [lia|]. destruct (Slot.state s); try lia. destruct (_ =? _); lia. Qed.

(** A run enters the queue together with the state of its slot. *)
Lemma queue_keeps i paddr run :
  i = index paddr → run_ok (paddr, run) →
  ckeeps (set_state i paddr Queued;; bump 64 Cache.formed (λ n j, j <| Cache.formed := n |>) 1;;
          modify (λ j, j <| Cache.pending := Cache.pending j ++ [(paddr, run)] |>)) (λ _, True).
Proof.
  intros -> Hrun j Hj. apply wp_bind. unfold set_state.
  destruct (tbl_set_run Cache.slots set_slots (index paddr) (Slot.mk paddr Queued) j) as (v & Hv & Hset);
    [rewrite (sh_slots _ (co_shaped _ _ Hj)); apply index_range|].
  unfold wp at 1. rewrite Hset. unfold bump. apply wp_bind, wp_bind, wp_get, wp_bind, wp_lift.
  destruct (add_u 64 _ 1) as [n|] eqn:En.
  2:{ apply HP. by eapply add_u_none. }
  apply wp_modify, wp_modify. split; [done|]. destruct Hj as [Hsh Hsl Hpe]. constructor.
  - destruct Hsh. constructor; try done. cbn. by rewrite (Tbl.len_put _ _ _ _ Hv).
  - intros i. cbn. rewrite (Tbl.at_put _ _ _ _ _ Hv).
    assert (Hsub : waiting fl j ⊆ (fst <$> Cache.pending j ++ [(paddr, run)]) ++ fl).
    { unfold waiting. rewrite fmap_app. set_solver. }
    destruct (decide (index paddr = i)) as [<-|].
    + split; [by right|]. cbn. rewrite fmap_app. set_solver.
    + eapply slot_ok_mono; [exact Hsub|reflexivity|]. apply Hsl.
  - cbn. apply Forall_app. split; [done|]. constructor; [done|by constructor].
Qed.

(** ** The operations on the other tables *)

Lemma note_key_keeps va g : ckeeps (note_key_page va g) (λ _, True).
Proof.
  intros j Hj. unfold note_key_page. destruct (note_probe_run probes (Z.shiftr va 12) g j (co_shaped _ _ Hj)) as (j' & Hrun & Hr & _).
  unfold wp. rewrite Hrun. split; [done|]. pose proof (records_shaped _ _ _ _ Hr (co_shaped _ _ Hj)) as Hs.
  destruct Hr; [done| |]; by apply (cache_ok_same fl j).
Qed.

Lemma gen_word_keeps g p : ckeeps (lift (gen_word g p)) (λ _, True).
Proof. eapply keeps_mono; [by apply keeps_checked|done]. Qed.

Lemma refresh_gen_keeps s : ckeeps (refresh_gen s) (λ _, True).
Proof.
  unfold refresh_gen. eapply keeps_bind; [apply gen_word_keeps|]. intros g _.
  apply keeps_seq; [apply ckeeps_upd; other_fields|].
  eapply keeps_bind; [apply gen_word_keeps|]. intros d _.
  apply keeps_seq; [apply ckeeps_upd; other_fields|]. apply ckeeps_upd; other_fields.
Qed.

Lemma retire_keeps f set vpn :
  (∀ j, shaped j → Tbl.len (f j) = TLB_ENTRIES) →
  (∀ v j, Tbl.len v = TLB_ENTRIES → shaped j → shaped (set v j) ∧ Cache.slots (set v j) = Cache.slots j ∧
    Cache.pending (set v j) = Cache.pending j ∧ Cache.code_pages (set v j) = Cache.code_pages j) →
  ckeeps (retire_entry f set vpn) (λ _, True).
Proof.
  intros Hf Hset. unfold retire_entry. eapply keeps_bind; [by apply (ckeeps_get _ _ TLB_ENTRIES (λ _, True)); [apply tlb_index_range|..]|].
  intros e _. destruct (_ =? _); [|by apply keeps_ret]. by apply (ckeeps_set _ _ _ TLB_ENTRIES); [apply tlb_index_range|..].
Qed.

Lemma invalidate_keeps va : ckeeps (invalidate_tlb_page va) (λ _, True).
Proof.
  unfold invalidate_tlb_page. apply keeps_seq; apply retire_keeps; try (intros j Hj; apply Hj); other_fields.
Qed.

Lemma fill_tlb_keeps va page store : ckeeps (fill_tlb va page store) (λ _, True).
Proof.
  unfold fill_tlb. eapply keeps_bind; [apply ckeeps_any|]. intros g _. cbv zeta.
  destruct store; (apply (ckeeps_set _ _ _ TLB_ENTRIES); [apply tlb_index_range|intros j Hj; apply Hj|other_fields]).
Qed.

Lemma note_code_write_keeps : ckeeps note_code_write (λ _, True).
Proof. apply ckeeps_upd. other_fields. Qed.

Lemma count_hit_keeps h : ckeeps (count_hit h) (λ _, True).
Proof. unfold count_hit. apply keeps_seq; (apply ckeeps_bump; [done|other_fields]). Qed.

Lemma remember_keeps key s h : ckeeps (remember key s h) (λ _, True).
Proof.
  unfold remember. apply keeps_seq.
  { apply (ckeeps_set _ _ _ VVCACHE); [apply vcache_index_range|intros j Hj; apply Hj|other_fields]. }
  eapply keeps_bind; [apply ckeeps_any|]. intros g _. apply keeps_seq; [|apply note_key_keeps].
  apply (ckeeps_set _ _ _ CHAIN_ENTRIES); [apply chain_index_range|intros j Hj; apply Hj|other_fields].
Qed.
End Keep.

(** ** Looking up *)

Section Hart.
Context {B : Type} {BU : Bus B} {PR : Profile} {TG : Target} {L : Libm} (P : Prop).
Context {BO : BusOk P B} {LO : LibmOk} (HP : overflow_checks = true → P) (fl : list Z).

Definition all_ok (p : Cache.t * (Sup.t * B)) : Prop := cache_ok fl p.1 ∧ machine_inv P p.2.
Abbreviation jkeeps := (keeps P all_ok).

Lemma jkeeps_cache {A} (m : M Cache.t A) R : keeps P (cache_ok fl) m R → jkeeps (on_fst m) R.
Proof. apply keeps_on_fst. Qed.

Lemma jkeeps_hart {A} (m : M (Sup.t * B) A) R : keeps P (machine_inv P) m R → jkeeps (on_snd m) R.
Proof. apply keeps_on_snd. Qed.

Lemma decode_run_keeps : keeps P (machine_inv P) decode_run (λ run, (length run <= 64)%nat).
Proof.
  unfold decode_run. eapply keeps_bind; [apply bkeeps_get with (R := urange 64); intros s Hs; apply Hs|].
  intros pc Hpc. eapply keeps_mono.
  - apply (decode_from_path P HP (machine_inv P) (λ _ _ _, True)) with (off := 0); [|done|by rewrite Z.add_0_r, wrap_small|lia].
    intros va Hva. eapply keeps_mono; [by apply (debug_fetch_safe P HP)|]. by intros r Hr.
  - by intros run [_ Hlen].
Qed.

Lemma form_keeps i paddr : i = index paddr → jkeeps (form i paddr) (λ _, True).
Proof.
  intros ->. unfold form. eapply keeps_bind; [apply jkeeps_hart, decode_run_keeps|]. intros run Hlen.
  destruct run as [|x run]; apply jkeeps_cache.
  - apply keeps_seq; [by apply ckeeps_slot|]. apply ckeeps_bump; [done..|].
    intros n j Hj. split_and!; try done. destruct Hj. by constructor.
  - by apply queue_keeps.
Qed.

Lemma on_block_start_keeps : jkeeps on_block_start (λ _, True).
Proof.
  unfold on_block_start. apply keeps_seq.
  { apply jkeeps_cache, ckeeps_bump; [done..|]. intros n j Hj. split_and!; try done. destruct Hj. by constructor. }
  eapply keeps_bind; [apply jkeeps_hart, bkeeps_get with (R := urange 64); intros s Hs; apply Hs|]. intros pc Hpc.
  eapply keeps_bind; [apply (jkeeps_hart _ (λ _, True)); unfold Supervisor.debug_translate|].
  { eapply keeps_bind; [by apply translate_safe|]. intros r _. by apply keeps_ret. }
  intros [paddr|e] _; [|by apply keeps_ret].
  eapply keeps_bind; [apply jkeeps_cache, (ckeeps_get P fl _ _ SLOTS (λ s, match Slot.state s with Cold n => 0 <= n < HOT | _ => True end));
    [apply index_range|intros j Hj; apply Hj|]|].
  { intros j Hj. destruct (co_slots _ _ Hj (index paddr)) as [_ Hs]. by destruct (Slot.state _). }
  intros slot Hslot. cbn in Hslot. destruct (negb _) eqn:Et.
  - apply keeps_seq; [apply jkeeps_cache, count_bin_keeps; [done|apply slot_bin_range]|].
    apply keeps_seq; [apply jkeeps_cache; by apply ckeeps_slot|]. by apply keeps_ret.
  - destruct (Slot.state slot) as [n| | |]; try by apply keeps_ret.
    assert (En : add_u 32 n 1 = Some (n + 1)).
    { unfold add_u, checked_u. unfold HOT in Hslot. destruct (Z.leb_spec 0 (n + 1)), (Z.ltb_spec (n + 1) (2 ^ 32)); (done || lia). }
    eapply keeps_bind; [apply jkeeps_cache, (keeps_lift P (cache_ok fl) _ (λ x, x = n + 1)); by rewrite En|]. intros n' ->.
    destruct (Z.ltb_spec (n + 1) HOT).
    + apply keeps_seq; [|by apply keeps_ret]. apply jkeeps_cache. apply ckeeps_slot; [done|lia].
    + apply keeps_seq; [by apply form_keeps|by apply keeps_ret].
Qed.

Lemma lookup_keeps : jkeeps lookup (λ _, True).
Proof.
  unfold lookup. eapply keeps_bind; [apply (jkeeps_hart _ (λ _, True)), bkeeps_any|]. intros s _. cbv zeta.
  eapply keeps_bind; [apply jkeeps_cache, (ckeeps_get P fl _ _ VVCACHE (λ _, True)); [apply vcache_index_range|intros j Hj; apply Hj|done]|].
  intros v _. destruct (_ && _).
  - apply keeps_seq; [by apply jkeeps_cache, count_hit_keeps|by apply keeps_ret].
  - eapply keeps_bind; [apply on_block_start_keeps|]. intros [h|] _; [|by apply keeps_ret].
    apply keeps_seq; [by apply jkeeps_cache, count_hit_keeps|].
    eapply keeps_bind; [apply (jkeeps_hart _ (λ _, True)), bkeeps_any|]. intros s' _.
    apply keeps_seq; [by apply jkeeps_cache, remember_keeps|by apply keeps_ret].
Qed.
End Hart.

(** ** Flushing and installing *)

Section Install.
Context {PR : Profile} {TG : Target} (P : Prop) (HP : overflow_checks = true → P).

(** The state that a flush leaves. *)
Record flushed (j : Cache.t) : Prop := mk_flushed {
  fl_slots i : Tbl.at_ (Cache.slots j) i = Slot.EMPTY;
  fl_pending : Cache.pending j = [];
  fl_vcache i : VSlot.gen (Tbl.at_ (Cache.vcache j) i) = U32_MAX;
  fl_tlb_r i : TlbEntry.gen (Tbl.at_ (Cache.tlb_r j) i) = 0;
  fl_tlb_w i : TlbEntry.gen (Tbl.at_ (Cache.tlb_w j) i) = 0;
  fl_chain i : ChainEntry.gen (Tbl.at_ (Cache.chain j) i) = 0;
  fl_ras i : ChainEntry.gen (Tbl.at_ (Cache.chain_ras j) i) = 0;
  fl_sp : Cache.ras_sp j = 0;
  fl_pages : Cache.code_pages j = ∅;
  fl_dirty : Cache.smc_dirty j = false;
  fl_installed : Cache.installed j = 0;
}.

Lemma flush_spec j : shaped j → wp P flush (λ _ j', shaped j' ∧ flushed j') j.
Proof.
  intros Hj. unfold flush, bump. apply wp_bind, wp_bind, wp_get, wp_bind, wp_lift.
  destruct (add_u 64 _ 1) as [n|] eqn:En.
  2:{ apply HP. by eapply add_u_none. }
  repeat first [apply wp_modify | apply wp_bind]. split; [by destruct Hj|].
  constructor; intros; cbn; by rewrite ?Tbl.at_map.
Qed.

Lemma flushed_ok fl j : shaped j → flushed j → cache_ok fl j.
Proof.
  intros Hs Hf. constructor; [done| |by rewrite (fl_pending _ Hf)].
  intros i. rewrite (fl_slots _ Hf). apply slot_ok_empty.
Qed.

Lemma flush_keeps fl : keeps P (cache_ok fl) flush (λ _, True).
Proof.
  intros j Hj. eapply wp_mono; [apply flush_spec, Hj|]. intros [] j' [Hs Hf]. split; [done|]. by apply flushed_ok.
Qed.

Lemma take_pending_spec fl j : cache_ok fl j →
  ∃ l j', take_pending j = Some (l, j') ∧ l = Cache.pending j ∧ cache_ok (fl ++ (fst <$> l)) j' ∧ Cache.pending j' = [].
Proof.
  intros [H1 H2 H3]. eexists _, _. split; [reflexivity|]. split; [done|]. split; [|done].
  constructor; [by destruct H1| |done]. intros i. eapply slot_ok_mono; [|reflexivity|apply H2].
  unfold waiting. cbn. set_solver.
Qed.

(** A block that is no longer queued need not be waited for. *)
Lemma slot_ok_release w paddr rest pages i s :
  (i = index paddr → Slot.tag s = paddr → queued (Slot.state s) = false) →
  slot_ok (w ++ paddr :: rest) pages i s → slot_ok (w ++ rest) pages i s.
Proof.
  intros Hno [Ht Hs]. split; [done|]. destruct (Slot.state s) eqn:Es; try done.
  destruct (decide (Slot.tag s = paddr)) as [E|E]; [|set_solver].
  destruct Ht as [->|Ht]; [done|]. exfalso. rewrite E in Ht. by specialize (Hno (eq_sym Ht) E).
Qed.

Lemma install_one_spec k paddr rest bytes insns branchy base j :
  (k < length bytes)%nat → (k < length insns)%nat → (k < length branchy)%nat → cache_ok (paddr :: rest) j →
  wp P (install_one k paddr bytes insns branchy base) (λ _ j', cache_ok rest j') j.
Proof.
  intros Hb Hn Hbr Hj. pose proof (co_shaped _ _ Hj) as Hsh. unfold install_one. apply wp_bind.
  unfold wp at 1. rewrite tbl_get_run by (rewrite (sh_slots _ Hsh); apply index_range).
  set (s := Tbl.at_ (Cache.slots j) (index paddr)). apply wp_bind.
  assert (Hmid : wp P (if (Slot.tag s =? paddr) && queued (Slot.state s) then
     idx ← lift (add_u 32 base (as_u32 (Z.of_nat k)));
     b ← lift (bytes !! k); n ← lift (insns !! k); br ← lift (branchy !! k);
     tbl_set Cache.slots set_slots (index paddr) (Slot.mk paddr (Compiled idx b n br))
   else mret tt) (λ _ j', shaped j' ∧ Cache.pending j' = Cache.pending j ∧ Cache.code_pages j' = Cache.code_pages j ∧
     ∀ i, slot_ok (waiting rest j) ({[Z.shiftr paddr 12]} ∪ Cache.code_pages j) i (Tbl.at_ (Cache.slots j') i)) j).
  { destruct ((Slot.tag s =? paddr) && queued (Slot.state s)) eqn:Eq.
    - apply wp_bind, wp_lift. destruct (add_u 32 base _) as [idx|] eqn:En.
      2:{ apply HP. by eapply add_u_none. }
      destruct (lookup_lt_is_Some_2 bytes k Hb) as [b Eb], (lookup_lt_is_Some_2 insns k Hn) as [n E],
        (lookup_lt_is_Some_2 branchy k Hbr) as [br Ebr].
      rewrite Eb, E, Ebr. do 3 (apply wp_bind, wp_lift).
      destruct (tbl_set_run Cache.slots set_slots (index paddr) (Slot.mk paddr (Compiled idx b n br)) j) as (v & Hv & Hset);
        [rewrite (sh_slots _ Hsh); apply index_range|].
      unfold wp. rewrite Hset. split_and!; try done.
      { destruct Hsh. constructor; try done. cbn. by rewrite (Tbl.len_put _ _ _ _ Hv). }
      intros i. cbn. rewrite (Tbl.at_put _ _ _ _ _ Hv). destruct (decide (index paddr = i)) as [<-|Hne].
      + split; [by right|]. cbn. set_solver.
      + eapply slot_ok_mono; [reflexivity| |eapply slot_ok_release; [|apply (co_slots _ _ Hj)]]; [set_solver|].
        intros ->. done.
    - apply wp_ret. split_and!; try done. intros i.
      eapply slot_ok_mono; [reflexivity| |eapply slot_ok_release; [|apply (co_slots _ _ Hj)]]; [set_solver|].
      intros -> Ht. fold s in Ht |- *. rewrite Ht, Z.eqb_refl in Eq. exact Eq. }
  eapply wp_mono; [exact Hmid|]. intros [] j' (Hs' & Hp' & Hc' & Hsl).
  apply wp_bind, wp_get, wp_bind, wp_modify. unfold bump. apply wp_bind, wp_bind, wp_get, wp_bind, wp_lift.
  destruct (add_u 32 _ 1) as [n|] eqn:En.
  2:{ apply HP. by eapply add_u_none. }
  apply wp_modify, wp_ret. constructor; [by destruct Hs'| |cbn; rewrite Hp'; apply Hj].
  intros i. unfold waiting. cbn. rewrite Hp', Hc'. apply Hsl.
Qed.

Lemma install_from_spec paddrs k bytes insns branchy base fresh j :
  length bytes = (k + length paddrs)%nat → length insns = (k + length paddrs)%nat →
  length branchy = (k + length paddrs)%nat → cache_ok paddrs j →
  wp P (install_from k paddrs bytes insns branchy base fresh) (λ _ j', cache_ok [] j') j.
Proof.
  revert k fresh j. induction paddrs as [|paddr paddrs IH]; intros k fresh j H1 H2 H3 Hj; cbn [install_from].
  { by apply wp_ret. }
  cbn [length] in *. apply wp_bind. eapply wp_mono; [apply install_one_spec; [lia..|exact Hj]|].
  intros f j' Hj'. apply IH; [lia..|done].
Qed.

Lemma installed_spec fl bytes insns branchy base j :
  length bytes = length fl → length insns = length fl → length branchy = length fl → cache_ok fl j →
  wp P (installed fl bytes insns branchy base) (λ _ j', cache_ok [] j') j.
Proof.
  intros H1 H2 H3 Hj. unfold installed. rewrite H1, H2, H3, Nat.eqb_refl, andb_false_r. apply wp_bind, wp_ret, wp_bind.
  eapply wp_mono; [by apply install_from_spec|]. intros [] j' Hj'; [|by apply wp_ret].
  apply wp_modify. apply (cache_ok_same [] j'); [done..| |done]. by destruct (co_shaped _ _ Hj').
Qed.
End Install.

(** * The life of the cache *)

Section Life.
Context {B : Type} {BU : Bus B} {BO : BusOk False B} {TG : Target} {L : Libm} {LO : LibmOk}.
#[local] Instance build : Profile := Release.

(** What the machine does to the cache without its queue. *)
Inductive local_op : M Cache.t unit → Prop :=
| lo_refresh s : local_op (refresh_gen s)
| lo_write : local_op note_code_write
| lo_fill va page store : local_op (fill_tlb va page store)
| lo_invalidate va : local_op (invalidate_tlb_page va)
| lo_flush : local_op flush.

(** The hart and the bus change arbitrarily between the steps; the second
    component lists the blocks the host has taken and not installed. *)
Inductive cstep : Cache.t * list Z → Cache.t * list Z → Prop :=
| cs_lookup j fl p r j' p' : machine_inv False p → lookup (j, p) = Some (r, (j', p')) → cstep (j, fl) (j', fl)
| cs_local j fl m j' : local_op m → m j = Some (tt, j') → cstep (j, fl) (j', fl)
| cs_take j fl l j' : take_pending j = Some (l, j') → cstep (j, fl) (j', fl ++ (fst <$> l))
| cs_install j fl bytes insns branchy base j' :
    length bytes = length fl → length insns = length fl → length branchy = length fl →
    installed fl bytes insns branchy base j = Some (tt, j') → cstep (j, fl) (j', [])
| cs_discard j fl j' : flush j = Some (tt, j') → cstep (j, fl) (j', []).

Lemma release_ok : overflow_checks = true → False.
Proof. done. Qed.

Lemma local_op_keeps m fl : local_op m → keeps False (cache_ok fl) m (λ _, True).
Proof.
  destruct 1; [apply refresh_gen_keeps|apply note_code_write_keeps|apply fill_tlb_keeps|apply invalidate_keeps|apply flush_keeps]; done.
Qed.

Lemma cstep_ok x y : cstep x y → cache_ok x.2 x.1 → cache_ok y.2 y.1.
Proof.
  destruct 1 as [j fl p r j' p' Hp Hl|j fl m j' Hm Hr|j fl l j' Ht|j fl bytes insns branchy base j' H1 H2 H3 Hi|j fl j' Hf];
    cbn; intros Hj.
  - pose proof (lookup_keeps False release_ok fl (j, p) (conj Hj Hp)) as Hk. unfold wp in Hk. rewrite Hl in Hk. apply Hk.
  - pose proof (local_op_keeps m fl Hm j Hj) as Hk. unfold wp in Hk. rewrite Hr in Hk. apply Hk.
  - destruct (take_pending_spec False release_ok fl j Hj) as (l' & j1 & Ht' & -> & Hok & _). rewrite Ht in Ht'. by injection Ht' as -> ->.
  - pose proof (installed_spec False release_ok fl bytes insns branchy base j H1 H2 H3 Hj) as Hk.
    unfold wp in Hk. by rewrite Hi in Hk.
  - pose proof (flush_spec (PR := build) False release_ok j (co_shaped _ _ Hj)) as Hk. unfold wp in Hk. rewrite Hf in Hk.
    destruct Hk. by apply flushed_ok.
Qed.

Lemma reachable_ok x : rtc cstep (Cache.new, []) x → cache_ok x.2 x.1.
Proof. apply (rtc_ind_r (λ x, cache_ok x.2 x.1)); [by apply cache_ok_new|]. intros y z _ Hs Hy. by eapply cstep_ok. Qed.
End Life.

(** C6: the block cache is coherent, and indexing it never panics.  Start from
    an empty cache and let the machine and its host use it in any order: lookups
    in any well-formed hart, generation changes, fills and invalidations of the
    inlined TLBs, code writes, flushes, batches taken from the queue and batches
    installed.  Then every table has its length; a slot with a tag is the slot of
    that physical address, one still counting is below the threshold, one that is
    queued has its run in the queue or with the host, and one that is compiled
    lies in a page recorded as code, so that a store there is seen; every queued
    run is non-empty and at most 64 instructions long.  In such a state, in the
    release build and on a bus whose accesses never panic (the reference memory is
    one), [lookup] and the other operations return, and installing the batch that
    the host holds returns for any table base. *)
Theorem cache_coherent (B : Type) (BU : Bus B) (BO : BusOk False B) (TG : Target) (L : Libm) (LO : LibmOk)
    (j : Cache.t) (fl : list Z) :
  rtc cstep (Cache.new, []) (j, fl) →
  cache_ok fl j ∧
  (∀ i, match Slot.state (Tbl.at_ (Cache.slots j) i) with
        | Compiled _ _ _ _ => is_code_page (Z.shiftr (Slot.tag (Tbl.at_ (Cache.slots j) i)) 12) j = true
        | _ => True
        end) ∧
  (∀ p : Sup.t * B, machine_inv False p → ∃ r j' p', lookup (H0 := Release) (j, p) = Some (r, (j', p')) ∧ machine_inv False p') ∧
  (∀ m, local_op m → ∃ j', m j = Some (tt, j')) ∧
  (∀ bytes insns branchy base, length bytes = length fl → length insns = length fl → length branchy = length fl →
     ∃ j', installed (H := Release) fl bytes insns branchy base j = Some (tt, j')).
Proof.
  intros Hr. pose proof (reachable_ok _ Hr) as Hj. cbn in Hj. split_and!.
  - done.
  - intros i. destruct (co_slots _ _ Hj i) as [_ Hs]. destruct (Slot.state _); try done. by apply bool_decide_eq_true_2.
  - intros p Hp. destruct (keeps_total _ _ _ (j, p) (lookup_keeps (PR := Release) False release_ok fl) (conj Hj Hp))
      as (r & [j' p'] & E & _ & _ & Hp'). by exists r, j', p'.
  - intros m Hm. destruct (keeps_total _ _ _ j (local_op_keeps m fl Hm) Hj) as ([] & j' & E & _). by exists j'.
  - intros bytes insns branchy base H1 H2 H3.
    destruct (wp_total _ _ _ (installed_spec (PR := Release) False release_ok fl bytes insns branchy base j H1 H2 H3 Hj)) as ([] & j' & E & _).
    by exists j'.
Qed.

Lemma cache_coherent_witness :
  ∃ j, rtc (cstep (BU := Ram.bus) (BO := Ram.bus_ok) (TG := Wasm32)) (Cache.new, []) (j, []) ∧
    Cache.smc_dirty j = true ∧ cache_ok (TG := Wasm32) [] j.
Proof.
  set (j := Cache.new <| Cache.smc_dirty := true |>).
  assert (Hr : rtc (cstep (BU := Ram.bus) (BO := Ram.bus_ok) (TG := Wasm32)) (Cache.new, []) (j, [])).
  { eapply rtc_once, cs_local; [apply lo_write|reflexivity]. }
  exists j. split; [exact Hr|]. split; [reflexivity|].
  destruct (cache_coherent Ram.t Ram.bus Ram.bus_ok Wasm32 ref_libm ref_libm_ok j [] Hr) as [Hok _]. exact Hok.
Defined.
