(* ===== verification/BlockLife.v ===== *)
(** What happens to one block entry: it is counted, queued, installed and entered
    ([riscv-machine/src/jit.rs]); and a flush forgets every entry. *)

From stdpp Require Import gmap.
From S2P Require Import Prelude Keeps Types Decode Compressed SupTypes State Stream Cpu Fpu Mmu SupState SupTrap Supervisor SupSafe Jit BlockCache BlockProps BlockTrace BlockInv.
Import BlockCache.

Section Visit.
Context {B : Type} {BU : Bus B} {TG : Target}.
#[local] Instance release : Profile := Release.

(** In this build a counter wraps. *)
Lemma bump_returns w f set x j : ∃ n, bump w f set x j = Some (tt, set n j).
Proof.
  unfold bump. rewrite M_bind_run. cbn [get]. rewrite M_bind_run. unfold lift.
  destruct (add_u w (f j) x) as [n|] eqn:E; [by exists n|]. by apply add_u_none in E.
Qed.

(** The hart arrives at a block entry whose physical address is [paddr]. *)
Definition arrives_at (paddr : Z) (p p' : Sup.t * B) : Prop :=
  Supervisor.debug_translate Instruction (Cpu.pc (Sup.cpu p.1)) p = Some (Ok paddr, p').
Definition arrives (paddr : Z) (p : Sup.t * B) : Prop := ∃ p', arrives_at paddr p p'.

Definition slot_of (paddr : Z) (j : Cache.t) : Slot.t := Tbl.at_ (Cache.slots j) (index paddr).

(** The rest of [on_block_start] once the address is known. *)
Definition at_slot (paddr : Z) : M (Cache.t * (Sup.t * B)) (option Hit.t) :=
  let i := index paddr in
  slot ← on_fst (tbl_get Cache.slots i);
  if negb (Slot.tag slot =? paddr) then
    on_fst (count_bin (slot_bin slot));; on_fst (set_state i paddr (Cold 1));; mret None
  else match Slot.state slot with
       | Compiled idx bytes insns branchy => mret (Some (Hit.mk idx bytes insns branchy))
       | Queued | Rejected => mret None
       | Cold n =>
           n' ← on_fst (lift (add_u 32 n 1));
           if n' <? HOT then on_fst (set_state i paddr (Cold n'));; mret None
           else form i paddr;; mret None
       end.

Lemma block_start_at paddr j p p' :
  arrives_at paddr p p' →
  ∃ n, on_block_start (j, p) = at_slot paddr (j <| Cache.entries := n |>, p').
Proof.
  intros Ht. destruct (bump_returns 64 Cache.entries (λ n j, j <| Cache.entries := n |>) 1 j) as [n Hn].
  exists n. unfold on_block_start. rewrite (fst_bind _ _ j p tt (j <| Cache.entries := n |>)) by exact Hn.
  destruct p as [s b]. rewrite (snd_bind _ _ _ (s, b) (Cpu.pc (Sup.cpu s)) (s, b)) by done.
  by rewrite (snd_bind _ _ _ (s, b) (Ok paddr) p').
Qed.

Lemma slot_get_run paddr j (p : Sup.t * B) {A} (k : Slot.t → M (Cache.t * (Sup.t * B)) A) :
  shaped j → (on_fst (tbl_get Cache.slots (index paddr)) ≫= k) (j, p) = k (slot_of paddr j) (j, p).
Proof.
  intros Hj. apply fst_bind, tbl_get_run. rewrite (sh_slots _ Hj). apply index_range.
Qed.

(** [j'] differs from [j] in the slot of [paddr] and in counters. *)
Record moved (paddr : Z) (st : BlockState) (j j' : Cache.t) : Prop := mk_moved {
  mv_shaped : shaped j';
  mv_slot : slot_of paddr j' = Slot.mk paddr st;
  mv_pending : Cache.pending j' = Cache.pending j;
}.

Lemma set_state_run paddr st j :
  shaped j → ∃ j', set_state (index paddr) paddr st j = Some (tt, j') ∧ moved paddr st j j'.
Proof.
  intros Hj. destruct (tbl_set_run Cache.slots set_slots (index paddr) (Slot.mk paddr st) j) as (v & Hv & Hrun);
    [rewrite (sh_slots _ Hj); apply index_range|].
  exists (set_slots v j). split; [exact Hrun|]. constructor; [|unfold slot_of; cbn; by rewrite (Tbl.at_put _ _ _ _ _ Hv), decide_True|done].
  destruct Hj. constructor; try done. cbn. by rewrite (Tbl.len_put _ _ _ _ Hv).
Qed.

Lemma count_bin_run i j :
  shaped j → (i < 4)%nat → ∃ j', count_bin i j = Some (tt, j') ∧ shaped j' ∧ Cache.slots j' = Cache.slots j ∧ Cache.pending j' = Cache.pending j.
Proof.
  intros Hj Hi. unfold count_bin. rewrite M_bind_run. cbn [get].
  destruct (lookup_lt_is_Some_2 (Cache.slot_state j) i) as [x Hx]; [by rewrite (sh_bins _ Hj)|].
  rewrite M_bind_run. unfold lift at 1. rewrite Hx. rewrite M_bind_run. unfold lift.
  destruct (add_u 64 x 1) as [x'|] eqn:E; [|by apply add_u_none in E].
  eexists. split; [reflexivity|]. split; [|done]. destruct Hj. constructor; try done. cbn. by rewrite length_insert.
Qed.

(** The first visit takes the slot over. *)
Lemma visit_first paddr j p :
  shaped j → Slot.tag (slot_of paddr j) ≠ paddr → arrives paddr p →
  ∃ j' p', on_block_start (j, p) = Some (None, (j', p')) ∧ moved paddr (Cold 1) j j'.
Proof.
  intros Hj Ht [p' Hp]. destruct (block_start_at paddr j p p' Hp) as [n ->]. set (j1 := j <| Cache.entries := n |>).
  assert (Hj1 : shaped j1) by by destruct Hj. unfold at_slot. cbv zeta. rewrite slot_get_run by done.
  change (slot_of paddr j1) with (slot_of paddr j). rewrite (proj2 (Z.eqb_neq _ _) Ht). cbn [negb].
  destruct (count_bin_run (slot_bin (slot_of paddr j)) j1 Hj1 (slot_bin_range _)) as (j2 & Hb & Hj2 & _ & Hp2).
  destruct (set_state_run paddr (Cold 1) j2 Hj2) as (j3 & Hs & [Hm1 Hm2 Hm3]).
  exists j3, p'. split; [|constructor; [done|done|by rewrite Hm3, Hp2]].
  rewrite (fst_bind _ _ j1 p' tt j2) by exact Hb. by rewrite (fst_bind _ _ j2 p' tt j3).
Qed.

(** Further visits count. *)
Lemma visit_cold paddr n j p :
  shaped j → slot_of paddr j = Slot.mk paddr (Cold n) → 0 <= n → n + 1 < HOT → arrives paddr p →
  ∃ j' p', on_block_start (j, p) = Some (None, (j', p')) ∧ moved paddr (Cold (n + 1)) j j'.
Proof.
  intros Hj Hs Hn Hh [p' Hp]. destruct (block_start_at paddr j p p' Hp) as [x ->]. set (j1 := j <| Cache.entries := x |>).
  assert (Hj1 : shaped j1) by by destruct Hj. unfold at_slot. cbv zeta. rewrite slot_get_run by done.
  change (slot_of paddr j1) with (slot_of paddr j). rewrite Hs. cbn [Slot.tag Slot.state]. rewrite Z.eqb_refl. cbn [negb].
  rewrite (fst_bind _ _ j1 p' (n + 1) j1).
  2:{ unfold add_u, checked_u. unfold HOT in Hh. destruct (Z.leb_spec 0 (n + 1)), (Z.ltb_spec (n + 1) (2 ^ 32)); (done || lia). }
  rewrite (proj2 (Z.ltb_lt _ _) Hh). destruct (set_state_run paddr (Cold (n + 1)) j1 Hj1) as (j3 & Hset & Hm).
  exists j3, p'. split; [by rewrite (fst_bind _ _ j1 p' tt j3)|]. by destruct Hm.
Qed.
(** The sixteenth visit decodes the run and queues it. *)
Lemma visit_hot paddr j p p' run p'' :
  shaped j → slot_of paddr j = Slot.mk paddr (Cold (HOT - 1)) →
  arrives_at paddr p p' →
  decode_run p' = Some (run, p'') → run ≠ [] →
  ∃ j', on_block_start (j, p) = Some (None, (j', p'')) ∧ shaped j' ∧ slot_of paddr j' = Slot.mk paddr Queued ∧
    Cache.pending j' = Cache.pending j ++ [(paddr, run)].
Proof.
  intros Hj Hs Hp Hrun Hne. destruct (block_start_at paddr j p p' Hp) as [x ->]. set (j1 := j <| Cache.entries := x |>).
  assert (Hj1 : shaped j1) by by destruct Hj. unfold at_slot. cbv zeta. rewrite slot_get_run by done.
  change (slot_of paddr j1) with (slot_of paddr j). rewrite Hs. cbn [Slot.tag Slot.state]. rewrite Z.eqb_refl. cbn [negb].
  rewrite (fst_bind _ _ j1 p' HOT j1) by done. rewrite Z.ltb_irrefl.
  destruct (set_state_run paddr Queued j1 Hj1) as (j2 & Hset & Hm).
  destruct (bump_returns 64 Cache.formed (λ n j, j <| Cache.formed := n |>) 1 j2) as [n Hb].
  set (j3 := (j2 <| Cache.formed := n |>) <| Cache.pending := Cache.pending j2 ++ [(paddr, run)] |>).
  assert (Hform : form (index paddr) paddr (j1, p') = Some (tt, (j3, p''))).
  { unfold form. rewrite (snd_bind _ _ j1 p' run p'') by exact Hrun. destruct run as [|s run]; [done|].
    unfold on_fst. rewrite (M_bind_some _ _ j1 tt j2) by exact Hset.
    by rewrite (M_bind_some _ _ j2 tt (j2 <| Cache.formed := n |>)) by exact Hb. }
  exists j3. split; [by rewrite (M_bind_some _ _ _ tt (j3, p''))|]. destruct Hm as [Hm1 Hm2 Hm3]. split; [by destruct Hm1|].
  split; [exact Hm2|]. cbn. by rewrite Hm3.
Qed.

(** A queued block waits; an installed one is entered. *)
Lemma visit_queued paddr j p :
  shaped j → slot_of paddr j = Slot.mk paddr Queued → arrives paddr p →
  ∃ j' p', on_block_start (j, p) = Some (None, (j', p')) ∧ Cache.pending j' = Cache.pending j.
Proof.
  intros Hj Hs [p' Hp]. destruct (block_start_at paddr j p p' Hp) as [x ->]. set (j1 := j <| Cache.entries := x |>).
  assert (Hj1 : shaped j1) by by destruct Hj. unfold at_slot. cbv zeta. rewrite slot_get_run by done.
  change (slot_of paddr j1) with (slot_of paddr j). rewrite Hs. cbn [Slot.tag Slot.state]. rewrite Z.eqb_refl. cbn [negb].
  by exists j1, p'.
Qed.

Lemma visit_compiled paddr idx bytes insns branchy j p :
  shaped j → slot_of paddr j = Slot.mk paddr (Compiled idx bytes insns branchy) → arrives paddr p →
  ∃ j' p', on_block_start (j, p) = Some (Some (Hit.mk idx bytes insns branchy), (j', p')).
Proof.
  intros Hj Hs [p' Hp]. destruct (block_start_at paddr j p p' Hp) as [x ->]. set (j1 := j <| Cache.entries := x |>).
  assert (Hj1 : shaped j1) by by destruct Hj. unfold at_slot. cbv zeta. rewrite slot_get_run by done.
  change (slot_of paddr j1) with (slot_of paddr j). rewrite Hs. cbn [Slot.tag Slot.state]. rewrite Z.eqb_refl. cbn [negb].
  by exists j1, p'.
Qed.

(** Installing the batch that holds only this block. *)
Lemma install_claims paddr bytes insns branchy base j :
  shaped j → slot_of paddr j = Slot.mk paddr Queued → 0 <= base < 2 ^ 32 →
  ∃ j', installed [paddr] [bytes] [insns] [branchy] base j = Some (tt, j') ∧ shaped j' ∧
    slot_of paddr j' = Slot.mk paddr (Compiled base bytes insns branchy).
Proof.
  intros Hj Hs Hbase.
  destruct (tbl_set_run Cache.slots set_slots (index paddr) (Slot.mk paddr (Compiled base bytes insns branchy)) j)
    as (v & Hv & Hset); [rewrite (sh_slots _ Hj); apply index_range|].
  assert (Hadd : add_u 32 base 0 = Some base).
  { unfold add_u, checked_u. rewrite Z.add_0_r. destruct (Z.leb_spec 0 base), (Z.ltb_spec base (2 ^ 32)); (done || lia). }
  set (j1 := set_slots v j). set (j2 := j1 <| Cache.code_pages := {[Z.shiftr paddr 12]} ∪ Cache.code_pages j |>).
  destruct (bump_returns 32 Cache.installed (λ n j, j <| Cache.installed := n |>) 1 j2) as [n Hb].
  set (fresh := negb (bool_decide (Z.shiftr paddr 12 ∈ Cache.code_pages j))).
  assert (Hone : install_one 0 paddr [bytes] [insns] [branchy] base j = Some (fresh, j2 <| Cache.installed := n |>)).
  { unfold install_one. rewrite M_bind_run, tbl_get_run by (rewrite (sh_slots _ Hj); apply index_range).
    fold (slot_of paddr j). rewrite Hs. cbn [Slot.tag Slot.state queued]. rewrite Z.eqb_refl. cbn [andb].
    rewrite (M_bind_some _ _ j tt j1).
    2:{ rewrite (lift_bind _ _ j base) by exact Hadd. cbn [lookup list_lookup]. exact Hset. }
    rewrite M_bind_run. cbn [get]. rewrite M_bind_run. cbn [modify].
    change (Cache.code_pages j1) with (Cache.code_pages j). fold j2.
    by rewrite (M_bind_some _ _ j2 tt (j2 <| Cache.installed := n |>)) by exact Hb. }
  assert (Hslot : slot_of paddr (j2 <| Cache.installed := n |>) = Slot.mk paddr (Compiled base bytes insns branchy)).
  { unfold slot_of. cbn. by rewrite (Tbl.at_put _ _ _ _ _ Hv), decide_True. }
  assert (Hsh : shaped (j2 <| Cache.installed := n |>)).
  { destruct Hj. constructor; try done. cbn. by rewrite (Tbl.len_put _ _ _ _ Hv). }
  unfold installed. rewrite (M_bind_some _ _ j tt j) by done.
  cbn [install_from]. rewrite M_bind_run. rewrite (M_bind_some _ _ j fresh (j2 <| Cache.installed := n |>)) by exact Hone.
  cbn [orb]. unfold mret, M_ret. destruct fresh; (eexists; split; [reflexivity|]; split; [|exact Hslot]); [by destruct Hsh|done].
Qed.

(** Arriving [n] times at one entry. *)
Fixpoint visits (ps : list (Sup.t * B)) (j : Cache.t) : option Cache.t :=
  match ps with
  | [] => Some j
  | p :: ps => match on_block_start (j, p) with Some (None, (j', _)) => visits ps j' | _ => None end
  end.

Lemma visits_count paddr ps n j :
  shaped j → slot_of paddr j = Slot.mk paddr (Cold n) → 0 <= n → n + Z.of_nat (length ps) < HOT →
  Forall (arrives paddr) ps →
  ∃ j', visits ps j = Some j' ∧ moved paddr (Cold (n + Z.of_nat (length ps))) j j'.
Proof.
  revert n j. induction ps as [|p ps IH]; intros n j Hj Hs Hn Hlt Hps.
  { exists j. split; [done|]. constructor; [done|by rewrite Z.add_0_r|done]. }
  cbn [length] in *. inversion Hps as [|? ? Hp Hrest]; subst.
  destruct (visit_cold paddr n j p Hj Hs Hn ltac:(lia) Hp) as (j1 & p1 & Hrun & [H1 H2 H3]).
  destruct (IH (n + 1) j1 H1 H2 ltac:(lia) ltac:(lia) Hrest) as (j2 & Hrun2 & [H4 H5 H6]).
  exists j2. split; [by cbn [visits]; rewrite Hrun|]. constructor; [done| |by rewrite H6, H3].
  rewrite H5. do 2 f_equal. lia.
Qed.
End Visit.

(** C29: an entry that is visited often enough is compiled and then entered.  Take
    sixteen arrivals of the hart at addresses that translate to [paddr], with no
    other block taking the slot meanwhile, and let the run decoded at the last
    one be non-empty.  The first fifteen leave the queue alone and the sixteenth
    appends the run to it; arrivals before the host installs it neither enter
    anything nor queue it again; once the host installs it at table slot [base],
    every arrival returns a hit for exactly that slot.  (The release build; with
    overflow checks a counter may panic.) *)
Theorem hot_entry_is_compiled (B : Type) (BU : Bus B) (TG : Target) (paddr : Z) (j : Cache.t)
    (ps : list (Sup.t * B)) p p' run p'' bytes insns branchy base :
  shaped j → Slot.tag (slot_of paddr j) ≠ paddr → length ps = 15%nat → Forall (arrives paddr) ps →
  arrives_at paddr p p' →
  decode_run (H0 := Release) p' = Some (run, p'') → run ≠ [] → 0 <= base < 2 ^ 32 →
  ∃ j1 j2 j3, visits ps j = Some j1 ∧ Cache.pending j1 = Cache.pending j ∧
    on_block_start (H0 := Release) (j1, p) = Some (None, (j2, p'')) ∧ Cache.pending j2 = Cache.pending j ++ [(paddr, run)] ∧
    (∀ q, arrives paddr q → ∃ j' q', on_block_start (H0 := Release) (j2, q) = Some (None, (j', q')) ∧ Cache.pending j' = Cache.pending j2) ∧
    installed (H := Release) [paddr] [bytes] [insns] [branchy] base j2 = Some (tt, j3) ∧
    (∀ q, arrives paddr q → ∃ j' q', on_block_start (H0 := Release) (j3, q) = Some (Some (Hit.mk base bytes insns branchy), (j', q'))).
Proof.
  intros Hj Ht Hlen Hps Hp Hrun Hne Hbase. destruct ps as [|p0 ps]; [done|]. inversion Hps as [|? ? Hp0 Hrest]; subst.
  destruct (visit_first paddr j p0 Hj Ht Hp0) as (j0 & q0 & E0 & [H1 H2 H3]). injection Hlen as Hlen.
  destruct (visits_count paddr ps 1 j0 H1 H2) as (j1 & E1 & [H4 H5 H6]); [lia|rewrite Hlen; done|done|].
  rewrite Hlen in H5. destruct (visit_hot paddr j1 p p' run p'' H4 H5 Hp Hrun Hne) as (j2 & E2 & H7 & H8 & H9).
  destruct (install_claims paddr bytes insns branchy base j2 H7 H8 Hbase) as (j3 & E3 & H10 & H11).
  exists j1, j2, j3. split; [by cbn [visits]; rewrite E0|]. split; [by rewrite H6, H3|]. split; [exact E2|].
  split; [by rewrite H9, H6, H3|]. split; [|split; [exact E3|]].
  - intros q Hq. by apply (visit_queued paddr).
  - intros q Hq. by apply (visit_compiled paddr).
Qed.

(** The loop of two instructions, entered in machine mode. *)
Definition at_loop : Sup.t * Ram.t := (Sup.new 0x80000000 0, loop_code).

Lemma at_loop_arrives : arrives_at (BU := Ram.bus) 0x80000000 at_loop at_loop.
Proof. reflexivity. Qed.

Lemma at_loop_run : ∃ p'', decode_run (H0 := Release) at_loop = Some ([(Addi 5 5 1, 4, 0); (Bne 5 6 (-4), 4, 4)], p'').
Proof.
  destruct (decode_run at_loop) as [[run p'']|] eqn:E; apply (f_equal (fmap fst)) in E; vm_compute in E; [|done].
  injection E as ->. by exists p''.
Qed.

Lemma hot_entry_is_compiled_witness :
  ∃ j3, (∃ j2, installed (H := Release) (H0 := Wasm32) [0x80000000] [8] [2] [true] 7 j2 = Some (tt, j3)) ∧
    ∃ j' q', on_block_start (H0 := Release) (H1 := Wasm32) (j3, at_loop) = Some (Some (Hit.mk 7 8 2 true), (j', q')).
Proof.
  destruct at_loop_run as [p'' Hrun].
  assert (Ha : arrives (BU := Ram.bus) 0x80000000 at_loop) by (exists at_loop; exact at_loop_arrives).
  destruct (hot_entry_is_compiled Ram.t Ram.bus Wasm32 0x80000000 Cache.new (replicate 15 at_loop) at_loop at_loop
    [(Addi 5 5 1, 4, 0); (Bne 5 6 (-4), 4, 4)] p'' 8 2 true 7
    shaped_new) as (j1 & j2 & j3 & _ & _ & _ & _ & _ & Hi & Hh).
  - discriminate.
  - reflexivity.
  - apply Forall_replicate, Ha.
  - exact at_loop_arrives.
  - exact Hrun.
  - discriminate.
  - lia.
  - exists j3. split; [exists j2; exact Hi|]. apply Hh, Ha.
Defined.

(** * Flushing *)

Section Flush.
Context {B : Type} {BU : Bus B} {TG : Target}.
#[local] Existing Instance release.

(** A block start in an empty table never finds a block. *)
Lemma empty_start j p r x :
  shaped j → (∀ i, Tbl.at_ (Cache.slots j) i = Slot.EMPTY) → on_block_start (j, p) = Some (r, x) → r = None.
Proof.
  intros Hj He. destruct p as [s b].
  destruct (Supervisor.debug_translate Instruction (Cpu.pc (Sup.cpu s)) (s, b)) as [[[paddr|e] p']|] eqn:Et.
  - destruct (block_start_at paddr j (s, b) p' Et) as [n ->]. set (j1 := j <| Cache.entries := n |>).
    assert (Hj1 : shaped j1) by by destruct Hj. unfold at_slot. cbv zeta. rewrite slot_get_run by done.
    change (slot_of paddr j1) with (slot_of paddr j). unfold slot_of. rewrite He. destruct (negb _).
    + destruct (count_bin_run (slot_bin Slot.EMPTY) j1 Hj1 (slot_bin_range _)) as (j2 & Hb & Hj2 & _).
      destruct (set_state_run paddr (Cold 1) j2 Hj2) as (j3 & Hs & _).
      rewrite (fst_bind _ _ j1 p' tt j2) by exact Hb. rewrite (fst_bind _ _ j2 p' tt j3) by exact Hs. by intros [= <- <-].
    + cbn [Slot.EMPTY Slot.state]. rewrite (fst_bind _ _ j1 p' 1 j1) by done. change (1 <? HOT) with true.
      destruct (set_state_run paddr (Cold 1) j1 Hj1) as (j3 & Hs & _).
      rewrite (fst_bind _ _ j1 p' tt j3) by exact Hs. by intros [= <- <-].
  - destruct (bump_returns 64 Cache.entries (λ n j, j <| Cache.entries := n |>) 1 j) as [n Hn]. unfold on_block_start.
    rewrite (fst_bind _ _ j (s, b) tt (j <| Cache.entries := n |>)) by exact Hn.
    rewrite (snd_bind _ _ _ (s, b) (Cpu.pc (Sup.cpu s)) (s, b)) by done.
    rewrite (snd_bind _ _ _ (s, b) (Err e) p') by exact Et. by intros [= <- <-].
  - destruct (bump_returns 64 Cache.entries (λ n j, j <| Cache.entries := n |>) 1 j) as [n Hn]. unfold on_block_start.
    rewrite (fst_bind _ _ j (s, b) tt (j <| Cache.entries := n |>)) by exact Hn.
    rewrite (snd_bind _ _ _ (s, b) (Cpu.pc (Sup.cpu s)) (s, b)) by done.
    rewrite M_bind_run. unfold on_snd. by rewrite Et.
Qed.

Lemma flushed_lookup j s b r x :
  shaped j → flushed j → Sup.trans_gen s ≠ U32_MAX → lookup (j, (s, b)) = Some (r, x) → r = None.
Proof.
  intros Hj Hf Hg. unfold lookup. rewrite (snd_bind _ _ j (s, b) s (s, b)) by done. cbv zeta.
  set (v := Tbl.at_ (Cache.vcache j) (vcache_index (vkey (Cpu.pc (Sup.cpu s)) (Sup.priv_level s)))).
  rewrite (fst_bind _ _ j (s, b) v j) by (apply tbl_get_run; rewrite (sh_vcache _ Hj); apply vcache_index_range).
  replace (VSlot.gen v =? Sup.trans_gen s) with false.
  2:{ symmetry. apply Z.eqb_neq. unfold v. rewrite (fl_vcache _ Hf). by intros E. }
  rewrite andb_false_r, M_bind_run. destruct (on_block_start (j, (s, b))) as [[r' x']|] eqn:E; [|done].
  apply empty_start in E as ->; [|done|apply Hf]. by intros [= <- <-].
Qed.
End Flush.

(** A discard forgets every block.  [flush] returns; afterwards no slot holds
    a block, the queue is empty, no page counts as code, and every entry of the
    chain table, the return stack and both inlined TLBs has generation 0, which
    no live generation word equals, so that generated code cannot enter a block
    or use a translation from before; and whatever the hart does next, [lookup]
    finds nothing, unless the translation generation has reached the last 32-bit
    value, which marks the voided entries of the virtual table. *)
Theorem flush_discards (B : Type) (BU : Bus B) (TG : Target) (j : Cache.t) :
  shaped j →
  ∃ j', flush (H := Release) j = Some (tt, j') ∧ flushed j' ∧
    (∀ s (b : B) r x, Sup.trans_gen s ≠ U32_MAX → lookup (H0 := Release) (j', (s, b)) = Some (r, x) → r = None).
Proof.
  intros Hj. destruct (wp_total _ _ _ (flush_spec (PR := Release) False release_ok j Hj)) as ([] & j' & E & Hs & Hf).
  exists j'. split; [exact E|]. split; [exact Hf|]. intros s b r x. by apply flushed_lookup.
Qed.

Lemma flush_discards_witness :
  ∃ j', flush (H := Release) (Cache.new <| Cache.smc_dirty := true |>) = Some (tt, j') ∧ Cache.smc_dirty j' = false ∧
    ∀ r x, lookup (H0 := Release) (H1 := Wasm32) (j', at_loop) = Some (r, x) → r = None.
Proof.
  destruct (flush_discards Ram.t Ram.bus Wasm32 (Cache.new <| Cache.smc_dirty := true |>)) as (j' & Hf & Hd & Hl).
  - constructor; reflexivity.
  - exists j'. split; [exact Hf|]. split; [exact (fl_dirty _ Hd)|]. intros r x. apply Hl. discriminate.
Defined.
