(* ===== verification/BusGeometry.v ===== *)
(** Nothing the guest or the devices do moves or resizes DRAM
    ([riscv-devices/src/device_bus.rs]): the fields [dram_base] and [dram_size]
    keep their value through every operation of the bus.  Together with the
    invariant of the bus this is again an invariant that [BusOk] asks for. *)

From S2P Require Import Prelude Keeps Types State Stream Cpu SupTypes Plic Virtio VirtioBlk VirtioNet VirtioSafe DeviceBus BusProps BusSafe.
Import DeviceBus.

(** Where DRAM lies, for the guest. *)
Record Geometry := geometry { geo_base : Z; geo_size : Z }.

(** ** Computations that leave a value of the state alone *)

Section Still.
Context {S X : Type} (G : S → X) (g : X).
Abbreviation stays m := (keeps True (λ s, G s = g) m (λ _, True)).

Lemma st_ret {A} (a : A) : stays (mret a).
Proof. by apply keeps_ret. Qed.
Lemma st_get {A} (f : S → A) : stays (get f).
Proof. by apply keeps_get. Qed.
Lemma st_lift {A} (o : option A) : stays (lift o).
Proof. apply keeps_lift. by destruct o. Qed.
Lemma st_upd f : (∀ s, G (f s) = G s) → stays (modify f).
Proof. intros Hf. apply keeps_modify. intros b <-. apply Hf. Qed.
Lemma st_bind {A B} (m : M S A) (k : A → M S B) : stays m → (∀ a, stays (k a)) → stays (m ≫= k).
Proof. intros Hm Hk. eapply keeps_bind; [exact Hm|]. intros a _. apply Hk. Qed.
(** On a part of the state that does not hold the value. *)
Lemma st_aside {T A} (f : S → T) p (m : M T A) : (∀ t s, G (p t s) = G s) → stays (zoom f p m).
Proof. intros Hp s Hs. unfold wp, zoom. destruct (m (f s)) as [[a t]|]; [|done]. by rewrite Hp. Qed.
(** On the part that holds it. *)
Lemma st_part {T A} (G' : T → X) f p (m : M T A) :
  (∀ s, G s = G' (f s)) → (∀ t s, G (p t s) = G' t) → keeps True (λ t, G' t = g) m (λ _, True) → stays (zoom f p m).
Proof.
  intros Hf Hp Hm. apply (keeps_zoom _ _ (λ t, G' t = g)); [done|by intros s <-|]. intros s t _ <-. apply Hp.
Qed.

(** Two facts about one run. *)
Lemma keeps_both {A} (I : S → Prop) (m : M S A) R :
  keeps True I m R → stays m → keeps True (λ s, I s ∧ G s = g) m R.
Proof.
  intros H1 H2 s [Hs Hg]. specialize (H1 s Hs). specialize (H2 s Hg). unfold wp in *.
  destruct (m s) as [[a s']|]; [|done]. by destruct H1, H2.
Qed.
End Still.

Create HintDb geo.
#[export] Hint Resolve st_ret st_get st_lift : geo.
#[export] Hint Extern 1 (keeps True _ (modify _) _) => (apply st_upd; intros; reflexivity) : geo.

(** Follow the syntax of a computation. *)
Ltac geo :=
  repeat first
    [ solve [eauto 2 with geo nocore]
    | progress cbv zeta
    | apply st_bind; [|intros]
    | match goal with
      | |- keeps _ _ (match ?x with _ => _ end) _ => destruct x
      end ].

(** ** The bus *)

Section Geo.
Context {D : Type} {VD : VirtioDevice D} {DV : Devices D} {PR : Profile} {T : Target}.
Definition geometry_of (b : t D) : Geometry := geometry (dram_base b) (dram_size b).

Context (g : Geometry).
Abbreviation stays m := (keeps True (λ b, geometry_of b = g) m (λ _, True)).

Lemma st_plic {A} (m : M Plic.t A) : stays (on_plic m).
Proof. by apply st_aside. Qed.
Lemma st_slot {A} i v (m : M (VirtioMmio.t D * GuestMem.t) A) : stays (on_slot i v m).
Proof. intros b Hb. unfold wp, on_slot. by destruct (m (v, mem_of b)) as [[a [v' x]]|]. Qed.
#[local] Hint Resolve st_plic st_slot : geo.

Lemma st_slot_at i : stays (slot_at i).
Proof. unfold slot_at. geo. Qed.
#[local] Hint Resolve st_slot_at : geo.
Lemma st_sync i : stays (sync_line i).
Proof. unfold sync_line. geo. Qed.
#[local] Hint Resolve st_sync : geo.
Lemma st_for n : ∀ i body, (∀ i, stays (body i)) → stays (for_slots n i body).
Proof. induction n as [|n IH]; intros i body Hb; cbn [for_slots]; geo. Qed.
Lemma st_refresh : stays refresh_virtio_irqs.
Proof. unfold refresh_virtio_irqs. geo. by apply st_for, st_sync. Qed.
#[local] Hint Resolve st_refresh : geo.
Lemma st_flush_slots n : ∀ i any, stays (flush_slots n i any).
Proof. induction n as [|n IH]; intros i any; cbn [flush_slots]; geo; apply IH. Qed.
Lemma st_flush : stays flush_virtio_completions.
Proof. unfold flush_virtio_completions. geo. apply st_flush_slots. Qed.
Lemma st_virtio_write i off val : stays (virtio_write i off val).
Proof. unfold virtio_write. geo. Qed.
Lemma st_tick_slot n poll i : stays (tick_slot n poll i).
Proof. unfold tick_slot. geo. Qed.
Lemma st_virtio_tick n : stays (virtio_tick n).
Proof. unfold virtio_tick. geo. by apply st_for, st_tick_slot. Qed.
#[local] Hint Resolve st_virtio_write st_virtio_tick st_flush : geo.
Lemma st_tick : stays tick.
Proof. unfold tick. geo. Qed.
#[local] Hint Resolve st_tick : geo.
Lemma st_tick_n n : stays (tick_n n).
Proof. unfold tick_n. geo. Qed.
Lemma st_fast_forward x : stays (fast_forward_mtime x).
Proof. unfold fast_forward_mtime. geo. Qed.
Lemma st_hold : stays idle_hold.
Proof. unfold idle_hold. geo. Qed.
#[local] Hint Resolve st_fast_forward st_hold : geo.
Lemma st_idle_to x : stays (idle_skip_mtime_to x).
Proof. unfold idle_skip_mtime_to. geo. Qed.
Lemma st_idle x : stays (idle_skip_mtime x).
Proof. unfold idle_skip_mtime. geo. Qed.
Lemma st_idle_realtime x y : stays (idle_skip_mtime_realtime x y).
Proof. unfold idle_skip_mtime_realtime. geo. Qed.
Lemma st_uart_irq : stays refresh_uart_irq.
Proof. unfold refresh_uart_irq. geo. Qed.
Lemma st_pop : stays pop_rx.
Proof. unfold pop_rx. geo. Qed.
Lemma st_external : stays external_interrupt_pending.
Proof. unfold external_interrupt_pending. geo. Qed.
#[local] Hint Resolve st_uart_irq st_pop st_external : geo.
Lemma st_push_input l : stays (uart_push_input l).
Proof. unfold uart_push_input. geo. Qed.
Lemma st_uart_read off : stays (uart_read off).
Proof. unfold uart_read. geo. Qed.
Lemma st_uart_write off v : stays (uart_write off v).
Proof. unfold uart_write. geo. Qed.
Lemma st_slice off n : stays (dram_slice off n).
Proof. unfold dram_slice. geo. Qed.
#[local] Hint Resolve st_uart_read st_uart_write st_slice : geo.
Lemma st_store off l : stays (dram_store off l).
Proof. unfold dram_store. geo. Qed.
Lemma st_count_read : stays count_mtime_read.
Proof. unfold count_mtime_read. geo. Qed.
Lemma st_count_write : stays count_mtimecmp_write.
Proof. unfold count_mtimecmp_write. geo. Qed.
#[local] Hint Resolve st_store st_count_read st_count_write : geo.
Lemma st_read_u8 a : stays (bus_read_u8 a).
Proof. unfold bus_read_u8. geo. Qed.
Lemma st_write_u8 a v : stays (bus_write_u8 a v).
Proof. unfold bus_write_u8. geo. Qed.
#[local] Hint Resolve st_read_u8 st_write_u8 : geo.
Lemma st_read_u16 a : stays (bus_read_u16 a).
Proof. unfold bus_read_u16. geo. Qed.
Lemma st_read_u32 a : stays (bus_read_u32 a).
Proof. unfold bus_read_u32. geo. Qed.
Lemma st_write_u16 a v : stays (bus_write_u16 a v).
Proof. unfold bus_write_u16. geo. Qed.
Lemma st_write_u32 a v : stays (bus_write_u32 a v).
Proof. unfold bus_write_u32. geo. Qed.
#[local] Hint Resolve st_read_u16 st_read_u32 st_write_u16 st_write_u32 : geo.
Lemma st_read_u64 a : stays (bus_read_u64 a).
Proof. unfold bus_read_u64. geo. Qed.
Lemma st_write_u64 a v : stays (bus_write_u64 a v).
Proof. unfold bus_write_u64. geo. Qed.
End Geo.

#[export] Hint Resolve st_plic st_slot st_slot_at st_sync st_refresh st_virtio_write st_virtio_tick st_flush st_tick st_tick_n
  st_fast_forward st_hold st_idle_to st_idle st_idle_realtime st_uart_irq st_pop st_external st_push_input
  st_slice st_store : geo.

(** * The bus with its geometry as part of the invariant *)

Section Placed.
Context {D : Type} {VD : VirtioDevice D} {DV : Devices D} {DO : DeviceOk D} {DS : DevicesOk D}.
Context {PR : Profile} {T : Target} {Ht : TargetOk T} (g : Geometry).

Definition placed_wf (b : t D) : Prop := bus_wf b ∧ geometry_of b = g.

Lemma placed_keeps {A} (m : M (t D) A) R :
  keeps True bus_wf m R → keeps True (λ b, geometry_of b = g) m (λ _, True) → keeps True placed_wf m R.
Proof. apply keeps_both. Qed.

Lemma placed_writes (m : M (t D) unit) b :
  keeps True bus_wf m (λ _, True) → keeps True (λ b, geometry_of b = g) m (λ _, True) → placed_wf b →
  wp True m (λ _ b', placed_wf b') b.
Proof. intros H1 H2 Hb. eapply wp_mono; [by apply (placed_keeps m (λ _, True))|]. by intros [] ? []. Qed.

Definition placed_bus : BusOk True (t D).
Proof.
  refine {| bus_inv := placed_wf |}.
  - intros a b Ha. apply placed_keeps; [by apply bk_read_u8|apply st_read_u8].
  - intros a b Ha. apply placed_keeps; [by apply bk_read_u16|apply st_read_u16].
  - intros a b Ha. apply placed_keeps; [by apply bk_read_u32|apply st_read_u32].
  - intros a b Ha. apply placed_keeps; [by apply bk_read_u64|apply st_read_u64].
  - intros a v b Ha Hv Hb. exact (placed_writes (bus_write_u8 a v) b (bk_write_u8 a v Hv) (st_write_u8 g a v) Hb).
  - intros a v b Ha Hv Hb. exact (placed_writes (bus_write_u16 a v) b (bk_write_u16 a v) (st_write_u16 g a v) Hb).
  - intros a v b Ha Hv Hb. exact (placed_writes (bus_write_u32 a v) b (bk_write_u32 a v Hv) (st_write_u32 g a v) Hb).
  - intros a v b Ha Hv Hb. exact (placed_writes (bus_write_u64 a v) b (bk_write_u64 a v Hv) (st_write_u64 g a v) Hb).
  - intros b Hb. by apply wp_get.
  - intros b. apply placed_keeps; [apply bk_mtime|by apply keeps_get].
  - intros b Hb. eapply wp_mono; [exact (placed_keeps external_interrupt_pending (λ _, True) bk_external (st_external g) b Hb)|]. by intros ? ? [].
Defined.
End Placed.
