(* ===== verification/WasmMachine.v ===== *)
(** The machine in the browser: what [Machine::run] of [riscv-machine/src/lib.rs]
    does around compiled blocks under [target_arch = "wasm32"], and the functions
    that compiled blocks import ([riscv-wasm/src/lib.rs]).

    A compiled block is a function in the host's table.  Calling one is a
    parameter, [call_block]: the code is generated, and it acts on the machine
    through its register file and the imported functions.  The addresses that the
    compiler is told, and the address of the guest's DRAM, are parameters too.
    The imported functions are the ones of a machine that is running: outside of
    [run] the pointer to it is null and they do nothing. *)

From stdpp Require Import gmap.
From S2P Require Import Prelude Keeps Types Decode Compressed State Stream Cpu Fpu SupTypes SupState SupTrap SupCsr Supervisor Plic Virtio VirtioBlk VirtioNet DeviceBus Machine Jit BlockCache.
Import BlockCache.

Definition SELECTIVE_FENCEI : bool := true.

(** ** Histograms of interpreted instructions *)

Definition op_bin (i : Instr) : nat :=
  match i with
  | Lb _ _ _ | Lbu _ _ _ => 0
  | Lh _ _ _ | Lhu _ _ _ => 1
  | Lw _ _ _ | Lwu _ _ _ => 2
  | Ld _ _ _ => 3
  | Sb _ _ _ => 4
  | Sh _ _ _ => 5
  | Sw _ _ _ => 6
  | Sd _ _ _ => 7
  | Beq _ _ _ | Bne _ _ _ | Blt _ _ _ | Bge _ _ _ | Bltu _ _ _ | Bgeu _ _ _ => 8
  | Jal _ _ => 9
  | Jalr _ _ _ => 10
  | Addi _ _ _ => 11
  | Add _ _ _ | Sub _ _ _ => 12
  | And _ _ _ | Or _ _ _ | Xor _ _ _ => 13
  | Andi _ _ _ | Ori _ _ _ | Xori _ _ _ => 14
  | Sll _ _ _ | Srl _ _ _ | Sra _ _ _ | Slli _ _ _ | Srli _ _ _ | Srai _ _ _ => 15
  | Slt _ _ _ | Sltu _ _ _ | Slti _ _ _ | Sltiu _ _ _ => 16
  | Lui _ _ => 17
  | Auipc _ _ => 18
  | Addiw _ _ _ | Slliw _ _ _ | Srliw _ _ _ | Sraiw _ _ _
  | Addw _ _ _ | Subw _ _ _ | Sllw _ _ _ | Srlw _ _ _ | Sraw _ _ _ => 19
  | Mul _ _ _ | Mulh _ _ _ | Mulhsu _ _ _ | Mulhu _ _ _ | Mulw _ _ _ => 20
  | Div _ _ _ | Divu _ _ _ | Rem _ _ _ | Remu _ _ _
  | Divw _ _ _ | Divuw _ _ _ | Remw _ _ _ | Remuw _ _ _ => 21
  | Fp _ | Flw _ _ _ | Fld _ _ _ | Fsw _ _ _ | Fsd _ _ _ => 22
  | _ => 23
  end.

Definition interp_bin (i : Instr) : nat :=
  match i with
  | Mul _ _ _ | Mulh _ _ _ | Mulhsu _ _ _ | Mulhu _ _ _ | Mulw _ _ _ => 0
  | Div _ _ _ | Divu _ _ _ | Rem _ _ _ | Remu _ _ _
  | Divw _ _ _ | Divuw _ _ _ | Remw _ _ _ | Remuw _ _ _ => 1
  | Lrw _ _ _ _ | Scw _ _ _ _ _ | Lrd _ _ _ _ | Scd _ _ _ _ _
  | Amoswapw _ _ _ _ _ | Amoaddw _ _ _ _ _ | Amoxorw _ _ _ _ _ | Amoandw _ _ _ _ _
  | Amoorw _ _ _ _ _ | Amominw _ _ _ _ _ | Amomaxw _ _ _ _ _ | Amominuw _ _ _ _ _
  | Amomaxuw _ _ _ _ _
  | Amoswapd _ _ _ _ _ | Amoaddd _ _ _ _ _ | Amoxord _ _ _ _ _ | Amoandd _ _ _ _ _
  | Amoord _ _ _ _ _ | Amomind _ _ _ _ _ | Amomaxd _ _ _ _ _ | Amominud _ _ _ _ _
  | Amomaxud _ _ _ _ _ => 2
  | Csrrw _ _ _ | Csrrs _ _ _ | Csrrc _ _ _ | Csrrwi _ _ _ | Csrrsi _ _ _ | Csrrci _ _ _ => 3
  | Fence _ _ => 4
  | FenceI => 9
  | Ecall | Ebreak | Mret | Sret | Uret | Wfi | SfenceVma _ _ | Unimp => 5
  | Fp _ => 6
  | other => if is_compilable other then 7 else 8
  end.

Module WasmMachine.
(** The machine with the fields that only exist in the browser; [pending_install]
    is the one of [Vm].  [jit_table_base] is left out: nothing reads it. *)
Record t (D : Type) := mk {
  mach : Machine.t D;
  jit : Cache.t;
  jit_enabled : bool;
  jit_fault_pc : Z;
  jit_chain_insns : Z;
  jit_chains : Z;
  jit_retry : bool;
  jit_icache_gen : Z;
  interp_hist : list Z;
  op_hist : list Z;
  interp_hist_on : bool;
  chain_miss : list Z;
  tlb_miss : list Z;
  chain_max : Z;
  pending_install : list (Z * Z * Z * bool);
}.
Arguments mk {D}.
Arguments mach {D}.
Arguments jit {D}.
Arguments jit_enabled {D}.
Arguments jit_fault_pc {D}.
Arguments jit_chain_insns {D}.
Arguments jit_chains {D}.
Arguments jit_retry {D}.
Arguments jit_icache_gen {D}.
Arguments interp_hist {D}.
Arguments op_hist {D}.
Arguments interp_hist_on {D}.
Arguments chain_miss {D}.
Arguments tlb_miss {D}.
Arguments chain_max {D}.
Arguments pending_install {D}.
#[global] Instance eta_wasm_machine {D} : Eta (t D) := λ m,
  mk (mach m) (jit m) (jit_enabled m) (jit_fault_pc m) (jit_chain_insns m) (jit_chains m) (jit_retry m)
     (jit_icache_gen m) (interp_hist m) (op_hist m) (interp_hist_on m) (chain_miss m) (tlb_miss m) (chain_max m)
     (pending_install m).

(** As [new] and [restore] make it. *)
Definition fresh {D} (m : Machine.t D) : t D :=
  mk m Cache.new false 0 0 0 false 0 (replicate 10 0) (replicate 24 0) false (replicate 9 0) (replicate 9 0) 8192 [].

(** The function at a slot of the host's table, called with the register file and
    the program counter. *)
Class BlockTable (D : Type) := call_block : Z → Z → M (t D) unit.

(** Where the tables of a machine lie in linear memory. *)
Class Layout := {
  dram_ptr : Z;
  chain_base : Z; chain_gen_addr : Z; tlb_r_base : Z; tlb_w_base : Z; data_gen_addr : Z;
  ras_base : Z; ras_sp_addr : Z; fregs_base : Z; fs_word_addr : Z;
}.

Section Ops.
Context {D : Type} `{Devices D} `{Profile} `{Target} `{Libm} {TB : BlockTable D} {LY : Layout}.
Abbreviation WM := (M (t D)).

Definition set_mach (x : Machine.t D) (m : t D) : t D := m <| mach := x |>.
Definition set_jit (x : Cache.t) (m : t D) : t D := m <| jit := x |>.
Definition on_mach {A} (c : M (Machine.t D) A) : WM A := zoom mach set_mach c.
Definition on_jit {A} (c : M Cache.t A) : WM A := zoom jit set_jit c.
Definition hart (m : t D) : Sup.t := Machine.cpu (mach m).
Definition upd_hart (f : Sup.t → Sup.t) : WM unit :=
  modify (λ m, m <| mach := (mach m) <| Machine.cpu := f (hart m) |> |>).
Definition upd_cpu (f : Cpu.t → Cpu.t) : WM unit := upd_hart (λ s, s <| Sup.cpu := f (Sup.cpu s) |>).
Definition with_hart {A} (c : M (Sup.t * DeviceBus.t D) A) : WM A := on_mach (Machine.on_hart c).
(** [self.jit.f(&mut self.cpu, &mut self.bus)] *)
Definition set_cache_hart (p : Cache.t * (Sup.t * DeviceBus.t D)) (m : t D) : t D :=
  set_mach (Machine.set_hart p.2 (mach m)) (set_jit p.1 m).
Definition on_cache_hart {A} (c : M (Cache.t * (Sup.t * DeviceBus.t D)) A) : WM A :=
  zoom (λ m, (jit m, (Machine.cpu (mach m), Machine.bus (mach m)))) set_cache_hart c.

(** [v[i] += 1], and [x += n] *)
Definition bump_bin (f : t D → list Z) (set : list Z → t D → t D) (i : nat) : WM unit :=
  l ← get f; x ← lift (l !! i); x' ← lift (add_u 64 x 1); modify (set (<[i := x']> l)).
Definition add_to (f : t D → Z) (set : Z → t D → t D) (n : Z) : WM unit :=
  x ← get f; x' ← lift (add_u 64 x n); modify (set x').
Definition set_interp_hist l (m : t D) : t D := m <| interp_hist := l |>.
Definition set_op_hist l (m : t D) : t D := m <| op_hist := l |>.
Definition set_chain_miss l (m : t D) : t D := m <| chain_miss := l |>.
Definition set_tlb_miss l (m : t D) : t D := m <| tlb_miss := l |>.
(** [if self.interp_hist_on { self.chain_miss[i] += 1 }] *)
Definition miss (i : nat) : WM unit :=
  on ← get interp_hist_on; if on : bool then bump_bin chain_miss set_chain_miss i else mret tt.

(** ** Entering compiled code *)

(** Which half of a generation word moved. *)
Definition moved_bin (was now : Z) : nat :=
  match negb (Z.shiftr was 2 =? Z.shiftr now 2), negb (Z.land was 3 =? Z.land now 3) with
  | false, true => 2
  | true, false => 3
  | _, _ => 4
  end.

Definition classify_chain_miss (pc : Z) : WM nat :=
  j ← get jit;
  e ← lift (Tbl.index (Cache.chain j) (chain_index pc));
  if ChainEntry.gen e =? 0 then mret 0%nat
  else if negb (ChainEntry.key e =? pc) then mret 1%nat
  else if ChainEntry.gen e =? Cache.chain_gen j then mret 5%nat
  else
    was ← lift (sub_u 32 (ChainEntry.gen e) 1);
    now ← lift (sub_u 32 (Cache.chain_gen j) 1);
    mret (moved_bin was now).

Definition run_compiled (hit : Hit.t) : WM Z :=
  upd_cpu (λ c, c <| Cpu.jit_fault := 0 |> <| Cpu.jit_insns := 0 |>);;
  pc ← get (λ m, Cpu.pc (Sup.cpu (hart m)));
  call_block (Hit.idx hit) pc;;
  c ← get (λ m, Sup.cpu (hart m));
  if negb (Cpu.jit_fault c =? 0) then
    upd_cpu (λ c, c <| Cpu.jit_fault := 0 |>);;
    fpc ← get jit_fault_pc;
    upd_cpu (λ c, c <| Cpu.pc := fpc |>);;
    upd_hart (λ s, s <| Sup.block_start := false |>);;
    mret 1
  else
    upd_cpu (λ c, c <| Cpu.pc := Cpu.jit_next_pc c |>);;
    upd_hart (λ s, s <| Sup.block_start := true |>);;
    add_to jit_chain_insns (λ x m, m <| jit_chain_insns := x |>) (Cpu.jit_insns c);;
    mret (Cpu.jit_insns c).

(** The loop of [run_chain]; [None] when [fuel] blocks were not enough. *)
Fixpoint chain_from (fuel : nat) (hit : Hit.t) (budget cmax done : Z) : WM (option Z) :=
  match fuel with
  | O => mret None
  | S fuel =>
      faulted_at ← get (λ m, Cpu.pc (Sup.cpu (hart m)));
      r ← run_compiled hit;
      done ← lift (add_u 64 done r);
      s ← get hart;
      if (Cpu.pc (Sup.cpu s) =? faulted_at) || negb (Sup.block_start s) then
        miss 7;; mret (Some done)
      else
        on ← get interp_hist_on;
        (if on : bool then
           bin ← classify_chain_miss (Cpu.pc (Sup.cpu s)); bump_bin chain_miss set_chain_miss bin
         else mret tt);;
        if (budget <=? done) || (cmax <=? done) then
          miss 8;; mret (Some done)
        else
          x ← lift (sub_u 64 budget done); y ← lift (sub_u 64 cmax done);
          upd_cpu (λ c, c <| Cpu.jit_budget := Z.min x y |>);;
          next ← on_cache_hart lookup;
          match next with
          | Some next => chain_from fuel next budget cmax done
          | None => miss 6;; modify (λ m, m <| jit_retry := true |>);; mret (Some done)
          end
  end.

Definition run_chain (fuel : nat) (first : Hit.t) (budget : Z) : WM (option Z) :=
  cmax ← get chain_max;
  upd_cpu (λ c, c <| Cpu.jit_budget := Z.min budget cmax |>);;
  add_to jit_chains (λ x m, m <| jit_chains := x |>) 1;;
  chain_from fuel first budget cmax 0.

(** ** The turn of the loop *)

(** The pages that [sfence.vma] queued. *)
Fixpoint flush_pages (n : nat) (i : nat) (hit : bool) : WM bool :=
  match n with
  | O => mret hit
  | S n =>
      s ← get hart;
      va ← lift (Sup.pending_flush s !! i);
      on_jit (invalidate_tlb_page va);;
      k ← on_jit (page_may_have_keys va (Sup.trans_gen s));
      flush_pages n (S i) (hit || k)
  end.

Definition flush_pending : WM unit :=
  n ← get (λ m, Sup.pending_flush_n (hart m));
  if n =? 0 then mret tt
  else
    hit ← flush_pages (Z.to_nat n) 0 false;
    upd_hart (λ s, s <| Sup.pending_flush_n := 0 |>);;
    if hit : bool then
      on_jit (bump 64 Cache.sfence_hits (λ x j, j <| Cache.sfence_hits := x |>) 1);;
      upd_hart Sup.advance_chain_gen
    else on_jit (bump 64 Cache.sfence_skips (λ x j, j <| Cache.sfence_skips := x |>) 1).

Definition check_icache : WM unit :=
  m ← get id;
  if Sup.icache_gen (hart m) =? jit_icache_gen m then mret tt
  else
    modify (λ m, m <| jit_icache_gen := Sup.icache_gen (hart m) |>);;
    if negb SELECTIVE_FENCEI || Cache.smc_dirty (jit m) then on_jit flush else mret tt.

(** The block to enter at this turn, if there is one. *)
Definition enterable : WM (option Hit.t) :=
  m ← get id;
  if jit_enabled m && Sup.block_start (hart m) then
    pending ← with_hart interrupt_pending;
    if pending : bool then mret None
    else
      s ← get hart;
      on_jit (refresh_gen s);;
      on_cache_hart lookup
  else mret None.

(** The histograms of interpreted instructions. *)
Definition count_interp : WM unit :=
  m ← get id;
  if interp_hist_on m then
    r ← with_hart (Supervisor.debug_fetch (Cpu.pc (Sup.cpu (hart m))));
    match r with
    | Ok (_, half, width, raw) =>
        match decoded half width raw with
        | Some i => bump_bin interp_hist set_interp_hist (interp_bin i);; bump_bin op_hist set_op_hist (op_bin i)
        | None => mret tt
        end
    | Err _ => mret tt
    end
  else mret tt.

Definition bump_prof (f : t D → Privilege) (x : Z) : WM unit :=
  p ← get f;
  let i := Z.to_nat (Z.land (priv_code p) 3) in
  l ← get (λ m, Machine.prof_insns (mach m)); v ← lift (l !! i); v' ← lift (add_u 64 v x);
  modify (λ m, m <| mach := (mach m) <| Machine.prof_insns := <[i := v']> l |> |>).

Definition priv_now (m : t D) : Privilege := Sup.priv_level (hart m).

(** What a turn does: the run stops with [n], or goes on with the new count;
    [OutOfFuel] when the chain did not end. *)
Inductive TurnEnd := Stops | GoesOn (n : Z) | OutOfFuel.

Definition interpret (n : Z) : WM TurnEnd :=
  retry ← get jit_retry;
  modify (λ m, m <| jit_retry := false |>);;
  count_interp;;
  bump_prof priv_now 1;;
  st ← with_hart Supervisor.step;
  stop ← (match st with StWfi => on_mach (Machine.park n) | _ => mret false end);
  if stop : bool then mret Stops
  else
    (if retry : bool then upd_hart (λ s, s <| Sup.block_start := true |>) else mret tt);;
    n' ← lift (add_u 64 n 1);
    mret (GoesOn n').

Definition turn (fuel : nat) (n budget : Z) : WM TurnEnd :=
  on_mach (Machine.on_bus DeviceBus.tick);;
  flush_pending;;
  check_icache;;
  hit ← enterable;
  match hit with
  | Some hit =>
      p ← get priv_now;
      left ← lift (sub_u 64 budget n);
      r ← run_chain fuel hit left;
      match r with
      | None => mret OutOfFuel
      | Some executed =>
          bump_prof (λ _, p) executed;;
          on_mach (Machine.on_bus (DeviceBus.tick_n (Z.max 0 (executed - 1))));;
          n' ← lift (add_u 64 n executed);
          mret (GoesOn n')
      end
  | None => interpret n
  end.

Fixpoint run_loop (fuel : nat) (n budget : Z) : WM (option Z) :=
  match fuel with
  | O => mret None
  | S fuel' =>
      if n <? budget then
        e ← turn fuel n budget;
        match e with
        | Stops => mret (Some n)
        | GoesOn n => run_loop fuel' n budget
        | OutOfFuel => mret None
        end
      else on_mach (Machine.finish n);; mret (Some n)
  end.

Definition run (fuel : nat) (budget : Z) : WM (option Z) :=
  on_mach (modify (λ m, m <| Machine.idle_until := 0 |>));;
  run_loop fuel 0 budget.

(** ** Building and installing blocks *)

Definition chain_cfg : ChainCfg.t :=
  ChainCfg.mk chain_base chain_gen_addr CHAIN_ENTRIES
    (Some (TlbCfg.mk tlb_r_base tlb_w_base TLB_ENTRIES data_gen_addr)) ras_base ras_sp_addr RAS_ENTRIES.
Definition fp_cfg : FpCfg.t := FpCfg.mk fregs_base fs_word_addr.

(** What is recorded of a run: address, bytes, instructions, and whether it ends
    in a terminator. *)
Definition install_entry (p : Z * list Src) : Z * Z * Z * bool :=
  (p.1, foldr (λ (s : Src) n, as_u32 s.1.2 + n) 0 p.2, as_u32 (Z.of_nat (length p.2)),
   match last p.2 with Some s => is_terminator s.1.1 | None => false end).

(** [None] for the empty vector. *)
Definition jit_build : WM (option WModule.t) :=
  pending ← on_jit take_pending;
  match pending with
  | [] => mret None
  | _ =>
      match compile_many_into_table (snd <$> pending) (fst <$> pending) (Some chain_cfg) (Some fp_cfg) with
      | Some (module, _) =>
          modify (λ m, m <| pending_install := install_entry <$> pending |>);;
          mret (Some module)
      | None => mret None
      end
  end.

Definition jit_installed (table_base : Z) : WM unit :=
  l ← get pending_install;
  match l with
  | [] => mret tt
  | _ =>
      on_jit (installed ((λ e, e.1.1.1) <$> l) ((λ e, e.1.1.2) <$> l) ((λ e, e.1.2) <$> l) (snd <$> l) table_base);;
      modify (λ m, m <| pending_install := [] |>)
  end.

Definition jit_flush : WM unit := on_jit flush;; modify (λ m, m <| pending_install := [] |>).

(** ** The functions that compiled code imports *)

(** [m.bus.dram_page_host_addr(pa)] *)
Definition page_of (pa : Z) : WM (option Z) :=
  b ← get (λ m, Machine.bus (mach m)); lift (DeviceBus.dram_page_host_addr dram_ptr b pa).

Definition classify_tlb_miss (addr : Z) (store : bool) (size : Z) (mmio faulted : bool) : WM nat :=
  if faulted then mret 8%nat
  else if mmio then mret 7%nat
  else
    j ← get jit;
    e ← lift (Tbl.index (if store then Cache.tlb_w j else Cache.tlb_r j) (tlb_index (Z.shiftr addr 12)));
    if TlbEntry.gen e =? 0 then mret 0%nat
    else if negb (TlbEntry.vpn e =? Z.shiftr addr 12) then mret 1%nat
    else if negb (TlbEntry.gen e =? Cache.data_gen j) then
      was ← lift (sub_u 32 (TlbEntry.gen e) 1);
      now ← lift (sub_u 32 (Cache.data_gen j) 1);
      mret (moved_bin was now)
    else if 4096 <? Z.land addr 0xFFF + size then mret 5%nat
    else mret 6%nat.

Definition count_tlb_miss (addr : Z) (store : bool) (size : Z) (mmio faulted : bool) : WM unit :=
  on ← get interp_hist_on;
  if on : bool then
    b ← classify_tlb_miss addr store size mmio faulted; bump_bin tlb_miss set_tlb_miss b
  else mret tt.

(** [m.cpu.cpu.jit_fault = 1; m.jit_fault_pc = pc] *)
Definition fault_at (pc : Z) : WM unit :=
  upd_cpu (λ c, c <| Cpu.jit_fault := 1 |>);; modify (λ m, m <| jit_fault_pc := pc |>).

Definition is_none {A} (o : option A) : bool := match o with None => true | Some _ => false end.

(** [jit_load!] of the function that reads [size] bytes *)
Definition jit_load (size : Z) (read : Z → M (DeviceBus.t D) Z) (addr pc : Z) : WM Z :=
  r ← with_hart (Supervisor.debug_translate Load addr);
  match r with
  | Ok pa =>
      page ← page_of pa;
      count_tlb_miss addr false size (is_none page) false;;
      (match page with Some page => on_jit (fill_tlb addr page false) | None => mret tt end);;
      on_mach (Machine.on_bus (read pa))
  | Err _ =>
      count_tlb_miss addr false 0 false true;;
      fault_at pc;;
      mret 0
  end.

(** [jit_store!]; the value is cast by [write]'s argument type *)
Definition jit_store (size : Z) (write : Z → Z → M (DeviceBus.t D) unit) (addr val pc : Z) : WM unit :=
  r ← with_hart (Supervisor.debug_translate Store addr);
  match r with
  | Ok pa =>
      page ← page_of pa;
      count_tlb_miss addr true size (is_none page) false;;
      (match page with
       | Some page =>
           code ← get (λ m, is_code_page (Z.shiftr pa 12) (jit m));
           if code : bool then on_jit note_code_write else on_jit (fill_tlb addr page true)
       | None => mret tt
       end);;
      on_mach (Machine.on_bus (write pa (wrap (8 * size) val)))
  | Err _ =>
      count_tlb_miss addr true 0 false true;;
      fault_at pc
  end.

Definition load8u : Z → Z → WM Z := jit_load 1 read_u8.
Definition load16u : Z → Z → WM Z := jit_load 2 read_u16.
Definition load32u : Z → Z → WM Z := jit_load 4 read_u32.
Definition load64 : Z → Z → WM Z := jit_load 8 read_u64.
Definition store8 : Z → Z → Z → WM unit := jit_store 1 write_u8.
Definition store16 : Z → Z → Z → WM unit := jit_store 2 write_u16.
Definition store32 : Z → Z → Z → WM unit := jit_store 4 write_u32.
Definition store64 : Z → Z → Z → WM unit := jit_store 8 write_u64.

Definition refresh : WM unit := s ← get hart; on_jit (refresh_gen s).

Definition fp (packed arg pc : Z) : WM unit :=
  let kind := Z.land packed 0xff in
  let r1 := Z.land (Z.shiftr packed 8) 0xff in
  let r2 := Z.land (Z.shiftr packed 16) 0xff in
  bail ← with_hart (Supervisor.fp_jit kind r1 r2 arg);
  if bail : bool then fault_at pc else refresh.

Definition csr (csr rd src val kind pc : Z) : WM unit :=
  trapped ← with_hart (csr_jit (as_u16 csr) (as_u8 rd) (as_u8 src) val (as_u8 kind));
  if trapped : bool then fault_at pc
  else
    s ← get hart;
    pending ← (if is_interrupt_csr (as_u16 csr) && MStatus.sie (Sup.mstatus s)
               then with_hart interrupt_pending else mret false);
    if pending : bool then fault_at (as_u64 (pc + 4)) else refresh.
End Ops.
End WasmMachine.
