(* ===== verification/WasmGuard.v ===== *)
(** The write TLB that compiled code reads and the pages that hold compiled code
    ([riscv-machine/src/jit.rs], [riscv-machine/src/lib.rs]): what keeps them
    apart, operation by operation. *)

From stdpp Require Import gmap.
From S2P Require Import Prelude Keeps Types Decode Compressed State Stream Cpu Fpu SupTypes SupState SupTrap SupCsr Supervisor Plic Virtio VirtioBlk VirtioNet DeviceBus BusProps BusGeometry Machine Jit BlockCache BlockProps BlockInv WasmMachine.
Import BlockCache WasmMachine.

(** * The write TLB and the code pages *)

Section Clean.
Context {D : Type} `{Devices D} {PR : Profile} {TG : Target} {LB : Libm} {TB : BlockTable D} {LY : Layout}.

Definition page_number (a : Z) : Z := Z.shiftr a 12.

(** [h] is the host's address of the page of [pa]. *)
Definition hosts (g : Geometry) (h pa : Z) : Prop :=
  ∃ b : DeviceBus.t D, geometry_of b = g ∧ DeviceBus.dram_page_host_addr dram_ptr b pa = Some (Some h).

(** Every entry of the write TLB that generated code could use is for a page of
    DRAM, one that holds no compiled code. *)
Definition clean (g : Geometry) (j : Cache.t) : Prop :=
  ∀ i, TlbEntry.gen (Tbl.at_ (Cache.tlb_w j) i) ≠ 0 →
    ∃ pa, urange 64 pa ∧ hosts g (TlbEntry.base (Tbl.at_ (Cache.tlb_w j) i)) pa ∧ page_number pa ∉ Cache.code_pages j.

(** DRAM is inside the 32-bit address space of the host. *)
Definition placed (g : Geometry) : Prop := 0 <= geo_base g ∧ 0 <= dram_ptr ∧ dram_ptr + geo_size g <= 2 ^ 32.

Lemma page_mask a : urange 64 a → Z.land a (unot 64 0xFFF) = page_number a * 4096.
Proof.
  intros Ha. unfold page_number. change 4096 with (2 ^ 12). rewrite <- Z.shiftl_mul_pow2 by lia. bitblast 64.
Qed.

(** Where the host keeps a page, all of which is DRAM. *)
Lemma hosts_at g h pa :
  placed g → urange 64 pa → hosts g h pa →
  let o := page_number pa * 4096 - geo_base g in h = dram_ptr + o ∧ 0 <= o ∧ o + 4096 <= geo_size g.
Proof.
  intros (Hb & Hp & Hs) Ha (b & <- & E). cbv zeta. revert E.
  unfold DeviceBus.dram_page_host_addr. rewrite page_mask by done. cbn [geo_base geo_size geometry_of] in *.
  destruct (Z.ltb_spec (page_number pa * 4096) (DeviceBus.dram_base b)); [done|].
  destruct (Z.leb_spec (2 ^ 64) (page_number pa * 4096 - DeviceBus.dram_base b + 4096)); [done|].
  destruct (Z.ltb_spec (DeviceBus.dram_size b) (page_number pa * 4096 - DeviceBus.dram_base b + 4096)); [done|]. cbn [orb].
  unfold add_u, checked_u.
  destruct (Z.leb_spec 0 (dram_ptr + (page_number pa * 4096 - DeviceBus.dram_base b))),
    (Z.ltb_spec (dram_ptr + (page_number pa * 4096 - DeviceBus.dram_base b)) (2 ^ 64)); try lia.
  cbn [andb mbind option_bind]. intros [= <-]. rewrite wrap_small by (unfold urange; lia). lia.
Qed.

(** What the code that [Emit::tlb_probe] and [Emit::tlb_host_addr] emit for a
    store of [size] bytes computes from the write TLB ([JitAccess.run_probe]):
    the host address, when the store may go straight to memory. *)
Definition store_probe (addr size : Z) (j : Cache.t) : option Z :=
  let e := Tbl.at_ (Cache.tlb_w j) (tlb_index (Z.shiftr addr 12)) in
  if (TlbEntry.vpn e =? Z.shiftr addr 12) && (TlbEntry.gen e =? Cache.data_gen j)
     && (Z.land addr 0xFFF <=? 4096 - size)
  then Some (TlbEntry.base e + Z.land addr 0xFFF) else None.

Lemma page_offset_mod a : Z.land a 0xFFF = a mod 4096.
Proof. change 0xFFF with (Z.ones 12). by rewrite Z.land_ones by lia. Qed.

(** A hit is in DRAM, and in one page without compiled code. *)
Lemma probe_clean g j addr size h :
  placed g → geo_base g mod 4096 = 0 → clean g j → Cache.data_gen j ≠ 0 → store_probe addr size j = Some h →
  let o := h - dram_ptr in
  0 <= o ∧ o + size <= geo_size g ∧
  ∀ k, 0 <= k < size → page_number (geo_base g + o + k) ∉ Cache.code_pages j.
Proof.
  intros Hpl Hal Hc Hg. unfold store_probe. cbv zeta. destruct (_ && _) eqn:E; [|done]. intros [= <-].
  apply andb_prop in E as [[_ Eg]%andb_prop Es]. apply Z.eqb_eq in Eg. apply Z.leb_le in Es.
  rewrite page_offset_mod in *. pose proof (Z.mod_pos_bound addr 4096 ltac:(lia)) as Ho.
  destruct (Hc (tlb_index (Z.shiftr addr 12)) ltac:(by rewrite Eg)) as (pa & Hpa & Hh & Hn).
  destruct (hosts_at g _ pa Hpl Hpa Hh) as (-> & Hlo & Hhi). split; [lia|]. split; [lia|]. intros k Hk.
  replace (geo_base g + _ + k) with (page_number pa * 4096 + (addr mod 4096 + k)) by lia.
  unfold page_number in *. rewrite (Z.shiftr_div_pow2 (_ + _)) by lia. change (2 ^ 12) with 4096.
  by rewrite Z.div_add_l, Z.div_small, Z.add_0_r by lia.
Qed.

(** ** What leaves both alone *)

(** The part of the cache that the guard is about. *)
Definition framed (w : Tbl.t TlbEntry.t) (c : gset Z) (d : bool) (j : Cache.t) : Prop :=
  Cache.tlb_w j = w ∧ Cache.code_pages j = c ∧ Cache.smc_dirty j = d.

(** [clean], and the mark that some code page was written, if there is one. *)
Definition guarded (g : Geometry) (mark : bool) (j : Cache.t) : Prop := clean g j ∧ (mark = true → Cache.smc_dirty j = true).

Lemma framed_guarded g mark j j' :
  framed (Cache.tlb_w j) (Cache.code_pages j) (Cache.smc_dirty j) j' → guarded g mark j → guarded g mark j'.
Proof. intros (E1 & E2 & E3) [Hc Hd]. split; [|by rewrite E3]. intros i. rewrite E1, E2. apply Hc. Qed.

Section Frame.
Context (w : Tbl.t TlbEntry.t) (c : gset Z) (d : bool).
Abbreviation frames m := (keeps True (framed w c d) m (λ _, True)).

Lemma frames_upd f : (∀ j, framed w c d j → framed w c d (f j)) → frames (modify f).
Proof. apply keeps_modify. Qed.
Lemma frames_get {A} (f : Cache.t → A) : frames (get f).
Proof. by apply keeps_get. Qed.
Lemma frames_lift {A} (o : option A) : frames (lift o).
Proof. apply keeps_lift. by destruct o. Qed.
Lemma frames_bump v f set x : (∀ n j, framed w c d j → framed w c d (set n j)) → frames (bump v f set x).
Proof.
  intros Hs. unfold bump. eapply keeps_bind; [apply frames_get|]. intros n _.
  eapply keeps_bind; [apply frames_lift|]. intros n' _. apply frames_upd, Hs.
Qed.
Lemma frames_tbl_get {A} (f : Cache.t → Tbl.t A) i : frames (tbl_get f i).
Proof. unfold tbl_get. eapply keeps_bind; [apply frames_get|]. intros v _. apply frames_lift. Qed.
Lemma frames_tbl_set {A} (f : Cache.t → Tbl.t A) set i a :
  (∀ v j, framed w c d j → framed w c d (set v j)) → frames (tbl_set f set i a).
Proof.
  intros Hs. unfold tbl_set. eapply keeps_bind; [apply frames_get|]. intros v _.
  eapply keeps_bind; [apply frames_lift|]. intros v' _. apply frames_upd, Hs.
Qed.

Lemma frames_count_bin i : frames (count_bin i).
Proof.
  unfold count_bin. eapply keeps_bind; [apply frames_get|]. intros l _. eapply keeps_bind; [apply frames_lift|]. intros x _.
  eapply keeps_bind; [apply frames_lift|]. intros x' _. by apply frames_upd.
Qed.

Lemma frames_note ps vpn g : frames (note_probe ps vpn g).
Proof.
  induction ps as [|p ps IH]; cbn [note_probe]; [by apply frames_upd|].
  eapply keeps_bind; [apply frames_tbl_get|]. intros e _. destruct (_ =? _); [by apply keeps_ret|].
  destruct (_ || _); [by apply frames_tbl_set|exact IH].
Qed.

Lemma frames_refresh s : frames (refresh_gen s).
Proof.
  unfold refresh_gen. eapply keeps_bind; [apply frames_lift|]. intros x _. apply keeps_seq; [by apply frames_upd|].
  eapply keeps_bind; [apply frames_lift|]. intros y _. apply keeps_seq; by apply frames_upd.
Qed.

Lemma frames_count_hit h : frames (count_hit h).
Proof. apply keeps_seq; by apply frames_bump. Qed.

Lemma frames_remember key s h : frames (remember key s h).
Proof.
  unfold remember. apply keeps_seq; [by apply frames_tbl_set|]. eapply keeps_bind; [apply frames_get|]. intros x _.
  apply keeps_seq; [by apply frames_tbl_set|apply frames_note].
Qed.

End Frame.

(** ** The operations on the cache *)

Section Ops.
Context (g : Geometry) (mark : bool).
Abbreviation cleans m := (keeps True (guarded g mark) m (λ _, True)).

Lemma cleans_frames (m : M Cache.t unit) : (∀ w c d, keeps True (framed w c d) m (λ _, True)) → cleans m.
Proof.
  intros Hm j Hj. eapply wp_mono; [by apply (Hm (Cache.tlb_w j) (Cache.code_pages j) (Cache.smc_dirty j))|].
  intros [] j' [_ Hf]. split; [done|]. by eapply framed_guarded.
Qed.

(** An entry of the new table is one of the old, or unusable. *)
Lemma clean_fewer j j' :
  (∀ i, Tbl.at_ (Cache.tlb_w j') i = Tbl.at_ (Cache.tlb_w j) i ∨ TlbEntry.gen (Tbl.at_ (Cache.tlb_w j') i) = 0) →
  Cache.code_pages j' = Cache.code_pages j → Cache.smc_dirty j' = Cache.smc_dirty j → guarded g mark j → guarded g mark j'.
Proof.
  intros Hw Hc Hd [Hj Hm]. split; [|by rewrite Hd]. intros i Hg. rewrite Hc. destruct (Hw i) as [E|E]; [|done]. rewrite E in *. by apply Hj.
Qed.

Lemma cleans_retire_w vpn : cleans (retire_entry Cache.tlb_w set_tlb_w vpn).
Proof.
  intros j Hj. unfold retire_entry, tbl_get. apply wp_bind, wp_bind, wp_get, wp_lift. destruct (Tbl.index _ _) as [e|]; [|done].
  apply wp_if; intros; [|by apply wp_ret]. unfold tbl_set. apply wp_bind, wp_get, wp_bind, wp_lift.
  destruct (Tbl.put _ _ _) as [v|] eqn:Ev; [|done]. apply wp_modify. split; [done|]. revert Hj.
  apply clean_fewer; [|done..]. intros i. cbn. rewrite (Tbl.at_put _ _ _ _ _ Ev). case_decide; [by right|by left].
Qed.

Lemma cleans_retire_r vpn : cleans (retire_entry Cache.tlb_r set_tlb_r vpn).
Proof.
  apply cleans_frames. intros w c d. unfold retire_entry. eapply keeps_bind; [apply frames_tbl_get|]. intros e _.
  destruct (_ =? _); [by apply frames_tbl_set|by apply keeps_ret].
Qed.

Lemma cleans_invalidate va : cleans (invalidate_tlb_page va).
Proof. apply keeps_seq; [apply cleans_retire_r|apply cleans_retire_w]. Qed.

Lemma cleans_fill_r va h : cleans (fill_tlb va h false).
Proof.
  apply cleans_frames. intros w c d. unfold fill_tlb. eapply keeps_bind; [apply frames_get|]. intros x _. by apply frames_tbl_set.
Qed.

(** The shim fills an entry only for a page that is not code. *)
Lemma fill_w_clean va h pa j :
  urange 64 pa → hosts g h pa → page_number pa ∉ Cache.code_pages j → guarded g mark j →
  wp True (fill_tlb va h true) (λ _ j', guarded g mark j') j.
Proof.
  intros Hpa Hh Hn [Hj Hm]. unfold fill_tlb. apply wp_bind, wp_get. cbv zeta. unfold tbl_set. apply wp_bind, wp_get, wp_bind, wp_lift.
  destruct (Tbl.put _ _ _) as [v|] eqn:Ev; [|done]. apply wp_modify. split; [|done]. intros i. cbn.
  rewrite (Tbl.at_put _ _ _ _ _ Ev). case_decide; [|by apply Hj]. intros _. by exists pa.
Qed.

Lemma cleans_flush : mark = false → cleans flush.
Proof.
  intros Hmark j _. unfold flush, bump. apply wp_bind, wp_bind, wp_get, wp_bind, wp_lift. destruct (add_u 64 _ 1); [|done].
  repeat first [apply wp_modify | apply wp_bind]. split; [done|]. split; [|by rewrite Hmark]. intros i. cbn. by rewrite Tbl.at_map.
Qed.

Lemma cleans_code_write : cleans note_code_write.
Proof. apply keeps_modify. intros j [Hj _]. by split. Qed.

Lemma cleans_bump v f set x :
  (∀ n j, Cache.tlb_w (set n j) = Cache.tlb_w j ∧ Cache.code_pages (set n j) = Cache.code_pages j ∧ Cache.smc_dirty (set n j) = Cache.smc_dirty j) →
  cleans (bump v f set x).
Proof. intros Hs. apply cleans_frames. intros w c d. apply frames_bump. intros n j (<- & <- & <-). apply Hs. Qed.

Lemma cleans_refresh s : cleans (refresh_gen s).
Proof. apply cleans_frames. intros w c d. apply frames_refresh. Qed.

Lemma cleans_take : keeps True (guarded g mark) take_pending (λ _, True).
Proof.
  unfold take_pending. eapply keeps_bind; [by apply (keeps_get _ _ _ (λ _, True))|]. intros l _. apply keeps_seq; [|by apply keeps_ret].
  apply keeps_modify. intros j. by apply framed_guarded.
Qed.

Lemma cleans_may va x : keeps True (guarded g mark) (page_may_have_keys va x) (λ _, True).
Proof.
  unfold page_may_have_keys. eapply keeps_bind; [by apply (keeps_get _ _ _ (λ _, True))|]. intros f _. destruct (_ =? _); [by apply keeps_ret|].
  induction probes as [|p ps IH]; cbn [any_probe]; [by apply keeps_ret|].
  eapply keeps_bind;
    [unfold tbl_get; eapply keeps_bind; [by apply (keeps_get _ _ _ (λ _, True))|]; intros v _; apply (keeps_lift _ _ _ (λ _, True)); by destruct (Tbl.index v _)|].
  intros e _. destruct (_ =? _); [by apply keeps_ret|exact IH].
Qed.

(** Installing leaves the write TLB; the pages grow, and the flag says so. *)
Lemma install_one_grows k paddr bytes insns branchy base j :
  wp True (install_one k paddr bytes insns branchy base)
    (λ fresh j', Cache.tlb_w j' = Cache.tlb_w j ∧ Cache.smc_dirty j' = Cache.smc_dirty j ∧
                 (fresh = false → Cache.code_pages j' = Cache.code_pages j)) j.
Proof.
  unfold install_one, tbl_get. apply wp_bind, wp_bind, wp_get, wp_lift. destruct (Tbl.index _ _) as [s|]; [|done].
  apply wp_bind. eapply wp_mono with (Q := λ _ j', framed (Cache.tlb_w j) (Cache.code_pages j) (Cache.smc_dirty j) j').
  { apply wp_if; intros; [|by apply wp_ret]. apply wp_bind, wp_lift. destruct (add_u 32 _ _); [|done].
    do 3 (apply wp_bind, wp_lift; case_match; [|done]). unfold tbl_set. apply wp_bind, wp_get, wp_bind, wp_lift.
    destruct (Tbl.put _ _ _); [|done]. by apply wp_modify. }
  intros [] j1 (Hw & Hc & Hd). apply wp_bind, wp_get, wp_bind, wp_modify. unfold bump. apply wp_bind, wp_bind, wp_get, wp_bind, wp_lift.
  destruct (add_u 32 _ 1); [|done]. apply wp_modify, wp_ret. cbn. split; [done|]. split; [done|]. rewrite Hc.
  rewrite negb_false_iff, bool_decide_eq_true. set_solver.
Qed.

Lemma install_from_grows paddrs k bytes insns branchy base fl j :
  wp True (install_from k paddrs bytes insns branchy base fl)
    (λ fresh j', Cache.tlb_w j' = Cache.tlb_w j ∧ Cache.smc_dirty j' = Cache.smc_dirty j ∧
                 (fresh = false → fl = false ∧ Cache.code_pages j' = Cache.code_pages j)) j.
Proof.
  revert k fl j. induction paddrs as [|p paddrs IH]; intros k fl j; cbn [install_from]; [by apply wp_ret|].
  apply wp_bind. eapply wp_mono; [apply install_one_grows|]. intros f1 j1 (Hw & Hd & Hc).
  eapply wp_mono; [apply IH|]. intros f2 j2 (Hw2 & Hd2 & Hc2). split; [by rewrite Hw2|]. split; [by rewrite Hd2|].
  intros E. destruct (Hc2 E) as [[-> Hf]%orb_false_elim Hp]. split; [done|]. by rewrite Hp, Hc.
Qed.

(** A page that becomes code makes every entry of the write TLB unusable. *)
Lemma cleans_installed paddrs bytes insns branchy base : cleans (installed paddrs bytes insns branchy base).
Proof.
  intros j [Hj Hm]. unfold installed. apply wp_bind. eapply wp_mono with (Q := λ _ j', j' = j).
  { apply wp_if; intros; [done|by apply wp_ret]. }
  intros [] ? ->. apply wp_bind. eapply wp_mono; [apply install_from_grows|]. intros [] j1 (Hw & Hd & Hc).
  - apply wp_modify. split; [done|]. split; [|cbn; by rewrite Hd]. intros i. cbn. by rewrite Tbl.at_map.
  - apply wp_ret. split; [done|]. destruct Hc as [_ Hc]; [done|]. by apply (framed_guarded g mark j j1).
Qed.
End Ops.
End Clean.
