(* ===== verification/WasmInv.v ===== *)
(** The machine in the browser keeps its invariant ([riscv-machine/src/lib.rs],
    [riscv-wasm/src/lib.rs]): the invariant of the machine, the place of DRAM,
    and that no usable entry of the write TLB is for a page of compiled code. *)

From stdpp Require Import gmap.
From S2P Require Import Prelude Keeps Bits Types Decode Compressed State Stream Cpu Fpu SupTypes SupState SupTrap SupCsr Supervisor MmuSafe SupSafe Plic Virtio VirtioBlk VirtioNet VirtioSafe DeviceBus BusProps BusSafe BusGeometry Machine MachineProps Jit BlockCache BlockProps BlockTrace BlockInv WasmMachine WasmGuard.
Import BlockCache WasmMachine.

(** * DRAM stays where it is *)

Section MachineGeometry.
Context {D : Type} {VD : VirtioDevice D} {DV : Devices D} {PR : Profile} {TG : Target} (g : Geometry).
Import Machine.
Definition machine_geometry (m : Machine.t D) : Geometry := geometry_of (Machine.bus m).
Abbreviation stays m := (keeps True (λ x, machine_geometry x = g) m (λ _, True)).

Lemma sm_bus {A} (c : M (DeviceBus.t D) A) : keeps True (λ b, geometry_of b = g) c (λ _, True) → stays (on_bus c).
Proof. by apply st_part. Qed.
#[local] Hint Extern 1 (keeps True _ (on_bus _) _) => (apply sm_bus; solve [geo]) : geo.

Lemma sm_drain : stays drain_console.
Proof. unfold drain_console. geo. Qed.
#[local] Hint Resolve sm_drain : geo.
Lemma sm_finish n : stays (finish n).
Proof. unfold finish. geo. Qed.
#[local] Hint Resolve sm_finish : geo.
Lemma sm_take : stays take_console.
Proof. unfold take_console. geo. Qed.
Lemma sm_input l : stays (console_input l).
Proof. unfold console_input. geo. Qed.
Lemma sm_profile n : stays (profile_park n).
Proof. unfold profile_park. geo. Qed.
Lemma sm_skipped x : stays (count_skipped x).
Proof. unfold count_skipped. geo. Qed.
#[local] Hint Resolve sm_profile sm_skipped : geo.
Lemma sm_virtual n next wait : stays (idle_virtual n next wait).
Proof. unfold idle_virtual. geo. Qed.
Lemma sm_paced n next before : stays (idle_paced n next before).
Proof. unfold idle_paced. geo. Qed.
#[local] Hint Resolve sm_virtual sm_paced : geo.
Lemma sm_park_until n next : stays (park_until n next).
Proof. unfold park_until. geo. Qed.
#[local] Hint Resolve sm_park_until : geo.
Lemma sm_park n : stays (park n).
Proof. unfold park. geo. Qed.
End MachineGeometry.

(** * The hart under compiled code *)

Section Hart.
Context {B : Type} {BU : Bus B} {PR : Profile} {TG : Target} {L : Libm} {BO : BusOk True B} {LO : LibmOk}.
Abbreviation bkeeps := (keeps True (machine_inv (B := B) True)).

Lemma no_claim : overflow_checks = true → True.
Proof. done. Qed.

(** A register number from outside: the write panics unless it names a register. *)
Lemma any_reg_safe i v : 0 <= i → urange 64 v → bkeeps (Supervisor.cpu_op (Cpu.write_reg i v)) (λ _, True).
Proof.
  intros Hi Hv. destruct (Z.ltb_spec i 32); [apply write_reg_safe; [unfold reg, urange; lia|done]|].
  apply cpu_op_safe. intros c Hc. unfold Cpu.write_reg. apply wp_if; intros; [lia|]. by apply wp_if; intros; [lia|].
Qed.

Definition address_ok (r : Result Z Z) : Prop := match r with Ok p => urange 64 p | Err _ => True end.

Lemma csr_jit_safe csr rd src val kind : 0 <= rd → urange 64 val → bkeeps (csr_jit csr rd src val kind) (λ _, True).
Proof.
  intros Hr Hv. unfold csr_jit. cbv zeta. eapply keeps_bind; [apply bkeeps_any|]. intros s _.
  destruct (_ <? _); [by apply keeps_ret|]. destruct (tvm_traps _ _); [by apply keeps_ret|].
  destruct (_ && _); [by apply keeps_ret|]. eapply keeps_bind; [by apply csr_read_safe|]. intros old Ho. apply keeps_seq.
  - destruct (_ || _); [|by apply keeps_ret]. apply bkeeps_self, csr_write_safe; [done|].
    destruct (kind =? 2); [by apply urange_land_l|]. destruct (negb _); [by apply urange_lor|done].
  - apply keeps_seq; [by apply any_reg_safe|by apply keeps_ret].
Qed.

Lemma jit_translated_safe access va : urange 64 va → bkeeps (Supervisor.debug_translate access va) address_ok.
Proof.
  intros Hv. unfold Supervisor.debug_translate. eapply keeps_bind; [by apply translate_safe|].
  intros [p|t] Hp; by apply keeps_ret.
Qed.

Lemma pending_safe : bkeeps interrupt_pending (λ _, True).
Proof. apply keeps_seq; [by apply sync_safe|]. apply bkeeps_any. Qed.

Lemma fp_addr_safe r2 arg : bkeeps (Supervisor.fp_jit_addr r2 arg) (urange 64).
Proof. eapply keeps_bind; [apply rd_reg_safe|]. intros a _. apply keeps_ret, wrap_range. lia. Qed.

Lemma fp_load_safe r1 r2 arg w read box :
  reads True w read → (∀ v, urange w v → urange 64 (box v)) → bkeeps (Supervisor.fp_jit_load r1 r2 arg read box) (λ _, True).
Proof.
  intros Hrd He. eapply keeps_bind; [apply fp_addr_safe|]. intros va Hv.
  eapply keeps_bind; [by apply translate_safe|]. intros [p|t] Hp; [|by apply keeps_ret].
  eapply keeps_bind; [by apply Hrd|]. intros v Hw. apply keeps_seq; [apply write_freg_safe; auto|].
  apply keeps_seq; [apply set_dirty_safe|by apply keeps_ret].
Qed.

Lemma fp_store_safe r1 r2 arg w write trunc :
  writes True w write → (∀ v, urange 64 v → urange w (trunc v)) → bkeeps (Supervisor.fp_jit_store r1 r2 arg write trunc) (λ _, True).
Proof.
  intros Hwr Ht. eapply keeps_bind; [apply fp_addr_safe|]. intros va Hv.
  eapply keeps_bind; [by apply translate_safe|]. intros [p|t] Hp; [|by apply keeps_ret].
  eapply keeps_bind; [apply bkeeps_get with (R := urange 64)|].
  { intros s Hs. apply Cpu.read_freg_range, Hs. }
  intros v Hv2. apply keeps_seq; [by apply Hwr, Ht|by apply keeps_ret].
Qed.

Lemma fp_arith_safe raw :
  bkeeps (r ← Supervisor.cpu_op (fpu_execute raw);
    if negb (ok r) then mret true
    else
      Supervisor.cpu_op (modify (λ c, c <| Cpu.fcsr := Z.lor (Cpu.fcsr c) (flags r) |>));;
      Supervisor.cpu_op (modify (λ c, c <| Cpu.fs_dirty := Cpu.fs_dirty c || dirty r |>));;
      mret false) (λ _, True).
Proof.
  eapply keeps_bind; [apply cpu_op_safe with (R := λ r, urange 64 (flags r))|].
  - intros c Hc. destruct (wp_total _ _ _ (fpu_execute_effect c Hc raw)) as (r & c' & E & He). unfold wp. rewrite E.
    split; [|eapply fp_effect_wf; [exact Hc|apply Cpu.land31_range|exact He]].
    destruct He as [|fl v Hfl|fl v Hfl]; [done|by apply flags_ok_range..].
  - intros r Hf. destruct (negb _); [by apply keeps_ret|].
    apply keeps_seq; [|apply keeps_seq; [|by apply keeps_ret]]; apply cpu_op_safe, keeps_modify; intros c Hc.
    + apply Cpu.set_fcsr_wf; [done|]. apply urange_lor; [lia|apply Hc|done].
    + by apply Cpu.set_fs_dirty_wf.
Qed.

Lemma fp_jit_safe kind r1 r2 arg : bkeeps (Supervisor.fp_jit kind r1 r2 arg) (λ _, True).
Proof.
  destruct (reads_bus (B := B) True) as (_ & _ & R32 & R64). destruct (writes_bus (B := B) True) as (_ & _ & W32 & W64).
  unfold Supervisor.fp_jit. eapply keeps_bind; [apply bkeeps_any|]. intros s _. destruct (_ =? 0); [by apply keeps_ret|].
  eapply (keeps_bind _ _ _ _ (λ _, True)).
  - destruct (kind =? 0); [by apply fp_load_safe with (w := 64)|].
    destruct (kind =? 1).
    { apply fp_load_safe with (w := 32); [done|]. intros v Hv. apply urange_lor; [lia|done|by apply (urange_weaken 32)]. }
    destruct (kind =? 2); [by apply fp_store_safe with (w := 64)|].
    destruct (kind =? 3); [|apply fp_arith_safe].
    apply fp_store_safe with (w := 32); [done|]. intros v _. apply wrap_range. lia.
  - intros [] _; [by apply keeps_ret|]. apply keeps_seq; [apply bkeeps_upd, settle_fs_wf|by apply keeps_ret].
Qed.
End Hart.

(** * Looking up in the cache *)

Section Lookup.
Context {B : Type} {BU : Bus B} {PR : Profile} {TG : Target} {L : Libm} {BO : BusOk True B} {LO : LibmOk}.
Context (w : Tbl.t TlbEntry.t) (c : gset Z) (d : bool).

Definition both (p : Cache.t * (Sup.t * B)) : Prop := framed w c d p.1 ∧ machine_inv True p.2.
Abbreviation frames m := (keeps True (framed w c d) m (λ _, True)).
Abbreviation jkeeps := (keeps True both).

Lemma both_cache {A} (m : M Cache.t A) : frames m → jkeeps (on_fst m) (λ _, True).
Proof. apply keeps_on_fst. Qed.
Lemma both_hart {A} (m : M (Sup.t * B) A) R : keeps True (machine_inv True) m R → jkeeps (on_snd m) R.
Proof. apply keeps_on_snd. Qed.

Lemma both_set i tag st : frames (set_state i tag st).
Proof. by apply frames_tbl_set. Qed.

Lemma both_form i paddr : jkeeps (form i paddr) (λ _, True).
Proof.
  unfold form. eapply keeps_bind; [by apply both_hart, decode_run_keeps|]. intros run _. destruct run; apply both_cache.
  - apply keeps_seq; [apply both_set|by apply frames_bump].
  - apply keeps_seq; [apply both_set|]. apply keeps_seq; [by apply frames_bump|by apply frames_upd].
Qed.

Lemma both_start : jkeeps on_block_start (λ _, True).
Proof.
  unfold on_block_start. apply keeps_seq; [by apply both_cache, frames_bump|].
  eapply keeps_bind; [apply both_hart, bkeeps_get with (R := urange 64); intros s Hs; apply Hs|]. intros pc Hpc.
  eapply keeps_bind; [by apply both_hart, jit_translated_safe|]. intros [paddr|e] _; [|by apply keeps_ret]. cbv zeta.
  eapply keeps_bind; [apply both_cache, frames_tbl_get|]. intros slot _. destruct (negb _).
  { apply keeps_seq; [apply both_cache, frames_count_bin|]. apply keeps_seq; [apply both_cache, both_set|by apply keeps_ret]. }
  destruct (Slot.state slot); try by apply keeps_ret.
  eapply keeps_bind; [apply both_cache, frames_lift|]. intros n' _. destruct (n' <? HOT).
  - apply keeps_seq; [apply both_cache, both_set|by apply keeps_ret].
  - apply keeps_seq; [apply both_form|by apply keeps_ret].
Qed.

Lemma both_lookup : jkeeps lookup (λ _, True).
Proof.
  unfold lookup. eapply keeps_bind; [apply both_hart, (bkeeps_any True id)|]. intros s _. cbv zeta.
  eapply keeps_bind; [apply both_cache, frames_tbl_get|]. intros v _. destruct (_ && _).
  { apply keeps_seq; [apply both_cache, frames_count_hit|by apply keeps_ret]. }
  eapply keeps_bind; [apply both_start|].
  intros [h|] _; [|by apply keeps_ret]. apply keeps_seq; [apply both_cache, frames_count_hit|].
  eapply keeps_bind; [apply both_hart, (bkeeps_any True id)|]. intros s' _.
  apply keeps_seq; [apply both_cache, frames_remember|by apply keeps_ret].
Qed.
End Lookup.
