(* ===== verification/WasmRun.v ===== *)
(** Running the machine in the browser ([riscv-machine/src/lib.rs],
    [riscv-wasm/src/lib.rs]): every turn, and everything that generated code can
    do, keeps the machine's invariant and leaves no usable entry of the write
    TLB for a page of compiled code. *)

From stdpp Require Import gmap.
From S2P Require Import Prelude Keeps Bits Types Decode Compressed State Stream Cpu Fpu SupTypes SupState SupTrap SupCsr Supervisor MmuSafe SupSafe Plic Virtio VirtioBlk VirtioNet VirtioSafe DeviceBus BusProps BusSafe BusGeometry Machine MachineProps Jit BlockCache BlockProps BlockTrace BlockInv WasmMachine WasmGuard WasmInv.
Import BlockCache WasmMachine.

Section Run.
Context {D : Type} {VD : VirtioDevice D} {DV : Devices D} {DO : DeviceOk D} {DS : DevicesOk D}.
Context {PR : Profile} {TG : Target} {Ht : TargetOk TG} {L : Libm} {LO : LibmOk} {TB : BlockTable D} {LY : Layout}.

(** ** What generated code does

    A block computes on the registers, reads what it likes, stores into DRAM
    through an inlined TLB, keeps the return stack, and calls its imports. *)
Inductive generated : ∀ {A : Type}, M (t D) A → Prop :=
| gn_ret {A} (a : A) : generated (mret a)
| gn_bind {A A'} (m : M (t D) A) (k : A → M (t D) A') : generated m → (∀ a, generated (k a)) → generated (m ≫= k)
| gn_read {A} (f : t D → A) : generated (get f)
| gn_regs f : (∀ c, Cpu.wf c → Cpu.wf (f c)) → generated (upd_cpu f)
| gn_ras v sp : generated (on_jit (modify (λ j, j <| Cache.chain_ras := v |> <| Cache.ras_sp := sp |>)))
| gn_dram off bytes : urange usize_bits off → Forall is_byte bytes → (0 < length bytes <= 8)%nat →
    generated (on_mach (Machine.on_bus (DeviceBus.dram_store off bytes)))
| gn_load8 a pc : generated (load8u (as_u64 a) (as_u64 pc))
| gn_load16 a pc : generated (load16u (as_u64 a) (as_u64 pc))
| gn_load32 a pc : generated (load32u (as_u64 a) (as_u64 pc))
| gn_load64 a pc : generated (load64 (as_u64 a) (as_u64 pc))
| gn_store8 a v pc : generated (store8 (as_u64 a) (as_u64 v) (as_u64 pc))
| gn_store16 a v pc : generated (store16 (as_u64 a) (as_u64 v) (as_u64 pc))
| gn_store32 a v pc : generated (store32 (as_u64 a) (as_u64 v) (as_u64 pc))
| gn_store64 a v pc : generated (store64 (as_u64 a) (as_u64 v) (as_u64 pc))
| gn_fp packed arg pc : generated (fp packed (as_u64 arg) (as_u64 pc))
| gn_csr csr' rd src val kind pc : generated (WasmMachine.csr csr' rd src (as_u64 val) kind (as_u64 pc)).

(** ** The invariant *)

Context (g : Geometry) (mark : bool).

(** [mark] says that a store to a page of code has been noticed. *)
Record wasm_wf (m : t D) : Prop := mk_wasm_wf {
  ww_mach : machine_wf (mach m);
  ww_geometry : machine_geometry (mach m) = g;
  ww_guard : guarded (D := D) g mark (jit m);
  ww_fault : urange 64 (jit_fault_pc m);
}.

Abbreviation wkeeps := (keeps True wasm_wf).
Abbreviation keeps_wf m := (keeps True wasm_wf m (λ _, True)).


Lemma wk_ret {A} (a : A) : keeps_wf (mret a).
Proof. by apply keeps_ret. Qed.
Lemma wk_get {A} (f : t D → A) : keeps_wf (get f).
Proof. by apply keeps_get. Qed.
Lemma wk_lift {A} (o : option A) : keeps_wf (lift o).
Proof. apply keeps_lift. by destruct o. Qed.
Lemma wk_bind {A A'} (m : M (t D) A) (k : A → M (t D) A') : keeps_wf m → (∀ a, keeps_wf (k a)) → keeps_wf (m ≫= k).
Proof. intros Hm Hk. eapply keeps_bind; [exact Hm|]. intros a _. apply Hk. Qed.
Lemma wk_upd f : (∀ m, wasm_wf m → wasm_wf (f m)) → keeps_wf (modify f).
Proof. apply keeps_modify. Qed.

(** An update of the fields that only count. *)
Lemma wk_other f :
  (∀ m, mach (f m) = mach m ∧ jit (f m) = jit m ∧ jit_fault_pc (f m) = jit_fault_pc m) → keeps_wf (modify f).
Proof.
  intros Hf. apply wk_upd. intros m []. destruct (Hf m) as (E1 & E2 & E3). constructor; by rewrite ?E1, ?E2, ?E3.
Qed.

Lemma wk_mach {A} (c : M (Machine.t D) A) R :
  keeps True machine_wf c R → keeps True (λ x, machine_geometry x = g) c (λ _, True) → wkeeps (on_mach c) R.
Proof.
  intros H1 H2. apply (keeps_zoom _ _ (λ x, machine_wf x ∧ machine_geometry x = g)); [by apply keeps_both|by intros m []|].
  intros m x [] [Hx Hg]. by constructor.
Qed.

Lemma wk_bus {A} (c : M (DeviceBus.t D) A) R :
  keeps True bus_wf c R → keeps True (λ b, geometry_of b = g) c (λ _, True) → wkeeps (on_mach (Machine.on_bus c)) R.
Proof. intros H1 H2. apply wk_mach; [by apply mk_bus|by apply sm_bus]. Qed.

Lemma wk_hart {A} (c : M (Sup.t * DeviceBus.t D) A) R :
  keeps True (machine_inv (BO := placed_bus g) True) c R → wkeeps (with_hart c) R.
Proof.
  intros Hc. unfold with_hart, on_mach, Machine.on_hart. intros m [Hm Hg Hcl Hf]. apply wp_zoom, wp_zoom. eapply wp_mono; [apply Hc|].
  - split; [apply Hm|]. split; [apply Hm|exact Hg].
  - intros a [s b] (Hr & Hs & Hb & Hg'). split; [done|]. constructor; [|exact Hg'|done|done]. by destruct Hm.
Qed.

Lemma wk_jit {A} (c : M Cache.t A) R : keeps True (guarded (D := D) g mark) c R → wkeeps (on_jit c) R.
Proof.
  intros Hc. apply (keeps_zoom _ _ (guarded (D := D) g mark)); [done|by intros m []|]. intros m j [] Hj. by constructor.
Qed.

Lemma wk_hart_upd f : (∀ s, sup_wf s → sup_wf (f s)) → keeps_wf (upd_hart f).
Proof.
  intros Hf. apply wk_upd. intros m [Hm Hg Hc Hp]. constructor; [|done..]. destruct Hm. constructor; try done. by apply Hf.
Qed.

Lemma wk_cpu f : (∀ c, Cpu.wf c → Cpu.wf (f c)) → keeps_wf (upd_cpu f).
Proof. intros Hf. apply wk_hart_upd. intros s Hs. apply set_cpu_wf; [apply Hf, Hs|done]. Qed.

Lemma wk_lookup : keeps_wf (on_cache_hart lookup).
Proof.
  intros m [Hm Hg Hc Hp]. unfold on_cache_hart. apply wp_zoom.
  eapply wp_mono; [apply (both_lookup (BO := placed_bus g) (Cache.tlb_w (jit m)) (Cache.code_pages (jit m)) (Cache.smc_dirty (jit m)))|].
  - split; [done|]. split; [apply Hm|]. split; [apply Hm|exact Hg].
  - intros h [j [s b]] (_ & Hf & Hs & Hb & Hg'). split; [done|]. constructor; [by destruct Hm|exact Hg'| |done].
    by apply (framed_guarded g mark (jit m)).
Qed.

(** ** Counters *)

Create HintDb wasm.
#[local] Hint Resolve wk_ret wk_get wk_lift : wasm.
#[local] Hint Extern 1 (keeps True _ (modify _) _) => (apply wk_other; done) : wasm.

(** Follow the syntax of a computation. *)
Ltac wasm :=
  repeat first
    [ solve [eauto 2 with wasm nocore]
    | progress cbv zeta
    | apply wk_bind; [|intros]
    | match goal with
      | |- keeps _ _ (match ?x with _ => _ end) _ => destruct x
      end ].

Lemma wk_bump_bin f set i :
  (∀ l m, mach (set l m) = mach m ∧ jit (set l m) = jit m ∧ jit_fault_pc (set l m) = jit_fault_pc m) → keeps_wf (bump_bin f set i).
Proof. intros Hs. unfold bump_bin. wasm. Qed.
Lemma wk_add_to f set n :
  (∀ x m, mach (set x m) = mach m ∧ jit (set x m) = jit m ∧ jit_fault_pc (set x m) = jit_fault_pc m) → keeps_wf (add_to f set n).
Proof. intros Hs. unfold add_to. wasm. Qed.
#[local] Hint Extern 1 (keeps True _ (bump_bin _ _ _) _) => (apply wk_bump_bin; done) : wasm.
#[local] Hint Extern 1 (keeps True _ (add_to _ _ _) _) => (apply wk_add_to; done) : wasm.

Lemma wk_miss i : keeps_wf (miss i).
Proof. unfold miss. wasm. Qed.
Lemma wk_classify pc : keeps_wf (classify_chain_miss pc).
Proof. unfold classify_chain_miss. wasm. Qed.
Lemma wk_classify_tlb a s n x y : keeps_wf (classify_tlb_miss a s n x y).
Proof. unfold classify_tlb_miss. wasm. Qed.
#[local] Hint Resolve wk_miss wk_classify wk_classify_tlb : wasm.
Lemma wk_count_tlb a s n x y : keeps_wf (count_tlb_miss a s n x y).
Proof. unfold count_tlb_miss. wasm. Qed.
#[local] Hint Resolve wk_count_tlb : wasm.

(** ** Imports *)

Lemma wk_fault pc : urange 64 pc → keeps_wf (fault_at pc).
Proof.
  intros Hpc. unfold fault_at. wasm; [by apply wk_cpu; intros c []; constructor|].
  apply wk_upd. intros m []. by constructor.
Qed.

#[local] Hint Resolve wk_fault : wasm.

Lemma wk_refresh : keeps_wf refresh.
Proof. unfold refresh. wasm. apply wk_jit, cleans_refresh. Qed.
#[local] Hint Resolve wk_refresh : wasm.

Lemma wk_load size read addr pc w :
  urange 64 addr → urange 64 pc → (∀ pa, urange 64 pa → keeps True bus_wf (read pa) (urange w)) →
  (∀ pa, keeps True (λ b, geometry_of b = g) (read pa) (λ _, True)) → keeps_wf (jit_load size read addr pc).
Proof.
  intros Ha Hpc Hr Hg. unfold jit_load. eapply keeps_bind; [by apply wk_hart, jit_translated_safe|].
  intros [pa|e] Hpa.
  - unfold page_of. wasm. 1: apply wk_jit, cleans_fill_r.
    all: apply wk_bus; [eapply keeps_mono; [by apply Hr|done]|apply Hg].
  - wasm.
Qed.

Lemma wk_page pa : wkeeps (page_of pa) (λ r, ∀ h, r = Some h → hosts (D := D) g h pa).
Proof.
  intros m Hm. unfold page_of. apply wp_bind, wp_get, wp_lift. destruct (DeviceBus.dram_page_host_addr _ _ _) as [r|] eqn:E; [|done].
  split; [|done]. intros h ->. exists (Machine.bus (mach m)). split; [apply Hm|exact E].
Qed.

(** A store to a page of code leaves its mark, and no entry. *)
Lemma wk_store_entry addr page pa :
  urange 64 pa → hosts (D := D) g page pa →
  keeps_wf (code ← get (λ m, is_code_page (Z.shiftr pa 12) (jit m));
            if code : bool then on_jit note_code_write else on_jit (fill_tlb addr page true)).
Proof.
  intros Hpa Hh m Hm. apply wp_bind, wp_get. apply wp_if; intros Hcode.
  - by apply (wk_jit _ _ (cleans_code_write (D := D) g mark)).
  - unfold on_jit. apply wp_zoom. eapply wp_mono; [apply (fill_w_clean (D := D) g mark addr page pa)|]; [done..| |apply Hm|].
    { by apply bool_decide_eq_false in Hcode. }
    intros [] j Hj. split; [done|]. by destruct Hm.
Qed.

Lemma wk_store size write addr val pc :
  placed g → urange 64 addr → urange 64 pc →
  (∀ pa, urange 64 pa → keeps True bus_wf (write pa (wrap (8 * size) val)) (λ _, True)) →
  (∀ pa v, keeps True (λ b, geometry_of b = g) (write pa v) (λ _, True)) → keeps_wf (jit_store size write addr val pc).
Proof.
  intros Hpl Ha Hpc Hw Hg. unfold jit_store. eapply keeps_bind; [by apply wk_hart, jit_translated_safe|].
  intros [pa|e] Hpa; [|wasm]. eapply keeps_bind; [apply wk_page|]. intros page Hpage.
  apply keeps_seq; [wasm|]. apply keeps_seq; [|by apply wk_bus; [apply Hw|apply Hg]].
  destruct page as [page|]; [|wasm]. apply wk_store_entry; auto.
Qed.

Lemma wk_fp packed arg pc : urange 64 pc → keeps_wf (fp packed arg pc).
Proof.
  intros Hpc. unfold fp. cbv zeta. apply wk_bind; [apply wk_hart, fp_jit_safe|]. intros []; wasm.
Qed.

Lemma wk_csr csr' rd src val kind pc : urange 64 val → urange 64 pc → keeps_wf (WasmMachine.csr csr' rd src val kind pc).
Proof.
  intros Hv Hpc. unfold WasmMachine.csr. apply wk_bind; [apply wk_hart, csr_jit_safe; [|done]; apply wrap_range; lia|].
  intros []; [wasm|]. apply wk_bind; [wasm|]. intros s. apply wk_bind.
  - destruct (_ && _); [apply wk_hart, pending_safe|wasm].
  - intros []; [|wasm]. apply wk_fault, wrap_range. lia.
Qed.

Lemma wk_generated {A} (m : M (t D) A) : placed g → generated m → keeps_wf m.
Proof.
  assert (H64 : ∀ w x, 0 <= w → urange w (wrap w x)) by (intros; by apply wrap_range).
  intros Hpl. induction 1; try (by wasm); try (eapply wk_store; [done|apply H64; lia..| |]); try (eapply wk_load; [apply H64; lia..| |]).
  - by apply wk_cpu.
  - apply wk_jit, keeps_modify. intros j. by apply framed_guarded.
  - apply wk_bus; [by apply bk_store|apply st_store].
  - intros. apply bk_read_u8.
  - intros. apply st_read_u8.
  - intros. apply bk_read_u16.
  - intros. apply st_read_u16.
  - intros. apply bk_read_u32.
  - intros. apply st_read_u32.
  - intros. apply bk_read_u64.
  - intros. apply st_read_u64.
  - intros. apply bk_write_u8, H64; lia.
  - intros. apply st_write_u8.
  - intros. apply bk_write_u16.
  - intros. apply st_write_u16.
  - intros. apply bk_write_u32, H64; lia.
  - intros. apply st_write_u32.
  - intros. apply bk_write_u64, H64; lia.
  - intros. apply st_write_u64.
  - apply wk_fp, H64; lia.
  - apply wk_csr; apply H64; lia.
Qed.


(** ** Turns *)

Section Turns.
Context (Hpl : placed g) (Hgen : ∀ i pc, generated (call_block i pc)).
(** [jit_next_pc] is a [u64]. *)
Context (Hnext : ∀ i pc m m', call_block i pc m = Some (tt, m') → urange 64 (Cpu.jit_next_pc (Sup.cpu (hart m')))).

Lemma jit_field_wf f : (∀ c, Cpu.x (f c) = Cpu.x c ∧ Cpu.f (f c) = Cpu.f c ∧ Cpu.pc (f c) = Cpu.pc c ∧ Cpu.fcsr (f c) = Cpu.fcsr c) →
  ∀ c, Cpu.wf c → Cpu.wf (f c).
Proof. intros Hf c []. destruct (Hf c) as (E1 & E2 & E3 & E4). by constructor; rewrite ?E1, ?E2, ?E3, ?E4. Qed.
#[local] Hint Extern 1 (keeps True _ (upd_cpu _) _) => (apply wk_cpu, jit_field_wf; intros; by split_and!) : wasm.
#[local] Hint Extern 1 (keeps True _ (upd_hart _) _) => (apply wk_hart_upd; wf_upd; fail) : wasm.

Lemma wk_to_fault :
  keeps_wf (upd_cpu (λ c, c <| Cpu.jit_fault := 0 |>);;
            fpc ← get jit_fault_pc;
            upd_cpu (λ c, c <| Cpu.pc := fpc |>);;
            upd_hart (λ s, s <| Sup.block_start := false |>);;
            mret 1).
Proof.
  apply keeps_seq; [wasm|]. eapply keeps_bind; [apply (keeps_get _ _ _ (urange 64)); intros m Hm; apply Hm|].
  intros fpc Hf. apply keeps_seq; [|wasm]. apply wk_cpu. intros c Hc. by apply Cpu.set_pc_wf.
Qed.

Lemma jump_wf m : urange 64 (Cpu.jit_next_pc (Sup.cpu (hart m))) → wasm_wf m →
  wp True (upd_cpu (λ c, c <| Cpu.pc := Cpu.jit_next_pc c |>)) (λ _ m', wasm_wf m') m.
Proof.
  intros Hn [Hm Hg Hc Hp]. apply wp_modify. constructor; [|done..]. destruct Hm. constructor; try done.
  apply set_cpu_wf; [|done]. apply Cpu.set_pc_wf; [by apply wf_cpu|done].
Qed.

Lemma wk_run_compiled hit : keeps_wf (run_compiled hit).
Proof.
  unfold run_compiled. apply wk_bind; [wasm|]. intros _. apply wk_bind; [wasm|]. intros pc m Hm. apply wp_bind.
  pose proof (wk_generated _ Hpl (Hgen (Hit.idx hit) pc) m Hm) as Hk.
  pose proof (Hnext (Hit.idx hit) pc m) as Hn. unfold wp at 1. unfold wp in Hk.
  destruct (call_block _ _ m) as [[[] m']|]; [|done]. specialize (Hn m' eq_refl). destruct Hk as [_ Hm'].
  apply wp_bind, wp_get. apply wp_if; intros Hfault; [exact (wk_to_fault m' Hm')|].
  apply wp_bind. eapply wp_mono; [by apply jump_wf|]. intros [] m2 Hm2. revert m2 Hm2.
  match goal with |- ∀ m2, _ → wp True ?k _ m2 => change (keeps_wf k) end. wasm.
Qed.
#[local] Hint Resolve wk_run_compiled wk_lookup : wasm.

Lemma wk_chain fuel : ∀ hit budget cmax done, keeps_wf (chain_from fuel hit budget cmax done).
Proof.
  induction fuel as [|fuel IH]; intros hit budget cmax n; cbn [chain_from]; [wasm|].
  wasm. all: apply IH.
Qed.

Lemma wk_run_chain fuel first budget : keeps_wf (run_chain fuel first budget).
Proof. unfold run_chain. wasm. apply wk_chain. Qed.
#[local] Hint Resolve wk_run_chain : wasm.

Lemma advance_wf s : sup_wf s → sup_wf (Sup.advance_chain_gen s).
Proof.
  wf_upd. destruct_and!. split_and!; try done; apply wrap_range; lia.
Qed.

Lemma wk_flush_pages n : ∀ i hit, keeps_wf (flush_pages n i hit).
Proof.
  induction n as [|n IH]; intros i hit; cbn [flush_pages]; [wasm|].
  wasm; [apply wk_jit, cleans_invalidate|apply wk_jit, cleans_may].
Qed.

Lemma wk_flush_pending : keeps_wf flush_pending.
Proof.
  unfold flush_pending. wasm; [apply wk_flush_pages|apply wk_hart_upd; wf_upd; lia|..]; try (apply wk_jit, cleans_bump; done).
  apply wk_hart_upd, advance_wf.
Qed.

Lemma wk_check_icache : mark = false → keeps_wf check_icache.
Proof. intros Hmark. unfold check_icache. wasm. by apply wk_jit, cleans_flush. Qed.
#[local] Hint Resolve wk_flush_pending wk_check_icache : wasm.

Lemma wk_enterable : keeps_wf enterable.
Proof. unfold enterable. wasm; [apply wk_hart, pending_safe|apply wk_jit, cleans_refresh]. Qed.

Lemma wk_count_interp : keeps_wf count_interp.
Proof.
  unfold count_interp. eapply keeps_bind; [apply (keeps_get _ _ _ wasm_wf); done|]. intros m Hm. destruct (interp_hist_on m); [|wasm].
  apply wk_bind; [apply wk_hart|intros; wasm]. eapply keeps_mono; [apply debug_fetch_safe; [done|apply Hm]|done].
Qed.

Lemma wk_prof f x : keeps_wf (bump_prof f x).
Proof.
  unfold bump_prof. apply wk_bind; [wasm|]. intros p. cbv zeta. intros m Hm. apply wp_bind, wp_get, wp_bind, wp_lift.
  destruct (Machine.prof_insns (mach m) !! _) as [v|] eqn:E; [|done]. apply wp_bind, wp_lift.
  pose proof (wk_ret tt m Hm) as _. unfold add_u. destruct (checked_u 64 (v + x)) as [v'|] eqn:Ev; [|done]. apply wp_modify. split; [done|].
  destruct Hm as [Hm Hg Hc Hp]. constructor; [|done..]. destruct Hm as [H1 H2 H3 H4 [H5 H6] H7]. constructor; try done. cbn.
  split; [by rewrite length_insert|]. apply Forall_insert; [done|].
  pose proof (keeps_checked True (λ _ : unit, True) 64 (v + x) ltac:(lia) (λ _, I) tt I) as Hk. unfold wp, lift in Hk. rewrite Ev in Hk. apply Hk.
Qed.
#[local] Hint Resolve wk_enterable wk_count_interp wk_prof : wasm.

Lemma wk_interpret n : keeps_wf (interpret n).
Proof.
  unfold interpret. wasm; [apply wk_hart, step_keeps; done|apply wk_mach; [apply mk_park|apply sm_park]].
Qed.

Lemma wk_tick : keeps_wf (on_mach (Machine.on_bus DeviceBus.tick)).
Proof. apply wk_bus; [apply bk_tick|apply st_tick]. Qed.
#[local] Hint Resolve wk_interpret wk_tick : wasm.

Lemma wk_turn fuel n budget : mark = false → keeps_wf (turn fuel n budget).
Proof. intros Hmark. unfold turn. wasm. apply wk_bus; [apply bk_tick_n; lia|apply st_tick_n]. Qed.
#[local] Hint Resolve wk_turn : wasm.

Lemma wk_run_loop fuel : mark = false → ∀ n budget, keeps_wf (run_loop fuel n budget).
Proof.
  intros Hmark.
  induction fuel as [|fuel IH]; intros n budget; cbn [run_loop]; [wasm|].
  wasm. apply wk_mach; [apply mk_finish|apply sm_finish].
Qed.

Lemma wk_run fuel budget : mark = false → keeps_wf (run fuel budget).
Proof.
  intros Hmark.  unfold run. wasm; [|by apply wk_run_loop]. apply wk_mach; [machine_upd|by apply st_upd].
Qed.
End Turns.
End Run.
