(* ===== verification/WasmProps.v ===== *)
(** What the machine in the browser guarantees ([riscv-machine/src/lib.rs],
    [riscv-wasm/src/lib.rs]): a store that compiled code does itself never lands
    on a page of compiled code, the mark that a store through the imports leaves
    discards the blocks, and [run] ends. *)

From stdpp Require Import gmap.
From S2P Require Import Prelude Keeps Bits Types Decode Compressed State Stream Cpu Fpu SupTypes SupState SupTrap SupCsr Supervisor MmuSafe SupSafe Plic Virtio VirtioBlk VirtioNet VirtioSafe DeviceBus BusProps BusSafe BusGeometry Machine MachineProps Jit BlockCache BlockProps BlockTrace BlockInv WasmMachine WasmGuard WasmInv WasmRun.
Import BlockCache WasmMachine.

(** What happens to the machine: the host runs it, builds and installs modules,
    discards blocks, types, collects output and sets switches; and the parts that
    a run is made of, down to single pieces of generated code, so that the states
    in which a block is entered or left are among those reached. *)
Inductive vm_step {D} `{Devices D} `{Profile} `{Target} `{Libm} {TB : BlockTable D} {LY : Layout} : t D → t D → Prop :=
| vs_run fuel budget r m m' : run fuel budget m = Some (r, m') → vm_step m m'
| vs_turn fuel n budget r m m' : turn fuel n budget m = Some (r, m') → vm_step m m'
| vs_tick m m' : on_mach (Machine.on_bus DeviceBus.tick) m = Some (tt, m') → vm_step m m'
| vs_pending m m' : flush_pending m = Some (tt, m') → vm_step m m'
| vs_icache m m' : check_icache m = Some (tt, m') → vm_step m m'
| vs_enter hit m m' : enterable m = Some (hit, m') → vm_step m m'
| vs_code {A} (c : M (t D) A) a m m' : generated c → c m = Some (a, m') → vm_step m m'
| vs_next hit m m' : on_cache_hart lookup m = Some (hit, m') → vm_step m m'
| vs_interpret n r m m' : interpret n m = Some (r, m') → vm_step m m'
| vs_build r m m' : jit_build m = Some (r, m') → vm_step m m'
| vs_installed base m m' : jit_installed base m = Some (tt, m') → vm_step m m'
| vs_flush m m' : jit_flush m = Some (tt, m') → vm_step m m'
| vs_input bytes m m' : Forall is_byte bytes → on_mach (Machine.console_input bytes) m = Some (tt, m') → vm_step m m'
| vs_output out m m' : on_mach Machine.take_console m = Some (out, m') → vm_step m m'
| vs_clock ns m : urange 64 ns → vm_step m (set_mach ((mach m) <| Machine.host_ns := ns |>) m)
| vs_enable on m : vm_step m (m <| jit_enabled := on |>)
| vs_histograms on m : vm_step m (m <| interp_hist_on := on |>)
| vs_chain_max n m : vm_step m (m <| chain_max := n |>).

Section Props.
Context {D : Type} {VD : VirtioDevice D} {DV : Devices D} {DO : DeviceOk D} {DS : DevicesOk D}.
Context {PR : Profile} {TG : Target} {Ht : TargetOk TG} {L : Libm} {LO : LibmOk} {TB : BlockTable D} {LY : Layout}.

Section Host.
Context (g : Geometry) (mark : bool).
Abbreviation keeps_wf m := (keeps True (wasm_wf (D := D) g mark) m (λ _, True)).

Lemma wk_build : keeps_wf jit_build.
Proof.
  unfold jit_build. apply wk_bind; [apply wk_jit, cleans_take|]. intros [|p l]; [by apply wk_ret|].
  destruct (compile_many_into_table _ _ _ _) as [[module n]|]; [|by apply wk_ret].
  apply wk_bind; [by apply wk_other|]. intros. by apply wk_ret.
Qed.

Lemma wk_installed base : keeps_wf (jit_installed base).
Proof.
  unfold jit_installed. apply wk_bind; [apply wk_get|]. intros [|e l]; [by apply wk_ret|].
  apply wk_bind; [apply wk_jit, cleans_installed|]. intros. by apply wk_other.
Qed.

Lemma wk_input bytes : Forall is_byte bytes → keeps_wf (on_mach (Machine.console_input bytes)).
Proof. intros. apply wk_mach; [by apply mk_bus, bk_push_input|apply sm_input]. Qed.
Lemma wk_output : keeps_wf (on_mach Machine.take_console).
Proof. apply wk_mach; [apply mk_take|apply sm_take]. Qed.
Lemma wk_finish n : keeps_wf (on_mach (Machine.finish n)).
Proof. apply wk_mach; [apply mk_finish|apply sm_finish]. Qed.
Lemma wk_batch n : keeps_wf (on_mach (Machine.on_bus (DeviceBus.tick_n (Z.max 0 n)))).
Proof. apply wk_bus; [apply bk_tick_n; lia|apply st_tick_n]. Qed.
Lemma wk_clock ns m : urange 64 ns → wasm_wf g mark m → wasm_wf g mark (set_mach ((mach m) <| Machine.host_ns := ns |>) m).
Proof. intros Hns []. constructor; [|done..]. by apply set_clock_wf. Qed.

(** What [keeps] says of one run. *)
Lemma kept {A} (c : M (t D) A) a x y : keeps_wf c → c x = Some (a, y) → wasm_wf g mark x → wasm_wf g mark y.
Proof. intros Hc E Hx. specialize (Hc x Hx). unfold wp in Hc. rewrite E in Hc. apply Hc. Qed.
End Host.

Section Steps.
Context (g : Geometry).
Abbreviation keeps_wf m := (keeps True (wasm_wf (D := D) g false) m (λ _, True)).

Lemma wk_jit_flush : keeps_wf jit_flush.
Proof. unfold jit_flush. apply wk_bind; [by apply wk_jit, cleans_flush|]. intros. by apply wk_other. Qed.

Context (Hpl : placed g) (Hgen : ∀ i pc, generated (call_block i pc)).
Context (Hnext : ∀ i pc m m', call_block i pc m = Some (tt, m') → urange 64 (Cpu.jit_next_pc (Sup.cpu (hart m')))).

Lemma vm_step_wf m m' : vm_step m m' → wasm_wf g false m → wasm_wf g false m'.
Proof.
  destruct 1; try (by eapply kept; [|done];
    first [apply wk_build|apply wk_installed|apply wk_input|apply wk_output|apply wk_jit_flush|apply wk_run|apply wk_turn|apply wk_tick
          |apply wk_flush_pending|apply wk_check_icache|apply wk_enterable|apply wk_lookup|apply wk_interpret|apply wk_generated]).
  - by apply wk_clock.
  - by intros [].
  - by intros [].
  - by intros [].
Qed.

Lemma fresh_wasm_wf m : machine_wf m → machine_geometry m = g → wasm_wf g false (fresh m).
Proof. intros Hm Hg. constructor; [done..| |by unfold urange]. split; [|done]. intros i E. by destruct E. Qed.
End Steps.

(** C4: a store that compiled code does itself never lands on a page of compiled
    code.  Such a store goes straight to memory when the probe of the write TLB
    that was compiled in front of it hits, and every other store goes through the
    imported function.  Take blocks that are made of register updates, reads,
    stores anywhere in DRAM, the return stack and the imported functions, a
    well-formed machine whose DRAM starts at its usual address and lies in the
    first 4 GiB of the host, and any sequence of runs, turns, parts of turns,
    pieces of generated code and calls by the host.  Whenever then a probe for a
    store of any size hits, under a generation other than 0, the host address it
    gives is that of bytes that all lie in DRAM and in a page that holds no
    compiled code; and the machine is well-formed, its DRAM where it was.  (Of
    the imported function this is not so: it looks at the page of the first byte
    only, [straddling_store_unmarked].) *)
Theorem code_pages_guarded (m0 : Machine.t D) (m : t D) :
  (∀ i pc, generated (call_block i pc)) →
  (∀ i pc x x', call_block i pc x = Some (tt, x') → urange 64 (Cpu.jit_next_pc (Sup.cpu (hart x')))) →
  machine_wf m0 → DeviceBus.dram_base (Machine.bus m0) = DRAM_BASE → placed (machine_geometry m0) →
  rtc vm_step (fresh m0) m →
  machine_wf (mach m) ∧ machine_geometry (mach m) = machine_geometry m0 ∧
  ∀ addr size h, Cache.data_gen (jit m) ≠ 0 → store_probe addr size (jit m) = Some h →
    let off := h - dram_ptr in
    0 <= off ∧ off + size <= DeviceBus.dram_size (Machine.bus (mach m)) ∧
    ∀ k, 0 <= k < size → is_code_page (Z.shiftr (DRAM_BASE + off + k) 12) (jit m) = false.
Proof.
  intros Hgen Hnext Hm0 Hb Hpl Hr.
  assert (Hm : wasm_wf (machine_geometry m0) false m).
  { revert Hr. apply (rtc_ind_r (wasm_wf (machine_geometry m0) false)); [by apply fresh_wasm_wf|].
    intros y z _ Hs Hy. by eapply vm_step_wf. }
  destruct Hm as [Hm Hg [Hc _] _]. split; [done|]. split; [done|]. intros addr size h Hgen0 Hp. cbv zeta.
  assert (Hbase : geo_base (machine_geometry m0) = DRAM_BASE) by done.
  destruct (probe_clean _ _ addr size h Hpl ltac:(by rewrite Hbase) Hc Hgen0 Hp) as (H1 & H2 & H3).
  split_and!; [done|by rewrite <- Hg in H2|]. intros k Hk. apply bool_decide_eq_false. rewrite <- Hbase. by apply H3.
Qed.

(** * The mark of a store to code *)

Section Mark.
Context (g : Geometry) (Hpl : placed g) (Hgen : ∀ i pc, generated (call_block i pc)).
Context (Hnext : ∀ i pc m m', call_block i pc m = Some (tt, m') → urange 64 (Cpu.jit_next_pc (Sup.cpu (hart m')))).

(** What can happen before the next check of the instruction-cache generation
    that finds it moved: the parts of turns, their bookkeeping, generated code,
    and the host, which may end the run, build and install, but not discard. *)
Inductive quiet_step : t D → t D → Prop :=
| qs_code {A} (c : M (t D) A) a m m' : generated c → c m = Some (a, m') → quiet_step m m'
| qs_chain fuel hit budget r m m' : run_chain fuel hit budget m = Some (r, m') → quiet_step m m'
| qs_prof f x m m' : bump_prof f x m = Some (tt, m') → quiet_step m m'
| qs_batch n m m' : on_mach (Machine.on_bus (DeviceBus.tick_n (Z.max 0 n))) m = Some (tt, m') → quiet_step m m'
| qs_interpret n r m m' : interpret n m = Some (r, m') → quiet_step m m'
| qs_tick m m' : on_mach (Machine.on_bus DeviceBus.tick) m = Some (tt, m') → quiet_step m m'
| qs_pending m m' : flush_pending m = Some (tt, m') → quiet_step m m'
| qs_enter hit m m' : enterable m = Some (hit, m') → quiet_step m m'
| qs_finish n m m' : on_mach (Machine.finish n) m = Some (tt, m') → quiet_step m m'
| qs_build r m m' : jit_build m = Some (r, m') → quiet_step m m'
| qs_installed base m m' : jit_installed base m = Some (tt, m') → quiet_step m m'
| qs_input bytes m m' : Forall is_byte bytes → on_mach (Machine.console_input bytes) m = Some (tt, m') → quiet_step m m'
| qs_output out m m' : on_mach Machine.take_console m = Some (out, m') → quiet_step m m'
| qs_clock ns m : urange 64 ns → quiet_step m (set_mach ((mach m) <| Machine.host_ns := ns |>) m).

Lemma quiet_step_wf m m' : quiet_step m m' → wasm_wf g true m → wasm_wf g true m'.
Proof.
  destruct 1; try (by eapply kept; [|done];
    first [apply wk_run_chain|apply wk_prof|apply wk_batch|apply wk_interpret|apply wk_tick|apply wk_flush_pending|apply wk_enterable
          |apply wk_finish|apply wk_build|apply wk_installed|apply wk_input|apply wk_output|apply wk_generated]).
  by apply wk_clock.
Qed.
End Mark.

(** The imported store, at a page of code. *)
Lemma store_marks size write addr val pc pa h m m1 m' :
  interp_hist_on m = false → with_hart (Supervisor.debug_translate Store addr) m = Some (Ok pa, m1) →
  page_of pa m1 = Some (Some h, m1) → is_code_page (Z.shiftr pa 12) (jit m) = true →
  jit_store size write addr val pc m = Some (tt, m') → jit m' = (jit m) <| Cache.smc_dirty := true |>.
Proof.
  intros Hh Htr Hp Hc. assert (E1 : jit m1 = jit m ∧ interp_hist_on m1 = interp_hist_on m).
  { revert Htr. unfold with_hart, on_mach, zoom. destruct (Machine.on_hart _ _) as [[r x]|]; [|done]. by intros [= -> <-]. }
  destruct E1 as [E1 E2]. unfold jit_store. rewrite (M_bind_some _ _ m (Ok pa) m1) by exact Htr.
  rewrite (M_bind_some _ _ m1 (Some h) m1) by exact Hp.
  rewrite (M_bind_some _ _ m1 tt m1) by (unfold count_tlb_miss; rewrite M_bind_run; cbn [get]; by rewrite E2, Hh).
  rewrite M_bind_run, M_bind_run. cbn [get]. rewrite E1, Hc. unfold on_jit at 1, zoom at 1. cbn.
  unfold on_mach, zoom. destruct (Machine.on_bus _ _) as [[[] x]|]; [|done]. intros [= <-]. cbn. by rewrite E1.
Qed.

Lemma flush_flushed j j' : flush j = Some (tt, j') → flushed j'.
Proof.
  assert (Hw : wp True flush (λ _ j', flushed j') j).
  { unfold flush, bump. apply wp_bind, wp_bind, wp_get, wp_bind, wp_lift. destruct (add_u 64 _ 1); [|done].
    repeat first [apply wp_modify | apply wp_bind]. constructor; intros; cbn; by rewrite ?Tbl.at_map. }
  intros E. unfold wp in Hw. by rewrite E in Hw.
Qed.

Lemma icache_flushes (m m' : t D) :
  Cache.smc_dirty (jit m) = true → Sup.icache_gen (hart m) ≠ jit_icache_gen m → check_icache m = Some (tt, m') → flushed (jit m').
Proof.
  intros Hd Hg. unfold check_icache. rewrite M_bind_run. cbn [get id]. destruct (Z.eqb_spec (Sup.icache_gen (hart m)) (jit_icache_gen m)); [done|].
  rewrite M_bind_run. cbn [modify]. rewrite Hd, orb_true_r. unfold on_jit, zoom.
  destruct (flush _) as [[[] j]|] eqn:E; [|done]. intros [= <-]. by apply flush_flushed in E.
Qed.

(** C7: a compiled store to compiled code discards the blocks at the next
    [fence.i].  In any state that the machine reaches, with the interpreter's
    histograms off ([interp_hist_on], which only profiling sets), let the imported
    store of any width be called for an address that translates to a DRAM page with
    compiled code, and return.  Then, whatever else runs before a check of the
    instruction-cache generation (the rest of the block, more chains, interpreted
    instructions, device ticks, page flushes, the end of the run, the host
    building and installing more blocks), if that check finds the generation
    moved and returns, no block is left: no slot, no queued run,
    no usable entry in any table that generated code or [lookup] reads. *)
Theorem code_store_discards (m0 : Machine.t D) size (write : Z → Z → M (DeviceBus.t D) unit) addr val pc pa h (m m1 m2 m3 m4 : t D) :
  (∀ i pc, generated (call_block i pc)) →
  (∀ i pc x x', call_block i pc x = Some (tt, x') → urange 64 (Cpu.jit_next_pc (Sup.cpu (hart x')))) →
  machine_wf m0 → placed (machine_geometry m0) → rtc vm_step (fresh m0) m → interp_hist_on m = false →
  with_hart (Supervisor.debug_translate Store (as_u64 addr)) m = Some (Ok pa, m1) →
  page_of pa m1 = Some (Some h, m1) → is_code_page (Z.shiftr pa 12) (jit m) = true →
  (size, write) ∈ [(1, write_u8); (2, write_u16); (4, write_u32); (8, write_u64)] →
  jit_store size write (as_u64 addr) (as_u64 val) (as_u64 pc) m = Some (tt, m2) →
  rtc quiet_step m2 m3 → Sup.icache_gen (hart m3) ≠ jit_icache_gen m3 → check_icache m3 = Some (tt, m4) →
  flushed (jit m4).
Proof.
  intros Hgen Hnext Hm0 Hpl Hr Hh Htr Hp Hc Hsize Hs Hq Hg Hi. set (g := machine_geometry m0) in *.
  assert (Hm : wasm_wf g false m).
  { revert Hr. apply (rtc_ind_r (wasm_wf g false)); [by apply fresh_wasm_wf|]. intros y z _ Hst Hy. by eapply vm_step_wf. }
  assert (Hst : vm_step m m2).
  { set_unfold in Hsize. destruct_or! Hsize; simplify_eq; (eapply vs_code; [|exact Hs]);
      [apply gn_store8|apply gn_store16|apply gn_store32|apply gn_store64]. }
  pose proof (store_marks _ _ _ _ _ _ _ _ _ _ Hh Htr Hp Hc Hs) as Hj.
  assert (Hm2 : wasm_wf g true m2).
  { destruct (vm_step_wf g Hpl Hgen Hnext m m2 Hst Hm) as [H1 H2 [H3 _] H4]. constructor; [done..| |done]. split; [done|]. by rewrite Hj. }
  assert (Hm3 : wasm_wf g true m3).
  { revert Hq. apply (rtc_ind_r (wasm_wf g true)); [done|]. intros y z _ Hqs Hy. by eapply quiet_step_wf. }
  eapply icache_flushes; [|done|done]. by destruct Hm3 as [_ _ [_ Hd] _]; apply Hd.
Qed.
End Props.

(** * Runs end *)

Section Ends.
Context {D : Type} {VD : VirtioDevice D} {DV : Devices D} {PR : Profile} {TG : Target} {L : Libm} {TB : BlockTable D} {LY : Layout}.

(** A block that returns without a fault has retired an instruction, and fewer
    than 2^33 (a budget is at most 2^32). *)
Definition retires : Prop := ∀ i pc (m m' : t D), call_block i pc m = Some (tt, m') →
  Cpu.jit_fault (Sup.cpu (hart m')) ≠ 0 ∨ 1 <= Cpu.jit_insns (Sup.cpu (hart m')) < 2 ^ 33.

Context (Hret : retires).
Implicit Types m : t D.

Lemma wp_any {A} (c : M (t D) A) m : wp True c (λ _ _, True) m.
Proof. unfold wp. by destruct (c m) as [[]|]. Qed.

Lemma wp_skip {A A'} (c : M (t D) A) (k : A → M (t D) A') (Q : A' → Prop) m :
  (∀ a m', wp True (k a) (λ r _, Q r) m') → wp True (c ≫= k) (λ r _, Q r) m.
Proof. intros Hk. apply wp_bind. eapply wp_mono; [apply wp_any|]. intros a m' _. apply Hk. Qed.

Lemma run_compiled_counts hit m : wp True (run_compiled hit) (λ r _, 1 <= r < 2 ^ 33) m.
Proof.
  unfold run_compiled. apply wp_skip. intros _ m1. apply wp_skip. intros pc m2. apply wp_bind. unfold wp at 1.
  pose proof (Hret (Hit.idx hit) pc m2) as Hb. destruct (call_block _ _ m2) as [[[] m3]|]; [|done].
  specialize (Hb m3 eq_refl). apply wp_bind, wp_get. apply wp_if; intros Hf.
  - do 4 (apply wp_skip; intros). apply wp_ret. lia.
  - destruct Hb as [Hb|Hb]; [apply negb_false_iff, Z.eqb_eq in Hf; lia|].
    do 3 (apply wp_skip; intros). by apply wp_ret.
Qed.

(** A chain ends: every block brings it nearer to its budget. *)
Lemma chain_counts fuel : ∀ hit budget cmax n m,
  0 <= n < budget → budget < 2 ^ 62 → budget - n <= Z.of_nat fuel →
  wp True (chain_from fuel hit budget cmax n) (λ r _, ∃ e, r = Some e ∧ n < e < budget + 2 ^ 33) m.
Proof.
  induction fuel as [|fuel IH]; intros hit budget cmax n m Hn Hb Hf; [lia|]. cbn [chain_from].
  apply wp_skip. intros pc m1. apply wp_bind. eapply wp_mono; [apply run_compiled_counts|]. intros r m2 [Hr1 Hr2].
  assert (E : add_u 64 n r = Some (n + r)) by (apply add_u_small; unfold urange; lia). rewrite E.
  apply wp_bind, wp_lift, wp_skip. intros s m3. apply wp_if; intros _.
  { apply wp_skip. intros. apply wp_ret. exists (n + r). split; [done|lia]. }
  apply wp_skip. intros on m4. apply wp_skip. intros _ m5. apply wp_if; intros Hstop.
  { apply wp_skip. intros. apply wp_ret. exists (n + r). split; [done|lia]. }
  apply orb_false_elim in Hstop as [H1 H2]. do 3 (apply wp_skip; intros). apply wp_skip. intros [next|] m6.
  - eapply wp_mono; [apply IH; lia|]. intros x m8 (e & -> & He). exists e. split; [done|lia].
  - do 2 (apply wp_skip; intros). apply wp_ret. exists (n + r). split; [done|lia].
Qed.

Definition progress (n budget : Z) (e : TurnEnd) : Prop :=
  match e with Stops => True | GoesOn n' => n < n' < budget + 2 ^ 33 | OutOfFuel => False end.

Lemma interpret_goes_on n budget m : 0 <= n < budget → budget < 2 ^ 62 → wp True (interpret n) (λ e _, progress n budget e) m.
Proof.
  intros Hn Hb. unfold interpret. do 5 (apply wp_skip; intros). apply wp_skip. intros [] m6; [by apply wp_ret|].
  apply wp_skip. intros _ m7. assert (E : add_u 64 n 1 = Some (n + 1)) by (apply add_u_small; unfold urange; lia). rewrite E.
  apply wp_bind, wp_lift, wp_ret. unfold progress. lia.
Qed.

Lemma turn_goes_on fuel n budget m :
  0 <= n < budget → budget < 2 ^ 62 → budget - n <= Z.of_nat fuel → wp True (turn fuel n budget) (λ e _, progress n budget e) m.
Proof.
  intros Hn Hb Hf. unfold turn. do 3 (apply wp_skip; intros). apply wp_skip. intros [hit|] m4; [|by apply interpret_goes_on].
  apply wp_skip. intros p m5. assert (E : sub_u 64 budget n = Some (budget - n)) by (apply sub_u_small; unfold urange; lia). rewrite E.
  apply wp_bind, wp_lift. apply wp_bind. unfold run_chain.
  eapply wp_mono with (Q := λ r _, ∃ e, r = Some e ∧ 0 < e < budget - n + 2 ^ 33).
  - do 3 (apply wp_skip; intros). apply chain_counts; lia.
  - intros r m6 (e & -> & He). do 2 (apply wp_skip; intros).
    assert (E2 : add_u 64 n e = Some (n + e)) by (apply add_u_small; unfold urange; lia). rewrite E2.
    apply wp_bind, wp_lift, wp_ret. unfold progress. lia.
Qed.

Lemma run_loop_ends fuel : ∀ n budget m,
  0 <= n < budget + 2 ^ 33 → budget < 2 ^ 62 → (0 < fuel)%nat → budget - n < Z.of_nat fuel →
  wp True (run_loop fuel n budget) (λ r _, ∃ k, r = Some k ∧ n <= k < budget + 2 ^ 33) m.
Proof.
  induction fuel as [|fuel IH]; intros n budget m Hn Hb H0 Hf; [lia|]. cbn [run_loop]. apply wp_if; intros Hlt.
  - apply wp_bind. eapply wp_mono; [apply turn_goes_on; lia|]. intros [|n'|] m' Hp; [|cbn in Hp|done].
    + apply wp_ret. exists n. split; [done|lia].
    + eapply wp_mono; [apply IH; lia|]. intros r m2 (k & -> & Hk). exists k. split; [done|lia].
  - apply wp_skip. intros. apply wp_ret. exists n. split; [done|lia].
Qed.

(** C28: [run] ends, in the browser too.  If every block that returns without a
    fault has retired at least one instruction (which is what a chain counts its
    budget by), [budget + 1] turns and as many blocks in a chain are enough:
    every turn counts at least one instruction, a chain ends at a fault, at code
    that is not compiled, or once it has counted its budget, and a block that
    faults counts as one and gives way to the interpreter.  For a budget below
    2^62 and blocks that retire fewer than 2^33 instructions each ([retires]), a
    run that returns gives a count past the budget by less than 2^33, as one block
    may; what it never is, is out of turns. *)
Theorem wasm_run_ends fuel budget m r m' :
  0 <= budget < 2 ^ 62 → budget < Z.of_nat fuel → run fuel budget m = Some (r, m') →
  ∃ n, r = Some n ∧ 0 <= n < budget + 2 ^ 33.
Proof.
  intros Hb Hf E. assert (Hw : wp True (run fuel budget) (λ r _, ∃ k, r = Some k ∧ 0 <= k < budget + 2 ^ 33) m).
  { unfold run. apply wp_skip. intros _ m1. apply run_loop_ends; lia. }
  unfold wp in Hw. by rewrite E in Hw.
Qed.
End Ends.

(** * Concrete runs *)

#[local] Existing Instance AnyDev.device.
#[local] Existing Instance AnyDev.devices.
#[local] Existing Instance Release.
#[local] Existing Instance Wasm32.
#[local] Existing Instance ref_libm.
#[local] Existing Instance ref_libm_ok.

(** Two pages, the second with a loop of two instructions, and a [fence.i] *)

Definition demo_page : DeviceBus.t AnyDevice :=
  loaded (DeviceBus.new 8192) 0x80001000
    (to_le_bytes 4 0x00128293 ++ to_le_bytes 4 0xFE629EE3 ++ replicate 8 0 ++ to_le_bytes 4 0x0000100F).
Definition demo_vm : Machine.t AnyDevice := Machine.fresh demo_page (Sup.new 0x80001000 0) 0.

#[local] Instance demo_layout : Layout :=
  {| dram_ptr := 0x100000; chain_base := 0; chain_gen_addr := 0; tlb_r_base := 0; tlb_w_base := 0; data_gen_addr := 0;
     ras_base := 0; ras_sp_addr := 0; fregs_base := 0; fs_word_addr := 0 |}.

(** Every block stores over the loop and starts it again. *)
Definition demo_block (i pc : Z) : M (t AnyDevice) unit :=
  store64 (as_u64 0x80001000) (as_u64 0x13) (as_u64 pc);;
  upd_cpu (λ c, c <| Cpu.jit_insns := 1 |> <| Cpu.jit_next_pc := 0x80001000 |>).
#[local] Instance demo_table : BlockTable AnyDevice := demo_block.

Definition ok_state {A S} (o : option (A * S)) (d : S) : S := match o with Some (_, s) => s | None => d end.

Fixpoint arrive (n : nat) (m : t AnyDevice) : t AnyDevice :=
  match n with O => m | S n => arrive n (ok_state (on_cache_hart lookup m) m) end.
Definition demo_hot : t AnyDevice := arrive 16 (fresh demo_vm).
Definition demo_built : t AnyDevice := ok_state (jit_build demo_hot) demo_hot.
Definition demo_installed : t AnyDevice := ok_state (jit_installed 7 demo_built) demo_built.

(** The store, then a jump to the [fence.i], which is interpreted. *)
Definition demo_stored : t AnyDevice := ok_state (jit_store 8 write_u64 (as_u64 0x80001000) (as_u64 0x13) (as_u64 0) demo_installed) demo_installed.
Definition demo_translated : t AnyDevice :=
  ok_state (with_hart (Supervisor.debug_translate Store (as_u64 0x80001000)) demo_installed) demo_installed.
Definition demo_jump : M (t AnyDevice) unit := upd_cpu (λ c, c <| Cpu.pc := 0x80001010 |>).
Definition demo_jumped : t AnyDevice := ok_state (demo_jump demo_stored) demo_stored.
Definition demo_fenced : t AnyDevice := ok_state (interpret 0 demo_jumped) demo_jumped.
Definition demo_discarded : t AnyDevice := ok_state (check_icache demo_fenced) demo_fenced.

Definition is_some {A} (o : option A) : bool := match o with Some _ => true | None => false end.

Lemma ok_state_some {A S} (o : option (A * S)) d : is_some o = true → ∃ a, o = Some (a, ok_state o d).
Proof. destruct o as [[a s]|]; [|done]. by exists a. Qed.
Lemma ok_state_unit {S} (o : option (unit * S)) d : is_some o = true → o = Some (tt, ok_state o d).
Proof. by destruct o as [[[] s]|]. Qed.

Lemma ok_state_fst {A S} (o : option (A * S)) a d : fst <$> o = Some a → o = Some (a, ok_state o d).
Proof. destruct o as [[a' s]|]; [|done]. by intros [= ->]. Qed.
Lemma page_of_fst pa r (m : t AnyDevice) : fst <$> page_of pa m = Some r → page_of pa m = Some (r, m).
Proof. unfold page_of. rewrite M_bind_run. cbn [get]. unfold lift. destruct (DeviceBus.dram_page_host_addr _ _ _); [|done]. by intros [= ->]. Qed.

Fixpoint arrives_ok (n : nat) (m : t AnyDevice) : bool :=
  match n with O => true | S n => let o := on_cache_hart lookup m in is_some o && arrives_ok n (ok_state o m) end.

Lemma arrive_steps n : ∀ m, arrives_ok n m = true → rtc vm_step m (arrive n m).
Proof.
  induction n as [|n IH]; intros m; cbn [arrives_ok arrive]; [done|]. cbv zeta. intros [H1 H2]%andb_prop.
  destruct (ok_state_some _ m H1) as [hit E]. apply (rtc_l _ _ (ok_state (on_cache_hart lookup m) m)); [exact (vs_next hit m _ E)|]. by apply IH.
Qed.

Lemma demo_reached : rtc vm_step (fresh demo_vm) demo_installed.
Proof.
  transitivity demo_hot; [apply (arrive_steps 16); vm_compute; reflexivity|].
  destruct (ok_state_some (jit_build demo_hot) demo_hot) as [r E]; [vm_compute; reflexivity|].
  apply (rtc_l _ _ demo_built); [exact (vs_build r demo_hot demo_built E)|]. apply rtc_once, (vs_installed 7).
  apply (ok_state_unit (jit_installed 7 demo_built)). vm_compute. reflexivity.
Qed.

Lemma demo_generated i pc : generated (call_block i pc).
Proof. apply gn_bind; [apply gn_store64|]. intros _. apply gn_regs, jit_field_wf. intros. by split_and!. Qed.

Lemma demo_next i pc (x x' : t AnyDevice) : call_block i pc x = Some (tt, x') → urange 64 (Cpu.jit_next_pc (Sup.cpu (hart x'))).
Proof.
  unfold call_block, demo_table, demo_block. rewrite M_bind_run. destruct (store64 _ _ _ x) as [[[] y]|]; [|done].
  intros [= <-]. by unfold urange.
Qed.

Lemma demo_vm_wf : machine_wf demo_vm.
Proof.
  apply fresh_wf; [apply sup_new_wf; by unfold urange| |by unfold urange].
  apply loaded_wf; [by apply bus_new_wf|split; vm_compute; discriminate|vm_compute; by repeat constructor].
Qed.

Lemma demo_placed : placed (machine_geometry demo_vm).
Proof. unfold placed. split_and!; vm_compute; discriminate. Qed.

(** A store to the first page, which lets the next one go straight to memory. *)
Definition demo_filled : t AnyDevice :=
  ok_state (store64 (as_u64 0x80000008) (as_u64 1) (as_u64 0) demo_installed) demo_installed.

Lemma demo_filled_reached : rtc vm_step (fresh demo_vm) demo_filled.
Proof.
  apply (rtc_r _ demo_installed); [exact demo_reached|].
  apply (vs_code (store64 (as_u64 0x80000008) (as_u64 1) (as_u64 0)) tt); [apply gn_store64|].
  apply ok_state_unit. vm_compute. reflexivity.
Qed.

Lemma code_pages_guarded_witness :
  is_code_page 0x80001 (jit demo_filled) = true ∧ store_probe 0x80000010 8 (jit demo_filled) = Some 0x100010
  ∧ is_code_page (Z.shiftr (DRAM_BASE + 0x10) 12) (jit demo_filled) = false.
Proof.
  split; [vm_compute; reflexivity|]. split; [vm_compute; reflexivity|].
  destruct (code_pages_guarded demo_vm demo_filled demo_generated demo_next demo_vm_wf eq_refl demo_placed demo_filled_reached)
    as (_ & _ & H).
  destruct (H 0x80000010 8 0x100010) as (_ & _ & Hk).
  - vm_compute. discriminate.
  - vm_compute. reflexivity.
  - exact (Hk 0 ltac:(lia)).
Defined.

(** The imported store looks at the page of its first byte only: a store that
    begins on the page before and overwrites the first instruction of the loop
    with ones leaves no mark, so [fence.i] keeps the compiled loop. *)
Lemma straddling_store_unmarked :
  let m := ok_state (store64 (as_u64 0x80000FFC) (as_u64 U64_MAX) (as_u64 0) demo_installed) demo_installed in
  is_code_page 0x80001 (jit m) = true ∧ Cache.smc_dirty (jit m) = false ∧
  take 4 (drop 4096 (DeviceBus.dram (Machine.bus (mach demo_installed)))) = to_le_bytes 4 0x00128293 ∧
  take 4 (drop 4096 (DeviceBus.dram (Machine.bus (mach m)))) = to_le_bytes 4 U32_MAX.
Proof. split_and!; vm_compute; reflexivity. Qed.

Lemma demo_quiet : rtc quiet_step demo_stored demo_fenced.
Proof.
  apply (rtc_l _ _ demo_jumped); [apply (qs_code demo_jump tt)|].
  - apply gn_regs. intros c []. by constructor.
  - reflexivity.
  - destruct (ok_state_some (interpret 0 demo_jumped) demo_jumped) as [r E]; [vm_compute; reflexivity|].
    apply rtc_once. exact (qs_interpret 0 r demo_jumped demo_fenced E).
Qed.

Lemma code_store_discards_witness : flushed (jit demo_discarded) ∧ is_some (snd <$> jit_build demo_discarded) = true.
Proof.
  split; [|vm_compute; reflexivity].
  apply (code_store_discards demo_vm 8 write_u64 0x80001000 0x13 0 0x80001000 0x101000 demo_installed demo_translated demo_stored demo_fenced
    demo_discarded demo_generated demo_next demo_vm_wf demo_placed demo_reached).
  - vm_compute. reflexivity.
  - apply ok_state_fst. vm_compute. reflexivity.
  - apply page_of_fst. vm_compute. reflexivity.
  - vm_compute. reflexivity.
  - set_solver.
  - apply ok_state_unit. vm_compute. reflexivity.
  - exact demo_quiet.
  - vm_compute. discriminate.
  - apply ok_state_unit. vm_compute. reflexivity.
Defined.

Lemma demo_retires : retires (D := AnyDevice).
Proof.
  intros i pc m m'. unfold call_block, demo_table, demo_block. rewrite M_bind_run. destruct (store64 _ _ _ m) as [[[] y]|]; [|done].
  intros [= <-]. right. cbn. lia.
Qed.

Definition demo_on : t AnyDevice := demo_installed <| jit_enabled := true |>.
Definition demo_ran : t AnyDevice := ok_state (run 11 10 demo_on) demo_on.

Lemma wasm_run_ends_witness : ∃ r n, run 11 10 demo_on = Some (r, demo_ran) ∧ r = Some n ∧ 0 <= n.
Proof.
  destruct (ok_state_some (run 11 10 demo_on) demo_on) as [r E]; [vm_compute; reflexivity|].
  destruct (wasm_run_ends demo_retires 11 10 demo_on r demo_ran) as (n & Hr & Hn & _); [lia|lia|exact E|].
  exists r, n. split; [exact E|]. split; [exact Hr|exact Hn].
Defined.
